(* ===== verification/_CoqProject ===== *)
-Q . S2P
Prelude.v
Float64.v
Cube.v
Gist.v
Distance.v
Wire.v
Box.v
Split.v
Bufpage.v
Itup.v
Compact.v
PageOps.v
HeapPage.v
Xid.v
Clog.v
CommitLog.v
ClogPages.v
HotChain.v
HeapPrune.v
Combocid.v
Multixact.v
Members.v
Multis.v
MultiHorizon.v
MultiTruncate.v
MultiRestart.v
MultiLife.v
Visibility.v
Mvcc.v
Freeze.v
Freezing.v
RowLocks.v
RowLocking.v
ChainLock.v
ChainLocking.v
Procarray.v
Running.v
Horizon.v
Snapshots.v
HotPrune.v
PrunePage.v
PruneSearch.v
MvccPrune.v
PruneHorizon.v
Store.v
Insert.v
Tree.v
Index.v
Search.v
Scan.v
Interleave.v
Vacuum.v
Prune.v
Am.v
Refine.v
Build.v
GenericXLog.v
Checksum.v
Recovery.v
Defects.v
Hooks.v
Cost.v
Handler.v
Executor.v
IndexScan.v
