(* ===== verification/Prelude.v ===== *)
(** * Verification of temporal_rtree, an R-tree access method for PostgreSQL

    ** The program

    contrib/temporal_rtree (under src/postgresql) is an index access method for keys
    "attribute x validity period", stored as two-dimensional values of the cube type
    (contrib/cube) and built in SQL by contrib/temporalbox.  The server reaches it through
    the routine table of temporal_rtree_handler.c.  An index is a file of 8 kB pages:
    block 0 is the meta page, which names the root; the other pages are slotted pages
    (src/backend/storage/page/bufpage.c) of index tuples (include/access/itup.h) whose
    keys are cubes; inner tuples point to child blocks, leaf tuples to table rows.
    Changes are logged with generic log records holding full page images.  A module of
    hooks watches the planner and the executor and can bias path costs.

    ** The files

    - Prelude: integers at their width, the error monad [result], loops with [break],
      tactics, hint databases, lemmas on lists, sums and alignment.
    - Float64: IEEE doubles (the Standard Library's SpecFloat), [llround] and casts; the
      class [Platform] holds what C leaves open (results of out-of-range casts), with an
      instance for x86-64; [sval] orders doubles as integers.
    - Cube: cubedata.h and the constructors, operators and comparison of cube.c.
      Gist: the laws of those operators and the GiST support functions.  Distance: distances,
      ordering by distance, coordinate access, enlarging.  Wire: the binary form.
    - Box: RTreeTemporalBox, its conversion from and to cubes and the strategy tests
      (temporal_rtree_page.c, temporal_rtree.h), [tr_union].
    - Split: penalties and page splits (temporal_rtree_split.c).
    - Bufpage: slotted pages.  A page is its header fields, its line pointers, the memory
      of its items as cells (offset, size, item) and its special space; writes and moves
      destroy the cells they overlap.  [page_rep p its]: the page soundly stores [its].
      Compact: the other operations of bufpage.c (compaction, multi-delete, overwrite,
      repair, truncation, temporary pages).  PageOps and HeapPage: what they do to index
      pages and to heap pages ([heap_ok]).
    - Itup: block ids, item pointers and index tuples; tuples of the access method.
    - HotChain: heap tuple headers and the search of a HOT chain (heapam.c).  HeapPrune: the
      pruning of heap pages (pruneheap.c); HotPrune, PrunePage and PruneSearch: the walk
      along one chain, the plan for a page, its execution and the search afterwards.  The tests
      for visibility and for what can be removed are parameters of these files.
    - Xid: transaction ids (transam.h, transam.c); [pos base] places the ids of a window of
      2^31 on a line.  Clog: the commit log, the parents of subtransactions and the tests of
      transam.c over both (clog.c, subtrans.c, transam.c); CommitLog: what recording the end of
      a transaction does, write by write; ClogPages: how both logs grow and are truncated.
      Combocid: combo command ids (combocid.c).
    - Multixact: the ids that stand for several transactions (multixact.c): the two areas,
      their growth and limits, assigning, recording, reading and expanding ids, the cache of a
      backend.  Members: the invariant [holds] of both areas, positions counted without the
      wraparound.  Multis: several backends as one table from ids to members.  MultiHorizon: the
      oldest ids backends announce, as a state machine.  MultiTruncate: truncation of both
      areas.  MultiRestart: checkpoint data and startup.  MultiLife: the machine of all these.
    - Visibility: every test of heapam_visibility.c, with [XidInMVCCSnapshot] (snapmgr.c), over
      the class [Xacts] of what a backend asks of the transaction system.  Mvcc: the rule the
      tests implement, and what their hint bits are ([honest], [hint_step]).  MvccPrune: pruning
      with these tests.
    - Freeze: freezing of the versions on a heap page by vacuum (heapam.c, pruneheap.c).
      Freezing: what it keeps, what ids it leaves and that it succeeds.
    - RowLocks: lock modes, the bits of a header and compute_new_xmax_infomask, which adds a
      holder to a version (heapam.c, lock.c).  RowLocking: who holds a version ([holders]) and
      what adding one does.  ChainLock: the conflict tests, heap_lock_updated_tuple_rec on a
      relation [LockRel], lock records and their replay.  ChainLocking: that locks exclude each
      other ([exclusive]) along a chain, and that replay is exact.
    - Procarray: the entries of the backends, assigning ids, ending transactions, snapshots,
      progress, horizons (procarray.c, varsup.c).  Running: the state machine [step] over
      these operations and its invariant [inv]; Horizon: what holds in its runs ([xmins],
      [finished]); Snapshots: what snapshots and horizons guarantee in them.  PruneHorizon: the
      pruning of a page in such a run.
    - Store: the special space of meta and data pages, the relation (blocks, whether it
      is logged, the events it left), the state and error monad [M], buffer access, log
      records (temporal_rtree_wal.c), creation of an empty index.
    - Insert: temporal_rtree_insert.c.  Tree: the tree predicate [tree lvl bs blk c fp]
      (height, blocks, root block, leaf contents, blocks used) and the proof that
      insertion keeps it.  Index: the invariant [index_rep] of the whole file; creation
      and insertion.
    - Search: temporal_rtree_search.c.  Scan: a scan returns exactly the matches.
      Interleave: scans between whose calls rows are inserted.
    - Vacuum: temporal_rtree_vacuum.c.  Prune: vacuum keeps exactly the live tuples.
    - Am: the contract of an access method as a type class ([IndexAM], [IndexAMSpec]) and
      its clients, histories of operations.  Refine: temporal_rtree implements the
      contract; end-to-end theorems about SQL answers.
    - Build: temporal_rtree_build.c.  Handler: the routine table.
    - Executor: the index access layer (indexam.c), the fetch of versions from the heap
      (heapam_handler.c) and the index scan node (nodeIndexscan.c, execScan.c) over the
      routine table.  IndexScan: what the node returns.
    - GenericXLog: generic_xlog.c on the bytes of pages: deltas, records and their replay,
      with the choice of full images (xloginsert.c), their restoration (xlogreader.c) and
      the redo decision (xlogutils.c).  Checksum: page checksums on the same bytes
      (checksum_impl.h, bufpage.c).
    - Recovery: a crash model over the logged events, and which operations survive.
    - Defects: behaviour outside the preconditions, by evaluation.
    - Hooks: temporal_rtree_hooks.c.  Cost: temporal_rtree_cost.c.

    ** What the theorems show

    - Refinement: after any history of insertions and vacuums a scan returns exactly the
      rows the SQL operator selects (Refine, Handler), for two-dimensional keys with ordered
      corners, integral coordinates below 2^53 or infinite period ends and some extent; for
      fractional keys nothing is missed.  An index
      scan node returns exactly their visible versions, also after a rescan and while it
      prunes the heap (IndexScan).
    - Function and invariant of each operation: page operations (Bufpage, PageOps,
      HeapPage), splits (Split, Gist), insertion (Index), scans (Scan), vacuum (Prune),
      build (Build).
    - Heap pages: the search of a chain terminates with the first visible version
      (HotChain), and neither repairing nor pruning a page changes what it finds
      (HotChain, PruneSearch).
    - Transactions: the test of an MVCC snapshot is the rule of who sees what, and hint bits
      set by any test change no answer (Mvcc); the end of a transaction covers its whole tree
      and is atomic for whoever tests it, although the tree spans pages (CommitLog); the log is
      ready for an id when it is assigned, and truncation removes nothing that can be asked for
      (ClogPages); command
      ids survive their encoding (Combocid).  In every run of the machine a snapshot is exact
      for the backends that neither vacuum nor decode (with failed subtransactions counted as
      running only if it overflowed), one that is used again answers as a new one, whether a
      transaction is running is answered exactly, and what the horizon test lets go is finished
      for every snapshot of such backends of the database (Snapshots).  Put together: pruning
      takes no row version from any such snapshot that is held or taken later, whatever
      transactions end in between (PruneHorizon).
    - Freezing changes no answer, leaves no id before the limits or before the ids reported for
      the page, and raises no error on sound pages (Freezing).
    - Row locks: adding a holder takes no lock from anybody and forgets no committed update
      (RowLocking); conflicting locks are never held together along the versions of a row, the
      conflict test is exact, and lock records bring the rows back (ChainLocking).
    - Multixacts: from the first start of a cluster on, whatever backends create, expand and
      read, an id keeps its members as long as it is in use, across truncations, restarts and
      the wraparound of ids and offsets, and a backend may be answered about an id truncated
      away only if it had learnt it in its transaction (MultiLife); an id is assigned whenever the limits allow
      it (Multis); truncation and startup succeed (MultiTruncate, MultiRestart); an id that is
      taken as gone has no running member (MultiHorizon).
    - Interleaving: insertions that split no page lose and repeat no row of a running scan
      (Interleave); a split can make it return rows twice (Defects).
    - Agreement of the box tests with the SQL operators, and where it fails (Box).
    - Crash safety: insertions below the root and vacuums that leave a tuple are rebuilt
      exactly by replay; new roots and emptied indexes are not (Recovery).  Replaying a generic
      log record repeats its effect on the pages, from any mix of old and new pages, and
      deltas transform one page into the other within their array (GenericXLog).  Checksums
      accept the page that was written and refuse it elsewhere (Checksum).
    - Laws of the cube type: comparison is a total order and union a least upper bound on
      one dimension count, GiST search misses nothing there; both fail across dimension
      counts (Gist).  Distances of inner keys are lower bounds (Distance); the binary form
      reads back (Wire).
    - Hooks: transparency of loading, exact effect of the cost bias, consistency of the
      counters, which clauses count (Hooks); bounds of the cost estimate (Cost).

    ** Conventions, bounds and fuel

    Definitions are executable; errors are values ([Elog] for ereport and elog,
    [Undefined] for reads and writes outside an array, [OutOfFuel]).  A state-changing
    operation that fails keeps the changes made to shared buffers before the error.
    Insertion recurses on the level; vacuum and scans take fuel, set by their callers to
    the number of blocks (vacuum) and twice that plus two (scans), which is proved enough.
    Testing the status of a transaction takes as much fuel as its chain of parents is long.
    The walks along chains of heap tuples take one round per line pointer and two more,
    which is proved enough when update links do not run in a circle; the walk that locks later
    versions takes one per version, enough by the rank of the links; the loops of the index
    scan node take any fuel above the number of rows.  The loops of multixact.c over new pages and
    over segments take as many rounds as there are members and segments, which is proved enough.
    The theorems on whole indexes assume keys of uniform size ([good_key]: boxes with some
    extent, 48-byte tuples): with points mixed in, the split can lose rows (Defects).  An
    index accepts 65534 insertions before block numbers or levels could run out in the
    worst case ([new_capacity]).

    ** What is not modelled, and what is planned

    Buffer locks and pins (operations run one at a time, as every page is locked during
    its change), memory contexts, TOAST, indexes on several columns.  Of cube.c: text input
    and output with their scanner and parser.  Of the log: compression, record headers and
    checksums, the log file.  Of the heap: how tuples get onto its pages (insertion, update,
    deletion), the waiting of heap_lock_tuple before its final store, the log of pruning and
    freezing.  The search of chains and pruning do not write
    hint bits to the page; Mvcc shows that writing them is invisible.  Of transactions: hot
    standby, prepared transactions, group updates, the buffer pool under the commit log and
    its checkpoints, the replay of multixacts, bootstrap ids in the machine.  An
    operation of the machine is one step, as its lock makes it; the ids in use must lie within
    2^31 of each other, which the limits of varsup.c are for.  A snapshot in the machine is
    built from the entries; that using an old one again is the same is a theorem.  Of the
    executor: reordering, bitmap and parallel scans, EvalPlanQual.  The rest of the server.
    Next steps, in this order: heap insertion, deletion and HOT updates, which would prove the
    assumption that the deleter of a version starts after its inserter ([causal]), replay
    of multixacts, text input of cubes. *)

From stdpp Require Export base numbers list gmap strings.
From Stdlib Require Export ZArith Lia.

#[global] Open Scope Z_scope.

(** * Machine integers

    PostgreSQL is compiled with [-fwrapv] (configure.ac), so signed arithmetic
    wraps around.  A C integer is a [Z] kept in range by the conversions. *)

Declare Scope c_scope.
Delimit Scope c_scope with C.

Definition PG_INT64_MIN : Z := - 2 ^ 63.
Definition PG_INT64_MAX : Z := 2 ^ 63 - 1.
Definition PG_INT32_MIN : Z := - 2 ^ 31.
Definition PG_INT32_MAX : Z := 2 ^ 31 - 1.

Definition int64 (z : Z) : Z := (z + 2 ^ 63) mod 2 ^ 64 - 2 ^ 63.
Definition int32 (z : Z) : Z := (z + 2 ^ 31) mod 2 ^ 32 - 2 ^ 31.
Definition uint16 (z : Z) : Z := z mod 2 ^ 16.
Definition uint32 (z : Z) : Z := z mod 2 ^ 32.
Definition uint64 (z : Z) : Z := z mod 2 ^ 64.

Definition is_int64 (z : Z) : Prop := PG_INT64_MIN ≤ z ≤ PG_INT64_MAX.
Definition is_int32 (z : Z) : Prop := PG_INT32_MIN ≤ z ≤ PG_INT32_MAX.

(** A C flag test [(w & f) != 0]. *)
Definition has_flag (w f : Z) : bool := negb (Z.land w f =? 0).

(** * Error values

    [elog(ERROR)] and [ereport(ERROR)] end an operation with a message; a
    [PANIC] is the same value here.  [Undefined] marks a read the C program has
    no defined value for (bytes that hold no item, an index past an array), and
    [OutOfFuel] a bounded loop that was cut short; the theorems that an operation
    succeeds exclude both. *)

Inductive error : Type :=
  | Elog (msg : string)
  | Undefined (what : string)
  | OutOfFuel.

Inductive result (A : Type) : Type :=
  | Ok (a : A)
  | Err (e : error).
Arguments Ok {A} a.
Arguments Err {A} e.

Definition is_Ok {A} (r : result A) : bool :=
  match r with Ok _ => true | Err _ => false end.

#[export] Instance result_ret : MRet result := @Ok.
#[export] Instance result_bind : MBind result :=
  λ A B f r, match r with Ok a => f a | Err e => Err e end.

(** A value that must be there. *)
Definition some_or {A} (what : string) (o : option A) : result A :=
  match o with Some a => Ok a | None => Err (Undefined what) end.

(** The outcome of a loop body: go on with a new state, or leave the loop. *)
Inductive loop (A B : Type) : Type :=
  | Continue (a : A)
  | Break (b : B).
Arguments Continue {A B} a.
Arguments Break {A B} b.

(** A loop over a list that threads a state and can fail. *)
Fixpoint fold_result {S X} (f : S → X → result S) (s : S) (l : list X) : result S :=
  match l with
  | [] => Ok s
  | x :: l => s ← f s x; fold_result f s l
  end.

(** * Tactics shared by the development *)

(** Split conjunctions and existentials of the context. *)
Ltac des :=
  repeat match goal with
  | H : exists _, _ |- _ => destruct H
  | H : _ /\ _ |- _ => destruct H
  end.

(** Decide the boolean tests of the goal and of the context. *)
Ltac bool_cases :=
  repeat match goal with
  | |- context [if ?b then _ else _] => let E := fresh "E" in destruct b eqn:E
  | H : context [if ?b then _ else _] |- _ => let E := fresh "E" in destruct b eqn:E
  end.

(** Turn boolean comparisons of the context into propositions. *)
Ltac bprop :=
  repeat match goal with
  | H : (_ && _)%bool = true |- _ => apply andb_true_iff in H; destruct H
  | H : (_ || _)%bool = false |- _ => apply orb_false_iff in H; destruct H
  | H : negb _ = true |- _ => apply negb_true_iff in H
  | H : negb _ = false |- _ => apply negb_false_iff in H
  | H : (_ <? _) = true |- _ => apply Z.ltb_lt in H
  | H : (_ <? _) = false |- _ => apply Z.ltb_ge in H
  | H : (_ <=? _) = true |- _ => apply Z.leb_le in H
  | H : (_ <=? _) = false |- _ => apply Z.leb_gt in H
  | H : (_ =? _) = true |- _ => apply Z.eqb_eq in H
  | H : (_ =? _) = false |- _ => apply Z.eqb_neq in H
  end.

Ltac zbool := bprop; try lia.

(** Run the error monad. *)
Ltac rsimpl := cbn [mbind result_bind mret result_ret some_or negb fst snd].

Create HintDb pg discriminated.
Create Rewrite HintDb pg.

(** * Facts on machine integers *)

Lemma int64_id (z : Z) : is_int64 z → int64 z = z.
Proof.
  unfold is_int64, int64, PG_INT64_MIN, PG_INT64_MAX. intros ?.
  rewrite Z.mod_small; lia.
Qed.

Lemma int32_id (z : Z) : is_int32 z → int32 z = z.
Proof.
  unfold is_int32, int32, PG_INT32_MIN, PG_INT32_MAX. intros ?.
  rewrite Z.mod_small; lia.
Qed.

Lemma int64_range (z : Z) : is_int64 (int64 z).
Proof.
  unfold is_int64, int64, PG_INT64_MIN, PG_INT64_MAX.
  pose proof (Z.mod_pos_bound (z + 2 ^ 63) (2 ^ 64)). lia.
Qed.

Lemma int32_range (z : Z) : is_int32 (int32 z).
Proof.
  unfold is_int32, int32, PG_INT32_MIN, PG_INT32_MAX.
  pose proof (Z.mod_pos_bound (z + 2 ^ 31) (2 ^ 32)). lia.
Qed.

Lemma uint16_id (z : Z) : 0 ≤ z < 2 ^ 16 → uint16 z = z.
Proof. intros ?. unfold uint16. by apply Z.mod_small. Qed.

Lemma uint32_id (z : Z) : 0 ≤ z < 2 ^ 32 → uint32 z = z.
Proof. intros ?. unfold uint32. by apply Z.mod_small. Qed.

#[export] Hint Resolve int64_range int32_range : pg.

(** * Flags *)

Lemma has_flag_lor w f g : has_flag (Z.lor w f) g = has_flag w g || has_flag f g.
Proof.
  unfold has_flag. rewrite Z.land_lor_distr_l, <- negb_andb. f_equal.
  destruct (Z.eqb_spec (Z.land w g) 0) as [->|H1]; [done|]. apply Z.eqb_neq. rewrite Z.lor_eq_0_iff. tauto.
Qed.

Lemma has_flag_ldiff_self w f : has_flag (Z.ldiff w f) f = false.
Proof. unfold has_flag. by rewrite Z.land_ldiff. Qed.

(** * Lists *)

Definition zlen {A} (l : list A) : Z := Z.of_nat (length l).

Definition zsum {A} (f : A → Z) (l : list A) : Z :=
  foldr (λ x a, f x + a) 0 l.

Lemma zsum_app {A} (f : A → Z) l1 l2 : zsum f (l1 ++ l2) = zsum f l1 + zsum f l2.
Proof. induction l1; simpl; lia. Qed.

Lemma zsum_cons {A} (f : A → Z) x l : zsum f (x :: l) = f x + zsum f l.
Proof. done. Qed.

Lemma zsum_perm {A} (f : A → Z) l1 l2 : l1 ≡ₚ l2 → zsum f l1 = zsum f l2.
Proof. induction 1; simpl; lia. Qed.

Lemma zsum_nonneg {A} (f : A → Z) l : (∀ x, 0 ≤ f x) → 0 ≤ zsum f l.
Proof. intros Hf. induction l as [|x l IH]; simpl; [lia|]. specialize (Hf x). lia. Qed.

Lemma zsum_const {A} (f : A → Z) c l : Forall (λ x, f x = c) l → zsum f l = c * zlen l.
Proof.
  unfold zlen. induction 1 as [|x l Hx _ IH]; simpl; [lia|]. rewrite IH, Hx. lia.
Qed.

Lemma zlen_app {A} (l1 l2 : list A) : zlen (l1 ++ l2) = zlen l1 + zlen l2.
Proof. unfold zlen. rewrite length_app. lia. Qed.

Lemma zlen_nonneg {A} (l : list A) : 0 ≤ zlen l.
Proof. unfold zlen. lia. Qed.

#[export] Hint Rewrite @zsum_app @zlen_app @zsum_cons : pg.

(** Taking an element out of a list, up to permutation. *)
Lemma delete_Permutation' {A} (l : list A) i x :
  l !! i = Some x → l ≡ₚ x :: delete i l.
Proof. apply delete_Permutation. Qed.

Lemma concat_perm {A} (l1 l2 : list (list A)) : l1 ≡ₚ l2 → concat l1 ≡ₚ concat l2.
Proof.
  induction 1 as [|x l l' _ IH|x y l|l l' l'' _ IH1 _ IH2]; simpl; auto.
  - by rewrite IH.
  - rewrite !app_assoc. by rewrite (Permutation_app_comm y x).
  - by rewrite IH1.
Qed.

(** [(seq 0 n)] read through an index list that permutes it. *)
Lemma omap_lookup_seq {A} (l : list A) : omap (λ i, l !! i) (seq 0 (length l)) = l.
Proof.
  induction l as [|x l IH]; [done|].
  cbn [length seq omap list_omap]. simpl. f_equal.
  rewrite <- seq_shift. etrans; [|exact IH]. clear IH.
  generalize (seq 0 (length l)). intros s.
  induction s as [|i s IHs]; [done|]. simpl. destruct (l !! i); simpl; [f_equal|]; exact IHs.
Qed.

Lemma omap_perm {A B} (f : A → option B) l1 l2 : l1 ≡ₚ l2 → omap f l1 ≡ₚ omap f l2.
Proof.
  induction 1 as [|x l l' _ IH|x y l|l l' l'' _ IH1 _ IH2]; simpl; auto.
  - destruct (f x); [by constructor|done].
  - destruct (f x), (f y); try done. by constructor.
  - by rewrite IH1.
Qed.

Lemma filter_ext_Forall {A} (P Q : A → Prop) `{∀ x, Decision (P x), ∀ x, Decision (Q x)} (l : list A) :
  Forall (λ x, P x ↔ Q x) l → filter P l = filter Q l.
Proof.
  induction 1 as [|y l Hy _ IH]; [done|]. rewrite !filter_cons, IH. repeat case_decide; tauto || done.
Qed.

Lemma filter_none {A} (P : A → Prop) `{∀ x, Decision (P x)} (l : list A) :
  Forall (λ x, ¬ P x) l → filter P l = [].
Proof. induction 1; [done|]. by rewrite filter_cons_False. Qed.

Lemma filter_all {A} (P : A → Prop) `{∀ x, Decision (P x)} (l : list A) :
  Forall P l → filter P l = l.
Proof. induction 1 as [|x l Hx _ IH]; [done|]. by rewrite filter_cons_True, IH. Qed.

(** A symmetric relation between all pairs of a list does not depend on the order. *)
Lemma ForallOrdPairs_perm {A} (R : A → A → Prop) `{!Symmetric R} l1 l2 :
  l1 ≡ₚ l2 → ForallOrdPairs R l1 → ForallOrdPairs R l2.
Proof.
  induction 1 as [|x l l' Hp IH|x y l|l l' l'' _ IH1 _ IH2]; intros HF; auto.
  - inversion_clear HF. constructor; [|auto]. rewrite List.Forall_forall in *.
    intros z Hz. apply H. eapply Permutation_in; [symmetry|]; eauto.
  - inversion_clear HF as [|? ? H1 H2]. inversion_clear H2 as [|? ? H3 H4].
    inversion_clear H1. constructor; [|by constructor]. constructor; [by symmetry|done].
Qed.

Lemma ForallOrdPairs_map {A B} (R : A → A → Prop) (S : B → B → Prop) (f : A → B) l :
  ForallOrdPairs R l →
  (∀ x y, x ∈ l → y ∈ l → R x y → S (f x) (f y)) →
  ForallOrdPairs S (map f l).
Proof.
  induction 1 as [|x l Hx Hl IH]; intros HS; cbn; constructor.
  - apply List.Forall_forall. intros y Hy%in_map_iff. destruct Hy as (z & <- & Hz).
    rewrite List.Forall_forall in Hx. apply HS; [left|right; by apply list_elem_of_In|auto].
  - apply IH. intros. apply HS; [by right|by right|done].
Qed.

Lemma take_drop_insert_perm {A} i (x : A) l : take i l ++ x :: drop i l ≡ₚ x :: l.
Proof. rewrite <- Permutation_middle. by rewrite take_drop. Qed.

(** * Alignment *)

(** [MAXALIGN]: round up to a multiple of 8. *)
Definition MAXALIGN (len : Z) : Z := Z.land (len + 7) (Z.lnot 7).
#[global] Arguments MAXALIGN : simpl never.

Lemma MAXALIGN_spec z : MAXALIGN z = (z + 7) / 8 * 8.
Proof.
  unfold MAXALIGN. rewrite <- Z.ldiff_land. change 7 with (Z.ones 3) at 2.
  rewrite Z.ldiff_ones_r by lia. rewrite Z.shiftl_mul_pow2, Z.shiftr_div_pow2 by lia. done.
Qed.

Lemma MAXALIGN_bounds z : z ≤ MAXALIGN z < z + 8.
Proof.
  rewrite MAXALIGN_spec. pose proof (Z.div_mod (z + 7) 8). pose proof (Z.mod_pos_bound (z + 7) 8). lia.
Qed.

Lemma MAXALIGN_mult z : MAXALIGN z mod 8 = 0.
Proof. rewrite MAXALIGN_spec. apply Z.mod_mul. lia. Qed.

Lemma MAXALIGN_id z : z mod 8 = 0 → MAXALIGN z = z.
Proof.
  intros Hz. pose proof (MAXALIGN_bounds z). pose proof (MAXALIGN_mult z) as Hm.
  apply Z.mod_divide in Hz as [a ->], Hm as [b Hb]; lia.
Qed.

Lemma zsum_Forall_nonneg {A} (f : A → Z) l : Forall (λ x, 0 ≤ f x) l → 0 ≤ zsum f l.
Proof. induction 1; simpl; lia. Qed.

Lemma insert_perm_delete {A} (l : list A) i x y :
  l !! i = Some x → <[i := y]> l ≡ₚ y :: delete i l.
Proof.
  intros Hi. pose proof (lookup_lt_Some _ _ _ Hi).
  rewrite insert_take_drop, delete_take_drop by done. by rewrite <- Permutation_middle.
Qed.

Lemma concat_map_perm {A B} (f : A → list B) l1 l2 :
  l1 ≡ₚ l2 → concat (map f l1) ≡ₚ concat (map f l2).
Proof. intros HP. apply concat_perm. by apply Permutation_map. Qed.

Lemma concat_map_app {A B} (f : A → list B) l1 l2 :
  concat (map f (l1 ++ l2)) = concat (map f l1) ++ concat (map f l2).
Proof. by rewrite map_app, concat_app. Qed.

Lemma Forall2_insert_both {A B} (R : A → B → Prop) l k i x y :
  Forall2 R l k → R x y → Forall2 R (<[i := x]> l) (<[i := y]> k).
Proof. intros. by apply Forall2_insert. Qed.

Lemma NoDup_range_length (l : list Z) (n : nat) :
  NoDup l → (∀ b, b ∈ l → 0 ≤ b < Z.of_nat n) → (length l ≤ n)%nat.
Proof.
  intros HN Hr. pose proof (length_seqZ 0 (Z.of_nat n)) as Hl. rewrite Nat2Z.id in Hl.
  rewrite <- Hl. apply submseteq_length, NoDup_submseteq; [done|].
  intros b Hb. apply elem_of_seqZ. specialize (Hr _ Hb). lia.
Qed.

Lemma Forall_filter {A} (P Q : A → Prop) `{∀ x, Decision (Q x)} (l : list A) :
  Forall P l → Forall P (filter Q l).
Proof.
  rewrite !Forall_forall. intros HP x [_ Hx]%list_elem_of_filter. auto.
Qed.
