(* ===== verification/Float64.v ===== *)
(** IEEE 754 binary64 arithmetic as the C code uses it.

    A C [double] is a [spec_float] of the Standard Library's executable model
    at precision 53 and maximal exponent 1024; the operations round to nearest
    even.  The file adds the C conversions between integers and doubles,
    [llround], and the order of doubles read through an integer scale. *)

From Stdlib Require Export SpecFloat.
From S2P Require Import Prelude.

Abbreviation double := spec_float.

Definition dadd : double → double → double := SFadd 53 1024.
Definition dsub : double → double → double := SFsub 53 1024.
Definition dmul : double → double → double := SFmul 53 1024.
Definition ddiv : double → double → double := SFdiv 53 1024.
Definition dlt (x y : double) : bool := SFltb x y.
Definition dgt (x y : double) : bool := SFltb y x.
Definition dle (x y : double) : bool := SFleb x y.
Definition deq (x y : double) : bool := SFeqb x y.

(** The macros [Min] and [Max] of c.h at type [double]. *)
Definition dmin (x y : double) : double := if dlt x y then x else y.
Definition dmax (x y : double) : double := if dgt x y then x else y.

Definition isinf (x : double) : bool :=
  match x with S754_infinity _ => true | _ => false end.

Definition d0 : double := S754_zero false.
Definition dinf : double := S754_infinity false.

(** [(double) z] for an integer [z], rounded to nearest even. *)
Definition i2d (z : Z) : double := binary_normalize 53 1024 z 0 false.

(** The decimal literal [n / d] of the source, correctly rounded. *)
Definition dlit (n d : Z) : double := ddiv (i2d n) (i2d d).

Definition d1 : double := i2d 1.

(** Round half away from zero of [m * 2^e]. *)
Definition round_away (m : positive) (e : Z) : Z :=
  if 0 <=? e then Z.pos m * 2 ^ e
  else (Z.pos m + 2 ^ (- e - 1)) / 2 ^ (- e).

(** Truncation of [m * 2^e]. *)
Definition trunc_pos (m : positive) (e : Z) : Z :=
  if 0 <=? e then Z.pos m * 2 ^ e else Z.pos m / 2 ^ (- e).

Definition in_int64 (z : Z) : bool := (PG_INT64_MIN <=? z) && (z <=? PG_INT64_MAX).
Definition in_int32 (z : Z) : bool := (PG_INT32_MIN <=? z) && (z <=? PG_INT32_MAX).

(** What the C standard leaves open: the result of [llround] and of a
    conversion to a signed integer when the value does not fit (or is not a
    number).  [llround] gives one of the two extreme values on the supported
    machines: the minimum on x86-64, the nearer one on AArch64. *)
Class Platform : Type := {
  llround_unspec : double → Z;
  cast_unspec : double → Z;
  llround_unspec_extreme :
    ∀ x, llround_unspec x = PG_INT64_MIN ∨ llround_unspec x = PG_INT64_MAX;
}.

(** x86-64 with gcc: cvtsd2si yields the minimum; gcc folds the one
    out-of-range constant conversion of the source to the maximum. *)
#[export] Instance x86_64 : Platform := {|
  llround_unspec := λ _, PG_INT64_MIN;
  cast_unspec := λ _, PG_INT64_MAX;
  llround_unspec_extreme := λ _, or_introl eq_refl;
|}.

Definition llround `{Platform} (x : double) : Z :=
  match x with
  | S754_zero _ => 0
  | S754_finite s m e =>
      let z := cond_Zopp s (round_away m e) in
      if in_int64 z then z else llround_unspec x
  | _ => llround_unspec x
  end.

(** [(int64) x] and [(int32) x]. *)
Definition d2i64 `{Platform} (x : double) : Z :=
  match x with
  | S754_zero _ => 0
  | S754_finite s m e =>
      let z := cond_Zopp s (trunc_pos m e) in
      if in_int64 z then z else cast_unspec x
  | _ => cast_unspec x
  end.

Definition d2i32 `{Platform} (x : double) : Z :=
  match x with
  | S754_zero _ => 0
  | S754_finite s m e =>
      let z := cond_Zopp s (trunc_pos m e) in
      if in_int32 z then z else cast_unspec x
  | _ => cast_unspec x
  end.

(** [floor]-based integer rounding of libm, for the cost model: [ceil] and
    [rint] (to nearest even) of a double, as doubles. *)
Definition dceil (x : double) : double :=
  match x with
  | S754_finite s m e =>
      if 0 <=? e then x
      else if s then
        let q := Z.pos m / 2 ^ (- e) in
        if q =? 0 then S754_zero true else i2d (- q)
      else i2d (- ((- Z.pos m) / 2 ^ (- e)))
  | _ => x
  end.

Definition drint (x : double) : double :=
  match x with
  | S754_finite s m e =>
      if 0 <=? e then x
      else
        let d := 2 ^ (- e) in
        let q := Z.pos m / d in
        let r := Z.pos m mod d in
        let q' := match 2 * r ?= d with
                  | Lt => q
                  | Gt => q + 1
                  | Eq => if Z.even q then q else q + 1
                  end in
        if q' =? 0 then S754_zero s else i2d (cond_Zopp s q')
  | _ => x
  end.

(** * Order *)

(** A double scaled by 2^1074, an integer; the infinities are beyond every
    finite value. *)
Definition sval (x : double) : Z :=
  match x with
  | S754_zero _ => 0
  | S754_infinity s => cond_Zopp s (2 ^ 2100)
  | S754_nan => 0
  | S754_finite s m e => cond_Zopp s (Z.pos m * 2 ^ (e + 1074))
  end.

Definition valid (x : double) : Prop := valid_binary 53 1024 x = true.
Definition not_nan (x : double) : Prop := x ≠ S754_nan.
Definition finite (x : double) : Prop :=
  match x with S754_zero _ | S754_finite _ _ _ => True | _ => False end.

(** A proper value: not a NaN, in canonical form. *)
Definition number (x : double) : Prop := valid x ∧ not_nan x.

Lemma digits2_pos_log2 (m : positive) : Z.pos (digits2_pos m) = Z.log2 (Z.pos m) + 1.
Proof.
  induction m as [m IH|m IH|]; cbn [digits2_pos]; [| |done].
  - rewrite Pos2Z.inj_succ, IH. change (Z.pos m~1) with (2 * Z.pos m + 1).
    rewrite Z.log2_succ_double by lia. lia.
  - rewrite Pos2Z.inj_succ, IH. change (Z.pos m~0) with (2 * Z.pos m).
    rewrite Z.log2_double by lia. lia.
Qed.

Lemma digits_bounds (m : positive) :
  2 ^ (Z.pos (digits2_pos m) - 1) ≤ Z.pos m < 2 ^ Z.pos (digits2_pos m).
Proof.
  rewrite digits2_pos_log2.
  replace (Z.log2 (Z.pos m) + 1 - 1) with (Z.log2 (Z.pos m)) by lia.
  replace (Z.log2 (Z.pos m) + 1) with (Z.succ (Z.log2 (Z.pos m))) by lia.
  apply Z.log2_spec. lia.
Qed.

(** What canonical form says of a finite double. *)
Lemma bounded_spec (m : positive) (e : Z) :
  bounded 53 1024 m e = true →
  -1074 ≤ e ≤ 971 ∧ Z.pos m < 2 ^ 53 ∧ (-1074 < e → 2 ^ 52 ≤ Z.pos m).
Proof.
  unfold bounded, canonical_mantissa, fexp, emin. intros H. bprop.
  pose proof (digits_bounds m) as [Hlo Hhi].
  set (d := Z.pos (digits2_pos m)) in *.
  assert (Hd : d ≤ 53) by lia.
  split; [lia|]. split.
  - eapply Z.lt_le_trans; [exact Hhi|]. apply Z.pow_le_mono_r; lia.
  - intros He. replace 52 with (d - 1) by lia. done.
Qed.

Lemma pos_compare_Z (m1 m2 : positive) :
  Pos.compare_cont Eq m1 m2 = (Z.pos m1 ?= Z.pos m2).
Proof. done. Qed.

Lemma mag_lt (m1 m2 e1 e2 : Z) :
  0 < m1 < 2 ^ 53 → 2 ^ 52 ≤ m2 → 0 ≤ e1 < e2 → m1 * 2 ^ e1 < m2 * 2 ^ e2.
Proof.
  intros H1 H2 He.
  apply Z.lt_le_trans with (2 ^ 53 * 2 ^ e1).
  { apply Z.mul_lt_mono_pos_r; [apply Z.pow_pos_nonneg; lia|lia]. }
  apply Z.le_trans with (2 ^ 52 * 2 ^ e2).
  { rewrite <- !Z.pow_add_r by lia. apply Z.pow_le_mono_r; lia. }
  apply Z.mul_le_mono_nonneg_r; [apply Z.pow_nonneg; lia|lia].
Qed.

(** Magnitudes of two canonical doubles compare like their scaled values. *)
Lemma compare_mag m1 e1 m2 e2 :
  bounded 53 1024 m1 e1 = true → bounded 53 1024 m2 e2 = true →
  (Z.pos m1 * 2 ^ (e1 + 1074) ?= Z.pos m2 * 2 ^ (e2 + 1074)) =
  match e1 ?= e2 with Lt => Lt | Gt => Gt | Eq => Z.pos m1 ?= Z.pos m2 end.
Proof.
  intros H1 H2.
  apply bounded_spec in H1 as (He1 & Hm1 & Hn1), H2 as (He2 & Hm2 & Hn2).
  destruct (Z.compare_spec e1 e2) as [->|Hlt|Hgt].
  - symmetry. apply Zmult_compare_compat_r. apply Z.lt_gt, Z.pow_pos_nonneg; lia.
  - apply Z.compare_lt_iff. apply mag_lt; lia.
  - apply Z.compare_gt_iff. apply mag_lt; lia.
Qed.

Lemma mag_bound m e :
  bounded 53 1024 m e = true → 0 < Z.pos m * 2 ^ (e + 1074) < 2 ^ 2100.
Proof.
  intros (He & Hm & _)%bounded_spec. split.
  - apply Z.mul_pos_pos; [lia|]. apply Z.pow_pos_nonneg; lia.
  - apply Z.lt_le_trans with (2 ^ 53 * 2 ^ (e + 1074)).
    { apply Z.mul_lt_mono_pos_r; [apply Z.pow_pos_nonneg; lia|lia]. }
    rewrite <- Z.pow_add_r by lia. apply Z.pow_le_mono_r; lia.
Qed.

Lemma compare_opp a b : (- a ?= - b) = CompOpp (a ?= b).
Proof. rewrite Z.compare_opp. apply Z.compare_antisym. Qed.

Lemma CompOpp_match (c : comparison) (x : comparison) :
  CompOpp (match c with Lt => Lt | Gt => Gt | Eq => x end) =
  match c with Lt => Gt | Gt => Lt | Eq => CompOpp x end.
Proof. by destruct c. Qed.

(** Comparison of proper doubles is comparison of their scaled values. *)
Lemma SFcompare_sval (x y : double) :
  number x → number y → SFcompare x y = Some (sval x ?= sval y).
Proof.
  unfold number, valid, not_nan. intros [Vx Nx] [Vy Ny].
  destruct x as [sx|sx| |sx mx ex], y as [sy|sy| |sy my ey]; try congruence;
    cbn [valid_binary] in Vx, Vy; cbn [SFcompare sval]; f_equal;
    try pose proof (mag_bound _ _ Vx) as Bx; try pose proof (mag_bound _ _ Vy) as By;
    try (destruct sx, sy); try destruct sx; try destruct sy; cbn [cond_Zopp];
    try (symmetry; apply Z.compare_lt_iff; lia);
    try (symmetry; apply Z.compare_gt_iff; lia);
    try (symmetry; apply Z.compare_eq_iff; lia);
    rewrite ?compare_opp, compare_mag, ?CompOpp_match, ?pos_compare_Z by done; done.
Qed.

Lemma dlt_sval x y : number x → number y → dlt x y = (sval x <? sval y).
Proof.
  intros ??. unfold dlt, SFltb. rewrite SFcompare_sval by done.
  unfold Z.ltb. by destruct (sval x ?= sval y).
Qed.

Lemma dle_sval x y : number x → number y → dle x y = (sval x <=? sval y).
Proof.
  intros ??. unfold dle, SFleb. rewrite SFcompare_sval by done.
  unfold Z.leb. by destruct (sval x ?= sval y).
Qed.

Lemma deq_sval x y : number x → number y → deq x y = (sval x =? sval y).
Proof.
  intros ??. unfold deq, SFeqb. rewrite SFcompare_sval by done.
  rewrite Z.eqb_compare. by destruct (sval x ?= sval y).
Qed.

(** * Rounding to integers *)

Definition scale : Z := 2 ^ 1074.

Lemma scale_pos : 0 < scale.
Proof. by apply Z.pow_pos_nonneg. Qed.

Lemma scale_half : scale = 2 * 2 ^ 1073.
Proof. unfold scale. rewrite <- Z.pow_succ_r by lia. done. Qed.

(** Round half away from zero of a scaled value. *)
Definition rnd (v : Z) : Z :=
  if 0 <=? v then (v + 2 ^ 1073) / scale else - ((- v + 2 ^ 1073) / scale).

Lemma round_away_scaled m e :
  -1074 ≤ e → round_away m e = (Z.pos m * 2 ^ (e + 1074) + 2 ^ 1073) / scale.
Proof.
  intros He. unfold round_away.
  assert (Hh : 0 ≤ 2 ^ 1073 < scale).
  { rewrite scale_half. pose proof (Z.pow_pos_nonneg 2 1073). lia. }
  destruct (0 <=? e) eqn:E; bprop.
  - rewrite Z.pow_add_r by lia. fold scale. rewrite Z.mul_assoc.
    rewrite Z.div_add_l by lia. rewrite (Z.div_small (2 ^ 1073)) by lia. lia.
  - replace (2 ^ 1073) with (2 ^ (- e - 1) * 2 ^ (e + 1074))
      by (rewrite <- Z.pow_add_r by lia; f_equal; lia).
    rewrite <- Z.mul_add_distr_r. unfold scale.
    replace 1074 with (- e + (e + 1074)) at 2 by lia.
    rewrite (Z.pow_add_r 2 (- e)) by lia.
    rewrite Z.div_mul_cancel_r; [done| |]; apply Z.pow_nonzero; lia.
Qed.

Lemma rnd_opp v : rnd (- v) = - rnd v.
Proof.
  assert (Hz : (0 + 2 ^ 1073) / scale = 0).
  { apply Z.div_small. rewrite scale_half. pose proof (Z.pow_pos_nonneg 2 1073). lia. }
  unfold rnd. destruct (Z.leb_spec 0 v), (Z.leb_spec 0 (- v)); try lia.
  - replace v with 0 by lia. change (- 0) with 0. rewrite Hz. done.
  - by rewrite Z.opp_involutive.
Qed.

Lemma rnd_mono v w : v ≤ w → rnd v ≤ rnd w.
Proof.
  pose proof scale_pos. pose proof (Z.pow_pos_nonneg 2 1073 ltac:(lia) ltac:(lia)).
  intros Hvw. unfold rnd.
  destruct (Z.leb_spec 0 v), (Z.leb_spec 0 w); try lia.
  - apply Z.div_le_mono; lia.
  - pose proof (Z.div_pos (w + 2 ^ 1073) scale). pose proof (Z.div_pos (- v + 2 ^ 1073) scale).
    lia.
  - apply -> Z.opp_le_mono. apply Z.div_le_mono; lia.
Qed.

Lemma rnd_scaled z : rnd (z * scale) = z.
Proof.
  assert (Hp : ∀ k, 0 ≤ k → (k * scale + 2 ^ 1073) / scale = k).
  { intros k Hk. pose proof scale_pos. rewrite Z.div_add_l by lia.
    rewrite Z.div_small; [lia|]. rewrite scale_half.
    pose proof (Z.pow_pos_nonneg 2 1073). lia. }
  unfold rnd. pose proof scale_pos. destruct (Z.leb_spec 0 (z * scale)) as [Hs|Hs].
  - apply Hp. nia.
  - rewrite <- Z.mul_opp_l, Hp by nia. lia.
Qed.

(** Where [llround] is specified it is the rounding of the scaled value. *)
Lemma llround_rnd `{Platform} x :
  number x → finite x → is_int64 (rnd (sval x)) → llround x = rnd (sval x).
Proof.
  unfold number, valid. intros [Vx _] Fx Hr.
  destruct x as [s|s| |s m e]; try done.
  cbn [valid_binary] in Vx. pose proof (bounded_spec _ _ Vx) as (He & _).
  assert (Hz : rnd (sval (S754_finite s m e)) = cond_Zopp s (round_away m e)).
  { cbn [sval]. pose proof (mag_bound _ _ Vx) as Hb.
    rewrite round_away_scaled by lia. destruct s; cbn [cond_Zopp].
    - rewrite rnd_opp. unfold rnd. rewrite (proj2 (Z.leb_le _ _)) by lia. done.
    - unfold rnd. rewrite (proj2 (Z.leb_le _ _)) by lia. done. }
  unfold llround. rewrite Hz in Hr. rewrite Hz.
  unfold in_int64, is_int64 in *. bool_cases; [done|].
  apply andb_false_iff in E as [E|E]; zbool.
Qed.

(** * Exactness of the integer conversion *)

Lemma iter_xO_shift (m k : positive) :
  Z.pos (Pos.iter xO m k) = Z.pos m * 2 ^ Z.pos k.
Proof.
  rewrite Pos2Nat.inj_iter, <- (positive_nat_Z k).
  generalize (Pos.to_nat k). intros n.
  induction n as [|n IH]; [simpl; lia|].
  rewrite Nat2Z.inj_succ, Z.pow_succ_r by lia. simpl nat_rect.
  rewrite Pos2Z.inj_xO, IH. lia.
Qed.

Lemma digits_unique (m : positive) (d : Z) :
  0 < d → 2 ^ (d - 1) ≤ Z.pos m < 2 ^ d → Z.pos (digits2_pos m) = d.
Proof.
  intros Hd Hm. rewrite digits2_pos_log2.
  rewrite (Z.log2_unique (Z.pos m) (d - 1)); [lia|lia|].
  replace (Z.succ (d - 1)) with d by lia. lia.
Qed.

Lemma binary_round_aux_exact s m e :
  bounded 53 1024 m e = true →
  binary_round_aux 53 1024 s (Z.pos m) e loc_Exact = S754_finite s m e.
Proof.
  intros H. pose proof H as Hb. unfold bounded, canonical_mantissa in H. bprop.
  unfold binary_round_aux, shr_fexp. cbn [Zdigits2].
  rewrite H, Z.sub_diag.
  cbn [shr shr_record_of_loc shr_m loc_of_shr_record round_nearest_even].
  cbn [Zdigits2]. rewrite H, Z.sub_diag. cbn [shr shr_record_of_loc shr_m].
  by rewrite (proj2 (Z.leb_le _ _)) by lia.
Qed.

(** An integer of magnitude below 2^53 converts exactly. *)
Lemma i2d_pos_exact s (p : positive) :
  Z.pos p < 2 ^ 53 →
  ∃ m e, binary_round 53 1024 s p 0 = S754_finite s m e ∧
         bounded 53 1024 m e = true ∧ Z.pos m * 2 ^ (e + 1074) = Z.pos p * scale.
Proof.
  intros Hp. pose proof (digits_bounds p) as [Hlo Hhi].
  set (d := Z.pos (digits2_pos p)) in *.
  assert (Hd : 0 < d ≤ 53).
  { split; [lia|]. destruct (Z.le_gt_cases d 53); [done|].
    assert (2 ^ 53 ≤ 2 ^ (d - 1)) by (apply Z.pow_le_mono_r; lia). lia. }
  assert (Hm : ∃ m, shl_align p 0 (d - 53) = (m, d - 53) ∧ Z.pos m = Z.pos p * 2 ^ (53 - d)).
  { unfold shl_align. rewrite Z.sub_0_r.
    destruct (d - 53) as [|k|k] eqn:E; [|lia|].
    - exists p. split; [done|]. replace (53 - d) with 0 by lia. lia.
    - exists (Pos.iter xO p k). split; [done|].
      rewrite iter_xO_shift. f_equal. f_equal. lia. }
  destruct Hm as (m & Hal & Hmv).
  assert (Hdm : Z.pos (digits2_pos m) = 53).
  { apply digits_unique; [lia|]. rewrite Hmv.
    replace (2 ^ (53 - 1)) with (2 ^ (d - 1) * 2 ^ (53 - d))
      by (rewrite <- Z.pow_add_r by lia; f_equal; lia).
    replace (2 ^ 53) with (2 ^ d * 2 ^ (53 - d))
      by (rewrite <- Z.pow_add_r by lia; f_equal; lia).
    pose proof (Z.pow_pos_nonneg 2 (53 - d)). nia. }
  assert (Hb : bounded 53 1024 m (d - 53) = true).
  { unfold bounded, canonical_mantissa, fexp, emin. rewrite Hdm.
    rewrite (proj2 (Z.leb_le _ _)) by lia. rewrite (proj2 (Z.eqb_eq _ _)) by lia. done. }
  exists m, (d - 53). split; [|split; [done|]].
  - unfold binary_round. fold d.
    replace (fexp 53 1024 (d + 0)) with (d - 53) by (unfold fexp, emin; lia).
    rewrite Hal. by apply binary_round_aux_exact.
  - rewrite Hmv, <- Z.mul_assoc. f_equal.
    unfold scale. rewrite <- Z.pow_add_r by lia. f_equal. lia.
Qed.

Lemma i2d_exact (z : Z) :
  Z.abs z < 2 ^ 53 → number (i2d z) ∧ finite (i2d z) ∧ sval (i2d z) = z * scale.
Proof.
  intros Hz. unfold number, valid, not_nan, i2d, binary_normalize.
  destruct z as [|p|p]; [done| |];
    destruct (i2d_pos_exact false p) as (m & e & E & Hb & Hv); try lia;
    destruct (i2d_pos_exact true p) as (m' & e' & E' & Hb' & Hv'); try lia.
  - rewrite E. cbn [valid_binary finite sval cond_Zopp]. by rewrite Hv.
  - rewrite E'. cbn [valid_binary finite sval cond_Zopp].
    split_and!; [done|done|done|]. rewrite Hv'. lia.
Qed.

(** An integer of magnitude below 2^53 survives the trip through a double. *)
Lemma llround_i2d `{Platform} (z : Z) : Z.abs z < 2 ^ 53 → llround (i2d z) = z.
Proof.
  intros Hz. destruct (i2d_exact z Hz) as (Hn & Hf & Hv).
  rewrite llround_rnd; rewrite ?Hv, ?rnd_scaled; try done.
  unfold is_int64, PG_INT64_MIN, PG_INT64_MAX. lia.
Qed.

Lemma llround_i2d_min `{Platform} : llround (i2d PG_INT64_MIN) = PG_INT64_MIN.
Proof. vm_compute. done. Qed.

(** The largest int64 rounds up to 2^63, which does not come back. *)
Lemma llround_i2d_max `{Platform} :
  llround (i2d PG_INT64_MAX) = PG_INT64_MIN ∨ llround (i2d PG_INT64_MAX) = PG_INT64_MAX.
Proof.
  replace (llround (i2d PG_INT64_MAX)) with (llround_unspec (i2d PG_INT64_MAX))
    by (vm_compute; done).
  apply llround_unspec_extreme.
Qed.

(** The order of exactly converted integers. *)
Lemma dlt_i2d (y z : Z) :
  Z.abs y < 2 ^ 53 → Z.abs z < 2 ^ 53 → dlt (i2d y) (i2d z) = (y <? z).
Proof.
  intros Hy Hz. destruct (i2d_exact y Hy) as (Ny & _ & Vy), (i2d_exact z Hz) as (Nz & _ & Vz).
  rewrite dlt_sval, Vy, Vz by done. pose proof scale_pos.
  destruct (Z.ltb_spec y z), (Z.ltb_spec (y * scale) (z * scale)); try done; nia.
Qed.

(** * Minimum and maximum *)

Lemma dmin_number x y : number x → number y → number (dmin x y).
Proof. unfold dmin. by destruct (dlt x y). Qed.

Lemma dmax_number x y : number x → number y → number (dmax x y).
Proof. unfold dmax. by destruct (dgt x y). Qed.

Lemma dmin_sval x y : number x → number y → sval (dmin x y) = Z.min (sval x) (sval y).
Proof. intros ??. unfold dmin. rewrite dlt_sval by done. bool_cases; zbool. Qed.

Lemma dmax_sval x y : number x → number y → sval (dmax x y) = Z.max (sval x) (sval y).
Proof. intros ??. unfold dmax, dgt. fold (dlt y x). rewrite dlt_sval by done. bool_cases; zbool. Qed.

Lemma dgt_sval x y : number x → number y → dgt x y = (sval y <? sval x).
Proof. intros ??. unfold dgt. fold (dlt y x). by rewrite dlt_sval. Qed.

Lemma number_d0 : number d0.
Proof. done. Qed.

#[export] Hint Resolve dmin_number dmax_number number_d0 : pg.
