(* ===== verification/Cube.v ===== *)
(** The [cube] data type (contrib/cube): the NDBOX value, its constructors, its
    SQL operators and its GiST support functions.  A cube of dimension [d] holds
    its lower-left corner and, unless the point bit is set, its upper-right
    corner; the corners need not be normalised. *)

From S2P Require Import Prelude Float64.

Definition CUBE_MAX_DIM : Z := 100.
Definition POINT_BIT : Z := 0x80000000.
Definition DIM_MASK : Z := 0x7fffffff.

Record NDBOX : Type := mkNDBOX {
  vl_size : Z;          (* VARSIZE: the size in bytes recorded in vl_len_ *)
  header : Z;           (* dimension in the low bits, the point flag in bit 31 *)
  x : list double;      (* coordinates: lower-left corner, then upper-right *)
}.

(** * Access macros of cubedata.h *)

Definition IS_POINT (c : NDBOX) : bool := has_flag (header c) POINT_BIT.
Definition DIM (c : NDBOX) : Z := Z.land (header c) DIM_MASK.
Definition SET_POINT_BIT (h : Z) : Z := Z.lor h POINT_BIT.
Definition SET_DIM (h d : Z) : Z := Z.lor (Z.land h (Z.lnot DIM_MASK)) d.

(** The array read [x[i]]; a read past the allocated coordinates, which the
    well-formedness of cubes excludes, gives zero. *)
Definition coord (c : NDBOX) (i : nat) : double := default d0 (x c !! i).

Definition dimn (c : NDBOX) : nat := Z.to_nat (DIM c).
Definition LL_COORD (c : NDBOX) (i : nat) : double := coord c i.
Definition UR_COORD (c : NDBOX) (i : nat) : double :=
  if IS_POINT c then coord c i else coord c (i + dimn c)%nat.

Definition POINT_SIZE (dim : Z) : Z := 8 + 8 * dim.
Definition CUBE_SIZE (dim : Z) : Z := 8 + 8 * dim * 2.

(** The normalised bounds [Min(LL, UR)] and [Max(LL, UR)] every operator uses. *)
Definition lo (c : NDBOX) (i : nat) : double := dmin (LL_COORD c i) (UR_COORD c i).
Definition hi (c : NDBOX) (i : nat) : double := dmax (LL_COORD c i) (UR_COORD c i).

(** The C loop [for (i = a; i < b; i++)] as the list of its indices. *)
Definition range (a b : nat) : list nat := seq a (b - a).

(** * Constructors *)

Definition point_cube (dim : Z) (xs : list double) : NDBOX :=
  mkNDBOX (POINT_SIZE dim) (SET_POINT_BIT (SET_DIM 0 dim)) xs.
Definition box_cube (dim : Z) (xs : list double) : NDBOX :=
  mkNDBOX (CUBE_SIZE dim) (SET_DIM 0 dim) xs.

(** [cube(float8[], float8[])]; the arguments hold no NULLs. *)
Definition cube_a_f8_f8 (ur ll : list double) : result NDBOX :=
  let dim := zlen ur in
  if CUBE_MAX_DIM <? dim then Err (Elog "can't extend cube")
  else if negb (zlen ll =? dim) then
    Err (Elog "UR and LL arrays must be of same length")
  else
    let point := forallb (λ '(u, l), deq u l) (zip ur ll) in
    Ok (if point then point_cube dim ur else box_cube dim (ur ++ ll)).

(** [cube(float8[])]. *)
Definition cube_a_f8 (ur : list double) : result NDBOX :=
  let dim := zlen ur in
  if CUBE_MAX_DIM <? dim then Err (Elog "array is too long")
  else Ok (point_cube dim ur).

(** [cube(float8)] and [cube(float8, float8)]. *)
Definition cube_f8 (v : double) : NDBOX := point_cube 1 [v].
Definition cube_f8_f8 (x0 x1 : double) : NDBOX :=
  if deq x0 x1 then point_cube 1 [x0] else box_cube 1 [x0; x1].

(** [cube(cube, float8)] and [cube(cube, float8, float8)] add a dimension. *)
Definition cube_c_f8 (cube : NDBOX) (v : double) : result NDBOX :=
  let n := dimn cube in
  if CUBE_MAX_DIM <? DIM cube + 1 then Err (Elog "can't extend cube")
  else Ok (if IS_POINT cube
           then point_cube (DIM cube + 1) (map (coord cube) (range 0 n) ++ [v])
           else box_cube (DIM cube + 1)
                  (map (coord cube) (range 0 n) ++ [v] ++
                   map (λ i, coord cube (n + i)%nat) (range 0 n) ++ [v])).

Definition cube_c_f8_f8 (cube : NDBOX) (x1 x2 : double) : result NDBOX :=
  let n := dimn cube in
  if CUBE_MAX_DIM <? DIM cube + 1 then Err (Elog "can't extend cube")
  else Ok (if IS_POINT cube && deq x1 x2
           then point_cube (DIM cube + 1) (map (coord cube) (range 0 n) ++ [x1])
           else box_cube (DIM cube + 1)
                  (map (LL_COORD cube) (range 0 n) ++ [x1] ++
                   map (UR_COORD cube) (range 0 n) ++ [x2])).

(** [cube_subset(cube, int4[])]. *)
Definition cube_subset (c : NDBOX) (dx : list Z) : result NDBOX :=
  let dim := zlen dx in
  if CUBE_MAX_DIM <? dim then Err (Elog "array is too long")
  else if negb (forallb (λ d, negb ((d <=? 0) || (DIM c <? d))) dx) then
    Err (Elog "Index out of bounds")
  else
    let low := map (λ d, coord c (Z.to_nat (d - 1))) dx in
    Ok (if IS_POINT c then point_cube dim low
        else box_cube dim (low ++ map (λ d, coord c (Z.to_nat (d + DIM c - 1))) dx)).

(** * Operators *)

Definition cube_is_point_internal (c : NDBOX) : bool :=
  if IS_POINT c then true
  else forallb (λ i, deq (LL_COORD c i) (UR_COORD c i)) (range 0 (dimn c)).

(** Set the point flag of a freshly built box when it turns out to be a point. *)
Definition flag_point (c : NDBOX) : NDBOX :=
  if cube_is_point_internal c
  then mkNDBOX (POINT_SIZE (DIM c)) (SET_POINT_BIT (header c)) (x c)
  else c.

(** [cube_union_v0] of two cubes at different addresses; for one and the same pointer the
    code returns it. *)
Definition cube_union_v0 (a b : NDBOX) : NDBOX :=
  let '(a, b) := if DIM a <? DIM b then (b, a) else (a, b) in
  let low := map (λ i, dmin (lo a i) (lo b i)) (range 0 (dimn b)) ++
             map (λ i, dmin d0 (lo a i)) (range (dimn b) (dimn a)) in
  let high := map (λ i, dmax (hi a i) (hi b i)) (range 0 (dimn b)) ++
              map (λ i, dmax d0 (hi a i)) (range (dimn b) (dimn a)) in
  flag_point (box_cube (DIM a) (low ++ high)).

Definition cube_inter (a b : NDBOX) : NDBOX :=
  let '(a, b) := if DIM a <? DIM b then (b, a) else (a, b) in
  let low := map (λ i, dmax (lo a i) (lo b i)) (range 0 (dimn b)) ++
             map (λ i, dmax d0 (lo a i)) (range (dimn b) (dimn a)) in
  let high := map (λ i, dmin (hi a i) (hi b i)) (range 0 (dimn b)) ++
              map (λ i, dmin d0 (hi a i)) (range (dimn b) (dimn a)) in
  flag_point (box_cube (DIM a) (low ++ high)).

(** Volume; [None] is the NULL pointer GiST may pass. *)
Definition rt_cube_size (a : option NDBOX) : double :=
  match a with
  | None => d0
  | Some a =>
      if IS_POINT a || (DIM a =? 0) then d0
      else foldl (λ r i, dmul r (SFabs (dsub (UR_COORD a i) (LL_COORD a i))))
             d1 (range 0 (dimn a))
  end.

(** The first nonzero verdict of a loop that returns early. *)
Fixpoint first_verdict {A} (f : A → option Z) (l : list A) : option Z :=
  match l with
  | [] => None
  | i :: l => match f i with Some r => Some r | None => first_verdict f l end
  end.

(** One loop body of cube_cmp_v0: 1 if [u > v], -1 if [u < v], else go on. *)
Definition cmp_step (u v : double) : option Z :=
  if dgt u v then Some 1 else if dlt u v then Some (-1) else None.

Definition cube_cmp_v0 (a b : NDBOX) : Z :=
  let dim := Nat.min (dimn a) (dimn b) in
  match first_verdict (λ i, cmp_step (lo a i) (lo b i)) (range 0 dim) with
  | Some r => r
  | None =>
  match first_verdict (λ i, cmp_step (hi a i) (hi b i)) (range 0 dim) with
  | Some r => r
  | None =>
    if DIM b <? DIM a then
      match first_verdict (λ i, cmp_step (lo a i) d0) (range dim (dimn a)) with
      | Some r => r
      | None =>
      match first_verdict (λ i, cmp_step (hi a i) d0) (range dim (dimn a)) with
      | Some r => r
      | None => 1
      end end
    else if DIM a <? DIM b then
      match first_verdict (λ i, Z.opp <$> cmp_step (lo b i) d0) (range dim (dimn b)) with
      | Some r => r
      | None =>
      match first_verdict (λ i, Z.opp <$> cmp_step (hi b i) d0) (range dim (dimn b)) with
      | Some r => r
      | None => -1
      end end
    else 0
  end end.

Definition cube_eq (a b : NDBOX) : bool := cube_cmp_v0 a b =? 0.
Definition cube_ne (a b : NDBOX) : bool := negb (cube_cmp_v0 a b =? 0).
Definition cube_lt (a b : NDBOX) : bool := cube_cmp_v0 a b <? 0.
Definition cube_gt (a b : NDBOX) : bool := 0 <? cube_cmp_v0 a b.
Definition cube_le (a b : NDBOX) : bool := cube_cmp_v0 a b <=? 0.
Definition cube_ge (a b : NDBOX) : bool := 0 <=? cube_cmp_v0 a b.

Definition cube_contains_v0 (a b : NDBOX) : bool :=
  (if DIM a <? DIM b
   then forallb (λ i, deq (LL_COORD b i) d0 && deq (UR_COORD b i) d0)
          (range (dimn a) (dimn b))
   else true) &&
  forallb (λ i, negb (dgt (lo a i) (lo b i)) && negb (dlt (hi a i) (hi b i)))
    (range 0 (Nat.min (dimn a) (dimn b))).

Definition cube_contains (a b : NDBOX) : bool := cube_contains_v0 a b.
Definition cube_contained (a b : NDBOX) : bool := cube_contains_v0 b a.

Definition cube_overlap_v0 (a b : NDBOX) : bool :=
  let '(a, b) := if DIM a <? DIM b then (b, a) else (a, b) in
  forallb (λ i, negb (dgt (lo a i) (hi b i)) && negb (dlt (hi a i) (lo b i)))
    (range 0 (dimn b)) &&
  forallb (λ i, negb (dgt (lo a i) d0) && negb (dlt (hi a i) d0))
    (range (dimn b) (dimn a)).

(** * Bounds of a cube with proper coordinates *)

Definition cube_numbers (c : NDBOX) : Prop :=
  ∀ i, number (LL_COORD c i) ∧ number (UR_COORD c i).

Section bounds.
Context (c : NDBOX) (Hc : cube_numbers c).

Lemma lo_number i : number (lo c i).
Proof. destruct (Hc i). by apply dmin_number. Qed.
Lemma hi_number i : number (hi c i).
Proof. destruct (Hc i). by apply dmax_number. Qed.
Lemma lo_sval i : sval (lo c i) = Z.min (sval (LL_COORD c i)) (sval (UR_COORD c i)).
Proof. destruct (Hc i). by apply dmin_sval. Qed.
Lemma hi_sval i : sval (hi c i) = Z.max (sval (LL_COORD c i)) (sval (UR_COORD c i)).
Proof. destruct (Hc i). by apply dmax_sval. Qed.
End bounds.

#[export] Hint Resolve lo_number hi_number : pg.

(** The operators on two cubes of dimension two, over the integer scale. *)
Lemma cube_overlap_2d a b :
  cube_numbers a → cube_numbers b → DIM a = 2 → DIM b = 2 →
  cube_overlap_v0 a b =
  negb ((sval (hi b 0) <? sval (lo a 0)) || (sval (hi a 0) <? sval (lo b 0)) ||
        (sval (hi b 1) <? sval (lo a 1)) || (sval (hi a 1) <? sval (lo b 1))).
Proof.
  intros Ha Hb Da Db. unfold cube_overlap_v0.
  replace (DIM a <? DIM b) with false by (rewrite Da, Db; done).
  unfold dimn, range. rewrite Da, Db. change (Z.to_nat 2) with 2%nat.
  cbn [seq Nat.sub forallb].
  rewrite !dgt_sval, !dlt_sval by auto with pg. rewrite !negb_orb, !andb_true_r.
  by rewrite !andb_assoc.
Qed.

Lemma cube_contains_2d a b :
  cube_numbers a → cube_numbers b → DIM a = 2 → DIM b = 2 →
  cube_contains_v0 a b =
  (sval (lo a 0) <=? sval (lo b 0)) && (sval (hi b 0) <=? sval (hi a 0)) &&
  (sval (lo a 1) <=? sval (lo b 1)) && (sval (hi b 1) <=? sval (hi a 1)).
Proof.
  intros Ha Hb Da Db. unfold cube_contains_v0.
  replace (DIM a <? DIM b) with false by (rewrite Da, Db; done).
  unfold dimn, range. rewrite Da, Db. change (Z.to_nat 2) with 2%nat.
  cbn [seq Nat.sub Nat.min forallb].
  rewrite !dgt_sval, !dlt_sval by auto with pg. rewrite <- !Z.leb_antisym, !andb_true_r.
  by rewrite !andb_assoc.
Qed.

Lemma cube_numbers_coords c : Forall number (x c) → cube_numbers c.
Proof.
  intros Hx i.
  assert (Hi : ∀ j, number (coord c j)).
  { intros j. unfold coord. destruct (x c !! j) eqn:E; [|apply number_d0].
    cbn. eapply Forall_lookup_1; eauto. }
  unfold LL_COORD, UR_COORD. destruct (IS_POINT c); auto.
Qed.
