(* ===== verification/Gist.v ===== *)
(** contrib/cube as an index key type: the laws of its comparison, containment, overlap
    and union, and the GiST support functions built on them. *)

From S2P Require Import Prelude Float64 Cube.

(** * GiST support functions *)

Definition RTOverlapStrategyNumber : Z := 3.
Definition RTSameStrategyNumber : Z := 6.
Definition RTContainsStrategyNumber : Z := 7.
Definition RTContainedByStrategyNumber : Z := 8.
Definition RTOldContainsStrategyNumber : Z := 13.
Definition RTOldContainedByStrategyNumber : Z := 14.

Definition g_cube_leaf_consistent (key query : NDBOX) (strategy : Z) : bool :=
  if strategy =? RTOverlapStrategyNumber then cube_overlap_v0 key query
  else if strategy =? RTSameStrategyNumber then cube_cmp_v0 key query =? 0
  else if (strategy =? RTContainsStrategyNumber) || (strategy =? RTOldContainsStrategyNumber)
  then cube_contains_v0 key query
  else if (strategy =? RTContainedByStrategyNumber) || (strategy =? RTOldContainedByStrategyNumber)
  then cube_contains_v0 query key
  else false.

Definition g_cube_internal_consistent (key query : NDBOX) (strategy : Z) : bool :=
  if strategy =? RTOverlapStrategyNumber then cube_overlap_v0 key query
  else if (strategy =? RTSameStrategyNumber) || (strategy =? RTContainsStrategyNumber) ||
          (strategy =? RTOldContainsStrategyNumber)
  then cube_contains_v0 key query
  else if (strategy =? RTContainedByStrategyNumber) || (strategy =? RTOldContainedByStrategyNumber)
  then cube_overlap_v0 key query
  else false.

(** The result and the recheck flag. *)
Definition g_cube_consistent (leaf : bool) (key query : NDBOX) (strategy : Z) : bool * bool :=
  (if leaf then g_cube_leaf_consistent key query strategy
   else g_cube_internal_consistent key query strategy, false).

(** The union and its size. *)
Definition g_cube_binary_union (r1 r2 : NDBOX) : NDBOX * Z :=
  let retval := cube_union_v0 r1 r2 in (retval, vl_size retval).

(** [None] is the null pointer the function returns for a vector of one entry. *)
Definition g_cube_union (entries : list NDBOX) : result (option NDBOX * Z) :=
  match entries with
  | [] => Err (Undefined "vector[0]")
  | e :: rest =>
      let '(_, out, size) :=
        foldl (λ '(tmp, _, _) e, let '(out, size) := g_cube_binary_union tmp e in (out, Some out, size))
          (e, None, vl_size e) rest in
      Ok (out, size)
  end.

(** The penalty before its conversion to [float]. *)
Definition g_cube_penalty (orig new : NDBOX) : double :=
  dsub (rt_cube_size (Some (cube_union_v0 orig new))) (rt_cube_size (Some orig)).

Definition g_cube_same (b1 b2 : NDBOX) : bool := cube_cmp_v0 b1 b2 =? 0.

(** * Split *)

(** The seed loops: over all pairs [i < j <= maxoff] of the entries 1 .. maxoff, the one
    that wastes most.  Entry [i] of the vector is [ent i]. *)
Record seeds : Type := mkSeeds { seed_1 : nat; seed_2 : nat; seed_waste : double; firsttime : bool }.

Definition seed_step (ent : nat → NDBOX) (s : seeds) (ij : nat * nat) : seeds :=
  let '(i, j) := ij in
  let size_union := rt_cube_size (Some (cube_union_v0 (ent i) (ent j))) in
  let size_inter := rt_cube_size (Some (cube_inter (ent i) (ent j))) in
  let size_waste := dsub size_union size_inter in
  if dgt size_waste (seed_waste s) || firsttime s then mkSeeds i j size_waste false else s.

Definition seed_pairs (maxoff : nat) : list (nat * nat) :=
  flat_map (λ i, map (λ j, (i, j)) (seq (i + 1) (maxoff - i))) (seq 1 (maxoff - 1)).

Definition find_seeds (ent : nat → NDBOX) (maxoff : nat) : seeds :=
  foldl (seed_step ent) (mkSeeds 1 2 d0 true) (seed_pairs maxoff).

Record split_acc : Type := mkAcc {
  datum_l : NDBOX; size_l : double; spl_left : list nat;
  datum_r : NDBOX; size_r : double; spl_right : list nat;
}.

(** Placing entry [i]. *)
Definition place (ent : nat → NDBOX) (s1 s2 : nat) (a : split_acc) (i : nat) : split_acc :=
  if (i =? s1)%nat then mkAcc (datum_l a) (size_l a) (spl_left a ++ [i]) (datum_r a) (size_r a) (spl_right a)
  else if (i =? s2)%nat then mkAcc (datum_l a) (size_l a) (spl_left a) (datum_r a) (size_r a) (spl_right a ++ [i])
  else
    let union_dl := cube_union_v0 (datum_l a) (ent i) in
    let union_dr := cube_union_v0 (datum_r a) (ent i) in
    let size_alpha := rt_cube_size (Some union_dl) in
    let size_beta := rt_cube_size (Some union_dr) in
    if dlt (dsub size_alpha (size_l a)) (dsub size_beta (size_r a))
    then mkAcc union_dl size_alpha (spl_left a ++ [i]) (datum_r a) (size_r a) (spl_right a)
    else mkAcc (datum_l a) (size_l a) (spl_left a) union_dr size_beta (spl_right a ++ [i]).

(** The entry vector without its unused element 0; at least two entries.  The seeds are
    sought among all but the last entry; [cube_union_v0] of a seed with itself is the seed. *)
Definition g_cube_picksplit (entries : list NDBOX) : split_acc :=
  let ent i := nth (i - 1) entries (point_cube 0 []) in
  let maxoff := (length entries - 1)%nat in
  let s := find_seeds ent maxoff in
  let l := ent (seed_1 s) in
  let r := ent (seed_2 s) in
  foldl (place ent (seed_1 s) (seed_2 s))
    (mkAcc l (rt_cube_size (Some l)) [] r (rt_cube_size (Some r)) []) (seq 1 (maxoff + 1)).

(** * Cubes of one dimension count

    For cubes without NaN coordinates the operators compare the integers [slo] and [shi]. *)

Definition slo (c : NDBOX) (i : nat) : Z := sval (lo c i).
Definition shi (c : NDBOX) (i : nat) : Z := sval (hi c i).

Definition cube_ok (n : nat) (c : NDBOX) : Prop := DIM c = Z.of_nat n ∧ cube_numbers c.

Lemma cube_ok_dimn n c : cube_ok n c → dimn c = n.
Proof. intros [Hd _]. unfold dimn. rewrite Hd. lia. Qed.

Lemma slo_shi n c i : cube_ok n c → slo c i ≤ shi c i.
Proof. intros [_ Hc]. unfold slo, shi. rewrite lo_sval, hi_sval by done. lia. Qed.

Lemma in_range i a b : In i (range a b) ↔ (a ≤ i < b)%nat.
Proof. unfold range. rewrite in_seq. lia. Qed.

Lemma cube_contains_spec n a b :
  cube_ok n a → cube_ok n b →
  cube_contains_v0 a b = true ↔ ∀ i, (i < n)%nat → slo a i ≤ slo b i ∧ shi b i ≤ shi a i.
Proof.
  intros Ha Hb. pose proof (cube_ok_dimn _ _ Ha) as Da. pose proof (cube_ok_dimn _ _ Hb) as Db.
  destruct Ha as [Ea Na], Hb as [Eb Nb]. unfold cube_contains_v0. rewrite Da, Db, Ea, Eb, Z.ltb_irrefl, Nat.min_id.
  cbn [andb]. rewrite forallb_forall. setoid_rewrite in_range. unfold slo, shi. split.
  - intros H i Hi. specialize (H i ltac:(lia)). rewrite dgt_sval, dlt_sval in H by auto with pg. zbool.
  - intros H i Hi. specialize (H i ltac:(lia)). rewrite dgt_sval, dlt_sval by auto with pg.
    rewrite andb_true_iff, !negb_true_iff, !Z.ltb_ge. lia.
Qed.

Lemma cube_overlap_spec n a b :
  cube_ok n a → cube_ok n b →
  cube_overlap_v0 a b = true ↔ ∀ i, (i < n)%nat → slo a i ≤ shi b i ∧ slo b i ≤ shi a i.
Proof.
  intros Ha Hb. pose proof (cube_ok_dimn _ _ Ha) as Da. pose proof (cube_ok_dimn _ _ Hb) as Db.
  destruct Ha as [Ea Na], Hb as [Eb Nb]. unfold cube_overlap_v0. rewrite Ea, Eb, Z.ltb_irrefl, Da, Db.
  unfold range at 2. rewrite Nat.sub_diag. cbn [forallb seq]. rewrite andb_true_r, forallb_forall.
  setoid_rewrite in_range. unfold slo, shi. split.
  - intros H i Hi. specialize (H i ltac:(lia)). rewrite dgt_sval, dlt_sval in H by auto with pg. zbool.
  - intros H i Hi. specialize (H i ltac:(lia)). rewrite dgt_sval, dlt_sval by auto with pg.
    rewrite andb_true_iff, !negb_true_iff, !Z.ltb_ge. lia.
Qed.

(** * Union *)

Lemma DIM_range c : 0 ≤ DIM c < 2 ^ 31.
Proof.
  unfold DIM. change DIM_MASK with (Z.ones 31). rewrite Z.land_ones by lia. by apply Z.mod_pos_bound.
Qed.

Lemma DIM_small d : 0 ≤ d < 2 ^ 31 → Z.land d DIM_MASK = d.
Proof. intros Hd. change DIM_MASK with (Z.ones 31). rewrite Z.land_ones by lia. by apply Z.mod_small. Qed.

Lemma box_cube_dim d xs : 0 ≤ d < 2 ^ 31 → DIM (box_cube d xs) = d.
Proof. intros Hd. unfold DIM, box_cube, SET_DIM. cbn [header]. by rewrite Z.land_0_l, Z.lor_0_l, DIM_small. Qed.

Lemma box_cube_not_point d xs : 0 ≤ d < 2 ^ 31 → IS_POINT (box_cube d xs) = false.
Proof.
  intros Hd. unfold IS_POINT, has_flag, box_cube, SET_DIM. cbn [header]. rewrite Z.land_0_l, Z.lor_0_l.
  apply negb_false_iff, Z.eqb_eq. apply Z.bits_inj'. intros k Hk. rewrite Z.land_spec, Z.bits_0.
  change POINT_BIT with (2 ^ 31). destruct (Z.eqb_spec k 31) as [->|Hne].
  - rewrite (Z.bits_above_log2 d 31); [done|lia|]. destruct (Z.eq_dec d 0) as [->|]; [by cbn|].
    apply Z.log2_lt_pow2; lia.
  - rewrite (Z.pow2_bits_false 31 k) by lia. apply andb_false_r.
Qed.

Lemma flag_point_spec c :
  IS_POINT c = false → cube_numbers c →
  DIM (flag_point c) = DIM c ∧ cube_numbers (flag_point c) ∧
  ∀ i, (i < dimn c)%nat → slo (flag_point c) i = slo c i ∧ shi (flag_point c) i = shi c i.
Proof.
  intros Hp Hc. unfold flag_point. destruct (cube_is_point_internal c) eqn:Hpt; [|done].
  unfold cube_is_point_internal in Hpt. rewrite Hp, forallb_forall in Hpt.
  set (c' := mkNDBOX _ _ _).
  assert (HP : IS_POINT c' = true).
  { unfold IS_POINT, c'. cbn [header]. unfold has_flag, SET_POINT_BIT. apply negb_true_iff, Z.eqb_neq.
    rewrite Z.land_lor_distr_l, Z.land_diag. intros [_ E]%Z.lor_eq_0_iff. done. }
  assert (HD : DIM c' = DIM c).
  { unfold DIM, c'. cbn [header]. unfold SET_POINT_BIT. rewrite Z.land_lor_distr_l.
    change (Z.land POINT_BIT DIM_MASK) with 0. by rewrite Z.lor_0_r. }
  assert (HL : ∀ i, LL_COORD c' i = LL_COORD c i) by done.
  assert (HU : ∀ i, UR_COORD c' i = LL_COORD c i) by (intros i; unfold UR_COORD; by rewrite HP).
  assert (Hc' : cube_numbers c') by (intros i; rewrite HL, HU; split; apply Hc).
  split_and!; [done|done|]. intros i Hi. unfold slo, shi. rewrite !lo_sval, !hi_sval, HL, HU by done.
  assert (E : deq (LL_COORD c i) (UR_COORD c i) = true) by (apply Hpt, in_range; lia).
  destruct (Hc i). rewrite deq_sval in E by done. zbool.
Qed.

Lemma union_spec n a b :
  cube_ok n a → cube_ok n b →
  cube_ok n (cube_union_v0 a b) ∧
  ∀ i, (i < n)%nat → slo (cube_union_v0 a b) i = Z.min (slo a i) (slo b i) ∧
                     shi (cube_union_v0 a b) i = Z.max (shi a i) (shi b i).
Proof.
  intros Ha Hb. pose proof (cube_ok_dimn _ _ Ha) as Da. pose proof (cube_ok_dimn _ _ Hb) as Db.
  destruct Ha as [Ea Na], Hb as [Eb Nb]. unfold cube_union_v0. rewrite Ea, Eb, Z.ltb_irrefl, Da, Db.
  unfold range. rewrite Nat.sub_diag, Nat.sub_0_r. cbn [seq map]. rewrite !app_nil_r.
  set (low := map _ _). set (high := map _ _). set (u := box_cube _ _).
  pose proof (DIM_range a) as HR. rewrite Ea in HR.
  assert (Hlow : ∀ i, (i < n)%nat → low !! i = Some (dmin (lo a i) (lo b i))).
  { intros i Hi. unfold low. rewrite list_lookup_fmap, lookup_seq_lt by lia. done. }
  assert (Hhigh : ∀ i, (i < n)%nat → high !! i = Some (dmax (hi a i) (hi b i))).
  { intros i Hi. unfold high. rewrite list_lookup_fmap, lookup_seq_lt by lia. done. }
  assert (Ll : length low = n) by (unfold low; by rewrite length_map, length_seq).
  assert (Hu : cube_numbers u).
  { apply cube_numbers_coords. cbn [u box_cube x]. apply Forall_app. unfold low, high.
    split; apply Forall_map, Forall_true; intros i; [apply dmin_number|apply dmax_number]; auto with pg. }
  assert (HD : DIM u = Z.of_nat n) by (unfold u; by rewrite box_cube_dim; rewrite Ea).
  assert (HP : IS_POINT u = false) by (apply box_cube_not_point; by rewrite Ea).
  destruct (flag_point_spec u HP Hu) as (FD & FN & FB). split; [by split; [rewrite FD|]|].
  intros i Hi. assert (Hdu : dimn u = n) by (unfold dimn; rewrite HD; lia).
  destruct (FB i) as [-> ->]; [lia|]. unfold slo, shi. rewrite (lo_sval u Hu), (hi_sval u Hu).
  assert (HLL : LL_COORD u i = dmin (lo a i) (lo b i)).
  { unfold LL_COORD, coord. cbn [u box_cube x]. by rewrite lookup_app_l, Hlow by lia. }
  assert (HUR : UR_COORD u i = dmax (hi a i) (hi b i)).
  { unfold UR_COORD. rewrite HP, Hdu. unfold coord. cbn [u box_cube x].
    rewrite lookup_app_r, Ll by lia. replace (i + n - n)%nat with i by lia. by rewrite Hhigh. }
  rewrite HLL, HUR, dmin_sval, dmax_sval by auto with pg.
  pose proof (slo_shi n a i (conj Ea Na)). pose proof (slo_shi n b i (conj Eb Nb)). unfold slo, shi in *. lia.
Qed.

(** [cube_union] is the least upper bound of containment, for cubes of the same
    dimension count without NaN: it contains both arguments, and every cube that contains
    both contains it. *)
Theorem cube_union_lub n a b c :
  cube_ok n a → cube_ok n b → cube_ok n c →
  cube_contains_v0 (cube_union_v0 a b) a = true ∧ cube_contains_v0 (cube_union_v0 a b) b = true ∧
  (cube_contains_v0 c a = true → cube_contains_v0 c b = true →
   cube_contains_v0 c (cube_union_v0 a b) = true).
Proof.
  intros Ha Hb Hc. destruct (union_spec n a b Ha Hb) as [Hu HB].
  rewrite !(cube_contains_spec n) by done. split_and!.
  - intros i Hi. destruct (HB i Hi). lia.
  - intros i Hi. destruct (HB i Hi). lia.
  - intros HA HC i Hi. destruct (HB i Hi). specialize (HA i Hi). specialize (HC i Hi). lia.
Qed.

(** * Comparison *)

Fixpoint lexcmp (u v : list Z) : Z :=
  match u, v with
  | y :: u, z :: v => if z <? y then 1 else if y <? z then -1 else lexcmp u v
  | _, _ => 0
  end.

(** The bounds of a cube in the order they are compared. *)
Definition bounds (n : nat) (c : NDBOX) : list Z := map (slo c) (seq 0 n) ++ map (shi c) (seq 0 n).

Lemma first_verdict_lex (f g : nat → double) (l : list nat) (rest : Z) r1 r2 :
  (∀ i, number (f i) ∧ number (g i)) → rest = lexcmp r1 r2 →
  match first_verdict (λ i, cmp_step (f i) (g i)) l with Some r => r | None => rest end =
  lexcmp (map (λ i, sval (f i)) l ++ r1) (map (λ i, sval (g i)) l ++ r2).
Proof.
  intros Hn Hr. induction l as [|i l IH]; [done|]. cbn [first_verdict map app lexcmp]. unfold cmp_step at 1.
  destruct (Hn i). rewrite dgt_sval, dlt_sval by done.
  destruct (sval (g i) <? sval (f i)); [done|]. by destruct (sval (f i) <? sval (g i)).
Qed.

Lemma cmp_spec n a b : cube_ok n a → cube_ok n b → cube_cmp_v0 a b = lexcmp (bounds n a) (bounds n b).
Proof.
  intros Ha Hb. pose proof (cube_ok_dimn _ _ Ha) as Da. pose proof (cube_ok_dimn _ _ Hb) as Db.
  destruct Ha as [Ea Na], Hb as [Eb Nb]. unfold cube_cmp_v0. rewrite Ea, Eb, Z.ltb_irrefl, Da, Db, Nat.min_id.
  unfold range. rewrite Nat.sub_0_r. apply first_verdict_lex; [auto with pg|].
  rewrite <- (app_nil_r (map (shi a) _)), <- (app_nil_r (map (shi b) _)).
  apply first_verdict_lex; [auto with pg|done].
Qed.

Lemma bounds_length n c : length (bounds n c) = (n + n)%nat.
Proof. unfold bounds. by rewrite length_app, !length_map, length_seq. Qed.

Lemma lexcmp_opp u : ∀ v, lexcmp v u = - lexcmp u v.
Proof.
  induction u as [|y u IH]; intros [|z v]; cbn; try done.
  destruct (Z.ltb_spec z y), (Z.ltb_spec y z); try lia. apply IH.
Qed.

Lemma lexcmp_trans u : ∀ v w, length u = length v → length v = length w →
  lexcmp u v ≤ 0 → lexcmp v w ≤ 0 → lexcmp u w ≤ 0.
Proof.
  induction u as [|y u IH]; intros [|z v] [|t w] H1 H2; cbn; try done.
  destruct (Z.ltb_spec z y); [lia|]. destruct (Z.ltb_spec t z); [lia|]. destruct (Z.ltb_spec t y); [lia|].
  destruct (Z.ltb_spec y z), (Z.ltb_spec z t), (Z.ltb_spec y t); try lia. cbn in *. apply IH; lia.
Qed.

Lemma lexcmp_zero u : ∀ v, length u = length v → lexcmp u v = 0 ↔ u = v.
Proof.
  induction u as [|y u IH]; intros [|z v] Hl; cbn; try done.
  destruct (Z.ltb_spec z y); [split; [done|intros [= -> ->]; lia]|].
  destruct (Z.ltb_spec y z); [split; [done|intros [= -> ->]; lia]|].
  assert (y = z) as -> by lia. rewrite IH by (cbn in Hl; lia). split; [by intros ->|by intros [= ->]].
Qed.

(** [cube_cmp], the B-tree comparison, is a total order on cubes of one dimension
    count without NaN, up to having the same normalised bounds: it is antisymmetric,
    transitive, and zero exactly for cubes that contain each other. *)
Theorem cube_cmp_total_order n a b c :
  cube_ok n a → cube_ok n b → cube_ok n c →
  cube_cmp_v0 b a = - cube_cmp_v0 a b ∧
  (cube_cmp_v0 a b ≤ 0 → cube_cmp_v0 b c ≤ 0 → cube_cmp_v0 a c ≤ 0) ∧
  (cube_cmp_v0 a b = 0 ↔ cube_contains_v0 a b = true ∧ cube_contains_v0 b a = true).
Proof.
  intros Ha Hb Hc. rewrite !(cmp_spec n) by done. split_and!.
  - apply lexcmp_opp.
  - apply lexcmp_trans; by rewrite !bounds_length.
  - rewrite lexcmp_zero by (by rewrite !bounds_length). rewrite !(cube_contains_spec n) by done. unfold bounds. split.
    + intros [E1 E2]%app_inj_1; [|by rewrite !length_map].
      assert (HE : ∀ i, (i < n)%nat → slo a i = slo b i ∧ shi a i = shi b i).
      { intros i Hi. apply (f_equal (.!! i)) in E1, E2.
        rewrite !list_lookup_fmap, lookup_seq_lt in E1, E2 by done. by injection E1; injection E2. }
      split; intros i Hi; destruct (HE i Hi); lia.
    + intros [H1 H2]. f_equal; apply map_ext_in; intros i Hi%in_seq;
        specialize (H1 i ltac:(lia)); specialize (H2 i ltac:(lia)); lia.
Qed.

(** Across dimension counts [cube_cmp] is not transitive: cubes of equal dimension
    are compared by all lower bounds first, a shorter cube with a longer one by its lower
    and then its upper bounds before the extra dimensions.  Here b < a < c and c < b. *)
Theorem cube_cmp_not_transitive :
  let a := box_cube 1 [i2d 0; i2d 5] in
  let b := box_cube 2 [i2d 0; i2d 1; i2d 4; i2d 1] in
  let c := box_cube 2 [i2d 0; i2d 0; i2d 6; i2d 0] in
  cube_cmp_v0 b a = -1 ∧ cube_cmp_v0 a c = -1 ∧ cube_cmp_v0 c b = -1.
Proof. vm_compute. split_and!; reflexivity. Qed.

(** * Search in a GiST index *)

Definition union_all (e : NDBOX) (rest : list NDBOX) : NDBOX := foldl cube_union_v0 e rest.

Lemma g_cube_union_all e e2 rest :
  g_cube_union (e :: e2 :: rest) =
  Ok (Some (union_all e (e2 :: rest)), vl_size (union_all e (e2 :: rest))).
Proof.
  unfold g_cube_union, union_all.
  assert (HG : ∀ rest tmp, foldl (λ '(tmp, _, _) e, let '(out, size) := g_cube_binary_union tmp e in (out, Some out, size))
      (tmp, Some tmp, vl_size tmp) rest =
    (foldl cube_union_v0 tmp rest, Some (foldl cube_union_v0 tmp rest), vl_size (foldl cube_union_v0 tmp rest))).
  { clear. induction rest as [|e rest IH]; intros tmp; [done|]. cbn [foldl]. apply IH. }
  cbn [foldl g_cube_binary_union]. by rewrite HG.
Qed.

Lemma union_all_contains n rest : ∀ e k,
  Forall (cube_ok n) (e :: rest) → In k (e :: rest) →
  cube_ok n (union_all e rest) ∧ cube_contains_v0 (union_all e rest) k = true.
Proof.
  unfold union_all. induction rest as [|e2 rest IH]; intros e k HF Hin; cbn [foldl].
  - apply Forall_cons in HF as [He _]. destruct Hin as [<-|[]]. split; [done|]. rewrite (cube_contains_spec n) by done. lia.
  - apply Forall_cons in HF as [He HF]. apply Forall_cons in HF as [He2 HF].
    destruct (union_spec n e e2 He He2) as [Hu HB].
    assert (HF' : Forall (cube_ok n) (cube_union_v0 e e2 :: rest)) by (by constructor).
    destruct Hin as [<-|[<-|Hin]]; [| |by apply IH; [|right]];
      (destruct (IH (cube_union_v0 e e2) (cube_union_v0 e e2) HF' (or_introl eq_refl)) as [Ho HC]);
      (split; [done|]); rewrite (cube_contains_spec n) in HC |- * by done; intros i Hi;
      destruct (HB i Hi); specialize (HC i Hi); lia.
Qed.

(** A GiST index on cubes of one dimension count never misses a row: if a key on a
    leaf page satisfies the query, then the union of any entry vector that holds it passes
    the test for inner pages, for every strategy. *)
Theorem gist_search_complete n e e2 rest k query strategy :
  Forall (cube_ok n) (e :: e2 :: rest) → cube_ok n query → In k (e :: e2 :: rest) →
  (g_cube_consistent true k query strategy).1 = true →
  ∃ u size, g_cube_union (e :: e2 :: rest) = Ok (Some u, size) ∧
            (g_cube_consistent false u query strategy).1 = true.
Proof.
  intros HF Hq Hin Hk. destruct (union_all_contains n (e2 :: rest) e k HF Hin) as [Hu HC].
  eexists _, _. split; [apply g_cube_union_all|]. set (u := union_all e (e2 :: rest)) in *.
  rewrite Forall_forall in HF. assert (Hok : cube_ok n k) by (by apply HF, list_elem_of_In).
  rewrite (cube_contains_spec n) in HC by done.
  assert (Hover : cube_contains_v0 query k = true → cube_overlap_v0 u query = true).
  { rewrite (cube_contains_spec n), (cube_overlap_spec n) by done. intros HQ i Hi. specialize (HC i Hi). specialize (HQ i Hi).
    pose proof (slo_shi n k i Hok). lia. }
  assert (Hcont : cube_contains_v0 k query = true → cube_contains_v0 u query = true).
  { rewrite !(cube_contains_spec n) by done. intros HQ i Hi. specialize (HC i Hi). specialize (HQ i Hi). lia. }
  revert Hk. cbn [g_cube_consistent fst]. unfold g_cube_leaf_consistent, g_cube_internal_consistent.
  destruct (strategy =? RTOverlapStrategyNumber).
  { rewrite !(cube_overlap_spec n) by done. intros HO i Hi. specialize (HC i Hi). specialize (HO i Hi). lia. }
  destruct (strategy =? RTSameStrategyNumber); cbn [orb].
  { intros E. apply Z.eqb_eq in E. apply Hcont. rewrite (cmp_spec n) in E by done.
    rewrite lexcmp_zero in E by (by rewrite !bounds_length).
    apply (cube_contains_spec n); [done..|]. intros i Hi. unfold bounds in E.
    apply app_inj_1 in E as [E1 E2]; [|by rewrite !length_map].
    apply (f_equal (.!! i)) in E1, E2. rewrite !list_lookup_fmap, lookup_seq_lt in E1, E2 by done.
    injection E1; injection E2. lia. }
  destruct (_ || _); [exact Hcont|]. destruct (_ || _); [exact Hover|done].
Qed.

(** With dimension counts mixed, a GiST index can miss rows that [<@] accepts:
    containment ignores the dimensions a cube lacks, overlap takes them as zero, and the
    test for inner pages of [<@] is overlap.  The key (3) is contained in the query
    (0,5),(10,6), but the inner entry (2),(4) above it is not visited. *)
Theorem gist_contained_misses :
  let k := point_cube 1 [i2d 3] in
  let u := cube_union_v0 (point_cube 1 [i2d 2]) (point_cube 1 [i2d 4]) in
  let query := box_cube 2 [i2d 0; i2d 5; i2d 10; i2d 6] in
  cube_contained k query = true ∧ cube_contains_v0 u k = true ∧
  (g_cube_consistent true k query RTContainedByStrategyNumber).1 = true ∧
  (g_cube_consistent false u query RTContainedByStrategyNumber).1 = false.
Proof. vm_compute. split_and!; reflexivity. Qed.

(** * Split *)

Lemma seed_pairs_range maxoff i j :
  In (i, j) (seed_pairs maxoff) → (1 ≤ i < j)%nat ∧ (j ≤ maxoff)%nat.
Proof.
  unfold seed_pairs. rewrite in_flat_map. intros (i' & Hi & Hj). apply in_map_iff in Hj as (j' & [= -> ->] & Hj).
  apply in_seq in Hi, Hj. lia.
Qed.

Lemma find_seeds_range ent maxoff :
  let s := find_seeds ent maxoff in
  (1 ≤ seed_1 s < seed_2 s)%nat ∧ (seed_2 s ≤ Nat.max 2 maxoff)%nat.
Proof.
  cbv zeta. unfold find_seeds.
  assert (HG : ∀ l s, (∀ i j, In (i, j) l → (1 ≤ i < j)%nat ∧ (j ≤ maxoff)%nat) →
     (1 ≤ seed_1 s < seed_2 s)%nat ∧ (seed_2 s ≤ Nat.max 2 maxoff)%nat →
     let s' := foldl (seed_step ent) s l in
     (1 ≤ seed_1 s' < seed_2 s')%nat ∧ (seed_2 s' ≤ Nat.max 2 maxoff)%nat).
  { clear. induction l as [|[i j] l IH]; intros s Hl Hs; [done|]. cbn [foldl]. apply IH.
    - intros i' j' Hin. apply Hl. by right.
    - unfold seed_step. destruct (_ || _); [|done]. destruct (Hl i j) as [??]; [by left|]. cbn. lia. }
  apply HG; [apply seed_pairs_range|cbn; lia].
Qed.

(** What placing the entries [pre] has left: a split of them that keeps their order, with
    both seeds on their side and each union above its seed and its entries. *)
Record placed (n : nat) (ent : nat → NDBOX) (s1 s2 : nat) (pre : list nat) (a : split_acc) : Prop := {
  pl_perm : spl_left a ++ spl_right a ≡ₚ pre;
  pl_left : spl_left a `sublist_of` pre;
  pl_right : spl_right a `sublist_of` pre;
  pl_seed1 : In s1 pre → In s1 (spl_left a);
  pl_seed2 : In s2 pre → In s2 (spl_right a);
  pl_ok : cube_ok n (datum_l a) ∧ cube_ok n (datum_r a);
  pl_above_l i : i = s1 ∨ In i (spl_left a) → cube_contains_v0 (datum_l a) (ent i) = true;
  pl_above_r i : i = s2 ∨ In i (spl_right a) → cube_contains_v0 (datum_r a) (ent i) = true;
}.

Lemma sublist_snoc_both {A} (l k : list A) i : l `sublist_of` k → l ++ [i] `sublist_of` k ++ [i].
Proof. intros Hl. by apply sublist_app. Qed.

Lemma sublist_snoc {A} (l k : list A) i : l `sublist_of` k → l `sublist_of` k ++ [i].
Proof. intros Hl. by apply sublist_inserts_r. Qed.

#[local] Hint Resolve sublist_snoc_both sublist_snoc : core.

Lemma union_contains n a b k :
  cube_ok n a → cube_ok n b → cube_ok n k →
  cube_contains_v0 a k = true ∨ cube_contains_v0 b k = true → cube_contains_v0 (cube_union_v0 a b) k = true.
Proof.
  intros Ha Hb Hk. destruct (union_spec n a b Ha Hb) as [Hu HB]. rewrite !(cube_contains_spec n) by done.
  intros HC i Hi. destruct (HB i Hi). destruct HC as [HC|HC]; specialize (HC i Hi); lia.
Qed.

Lemma contains_refl n a : cube_ok n a → cube_contains_v0 a a = true.
Proof. intros Ha. rewrite (cube_contains_spec n) by done. lia. Qed.

(** Adding entry [i] below a side's union. *)
Lemma grow_side n ent s i (d : NDBOX) (side pre : list nat) :
  cube_ok n d → cube_ok n (ent s) → Forall (λ j, cube_ok n (ent j)) (pre ++ [i]) → side `sublist_of` pre →
  (∀ j, j = s ∨ In j side → cube_contains_v0 d (ent j) = true) →
  cube_ok n (cube_union_v0 d (ent i)) ∧
  ∀ j, j = s ∨ In j (side ++ [i]) → cube_contains_v0 (cube_union_v0 d (ent i)) (ent j) = true.
Proof.
  intros Hd Hs [HF Hi]%Forall_app Hsub HA. rewrite Forall_singleton in Hi. rewrite Forall_forall in HF.
  split; [by apply (union_spec n d (ent i))|]. intros j Hj. rewrite in_app_iff in Hj.
  assert (Hin : ∀ j, In j side → cube_ok n (ent j)).
  { intros k Hk. apply HF. apply list_elem_of_In in Hk. by eapply elem_of_sublist. }
  destruct Hj as [->|[Hj|[->|[]]]]; apply (union_contains n); auto.
  right. by apply (contains_refl n).
Qed.

Lemma place_step n ent s1 s2 pre a i :
  s1 ≠ s2 → cube_ok n (ent s1) → cube_ok n (ent s2) → Forall (λ j, cube_ok n (ent j)) (pre ++ [i]) →
  placed n ent s1 s2 pre a → placed n ent s1 s2 (pre ++ [i]) (place ent s1 s2 a i).
Proof.
  intros Hs O1 O2 HF [HP HL HR H1 H2 [Hl Hr] Al Ar]. unfold place.
  assert (HPl : (spl_left a ++ [i]) ++ spl_right a ≡ₚ pre ++ [i]).
  { rewrite <- HP, <- !app_assoc. apply Permutation_app_head, Permutation_app_comm. }
  assert (HPr : spl_left a ++ (spl_right a ++ [i]) ≡ₚ pre ++ [i]) by (by rewrite <- HP, app_assoc).
  assert (S1 : In s1 (pre ++ [i]) → i ≠ s1 → In s1 (spl_left a)).
  { rewrite in_app_iff. cbn. intros [?|[?|[]]] ?; [auto|done]. }
  assert (S2 : In s2 (pre ++ [i]) → i ≠ s2 → In s2 (spl_right a)).
  { rewrite in_app_iff. cbn. intros [?|[?|[]]] ?; [auto|done]. }
  assert (I1 : In i (spl_left a ++ [i]) ∧ In i (spl_right a ++ [i])) by (rewrite !in_app_iff; cbn; auto).
  destruct (Nat.eqb_spec i s1) as [->|N1]; [|destruct (Nat.eqb_spec i s2) as [->|N2]; [|destruct (dlt _ _)]];
    constructor; cbn [datum_l datum_r spl_left spl_right]; auto; try tauto.
  - intros j [->|[?|[->|[]]]%in_app_iff]; auto.
  - intros j [->|[?|[->|[]]]%in_app_iff]; auto.
  - intros ?. apply in_app_iff. auto.
  - split; [|done]. apply Forall_app in HF as [_ [HFi _]%Forall_cons].
    by apply (union_spec n (datum_l a) (ent i)).
  - by apply (grow_side n ent s1 i (datum_l a) (spl_left a) pre).
  - intros ?. apply in_app_iff. auto.
  - split; [done|]. apply Forall_app in HF as [_ [HFi _]%Forall_cons].
    by apply (union_spec n (datum_r a) (ent i)).
  - by apply (grow_side n ent s2 i (datum_r a) (spl_right a) pre).
Qed.

Lemma place_all n ent s1 s2 l : ∀ pre a,
  s1 ≠ s2 → cube_ok n (ent s1) → cube_ok n (ent s2) → Forall (λ j, cube_ok n (ent j)) (pre ++ l) →
  placed n ent s1 s2 pre a → placed n ent s1 s2 (pre ++ l) (foldl (place ent s1 s2) a l).
Proof.
  induction l as [|i l IH]; intros pre a Hs O1 O2 HF Ha; cbn [foldl]; [by rewrite app_nil_r|].
  replace (pre ++ i :: l) with ((pre ++ [i]) ++ l) in * by (by rewrite <- app_assoc).
  apply IH; [done..|]. apply place_step; try done. by apply Forall_app in HF as [? _].
Qed.

(** The GiST split of cubes of one dimension count is a partition: every entry,
    numbered from 1, goes to exactly one side, both sides get one, each side keeps the
    entries in their order (the caller merges by it), and the key returned for a side
    contains every entry placed there. *)
Theorem gist_picksplit_partition n entries :
  (2 ≤ length entries)%nat → Forall (cube_ok n) entries →
  let ent i := nth (i - 1) entries (point_cube 0 []) in
  let a := g_cube_picksplit entries in
  spl_left a ++ spl_right a ≡ₚ seq 1 (length entries) ∧ spl_left a ≠ [] ∧ spl_right a ≠ [] ∧
  spl_left a `sublist_of` seq 1 (length entries) ∧ spl_right a `sublist_of` seq 1 (length entries) ∧
  (∀ i, In i (spl_left a) → cube_contains_v0 (datum_l a) (ent i) = true) ∧
  (∀ i, In i (spl_right a) → cube_contains_v0 (datum_r a) (ent i) = true).
Proof.
  intros HL HF ent a. set (L := length entries) in *.
  assert (He : ∀ j, (1 ≤ j ≤ L)%nat → cube_ok n (ent j)).
  { intros j Hj. rewrite Forall_forall in HF. apply HF, list_elem_of_In, nth_In. unfold L in *. lia. }
  unfold a, g_cube_picksplit. fold ent L. replace (L - 1 + 1)%nat with L by lia.
  destruct (find_seeds_range ent (L - 1)) as [Hr1 Hr2]. set (s := find_seeds ent (L - 1)) in *.
  set (a0 := mkAcc _ _ _ _ _ _).
  assert (H0 : placed n ent (seed_1 s) (seed_2 s) [] a0).
  { constructor; try done.
    - split; apply He; lia.
    - intros i [->|[]]. apply (contains_refl n), He. lia.
    - intros i [->|[]]. apply (contains_refl n), He. lia. }
  destruct (place_all n ent (seed_1 s) (seed_2 s) (seq 1 L) [] a0) as [HP Hl Hr S1 S2 _ Al Ar]; try done.
  - lia.
  - apply He. lia.
  - apply He. lia.
  - apply Forall_forall. intros j Hj%list_elem_of_In%in_seq. apply He. lia.
  - cbn [app] in *. split_and!; auto.
    + intros E. rewrite E in S1. apply S1, in_seq. lia.
    + intros E. rewrite E in S2. apply S2, in_seq. lia.
Qed.

(** * Witnesses *)

(** Executable test for [cube_ok]. *)
Definition cube_okb (n : nat) (c : NDBOX) : bool :=
  (DIM c =? Z.of_nat n) &&
  forallb (λ d, match d with S754_nan => false | _ => valid_binary 53 1024 d end) (x c).

Lemma cube_okb_sound n c : cube_okb n c = true → cube_ok n c.
Proof.
  unfold cube_okb. rewrite andb_true_iff, forallb_forall. intros [Hd Hn]. apply Z.eqb_eq in Hd. split; [done|].
  apply cube_numbers_coords, Forall_forall. intros d Hin%list_elem_of_In. specialize (Hn d Hin).
  split; [by destruct d|by destruct d].
Qed.

Definition cube_1 : NDBOX := box_cube 2 [i2d 0; i2d 0; i2d 1; i2d 1].
Definition cube_2 : NDBOX := box_cube 2 [i2d 5; i2d 4; i2d 3; i2d 6].
Definition cube_3 : NDBOX := box_cube 2 [i2d 0; i2d 0; i2d 9; i2d 9].

Ltac cubes_ok :=
  rewrite ?Forall_cons, ?Forall_nil;
  repeat match goal with |- _ ∧ _ => split | |- True => exact I end;
  try (apply cube_okb_sound; vm_compute; reflexivity).

Lemma cube_union_lub_witness :
  cube_contains_v0 (cube_union_v0 cube_1 cube_2) cube_2 = true ∧ cube_contains_v0 cube_3 (cube_union_v0 cube_1 cube_2) = true.
Proof.
  destruct (cube_union_lub 2 cube_1 cube_2 cube_3) as (_ & H2 & H3); [cubes_ok..|].
  split; [exact H2|]. apply H3; vm_compute; reflexivity.
Defined.

Lemma cube_cmp_total_order_witness :
  cube_cmp_v0 cube_3 cube_1 = - cube_cmp_v0 cube_1 cube_3 ∧ cube_cmp_v0 cube_1 cube_2 ≤ 0.
Proof.
  destruct (cube_cmp_total_order 2 cube_1 cube_3 cube_2) as (H1 & H2 & _); [cubes_ok..|].
  split; [exact H1|]. apply H2; vm_compute; discriminate.
Defined.

Lemma gist_search_complete_witness :
  ∃ u size, g_cube_union [cube_1; cube_2] = Ok (Some u, size) ∧
            (g_cube_consistent false u cube_3 RTContainedByStrategyNumber).1 = true.
Proof.
  apply (gist_search_complete 2 cube_1 cube_2 [] cube_2).
  - cubes_ok.
  - cubes_ok.
  - right. left. reflexivity.
  - vm_compute. reflexivity.
Defined.

Lemma gist_picksplit_partition_witness :
  let a := g_cube_picksplit [cube_1; cube_2; cube_3] in
  spl_left a ++ spl_right a ≡ₚ [1; 2; 3]%nat ∧ spl_left a ≠ [] ∧ spl_right a ≠ [].
Proof.
  destruct (gist_picksplit_partition 2 [cube_1; cube_2; cube_3]) as (HP & Hl & Hr & _); [cbn; lia|cubes_ok|].
  split_and!; assumption.
Defined.
