(* ===== verification/Distance.v ===== *)
(** contrib/cube, continued: distances, the support function that orders by distance,
    coordinate access and enlarging.  Signed overflow wraps, as the server is compiled with
    [-fwrapv]; [DIM] is unsigned, so that comparisons with it are. *)

From S2P Require Import Prelude Float64 Cube Gist.

(** * Distances *)

Definition dsqrt : double → double := SFsqrt 53 1024.
Definition fabs : double → double := SFabs.
Definition dge (x y : double) : bool := dle y x.

Definition distance_1D (a1 a2 b1 b2 : double) : double :=
  if dle a1 b1 && dle a2 b1 && dle a1 b2 && dle a2 b2 then dsub (dmin b1 b2) (dmax a1 a2)
  else if dgt a1 b1 && dgt a2 b1 && dgt a1 b2 && dgt a2 b2 then dsub (dmin a1 a2) (dmax b1 b2)
  else d0.

(** The distance of [a] and [b] along dimension [i], and of [a] to zero. *)
Definition axis (a b : NDBOX) (i : nat) : double :=
  distance_1D (LL_COORD a i) (UR_COORD a i) (LL_COORD b i) (UR_COORD b i).
Definition axis0 (a : NDBOX) (i : nat) : double := distance_1D (LL_COORD a i) (UR_COORD a i) d0 d0.

(** The loop the three distances share: [f] adds one dimension's distance. *)
Definition over_axes (f : double → double → double) (a b : NDBOX) : double :=
  let '(a, b) := if DIM a <? DIM b then (b, a) else (a, b) in
  let distance := foldl (λ s i, f s (axis a b i)) d0 (range 0 (dimn b)) in
  foldl (λ s i, f s (axis0 a i)) distance (range (dimn b) (dimn a)).

Definition cube_distance (a b : NDBOX) : double := dsqrt (over_axes (λ s d, dadd s (dmul d d)) a b).
Definition distance_taxicab (a b : NDBOX) : double := over_axes (λ s d, dadd s (fabs d)) a b.
Definition distance_chebyshev (a b : NDBOX) : double :=
  over_axes (λ s d, let d := fabs d in if dgt d s then d else s) a b.

(** * Coordinates *)

Definition cube_dim (c : NDBOX) : Z := DIM c.

(** A read of [x[i]] past the coordinates of the datum. *)
Definition read_x (c : NDBOX) (i : Z) : result double :=
  if (i <? 0) || (zlen (x c) <=? i) then Err (Undefined "coordinate out of range")
  else Ok (coord c (Z.to_nat i)).

Definition cube_ll_coord (c : NDBOX) (n : Z) : double :=
  if (n <=? DIM c) && (0 <? n)
  then dmin (LL_COORD c (Z.to_nat (n - 1))) (UR_COORD c (Z.to_nat (n - 1))) else d0.

Definition cube_ur_coord (c : NDBOX) (n : Z) : double :=
  if (n <=? DIM c) && (0 <? n)
  then dmax (LL_COORD c (Z.to_nat (n - 1))) (UR_COORD c (Z.to_nat (n - 1))) else d0.

Definition cube_coord (cube : NDBOX) (coord : Z) : result double :=
  if (coord <=? 0) || (2 * DIM cube <? coord) then Err (Elog "cube index is out of bounds")
  else if IS_POINT cube then read_x cube ((coord - 1) mod DIM cube)
  else read_x cube (coord - 1).

(** The bound both ordering functions choose; [pick_upper] says which. *)
Definition bound_of (cube : NDBOX) (index : Z) (pick_upper : bool) : result double :=
  if IS_POINT cube then read_x cube index
  else
    u ← read_x cube index;
    v ← read_x cube (uint32 (index + DIM cube));
    Ok (if pick_upper then dmax u v else dmin u v).

Definition coord_index (coord : Z) : Z := Z.quot (int32 (coord - 1)) 2.
Definition coord_upper (coord : Z) : bool := Z.rem (int32 (coord - 1)) 2 =? 1.

Definition cube_coord_llur (cube : NDBOX) (coord : Z) : result double :=
  if coord =? 0 then Err (Elog "zero cube index is not defined")
  else
    let inverse := coord <? 0 in
    let coord := if inverse then int32 (- coord) else coord in
    r ← (if uint32 coord <=? 2 * DIM cube then bound_of cube (coord_index coord) (coord_upper coord) else Ok d0);
    Ok (if inverse then SFopp r else r).

(** * g_cube_distance *)

Definition CubeKNNDistanceCoord : Z := 15.
Definition CubeKNNDistanceTaxicab : Z := 16.
Definition CubeKNNDistanceEuclid : Z := 17.
Definition CubeKNNDistanceChebyshev : Z := 18.

(** Ordering by [~>]: on an inner page a bound for everything below the key. *)
Definition g_cube_distance_coord (cube : NDBOX) (coord : Z) (isLeaf : bool) : result double :=
  if coord =? 0 then Err (Elog "zero cube index is not defined")
  else
    let inverse := coord <? 0 in
    let coord := if inverse then int32 (- coord) else coord in
    r ← (if uint32 coord <=? 2 * DIM cube
         then bound_of cube (coord_index coord) (if isLeaf then coord_upper coord else inverse)
         else Ok d0);
    Ok (if inverse then SFopp r else r).

Definition g_cube_distance_cube (cube query : NDBOX) (strategy : Z) : result double :=
  if strategy =? CubeKNNDistanceTaxicab then Ok (distance_taxicab cube query)
  else if strategy =? CubeKNNDistanceEuclid then Ok (cube_distance cube query)
  else if strategy =? CubeKNNDistanceChebyshev then Ok (distance_chebyshev cube query)
  else Err (Elog "unrecognized cube strategy number").

(** The second argument is an integer for [~>] and a cube otherwise. *)
Definition g_cube_distance (cube : NDBOX) (query : Z + NDBOX) (strategy : Z) (isLeaf : bool) : result double :=
  match query with
  | inl coord =>
      if strategy =? CubeKNNDistanceCoord then g_cube_distance_coord cube coord isLeaf
      else Err (Undefined "integer argument read as a cube")
  | inr query =>
      if strategy =? CubeKNNDistanceCoord then Err (Undefined "cube argument read as an integer")
      else g_cube_distance_cube cube query strategy
  end.

(** * cube_enlarge *)

Definition enlarge_axis (a : NDBOX) (r : double) (i : nat) : double * double :=
  let '(lo, up) :=
    if dge (LL_COORD a i) (UR_COORD a i) then (dsub (UR_COORD a i) r, dadd (LL_COORD a i) r)
    else (dsub (LL_COORD a i) r, dadd (UR_COORD a i) r) in
  if dgt lo up then let mid := ddiv (dadd lo up) (i2d 2) in (mid, mid) else (lo, up).

Definition cube_enlarge (a : NDBOX) (r : double) (n : Z) : NDBOX :=
  let n := if CUBE_MAX_DIM <? n then CUBE_MAX_DIM else n in
  let dim := if dgt r d0 && (0 <? n) then n else 0 in
  let dim := if dim <? DIM a then DIM a else dim in
  let sides := map (enlarge_axis a r) (range 0 (dimn a)) ++
               map (λ _, (SFopp r, r)) (range (dimn a) (Z.to_nat dim)) in
  flag_point (box_cube dim (sides.*1 ++ sides.*2)).

(** * Lemmas *)

Definition zeroish (d : double) : Prop := ∃ s, d = S754_zero s.
Definition finite_number (d : double) : Prop := number d ∧ finite d.

Lemma dmin_finite u v : finite_number u → finite_number v → finite_number (dmin u v).
Proof. unfold dmin. by destruct (dlt u v). Qed.
Lemma dmax_finite u v : finite_number u → finite_number v → finite_number (dmax u v).
Proof. unfold dmax. by destruct (dgt u v). Qed.

(** Equal finite numbers cancel. *)
Lemma dsub_cancel u v : finite_number u → finite_number v → sval u = sval v → zeroish (dsub u v).
Proof.
  intros [Nu Fu] [Nv Fv] E. pose proof (SFcompare_sval u v Nu Nv) as HC. rewrite E, Z.compare_refl in HC.
  unfold dsub. destruct u as [su|su| |su mu eu], v as [sv|sv| |sv mv ev]; try done.
  - cbn. destruct su, sv; by eexists.
  - by destruct sv.
  - by destruct su.
  - cbn in HC. assert (su = sv ∧ eu = ev ∧ mu = mv) as (-> & -> & ->).
    { destruct su, sv; try done; destruct (Z.compare_spec eu ev) as [->|?|?]; try done;
        rewrite pos_compare_Z in HC; destruct (Z.compare_spec (Z.pos mu) (Z.pos mv)) as [[=->]|?|?]; done. }
    cbn [SFsub]. rewrite Z.sub_diag. by eexists.
Qed.

Lemma distance_1D_cases a1 a2 b1 b2 :
  finite_number a1 → finite_number a2 → finite_number b1 → finite_number b2 →
  distance_1D a1 a2 b1 b2 = distance_1D b1 b2 a1 a2 ∨
  zeroish (distance_1D a1 a2 b1 b2) ∧ zeroish (distance_1D b1 b2 a1 a2).
Proof.
  intros Ha1 Ha2 Hb1 Hb2. pose proof (proj1 Ha1). pose proof (proj1 Ha2). pose proof (proj1 Hb1). pose proof (proj1 Hb2).
  pose proof (dsub_cancel (dmin b1 b2) (dmax a1 a2) (dmin_finite _ _ Hb1 Hb2) (dmax_finite _ _ Ha1 Ha2)) as Hab.
  pose proof (dsub_cancel (dmin a1 a2) (dmax b1 b2) (dmin_finite _ _ Ha1 Ha2) (dmax_finite _ _ Hb1 Hb2)) as Hba.
  rewrite !dmin_sval, !dmax_sval in Hab, Hba by done. assert (Hz : zeroish d0) by (by eexists).
  unfold distance_1D. rewrite !dle_sval, !dgt_sval by done.
  repeat match goal with |- context [if ?c then _ else _] => destruct c eqn:?; bprop end; auto; try (exfalso; lia);
    right; split; first [done|apply Hab; lia|apply Hba; lia].
Qed.

Definition cube_finite (c : NDBOX) : Prop := ∀ i, finite_number (LL_COORD c i) ∧ finite_number (UR_COORD c i).

Lemma foldl_ext_in {A B} (f g : A → B → A) l s : (∀ s i, In i l → f s i = g s i) → foldl f s l = foldl g s l.
Proof.
  revert s. induction l as [|i l IH]; intros s H; [done|]. cbn. rewrite H by (by left). apply IH. intros. apply H. by right.
Qed.

(** A distance whose step does not see the sign of a zero is symmetric. *)
Lemma over_axes_sym f a b :
  (∀ s d d', zeroish d → zeroish d' → f s d = f s d') → cube_finite a → cube_finite b → over_axes f a b = over_axes f b a.
Proof.
  intros Hf Ha Hb. unfold over_axes. destruct (Z.ltb_spec (DIM a) (DIM b)), (Z.ltb_spec (DIM b) (DIM a)); try lia; try done.
  assert (HD : dimn a = dimn b) by (unfold dimn; f_equal; lia). rewrite HD. unfold range. rewrite Nat.sub_diag. cbn [seq foldl].
  apply foldl_ext_in. intros s i _. unfold axis. destruct (Ha i), (Hb i).
  destruct (distance_1D_cases (LL_COORD a i) (UR_COORD a i) (LL_COORD b i) (UR_COORD b i)) as [->|[? ?]]; auto.
Qed.

Lemma SFopp_number u : number u → number (SFopp u) ∧ sval (SFopp u) = - sval u.
Proof.
  intros [V N]. destruct u as [s|s| |s m e]; cbn in *; try done.
  - by destruct s.
  - by destruct s; rewrite ?Z.opp_involutive.
Qed.

(** The datum holds the coordinates its header says. *)
Definition coords_stored (c : NDBOX) : Prop :=
  (if IS_POINT c then DIM c else 2 * DIM c) ≤ zlen (x c) ∧ DIM c ≤ CUBE_MAX_DIM.

Lemma bound_of_spec c index up :
  cube_numbers c → coords_stored c → 0 ≤ index < DIM c →
  ∃ r, bound_of c index up = Ok r ∧ number r ∧ sval r = if up then shi c (Z.to_nat index) else slo c (Z.to_nat index).
Proof.
  intros Hc [Hx Hd] Hi. unfold bound_of, slo, shi. rewrite (lo_sval c Hc), (hi_sval c Hc).
  destruct (Hc (Z.to_nat index)) as [HL HU]. pose proof (DIM_range c). unfold CUBE_MAX_DIM in *.
  assert (Hr : ∀ k, 0 ≤ k < zlen (x c) → read_x c k = Ok (coord c (Z.to_nat k))).
  { intros k Hk. unfold read_x. destruct (Z.ltb_spec k 0), (Z.leb_spec (zlen (x c)) k); try lia; done. }
  unfold LL_COORD, UR_COORD in *. destruct (IS_POINT c).
  - rewrite Hr by lia. eexists. split_and!; [done|done|]. destruct up; lia.
  - rewrite uint32_id by lia. rewrite !Hr by lia. rsimpl. eexists. split; [done|].
    replace (Z.to_nat (index + DIM c)) with (Z.to_nat index + dimn c)%nat by (unfold dimn; lia).
    destruct up; split; [by apply dmax_number|by rewrite dmax_sval|by apply dmin_number|by rewrite dmin_sval].
Qed.

Lemma coord_index_range coord : 0 < coord < 2 ^ 31 → coord_index coord = (coord - 1) / 2.
Proof. intros. unfold coord_index. rewrite int32_id by (unfold is_int32, PG_INT32_MIN, PG_INT32_MAX; lia). apply Z.quot_div_nonneg; lia. Qed.

(** The value at a leaf and the bound on an inner page, for one cube. *)
Lemma distance_coord_value c coord leaf :
  cube_numbers c → coords_stored c → coord ≠ 0 → - 2 ^ 31 ≤ coord < 2 ^ 31 →
  let k := Z.abs coord in let i := Z.to_nat ((k - 1) / 2) in
  ∃ r, g_cube_distance_coord c coord leaf = Ok r ∧ number r ∧
    sval r = (if coord <? 0 then Z.opp else id)
      (if k <=? 2 * DIM c
       then if (if leaf then coord_upper k else coord <? 0) then shi c i else slo c i else 0).
Proof.
  intros Hc Hs H0 Hr k i. unfold g_cube_distance_coord. destruct (Z.eqb_spec coord 0); [done|].
  set (c' := if coord <? 0 then int32 (- coord) else coord).
  assert (Hu : uint32 c' = k ∧ (k < 2 ^ 31 → c' = k)).
  { unfold c', k. destruct (Z.ltb_spec coord 0); [|by rewrite uint32_id; lia].
    destruct (decide (coord = - 2 ^ 31)) as [->|]; [split; [done|lia]|].
    rewrite int32_id by (unfold is_int32, PG_INT32_MIN, PG_INT32_MAX; lia). rewrite uint32_id; lia. }
  destruct Hu as [-> Hk]. assert (0 < k ≤ 2 ^ 31) by (unfold k; lia). pose proof Hs as [_ HD]. unfold CUBE_MAX_DIM in HD.
  destruct (Z.leb_spec k (2 * DIM c)) as [Hle|Hgt].
  - rewrite Hk by lia. rewrite coord_index_range by lia.
    destruct (bound_of_spec c ((k - 1) / 2) (if leaf then coord_upper k else coord <? 0) Hc Hs) as (r & -> & Nr & Vr).
    { split; [apply Z.div_pos; lia|]. apply Z.div_lt_upper_bound; lia. }
    rsimpl. eexists. split; [done|]. fold i in Vr. rewrite <- Vr. destruct (coord <? 0); [by apply SFopp_number|done].
  - rsimpl. eexists. split; [done|]. destruct (coord <? 0); [|by split; [apply number_d0|]].
    destruct (SFopp_number d0 number_d0). done.
Qed.

Lemma dgt_irrefl v : dgt v v = false.
Proof.
  unfold dgt, SFltb. destruct v as [s|s| |s m e]; cbn; try done; [by destruct s|].
  rewrite Z.compare_refl, pos_compare_Z, Z.compare_refl. by destruct s.
Qed.

(** The corners of a box built from its sides. *)
Lemma box_cube_corners dim (sides : list (double * double)) i side :
  zlen sides = dim → dim < 2 ^ 31 → sides !! i = Some side →
  LL_COORD (box_cube dim (sides.*1 ++ sides.*2)) i = side.1 ∧ UR_COORD (box_cube dim (sides.*1 ++ sides.*2)) i = side.2.
Proof.
  intros Hl Hd Hi. pose proof (lookup_lt_Some _ _ _ Hi). pose proof (zlen_nonneg sides).
  assert (Hdm : dimn (box_cube dim (sides.*1 ++ sides.*2)) = length sides).
  { unfold dimn. rewrite box_cube_dim by lia. unfold zlen in *. lia. }
  unfold LL_COORD, UR_COORD. rewrite box_cube_not_point, Hdm by lia. unfold coord, box_cube. cbn [x].
  rewrite lookup_app_l by (rewrite length_fmap; lia). rewrite lookup_app_r by (rewrite length_fmap; lia).
  rewrite length_fmap. replace (i + length sides - length sides)%nat with i by lia. by rewrite !list_lookup_fmap, Hi.
Qed.

Lemma enlarge_axis_normal a r i : dgt (enlarge_axis a r i).1 (enlarge_axis a r i).2 = false.
Proof.
  unfold enlarge_axis. destruct (if dge _ _ then _ else _) as [u v]. destruct (dgt u v) eqn:E; [apply dgt_irrefl|done].
Qed.

Lemma dgt_opp_pos r : dgt r d0 = true → dgt (SFopp r) r = false.
Proof. unfold dgt, SFltb, d0. destruct r as [s|s| |s m e]; cbn; try done; by destruct s. Qed.

Lemma flag_point_corners c i : IS_POINT c = false → dgt (LL_COORD c i) (UR_COORD c i) = false →
  dgt (LL_COORD (flag_point c) i) (UR_COORD (flag_point c) i) = false.
Proof.
  intros Hp Hi. unfold flag_point. destruct (cube_is_point_internal c); [|done].
  unfold UR_COORD, LL_COORD. set (c' := mkNDBOX _ _ _). assert (HP : IS_POINT c' = true); [|rewrite HP; apply dgt_irrefl].
  unfold IS_POINT, has_flag, c', SET_POINT_BIT. cbn [header]. apply negb_true_iff, Z.eqb_neq. intros E.
  apply (f_equal (λ z, Z.testbit z 31)) in E. rewrite Z.land_spec, Z.lor_spec in E. change (Z.testbit POINT_BIT 31) with true in E.
  rewrite orb_true_r, Z.bits_0 in E. done.
Qed.

Lemma llur_leaf c coord : cube_coord_llur c coord = g_cube_distance_coord c coord true.
Proof. done. Qed.

Lemma enlarge_dim a r n :
  let dim := Z.max (DIM a) (if dgt r d0 then Z.max 0 (Z.min n CUBE_MAX_DIM) else 0) in
  ∃ sides, cube_enlarge a r n = flag_point (box_cube dim (sides.*1 ++ sides.*2)) ∧ zlen sides = dim ∧ 0 ≤ dim < 2 ^ 31 ∧
    Forall (λ s, dgt s.1 s.2 = false) sides.
Proof.
  intros dim. unfold cube_enlarge. set (m := if CUBE_MAX_DIM <? n then CUBE_MAX_DIM else n).
  set (d := if dgt r d0 && (0 <? m) then m else 0). set (d' := if d <? DIM a then DIM a else d).
  pose proof (DIM_range a) as HR. unfold CUBE_MAX_DIM in *.
  assert (Hm : m = Z.min n 100) by (unfold m; destruct (Z.ltb_spec 100 n); lia). clearbody m.
  assert (Hd : d' = dim).
  { assert (E : d = if dgt r d0 then Z.max 0 (Z.min n 100) else 0).
    { unfold d. destruct (dgt r d0); cbn [andb]; [|done]. destruct (Z.ltb_spec 0 m); lia. }
    unfold d', dim. rewrite E. destruct (Z.ltb_spec (if dgt r d0 then Z.max 0 (Z.min n 100) else 0) (DIM a)); lia. }
  assert (Hb : 0 ≤ dim < 2 ^ 31) by (unfold dim; destruct (dgt r d0); lia).
  assert (Hda : (dimn a ≤ Z.to_nat d')%nat) by (unfold dimn; rewrite Hd; unfold dim; destruct (dgt r d0); lia).
  eexists. rewrite Hd. split; [done|]. split_and!; [|lia|lia|].
  - rewrite zlen_app. unfold zlen, range. rewrite !length_map, !length_seq. rewrite Hd in Hda. lia.
  - apply Forall_app. split; apply Forall_map.
    + apply Forall_true. intros i. apply enlarge_axis_normal.
    + unfold range. apply Forall_forall. intros i [Hi1 Hi2]%elem_of_seq. cbn. apply dgt_opp_pos.
      destruct (dgt r d0) eqn:E; [done|]. unfold dim in *. unfold dimn in *. lia.
Qed.

(** * Theorems *)

(** The three distances are symmetric on cubes with finite coordinates, also of
    different dimension counts and where the cubes touch. *)
Theorem distances_symmetric a b :
  cube_finite a → cube_finite b →
  cube_distance a b = cube_distance b a ∧ distance_taxicab a b = distance_taxicab b a ∧
  distance_chebyshev a b = distance_chebyshev b a.
Proof.
  intros Ha Hb. unfold cube_distance, distance_taxicab, distance_chebyshev.
  split_and!; [f_equal| |]; apply over_axes_sym; try done; intros s d d' [z ->] [z' ->]; by destruct z, z'.
Qed.

(** Ordering by a coordinate with the index is sound: what [g_cube_distance] returns
    for a key on an inner page is at most what it returns for every cube the key contains,
    on a leaf and on an inner page; and on a leaf it is the value of the operator [~>].  No
    argument but zero, the smallest integer included, fails or reads outside the datum. *)
Theorem knn_coord_lower_bound n key child coord :
  cube_ok n key → cube_ok n child → coords_stored key → coords_stored child →
  cube_contains_v0 key child = true → coord ≠ 0 → - 2 ^ 31 ≤ coord < 2 ^ 31 →
  ∃ bound inner v,
    g_cube_distance key (inl coord) CubeKNNDistanceCoord false = Ok bound ∧
    g_cube_distance child (inl coord) CubeKNNDistanceCoord false = Ok inner ∧
    g_cube_distance child (inl coord) CubeKNNDistanceCoord true = Ok v ∧ cube_coord_llur child coord = Ok v ∧
    dle bound inner = true ∧ dle inner v = true ∧ dle bound v = true.
Proof.
  intros Hk Hc Sk Sc Hcon H0 Hr. pose proof (proj1 (cube_contains_spec n key child Hk Hc) Hcon) as HB.
  pose proof (λ i, slo_shi n child i Hc) as Hlh. destruct Hk as [Dk Nk], Hc as [Dc Nc].
  destruct (distance_coord_value key coord false Nk Sk H0 Hr) as (b & Hb & Nb & Vb).
  destruct (distance_coord_value child coord false Nc Sc H0 Hr) as (w & Hw & Nw & Vw).
  destruct (distance_coord_value child coord true Nc Sc H0 Hr) as (v & Hv & Nv & Vv).
  exists b, w, v. cbn [g_cube_distance]. rewrite Z.eqb_refl, llur_leaf, Hb, Hw, Hv, !dle_sval, Vb, Vw, Vv, Dk, Dc by done.
  set (i := Z.to_nat ((Z.abs coord - 1) / 2)). specialize (Hlh i).
  destruct (Z.leb_spec (Z.abs coord) (2 * Z.of_nat n)) as [Hle|Hgt].
  - destruct (HB i) as [H1 H2].
    { unfold i. assert ((Z.abs coord - 1) / 2 < Z.of_nat n) by (apply Z.div_lt_upper_bound; lia).
      pose proof (Z.div_pos (Z.abs coord - 1) 2). lia. }
    destruct (coord <? 0), (coord_upper (Z.abs coord)); cbn [id]; rewrite !Z.leb_le; split_and!; try done; lia.
  - destruct (coord <? 0); cbn [id]; rewrite !Z.leb_le; split_and!; done || lia.
Qed.

(** [cube_enlarge] gives a cube of the larger of the two dimension counts whose lower
    left corner is nowhere above its upper right corner, also for a negative radius, which
    shrinks no further than to the middle. *)
Theorem cube_enlarge_normalised a r n i :
  let dim := Z.max (DIM a) (if dgt r d0 then Z.max 0 (Z.min n CUBE_MAX_DIM) else 0) in
  DIM (cube_enlarge a r n) = dim ∧
  (Z.of_nat i < dim → dgt (LL_COORD (cube_enlarge a r n) i) (UR_COORD (cube_enlarge a r n) i) = false).
Proof.
  intros dim. destruct (enlarge_dim a r n) as (sides & -> & Hl & Hb & HF). fold dim in Hl, Hb |- *. split.
  - unfold flag_point. destruct (cube_is_point_internal _); [|by apply box_cube_dim].
    unfold DIM. cbn [header]. unfold SET_POINT_BIT. rewrite Z.land_lor_distr_l. change (Z.land POINT_BIT DIM_MASK) with 0.
    rewrite Z.lor_0_r. by apply box_cube_dim.
  - intros Hi. apply flag_point_corners; [by apply box_cube_not_point|].
    destruct (lookup_lt_is_Some_2 sides i) as [s Hs]; [unfold zlen in Hl; lia|].
    destruct (box_cube_corners dim sides i s Hl ltac:(lia) Hs) as [-> ->]. by eapply Forall_lookup_1 in HF.
Qed.

(** With an infinite coordinate the distances are not symmetric: where a box that
    reaches up to infinity meets the point at infinity, the distance is not a number in one
    order and zero in the other. *)
Theorem distance_infinite_asymmetric :
  let a := box_cube 1 [d0; dinf] in let b := point_cube 1 [dinf] in
  cube_distance a b = S754_nan ∧ cube_distance b a = d0 ∧
  distance_taxicab a b = S754_nan ∧ distance_taxicab b a = d0.
Proof. vm_compute. done. Qed.

(** ** Witnesses *)

Lemma cube_finite_coords c : Forall finite_number (x c) → cube_finite c.
Proof.
  intros Hx i. assert (Hi : ∀ j, finite_number (coord c j)).
  { intros j. unfold coord. destruct (x c !! j) eqn:E; [|by split; [apply number_d0|]]. cbn. by eapply Forall_lookup_1. }
  unfold LL_COORD, UR_COORD. destruct (IS_POINT c); auto.
Qed.

Lemma i2d_finite z : Z.abs z < 2 ^ 53 → finite_number (i2d z).
Proof. intros Hz. destruct (i2d_exact z Hz) as (? & ? & _). by split. Qed.

Definition ints (l : list Z) : list double := map i2d l.

Lemma ints_finite l : Forall (λ z, Z.abs z < 2 ^ 53) l → Forall finite_number (ints l).
Proof. intros HF. apply Forall_map. eapply Forall_impl; [exact HF|]. apply i2d_finite. Qed.

Lemma distances_symmetric_witness :
  let a := box_cube 2 (ints [0; 0; 2; 5]) in let b := point_cube 1 (ints [6]) in
  cube_distance a b = cube_distance b a ∧ distance_taxicab a b = distance_taxicab b a ∧ distance_chebyshev a b = distance_chebyshev b a.
Proof. intros a b. apply (distances_symmetric a b); apply cube_finite_coords, ints_finite; repeat constructor. Defined.

Example distance_values :
  let a := box_cube 2 (ints [0; 0; 2; 5]) in let b := point_cube 2 (ints [6; 8]) in
  cube_distance a b = i2d 5 ∧ distance_taxicab a b = i2d 7 ∧ distance_chebyshev a b = i2d 4.
Proof. vm_compute. done. Qed.

Lemma knn_coord_lower_bound_witness :
  ∃ bound inner v,
    g_cube_distance (box_cube 2 (ints [0; 0; 9; 9])) (inl (-2)) CubeKNNDistanceCoord false = Ok bound ∧
    g_cube_distance (box_cube 2 (ints [1; 7; 3; 2])) (inl (-2)) CubeKNNDistanceCoord false = Ok inner ∧
    g_cube_distance (box_cube 2 (ints [1; 7; 3; 2])) (inl (-2)) CubeKNNDistanceCoord true = Ok v ∧
    cube_coord_llur (box_cube 2 (ints [1; 7; 3; 2])) (-2) = Ok v ∧
    dle bound inner = true ∧ dle inner v = true ∧ dle bound v = true.
Proof.
  assert (HN : ∀ c, cube_finite c → cube_numbers c) by (intros c Hc i; destruct (Hc i) as [[? _] [? _]]; by split).
  apply (knn_coord_lower_bound 2);
    [split; [reflexivity|apply HN, cube_finite_coords, ints_finite; repeat constructor]
    |split; [reflexivity|apply HN, cube_finite_coords, ints_finite; repeat constructor]
    |split; vm_compute; discriminate|split; vm_compute; discriminate|vm_compute; reflexivity|lia|lia].
Defined.

Lemma cube_enlarge_normalised_witness :
  let c := cube_enlarge (box_cube 1 (ints [5; 1])) (i2d (-9)) 3 in
  DIM c = 1 ∧ dgt (LL_COORD c 0) (UR_COORD c 0) = false.
Proof.
  intros c. destruct (cube_enlarge_normalised (box_cube 1 (ints [5; 1])) (i2d (-9)) 3 0) as [H1 H2].
  split; [exact H1|]. apply H2. vm_compute. reflexivity.
Defined.
