(* ===== verification/Wire.v ===== *)
(** The binary form of cubes: cube_send and cube_recv of contrib/cube/cube.c on the message
    functions of pqformat.c.  A message is its bytes; reading takes them off the front.  The
    bits of a double are those of IEEE 754 binary64, with one representation of NaN. *)

From S2P Require Import Prelude Float64 Cube.

(** * Integers in network byte order *)

Fixpoint hton (n : nat) (z : Z) : list Z :=
  match n with O => [] | S n => z / 256 ^ Z.of_nat n mod 256 :: hton n z end.

Definition ntoh (l : list Z) : Z := foldl (λ v b, v * 256 + b) 0 l.

(** [pq_sendint32] and [pq_sendint64]: the bytes appended. *)
Definition pq_sendint32 (i : Z) : list Z := hton 4 (uint32 i).
Definition pq_sendint64 (i : Z) : list Z := hton 8 (i mod 2 ^ 64).

Definition pq_copymsgbytes (msg : list Z) (datalen : nat) : result (list Z * list Z) :=
  if (length msg <? datalen)%nat then Err (Elog "insufficient data left in message")
  else Ok (take datalen msg, drop datalen msg).

(** [pq_getmsgint(msg, 4)]. *)
Definition pq_getmsgint (msg : list Z) : result (Z * list Z) :=
  '(b, msg) ← pq_copymsgbytes msg 4; Ok (ntoh b, msg).

Definition pq_getmsgint64 (msg : list Z) : result (Z * list Z) :=
  '(b, msg) ← pq_copymsgbytes msg 8; Ok (ntoh b, msg).

(** * The bits of a double *)

Definition sign_bit (s : bool) : Z := if s then 2 ^ 63 else 0.

Definition double_bits (d : double) : Z :=
  match d with
  | S754_zero s => sign_bit s
  | S754_infinity s => sign_bit s + 2047 * 2 ^ 52
  | S754_nan => 2047 * 2 ^ 52 + 2 ^ 51
  | S754_finite s m e =>
      if Z.pos m <? 2 ^ 52 then sign_bit s + Z.pos m
      else sign_bit s + (e + 1075) * 2 ^ 52 + (Z.pos m - 2 ^ 52)
  end.

Definition bits_double (z : Z) : double :=
  let s := 2 ^ 63 <=? z in
  let r := z mod 2 ^ 63 in
  let ex := r / 2 ^ 52 in
  let f := r mod 2 ^ 52 in
  if ex =? 2047 then (if f =? 0 then S754_infinity s else S754_nan)
  else if ex =? 0 then match f with Z.pos m => S754_finite s m (-1074) | _ => S754_zero s end
  else match 2 ^ 52 + f with Z.pos m => S754_finite s m (ex - 1075) | _ => S754_nan end.

Definition pq_sendfloat8 (f : double) : list Z := pq_sendint64 (double_bits f).

Definition pq_getmsgfloat8 (msg : list Z) : result (double * list Z) :=
  '(i, msg) ← pq_getmsgint64 msg; Ok (bits_double i, msg).

(** * Cubes *)

Definition nitems (header : Z) : Z :=
  let n := Z.land header DIM_MASK in if Z.land header POINT_BIT =? 0 then n + n else n.

(** The contents of the [bytea]. *)
Definition cube_send (cube : NDBOX) : list Z :=
  pq_sendint32 (header cube) ++
  flat_map (λ i, pq_sendfloat8 (coord cube i)) (seq 0 (Z.to_nat (nitems (header cube)))).

Fixpoint get_coords (n : nat) (msg : list Z) : result (list double * list Z) :=
  match n with
  | O => Ok ([], msg)
  | S n => '(d, msg) ← pq_getmsgfloat8 msg; '(ds, msg) ← get_coords n msg; Ok (d :: ds, msg)
  end.

Definition cube_recv (msg : list Z) : result (NDBOX * list Z) :=
  '(header, msg) ← pq_getmsgint msg;
  if CUBE_MAX_DIM <? Z.land header DIM_MASK then Err (Elog "cube dimension is too large")
  else
    '(x, msg) ← get_coords (Z.to_nat (nitems header)) msg;
    Ok (mkNDBOX (8 + 8 * nitems header) header x, msg).

(** * Lemmas *)

Lemma length_hton n z : length (hton n z) = n.
Proof. induction n as [|n IH]; [done|]. cbn. by rewrite IH. Qed.

Lemma ntoh_app l k : ntoh (l ++ k) = foldl (λ v b, v * 256 + b) (ntoh l) k.
Proof. apply foldl_app. Qed.

Lemma ntoh_hton n z : ntoh (hton n z) = z mod 256 ^ Z.of_nat n.
Proof.
  assert (HG : ∀ n v, foldl (λ v b, v * 256 + b) v (hton n z) = v * 256 ^ Z.of_nat n + z mod 256 ^ Z.of_nat n).
  { clear n. induction n as [|n IH]; intros v; [cbn; rewrite Z.mod_1_r; lia|]. cbn [hton foldl]. rewrite IH.
    replace (256 ^ Z.of_nat (S n)) with (256 ^ Z.of_nat n * 256) by (rewrite Nat2Z.inj_succ, Z.pow_succ_r by lia; lia).
    assert (0 < 256 ^ Z.of_nat n) by (apply Z.pow_pos_nonneg; lia).
    rewrite (Z.rem_mul_r z (256 ^ Z.of_nat n) 256) by lia. lia. }
  unfold ntoh. rewrite HG. lia.
Qed.

Lemma copy_app n (b rest : list Z) : length b = n → pq_copymsgbytes (b ++ rest) n = Ok (b, rest).
Proof.
  intros Hl. unfold pq_copymsgbytes. rewrite length_app, Hl. destruct (Nat.ltb_spec (n + length rest) n); [lia|].
  by rewrite take_app_length', drop_app_length' by done.
Qed.

Lemma bits_double_sign s r : 0 ≤ r < 2 ^ 63 → (2 ^ 63 <=? sign_bit s + r) = s ∧ (sign_bit s + r) mod 2 ^ 63 = r.
Proof.
  intros Hr. destruct s; cbn [sign_bit].
  - split; [apply Z.leb_le; lia|]. rewrite Z.add_comm, <- (Z.mul_1_l (2 ^ 63)) at 1. rewrite Z.mod_add by lia. by apply Z.mod_small.
  - split; [apply Z.leb_gt; lia|]. by apply Z.mod_small.
Qed.

Lemma exponent_split ex f : 0 ≤ f < 2 ^ 52 → (ex * 2 ^ 52 + f) / 2 ^ 52 = ex ∧ (ex * 2 ^ 52 + f) mod 2 ^ 52 = f.
Proof.
  intros Hf. split.
  - rewrite Z.div_add_l by lia. rewrite Z.div_small by lia. lia.
  - rewrite Z.add_comm, Z.mod_add by lia. by apply Z.mod_small.
Qed.

(** The bits determine the double. *)
Lemma bits_fields s ex f : 0 ≤ ex < 2048 → 0 ≤ f < 2 ^ 52 →
  bits_double (sign_bit s + (ex * 2 ^ 52 + f)) =
  if ex =? 2047 then (if f =? 0 then S754_infinity s else S754_nan)
  else if ex =? 0 then match f with Z.pos m => S754_finite s m (-1074) | _ => S754_zero s end
  else match 2 ^ 52 + f with Z.pos m => S754_finite s m (ex - 1075) | _ => S754_nan end.
Proof.
  intros He Hf. unfold bits_double. destruct (bits_double_sign s (ex * 2 ^ 52 + f)) as [-> ->]; [lia|].
  by destruct (exponent_split ex f Hf) as [-> ->].
Qed.

Lemma bits_roundtrip d : valid d → bits_double (double_bits d) = d ∧ 0 ≤ double_bits d < 2 ^ 64.
Proof.
  intros V. destruct d as [s|s| |s m e].
  - by destruct s.
  - by destruct s.
  - done.
  - destruct (bounded_spec m e V) as (He & Hm & Hn). cbn [double_bits].
    assert (Hs : 0 ≤ sign_bit s ≤ 2 ^ 63) by (destruct s; cbn; lia).
    destruct (Z.ltb_spec (Z.pos m) (2 ^ 52)) as [Hlt|Hge].
    + assert (e = -1074) as -> by lia. pose proof (bits_fields s 0 (Z.pos m) ltac:(lia) ltac:(lia)) as HB.
      rewrite Z.mul_0_l, Z.add_0_l in HB. split; [exact HB|lia].
    + pose proof (bits_fields s (e + 1075) (Z.pos m - 2 ^ 52) ltac:(lia) ltac:(lia)) as HB. rewrite Z.add_assoc in HB.
      split; [|lia]. rewrite HB. destruct (Z.eqb_spec (e + 1075) 2047), (Z.eqb_spec (e + 1075) 0); try lia.
      replace (2 ^ 52 + (Z.pos m - 2 ^ 52)) with (Z.pos m) by lia. f_equal. lia.
Qed.

Lemma getfloat_send d rest : valid d → pq_getmsgfloat8 (pq_sendfloat8 d ++ rest) = Ok (d, rest).
Proof.
  intros V. destruct (bits_roundtrip d V) as [HB HR]. unfold pq_getmsgfloat8, pq_getmsgint64, pq_sendfloat8, pq_sendint64.
  rewrite copy_app by apply length_hton. rsimpl. rewrite ntoh_hton. change (256 ^ Z.of_nat 8) with (2 ^ 64).
  rewrite Z.mod_mod, Z.mod_small by lia. by rewrite HB.
Qed.

Lemma get_coords_send ds rest : Forall valid ds → get_coords (length ds) (flat_map pq_sendfloat8 ds ++ rest) = Ok (ds, rest).
Proof.
  induction 1 as [|d ds V _ IH]; [done|]. cbn [length get_coords flat_map]. rewrite <- app_assoc, getfloat_send by done. rsimpl.
  by rewrite IH.
Qed.

(** What the server stores: the size and the coordinates the header says. *)
Record datum_ok (c : NDBOX) : Prop := {
  do_header : 0 ≤ header c < 2 ^ 32;
  do_dim : DIM c ≤ CUBE_MAX_DIM;
  do_coords : zlen (x c) = nitems (header c);
  do_size : vl_size c = 8 + 8 * nitems (header c);
  do_valid : Forall valid (x c);
}.

Lemma send_coords c : datum_ok c → cube_send c = pq_sendint32 (header c) ++ flat_map pq_sendfloat8 (x c).
Proof.
  intros [_ _ Hn _ _]. unfold cube_send. f_equal. rewrite <- Hn. unfold zlen. rewrite Nat2Z.id.
  rewrite !flat_map_concat_map. f_equal. unfold coord. generalize (x c). intros l.
  apply list_eq. intros i. rewrite !list_lookup_fmap. destruct (decide (i < length l)%nat) as [Hi|Hi].
  - rewrite lookup_seq_lt by done. destruct (lookup_lt_is_Some_2 l i Hi) as [d Hd]. rewrite Hd. cbn. by rewrite Hd.
  - rewrite lookup_seq_ge, (lookup_ge_None_2 l) by lia. done.
Qed.

Lemma getint_send z rest : 0 ≤ z < 2 ^ 32 → pq_getmsgint (pq_sendint32 z ++ rest) = Ok (z, rest).
Proof.
  intros Hz. unfold pq_getmsgint, pq_sendint32. rewrite copy_app by apply length_hton. rsimpl. rewrite ntoh_hton.
  change (256 ^ Z.of_nat 4) with (2 ^ 32). rewrite uint32_id by done. by rewrite Z.mod_small.
Qed.

Lemma cube_recv_send c rest : datum_ok c → cube_recv (cube_send c ++ rest) = Ok (c, rest).
Proof.
  intros Hc. rewrite (send_coords c Hc). destruct Hc as [Hh Hd Hn Hs HV]. unfold cube_recv.
  rewrite <- app_assoc, getint_send by done. rsimpl. fold (DIM c). destruct (Z.ltb_spec CUBE_MAX_DIM (DIM c)); [lia|].
  rewrite <- Hn. unfold zlen. rewrite Nat2Z.id, get_coords_send by done. rsimpl. fold (zlen (x c)). rewrite Hn, <- Hs. by destruct c.
Qed.

Lemma copy_short msg n : (length msg < n)%nat → pq_copymsgbytes msg n = Err (Elog "insufficient data left in message").
Proof. intros Hl. unfold pq_copymsgbytes. by destruct (Nat.ltb_spec (length msg) n); [|lia]. Qed.

Lemma get_coords_short n : ∀ msg, (length msg < 8 * n)%nat → get_coords n msg = Err (Elog "insufficient data left in message").
Proof.
  induction n as [|n IH]; intros msg Hl; [lia|]. cbn [get_coords]. unfold pq_getmsgfloat8, pq_getmsgint64.
  destruct (decide (length msg < 8)%nat) as [H8|H8]; [by rewrite copy_short|].
  unfold pq_copymsgbytes. destruct (Nat.ltb_spec (length msg) 8); [lia|]. rsimpl. rewrite IH; [done|]. rewrite length_drop. lia.
Qed.

Lemma length_send_coords ds : length (flat_map pq_sendfloat8 ds) = (8 * length ds)%nat.
Proof.
  induction ds as [|d ds IH]; [done|]. cbn [flat_map length]. rewrite length_app, IH. unfold pq_sendfloat8, pq_sendint64. rewrite length_hton. lia.
Qed.

Lemma cube_recv_short c k : datum_ok c → (k < length (cube_send c))%nat →
  cube_recv (take k (cube_send c)) = Err (Elog "insufficient data left in message").
Proof.
  intros Hc. rewrite (send_coords c Hc). destruct Hc as [Hh Hd Hn Hs HV].
  assert (H4 : length (pq_sendint32 (header c)) = 4%nat) by apply length_hton.
  rewrite length_app, length_send_coords, H4. intros Hk. unfold cube_recv. destruct (decide (k < 4)%nat) as [Hlt|Hge].
  - unfold pq_getmsgint. rewrite copy_short; [done|]. rewrite length_take. lia.
  - rewrite take_app, H4, take_ge by lia. rewrite getint_send by done. rsimpl. fold (DIM c).
    destruct (Z.ltb_spec CUBE_MAX_DIM (DIM c)); [lia|]. rewrite get_coords_short; [done|].
    rewrite length_take, length_send_coords, <- Hn. unfold zlen. lia.
Qed.

(** * Theorems *)

(** The binary form of a cube reads back as the same cube and leaves the rest of the
    message, whatever its coordinates (infinities, zeroes of both signs and subnormal numbers
    included); a message cut short anywhere is refused with an error. *)
Theorem cube_wire_roundtrip c rest :
  datum_ok c →
  cube_recv (cube_send c ++ rest) = Ok (c, rest) ∧
  ∀ k, (k < length (cube_send c))%nat → cube_recv (take k (cube_send c)) = Err (Elog "insufficient data left in message").
Proof. intros Hc. split; [by apply cube_recv_send|]. intros k. by apply cube_recv_short. Qed.

(** A point with minus zero and infinity. *)
Definition wire_point : NDBOX := point_cube 2 [S754_zero true; dinf].

Lemma wire_point_ok : datum_ok wire_point.
Proof. constructor; try reflexivity; [split; [vm_compute; discriminate|reflexivity]|vm_compute; discriminate|repeat constructor]. Qed.

Lemma cube_wire_roundtrip_witness :
  cube_recv (cube_send wire_point ++ [7]) = Ok (wire_point, [7]) ∧
  cube_recv (take 19 (cube_send wire_point)) = Err (Elog "insufficient data left in message").
Proof.
  destruct (cube_wire_roundtrip wire_point [7] wire_point_ok) as [H1 H2]. split; [exact H1|].
  apply H2. vm_compute. lia.
Defined.

Example wire_bytes : cube_send wire_point = [128; 0; 0; 2; 128; 0; 0; 0; 0; 0; 0; 0; 127; 240; 0; 0; 0; 0; 0; 0].
Proof. reflexivity. Qed.
