(* ===== verification/Box.v ===== *)
(** The key of the access method: the temporal box (temporal_rtree.h), its
    conversion from and to cubes and its predicates (temporal_rtree_page.c), and
    the union of boxes (temporal_rtree_split.c). *)

From S2P Require Import Prelude Float64 Cube.

Definition TRTREE_FLAG_EMPTY : Z := 0x0001.
Definition TRTREE_FLAG_LOWER_INF : Z := 0x0002.
Definition TRTREE_FLAG_UPPER_INF : Z := 0x0004.

Definition TRTREE_STRATEGY_OVERLAP : Z := 1.
Definition TRTREE_STRATEGY_CONTAINS : Z := 2.
Definition TRTREE_STRATEGY_CONTAINED : Z := 3.

Record RTreeTemporalBox : Type := mkBox {
  lower_us : Z;
  upper_us : Z;
  attr_lo : Z;
  attr_hi : Z;
  dims : Z;
  flags : Z;
}.

#[export] Instance RTreeTemporalBox_eq_dec : EqDecision RTreeTemporalBox.
Proof. solve_decision. Defined.

(** A zero-filled box, as [MemSet] leaves it. *)
Definition zero_box : RTreeTemporalBox := mkBox 0 0 0 0 0 0.

Definition is_empty (b : RTreeTemporalBox) : bool := has_flag (flags b) TRTREE_FLAG_EMPTY.
Definition is_current (b : RTreeTemporalBox) : bool := has_flag (flags b) TRTREE_FLAG_UPPER_INF.

(** * Conversions *)

Definition rtree_box_to_cube_internal (box : RTreeTemporalBox) : NDBOX :=
  let point := (attr_lo box =? attr_hi box) && (lower_us box =? upper_us box) &&
               negb (has_flag (flags box) (Z.lor TRTREE_FLAG_LOWER_INF TRTREE_FLAG_UPPER_INF)) in
  if point
  then point_cube 2 [i2d (attr_lo box); i2d (lower_us box)]
  else box_cube 2 [i2d (attr_lo box); i2d (lower_us box);
                   i2d (attr_hi box); i2d (upper_us box)].

Definition rtree_box_to_cube (box : RTreeTemporalBox) : NDBOX :=
  rtree_box_to_cube_internal box.

Definition rtree_cube_to_box `{Platform} (cube : NDBOX) : RTreeTemporalBox :=
  let dim := DIM cube in
  let attr_lo_d := LL_COORD cube 0 in
  let attr_hi_d := if IS_POINT cube then LL_COORD cube 0 else UR_COORD cube 0 in
  let lower_d := if 2 <=? dim then LL_COORD cube 1 else LL_COORD cube 0 in
  let upper_d := if 2 <=? dim
                 then (if IS_POINT cube then LL_COORD cube 1 else UR_COORD cube 1)
                 else lower_d in
  let '(lower, fl) :=
    if isinf lower_d && dlt lower_d d0
    then (PG_INT64_MIN, TRTREE_FLAG_LOWER_INF) else (llround lower_d, 0) in
  let '(upper, fl) :=
    if isinf upper_d && dgt upper_d d0
    then (PG_INT64_MAX, Z.lor fl TRTREE_FLAG_UPPER_INF) else (llround upper_d, fl) in
  let fl := if lower =? PG_INT64_MIN then Z.lor fl TRTREE_FLAG_LOWER_INF else fl in
  let fl := if upper =? PG_INT64_MAX then Z.lor fl TRTREE_FLAG_UPPER_INF else fl in
  {| lower_us := lower;
     upper_us := upper;
     attr_lo := int32 (llround attr_lo_d);
     attr_hi := int32 (llround attr_hi_d);
     dims := if 2 <=? dim then 2 else 1;
     flags := fl |}.

(** * Predicates *)

Definition rtree_box_overlaps (a b : RTreeTemporalBox) : bool :=
  if is_empty a then false
  else if is_empty b then false
  else negb ((attr_hi a <? attr_lo b) || (attr_hi b <? attr_lo a) ||
             (upper_us a <? lower_us b) || (upper_us b <? lower_us a)).

Definition rtree_box_contains (a b : RTreeTemporalBox) : bool :=
  negb (is_empty a) && negb (is_empty b) &&
  (attr_lo a <=? attr_lo b) && (attr_hi b <=? attr_hi a) &&
  (lower_us a <=? lower_us b) && (upper_us b <=? upper_us a).

Definition rtree_box_contained (a b : RTreeTemporalBox) : bool := rtree_box_contains b a.

Definition rtree_box_matches_strategy (tuple_box query_box : RTreeTemporalBox)
    (strategy : Z) : bool :=
  if strategy =? TRTREE_STRATEGY_OVERLAP then rtree_box_overlaps tuple_box query_box
  else if strategy =? TRTREE_STRATEGY_CONTAINS then rtree_box_contains tuple_box query_box
  else if strategy =? TRTREE_STRATEGY_CONTAINED then rtree_box_contained tuple_box query_box
  else rtree_box_overlaps tuple_box query_box.

(** * Union *)

Definition tr_union (a b : RTreeTemporalBox) : RTreeTemporalBox :=
  if is_empty a then b
  else if is_empty b then a
  else
    let fl := Z.land (Z.lor (flags a) (flags b)) (Z.lnot TRTREE_FLAG_EMPTY) in
    {| dims := Z.max (dims a) (dims b);
       flags := if has_flag (flags a) TRTREE_FLAG_UPPER_INF ||
                   has_flag (flags b) TRTREE_FLAG_UPPER_INF
                then Z.lor fl TRTREE_FLAG_UPPER_INF else fl;
       lower_us := Z.min (lower_us a) (lower_us b);
       upper_us := Z.max (upper_us a) (upper_us b);
       attr_lo := Z.min (attr_lo a) (attr_lo b);
       attr_hi := Z.max (attr_hi a) (attr_hi b) |}.

(** * Flag facts *)

Lemma has_flag_clear_other w : has_flag (Z.land w (Z.lnot TRTREE_FLAG_EMPTY)) TRTREE_FLAG_EMPTY = false.
Proof.
  unfold has_flag. rewrite <- Z.land_assoc.
  replace (Z.land (Z.lnot TRTREE_FLAG_EMPTY) TRTREE_FLAG_EMPTY) with 0 by done.
  by rewrite Z.land_0_r.
Qed.

Lemma has_flag_clear_upper w :
  has_flag (Z.land w (Z.lnot TRTREE_FLAG_EMPTY)) TRTREE_FLAG_UPPER_INF =
  has_flag w TRTREE_FLAG_UPPER_INF.
Proof. unfold has_flag. rewrite <- Z.land_assoc. done. Qed.

Lemma has_flag_clear_lower w :
  has_flag (Z.land w (Z.lnot TRTREE_FLAG_EMPTY)) TRTREE_FLAG_LOWER_INF =
  has_flag w TRTREE_FLAG_LOWER_INF.
Proof. unfold has_flag. rewrite <- Z.land_assoc. done. Qed.

(** * Union is the least upper bound of containment *)

Lemma tr_union_not_empty a b :
  is_empty a = false → is_empty b = false → is_empty (tr_union a b) = false.
Proof.
  intros Ha Hb. unfold tr_union. rewrite Ha, Hb. unfold is_empty; cbn [flags].
  bool_cases; rewrite ?has_flag_lor, ?has_flag_clear_other; done.
Qed.

Lemma contains_spec a b :
  rtree_box_contains a b = true ↔
  is_empty a = false ∧ is_empty b = false ∧
  attr_lo a ≤ attr_lo b ∧ attr_hi b ≤ attr_hi a ∧
  lower_us a ≤ lower_us b ∧ upper_us b ≤ upper_us a.
Proof.
  unfold rtree_box_contains. rewrite !andb_true_iff, !negb_true_iff, !Z.leb_le. tauto.
Qed.

Lemma overlaps_spec a b :
  rtree_box_overlaps a b = true ↔
  is_empty a = false ∧ is_empty b = false ∧
  attr_lo b ≤ attr_hi a ∧ attr_lo a ≤ attr_hi b ∧
  lower_us b ≤ upper_us a ∧ lower_us a ≤ upper_us b.
Proof.
  unfold rtree_box_overlaps. destruct (is_empty a), (is_empty b); cbv iota; try (split; [done|intuition congruence]).
  rewrite negb_true_iff, !orb_false_iff, !Z.ltb_ge. tauto.
Qed.

Lemma contains_trans a b c :
  rtree_box_contains a b = true → rtree_box_contains b c = true →
  rtree_box_contains a c = true.
Proof. rewrite !contains_spec. intuition lia. Qed.

Lemma tr_union_contains_l a b :
  is_empty a = false → rtree_box_contains (tr_union a b) a = true.
Proof.
  intros Ha. apply contains_spec. destruct (is_empty b) eqn:Hb.
  - unfold tr_union. rewrite Ha, Hb. repeat split; done || lia.
  - rewrite tr_union_not_empty by done. unfold tr_union. rewrite Ha, Hb. cbn. lia.
Qed.

Lemma tr_union_contains_r a b :
  is_empty b = false → rtree_box_contains (tr_union a b) b = true.
Proof.
  intros Hb. apply contains_spec. destruct (is_empty a) eqn:Ha.
  - unfold tr_union. rewrite Ha. repeat split; done || lia.
  - rewrite tr_union_not_empty by done. unfold tr_union. rewrite Ha, Hb. cbn. lia.
Qed.

Lemma tr_union_least a b c :
  rtree_box_contains c a = true → rtree_box_contains c b = true →
  rtree_box_contains c (tr_union a b) = true.
Proof.
  rewrite !contains_spec. intros (Hc & Ha & ? & ? & ? & ?) (_ & Hb & ? & ? & ? & ?).
  rewrite tr_union_not_empty by done. unfold tr_union. rewrite Ha, Hb. cbn.
  split_and!; done || lia.
Qed.

(** * Boxes read from cubes *)

Definition clamp64 (z : Z) : Z := Z.max PG_INT64_MIN (Z.min PG_INT64_MAX z).

(** Coordinates the conversion is specified on: the attribute fits 32 bits, a
    time bound fits 64 bits or is the infinity of its side. *)
Definition attr_coord (d : double) : Prop :=
  number d ∧ finite d ∧ is_int32 (rnd (sval d)).
Definition time_coord (s : bool) (d : double) : Prop :=
  number d ∧ (d = S754_infinity s ∨ finite d ∧ is_int64 (rnd (sval d))).

(** A two-dimensional key: normalised corners with specified coordinates. *)
Definition key_cube (c : NDBOX) : Prop :=
  DIM c = 2 ∧ cube_numbers c ∧
  sval (LL_COORD c 0) ≤ sval (UR_COORD c 0) ∧
  sval (LL_COORD c 1) ≤ sval (UR_COORD c 1) ∧
  attr_coord (LL_COORD c 0) ∧ attr_coord (UR_COORD c 0) ∧
  time_coord true (LL_COORD c 1) ∧ time_coord false (UR_COORD c 1).

Lemma rnd_inf : rnd (2 ^ 2100) = 2 ^ 1026.
Proof. vm_compute. done. Qed.

Lemma rnd_ninf : rnd (- 2 ^ 2100) = - 2 ^ 1026.
Proof. vm_compute. done. Qed.

Section key.
Context `{Platform}.

Lemma attr_coord_llround d :
  attr_coord d → int32 (llround d) = rnd (sval d).
Proof.
  intros (Hn & Hf & Hr). rewrite llround_rnd by
    (done || (revert Hr; unfold is_int32, is_int64, PG_INT32_MIN, PG_INT32_MAX,
              PG_INT64_MIN, PG_INT64_MAX; lia)).
  by apply int32_id.
Qed.

Lemma time_coord_llround s d :
  time_coord s d →
  (if isinf d && (if s then dlt d d0 else dgt d d0)
   then (if s then PG_INT64_MIN else PG_INT64_MAX) else llround d) =
  clamp64 (rnd (sval d)).
Proof.
  intros (Hn & [->|[Hf Hr]]).
  - destruct s; cbn [isinf sval cond_Zopp andb]; rewrite ?rnd_inf, ?rnd_ninf; done.
  - replace (isinf d) with false by (by destruct d). cbn [andb].
    rewrite llround_rnd by done. unfold clamp64, is_int64 in *. lia.
Qed.

Lemma IS_POINT_UR c i : IS_POINT c = true → UR_COORD c i = LL_COORD c i.
Proof. unfold UR_COORD, LL_COORD. by intros ->. Qed.

(** The fields of the box of a key cube. *)
Lemma key_cube_box c :
  key_cube c →
  let b := rtree_cube_to_box c in
  attr_lo b = rnd (sval (LL_COORD c 0)) ∧ attr_hi b = rnd (sval (UR_COORD c 0)) ∧
  lower_us b = clamp64 (rnd (sval (LL_COORD c 1))) ∧
  upper_us b = clamp64 (rnd (sval (UR_COORD c 1))) ∧
  dims b = 2 ∧ is_empty b = false ∧
  has_flag (flags b) TRTREE_FLAG_LOWER_INF = (lower_us b =? PG_INT64_MIN) ∧
  has_flag (flags b) TRTREE_FLAG_UPPER_INF = (upper_us b =? PG_INT64_MAX).
Proof.
  intros (Hd & Hn & H0 & H1 & A0 & A1 & T0 & T1). cbv zeta.
  apply time_coord_llround in T0, T1.
  unfold rtree_cube_to_box. rewrite Hd. change (2 <=? 2) with true. cbv iota.
  assert (Eu : (if IS_POINT c then LL_COORD c 1 else UR_COORD c 1) = UR_COORD c 1).
  { destruct (IS_POINT c) eqn:E; [by rewrite IS_POINT_UR|done]. }
  assert (Ea : (if IS_POINT c then LL_COORD c 0 else UR_COORD c 0) = UR_COORD c 0).
  { destruct (IS_POINT c) eqn:E; [by rewrite IS_POINT_UR|done]. }
  rewrite Eu, Ea.
  destruct (isinf (LL_COORD c 1) && dlt (LL_COORD c 1) d0) eqn:E0;
  destruct (isinf (UR_COORD c 1) && dgt (UR_COORD c 1) d0) eqn:E1;
    rewrite ?E0, ?E1 in *; unfold is_empty;
    cbn [attr_lo attr_hi lower_us upper_us dims flags];
    rewrite !attr_coord_llround by done; rewrite T0, T1;
    split_and!; try done; bool_cases; zbool; try done; exfalso; lia.
Qed.

Lemma clamp64_mono y z : y ≤ z → clamp64 y ≤ clamp64 z.
Proof. unfold clamp64. lia. Qed.

Lemma key_cube_bounds c :
  key_cube c →
  sval (lo c 0) = sval (LL_COORD c 0) ∧ sval (hi c 0) = sval (UR_COORD c 0) ∧
  sval (lo c 1) = sval (LL_COORD c 1) ∧ sval (hi c 1) = sval (UR_COORD c 1).
Proof.
  intros (Hd & Hn & H0 & H1 & _). rewrite !lo_sval, !hi_sval by done. lia.
Qed.

End key.

(** * The access method's test against the SQL operators

    The operator class binds strategies 1, 2 and 3 to [&&], [@>] and [<@]. *)

Definition sql_operator (strategy : Z) (t q : NDBOX) : bool :=
  if strategy =? TRTREE_STRATEGY_OVERLAP then cube_overlap_v0 t q
  else if strategy =? TRTREE_STRATEGY_CONTAINS then cube_contains t q
  else cube_contained t q.

Definition am_match `{Platform} (strategy : Z) (t q : NDBOX) : bool :=
  rtree_box_matches_strategy (rtree_cube_to_box t) (rtree_cube_to_box q) strategy.

(** A coordinate that the conversion keeps: an integer below 2^53 or an infinity. *)
Definition exact_coord (d : double) : Prop :=
  number d ∧ (isinf d = true ∨ ∃ z, Z.abs z < 2 ^ 53 ∧ sval d = z * scale).

Definition exact_cube (c : NDBOX) : Prop :=
  exact_coord (LL_COORD c 0) ∧ exact_coord (UR_COORD c 0) ∧
  exact_coord (LL_COORD c 1) ∧ exact_coord (UR_COORD c 1).

Lemma scale_big : 2 ^ 54 * scale < 2 ^ 2100.
Proof. vm_compute. done. Qed.

Lemma clamp64_small z : Z.abs z < 2 ^ 53 → clamp64 z = z.
Proof. unfold clamp64, PG_INT64_MIN, PG_INT64_MAX. lia. Qed.

Lemma finite_below_inf z : Z.abs z < 2 ^ 53 → - 2 ^ 2100 < z * scale < 2 ^ 2100.
Proof.
  pose proof scale_big as Hb. pose proof scale_pos as Hs. revert Hb Hs.
  generalize (2 ^ 2100) scale. intros K c ???. nia.
Qed.

(** On exact coordinates rounding is strictly monotone. *)
Lemma exact_coord_lt d1 d2 :
  exact_coord d1 → exact_coord d2 → sval d1 < sval d2 →
  clamp64 (rnd (sval d1)) < clamp64 (rnd (sval d2)).
Proof.
  intros (_ & [I1|(z1 & Hz1 & E1)]) (_ & [I2|(z2 & Hz2 & E2)]) Hlt.
  - destruct d1 as [|s1| |], d2 as [|s2| |]; try discriminate.
    pose proof (Z.pow_pos_nonneg 2 2100 ltac:(lia) ltac:(lia)) as HK.
    destruct s1, s2; cbn [sval cond_Zopp] in *; rewrite ?rnd_inf, ?rnd_ninf;
      revert HK Hlt; generalize (2 ^ 2100); intros K; try lia.
    intros _ _. vm_compute. done.
  - rewrite E2 in *. rewrite rnd_scaled, (clamp64_small z2) by done.
    destruct d1 as [|s1| |]; try discriminate. destruct s1; cbn [sval cond_Zopp] in *.
    + rewrite rnd_ninf. unfold clamp64, PG_INT64_MIN, PG_INT64_MAX. lia.
    + pose proof (finite_below_inf z2 Hz2). lia.
  - rewrite E1 in *. rewrite rnd_scaled, (clamp64_small z1) by done.
    destruct d2 as [|s2| |]; try discriminate. destruct s2; cbn [sval cond_Zopp] in *.
    + pose proof (finite_below_inf z1 Hz1). lia.
    + rewrite rnd_inf. unfold clamp64, PG_INT64_MIN, PG_INT64_MAX. lia.
  - rewrite E1, E2 in *. rewrite !rnd_scaled, !clamp64_small by done.
    pose proof scale_pos. nia.
Qed.

Lemma exact_coord_le d1 d2 :
  exact_coord d1 → exact_coord d2 →
  (clamp64 (rnd (sval d1)) <=? clamp64 (rnd (sval d2))) = (sval d1 <=? sval d2).
Proof.
  intros E1 E2. destruct (Z.leb_spec (sval d1) (sval d2)) as [Hle|Hgt].
  - apply Z.leb_le, clamp64_mono, rnd_mono. done.
  - apply Z.leb_gt, exact_coord_lt; done.
Qed.

Lemma exact_attr_le d1 d2 :
  attr_coord d1 → attr_coord d2 → exact_coord d1 → exact_coord d2 →
  (rnd (sval d1) <=? rnd (sval d2)) = (sval d1 <=? sval d2).
Proof.
  intros (_ & _ & R1) (_ & _ & R2) E1 E2. rewrite <- exact_coord_le by done.
  unfold clamp64, is_int32, PG_INT32_MIN, PG_INT32_MAX, PG_INT64_MIN, PG_INT64_MAX in *.
  f_equal; lia.
Qed.

Section am_match.
Context `{Platform}.
Context (t q : NDBOX) (Ht : key_cube t) (Hq : key_cube q).

Lemma am_overlap_fields :
  rtree_box_overlaps (rtree_cube_to_box t) (rtree_cube_to_box q) = true ↔
  rnd (sval (LL_COORD q 0)) ≤ rnd (sval (UR_COORD t 0)) ∧
  rnd (sval (LL_COORD t 0)) ≤ rnd (sval (UR_COORD q 0)) ∧
  clamp64 (rnd (sval (LL_COORD q 1))) ≤ clamp64 (rnd (sval (UR_COORD t 1))) ∧
  clamp64 (rnd (sval (LL_COORD t 1))) ≤ clamp64 (rnd (sval (UR_COORD q 1))).
Proof.
  rewrite overlaps_spec.
  destruct (key_cube_box t Ht) as (-> & -> & -> & -> & _ & -> & _).
  destruct (key_cube_box q Hq) as (-> & -> & -> & -> & _ & -> & _). tauto.
Qed.

Lemma sql_overlap_fields :
  cube_overlap_v0 t q = true ↔
  sval (LL_COORD q 0) ≤ sval (UR_COORD t 0) ∧ sval (LL_COORD t 0) ≤ sval (UR_COORD q 0) ∧
  sval (LL_COORD q 1) ≤ sval (UR_COORD t 1) ∧ sval (LL_COORD t 1) ≤ sval (UR_COORD q 1).
Proof.
  pose proof (key_cube_bounds t Ht) as (T0 & T1 & T2 & T3).
  pose proof (key_cube_bounds q Hq) as (Q0 & Q1 & Q2 & Q3).
  destruct Ht as (Dt & Nt & _), Hq as (Dq & Nq & _).
  rewrite cube_overlap_2d, negb_true_iff, !orb_false_iff, !Z.ltb_ge by done.
  rewrite T0, T1, T2, T3, Q0, Q1, Q2, Q3. tauto.
Qed.
End am_match.

Section am_contains.
Context `{Platform}.
Context (t q : NDBOX) (Ht : key_cube t) (Hq : key_cube q).

Lemma am_contains_fields :
  rtree_box_contains (rtree_cube_to_box t) (rtree_cube_to_box q) = true ↔
  rnd (sval (LL_COORD t 0)) ≤ rnd (sval (LL_COORD q 0)) ∧
  rnd (sval (UR_COORD q 0)) ≤ rnd (sval (UR_COORD t 0)) ∧
  clamp64 (rnd (sval (LL_COORD t 1))) ≤ clamp64 (rnd (sval (LL_COORD q 1))) ∧
  clamp64 (rnd (sval (UR_COORD q 1))) ≤ clamp64 (rnd (sval (UR_COORD t 1))).
Proof.
  rewrite contains_spec.
  destruct (key_cube_box t Ht) as (-> & -> & -> & -> & _ & -> & _).
  destruct (key_cube_box q Hq) as (-> & -> & -> & -> & _ & -> & _). tauto.
Qed.

Lemma sql_contains_fields :
  cube_contains_v0 t q = true ↔
  sval (LL_COORD t 0) ≤ sval (LL_COORD q 0) ∧ sval (UR_COORD q 0) ≤ sval (UR_COORD t 0) ∧
  sval (LL_COORD t 1) ≤ sval (LL_COORD q 1) ∧ sval (UR_COORD q 1) ≤ sval (UR_COORD t 1).
Proof.
  pose proof (key_cube_bounds t Ht) as (T0 & T1 & T2 & T3).
  pose proof (key_cube_bounds q Hq) as (Q0 & Q1 & Q2 & Q3).
  destruct Ht as (Dt & Nt & _), Hq as (Dq & Nq & _).
  rewrite cube_contains_2d, !andb_true_iff, !Z.leb_le by done.
  rewrite T0, T1, T2, T3, Q0, Q1, Q2, Q3. tauto.
Qed.
End am_contains.

Lemma strategy_cases (s : Z) : 1 ≤ s ≤ 3 → s = 1 ∨ s = 2 ∨ s = 3.
Proof. lia. Qed.

Lemma match_complete `{Platform} (s : Z) (t q : NDBOX) :
  1 ≤ s ≤ 3 → key_cube t → key_cube q →
  sql_operator s t q = true → am_match s t q = true.
Proof.
  intros Hs Ht Hq. pose proof (λ v w, rnd_mono v w) as R.
  pose proof (λ v w E, clamp64_mono _ _ (rnd_mono v w E)) as RC.
  destruct (strategy_cases s Hs) as [->|[->| ->]]; unfold sql_operator, am_match;
    cbn [Z.eqb Pos.eqb TRTREE_STRATEGY_OVERLAP TRTREE_STRATEGY_CONTAINS rtree_box_matches_strategy].
  - change (cube_overlap_v0 t q = true → rtree_box_overlaps (rtree_cube_to_box t) (rtree_cube_to_box q) = true).
    rewrite sql_overlap_fields, am_overlap_fields by done. intuition auto.
  - change (cube_contains_v0 t q = true → rtree_box_contains (rtree_cube_to_box t) (rtree_cube_to_box q) = true).
    rewrite sql_contains_fields, am_contains_fields by done. intuition auto.
  - change (cube_contains_v0 q t = true → rtree_box_contains (rtree_cube_to_box q) (rtree_cube_to_box t) = true).
    rewrite sql_contains_fields, am_contains_fields by done. intuition auto.
Qed.

(** The scan's leaf test never misses a row: for two-dimensional keys and
    queries with normalised corners (any fractional coordinates, a time bound
    may be infinite) whatever satisfies the SQL operator of a strategy also
    passes [rtree_box_matches_strategy] on the converted boxes. *)
Theorem am_match_complete `{Platform} (s : Z) (t q : NDBOX) :
  1 ≤ s ≤ 3 → key_cube t → key_cube q →
  sql_operator s t q = true → am_match s t q = true.
Proof. apply match_complete. Qed.

Lemma match_exact `{Platform} (s : Z) (t q : NDBOX) :
  1 ≤ s ≤ 3 → key_cube t → key_cube q → exact_cube t → exact_cube q →
  am_match s t q = sql_operator s t q.
Proof.
  intros Hs Ht Hq (T0 & T1 & T2 & T3) (Q0 & Q1 & Q2 & Q3).
  pose proof Ht as (_ & _ & _ & _ & At0 & At1 & _). pose proof Hq as (_ & _ & _ & _ & Aq0 & Aq1 & _).
  assert (EA : ∀ d1 d2, attr_coord d1 → attr_coord d2 → exact_coord d1 → exact_coord d2 →
    (rnd (sval d1) ≤ rnd (sval d2) ↔ sval d1 ≤ sval d2)).
  { intros. rewrite <- !Z.leb_le. by rewrite exact_attr_le. }
  assert (ET : ∀ d1 d2, exact_coord d1 → exact_coord d2 →
    (clamp64 (rnd (sval d1)) ≤ clamp64 (rnd (sval d2)) ↔ sval d1 ≤ sval d2)).
  { intros. rewrite <- !Z.leb_le. by rewrite exact_coord_le. }
  apply eq_true_iff_eq.
  destruct (strategy_cases s Hs) as [->|[->| ->]]; unfold sql_operator, am_match, cube_contains, cube_contained.
  - change (rtree_box_overlaps (rtree_cube_to_box t) (rtree_cube_to_box q) = true ↔ cube_overlap_v0 t q = true).
    rewrite sql_overlap_fields, am_overlap_fields, !EA, !ET by done. done.
  - change (rtree_box_contains (rtree_cube_to_box t) (rtree_cube_to_box q) = true ↔ cube_contains_v0 t q = true).
    rewrite sql_contains_fields, am_contains_fields, !EA, !ET by done. done.
  - change (rtree_box_contains (rtree_cube_to_box q) (rtree_cube_to_box t) = true ↔ cube_contains_v0 q t = true).
    rewrite sql_contains_fields, am_contains_fields, !EA, !ET by done. done.
Qed.

(** C16. For two-dimensional cubes with ordered corners, where every coordinate is an integer
    of magnitude below 2^53, the attribute one of the int32 range, or an infinite time bound on
    its side, the leaf test of the scan and the SQL operator of the strategy
    agree exactly, so that returning rows without a recheck is right. *)
Theorem am_match_exact `{Platform} (s : Z) (t q : NDBOX) :
  1 ≤ s ≤ 3 → key_cube t → key_cube q → exact_cube t → exact_cube q →
  am_match s t q = sql_operator s t q.
Proof. apply match_exact. Qed.

(** * Boxes written to and read back from internal tuples *)

(** Time values whose conversion to double is exact, and the infinity marks. *)
Definition stable_time (z : Z) : Prop :=
  Z.abs z < 2 ^ 53 ∨ z = PG_INT64_MIN ∨ z = PG_INT64_MAX.

Definition inf_flags (lower upper : Z) : Z :=
  let fl := if lower =? PG_INT64_MIN then TRTREE_FLAG_LOWER_INF else 0 in
  if upper =? PG_INT64_MAX then Z.lor fl TRTREE_FLAG_UPPER_INF else fl.

Lemma isinf_i2d z : stable_time z → isinf (i2d z) = false.
Proof.
  intros [Hz|[-> | ->]]; [|by vm_compute|by vm_compute].
  destruct (i2d_exact z Hz) as (_ & Hf & _). by destruct (i2d z).
Qed.

Lemma int32_llround_i2d `{Platform} z : is_int32 z → int32 (llround (i2d z)) = z.
Proof.
  intros Hz. rewrite llround_i2d by (revert Hz; unfold is_int32, PG_INT32_MIN, PG_INT32_MAX; lia).
  by apply int32_id.
Qed.

Lemma DIM_box_to_cube b : DIM (rtree_box_to_cube b) = 2.
Proof. unfold rtree_box_to_cube, rtree_box_to_cube_internal. by bool_cases. Qed.

Lemma cube_to_box_box `{Platform} a l h u :
  isinf l = false → isinf u = false →
  rtree_cube_to_box (box_cube 2 [a; l; h; u]) =
  mkBox (llround l) (llround u) (int32 (llround a)) (int32 (llround h)) 2
    (inf_flags (llround l) (llround u)).
Proof.
  intros Hl Hu. unfold rtree_cube_to_box. cbv zeta.
  change (LL_COORD (box_cube 2 [a; l; h; u]) 0) with a.
  change (LL_COORD (box_cube 2 [a; l; h; u]) 1) with l.
  change (UR_COORD (box_cube 2 [a; l; h; u]) 0) with h.
  change (UR_COORD (box_cube 2 [a; l; h; u]) 1) with u.
  change (IS_POINT (box_cube 2 [a; l; h; u])) with false.
  change (2 <=? DIM (box_cube 2 [a; l; h; u])) with true.
  cbv iota. rewrite Hl, Hu. cbn [andb]. unfold inf_flags. rewrite Z.lor_0_l. by bool_cases.
Qed.

Lemma cube_to_box_point `{Platform} a l :
  isinf l = false →
  rtree_cube_to_box (point_cube 2 [a; l]) =
  mkBox (llround l) (llround l) (int32 (llround a)) (int32 (llround a)) 2
    (inf_flags (llround l) (llround l)).
Proof.
  intros Hl. unfold rtree_cube_to_box. cbv zeta.
  change (LL_COORD (point_cube 2 [a; l]) 0) with a.
  change (LL_COORD (point_cube 2 [a; l]) 1) with l.
  change (IS_POINT (point_cube 2 [a; l])) with true.
  change (2 <=? DIM (point_cube 2 [a; l])) with true.
  cbv iota. rewrite Hl. cbn [andb]. unfold inf_flags. rewrite Z.lor_0_l. by bool_cases.
Qed.

(** What an internal tuple's box reads back as. *)
Lemma cube_to_box_to_cube `{Platform} b :
  is_int32 (attr_lo b) → is_int32 (attr_hi b) →
  stable_time (lower_us b) → stable_time (upper_us b) →
  rtree_cube_to_box (rtree_box_to_cube b) =
  let lower := llround (i2d (lower_us b)) in
  let upper := llround (i2d (upper_us b)) in
  mkBox lower upper (attr_lo b) (attr_hi b) 2 (inf_flags lower upper).
Proof.
  intros Al Ah Tl Tu. unfold rtree_box_to_cube, rtree_box_to_cube_internal.
  destruct ((attr_lo b =? attr_hi b) && (lower_us b =? upper_us b) && _) eqn:E.
  - bprop. rewrite cube_to_box_point, int32_llround_i2d by (done || by apply isinf_i2d).
    cbv zeta. by replace (attr_hi b) with (attr_lo b); replace (upper_us b) with (lower_us b).
  - rewrite cube_to_box_box, !int32_llround_i2d by (done || by apply isinf_i2d). done.
Qed.

(** A box with finite integral bounds below 2^53 survives being stored in an
    internal tuple: writing it as a cube and reading it back is the identity. *)
Theorem box_cube_roundtrip `{Platform} (b : RTreeTemporalBox) :
  is_int32 (attr_lo b) → is_int32 (attr_hi b) →
  Z.abs (lower_us b) < 2 ^ 53 → Z.abs (upper_us b) < 2 ^ 53 →
  dims b = 2 → flags b = 0 →
  rtree_cube_to_box (rtree_box_to_cube b) = b.
Proof.
  intros Al Ah Hl Hu Hd Hf.
  rewrite cube_to_box_to_cube by (done || by left). cbv zeta.
  rewrite !llround_i2d by done. unfold inf_flags.
  replace (lower_us b =? PG_INT64_MIN) with false
    by (symmetry; apply Z.eqb_neq; unfold PG_INT64_MIN; lia).
  replace (upper_us b =? PG_INT64_MAX) with false
    by (symmetry; apply Z.eqb_neq; unfold PG_INT64_MAX; lia).
  destruct b; cbn in *. by subst.
Qed.

Lemma box_cube_roundtrip_witness :
  rtree_cube_to_box (rtree_box_to_cube (mkBox 1577836800 1609459200 3 42 2 0)) =
  mkBox 1577836800 1609459200 3 42 2 0.
Proof.
  apply (box_cube_roundtrip (mkBox 1577836800 1609459200 3 42 2 0));
    first [reflexivity | split; vm_compute; discriminate].
Defined.

(** An open-ended (current) bounding box does not survive: its upper bound
    [PG_INT64_MAX] becomes the double 2^63, is not an infinity, does not fit an
    int64, and on x86-64 reads back as [PG_INT64_MIN] with the current mark
    gone, so that the stored bound contains none of the rows below it. *)
Theorem current_mbr_lost (lo' hi' lower : Z) :
  is_int32 lo' → is_int32 hi' → Z.abs lower < 2 ^ 53 →
  let b := mkBox lower PG_INT64_MAX lo' hi' 2 TRTREE_FLAG_UPPER_INF in
  let b' := rtree_cube_to_box (rtree_box_to_cube b) in
  upper_us b' = PG_INT64_MIN ∧ is_current b' = false ∧ rtree_box_contains b' b = false.
Proof.
  intros Al Ah Hl. cbv zeta.
  rewrite cube_to_box_to_cube by (cbn; first [done | by left | right; by right]).
  cbn [lower_us upper_us attr_lo attr_hi]. cbv zeta. rewrite (llround_i2d lower) by done.
  replace (llround (i2d PG_INT64_MAX)) with PG_INT64_MIN by (by vm_compute).
  cbn [upper_us]. unfold is_current, inf_flags. cbn [flags].
  replace (lower =? PG_INT64_MIN) with false
    by (symmetry; apply Z.eqb_neq; unfold PG_INT64_MIN; lia).
  split_and!; [done|done|].
  apply not_true_iff_false. rewrite contains_spec. cbn [upper_us].
  unfold PG_INT64_MIN, PG_INT64_MAX. lia.
Qed.

Lemma current_mbr_lost_witness :
  let b := mkBox 1577836800 PG_INT64_MAX 3 42 2 TRTREE_FLAG_UPPER_INF in
  upper_us (rtree_cube_to_box (rtree_box_to_cube b)) = PG_INT64_MIN.
Proof.
  cbv zeta.
  refine (proj1 (current_mbr_lost 3 42 1577836800 _ _ _));
    first [reflexivity | split; vm_compute; discriminate].
Defined.

(** * Concrete keys *)

Definition numberb (d : double) : bool :=
  valid_binary 53 1024 d && negb (match d with S754_nan => true | _ => false end).
Definition finiteb (d : double) : bool :=
  match d with S754_zero _ | S754_finite _ _ _ => true | _ => false end.

Definition attr_coordb (d : double) : bool :=
  numberb d && finiteb d && in_int32 (rnd (sval d)).
Definition time_coordb (s : bool) (d : double) : bool :=
  numberb d && (match d with S754_infinity s' => eqb s s' | _ => false end ||
                finiteb d && in_int64 (rnd (sval d))).

(** An executable test for [key_cube]. *)
Definition key_cubeb (c : NDBOX) : bool :=
  (DIM c =? 2) && forallb numberb (x c) &&
  (sval (LL_COORD c 0) <=? sval (UR_COORD c 0)) &&
  (sval (LL_COORD c 1) <=? sval (UR_COORD c 1)) &&
  attr_coordb (LL_COORD c 0) && attr_coordb (UR_COORD c 0) &&
  time_coordb true (LL_COORD c 1) && time_coordb false (UR_COORD c 1).

Lemma numberb_sound d : numberb d = true → number d.
Proof. unfold numberb. intros [Hv Hn]%andb_true_iff. split; [done|]. by destruct d. Qed.

Lemma finiteb_sound d : finiteb d = true → finite d.
Proof. by destruct d. Qed.

Lemma in_int32_sound z : in_int32 z = true → is_int32 z.
Proof. unfold in_int32, is_int32. intros. zbool. Qed.

Lemma in_int64_sound z : in_int64 z = true → is_int64 z.
Proof. unfold in_int64, is_int64. intros. zbool. Qed.

Lemma key_cubeb_sound c : key_cubeb c = true → key_cube c.
Proof.
  assert (HA : ∀ d, attr_coordb d = true → attr_coord d).
  { intros d. unfold attr_coordb. rewrite !andb_true_iff. intros [[??]?].
    split_and!; auto using numberb_sound, finiteb_sound, in_int32_sound. }
  assert (HT : ∀ s d, time_coordb s d = true → time_coord s d).
  { intros s d. unfold time_coordb. rewrite andb_true_iff, orb_true_iff, andb_true_iff.
    intros [? [?|[??]]]; (split; [by apply numberb_sound|]).
    - left. destruct d as [|s'| |]; try done. f_equal. symmetry. by apply eqb_prop.
    - right. auto using finiteb_sound, in_int64_sound. }
  unfold key_cubeb. rewrite !andb_true_iff. intros [[[[[[[Hd Hn]?]?]?]?]?]?].
  unfold key_cube. split_and!; auto; try (zbool; done).
  apply cube_numbers_coords, Forall_forall. intros d Hin%list_elem_of_In.
  rewrite forallb_forall in Hn. auto using numberb_sound.
Qed.

Lemma exact_i2d z : Z.abs z < 2 ^ 53 → exact_coord (i2d z).
Proof. intros Hz. destruct (i2d_exact z Hz) as (? & ? & ?). split; eauto. Qed.

Lemma exact_inf s : exact_coord (S754_infinity s).
Proof. split; [|by left]. split; [done|discriminate]. Qed.

(** The SQL function [temporalbox(attr, period)] of the temporalbox extension, on
    a non-empty period of whole seconds; [None] is an unbounded upper end. *)
Definition temporalbox (attr t1 : Z) (t2 : option Z) : NDBOX :=
  match cube_a_f8_f8 [i2d attr; i2d t1]
          [i2d attr; match t2 with Some t2 => i2d t2 | None => dinf end] with
  | Ok c => c
  | Err _ => point_cube 0 []
  end.

Lemma am_match_complete_witness :
  am_match 1 (temporalbox 10 1577836800 None) (temporalbox 10 1600000000 (Some 1600086400)) = true.
Proof.
  apply (am_match_complete 1); [lia|..|vm_compute; reflexivity];
    apply key_cubeb_sound; vm_compute; reflexivity.
Defined.

Lemma am_match_exact_witness :
  am_match 2 (temporalbox 10 1577836800 None) (temporalbox 10 1600000000 (Some 1600086400)) =
  sql_operator 2 (temporalbox 10 1577836800 None) (temporalbox 10 1600000000 (Some 1600086400)).
Proof.
  apply (am_match_exact 2); [lia|apply key_cubeb_sound; vm_compute; reflexivity..| |];
    (split_and!; first [exact (exact_i2d 10 eq_refl) | exact (exact_i2d 1577836800 eq_refl)
       | exact (exact_i2d 1600000000 eq_refl) | exact (exact_i2d 1600086400 eq_refl) | exact (exact_inf false)]).
Defined.

(** The leaf test is not exact on fractional coordinates, which
    [EXTRACT(EPOCH ...)] produces: two disjoint sub-second periods of the same
    second round to the same instant, the box test reports an overlap that [&&]
    denies, and the scan returns the row with [xs_recheck = false]. *)
Theorem am_match_fraction_unsound :
  let t := box_cube 2 [i2d 10; dlit 1 10; i2d 10; dlit 2 10] in
  let q := box_cube 2 [i2d 10; dlit 3 10; i2d 10; dlit 4 10] in
  key_cubeb t = true ∧ key_cubeb q = true ∧
  am_match TRTREE_STRATEGY_OVERLAP t q = true ∧
  sql_operator TRTREE_STRATEGY_OVERLAP t q = false.
Proof. vm_compute. split_and!; reflexivity. Qed.

(** The leaf test misses rows when a corner pair is not normalised, which the
    cube type allows (for example a query [temporalbox_range(10, t1, t2)] with
    [t1 > t2]): the SQL operator sorts the corners, the box conversion does not. *)
Theorem am_match_swapped_incomplete :
  let t := temporalbox 10 100 (Some 200) in
  let q := box_cube 2 [i2d 10; i2d 300; i2d 10; i2d 50] in
  sql_operator TRTREE_STRATEGY_OVERLAP t q = true ∧
  am_match TRTREE_STRATEGY_OVERLAP t q = false.
Proof. vm_compute. split; reflexivity. Qed.
