(* ===== verification/Split.v ===== *)
(** temporal_rtree_split.c: the normalised penalty and the page split.

    The split algorithm works on an array of boxes and fills two index arrays;
    here an index array is the list of its entries and the array length the
    length of that list. *)

From S2P Require Import Prelude Float64 Cube Box.

(** An array with its indices, as a [for] loop visits it. *)
Definition indexed {A} (l : list A) : list (nat * A) := imap (λ i a, (i, a)) l.

Section split.
Context `{Platform}.

(** * Normalised widths *)

(** [(double) 9223372036854775807LL], which is 2^63. *)
Definition RTREE_COORD_NORM_TIME_MAX : double := i2d 9223372036854775807.
Definition RTREE_COORD_NORM_ATTR_MIN : double := i2d 1.
Definition RTREE_COORD_NORM_ATTR_MAX : double := i2d 100.

Definition normalize_time (t : Z) : double :=
  if t <? 0 then d0
  else if d2i64 RTREE_COORD_NORM_TIME_MAX <? t then d1
  else ddiv (i2d t) RTREE_COORD_NORM_TIME_MAX.

Definition normalize_attr (a : Z) : double :=
  if a <=? d2i32 RTREE_COORD_NORM_ATTR_MIN then d0
  else if d2i32 RTREE_COORD_NORM_ATTR_MAX <=? a then d1
  else ddiv (dsub (i2d a) RTREE_COORD_NORM_ATTR_MIN)
            (dsub RTREE_COORD_NORM_ATTR_MAX RTREE_COORD_NORM_ATTR_MIN).

Definition width_time_normalized (b : RTreeTemporalBox) : double :=
  if is_empty b then d0
  else if is_current b then
    let effective_upper := d2i64 (dmul RTREE_COORD_NORM_TIME_MAX (dlit 9 10)) in
    let effective_upper :=
      if effective_upper <? lower_us b then int64 (lower_us b + 1) else effective_upper in
    normalize_time (int64 (effective_upper - lower_us b))
  else normalize_time (int64 (upper_us b - lower_us b)).

(** The difference is converted to double and back to the int32 parameter. *)
Definition width_attr_normalized (b : RTreeTemporalBox) : double :=
  if dims b <? 2 then d0
  else normalize_attr (d2i32 (i2d (int32 (attr_hi b - attr_lo b)))).

Definition area_normalized (b : RTreeTemporalBox) : double :=
  let tw := width_time_normalized b in
  let aw := width_attr_normalized b in
  dmul tw aw.

Record CachedBoxMetadata : Type := mkCached {
  box : RTreeTemporalBox;
  norm_time_width : double;
  norm_attr_width : double;
  norm_area : double;
  c_is_current : bool;
}.

Definition cache_boxes_metadata (items : list RTreeTemporalBox) : list CachedBoxMetadata :=
  map (λ it, {| box := it;
                norm_time_width := width_time_normalized it;
                norm_attr_width := width_attr_normalized it;
                norm_area := dmul (width_time_normalized it) (width_attr_normalized it);
                c_is_current := has_flag (flags it) TRTREE_FLAG_UPPER_INF |}) items.

(** * Penalty *)

Definition tr_penalty_normalized (child newb : RTreeTemporalBox) : double :=
  let ext := tr_union child newb in
  let child_area := area_normalized child in
  let ext_area := area_normalized ext in
  let area_increase := dsub ext_area child_area in
  let child_current := has_flag (flags child) TRTREE_FLAG_UPPER_INF in
  let new_current := has_flag (flags newb) TRTREE_FLAG_UPPER_INF in
  if child_current && new_current then dmul area_increase (dlit 1 2)
  else if negb (Bool.eqb child_current new_current) then dmul area_increase (i2d 2)
  else area_increase.

Definition tr_penalty (child newb : RTreeTemporalBox) (w_attr w_current : double) : double :=
  tr_penalty_normalized child newb.

(** * Page classification *)

Definition PAGE_TYPE_CURRENT_ONLY : Z := 1.
Definition PAGE_TYPE_HISTORY_ONLY : Z := 2.
Definition PAGE_TYPE_MIXED : Z := 3.

Definition classify_page_type (items : list RTreeTemporalBox) : Z :=
  let '(current_count, history_count) :=
    foldl (λ '(c, h) it, if is_current it then (c + 1, h) else (c, h + 1)) (0, 0) items in
  if current_count =? zlen items then PAGE_TYPE_CURRENT_ONLY
  else if history_count =? zlen items then PAGE_TYPE_HISTORY_ONLY
  else PAGE_TYPE_MIXED.

(** * Splitting *)

(** One scan for the extremes of a key: [(min, max, min index, max index)] with
    the first element as the start, as every seed search of the file does. *)
Record extremes : Type := mkExt { ex_min : Z; ex_max : Z; ex_min_idx : nat; ex_max_idx : nat }.

Definition find_extremes (lowkey highkey : RTreeTemporalBox → Z)
    (first : Z) (rest : list RTreeTemporalBox) : extremes :=
  snd (foldl (λ '(i, e) it,
    (S i,
     {| ex_min := if lowkey it <? ex_min e then lowkey it else ex_min e;
        ex_min_idx := if lowkey it <? ex_min e then i else ex_min_idx e;
        ex_max := if ex_max e <? highkey it then highkey it else ex_max e;
        ex_max_idx := if ex_max e <? highkey it then i else ex_max_idx e |}))
    (1%nat, mkExt first first 0 0) rest).

(** [(min_lower + max_lower) / 2]: the sum wraps, C division truncates. *)
Definition c_median (min_lower max_lower : Z) : Z :=
  Z.quot (int64 (min_lower + max_lower)) 2.

Definition tr_split_current_only (items : list RTreeTemporalBox) : list nat * list nat :=
  match items with
  | [] => ([], [])
  | it0 :: rest =>
      let e := find_extremes lower_us lower_us (lower_us it0) rest in
      let median := c_median (ex_min e) (ex_max e) in
      let idxs := indexed items in
      let left := map fst (filter (λ p : nat * RTreeTemporalBox, lower_us p.2 ≤ median) idxs) in
      let right := map fst (filter (λ p : nat * RTreeTemporalBox, ¬ lower_us p.2 ≤ median) idxs) in
      match left, right with
      | [], _ => ([ex_min_idx e],
                  filter (λ i, i ≠ ex_min_idx e) (seq 0 (length items)))
      | _, [] => (removelast left, [List.last left 0%nat])
      | _, _ => (left, right)
      end
  end.

(** The greedy pass: index [i] of box [it] joins the side it enlarges less. *)
Record split_state : Type := mkSplit {
  left_idxs : list nat; right_idxs : list nat;
  left_union : RTreeTemporalBox; right_union : RTreeTemporalBox;
}.

Definition assign_item (seed1 seed2 : nat) (st : split_state)
    (p : nat * RTreeTemporalBox) : split_state :=
  let '(i, it) := p in
  if (i =? seed1)%nat || (i =? seed2)%nat then st
  else
    let pen_left := tr_penalty_normalized (left_union st) it in
    let pen_right := tr_penalty_normalized (right_union st) it in
    if dlt pen_left pen_right
    then {| left_idxs := left_idxs st ++ [i]; right_idxs := right_idxs st;
            left_union := tr_union (left_union st) it; right_union := right_union st |}
    else {| left_idxs := left_idxs st; right_idxs := right_idxs st ++ [i];
            left_union := left_union st; right_union := tr_union (right_union st) it |}.

(** Seeds: the widest spread of lower time bounds, unless the attributes spread
    wider; distances compare as doubles. *)
Definition pick_seeds (it0 : RTreeTemporalBox) (rest : list RTreeTemporalBox) : nat * nat :=
  let nitems := S (length rest) in
  let '(seed1, seed2, max_separation) :=
    let e := find_extremes lower_us lower_us (lower_us it0) rest in
    let time_distance := i2d (int64 (ex_max e - ex_min e)) in
    if dgt time_distance d0
    then (ex_min_idx e, ex_max_idx e, time_distance) else (0%nat, 1%nat, d0) in
  let '(seed1, seed2) :=
    let e := find_extremes attr_lo attr_hi (attr_lo it0) rest in
    let attr_distance := i2d (int32 (ex_max e - ex_min e)) in
    if dgt attr_distance max_separation
    then (ex_min_idx e, ex_max_idx e) else (seed1, seed2) in
  if (seed1 =? seed2)%nat then (seed1, (seed1 + 1) mod nitems)%nat else (seed1, seed2).

Definition tr_picksplit (items : list RTreeTemporalBox) : list nat * list nat :=
  match items with
  | [] => ([], [])
  | [_] => ([0%nat], [])
  | it0 :: rest =>
      if classify_page_type items =? PAGE_TYPE_CURRENT_ONLY
      then tr_split_current_only items
      else
        let '(seed1, seed2) := pick_seeds it0 rest in
        let box_at i := default zero_box (items !! i) in
        let st := foldl (assign_item seed1 seed2)
                    {| left_idxs := [seed1]; right_idxs := [seed2];
                       left_union := box_at seed1; right_union := box_at seed2 |}
                    (indexed items) in
        (left_idxs st, right_idxs st)
  end.

(** * Facts on the seed search *)

Definition extremes_fold (lowkey highkey : RTreeTemporalBox → Z) :=
  foldl (λ '(i, e) it,
    (S i,
     {| ex_min := if lowkey it <? ex_min e then lowkey it else ex_min e;
        ex_min_idx := if lowkey it <? ex_min e then i else ex_min_idx e;
        ex_max := if ex_max e <? highkey it then highkey it else ex_max e;
        ex_max_idx := if ex_max e <? highkey it then i else ex_max_idx e |})).

Lemma extremes_fold_idx lowkey highkey rest i e :
  (ex_min_idx e < i)%nat → (ex_max_idx e < i)%nat →
  let '(i', e') := extremes_fold lowkey highkey (i, e) rest in
  i' = (i + length rest)%nat ∧ (ex_min_idx e' < i')%nat ∧ (ex_max_idx e' < i')%nat.
Proof.
  revert i e. induction rest as [|it rest IH]; intros i e Hmin Hmax; cbn [foldl extremes_fold].
  - cbn. split_and!; lia.
  - cbn [length]. unfold extremes_fold in *. cbn [foldl].
    specialize (IH (S i)). set (e1 := mkExt _ _ _ _).
    specialize (IH e1). destruct (foldl _ (S i, e1) rest) as [i' e'].
    destruct IH as (-> & ? & ?); [subst e1; cbn; bool_cases; lia..|]. split_and!; lia.
Qed.

Lemma find_extremes_idx lowkey highkey first rest :
  let e := find_extremes lowkey highkey first rest in
  (ex_min_idx e < S (length rest))%nat ∧ (ex_max_idx e < S (length rest))%nat.
Proof.
  cbv zeta. unfold find_extremes.
  pose proof (extremes_fold_idx lowkey highkey rest 1 (mkExt first first 0 0)) as HI.
  unfold extremes_fold in HI. destruct (foldl _ _ rest) as [i e]. cbn in *.
  destruct HI as (-> & ? & ?); lia.
Qed.

Lemma pick_seeds_spec it0 rest :
  rest ≠ [] →
  let '(s1, s2) := pick_seeds it0 rest in
  (s1 < S (length rest))%nat ∧ (s2 < S (length rest))%nat ∧ s1 ≠ s2.
Proof.
  intros Hne. assert (Hl : (1 < S (length rest))%nat) by (destruct rest; cbn; [done|lia]).
  unfold pick_seeds.
  pose proof (find_extremes_idx lower_us lower_us (lower_us it0) rest) as [Ht1 Ht2].
  pose proof (find_extremes_idx attr_lo attr_hi (attr_lo it0) rest) as [Ha1 Ha2].
  cbv zeta in *.
  destruct (dgt (i2d _) d0); destruct (dgt (i2d _) _);
    match goal with |- context [(?a =? ?b)%nat] => destruct (Nat.eqb_spec a b) end;
    try (split_and!; lia);
    match goal with |- context [((?a + 1) mod ?n)%nat] =>
      pose proof (Nat.mod_upper_bound (a + 1) n);
      destruct (decide (a + 1 = n)%nat) as [Ee|Ee];
      [rewrite Ee, Nat.Div0.mod_same | rewrite (Nat.mod_small (a + 1) n) by lia]
    end; split_and!; lia.
Qed.

(** * The two sides partition the page *)

Lemma indexed_fst {A} (l : list A) : map fst (indexed l) = seq 0 (length l).
Proof.
  unfold indexed. change (map fst) with (fmap (M:=list) (A:=nat * A) fst).
  rewrite fmap_imap. rewrite (imap_ext _ (λ j _, id j)) by done.
  by rewrite imap_seq_0, list_fmap_id.
Qed.

(** What every split of [n] items promises: each item goes to exactly one side
    and neither side is empty. *)
Definition is_split (n : nat) (s : list nat * list nat) : Prop :=
  s.1 ++ s.2 ≡ₚ seq 0 n ∧ s.1 ≠ [] ∧ s.2 ≠ [].

Lemma remove_index_perm i n :
  (i < n)%nat → i :: filter (λ j, j ≠ i) (seq 0 n) ≡ₚ seq 0 n.
Proof.
  intros Hi. rewrite <- (filter_app_complement (λ j, j = i) (seq 0 n)) at 2.
  change (i :: ?l) with ([i] ++ l). apply Permutation_app_tail.
  assert (Hs : seq 0 n = seq 0 i ++ [i] ++ seq (S i) (n - S i)).
  { change ([i] ++ seq (S i) (n - S i)) with (seq i (S (n - S i))).
    rewrite <- seq_app. f_equal. lia. }
  rewrite Hs, !filter_app.
  rewrite (filter_none (λ j, j = i) (seq 0 i)), (filter_none (λ j, j = i) (seq (S i) _)).
  - by rewrite filter_cons_True.
  - apply Forall_seq. lia.
  - apply Forall_seq. lia.
Qed.

Lemma split_current_only_split items :
  (2 ≤ length items)%nat → is_split (length items) (tr_split_current_only items).
Proof.
  intros Hn. destruct items as [|it0 rest]; [cbn in Hn; lia|].
  unfold tr_split_current_only. cbv zeta.
  set (m := c_median _ _).
  pose proof (find_extremes_idx lower_us lower_us (lower_us it0) rest) as [Hmin _].
  set (e := find_extremes _ _ _ _) in *. clearbody m e.
  set (items := it0 :: rest) in *. cbv zeta in Hmin. change (S (length rest)) with (length items) in Hmin.
  pose proof (filter_app_complement (λ p : nat * RTreeTemporalBox, lower_us p.2 ≤ m) (indexed items)) as HP.
  apply (fmap_Permutation fst) in HP. rewrite fmap_app in HP.
  change (fst <$> indexed items) with (map fst (indexed items)) in HP. rewrite indexed_fst in HP.
  change (fmap (M:=list) (A:=nat * RTreeTemporalBox) (B:=nat) fst) with
    (map (A:=nat * RTreeTemporalBox) (B:=nat) fst) in HP.
  set (left := map fst (filter (λ p, lower_us p.2 ≤ m) _)) in *.
  set (right := map fst (filter (λ p, ¬ lower_us p.2 ≤ m) _)) in *. clearbody left right.
  destruct left as [|l0 left].
  - unfold is_split; cbn [fst snd app]. pose proof (remove_index_perm _ _ Hmin) as Hr.
    split_and!; [exact Hr|done|]. intros Hnil. rewrite Hnil in Hr.
    apply Permutation_length in Hr. rewrite length_seq in Hr. cbn in Hr, Hn. lia.
  - destruct right as [|r0 right]; unfold is_split; cbn [fst snd].
    + rewrite app_nil_r in HP. split_and!; [|intros Hnil|done].
      * rewrite <- app_removelast_last by done. exact HP.
      * pose proof (app_removelast_last 0%nat (l:=l0 :: left)) as Ha. rewrite Hnil in Ha.
        apply Permutation_length in HP. rewrite length_seq in HP. rewrite Ha in HP by done.
        cbn [app length] in HP, Hn. lia.
    + split_and!; done.
Qed.

Lemma assign_item_step seed1 seed2 st i it :
  let st' := assign_item seed1 seed2 st (i, it) in
  left_idxs st' ++ right_idxs st' ≡ₚ
    (left_idxs st ++ right_idxs st) ++ filter (λ i, i ≠ seed1 ∧ i ≠ seed2) [i] ∧
  (left_idxs st ≠ [] → left_idxs st' ≠ []) ∧ (right_idxs st ≠ [] → right_idxs st' ≠ []).
Proof.
  cbv zeta. unfold assign_item.
  destruct (Nat.eqb_spec i seed1), (Nat.eqb_spec i seed2); cbn [orb];
    [rewrite filter_cons_False by tauto; rewrite filter_nil, app_nil_r; done..|].
  rewrite filter_cons_True, filter_nil by done.
  destruct (dlt _ _); cbn [left_idxs right_idxs].
  - split_and!; [solve_Permutation|by destruct (left_idxs st)|done].
  - split_and!; [solve_Permutation|done|by destruct (right_idxs st)].
Qed.

Lemma assign_item_perm seed1 seed2 l st :
  let st' := foldl (assign_item seed1 seed2) st l in
  left_idxs st' ++ right_idxs st' ≡ₚ
    (left_idxs st ++ right_idxs st) ++ filter (λ i, i ≠ seed1 ∧ i ≠ seed2) (map fst l) ∧
  (left_idxs st ≠ [] → left_idxs st' ≠ []) ∧ (right_idxs st ≠ [] → right_idxs st' ≠ []).
Proof.
  cbv zeta. revert st. induction l as [|[i it] l IH]; intros st; cbn [foldl map fst].
  - rewrite filter_nil, app_nil_r. done.
  - destruct (IH (assign_item seed1 seed2 st (i, it))) as (-> & Hl & Hr).
    destruct (assign_item_step seed1 seed2 st i it) as (-> & Hl1 & Hr1).
    change (i :: map fst l) with ([i] ++ map fst l). rewrite filter_app, app_assoc.
    split_and!; auto.
Qed.

Lemma seeds_perm s1 s2 n :
  (s1 < n)%nat → (s2 < n)%nat → s1 ≠ s2 →
  [s1; s2] ++ filter (λ i, i ≠ s1 ∧ i ≠ s2) (seq 0 n) ≡ₚ seq 0 n.
Proof.
  intros H1 H2 Hne. etrans; [|exact (remove_index_perm s1 n H1)].
  cbn [app]. apply Permutation_cons; [done|].
  pose proof (filter_Permutation (λ j, j ≠ s1) _ _ (remove_index_perm s2 n H2)) as HF.
  rewrite filter_cons_True in HF by done. rewrite <- HF. apply Permutation_cons; [done|].
  rewrite list_filter_filter. done.
Qed.

Lemma picksplit_split items :
  (2 ≤ length items)%nat → is_split (length items) (tr_picksplit items).
Proof.
  intros Hn. destruct items as [|it0 [|it1 rest]]; [cbn in Hn; lia..|].
  unfold tr_picksplit. destruct (classify_page_type _ =? _).
  - by apply split_current_only_split.
  - pose proof (pick_seeds_spec it0 (it1 :: rest)) as Hs.
    destruct (pick_seeds _ _) as [s1 s2]. destruct Hs as (? & ? & ?); [done|]. cbv zeta.
    match goal with |- context [foldl _ ?st ?l] =>
      destruct (assign_item_perm s1 s2 l st) as (HP & Hl & Hr) end.
    split_and!; cbn [fst snd]; [|by apply Hl|by apply Hr].
    rewrite HP, indexed_fst. by apply seeds_perm.
Qed.

(** * The current-only split separates the start times *)

Lemma extremes_fold_bounds key rest i e :
  ex_min e ≤ ex_max e →
  let e' := (extremes_fold key key (i, e) rest).2 in
  ex_min e' ≤ ex_min e ∧ ex_max e ≤ ex_max e' ∧
  Forall (λ it, ex_min e' ≤ key it ≤ ex_max e') rest ∧
  (ex_min e' = ex_min e ∨ ∃ it, it ∈ rest ∧ key it = ex_min e') ∧
  (ex_max e' = ex_max e ∨ ∃ it, it ∈ rest ∧ key it = ex_max e').
Proof.
  revert i e. induction rest as [|it rest IH]; intros i e He; cbv zeta.
  - cbn. split_and!; auto; try lia.
  - cbn [extremes_fold foldl]. set (e1 := mkExt _ _ _ _).
    assert (He1 : ex_min e1 ≤ ex_min e ∧ ex_max e ≤ ex_max e1 ∧ ex_min e1 ≤ key it ≤ ex_max e1 ∧
              (ex_min e1 = ex_min e ∨ ex_min e1 = key it) ∧
              (ex_max e1 = ex_max e ∨ ex_max e1 = key it)).
    { subst e1; cbn. bool_cases; zbool; split_and!; lia. }
    specialize (IH (S i) e1). cbv zeta in IH. unfold extremes_fold in *.
    set (e' := (foldl _ _ rest).2) in *. clearbody e1 e'.
    destruct IH as (? & ? & ? & Hm & HM); [lia|]. destruct He1 as (? & ? & ? & Hm1 & HM1).
    split_and!; try lia.
    + constructor; [lia|done].
    + destruct Hm as [Hm|(x & ? & ?)]; [|right; exists x; split; [by right|done]].
      destruct Hm1; [left; lia|right; exists it; split; [left|lia]].
    + destruct HM as [HM|(x & ? & ?)]; [|right; exists x; split; [by right|done]].
      destruct HM1; [left; lia|right; exists it; split; [left|lia]].
Qed.

Lemma find_extremes_bounds key it0 rest :
  let e := find_extremes key key (key it0) rest in
  Forall (λ it, ex_min e ≤ key it ≤ ex_max e) (it0 :: rest) ∧
  (∃ it, it ∈ it0 :: rest ∧ key it = ex_min e) ∧
  (∃ it, it ∈ it0 :: rest ∧ key it = ex_max e).
Proof.
  cbv zeta. unfold find_extremes.
  pose proof (extremes_fold_bounds key rest 1 (mkExt (key it0) (key it0) 0 0)) as HE.
  unfold extremes_fold in HE. cbv zeta in HE. set (e' := (foldl _ _ rest).2) in *.
  destruct HE as (? & ? & ? & Hm & HM); [cbn; lia|]. cbn [ex_min ex_max] in *.
  split_and!.
  - constructor; [lia|done].
  - destruct Hm as [Hm|(x & ? & ?)]; [exists it0; split; [left|lia]|exists x; split; [by right|lia]].
  - destruct HM as [HM|(x & ? & ?)]; [exists it0; split; [left|lia]|exists x; split; [by right|lia]].
Qed.

Lemma indexed_lookup {A} (l : list A) i x : (i, x) ∈ indexed l ↔ l !! i = Some x.
Proof.
  unfold indexed. rewrite elem_of_lookup_imap. split.
  - intros (j & y & [= -> ->] & ?). done.
  - intros ?. eauto.
Qed.

Lemma filter_indexed_elem (P : RTreeTemporalBox → Prop) `{∀ x, Decision (P x)} items i :
  i ∈ map fst (filter (λ p : nat * RTreeTemporalBox, P p.2) (indexed items)) ↔
  ∃ it, items !! i = Some it ∧ P it.
Proof.
  rewrite list_elem_of_fmap. split.
  - intros ([j it] & -> & [HP Hin]%list_elem_of_filter). apply indexed_lookup in Hin. eauto.
  - intros (it & Hin & HP). exists (i, it). split; [done|].
    apply list_elem_of_filter. split; [done|]. by apply indexed_lookup.
Qed.

(** Splitting a page of open-ended rows orders the sides in time: when the
    start times are non-negative (after 1970) and not all equal, every row of the left
    page starts no later than the median of the extremes and every row of the right
    page after it. *)
Theorem current_only_separates (items : list RTreeTemporalBox) (it1 it2 : RTreeTemporalBox) :
  Forall (λ it, 0 ≤ lower_us it < 2 ^ 62) items →
  it1 ∈ items → it2 ∈ items → lower_us it1 < lower_us it2 →
  ∃ median,
    (∀ i, i ∈ (tr_split_current_only items).1 ↔ ∃ it, items !! i = Some it ∧ lower_us it ≤ median) ∧
    (∀ i, i ∈ (tr_split_current_only items).2 ↔ ∃ it, items !! i = Some it ∧ median < lower_us it).
Proof.
  intros Hr H1 H2 Hlt. destruct items as [|it0 rest]; [by apply not_elem_of_nil in H1|].
  unfold tr_split_current_only. cbv zeta.
  destruct (find_extremes_bounds lower_us it0 rest) as (HB & (a & Ha & Ea) & (b & Hb & Eb)).
  set (e := find_extremes _ _ _ _) in *. set (items := it0 :: rest) in *. clearbody e items.
  rewrite Forall_forall in HB, Hr.
  set (m := c_median _ _).
  assert (Hm : ex_min e ≤ m < ex_max e).
  { pose proof (HB _ H1). pose proof (HB _ H2). pose proof (Hr _ Ha). pose proof (Hr _ Hb).
    subst m. unfold c_median. rewrite int64_id.
    - rewrite Z.quot_div_nonneg by lia. rewrite <- Ea, <- Eb in *.
      pose proof (Z.div_mod (lower_us a + lower_us b) 2).
      pose proof (Z.mod_pos_bound (lower_us a + lower_us b) 2). lia.
    - unfold is_int64, PG_INT64_MIN, PG_INT64_MAX. lia. }
  clearbody m. exists m.
  pose proof (filter_indexed_elem (λ it, lower_us it ≤ m) items) as HL.
  pose proof (filter_indexed_elem (λ it, ¬ lower_us it ≤ m) items) as HR.
  cbv beta in HL, HR.
  set (left := map fst (filter (λ p, lower_us p.2 ≤ m) _)) in *.
  set (right := map fst (filter (λ p, ¬ lower_us p.2 ≤ m) _)) in *. clearbody left right.
  apply list_elem_of_lookup in Ha as [ia Ha], Hb as [ib Hb].
  destruct left as [|l0 left].
  { exfalso. assert (ia ∈ @nil nat) as ?%not_elem_of_nil; [|done]. apply HL. eauto with lia. }
  destruct right as [|r0 right].
  { exfalso. assert (ib ∈ @nil nat) as ?%not_elem_of_nil; [|done]. apply HR.
    exists b. split; [done|lia]. }
  cbn [fst snd]. split; [done|]. intros i. rewrite HR.
  split; intros (it & ? & ?); exists it; (split; [done|lia]).
Qed.

(** C17. Splitting a page of two or more tuples sends every tuple to exactly one
    of the two sides and leaves neither side empty. *)
Theorem picksplit_partition (items : list RTreeTemporalBox) :
  (2 ≤ length items)%nat →
  let '(l, r) := tr_picksplit items in
  l ++ r ≡ₚ seq 0 (length items) ∧
  (0 < length l < length items)%nat ∧ (0 < length r < length items)%nat.
Proof.
  intros Hn. pose proof (picksplit_split items Hn) as (HP & Hl & Hr).
  destruct (tr_picksplit items) as [l r]. cbn [fst snd] in *. split; [done|].
  apply Permutation_length in HP. rewrite length_app, length_seq in HP.
  destruct l; [done|]. destruct r; [done|]. cbn in *. lia.
Qed.

End split.

Lemma current_only_separates_witness :
  ∃ median, ∀ i, i ∈ (tr_split_current_only
      [mkBox 100 PG_INT64_MAX 1 1 2 4; mkBox 300 PG_INT64_MAX 1 1 2 4]).1 ↔
    ∃ it, [mkBox 100 PG_INT64_MAX 1 1 2 4; mkBox 300 PG_INT64_MAX 1 1 2 4] !! i = Some it ∧
          lower_us it ≤ median.
Proof.
  destruct (current_only_separates
      [mkBox 100 PG_INT64_MAX 1 1 2 4; mkBox 300 PG_INT64_MAX 1 1 2 4]
      (mkBox 100 PG_INT64_MAX 1 1 2 4) (mkBox 300 PG_INT64_MAX 1 1 2 4)) as (m & Hl & _).
  - repeat constructor; cbn; lia.
  - constructor.
  - right. constructor.
  - cbn; lia.
  - exists m. exact Hl.
Defined.

Lemma picksplit_partition_witness :
  let items := [mkBox 100 200 1 5 2 0; mkBox 300 400 10 20 2 0; mkBox 120 180 2 3 2 0] in
  let '(l, r) := tr_picksplit items in l ++ r ≡ₚ seq 0 3 ∧ (0 < length l)%nat.
Proof.
  pose proof (picksplit_partition
    [mkBox 100 200 1 5 2 0; mkBox 300 400 10 20 2 0; mkBox 120 180 2 3 2 0]) as HP.
  cbv zeta in *. destruct (tr_picksplit _) as [l r].
  destruct HP as (? & ? & _); [cbn; lia|]. split; [done|lia].
Defined.
