(* ===== verification/Bufpage.v ===== *)
(** bufpage.c, bufpage.h and itemid.h: the slotted page.

    A page is its header, its line pointer array and its tuple space.  The tuple
    space is a map from byte offsets to the item that starts there with the number
    of bytes it was written with; a copy over a byte range destroys the items it
    overlaps, as [memcpy] and [memmove] do.  [pd_linp] is the live part of the
    line pointer array, the entries below [pd_lower]. *)

From S2P Require Import Prelude.

Definition BLCKSZ : Z := 8192.
Definition SizeOfPageHeaderData : Z := 24.
Definition sizeof_ItemIdData : Z := 4.
Definition PG_PAGE_LAYOUT_VERSION : Z := 4.
Definition MaxHeapTuplesPerPage : Z := 291.
Definition InvalidOffsetNumber : Z := 0.
Definition FirstOffsetNumber : Z := 1.
Definition PD_HAS_FREE_LINES : Z := 0x0001.
Definition PAI_OVERWRITE : Z := 1.
Definition PAI_IS_HEAP : Z := 2.

(** * Line pointers *)

Definition LP_UNUSED : Z := 0.
Definition LP_NORMAL : Z := 1.
Definition LP_REDIRECT : Z := 2.
Definition LP_DEAD : Z := 3.

Record ItemIdData : Type := mkItemId { lp_off : Z; lp_flags : Z; lp_len : Z }.

(** The fields have 15, 2 and 15 bits. *)
Definition bits15 (z : Z) : Z := z mod 2 ^ 15.

Definition ItemIdIsUsed (i : ItemIdData) : bool := negb (lp_flags i =? LP_UNUSED).
Definition ItemIdHasStorage (i : ItemIdData) : bool := negb (lp_len i =? 0).
Definition ItemIdSetNormal (off len : Z) : ItemIdData :=
  {| lp_flags := LP_NORMAL; lp_off := bits15 off; lp_len := bits15 len |}.
Definition ItemIdSetUnused : ItemIdData :=
  {| lp_flags := LP_UNUSED; lp_off := 0; lp_len := 0 |}.

(** * Tuple space *)

Abbreviation mem Item := (gmap Z (Z * Item)).

(** The cell [c] at offset [o] touches the bytes [lo, hi). *)
Definition cell_touches {Item} (lo hi : Z) (c : Z * (Z * Item)) : Prop :=
  c.1 < hi ∧ lo < c.1 + c.2.1.

Definition cell_inside {Item} (lo hi : Z) (c : Z * (Z * Item)) : Prop :=
  lo ≤ c.1 ∧ c.1 + c.2.1 ≤ hi.

#[export] Instance cell_touches_dec {Item} lo hi (c : Z * (Z * Item)) :
  Decision (cell_touches lo hi c).
Proof. unfold cell_touches. apply _. Defined.
#[export] Instance cell_inside_dec {Item} lo hi (c : Z * (Z * Item)) :
  Decision (cell_inside lo hi c).
Proof. unfold cell_inside. apply _. Defined.

(** Overwriting the bytes [lo, hi) with something else. *)
Definition clobber {Item} (lo hi : Z) (m : mem Item) : mem Item :=
  filter (λ c, ¬ cell_touches lo hi c) m.

(** [memcpy(page + off, item, size)]. *)
Definition mem_write {Item} (off size : Z) (it : Item) (m : mem Item) : mem Item :=
  <[off := (size, it)]> (clobber off (off + size) m).

(** [memmove(page + dst, page + src, n)]. *)
Definition mem_move {Item} (dst src n : Z) (m : mem Item) : mem Item :=
  kmap (λ o, o + (dst - src)) (filter (cell_inside src (src + n)) m) ∪ clobber dst (dst + n) m.

(** * Pages *)

Section page.
Context {Item Sp : Type}.

Record Page : Type := mkPage {
  pd_flags : Z;
  pd_lower : Z;
  pd_upper : Z;
  pd_special : Z;
  pd_pagesize_version : Z;
  pd_linp : list ItemIdData;
  pd_mem : mem Item;
  pd_sp : option Sp;  (** the structure in the special space *)
}.

(** A page of zero bytes, as [RBM_ZERO_AND_LOCK] hands out. *)
Definition zero_page : Page :=
  {| pd_flags := 0; pd_lower := 0; pd_upper := 0; pd_special := 0;
     pd_pagesize_version := 0; pd_linp := []; pd_mem := ∅; pd_sp := None |}.

Definition PageInit (pageSize specialSize : Z) : Page :=
  let specialSize := MAXALIGN specialSize in
  {| pd_flags := 0;
     pd_lower := SizeOfPageHeaderData;
     pd_upper := uint16 (pageSize - specialSize);
     pd_special := uint16 (pageSize - specialSize);
     pd_pagesize_version := uint16 (Z.lor pageSize PG_PAGE_LAYOUT_VERSION);
     pd_linp := []; pd_mem := ∅; pd_sp := None |}.

(** Writing the structure in the special space. *)
Definition page_set_sp (sp : Sp) (p : Page) : Page :=
  {| pd_flags := pd_flags p; pd_lower := pd_lower p; pd_upper := pd_upper p;
     pd_special := pd_special p; pd_pagesize_version := pd_pagesize_version p;
     pd_linp := pd_linp p; pd_mem := pd_mem p; pd_sp := Some sp |}.

Definition PageIsEmpty (p : Page) : bool := pd_lower p <=? SizeOfPageHeaderData.
Definition PageIsNew (p : Page) : bool := pd_upper p =? 0.
Definition PageHasFreeLinePointers (p : Page) : bool := has_flag (pd_flags p) PD_HAS_FREE_LINES.

Definition PageGetItemId (p : Page) (offsetNumber : Z) : result ItemIdData :=
  if offsetNumber <? 1 then Err (Undefined "line pointer out of range")
  else some_or "line pointer out of range" (pd_linp p !! Z.to_nat (offsetNumber - 1)).

Definition PageGetItem (p : Page) (itemId : ItemIdData) : result Item :=
  some_or "no item at this offset" (snd <$> pd_mem p !! lp_off itemId).

Definition PageGetMaxOffsetNumber (p : Page) : Z :=
  if pd_lower p <=? SizeOfPageHeaderData then 0
  else uint16 ((pd_lower p - SizeOfPageHeaderData) / sizeof_ItemIdData).

Definition PageGetPageSize (p : Page) : Z := Z.land (pd_pagesize_version p) 0xFF00.
Definition PageGetPageLayoutVersion (p : Page) : Z := Z.land (pd_pagesize_version p) 0x00FF.
Definition PageGetSpecialSize (p : Page) : Z := uint16 (PageGetPageSize p - pd_special p).

(** * Free space *)

Definition PageGetFreeSpace (p : Page) : Z :=
  let space := pd_upper p - pd_lower p in
  if space <? sizeof_ItemIdData then 0 else space - sizeof_ItemIdData.

Definition PageGetFreeSpaceForMultipleTuples (p : Page) (ntups : Z) : Z :=
  let space := pd_upper p - pd_lower p in
  if space <? ntups * sizeof_ItemIdData then 0 else space - ntups * sizeof_ItemIdData.

Definition PageGetExactFreeSpace (p : Page) : Z :=
  let space := pd_upper p - pd_lower p in
  if space <? 0 then 0 else space.

Definition PageGetHeapFreeSpace (p : Page) : Z :=
  let space := PageGetFreeSpace p in
  if 0 <? space then
    if MaxHeapTuplesPerPage <=? PageGetMaxOffsetNumber p then
      if PageHasFreeLinePointers p
      then if forallb ItemIdIsUsed (pd_linp p) then 0 else space
      else 0
    else space
  else space.

(** * Adding an item *)

Definition corrupted_pointers (p : Page) : bool :=
  (pd_lower p <? SizeOfPageHeaderData) || (pd_upper p <? pd_lower p) ||
  (pd_special p <? pd_upper p) || (BLCKSZ <? pd_special p).

Definition set_page_flags (fl : Z) (p : Page) : Page :=
  {| pd_flags := fl; pd_lower := pd_lower p; pd_upper := pd_upper p;
     pd_special := pd_special p; pd_pagesize_version := pd_pagesize_version p;
     pd_linp := pd_linp p; pd_mem := pd_mem p; pd_sp := pd_sp p |}.

Definition PageClearHasFreeLinePointers (p : Page) : Page :=
  set_page_flags (Z.land (pd_flags p) (Z.lnot PD_HAS_FREE_LINES)) p.

(** The first line pointer that is unused and without storage, as an offset. *)
Definition first_free_line (p : Page) : option Z :=
  (λ q : nat * ItemIdData, Z.of_nat q.1 + 1) <$>
  list_find (λ i, negb (ItemIdIsUsed i) && negb (ItemIdHasStorage i) = true) (pd_linp p).

(** Choosing the slot: [None] is a refusal; otherwise the offset, whether the line
    pointers above it move up, and the page with its corrected free-line hint. *)
Definition choose_slot (p : Page) (offsetNumber flags : Z)
  : result (option (Z * bool * Page)) :=
  let limit := uint16 (PageGetMaxOffsetNumber p + 1) in
  if negb (offsetNumber =? InvalidOffsetNumber) then
    if has_flag flags PAI_OVERWRITE then
      if offsetNumber <? limit then
        itemId ← PageGetItemId p offsetNumber;
        if ItemIdIsUsed itemId || ItemIdHasStorage itemId then Ok None
        else Ok (Some (offsetNumber, false, p))
      else Ok (Some (offsetNumber, false, p))
    else Ok (Some (offsetNumber, offsetNumber <? limit, p))
  else
    if PageHasFreeLinePointers p then
      match first_free_line p with
      | Some off => Ok (Some (off, false, p))
      | None => Ok (Some (limit, false, PageClearHasFreeLinePointers p))
      end
    else Ok (Some (limit, false, p)).

(** Returns the new page and the offset number, which is [InvalidOffsetNumber]
    when the item is refused. *)
Definition PageAddItemExtended (p : Page) (item : Item) (size offsetNumber flags : Z)
  : result (Page * Z) :=
  if corrupted_pointers p then Err (Elog "corrupted page pointers")
  else
    let limit := uint16 (PageGetMaxOffsetNumber p + 1) in
    slot ← choose_slot p offsetNumber flags;
    match slot with
    | None => Ok (p, InvalidOffsetNumber)
    | Some (offsetNumber, needshuffle, p) =>
        if limit <? offsetNumber then Ok (p, InvalidOffsetNumber)
        else if has_flag flags PAI_IS_HEAP && (MaxHeapTuplesPerPage <? offsetNumber)
        then Ok (p, InvalidOffsetNumber)
        else
          let lower := if (offsetNumber =? limit) || needshuffle
                       then pd_lower p + sizeof_ItemIdData else pd_lower p in
          let alignedSize := MAXALIGN size in
          let upper := int32 (pd_upper p - int32 alignedSize) in
          if upper <? lower then Ok (p, InvalidOffsetNumber)
          else
            let i := Z.to_nat (offsetNumber - 1) in
            let itemId := ItemIdSetNormal upper size in
            let linp :=
              if needshuffle then take i (pd_linp p) ++ itemId :: drop i (pd_linp p)
              else if offsetNumber =? limit then pd_linp p ++ [itemId]
              else <[i := itemId]> (pd_linp p) in
            Ok ({| pd_flags := pd_flags p;
                   pd_lower := uint16 lower;
                   pd_upper := uint16 upper;
                   pd_special := pd_special p;
                   pd_pagesize_version := pd_pagesize_version p;
                   pd_linp := linp;
                   pd_mem := mem_write upper size item (pd_mem p);
                   pd_sp := pd_sp p |}, offsetNumber)
    end.

(** [PageAddItem] with [overwrite] and [is_heap]. *)
Definition PageAddItem (p : Page) (item : Item) (size offsetNumber : Z)
    (overwrite is_heap : bool) : result (Page * Z) :=
  PageAddItemExtended p item size offsetNumber
    (Z.lor (if overwrite then PAI_OVERWRITE else 0) (if is_heap then PAI_IS_HEAP else 0)).

(** * Deleting an index tuple *)

Definition shift_item (offset size : Z) (ii : ItemIdData) : ItemIdData :=
  if lp_off ii <=? offset
  then {| lp_off := bits15 (lp_off ii + size); lp_flags := lp_flags ii; lp_len := lp_len ii |}
  else ii.

Definition PageIndexTupleDelete (p : Page) (offnum : Z) : result Page :=
  if corrupted_pointers p || negb (pd_special p =? MAXALIGN (pd_special p))
  then Err (Elog "corrupted page pointers")
  else
    let nline := PageGetMaxOffsetNumber p in
    if (offnum <=? 0) || (nline <? offnum) then Err (Elog "invalid index offnum")
    else
      tup ← PageGetItemId p offnum;
      let size := lp_len tup in
      let offset := lp_off tup in
      if (offset <? pd_upper p) || (pd_special p <? offset + size) ||
         negb (offset =? MAXALIGN offset)
      then Err (Elog "corrupted line pointer")
      else
        let size := MAXALIGN size in
        let linp := delete (Z.to_nat (offnum - 1)) (pd_linp p) in
        let m := if pd_upper p <? offset
                 then mem_move (pd_upper p + size) (pd_upper p) (offset - pd_upper p) (pd_mem p)
                 else pd_mem p in
        let upper := uint16 (pd_upper p + size) in
        let lower := uint16 (pd_lower p - sizeof_ItemIdData) in
        Ok {| pd_flags := pd_flags p;
              pd_lower := lower;
              pd_upper := upper;
              pd_special := pd_special p;
              pd_pagesize_version := pd_pagesize_version p;
              pd_linp := if lower <=? SizeOfPageHeaderData then linp
                         else map (shift_item offset size) linp;
              pd_mem := m;
              pd_sp := pd_sp p |}.

(** * Loops over the used items of a page *)

(** [for (offset = ...; offset <= maxoff; offset++)], skipping unused line
    pointers, over the remaining offsets [offs]. *)
Fixpoint for_offsets {A B} (p : Page) (f : A → Z → Item → result (loop A B))
    (offs : list Z) (a : A) : result (loop A B) :=
  match offs with
  | [] => Ok (Continue a)
  | offset :: offs =>
      itemid ← PageGetItemId p offset;
      if negb (ItemIdIsUsed itemid) then for_offsets p f offs a
      else
        it ← PageGetItem p itemid;
        r ← f a offset it;
        match r with
        | Continue a => for_offsets p f offs a
        | Break b => Ok (Break b)
        end
  end.

Definition offsets_from (p : Page) (first : Z) : list Z :=
  seqZ first (PageGetMaxOffsetNumber p + 1 - first).

(** The loop without [break]. *)
Definition for_items {A} (p : Page) (f : A → Z → Item → result A) (a : A) : result A :=
  r ← for_offsets (B:=Empty_set) p (λ a off it, a ← f a off it; Ok (Continue a))
        (offsets_from p FirstOffsetNumber) a;
  match (r : loop A Empty_set) with Continue a => Ok a | Break b => match b with end end.

End page.
Arguments Page : clear implicits.

(** * Facts on the tuple space *)

Lemma clobber_lookup_keep {Item} lo hi (m : mem Item) o len it :
  m !! o = Some (len, it) → hi ≤ o ∨ o + len ≤ lo →
  clobber lo hi m !! o = Some (len, it).
Proof.
  intros Hm Hd. unfold clobber. apply map_lookup_filter_Some. split; [done|].
  unfold cell_touches; cbn. lia.
Qed.

Lemma mem_write_lookup {Item} off size (it : Item) m :
  mem_write off size it m !! off = Some (size, it).
Proof. apply lookup_insert_eq. Qed.

Lemma mem_write_lookup_keep {Item} off size (it : Item) m o len it' :
  m !! o = Some (len, it') → 0 < size → 0 < len → off + size ≤ o ∨ o + len ≤ off →
  mem_write off size it m !! o = Some (len, it').
Proof.
  intros ????. unfold mem_write. rewrite lookup_insert_ne by lia.
  by apply clobber_lookup_keep.
Qed.

#[export] Instance shift_inj d : Inj (=) (=) (λ o : Z, o + d).
Proof. intros x y. lia. Qed.

Lemma mem_move_lookup_moved {Item} dst src n (m : mem Item) o len it :
  m !! o = Some (len, it) → src ≤ o → o + len ≤ src + n →
  mem_move dst src n m !! (o + (dst - src)) = Some (len, it).
Proof.
  intros Hm H1 H2. unfold mem_move. apply lookup_union_Some_l.
  rewrite lookup_kmap_Some by apply _. exists o. split; [done|].
  apply map_lookup_filter_Some. split; [done|]. done.
Qed.

Lemma mem_move_lookup_keep {Item} dst src n (m : mem Item) o len it :
  m !! o = Some (len, it) → dst + n ≤ o →
  (∀ o' c, m !! o' = Some c → 0 < c.1) →
  mem_move dst src n m !! o = Some (len, it).
Proof.
  intros Hm H1 Hpos. unfold mem_move. rewrite lookup_union_r.
  - apply clobber_lookup_keep; [done|lia].
  - apply eq_None_not_Some. intros [c Hc]. rewrite lookup_kmap_Some in Hc by apply _.
    destruct Hc as (o' & -> & Hf). apply map_lookup_filter_Some in Hf as [Hf Hin].
    apply Hpos in Hf. destruct Hin as [? ?]. cbn in *. lia.
Qed.

(** Every cell of a page was written with a positive size. *)
Definition cells_positive {Item} (m : mem Item) : Prop :=
  ∀ o c, m !! o = Some c → 0 < c.1.

Lemma cells_positive_write {Item} off size (it : Item) m :
  0 < size → cells_positive m → cells_positive (mem_write off size it m).
Proof.
  intros Hs Hm o c. unfold mem_write. destruct (decide (o = off)) as [->|].
  - rewrite lookup_insert_eq. intros [= <-]. done.
  - rewrite lookup_insert_ne by done. intros [? _]%map_lookup_filter_Some. eauto.
Qed.

Lemma cells_positive_move {Item} dst src n (m : mem Item) :
  cells_positive m → cells_positive (mem_move dst src n m).
Proof.
  intros Hm o c. unfold mem_move. intros Hc%lookup_union_Some_raw.
  destruct Hc as [Hc|[_ Hc]].
  - rewrite lookup_kmap_Some in Hc by apply _. destruct Hc as (o' & -> & Hf).
    apply map_lookup_filter_Some in Hf as [Hf _]. eauto.
  - apply map_lookup_filter_Some in Hc as [Hf _]. eauto.
Qed.

(** * What a page holds *)

(** The number of bytes of an item. *)
Class ItemSize (Item : Type) := item_size : Item → Z.

Section rep.
Context {Item Sp : Type} `{!ItemSize Item}.
Implicit Types (p : Page Item Sp) (it : Item) (its : list Item) (a b : ItemIdData).

(** Line pointer [a] of [p] stores [it]. *)
Record stores p a it : Prop := {
  st_normal : lp_flags a = LP_NORMAL;
  st_len : lp_len a = item_size it;
  st_pos : 0 < item_size it;
  st_lower : pd_upper p ≤ lp_off a;
  st_upper : lp_off a + MAXALIGN (lp_len a) ≤ pd_special p;
  st_align : lp_off a mod 8 = 0;
  st_mem : pd_mem p !! lp_off a = Some (lp_len a, it);
}.

Definition apart a b : Prop :=
  lp_off a + MAXALIGN (lp_len a) ≤ lp_off b ∨ lp_off b + MAXALIGN (lp_len b) ≤ lp_off a.

#[local] Instance apart_sym : Symmetric apart.
Proof. intros a b [?|?]; [right|left]; done. Qed.

(** [p] is a sound page that holds exactly the items [its], in this order of line
    pointers, in disjoint aligned storage with no byte between the tuples. *)
Record page_rep p its : Prop := {
  pr_lower : pd_lower p = SizeOfPageHeaderData + sizeof_ItemIdData * zlen its;
  pr_fits : pd_lower p ≤ pd_upper p;
  pr_special : pd_special p ≤ BLCKSZ ∧ pd_special p mod 8 = 0;
  pr_tight : pd_special p - pd_upper p = zsum (λ it, MAXALIGN (item_size it)) its;
  pr_lines : PageHasFreeLinePointers p = false;
  pr_stores : Forall2 (stores p) (pd_linp p) its;
  pr_apart : ForallOrdPairs apart (pd_linp p);
  pr_cells : cells_positive (pd_mem p);
}.

(** The bytes [its] take on a page, line pointers included. *)
Definition items_space (its : list Item) : Z :=
  zsum (λ it, MAXALIGN (item_size it) + sizeof_ItemIdData) its.

Lemma items_space_split its :
  items_space its = zsum (λ it, MAXALIGN (item_size it)) its + sizeof_ItemIdData * zlen its.
Proof.
  unfold items_space, zlen. induction its as [|x l IH]; simpl; [done|].
  rewrite IH. unfold sizeof_ItemIdData. lia.
Qed.

Lemma page_rep_free p its :
  page_rep p its →
  pd_upper p - pd_lower p = pd_special p - SizeOfPageHeaderData - items_space its.
Proof. intros []. rewrite items_space_split. lia. Qed.

Lemma page_rep_sizes p its : page_rep p its → Forall (λ it, 0 < item_size it) its.
Proof.
  intros Hp. destruct (pr_stores _ _ Hp) as [|a it l its' Hs Hr]; constructor; [apply Hs|].
  clear -Hr. induction Hr as [|? ? ? ? Hs]; constructor; [apply Hs|done].
Qed.

Lemma page_rep_upper p its : page_rep p its → pd_upper p ≤ pd_special p.
Proof.
  intros Hp. pose proof (pr_tight _ _ Hp) as Ht. apply page_rep_sizes in Hp.
  assert (0 ≤ zsum (λ it, MAXALIGN (item_size it)) its); [|lia].
  apply zsum_Forall_nonneg. eapply Forall_impl; [exact Hp|]. cbn. intros it ?.
  pose proof (MAXALIGN_bounds (item_size it)). lia.
Qed.

Lemma page_rep_bounds p its :
  page_rep p its →
  SizeOfPageHeaderData ≤ pd_lower p ≤ pd_upper p ∧ pd_upper p ≤ pd_special p ≤ BLCKSZ ∧
  0 ≤ zlen its ≤ 2042.
Proof.
  intros Hp. pose proof (page_rep_upper _ _ Hp). pose proof (zlen_nonneg its).
  destruct Hp as [Hl Hf [Hs _] _ _ _ _ _].
  unfold SizeOfPageHeaderData, sizeof_ItemIdData, BLCKSZ in *. lia.
Qed.

Lemma page_rep_max p its : page_rep p its → PageGetMaxOffsetNumber p = zlen its.
Proof.
  intros Hp. pose proof (page_rep_bounds _ _ Hp). unfold PageGetMaxOffsetNumber.
  rewrite (pr_lower _ _ Hp) in *. unfold SizeOfPageHeaderData, sizeof_ItemIdData in *.
  destruct (Z.leb_spec (24 + 4 * zlen its) 24); [lia|].
  replace (24 + 4 * zlen its - 24) with (zlen its * 4) by lia.
  rewrite Z.div_mul by lia. apply uint16_id. lia.
Qed.

Lemma page_rep_length p its : page_rep p its → length (pd_linp p) = length its.
Proof. intros Hp. eapply Forall2_length, Hp. Qed.

Lemma page_rep_not_corrupted p its : page_rep p its → corrupted_pointers p = false.
Proof.
  intros Hp. pose proof (page_rep_bounds _ _ Hp). unfold corrupted_pointers.
  rewrite !orb_false_iff, !Z.ltb_ge. lia.
Qed.

Lemma page_rep_item p its i it :
  page_rep p its → its !! i = Some it →
  ∃ a, PageGetItemId p (Z.of_nat i + 1) = Ok a ∧ pd_linp p !! i = Some a ∧
       stores p a it ∧ ItemIdIsUsed a = true ∧ PageGetItem p a = Ok it.
Proof.
  intros Hp Hi. destruct (Forall2_lookup_r _ _ _ _ _ (pr_stores _ _ Hp) Hi) as (a & Ha & Hs).
  exists a. unfold PageGetItemId, PageGetItem, ItemIdIsUsed.
  destruct (Z.ltb_spec (Z.of_nat i + 1) 1); [lia|].
  replace (Z.to_nat (Z.of_nat i + 1 - 1)) with i by lia.
  rewrite Ha, (st_mem _ _ _ Hs), (st_normal _ _ _ Hs). split_and!; done.
Qed.

(** * Loops over a page visit its items *)

Fixpoint for_list {A B} (f : A → Z → Item → result (loop A B)) (off : Z)
    (its : list Item) (a : A) : result (loop A B) :=
  match its with
  | [] => Ok (Continue a)
  | it :: its =>
      r ← f a off it;
      match r with
      | Continue a => for_list f (off + 1) its a
      | Break b => Ok (Break b)
      end
  end.

Lemma for_offsets_rep {A B} p its (f : A → Z → Item → result (loop A B)) k (s : A) :
  page_rep p its →
  for_offsets p f (offsets_from p (Z.of_nat k + 1)) s = for_list f (Z.of_nat k + 1) (drop k its) s.
Proof.
  intros Hp. unfold offsets_from. rewrite (page_rep_max _ _ Hp).
  assert (Hlen : length (drop k its) = (length its - k)%nat) by apply length_drop.
  remember (drop k its) as l eqn:Hl. revert k s Hl Hlen.
  induction l as [|it l IH]; intros k s Hl Hlen; cbn in Hlen.
  - rewrite seqZ_nil by (unfold zlen; lia). done.
  - rewrite seqZ_cons by (unfold zlen; lia). cbn [for_offsets for_list].
    assert (Hi : its !! k = Some it).
    { rewrite <- (Nat.add_0_r k), <- lookup_drop, <- Hl. done. }
    destruct (page_rep_item _ _ _ _ Hp Hi) as (x & -> & _ & _ & Hu & Hg).
    rsimpl. rewrite Hu, Hg. rsimpl.
    destruct (f s (Z.of_nat k + 1) it) as [[s'|b]|e]; rsimpl; try done.
    replace (Z.succ (Z.of_nat k + 1)) with (Z.of_nat (S k) + 1) by lia.
    replace (Z.of_nat k + 1 + 1) with (Z.of_nat (S k) + 1) by lia.
    rewrite <- (IH (S k) s'); [|by rewrite (drop_S its it k) in Hl; simplify_eq|lia].
    f_equal; f_equal; lia.
Qed.

Fixpoint fold_items {A} (f : A → Z → Item → result A) (off : Z) (its : list Item) (s : A)
  : result A :=
  match its with
  | [] => Ok s
  | it :: its => s ← f s off it; fold_items f (off + 1) its s
  end.

Lemma for_items_rep {A} p its (f : A → Z → Item → result A) (s : A) :
  page_rep p its → for_items p f s = fold_items f 1 its s.
Proof.
  intros Hp. unfold for_items, FirstOffsetNumber. rewrite (for_offsets_rep p its _ 0) by done.
  rewrite drop_0. change (Z.of_nat 0 + 1) with 1. generalize 1. intros off. revert off s. clear.
  induction its as [|it its IH]; intros off s; cbn [for_list fold_items]; [done|].
  destruct (f s off it) as [s'|e]; rsimpl; [apply IH|done].
Qed.

Lemma fold_items_pure {A} (f : A → Item → A) off its (s : A) :
  fold_items (λ s _ it, Ok (f s it)) off its s = Ok (foldl f s its).
Proof.
  revert off s. induction its as [|it its IH]; intros off s; cbn [fold_items foldl]; [done|].
  rsimpl. apply IH.
Qed.

(** * Adding an item *)

Lemma stores_add p p' a it off size x :
  stores p a it → pd_special p' = pd_special p → pd_upper p' ≤ pd_upper p →
  pd_mem p' = mem_write off size x (pd_mem p) → 0 < size → off + size ≤ pd_upper p →
  stores p' a it.
Proof.
  intros [] Hsp Hup Hm Hs Ho. constructor; try done; [lia|lia|].
  rewrite Hm. apply mem_write_lookup_keep; [done|lia|lia|lia].
Qed.

(** The page [PageAddItemExtended] builds when it accepts the item. *)
Definition added p it i : Page Item Sp :=
  let size := item_size it in
  let upper := pd_upper p - MAXALIGN size in
  {| pd_flags := pd_flags p;
     pd_lower := pd_lower p + sizeof_ItemIdData;
     pd_upper := upper;
     pd_special := pd_special p;
     pd_pagesize_version := pd_pagesize_version p;
     pd_linp := take i (pd_linp p) ++ {| lp_flags := LP_NORMAL; lp_off := upper; lp_len := size |}
                                   :: drop i (pd_linp p);
     pd_mem := mem_write upper size it (pd_mem p);
     pd_sp := pd_sp p |}.

Lemma mod8_sub x y : x mod 8 = 0 → y mod 8 = 0 → (x - y) mod 8 = 0.
Proof. intros Hx Hy. rewrite Zminus_mod, Hx, Hy. done. Qed.

Lemma mod8_add x y : x mod 8 = 0 → y mod 8 = 0 → (x + y) mod 8 = 0.
Proof. intros Hx Hy. rewrite Zplus_mod, Hx, Hy. done. Qed.

Lemma zsum_aligned its : zsum (λ it, MAXALIGN (item_size it)) its mod 8 = 0.
Proof. induction its; simpl; [done|]. apply mod8_add; [apply MAXALIGN_mult|done]. Qed.

Lemma page_rep_upper_aligned p its : page_rep p its → pd_upper p mod 8 = 0.
Proof.
  intros Hp. replace (pd_upper p) with (pd_special p - zsum (λ it, MAXALIGN (item_size it)) its)
    by (pose proof (pr_tight _ _ Hp); lia).
  apply mod8_sub; [apply Hp|apply zsum_aligned].
Qed.

Lemma added_rep p its it i :
  page_rep p its → 0 < item_size it → (i ≤ length its)%nat →
  MAXALIGN (item_size it) + sizeof_ItemIdData ≤ pd_upper p - pd_lower p →
  page_rep (added p it i) (take i its ++ it :: drop i its).
Proof.
  intros Hp Hs Hi Hfree. pose proof (page_rep_bounds _ _ Hp) as (? & ? & ?).
  pose proof (MAXALIGN_bounds (item_size it)) as HM.
  assert (Hperm : take i its ++ it :: drop i its ≡ₚ it :: its) by apply take_drop_insert_perm.
  assert (Hst : ∀ a x, stores p a x → stores (added p it i) a x).
  { intros a x Ha. eapply (stores_add p _ a x); eauto; cbn; lia. }
  constructor; cbn [added pd_lower pd_upper pd_special pd_linp pd_mem pd_flags].
  - rewrite (pr_lower _ _ Hp). unfold zlen. rewrite Hperm. cbn [length].
    unfold sizeof_ItemIdData. lia.
  - lia.
  - apply Hp.
  - rewrite (zsum_perm _ _ _ Hperm), zsum_cons. pose proof (pr_tight _ _ Hp). lia.
  - apply Hp.
  - apply Forall2_app; [|constructor]; [| |].
    + apply Forall2_take. eapply Forall2_impl; [apply Hp|done].
    + constructor; cbn; try done; [lia|..].
      * apply mod8_sub; [by eapply page_rep_upper_aligned|apply MAXALIGN_mult].
      * apply mem_write_lookup.
    + apply Forall2_drop. eapply Forall2_impl; [apply Hp|done].
  - eapply ForallOrdPairs_perm; [apply _|symmetry; apply take_drop_insert_perm|].
    constructor; [|apply Hp]. apply List.Forall_forall. intros b Hb%list_elem_of_In.
    apply list_elem_of_lookup in Hb as [j Hj].
    destruct (Forall2_lookup_l _ _ _ _ _ (pr_stores _ _ Hp) Hj) as (x & _ & Hx).
    left. cbn. pose proof (st_lower _ _ _ Hx). lia.
  - apply cells_positive_write; [done|apply Hp].
Qed.

(** The slot an offset number asks for: [None] of the argument is
    [InvalidOffsetNumber], which appends. *)
Definition slot_of its (off : Z) : nat :=
  if off =? InvalidOffsetNumber then length its else Z.to_nat (off - 1).

Lemma choose_slot_rep p its off :
  page_rep p its → 0 ≤ off ≤ zlen its + 1 →
  choose_slot p off 0 =
  Ok (Some (Z.of_nat (slot_of its off) + 1,
            negb (off =? InvalidOffsetNumber) && (off <? zlen its + 1), p)).
Proof.
  intros Hp Ho. pose proof (page_rep_bounds _ _ Hp) as (_ & _ & ?).
  unfold choose_slot, slot_of. rewrite (page_rep_max _ _ Hp), (pr_lines _ _ Hp).
  rewrite uint16_id by lia. change (has_flag 0 PAI_OVERWRITE) with false. cbv iota.
  unfold InvalidOffsetNumber, zlen in *. destruct (Z.eqb_spec off 0); cbn [negb andb];
    repeat f_equal; lia.
Qed.

Lemma added_append p it i : (length (pd_linp p) ≤ i)%nat →
  take i (pd_linp p) ++ {| lp_flags := LP_NORMAL; lp_off := pd_upper p - MAXALIGN (item_size it);
                           lp_len := item_size it |} :: drop i (pd_linp p) =
  pd_linp p ++ [{| lp_flags := LP_NORMAL; lp_off := pd_upper p - MAXALIGN (item_size it);
                   lp_len := item_size it |}].
Proof. intros Hi. by rewrite take_ge, drop_ge. Qed.

Lemma PageAddItem_rep p its it off :
  page_rep p its → 0 < item_size it < 2 ^ 30 → 0 ≤ off ≤ zlen its + 1 →
  PageAddItem p it (item_size it) off false false =
  if pd_upper p - pd_lower p <? MAXALIGN (item_size it) + sizeof_ItemIdData
  then Ok (p, InvalidOffsetNumber)
  else Ok (added p it (slot_of its off), Z.of_nat (slot_of its off) + 1).
Proof.
  intros Hp Hs Ho. pose proof (page_rep_bounds _ _ Hp) as (? & ? & ?).
  pose proof (MAXALIGN_bounds (item_size it)).
  unfold PageAddItem, PageAddItemExtended. change (Z.lor _ _) with 0.
  rewrite (page_rep_not_corrupted _ _ Hp), (choose_slot_rep _ _ _ Hp Ho). cbn [mbind result_bind].
  rewrite (page_rep_max _ _ Hp), uint16_id by lia. change (has_flag 0 PAI_IS_HEAP) with false.
  cbn [andb].
  assert (Hk : Z.of_nat (slot_of its off) ≤ zlen its).
  { unfold slot_of, InvalidOffsetNumber, zlen in *. destruct (Z.eqb_spec off 0); lia. }
  destruct (Z.ltb_spec (zlen its + 1) (Z.of_nat (slot_of its off) + 1)); [lia|].
  assert (Hsh : negb (off =? InvalidOffsetNumber) && (off <? zlen its + 1) =
                negb (Z.of_nat (slot_of its off) + 1 =? zlen its + 1)).
  { unfold slot_of, InvalidOffsetNumber, zlen in *. destruct (Z.eqb_spec off 0); cbn [negb andb].
    - symmetry. apply negb_false_iff, Z.eqb_eq. lia.
    - destruct (Z.ltb_spec off (Z.of_nat (length its) + 1)); symmetry;
        [apply negb_true_iff, Z.eqb_neq|apply negb_false_iff, Z.eqb_eq]; lia. }
  rewrite Hsh, orb_negb_r. unfold SizeOfPageHeaderData, sizeof_ItemIdData, BLCKSZ in *.
  rewrite !int32_id by (rewrite ?int32_id; unfold is_int32, PG_INT32_MIN, PG_INT32_MAX; lia).
  replace (pd_upper p - MAXALIGN (item_size it) <? pd_lower p + 4)
    with (pd_upper p - pd_lower p <? MAXALIGN (item_size it) + 4)
    by (apply eq_true_iff_eq; rewrite !Z.ltb_lt; lia).
  destruct (Z.ltb_spec (pd_upper p - pd_lower p) (MAXALIGN (item_size it) + 4)); [done|].
  unfold added, ItemIdSetNormal, bits15. do 2 f_equal.
  rewrite !uint16_id, !Z.mod_small by lia.
  replace (Z.to_nat (Z.of_nat (slot_of its off) + 1 - 1)) with (slot_of its off) by lia.
  f_equal. destruct (Z.eqb_spec (Z.of_nat (slot_of its off) + 1) (zlen its + 1)) as [E|]; [|done].
  cbn [negb]. symmetry. apply added_append. rewrite (page_rep_length _ _ Hp).
  unfold zlen in E. lia.
Qed.

(** * Deleting an item *)

(** The page after the item of line pointer [x], the [i]th, is gone. *)
Definition deleted p i x : Page Item Sp :=
  let size := MAXALIGN (lp_len x) in
  {| pd_flags := pd_flags p;
     pd_lower := pd_lower p - sizeof_ItemIdData;
     pd_upper := pd_upper p + size;
     pd_special := pd_special p;
     pd_pagesize_version := pd_pagesize_version p;
     pd_linp := map (shift_item (lp_off x) size) (delete i (pd_linp p));
     pd_mem := if pd_upper p <? lp_off x
               then mem_move (pd_upper p + size) (pd_upper p) (lp_off x - pd_upper p) (pd_mem p)
               else pd_mem p;
     pd_sp := pd_sp p |}.

Lemma bits15_id z : 0 ≤ z < 2 ^ 15 → bits15 z = z.
Proof. intros. unfold bits15. by apply Z.mod_small. Qed.

Lemma stores_deleted p its i x y itx it :
  page_rep p its → stores p x itx → stores p y it → apart x y →
  stores (deleted p i x) (shift_item (lp_off x) (MAXALIGN (lp_len x)) y) it.
Proof.
  intros Hp Hx Hy Ha. pose proof (page_rep_bounds _ _ Hp) as (? & ? & _).
  pose proof (MAXALIGN_bounds (lp_len x)). pose proof (MAXALIGN_bounds (lp_len y)).
  pose proof (MAXALIGN_mult (lp_len x)).
  destruct Hx as [_ Hlx Hpx Hox Hux Hax _], Hy as [Hfy Hly Hpy Hoy Huy Hay Hmy].
  unfold BLCKSZ, SizeOfPageHeaderData in *.
  unfold shift_item. destruct (Z.leb_spec (lp_off y) (lp_off x)) as [Hle|Hgt];
    constructor; cbn [deleted lp_off lp_flags lp_len pd_upper pd_special pd_mem]; try done.
  - rewrite bits15_id; unfold apart in Ha; lia.
  - rewrite bits15_id; unfold apart in Ha; lia.
  - rewrite bits15_id by (unfold apart in Ha; lia). by apply mod8_add.
  - rewrite bits15_id by (unfold apart in Ha; lia). unfold apart in Ha.
    destruct (Z.ltb_spec (pd_upper p) (lp_off x)); [|lia].
    replace (lp_off y + MAXALIGN (lp_len x))
      with (lp_off y + (pd_upper p + MAXALIGN (lp_len x) - pd_upper p)) by lia.
    apply mem_move_lookup_moved; [done|lia|lia].
  - unfold apart in Ha. lia.
  - destruct (Z.ltb_spec (pd_upper p) (lp_off x)); [|done].
    apply mem_move_lookup_keep; [done|unfold apart in Ha; lia|apply Hp].
Qed.

Lemma apart_shift p its x y z itx ity itz :
  page_rep p its → stores p x itx → stores p y ity → stores p z itz →
  apart x y → apart x z → apart y z →
  apart (shift_item (lp_off x) (MAXALIGN (lp_len x)) y)
        (shift_item (lp_off x) (MAXALIGN (lp_len x)) z).
Proof.
  intros Hp Hx Hy Hz Hxy Hxz Hyz. pose proof (page_rep_bounds _ _ Hp) as (? & ? & _).
  pose proof (MAXALIGN_bounds (lp_len x)). pose proof (MAXALIGN_bounds (lp_len y)).
  pose proof (MAXALIGN_bounds (lp_len z)).
  destruct Hx as [_ ? ? ? ? _ _], Hy as [_ ? ? ? ? _ _], Hz as [_ ? ? ? ? _ _].
  unfold shift_item, apart, BLCKSZ, SizeOfPageHeaderData in *.
  destruct (Z.leb_spec (lp_off y) (lp_off x)), (Z.leb_spec (lp_off z) (lp_off x));
    cbn [lp_off lp_len]; rewrite ?bits15_id by lia; lia.
Qed.

Lemma pr_apart_delete p its i x :
  page_rep p its → pd_linp p !! i = Some x →
  ForallOrdPairs apart (x :: delete i (pd_linp p)).
Proof.
  intros Hp Hi. eapply ForallOrdPairs_perm; [apply _|by apply delete_Permutation|apply Hp].
Qed.

Lemma pr_stored p its y :
  page_rep p its → y ∈ pd_linp p → ∃ it, stores p y it.
Proof.
  intros Hp Hy. apply list_elem_of_lookup in Hy as [j Hj].
  destruct (Forall2_lookup_l _ _ _ _ _ (pr_stores _ _ Hp) Hj) as (it & _ & ?). eauto.
Qed.

Lemma deleted_rep p its i x it :
  page_rep p its → its !! i = Some it → pd_linp p !! i = Some x →
  page_rep (deleted p i x) (delete i its).
Proof.
  intros Hp Hi Hx. pose proof (page_rep_bounds _ _ Hp) as (? & ? & ?).
  pose proof (pr_apart_delete _ _ _ _ Hp Hx) as HA.
  inversion_clear HA as [|? ? HAx HAr]. rewrite List.Forall_forall in HAx.
  assert (Hxs : stores p x it).
  { destruct (Forall2_lookup_lr _ _ _ _ _ _ (pr_stores _ _ Hp) Hx Hi). by constructor. }
  pose proof (delete_Permutation _ _ _ Hi) as Hperm.
  assert (Hlen : zlen its = zlen (delete i its) + 1).
  { apply Permutation_length in Hperm. unfold zlen. cbn in Hperm. lia. }
  assert (Hin : ∀ y, y ∈ delete i (pd_linp p) → y ∈ pd_linp p).
  { intros y Hy. rewrite (delete_Permutation _ _ _ Hx). by right. }
  constructor; cbn [deleted pd_lower pd_upper pd_special pd_linp pd_mem pd_flags].
  - rewrite (pr_lower _ _ Hp). unfold sizeof_ItemIdData. lia.
  - pose proof (MAXALIGN_bounds (lp_len x)). pose proof (st_len _ _ _ Hxs).
    pose proof (st_pos _ _ _ Hxs). unfold sizeof_ItemIdData. lia.
  - apply Hp.
  - pose proof (pr_tight _ _ Hp) as Ht. rewrite (zsum_perm _ _ _ Hperm), zsum_cons in Ht.
    rewrite (st_len _ _ _ Hxs). lia.
  - apply Hp.
  - apply Forall2_fmap_l. apply Forall2_same_length_lookup_2.
    + rewrite !length_delete by eauto. by rewrite (page_rep_length _ _ Hp).
    + intros j y z Hy Hz. eapply stores_deleted; [done|done| |].
      * destruct (decide (j < i)%nat) as [Hj|Hj].
        -- rewrite list_lookup_delete_lt in Hy by done. rewrite list_lookup_delete_lt in Hz by done.
           by eapply Forall2_lookup_lr; [apply Hp|..].
        -- rewrite list_lookup_delete_ge in Hy by lia. rewrite list_lookup_delete_ge in Hz by lia.
           by eapply Forall2_lookup_lr; [apply Hp|..].
      * apply HAx. apply list_elem_of_In, list_elem_of_lookup. eauto.
  - eapply ForallOrdPairs_map; [exact HAr|]. intros y z Hy Hz Hyz.
    destruct (pr_stored _ _ y Hp) as [? ?]; [auto|]. destruct (pr_stored _ _ z Hp) as [? ?]; [auto|].
    eapply apart_shift; eauto; apply HAx; by apply list_elem_of_In.
  - destruct (pd_upper p <? lp_off x); [|apply Hp]. apply cells_positive_move, Hp.
Qed.

Lemma PageIndexTupleDelete_rep p its i it :
  page_rep p its → its !! i = Some it →
  ∃ x, PageIndexTupleDelete p (Z.of_nat i + 1) = Ok (deleted p i x) ∧ pd_linp p !! i = Some x ∧
       page_rep (deleted p i x) (delete i its).
Proof.
  intros Hp Hi. destruct (page_rep_item _ _ _ _ Hp Hi) as (x & Hg & Hx & Hxs & _ & _).
  exists x. split_and!; [|done|by eapply deleted_rep].
  pose proof (page_rep_bounds _ _ Hp) as (? & ? & ?). pose proof (lookup_lt_Some _ _ _ Hi).
  unfold PageIndexTupleDelete. rewrite (page_rep_not_corrupted _ _ Hp).
  rewrite MAXALIGN_id, Z.eqb_refl, (page_rep_max _ _ Hp) by apply Hp. cbn [orb negb].
  destruct (Z.leb_spec (Z.of_nat i + 1) 0); [lia|].
  destruct (Z.ltb_spec (zlen its) (Z.of_nat i + 1)); [unfold zlen in *; lia|]. cbn [orb].
  rewrite Hg. rsimpl. destruct Hxs as [_ Hl Hpos Hlo Hup Hal _].
  pose proof (MAXALIGN_bounds (lp_len x)).
  destruct (Z.ltb_spec (lp_off x) (pd_upper p)); [lia|].
  destruct (Z.ltb_spec (pd_special p) (lp_off x + lp_len x)); [lia|].
  rewrite (MAXALIGN_id (lp_off x)), Z.eqb_refl by done. cbn [orb negb].
  unfold deleted. f_equal. pose proof (pr_lower _ _ Hp) as Hlow.
  unfold SizeOfPageHeaderData, sizeof_ItemIdData, BLCKSZ in *.
  rewrite !uint16_id by (unfold zlen in *; lia).
  replace (Z.to_nat (Z.of_nat i + 1 - 1)) with i by lia.
  f_equal. destruct (Z.leb_spec (pd_lower p - 4) 24) as [Hle|]; [|done].
  assert (length its = 1)%nat as Hone by (unfold zlen in *; lia).
  assert (Hnil : delete i (pd_linp p) = []); [|by rewrite Hnil].
  apply nil_length_inv. rewrite length_delete by eauto. rewrite (page_rep_length _ _ Hp). lia.
Qed.

(** * Other page operations *)

Lemma PageInit_rep ssize :
  0 ≤ ssize ≤ 4096 → page_rep (PageInit (Item:=Item) (Sp:=Sp) BLCKSZ ssize) [].
Proof.
  intros Hs. pose proof (MAXALIGN_bounds ssize). pose proof (MAXALIGN_mult ssize).
  assert (Hu : uint16 (BLCKSZ - MAXALIGN ssize) = BLCKSZ - MAXALIGN ssize)
    by (apply uint16_id; unfold BLCKSZ; lia).
  constructor; cbn [PageInit pd_lower pd_upper pd_special pd_linp pd_mem pd_flags]; rewrite ?Hu.
  - done.
  - unfold BLCKSZ, SizeOfPageHeaderData. lia.
  - split; [lia|]. by apply mod8_sub.
  - cbn. lia.
  - done.
  - constructor.
  - constructor.
  - intros o c. by rewrite lookup_empty.
Qed.

Lemma page_set_sp_rep p its sp : page_rep p its → page_rep (page_set_sp sp p) its.
Proof.
  intros Hp. constructor; try apply Hp.
  eapply Forall2_impl; [apply Hp|]. intros a it Hs. constructor; apply Hs.
Qed.

(** Zeroing the hole between [pd_lower] and [pd_upper], as page images in the
    write-ahead log have it. *)
Definition zero_hole p : Page Item Sp :=
  {| pd_flags := pd_flags p; pd_lower := pd_lower p; pd_upper := pd_upper p;
     pd_special := pd_special p; pd_pagesize_version := pd_pagesize_version p;
     pd_linp := pd_linp p; pd_mem := clobber (pd_lower p) (pd_upper p) (pd_mem p);
     pd_sp := pd_sp p |}.

Lemma zero_hole_rep p its : page_rep p its → page_rep (zero_hole p) its.
Proof.
  intros Hp. constructor; try apply Hp.
  - eapply Forall2_impl; [apply Hp|]. intros a it Hs. constructor; try apply Hs.
    apply clobber_lookup_keep; [apply Hs|]. left. apply Hs.
  - intros o c Hc. apply map_lookup_filter_Some in Hc as [Hc _]. by eapply Hp.
Qed.

(** C18. Adding an item to a sound page: when the aligned item and a line pointer
    fit, the item takes the requested slot (or the end of the page), the items above it
    move up one offset, every other item and the special space are kept and the page stays
    sound; when they do not fit the page is returned unchanged with
    [InvalidOffsetNumber]. *)
Theorem page_add_item_spec p its it off :
  page_rep p its → 0 < item_size it < 2 ^ 30 → 0 ≤ off ≤ zlen its + 1 →
  let i := slot_of its off in
  (MAXALIGN (item_size it) + sizeof_ItemIdData ≤ pd_upper p - pd_lower p →
   ∃ p', PageAddItem p it (item_size it) off false false = Ok (p', Z.of_nat i + 1) ∧
         page_rep p' (take i its ++ it :: drop i its) ∧ pd_sp p' = pd_sp p) ∧
  (pd_upper p - pd_lower p < MAXALIGN (item_size it) + sizeof_ItemIdData →
   PageAddItem p it (item_size it) off false false = Ok (p, InvalidOffsetNumber)).
Proof.
  intros Hp Hs Ho. cbv zeta. rewrite (PageAddItem_rep p its) by done.
  split; intros Hf; bool_cases; zbool; [|done].
  eexists. split_and!; [done| |done]. apply added_rep; [done|lia| |lia].
  unfold slot_of, InvalidOffsetNumber, zlen in *. destruct (Z.eqb_spec off 0); lia.
Qed.

(** Deleting an index tuple from a sound page removes exactly that item: the
    others keep their order and contents although their bytes move, and the page stays
    sound with the deleted tuple's space free again. *)
Theorem page_index_tuple_delete_spec p its i it :
  page_rep p its → its !! i = Some it →
  ∃ p', PageIndexTupleDelete p (Z.of_nat i + 1) = Ok p' ∧ page_rep p' (delete i its) ∧
        pd_sp p' = pd_sp p ∧
        PageGetExactFreeSpace p' =
          PageGetExactFreeSpace p + MAXALIGN (item_size it) + sizeof_ItemIdData.
Proof.
  intros Hp Hi. destruct (PageIndexTupleDelete_rep _ _ _ _ Hp Hi) as (x & Hd & Hx & Hr).
  exists (deleted p i x). split_and!; [done..|].
  destruct (Forall2_lookup_lr _ _ _ _ _ _ (pr_stores _ _ Hp) Hx Hi) as [_ Hl Hpos _ _ _ _].
  pose proof (pr_fits _ _ Hp). pose proof (MAXALIGN_bounds (item_size it)).
  unfold PageGetExactFreeSpace. cbn [deleted pd_upper pd_lower]. rewrite Hl.
  unfold sizeof_ItemIdData. destruct (Z.ltb_spec (pd_upper p - pd_lower p) 0); [lia|].
  destruct (Z.ltb_spec (pd_upper p + MAXALIGN (item_size it) - (pd_lower p - 4)) 0); lia.
Qed.

(** [PageGetFreeSpace] is exact: an item is accepted at the end of a sound page
    if and only if its aligned size is at most the free space reported. *)
Theorem page_free_space_exact p its it :
  page_rep p its → 0 < item_size it < 2 ^ 30 →
  MAXALIGN (item_size it) ≤ PageGetFreeSpace p ↔
  ∃ p' off, PageAddItem p it (item_size it) InvalidOffsetNumber false false = Ok (p', off) ∧
            off ≠ InvalidOffsetNumber.
Proof.
  intros Hp Hs. pose proof (zlen_nonneg its). pose proof (MAXALIGN_bounds (item_size it)).
  rewrite (PageAddItem_rep p its) by (done || (unfold InvalidOffsetNumber; lia)).
  unfold PageGetFreeSpace, sizeof_ItemIdData.
  destruct (Z.ltb_spec (pd_upper p - pd_lower p) (MAXALIGN (item_size it) + 4));
    destruct (Z.ltb_spec (pd_upper p - pd_lower p) 4); split; intros Hx; try lia.
  - destruct Hx as (? & ? & [= <- <-] & ?). done.
  - destruct Hx as (? & ? & [= <- <-] & ?). done.
  - eexists _, _. split; [done|]. unfold InvalidOffsetNumber. lia.
Qed.

End rep.

(** * Witnesses: a page whose items are represented by their sizes *)

Section witnesses.
#[local] Instance Z_item_size : ItemSize Z := λ z, z.

Definition demo_page : Page Z unit := added (PageInit BLCKSZ 16) 48 0.

Lemma demo_page_rep : page_rep demo_page [48].
Proof.
  apply (added_rep (PageInit BLCKSZ 16) [] 48 0); [by apply PageInit_rep|done|done|by vm_compute].
Qed.

Lemma page_add_item_spec_witness :
  ∃ p', PageAddItem demo_page 32 32 1 false false = Ok (p', 1) ∧ page_rep p' [32; 48] ∧
        pd_sp p' = pd_sp demo_page.
Proof.
  destruct (page_add_item_spec demo_page [48] 32 1 demo_page_rep) as [Hfit _].
  - split; vm_compute; reflexivity.
  - split; vm_compute; discriminate.
  - apply Hfit. vm_compute. discriminate.
Defined.

Lemma page_index_tuple_delete_spec_witness :
  ∃ p', PageIndexTupleDelete demo_page 1 = Ok p' ∧ page_rep p' [] ∧ pd_sp p' = pd_sp demo_page ∧
        PageGetExactFreeSpace p' = PageGetExactFreeSpace demo_page + MAXALIGN 48 + sizeof_ItemIdData.
Proof. apply (page_index_tuple_delete_spec demo_page [48] 0 48 demo_page_rep). reflexivity. Defined.

Lemma page_free_space_exact_witness :
  MAXALIGN 8096 ≤ PageGetFreeSpace demo_page ↔
  ∃ p' off, PageAddItem demo_page 8096 8096 InvalidOffsetNumber false false = Ok (p', off) ∧
            off ≠ InvalidOffsetNumber.
Proof.
  apply (page_free_space_exact demo_page [48] 8096 demo_page_rep). split; vm_compute; reflexivity.
Defined.

End witnesses.
