(* ===== verification/Itup.v ===== *)
(** Item pointers (block.h, itemptr.h), index tuples over one cube column (itup.h,
    indextuple.c) and the tuple routines of temporal_rtree_page.c. *)

From S2P Require Import Prelude Float64 Cube Box Bufpage.

(** * Block numbers and item pointers *)

Definition InvalidBlockNumber : Z := 0xFFFFFFFF.
Definition BlockNumberIsValid (blockNumber : Z) : bool := negb (blockNumber =? InvalidBlockNumber).

Record BlockIdData : Type := mkBlockId { bi_hi : Z; bi_lo : Z }.

Definition BlockIdSet (blockNumber : Z) : BlockIdData :=
  {| bi_hi := uint16 (Z.shiftr blockNumber 16); bi_lo := Z.land blockNumber 0xffff |}.

Definition BlockIdGetBlockNumber (b : BlockIdData) : Z :=
  Z.lor (uint32 (Z.shiftl (bi_hi b) 16)) (bi_lo b).

Record ItemPointerData : Type := mkTid { ip_blkid : BlockIdData; ip_posid : Z }.

#[export] Instance BlockIdData_eq_dec : EqDecision BlockIdData.
Proof. solve_decision. Defined.
#[export] Instance ItemPointerData_eq_dec : EqDecision ItemPointerData.
Proof. solve_decision. Defined.

Definition ItemPointerGetBlockNumber (p : ItemPointerData) : Z :=
  BlockIdGetBlockNumber (ip_blkid p).
Definition ItemPointerSet (blockNumber offNum : Z) : ItemPointerData :=
  {| ip_blkid := BlockIdSet blockNumber; ip_posid := offNum |}.

Lemma BlockId_roundtrip b : 0 ≤ b < 2 ^ 32 → BlockIdGetBlockNumber (BlockIdSet b) = b.
Proof.
  intros Hb. unfold BlockIdGetBlockNumber, BlockIdSet. cbn [bi_hi bi_lo].
  assert (Hq : 0 ≤ Z.shiftr b 16 < 2 ^ 16).
  { rewrite Z.shiftr_div_pow2 by lia. split; [apply Z.div_pos; lia|apply Z.div_lt_upper_bound; lia]. }
  rewrite uint16_id by done. rewrite uint32_id by (rewrite Z.shiftl_mul_pow2; lia).
  change 0xffff with (Z.ones 16). rewrite <- Z.ldiff_ones_r by lia. apply Z.lor_ldiff_and.
Qed.

Lemma tid_block_roundtrip b off :
  0 ≤ b < 2 ^ 32 → ItemPointerGetBlockNumber (ItemPointerSet b off) = b.
Proof. apply BlockId_roundtrip. Qed.

(** * Index tuples *)

Definition INDEX_SIZE_MASK : Z := 0x1FFF.
Definition INDEX_VAR_MASK : Z := 0x4000.
Definition INDEX_NULL_MASK : Z := 0x8000.
Definition sizeof_IndexTupleData : Z := 8.
Definition sizeof_IndexAttributeBitMapData : Z := 4.

(** A tuple of an index with one cube column; [None] is a null key. *)
Record IndexTuple : Type := mkItup {
  t_tid : ItemPointerData;
  t_info : Z;
  t_data : option NDBOX;
}.

Definition set_tid (tid : ItemPointerData) (itup : IndexTuple) : IndexTuple :=
  {| t_tid := tid; t_info := t_info itup; t_data := t_data itup |}.

Definition IndexTupleSize (itup : IndexTuple) : Z := Z.land (t_info itup) INDEX_SIZE_MASK.
Definition IndexTupleHasNulls (itup : IndexTuple) : bool := has_flag (t_info itup) INDEX_NULL_MASK.

#[export] Instance IndexTuple_size : ItemSize IndexTuple := IndexTupleSize.

Definition IndexInfoFindDataOffset (info : Z) : Z :=
  if negb (has_flag info INDEX_NULL_MASK) then MAXALIGN sizeof_IndexTupleData
  else MAXALIGN (sizeof_IndexTupleData + sizeof_IndexAttributeBitMapData).

(** The cube type is variable-length, double-aligned and stored plain: it is never
    compressed, shortened or moved out of line, so that its data size in a tuple
    is its own size. *)
Definition index_form_tuple (value : option NDBOX) : result IndexTuple :=
  let infomask := match value with None => INDEX_NULL_MASK | Some _ => 0 end in
  let hoff := IndexInfoFindDataOffset infomask in
  let data_size := match value with None => 0 | Some c => vl_size c end in
  let size := MAXALIGN (hoff + data_size) in
  let infomask := match value with None => infomask | Some _ => Z.lor infomask INDEX_VAR_MASK end in
  if negb (Z.land size INDEX_SIZE_MASK =? size)
  then Err (Elog "index row requires too many bytes")
  else Ok {| t_tid := ItemPointerSet 0 0; t_info := uint16 (Z.lor infomask size); t_data := value |}.

(** The only attribute: its null bit is set exactly when the tuple has nulls, otherwise
    its value is at the data offset. *)
Definition index_getattr (itup : IndexTuple) : option NDBOX :=
  if negb (IndexTupleHasNulls itup) then t_data itup else None.

Definition CopyIndexTuple (source : IndexTuple) : IndexTuple := source.

(** * Tuples of the access method *)

Section tuple.
Context `{Platform}.

Definition rtree_index_tuple_box (itup : IndexTuple) : option RTreeTemporalBox :=
  rtree_cube_to_box <$> index_getattr itup.

Definition rtree_form_tuple (box : RTreeTemporalBox) (heap_tid : ItemPointerData)
  : result IndexTuple :=
  let cube := rtree_box_to_cube box in
  itup ← index_form_tuple (Some cube);
  Ok (set_tid heap_tid itup).

(** The loop of [rtree_page_mbr]: the union of the boxes seen so far, [first] while
    there is none. *)
Definition mbr_step (s : RTreeTemporalBox * bool) (itup : IndexTuple) : RTreeTemporalBox * bool :=
  let '(mbr, first) := s in
  match rtree_index_tuple_box itup with
  | None => s
  | Some box => if first : bool then (box, false) else (tr_union mbr box, false)
  end.

Definition empty_box : RTreeTemporalBox := mkBox 0 0 0 0 0 TRTREE_FLAG_EMPTY.

Definition rtree_page_mbr {Sp} (page : Page IndexTuple Sp) : result RTreeTemporalBox :=
  s ← for_items page (λ s _ itup, Ok (mbr_step s itup)) (empty_box, true);
  Ok s.1.

End tuple.

(** * Uniform keys

    A tuple is 48 bytes when its key is a two-dimensional cube that is not a point.
    [good_box] is what keeps the bounding boxes written to internal tuples in that
    class: exactly representable bounds, the infinity marks of their side (and the
    [PG_INT64_MIN] an infinite upper bound reads back as), and some extent. *)

Definition TUPLE_SIZE : Z := 48.

Definition good_lower (z : Z) : Prop := Z.abs z < 2 ^ 53 ∨ z = PG_INT64_MIN.
Definition good_upper (z : Z) : Prop :=
  Z.abs z < 2 ^ 53 ∨ z = PG_INT64_MIN ∨ z = PG_INT64_MAX.

Record good_box (b : RTreeTemporalBox) : Prop := {
  gb_attr_lo : is_int32 (attr_lo b);
  gb_attr_hi : is_int32 (attr_hi b);
  gb_lower : good_lower (lower_us b);
  gb_upper : good_upper (upper_us b);
  gb_nonempty : is_empty b = false;
  gb_flag : lower_us b = PG_INT64_MIN → has_flag (flags b) TRTREE_FLAG_LOWER_INF = true;
  gb_extent : attr_lo b < attr_hi b ∨ lower_us b < upper_us b ∨ upper_us b = PG_INT64_MIN;
}.

Lemma good_lower_min a b : good_lower a → good_lower b → good_lower (Z.min a b).
Proof. unfold good_lower, PG_INT64_MIN. lia. Qed.

Lemma good_upper_max a b : good_upper a → good_upper b → good_upper (Z.max a b).
Proof. unfold good_upper, PG_INT64_MIN, PG_INT64_MAX. lia. Qed.

Lemma tr_union_flags a b fl :
  is_empty a = false → is_empty b = false → fl ≠ TRTREE_FLAG_EMPTY →
  has_flag (Z.land (Z.lor (flags a) (flags b)) (Z.lnot TRTREE_FLAG_EMPTY)) fl = true →
  has_flag (flags (tr_union a b)) fl = true.
Proof.
  intros Ha Hb _ Hf. unfold tr_union. rewrite Ha, Hb. cbn [flags].
  bool_cases; [|done]. by rewrite has_flag_lor, Hf.
Qed.

Lemma good_union a b : good_box a → good_box b → good_box (tr_union a b).
Proof.
  intros [Aa Ba La Ua Ea Fa Xa] [Ab Bb Lb Ub Eb Fb Xb].
  assert (HF : lower_us (tr_union a b) = PG_INT64_MIN →
               has_flag (flags (tr_union a b)) TRTREE_FLAG_LOWER_INF = true).
  { intros HL. apply tr_union_flags; [done..|]. rewrite has_flag_clear_lower, has_flag_lor.
    apply orb_true_iff. unfold tr_union in HL. rewrite Ea, Eb in HL. cbn in HL.
    destruct (Z.min_spec (lower_us a) (lower_us b)) as [[_ E]|[_ E]]; rewrite E in HL; auto. }
  constructor; [..|done|]; [| | | |by apply tr_union_not_empty|];
    unfold tr_union; rewrite Ea, Eb; cbn [attr_lo attr_hi lower_us upper_us].
  - unfold is_int32 in *. lia.
  - unfold is_int32 in *. lia.
  - by apply good_lower_min.
  - by apply good_upper_max.
  - lia.
Qed.

Lemma good_not_point b :
  good_box b →
  (attr_lo b =? attr_hi b) && (lower_us b =? upper_us b) &&
  negb (has_flag (flags b) (Z.lor TRTREE_FLAG_LOWER_INF TRTREE_FLAG_UPPER_INF)) = false.
Proof.
  intros [_ _ _ _ _ Hf Hx].
  destruct (Z.eqb_spec (attr_lo b) (attr_hi b)); [|done].
  destruct (Z.eqb_spec (lower_us b) (upper_us b)); [|done]. cbn [andb]. apply negb_false_iff.
  destruct Hx as [?|[?|Hu]]; [lia..|]. assert (HL : lower_us b = PG_INT64_MIN) by lia.
  specialize (Hf HL). revert Hf. unfold has_flag. rewrite !negb_true_iff, !Z.eqb_neq.
  intros Hf H0. apply Hf. unfold TRTREE_FLAG_LOWER_INF, TRTREE_FLAG_UPPER_INF in *.
  change (Z.lor 2 4) with 6 in H0. change 2 with (Z.land 6 2). rewrite Z.land_assoc, H0. done.
Qed.

Section uniform.
Context `{Platform}.

(** Writing a good bounding box and reading it back gives a good box. *)
Lemma good_readback b : good_box b → good_box (rtree_cube_to_box (rtree_box_to_cube b)).
Proof.
  intros [Al Ah Hl Hu He Hf Hx].
  assert (HL : llround (i2d (lower_us b)) = lower_us b).
  { destruct Hl as [?| ->]; [by apply llround_i2d|apply llround_i2d_min]. }
  assert (HU : llround (i2d (upper_us b)) = upper_us b ∨ llround (i2d (upper_us b)) = PG_INT64_MIN).
  { destruct Hu as [?|[-> | ->]]; [left; by apply llround_i2d|left; apply llround_i2d_min|].
    destruct llround_i2d_max as [->| ->]; auto. }
  rewrite cube_to_box_to_cube; [|done|done|destruct Hl; unfold stable_time; auto|done].
  cbv zeta. rewrite HL. set (u := llround (i2d (upper_us b))) in *. clearbody u.
  constructor; cbn [attr_lo attr_hi lower_us upper_us]; try done.
  - destruct HU as [-> | ->]; [done|unfold good_upper; auto].
  - unfold is_empty, inf_flags; cbn [flags]. by bool_cases.
  - intros E. unfold inf_flags; cbn [flags]. rewrite E, Z.eqb_refl. by bool_cases.
  - destruct HU as [-> | ->]; [done|auto].
Qed.

(** A tuple of uniform size with a good key. *)
Definition tuple_ok (it : IndexTuple) : Prop :=
  IndexTupleSize it = TUPLE_SIZE ∧ ∃ b, rtree_index_tuple_box it = Some b ∧ good_box b.

Lemma rtree_form_tuple_good b tid :
  good_box b →
  ∃ it, rtree_form_tuple b tid = Ok it ∧ t_tid it = tid ∧ tuple_ok it.
Proof.
  intros Hb. unfold rtree_form_tuple, rtree_box_to_cube, rtree_box_to_cube_internal.
  rewrite good_not_point by done. unfold index_form_tuple. cbn [vl_size box_cube].
  change (negb _) with false at 1. cbv iota. rsimpl.
  eexists. split_and!; [done|done|]. split; [done|].
  exists (rtree_cube_to_box (rtree_box_to_cube b)). split; [|by apply good_readback].
  unfold rtree_index_tuple_box, index_getattr, rtree_box_to_cube, rtree_box_to_cube_internal.
  rewrite good_not_point by done. done.
Qed.

(** * The bounding box of a page *)

Lemma rtree_page_mbr_rep {Sp} (p : Page IndexTuple Sp) its :
  page_rep p its → rtree_page_mbr p = Ok (foldl mbr_step (empty_box, true) its).1.
Proof.
  intros Hp. unfold rtree_page_mbr.
  by rewrite (for_items_rep p its), fold_items_pure.
Qed.

Lemma mbr_good_from its b :
  good_box b → Forall tuple_ok its → good_box (foldl mbr_step (b, false) its).1.
Proof.
  intros Hb HF. revert b Hb. induction HF as [|it its (_ & x & Hx & Gx) _ IH]; intros b Hb; [done|].
  cbn [foldl]. unfold mbr_step at 2. rewrite Hx. apply IH. by apply good_union.
Qed.

Lemma mbr_good its :
  its ≠ [] → Forall tuple_ok its → good_box (foldl mbr_step (empty_box, true) its).1.
Proof.
  intros Hne HF. destruct HF as [|it its (_ & x & Hx & Gx) HF]; [done|].
  cbn [foldl]. unfold mbr_step at 2. rewrite Hx. by apply mbr_good_from.
Qed.

End uniform.
