(* ===== verification/Compact.v ===== *)
(** bufpage.c: moving the tuples of a page together, and the operations built on it or
    beside it: deleting several index tuples, deleting without renumbering, overwriting
    in place, repairing a heap page, and truncating its line pointer array. *)

From S2P Require Import Prelude Bufpage Itup.

Definition MaxIndexTuplesPerPage : Z :=
  (BLCKSZ - SizeOfPageHeaderData) / (MAXALIGN (sizeof_IndexTupleData + 1) + sizeof_ItemIdData).

(** An array of structures to be filled: [itemidbase] has this many entries. *)
Record itemIdCompactData : Type := mkCompact {
  offsetindex : nat;
  itemoff : Z;
  alignedlen : Z;
}.

Section ops.
Context {Item Sp : Type}.
Implicit Types (p : Page Item Sp) (m scratch : mem Item) (ids : list itemIdCompactData)
  (linp : list ItemIdData).

(** [memcpy(dst + d, src + s, n)] between two areas; nothing happens for [n = 0]. *)
Definition mem_copy (d s n : Z) (src dst : mem Item) : mem Item :=
  if n <=? 0 then dst
  else kmap (λ o, o + (d - s)) (filter (cell_inside s (s + n)) src) ∪ clobber d (d + n) dst.

Definition set_lp_off (off : Z) (a : ItemIdData) : ItemIdData :=
  {| lp_off := bits15 off; lp_flags := lp_flags a; lp_len := lp_len a |}.

(** ** Temporary pages *)

Definition PageGetTempPageCopy p : Page Item Sp := p.

(** An empty page with the special space of [p]. *)
Definition PageGetTempPageCopySpecial p : Page Item Sp :=
  let temp : Page Item Sp := PageInit (PageGetPageSize p) (PageGetSpecialSize p) in
  match pd_sp p with Some sp => page_set_sp sp temp | None => temp end.

(** The permanent page after the copy back. *)
Definition PageRestoreTempPage (tempPage oldPage : Page Item Sp) : Page Item Sp := tempPage.

(** ** compactify_tuples *)

(** Skipping the tuples that are already in place: the remaining ones, [upper], and the
    entry [itemidptr] points to afterwards. *)
Fixpoint skip_in_place (upper : Z) (ptr : itemIdCompactData) ids
  : Z * itemIdCompactData * list itemIdCompactData :=
  match ids with
  | [] => (upper, ptr, [])
  | c :: ids' =>
      if negb (upper =? itemoff c + alignedlen c) then (upper, c, ids)
      else skip_in_place (upper - alignedlen c) c ids'
  end.

(** Moving the remaining tuples, a run of adjacent ones at a time; [copy] is [memmove]
    within the page or [memcpy] from the scratch area. *)
Fixpoint compact_loop (copy : Z → Z → Z → mem Item → mem Item) ids
    (upper copy_head copy_tail : Z) linp m : result (Z * list ItemIdData * mem Item) :=
  match ids with
  | [] => Ok (upper, linp, copy upper copy_head (copy_tail - copy_head) m)
  | c :: ids =>
      lp ← some_or "line pointer out of range" (linp !! offsetindex c);
      let gap := negb (copy_head =? itemoff c + alignedlen c) in
      let m := if gap then copy upper copy_head (copy_tail - copy_head) m else m in
      let copy_tail := if gap then itemoff c + alignedlen c else copy_tail in
      let upper := upper - alignedlen c in
      compact_loop copy ids upper (itemoff c) copy_tail
        (<[offsetindex c := set_lp_off upper lp]> linp) m
  end.

(** The scratch copy, tuple by tuple. *)
Definition copy_items ids m : mem Item :=
  foldl (λ scratch c, mem_copy (itemoff c) (itemoff c) (alignedlen c) m scratch) ∅ ids.

Definition set_compacted (upper : Z) linp m p : Page Item Sp :=
  {| pd_flags := pd_flags p; pd_lower := pd_lower p; pd_upper := uint16 upper;
     pd_special := pd_special p; pd_pagesize_version := pd_pagesize_version p;
     pd_linp := linp; pd_mem := m; pd_sp := pd_sp p |}.

(** The area [memmove] and [memcpy] read from, the position they start at, and the
    entries left to move. *)
Definition compactify_tuples ids (presorted : bool) p : result (Page Item Sp) :=
  match ids with
  | [] => Err (Undefined "compactify_tuples without items")
  | c0 :: _ =>
      let m := pd_mem p in
      let '(upper, ptr, rest, copy) :=
        if presorted then
          let '(upper, ptr, rest) := skip_in_place (pd_special p) c0 ids in
          (upper, ptr, rest, λ d s n m, mem_copy d s n m m)
        else if Z.of_nat (length ids) <? PageGetMaxOffsetNumber p / 4 then
          (pd_special p, c0, ids, λ d s n m', mem_copy d s n (copy_items ids m) m')
        else
          let '(upper, ptr, rest) := skip_in_place (pd_special p) c0 ids in
          let scratch := mem_copy (pd_upper p) (pd_upper p) (upper - pd_upper p) m ∅ in
          (upper, ptr, rest, λ d s n m', mem_copy d s n scratch m') in
      let head := itemoff ptr + alignedlen ptr in
      '(upper, linp, m) ← compact_loop copy rest upper head head (pd_linp p) m;
      Ok (set_compacted upper linp m p)
  end.

(** ** PageIndexMultiDelete *)

Definition bad_pointers p : bool :=
  corrupted_pointers p || negb (pd_special p =? MAXALIGN (pd_special p)).

(** The loop over the line pointers: what is kept. *)
Record keep_state : Type := mkKeep {
  k_ids : list itemIdCompactData;
  k_new : list ItemIdData;
  k_total : Z;
  k_last : Z;
  k_sorted : bool;
  k_nos : list Z;  (** the offset numbers still to be met *)
}.

Definition keep_step p (offnum : Z) (lp : ItemIdData) (s : keep_state) : result keep_state :=
  let size := lp_len lp in
  let offset := lp_off lp in
  if (offset <? pd_upper p) || (pd_special p <? offset + size) || negb (offset =? MAXALIGN offset)
  then Err (Elog "corrupted line pointer")
  else if match k_nos s with no :: _ => offnum =? no | [] => false end then
    Ok {| k_ids := k_ids s; k_new := k_new s; k_total := k_total s; k_last := k_last s;
          k_sorted := k_sorted s; k_nos := tail (k_nos s) |}
  else if MaxIndexTuplesPerPage <=? zlen (k_ids s) then Err (Undefined "itemidbase overrun")
  else
    Ok {| k_ids := k_ids s ++ [mkCompact (length (k_new s)) offset (MAXALIGN size)];
          k_new := k_new s ++ [lp];
          k_total := k_total s + MAXALIGN size;
          k_last := if offset <? k_last s then offset else k_last s;
          k_sorted := k_sorted s && (offset <? k_last s);
          k_nos := k_nos s |}.

Fixpoint keep_loop p (offnum : Z) (lps : list ItemIdData) (s : keep_state) : result keep_state :=
  match lps with
  | [] => Ok s
  | lp :: lps => s ← keep_step p offnum lp s; keep_loop p (offnum + 1) lps s
  end.

Definition PageIndexMultiDelete p (itemnos : list Z) : result (Page Item Sp) :=
  if zlen itemnos <=? 2 then
    foldr (λ no r, p ← r; PageIndexTupleDelete p no) (Ok p) itemnos
  else if bad_pointers p then Err (Elog "corrupted page pointers")
  else
    s ← keep_loop p FirstOffsetNumber (take (Z.to_nat (PageGetMaxOffsetNumber p)) (pd_linp p))
          (mkKeep [] [] 0 (pd_special p) true itemnos);
    if negb (bool_decide (k_nos s = [])) then Err (Elog "incorrect index offsets supplied")
    else if pd_special p - pd_lower p <? k_total s then Err (Elog "corrupted item lengths")
    else
      let p1 := {| pd_flags := pd_flags p;
                   pd_lower := uint16 (SizeOfPageHeaderData + zlen (k_new s) * sizeof_ItemIdData);
                   pd_upper := pd_upper p; pd_special := pd_special p;
                   pd_pagesize_version := pd_pagesize_version p;
                   pd_linp := k_new s; pd_mem := pd_mem p; pd_sp := pd_sp p |} in
      if 0 <? zlen (k_new s) then compactify_tuples (k_ids s) (k_sorted s) p1
      else Ok (set_compacted (pd_special p) [] (pd_mem p) p1).

(** ** PageIndexTupleDeleteNoCompact and PageIndexTupleOverwrite *)

Definition shift_stored (offset size : Z) (ii : ItemIdData) : ItemIdData :=
  if ItemIdHasStorage ii && (lp_off ii <=? offset) then set_lp_off (lp_off ii + size) ii else ii.

(** The checks both functions start with. *)
Definition checked_item p (offnum : Z) : result ItemIdData :=
  if bad_pointers p then Err (Elog "corrupted page pointers")
  else if (offnum <=? 0) || (PageGetMaxOffsetNumber p <? offnum) then Err (Elog "invalid index offnum")
  else
    tup ← PageGetItemId p offnum;
    if (lp_off tup <? pd_upper p) || (pd_special p <? lp_off tup + lp_len tup) ||
       negb (lp_off tup =? MAXALIGN (lp_off tup))
    then Err (Elog "corrupted line pointer") else Ok tup.

Definition PageIndexTupleDeleteNoCompact p (offnum : Z) : result (Page Item Sp) :=
  tup ← checked_item p offnum;
  let offset := lp_off tup in
  let size := MAXALIGN (lp_len tup) in
  let nline := PageGetMaxOffsetNumber p in
  let '(linp, lower) :=
    if offnum <? nline then (<[Z.to_nat (offnum - 1) := ItemIdSetUnused]> (pd_linp p), pd_lower p)
    else (take (Z.to_nat (nline - 1)) (pd_linp p), uint16 (pd_lower p - sizeof_ItemIdData)) in
  let m := if pd_upper p <? offset
           then mem_copy (pd_upper p + size) (pd_upper p) (offset - pd_upper p) (pd_mem p) (pd_mem p)
           else pd_mem p in
  Ok {| pd_flags := pd_flags p; pd_lower := lower; pd_upper := uint16 (pd_upper p + size);
        pd_special := pd_special p; pd_pagesize_version := pd_pagesize_version p;
        pd_linp := if lower <=? SizeOfPageHeaderData then linp else map (shift_stored offset size) linp;
        pd_mem := m; pd_sp := pd_sp p |}.

(** Returns whether the new tuple fitted. *)
Definition PageIndexTupleOverwrite p (offnum : Z) (newtup : Item) (newsize : Z)
  : result (Page Item Sp * bool) :=
  tupid ← checked_item p offnum;
  let offset := lp_off tupid in
  let oldsize := MAXALIGN (lp_len tupid) in
  let alignednewsize := MAXALIGN newsize in
  if oldsize + (pd_upper p - pd_lower p) <? alignednewsize then Ok (p, false)
  else
    let size_diff := oldsize - alignednewsize in
    let '(upper, linp, m) :=
      if negb (size_diff =? 0) then
        (uint16 (pd_upper p + size_diff), map (shift_stored offset size_diff) (pd_linp p),
         mem_copy (pd_upper p + size_diff) (pd_upper p) (offset - pd_upper p) (pd_mem p) (pd_mem p))
      else (pd_upper p, pd_linp p, pd_mem p) in
    let tupid := {| lp_off := bits15 (offset + size_diff); lp_flags := lp_flags tupid;
                    lp_len := bits15 newsize |} in
    Ok ({| pd_flags := pd_flags p; pd_lower := pd_lower p; pd_upper := upper;
           pd_special := pd_special p; pd_pagesize_version := pd_pagesize_version p;
           pd_linp := <[Z.to_nat (offnum - 1) := tupid]> linp;
           pd_mem := mem_write (lp_off tupid) newsize newtup m; pd_sp := pd_sp p |}, true).

(** ** Heap pages *)

Definition PageSetHasFreeLinePointers p : Page Item Sp :=
  set_page_flags (Z.lor (pd_flags p) PD_HAS_FREE_LINES) p.

Definition set_free_lines (b : bool) p : Page Item Sp :=
  if b then PageSetHasFreeLinePointers p else PageClearHasFreeLinePointers p.

Record repair_state : Type := mkRepair {
  r_ids : list itemIdCompactData;
  r_linp : list ItemIdData;
  r_total : Z;
  r_last : Z;
  r_sorted : bool;
  r_unused : Z;
  r_final : Z;
}.

Definition repair_step p (i : Z) (lp : ItemIdData) (s : repair_state) : result repair_state :=
  if ItemIdIsUsed lp then
    if ItemIdHasStorage lp then
      if (lp_off lp <? pd_upper p) || (pd_special p <=? lp_off lp) then Err (Elog "corrupted line pointer")
      else if MaxHeapTuplesPerPage <=? zlen (r_ids s) then Err (Undefined "itemidbase overrun")
      else
        Ok {| r_ids := r_ids s ++ [mkCompact (Z.to_nat (i - 1)) (lp_off lp) (MAXALIGN (lp_len lp))];
              r_linp := r_linp s ++ [lp];
              r_total := r_total s + MAXALIGN (lp_len lp);
              r_last := if lp_off lp <? r_last s then lp_off lp else r_last s;
              r_sorted := r_sorted s && (lp_off lp <? r_last s);
              r_unused := r_unused s; r_final := i |}
    else
      Ok {| r_ids := r_ids s; r_linp := r_linp s ++ [lp]; r_total := r_total s; r_last := r_last s;
            r_sorted := r_sorted s; r_unused := r_unused s; r_final := i |}
  else
    Ok {| r_ids := r_ids s; r_linp := r_linp s ++ [ItemIdSetUnused]; r_total := r_total s;
          r_last := r_last s; r_sorted := r_sorted s; r_unused := r_unused s + 1; r_final := r_final s |}.

Fixpoint repair_loop p (i : Z) (lps : list ItemIdData) (s : repair_state) : result repair_state :=
  match lps with
  | [] => Ok s
  | lp :: lps => s ← repair_step p i lp s; repair_loop p (i + 1) lps s
  end.

Definition set_linp (lower : Z) linp p : Page Item Sp :=
  {| pd_flags := pd_flags p; pd_lower := uint16 lower; pd_upper := pd_upper p;
     pd_special := pd_special p; pd_pagesize_version := pd_pagesize_version p;
     pd_linp := linp; pd_mem := pd_mem p; pd_sp := pd_sp p |}.

Definition PageRepairFragmentation p : result (Page Item Sp) :=
  if bad_pointers p then Err (Elog "corrupted page pointers")
  else
    let nline := PageGetMaxOffsetNumber p in
    s ← repair_loop p FirstOffsetNumber (pd_linp p)
          (mkRepair [] [] 0 (pd_special p) true 0 InvalidOffsetNumber);
    let p1 := set_linp (pd_lower p) (r_linp s) p in
    p2 ← (if zlen (r_ids s) =? 0 then Ok (set_compacted (pd_special p) (r_linp s) (pd_mem p) p1)
          else if pd_special p - pd_lower p <? r_total s then Err (Elog "corrupted item lengths")
          else compactify_tuples (r_ids s) (r_sorted s) p1);
    let nunusedend := nline - r_final s in
    let '(p3, nunused) :=
      if negb (r_final s =? nline) then
        (set_linp (pd_lower p2 - sizeof_ItemIdData * nunusedend)
           (take (Z.to_nat (r_final s)) (pd_linp p2)) p2, r_unused s - nunusedend)
      else (p2, r_unused s) in
    Ok (set_free_lines (0 <? nunused) p3).

(** The loop of [PageTruncateLinePointerArray], over the line pointers from the last to
    the first: the number of entries to cut off and whether an unused one is left. *)
Fixpoint truncate_loop (lps : list ItemIdData) (countdone : bool) (nunusedend : Z) : Z * bool :=
  match lps with
  | [] => (nunusedend, false)
  | lp :: lps =>
      if negb countdone && negb (bool_decide (lps = [])) then
        if negb (ItemIdIsUsed lp) then truncate_loop lps countdone (nunusedend + 1)
        else truncate_loop lps true nunusedend
      else if negb (ItemIdIsUsed lp) then (nunusedend, true)
      else truncate_loop lps countdone nunusedend
  end.

Definition PageTruncateLinePointerArray p : Page Item Sp :=
  let '(nunusedend, sethint) := truncate_loop (reverse (pd_linp p)) false 0 in
  let p := if 0 <? nunusedend
           then set_linp (pd_lower p - sizeof_ItemIdData * nunusedend)
                  (take (Z.to_nat (PageGetMaxOffsetNumber p - nunusedend)) (pd_linp p)) p
           else p in
  set_free_lines sethint p.

End ops.

(** * Copying *)

Section copy.
Context {Item : Type}.
Implicit Types (m src dst : mem Item).

Lemma mem_copy_moved d s n src dst o len (it : Item) :
  src !! o = Some (len, it) → 0 < len → s ≤ o → o + len ≤ s + n →
  mem_copy d s n src dst !! (o + (d - s)) = Some (len, it).
Proof.
  intros Hm Hl H1 H2. unfold mem_copy. destruct (Z.leb_spec n 0); [lia|].
  apply lookup_union_Some_l. rewrite lookup_kmap_Some by apply _. exists o. split; [done|].
  by apply map_lookup_filter_Some.
Qed.

Lemma mem_copy_keep d s n src dst o len (it : Item) :
  dst !! o = Some (len, it) → 0 < len → cells_positive src → d + n ≤ o ∨ o + len ≤ d →
  mem_copy d s n src dst !! o = Some (len, it).
Proof.
  intros Hm Hl Hpos Ho. unfold mem_copy. destruct (Z.leb_spec n 0); [done|]. rewrite lookup_union_r.
  - apply clobber_lookup_keep; [done|lia].
  - apply eq_None_not_Some. intros [c Hc]. rewrite lookup_kmap_Some in Hc by apply _.
    destruct Hc as (o' & -> & Hf). apply map_lookup_filter_Some in Hf as [Hf Hin].
    apply Hpos in Hf. destruct Hin as [? ?]. cbn in *. lia.
Qed.

Lemma cells_positive_copy d s n src dst :
  cells_positive src → cells_positive dst → cells_positive (mem_copy d s n src dst).
Proof.
  intros Hs Hd. unfold mem_copy. destruct (Z.leb_spec n 0); [done|]. intros o c Hc%lookup_union_Some_raw.
  destruct Hc as [Hc|[_ Hc]].
  - rewrite lookup_kmap_Some in Hc by apply _. destruct Hc as (o' & -> & Hf).
    apply map_lookup_filter_Some in Hf as [Hf _]. eauto.
  - apply map_lookup_filter_Some in Hc as [Hf _]. eauto.
Qed.

Lemma cells_positive_empty : cells_positive (∅ : mem Item).
Proof. intros o c. by rewrite lookup_empty. Qed.

(** * compactify_tuples *)

(** A tuple to keep: its line pointer, where it is, its bytes and contents. *)
Record entry : Type := mkEntry { e_idx : nat; e_off : Z; e_len : Z; e_item : Item }.

Definition alen (e : entry) : Z := MAXALIGN (e_len e).
Definition e_compact (e : entry) : itemIdCompactData := mkCompact (e_idx e) (e_off e) (alen e).
Definition at_off m (f : Z) (e : entry) : Prop := m !! f = Some (e_len e, e_item e).

(** Where the tuples go: one below the other from [upper] down. *)
Fixpoint places (upper : Z) (es : list entry) : list (entry * Z) :=
  match es with [] => [] | e :: es => (e, upper - alen e) :: places (upper - alen e) es end.

Definition point_to (linp : list ItemIdData) (pl : list (entry * Z)) : list ItemIdData :=
  foldl (λ l ef, alter (set_lp_off ef.2) (e_idx ef.1) l) linp pl.

(** Each tuple ends at or before [hi] and below the one before it. *)
Fixpoint descending (hi : Z) (es : list entry) : Prop :=
  match es with [] => True | e :: es => e_off e + alen e ≤ hi ∧ descending (e_off e) es end.

Lemma alen_bounds e : e_len e ≤ alen e.
Proof. apply MAXALIGN_bounds. Qed.

Lemma descending_all hi es : descending hi es → Forall (λ e, 0 < e_len e) es → Forall (λ e, e_off e + alen e ≤ hi) es.
Proof.
  revert hi. induction es as [|e es IH]; intros hi; [constructor|]. intros [He Hd] [Hl HF]%Forall_cons.
  constructor; [done|]. pose proof (alen_bounds e). eapply Forall_impl; [by apply IH|]. cbn. intros; lia.
Qed.

Section compact.
Context (pre : bool) (scratch : mem Item) (Hscr : cells_positive scratch).

(** The area the tuples are read from. *)
Definition source m : mem Item := if pre then m else scratch.
Definition copying (d s n : Z) m : mem Item := mem_copy d s n (source m) m.

Lemma source_positive m : cells_positive m → cells_positive (source m).
Proof. unfold source. by destruct pre. Qed.

Record pending (upper head tail : Z) m (placed pend : list (entry * Z)) (rest : list entry) : Prop := {
  pn_placed : Forall (λ ef, at_off m ef.2 ef.1 ∧ 0 < e_len ef.1 ∧ upper + (tail - head) ≤ ef.2) placed;
  pn_pend : Forall (λ ef, at_off (source m) (e_off ef.1) ef.1 ∧ 0 < e_len ef.1 ∧ head ≤ e_off ef.1 ∧
                     e_off ef.1 + alen ef.1 ≤ tail ∧ ef.2 = e_off ef.1 + (upper - head)) pend;
  pn_tail : head ≤ tail;
  pn_rest : Forall (λ e, at_off (source m) (e_off e) e ∧ 0 < e_len e) rest;
  pn_order : if pre then head ≤ upper ∧ descending head rest else True;
  pn_cells : cells_positive m;
}.

(** Copying the pending run puts it in place. *)
Lemma pending_copy upper head tail m placed pend rest :
  pending upper head tail m placed pend rest →
  let m' := copying upper head (tail - head) m in
  Forall (λ ef, at_off m' ef.2 ef.1 ∧ 0 < e_len ef.1 ∧ upper ≤ ef.2) (placed ++ pend) ∧
  Forall (λ e, at_off (source m') (e_off e) e ∧ 0 < e_len e) rest ∧ cells_positive m'.
Proof.
  intros [H1 H2 H3 H4 H5 H6]. cbv zeta. pose proof (source_positive m H6) as Hsp. split_and!.
  - apply Forall_app. split; (eapply Forall_impl; [eassumption|]).
    + intros [e f] (Hm & Hl & Hf). cbn [fst snd] in *. split_and!; [|done|lia].
      apply mem_copy_keep; [done|done|done|lia].
    + intros [e f] (Hm & Hl & Hh & Ht & ->). cbn [fst snd] in *. pose proof (alen_bounds e). split_and!; [|done|lia].
      apply mem_copy_moved; [done|done|done|lia].
  - destruct pre eqn:Ep; [|unfold source in *; by rewrite Ep in *]. destruct H5 as [Hu Hd].
    assert (HF : Forall (λ e, e_off e + alen e ≤ head) rest).
    { apply descending_all; [done|]. eapply Forall_impl; [exact H4|]. by intros e []. }
    apply Forall_forall. intros e He. rewrite Forall_forall in H4, HF. specialize (H4 e He) as [Hm Hl]. specialize (HF e He).
    cbn in HF. pose proof (alen_bounds e). split; [|done]. unfold source in *. rewrite Ep in *.
    apply mem_copy_keep; [done|done|by unfold source; rewrite Ep|lia].
  - by apply cells_positive_copy.
Qed.

Lemma compact_loop_ok rest : ∀ upper head tail linp m placed pend,
  pending upper head tail m placed pend rest → Forall (λ e, (e_idx e < length linp)%nat) rest →
  ∃ m', compact_loop copying (map e_compact rest) upper head tail linp m =
          Ok (upper - zsum alen rest, point_to linp (places upper rest), m') ∧ cells_positive m' ∧
    Forall (λ ef, at_off m' ef.2 ef.1) (placed ++ pend ++ places upper rest).
Proof.
  induction rest as [|e rest IH]; intros upper head tail linp m placed pend HP Hidx.
  - destruct (pending_copy _ _ _ _ _ _ _ HP) as (H1 & _ & Hc). eexists. cbn [map compact_loop places].
    rewrite app_nil_r. split; [by rewrite Z.sub_0_r|]. split; [done|].
    eapply Forall_impl; [exact H1|]. by intros ef [].
  - apply Forall_cons in Hidx as [Hi Hidx]. cbn [map compact_loop places point_to foldl].
    cbn [e_compact offsetindex itemoff alignedlen]. fold (alen e).
    destruct (lookup_lt_is_Some_2 linp (e_idx e) Hi) as [lp Hlp]. rewrite Hlp. rsimpl.
    assert (Hlin : <[e_idx e := set_lp_off (upper - alen e) lp]> linp = alter (set_lp_off (upper - alen e)) (e_idx e) linp).
    { apply list_eq. intros j. destruct (decide (j = e_idx e)) as [->|].
      - rewrite list_lookup_insert_eq, list_lookup_alter_eq, Hlp by done. done.
      - by rewrite list_lookup_insert_ne, list_lookup_alter_ne by done. }
    rewrite Hlin. set (linp' := alter _ _ linp) in *.
    assert (Hidx' : Forall (λ e, (e_idx e < length linp')%nat) rest) by (unfold linp'; by rewrite length_alter).
    assert (Hz : upper - zsum alen (e :: rest) = upper - alen e - zsum alen rest) by (rewrite zsum_cons; lia).
    rewrite Hz. pose proof (pn_rest _ _ _ _ _ _ _ HP) as [[Hme Hle] Hr]%Forall_cons. pose proof (alen_bounds e).
    destruct (Z.eqb_spec head (e_off e + alen e)) as [E|E]; cbn [negb].
    + destruct (IH (upper - alen e) (e_off e) tail linp' m placed (pend ++ [(e, upper - alen e)])) as (m' & -> & Hc & HF); [|done|].
      * destruct HP as [H1 H2 H3 _ H5 H6]. constructor; try done; [| |lia|].
        -- eapply Forall_impl; [exact H1|]. intros [e' f] (? & ? & ?). cbn in *. split_and!; [done|done|lia].
        -- apply Forall_app. split; [|constructor; [|constructor]; cbn; split_and!; [done|done|lia|lia|lia]].
           eapply Forall_impl; [exact H2|]. intros [e' f] (? & ? & ? & ? & ?). cbn in *. split_and!; [done|done|lia|lia|lia].
        -- destruct pre; [|done]. destruct H5 as [? [? ?]]. split; [lia|done].
      * exists m'. split_and!; [done|done|]. by rewrite <- !app_assoc in HF.
    + destruct (pending_copy _ _ _ _ _ _ _ HP) as (H1 & H4 & Hc1).
      set (m1 := copying upper head (tail - head) m) in *.
      destruct (IH (upper - alen e) (e_off e) (e_off e + alen e) linp' m1 (placed ++ pend) [(e, upper - alen e)])
        as (m' & -> & Hc & HF); [|done|].
      * apply Forall_cons in H4 as [[? ?] H4]. constructor; try done; [| |lia|].
        -- eapply Forall_impl; [exact H1|]. intros [e' f] (? & ? & ?). cbn in *. split_and!; [done|done|lia].
        -- constructor; [|constructor]. cbn. split_and!; [done|done|lia|lia|lia].
        -- destruct pre eqn:Ep; [|done]. pose proof (pn_order _ _ _ _ _ _ _ HP) as H5. rewrite Ep in H5.
           destruct H5 as [? [? ?]]. split; [lia|done].
      * exists m'. split_and!; [done|done|]. by rewrite <- !app_assoc in HF.
Qed.
End compact.

(** ** The tuples already in place *)

Definition disjoint (e e' : entry) : Prop := e_off e + alen e ≤ e_off e' ∨ e_off e' + alen e' ≤ e_off e.

Lemma skip_spec es : ∀ upper c0,
  Forall (λ e, 0 < e_len e ∧ e_off e + alen e ≤ upper) es → ForallOrdPairs disjoint es →
  ∃ done rest ptr,
    skip_in_place upper c0 (map e_compact es) = (upper - zsum alen done, ptr, map e_compact rest) ∧
    es = done ++ rest ∧ places upper es = map (λ e, (e, e_off e)) done ++ places (upper - zsum alen done) rest ∧
    Forall (λ e, upper - zsum alen done ≤ e_off e) done ∧
    Forall (λ e, e_off e + alen e ≤ upper - zsum alen done) rest ∧
    match rest with [] => True | e :: _ => ptr = e_compact e end ∧
    (descending upper es → descending (upper - zsum alen done) rest).
Proof.
  induction es as [|e es IH]; intros upper c0 HF HO.
  - exists [], [], c0. cbn. rewrite Z.sub_0_r. split_and!; done || constructor.
  - apply Forall_cons in HF as [[Hl He] HF]. inversion_clear HO as [|? ? HOe HOs]. rewrite List.Forall_forall in HOe.
    cbn [map skip_in_place]. cbn [e_compact itemoff alignedlen].
    destruct (Z.eqb_spec upper (e_off e + alen e)) as [E|E]; cbn [negb].
    + destruct (IH (upper - alen e) (e_compact e)) as (dn & rest & ptr & -> & -> & Hp & Hd & Hr & Hptr & Hdesc); [|done|].
      { apply Forall_forall. intros e' He'. rewrite Forall_forall in HF. destruct (HF e' He'). split; [done|].
        pose proof (alen_bounds e'). destruct (HOe e') as [?|?]; [by apply list_elem_of_In|lia|lia]. }
      assert (Hn : 0 ≤ zsum alen dn).
      { apply zsum_Forall_nonneg. apply Forall_app in HF as [HF _]. eapply Forall_impl; [exact HF|]. intros x [? ?].
        pose proof (alen_bounds x). lia. }
      exists (e :: dn), rest, ptr. rewrite zsum_cons. replace (upper - (alen e + zsum alen dn)) with (upper - alen e - zsum alen dn) by lia.
      split_and!; try done.
      * cbn [places map app]. rewrite Hp. f_equal. f_equal. lia.
      * constructor; [lia|done].
      * cbn [descending]. intros [_ Hx]. apply Hdesc. by replace (upper - alen e) with (e_off e) by lia.
    + exists [], (e :: es), (e_compact e). cbn [zsum foldr]. rewrite Z.sub_0_r. split_and!; try done.
      constructor; [done|]. eapply Forall_impl; [exact HF|]. by intros x [].
Qed.

Lemma copy_items_ok m es :
  cells_positive m → Forall (λ e, at_off m (e_off e) e ∧ 0 < e_len e) es → ForallOrdPairs disjoint es →
  cells_positive (copy_items (map e_compact es) m) ∧
  Forall (λ e, at_off (copy_items (map e_compact es) m) (e_off e) e ∧ 0 < e_len e) es.
Proof.
  intros Hm HF HO. unfold copy_items.
  assert (HG : ∀ (scr : mem Item) dn, cells_positive scr → Forall (λ e, at_off scr (e_off e) e ∧ 0 < e_len e) dn →
    ForallOrdPairs disjoint es → Forall (λ d, Forall (disjoint d) es) dn →
    cells_positive (foldl (λ scratch c, mem_copy (itemoff c) (itemoff c) (alignedlen c) m scratch) scr (map e_compact es)) ∧
    Forall (λ e, at_off (foldl (λ scratch c, mem_copy (itemoff c) (itemoff c) (alignedlen c) m scratch) scr (map e_compact es)) (e_off e) e
              ∧ 0 < e_len e) (dn ++ es)).
  { clear HO. induction HF as [|e es [He Hl] HF IH]; intros scr dn Hs Hd HO Hdis; [by rewrite app_nil_r|].
    cbn [map foldl e_compact itemoff alignedlen]. inversion_clear HO as [|? ? HOe HOs]. pose proof (alen_bounds e).
    destruct (IH (mem_copy (e_off e) (e_off e) (alen e) m scr) (dn ++ [e])) as [Hc HF'].
    - by apply cells_positive_copy.
    - apply Forall_app. split.
      + apply Forall_forall. intros d Hin. rewrite Forall_forall in Hd, Hdis. destruct (Hd d Hin). split; [|done].
        specialize (Hdis d Hin). apply Forall_cons in Hdis as [[?|?] _]; pose proof (alen_bounds d);
          (apply mem_copy_keep; [done|done|done|lia]).
      + constructor; [|constructor]. split; [|done]. unfold at_off.
        pose proof (mem_copy_moved (e_off e) (e_off e) (alen e) m scr (e_off e) (e_len e) (e_item e)) as Hmv.
        rewrite Z.sub_diag, Z.add_0_r in Hmv. apply Hmv; [done|done|lia|lia].
    - done.
    - apply Forall_app. split.
      + eapply Forall_impl; [exact Hdis|]. by intros d [_ ?]%Forall_cons.
      + by constructor; [|constructor].
    - split; [done|]. by rewrite <- app_assoc in HF'. }
  apply (HG ∅ []); [apply cells_positive_empty|constructor|done|constructor].
Qed.

(** ** The whole routine *)

Record entries_ok (linp : list ItemIdData) (lo hi : Z) m (es : list entry) : Prop := {
  eo_cells : cells_positive m;
  eo_here : Forall (λ e, at_off m (e_off e) e ∧ 0 < e_len e) es;
  eo_range : Forall (λ e, lo ≤ e_off e ∧ e_off e + alen e ≤ hi) es;
  eo_lines : Forall (λ e, lp_off <$> linp !! e_idx e = Some (e_off e)) es;
  eo_apart : ForallOrdPairs disjoint es;
  eo_bounds : 0 ≤ lo ∧ hi ≤ BLCKSZ;
}.

Lemma point_to_here linp es :
  Forall (λ e, lp_off <$> linp !! e_idx e = Some (e_off e) ∧ 0 ≤ e_off e < 2 ^ 15) es →
  point_to linp (map (λ e, (e, e_off e)) es) = linp.
Proof.
  unfold point_to. induction 1 as [|e es [Hl Hb] _ IH]; [done|]. cbn [map foldl fst snd].
  replace (alter (set_lp_off (e_off e)) (e_idx e) linp) with linp; [done|].
  apply list_eq. intros j. destruct (decide (j = e_idx e)) as [->|]; [|by rewrite list_lookup_alter_ne].
  rewrite list_lookup_alter_eq. destruct (linp !! e_idx e) as [a|]; [|done]. cbn [fmap option_fmap option_map] in *. injection Hl as Hl. rewrite <- Hl in *.
  destruct a as [x y z]. unfold set_lp_off. cbn [lp_off lp_flags lp_len] in *. by rewrite bits15_id by lia.
Qed.

Lemma point_to_app linp pl pl' : point_to linp (pl ++ pl') = point_to (point_to linp pl) pl'.
Proof. apply foldl_app. Qed.

Lemma Forall_and_l {A} (P Q : A → Prop) l : Forall P l → Forall Q l → Forall (λ x, P x ∧ Q x) l.
Proof. intros HP HQ. apply Forall_and. done. Qed.

(** Compacting from the position the skipped tuples leave. *)
Lemma compact_rest (pre : bool) scratch linp lo hi m es upper ptr dn rest :
  cells_positive scratch → entries_ok linp lo hi m es → es = dn ++ rest →
  upper = hi - zsum alen dn →
  places hi es = map (λ e, (e, e_off e)) dn ++ places upper rest →
  Forall (λ e, upper ≤ e_off e) dn →
  Forall (λ e, at_off (source pre scratch m) (e_off e) e) rest →
  match rest with [] => True | e :: _ => ptr = e_compact e end →
  (pre = true → descending upper rest) →
  let head := itemoff ptr + alignedlen ptr in
  ∃ m', compact_loop (copying pre scratch) (map e_compact rest) upper head head linp m =
          Ok (hi - zsum alen es, point_to linp (places hi es), m') ∧ cells_positive m' ∧
    Forall (λ ef, at_off m' ef.2 ef.1) (places hi es).
Proof.
  intros Hscr [H1 H2 H3 H4 H5 H6] -> -> Hpl Hdn Hsrc Hptr Hdesc head.
  apply Forall_app in H2 as [H2d H2r], H3 as [H3d H3r], H4 as [H4d H4r].
  assert (Hhere : point_to linp (map (λ e, (e, e_off e)) dn) = linp).
  { apply point_to_here. apply Forall_and_l; [done|]. eapply Forall_impl; [exact (Forall_and_l _ _ _ H2d H3d)|].
    intros e [[_ ?] [? ?]]. pose proof (alen_bounds e). unfold BLCKSZ in *. lia. }
  rewrite Hpl, point_to_app, Hhere, zsum_app, Z.sub_add_distr.
  assert (Hpd : Forall (λ ef : entry * Z, at_off m ef.2 ef.1 ∧ 0 < e_len ef.1 ∧ hi - zsum alen dn + (head - head) ≤ ef.2)
                  (map (λ e, (e, e_off e)) dn)).
  { rewrite Z.sub_diag, Z.add_0_r. apply Forall_map. eapply Forall_impl; [exact (Forall_and_l _ _ _ H2d Hdn)|].
    cbn. by intros e [[? ?] ?]. }
  destruct rest as [|e rest].
  { cbn [map compact_loop places point_to foldl]. eexists. rewrite Z.sub_diag. split; [by rewrite Z.sub_0_r|].
    split; [done|]. rewrite app_nil_r. eapply Forall_impl; [exact Hpd|]. by intros ef []. }
  subst ptr. destruct (compact_loop_ok pre scratch Hscr (e :: rest) (hi - zsum alen dn) head head linp m
    (map (λ e, (e, e_off e)) dn) []) as (m' & -> & Hc & HF).
  - constructor; try done; [|].
    + apply Forall_and_l; [done|]. eapply Forall_impl; [exact H2r|]. by intros x [].
    + destruct pre; [|done]. specialize (Hdesc eq_refl). cbn [descending] in *. unfold head. cbn [e_compact itemoff alignedlen].
      destruct Hdesc. split; [done|]. split; [lia|done].
  - eapply Forall_impl; [exact H4r|]. intros x Hx.
    apply fmap_Some in Hx as (a & Ha & _). by eapply lookup_lt_Some.
  - exists m'. done.
Qed.

End copy.
Arguments entry : clear implicits.

Section whole.
Context {Item Sp : Type}.
Implicit Types (p : Page Item Sp) (es : list (entry Item)).

Lemma compactify_ok p es presorted :
  entries_ok (pd_linp p) (pd_upper p) (pd_special p) (pd_mem p) es → es ≠ [] →
  (presorted = true → descending (pd_special p) es) →
  ∃ m', compactify_tuples (map e_compact es) presorted p =
          Ok (set_compacted (pd_special p - zsum alen es)
                (point_to (pd_linp p) (places (pd_special p) es)) m' p) ∧
    cells_positive m' ∧ Forall (λ ef, at_off m' ef.2 ef.1) (places (pd_special p) es).
Proof.
  intros Hok Hne Hpre. pose proof Hok as [H1 H2 H3 H4 H5 H6].
  assert (HF : Forall (λ e, 0 < e_len e ∧ e_off e + alen e ≤ pd_special p) es).
  { eapply Forall_impl; [exact (Forall_and_l _ _ _ H2 H3)|]. by intros e [[] []]. }
  assert (HE : ∃ c0, match map e_compact es with [] => None | c :: _ => Some c end = Some c0 ∧
    (match es with [] => True | e :: _ => c0 = e_compact e end)) by (destruct es; [done|cbn; eauto]).
  destruct HE as (c0 & HE & Hc0). unfold compactify_tuples.
  destruct (map e_compact es) as [|c ids] eqn:Eids; [done|]. injection HE as ->. rewrite <- Eids. clear Eids.
  destruct (skip_spec es (pd_special p) c0 HF H5) as (dn & rest & ptr & Hskip & Hes & Hpl & Hdn & Hrest & Hptr & Hdesc).
  assert (H2r : Forall (λ e, at_off (pd_mem p) (e_off e) e ∧ 0 < e_len e) rest) by (rewrite Hes in H2; by apply Forall_app in H2 as [_ ?]).
  destruct presorted.
  - rewrite Hskip.
    destruct (compact_rest true ∅ _ _ _ _ _ _ ptr dn rest cells_positive_empty Hok Hes eq_refl Hpl Hdn) as (m' & He & ?).
    + eapply Forall_impl; [exact H2r|]. by intros x [].
    + done.
    + auto.
    + exists m'. split; [|done]. unfold copying, source in He. rewrite He. done.
  - destruct (Z.of_nat (length (map e_compact es)) <? PageGetMaxOffsetNumber p / 4).
    + destruct (copy_items_ok (pd_mem p) es H1 H2 H5) as [Hcp Hci].
      destruct (compact_rest false (copy_items (map e_compact es) (pd_mem p)) _ _ _ _ es (pd_special p) c0 [] es Hcp Hok)
        as (m' & He & ?); try done.
      * cbn [zsum foldr]. lia.
      * eapply Forall_impl; [exact Hci|]. by intros x [].
      * exists m'. split; [|done]. unfold copying, source in He. rewrite He. done.
    + rewrite Hskip. set (scr := mem_copy (pd_upper p) (pd_upper p) _ (pd_mem p) ∅).
      assert (Hscr : cells_positive scr) by (apply cells_positive_copy; [done|apply cells_positive_empty]).
      destruct (compact_rest false scr _ _ _ _ _ _ ptr dn rest Hscr Hok Hes eq_refl Hpl Hdn) as (m' & He & ?); try done.
      * apply Forall_forall. intros e Hin. rewrite Forall_forall in H2r, Hrest. destruct (H2r e Hin) as [Hm Hl].
        specialize (Hrest e Hin). cbn in Hrest. pose proof (alen_bounds e). unfold at_off, source, scr.
        pose proof (mem_copy_moved (pd_upper p) (pd_upper p) (pd_special p - zsum alen dn - pd_upper p) (pd_mem p) ∅ (e_off e) (e_len e) (e_item e)) as Hmv.
        rewrite Z.sub_diag, Z.add_0_r in Hmv. apply Hmv; [done|done| |lia].
        rewrite Hes in H3. apply Forall_app in H3 as [_ H3]. rewrite Forall_forall in H3. by apply H3.
      * exists m'. split; [|done]. unfold copying, source in He. rewrite He. done.
Qed.

(** ** The page afterwards *)

(** The new offset of each line pointer that was moved. *)
Definition new_offs (hi : Z) es : gmap nat Z := list_to_map (map (λ ef, (e_idx ef.1, ef.2)) (places hi es)).

Lemma places_entries hi es : (places hi es).*1 = es.
Proof. revert hi. induction es as [|e es IH]; intros hi; [done|]. cbn. by rewrite <- (IH (hi - alen e)) at 2. Qed.

Lemma places_bounds hi es ef :
  Forall (λ e, 0 < e_len e) es → hi mod 8 = 0 → ef ∈ places hi es →
  hi - zsum alen es ≤ ef.2 ∧ ef.2 + alen ef.1 ≤ hi ∧ ef.2 mod 8 = 0.
Proof.
  intros Hl. revert hi. induction Hl as [|e es Hl HF IH]; intros hi Hhi Hef; [by apply elem_of_nil in Hef|].
  pose proof (alen_bounds e). rewrite zsum_cons.
  assert (Hm : (hi - alen e) mod 8 = 0) by (apply mod8_sub; [done|apply MAXALIGN_mult]).
  assert (0 ≤ zsum alen es).
  { apply zsum_Forall_nonneg. eapply Forall_impl; [exact HF|]. intros x ?. pose proof (alen_bounds x). cbn in *. lia. }
  cbn [places] in Hef. apply elem_of_cons in Hef as [->|Hef]; cbn [fst snd]; [lia|].
  destruct (IH _ Hm Hef) as (? & ? & ?). lia.
Qed.

Lemma places_apart hi es :
  Forall (λ e, 0 < e_len e) es → ForallOrdPairs (λ a b, b.2 + alen b.1 ≤ a.2) (places hi es).
Proof.
  intros Hl. revert hi. induction Hl as [|e es Hl HF IH]; intros hi; constructor; [|apply IH].
  clear -HF. cbn [fst snd]. generalize (hi - alen e). intros top.
  assert (HG : ∀ t, t ≤ top → List.Forall (λ b, b.2 + alen b.1 ≤ top) (places t es)); [|by apply HG].
  induction HF as [|x es Hx HF IH]; intros t Ht; constructor; cbn [fst snd]; [lia|].
  apply IH. pose proof (alen_bounds x). lia.
Qed.

Lemma places_idx hi es : (map (λ ef, (e_idx ef.1, ef.2)) (places hi es)).*1 = map e_idx es.
Proof. revert hi. induction es as [|e es IH]; intros hi; [done|]. cbn. f_equal. apply IH. Qed.

Lemma new_offs_None hi es i : i ∉ map e_idx es → new_offs hi es !! i = None.
Proof.
  intros Hi. apply not_elem_of_list_to_map. by rewrite places_idx.
Qed.

Lemma new_offs_Some hi es e f :
  NoDup (map e_idx es) → (e, f) ∈ places hi es → new_offs hi es !! e_idx e = Some f.
Proof.
  intros Hnd Hin. apply elem_of_list_to_map.
  - by rewrite places_idx.
  - apply list_elem_of_fmap. by exists (e, f).
Qed.

Lemma point_to_lookup linp hi es i :
  NoDup (map e_idx es) →
  point_to linp (places hi es) !! i =
  (λ lp, match new_offs hi es !! i with Some f => set_lp_off f lp | None => lp end) <$> linp !! i.
Proof.
  revert hi linp. induction es as [|e es IH]; intros hi linp Hnd.
  - cbn. by destruct (linp !! i).
  - inversion_clear Hnd as [|? ? Hne Hnd']. cbn [places point_to foldl fst snd]. fold (point_to (alter (set_lp_off (hi - alen e)) (e_idx e) linp) (places (hi - alen e) es)).
    rewrite IH by done.
    assert (Hno : new_offs hi (e :: es) = <[e_idx e := hi - alen e]> (new_offs (hi - alen e) es)) by done.
    rewrite Hno. destruct (decide (i = e_idx e)) as [->|Hi].
    + rewrite (new_offs_None (hi - alen e) es (e_idx e)) by done. rewrite lookup_insert_eq, list_lookup_alter_eq. by destruct (linp !! e_idx e).
    + by rewrite lookup_insert_ne, list_lookup_alter_ne by done.
Qed.

(** What [compactify_tuples] leaves: the tuples [es] packed at the end of the page, their
    line pointers pointing there and everything else as it was. *)
Record packed p p' es : Prop := {
  pk_upper : pd_upper p' = pd_special p - zsum alen es;
  pk_lower : pd_lower p' = pd_lower p;
  pk_special : pd_special p' = pd_special p;
  pk_flags : pd_flags p' = pd_flags p;
  pk_sp : pd_sp p' = pd_sp p;
  pk_cells : cells_positive (pd_mem p');
  pk_linp : pd_linp p' = point_to (pd_linp p) (places (pd_special p) es);
  pk_here : Forall (λ ef, at_off (pd_mem p') ef.2 ef.1) (places (pd_special p) es);
}.

Lemma zsum_alen_range p es :
  entries_ok (pd_linp p) (pd_upper p) (pd_special p) (pd_mem p) es →
  zsum alen es ≤ pd_special p - pd_lower p → 0 ≤ pd_lower p → 0 ≤ pd_special p - zsum alen es < 2 ^ 16.
Proof.
  intros [_ H2 _ _ _ [? ?]] ? ?. unfold BLCKSZ in *.
  assert (0 ≤ zsum alen es); [|lia]. apply zsum_Forall_nonneg. eapply Forall_impl; [exact H2|].
  intros e [_ ?]. pose proof (alen_bounds e). lia.
Qed.

Lemma compactify_packed p es presorted :
  entries_ok (pd_linp p) (pd_upper p) (pd_special p) (pd_mem p) es → es ≠ [] →
  zsum alen es ≤ pd_special p - pd_lower p → 0 ≤ pd_lower p →
  (presorted = true → descending (pd_special p) es) →
  ∃ p', compactify_tuples (map e_compact es) presorted p = Ok p' ∧ packed p p' es.
Proof.
  intros Hok Hne Hz Hl Hd. pose proof (zsum_alen_range p es Hok Hz Hl).
  destruct (compactify_ok p es presorted Hok Hne Hd) as (m' & -> & Hc & Hm).
  eexists. split; [done|]. constructor; try done. cbn. by rewrite uint16_id.
Qed.

End whole.
