(* ===== verification/PageOps.v ===== *)
(** bufpage.c: what deleting several tuples, overwriting a tuple and repairing a page do to
    the tuples a page holds.  The definitions are in Compact.v. *)

From S2P Require Import Prelude Bufpage Itup Compact.

(** * Lists *)

Lemma ForallOrdPairs_lookup {A} (R : A → A → Prop) l :
  ForallOrdPairs R l ↔ ∀ i j x y, (i < j)%nat → l !! i = Some x → l !! j = Some y → R x y.
Proof.
  split.
  - induction 1 as [|a l Ha HO IH]; intros i j x y Hij Hx Hy; [done|].
    destruct j as [|j]; [lia|]. destruct i as [|i]; cbn in *.
    + simplify_eq. rewrite List.Forall_forall in Ha. apply Ha, list_elem_of_In, list_elem_of_lookup. eauto.
    + eapply (IH i j); [lia|done|done].
  - induction l as [|a l IH]; intros H; constructor.
    + apply List.Forall_forall. intros y [j Hj]%list_elem_of_In%list_elem_of_lookup. apply (H 0%nat (S j)); [lia|done|done].
    + apply IH. intros i j x y Hij Hx Hy. apply (H (S i) (S j)); [lia|done|done].
Qed.

Lemma Forall_choose {A B} (R : A → B → Prop) l : Forall (λ x, ∃ y, R x y) l → ∃ k, Forall2 R l k.
Proof.
  induction 1 as [|x l [y Hy] _ [k Hk]]; [exists []; constructor|]. exists (y :: k). by constructor.
Qed.

(** * Storage *)

(** The line pointers with storage point to aligned tuples between [lo] and [hi] that do
    not overlap. *)
Record stored {Item} (lo hi : Z) (m : mem Item) (a : ItemIdData) : Prop := {
  sd_pos : 0 < lp_len a;
  sd_lower : lo ≤ lp_off a;
  sd_upper : lp_off a + MAXALIGN (lp_len a) ≤ hi;
  sd_align : lp_off a mod 8 = 0;
  sd_mem : ∃ it, m !! lp_off a = Some (lp_len a, it);
}.

Record storage_ok {Item} (linp : list ItemIdData) (lo hi : Z) (m : mem Item) : Prop := {
  so_at : ∀ i a, linp !! i = Some a → ItemIdHasStorage a = true → stored lo hi m a;
  so_apart : ∀ i j a b, linp !! i = Some a → linp !! j = Some b → i ≠ j →
    ItemIdHasStorage a = true → ItemIdHasStorage b = true → apart a b;
  so_cells : cells_positive m;
}.

Abbreviation page_storage p := (storage_ok (pd_linp p) (pd_upper p) (pd_special p) (pd_mem p)).

(** [a] on [p] and [b] on [p'] are the same line pointer to the same tuple, wherever it is. *)
Record same_line {Item} (m m' : mem Item) (a b : ItemIdData) : Prop := {
  sl_flags : lp_flags b = lp_flags a;
  sl_len : lp_len b = lp_len a;
  sl_tuple : ItemIdHasStorage a = true → m' !! lp_off b = m !! lp_off a;
  sl_none : ItemIdHasStorage a = false → b = a;
}.

(** The line pointers to compact: their numbers and what they say. *)
Definition compact_ids (xs : list (nat * ItemIdData)) : list itemIdCompactData :=
  map (λ x, mkCompact x.1 (lp_off x.2) (MAXALIGN (lp_len x.2))) xs.

Fixpoint falls (hi : Z) (lps : list ItemIdData) : Prop :=
  match lps with [] => True | a :: lps => lp_off a < hi ∧ falls (lp_off a) lps end.

Definition last_off (hi : Z) (lps : list ItemIdData) : Z := default hi (lp_off <$> last lps).

Lemma falls_snoc hi lps a : falls hi (lps ++ [a]) ↔ falls hi lps ∧ lp_off a < last_off hi lps.
Proof.
  unfold last_off. revert hi. induction lps as [|b lps IH]; intros hi; [cbn; tauto|]. cbn [app falls]. rewrite IH.
  destruct lps as [|c lps]; [cbn; tauto|]. rewrite last_cons_cons. destruct (last_is_Some (c :: lps)) as [_ [x ->]]; [done|].
  cbn. tauto.
Qed.

Lemma last_off_snoc hi lps a : last_off hi (lps ++ [a]) = lp_off a.
Proof. unfold last_off. by rewrite last_snoc. Qed.

Section compacting.
Context {Item Sp : Type}.
Implicit Types (p : Page Item Sp) (xs : list (nat * ItemIdData)) (es : list (entry Item)).

Record chosen p xs : Prop := {
  ch_lines : Forall (λ x, pd_linp p !! x.1 = Some x.2 ∧ ItemIdHasStorage x.2 = true) xs;
  ch_nodup : NoDup xs.*1;
  ch_all : ∀ i a, pd_linp p !! i = Some a → ItemIdHasStorage a = true → i ∈ xs.*1;
}.

Definition entry_of p (x : nat * ItemIdData) (e : entry Item) : Prop :=
  e_idx e = x.1 ∧ e_off e = lp_off x.2 ∧ e_len e = lp_len x.2 ∧ at_off (pd_mem p) (e_off e) e.

Lemma chosen_entries p xs : page_storage p → chosen p xs → ∃ es, Forall2 (entry_of p) xs es.
Proof.
  intros Hs Hc. apply Forall_choose. eapply Forall_impl; [apply Hc|]. intros [i a] [Hi Ha]. cbn in *.
  destruct (sd_mem _ _ _ _ (so_at _ _ _ _ Hs i a Hi Ha)) as [it Hit].
  exists (mkEntry i (lp_off a) (lp_len a) it). done.
Qed.

Section entries.
Context p xs es (Hst : page_storage p) (Hch : chosen p xs) (Hes : Forall2 (entry_of p) xs es).

Lemma entries_compact : compact_ids xs = map e_compact es.
Proof.
  clear Hch. induction Hes as [|x e xs' es' (H1 & H2 & H3 & _) Hr IH]; [done|]. specialize (IH Hr).
  unfold compact_ids in *. cbn [map]. f_equal; [|exact IH]. unfold e_compact, alen. congruence.
Qed.

Lemma entries_idx : map e_idx es = xs.*1.
Proof. clear Hch. induction Hes as [|x e xs' es' (H1 & _) Hr IH]; [done|]. specialize (IH Hr). cbn. by rewrite IH, H1. Qed.

Lemma entries_sum : zsum alen es = zsum (λ x, MAXALIGN (lp_len x.2)) xs.
Proof.
  clear Hch. induction Hes as [|x e xs' es' (_ & _ & H3 & _) Hr IH]; [done|]. specialize (IH Hr). rewrite !zsum_cons, IH. unfold alen. by rewrite H3.
Qed.

(** What an entry stands for. *)
Lemma entry_line e : e ∈ es → ∃ a, pd_linp p !! e_idx e = Some a ∧ ItemIdHasStorage a = true ∧
  e_off e = lp_off a ∧ e_len e = lp_len a ∧ at_off (pd_mem p) (e_off e) e ∧ stored (pd_upper p) (pd_special p) (pd_mem p) a.
Proof.
  intros [k Hk]%list_elem_of_lookup. destruct (Forall2_lookup_r _ _ _ _ _ Hes Hk) as ([i a] & Hx & Hi & Ho & Hl & Hm).
  cbn in *. pose proof (ch_lines _ _ Hch) as HF. rewrite Forall_lookup in HF. destruct (HF k _ Hx) as [Hp Ha]. cbn in *.
  exists a. rewrite Hi. split_and!; try done. by eapply so_at.
Qed.

Lemma entries_positive : Forall (λ e, 0 < e_len e) es.
Proof. apply Forall_forall. intros e (a & _ & _ & _ & -> & _ & Hs)%entry_line. apply Hs. Qed.

Lemma entries_apart : ForallOrdPairs disjoint es.
Proof.
  apply ForallOrdPairs_lookup. intros k l e e' Hkl Hk Hl.
  destruct (entry_line e) as (a & Ha & Hsa & Hoa & Hla & _ & _); [by eapply list_elem_of_lookup_2|].
  destruct (entry_line e') as (b & Hb & Hsb & Hob & Hlb & _ & _); [by eapply list_elem_of_lookup_2|].
  unfold disjoint, alen. rewrite Hoa, Hob, Hla, Hlb. apply (so_apart _ _ _ _ Hst _ _ _ _ Ha Hb); [|done|done].
  intros E. pose proof (ch_nodup _ _ Hch) as Hnd. rewrite <- entries_idx in Hnd.
  assert (k = l); [|lia]. apply (NoDup_lookup _ _ _ (e_idx e) Hnd).
  - by rewrite list_lookup_fmap, Hk.
  - by rewrite list_lookup_fmap, Hl, E.
Qed.

Lemma entries_okay : 0 ≤ pd_upper p → pd_special p ≤ BLCKSZ →
  entries_ok (pd_linp p) (pd_upper p) (pd_special p) (pd_mem p) es.
Proof.
  intros. constructor; [apply Hst| | | |apply entries_apart|done].
  - apply Forall_forall. intros e He. destruct (entry_line e He) as (a & _ & _ & _ & -> & ? & Hs). split; [done|apply Hs].
  - apply Forall_forall. intros e He. destruct (entry_line e He) as (a & _ & _ & -> & El & _ & Hs). unfold alen. rewrite El.
    split; apply Hs.
  - apply Forall_forall. intros e He. destruct (entry_line e He) as (a & -> & _ & -> & _). done.
Qed.

Lemma entries_descending : falls (pd_special p) xs.*2 → descending (pd_special p) es.
Proof.
  intros Hf.
  assert (HG : ∀ hi, (∀ e, e ∈ es → e_off e < hi → e_off e + alen e ≤ hi) → falls hi xs.*2 → descending hi es);
    [|apply HG; [|done]; intros e He _; destruct (entry_line e He) as (a & _ & _ & -> & El & _ & Hs); unfold alen; rewrite El; apply Hs].
  pose proof entries_apart as HO. pose proof entries_positive as HP. clear Hf Hch. revert HO HP.
  induction Hes as [|x e xs' es' (H1 & H2 & _) Hr IH]; intros HO HP hi Hhi Hf; [done|]. specialize (IH Hr).
  cbn in *. destruct Hf as [Hx Hf]. rewrite <- H2 in *. split; [apply Hhi; [left|done]|].
  inversion_clear HO as [|? ? HOe HOs]. rewrite List.Forall_forall in HOe. apply Forall_cons in HP as [Hp HP]. apply IH; try done.
  intros e' He' Hlt. destruct (HOe e') as [?|?]; [by apply list_elem_of_In| |done]. pose proof (alen_bounds e). lia.
Qed.
End entries.

(** What [compactify_tuples] does to the lines of a page. *)
Record compacted p p' xs : Prop := {
  cd_upper : pd_upper p' = pd_special p - zsum (λ x, MAXALIGN (lp_len x.2)) xs;
  cd_lower : pd_lower p' = pd_lower p;
  cd_special : pd_special p' = pd_special p;
  cd_flags : pd_flags p' = pd_flags p;
  cd_sp : pd_sp p' = pd_sp p;
  cd_storage : page_storage p';
  cd_lines : Forall2 (same_line (pd_mem p) (pd_mem p')) (pd_linp p) (pd_linp p');
}.

Lemma length_point_to linp (pl : list (entry Item * Z)) : length (point_to linp pl) = length linp.
Proof. revert linp. induction pl as [|x pl IH]; intros l; [done|]. etransitivity; [apply IH|apply length_alter]. Qed.

Section moved.
Context p p' xs es (Hst : page_storage p) (Hch : chosen p xs) (Hes : Forall2 (entry_of p) xs es).
Context (Hup : 0 ≤ pd_lower p ≤ pd_upper p) (Hsp : pd_special p ≤ BLCKSZ) (Hal : pd_special p mod 8 = 0).
Context (Hfit : zsum (λ x, MAXALIGN (lp_len x.2)) xs ≤ pd_special p - pd_lower p) (Hpk : packed p p' es).

Lemma moved_idx : NoDup (map e_idx es).
Proof. rewrite (entries_idx p xs es Hes). apply Hch. Qed.

Lemma moved_line i a : pd_linp p !! i = Some a → ItemIdHasStorage a = true →
  ∃ e f, (e, f) ∈ places (pd_special p) es ∧ e_idx e = i ∧ alen e = MAXALIGN (lp_len a) ∧ 0 < lp_len a ∧
    pd_linp p' !! i = Some (mkItemId f (lp_flags a) (lp_len a)) ∧
    pd_upper p' ≤ f ∧ f + MAXALIGN (lp_len a) ≤ pd_special p ∧ f mod 8 = 0 ∧
    pd_mem p' !! f = Some (lp_len a, e_item e) ∧ pd_mem p !! lp_off a = Some (lp_len a, e_item e).
Proof.
  intros Hi Ha. pose proof (ch_all _ _ Hch i a Hi Ha) as Hin. rewrite <- (entries_idx p xs es Hes) in Hin.
  apply list_elem_of_In, in_map_iff in Hin as (e & <- & He%list_elem_of_In).
  destruct (entry_line p xs es Hst Hch Hes e He) as (a' & Ha' & _ & Ho & Hl & Hm & Hs). simplify_eq.
  rewrite <- (places_entries (pd_special p) es) in He. apply list_elem_of_fmap in He as ([e' f] & -> & Hp). cbn [fst] in *.
  pose proof (places_bounds _ _ _ (entries_positive p xs es Hst Hch Hes) Hal Hp) as (H1 & H2 & H3). cbn [fst snd] in *.
  rewrite (entries_sum p xs es Hes) in H1. pose proof (alen_bounds e'). pose proof (sd_pos _ _ _ _ Hs).
  assert (Hae : alen e' = MAXALIGN (lp_len a)) by (unfold alen; by rewrite Hl).
  exists e', f. split_and!; try done; try lia.
  - rewrite (pk_linp _ _ _ Hpk), point_to_lookup, Hi, (new_offs_Some _ _ e' f moved_idx Hp) by apply moved_idx.
    cbn. unfold set_lp_off. rewrite bits15_id by (unfold BLCKSZ in *; lia). done.
  - rewrite (pk_upper _ _ _ Hpk), (entries_sum p xs es Hes). lia.
  - pose proof (pk_here _ _ _ Hpk) as HF. rewrite Forall_forall in HF. specialize (HF _ Hp). unfold at_off in HF. cbn in HF. by rewrite <- Hl.
  - unfold at_off in Hm. by rewrite <- Ho, <- Hl.
Qed.

Lemma kept_line i a : pd_linp p !! i = Some a → ItemIdHasStorage a = false → pd_linp p' !! i = Some a.
Proof.
  intros Hi Ha. rewrite (pk_linp _ _ _ Hpk), point_to_lookup, Hi by apply moved_idx.
  rewrite new_offs_None; [done|]. rewrite (entries_idx p xs es Hes). intros ([j b] & -> & Hx)%list_elem_of_fmap.
  pose proof (ch_lines _ _ Hch) as HF. rewrite Forall_forall in HF. destruct (HF _ Hx). cbn in *. congruence.
Qed.

Lemma moved_from j b : pd_linp p' !! j = Some b →
  ∃ a, pd_linp p !! j = Some a ∧ (ItemIdHasStorage b = ItemIdHasStorage a).
Proof.
  intros Hb. destruct (pd_linp p !! j) as [a|] eqn:Ha.
  - exists a. split; [done|]. destruct (ItemIdHasStorage a) eqn:Es.
    + destruct (moved_line j a Ha Es) as (e & f & _ & _ & _ & _ & Hb' & _). simplify_eq. done.
    + pose proof (kept_line j a Ha Es). by simplify_eq.
  - rewrite (pk_linp _ _ _ Hpk), point_to_lookup, Ha in Hb by apply moved_idx. done.
Qed.

Lemma moved_apart i j a b : pd_linp p' !! i = Some a → pd_linp p' !! j = Some b → i ≠ j →
  ItemIdHasStorage a = true → ItemIdHasStorage b = true → apart a b.
Proof.
  intros Ha Hb Hij Hsa Hsb. destruct (moved_from i a Ha) as (a0 & Ha0 & Ea), (moved_from j b Hb) as (b0 & Hb0 & Eb).
  rewrite Hsa in Ea. rewrite Hsb in Eb. symmetry in Ea, Eb.
  destruct (moved_line i a0 Ha0 Ea) as (e & f & Hp & Hi & He & _ & Hl & _).
  destruct (moved_line j b0 Hb0 Eb) as (e' & f' & Hp' & Hj & He' & _ & Hl' & _).
  simplify_eq. unfold apart. cbn [lp_off lp_len].
  pose proof (proj1 (ForallOrdPairs_lookup _ _) (places_apart (pd_special p) es (entries_positive p xs es Hst Hch Hes))) as HO.
  apply list_elem_of_lookup in Hp as [k Hk], Hp' as [l Hl2].
  destruct (lt_eq_lt_dec k l) as [[Hkl| ->]|Hkl].
  - specialize (HO _ _ _ _ Hkl Hk Hl2). cbn in HO. lia.
  - simplify_eq.
  - specialize (HO _ _ _ _ Hkl Hl2 Hk). cbn in HO. lia.
Qed.

Lemma packed_compacted : compacted p p' xs.
Proof.
  constructor; try apply Hpk.
  - by rewrite (pk_upper _ _ _ Hpk), (entries_sum p xs es Hes).
  - constructor; [|apply moved_apart|apply Hpk]. intros j b Hb Hs.
    destruct (moved_from j b Hb) as (a & Ha & E). rewrite Hs in E. symmetry in E.
    destruct (moved_line j a Ha E) as (e & f & _ & _ & _ & ? & Hl & ? & ? & ? & ? & _). simplify_eq.
    rewrite (pk_special _ _ _ Hpk). constructor; cbn; eauto.
  - apply Forall2_same_length_lookup_2.
    + by rewrite (pk_linp _ _ _ Hpk), length_point_to.
    + intros i a b Ha Hb. destruct (ItemIdHasStorage a) eqn:Es.
      * destruct (moved_line i a Ha Es) as (e & f & _ & _ & _ & _ & Hl & _ & _ & _ & Hm & Hm'). simplify_eq. constructor; cbn; [done|done| |].
        -- intros _. by rewrite Hm, Hm'.
        -- by rewrite Es.
      * pose proof (kept_line i a Ha Es). simplify_eq. constructor; [done|done| |done]. by rewrite Es.
Qed.
End moved.

Lemma compactify_lines p xs presorted :
  page_storage p → chosen p xs → xs ≠ [] → 0 ≤ pd_lower p ≤ pd_upper p → pd_special p ≤ BLCKSZ → pd_special p mod 8 = 0 →
  zsum (λ x, MAXALIGN (lp_len x.2)) xs ≤ pd_special p - pd_lower p →
  (presorted = true → falls (pd_special p) xs.*2) →
  ∃ p', compactify_tuples (compact_ids xs) presorted p = Ok p' ∧ compacted p p' xs.
Proof.
  intros Hst Hch Hne Hup Hsp Hal Hfit Hsort. destruct (chosen_entries p xs Hst Hch) as [es Hes].
  rewrite (entries_compact p xs es Hes).
  destruct (compactify_packed p es presorted) as (p' & -> & Hpk).
  - apply (entries_okay p xs es); [done|done|done|lia|done].
  - intros ->. apply Forall2_nil_inv_r in Hes. done.
  - by rewrite (entries_sum p xs es Hes).
  - lia.
  - intros E. apply (entries_descending p xs es); auto.
  - exists p'. split; [done|]. by apply (packed_compacted p p' xs es).
Qed.

End compacting.

(** * Deleting several tuples *)

(** The elements whose numbers, counted from [off], are not in [nos]. *)
Fixpoint drop_nos {A} (off : Z) (nos : list Z) (l : list A) : list A :=
  match l with
  | [] => []
  | x :: l => if bool_decide (off ∈ nos) then drop_nos (off + 1) nos l else x :: drop_nos (off + 1) nos l
  end.

(** The numbers are increasing and each is one of the [n] from [off]. *)
Fixpoint ascending (off n : Z) (nos : list Z) : Prop :=
  match nos with [] => True | no :: nos => off ≤ no < off + n ∧ ascending (no + 1) (n - (no + 1 - off)) nos end.

Lemma ascending_all off n nos : ascending off n nos → Forall (λ no, off ≤ no < off + n) nos.
Proof.
  revert off n. induction nos as [|no nos IH]; intros off n; [constructor|]. intros [H1 H2]. constructor; [done|].
  eapply Forall_impl; [exact (IH _ _ H2)|]. cbn. lia.
Qed.

Lemma drop_nos_past {A} off nos (l : list A) : Forall (λ no, no < off ∨ off + zlen l ≤ no) nos → drop_nos off nos l = l.
Proof.
  revert off. induction l as [|x l IH]; intros off HF; [done|]. cbn [drop_nos]. rewrite Forall_forall in HF.
  rewrite bool_decide_eq_false_2.
  - f_equal. apply IH, Forall_forall. intros no Hno. specialize (HF no Hno). unfold zlen in *. cbn in HF. lia.
  - intros Hin. specialize (HF off Hin). unfold zlen in HF. cbn in HF. lia.
Qed.

Lemma drop_nos_skip {A} off no nos (l : list A) : no < off → drop_nos off (no :: nos) l = drop_nos off nos l.
Proof.
  revert off. induction l as [|x l IH]; intros off Hno; [done|]. cbn [drop_nos]. rewrite IH by lia.
  destruct (decide (off ∈ nos)).
  - by rewrite !bool_decide_eq_true_2 by set_solver.
  - rewrite !bool_decide_eq_false_2; [done|done|]. intros [?|?]%elem_of_cons; [lia|done].
Qed.

(** Dropping the first of the numbers last is deleting at its position. *)
Lemma drop_nos_delete {A} off no nos (l : list A) :
  off ≤ no < off + zlen l → Forall (λ n, no < n) nos →
  drop_nos off (no :: nos) l = delete (Z.to_nat (no - off)) (drop_nos off nos l) ∧
  drop_nos off nos l !! Z.to_nat (no - off) = l !! Z.to_nat (no - off).
Proof.
  revert off. induction l as [|x l IH]; intros off Hno HF; [unfold zlen in Hno; cbn in Hno; lia|].
  assert (Hx : off ∉ nos) by (intros Hin; rewrite Forall_forall in HF; specialize (HF off Hin); cbn in HF; lia).
  cbn [drop_nos]. rewrite (bool_decide_eq_false_2 (off ∈ nos)) by done.
  destruct (decide (off = no)) as [->|Hne].
  - rewrite bool_decide_eq_true_2 by (by left). rewrite Z.sub_diag. cbn. split; [|done].
    apply drop_nos_skip. lia.
  - rewrite bool_decide_eq_false_2 by (intros [?|?]%elem_of_cons; [lia|done]).
    replace (Z.to_nat (no - off)) with (S (Z.to_nat (no - (off + 1)))) by lia. cbn.
    destruct (IH (off + 1)) as [Hd Hl]; [unfold zlen in *; cbn in Hno; lia|done|].
    split; [by rewrite Hd|exact Hl].
Qed.

Lemma drop_nos_Forall2 {A B} (R : A → B → Prop) off nos l k :
  Forall2 R l k → Forall2 R (drop_nos off nos l) (drop_nos off nos k).
Proof.
  intros HF. revert off. induction HF as [|x y l k Hxy _ IH]; intros off; [constructor|]. cbn.
  case_bool_decide; [done|]. by constructor.
Qed.

Lemma drop_nos_sublist {A} off nos (l : list A) : drop_nos off nos l `sublist_of` l.
Proof.
  revert off. induction l as [|x l IH]; intros off; [constructor|]. cbn. case_bool_decide; by constructor.
Qed.

Lemma ForallOrdPairs_sublist {A} (R : A → A → Prop) l k : l `sublist_of` k → ForallOrdPairs R k → ForallOrdPairs R l.
Proof.
  induction 1 as [|x l k Hs IH|x l k Hs IH]; intros HO; [done| |]; inversion_clear HO as [|? ? Hx HO']; [|auto].
  constructor; [|auto]. rewrite List.Forall_forall in *. intros y Hy. apply Hx, list_elem_of_In.
  eapply sublist_subseteq; [exact Hs|]. by apply list_elem_of_In.
Qed.

Lemma zsum_sublist {A} (f : A → Z) l k : l `sublist_of` k → Forall (λ x, 0 ≤ f x) k → zsum f l ≤ zsum f k.
Proof.
  induction 1; intros HF; [done| |]; apply Forall_cons in HF as [? ?]; rewrite ?zsum_cons; naive_solver lia.
Qed.

Section multidelete.
Context {Item Sp : Type} `{!ItemSize Item}.
Implicit Types (p : Page Item Sp) (its : list Item).

(** One after the other, from the last. *)
Lemma delete_each p its nos :
  page_rep p its → ascending 1 (zlen its) nos →
  ∃ p', foldr (λ no r, p ← r; PageIndexTupleDelete p no) (Ok p) nos = Ok p' ∧
    page_rep p' (drop_nos 1 nos its) ∧ pd_sp p' = pd_sp p ∧ pd_special p' = pd_special p.
Proof.
  intros Hp. revert its Hp.
  assert (HG : ∀ lo n its, page_rep p its → 1 ≤ lo → lo + n ≤ 1 + zlen its → ascending lo n nos →
    ∃ p', foldr (λ no r, p ← r; PageIndexTupleDelete p no) (Ok p) nos = Ok p' ∧
      page_rep p' (drop_nos 1 nos its) ∧ pd_sp p' = pd_sp p ∧ pd_special p' = pd_special p).
  2: { intros its Hp Ha. apply (HG 1 (zlen its)); [done|lia|lia|done]. }
  induction nos as [|no nos IH]; intros lo n its Hp Hlo Hn Ha.
  - exists p. rewrite drop_nos_past by constructor. done.
  - destruct Ha as [Hno Ha]. destruct (IH (no + 1) (n - (no + 1 - lo)) its Hp ltac:(lia) ltac:(lia) Ha) as (p1 & Hf & Hp1 & Hsp & Hsl).
    destruct (drop_nos_delete 1 no nos its) as [Hd Hl]; [lia|eapply Forall_impl; [exact (ascending_all _ _ _ Ha)|cbn; lia]|].
    destruct (lookup_lt_is_Some_2 its (Z.to_nat (no - 1))) as [it Hit]; [unfold zlen in *; lia|]. rewrite Hit in Hl.
    destruct (PageIndexTupleDelete_rep _ _ _ _ Hp1 Hl) as (x & Hdel & _ & Hrep).
    replace (Z.of_nat (Z.to_nat (no - 1)) + 1) with no in Hdel by lia.
    exists (deleted p1 (Z.to_nat (no - 1)) x). cbn [foldr]. rewrite Hf. rsimpl. rewrite Hdel, Hd. done.
Qed.

(** The loop over the line pointers keeps the right ones and knows whether they are sorted. *)
Record keep_inv p (s : keep_state) : Prop := {
  ki_ids : k_ids s = compact_ids (imap pair (k_new s));
  ki_total : k_total s = zsum (λ a, MAXALIGN (lp_len a)) (k_new s);
  ki_sorted : k_sorted s = true → falls (pd_special p) (k_new s) ∧ k_last s = last_off (pd_special p) (k_new s);
}.

Lemma stores_line_checks p a it : stores p a it →
  (lp_off a <? pd_upper p) || (pd_special p <? lp_off a + lp_len a) || negb (lp_off a =? MAXALIGN (lp_off a)) = false.
Proof.
  intros [_ _ _ Hl Hu Ha _]. pose proof (MAXALIGN_bounds (lp_len a)). rewrite (MAXALIGN_id _ Ha), Z.eqb_refl.
  rewrite !orb_false_iff, !Z.ltb_ge. lia.
Qed.

Lemma keep_inv_snoc p s a nos :
  keep_inv p s →
  keep_inv p {| k_ids := k_ids s ++ [mkCompact (length (k_new s)) (lp_off a) (MAXALIGN (lp_len a))];
                k_new := k_new s ++ [a]; k_total := k_total s + MAXALIGN (lp_len a);
                k_last := if lp_off a <? k_last s then lp_off a else k_last s;
                k_sorted := k_sorted s && (lp_off a <? k_last s); k_nos := nos |}.
Proof.
  intros [H1 H2 H3]. constructor; cbn [k_ids k_new k_total k_last k_sorted].
  - rewrite imap_app. unfold compact_ids in *. rewrite map_app, H1. cbn. by rewrite Nat.add_0_r.
  - rewrite zsum_app, H2. cbn [zsum foldr]. lia.
  - intros [Hs Hlt]%andb_true_iff. rewrite Hlt. destruct (H3 Hs) as [Hf Hl]. apply Z.ltb_lt in Hlt.
    by rewrite falls_snoc, last_off_snoc, <- Hl.
Qed.

Lemma keep_loop_ok p lps its : Forall2 (stores p) lps its →
  ∀ off s, keep_inv p s → ascending off (zlen lps) (k_nos s) → zlen (k_new s) + zlen lps ≤ MaxIndexTuplesPerPage →
  ∃ s', keep_loop p off lps s = Ok s' ∧ keep_inv p s' ∧ k_new s' = k_new s ++ drop_nos off (k_nos s) lps ∧ k_nos s' = [].
Proof.
  induction 1 as [|a it lps its Ha _ IH]; intros off s Hk Hasc Hn.
  - exists s. cbn. rewrite app_nil_r. split_and!; try done. destruct (k_nos s) as [|no nos]; [done|]. destruct Hasc. unfold zlen in *. cbn in *. lia.
  - cbn [keep_loop]. unfold keep_step. rewrite (stores_line_checks p a it Ha).
    assert (Hids : zlen (k_ids s) = zlen (k_new s)).
    { rewrite (ki_ids _ _ Hk). unfold zlen, compact_ids. by rewrite length_map, length_imap. }
    assert (Hz : zlen (a :: lps) = zlen lps + 1) by (unfold zlen; cbn; lia).
    pose proof (zlen_nonneg lps). pose proof (ascending_all _ _ _ Hasc) as Hall.
    destruct (decide (off ∈ k_nos s)) as [Hin|Hin].
    + destruct (k_nos s) as [|no nos] eqn:En; [by apply elem_of_nil in Hin|]. destruct Hasc as [Hno Hasc].
      assert (off = no) as ->.
      { apply elem_of_cons in Hin as [?|Hin]; [done|]. pose proof (ascending_all _ _ _ Hasc) as HF. rewrite Forall_forall in HF.
        specialize (HF _ Hin). cbn in HF. lia. }
      rewrite Z.eqb_refl. rsimpl. cbn [tail].
      destruct (IH (no + 1) {| k_ids := k_ids s; k_new := k_new s; k_total := k_total s; k_last := k_last s;
          k_sorted := k_sorted s; k_nos := nos |}) as (s' & -> & Hk' & Hnew & Hnos).
      * by destruct Hk.
      * cbn. by replace (zlen lps) with (zlen (a :: lps) - (no + 1 - no)) by lia.
      * cbn. lia.
      * exists s'. split_and!; try done. rewrite Hnew. cbn [k_new k_nos drop_nos]. rewrite bool_decide_eq_true_2 by (by left).
        rewrite drop_nos_skip by lia. done.
    + assert (Hhd : match k_nos s with no :: _ => off =? no | [] => false end = false).
      { destruct (k_nos s) as [|no nos]; [done|]. apply Z.eqb_neq. intros ->. by apply Hin; left. }
      rewrite Hhd, Hids. destruct (Z.leb_spec MaxIndexTuplesPerPage (zlen (k_new s))); [lia|]. rsimpl.
      destruct (IH (off + 1) _ (keep_inv_snoc p s a (k_nos s) Hk)) as (s' & -> & Hk' & Hnew & Hnos).
      * cbn [k_nos]. destruct (k_nos s) as [|no nos]; [done|]. destruct Hasc as [Hno Hasc].
        assert (off ≠ no) by (intros ->; by apply Hin; left). split; [lia|].
        by replace (zlen lps - (no + 1 - (off + 1))) with (zlen (a :: lps) - (no + 1 - off)) by lia.
      * cbn [k_new]. rewrite zlen_app. change (zlen [a]) with 1. lia.
      * exists s'. split_and!; try done. rewrite Hnew. cbn [k_new k_nos drop_nos]. rewrite bool_decide_eq_false_2 by done.
        by rewrite <- app_assoc.
Qed.

(** The page of the kept tuples. *)
Lemma imap_pair_fst {A} (l : list A) : (imap pair l).*1 = seq 0 (length l).
Proof.
  apply list_eq. intros i. rewrite list_lookup_fmap, list_lookup_imap. destruct (l !! i) eqn:E; cbn.
  - symmetry. apply lookup_seq. split; [done|]. by eapply lookup_lt_Some.
  - symmetry. apply lookup_seq_ge. by apply lookup_ge_None.
Qed.

Lemma imap_pair_snd {A} (l : list A) : (imap pair l).*2 = l.
Proof. apply list_eq. intros i. rewrite list_lookup_fmap, list_lookup_imap. by destruct (l !! i). Qed.

Lemma zsum_imap_pair {A} (f : A → Z) l : zsum (λ x, f x.2) (imap pair l) = zsum f l.
Proof.
  rewrite <- (imap_pair_snd l) at 2. generalize (imap pair l). intros k. induction k as [|x k IH]; [done|].
  cbn [fmap list_fmap]. rewrite !zsum_cons. lia.
Qed.

Lemma stores_same p p1 a it :
  pd_upper p1 = pd_upper p → pd_special p1 = pd_special p → pd_mem p1 = pd_mem p → stores p a it → stores p1 a it.
Proof. intros E1 E2 E3 []. constructor; rewrite ?E1, ?E2, ?E3; done. Qed.

Lemma stores_has p a it : stores p a it → ItemIdHasStorage a = true.
Proof. intros [_ Hl Hp _ _ _ _]. unfold ItemIdHasStorage. destruct (Z.eqb_spec (lp_len a) 0); [lia|done]. Qed.

Lemma stores_storage p lps its :
  Forall2 (stores p) lps its → ForallOrdPairs apart lps → cells_positive (pd_mem p) →
  storage_ok lps (pd_upper p) (pd_special p) (pd_mem p).
Proof.
  intros HF HO Hc. constructor; [| |done].
  - intros i a Hi _. destruct (Forall2_lookup_l _ _ _ _ _ HF Hi) as (it & _ & [_ Hl ? ? ? ? Hm]).
    constructor; [lia|done|done|done|by exists it].
  - intros i j a b Hi Hj Hij _ _. rewrite ForallOrdPairs_lookup in HO.
    destruct (lt_eq_lt_dec i j) as [[Hlt| ->]|Hlt]; [by eapply (HO i j)|done|].
    destruct (HO j i b a Hlt Hj Hi); [by right|by left].
Qed.

Lemma zsum_stores p lps its : Forall2 (stores p) lps its →
  zsum (λ a, MAXALIGN (lp_len a)) lps = zsum (λ it, MAXALIGN (item_size it)) its.
Proof. induction 1 as [|a it lps its Ha _ IH]; [done|]. rewrite !zsum_cons, IH, (st_len _ _ _ Ha). done. Qed.

Lemma chosen_all p its : Forall2 (stores p) (pd_linp p) its → chosen p (imap pair (pd_linp p)).
Proof.
  intros HF. constructor.
  - apply Forall_lookup. intros i x Hx. rewrite list_lookup_imap in Hx. destruct (pd_linp p !! i) eqn:E; [|done]. cbn in Hx. simplify_eq. cbn.
    split; [done|]. destruct (Forall2_lookup_l _ _ _ _ _ HF E) as (it & _ & Hs). by eapply stores_has.
  - rewrite imap_pair_fst. apply NoDup_seq.
  - intros i a Hi _. rewrite imap_pair_fst. apply elem_of_seq. apply lookup_lt_Some in Hi. lia.
Qed.

(** The fields [page_rep] needs besides the tuples. *)
Record page_frame p (n : Z) : Prop := {
  pf_lower : pd_lower p = SizeOfPageHeaderData + sizeof_ItemIdData * n;
  pf_special : pd_special p ≤ BLCKSZ ∧ pd_special p mod 8 = 0;
  pf_lines : PageHasFreeLinePointers p = false;
}.

Lemma compacted_rep p p' its :
  Forall2 (stores p) (pd_linp p) its → page_frame p (zlen its) →
  zsum (λ it, MAXALIGN (item_size it)) its ≤ pd_special p - pd_lower p →
  compacted p p' (imap pair (pd_linp p)) → page_rep p' its.
Proof.
  intros HF [Hl Hs Hfl] Hfit Hc.
  assert (Hup : pd_upper p' = pd_special p - zsum (λ it, MAXALIGN (item_size it)) its).
  { rewrite (cd_upper _ _ _ Hc), (zsum_imap_pair (λ a, MAXALIGN (lp_len a))), (zsum_stores _ _ _ HF). done. }
  pose proof (cd_storage _ _ _ Hc) as Hst. pose proof (cd_lines _ _ _ Hc) as Hln.
  assert (HF' : Forall2 (stores p') (pd_linp p') its).
  { apply Forall2_same_length_lookup_2.
    - apply Forall2_length in Hln, HF. congruence.
    - intros i b it Hb Hit. destruct (Forall2_lookup_r _ _ _ _ _ Hln Hb) as (a & Ha & [E1 E2 E3 _]).
      pose proof (Forall2_lookup_lr _ _ _ _ _ _ HF Ha Hit) as Hsa. specialize (E3 (stores_has _ _ _ Hsa)).
      destruct Hsa as [F1 F2 F3 _ _ _ F7]. assert (Hb' : ItemIdHasStorage b = true).
      { unfold ItemIdHasStorage. destruct (Z.eqb_spec (lp_len b) 0); [lia|done]. }
      destruct (so_at _ _ _ _ Hst i b Hb Hb') as [G1 G2 G3 G4 _]. constructor; congruence || done. }
  constructor; rewrite ?(cd_lower _ _ _ Hc), ?(cd_special _ _ _ Hc), ?Hup; try done.
  - lia.
  - lia.
  - unfold PageHasFreeLinePointers in *. by rewrite (cd_flags _ _ _ Hc).
  - apply ForallOrdPairs_lookup. intros i j a b Hij Ha Hb.
    destruct (Forall2_lookup_l _ _ _ _ _ HF' Ha) as (? & _ & Hsa). destruct (Forall2_lookup_l _ _ _ _ _ HF' Hb) as (? & _ & Hsb).
    apply (so_apart _ _ _ _ Hst i j); [done|done|lia|by eapply stores_has|by eapply stores_has].
  - apply Hst.
Qed.

(** An index tuple has a header and something after it, so a page has at most
    [MaxIndexTuplesPerPage] of them. *)
Lemma index_tuples_bound p its :
  page_rep p its → Forall (λ it, sizeof_IndexTupleData < item_size it) its → zlen its ≤ MaxIndexTuplesPerPage.
Proof.
  intros Hp Hsz. pose proof (page_rep_bounds _ _ Hp) as (? & ? & ?). pose proof (page_rep_free _ _ Hp) as Hfree.
  assert (Hsp : 20 * zlen its ≤ items_space its).
  { clear -Hsz. unfold items_space, sizeof_ItemIdData, sizeof_IndexTupleData in *. induction Hsz as [|it its Hit _ IH]; [done|].
    rewrite zsum_cons. pose proof (MAXALIGN_bounds (item_size it)). pose proof (MAXALIGN_mult (item_size it)).
    pose proof (Z.div_mod (MAXALIGN (item_size it)) 8). unfold zlen in *. cbn [length]. lia. }
  change MaxIndexTuplesPerPage with 408. unfold BLCKSZ, SizeOfPageHeaderData in *. lia.
Qed.

Lemma keep_rep p its nos s :
  page_rep p its → keep_inv p s → k_new s = drop_nos 1 nos (pd_linp p) →
  let p1 := {| pd_flags := pd_flags p;
               pd_lower := uint16 (SizeOfPageHeaderData + zlen (k_new s) * sizeof_ItemIdData);
               pd_upper := pd_upper p; pd_special := pd_special p;
               pd_pagesize_version := pd_pagesize_version p;
               pd_linp := k_new s; pd_mem := pd_mem p; pd_sp := pd_sp p |} in
  k_total s ≤ pd_special p - pd_lower p ∧
  ∃ p', (if 0 <? zlen (k_new s) then compactify_tuples (k_ids s) (k_sorted s) p1
         else Ok (set_compacted (pd_special p) [] (pd_mem p) p1)) = Ok p' ∧
    page_rep p' (drop_nos 1 nos its) ∧ pd_sp p' = pd_sp p ∧ pd_special p' = pd_special p.
Proof.
  intros Hp Hk Hnew p1. pose proof (page_rep_bounds _ _ Hp) as (? & ? & ?).
  pose proof (drop_nos_Forall2 (stores p) 1 nos _ _ (pr_stores _ _ Hp)) as HF. rewrite <- Hnew in HF.
  pose proof (drop_nos_sublist 1 nos its) as Hsub. set (its' := drop_nos 1 nos its) in *.
  assert (Hsum : k_total s = zsum (λ it, MAXALIGN (item_size it)) its') by (rewrite (ki_total _ _ Hk); by eapply zsum_stores).
  assert (Hle : zsum (λ it, MAXALIGN (item_size it)) its' ≤ pd_special p - pd_upper p).
  { rewrite (pr_tight _ _ Hp). apply zsum_sublist; [done|]. eapply Forall_impl; [exact (page_rep_sizes _ _ Hp)|].
    cbn. intros it ?. pose proof (MAXALIGN_bounds (item_size it)). lia. }
  assert (Hlen : zlen (k_new s) = zlen its') by (unfold zlen; by rewrite (Forall2_length _ _ _ HF)).
  assert (Hlt : zlen its' ≤ zlen its) by (apply sublist_length in Hsub; unfold zlen; lia).
  pose proof (pr_lower _ _ Hp) as Hlow. split; [lia|].
  assert (HF1 : Forall2 (stores p1) (pd_linp p1) its') by (eapply Forall2_impl; [exact HF|]; intros a it; by apply stores_same).
  assert (Hlow1 : pd_lower p1 = SizeOfPageHeaderData + sizeof_ItemIdData * zlen its').
  { cbn. pose proof (zlen_nonneg its'). unfold SizeOfPageHeaderData, sizeof_ItemIdData, BLCKSZ in *. rewrite uint16_id by lia. lia. }
  assert (Hfr : page_frame p1 (zlen its')) by (constructor; [done|apply Hp|apply (pr_lines _ _ Hp)]).
  assert (Hlow2 : 0 ≤ pd_lower p1 ≤ pd_lower p).
  { rewrite Hlow1. pose proof (zlen_nonneg its'). unfold SizeOfPageHeaderData, sizeof_ItemIdData in *. lia. }
  destruct (Z.ltb_spec 0 (zlen (k_new s))) as [Hpos|Hzero].
  - rewrite (ki_ids _ _ Hk). destruct (compactify_lines p1 (imap pair (k_new s)) (k_sorted s)) as (p' & -> & Hc).
    + eapply stores_storage; [exact HF1| |apply Hp]. cbn. rewrite Hnew. eapply ForallOrdPairs_sublist; [apply drop_nos_sublist|apply Hp].
    + by eapply (chosen_all p1).
    + intros E%(f_equal length). rewrite length_imap in E. unfold zlen in Hpos. cbn in E. lia.
    + cbn in *. lia.
    + apply Hp.
    + apply Hp.
    + rewrite (zsum_imap_pair (λ a, MAXALIGN (lp_len a))), <- (ki_total _ _ Hk), Hsum. cbn in *. lia.
    + rewrite imap_pair_snd. intros E. apply (ki_sorted _ _ Hk E).
    + exists p'. split_and!; [done| |apply Hc|apply Hc]. eapply (compacted_rep p1); [done|done| |done]. cbn in *. lia.
  - eexists. split_and!; [done| |done|done]. assert (its' = []) as ->.
    { apply nil_length_inv. unfold zlen in *. lia. }
    unfold BLCKSZ, SizeOfPageHeaderData, sizeof_ItemIdData in *. change (zlen []) with 0 in *.
    constructor; cbn in *; rewrite ?uint16_id in *; try lia; try done; try apply Hp; constructor.
Qed.

Lemma PageIndexMultiDelete_rep p its nos :
  page_rep p its → Forall (λ it, sizeof_IndexTupleData < item_size it) its → ascending 1 (zlen its) nos →
  ∃ p', PageIndexMultiDelete p nos = Ok p' ∧ page_rep p' (drop_nos 1 nos its) ∧
    pd_sp p' = pd_sp p ∧ pd_special p' = pd_special p.
Proof.
  intros Hp Hsz Hasc. unfold PageIndexMultiDelete. destruct (zlen nos <=? 2); [by apply delete_each|].
  unfold bad_pointers. rewrite (page_rep_not_corrupted _ _ Hp), MAXALIGN_id, Z.eqb_refl by apply Hp. cbn [orb negb].
  pose proof (page_rep_length _ _ Hp) as Hlen. rewrite (page_rep_max _ _ Hp), take_ge by (unfold zlen; lia).
  destruct (keep_loop_ok p _ _ (pr_stores _ _ Hp) FirstOffsetNumber (mkKeep [] [] 0 (pd_special p) true nos))
    as (s & -> & Hk & Hnew & Hnos).
  - by constructor.
  - cbn. unfold zlen. rewrite Hlen. done.
  - cbn [k_new]. unfold zlen at 2. rewrite Hlen. fold (zlen its). pose proof (index_tuples_bound _ _ Hp Hsz). done.
  - rsimpl. rewrite Hnos. cbn [k_new k_nos app] in Hnew. destruct (keep_rep p its nos s Hp Hk Hnew) as (Htot & p' & Hp' & Hrep).
    rewrite bool_decide_eq_true_2 by done. cbn [negb]. destruct (Z.ltb_spec (pd_special p - pd_lower p) (k_total s)); [lia|].
    exists p'. by rewrite Hp'.
Qed.

(** Numbers that are all met are increasing and in range. *)
Lemma keep_loop_nos p lps its : Forall2 (stores p) lps its →
  ∀ off s, zlen (k_ids s) + zlen lps ≤ MaxIndexTuplesPerPage →
  ∃ s', keep_loop p off lps s = Ok s' ∧ (k_nos s' = [] → ascending off (zlen lps) (k_nos s)).
Proof.
  induction 1 as [|a it lps its Ha _ IH]; intros off s Hn.
  - exists s. cbn. split; [done|]. by intros ->.
  - cbn [keep_loop]. unfold keep_step. rewrite (stores_line_checks p a it Ha).
    assert (Hz : zlen (a :: lps) = zlen lps + 1) by (unfold zlen; cbn; lia). pose proof (zlen_nonneg lps).
    destruct (match k_nos s with no :: _ => off =? no | [] => false end) eqn:E; rsimpl.
    + destruct (k_nos s) as [|no nos]; [done|]. apply Z.eqb_eq in E as <-. cbn [tail].
      destruct (IH (off + 1) {| k_ids := k_ids s; k_new := k_new s; k_total := k_total s; k_last := k_last s;
          k_sorted := k_sorted s; k_nos := nos |}) as (s' & -> & Hs'); [cbn; lia|].
      exists s'. split; [done|]. intros Hn'. specialize (Hs' Hn'). cbn [k_nos ascending] in *. split; [lia|].
      by replace (zlen (a :: lps) - (off + 1 - off)) with (zlen lps) by lia.
    + destruct (Z.leb_spec MaxIndexTuplesPerPage (zlen (k_ids s))); [lia|]. rsimpl.
      edestruct (IH (off + 1)) as (s' & -> & Hs'); [|exists s'; split; [done|]].
      * cbn [k_ids]. rewrite zlen_app. unfold zlen at 2. cbn [length]. lia.
      * intros Hn'. specialize (Hs' Hn'). cbn [k_nos] in Hs'. destruct (k_nos s) as [|no nos]; [done|]. cbn [ascending] in *.
        destruct Hs' as [Hr Hs']. split; [lia|]. by replace (zlen (a :: lps) - (no + 1 - off)) with (zlen lps - (no + 1 - (off + 1))) by lia.
Qed.

Lemma PageIndexMultiDelete_err p its nos :
  page_rep p its → Forall (λ it, sizeof_IndexTupleData < item_size it) its → 2 < zlen nos → ¬ ascending 1 (zlen its) nos →
  PageIndexMultiDelete p nos = Err (Elog "incorrect index offsets supplied").
Proof.
  intros Hp Hsz Hn Hasc. unfold PageIndexMultiDelete. destruct (Z.leb_spec (zlen nos) 2); [lia|].
  unfold bad_pointers. rewrite (page_rep_not_corrupted _ _ Hp), MAXALIGN_id, Z.eqb_refl by apply Hp. cbn [orb negb].
  pose proof (page_rep_length _ _ Hp) as Hlen. rewrite (page_rep_max _ _ Hp), take_ge by (unfold zlen; lia).
  destruct (keep_loop_nos p _ _ (pr_stores _ _ Hp) FirstOffsetNumber (mkKeep [] [] 0 (pd_special p) true nos)) as (s & -> & Hs).
  - cbn [k_ids]. unfold zlen at 2. rewrite Hlen. fold (zlen its). by apply index_tuples_bound in Hp.
  - rsimpl. rewrite bool_decide_eq_false_2; [done|]. intros E. apply Hasc. specialize (Hs E). cbn in Hs. unfold zlen in *. by rewrite <- Hlen.
Qed.
End multidelete.

(** * Overwriting a tuple in place *)

Section overwrite.
Context {Item Sp : Type} `{!ItemSize Item}.
Implicit Types (p : Page Item Sp) (its : list Item) (x y z : ItemIdData).

Section at_line.
Context p its i x old (new : Item) (Hp : page_rep p its) (Hi : its !! i = Some old) (Hx : pd_linp p !! i = Some x).
Context (Hnew : 0 < item_size new) (Hfit : MAXALIGN (item_size new) ≤ MAXALIGN (item_size old) + (pd_upper p - pd_lower p)).

Local Abbreviation d := (MAXALIGN (lp_len x) - MAXALIGN (item_size new)).

(** The tuples below the overwritten one, moved by the difference of the sizes. *)
Definition room_mem : mem Item :=
  if negb (d =? 0) then mem_copy (pd_upper p + d) (pd_upper p) (lp_off x - pd_upper p) (pd_mem p) (pd_mem p) else pd_mem p.

Definition overwritten : Page Item Sp :=
  {| pd_flags := pd_flags p; pd_lower := pd_lower p; pd_upper := pd_upper p + d;
     pd_special := pd_special p; pd_pagesize_version := pd_pagesize_version p;
     pd_linp := <[i := mkItemId (lp_off x + d) (lp_flags x) (item_size new)]> (map (shift_stored (lp_off x) d) (pd_linp p));
     pd_mem := mem_write (lp_off x + d) (item_size new) new room_mem; pd_sp := pd_sp p |}.

Lemma over_stores : stores p x old.
Proof. eapply Forall2_lookup_lr; [apply Hp|done|done]. Qed.

Lemma over_bounds : 0 ≤ pd_lower p ≤ pd_upper p + d ∧ pd_special p ≤ BLCKSZ ∧ MAXALIGN (lp_len x) = MAXALIGN (item_size old) ∧ d mod 8 = 0.
Proof.
  pose proof (page_rep_bounds _ _ Hp) as (? & ? & _). pose proof (st_len _ _ _ over_stores) as E. rewrite E.
  unfold SizeOfPageHeaderData in *. split_and!; [lia|lia|lia|done|]. apply mod8_sub; apply MAXALIGN_mult.
Qed.

(** Where another line pointer is after the move. *)
Lemma shift_other y it : stores p y it → apart x y →
  shift_stored (lp_off x) d y = (if lp_off y <=? lp_off x then mkItemId (lp_off y + d) (lp_flags y) (lp_len y) else y) ∧
  if lp_off y <=? lp_off x then pd_upper p ≤ lp_off y ∧ lp_off y + MAXALIGN (lp_len y) ≤ lp_off x
  else lp_off x + MAXALIGN (lp_len x) ≤ lp_off y.
Proof.
  intros Hy Ha. pose proof over_bounds as (? & ? & ? & _). pose proof over_stores as [_ ? ? ? ? _ _].
  unfold shift_stored. rewrite (stores_has _ _ _ Hy). cbn [andb]. destruct Hy as [_ ? ? ? ? _ _].
  pose proof (MAXALIGN_bounds (lp_len x)). pose proof (MAXALIGN_bounds (lp_len y)). pose proof (MAXALIGN_bounds (item_size new)).
  unfold apart, BLCKSZ in *. destruct (Z.leb_spec (lp_off y) (lp_off x)); split; [|lia|done|lia].
  unfold set_lp_off. rewrite bits15_id by lia. done.
Qed.

Lemma room_lookup y it : stores p y it → apart x y → room_mem !! lp_off (shift_stored (lp_off x) d y) = Some (lp_len y, it).
Proof.
  intros Hy Ha. destruct (shift_other y it Hy Ha) as [-> Hpos]. pose proof over_bounds as (? & _). pose proof over_stores as [_ ? ? ? ? _ _].
  destruct Hy as [_ ? ? ? ? _ Hm]. pose proof (MAXALIGN_bounds (lp_len y)). pose proof (MAXALIGN_bounds (lp_len x)).
  pose proof (MAXALIGN_bounds (item_size new)). unfold room_mem.
  destruct (Z.eqb_spec d 0) as [E|E]; cbn [negb]; destruct (lp_off y <=? lp_off x); cbn [lp_off]; rewrite ?E, ?Z.add_0_r; try done.
  - replace (lp_off y + d) with (lp_off y + (pd_upper p + d - pd_upper p)) by lia. apply mem_copy_moved; [done|lia|lia|lia].
  - apply mem_copy_keep; [done|lia|apply Hp|lia].
Qed.

Lemma room_cells : cells_positive room_mem.
Proof. unfold room_mem. destruct (negb _); [|apply Hp]. apply cells_positive_copy; apply Hp. Qed.

Lemma over_other y it : stores p y it → apart x y → stores overwritten (shift_stored (lp_off x) d y) it.
Proof.
  intros Hy Ha. pose proof (room_lookup y it Hy Ha) as Hm. destruct (shift_other y it Hy Ha) as [E Hpos]. rewrite E in *.
  pose proof over_bounds as (? & ? & Hlx & Hd8). pose proof over_stores as [_ ? ? ? ? ? _].
  destruct Hy as [? ? ? ? ? ? _]. pose proof (MAXALIGN_bounds (lp_len y)). pose proof (MAXALIGN_bounds (lp_len x)).
  pose proof (MAXALIGN_bounds (item_size new)). unfold overwritten.
  destruct (lp_off y <=? lp_off x); constructor; cbn [pd_upper pd_special pd_mem lp_off lp_flags lp_len] in *; try done; try lia.
  - by apply mod8_add.
  - apply mem_write_lookup_keep; [done|lia|lia|lia].
  - apply mem_write_lookup_keep; [done|lia|lia|lia].
Qed.

Lemma over_new : stores overwritten (mkItemId (lp_off x + d) (lp_flags x) (item_size new)) new.
Proof.
  pose proof over_bounds as (? & ? & Hlx & Hd8). pose proof over_stores as [? ? ? ? ? ? _].
  pose proof (MAXALIGN_bounds (item_size new)). constructor; cbn; try done; try lia.
  - by apply mod8_add.
  - apply mem_write_lookup.
Qed.

Lemma over_apart y it : stores p y it → apart x y →
  apart (mkItemId (lp_off x + d) (lp_flags x) (item_size new)) (shift_stored (lp_off x) d y).
Proof.
  intros Hy Ha. destruct (shift_other y it Hy Ha) as [-> Hpos]. unfold apart.
  destruct (lp_off y <=? lp_off x); cbn [lp_off lp_len]; lia.
Qed.

Lemma over_apart_others y z it it' : stores p y it → stores p z it' → apart x y → apart x z → apart y z →
  apart (shift_stored (lp_off x) d y) (shift_stored (lp_off x) d z).
Proof.
  intros Hy Hz Hxy Hxz Hyz. destruct (shift_other y it Hy Hxy) as [-> Hpy], (shift_other z it' Hz Hxz) as [-> Hpz].
  pose proof (MAXALIGN_bounds (item_size new)). pose proof (MAXALIGN_bounds (lp_len x)). pose proof over_stores as [_ ? ? ? ? ? _].
  unfold apart in *. destruct (lp_off y <=? lp_off x), (lp_off z <=? lp_off x); cbn [lp_off lp_len]; lia.
Qed.

Lemma over_line j y : j ≠ i → pd_linp p !! j = Some y → apart x y ∧ ∃ it, its !! j = Some it ∧ stores p y it.
Proof.
  intros Hj Hy. split.
  - pose proof (stores_storage p _ _ (pr_stores _ _ Hp) (pr_apart _ _ Hp) (pr_cells _ _ Hp)) as Hs.
    destruct (Forall2_lookup_l _ _ _ _ _ (pr_stores _ _ Hp) Hy) as (it & _ & Hsy).
    apply (so_apart _ _ _ _ Hs i j); try done; eapply stores_has; [apply over_stores|exact Hsy].
  - destruct (Forall2_lookup_l _ _ _ _ _ (pr_stores _ _ Hp) Hy) as (it & ? & ?). eauto.
Qed.

Lemma over_lines j b : pd_linp overwritten !! j = Some b →
  (j = i ∧ b = mkItemId (lp_off x + d) (lp_flags x) (item_size new)) ∨
  (j ≠ i ∧ ∃ y it, pd_linp p !! j = Some y ∧ its !! j = Some it ∧ stores p y it ∧ apart x y ∧ b = shift_stored (lp_off x) d y).
Proof.
  intros Hb. cbn [overwritten pd_linp] in Hb. destruct (decide (j = i)) as [->|Hj].
  - left. rewrite list_lookup_insert_eq in Hb; [by simplify_eq|]. rewrite length_map. by eapply lookup_lt_Some.
  - right. split; [done|]. rewrite list_lookup_insert_ne in Hb by done.
    rewrite list_lookup_fmap in Hb. destruct (pd_linp p !! j) as [y|] eqn:E; [|done].
    destruct (over_line j y Hj E) as (Ha & it & Hit & Hs). exists y, it. cbn in Hb. by simplify_eq.
Qed.

Lemma overwritten_rep : page_rep overwritten (<[i := new]> its).
Proof.
  pose proof over_bounds as (? & ? & Hlx & Hd8).
  assert (Hz : zlen (<[i := new]> its) = zlen its) by (unfold zlen; by rewrite length_insert).
  assert (Hst : Forall2 (stores overwritten) (pd_linp overwritten) (<[i := new]> its)).
  { apply Forall2_same_length_lookup_2.
    - cbn. rewrite !length_insert, length_map. apply (page_rep_length _ _ Hp).
    - intros j b it Hb Hit. destruct (over_lines j b Hb) as [[-> ->]|(Hj & y & it' & _ & Hit' & Hs & Ha & ->)].
      + rewrite list_lookup_insert_eq in Hit by (by eapply lookup_lt_Some). simplify_eq. apply over_new.
      + rewrite list_lookup_insert_ne in Hit by done. simplify_eq. by apply over_other. }
  constructor; [|cbn; lia|apply Hp| |apply (pr_lines _ _ Hp)|done| |].
  - cbn. rewrite Hz. apply Hp.
  - cbn [overwritten pd_special pd_upper]. pose proof (pr_tight _ _ Hp) as Ht.
    rewrite (zsum_perm _ _ _ (delete_Permutation _ _ _ Hi)), zsum_cons in Ht.
    rewrite (zsum_perm _ _ _ (insert_perm_delete _ _ _ new Hi)), zsum_cons. lia.
  - apply ForallOrdPairs_lookup. intros j k a b Hjk Ha Hb.
    destruct (over_lines j a Ha) as [[-> ->]|(Hj & y & it & Hy & _ & Hsy & Hay & ->)],
      (over_lines k b Hb) as [[-> ->]|(Hk & z & it' & Hz' & _ & Hsz & Haz & ->)]; [lia| | |].
    + by eapply over_apart.
    + destruct (over_apart y it Hsy Hay); [by right|by left].
    + eapply over_apart_others; [done|done|done|done|]. pose proof (pr_apart _ _ Hp) as HO. rewrite ForallOrdPairs_lookup in HO.
      by eapply (HO j k).
  - apply cells_positive_write; [done|apply room_cells].
Qed.

End at_line.

Lemma checked_item_rep p its i it :
  page_rep p its → its !! i = Some it →
  ∃ x, checked_item p (Z.of_nat i + 1) = Ok x ∧ pd_linp p !! i = Some x ∧ stores p x it.
Proof.
  intros Hp Hi. destruct (page_rep_item _ _ _ _ Hp Hi) as (x & Hg & Hx & Hxs & _ & _). exists x. split_and!; [|done|done].
  unfold checked_item, bad_pointers. rewrite (page_rep_not_corrupted _ _ Hp), MAXALIGN_id, Z.eqb_refl, (page_rep_max _ _ Hp) by apply Hp.
  pose proof (lookup_lt_Some _ _ _ Hi). cbn [orb negb]. destruct (Z.leb_spec (Z.of_nat i + 1) 0); [lia|].
  destruct (Z.ltb_spec (zlen its) (Z.of_nat i + 1)); [unfold zlen in *; lia|]. cbn [orb]. rewrite Hg. rsimpl.
  by rewrite (stores_line_checks p x it).
Qed.

Lemma PageIndexTupleOverwrite_rep p its i old new :
  page_rep p its → its !! i = Some old → 0 < item_size new < 2 ^ 15 →
  if MAXALIGN (item_size old) + (pd_upper p - pd_lower p) <? MAXALIGN (item_size new)
  then PageIndexTupleOverwrite p (Z.of_nat i + 1) new (item_size new) = Ok (p, false)
  else ∃ p', PageIndexTupleOverwrite p (Z.of_nat i + 1) new (item_size new) = Ok (p', true) ∧
         page_rep p' (<[i := new]> its) ∧ pd_sp p' = pd_sp p ∧ pd_special p' = pd_special p.
Proof.
  intros Hp Hi Hn. destruct (checked_item_rep p its i old Hp Hi) as (x & Hc & Hx & Hs). unfold PageIndexTupleOverwrite.
  rewrite Hc. rsimpl. rewrite (st_len _ _ _ Hs).
  destruct (Z.ltb_spec (MAXALIGN (item_size old) + (pd_upper p - pd_lower p)) (MAXALIGN (item_size new))) as [Hlt|Hle]; [done|].
  pose proof (overwritten_rep p its i x old new Hp Hi Hx ltac:(lia) Hle) as Hrep.
  pose proof (over_bounds p its i x old new Hp Hi Hx Hle) as (? & ? & Hlx & _). pose proof Hs as [_ ? ? ? ? _ _].
  pose proof (MAXALIGN_bounds (item_size new)). pose proof (MAXALIGN_bounds (lp_len x)).
  exists (overwritten p i x new). split_and!; [|done|done|done].
  unfold overwritten, room_mem. rewrite <- Hlx, bits15_id, (bits15_id (item_size new)) by (unfold BLCKSZ in *; lia).
  replace (Z.to_nat (Z.of_nat i + 1 - 1)) with i by lia. cbn [lp_off].
  destruct (Z.eqb_spec (MAXALIGN (lp_len x) - MAXALIGN (item_size new)) 0) as [E|E]; cbn [negb].
  - rewrite E, !Z.add_0_r. do 3 f_equal. rewrite <- (map_id (pd_linp p)) at 1. f_equal. apply map_ext_in.
    intros y Hy%list_elem_of_In. destruct (pr_stored _ _ y Hp Hy) as [it Hsy]. unfold shift_stored. rewrite (stores_has _ _ _ Hsy).
    destruct Hsy as [_ ? ? ? ? _ _]. pose proof (MAXALIGN_bounds (lp_len y)). cbn [andb]. destruct (lp_off y <=? lp_off x); [|done].
    unfold set_lp_off. rewrite Z.add_0_r, bits15_id by (unfold BLCKSZ in *; lia). by destruct y.
  - by rewrite uint16_id by (unfold BLCKSZ in *; lia).
Qed.
End overwrite.

(** * Theorems *)

(** [PageIndexMultiDelete] on a sound page of index tuples, given increasing offset
    numbers of the page, does to its tuples exactly what deleting them one at a time from
    the last with [PageIndexTupleDelete] does: it succeeds, the tuples left are those not
    named, in their order and tightly packed, and the special space is as it was; more than
    two numbers that are out of range or not increasing are refused. *)
Theorem page_multi_delete_spec {Item Sp} `{!ItemSize Item} (p : Page Item Sp) its nos :
  page_rep p its → Forall (λ it, sizeof_IndexTupleData < item_size it) its →
  (ascending 1 (zlen its) nos →
   ∃ p' q, PageIndexMultiDelete p nos = Ok p' ∧
     foldr (λ no r, p ← r; PageIndexTupleDelete p no) (Ok p) nos = Ok q ∧
     page_rep p' (drop_nos 1 nos its) ∧ page_rep q (drop_nos 1 nos its) ∧
     pd_upper p' = pd_upper q ∧ pd_lower p' = pd_lower q ∧ pd_sp p' = pd_sp p) ∧
  (2 < zlen nos → ¬ ascending 1 (zlen its) nos →
   PageIndexMultiDelete p nos = Err (Elog "incorrect index offsets supplied")).
Proof.
  intros Hp Hsz. split; [|by intros; eapply PageIndexMultiDelete_err]. intros Hasc.
  destruct (PageIndexMultiDelete_rep p its nos Hp Hsz Hasc) as (p' & ? & Hr & ? & Hs).
  destruct (delete_each p its nos Hp Hasc) as (q & ? & Hq & ? & Hs').
  exists p', q. pose proof (pr_tight _ _ Hr). pose proof (pr_tight _ _ Hq). pose proof (pr_lower _ _ Hr). pose proof (pr_lower _ _ Hq).
  split_and!; try done; lia.
Qed.

(** [PageIndexTupleOverwrite] on a sound page replaces the tuple at the given number,
    keeps the others and their numbers and leaves no gap, exactly when the new tuple fits
    in the old one's space and the free space; otherwise it returns false and the page is
    as it was. *)
Theorem page_overwrite_spec {Item Sp} `{!ItemSize Item} (p : Page Item Sp) its i old new :
  page_rep p its → its !! i = Some old → 0 < item_size new < 2 ^ 15 →
  if MAXALIGN (item_size old) + (pd_upper p - pd_lower p) <? MAXALIGN (item_size new)
  then PageIndexTupleOverwrite p (Z.of_nat i + 1) new (item_size new) = Ok (p, false)
  else ∃ p', PageIndexTupleOverwrite p (Z.of_nat i + 1) new (item_size new) = Ok (p', true) ∧
         page_rep p' (<[i := new]> its) ∧ pd_sp p' = pd_sp p ∧ pd_special p' = pd_special p.
Proof. apply PageIndexTupleOverwrite_rep. Qed.

(** ** Witnesses *)

#[local] Existing Instance Z_item_size.

Definition demo_four : Page Z unit := added (added (added demo_page 32 0) 24 2) 16 1.

Lemma demo_four_rep : page_rep demo_four [32; 16; 48; 24].
Proof.
  unfold demo_four. apply (added_rep _ [32; 48; 24] 16 1); [|done|cbn; lia|vm_compute; discriminate].
  apply (added_rep _ [32; 48] 24 2); [|done|cbn; lia|vm_compute; discriminate].
  apply (added_rep _ [48] 32 0); [apply demo_page_rep|done|cbn; lia|vm_compute; discriminate].
Qed.

Lemma page_multi_delete_spec_witness :
  (∃ p' q, PageIndexMultiDelete demo_four [1; 3; 4] = Ok p' ∧
    foldr (λ no r, p ← r; PageIndexTupleDelete p no) (Ok demo_four) [1; 3; 4] = Ok q ∧
    page_rep p' [16] ∧ page_rep q [16] ∧ pd_upper p' = pd_upper q ∧ pd_lower p' = pd_lower q ∧ pd_sp p' = pd_sp demo_four) ∧
  PageIndexMultiDelete demo_four [1; 4; 3] = Err (Elog "incorrect index offsets supplied").
Proof.
  assert (Hsz : Forall (λ it, sizeof_IndexTupleData < item_size it) [32; 16; 48; 24]) by (repeat constructor).
  split.
  - apply (page_multi_delete_spec demo_four [32; 16; 48; 24] [1; 3; 4] demo_four_rep Hsz).
    unfold zlen. cbn. lia.
  - apply (page_multi_delete_spec demo_four [32; 16; 48; 24] [1; 4; 3] demo_four_rep Hsz); [done|].
    unfold zlen. cbn. lia.
Defined.

Lemma page_overwrite_spec_witness :
  ∃ p', PageIndexTupleOverwrite demo_four 2 56 56 = Ok (p', true) ∧ page_rep p' [32; 56; 48; 24] ∧
    pd_sp p' = pd_sp demo_four ∧ pd_special p' = pd_special demo_four.
Proof.
  apply (page_overwrite_spec demo_four [32; 16; 48; 24] 1 16 56 demo_four_rep eq_refl).
  split; vm_compute; reflexivity.
Defined.
