(* ===== verification/HeapPage.v ===== *)
(** bufpage.c on pages whose line pointers may be unused: repairing fragmentation, cutting
    off trailing unused line pointers, and deleting without renumbering.  The definitions
    are in Compact.v. *)

From S2P Require Import Prelude Bufpage Itup Compact PageOps.

(** * Disjoint intervals fit side by side *)

Abbreviation lp_space a := (MAXALIGN (lp_len a)).

Lemma zsum_split {A} (f : A → Z) (P : A → Prop) `{∀ x, Decision (P x)} l :
  zsum f l = zsum f (filter P l) + zsum f (filter (λ x, ¬ P x) l).
Proof.
  induction l as [|x l IH]; [done|]. rewrite zsum_cons, IH, !filter_cons.
  destruct (decide (P x)), (decide (¬ P x)); try done; rewrite zsum_cons; lia.
Qed.

Lemma ForallOrdPairs_filter {A} (R : A → A → Prop) (P : A → Prop) `{∀ x, Decision (P x)} l :
  ForallOrdPairs R l → ForallOrdPairs R (filter P l).
Proof. apply ForallOrdPairs_sublist, sublist_filter. Qed.

Lemma apart_fit n : ∀ lps lo hi, (length lps ≤ n)%nat → lo ≤ hi →
  Forall (λ a, 0 < lp_len a ∧ lo ≤ lp_off a ∧ lp_off a + lp_space a ≤ hi) lps → ForallOrdPairs apart lps →
  zsum (λ a, lp_space a) lps ≤ hi - lo.
Proof.
  induction n as [|n IH]; intros lps lo hi Hn Hlh HF HO; (destruct lps as [|a lps]; [cbn; lia|]); [cbn in Hn; lia|].
  apply Forall_cons in HF as [(Hl & Ho & Hu) HF]. inversion_clear HO as [|? ? Ha HO']. rewrite List.Forall_forall in Ha.
  pose proof (MAXALIGN_bounds (lp_len a)).
  rewrite zsum_cons, (zsum_split _ (λ b, lp_off b < lp_off a) lps). rewrite Forall_forall in HF.
  assert (zsum (λ a, lp_space a) (filter (λ b, lp_off b < lp_off a) lps) ≤ lp_off a - lo).
  { apply IH; [pose proof (length_filter (λ b, lp_off b < lp_off a) lps); cbn in Hn; lia|lia| |by apply ForallOrdPairs_filter].
    apply Forall_forall. intros b [Hb Hin]%list_elem_of_filter. destruct (HF b Hin) as (? & ? & ?). split_and!; [done|done|].
    destruct (Ha b) as [?|?]; [by apply list_elem_of_In|lia|lia]. }
  assert (zsum (λ a, lp_space a) (filter (λ b, ¬ lp_off b < lp_off a) lps) ≤ hi - (lp_off a + lp_space a)).
  { apply IH; [pose proof (length_filter (λ b, ¬ lp_off b < lp_off a) lps); cbn in Hn; lia|lia| |by apply ForallOrdPairs_filter].
    apply Forall_forall. intros b [Hb Hin]%list_elem_of_filter. destruct (HF b Hin) as (? & ? & ?). pose proof (MAXALIGN_bounds (lp_len b)).
    split_and!; [done| |done]. destruct (Ha b) as [?|?]; [by apply list_elem_of_In|lia|lia]. }
  lia.
Qed.

(** * Line pointers *)

Abbreviation has_storage a := (ItemIdHasStorage a = true).
Abbreviation is_unused a := (ItemIdIsUsed a = false).

(** The numbers and line pointers of the stored tuples. *)
Definition stored_lines (linp : list ItemIdData) : list (nat * ItemIdData) :=
  filter (λ x, has_storage x.2) (imap pair linp).

Definition clear_unused (a : ItemIdData) : ItemIdData := if ItemIdIsUsed a then a else ItemIdSetUnused.

(** The line pointers up to the last used one. *)
Fixpoint used_prefix (linp : list ItemIdData) : list ItemIdData :=
  match linp with
  | [] => []
  | a :: linp => match used_prefix linp with
                 | [] => if ItemIdIsUsed a then [a] else []
                 | l => a :: l
                 end
  end.

Lemma used_prefix_snoc linp a :
  used_prefix (linp ++ [a]) = if ItemIdIsUsed a then linp ++ [a] else used_prefix linp.
Proof.
  induction linp as [|b linp IH]; [done|]. cbn [app used_prefix]. rewrite IH. destruct (ItemIdIsUsed a); [|done].
  by destruct linp.
Qed.

Lemma used_prefix_take linp : used_prefix linp = take (length (used_prefix linp)) linp.
Proof.
  induction linp as [|a linp IH]; [done|]. cbn. destruct (used_prefix linp) as [|b l] eqn:E.
  - by destruct (ItemIdIsUsed a).
  - cbn. f_equal. exact IH.
Qed.

Lemma used_prefix_rest linp : Forall (λ a, is_unused a) (drop (length (used_prefix linp)) linp).
Proof.
  induction linp as [|a linp IH]; [constructor|]. cbn. destruct (used_prefix linp) as [|b l] eqn:E; [|exact IH].
  destruct (ItemIdIsUsed a) eqn:Ea; cbn in *; [by rewrite drop_0 in IH |by constructor].
Qed.

Lemma used_prefix_last linp a : last (used_prefix linp) = Some a → ItemIdIsUsed a = true.
Proof.
  induction linp as [|b linp IH] using rev_ind; [done|]. rewrite used_prefix_snoc. destruct (ItemIdIsUsed b) eqn:Eb; [|done].
  rewrite last_snoc. intros. by simplify_eq.
Qed.

Lemma stored_lines_snoc linp a :
  stored_lines (linp ++ [a]) = stored_lines linp ++ (if ItemIdHasStorage a then [(length linp, a)] else []).
Proof.
  unfold stored_lines. rewrite imap_app, filter_app. f_equal. cbn [imap]. rewrite Nat.add_0_r, filter_cons. cbn [snd].
  destruct (ItemIdHasStorage a) eqn:E; cbn [filter list_filter].
  - by rewrite decide_True.
  - by rewrite decide_False by congruence.
Qed.

Lemma stored_lines_elem linp i a : (i, a) ∈ stored_lines linp ↔ linp !! i = Some a ∧ has_storage a.
Proof.
  unfold stored_lines. rewrite list_elem_of_filter, elem_of_lookup_imap. cbn. split.
  - intros (Hs & j & b & Hj & Hb). by simplify_eq.
  - intros [Hi Ha]. split; [done|]. by exists i, a.
Qed.

Lemma stored_lines_nodup linp : NoDup (stored_lines linp).*1.
Proof.
  eapply sublist_NoDup; [apply (NoDup_seq 0 (length linp))|]. rewrite <- (imap_pair_fst linp).
  apply fmap_sublist, sublist_filter.
Qed.

Lemma stored_lines_chosen {Item Sp} (p : Page Item Sp) : chosen p (stored_lines (pd_linp p)).
Proof.
  constructor; [|apply stored_lines_nodup|].
  - apply Forall_forall. intros [i a] H%stored_lines_elem. done.
  - intros i a Hi Ha. apply list_elem_of_fmap. exists (i, a). split; [done|]. by apply stored_lines_elem.
Qed.

(** * Sound heap pages *)

Section heap.
Context {Item Sp : Type}.
Implicit Types (p : Page Item Sp) (linp : list ItemIdData).

Record heap_ok p : Prop := {
  hp_lower : pd_lower p = SizeOfPageHeaderData + sizeof_ItemIdData * zlen (pd_linp p);
  hp_fits : pd_lower p ≤ pd_upper p ≤ pd_special p;
  hp_special : pd_special p ≤ BLCKSZ ∧ pd_special p mod 8 = 0;
  hp_storage : page_storage p;
  hp_unused : Forall (λ a, is_unused a → ItemIdHasStorage a = false) (pd_linp p);
}.

(** The bytes the stored tuples take. *)
Definition stored_space linp : Z := zsum (λ x, lp_space x.2) (stored_lines linp).

Lemma stored_space_nonneg p : page_storage p → 0 ≤ stored_space (pd_linp p).
Proof.
  intros Hst. apply zsum_Forall_nonneg, Forall_forall. intros [i a] [Hi Ha]%stored_lines_elem. cbn.
  pose proof (sd_pos _ _ _ _ (so_at _ _ _ _ Hst i a Hi Ha)). pose proof (MAXALIGN_bounds (lp_len a)). lia.
Qed.

Lemma stored_space_fits p : page_storage p → pd_upper p ≤ pd_special p →
  stored_space (pd_linp p) ≤ pd_special p - pd_upper p.
Proof.
  intros Hst Hle. unfold stored_space. set (xs := stored_lines (pd_linp p)).
  assert (Hz : zsum (λ x, lp_space x.2) xs = zsum (λ a, lp_space a) xs.*2).
  { generalize xs. intros l. induction l as [|x l IH]; [done|]. cbn [fmap list_fmap]. rewrite !zsum_cons. lia. }
  rewrite Hz. apply (apart_fit (length xs.*2)); [done|done| |].
  - apply Forall_fmap, Forall_forall. intros [i a] [Hi Ha]%stored_lines_elem. cbn. by destruct (so_at _ _ _ _ Hst i a Hi Ha).
  - apply ForallOrdPairs_lookup. intros j k a b Hjk Ha Hb. rewrite list_lookup_fmap in Ha, Hb.
    destruct (xs !! j) as [[i a']|] eqn:Ej; [|done]. destruct (xs !! k) as [[i' b']|] eqn:Ek; [|done]. cbn in Ha, Hb. simplify_eq.
    pose proof (list_elem_of_lookup_2 _ _ _ Ej) as [Hi Hsa]%stored_lines_elem.
    pose proof (list_elem_of_lookup_2 _ _ _ Ek) as [Hi' Hsb]%stored_lines_elem.
    apply (so_apart _ _ _ _ Hst i i'); try done. intros ->. assert (j = k); [|lia].
    apply (NoDup_lookup _ _ _ i' (stored_lines_nodup (pd_linp p))); rewrite list_lookup_fmap; fold xs; by rewrite ?Ej, ?Ek.
Qed.

(** * PageRepairFragmentation *)

Definition unused_count linp : Z := zlen (filter (λ a, is_unused a) linp).

Record repair_inv p (s : repair_state) : Prop := {
  ri_ids : r_ids s = compact_ids (stored_lines (r_linp s));
  ri_total : r_total s = stored_space (r_linp s);
  ri_sorted : r_sorted s = true →
    falls (pd_special p) (stored_lines (r_linp s)).*2 ∧ r_last s = last_off (pd_special p) (stored_lines (r_linp s)).*2;
  ri_unused : r_unused s = unused_count (r_linp s);
  ri_final : r_final s = zlen (used_prefix (r_linp s));
}.

Lemma unused_count_snoc linp a : unused_count (linp ++ [a]) = unused_count linp + (if ItemIdIsUsed a then 0 else 1).
Proof.
  unfold unused_count. rewrite filter_app, zlen_app, filter_cons. destruct (ItemIdIsUsed a).
  - by rewrite decide_False by done.
  - by rewrite decide_True.
Qed.

Lemma repair_step_ok p a s :
  repair_inv p s → zlen (r_linp s) < MaxHeapTuplesPerPage →
  (has_storage a → stored (pd_upper p) (pd_special p) (pd_mem p) a) →
  ∃ s', repair_step p (zlen (r_linp s) + 1) a s = Ok s' ∧ repair_inv p s' ∧ r_linp s' = r_linp s ++ [clear_unused a].
Proof.
  intros [H1 H2 H3 H4 H5] Hn Ha. unfold repair_step, clear_unused.
  assert (Hlen : ∀ b : ItemIdData, zlen (r_linp s) + 1 = zlen (r_linp s ++ [b])) by (intros b; by rewrite zlen_app).
  destruct (ItemIdIsUsed a) eqn:Eu; [destruct (ItemIdHasStorage a) eqn:Es|].
  - destruct (Ha eq_refl) as [Hp Hl Hu _ _]. pose proof (MAXALIGN_bounds (lp_len a)).
    destruct (Z.ltb_spec (lp_off a) (pd_upper p)); [lia|]. destruct (Z.leb_spec (pd_special p) (lp_off a)); [lia|]. cbn [orb].
    assert (Hids : zlen (r_ids s) ≤ zlen (r_linp s)).
    { rewrite H1. unfold zlen, compact_ids, stored_lines. rewrite length_map.
      pose proof (length_filter (λ x : nat * ItemIdData, has_storage x.2) (imap pair (r_linp s))). rewrite length_imap in *. lia. }
    destruct (Z.leb_spec MaxHeapTuplesPerPage (zlen (r_ids s))); [lia|].
    eexists. split_and!; [done| |done].
    constructor; cbn [r_ids r_linp r_total r_sorted r_last r_unused r_final];
      rewrite ?stored_lines_snoc, ?unused_count_snoc, ?used_prefix_snoc, ?Eu, ?Es.
    + rewrite H1. unfold compact_ids. rewrite map_app. cbn. do 3 f_equal. unfold zlen. lia.
    + unfold stored_space in *. rewrite stored_lines_snoc, Es, zsum_app, H2. cbn [zsum foldr snd]. lia.
    + intros [Hso Hlt]%andb_true_iff. rewrite Hlt. destruct (H3 Hso) as [Hf Hla]. apply Z.ltb_lt in Hlt.
      rewrite fmap_app. cbn [fmap list_fmap snd]. rewrite falls_snoc, last_off_snoc, <- Hla. done.
    + lia.
    + done.
  - eexists. split_and!; [done| |done].
    constructor; cbn [r_ids r_linp r_total r_sorted r_last r_unused r_final]; unfold stored_space in *;
      rewrite ?stored_lines_snoc, ?unused_count_snoc, ?used_prefix_snoc, ?Eu, ?Es, ?app_nil_r; done || lia.
  - eexists. split_and!; [done| |done].
    constructor; cbn [r_ids r_linp r_total r_sorted r_last r_unused r_final]; unfold stored_space in *;
      rewrite ?stored_lines_snoc, ?unused_count_snoc, ?used_prefix_snoc; change (ItemIdIsUsed ItemIdSetUnused) with false;
      change (ItemIdHasStorage ItemIdSetUnused) with false; cbv iota; rewrite ?app_nil_r; done || lia.
Qed.

Lemma repair_loop_ok p lps : ∀ i s,
  repair_inv p s → i = zlen (r_linp s) + 1 → zlen (r_linp s) + zlen lps ≤ MaxHeapTuplesPerPage →
  Forall (λ a, has_storage a → stored (pd_upper p) (pd_special p) (pd_mem p) a) lps →
  ∃ s', repair_loop p i lps s = Ok s' ∧ repair_inv p s' ∧ r_linp s' = r_linp s ++ map clear_unused lps.
Proof.
  induction lps as [|a lps IH]; intros i s Hs -> Hn HF.
  - exists s. cbn. by rewrite app_nil_r.
  - apply Forall_cons in HF as [Ha HF].
    assert (Hz : zlen (a :: lps) = zlen lps + 1) by (unfold zlen; cbn; lia). pose proof (zlen_nonneg lps).
    destruct (repair_step_ok p a s Hs) as (s1 & Hst & Hs1 & Hl1); [lia|done|]. cbn [repair_loop map]. rewrite Hst. rsimpl.
    assert (Hlen : zlen (r_linp s1) = zlen (r_linp s) + 1) by (rewrite Hl1; by rewrite zlen_app).
    destruct (IH (zlen (r_linp s) + 1 + 1) s1) as (s' & -> & Hs' & Hl'); [done|lia|lia|done|].
    exists s'. split_and!; [done|done|]. rewrite Hl', Hl1, <- app_assoc. done.
Qed.

Lemma set_free_lines_hint b p : PageHasFreeLinePointers (set_free_lines b p) = b.
Proof.
  unfold PageHasFreeLinePointers, has_flag, PD_HAS_FREE_LINES. destruct b; cbn [set_free_lines].
  - unfold PageSetHasFreeLinePointers, set_page_flags, PD_HAS_FREE_LINES. cbn [pd_flags].
    destruct (Z.eqb_spec (Z.land (Z.lor (pd_flags p) 1) 1) 0) as [E|]; [|done].
    apply (f_equal (λ z, Z.testbit z 0)) in E. rewrite Z.land_spec, Z.lor_spec, orb_true_r in E. done.
  - unfold PageClearHasFreeLinePointers, set_page_flags, PD_HAS_FREE_LINES. cbn [pd_flags].
    rewrite <- Z.land_assoc. change (Z.land (Z.lnot 1) 1) with 0. by rewrite Z.land_0_r.
Qed.

Lemma set_free_lines_same b p : let p' := set_free_lines b p in
  pd_linp p' = pd_linp p ∧ pd_mem p' = pd_mem p ∧ pd_upper p' = pd_upper p ∧ pd_lower p' = pd_lower p ∧
  pd_special p' = pd_special p ∧ pd_sp p' = pd_sp p.
Proof. by destruct b. Qed.

Lemma set_free_lines_heap b p : heap_ok p → heap_ok (set_free_lines b p).
Proof. by destruct b; intros []; constructor. Qed.

Lemma storage_take n linp lo hi (m : mem Item) : storage_ok linp lo hi m → storage_ok (take n linp) lo hi m.
Proof.
  intros [H1 H2 H3]. constructor; [| |done].
  - intros i a [Hi _]%lookup_take_Some. eauto.
  - intros i j a b [Hi _]%lookup_take_Some [Hj _]%lookup_take_Some. eauto.
Qed.

(** Cutting off the line pointers from the [n]th. *)
Lemma cut_heap n p : heap_ok p → 0 ≤ n ≤ zlen (pd_linp p) →
  heap_ok (set_linp (pd_lower p - sizeof_ItemIdData * (zlen (pd_linp p) - n)) (take (Z.to_nat n) (pd_linp p)) p).
Proof.
  intros [H1 H2 H3 H4 H5] Hn.
  assert (Hlen : zlen (take (Z.to_nat n) (pd_linp p)) = n) by (unfold zlen in *; rewrite length_take; lia).
  unfold SizeOfPageHeaderData, sizeof_ItemIdData, BLCKSZ in *.
  constructor; cbn [set_linp pd_lower pd_upper pd_special pd_linp pd_mem]; unfold SizeOfPageHeaderData, sizeof_ItemIdData, BLCKSZ.
  - rewrite Hlen, uint16_id by lia. lia.
  - rewrite uint16_id by lia. lia.
  - done.
  - by apply storage_take.
  - by apply Forall_take.
Qed.

Lemma clear_unused_used a : ItemIdIsUsed (clear_unused a) = ItemIdIsUsed a.
Proof. unfold clear_unused. by destruct (ItemIdIsUsed a) eqn:E. Qed.

Lemma cleared_lookup linp i a : map clear_unused linp !! i = Some a → has_storage a → linp !! i = Some a.
Proof.
  rewrite list_lookup_fmap. destruct (linp !! i) as [b|]; [|done]. cbn. intros ? Hs. simplify_eq. revert Hs.
  unfold clear_unused. destruct (ItemIdIsUsed b); done.
Qed.

Lemma cleared_storage linp lo hi (m : mem Item) : storage_ok linp lo hi m → storage_ok (map clear_unused linp) lo hi m.
Proof.
  intros [H1 H2 H3]. constructor; [| |done].
  - intros i a Hi Ha. eapply H1; [by apply cleared_lookup|done].
  - intros i j a b Hi Hj Hij Ha Hb. apply (H2 i j); try done; by apply cleared_lookup.
Qed.

Lemma stored_lines_nil linp : stored_lines linp = [] → Forall (λ a, ItemIdHasStorage a = false) linp.
Proof.
  intros E. apply Forall_lookup. intros i a Hi. apply not_true_iff_false. intros Ha.
  assert (Hin : (i, a) ∈ stored_lines linp) by (by apply stored_lines_elem). rewrite E in Hin. by apply elem_of_nil in Hin.
Qed.

Lemma same_line_refl (m : mem Item) a : same_line m m a a.
Proof. done. Qed.

(** The step that packs the tuples, if there are any. *)
Lemma repair_pack p1 s (total : Z) :
  heap_ok p1 → repair_inv p1 s → r_linp s = pd_linp p1 → total = pd_special p1 - pd_lower p1 →
  ∃ p2, (if zlen (r_ids s) =? 0 then Ok (set_compacted (pd_special p1) (pd_linp p1) (pd_mem p1) p1)
         else if total <? r_total s then Err (Elog "corrupted item lengths")
         else compactify_tuples (r_ids s) (r_sorted s) p1) = Ok p2 ∧
    heap_ok p2 ∧ pd_special p2 - pd_upper p2 = stored_space (pd_linp p1) ∧
    pd_special p2 = pd_special p1 ∧ pd_lower p2 = pd_lower p1 ∧ pd_sp p2 = pd_sp p1 ∧
    Forall2 (same_line (pd_mem p1) (pd_mem p2)) (pd_linp p1) (pd_linp p2).
Proof.
  intros Hh Hs Hl ->. destruct Hh as [H1 H2 [H3 H3'] H4 H5].
  assert (Hlow : 0 ≤ pd_lower p1) by (rewrite H1; pose proof (zlen_nonneg (pd_linp p1)); unfold SizeOfPageHeaderData, sizeof_ItemIdData; lia).
  rewrite (ri_ids _ _ Hs), (ri_total _ _ Hs), Hl.
  pose proof (stored_space_fits p1 H4 ltac:(lia)) as Hfit.
  destruct (Z.eqb_spec (zlen (compact_ids (stored_lines (pd_linp p1)))) 0) as [Ez|Ez].
  - assert (En : stored_lines (pd_linp p1) = []).
    { apply nil_length_inv. unfold zlen, compact_ids in Ez. rewrite length_map in Ez. lia. }
    pose proof (stored_lines_nil _ En) as HF. unfold BLCKSZ in *.
    assert (Hup : uint16 (pd_special p1) = pd_special p1) by (apply uint16_id; lia).
    eexists. split; [done|]. cbn. rewrite Hup. unfold stored_space. rewrite En. split_and!; try done; [|cbn; lia|].
    + constructor; cbn; rewrite ?Hup; try done; [lia|]. rewrite Forall_lookup in HF. constructor; [| |apply H4].
      * intros i a Hi Ha. rewrite (HF i a Hi) in Ha. done.
      * intros i j a b Hi _ _ Ha. rewrite (HF i a Hi) in Ha. done.
    + apply Forall_Forall2_diag, Forall_true. intros a. apply same_line_refl.
  - destruct (Z.ltb_spec (pd_special p1 - pd_lower p1) (stored_space (pd_linp p1))); [lia|].
    destruct (compactify_lines p1 (stored_lines (pd_linp p1)) (r_sorted s)) as (p2 & -> & Hc); try done.
    + apply stored_lines_chosen.
    + intros E. rewrite E in Ez. done.
    + lia.
    + intros E. destruct (ri_sorted _ _ Hs E) as [Hf _]. by rewrite Hl in Hf.
    + destruct Hc as [C1 C2 C3 C4 C5 C6 C7]. exists p2. fold (stored_space (pd_linp p1)) in C1. split_and!; try done; [|lia].
      assert (Hz : zlen (pd_linp p2) = zlen (pd_linp p1)) by (unfold zlen; by rewrite (Forall2_length _ _ _ C7)).
      pose proof (stored_space_nonneg p1 H4). constructor; rewrite ?C2, ?C3, ?Hz; try done; [lia|by rewrite <- C3|].
      apply Forall_lookup. intros i b Hb Hu. destruct (Forall2_lookup_r _ _ _ _ _ C7 Hb) as (a & Ha & [E1 E2 _ _]).
      rewrite Forall_lookup in H5. specialize (H5 i a Ha). unfold ItemIdIsUsed, ItemIdHasStorage in *. rewrite E1 in Hu. rewrite E2. auto.
Qed.

Abbreviation some_unused linp := (bool_decide (Exists (λ a, is_unused a) linp)).

Lemma unused_count_pos linp : (0 <? unused_count linp) = some_unused linp.
Proof.
  unfold unused_count. induction linp as [|a linp IH]; [done|]. rewrite filter_cons, (bool_decide_ext _ _ (Exists_cons _ a linp)).
  destruct (ItemIdIsUsed a).
  - rewrite decide_False, IH by done. apply bool_decide_ext. split; [by right|by intros [?|?]].
  - rewrite decide_True, bool_decide_eq_true_2 by auto. apply Z.ltb_lt. unfold zlen. cbn. lia.
Qed.

Lemma unused_count_app l1 l2 : unused_count (l1 ++ l2) = unused_count l1 + unused_count l2.
Proof. unfold unused_count. by rewrite filter_app, zlen_app. Qed.

Lemma unused_count_all linp : Forall (λ a, is_unused a) linp → unused_count linp = zlen linp.
Proof. intros HF. unfold unused_count. by rewrite filter_all. Qed.

Lemma unused_count_prefix linp :
  unused_count linp - (zlen linp - zlen (used_prefix linp)) = unused_count (used_prefix linp).
Proof.
  rewrite <- (take_drop (length (used_prefix linp)) linp) at 1. rewrite unused_count_app, <- used_prefix_take.
  rewrite (unused_count_all _ (used_prefix_rest linp)). unfold zlen. rewrite length_drop.
  pose proof (used_prefix_take linp) as E%(f_equal length). rewrite length_take in E. lia.
Qed.

Lemma same_line_unused (m m' : mem Item) l l' : Forall2 (same_line m m') l l' → unused_count l' = unused_count l.
Proof.
  unfold unused_count. induction 1 as [|a b l l' [E _ _ _] _ IH]; [done|]. rewrite !filter_cons.
  assert (Hu : ItemIdIsUsed b = ItemIdIsUsed a) by (unfold ItemIdIsUsed; by rewrite E). rewrite Hu.
  destruct (ItemIdIsUsed a).
  - by rewrite !decide_False.
  - rewrite !decide_True by done. unfold zlen in *. cbn. lia.
Qed.

Lemma stored_lines_cleared linp : Forall (λ a, is_unused a → ItemIdHasStorage a = false) linp →
  stored_lines (map clear_unused linp) = stored_lines linp.
Proof.
  induction linp as [|a linp IH] using rev_ind; [done|]. intros [HF [Ha _]%Forall_cons]%Forall_app.
  rewrite map_app. cbn [map]. rewrite !stored_lines_snoc, IH, length_map by done. f_equal. unfold clear_unused.
  destruct (ItemIdIsUsed a); [done|]. by rewrite (Ha eq_refl).
Qed.

Lemma heap_max p : heap_ok p → PageGetMaxOffsetNumber p = zlen (pd_linp p) ∧ bad_pointers p = false ∧ uint16 (pd_lower p) = pd_lower p.
Proof.
  intros [H1 H2 [H3 H3'] _ _]. pose proof (zlen_nonneg (pd_linp p)). unfold SizeOfPageHeaderData, sizeof_ItemIdData, BLCKSZ in *. split_and!.
  - unfold PageGetMaxOffsetNumber, SizeOfPageHeaderData, sizeof_ItemIdData. destruct (Z.leb_spec (pd_lower p) 24); [lia|].
    replace (pd_lower p - 24) with (zlen (pd_linp p) * 4) by lia. rewrite Z.div_mul by lia. apply uint16_id. lia.
  - unfold bad_pointers, corrupted_pointers, SizeOfPageHeaderData, BLCKSZ. rewrite MAXALIGN_id, Z.eqb_refl by done. cbn [negb].
    rewrite !orb_false_iff, !Z.ltb_ge. lia.
  - apply uint16_id. lia.
Qed.

Lemma cleared_heap p : heap_ok p → heap_ok (set_linp (pd_lower p) (map clear_unused (pd_linp p)) p).
Proof.
  intros Hh. destruct (heap_max p Hh) as (_ & _ & Hl). destruct Hh as [H1 H2 H3 H4 H5].
  assert (Hz : zlen (map clear_unused (pd_linp p)) = zlen (pd_linp p)) by (unfold zlen; by rewrite length_map).
  constructor; cbn; rewrite ?Hl, ?Hz; try done; [by apply cleared_storage|].
  apply Forall_map. eapply Forall_impl; [exact H5|]. cbn. intros a Ha. unfold clear_unused.
  destruct (ItemIdIsUsed a) eqn:E; [congruence|done].
Qed.

(** The step that cuts off the trailing unused line pointers. *)
Lemma repair_trim p2 m l1 nline :
  heap_ok p2 → Forall2 (same_line m (pd_mem p2)) l1 (pd_linp p2) → nline = zlen l1 →
  let final := zlen (used_prefix l1) in
  ∃ p3, (if negb (final =? nline)
         then (set_linp (pd_lower p2 - sizeof_ItemIdData * (nline - final)) (take (Z.to_nat final) (pd_linp p2)) p2,
               unused_count l1 - (nline - final))
         else (p2, unused_count l1)) = (p3, unused_count (pd_linp p3)) ∧ heap_ok p3 ∧
    Forall2 (same_line m (pd_mem p3)) (used_prefix l1) (pd_linp p3) ∧
    pd_upper p3 = pd_upper p2 ∧ pd_special p3 = pd_special p2 ∧ pd_sp p3 = pd_sp p2.
Proof.
  intros Hh Hsame -> final.
  assert (Hz : zlen (pd_linp p2) = zlen l1) by (unfold zlen; by rewrite (Forall2_length _ _ _ Hsame)).
  pose proof (used_prefix_take l1) as Htk. pose proof (unused_count_prefix l1) as Hcnt. fold final in Hcnt.
  assert (Hple : 0 ≤ final ≤ zlen l1).
  { unfold final. apply (f_equal length) in Htk. rewrite length_take in Htk. unfold zlen. lia. }
  assert (Hsame' : Forall2 (same_line m (pd_mem p2)) (used_prefix l1) (take (Z.to_nat final) (pd_linp p2))).
  { rewrite Htk. unfold final, zlen. rewrite Nat2Z.id. by apply Forall2_take. }
  pose proof (same_line_unused _ _ _ _ Hsame') as Hcnt'. rewrite Hcnt.
  destruct (Z.eqb_spec final (zlen l1)) as [E|E]; cbn [negb].
  - rewrite take_ge in Hsame', Hcnt' by (unfold zlen in *; lia). exists p2. split_and!; try done. rewrite Hcnt', <- Hcnt, E. f_equal. lia.
  - eexists. split; [apply pair_eq; split; [reflexivity|symmetry; exact Hcnt']|]. rewrite <- Hz in Hple |- *. by split; [apply cut_heap|].
Qed.

(** [PageRepairFragmentation] keeps every tuple under its number and makes the free space
    contiguous. *)
Lemma PageRepairFragmentation_ok p :
  heap_ok p → zlen (pd_linp p) ≤ MaxHeapTuplesPerPage →
  ∃ p', PageRepairFragmentation p = Ok p' ∧ heap_ok p' ∧
    Forall2 (same_line (pd_mem p) (pd_mem p')) (used_prefix (map clear_unused (pd_linp p))) (pd_linp p') ∧
    pd_special p' - pd_upper p' = stored_space (pd_linp p) ∧
    PageHasFreeLinePointers p' = some_unused (pd_linp p') ∧ pd_special p' = pd_special p ∧ pd_sp p' = pd_sp p.
Proof.
  intros Hh Hn. destruct (heap_max p Hh) as (Hmax & Hbad & Hl16). unfold PageRepairFragmentation. rewrite Hbad, Hmax.
  destruct (repair_loop_ok p (pd_linp p) FirstOffsetNumber (mkRepair [] [] 0 (pd_special p) true 0 InvalidOffsetNumber))
    as (s & -> & Hs & Hlin); [by constructor|done|done| |].
  { apply Forall_lookup. intros i a Hi Ha. by eapply (so_at _ _ _ _ (hp_storage _ Hh)). }
  rsimpl. cbn [r_linp app] in Hlin. rewrite Hlin. pose proof (cleared_heap p Hh) as Hh1.
  set (p1 := set_linp _ _ p) in *.
  destruct (repair_pack p1 s (pd_special p - pd_lower p) Hh1) as (p2 & Hp2 & Hh2 & Hsum & Hspc & _ & Hsp & Hsame).
  { by destruct Hs. } { done. } { cbn. by rewrite Hl16. }
  change (set_compacted (pd_special p) (map clear_unused (pd_linp p)) (pd_mem p) p1)
    with (set_compacted (pd_special p1) (pd_linp p1) (pd_mem p1) p1). rewrite Hp2. rsimpl.
  rewrite (ri_final _ _ Hs), (ri_unused _ _ Hs), Hlin.
  destruct (repair_trim p2 (pd_mem p) (map clear_unused (pd_linp p)) (zlen (pd_linp p)) Hh2 Hsame) as (p3 & -> & Hh3 & Hsame3 & Hu3 & Hs3 & Hsp3).
  { unfold zlen. by rewrite length_map. }
  eexists. split; [done|]. destruct (set_free_lines_same (0 <? unused_count (pd_linp p3)) p3) as (E1 & E2 & E3 & _ & E4 & E5).
  rewrite set_free_lines_hint, E1, E2, E3, E4, E5, Hu3, Hs3, Hsp3, Hsum, Hspc, Hsp, unused_count_pos.
  split_and!; try done; [by apply set_free_lines_heap|].
  exact (f_equal (zsum _) (stored_lines_cleared _ (hp_unused _ Hh))).
Qed.

(** * PageTruncateLinePointerArray *)

(** What is left: the line pointers up to the last used one, but at least one. *)
Definition truncated linp : list ItemIdData :=
  match used_prefix linp with [] => take 1 linp | l => l end.

Lemma truncate_loop_counted l : ∀ n, truncate_loop (reverse l) true n = (n, some_unused l).
Proof.
  induction l as [|a l IH] using rev_ind; intros n; [done|]. rewrite reverse_snoc. cbn [truncate_loop negb andb].
  rewrite IH. rewrite (bool_decide_ext _ _ (Exists_app _ l [a])), (bool_decide_ext _ _ (or_iff_compat_l _ (Exists_cons _ a []))).
  destruct (ItemIdIsUsed a) eqn:E; cbn [negb].
  - f_equal. apply bool_decide_ext. split; [by left|]. intros [?|[?|H]]; [done|congruence|by apply Exists_nil in H].
  - f_equal. symmetry. apply bool_decide_eq_true_2. auto.
Qed.

Lemma truncate_loop_ok l : ∀ n,
  truncate_loop (reverse l) false n = (n + (zlen l - zlen (truncated l)), some_unused (truncated l)).
Proof.
  induction l as [|a l IH] using rev_ind; intros n; [cbn; by rewrite Z.add_0_r|].
  rewrite reverse_snoc. cbn [truncate_loop negb andb]. unfold truncated. rewrite used_prefix_snoc.
  destruct (decide (l = [])) as [->|Hl].
  - rewrite bool_decide_eq_true_2 by done. cbn [negb app used_prefix take].
    assert (Ha : some_unused [a] = negb (ItemIdIsUsed a)).
    { destruct (ItemIdIsUsed a) eqn:E; [apply bool_decide_eq_false_2|apply bool_decide_eq_true_2; by left].
      intros [?|H]%Exists_cons; [congruence|by apply Exists_nil in H]. }
    assert (Hk : (match (if ItemIdIsUsed a then [a] else []) with [] => [a] | l => l end) = [a]) by (by destruct (ItemIdIsUsed a)).
    rewrite Hk, Ha, Z.sub_diag, Z.add_0_r. by destruct (ItemIdIsUsed a).
  - rewrite bool_decide_eq_false_2 by (intros E%(f_equal reverse); rewrite reverse_involutive in E; done). cbn [negb].
    destruct (ItemIdIsUsed a) eqn:E; cbn [negb].
    + rewrite truncate_loop_counted. destruct (l ++ [a]) as [|x k] eqn:El; [by destruct l|]. rewrite <- El, Z.sub_diag, Z.add_0_r. f_equal.
      apply bool_decide_ext. rewrite Exists_app, Exists_cons, Exists_nil. rewrite E. intuition congruence.
    + rewrite IH. fold (truncated l). unfold truncated. f_equal; [rewrite zlen_app; change (zlen [a]) with 1; destruct (used_prefix l); [|lia]|].
      * rewrite take_app_le by (destruct l; cbn; [done|lia]). lia.
      * destruct (used_prefix l); [|done]. by rewrite take_app_le by (destruct l; cbn; [done|lia]).
Qed.

Lemma PageTruncateLinePointerArray_ok p :
  heap_ok p → let p' := PageTruncateLinePointerArray p in
  heap_ok p' ∧ pd_linp p' = truncated (pd_linp p) ∧ PageHasFreeLinePointers p' = some_unused (pd_linp p') ∧
  pd_mem p' = pd_mem p ∧ pd_upper p' = pd_upper p ∧ pd_special p' = pd_special p ∧ pd_sp p' = pd_sp p.
Proof.
  intros Hh. unfold PageTruncateLinePointerArray. rewrite truncate_loop_ok, Z.add_0_l. destruct (heap_max p Hh) as (-> & _).
  set (l := truncated (pd_linp p)).
  assert (Hl : l = take (length l) (pd_linp p) ∧ zlen l ≤ zlen (pd_linp p)).
  { unfold l, truncated. pose proof (used_prefix_take (pd_linp p)) as E. destruct (used_prefix (pd_linp p)).
    - split; [by destruct (pd_linp p)|]. unfold zlen. rewrite length_take. lia.
    - split; [done|]. apply (f_equal length) in E. rewrite length_take in E. unfold zlen. lia. }
  destruct Hl as [Hl Hle]. pose proof (zlen_nonneg l). cbv zeta.
  match goal with |- context [set_free_lines ?b ?q] => set (p1 := q); destruct (set_free_lines_same b p1) as (E1 & E2 & E3 & _ & E4 & E5) end.
  rewrite set_free_lines_hint, E1, E2, E3, E4, E5.
  assert (Hp1 : heap_ok p1 ∧ pd_linp p1 = l ∧ pd_mem p1 = pd_mem p ∧ pd_upper p1 = pd_upper p ∧ pd_special p1 = pd_special p ∧ pd_sp p1 = pd_sp p).
  { unfold p1. destruct (Z.ltb_spec 0 (zlen (pd_linp p) - zlen l)) as [Hlt|Hge].
    - replace (zlen (pd_linp p) - (zlen (pd_linp p) - zlen l)) with (zlen l) by lia.
      split_and!; try done; [by apply cut_heap|]. cbn. rewrite Hl at 2. unfold zlen. by rewrite Nat2Z.id.
    - split_and!; try done. rewrite Hl, take_ge; [done|]. unfold zlen in *. lia. }
  destruct Hp1 as (Hh1 & -> & -> & -> & -> & ->). split_and!; try done. by apply set_free_lines_heap.
Qed.

(** * PageIndexTupleDeleteNoCompact *)

Section no_compact.
Context p i x (Hh : heap_ok p) (Hi : pd_linp p !! i = Some x) (Hx : has_storage x).

Local Abbreviation shift := (shift_stored (lp_off x) (lp_space x)).

Definition gap_mem : mem Item :=
  if pd_upper p <? lp_off x
  then mem_copy (pd_upper p + lp_space x) (pd_upper p) (lp_off x - pd_upper p) (pd_mem p) (pd_mem p)
  else pd_mem p.

(** The line pointers that are left, before the tuples move. *)
Definition without_line : list ItemIdData :=
  if Z.of_nat i + 1 <? zlen (pd_linp p) then <[i := ItemIdSetUnused]> (pd_linp p) else take i (pd_linp p).

Lemma gone_stored : stored (pd_upper p) (pd_special p) (pd_mem p) x.
Proof. by eapply (so_at _ _ _ _ (hp_storage _ Hh)). Qed.

Lemma without_line_lookup j y : without_line !! j = Some y →
  (j = i ∧ y = ItemIdSetUnused) ∨ (j ≠ i ∧ pd_linp p !! j = Some y).
Proof.
  unfold without_line. destruct (_ <? _).
  - destruct (decide (j = i)) as [->|Hj].
    + rewrite list_lookup_insert_eq by (by eapply lookup_lt_Some). intros [=<-]. by left.
    + rewrite list_lookup_insert_ne by done. auto.
  - intros [Hy Hj]%lookup_take_Some. right. split; [lia|done].
Qed.

Lemma shift_cases y : stored (pd_upper p) (pd_special p) (pd_mem p) y → apart x y →
  lp_flags (shift y) = lp_flags y ∧ lp_len (shift y) = lp_len y ∧
  (lp_off y + lp_space y ≤ lp_off x ∧ lp_off (shift y) = lp_off y + lp_space x ∨
   lp_off x + lp_space x ≤ lp_off y ∧ lp_off (shift y) = lp_off y).
Proof.
  intros [Hp Hl Hu _ _] Ha. pose proof gone_stored as [? ? ? _ _]. pose proof (hp_special _ Hh) as [? _].
  pose proof (hp_lower _ Hh). pose proof (hp_fits _ Hh). pose proof (zlen_nonneg (pd_linp p)).
  pose proof (MAXALIGN_bounds (lp_len x)). pose proof (MAXALIGN_bounds (lp_len y)).
  unfold shift_stored, apart, ItemIdHasStorage, SizeOfPageHeaderData, sizeof_ItemIdData, BLCKSZ in *.
  destruct (Z.eqb_spec (lp_len y) 0); [lia|]. cbn [negb andb].
  destruct (Z.leb_spec (lp_off y) (lp_off x)); cbn [set_lp_off lp_off lp_len lp_flags]; rewrite ?bits15_id by lia; split_and!; try done; lia.
Qed.

Lemma gap_lookup y : stored (pd_upper p) (pd_special p) (pd_mem p) y → apart x y → gap_mem !! lp_off (shift y) = pd_mem p !! lp_off y.
Proof.
  intros Hy Ha. destruct (shift_cases y Hy Ha) as (_ & _ & Hc). destruct Hy as [Hp Hl Hu _ [it Hm]]. rewrite Hm.
  pose proof (MAXALIGN_bounds (lp_len x)). pose proof (MAXALIGN_bounds (lp_len y)). pose proof (sd_pos _ _ _ _ gone_stored). unfold gap_mem.
  destruct Hc as [[? ->]|[? ->]]; destruct (Z.ltb_spec (pd_upper p) (lp_off x)); try lia; [| |done].
  - replace (lp_off y + lp_space x) with (lp_off y + (pd_upper p + lp_space x - pd_upper p)) by lia. apply mem_copy_moved; [done|lia|lia|lia].
  - apply mem_copy_keep; [done|lia|apply (hp_storage _ Hh)|lia].
Qed.

(** A line pointer with storage that is left was there before. *)
Lemma shifted_from j b : map shift without_line !! j = Some b → has_storage b →
  ∃ y, j ≠ i ∧ pd_linp p !! j = Some y ∧ has_storage y ∧ b = shift y ∧ stored (pd_upper p) (pd_special p) (pd_mem p) y ∧ apart x y.
Proof.
  rewrite list_lookup_fmap. destruct (without_line !! j) as [y|] eqn:Ey; [|done]. cbn. intros [=<-] Hs.
  assert (Hy : has_storage y).
  { revert Hs. unfold shift_stored. destruct (_ && _) eqn:E; [|done]. by apply andb_true_iff in E as [? _]. }
  destruct (without_line_lookup j y Ey) as [[-> ->]|[Hj Hlj]]; [done|]. exists y. pose proof (hp_storage _ Hh) as Hst.
  split_and!; try done; [by eapply (so_at _ _ _ _ Hst)|]. by apply (so_apart _ _ _ _ Hst i j).
Qed.

Lemma gap_storage : storage_ok (map shift without_line) (pd_upper p + lp_space x) (pd_special p) gap_mem.
Proof.
  constructor.
  - intros j b Hj Hb. destruct (shifted_from j b Hj Hb) as (y & _ & _ & _ & -> & Hs & Ha).
    destruct (shift_cases y Hs Ha) as (_ & El & Hc). pose proof (gap_lookup y Hs Ha) as Hm. pose proof gone_stored as [? ? ? Hax _].
    destruct Hs as [? ? ? Hay [it Hit]]. rewrite Hit in Hm. pose proof (MAXALIGN_mult (lp_len x)).
    constructor; rewrite ?El; [done|lia|lia| |by exists it].
    destruct Hc as [[? ->]|[? ->]]; [by apply mod8_add|done].
  - intros j k a b Hj Hk Hjk Ha Hb.
    destruct (shifted_from j a Hj Ha) as (y & _ & Hy & Hsy & -> & Hty & Hxy). destruct (shifted_from k b Hk Hb) as (z & _ & Hz & Hsz & -> & Htz & Hxz).
    pose proof (so_apart _ _ _ _ (hp_storage _ Hh) j k y z Hy Hz Hjk Hsy Hsz) as Hyz.
    destruct (shift_cases y Hty Hxy) as (_ & Ely & Hcy), (shift_cases z Htz Hxz) as (_ & Elz & Hcz).
    pose proof (MAXALIGN_bounds (lp_len x)). pose proof (MAXALIGN_bounds (lp_len y)). pose proof (MAXALIGN_bounds (lp_len z)).
    pose proof (sd_pos _ _ _ _ Hty). pose proof (sd_pos _ _ _ _ Htz). pose proof (sd_pos _ _ _ _ gone_stored). unfold apart in *. rewrite Ely, Elz. lia.
  - unfold gap_mem. destruct (_ <? _); [apply cells_positive_copy|]; apply (hp_storage _ Hh).
Qed.

Lemma gap_same : Forall2 (same_line (pd_mem p) gap_mem) without_line (map shift without_line).
Proof.
  apply Forall2_fmap_r, Forall2_same_length_lookup_2; [done|]. intros j y y' Hy Hy'. rewrite Hy in Hy'. injection Hy' as <-.
  destruct (ItemIdHasStorage y) eqn:Es.
  - destruct (without_line_lookup j y Hy) as [[-> ->]|[Hj Hlj]]; [done|]. pose proof (hp_storage _ Hh) as Hst.
    pose proof (so_at _ _ _ _ Hst j y Hlj Es) as Hs. pose proof (so_apart _ _ _ _ Hst i j x y Hi Hlj (not_eq_sym Hj) Hx Es) as Ha.
    destruct (shift_cases y Hs Ha) as (Ef & El & _). constructor; [done|done| |congruence]. intros _. by apply gap_lookup.
  - unfold shift_stored, compose. rewrite Es. cbn [andb]. constructor; try done. congruence.
Qed.
End no_compact.

Lemma PageIndexTupleDeleteNoCompact_ok p i x :
  heap_ok p → pd_linp p !! i = Some x → has_storage x →
  ∃ p', PageIndexTupleDeleteNoCompact p (Z.of_nat i + 1) = Ok p' ∧ heap_ok p' ∧
    Forall2 (same_line (pd_mem p) (pd_mem p')) (without_line p i) (pd_linp p') ∧
    pd_upper p' = pd_upper p + lp_space x ∧ pd_special p' = pd_special p ∧ pd_sp p' = pd_sp p.
Proof.
  intros Hh Hi Hx. destruct (heap_max p Hh) as (Hmax & Hbad & Hl16). pose proof (gone_stored p i x Hh Hi Hx) as [Hp Hl Hu Hal _].
  pose proof (lookup_lt_Some _ _ _ Hi) as Hlt. pose proof (MAXALIGN_bounds (lp_len x)).
  assert (Hn : Z.of_nat i + 1 ≤ zlen (pd_linp p)) by (unfold zlen; lia).
  unfold PageIndexTupleDeleteNoCompact, checked_item. rewrite Hbad, Hmax.
  destruct (Z.leb_spec (Z.of_nat i + 1) 0); [lia|]. destruct (Z.ltb_spec (zlen (pd_linp p)) (Z.of_nat i + 1)); [lia|]. cbn [orb].
  unfold PageGetItemId. destruct (Z.ltb_spec (Z.of_nat i + 1) 1); [lia|]. replace (Z.to_nat (Z.of_nat i + 1 - 1)) with i by lia.
  rewrite Hi. rsimpl. destruct (Z.ltb_spec (lp_off x) (pd_upper p)); [lia|]. destruct (Z.ltb_spec (pd_special p) (lp_off x + lp_len x)); [lia|].
  rewrite (MAXALIGN_id _ Hal), Z.eqb_refl. cbn [orb negb]. rsimpl.
  match goal with |- context [if ?c then (?a, ?b) else (?a', ?b')] => set (q := if c then (a, b) else (a', b')) end.
  pose proof (hp_lower _ Hh) as Hlo. pose proof (hp_fits _ Hh) as Hfit. pose proof (hp_special _ Hh) as [? ?].
  assert (Hq : ∃ lower, q = (without_line p i, lower) ∧ lower = SizeOfPageHeaderData + sizeof_ItemIdData * zlen (without_line p i) ∧ lower ≤ pd_lower p).
  { unfold q, without_line, SizeOfPageHeaderData, sizeof_ItemIdData, BLCKSZ in *. destruct (Z.ltb_spec (Z.of_nat i + 1) (zlen (pd_linp p))).
    - eexists. split; [done|]. split; [|lia]. unfold zlen in *. rewrite length_insert. lia.
    - replace (Z.to_nat (zlen (pd_linp p) - 1)) with i by lia. eexists. split; [done|]. rewrite uint16_id by lia.
      unfold zlen in *. rewrite length_take. lia. }
  destruct Hq as (lower & -> & Hlow & Hle).
  assert (Hlin : (if lower <=? SizeOfPageHeaderData then without_line p i else map (shift_stored (lp_off x) (lp_space x)) (without_line p i))
                 = map (shift_stored (lp_off x) (lp_space x)) (without_line p i)).
  { destruct (Z.leb_spec lower SizeOfPageHeaderData) as [Hz|]; [|done]. unfold zlen, sizeof_ItemIdData in Hlow.
    by destruct (without_line p i); [|cbn in Hlow; lia]. }
  rewrite Hlin. eexists. split; [done|]. fold (gap_mem p x). cbn [pd_upper pd_special pd_sp pd_mem pd_linp pd_lower pd_flags].
  assert (Hu16 : uint16 (pd_upper p + lp_space x) = pd_upper p + lp_space x).
  { pose proof (zlen_nonneg (pd_linp p)). unfold SizeOfPageHeaderData, sizeof_ItemIdData, BLCKSZ in *. apply uint16_id. lia. }
  pose proof (gap_same p i x Hh Hi Hx) as Hsame. split_and!; try done. constructor; cbn; rewrite ?Hu16; try done.
  - rewrite Hlow. unfold zlen. by rewrite length_map.
  - lia.
  - by apply gap_storage.
  - apply Forall_lookup. intros j b Hb Hub. destruct (Forall2_lookup_r _ _ _ _ _ Hsame Hb) as (a & Ha & [E1 E2 _ _]).
    destruct (without_line_lookup p i x Hi j a Ha) as [[-> ->]|[_ Hlj]]; [unfold ItemIdHasStorage; by rewrite E2|].
    pose proof (hp_unused _ Hh) as HU. rewrite Forall_lookup in HU. specialize (HU j a Hlj).
    unfold ItemIdIsUsed, ItemIdHasStorage in *. rewrite E1 in Hub. rewrite E2. auto.
Qed.
End heap.

(** * Theorems *)

(** [PageRepairFragmentation] on a sound heap page, whatever the order and the gaps of
    its tuples, succeeds: every line pointer up to the last used one keeps its number, its
    flags and its tuple, the trailing unused ones are cut off, the tuples are packed with no
    gap, the hint says exactly whether an unused line pointer is left, and the page is
    sound. *)
Theorem page_repair_fragmentation_spec {Item Sp} (p : Page Item Sp) :
  heap_ok p → zlen (pd_linp p) ≤ MaxHeapTuplesPerPage →
  ∃ p', PageRepairFragmentation p = Ok p' ∧ heap_ok p' ∧
    Forall2 (same_line (pd_mem p) (pd_mem p')) (used_prefix (map clear_unused (pd_linp p))) (pd_linp p') ∧
    pd_special p' - pd_upper p' = stored_space (pd_linp p) ∧
    PageHasFreeLinePointers p' = bool_decide (Exists (λ a, is_unused a) (pd_linp p')) ∧
    pd_special p' = pd_special p ∧ pd_sp p' = pd_sp p.
Proof. apply PageRepairFragmentation_ok. Qed.

(** [PageTruncateLinePointerArray] on a sound heap page cuts off the line pointers after
    the last used one, but leaves at least one, sets the hint exactly when an unused line
    pointer is left, and changes no tuple. *)
Theorem page_truncate_spec {Item Sp} (p : Page Item Sp) :
  heap_ok p → let p' := PageTruncateLinePointerArray p in
  heap_ok p' ∧ pd_linp p' = truncated (pd_linp p) ∧
  PageHasFreeLinePointers p' = bool_decide (Exists (λ a, is_unused a) (pd_linp p')) ∧
  pd_mem p' = pd_mem p ∧ pd_upper p' = pd_upper p ∧ pd_special p' = pd_special p ∧ pd_sp p' = pd_sp p.
Proof. apply PageTruncateLinePointerArray_ok. Qed.

(** [PageIndexTupleDeleteNoCompact] on a sound page frees the space of the tuple, leaves
    every other tuple under its number, and either marks the line pointer unused or, when it
    is the last, removes it. *)
Theorem page_delete_no_compact_spec {Item Sp} (p : Page Item Sp) i x :
  heap_ok p → pd_linp p !! i = Some x → ItemIdHasStorage x = true →
  ∃ p', PageIndexTupleDeleteNoCompact p (Z.of_nat i + 1) = Ok p' ∧ heap_ok p' ∧
    Forall2 (same_line (pd_mem p) (pd_mem p')) (without_line p i) (pd_linp p') ∧
    pd_upper p' = pd_upper p + MAXALIGN (lp_len x) ∧ pd_special p' = pd_special p ∧ pd_sp p' = pd_sp p.
Proof. apply PageIndexTupleDeleteNoCompact_ok. Qed.

(** ** Witnesses *)

(** A test for [heap_ok]. *)
Definition heap_okb {Item Sp} (p : Page Item Sp) : bool :=
  let numbered := imap pair (pd_linp p) in
  (pd_lower p =? SizeOfPageHeaderData + sizeof_ItemIdData * zlen (pd_linp p)) &&
  (pd_lower p <=? pd_upper p) && (pd_upper p <=? pd_special p) && (pd_special p <=? BLCKSZ) && (pd_special p mod 8 =? 0) &&
  forallb (λ a, negb (ItemIdHasStorage a) ||
    ((0 <? lp_len a) && (pd_upper p <=? lp_off a) && (lp_off a + MAXALIGN (lp_len a) <=? pd_special p) &&
     (lp_off a mod 8 =? 0) && match pd_mem p !! lp_off a with Some c => c.1 =? lp_len a | None => false end)) (pd_linp p) &&
  forallb (λ ab : (nat * ItemIdData) * (nat * ItemIdData), let '((i, a), (j, b)) := ab in
    (i =? j)%nat || negb (ItemIdHasStorage a) || negb (ItemIdHasStorage b) ||
    (lp_off a + MAXALIGN (lp_len a) <=? lp_off b) || (lp_off b + MAXALIGN (lp_len b) <=? lp_off a)) (list_prod numbered numbered) &&
  forallb (λ oc, 0 <? oc.2.1) (map_to_list (pd_mem p)) &&
  forallb (λ a, ItemIdIsUsed a || negb (ItemIdHasStorage a)) (pd_linp p).

Lemma numbered_in {A} (l : list A) i a : l !! i = Some a → In (i, a) (imap pair l).
Proof. intros H. apply list_elem_of_In, list_elem_of_lookup. exists i. by rewrite list_lookup_imap, H. Qed.

Lemma heap_okb_sound {Item Sp} (p : Page Item Sp) : heap_okb p = true → heap_ok p.
Proof.
  unfold heap_okb. rewrite !andb_true_iff, !forallb_forall. intros ((((((((H1 & H2) & H3) & H4) & H5) & Hs) & Ha) & Hc) & Hu). bprop.
  constructor; [done|done|done| |].
  - constructor.
    + intros i a Hi Hst. specialize (Hs a (proj1 (list_elem_of_In _ _) (list_elem_of_lookup_2 _ _ _ Hi))). rewrite Hst in Hs. cbn [negb orb] in Hs.
      bprop. destruct (pd_mem p !! lp_off a) as [[n it]|] eqn:E; [|done]. bprop. constructor; try done. exists it. rewrite E. by f_equal; f_equal.
    + intros i j a b Hi Hj Hij Hsa Hsb. specialize (Ha (i, a, (j, b)) (in_prod _ _ _ _ (numbered_in _ _ _ Hi) (numbered_in _ _ _ Hj))).
      cbn beta iota in Ha. rewrite Hsa, Hsb in Ha. destruct (Nat.eqb_spec i j); [done|]. cbn [negb orb] in Ha. unfold apart.
      apply orb_true_iff in Ha as [Ha|Ha]; bprop; [by left|by right].
    + intros o c Ho. specialize (Hc (o, c)). cbn in Hc. apply Z.ltb_lt, Hc, list_elem_of_In, elem_of_map_to_list. done.
  - apply Forall_forall. intros a Hin Hua. specialize (Hu a (proj1 (list_elem_of_In _ _) Hin)).
    rewrite Hua in Hu. by destruct (ItemIdHasStorage a).
Qed.

(** Two tuples out of order with a gap between them, an unused line pointer between theirs
    and one after. *)
Definition ragged : Page Z unit :=
  {| pd_flags := 0; pd_lower := 40; pd_upper := 8000; pd_special := 8192; pd_pagesize_version := 8196;
     pd_linp := [mkItemId 8000 LP_NORMAL 30; ItemIdSetUnused; mkItemId 8080 LP_NORMAL 48; ItemIdSetUnused];
     pd_mem := {[8000 := (30, 30); 8080 := (48, 48)]}; pd_sp := None |}.

Lemma ragged_ok : heap_ok ragged.
Proof. by apply heap_okb_sound; vm_compute. Qed.

Lemma page_repair_fragmentation_spec_witness :
  ∃ p', PageRepairFragmentation ragged = Ok p' ∧ heap_ok p' ∧
    Forall2 (same_line (pd_mem ragged) (pd_mem p')) (used_prefix (map clear_unused (pd_linp ragged))) (pd_linp p') ∧
    pd_special p' - pd_upper p' = stored_space (pd_linp ragged) ∧
    PageHasFreeLinePointers p' = bool_decide (Exists (λ a, is_unused a) (pd_linp p')) ∧
    pd_special p' = pd_special ragged ∧ pd_sp p' = pd_sp ragged.
Proof. apply (page_repair_fragmentation_spec ragged ragged_ok). vm_compute. discriminate. Defined.

Lemma page_truncate_spec_witness :
  heap_ok (PageTruncateLinePointerArray ragged) ∧ pd_linp (PageTruncateLinePointerArray ragged) = take 3 (pd_linp ragged).
Proof. destruct (page_truncate_spec ragged ragged_ok) as (H1 & H2 & _). split; [exact H1|]. rewrite H2. reflexivity. Defined.

Lemma page_delete_no_compact_spec_witness :
  ∃ p', PageIndexTupleDeleteNoCompact ragged 1 = Ok p' ∧ heap_ok p' ∧
    Forall2 (same_line (pd_mem ragged) (pd_mem p')) (without_line ragged 0) (pd_linp p') ∧
    pd_upper p' = pd_upper ragged + 32 ∧ pd_special p' = pd_special ragged ∧ pd_sp p' = pd_sp ragged.
Proof. apply (page_delete_no_compact_spec ragged 0 (mkItemId 8000 LP_NORMAL 30) ragged_ok); reflexivity. Defined.

(** Repairing it: the second tuple stays, the first moves up to it. *)
Example ragged_repaired :
  (p ← PageRepairFragmentation ragged; Ok (pd_linp p, pd_upper p, pd_lower p)) =
  Ok ([mkItemId 8160 LP_NORMAL 30; ItemIdSetUnused; mkItemId 8112 LP_NORMAL 48], 8112, 36).
Proof. vm_compute. reflexivity. Qed.
