(* ===== verification/Xid.v ===== *)
(** Transaction ids: transam.h and transam.c.  An id is a 32-bit number; the three smallest are
    reserved, the others are compared modulo 2^32. *)

From S2P Require Import Prelude.

Definition InvalidTransactionId : Z := 0.
Definition BootstrapTransactionId : Z := 1.
Definition FrozenTransactionId : Z := 2.
Definition FirstNormalTransactionId : Z := 3.
Definition MaxTransactionId : Z := 0xFFFFFFFF.

Definition TransactionIdIsValid (xid : Z) : bool := negb (xid =? InvalidTransactionId).
Definition TransactionIdIsNormal (xid : Z) : bool := FirstNormalTransactionId <=? xid.
Definition NormalTransactionIdPrecedes (id1 id2 : Z) : bool := int32 (id1 - id2) <? 0.
Definition TransactionIdPrecedes (id1 id2 : Z) : bool :=
  if negb (TransactionIdIsNormal id1) || negb (TransactionIdIsNormal id2) then id1 <? id2
  else int32 (id1 - id2) <? 0.
Definition TransactionIdPrecedesOrEquals (id1 id2 : Z) : bool :=
  if negb (TransactionIdIsNormal id1) || negb (TransactionIdIsNormal id2) then id1 <=? id2
  else int32 (id1 - id2) <=? 0.
Definition TransactionIdFollows (id1 id2 : Z) : bool :=
  if negb (TransactionIdIsNormal id1) || negb (TransactionIdIsNormal id2) then id2 <? id1
  else 0 <? int32 (id1 - id2).
Definition TransactionIdFollowsOrEquals (id1 id2 : Z) : bool :=
  if negb (TransactionIdIsNormal id1) || negb (TransactionIdIsNormal id2) then id2 <=? id1
  else 0 <=? int32 (id1 - id2).

(** The loop runs from the last element to the first. *)
Definition TransactionIdLatest (mainxid : Z) (xids : list Z) : Z :=
  foldr (λ x result, if TransactionIdPrecedes result x then x else result) mainxid xids.

(** [TransactionIdAdvance]: the next id, past the reserved ones after a wraparound. *)
Definition TransactionIdAdvance (dest : Z) : Z :=
  let dest := uint32 (dest + 1) in
  if dest <? FirstNormalTransactionId then FirstNormalTransactionId else dest.

(** * Ids as positions

    Ids in use lie within 2^31 of each other; [pos base] places them on a line from the oldest
    one on, where the comparison is that of numbers. *)

Definition is_xid (xid : Z) : Prop := FirstNormalTransactionId ≤ xid ≤ MaxTransactionId.
Definition pos (base xid : Z) : Z := (xid - base) mod 2 ^ 32.
Definition in_window (base xid : Z) : Prop := is_xid xid ∧ pos base xid < 2 ^ 31.

Lemma int32_pos base a b : pos base a < 2 ^ 31 → pos base b < 2 ^ 31 → int32 (a - b) = pos base a - pos base b.
Proof.
  unfold int32, pos. intros Ha Hb. pose proof (Z.mod_pos_bound (a - base) (2 ^ 32)). pose proof (Z.mod_pos_bound (b - base) (2 ^ 32)).
  replace (a - b + 2 ^ 31) with ((a - base) - (b - base) + 2 ^ 31) by lia.
  rewrite (Z.div_mod (a - base) (2 ^ 32)), (Z.div_mod (b - base) (2 ^ 32)) at 1 by lia.
  replace (_ + _ - _ + _) with (((a - base) mod 2 ^ 32 - (b - base) mod 2 ^ 32 + 2 ^ 31) + ((a - base) / 2 ^ 32 - (b - base) / 2 ^ 32) * 2 ^ 32) by lia.
  rewrite Z_mod_plus_full, Z.mod_small; lia.
Qed.

Lemma window_normal base a : in_window base a → TransactionIdIsNormal a = true.
Proof. intros [[H _] _]. unfold TransactionIdIsNormal. lia. Qed.

Lemma precedes_pos base a b : in_window base a → in_window base b →
  TransactionIdPrecedes a b = (pos base a <? pos base b).
Proof.
  intros Ha Hb. unfold TransactionIdPrecedes. rewrite (window_normal base a), (window_normal base b) by done. cbn [negb orb].
  rewrite (int32_pos base) by (apply Ha || apply Hb). lia.
Qed.

Lemma normal_precedes_pos base a b : in_window base a → in_window base b →
  NormalTransactionIdPrecedes a b = (pos base a <? pos base b).
Proof. intros [_ Ha] [_ Hb]. unfold NormalTransactionIdPrecedes. rewrite (int32_pos base) by done. lia. Qed.

Lemma follows_or_equals_pos base a b : in_window base a → in_window base b →
  TransactionIdFollowsOrEquals a b = (pos base b <=? pos base a).
Proof.
  intros Ha Hb. unfold TransactionIdFollowsOrEquals. rewrite (window_normal base a), (window_normal base b) by done. cbn [negb orb].
  rewrite (int32_pos base) by (apply Ha || apply Hb). lia.
Qed.

Lemma pos_range base a : 0 ≤ pos base a < 2 ^ 32.
Proof. unfold pos. pose proof (Z.mod_pos_bound (a - base) (2 ^ 32)). lia. Qed.

Lemma pos_inj base a b : is_xid a → is_xid b → pos base a = pos base b → a = b.
Proof.
  unfold is_xid, pos, FirstNormalTransactionId, MaxTransactionId. intros Ha Hb E.
  pose proof (Z.div_mod (a - base) (2 ^ 32)). pose proof (Z.div_mod (b - base) (2 ^ 32)).
  assert (a - b = 2 ^ 32 * ((a - base) / 2 ^ 32 - (b - base) / 2 ^ 32)) by lia. lia.
Qed.

Lemma precedes_irrefl a : TransactionIdPrecedes a a = false.
Proof. unfold TransactionIdPrecedes, int32. rewrite Z.sub_diag. destruct (_ || _); [lia|done]. Qed.

(** [TransactionIdFollowsOrEquals] is the negation of [TransactionIdPrecedes], [TransactionIdPrecedesOrEquals] of [TransactionIdFollows]. *)
Lemma follows_or_equals_precedes a b : TransactionIdFollowsOrEquals a b = negb (TransactionIdPrecedes a b).
Proof. unfold TransactionIdFollowsOrEquals, TransactionIdPrecedes. destruct (_ || _); lia. Qed.

Lemma precedes_or_equals_follows a b : TransactionIdPrecedesOrEquals a b = negb (TransactionIdFollows a b).
Proof. unfold TransactionIdPrecedesOrEquals, TransactionIdFollows. destruct (_ || _); lia. Qed.

(** The latest of a transaction and its children, among ids of one window. *)
Lemma latest_spec base x xs : in_window base x → Forall (in_window base) xs →
  TransactionIdLatest x xs ∈ x :: xs ∧ Forall (λ y, pos base y ≤ pos base (TransactionIdLatest x xs)) (x :: xs).
Proof.
  intros Hx. induction 1 as [|y xs Hy Hxs [IH1 IH2]]; cbn [TransactionIdLatest foldr]; [split; [left|repeat constructor; lia]|].
  fold (TransactionIdLatest x xs).
  assert (in_window base (TransactionIdLatest x xs)).
  { apply elem_of_cons in IH1 as [->|H1]; [done|]. rewrite Forall_forall in Hxs. auto. }
  rewrite (precedes_pos base) by done. inversion IH2 as [|? ? H1 H2]; subst.
  destruct (Z.ltb_spec (pos base (TransactionIdLatest x xs)) (pos base y)) as [L|L].
  - split; [right; left|]. repeat constructor; [lia|lia|]. eapply Forall_impl; [done|]. cbn. lia.
  - split; [apply elem_of_cons in IH1 as [->|]; [left|by right; right]|]. repeat constructor; [lia|lia|done].
Qed.

(** The id after [x]: nothing lies between. *)
Lemma advance_pos base x : in_window base x →
  is_xid (TransactionIdAdvance x) ∧ pos base x < pos base (TransactionIdAdvance x) ≤ pos base x + 4 ∧
  ∀ y, is_xid y → pos base x < pos base y → pos base (TransactionIdAdvance x) ≤ pos base y.
Proof.
  unfold in_window, is_xid, TransactionIdAdvance, uint32, FirstNormalTransactionId, MaxTransactionId, pos. intros [Hx Hp].
  pose proof (Z.mod_pos_bound (x - base) (2 ^ 32)) as Hb.
  set (d := (x - base) mod 2 ^ 32) in *. pose proof (Z.div_mod (x - base) (2 ^ 32)) as Hd. fold d in Hd. set (q := (x - base) / 2 ^ 32) in *.
  assert (Hk : ∀ k, 0 ≤ k < 2 ^ 31 → (x + k - base) mod 2 ^ 32 = d + k).
  { intros k Hk. replace (x + k - base) with ((d + k) + q * 2 ^ 32) by lia. rewrite Z_mod_plus_full, Z.mod_small; lia. }
  destruct (Z.eq_dec x 0xFFFFFFFF) as [->|Hne].
  - change ((0xFFFFFFFF + 1) mod 2 ^ 32) with 0. cbn [Z.ltb Z.compare].
    assert (E : (3 - base) mod 2 ^ 32 = d + 4).
    { rewrite <- (Hk 4) by lia. replace (0xFFFFFFFF + 4 - base) with ((3 - base) + 1 * 2 ^ 32) by lia. by rewrite Z_mod_plus_full. }
    rewrite E. split; [lia|]. split; [lia|]. intros y Hy Hlt. destruct (Z.le_gt_cases (d + 4) ((y - base) mod 2 ^ 32)) as [|Hgt]; [done|exfalso].
    pose proof (Z.div_mod (y - base) (2 ^ 32)). set (r := (y - base) mod 2 ^ 32) in *. set (s := (y - base) / 2 ^ 32) in *.
    assert (y = r - d + 0xFFFFFFFF + 2 ^ 32 * (s - q)) by lia. lia.
  - rewrite (Z.mod_small (x + 1)) by lia. destruct (Z.ltb_spec (x + 1) 3); [lia|]. rewrite Hk by lia. split; [lia|]. split; [lia|]. intros y Hy Hlt. lia.
Qed.
