(* ===== verification/Clog.v ===== *)
(** The status of transactions: the commit log (clog.c), two bits per transaction, the parents
    of subtransactions (subtrans.c), and the tests the rest of the server uses (transam.c).
    The buffer pool of slru.c is taken as a map from page numbers to the pages that exist. *)

From S2P Require Import Prelude Xid Bufpage PageOps.

(** * clog.c: layout *)

Definition TRANSACTION_STATUS_IN_PROGRESS : Z := 0x00.
Definition TRANSACTION_STATUS_COMMITTED : Z := 0x01.
Definition TRANSACTION_STATUS_ABORTED : Z := 0x02.
Definition TRANSACTION_STATUS_SUB_COMMITTED : Z := 0x03.

Definition CLOG_BITS_PER_XACT : Z := 2.
Definition CLOG_XACTS_PER_BYTE : Z := 4.
Definition CLOG_XACTS_PER_PAGE : Z := BLCKSZ * CLOG_XACTS_PER_BYTE.
Definition CLOG_XACT_BITMASK : Z := Z.shiftl 1 CLOG_BITS_PER_XACT - 1.
Definition CLOG_XACTS_PER_LSN_GROUP : Z := 32.

Definition TransactionIdToPage (xid : Z) : Z := xid / CLOG_XACTS_PER_PAGE.
Definition TransactionIdToPgIndex (xid : Z) : Z := xid mod CLOG_XACTS_PER_PAGE.
Definition TransactionIdToByte (xid : Z) : Z := TransactionIdToPgIndex xid / CLOG_XACTS_PER_BYTE.
Definition TransactionIdToBIndex (xid : Z) : Z := xid mod CLOG_XACTS_PER_BYTE.

(** The pages and the log positions of their groups, by page number instead of buffer slot. *)
Record XactCtl : Type := mkXactCtl {
  page_buffer : gmap Z (list Z);
  group_lsn : gmap (Z * Z) Z;
}.
Implicit Types (c : XactCtl).

Definition GetLSNIndex (pageno xid : Z) : Z * Z :=
  (pageno, TransactionIdToPgIndex xid / CLOG_XACTS_PER_LSN_GROUP).
Definition lsn_at c (i : Z * Z) : Z := default 0 (group_lsn c !! i).

(** A page that is not on disk is an error. *)
Definition SimpleLruReadPage (pages : gmap Z (list Z)) (pageno : Z) : result (list Z) :=
  match pages !! pageno with Some p => Ok p | None => Err (Elog "could not access status of transaction") end.

(** * clog.c: operations *)

(** The status and the log position up to which its commit record is flushed. *)
Definition TransactionIdGetStatus c (xid : Z) : result (Z * Z) :=
  let pageno := TransactionIdToPage xid in
  let byteno := TransactionIdToByte xid in
  let bshift := TransactionIdToBIndex xid * CLOG_BITS_PER_XACT in
  page ← SimpleLruReadPage (page_buffer c) pageno;
  byte ← some_or "byte of a clog page" (page !! Z.to_nat byteno);
  Ok (Z.land (Z.shiftr byte bshift) CLOG_XACT_BITMASK, lsn_at c (GetLSNIndex pageno xid)).

Section write.
Context (InRecovery : bool).

(** The page of buffer slot [slotno] is page [pageno]. *)
Definition TransactionIdSetStatusBit (xid status lsn pageno : Z) c : result XactCtl :=
  let byteno := TransactionIdToByte xid in
  let bshift := TransactionIdToBIndex xid * CLOG_BITS_PER_XACT in
  page ← SimpleLruReadPage (page_buffer c) pageno;
  byte ← some_or "byte of a clog page" (page !! Z.to_nat byteno);
  let curval := Z.land (Z.shiftr byte bshift) CLOG_XACT_BITMASK in
  if InRecovery && (status =? TRANSACTION_STATUS_SUB_COMMITTED) && (curval =? TRANSACTION_STATUS_COMMITTED) then Ok c
  else
    let byteval := Z.land byte (Z.lnot (Z.shiftl (Z.shiftl 1 CLOG_BITS_PER_XACT - 1) bshift)) in
    let byteval := Z.lor byteval (Z.shiftl status bshift) in
    let pages := <[pageno := <[Z.to_nat byteno := byteval]> page]> (page_buffer c) in
    let lsns :=
      if negb (lsn =? 0) && (lsn_at c (GetLSNIndex pageno xid) <? lsn)
      then <[GetLSNIndex pageno xid := lsn]> (group_lsn c) else group_lsn c in
    Ok (mkXactCtl pages lsns).

Definition set_bits (subxids : list Z) (status lsn pageno : Z) c : result XactCtl :=
  fold_result (λ c x, TransactionIdSetStatusBit x status lsn pageno c) c subxids.

Definition TransactionIdSetPageStatusInternal (xid : Z) (subxids : list Z) (status lsn pageno : Z) c : result XactCtl :=
  _ ← SimpleLruReadPage (page_buffer c) pageno;
  c ← (if TransactionIdIsValid xid then
         c ← (if status =? TRANSACTION_STATUS_COMMITTED
              then set_bits subxids TRANSACTION_STATUS_SUB_COMMITTED lsn pageno c else Ok c);
         TransactionIdSetStatusBit xid status lsn pageno c
       else Ok c);
  set_bits subxids status lsn pageno c.

(** The update is made under the lock of the page, by this process or, when processes
    update together, by the one that leads the group. *)
Definition TransactionIdSetPageStatus (xid : Z) (subxids : list Z) (status lsn pageno : Z) c : result XactCtl :=
  TransactionIdSetPageStatusInternal xid subxids status lsn pageno c.

(** The ids at the front that are on a page, and the rest. *)
Fixpoint on_page (pageno : Z) (subxids : list Z) : list Z * list Z :=
  match subxids with
  | x :: l => if TransactionIdToPage x =? pageno then let '(run, rest) := on_page pageno l in (x :: run, rest) else ([], x :: l)
  | [] => ([], [])
  end.

Fixpoint set_pages_loop (fuel : nat) (subxids : list Z) (status lsn pageno : Z) c : result XactCtl :=
  match subxids, fuel with
  | [], _ => Ok c
  | _, O => Err OutOfFuel
  | _, S fuel =>
      let '(run, rest) := on_page pageno subxids in
      c ← TransactionIdSetPageStatus InvalidTransactionId run status lsn pageno c;
      set_pages_loop fuel rest status lsn (match rest with x :: _ => TransactionIdToPage x | [] => pageno end) c
  end.

Definition set_status_by_pages (subxids : list Z) (status lsn : Z) c : result XactCtl :=
  x ← some_or "first subtransaction" (head subxids);
  set_pages_loop (length subxids) subxids status lsn (TransactionIdToPage x) c.

Definition TransactionIdSetTreeStatus (xid : Z) (subxids : list Z) (status lsn : Z) c : result XactCtl :=
  let pageno := TransactionIdToPage xid in
  match on_page pageno subxids with
  | (_, []) => TransactionIdSetPageStatus xid subxids status lsn pageno c
  | (first, rest) =>
      c ← (if status =? TRANSACTION_STATUS_COMMITTED
           then set_status_by_pages rest TRANSACTION_STATUS_SUB_COMMITTED lsn c else Ok c);
      c ← TransactionIdSetPageStatus xid first status lsn pageno c;
      set_status_by_pages rest status lsn c
  end.

(** transam.c: the commit and the abort of a transaction with its subtransactions. *)
Definition TransactionIdCommitTree (xid : Z) (xids : list Z) c : result XactCtl :=
  TransactionIdSetTreeStatus xid xids TRANSACTION_STATUS_COMMITTED 0 c.
Definition TransactionIdAsyncCommitTree (xid : Z) (xids : list Z) (lsn : Z) c : result XactCtl :=
  TransactionIdSetTreeStatus xid xids TRANSACTION_STATUS_COMMITTED lsn c.
Definition TransactionIdAbortTree (xid : Z) (xids : list Z) c : result XactCtl :=
  TransactionIdSetTreeStatus xid xids TRANSACTION_STATUS_ABORTED 0 c.
End write.

(** * subtrans.c *)

Definition SUBTRANS_XACTS_PER_PAGE : Z := BLCKSZ / 4.
Definition SubTransToPage (xid : Z) : Z := xid / SUBTRANS_XACTS_PER_PAGE.
Definition TransactionIdToEntry (xid : Z) : Z := xid mod SUBTRANS_XACTS_PER_PAGE.

(** A page is an array of transaction ids. *)
Abbreviation SubTransCtl := (gmap Z (list Z)).

Definition SubTransSetParent (xid parent : Z) (subtrans : SubTransCtl) : result SubTransCtl :=
  page ← SimpleLruReadPage subtrans (SubTransToPage xid);
  old ← some_or "entry of a subtrans page" (page !! Z.to_nat (TransactionIdToEntry xid));
  if negb (old =? parent)
  then Ok (<[SubTransToPage xid := <[Z.to_nat (TransactionIdToEntry xid) := parent]> page]> subtrans)
  else Ok subtrans.

Definition SubTransGetParent (subtrans : SubTransCtl) (xid : Z) : result Z :=
  if negb (TransactionIdIsNormal xid) then Ok InvalidTransactionId
  else
    page ← SimpleLruReadPage subtrans (SubTransToPage xid);
    some_or "entry of a subtrans page" (page !! Z.to_nat (TransactionIdToEntry xid)).

Definition invalid_entry : error := Elog "pg_subtrans contains invalid entry: xid %u points to parent xid %u".

Fixpoint topmost_loop (fuel : nat) (subtrans : SubTransCtl) (TransactionXmin parentXid previousXid : Z) : result Z :=
  match fuel with
  | O => Err OutOfFuel
  | S fuel =>
      if negb (TransactionIdIsValid parentXid) then Ok previousXid
      else
        let previousXid := parentXid in
        if TransactionIdPrecedes parentXid TransactionXmin then Ok previousXid
        else
          parentXid ← SubTransGetParent subtrans parentXid;
          if negb (TransactionIdPrecedes parentXid previousXid) then Err invalid_entry
          else topmost_loop fuel subtrans TransactionXmin parentXid previousXid
  end.

Definition SubTransGetTopmostTransaction (fuel : nat) (subtrans : SubTransCtl) (TransactionXmin xid : Z) : result Z :=
  topmost_loop fuel subtrans TransactionXmin xid xid.

(** * transam.c *)

(** The single-item cache of a backend. *)
Record FetchCache : Type := mkCache {
  cachedFetchXid : Z;
  cachedFetchXidStatus : Z;
  cachedCommitLSN : Z;
}.
Implicit Types (k : FetchCache).

Definition TransactionLogFetch c (transactionId : Z) k : result (Z * FetchCache) :=
  if transactionId =? cachedFetchXid k then Ok (cachedFetchXidStatus k, k)
  else if negb (TransactionIdIsNormal transactionId) then
    if transactionId =? BootstrapTransactionId then Ok (TRANSACTION_STATUS_COMMITTED, k)
    else if transactionId =? FrozenTransactionId then Ok (TRANSACTION_STATUS_COMMITTED, k)
    else Ok (TRANSACTION_STATUS_ABORTED, k)
  else
    r ← TransactionIdGetStatus c transactionId;
    let '(xidstatus, xidlsn) := r in
    if negb (xidstatus =? TRANSACTION_STATUS_IN_PROGRESS) && negb (xidstatus =? TRANSACTION_STATUS_SUB_COMMITTED)
    then Ok (xidstatus, mkCache transactionId xidstatus xidlsn)
    else Ok (xidstatus, k).

(** The two tests.  Other processes change the commit log between two fetches: [now n] is the
    log as the fetch number [n] finds it. *)
Section tests.
Context (subtrans : SubTransCtl) (TransactionXmin : Z) (now : nat → XactCtl).

Fixpoint TransactionIdDidCommit (fuel n : nat) (transactionId : Z) k : result (bool * FetchCache) :=
  match fuel with
  | O => Err OutOfFuel
  | S fuel =>
      r ← TransactionLogFetch (now n) transactionId k;
      let '(xidstatus, k) := r in
      if xidstatus =? TRANSACTION_STATUS_COMMITTED then Ok (true, k)
      else if xidstatus =? TRANSACTION_STATUS_SUB_COMMITTED then
        if TransactionIdPrecedes transactionId TransactionXmin then Ok (false, k)
        else
          parentXid ← SubTransGetParent subtrans transactionId;
          if negb (TransactionIdIsValid parentXid) then Ok (false, k)
          else TransactionIdDidCommit fuel (S n) parentXid k
      else Ok (false, k)
  end.

Fixpoint TransactionIdDidAbort (fuel n : nat) (transactionId : Z) k : result (bool * FetchCache) :=
  match fuel with
  | O => Err OutOfFuel
  | S fuel =>
      r ← TransactionLogFetch (now n) transactionId k;
      let '(xidstatus, k) := r in
      if xidstatus =? TRANSACTION_STATUS_ABORTED then Ok (true, k)
      else if xidstatus =? TRANSACTION_STATUS_SUB_COMMITTED then
        if TransactionIdPrecedes transactionId TransactionXmin then Ok (true, k)
        else
          parentXid ← SubTransGetParent subtrans transactionId;
          if negb (TransactionIdIsValid parentXid) then Ok (true, k)
          else TransactionIdDidAbort fuel (S n) parentXid k
      else Ok (false, k)
  end.
End tests.

Definition TransactionIdGetCommitLSN c (xid : Z) k : result Z :=
  if xid =? cachedFetchXid k then Ok (cachedCommitLSN k)
  else if negb (TransactionIdIsNormal xid) then Ok 0
  else r ← TransactionIdGetStatus c xid; Ok r.2.
