(* ===== verification/CommitLog.v ===== *)
(** What the commit log promises: the status of every transaction reads back, a commit or an
    abort covers the whole tree of subtransactions and nothing else, and whoever tests a member
    of the tree while the log is being updated sees the update happen at one moment. *)

From S2P Require Import Prelude Xid Bufpage PageOps Clog.

Implicit Types (c : XactCtl) (k : FetchCache).

(** * The bits of a byte *)

Lemma testbit_status s m : 0 ≤ s ≤ 3 → 2 ≤ m → Z.testbit s m = false.
Proof. intros Hs Hm. assert (s = 0 ∨ s = 1 ∨ s = 2 ∨ s = 3) as [->|[->|[->| ->]]] by lia; destruct m as [|[p|p|]|p]; try lia; try done; by destruct p. Qed.

Lemma testbit_mask m : 0 ≤ m → Z.testbit CLOG_XACT_BITMASK m = (m <? 2).
Proof. intros Hm. change CLOG_XACT_BITMASK with (Z.ones 2). rewrite Z.testbit_ones by lia. lia. Qed.

Definition field (byte i : Z) : Z := Z.land (Z.shiftr byte (i * CLOG_BITS_PER_XACT)) CLOG_XACT_BITMASK.
Definition set_field (byte i s : Z) : Z :=
  Z.lor (Z.land byte (Z.lnot (Z.shiftl (Z.shiftl 1 CLOG_BITS_PER_XACT - 1) (i * CLOG_BITS_PER_XACT)))) (Z.shiftl s (i * CLOG_BITS_PER_XACT)).

Lemma field_range byte i : 0 ≤ field byte i ≤ 3.
Proof.
  unfold field. change CLOG_XACT_BITMASK with (Z.ones 2). rewrite Z.land_ones by lia.
  pose proof (Z.mod_pos_bound (Z.shiftr byte (i * CLOG_BITS_PER_XACT)) (2 ^ 2)). lia.
Qed.

Lemma field_set byte i j s : 0 ≤ s ≤ 3 → 0 ≤ i → 0 ≤ j → field (set_field byte i s) j = if i =? j then s else field byte j.
Proof.
  intros Hs Hi Hj. apply Z.bits_inj'. intros m Hm. unfold field, set_field. change CLOG_BITS_PER_XACT with 2.
  rewrite Z.land_spec, Z.shiftr_spec, testbit_mask by lia.
  rewrite Z.lor_spec, Z.land_spec, Z.lnot_spec by lia.
  change (Z.shiftl 1 2 - 1) with CLOG_XACT_BITMASK. rewrite !Z.shiftl_spec by lia.
  destruct (Z.eqb_spec i j) as [<-|Hne].
  - replace (m + i * 2 - i * 2) with m by lia. rewrite testbit_mask by lia.
    destruct (Z.ltb_spec m 2); cbn [negb]; [by rewrite andb_false_r, orb_false_l, andb_true_r|].
    by rewrite andb_false_r, testbit_status.
  - rewrite Z.land_spec, Z.shiftr_spec, (testbit_mask m) by lia. destruct (Z.ltb_spec m 2); [|by rewrite !andb_false_r]. rewrite !andb_true_r.
    destruct (Z.ltb_spec (m + j * 2 - i * 2) 0).
    + rewrite (Z.testbit_neg_r CLOG_XACT_BITMASK), (Z.testbit_neg_r s) by lia. by rewrite andb_true_r, orb_false_r.
    + rewrite testbit_mask, (testbit_status s) by lia. destruct (Z.ltb_spec (m + j * 2 - i * 2) 2); [lia|]. by rewrite andb_true_r, orb_false_r.
Qed.

(** * The status of a transaction *)

(** The pages that exist are whole. *)
Definition clog_ok c : Prop := ∀ n p, page_buffer c !! n = Some p → length p = Z.to_nat BLCKSZ.
Definition present c (x : Z) : Prop := 0 ≤ x ∧ is_Some (page_buffer c !! TransactionIdToPage x).

Definition xstatus c (x : Z) : Z :=
  match page_buffer c !! TransactionIdToPage x with
  | Some p => match p !! Z.to_nat (TransactionIdToByte x) with Some b => field b (TransactionIdToBIndex x) | None => 0 end
  | None => 0
  end.
Definition xlsn c (x : Z) : Z := lsn_at c (GetLSNIndex (TransactionIdToPage x) x).

Lemma byte_range x : 0 ≤ TransactionIdToByte x < BLCKSZ.
Proof.
  unfold TransactionIdToByte, TransactionIdToPgIndex. pose proof (Z.mod_pos_bound x CLOG_XACTS_PER_PAGE ltac:(done)).
  change CLOG_XACTS_PER_PAGE with 32768 in *. change CLOG_XACTS_PER_BYTE with 4. change BLCKSZ with 8192.
  split; [apply Z.div_pos; lia|apply Z.div_lt_upper_bound; lia].
Qed.

Lemma bindex_range x : 0 ≤ TransactionIdToBIndex x < 4.
Proof. unfold TransactionIdToBIndex. change CLOG_XACTS_PER_BYTE with 4. pose proof (Z.mod_pos_bound x 4). lia. Qed.

Lemma address_inj x y : TransactionIdToPage x = TransactionIdToPage y → TransactionIdToByte x = TransactionIdToByte y →
  TransactionIdToBIndex x = TransactionIdToBIndex y → x = y.
Proof.
  unfold TransactionIdToPage, TransactionIdToByte, TransactionIdToPgIndex, TransactionIdToBIndex.
  change CLOG_XACTS_PER_PAGE with 32768. change CLOG_XACTS_PER_BYTE with 4. intros H1 H2 H3.
  assert (H : ∀ z, z = 32768 * (z / 32768) + (4 * ((z mod 32768) / 4) + z mod 4)); [|rewrite (H x), (H y), H1, H2, H3; done].
  intros z. rewrite (Z.div_mod z 32768) at 1 by lia. f_equal. rewrite (Z.div_mod (z mod 32768) 4) at 1 by lia. f_equal.
  rewrite (Z.div_mod z 32768) at 2 by lia. replace (32768 * (z / 32768) + z mod 32768) with (z mod 32768 + (8192 * (z / 32768)) * 4) by lia.
  by rewrite Z_mod_plus_full.
Qed.

Lemma byte_there c x : clog_ok c → present c x →
  ∃ p b, page_buffer c !! TransactionIdToPage x = Some p ∧ p !! Z.to_nat (TransactionIdToByte x) = Some b.
Proof.
  intros Hc [_ [p Hp]]. pose proof (Hc _ _ Hp). pose proof (byte_range x).
  destruct (lookup_lt_is_Some_2 p (Z.to_nat (TransactionIdToByte x))) as [b Hb]; [lia|]. eauto.
Qed.

Lemma get_status c x : clog_ok c → present c x → TransactionIdGetStatus c x = Ok (xstatus c x, xlsn c x).
Proof.
  intros Hc Hx. destruct (byte_there c x Hc Hx) as (p & b & Hp & Hb).
  unfold TransactionIdGetStatus, SimpleLruReadPage, xstatus. rewrite Hp. rsimpl. rewrite Hb. done.
Qed.

Lemma xstatus_range c x : 0 ≤ xstatus c x ≤ 3.
Proof. unfold xstatus. repeat case_match; try lia. apply field_range. Qed.

(** * Writing *)

Section write.
Context (ir : bool) (lsn : Z).

Definition write (w : Z * Z) c : result XactCtl := TransactionIdSetStatusBit ir w.1 w.2 lsn (TransactionIdToPage w.1) c.
Definition write_all (w : list (Z * Z)) c : result XactCtl := fold_result (λ c x, write x c) c w.

(** The writes that are made: in recovery a commit is not taken back to a subcommit. *)
Definition takes_effect (w : Z * Z) c : Prop :=
  ir && (w.2 =? TRANSACTION_STATUS_SUB_COMMITTED) && (xstatus c w.1 =? TRANSACTION_STATUS_COMMITTED) = false.

(** [c'] is [c] with one status changed. *)
Record wrote (w : Z * Z) c c' : Prop := {
  wr_ok : clog_ok c';
  wr_present : ∀ y, present c y → present c' y;
  wr_status : ∀ y, 0 ≤ y → xstatus c' y = if y =? w.1 then w.2 else xstatus c y;
  wr_lsn : lsn ≤ xlsn c' w.1 ∨ lsn = 0;
  wr_lsns : ∀ y, xlsn c y ≤ xlsn c' y;
}.

Lemma write_spec w c : clog_ok c → present c w.1 → 0 ≤ w.2 ≤ 3 → takes_effect w c → ∃ c', write w c = Ok c' ∧ wrote w c c'.
Proof.
  destruct w as [x s]. cbn [fst snd]. intros Hc Hx Hs He. unfold takes_effect in He. cbn [fst snd] in He.
  destruct (byte_there c x Hc Hx) as (p & b & Hp & Hb). unfold write, TransactionIdSetStatusBit, SimpleLruReadPage. cbn [fst snd].
  rewrite Hp. rsimpl. rewrite Hb. rsimpl.
  assert (xstatus c x = field b (TransactionIdToBIndex x)) as Es by (unfold xstatus; by rewrite Hp, Hb).
  fold (field b (TransactionIdToBIndex x)). rewrite Es in He. rewrite He.
  fold (set_field b (TransactionIdToBIndex x) s).
  eexists. split; [reflexivity|]. set (lsns := if negb (lsn =? 0) && _ then _ else _).
  assert (Hl : ∀ i, lsn_at c i ≤ default 0 (lsns !! i)).
  { intros i. unfold lsns. destruct (negb (lsn =? 0) && _) eqn:E; [|unfold lsn_at; lia]. apply andb_true_iff in E as [_ E].
    destruct (decide (i = GetLSNIndex (TransactionIdToPage x) x)) as [->|Hne]; [rewrite lookup_insert_eq; cbn; lia|].
    rewrite lookup_insert_ne by done. unfold lsn_at. lia. }
  constructor.
  - intros n q. cbn [page_buffer]. destruct (decide (n = TransactionIdToPage x)) as [->|Hne].
    + rewrite lookup_insert_eq. intros [= <-]. rewrite length_insert. eauto.
    + rewrite lookup_insert_ne by done. apply Hc.
  - intros y [Hy Hq]. split; [done|]. cbn [page_buffer].
    destruct (decide (TransactionIdToPage y = TransactionIdToPage x)) as [->|Hne]; [by rewrite lookup_insert_eq|by rewrite lookup_insert_ne].
  - intros y Hy. unfold xstatus. cbn [page_buffer fst snd]. pose proof (byte_range x). pose proof (byte_range y).
    pose proof (bindex_range x). pose proof (bindex_range y). pose proof (lookup_lt_Some _ _ _ Hb).
    destruct (Z.eqb_spec y x) as [->|Hyx].
    { rewrite lookup_insert_eq, list_lookup_insert_eq by done.
      rewrite field_set by lia. by rewrite Z.eqb_refl. }
    destruct (decide (TransactionIdToPage y = TransactionIdToPage x)) as [Ep|Hne]; [|by rewrite lookup_insert_ne].
    rewrite Ep, lookup_insert_eq, Hp. destruct (decide (TransactionIdToByte y = TransactionIdToByte x)) as [Eb|Hne].
    + rewrite Eb, list_lookup_insert_eq, Hb by done. rewrite field_set by lia.
      destruct (Z.eqb_spec (TransactionIdToBIndex x) (TransactionIdToBIndex y)); [|done]. exfalso. apply Hyx. by apply address_inj.
    + rewrite list_lookup_insert_ne by lia. done.
  - unfold xlsn, lsn_at. cbn [group_lsn fst]. unfold lsns. destruct (Z.eqb_spec lsn 0); [by right|]. left. cbn [negb andb].
    destruct (Z.ltb_spec (lsn_at c (GetLSNIndex (TransactionIdToPage x) x)) lsn); [rewrite lookup_insert_eq; cbn; lia|done].
  - intros y. apply Hl.
Qed.
End write.

Lemma fold_result_app {S X} (f : S → X → result S) s l1 l2 :
  fold_result f s (l1 ++ l2) = (s' ← fold_result f s l1; fold_result f s' l2).
Proof. revert s. induction l1 as [|x l1 IH]; intros s; cbn [fold_result app]; [done|]. destruct (f s x); [apply IH|done]. Qed.

(** * The writes of a tree *)

Section tree.
Context (ir : bool) (lsn : Z).
Abbreviation write := (write ir lsn).
Abbreviation write_all := (write_all ir lsn).
Abbreviation takes_effect := (takes_effect ir).
Implicit Types (w : list (Z * Z)) (xs : list Z).

Definition writes (s : Z) xs : list (Z * Z) := map (λ x, (x, s)) xs.

Definition tree_writes (xid : Z) (subxids : list Z) (status : Z) : list (Z * Z) :=
  let '(first, rest) := on_page (TransactionIdToPage xid) subxids in
  (if status =? TRANSACTION_STATUS_COMMITTED then writes TRANSACTION_STATUS_SUB_COMMITTED (rest ++ first) else []) ++
  (xid, status) :: writes status (first ++ rest).

Lemma write_all_app w1 w2 c : write_all (w1 ++ w2) c = (c ← write_all w1 c; write_all w2 c).
Proof. apply fold_result_app. Qed.

Lemma writes_app s xs ys : writes s (xs ++ ys) = writes s xs ++ writes s ys.
Proof. apply map_app. Qed.

Lemma set_bits_writes xs s pageno c : Forall (λ x, TransactionIdToPage x = pageno) xs →
  set_bits ir xs s lsn pageno c = write_all (writes s xs) c.
Proof.
  intros HF. revert c. induction HF as [|x xs <- _ IH]; intros c; [done|].
  unfold set_bits, CommitLog.write_all, CommitLog.write in *. cbn [fold_result writes map fst snd].
  destruct (TransactionIdSetStatusBit _ _ _ _ _ _); [apply IH|done].
Qed.

Lemma write_pages (w : Z * Z) c c' n : write w c = Ok c' → is_Some (page_buffer c !! n) → is_Some (page_buffer c' !! n).
Proof.
  unfold CommitLog.write, TransactionIdSetStatusBit, SimpleLruReadPage. intros H Hn.
  destruct (page_buffer c !! _) as [p|] eqn:Hp; [|done]. rsimpl. cbn [mbind result_bind] in H. destruct (p !! _); [|done].
  cbn [some_or mbind result_bind] in H. destruct (_ && _); injection H as <-; [done|]. cbn [page_buffer].
  destruct (decide (n = TransactionIdToPage w.1)) as [->|Hne]; [by rewrite lookup_insert_eq|by rewrite lookup_insert_ne].
Qed.

Lemma write_all_pages w c c' n : write_all w c = Ok c' → is_Some (page_buffer c !! n) → is_Some (page_buffer c' !! n).
Proof.
  revert c. induction w as [|a w IH]; intros c; cbn [CommitLog.write_all fold_result]; [by intros [= <-]|].
  destruct (write a c) as [c1|] eqn:E; [|done]. intros H Hn. eapply IH; [done|by eapply write_pages].
Qed.

Lemma internal_writes xid xs s pageno c : is_Some (page_buffer c !! pageno) →
  Forall (λ x, TransactionIdToPage x = pageno) xs → (TransactionIdIsValid xid = true → TransactionIdToPage xid = pageno) →
  TransactionIdSetPageStatusInternal ir xid xs s lsn pageno c =
  write_all ((if TransactionIdIsValid xid then
                (if s =? TRANSACTION_STATUS_COMMITTED then writes TRANSACTION_STATUS_SUB_COMMITTED xs else []) ++ [(xid, s)]
              else []) ++ writes s xs) c.
Proof.
  intros [p Hp] HF Hx. unfold TransactionIdSetPageStatusInternal, SimpleLruReadPage. rewrite Hp. rsimpl.
  destruct (TransactionIdIsValid xid); [|by apply set_bits_writes]. specialize (Hx eq_refl).
  rewrite <- app_assoc, !write_all_app.
  assert (E : (if s =? TRANSACTION_STATUS_COMMITTED then set_bits ir xs TRANSACTION_STATUS_SUB_COMMITTED lsn pageno c else Ok c) =
    write_all (if s =? TRANSACTION_STATUS_COMMITTED then writes TRANSACTION_STATUS_SUB_COMMITTED xs else []) c)
    by (destruct (s =? _); [by apply set_bits_writes|done]).
  rewrite E. destruct (write_all _ c) as [c1|]; [|done]. cbn [mbind result_bind]. rewrite write_all_app. cbn [CommitLog.write_all fold_result].
  unfold CommitLog.write. cbn [fst snd]. rewrite Hx. destruct (TransactionIdSetStatusBit _ _ _ _ _ _); [|done]. cbn [mbind result_bind]. by apply set_bits_writes.
Qed.

Lemma on_page_spec pageno xs run rest : on_page pageno xs = (run, rest) →
  xs = run ++ rest ∧ Forall (λ x, TransactionIdToPage x = pageno) run ∧ (∀ x l, rest = x :: l → TransactionIdToPage x ≠ pageno).
Proof.
  revert run rest. induction xs as [|x xs IH]; intros run rest; cbn [on_page]; [intros [= <- <-]; split_and!; [done|constructor|done]|].
  destruct (Z.eqb_spec (TransactionIdToPage x) pageno) as [E|E]; [|intros [= <- <-]; split_and!; [done|constructor|by intros ? ? [= <- _]]].
  destruct (on_page pageno xs) as [r1 r2]. intros [= <- <-]. destruct (IH _ _ eq_refl) as (-> & H2 & H3). split_and!; [done|by constructor|done].
Qed.

Lemma pages_loop_writes fuel xs s c : (length xs ≤ fuel)%nat → Forall (λ x, is_Some (page_buffer c !! TransactionIdToPage x)) xs →
  ∀ pageno, (∀ x l, xs = x :: l → TransactionIdToPage x = pageno) →
  set_pages_loop ir fuel xs s lsn pageno c = write_all (writes s xs) c.
Proof.
  revert xs c. induction fuel as [|fuel IH]; intros [|x xs] c Hf HF pageno Hp; try done; [cbn in Hf; lia|]. cbn [set_pages_loop].
  destruct (on_page pageno (x :: xs)) as [run rest] eqn:E. pose proof E as E'. apply on_page_spec in E as (El & Hrun & Hrest).
  unfold TransactionIdSetPageStatus. inversion HF as [|? ? Hx _]; subst. specialize (Hp _ _ eq_refl). subst pageno.
  rewrite internal_writes by done. change (TransactionIdIsValid InvalidTransactionId) with false. cbn [app].
  rewrite El, writes_app, write_all_app. destruct (write_all (writes s run) c) as [c1|] eqn:E1; [|done]. cbn [mbind result_bind].
  apply IH.
  - assert (run ≠ []). { cbn [on_page] in E'. rewrite Z.eqb_refl in E'. destruct (on_page _ xs). by injection E' as <- _. }
    apply (f_equal length) in El. rewrite length_app in El. cbn [length] in El, Hf. destruct run; [done|]. cbn [length] in El. lia.
  - rewrite El in HF. apply Forall_app in HF as [_ HF]. eapply Forall_impl; [done|]. intros y Hy. by eapply write_all_pages.
  - by intros y l ->.
Qed.

Lemma by_pages_writes xs s c : xs ≠ [] → Forall (λ x, is_Some (page_buffer c !! TransactionIdToPage x)) xs →
  set_status_by_pages ir xs s lsn c = write_all (writes s xs) c.
Proof. intros Hne HF. destruct xs as [|x xs]; [done|]. unfold set_status_by_pages. cbn [head some_or mbind result_bind]. apply pages_loop_writes; [done|done|by intros ? ? [= -> _]]. Qed.

(** Setting the status of a tree is a sequence of writes of single statuses. *)
Lemma tree_status_writes xid subs s c : TransactionIdIsValid xid = true →
  Forall (λ x, is_Some (page_buffer c !! TransactionIdToPage x)) (xid :: subs) →
  TransactionIdSetTreeStatus ir xid subs s lsn c = write_all (tree_writes xid subs s) c.
Proof.
  intros Hv HF. inversion HF as [|? ? Hx Hsubs]; subst. unfold TransactionIdSetTreeStatus, tree_writes, TransactionIdSetPageStatus.
  destruct (on_page (TransactionIdToPage xid) subs) as [first rest] eqn:E. apply on_page_spec in E as (-> & Hfirst & Hrest).
  destruct rest as [|y rest].
  { rewrite app_nil_r. rewrite internal_writes by done. rewrite Hv, app_nil_l, <- app_assoc. done. }
  set (r := y :: rest) in *. apply Forall_app in Hsubs as [Hsf Hsr].
  assert (E : (if s =? TRANSACTION_STATUS_COMMITTED then set_status_by_pages ir r TRANSACTION_STATUS_SUB_COMMITTED lsn c else Ok c) =
    write_all (if s =? TRANSACTION_STATUS_COMMITTED then writes TRANSACTION_STATUS_SUB_COMMITTED r else []) c)
    by (destruct (s =? _); [by apply by_pages_writes|done]).
  rewrite E. match goal with |- context [mbind _ (CommitLog.write_all _ _ ?w c)] => destruct (write_all w c) as [c1|] eqn:E1 end.
  2: { destruct (s =? _); [|done]. by rewrite writes_app, <- app_assoc, write_all_app, E1. }
  cbn [mbind result_bind]. rewrite internal_writes; [|by eapply write_all_pages|done|done]. rewrite Hv.
  transitivity (write_all ((if s =? TRANSACTION_STATUS_COMMITTED then writes TRANSACTION_STATUS_SUB_COMMITTED r else []) ++
    ((if s =? TRANSACTION_STATUS_COMMITTED then writes TRANSACTION_STATUS_SUB_COMMITTED first else []) ++ [(xid, s)]) ++ writes s first ++ writes s r) c).
  - symmetry. rewrite write_all_app, E1. cbn [mbind result_bind]. symmetry. rewrite (app_assoc _ (writes s first)), (write_all_app _ (writes s r)).
    destruct (write_all (_ ++ _) c1) as [c2|] eqn:E2; [|done]. cbn [mbind result_bind]. apply by_pages_writes; [done|].
    eapply Forall_impl; [done|]. intros z Hz. cbn. eapply write_all_pages; [done|]. by eapply write_all_pages.
  - rewrite !writes_app. f_equal. destruct (s =? _); rewrite ?writes_app, <- !app_assoc; done.
Qed.
End tree.

(** * The statuses while the writes are made *)

(** The status of [y] after some writes. *)
Definition last_write (w : list (Z * Z)) (y d : Z) : Z := fold_left (λ a v, if y =? v.1 then v.2 else a) w d.

Lemma last_write_app w1 w2 y d : last_write (w1 ++ w2) y d = last_write w2 y (last_write w1 y d).
Proof. apply fold_left_app. Qed.

Lemma last_writes s xs y d : last_write (writes s xs) y d = if bool_decide (y ∈ xs) then s else d.
Proof.
  revert d. induction xs as [|x xs IH]; intros d; [done|]. unfold last_write, writes in *. cbn [map fold_left fst snd]. rewrite IH.
  assert (y ∈ x :: xs ↔ y = x ∨ y ∈ xs) as Hiff by apply elem_of_cons.
  destruct (Z.eqb_spec y x); repeat case_bool_decide; tauto || done.
Qed.

Section during.
Context (ir : bool) (lsn : Z).
Abbreviation write := (write ir lsn).
Abbreviation write_all := (write_all ir lsn).

(** No status that is being set to subcommitted is committed already. *)
Definition effective (w : list (Z * Z)) c : Prop :=
  ∀ w1 x w2, w = w1 ++ (x, TRANSACTION_STATUS_SUB_COMMITTED) :: w2 →
    xstatus c x ≠ TRANSACTION_STATUS_COMMITTED ∧ (x, TRANSACTION_STATUS_COMMITTED) ∉ w1.

Lemma effective_prefix w1 w2 c : effective (w1 ++ w2) c → effective w1 c.
Proof. intros H a x b ->. apply (H a x (b ++ w2)). by rewrite <- app_assoc. Qed.

Record wrote_all (w : list (Z * Z)) c c' : Prop := {
  wa_ok : clog_ok c';
  wa_present : ∀ y, present c y → present c' y;
  wa_status : ∀ y, 0 ≤ y → xstatus c' y = last_write w y (xstatus c y);
  wa_lsn : ∀ v, v ∈ w → lsn ≤ xlsn c' v.1 ∨ lsn = 0;
  wa_lsns : ∀ y, xlsn c y ≤ xlsn c' y;
}.

Lemma write_all_spec w c : clog_ok c → Forall (λ v, present c v.1 ∧ 0 ≤ v.2 ≤ 3) w → effective w c →
  ∃ c', write_all w c = Ok c' ∧ wrote_all w c c'.
Proof.
  revert c. induction w as [|v w IH]; intros c Hc HF He.
  { exists c. split; [done|]. constructor; [done|done|done|intros v Hv; by apply elem_of_nil in Hv|lia]. }
  inversion HF as [|? ? [Hv Hs] HF']; subst. cbn [CommitLog.write_all fold_result].
  destruct (write_spec ir lsn v c Hc Hv Hs) as (c1 & -> & [W1 W2 W3 W4 W5]).
  { unfold takes_effect. destruct v as [x s]. cbn [fst snd]. destruct ir; [|done]. cbn [andb].
    destruct (Z.eqb_spec s TRANSACTION_STATUS_SUB_COMMITTED) as [->|]; [|done]. destruct (He [] x w eq_refl) as [Hn _]. lia. }
  destruct (IH c1 W1) as (c2 & E2 & [V1 V2 V3 V4 V5]).
  - eapply Forall_impl; [done|]. intros u [? ?]. auto.
  - intros w1 x w2 Ew. destruct (He (v :: w1) x w2) as [H1 H2]; [by rewrite Ew|]. apply not_elem_of_cons in H2 as [H2 H3]. split; [|done].
    assert (present c x) as [Hx _].
    { rewrite Forall_forall in HF'. apply (HF' (x, TRANSACTION_STATUS_SUB_COMMITTED)). rewrite Ew. apply elem_of_app. right. left. }
    rewrite W3 by done. destruct (Z.eqb_spec x v.1) as [->|]; [|done]. intros E. apply H2. destruct v. cbn in *. by rewrite E.
  - cbn [mbind result_bind]. exists c2. split; [done|]. constructor; [done|auto| | |intros y; specialize (W5 y); specialize (V5 y); lia].
    + intros y Hy. rewrite V3, W3 by done. done.
    + intros u [->|Hu]%elem_of_cons; [|auto]. destruct W4; [|by right]. left. specialize (V5 v.1). lia.
Qed.

(** * A tree *)

Context (x : Z) (subs : list Z) (status : Z) (c : XactCtl).

(** The transaction and its subtransactions are in progress in the log. *)
Record tree_ok : Prop := {
  to_ok : clog_ok c;
  to_valid : Forall (λ y, TransactionIdIsNormal y = true ∧ present c y) (x :: subs);
  to_nodup : x ∉ subs;
  to_running : Forall (λ y, xstatus c y = TRANSACTION_STATUS_IN_PROGRESS) (x :: subs);
  to_status : status = TRANSACTION_STATUS_COMMITTED ∨ status = TRANSACTION_STATUS_ABORTED;
}.
Context (H : tree_ok).

Abbreviation w := (tree_writes x subs status).
Abbreviation F i y := (last_write (take i w) y (xstatus c y)).

Lemma tree_parts : ∃ A B, w = (if status =? TRANSACTION_STATUS_COMMITTED then writes TRANSACTION_STATUS_SUB_COMMITTED A else []) ++ (x, status) :: writes status B ∧
  (∀ y, y ∈ A ↔ y ∈ subs) ∧ (∀ y, y ∈ B ↔ y ∈ subs).
Proof.
  unfold tree_writes. destruct (on_page _ subs) as [first rest] eqn:E. apply on_page_spec in E as (-> & _ & _).
  exists (rest ++ first), (first ++ rest). split_and!; [done|intros y; rewrite !elem_of_app; tauto..].
Qed.

Lemma tree_present : Forall (λ v, present c v.1 ∧ 0 ≤ v.2 ≤ 3) w.
Proof.
  destruct tree_parts as (A & B & -> & HA & HB). pose proof (to_valid H) as HV. rewrite Forall_forall in HV.
  assert (0 ≤ status ≤ 3) by (destruct (to_status H) as [-> | ->]; done).
  assert (HW : ∀ s xs, (∀ y, y ∈ xs → y ∈ x :: subs) → 0 ≤ s ≤ 3 → Forall (λ v, present c v.1 ∧ 0 ≤ v.2 ≤ 3) (writes s xs)).
  { intros s xs Hxs Hs. apply Forall_fmap, Forall_forall. intros y Hy. split; [apply HV; auto|done]. }
  apply Forall_app. split; [|constructor].
  - destruct (status =? _); [|constructor]. apply HW; [|done]. intros y Hy. right. by apply HA.
  - split; [apply HV; left|done].
  - apply HW; [|done]. intros y Hy. right. by apply HB.
Qed.

Lemma tree_effective : effective w c.
Proof.
  destruct tree_parts as (A & B & -> & HA & HB). intros w1 y w2 E.
  assert (HR := to_running H). rewrite Forall_forall in HR.
  assert (Hs : status ≠ TRANSACTION_STATUS_SUB_COMMITTED) by (destruct (to_status H) as [-> | ->]; done).
  assert (Hin : ∀ s xs v, v ∈ writes s xs → v.2 = s ∧ v.1 ∈ xs).
  { intros s xs v (z & -> & Hz)%list_elem_of_fmap. done. }
  assert (Hy : y ∈ A ∧ (y, TRANSACTION_STATUS_COMMITTED) ∉ w1).
  { destruct (status =? TRANSACTION_STATUS_COMMITTED) eqn:Es.
    - apply app_eq_inv in E as [(l & E1 & E2)|(l & E1 & E2)].
      + destruct l as [|v l].
        * cbn [app] in E2. injection E2 as _ E2 _. congruence.
        * cbn [app] in E2. injection E2 as <- _. split; [|intros Hc].
          -- apply (Hin TRANSACTION_STATUS_SUB_COMMITTED A (y, TRANSACTION_STATUS_SUB_COMMITTED)). rewrite E1. apply elem_of_app. right. left.
          -- assert ((y, TRANSACTION_STATUS_COMMITTED) ∈ writes TRANSACTION_STATUS_SUB_COMMITTED A) as [Hx _]%Hin by (rewrite E1; apply elem_of_app; by left). done.
      + destruct l as [|v l]; cbn [app] in E2; [injection E2 as _ E2 _; congruence|]. injection E2 as _ E2.
        assert ((y, TRANSACTION_STATUS_SUB_COMMITTED) ∈ writes status B) as [Hx _]%Hin by (rewrite E2; apply elem_of_app; right; left). cbn in Hx. congruence.
    - cbn [app] in E. exfalso. destruct w1 as [|v w1]; cbn [app] in E; [injection E as _ E _; congruence|]. injection E as _ E.
      assert ((y, TRANSACTION_STATUS_SUB_COMMITTED) ∈ writes status B) as [Hx _]%Hin by (rewrite E; apply elem_of_app; right; left). cbn in Hx. congruence. }
  split; [|apply Hy]. rewrite HR by (right; apply HA, Hy). done.
Qed.

(** ** Phases *)

Lemma last_write_same w y d : Forall (λ v, v.1 = y → v.2 = d) w → last_write w y d = d.
Proof. induction 1 as [|v l Hv _ IH]; [done|]. unfold last_write in *. cbn [fold_left]. destruct (Z.eqb_spec y v.1); [by rewrite Hv|done]. Qed.

Lemma last_write_in w y d : last_write w y d = d ∨ (y, last_write w y d) ∈ w.
Proof.
  induction w as [|v l IH] using rev_ind; [by left|]. rewrite last_write_app. cbn [last_write fold_left].
  destruct (Z.eqb_spec y v.1) as [->|].
  - right. apply elem_of_app. right. destruct v. left.
  - destruct IH as [|IH]; [by left|]. right. apply elem_of_app. by left.
Qed.

Lemma writes_take i s xs : take i (writes s xs) = writes s (take i xs).
Proof. apply firstn_map. Qed.

Lemma not_sub i y : y ∉ subs → ∀ A, (∀ z, z ∈ A ↔ z ∈ subs) → y ∉ take i A.
Proof. intros Hy A HA Hin. apply Hy, HA. by eapply elem_of_take in Hin as (? & ?%list_elem_of_lookup_2 & _). Qed.

Definition before_commit (f : Z → Z) : Prop :=
  f x = TRANSACTION_STATUS_IN_PROGRESS ∧
  ∀ y, y ∈ subs → f y = TRANSACTION_STATUS_IN_PROGRESS ∨ f y = TRANSACTION_STATUS_SUB_COMMITTED.
Definition after_commit (f : Z → Z) : Prop :=
  f x = status ∧
  ∀ y, y ∈ subs → f y = status ∨
    f y = if status =? TRANSACTION_STATUS_COMMITTED then TRANSACTION_STATUS_SUB_COMMITTED else TRANSACTION_STATUS_IN_PROGRESS.

Lemma tree_phase i : before_commit (λ y, F i y) ∨ after_commit (λ y, F i y).
Proof.
  destruct tree_parts as (A & B & -> & HA & HB). pose proof (to_running H) as HR. rewrite Forall_forall in HR. pose proof (to_nodup H) as Hx.
  set (P := if status =? TRANSACTION_STATUS_COMMITTED then writes TRANSACTION_STATUS_SUB_COMMITTED A else []).
  assert (HP : ∀ n y d, last_write (take n P) y d = if status =? TRANSACTION_STATUS_COMMITTED
    then (if bool_decide (y ∈ take n A) then TRANSACTION_STATUS_SUB_COMMITTED else d) else d).
  { intros n y d. unfold P. destruct (status =? _); [by rewrite writes_take, last_writes|by rewrite take_nil]. }
  rewrite take_app. destruct (i - length P)%nat as [|m] eqn:Em.
  - left. cbn [take]. rewrite app_nil_r. split; [|intros y Hy]; rewrite HP.
    + rewrite bool_decide_eq_false_2 by (by apply not_sub). rewrite HR by left. by destruct (status =? _).
    + rewrite HR by (by right). destruct (status =? _); [|auto]. case_bool_decide; auto.
  - right. cbn [take]. rewrite writes_take, (take_ge P) by lia. rewrite <- (firstn_all P). split; [|intros y Hy]; rewrite last_write_app; cbn [last_write fold_left fst snd].
    + fold (last_write (writes status (take m B))). rewrite Z.eqb_refl. fold (last_write (writes status (take m B)) x status). rewrite last_writes. by case_bool_decide.
    + destruct (Z.eqb_spec y x) as [->|Hne]; [done|].
      match goal with |- fold_left ?f _ ?d = _ ∨ _ => change (fold_left f (writes status (take m B)) d) with (last_write (writes status (take m B)) y d) end.
      rewrite last_writes. case_bool_decide; [by left|]. right. rewrite HP.
      unfold P. rewrite HR by (by right). destruct (status =? _); [|done].
      rewrite bool_decide_eq_true_2; [done|]. unfold writes. rewrite length_map, firstn_all. by apply HA.
Qed.

Definition final (s : Z) : Prop := s = TRANSACTION_STATUS_COMMITTED ∨ s = TRANSACTION_STATUS_ABORTED.

Lemma tree_values v : v ∈ w → v.2 = status ∨ (status = TRANSACTION_STATUS_COMMITTED ∧ v.2 = TRANSACTION_STATUS_SUB_COMMITTED).
Proof.
  destruct tree_parts as (A & B & -> & _ & _). intros [Hv|[->|Hv]%elem_of_cons]%elem_of_app; [|by left|left].
  - destruct (Z.eqb_spec status TRANSACTION_STATUS_COMMITTED); [|by apply elem_of_nil in Hv]. right. apply list_elem_of_fmap in Hv as (z & -> & _). done.
  - apply list_elem_of_fmap in Hv as (z & -> & _). done.
Qed.

(** A final status stays. *)
Lemma tree_final i j y : (i ≤ j)%nat → y ∈ x :: subs → final (F i y) → F j y = F i y.
Proof.
  intros Hij Hy Hf. assert (Ei : take j w = take i w ++ take (j - i) (drop i w)).
  { rewrite <- (take_drop i (take j w)), take_take, Nat.min_l by lia. f_equal. by rewrite skipn_firstn_comm. }
  assert (Hd : xstatus c y = TRANSACTION_STATUS_IN_PROGRESS). { pose proof (to_running H) as HR. rewrite Forall_forall in HR. auto. }
  rewrite Ei, last_write_app. apply last_write_same, Forall_forall. intros v Hv Hvy.
  destruct (last_write_in (take i w) y (xstatus c y)) as [E|Hin]; [rewrite E, Hd in Hf; by destruct Hf|].
  assert (Hsub : ∀ u, u ∈ take i w → u ∈ w) by (intros u Hu; rewrite <- (take_drop i w); apply elem_of_app; by left).
  assert (Es : F i y = status). { destruct (tree_values _ (Hsub _ Hin)) as [|[_ E]]; [done|]. cbn in E. rewrite E in Hf. by destruct Hf. }
  rewrite Es in *. destruct (tree_values v) as [|[Ec Ev]]; [|done|].
  { rewrite <- (take_drop i w). apply elem_of_app. right. rewrite <- (take_drop (j - i) (drop i w)). apply elem_of_app. by left. }
  exfalso. apply list_elem_of_split in Hv as (l1 & l2 & E). destruct v as [z s]. cbn in Ev, Hvy. subst z s.
  destruct (tree_effective (take i w ++ l1) y (l2 ++ drop (j - i) (drop i w))) as [_ Hn].
  { rewrite <- app_assoc. etrans; [symmetry; apply (take_drop i)|]. f_equal. etrans; [symmetry; apply (take_drop (j - i))|]. by rewrite E, <- app_assoc. }
  apply Hn, elem_of_app. left. by rewrite <- Ec at 1.
Qed.
End during.

(** * Testing a transaction while the log changes *)

Section test.
Context (ir : bool) (lsn x : Z) (subs : list Z) (status : Z) (c : XactCtl) (H : tree_ok x subs status c).
Context (subtrans : SubTransCtl) (TransactionXmin : Z).
Abbreviation w := (tree_writes x subs status).

(** The log as the fetches find it: some of the writes are made, and more at each fetch. *)
Context (now : nat → XactCtl) (done : nat → nat).
Context (Hnow : ∀ n, write_all ir lsn (take (done n) w) c = Ok (now n)) (Hdone : ∀ n, (done n ≤ done (S n))%nat).

(** The parents recorded in pg_subtrans lead to the transaction. *)
Inductive descends : nat → Z → Prop :=
  | descends_top : descends 0 x
  | descends_sub d y p : y ∈ subs → TransactionIdPrecedes y TransactionXmin = false →
      SubTransGetParent subtrans y = Ok p → TransactionIdIsValid p = true → descends d p → descends (S d) y.

Lemma descends_member d y : descends d y → y ∈ x :: subs.
Proof. destruct 1; [left|by right]. Qed.

Lemma now_spec n : wrote_all lsn (take (done n) w) c (now n).
Proof.
  destruct (write_all_spec ir lsn (take (done n) w) c (to_ok _ _ _ _ H)) as (c' & E & Hw).
  - apply Forall_take, (tree_present _ _ _ _ H).
  - eapply effective_prefix. rewrite take_drop. apply (tree_effective _ _ _ _ H).
  - rewrite Hnow in E. by injection E as <-.
Qed.

Lemma member_nonneg y : y ∈ x :: subs → TransactionIdIsNormal y = true ∧ present c y.
Proof. pose proof (to_valid _ _ _ _ H) as HV. rewrite Forall_forall in HV. apply HV. Qed.

Lemma now_status n y : y ∈ x :: subs → xstatus (now n) y = last_write (take (done n) w) y (xstatus c y).
Proof. intros Hy. apply (wa_status _ _ _ _ (now_spec n)), member_nonneg, Hy. Qed.

Lemma now_stays n m y : (n ≤ m)%nat → y ∈ x :: subs → final (xstatus (now n) y) → xstatus (now m) y = xstatus (now n) y.
Proof.
  intros Hnm Hy. rewrite !now_status by done. apply tree_final; [done| |done].
  induction Hnm as [|m _ IH]; [done|]. specialize (Hdone m). lia.
Qed.

(** The entry of the cache for a member of the tree, if any, is its final status. *)
Definition cache_ok (n : nat) k : Prop :=
  cachedFetchXid k ∈ x :: subs → final (cachedFetchXidStatus k) ∧ xstatus (now n) (cachedFetchXid k) = cachedFetchXidStatus k.

Lemma cache_later n k : cache_ok n k → cache_ok (S n) k.
Proof. intros Hk Hin. destruct (Hk Hin) as [Hf E]. split; [done|]. rewrite <- E. apply now_stays; [lia|done|by rewrite E]. Qed.

Lemma fetch_member n y k : y ∈ x :: subs → cache_ok n k → ∃ k',
  TransactionLogFetch (now n) y k = Ok (xstatus (now n) y, k') ∧ (xstatus (now n) y = TRANSACTION_STATUS_SUB_COMMITTED → k' = k).
Proof.
  intros Hy Hk. unfold TransactionLogFetch. destruct (Z.eqb_spec y (cachedFetchXid k)) as [E|E].
  { exists k. rewrite E in Hy. destruct (Hk Hy) as [_ <-]. by rewrite E. }
  destruct (member_nonneg y Hy) as [-> Hp]. cbn [negb]. destruct (now_spec n) as [H1 H2 _ _ _].
  rewrite get_status by auto. rsimpl. destruct (_ && _) eqn:Eb; eexists; (split; [done|]); [|done].
  intros Es. rewrite Es in Eb. done.
Qed.

(** The answer for a member is that for the transaction itself at some moment of the test. *)
Lemma did_commit_member d y : descends d y → ∀ fuel n k, (d < fuel)%nat → cache_ok n k →
  ∃ b k' m, TransactionIdDidCommit subtrans TransactionXmin now fuel n y k = Ok (b, k') ∧ (n ≤ m ≤ n + d)%nat ∧
    b = (xstatus (now m) x =? TRANSACTION_STATUS_COMMITTED).
Proof.
  induction 1 as [|d y p Hy Hmin Hp Hv Hd IH]; intros fuel n k Hf Hk; (destruct fuel as [|fuel]; [lia|]); cbn [TransactionIdDidCommit].
  - destruct (fetch_member n x k) as (k' & -> & _); [left|done|]. rsimpl. exists (xstatus (now n) x =? TRANSACTION_STATUS_COMMITTED), k', n.
    split; [|split; [lia|done]]. assert (xstatus (now n) x ≠ TRANSACTION_STATUS_SUB_COMMITTED).
    { rewrite now_status by left. destruct (tree_phase _ _ _ _ H (done n)) as [[-> _]|[-> _]]; [done|]. by destruct (to_status _ _ _ _ H) as [-> | ->]. }
    destruct (Z.eqb_spec (xstatus (now n) x) TRANSACTION_STATUS_COMMITTED); [done|].
    by destruct (Z.eqb_spec (xstatus (now n) x) TRANSACTION_STATUS_SUB_COMMITTED).
  - destruct (fetch_member n y k) as (k' & -> & Hk'); [by right|done|]. rsimpl.
    destruct (Z.eqb_spec (xstatus (now n) y) TRANSACTION_STATUS_SUB_COMMITTED) as [Es|Es].
    { rewrite Es. cbn [Z.eqb TRANSACTION_STATUS_SUB_COMMITTED TRANSACTION_STATUS_COMMITTED Pos.eqb]. rewrite Hmin, Hp. rsimpl. rewrite Hv. cbn [negb].
      rewrite (Hk' Es). destruct (IH fuel (S n) k) as (b & k2 & m & E & Hm & Hb); [lia|by apply cache_later|]. exists b, k2, m. split; [done|]. split; [lia|done]. }
    exists (xstatus (now n) x =? TRANSACTION_STATUS_COMMITTED), k', n. split; [|split; [lia|done]].
    assert (E : (xstatus (now n) y =? TRANSACTION_STATUS_COMMITTED) = (xstatus (now n) x =? TRANSACTION_STATUS_COMMITTED)).
    { rewrite !now_status in * by (left || by right). destruct (tree_phase _ _ _ _ H (done n)) as [[-> Hs]|[-> Hs]]; destruct (Hs y Hy) as [E|E]; rewrite E; try done.
      rewrite E in Es. by destruct (status =? TRANSACTION_STATUS_COMMITTED). }
    rewrite <- E. by destruct (xstatus (now n) y =? TRANSACTION_STATUS_COMMITTED).
Qed.
End test.

(** * Parents *)

Definition has_entry (subtrans : SubTransCtl) (y : Z) : Prop :=
  ∃ p, subtrans !! SubTransToPage y = Some p ∧ length p = Z.to_nat SUBTRANS_XACTS_PER_PAGE.

Lemma entry_range y : 0 ≤ TransactionIdToEntry y < SUBTRANS_XACTS_PER_PAGE.
Proof. apply Z.mod_pos_bound. done. Qed.

Lemma entry_inj y z : SubTransToPage y = SubTransToPage z → TransactionIdToEntry y = TransactionIdToEntry z → y = z.
Proof.
  unfold SubTransToPage, TransactionIdToEntry. change SUBTRANS_XACTS_PER_PAGE with 2048. intros E1 E2.
  rewrite (Z.div_mod y 2048), (Z.div_mod z 2048) by lia. by rewrite E1, E2.
Qed.

(** A recorded parent reads back, and the other parents are unchanged. *)
Lemma set_parent_spec subtrans xid parent : has_entry subtrans xid →
  ∃ subtrans', SubTransSetParent xid parent subtrans = Ok subtrans' ∧
    ∀ y, SubTransGetParent subtrans' y =
      if (y =? xid) && TransactionIdIsNormal y then Ok parent else SubTransGetParent subtrans y.
Proof.
  intros (p & Hp & Hl). pose proof (entry_range xid) as He.
  destruct (lookup_lt_is_Some_2 p (Z.to_nat (TransactionIdToEntry xid))) as [old Ho]; [lia|].
  unfold SubTransSetParent, SimpleLruReadPage. rewrite Hp. rsimpl. rewrite Ho. rsimpl.
  assert (HG : ∀ y, SubTransGetParent (<[SubTransToPage xid := <[Z.to_nat (TransactionIdToEntry xid) := parent]> p]> subtrans) y =
    if (y =? xid) && TransactionIdIsNormal y then Ok parent else SubTransGetParent subtrans y).
  { intros y. unfold SubTransGetParent, SimpleLruReadPage. pose proof (entry_range y). destruct (TransactionIdIsNormal y); cbn [negb]; [|by rewrite andb_false_r].
    rewrite andb_true_r. destruct (Z.eqb_spec y xid) as [->|Hne].
    - rewrite lookup_insert_eq. rsimpl. rewrite list_lookup_insert_eq by (by eapply lookup_lt_Some). done.
    - destruct (decide (SubTransToPage y = SubTransToPage xid)) as [E|E]; [|by rewrite lookup_insert_ne].
      rewrite E, lookup_insert_eq, Hp. rsimpl. rewrite list_lookup_insert_ne; [done|]. intros Ee. apply Hne, entry_inj; [done|lia]. }
  destruct (Z.eqb_spec old parent) as [->|]; cbn [negb]; eexists; (split; [done|]); [|done].
  intros y. rewrite <- HG. do 2 f_equal. by rewrite list_insert_id, insert_id.
Qed.

(** From a subtransaction the recorded parents lead to the transaction. *)
Lemma topmost_found x subs subtrans TransactionXmin d y : TransactionIdIsValid x = true → 0 ≤ x →
  SubTransGetParent subtrans x = Ok InvalidTransactionId →
  descends x subs subtrans TransactionXmin d y →
  (∀ y p, y ∈ subs → SubTransGetParent subtrans y = Ok p → TransactionIdPrecedes p y = true) →
  ∀ fuel, (d + 1 < fuel)%nat →
  SubTransGetTopmostTransaction fuel subtrans TransactionXmin y = Ok x.
Proof.
  intros Hx H0 Htop Hd Hprec. unfold SubTransGetTopmostTransaction. enough (HL : ∀ prev fuel, (d + 1 < fuel)%nat → topmost_loop fuel subtrans TransactionXmin y prev = Ok x) by auto.
  induction Hd as [|d y p Hy Hmin Hp Hv _ IH]; intros prev fuel Hf; (destruct fuel as [|fuel]; [lia|]); cbn [topmost_loop].
  - rewrite Hx. cbn [negb]. destruct (TransactionIdPrecedes x TransactionXmin); [done|]. rewrite Htop. rsimpl.
    replace (TransactionIdPrecedes InvalidTransactionId x) with true by (unfold TransactionIdPrecedes, TransactionIdIsValid, InvalidTransactionId in *; cbn; lia).
    destruct fuel as [|fuel]; [lia|]. done.
  - assert (TransactionIdIsValid y = true) as ->.
    { destruct (Z.eqb_spec y 0) as [->|]; [|by unfold TransactionIdIsValid, InvalidTransactionId; lia]. cbn in Hp. injection Hp as <-. done. }
    cbn [negb]. rewrite Hmin, Hp. rsimpl. rewrite (Hprec y p) by done. cbn [negb]. apply IH. lia.
Qed.

(** * Properties *)

Lemma get_status_present c y s l : 0 ≤ y → TransactionIdGetStatus c y = Ok (s, l) → present c y.
Proof. intros Hy. unfold TransactionIdGetStatus, SimpleLruReadPage. destruct (page_buffer c !! TransactionIdToPage y) eqn:E; [|done]. intros _. split; [done|by rewrite E]. Qed.

Lemma writes_succeed ir lsn x subs status c i : tree_ok x subs status c →
  ∃ c', write_all ir lsn (take i (tree_writes x subs status)) c = Ok c' ∧ wrote_all lsn (take i (tree_writes x subs status)) c c'.
Proof.
  intros H. apply write_all_spec; [apply H|by apply Forall_take, tree_present|].
  eapply effective_prefix. rewrite take_drop. by apply tree_effective.
Qed.

Lemma tree_writes_members x subs status y : (∃ s, (y, s) ∈ tree_writes x subs status) ↔ y ∈ x :: subs.
Proof.
  destruct (tree_parts x subs status) as (A & B & -> & HA & HB). rewrite elem_of_cons. split.
  - intros (s & [Hv|[E|Hv]%elem_of_cons]%elem_of_app).
    + destruct (status =? _); [|by apply elem_of_nil in Hv]. apply list_elem_of_fmap in Hv as (z & [= -> _] & Hz). right. by apply HA.
    + injection E as -> _. by left.
    + apply list_elem_of_fmap in Hv as (z & [= -> _] & Hz). right. by apply HB.
  - intros [->|Hy]; exists status; apply elem_of_app; right; [left|]. right. apply list_elem_of_fmap. exists y. split; [done|by apply HB].
Qed.

(** After all writes every member has the final status. *)
Lemma tree_done x subs status c y : tree_ok x subs status c → y ∈ x :: subs → last_write (tree_writes x subs status) y (xstatus c y) = status.
Proof.
  intros H Hy. destruct (tree_parts x subs status) as (A & B & -> & HA & HB). rewrite last_write_app. cbn [last_write fold_left fst snd].
  match goal with |- fold_left ?f _ ?d = _ => change (fold_left f (writes status B) d) with (last_write (writes status B) y d) end.
  rewrite last_writes. case_bool_decide as Hb; [done|]. destruct (Z.eqb_spec y x); [done|]. apply elem_of_cons in Hy as [|Hy]; [done|]. by apply HB in Hy.
Qed.

(** Recording the end of a transaction covers its whole tree and nothing else: the
    transaction and all its subtransactions, on however many pages of the commit log, get the
    final status with a log position that is late enough for an asynchronous commit, and the
    status of every other transaction is unchanged. *)
Theorem tree_status_spec ir x subs status lsn c : tree_ok x subs status c →
  ∃ c', TransactionIdSetTreeStatus ir x subs status lsn c = Ok c' ∧
    (∀ y, y ∈ x :: subs → ∃ l, TransactionIdGetStatus c' y = Ok (status, l) ∧ (lsn ≤ l ∨ lsn = 0)) ∧
    (∀ y s l, 0 ≤ y → y ∉ x :: subs → TransactionIdGetStatus c y = Ok (s, l) →
       ∃ l', TransactionIdGetStatus c' y = Ok (s, l') ∧ l ≤ l').
Proof.
  intros H. pose proof (to_valid _ _ _ _ H) as HV. rewrite Forall_forall in HV.
  rewrite tree_status_writes; [|by destruct (HV x ltac:(left)) as [Hn _]; unfold TransactionIdIsNormal, FirstNormalTransactionId, TransactionIdIsValid, InvalidTransactionId in *; lia|
    apply Forall_forall; intros y Hy; apply (HV y Hy)].
  destruct (writes_succeed ir lsn x subs status c (length (tree_writes x subs status)) H) as (c' & E & [W1 W2 W3 W4 W5]).
  rewrite firstn_all in *. exists c'. split; [done|]. split.
  - intros y Hy. destruct (HV y Hy) as [_ Hp]. exists (xlsn c' y). rewrite get_status, W3, tree_done by (auto; apply Hp). split; [done|].
    apply (tree_writes_members x subs status) in Hy as [s Hs]. by apply (W4 (y, s)).
  - intros y s l H0 Hn Hg. pose proof (get_status_present _ _ _ _ H0 Hg) as Hp. rewrite get_status in Hg by (apply H || done). injection Hg as <- <-.
    exists (xlsn c' y). split; [|auto]. rewrite get_status, W3 by auto. do 2 f_equal.
    apply last_write_same, Forall_forall. intros [z s] Hv Ez. cbn in Ez. subst z. exfalso. apply Hn, (tree_writes_members x subs status). by exists s.
Qed.

(** C35. The end of a transaction is atomic for whoever tests it: setting the status of a tree is
    a sequence of writes, and if a backend tests the transaction or one of its subtransactions
    while any part of them is made between its fetches, the test ends and its answer is
    whether the transaction itself was committed at one moment during the test. *)
Theorem commit_is_atomic ir lsn x subs status c subtrans TransactionXmin now done k d y fuel :
  tree_ok x subs status c →
  (∀ n, write_all ir lsn (take (done n) (tree_writes x subs status)) c = Ok (now n)) → (∀ n, (done n ≤ done (S n))%nat) →
  descends x subs subtrans TransactionXmin d y → cache_ok x subs now 0 k → (d < fuel)%nat →
  TransactionIdSetTreeStatus ir x subs status lsn c = write_all ir lsn (tree_writes x subs status) c ∧
  ∃ b k' m s l, TransactionIdDidCommit subtrans TransactionXmin now fuel 0 y k = Ok (b, k') ∧ (m ≤ d)%nat ∧
    TransactionIdGetStatus (now m) x = Ok (s, l) ∧ b = (s =? TRANSACTION_STATUS_COMMITTED).
Proof.
  intros H Hnow Hdone Hd Hk Hf. pose proof (to_valid _ _ _ _ H) as HV. rewrite Forall_forall in HV. split.
  - apply tree_status_writes; [|apply Forall_forall; intros z Hz; apply (HV z Hz)].
    destruct (HV x ltac:(left)) as [Hn _]. unfold TransactionIdIsNormal, FirstNormalTransactionId, TransactionIdIsValid, InvalidTransactionId in *. lia.
  - destruct (did_commit_member ir lsn x subs status c H subtrans TransactionXmin now done Hnow Hdone d y Hd fuel 0 k Hf Hk) as (b & k' & m & E & Hm & Hb).
    destruct (now_spec ir lsn x subs status c H now done Hnow m) as [W1 W2 _ _ _].
    exists b, k', m, (xstatus (now m) x), (xlsn (now m) x). split_and!; [done|lia| |done]. apply get_status; [done|]. apply W2, (HV x). left.
Qed.

(** * Witnesses *)

(** The transaction is the last of the first page, its subtransactions are on the next one. *)
Definition two_pages : XactCtl := mkXactCtl {[0 := replicate (Z.to_nat BLCKSZ) 0; 1 := replicate (Z.to_nat BLCKSZ) 0]} ∅.
Definition parents : SubTransCtl := {[16 := <[1%nat := 32768]> (<[0%nat := 32767]> (replicate 2048 0))]}.

Lemma two_pages_tree : tree_ok 32767 [32768; 32769] TRANSACTION_STATUS_COMMITTED two_pages.
Proof.
  constructor.
  - intros n p. unfold two_pages. cbn [page_buffer]. intros [[<- <-]|[_ [<- <-]%lookup_singleton_Some]]%lookup_insert_Some; apply length_replicate.
  - repeat constructor; try done; eexists; vm_compute; reflexivity.
  - rewrite !not_elem_of_cons. split_and!; [done|done|apply not_elem_of_nil].
  - repeat constructor; vm_compute; reflexivity.
  - by left.
Qed.

Lemma tree_status_spec_witness : ∃ c',
  TransactionIdSetTreeStatus false 32767 [32768; 32769] TRANSACTION_STATUS_COMMITTED 0 two_pages = Ok c' ∧
  (∀ y, y ∈ [32767; 32768; 32769] → ∃ l, TransactionIdGetStatus c' y = Ok (TRANSACTION_STATUS_COMMITTED, l) ∧ (0 ≤ l ∨ 0 = 0)) ∧
  (∀ y s l, 0 ≤ y → y ∉ [32767; 32768; 32769] → TransactionIdGetStatus two_pages y = Ok (s, l) → ∃ l', TransactionIdGetStatus c' y = Ok (s, l') ∧ l ≤ l').
Proof. exact (tree_status_spec false 32767 [32768; 32769] TRANSACTION_STATUS_COMMITTED 0 two_pages two_pages_tree). Defined.

(** Two more of the five writes are made at each fetch. *)
Definition half_done (n : nat) : XactCtl :=
  match write_all false 0 (take (2 * n) (tree_writes 32767 [32768; 32769] TRANSACTION_STATUS_COMMITTED)) two_pages with Ok c => c | Err _ => two_pages end.

Lemma half_done_ok n : write_all false 0 (take (2 * n) (tree_writes 32767 [32768; 32769] TRANSACTION_STATUS_COMMITTED)) two_pages = Ok (half_done n).
Proof. unfold half_done. destruct (writes_succeed false 0 _ _ _ _ (2 * n) two_pages_tree) as (c' & -> & _). done. Qed.

Lemma commit_is_atomic_witness :
  TransactionIdSetTreeStatus false 32767 [32768; 32769] TRANSACTION_STATUS_COMMITTED 0 two_pages =
    write_all false 0 (tree_writes 32767 [32768; 32769] TRANSACTION_STATUS_COMMITTED) two_pages ∧
  ∃ b k' m s l, TransactionIdDidCommit parents 1000 half_done 3 0 32769 (mkCache 0 0 0) = Ok (b, k') ∧ (m ≤ 2)%nat ∧
    TransactionIdGetStatus (half_done m) 32767 = Ok (s, l) ∧ b = (s =? TRANSACTION_STATUS_COMMITTED).
Proof.
  apply (commit_is_atomic false 0 32767 [32768; 32769] TRANSACTION_STATUS_COMMITTED two_pages parents 1000 half_done (λ n, 2 * n)%nat
    (mkCache 0 0 0) 2 32769 3 two_pages_tree half_done_ok); [lia| | |lia].
  - apply (descends_sub _ _ _ _ 1 32769 32768); [right; left|reflexivity..|].
    apply (descends_sub _ _ _ _ 0 32768 32767); [left|reflexivity..|constructor].
  - intros Hin. rewrite !elem_of_cons in Hin. destruct Hin as [?|[?|[?|Hin]]]; [done..|by apply elem_of_nil in Hin].
Defined.

(** The test of the grandchild begins before the commit and ends after it. *)
Example tested_during_commit :
  (TransactionIdDidCommit parents 1000 half_done 3 0 32768 (mkCache 0 0 0), TransactionIdDidCommit parents 1000 half_done 3 1 32769 (mkCache 0 0 0)) =
  (Ok (false, mkCache 0 0 0), Ok (true, mkCache 32768 1 0)).
Proof. vm_compute. reflexivity. Qed.
