(* ===== verification/ClogPages.v ===== *)
(** How the commit log and pg_subtrans grow and shrink (clog.c, subtrans.c, slru.c): pages are
    created when the first id on them is assigned and removed, a segment at a time, when no id
    on them can be asked for any more.  Page numbers wrap around with the ids. *)

From S2P Require Import Prelude Xid Bufpage PageOps Clog CommitLog.

(** * Pages *)

Definition SLRU_PAGES_PER_SEGMENT : Z := 32.

(** The log, the number of its newest page and the oldest id it can be asked for. *)
Record ClogState : Type := mkClog { clog : XactCtl; latest_page_number : Z; oldestClogXid : Z }.
Implicit Types (s : ClogState).

(** The page and its log positions; the record about it is not kept. *)
Definition ZeroCLOGPage (pageno : Z) s : ClogState :=
  mkClog (mkXactCtl (<[pageno := replicate (Z.to_nat BLCKSZ) 0]> (page_buffer (clog s))) (filter (λ e, e.1.1 ≠ pageno) (group_lsn (clog s))))
    pageno (oldestClogXid s).

Definition BootStrapCLOG s : ClogState := ZeroCLOGPage 0 s.
Definition StartupCLOG (nextXid : Z) s : ClogState := mkClog (clog s) (TransactionIdToPage nextXid) (oldestClogXid s).

(** Positions that are not used yet are cleared. *)
Definition TrimCLOG (xid : Z) s : result ClogState :=
  let pageno := TransactionIdToPage xid in
  if negb (TransactionIdToPgIndex xid =? 0) then
    let byteno := TransactionIdToByte xid in
    let bshift := TransactionIdToBIndex xid * CLOG_BITS_PER_XACT in
    page ← SimpleLruReadPage (page_buffer (clog s)) pageno;
    byte ← some_or "byte of a clog page" (page !! Z.to_nat byteno);
    let page := take (Z.to_nat byteno) page ++ [Z.land byte (Z.shiftl 1 bshift - 1)] ++ replicate (Z.to_nat (BLCKSZ - byteno - 1)) 0 in
    Ok (mkClog (mkXactCtl (<[pageno := page]> (page_buffer (clog s))) (group_lsn (clog s))) (latest_page_number s) (oldestClogXid s))
  else Ok s.

Definition ExtendCLOG (newestXact : Z) s : ClogState :=
  if negb (TransactionIdToPgIndex newestXact =? 0) && negb (newestXact =? FirstNormalTransactionId) then s
  else ZeroCLOGPage (TransactionIdToPage newestXact) s.

(** * Removing pages *)

(** The comparison of [CLOGPagePrecedes] and [SubTransPagePrecedes], for pages of [per_page] ids. *)
Definition page_precedes (per_page page1 page2 : Z) : bool :=
  let xid1 := uint32 (page1 * per_page + (FirstNormalTransactionId + 1)) in
  let xid2 := uint32 (page2 * per_page + (FirstNormalTransactionId + 1)) in
  TransactionIdPrecedes xid1 xid2 && TransactionIdPrecedes xid1 (uint32 (xid2 + per_page - 1)).

Definition CLOGPagePrecedes (page1 page2 : Z) : bool := page_precedes CLOG_XACTS_PER_PAGE page1 page2.
Definition SubTransPagePrecedes (page1 page2 : Z) : bool := page_precedes SUBTRANS_XACTS_PER_PAGE page1 page2.

Section truncate.
Context (PagePrecedes : Z → Z → bool).

Definition SlruMayDeleteSegment (segpage cutoffPage : Z) : bool :=
  PagePrecedes segpage cutoffPage && PagePrecedes (segpage + SLRU_PAGES_PER_SEGMENT - 1) cutoffPage.

(** The first page of the segment of a page. *)
Definition segment_of (pageno : Z) : Z := pageno / SLRU_PAGES_PER_SEGMENT * SLRU_PAGES_PER_SEGMENT.

(** Buffers are written out before they are dropped, so what counts is the segments that are
    removed. *)
Definition SimpleLruTruncate (cutoffPage latest : Z) (pages : gmap Z (list Z)) : gmap Z (list Z) :=
  if PagePrecedes latest cutoffPage then pages
  else filter (λ e, SlruMayDeleteSegment (segment_of e.1) cutoffPage = false) pages.
End truncate.

Definition AdvanceOldestClogXid (oldest_datfrozenxid : Z) s : ClogState :=
  if TransactionIdPrecedes (oldestClogXid s) oldest_datfrozenxid then mkClog (clog s) (latest_page_number s) oldest_datfrozenxid else s.

Definition TruncateCLOG (oldestXact : Z) s : ClogState :=
  let cutoffPage := TransactionIdToPage oldestXact in
  if negb (existsb (λ n, SlruMayDeleteSegment CLOGPagePrecedes (segment_of n) cutoffPage) (map_to_list (page_buffer (clog s))).*1) then s
  else
    let s := AdvanceOldestClogXid oldestXact s in
    mkClog (mkXactCtl (SimpleLruTruncate CLOGPagePrecedes cutoffPage (latest_page_number s) (page_buffer (clog s))) (group_lsn (clog s)))
      (latest_page_number s) (oldestClogXid s).

(** * pg_subtrans *)

Record SubTransState : Type := mkSubTrans { subtrans_pages : SubTransCtl; subtrans_latest : Z }.
Implicit Types (t : SubTransState).

Definition ZeroSUBTRANSPage (pageno : Z) t : SubTransState :=
  mkSubTrans (<[pageno := replicate (Z.to_nat SUBTRANS_XACTS_PER_PAGE) 0]> (subtrans_pages t)) pageno.

Definition BootStrapSUBTRANS t : SubTransState := ZeroSUBTRANSPage 0 t.

Definition ExtendSUBTRANS (newestXact : Z) t : SubTransState :=
  if negb (TransactionIdToEntry newestXact =? 0) && negb (newestXact =? FirstNormalTransactionId) then t
  else ZeroSUBTRANSPage (SubTransToPage newestXact) t.

Fixpoint startup_loop (fuel : nat) (startPage endPage : Z) t : result SubTransState :=
  match fuel with
  | O => Err OutOfFuel
  | S fuel =>
      let t := ZeroSUBTRANSPage startPage t in
      if startPage =? endPage then Ok t
      else startup_loop fuel (if SubTransToPage MaxTransactionId <? startPage + 1 then 0 else startPage + 1) endPage t
  end.

Definition StartupSUBTRANS (fuel : nat) (oldestActiveXID nextXid : Z) t : result SubTransState :=
  startup_loop fuel (SubTransToPage oldestActiveXID) (SubTransToPage nextXid) t.

(** [TransactionIdRetreat] passes the reserved ids. *)
Definition TransactionIdRetreat (dest : Z) : Z :=
  let dest := uint32 (dest - 1) in
  if dest <? FirstNormalTransactionId then MaxTransactionId else dest.

Definition TruncateSUBTRANS (oldestXact : Z) t : SubTransState :=
  mkSubTrans (SimpleLruTruncate SubTransPagePrecedes (SubTransToPage (TransactionIdRetreat oldestXact)) (subtrans_latest t) (subtrans_pages t)) (subtrans_latest t).

(** * The comparison of pages *)

Section pages.
Context (N K : Z) (HN : 4 < N ≤ 2 ^ 20) (HK : N * K = 2 ^ 31).

(** How far page [p] is after page [q], in ids and modulo 2^32. *)
Definition ahead (p q : Z) : Z := ((p - q) * N) mod 2 ^ 32.

Lemma ahead_multiple p q : ∃ k, ahead p q = N * k.
Proof.
  unfold ahead. pose proof (Z.div_mod ((p - q) * N) (2 ^ 32)). exists (p - q - 2 * K * ((p - q) * N / 2 ^ 32)).
  rewrite Z.mul_sub_distr_l. replace (N * (2 * K * ((p - q) * N / 2 ^ 32))) with (2 ^ 32 * ((p - q) * N / 2 ^ 32)) by (replace (2 ^ 32) with (2 * (N * K)) at 1 by lia; ring). lia.
Qed.

Lemma int32_negative z : (int32 z <? 0) = (2 ^ 31 <=? z mod 2 ^ 32).
Proof.
  unfold int32. pose proof (Z.div_mod z (2 ^ 32)). pose proof (Z.mod_pos_bound z (2 ^ 32)). set (r := z mod 2 ^ 32) in *. set (q := z / 2 ^ 32) in *.
  destruct (Z.leb_spec (2 ^ 31) r).
  - replace (z + 2 ^ 31) with ((r - 2 ^ 31) + (q + 1) * 2 ^ 32) by lia. rewrite Z_mod_plus_full, Z.mod_small; lia.
  - replace (z + 2 ^ 31) with ((r + 2 ^ 31) + q * 2 ^ 32) by lia. rewrite Z_mod_plus_full, Z.mod_small; lia.
Qed.

Lemma page_xid_normal p : FirstNormalTransactionId < uint32 (p * N + (FirstNormalTransactionId + 1)) ∧
  FirstNormalTransactionId ≤ uint32 (uint32 (p * N + (FirstNormalTransactionId + 1)) + N - 1).
Proof.
  unfold uint32, FirstNormalTransactionId. destruct (ahead_multiple p 0) as [k Hk]. unfold ahead in Hk. rewrite Z.sub_0_r in Hk.
  pose proof (Z.mod_pos_bound (p * N) (2 ^ 32)). rewrite <- Zplus_mod_idemp_l, Hk. assert (N * k + N ≤ 2 ^ 32). { assert (k < 2 * K) by nia. nia. }
  rewrite (Z.mod_small (N * k + (3 + 1))) by lia. split; [lia|]. destruct (Z.eq_dec (N * k + N) (2 ^ 32)) as [E|].
  - replace (N * k + (3 + 1) + N - 1) with (3 + 1 * 2 ^ 32) by lia. rewrite Z_mod_plus_full, Z.mod_small; lia.
  - assert (N * k + N + N ≤ 2 ^ 32). { assert (k + 1 < 2 * K) by nia. nia. } rewrite Z.mod_small; lia.
Qed.

Lemma page_precedes_ahead p q : page_precedes N p q = (2 ^ 31 + N <=? ahead p q).
Proof.
  unfold page_precedes, TransactionIdPrecedes. destruct (page_xid_normal p) as [N1 _]. destruct (page_xid_normal q) as [N2 N3].
  set (x1 := uint32 (p * N + _)) in *. set (x2 := uint32 (q * N + _)) in *. unfold TransactionIdIsNormal, FirstNormalTransactionId in *.
  destruct (Z.leb_spec 3 x1); [|lia]. destruct (Z.leb_spec 3 x2); [|lia]. destruct (Z.leb_spec 3 (uint32 (x2 + N - 1))); [|lia]. cbn [negb orb].
  assert (E1 : (x1 - x2) mod 2 ^ 32 = ahead p q) by (unfold x1, x2, uint32; rewrite <- Zminus_mod; unfold ahead; f_equal; lia).
  assert (E : (x1 - uint32 (x2 + N - 1)) mod 2 ^ 32 = (ahead p q - (N - 1)) mod 2 ^ 32).
  { unfold uint32 at 1. rewrite Zminus_mod_idemp_r. replace (x1 - (x2 + N - 1)) with ((x1 - x2) - (N - 1)) by lia. rewrite <- Zminus_mod_idemp_l. by rewrite E1. }
  rewrite !int32_negative, E1. clearbody x1 x2.
  rewrite E. destruct (ahead_multiple p q) as [k Hk]. assert (0 ≤ ahead p q < 2 ^ 32) by (apply Z.mod_pos_bound; lia). rewrite Hk in *.
  destruct (Z.leb_spec (2 ^ 31) (N * k)) as [Hge|Hlt]; cbn [andb]; [|lia]. rewrite (Z.mod_small (N * k - (N - 1))) by lia.
  destruct (Z.leb_spec (2 ^ 31) (N * k - (N - 1))), (Z.leb_spec (2 ^ 31 + N) (N * k)); try done; [|lia]. exfalso. assert (K < k < K + 1) by nia. lia.
Qed.

(** A page with an id of the window is not far ahead of the page of its first id. *)
Lemma window_ahead oldest x : 0 ≤ x → 0 ≤ oldest → pos oldest x < 2 ^ 31 → ahead (x / N) (oldest / N) < 2 ^ 31 + N.
Proof.
  intros Hx Ho Hp. unfold pos in Hp. pose proof (Z.div_mod x N). pose proof (Z.div_mod oldest N). pose proof (Z.mod_pos_bound x N). pose proof (Z.mod_pos_bound oldest N).
  pose proof (Z.mod_pos_bound (x - oldest) (2 ^ 32)). pose proof (Z.div_mod (x - oldest) (2 ^ 32)) as Hd. set (F := (x - oldest) mod 2 ^ 32) in *. set (w := (x - oldest) / 2 ^ 32) in *.
  destruct (ahead_multiple (x / N) (oldest / N)) as [k Hk]. unfold ahead in *. pose proof (Z.mod_pos_bound ((x / N - oldest / N) * N) (2 ^ 32)).
  pose proof (Z.div_mod ((x / N - oldest / N) * N) (2 ^ 32)) as He. set (D := ((x / N - oldest / N) * N) mod 2 ^ 32) in *. set (e := (x / N - oldest / N) * N / 2 ^ 32) in *.
  set (g := x / N) in *. set (h := oldest / N) in *. set (i := x mod N) in *. set (j := oldest mod N) in *.
  assert (ED : D = F - i + j + 2 ^ 32 * (w - e)) by lia. destruct (Z.lt_trichotomy (w - e) 0) as [L|[E|L]]; [lia|lia|].
  assert (w - e = 1) by lia. assert (N * k = N * (2 * K) + (F - i + j)) by lia. assert (k = 2 * K - 0 ∨ k < 2 * K ∨ 2 * K < k) as [|[|]] by lia; nia.
Qed.

(** A segment with such a page is not removed. *)
Lemma window_kept oldest x : 0 ≤ x → 0 ≤ oldest → pos oldest x < 2 ^ 31 → SlruMayDeleteSegment (page_precedes N) (segment_of (x / N)) (oldest / N) = false.
Proof.
  intros Hx Ho Hp. pose proof (window_ahead oldest x Hx Ho Hp) as Hw. unfold SlruMayDeleteSegment, segment_of, SLRU_PAGES_PER_SEGMENT. rewrite !page_precedes_ahead.
  set (p := x / N) in *. set (q := oldest / N) in *. pose proof (Z.div_mod p 32). pose proof (Z.mod_pos_bound p 32). set (g := p / 32 * 32). set (r := p mod 32) in *.
  assert (Ep : ahead p q = (ahead g q + r * N) mod 2 ^ 32) by (unfold ahead; rewrite Zplus_mod_idemp_l; f_equal; unfold g; lia).
  assert (El : ahead (g + 32 - 1) q = (ahead g q + 31 * N) mod 2 ^ 32) by (unfold ahead; rewrite Zplus_mod_idemp_l; f_equal; lia).
  rewrite El. assert (0 ≤ ahead g q < 2 ^ 32) by (apply Z.mod_pos_bound; lia). set (D := ahead g q) in *. assert (0 ≤ r * N ≤ 31 * N) by nia.
  destruct (Z.leb_spec (2 ^ 31 + N) D); [|done]. cbn [andb]. destruct (Z.lt_ge_cases (D + 31 * N) (2 ^ 32)) as [L|L].
  - rewrite Z.mod_small in Ep by lia. lia.
  - replace (D + 31 * N) with ((D + 31 * N - 2 ^ 32) + 1 * 2 ^ 32) by lia. rewrite Z_mod_plus_full, Z.mod_small by lia. destruct (Z.leb_spec (2 ^ 31 + N) (D + 31 * N - 2 ^ 32)); [lia|done].
Qed.
End pages.

(** * The log over a window of ids *)

(** Every id from [oldest] on that was assigned is in the log, and the positions after the last
    one on its page are unused. *)
Record log_ok (oldest next : Z) s : Prop := {
  lo_pages : clog_ok (clog s);
  lo_there : ∀ x, in_window oldest x → pos oldest x < pos oldest next → present (clog s) x;
  lo_rest : TransactionIdToPgIndex next ≠ 0 → next ≠ FirstNormalTransactionId →
    present (clog s) next ∧ ∀ x, TransactionIdToPage x = TransactionIdToPage next → next ≤ x → xstatus (clog s) x = TRANSACTION_STATUS_IN_PROGRESS;
}.

Lemma xstatus_page c c' x : page_buffer c' !! TransactionIdToPage x = page_buffer c !! TransactionIdToPage x → xstatus c' x = xstatus c x.
Proof. unfold xstatus. by intros ->. Qed.

(** The page of the first id on it holds no id that was assigned before. *)
Lemma fresh_div N oldest next x : 0 < N ≤ 2 ^ 20 → in_window oldest x → in_window oldest next → pos oldest x < pos oldest next →
  next mod N = 0 ∨ next = FirstNormalTransactionId → x / N ≠ next / N.
Proof.
  intros HN [[Hx _] Wx] [[Hn _] Wn] Hlt Hf E. unfold FirstNormalTransactionId in *. pose proof (Z.div_mod x N). pose proof (Z.div_mod next N). pose proof (Z.mod_pos_bound x N). pose proof (Z.mod_pos_bound next N).
  unfold pos in *. pose proof (Z.div_mod (x - oldest) (2 ^ 32)). pose proof (Z.div_mod (next - oldest) (2 ^ 32)).
  pose proof (Z.mod_pos_bound (x - oldest) (2 ^ 32)). pose proof (Z.mod_pos_bound (next - oldest) (2 ^ 32)). rewrite E in *.
  assert (0 ≤ x - next < N) by lia. assert (x - next = (x - oldest) mod 2 ^ 32 - (next - oldest) mod 2 ^ 32 + 2 ^ 32 * ((x - oldest) / 2 ^ 32 - (next - oldest) / 2 ^ 32)) by lia. lia.
Qed.

Lemma fresh_page oldest next x : in_window oldest x → in_window oldest next → pos oldest x < pos oldest next →
  TransactionIdToPgIndex next = 0 ∨ next = FirstNormalTransactionId → TransactionIdToPage x ≠ TransactionIdToPage next.
Proof. by apply fresh_div. Qed.

Lemma zero_page pageno s : clog_ok (clog s) → clog_ok (clog (ZeroCLOGPage pageno s)) ∧
  ∀ x, (TransactionIdToPage x = pageno → 0 ≤ x → present (clog (ZeroCLOGPage pageno s)) x) ∧
    (TransactionIdToPage x = pageno → xstatus (clog (ZeroCLOGPage pageno s)) x = TRANSACTION_STATUS_IN_PROGRESS) ∧
    (TransactionIdToPage x ≠ pageno → page_buffer (clog (ZeroCLOGPage pageno s)) !! TransactionIdToPage x = page_buffer (clog s) !! TransactionIdToPage x ∧
      xlsn (clog (ZeroCLOGPage pageno s)) x = xlsn (clog s) x).
Proof.
  intros Hc. unfold ZeroCLOGPage. cbn [clog page_buffer group_lsn]. split.
  { intros n p. cbn [page_buffer]. rewrite lookup_insert_Some. intros [[_ <-]|[_ Hp]]; [by rewrite length_replicate|by apply (Hc n)]. }
  intros x. split_and!.
  - intros <- Hx. split; [done|]. cbn [page_buffer]. rewrite lookup_insert_eq. by eexists.
  - intros <-. unfold xstatus. cbn [page_buffer]. rewrite lookup_insert_eq. destruct (replicate _ _ !! _) as [b|] eqn:Eb; [|done].
    apply lookup_replicate in Eb as [-> _]. unfold field. by rewrite Z.shiftr_0_l.
  - intros Hne. split; [by rewrite lookup_insert_ne|]. unfold xlsn, lsn_at, GetLSNIndex. cbn [group_lsn]. f_equal. apply option_eq. intros v. rewrite map_lookup_filter_Some. split; [by intros [? _]|by intros ?].
Qed.

Lemma window_advance oldest next : in_window oldest next → ∀ x, in_window oldest x → pos oldest x < pos oldest (TransactionIdAdvance next) → pos oldest x < pos oldest next ∨ x = next.
Proof.
  intros Hn x Hx Hlt. destruct (advance_pos oldest next Hn) as (_ & _ & A). destruct (Z.lt_trichotomy (pos oldest x) (pos oldest next)) as [|[E|L]]; [by left| |].
  - right. by apply (pos_inj oldest); [apply Hx|apply Hn|].
  - specialize (A x (proj1 Hx) L). lia.
Qed.

Lemma advance_page next : is_xid next → TransactionIdToPgIndex (TransactionIdAdvance next) ≠ 0 → TransactionIdAdvance next ≠ FirstNormalTransactionId →
  TransactionIdAdvance next = next + 1 ∧ TransactionIdToPage (next + 1) = TransactionIdToPage next.
Proof.
  unfold is_xid, TransactionIdAdvance, uint32, FirstNormalTransactionId, MaxTransactionId. intros Hn. destruct (Z.eq_dec next 0xFFFFFFFF) as [->|]; [by intros _ []|].
  rewrite (Z.mod_small (next + 1)) by lia. destruct (Z.ltb_spec (next + 1) 3); [lia|]. intros Hi _. split; [done|]. unfold TransactionIdToPage, TransactionIdToPgIndex in *. change CLOG_XACTS_PER_PAGE with 32768 in *.
  pose proof (Z.div_mod next 32768). pose proof (Z.mod_pos_bound next 32768). pose proof (Z.div_mod (next + 1) 32768). pose proof (Z.mod_pos_bound (next + 1) 32768). lia.
Qed.

(** The log is ready for an id when it is assigned.  If the log holds every id of the window
    that was assigned, then [ExtendCLOG] for the next one gives it an entry that says in
    progress, also at the first id of a page and after a wraparound, changes neither the status
    nor the log position of an id that was assigned, and leaves a log that holds them all. *)
Theorem extend_ready oldest next s : in_window oldest next → log_ok oldest next s →
  log_ok oldest (TransactionIdAdvance next) (ExtendCLOG next s) ∧ present (clog (ExtendCLOG next s)) next ∧
  xstatus (clog (ExtendCLOG next s)) next = TRANSACTION_STATUS_IN_PROGRESS ∧
  ∀ x, in_window oldest x → pos oldest x < pos oldest next →
    xstatus (clog (ExtendCLOG next s)) x = xstatus (clog s) x ∧ xlsn (clog (ExtendCLOG next s)) x = xlsn (clog s) x.
Proof.
  intros Hn [L1 L2 L3]. assert (H0 : 0 ≤ next) by (destruct Hn as [[? _] _]; unfold FirstNormalTransactionId in *; lia). set (s' := ExtendCLOG next s).
  assert (Hs : clog_ok (clog s') ∧ present (clog s') next ∧ (∀ x, TransactionIdToPage x = TransactionIdToPage next → next ≤ x → xstatus (clog s') x = TRANSACTION_STATUS_IN_PROGRESS) ∧
    ∀ x, in_window oldest x → pos oldest x < pos oldest next → present (clog s') x ∧ xstatus (clog s') x = xstatus (clog s) x ∧ xlsn (clog s') x = xlsn (clog s) x).
  { unfold s', ExtendCLOG. destruct (Z.eqb_spec (TransactionIdToPgIndex next) 0) as [E|E]; cbn [negb andb]; [|destruct (Z.eqb_spec next FirstNormalTransactionId) as [E'|E']; cbn [negb]].
    3: { destruct (L3 E E') as [L4 L5]. split_and!; [done|done|done|]. intros x Hx Hlt. split; [by apply L2|done]. }
    all: destruct (zero_page (TransactionIdToPage next) s L1) as [Z1 Z2]; split_and!; [done|by apply Z2|intros x Hp _; by apply Z2|]; intros x Hx Hlt;
      destruct (Z2 x) as (_ & _ & Z3); (destruct Z3 as [Z3 Z4]; [apply (fresh_page oldest); auto|]); (split_and!; [|by apply xstatus_page|done]);
      destruct (L2 x Hx Hlt) as [P1 P2]; (split; [done|]); by rewrite Z3. }
  destruct Hs as (S1 & S2 & S3 & S4). split_and!; [|done|by apply S3|intros x Hx Hlt; by apply S4]. constructor; [done| |].
  - intros x Hx Hlt. destruct (window_advance oldest next Hn x Hx Hlt) as [| ->]; [by apply S4|done].
  - intros Hi Hf. destruct (advance_page next (proj1 Hn) Hi Hf) as [-> Ep]. split; [|intros x Hx Hle; apply S3; [congruence|lia]].
    destruct S2 as [_ S2]. split; [lia|]. by rewrite Ep.
Qed.

(** ** Truncation *)

Lemma truncated_pages oldest s : 
  (∀ n p, page_buffer (clog (TruncateCLOG oldest s)) !! n = Some p → page_buffer (clog s) !! n = Some p) ∧
  (∀ x, 0 ≤ oldest → 0 ≤ x → pos oldest x < 2 ^ 31 → page_buffer (clog (TruncateCLOG oldest s)) !! TransactionIdToPage x = page_buffer (clog s) !! TransactionIdToPage x) ∧
  group_lsn (clog (TruncateCLOG oldest s)) = group_lsn (clog s).
Proof.
  unfold TruncateCLOG. destruct (negb _); [done|]. assert (Es : clog (AdvanceOldestClogXid oldest s) = clog s) by (unfold AdvanceOldestClogXid; by destruct (TransactionIdPrecedes _ _)).
  cbn [clog page_buffer group_lsn]. rewrite Es. unfold SimpleLruTruncate. destruct (CLOGPagePrecedes _ _); [done|]. split_and!; [| |done].
  - intros n p. rewrite map_lookup_filter_Some. by intros [? _].
  - intros x Ho Hx Hp. apply option_eq. intros v. rewrite map_lookup_filter_Some. split; [by intros [? _]|]. intros Hv. split; [done|]. cbn [fst].
    by apply (window_kept CLOG_XACTS_PER_PAGE 65536).
Qed.

(** Positions from a later start. *)
Lemma pos_later base base' x : pos base base' ≤ pos base x → pos base' x = pos base x - pos base base'.
Proof.
  unfold pos. intros H. pose proof (Z.mod_pos_bound (x - base) (2 ^ 32)). pose proof (Z.mod_pos_bound (base' - base) (2 ^ 32)).
  replace (x - base') with ((x - base) - (base' - base)) by lia. rewrite Zminus_mod. apply Z.mod_small. lia.
Qed.

Lemma pos_shift base base' x : pos base base' < 2 ^ 31 → pos base' x < 2 ^ 31 → pos base x = pos base base' + pos base' x.
Proof.
  unfold pos. intros H1 H2. pose proof (Z.mod_pos_bound (x - base') (2 ^ 32)). pose proof (Z.mod_pos_bound (base' - base) (2 ^ 32)).
  replace (x - base) with ((base' - base) + (x - base')) by lia. rewrite Z.add_mod by lia. apply Z.mod_small. lia.
Qed.

(** Truncation removes nothing that can still be asked for.  [TruncateCLOG] at the oldest id
    in use keeps the status and the log position of every id up to 2^31 after it, although
    segments are compared by the first ids of their pages and modulo 2^32, and leaves a log that
    holds every assigned id from there on. *)
Theorem truncate_safe oldest oldest' next s : in_window oldest oldest' → in_window oldest next → pos oldest oldest' ≤ pos oldest next → log_ok oldest next s →
  log_ok oldest' next (TruncateCLOG oldest' s) ∧
  ∀ x, in_window oldest' x → page_buffer (clog (TruncateCLOG oldest' s)) !! TransactionIdToPage x = page_buffer (clog s) !! TransactionIdToPage x ∧
    xstatus (clog (TruncateCLOG oldest' s)) x = xstatus (clog s) x ∧ xlsn (clog (TruncateCLOG oldest' s)) x = xlsn (clog s) x.
Proof.
  intros [[Ho _] Po] [Hn Pn] Hle [L1 L2 L3]. unfold FirstNormalTransactionId in Ho. destruct (truncated_pages oldest' s) as (T1 & T2 & T3).
  pose proof (pos_later oldest oldest' next Hle) as En. assert (Hkeep : ∀ x, in_window oldest' x →
    page_buffer (clog (TruncateCLOG oldest' s)) !! TransactionIdToPage x = page_buffer (clog s) !! TransactionIdToPage x).
  { intros x [[Hx _] Px]. unfold FirstNormalTransactionId in Hx. apply T2; lia. }
  assert (Wn : in_window oldest' next) by (split; [done|pose proof (pos_range oldest oldest'); lia]). split; [constructor|].
  - intros n p Hp. by apply (L1 n), T1.
  - intros x Hx Hlt. pose proof (pos_shift oldest oldest' x Po (proj2 Hx)) as Es. destruct (L2 x) as [P1 P2]; [split; [apply Hx|lia]|lia|].
    split; [done|]. by rewrite Hkeep.
  - intros Hi Hf. destruct (L3 Hi Hf) as [[P1 P2] L4]. split; [split; [done|by rewrite Hkeep]|].
    intros x Hp Hx. rewrite <- (L4 x Hp Hx). apply xstatus_page. rewrite Hp. by apply Hkeep.
  - intros x Hx. split_and!; [by apply Hkeep|by apply xstatus_page, Hkeep|]. unfold xlsn, lsn_at. by rewrite T3.
Qed.

(** ** After a restart *)

Lemma field_trim b i j : 0 ≤ i → 0 ≤ j → field (Z.land b (Z.shiftl 1 (i * CLOG_BITS_PER_XACT) - 1)) j = if j <? i then field b j else 0.
Proof.
  intros Hi Hj. change CLOG_BITS_PER_XACT with 2. rewrite Z.shiftl_1_l, Z.sub_1_r, <- Z.ones_equiv. unfold field. change CLOG_BITS_PER_XACT with 2.
  apply Z.bits_inj'. intros n Hn. rewrite Z.land_spec, Z.shiftr_spec, Z.land_spec, Z.testbit_ones, testbit_mask by lia. destruct (Z.ltb_spec j i).
  - rewrite Z.land_spec, Z.shiftr_spec, testbit_mask by lia. destruct (Z.ltb_spec n 2); [|by rewrite !andb_false_r].
    destruct (Z.leb_spec 0 (n + j * 2)); [|lia]. destruct (Z.ltb_spec (n + j * 2) (i * 2)); [|lia]. by rewrite !andb_true_r.
  - rewrite Z.bits_0. destruct (Z.ltb_spec (n + j * 2) (i * 2)); [lia|]. by rewrite !andb_false_r.
Qed.

(** The position of an id on its page, byte by byte. *)
Lemma page_order x y : 0 ≤ x → 0 ≤ y → TransactionIdToPage x = TransactionIdToPage y →
  x < y ↔ TransactionIdToByte x < TransactionIdToByte y ∨ (TransactionIdToByte x = TransactionIdToByte y ∧ TransactionIdToBIndex x < TransactionIdToBIndex y).
Proof.
  unfold TransactionIdToPage, TransactionIdToByte, TransactionIdToPgIndex, TransactionIdToBIndex. change CLOG_XACTS_PER_PAGE with 32768. change CLOG_XACTS_PER_BYTE with 4. intros Hx Hy E.
  assert (H : ∀ z, z = 32768 * (z / 32768) + (4 * ((z mod 32768) / 4) + z mod 4) ∧ 0 ≤ z mod 4 < 4); [|destruct (H x), (H y); lia].
  intros z. pose proof (Z.mod_pos_bound z 4). split; [|lia]. rewrite (Z.div_mod z 32768) at 1 by lia. f_equal. rewrite (Z.div_mod (z mod 32768) 4) at 1 by lia. f_equal.
  rewrite (Z.div_mod z 32768) at 2 by lia. replace (32768 * (z / 32768) + z mod 32768) with (z mod 32768 + (8192 * (z / 32768)) * 4) by lia. by rewrite Z_mod_plus_full.
Qed.

(** The ids before the next one keep their status, and the rest of its page is unused. *)
Lemma trim_spec xid s : 0 ≤ xid → clog_ok (clog s) → (TransactionIdToPgIndex xid ≠ 0 → present (clog s) xid) → ∃ s', TrimCLOG xid s = Ok s' ∧ clog_ok (clog s') ∧
  (∀ x, present (clog s) x → present (clog s') x) ∧
  (∀ x, 0 ≤ x → TransactionIdToPage x ≠ TransactionIdToPage xid ∨ x < xid → xstatus (clog s') x = xstatus (clog s) x) ∧
  (TransactionIdToPgIndex xid ≠ 0 → ∀ x, TransactionIdToPage x = TransactionIdToPage xid → xid ≤ x → xstatus (clog s') x = TRANSACTION_STATUS_IN_PROGRESS).
Proof.
  intros H0 Hc Hp. unfold TrimCLOG. destruct (Z.eqb_spec (TransactionIdToPgIndex xid) 0) as [E|E]; cbn [negb]; [by exists s|].
  destruct (byte_there (clog s) xid Hc (Hp E)) as (p & b & Ep & Eb). unfold SimpleLruReadPage. rewrite Ep. rsimpl. rewrite Eb. rsimpl. eexists. split; [done|].
  cbn [clog]. pose proof (Hc _ _ Ep) as Hlen. pose proof (byte_range xid) as Hr. set (k := TransactionIdToByte xid) in *. set (b' := Z.land b _). set (p' := take _ p ++ _).
  assert (Hlen' : length p' = Z.to_nat BLCKSZ). { unfold p'. rewrite !length_app, length_take, length_replicate. cbn [length]. lia. }
  assert (Hat : ∀ m, 0 ≤ m < BLCKSZ → p' !! Z.to_nat m = if m <? k then p !! Z.to_nat m else Some (if m =? k then b' else 0)).
  { intros m Hm. unfold p'. destruct (Z.ltb_spec m k); [rewrite lookup_app_l by (rewrite length_take; lia); apply lookup_take_lt; lia|].
    rewrite lookup_app_r by (rewrite length_take; lia). rewrite length_take. destruct (Z.eqb_spec m k) as [->|]; [replace (_ - _)%nat with 0%nat by lia; done|].
    rewrite lookup_app_r by (cbn [length]; lia). cbn [length]. apply lookup_replicate. split; [done|lia]. }
  assert (Hst : ∀ x, TransactionIdToPage x = TransactionIdToPage xid → xstatus (mkXactCtl (<[TransactionIdToPage xid := p']> (page_buffer (clog s))) (group_lsn (clog s))) x =
    match p' !! Z.to_nat (TransactionIdToByte x) with Some b => field b (TransactionIdToBIndex x) | None => 0 end) by (intros x Ex; unfold xstatus; cbn [page_buffer]; rewrite Ex; by rewrite lookup_insert_eq).
  split_and!.
  - intros n q. cbn [page_buffer]. rewrite lookup_insert_Some. intros [[_ <-]|[_ Hq]]; [done|by apply (Hc n)].
  - intros x [Hx1 Hx2]. split; [done|]. cbn [page_buffer]. destruct (decide (TransactionIdToPage x = TransactionIdToPage xid)) as [->|]; [rewrite lookup_insert_eq; by eexists|by rewrite lookup_insert_ne].
  - intros x Hx Hor. destruct (decide (TransactionIdToPage x = TransactionIdToPage xid)) as [Eq|]; [|apply xstatus_page; cbn [page_buffer]; by rewrite lookup_insert_ne].
    destruct Hor as [|Hlt]; [done|]. rewrite Hst by done. rewrite (Hat _ (byte_range x)). apply page_order in Hlt; [|done|done|done]. fold k in Hlt. unfold xstatus. rewrite Eq, Ep.
    destruct (Z.ltb_spec (TransactionIdToByte x) k); [done|]. destruct Hlt as [|[Ek Hlt]]; [lia|]. rewrite Ek, Z.eqb_refl, Eb. unfold b'.
    rewrite field_trim by apply bindex_range. by destruct (Z.ltb_spec (TransactionIdToBIndex x) (TransactionIdToBIndex xid)); [|lia].
  - intros _ x Eq Hle. rewrite Hst by done. rewrite (Hat _ (byte_range x)). pose proof (page_order x xid ltac:(lia) H0 Eq) as Ho. fold k in Ho. pose proof (field_trim b (TransactionIdToBIndex xid) (TransactionIdToBIndex x)) as Ht.
    destruct (Z.ltb_spec (TransactionIdToByte x) k); [lia|]. destruct (Z.eqb_spec (TransactionIdToByte x) k) as [Ek|]; [|unfold field; by rewrite Z.shiftr_0_l].
    unfold b'. rewrite Ht by apply bindex_range. by destruct (Z.ltb_spec (TransactionIdToBIndex x) (TransactionIdToBIndex xid)); [lia|].
Qed.

(** * Parents *)

Lemma parent_page t t' x : subtrans_pages t' !! SubTransToPage x = subtrans_pages t !! SubTransToPage x →
  SubTransGetParent (subtrans_pages t') x = SubTransGetParent (subtrans_pages t) x.
Proof. unfold SubTransGetParent, SimpleLruReadPage. by intros ->. Qed.

(** A new page has no parents, and those of the ids assigned before are unchanged. *)
Lemma extend_subtrans oldest next t : in_window oldest next →
  (∀ x, in_window oldest x → pos oldest x < pos oldest next → SubTransGetParent (subtrans_pages (ExtendSUBTRANS next t)) x = SubTransGetParent (subtrans_pages t) x) ∧
  (TransactionIdToEntry next = 0 ∨ next = FirstNormalTransactionId →
    has_entry (subtrans_pages (ExtendSUBTRANS next t)) next ∧ SubTransGetParent (subtrans_pages (ExtendSUBTRANS next t)) next = Ok InvalidTransactionId).
Proof.
  intros Hn. unfold ExtendSUBTRANS. destruct (Z.eqb_spec (TransactionIdToEntry next) 0) as [E|E]; cbn [negb andb]; [|destruct (Z.eqb_spec next FirstNormalTransactionId) as [E'|E']; cbn [negb]].
  3: { split; [done|]. by intros [|]. }
  all: split; [intros x Hx Hlt; apply parent_page; unfold ZeroSUBTRANSPage; cbn [subtrans_pages]; rewrite lookup_insert_ne; [done|]; intros Eq; symmetry in Eq; revert Eq; apply (fresh_div SUBTRANS_XACTS_PER_PAGE oldest); [done|done|done|done|auto]|intros _].
  all: unfold ZeroSUBTRANSPage; cbn [subtrans_pages]; split; [eexists; rewrite lookup_insert_eq; split; [done|by rewrite length_replicate]|].
  all: unfold SubTransGetParent, SimpleLruReadPage; rewrite (window_normal oldest) by done; cbn [negb]; rewrite lookup_insert_eq; rsimpl.
  all: pose proof (entry_range next) as Hr; rewrite lookup_replicate_2 by lia; done.
Qed.

(** Truncation before the oldest id in use keeps the parents from there on. *)
Lemma truncate_subtrans oldest t x : is_xid oldest → in_window (TransactionIdRetreat oldest) x →
  SubTransGetParent (subtrans_pages (TruncateSUBTRANS oldest t)) x = SubTransGetParent (subtrans_pages t) x.
Proof.
  intros Ho [[Hx _] Hp]. apply parent_page. unfold TruncateSUBTRANS, SimpleLruTruncate. cbn [subtrans_pages]. destruct (SubTransPagePrecedes _ _); [done|].
  assert (0 ≤ TransactionIdRetreat oldest).
  { unfold TransactionIdRetreat, uint32, MaxTransactionId. pose proof (Z.mod_pos_bound (oldest - 1) (2 ^ 32)). destruct (_ <? _); lia. }
  apply option_eq. intros v. rewrite map_lookup_filter_Some. split; [by intros [? _]|]. intros Hv. split; [done|]. cbn [fst]. unfold FirstNormalTransactionId in Hx.
  apply (window_kept SUBTRANS_XACTS_PER_PAGE 1048576); try done. lia.
Qed.

(** The pages from the oldest prepared transaction to the next id, across the wraparound. *)
Lemma startup_pages d fuel first last t : let M := SubTransToPage MaxTransactionId + 1 in 0 ≤ first < M → 0 ≤ last < M → d = (last - first) mod M → d < Z.of_nat fuel →
  ∃ t', startup_loop fuel first last t = Ok t' ∧
    ∀ n, 0 ≤ n < M → subtrans_pages t' !! n =
      if (n - first) mod M <=? d then Some (replicate (Z.to_nat SUBTRANS_XACTS_PER_PAGE) 0) else subtrans_pages t !! n.
Proof.
  change (SubTransToPage MaxTransactionId + 1) with 2097152. change (SubTransToPage MaxTransactionId) with 2097151. intros M. revert d first t.
  induction fuel as [|fuel IH]; intros d first t Hf Hl Hd Hfuel; [pose proof (Z.mod_pos_bound (last - first) M); lia|]. cbn [startup_loop].
  change (SubTransToPage MaxTransactionId) with 2097151. destruct (Z.eqb_spec first last) as [<-|Hne].
  - eexists. split; [done|]. intros n Hn. rewrite Z.sub_diag, Z.mod_0_l in Hd by done. subst d. unfold ZeroSUBTRANSPage. cbn [subtrans_pages].
    destruct (decide (n = first)) as [->|Hn']; [rewrite lookup_insert_eq, Z.sub_diag; done|]. rewrite lookup_insert_ne by done.
    destruct (Z.leb_spec ((n - first) mod M) 0); [|done]. exfalso. pose proof (Z.div_mod (n - first) M). pose proof (Z.mod_pos_bound (n - first) M). lia.
  - set (next := if 2097151 <? first + 1 then 0 else first + 1).
    assert (Hnext : 0 ≤ next < M ∧ ∀ n, 0 ≤ n < M → n ≠ first → (n - next) mod M = (n - first) mod M - 1).
    { unfold next. split; [destruct (Z.ltb_spec 2097151 (first + 1)); lia|]. intros n Hn Hn'. pose proof (Z.div_mod (n - first) M). pose proof (Z.mod_pos_bound (n - first) M).
      assert ((n - first) mod M ≠ 0) by lia. destruct (Z.ltb_spec 2097151 (first + 1)).
      - replace (n - 0) with ((n - first) mod M - 1 + ((n - first) / M + 1) * M) by lia. rewrite Z_mod_plus_full. apply Z.mod_small. lia.
      - replace (n - (first + 1)) with ((n - first) mod M - 1 + ((n - first) / M) * M) by lia. rewrite Z_mod_plus_full. apply Z.mod_small. lia. }
    destruct Hnext as [Hr Hm]. assert (Ed : (last - next) mod M = d - 1) by (rewrite Hd; by apply Hm).
    destruct (IH (d - 1) next (ZeroSUBTRANSPage first t)) as (t' & E & H'); [done|done|done|lia|]. exists t'. split; [done|]. intros n Hn. rewrite H' by done.
    unfold ZeroSUBTRANSPage. cbn [subtrans_pages]. pose proof (Z.mod_pos_bound (last - next) M). destruct (decide (n = first)) as [->|Hn'].
    + rewrite lookup_insert_eq, Z.sub_diag, Z.mod_0_l by done. destruct (_ <=? _); by destruct (Z.leb_spec 0 d); [|lia].
    + rewrite lookup_insert_ne by done. rewrite Hm by done. destruct (Z.leb_spec ((n - first) mod M - 1) (d - 1)), (Z.leb_spec ((n - first) mod M) d); try done; lia.
Qed.

(** * Witnesses *)

(** The last page before the wraparound, and the first id after it. *)
Definition zeros : list Z := replicate (Z.to_nat BLCKSZ) 0.
Definition before_wrap : ClogState := mkClog (mkXactCtl {[131071 := zeros]} ∅) 131071 3.

Lemma single_page n : clog_ok (mkXactCtl {[n := zeros]} ∅).
Proof. intros k p. cbn [page_buffer]. rewrite lookup_singleton_Some. intros [_ <-]. apply length_replicate. Qed.

Lemma before_wrap_ok : log_ok 0xFFFFFFF0 3 before_wrap.
Proof.
  constructor; [apply single_page| |done]. intros x [[Hx Hm] Hp] Hlt. unfold FirstNormalTransactionId, MaxTransactionId in *. split; [lia|].
  replace (TransactionIdToPage x) with 131071; [by eexists|]. unfold pos in Hlt. change ((3 - 0xFFFFFFF0) mod 2 ^ 32) with 19 in Hlt.
  pose proof (Z.div_mod (x - 0xFFFFFFF0) (2 ^ 32)). pose proof (Z.mod_pos_bound (x - 0xFFFFFFF0) (2 ^ 32)). unfold TransactionIdToPage. change CLOG_XACTS_PER_PAGE with 32768. assert (0xFFFFFFF0 ≤ x) by lia.
  apply (Z.div_unique x 32768 131071 (x - 131071 * 32768)); lia.
Qed.

Lemma extend_ready_witness : log_ok 0xFFFFFFF0 4 (ExtendCLOG 3 before_wrap) ∧ present (clog (ExtendCLOG 3 before_wrap)) 3 ∧
  xstatus (clog (ExtendCLOG 3 before_wrap)) 3 = TRANSACTION_STATUS_IN_PROGRESS ∧
  ∀ x, in_window 0xFFFFFFF0 x → pos 0xFFFFFFF0 x < pos 0xFFFFFFF0 3 →
    xstatus (clog (ExtendCLOG 3 before_wrap)) x = xstatus (clog before_wrap) x ∧ xlsn (clog (ExtendCLOG 3 before_wrap)) x = xlsn (clog before_wrap) x.
Proof. apply (extend_ready 0xFFFFFFF0 3 before_wrap); [split; [split; vm_compute; discriminate|reflexivity]|apply before_wrap_ok]. Defined.

(** A page of the first segment, and one of the second with the ids in use. *)
Definition two_segments : ClogState := mkClog (mkXactCtl {[0 := zeros; 40 := zeros]} ∅) 40 3.

Lemma two_segments_ok : log_ok 1310725 1310730 two_segments.
Proof.
  constructor.
  - intros k p. cbn [clog two_segments page_buffer]. rewrite lookup_insert_Some, lookup_singleton_Some. intros [[_ <-]|[_ [_ <-]]]; apply length_replicate.
  - intros x [[Hx Hm] Hp] Hlt. unfold FirstNormalTransactionId, MaxTransactionId in *. split; [lia|]. replace (TransactionIdToPage x) with 40; [by eexists|].
    unfold pos in Hlt. change ((1310730 - 1310725) mod 2 ^ 32) with 5 in Hlt. pose proof (Z.div_mod (x - 1310725) (2 ^ 32)). pose proof (Z.mod_pos_bound (x - 1310725) (2 ^ 32)).
    unfold TransactionIdToPage. change CLOG_XACTS_PER_PAGE with 32768. assert (1310725 ≤ x < 1310730) by lia.
    apply (Z.div_unique x 32768 40 (x - 40 * 32768)); lia.
  - intros _ _. split; [split; [done|by eexists]|]. intros x Ex _. unfold xstatus. rewrite Ex. change (TransactionIdToPage 1310730) with 40. cbn [clog two_segments page_buffer].
    change ({[0 := zeros; 40 := zeros]} !! 40) with (Some zeros). unfold zeros. destruct (replicate _ _ !! _) as [b|] eqn:Eb; [|done]. apply lookup_replicate in Eb as [-> _]. unfold field. by rewrite Z.shiftr_0_l.
Qed.

Lemma truncate_safe_witness : page_buffer (clog (TruncateCLOG 1310725 two_segments)) !! 0 = None ∧
  log_ok 1310725 1310730 (TruncateCLOG 1310725 two_segments) ∧
  ∀ x, in_window 1310725 x → page_buffer (clog (TruncateCLOG 1310725 two_segments)) !! TransactionIdToPage x = page_buffer (clog two_segments) !! TransactionIdToPage x ∧
    xstatus (clog (TruncateCLOG 1310725 two_segments)) x = xstatus (clog two_segments) x ∧ xlsn (clog (TruncateCLOG 1310725 two_segments)) x = xlsn (clog two_segments) x.
Proof.
  split; [vm_compute; reflexivity|]. apply (truncate_safe 1310725 1310725 1310730 two_segments);
    [split; [split; vm_compute; discriminate|reflexivity]|split; [split; vm_compute; discriminate|reflexivity]|vm_compute; discriminate|apply two_segments_ok].
Defined.
