(* ===== verification/HotChain.v ===== *)
(** heapam.c: the search of a HOT chain on a heap page for the version a snapshot sees, from
    the item pointer an index holds (heap_hot_search_buffer), on
    which index scans and pruning rely.  A heap page is a page of Bufpage.v whose items are tuple
    headers with their data. *)

From S2P Require Import Prelude Xid Bufpage Itup Compact PageOps HeapPage.

(** * Tuple headers *)

Definition HEAP_XMAX_LOCK_ONLY : Z := 0x0080.
Definition HEAP_XMIN_COMMITTED : Z := 0x0100.
Definition HEAP_XMIN_INVALID : Z := 0x0200.
Definition HEAP_XMIN_FROZEN : Z := Z.lor HEAP_XMIN_COMMITTED HEAP_XMIN_INVALID.
Definition HEAP_XMAX_INVALID : Z := 0x0800.
Definition HEAP_XMAX_IS_MULTI : Z := 0x1000.
Definition HEAP_HOT_UPDATED : Z := 0x4000.
Definition HEAP_ONLY_TUPLE : Z := 0x8000.

Definition ItemIdIsNormal (a : ItemIdData) : bool := lp_flags a =? LP_NORMAL.
Definition ItemIdIsRedirected (a : ItemIdData) : bool := lp_flags a =? LP_REDIRECT.
Definition ItemIdGetRedirect (a : ItemIdData) : Z := lp_off a.
Definition ItemPointerGetOffsetNumber (t : ItemPointerData) : Z := ip_posid t.
Definition ItemPointerSetOffsetNumber (t : ItemPointerData) (offsetNumber : Z) : ItemPointerData :=
  mkTid (ip_blkid t) offsetNumber.

Section hot.
Context {A Sp : Type}.

(** The fields the search uses, and the attribute values. *)
Record HeapTupleHeaderData : Type := mkHeapTuple {
  t_xmin : Z;
  t_xmax : Z;
  t_xvac : Z;
  t_ctid : ItemPointerData;
  t_infomask2 : Z;
  t_infomask : Z;
  t_values : A;
}.
Implicit Types (t : HeapTupleHeaderData) (p : Page HeapTupleHeaderData Sp).

Definition HeapTupleHeaderXminInvalid t : bool :=
  Z.land (t_infomask t) (Z.lor HEAP_XMIN_COMMITTED HEAP_XMIN_INVALID) =? HEAP_XMIN_INVALID.
Definition HeapTupleHeaderXminFrozen t : bool := Z.land (t_infomask t) HEAP_XMIN_FROZEN =? HEAP_XMIN_FROZEN.
Definition HeapTupleHeaderGetXmin t : Z := if HeapTupleHeaderXminFrozen t then FrozenTransactionId else t_xmin t.
Definition HeapTupleIsHotUpdated t : bool :=
  has_flag (t_infomask2 t) HEAP_HOT_UPDATED && negb (has_flag (t_infomask t) HEAP_XMAX_INVALID) &&
  negb (HeapTupleHeaderXminInvalid t).
Definition HeapTupleIsHeapOnly t : bool := has_flag (t_infomask2 t) HEAP_ONLY_TUPLE.

(** The updater of a MultiXactId, the snapshot's test of a tuple at an item pointer, and
    whether a tuple is dead to every transaction. *)
Context (HeapTupleGetUpdateXid : HeapTupleHeaderData → Z).
Context (HeapTupleSatisfiesVisibility : ItemPointerData → HeapTupleHeaderData → bool).
Context (HeapTupleIsSurelyDead : HeapTupleHeaderData → bool).

Definition HeapTupleHeaderGetUpdateXid t : Z :=
  if negb (has_flag (t_infomask t) HEAP_XMAX_INVALID) && has_flag (t_infomask t) HEAP_XMAX_IS_MULTI &&
     negb (has_flag (t_infomask t) HEAP_XMAX_LOCK_ONLY)
  then HeapTupleGetUpdateXid t else t_xmax t.

(** The loop; the tuple found with its offset, and [*all_dead]. *)
Fixpoint hot_loop (fuel : nat) p (blkno offnum prev_xmax : Z) (at_chain_start skip all_dead : bool)
  : result (option (Z * HeapTupleHeaderData) * bool) :=
  match fuel with
  | O => Err OutOfFuel
  | S fuel =>
      if (offnum <? FirstOffsetNumber) || (PageGetMaxOffsetNumber p <? offnum) then Ok (None, all_dead)
      else
        lp ← PageGetItemId p offnum;
        if negb (ItemIdIsNormal lp) then
          if ItemIdIsRedirected lp && at_chain_start
          then hot_loop fuel p blkno (ItemIdGetRedirect lp) prev_xmax false skip all_dead
          else Ok (None, all_dead)
        else
          t ← PageGetItem p lp;
          if at_chain_start && HeapTupleIsHeapOnly t then Ok (None, all_dead)
          else if TransactionIdIsValid prev_xmax && negb (prev_xmax =? HeapTupleHeaderGetXmin t) then Ok (None, all_dead)
          else if negb skip && HeapTupleSatisfiesVisibility (ItemPointerSet blkno offnum) t then Ok (Some (offnum, t), false)
          else
            let all_dead := all_dead && HeapTupleIsSurelyDead t in
            if HeapTupleIsHotUpdated t
            then hot_loop fuel p blkno (ItemPointerGetOffsetNumber (t_ctid t)) (HeapTupleHeaderGetUpdateXid t) false false all_dead
            else Ok (None, all_dead)
  end.

(** [*tid] and the tuple if one is found, and [*all_dead]. *)
Definition heap_hot_search_buffer p (tid : ItemPointerData) (first_call : bool)
  : result (option (ItemPointerData * HeapTupleHeaderData) * bool) :=
  r ← hot_loop (Z.to_nat (PageGetMaxOffsetNumber p) + 2) p (ItemPointerGetBlockNumber tid)
        (ItemPointerGetOffsetNumber tid) InvalidTransactionId first_call (negb first_call) first_call;
  let '(found, all_dead) := r in
  Ok (match found with Some (offnum, t) => Some (ItemPointerSetOffsetNumber tid offnum, t) | None => None end, all_dead).

(** * Chains *)

(** What is at an offset for the search: nothing to follow, a redirection, or a tuple. *)
Inductive line : Type := Nothing | Redirect (off : Z) | Member (t : HeapTupleHeaderData).

Definition line_at p (offnum : Z) : line :=
  if (offnum <? FirstOffsetNumber) || (PageGetMaxOffsetNumber p <? offnum) then Nothing
  else match pd_linp p !! Z.to_nat (offnum - 1) with
       | None => Nothing
       | Some lp =>
           if ItemIdIsNormal lp then match pd_mem p !! lp_off lp with Some c => Member c.2 | None => Nothing end
           else if ItemIdIsRedirected lp then Redirect (lp_off lp) else Nothing
       end.

(** The members of the chain from an offset, in order. *)
Inductive hot_chain (look : Z → line) : Z → Z → bool → list (Z * HeapTupleHeaderData) → Prop :=
  | hc_nothing offnum xmax start : look offnum = Nothing → hot_chain look offnum xmax start []
  | hc_redirect offnum xmax off ms :
      look offnum = Redirect off → hot_chain look off xmax false ms → hot_chain look offnum xmax true ms
  | hc_late_redirect offnum xmax off : look offnum = Redirect off → hot_chain look offnum xmax false []
  | hc_heap_only offnum xmax t : look offnum = Member t → HeapTupleIsHeapOnly t = true → hot_chain look offnum xmax true []
  | hc_broken offnum xmax start t :
      look offnum = Member t → start && HeapTupleIsHeapOnly t = false →
      TransactionIdIsValid xmax && negb (xmax =? HeapTupleHeaderGetXmin t) = true → hot_chain look offnum xmax start []
  | hc_last offnum xmax start t :
      look offnum = Member t → start && HeapTupleIsHeapOnly t = false →
      TransactionIdIsValid xmax && negb (xmax =? HeapTupleHeaderGetXmin t) = false → HeapTupleIsHotUpdated t = false →
      hot_chain look offnum xmax start [(offnum, t)]
  | hc_next offnum xmax start t ms :
      look offnum = Member t → start && HeapTupleIsHeapOnly t = false →
      TransactionIdIsValid xmax && negb (xmax =? HeapTupleHeaderGetXmin t) = false → HeapTupleIsHotUpdated t = true →
      hot_chain look (ItemPointerGetOffsetNumber (t_ctid t)) (HeapTupleHeaderGetUpdateXid t) false ms →
      hot_chain look offnum xmax start ((offnum, t) :: ms).

(** The first member the snapshot sees. *)
Definition first_visible (blkno : Z) (ms : list (Z * HeapTupleHeaderData)) : option (Z * HeapTupleHeaderData) :=
  List.find (λ m, HeapTupleSatisfiesVisibility (ItemPointerSet blkno m.1) m.2) ms.

(** The page can be searched: normal line pointers have their tuples, and the links of
    updated tuples do not lead back. *)
Record searchable p : Prop := {
  se_lines : PageGetMaxOffsetNumber p = zlen (pd_linp p);
  se_items : Forall (λ a, ItemIdIsNormal a = true → is_Some (pd_mem p !! lp_off a)) (pd_linp p);
  se_links : ∃ rank : Z → nat, ∀ off t, line_at p off = Member t → HeapTupleIsHotUpdated t = true →
    (rank (ItemPointerGetOffsetNumber (t_ctid t)) < rank off)%nat;
}.

Lemma line_at_read p offnum : searchable p →
  (offnum <? FirstOffsetNumber) || (PageGetMaxOffsetNumber p <? offnum) = false →
  ∃ lp, PageGetItemId p offnum = Ok lp ∧
    match line_at p offnum with
    | Nothing => ItemIdIsNormal lp = false ∧ ItemIdIsRedirected lp = false
    | Redirect off => ItemIdIsNormal lp = false ∧ ItemIdIsRedirected lp = true ∧ ItemIdGetRedirect lp = off
    | Member t => ItemIdIsNormal lp = true ∧ PageGetItem p lp = Ok t
    end.
Proof.
  intros [Hl HF _] Hr. unfold PageGetItemId, line_at, PageGetItem, ItemIdGetRedirect. rewrite Hr. unfold FirstOffsetNumber in Hr. bprop.
  destruct (Z.ltb_spec offnum 1); [lia|].
  destruct (lookup_lt_is_Some_2 (pd_linp p) (Z.to_nat (offnum - 1))) as [lp Hlp]; [unfold zlen in *; lia|].
  rewrite Hlp. exists lp. split; [done|]. rewrite Forall_lookup in HF. specialize (HF _ _ Hlp).
  destruct (ItemIdIsNormal lp) eqn:En.
  - destruct (HF eq_refl) as [c ->]. done.
  - by destruct (ItemIdIsRedirected lp).
Qed.

(** Enough rounds give the first visible member, or whether all are dead. *)
Lemma hot_loop_chain p blkno offnum xmax start ms : searchable p →
  hot_chain (line_at p) offnum xmax start ms → ∀ fuel dead, (length ms + (if start then 2 else 1) ≤ fuel)%nat →
  hot_loop fuel p blkno offnum xmax start false dead =
  Ok (first_visible blkno ms,
      match first_visible blkno ms with Some _ => false | None => dead && forallb (λ m, HeapTupleIsSurelyDead m.2) ms end).
Proof.
  intros Hp. induction 1 as [offnum xmax start E|offnum xmax off ms E _ IH|offnum xmax off E|offnum xmax t E Ho
    |offnum xmax start t E Ho Hx|offnum xmax start t E Ho Hx Hu|offnum xmax start t ms E Ho Hx Hu _ IH];
    intros fuel dead Hf; (destruct fuel as [|fuel]; [exfalso; try destruct start; cbn in Hf; lia|]); cbn [hot_loop];
    destruct ((offnum <? FirstOffsetNumber) || (PageGetMaxOffsetNumber p <? offnum)) eqn:Er;
    try (unfold line_at in E; rewrite Er in E; done); try (by rewrite andb_true_r);
    destruct (line_at_read p offnum Hp Er) as (lp & -> & HL); rewrite E in HL; rsimpl.
  - destruct HL as [-> ->]. by rewrite andb_true_r.
  - destruct HL as (-> & -> & ->). cbn [negb andb]. apply IH. lia.
  - destruct HL as (-> & -> & _). by rewrite andb_true_r.
  - destruct HL as (-> & ->). rsimpl. rewrite Ho. cbn [andb first_visible List.find forallb]. by rewrite andb_true_r.
  - destruct HL as (-> & ->). rsimpl. rewrite Ho, Hx. by rewrite andb_true_r.
  - destruct HL as (-> & ->). rsimpl. rewrite Ho, Hx, Hu. cbn [first_visible List.find andb fst snd forallb].
    destruct (HeapTupleSatisfiesVisibility _ t); [done|]. by rewrite andb_true_r.
  - destruct HL as (-> & ->). rsimpl. rewrite Ho, Hx, Hu. cbn [andb].
    unfold first_visible in *. cbn [List.find fst snd forallb]. destruct (HeapTupleSatisfiesVisibility _ t); [done|].
    rewrite IH by (cbn in Hf; destruct start; lia). do 2 f_equal. destruct (List.find _ ms); [done|]. by rewrite andb_assoc.
Qed.

(** * Termination *)

Lemma line_at_range p off t : line_at p off = Member t → 1 ≤ off ≤ PageGetMaxOffsetNumber p.
Proof.
  unfold line_at, FirstOffsetNumber. destruct (Z.ltb_spec off 1), (Z.ltb_spec (PageGetMaxOffsetNumber p) off); cbn [orb]; done || lia.
Qed.

Lemma hot_chain_det look off xmax start ms ms' :
  hot_chain look off xmax start ms → hot_chain look off xmax start ms' → ms = ms'.
Proof.
  intros H. revert ms'. induction H; intros ms' H'; inversion H'; subst; cbn [andb] in *; try congruence.
  - match goal with H1 : look ?o = Redirect ?a, H2 : look ?o = Redirect ?b |- _ => assert (a = b) as -> by congruence end. auto.
  - match goal with H1 : look ?o = Member ?a, H2 : look ?o = Member ?b |- _ => assert (a = b) as -> by congruence end. f_equal. auto.
Qed.

(** The chain from any offset exists and visits no line pointer twice. *)
Lemma hot_chain_exists p (rank : Z → nat) :
  (∀ off t, line_at p off = Member t → HeapTupleIsHotUpdated t = true → (rank (ItemPointerGetOffsetNumber (t_ctid t)) < rank off)%nat) →
  ∀ n off xmax, (rank off ≤ n)%nat →
  ∃ ms, hot_chain (line_at p) off xmax false ms ∧ NoDup ms.*1 ∧
    Forall (λ m, 1 ≤ m.1 ≤ PageGetMaxOffsetNumber p ∧ (rank m.1 ≤ rank off)%nat) ms.
Proof.
  intros Hrank. induction n as [n IH] using lt_wf_ind. intros off xmax Hn.
  destruct (line_at p off) as [|off'|t] eqn:E.
  - exists []. split_and!; [by apply hc_nothing|constructor|constructor].
  - exists []. split_and!; [by eapply hc_late_redirect|constructor|constructor].
  - pose proof (line_at_range _ _ _ E).
    destruct (TransactionIdIsValid xmax && negb (xmax =? HeapTupleHeaderGetXmin t)) eqn:Ex.
    { exists []. split_and!; [by eapply hc_broken|constructor|constructor]. }
    destruct (HeapTupleIsHotUpdated t) eqn:Eu.
    + specialize (Hrank off t E Eu). destruct (IH (rank (ItemPointerGetOffsetNumber (t_ctid t))) ltac:(lia)
        (ItemPointerGetOffsetNumber (t_ctid t)) (HeapTupleHeaderGetUpdateXid t) ltac:(lia)) as (ms & Hc & Hnd & HF).
      exists ((off, t) :: ms). split_and!; [by eapply hc_next| |].
      * cbn. constructor; [|done]. intros (m & Em & Hm)%list_elem_of_fmap. rewrite Forall_forall in HF. destruct (HF m Hm) as [_ Hr].
        rewrite <- Em in Hr. lia.
      * constructor; [split; [done|cbn; lia]|]. eapply Forall_impl; [exact HF|]. intros m [? ?]. split; [done|lia].
    + exists [(off, t)]. split_and!; [by eapply hc_last|by apply NoDup_singleton|by constructor; [cbn; split; [|lia]|]].
Qed.

Lemma hot_chain_search p off : searchable p →
  ∃ ms, hot_chain (line_at p) off InvalidTransactionId true ms ∧ NoDup ms.*1 ∧ (length ms ≤ Z.to_nat (PageGetMaxOffsetNumber p))%nat.
Proof.
  intros [Hl _ [rank Hrank]].
  assert (HE : ∀ o, ∃ ms, hot_chain (line_at p) o InvalidTransactionId false ms ∧ NoDup ms.*1 ∧ (length ms ≤ Z.to_nat (PageGetMaxOffsetNumber p))%nat).
  { intros o. destruct (hot_chain_exists p rank Hrank (rank o) o InvalidTransactionId ltac:(lia)) as (ms & Hc & Hnd & HF).
    exists ms. split_and!; [done|done|]. rewrite <- (length_fmap (λ m, fst m - 1)). apply NoDup_range_length.
    - change (NoDup (((λ o, o - 1) ∘ fst) <$> ms)). rewrite list_fmap_compose. apply NoDup_fmap_2; [|done]. intros u v ?. lia.
    - intros b (m & -> & Hm)%list_elem_of_fmap. rewrite Forall_forall in HF. destruct (HF m Hm). lia. }
  destruct (line_at p off) as [|o|t] eqn:E.
  - exists []. split_and!; [by apply hc_nothing|constructor|cbn; lia].
  - destruct (HE o) as (ms & Hc & Hn). exists ms. split; [by eapply hc_redirect|done].
  - destruct (HeapTupleIsHeapOnly t) eqn:Eo; [exists []; split_and!; [by eapply hc_heap_only|constructor|cbn; lia]|].
    destruct (HE off) as (ms & Hc & Hn). exists ms. split; [|done]. inversion Hc; subst; try congruence; (assert (t0 = t) as -> by congruence).
    + by eapply hc_broken.
    + by eapply hc_last.
    + by eapply hc_next.
Qed.

Lemma hot_chain_bounds p off ms : searchable p → hot_chain (line_at p) off InvalidTransactionId true ms →
  NoDup ms.*1 ∧ (length ms ≤ Z.to_nat (PageGetMaxOffsetNumber p))%nat.
Proof. intros Hp Hc. destruct (hot_chain_search p off Hp) as (ms' & Hc' & H). by rewrite (hot_chain_det _ _ _ _ _ _ Hc Hc'). Qed.

(** The search always ends, with the first visible member of the chain. *)
Lemma heap_hot_search_ok p tid : searchable p →
  ∃ ms, hot_chain (line_at p) (ItemPointerGetOffsetNumber tid) InvalidTransactionId true ms ∧
    heap_hot_search_buffer p tid true =
    Ok (match first_visible (ItemPointerGetBlockNumber tid) ms with
        | Some (off, t) => Some (ItemPointerSetOffsetNumber tid off, t) | None => None end,
        match first_visible (ItemPointerGetBlockNumber tid) ms with
        | Some _ => false | None => forallb (λ m, HeapTupleIsSurelyDead m.2) ms end).
Proof.
  intros Hp. destruct (hot_chain_search p (ItemPointerGetOffsetNumber tid) Hp) as (ms & Hc & _ & Hn). exists ms. split; [done|].
  unfold heap_hot_search_buffer. rewrite (hot_loop_chain p (ItemPointerGetBlockNumber tid) _ _ true ms Hp Hc) by lia. rsimpl.
  by destruct (first_visible _ ms) as [[off t]|].
Qed.

(** * Chains depend on the lines only *)

Lemma hot_chain_ext look look' off xmax start ms :
  (∀ o, look' o = look o) → hot_chain look off xmax start ms → hot_chain look' off xmax start ms.
Proof.
  intros He. induction 1.
  - apply hc_nothing. by rewrite He.
  - eapply hc_redirect; [by rewrite He|done].
  - eapply hc_late_redirect. by rewrite He.
  - eapply hc_heap_only; [by rewrite He|done].
  - eapply hc_broken; [by rewrite He|done|done].
  - eapply hc_last; [by rewrite He|done|done|done].
  - eapply hc_next; [by rewrite He|done|done|done|done].
Qed.

Lemma heap_hot_search_lines p p' tid : searchable p → searchable p' → (∀ o, line_at p' o = line_at p o) →
  heap_hot_search_buffer p' tid true = heap_hot_search_buffer p tid true.
Proof.
  intros Hp Hp' He. destruct (heap_hot_search_ok p tid Hp) as (ms & Hc & ->), (heap_hot_search_ok p' tid Hp') as (ms' & Hc' & ->).
  assert (ms' = ms) as ->; [|done]. eapply hot_chain_det; [|by eapply (hot_chain_ext (line_at p)) in Hc]. done.
Qed.

(** A heap page as the search needs it. *)
Record heap_page p : Prop := {
  hg_ok : heap_ok p;
  hg_normal : Forall (λ a, ItemIdIsNormal a = true → ItemIdHasStorage a = true) (pd_linp p);
  hg_redirect : Forall (λ a, ItemIdIsRedirected a = true → ItemIdHasStorage a = false) (pd_linp p);
  hg_links : ∃ rank : Z → nat, ∀ off t, line_at p off = Member t → HeapTupleIsHotUpdated t = true →
    (rank (ItemPointerGetOffsetNumber (t_ctid t)) < rank off)%nat;
}.

Lemma heap_page_searchable p : heap_page p → searchable p.
Proof.
  intros [Hh Hn _ Hr]. destruct (heap_max p Hh) as (Hm & _). constructor; [done| |done].
  apply Forall_lookup. intros i a Ha Hna. rewrite Forall_lookup in Hn.
  destruct (sd_mem _ _ _ _ (so_at _ _ _ _ (hp_storage _ Hh) i a Ha (Hn i a Ha Hna))) as [it ->]. by eexists.
Qed.

Lemma unused_not_followed a : ItemIdIsUsed a = false → ItemIdIsNormal a = false ∧ ItemIdIsRedirected a = false.
Proof. unfold ItemIdIsUsed, ItemIdIsNormal, ItemIdIsRedirected, LP_UNUSED, LP_NORMAL, LP_REDIRECT. intros H. bprop. by rewrite H. Qed.

Abbreviation line_of m a :=
  (if ItemIdIsNormal a then match m !! lp_off a with Some c => Member c.2 | None => Nothing end
   else if ItemIdIsRedirected a then Redirect (lp_off a) else Nothing).

Lemma same_line_of m m' a b :
  same_line m m' a b → (ItemIdIsNormal a = true → ItemIdHasStorage a = true) →
  (ItemIdIsRedirected a = true → ItemIdHasStorage a = false) → line_of m' b = line_of m a.
Proof.
  intros [Hf _ Ht Hs] Hn Hr.
  assert (En : ItemIdIsNormal b = ItemIdIsNormal a) by (unfold ItemIdIsNormal; by rewrite Hf).
  assert (Er : ItemIdIsRedirected b = ItemIdIsRedirected a) by (unfold ItemIdIsRedirected; by rewrite Hf).
  rewrite En, Er. destruct (ItemIdIsNormal a); [by rewrite (Ht (Hn eq_refl))|].
  destruct (ItemIdIsRedirected a); [|done]. by rewrite (Hs (Hr eq_refl)).
Qed.

Lemma line_at_lookup p off : heap_ok p →
  line_at p off = match (if off <? 1 then None else pd_linp p !! Z.to_nat (off - 1)) with
                  | Some a => line_of (pd_mem p) a | None => Nothing end.
Proof.
  intros Hh. destruct (heap_max p Hh) as (Hm & _). unfold line_at, FirstOffsetNumber. rewrite Hm.
  destruct (Z.ltb_spec off 1); [done|]. cbn [orb]. destruct (Z.ltb_spec (zlen (pd_linp p)) off); [|done].
  rewrite (lookup_ge_None_2 (pd_linp p)); [done|]. unfold zlen in *. lia.
Qed.

(** Repairing a page changes no line. *)
Lemma repair_lines p p' : heap_page p → heap_ok p' →
  Forall2 (same_line (pd_mem p) (pd_mem p')) (used_prefix (map clear_unused (pd_linp p))) (pd_linp p') →
  ∀ off, line_at p' off = line_at p off.
Proof.
  intros [Hh Hn Hr _] Hh' Hsame off. rewrite !line_at_lookup by done. destruct (Z.ltb_spec off 1); [done|].
  set (i := Z.to_nat (off - 1)). set (l := map clear_unused (pd_linp p)) in *.
  assert (Hcl : ∀ a, pd_linp p !! i = Some a → l !! i = Some (clear_unused a)) by (intros a Ha; unfold l; by rewrite list_lookup_fmap, Ha).
  destruct (pd_linp p' !! i) as [b|] eqn:Eb.
  - destruct (Forall2_lookup_r _ _ _ _ _ Hsame Eb) as (a' & Ha' & Hs).
    rewrite used_prefix_take in Ha'. apply lookup_take_Some in Ha' as [Ha' _].
    unfold l in Ha'. rewrite list_lookup_fmap in Ha'. destruct (pd_linp p !! i) as [a|] eqn:Ea; [|done]. cbn in Ha'. injection Ha' as <-.
    rewrite Forall_lookup in Hn, Hr. specialize (Hn i a Ea). specialize (Hr i a Ea). unfold clear_unused in Hs.
    destruct (ItemIdIsUsed a) eqn:Eu; [by apply same_line_of|].
    destruct (unused_not_followed a Eu) as [-> ->]. destruct Hs as [Hf _ _ _]. unfold ItemIdIsNormal, ItemIdIsRedirected. by rewrite Hf.
  - destruct (pd_linp p !! i) as [a|] eqn:Ea; [|done]. specialize (Hcl a eq_refl).
    pose proof (used_prefix_rest l) as HF. rewrite Forall_lookup in HF. apply lookup_ge_None in Eb. rewrite <- (Forall2_length _ _ _ Hsame) in Eb.
    specialize (HF (i - length (used_prefix l))%nat (clear_unused a)). rewrite lookup_drop in HF.
    replace (length (used_prefix l) + (i - length (used_prefix l)))%nat with i in HF by lia. specialize (HF Hcl).
    rewrite clear_unused_used in HF. by destruct (unused_not_followed a HF) as [-> ->].
Qed.

Lemma repair_heap_page p p' : heap_page p → heap_ok p' →
  Forall2 (same_line (pd_mem p) (pd_mem p')) (used_prefix (map clear_unused (pd_linp p))) (pd_linp p') → heap_page p'.
Proof.
  intros Hp Hh' Hsame. pose proof (repair_lines p p' Hp Hh' Hsame) as Hl. destruct Hp as [Hh Hn Hr [rank Hk]].
  assert (HG : ∀ i b, pd_linp p' !! i = Some b → ∃ a, pd_linp p !! i = Some a ∧ same_line (pd_mem p) (pd_mem p') (clear_unused a) b).
  { intros i b Hb. destruct (Forall2_lookup_r _ _ _ _ _ Hsame Hb) as (a' & Ha' & Hs). rewrite used_prefix_take in Ha'.
    apply lookup_take_Some in Ha' as [Ha' _]. rewrite list_lookup_fmap in Ha'. destruct (pd_linp p !! i) as [a|]; [|done]. cbn in Ha'. injection Ha' as <-. eauto. }
  rewrite Forall_lookup in Hn, Hr. constructor; [done| | |by exists rank; intros off t; rewrite Hl; apply Hk].
  - apply Forall_lookup. intros i b Hb Hnb. destruct (HG i b Hb) as (a & Ha & [Hf He _ _]). specialize (Hn i a Ha).
    unfold ItemIdIsNormal, ItemIdHasStorage, clear_unused in *. rewrite Hf in Hnb. rewrite He. destruct (ItemIdIsUsed a); [auto|done].
  - apply Forall_lookup. intros i b Hb Hnb. destruct (HG i b Hb) as (a & Ha & [Hf He _ _]). specialize (Hr i a Ha).
    unfold ItemIdIsRedirected, ItemIdHasStorage, clear_unused in *. rewrite Hf in Hnb. rewrite He. destruct (ItemIdIsUsed a); [auto|done].
Qed.

(** * Later calls *)

(** What follows a member of a chain is the chain from that member. *)
Lemma hot_chain_suffix look off xmax start ms pre o t post :
  hot_chain look off xmax start ms → ms = pre ++ (o, t) :: post →
  hot_chain look o InvalidTransactionId false ((o, t) :: post).
Proof.
  intros Hc. revert pre. induction Hc; intros pre E; try (by destruct pre).
  - by eapply IHHc.
  - destruct pre as [|? [|]]; cbn in E; simplify_eq. by apply hc_last.
  - destruct pre as [|m pre]; cbn in E; simplify_eq; [by apply hc_next|by eapply IHHc].
Qed.

(** A call with the pointer the previous one left goes on after its tuple. *)
Lemma heap_hot_search_next p tid t ms : searchable p →
  hot_chain (line_at p) (ItemPointerGetOffsetNumber tid) InvalidTransactionId false ((ItemPointerGetOffsetNumber tid, t) :: ms) →
  (length ms < Z.to_nat (PageGetMaxOffsetNumber p))%nat →
  heap_hot_search_buffer p tid false =
  Ok (match first_visible (ItemPointerGetBlockNumber tid) ms with
      | Some (off, t) => Some (ItemPointerSetOffsetNumber tid off, t) | None => None end, false).
Proof.
  intros Hp Hc Hn. set (off := ItemPointerGetOffsetNumber tid) in *. unfold heap_hot_search_buffer. fold off. rewrite Nat.add_succ_r.
  assert (Hm : line_at p off = Member t) by (by inversion Hc; subst).
  cbn [hot_loop]. destruct ((off <? FirstOffsetNumber) || (PageGetMaxOffsetNumber p <? off)) eqn:Er; [by unfold line_at in Hm; rewrite Er in Hm|].
  destruct (line_at_read p off Hp Er) as (lp & -> & HL). rewrite Hm in HL. destruct HL as [Hl Hi]. rsimpl. rewrite Hl. cbn [negb]. rewrite Hi. rsimpl.
  inversion Hc; subst; match goal with Hu : HeapTupleIsHotUpdated _ = _ |- _ => rewrite Hu end; [done|].
  rewrite (hot_loop_chain p _ _ _ false ms Hp) by (done || lia). rsimpl. by destruct (first_visible _ ms) as [[o' u]|].
Qed.
End hot.

(** * Properties *)

(** C37. On a page whose normal line pointers have tuples and whose update links do not run
    in a circle, the first call of the search from any item pointer ends, within one round per line pointer
    and two, and returns the first version of the chain that the snapshot sees, under its
    own number; if it sees none, it reports whether every version is dead. *)
Theorem hot_search_terminates {A Sp} upd vis dead (p : Page (@HeapTupleHeaderData A) Sp) tid : searchable p →
  ∃ ms, hot_chain upd (line_at p) (ItemPointerGetOffsetNumber tid) InvalidTransactionId true ms ∧
    heap_hot_search_buffer upd vis dead p tid true =
    Ok (match first_visible vis (ItemPointerGetBlockNumber tid) ms with
        | Some (off, t) => Some (ItemPointerSetOffsetNumber tid off, t) | None => None end,
        match first_visible vis (ItemPointerGetBlockNumber tid) ms with
        | Some _ => false | None => forallb (λ m, dead m.2) ms end).
Proof. apply heap_hot_search_ok. Qed.

(** Repairing the fragmentation of a heap page moves tuples and cuts off line pointers,
    and is invisible to index scans: from every item pointer the search returns the same
    version and the same verdict as before, whatever the snapshot. *)
Theorem repair_keeps_hot_search {A Sp} upd vis dead (p : Page (@HeapTupleHeaderData A) Sp) :
  heap_page p → zlen (pd_linp p) ≤ MaxHeapTuplesPerPage →
  ∃ p', PageRepairFragmentation p = Ok p' ∧ heap_page p' ∧
    ∀ tid, heap_hot_search_buffer upd vis dead p' tid true = heap_hot_search_buffer upd vis dead p tid true.
Proof.
  intros Hp Hn. destruct (PageRepairFragmentation_ok p (hg_ok _ Hp) Hn) as (p' & E & Hh & Hs & _).
  pose proof (repair_heap_page p p' Hp Hh Hs) as Hp'. exists p'. split_and!; [done|done|]. intros tid.
  apply heap_hot_search_lines; [by apply heap_page_searchable..|by apply repair_lines].
Qed.

(** * Witnesses *)

(** A redirected line pointer, an updated version, the version after it, an unused line
    pointer and a gap. *)
Definition old_version : HeapTupleHeaderData :=
  {| t_xmin := 5; t_xmax := 10; t_xvac := 0; t_ctid := ItemPointerSet 0 3; t_infomask2 := HEAP_HOT_UPDATED + HEAP_ONLY_TUPLE;
     t_infomask := 0; t_values := 1 |}.
Definition new_version : HeapTupleHeaderData :=
  {| t_xmin := 10; t_xmax := 0; t_xvac := 0; t_ctid := ItemPointerSet 0 3; t_infomask2 := HEAP_ONLY_TUPLE;
     t_infomask := HEAP_XMAX_INVALID; t_values := 2 |}.
Definition hot_page : Page (@HeapTupleHeaderData Z) unit :=
  {| pd_flags := 0; pd_lower := 40; pd_upper := 8000; pd_special := 8192; pd_pagesize_version := 8196;
     pd_linp := [mkItemId 2 LP_REDIRECT 0; mkItemId 8000 LP_NORMAL 30; mkItemId 8080 LP_NORMAL 48; ItemIdSetUnused];
     pd_mem := {[8000 := (30, old_version); 8080 := (48, new_version)]}; pd_sp := None |}.

(** A test for [heap_page], given the order of the links. *)
Definition heap_pageb {A Sp} (rank : Z → nat) (p : Page (@HeapTupleHeaderData A) Sp) : bool :=
  heap_okb p && forallb (λ a, negb (ItemIdIsNormal a) || ItemIdHasStorage a) (pd_linp p) &&
  forallb (λ a, negb (ItemIdIsRedirected a) || negb (ItemIdHasStorage a)) (pd_linp p) &&
  forallb (λ i, match line_at p (Z.of_nat i) with
                | Member t => negb (HeapTupleIsHotUpdated t) || (rank (ItemPointerGetOffsetNumber (t_ctid t)) <? rank (Z.of_nat i))%nat
                | _ => true end) (seq 1 (Z.to_nat (PageGetMaxOffsetNumber p))).

Lemma heap_pageb_sound {A Sp} rank (p : Page (@HeapTupleHeaderData A) Sp) : heap_pageb rank p = true → heap_page p.
Proof.
  unfold heap_pageb. rewrite !andb_true_iff, !forallb_forall. intros (((Ho & Hn) & Hr) & Hl). constructor.
  - by apply heap_okb_sound.
  - apply List.Forall_forall. intros a Ha E. specialize (Hn a Ha). by rewrite E in Hn.
  - apply List.Forall_forall. intros a Ha E. specialize (Hr a Ha). rewrite E in Hr. by destruct (ItemIdHasStorage a).
  - exists rank. intros off t E Eu. pose proof (line_at_range _ _ _ E). specialize (Hl (Z.to_nat off)).
    rewrite in_seq, Z2Nat.id, E, Eu in Hl by lia. apply Nat.ltb_lt, Hl. lia.
Qed.

Lemma hot_page_ok : heap_page hot_page.
Proof. by apply (heap_pageb_sound (λ o, Z.to_nat (4 - o))); vm_compute. Qed.

Lemma hot_search_terminates_witness :
  ∃ ms, hot_chain (λ _, 0) (line_at hot_page) 1 InvalidTransactionId true ms ∧
    heap_hot_search_buffer (λ _, 0) (λ _ t, t_values t =? 2) (λ _, true) hot_page (ItemPointerSet 0 1) true =
    Ok (match first_visible (λ _ t, t_values t =? 2) 0 ms with
        | Some (off, t) => Some (ItemPointerSetOffsetNumber (ItemPointerSet 0 1) off, t) | None => None end,
        match first_visible (λ _ t, t_values t =? 2) 0 ms with Some _ => false | None => forallb (λ m, true) ms end).
Proof.
  apply (hot_search_terminates (λ _, 0) (λ _ t, t_values t =? 2) (λ _, true) hot_page (ItemPointerSet 0 1)).
  apply heap_page_searchable, hot_page_ok.
Defined.

Lemma repair_keeps_hot_search_witness :
  ∃ p', PageRepairFragmentation hot_page = Ok p' ∧ heap_page p' ∧
    ∀ tid, heap_hot_search_buffer (λ _, 0) (λ _ t, t_values t =? 2) (λ _, true) p' tid true =
           heap_hot_search_buffer (λ _, 0) (λ _ t, t_values t =? 2) (λ _, true) hot_page tid true.
Proof.
  apply (repair_keeps_hot_search (λ _, 0) (λ _ t, t_values t =? 2) (λ _, true) hot_page hot_page_ok). vm_compute. discriminate.
Defined.

(** The redirection, then the first version, lead to the second. *)
Example hot_page_search :
  heap_hot_search_buffer (λ _, 0) (λ _ t, t_values t =? 2) (λ _, true) hot_page (ItemPointerSet 0 1) true =
  Ok (Some (ItemPointerSet 0 3, new_version), false).
Proof. reflexivity. Qed.
