(* ===== verification/HeapPrune.v ===== *)
(** pruneheap.c: pruning of heap pages.  Dead versions at the front of a HOT chain are
    removed, the line pointer indexes refer to is redirected to the first version kept or
    marked dead, and the page is repaired.  Freezing (the option HEAP_PAGE_PRUNE_FREEZE of
    vacuum) is modelled in Freeze: the pruning that scans do never asks for it. *)

From S2P Require Import Prelude Xid Bufpage Itup Compact PageOps HeapPage HotChain.

(** * Line pointers and page flags *)

Definition ItemIdIsDead (a : ItemIdData) : bool := lp_flags a =? LP_DEAD.
Definition ItemIdSetRedirect (link : Z) : ItemIdData := mkItemId link LP_REDIRECT 0.
Definition ItemIdSetDead : ItemIdData := mkItemId 0 LP_DEAD 0.

Definition PD_PAGE_FULL : Z := 0x0002.
Definition PageIsFull {Item Sp} (p : Page Item Sp) : bool := has_flag (pd_flags p) PD_PAGE_FULL.
Definition PageClearFull {Item Sp} (p : Page Item Sp) : Page Item Sp :=
  {| pd_flags := Z.ldiff (pd_flags p) PD_PAGE_FULL; pd_lower := pd_lower p; pd_upper := pd_upper p;
     pd_special := pd_special p; pd_pagesize_version := pd_pagesize_version p;
     pd_linp := pd_linp p; pd_mem := pd_mem p; pd_sp := pd_sp p |}.

(** * The working state *)

Inductive HTSV_Result : Type :=
  | HEAPTUPLE_DEAD | HEAPTUPLE_LIVE | HEAPTUPLE_RECENTLY_DEAD | HEAPTUPLE_INSERT_IN_PROGRESS | HEAPTUPLE_DELETE_IN_PROGRESS.
#[export] Instance HTSV_Result_eq_dec : EqDecision HTSV_Result.
Proof. solve_decision. Defined.

(** Arrays with their counts are lists, a redirection is a pair; [processed] has the offsets
    whose entry is true and [htsv] those that are not -1. *)
Record PruneState : Type := mkPruneState {
  mark_unused_now : bool;
  new_prune_xid : Z;
  latest_xid_removed : Z;
  redirected : list (Z * Z);
  nowdead : list Z;
  nowunused : list Z;
  root_items : list Z;
  heaponly_items : list Z;
  processed : gset Z;
  htsv : gmap Z HTSV_Result;
  ndeleted : Z;
  live_tuples : Z;
  recently_dead_tuples : Z;
  hastup : bool;
  deadoffsets : list Z;
}.

Section updates.
Implicit Type s : PruneState.
Definition set_queues (roots heaponly : list Z) s : PruneState :=
  mkPruneState (mark_unused_now s) (new_prune_xid s) (latest_xid_removed s) (redirected s) (nowdead s) (nowunused s)
    roots heaponly (processed s) (htsv s) (ndeleted s) (live_tuples s) (recently_dead_tuples s) (hastup s) (deadoffsets s).
Definition set_htsv (offnum : Z) (res : HTSV_Result) s : PruneState :=
  mkPruneState (mark_unused_now s) (new_prune_xid s) (latest_xid_removed s) (redirected s) (nowdead s) (nowunused s)
    (root_items s) (heaponly_items s) (processed s) (<[offnum := res]> (htsv s)) (ndeleted s) (live_tuples s)
    (recently_dead_tuples s) (hastup s) (deadoffsets s).
Definition set_processed (offnum : Z) s : PruneState :=
  mkPruneState (mark_unused_now s) (new_prune_xid s) (latest_xid_removed s) (redirected s) (nowdead s) (nowunused s)
    (root_items s) (heaponly_items s) ({[offnum]} ∪ processed s) (htsv s) (ndeleted s) (live_tuples s)
    (recently_dead_tuples s) (hastup s) (deadoffsets s).
Definition set_horizons (prune_xid removed : Z) s : PruneState :=
  mkPruneState (mark_unused_now s) prune_xid removed (redirected s) (nowdead s) (nowunused s)
    (root_items s) (heaponly_items s) (processed s) (htsv s) (ndeleted s) (live_tuples s)
    (recently_dead_tuples s) (hastup s) (deadoffsets s).
Definition set_plan (rd : list (Z * Z)) (dead unused : list Z) s : PruneState :=
  mkPruneState (mark_unused_now s) (new_prune_xid s) (latest_xid_removed s) rd dead unused
    (root_items s) (heaponly_items s) (processed s) (htsv s) (ndeleted s) (live_tuples s)
    (recently_dead_tuples s) (hastup s) (deadoffsets s).
Definition set_counts (deleted live recent : Z) (tup : bool) (offs : list Z) s : PruneState :=
  mkPruneState (mark_unused_now s) (new_prune_xid s) (latest_xid_removed s) (redirected s) (nowdead s) (nowunused s)
    (root_items s) (heaponly_items s) (processed s) (htsv s) deleted live recent tup offs.

(** * Recording what becomes of a line pointer *)

Definition heap_prune_record_prunable s (xid : Z) : PruneState :=
  if negb (TransactionIdIsValid (new_prune_xid s)) || TransactionIdPrecedes xid (new_prune_xid s)
  then set_horizons xid (latest_xid_removed s) s else s.

Definition count_if_normal (was_normal : bool) s : PruneState :=
  set_counts (ndeleted s + (if was_normal then 1 else 0)) (live_tuples s) (recently_dead_tuples s) (hastup s) (deadoffsets s) s.

Definition heap_prune_record_redirect s (offnum rdoffnum : Z) (was_normal : bool) : PruneState :=
  let s := set_processed offnum s in
  let s := set_plan (redirected s ++ [(offnum, rdoffnum)]) (nowdead s) (nowunused s) s in
  let s := count_if_normal was_normal s in
  set_counts (ndeleted s) (live_tuples s) (recently_dead_tuples s) true (deadoffsets s) s.

Definition heap_prune_record_dead s (offnum : Z) (was_normal : bool) : PruneState :=
  let s := set_processed offnum s in
  let s := set_plan (redirected s) (nowdead s ++ [offnum]) (nowunused s) s in
  let s := set_counts (ndeleted s) (live_tuples s) (recently_dead_tuples s) (hastup s) (deadoffsets s ++ [offnum]) s in
  count_if_normal was_normal s.

Definition heap_prune_record_unused s (offnum : Z) (was_normal : bool) : PruneState :=
  let s := set_processed offnum s in
  let s := set_plan (redirected s) (nowdead s) (nowunused s ++ [offnum]) s in
  count_if_normal was_normal s.

Definition heap_prune_record_dead_or_unused s (offnum : Z) (was_normal : bool) : PruneState :=
  if mark_unused_now s then heap_prune_record_unused s offnum was_normal else heap_prune_record_dead s offnum was_normal.

Definition heap_prune_record_unchanged_lp_unused s (offnum : Z) : PruneState := set_processed offnum s.

Definition heap_prune_record_unchanged_lp_dead s (offnum : Z) : PruneState :=
  let s := set_processed offnum s in
  set_counts (ndeleted s) (live_tuples s) (recently_dead_tuples s) (hastup s) (deadoffsets s ++ [offnum]) s.

Definition heap_prune_record_unchanged_lp_redirect s (offnum : Z) : PruneState := set_processed offnum s.
End updates.

Section prune.
Context {A Sp : Type}.
Abbreviation Tuple := (@HeapTupleHeaderData A).
Implicit Types (t : Tuple) (p : Page Tuple Sp) (s : PruneState).
Context (HeapTupleGetUpdateXid : Tuple → Z).
(** The status of a tuple and the transaction after which a recently dead one is dead; the
    commit log; the horizon of removable transactions. *)
Context (HeapTupleSatisfiesVacuumHorizon : ItemPointerData → Tuple → HTSV_Result * Z).
Context (TransactionIdDidCommit : Z → bool).
Context (GlobalVisTestIsRemovableXid : Z → bool).
Abbreviation GetUpdateXid := (HeapTupleHeaderGetUpdateXid HeapTupleGetUpdateXid).

(** * Status of tuples *)

(** [cutoffs] is [None] for a null pointer, else its OldestXmin. *)
Definition heap_prune_satisfies_vacuum (cutoffs : option Z) (tid : ItemPointerData) t : HTSV_Result :=
  let '(res, dead_after) := HeapTupleSatisfiesVacuumHorizon tid t in
  if negb (bool_decide (res = HEAPTUPLE_RECENTLY_DEAD)) then res
  else if match cutoffs with
          | Some OldestXmin => TransactionIdIsValid OldestXmin && NormalTransactionIdPrecedes dead_after OldestXmin
          | None => false end then HEAPTUPLE_DEAD
  else if GlobalVisTestIsRemovableXid dead_after then HEAPTUPLE_DEAD
  else res.

Definition HEAP_MOVED_OFF : Z := 0x4000.
Definition HEAP_MOVED_IN : Z := 0x8000.
Definition HEAP_MOVED : Z := Z.lor HEAP_MOVED_OFF HEAP_MOVED_IN.
Definition HeapTupleHeaderXminCommitted t : bool := has_flag (t_infomask t) HEAP_XMIN_COMMITTED.
Definition HeapTupleHeaderGetXvac t : Z := if has_flag (t_infomask t) HEAP_MOVED then t_xvac t else InvalidTransactionId.

Definition HeapTupleHeaderAdvanceConflictHorizon t (snapshotConflictHorizon : Z) : Z :=
  let xmin := HeapTupleHeaderGetXmin t in
  let xmax := GetUpdateXid t in
  let xvac := HeapTupleHeaderGetXvac t in
  let horizon :=
    if has_flag (t_infomask t) HEAP_MOVED && TransactionIdPrecedes snapshotConflictHorizon xvac then xvac
    else snapshotConflictHorizon in
  if HeapTupleHeaderXminCommitted t || (negb (HeapTupleHeaderXminInvalid t) && TransactionIdDidCommit xmin) then
    if negb (xmax =? xmin) && TransactionIdFollows xmax horizon then xmax else horizon
  else horizon.

Definition advance_horizon t s : PruneState :=
  set_horizons (new_prune_xid s) (HeapTupleHeaderAdvanceConflictHorizon t (latest_xid_removed s)) s.

Definition heap_prune_record_unchanged_lp_normal p s (offnum : Z) : result PruneState :=
  let s := set_processed offnum s in
  let s := set_counts (ndeleted s) (live_tuples s) (recently_dead_tuples s) true (deadoffsets s) s in
  lp ← PageGetItemId p offnum;
  t ← PageGetItem p lp;
  match htsv s !! offnum with
  | Some HEAPTUPLE_LIVE =>
      Ok (set_counts (ndeleted s) (live_tuples s + 1) (recently_dead_tuples s) (hastup s) (deadoffsets s) s)
  | Some HEAPTUPLE_RECENTLY_DEAD =>
      Ok (heap_prune_record_prunable
            (set_counts (ndeleted s) (live_tuples s) (recently_dead_tuples s + 1) (hastup s) (deadoffsets s) s) (GetUpdateXid t))
  | Some HEAPTUPLE_INSERT_IN_PROGRESS => Ok s
  | Some HEAPTUPLE_DELETE_IN_PROGRESS =>
      Ok (heap_prune_record_prunable
            (set_counts (ndeleted s) (live_tuples s + 1) (recently_dead_tuples s) (hastup s) (deadoffsets s) s) (GetUpdateXid t))
  | Some HEAPTUPLE_DEAD | None => Err (Elog "unexpected HeapTupleSatisfiesVacuum result")
  end.

Fixpoint record_unchanged p (offs : list Z) s : result PruneState :=
  match offs with
  | [] => Ok s
  | offnum :: offs => s ← heap_prune_record_unchanged_lp_normal p s offnum; record_unchanged p offs s
  end.

Definition record_unused (offs : list Z) s : PruneState := foldl (λ s offnum, heap_prune_record_unused s offnum true) s offs.

(** * One chain *)

(** The walk along a chain: the items, [ndeadchain], whether it was left by [goto
    process_chain], and the state. *)
Fixpoint chain_loop (fuel : nat) p (maxoff : Z) (rootlp : ItemIdData) (offnum priorXmax : Z)
    (chainitems : list Z) (ndeadchain : nat) s : result (list Z * nat * bool * PruneState) :=
  match fuel with
  | O => Err OutOfFuel
  | S fuel =>
      if offnum <? FirstOffsetNumber then Ok (chainitems, ndeadchain, false, s)
      else if maxoff <? offnum then Ok (chainitems, ndeadchain, false, s)
      else if bool_decide (offnum ∈ processed s) then Ok (chainitems, ndeadchain, false, s)
      else
        lp ← PageGetItemId p offnum;
        if ItemIdIsRedirected lp then
          if (0 <? length chainitems)%nat then Ok (chainitems, ndeadchain, false, s)
          else chain_loop fuel p maxoff rootlp (ItemIdGetRedirect rootlp) priorXmax (chainitems ++ [offnum]) ndeadchain s
        else
          t ← PageGetItem p lp;
          if TransactionIdIsValid priorXmax && negb (HeapTupleHeaderGetXmin t =? priorXmax)
          then Ok (chainitems, ndeadchain, false, s)
          else
            let chainitems := chainitems ++ [offnum] in
            let next ndeadchain s :=
              if negb (HeapTupleIsHotUpdated t) then Ok (chainitems, ndeadchain, true, s)
              else chain_loop fuel p maxoff rootlp (ItemPointerGetOffsetNumber (t_ctid t)) (GetUpdateXid t) chainitems ndeadchain s in
            match htsv s !! offnum with
            | Some HEAPTUPLE_DEAD => next (length chainitems) (advance_horizon t s)
            | Some HEAPTUPLE_RECENTLY_DEAD => next ndeadchain s
            | Some HEAPTUPLE_DELETE_IN_PROGRESS | Some HEAPTUPLE_LIVE | Some HEAPTUPLE_INSERT_IN_PROGRESS =>
                Ok (chainitems, ndeadchain, true, s)
            | None => Err (Elog "unexpected HeapTupleSatisfiesVacuum result")
            end
  end.

Definition heap_prune_chain p (maxoff rootoffnum : Z) s : result PruneState :=
  rootlp ← PageGetItemId p rootoffnum;
  r ← chain_loop (Z.to_nat maxoff + 2) p maxoff rootlp rootoffnum InvalidTransactionId [] 0 s;
  let '(chainitems, ndeadchain, jumped, s) := r in
  if negb jumped && ItemIdIsRedirected rootlp && (length chainitems <? 2)%nat
  then Ok (heap_prune_record_dead_or_unused s rootoffnum false)
  else if (ndeadchain =? 0)%nat then
    if ItemIdIsRedirected rootlp
    then record_unchanged p (drop 1 chainitems) (heap_prune_record_unchanged_lp_redirect s rootoffnum)
    else record_unchanged p chainitems s
  else if (ndeadchain =? length chainitems)%nat then
    let s := heap_prune_record_dead_or_unused s rootoffnum (ItemIdIsNormal rootlp) in
    Ok (record_unused (drop 1 chainitems) s)
  else
    to ← some_or "chainitems" (chainitems !! ndeadchain);
    let s := heap_prune_record_redirect s rootoffnum to (ItemIdIsNormal rootlp) in
    let s := record_unused (drop 1 (take ndeadchain chainitems)) s in
    record_unchanged p (drop ndeadchain chainitems) s.

(** * The page *)

(** The first loop: statuses, and the queues of roots and heap-only tuples. *)
Definition scan_item (cutoffs : option Z) (blockno : Z) p s (offnum : Z) : result PruneState :=
  itemid ← PageGetItemId p offnum;
  if negb (ItemIdIsUsed itemid) then Ok (heap_prune_record_unchanged_lp_unused s offnum)
  else if ItemIdIsDead itemid then
    Ok (if mark_unused_now s then heap_prune_record_unused s offnum false else heap_prune_record_unchanged_lp_dead s offnum)
  else if ItemIdIsRedirected itemid then Ok (set_queues (root_items s ++ [offnum]) (heaponly_items s) s)
  else
    t ← PageGetItem p itemid;
    let s := set_htsv offnum (heap_prune_satisfies_vacuum cutoffs (ItemPointerSet blockno offnum) t) s in
    Ok (if negb (HeapTupleIsHeapOnly t) then set_queues (root_items s ++ [offnum]) (heaponly_items s) s
        else set_queues (root_items s) (heaponly_items s ++ [offnum]) s).

Definition prune_root p (maxoff : Z) s (offnum : Z) : result PruneState :=
  if bool_decide (offnum ∈ processed s) then Ok s else heap_prune_chain p maxoff offnum s.

Definition prune_heaponly p s (offnum : Z) : result PruneState :=
  if bool_decide (offnum ∈ processed s) then Ok s
  else if bool_decide (htsv s !! offnum = Some HEAPTUPLE_DEAD) then
    itemid ← PageGetItemId p offnum;
    t ← PageGetItem p itemid;
    if negb (HeapTupleIsHotUpdated t) then Ok (heap_prune_record_unused (advance_horizon t s) offnum true)
    else Err (Elog "dead heap-only tuple is not linked to from any HOT chain")
  else heap_prune_record_unchanged_lp_normal p s offnum.

(** The offsets from [maxoff] down to the first. *)
Definition offsets_down (maxoff : Z) : list Z := map (λ i, maxoff - Z.of_nat i) (seq 0 (Z.to_nat maxoff)).

(** The decisions for a page, before it is changed. *)
Definition prune_plan (cutoffs : option Z) (mark_unused : bool) (blockno : Z) p : result PruneState :=
  let s := mkPruneState mark_unused InvalidTransactionId InvalidTransactionId [] [] [] [] [] ∅ ∅ 0 0 0 false [] in
  let maxoff := PageGetMaxOffsetNumber p in
  s ← fold_result (scan_item cutoffs blockno p) s (offsets_down maxoff);
  s ← fold_result (prune_root p maxoff) s (rev (root_items s));
  fold_result (prune_heaponly p) s (rev (heaponly_items s)).

Definition set_line p (offnum : Z) (lp : ItemIdData) : result (Page Tuple Sp) :=
  a ← PageGetItemId p offnum;
  Ok {| pd_flags := pd_flags p; pd_lower := pd_lower p; pd_upper := pd_upper p; pd_special := pd_special p;
        pd_pagesize_version := pd_pagesize_version p; pd_linp := <[Z.to_nat (offnum - 1) := lp]> (pd_linp p);
        pd_mem := pd_mem p; pd_sp := pd_sp p |}.

Fixpoint set_lines p (l : list (Z * ItemIdData)) : result (Page Tuple Sp) :=
  match l with
  | [] => Ok p
  | (offnum, lp) :: l => p ← set_line p offnum lp; set_lines p l
  end.

Definition heap_page_prune_execute p (lp_truncate_only : bool) (redirected : list (Z * Z)) (nowdead nowunused : list Z)
  : result (Page Tuple Sp) :=
  p ← set_lines p (map (λ r, (r.1, ItemIdSetRedirect r.2)) redirected);
  p ← set_lines p (map (λ off, (off, ItemIdSetDead)) nowdead);
  p ← set_lines p (map (λ off, (off, ItemIdSetUnused)) nowunused);
  if lp_truncate_only then Ok (PageTruncateLinePointerArray p) else PageRepairFragmentation p.

(** A heap page in a buffer: with the hint [pd_prune_xid] of its header. *)
Record HeapBuffer : Type := mkHeapBuffer { hb_page : Page Tuple Sp; pd_prune_xid : Z }.

Definition nonempty {X} (l : list X) : bool := match l with [] => false | _ => true end.

(** Without HEAP_PAGE_PRUNE_FREEZE; the state has the counts for [presult] and the log
    record. *)
Definition heap_page_prune_and_freeze (cutoffs : option Z) (mark_unused : bool) (blockno : Z) (buffer : HeapBuffer)
  : result (HeapBuffer * PruneState) :=
  let page := hb_page buffer in
  prstate ← prune_plan cutoffs mark_unused blockno page;
  let do_prune := nonempty (redirected prstate) || nonempty (nowdead prstate) || nonempty (nowunused prstate) in
  let do_hint := negb (pd_prune_xid buffer =? new_prune_xid prstate) || PageIsFull page in
  let buffer := if do_hint then mkHeapBuffer (PageClearFull page) (new_prune_xid prstate) else buffer in
  if do_prune then
    page ← heap_page_prune_execute (hb_page buffer) false (redirected prstate) (nowdead prstate) (nowunused prstate);
    Ok (mkHeapBuffer page (pd_prune_xid buffer), prstate)
  else Ok (buffer, prstate).

(** [minfree] is the free space the fill factor aims at; [cleanup_lock] is whether the
    buffer is locked for cleanup at once. *)
Definition heap_page_prune_opt (RecoveryInProgress cleanup_lock : bool) (minfree blockno : Z) (buffer : HeapBuffer)
  : result HeapBuffer :=
  let page := hb_page buffer in
  if RecoveryInProgress then Ok buffer
  else if negb (TransactionIdIsValid (pd_prune_xid buffer)) then Ok buffer
  else if negb (GlobalVisTestIsRemovableXid (pd_prune_xid buffer)) then Ok buffer
  else
    let minfree := Z.max minfree (BLCKSZ / 10) in
    if PageIsFull page || (PageGetHeapFreeSpace page <? minfree) then
      if negb cleanup_lock then Ok buffer
      else
        r ← heap_page_prune_and_freeze None false blockno buffer;
        Ok r.1
    else Ok buffer.

End prune.
