(* ===== verification/Combocid.v ===== *)
(** combocid.c: the command ids of row versions that one transaction both inserted and deleted.
    The header has room for one command id; a combo command id stands for the pair of
    inserting and deleting command and is resolved through an array private to the backend. *)

From S2P Require Import Prelude Xid Bufpage Itup Compact PageOps HeapPage HotChain HeapPrune.

Definition CCID_ARRAY_SIZE : Z := 100.
Definition HEAP_COMBOCID : Z := 0x0020.
Definition MaxAllocSize : Z := 0x3fffffff.
Definition sizeof_ComboCidKeyData : Z := 8.

(** [comboHash] is [None] for a null pointer; [comboCids] holds the used elements of the array. *)
Record ComboState : Type := mkCombo {
  comboHash : option (gmap (Z * Z) Z);
  comboCids : list (Z * Z);
  sizeComboCids : Z;
}.
Implicit Types (s : ComboState).

Definition usedComboCids s : Z := zlen (comboCids s).
Definition no_combos : ComboState := mkCombo None [] 0.

(** * Internal routines *)

Definition GetComboCommandId (cmin cmax : Z) s : result (Z * ComboState) :=
  let s := match comboHash s with None => mkCombo (Some ∅) [] CCID_ARRAY_SIZE | Some _ => s end in
  let hash := default ∅ (comboHash s) in
  s ← (if sizeComboCids s <=? usedComboCids s then
         let newsize := int32 (sizeComboCids s * 2) in
         if MaxAllocSize <? sizeof_ComboCidKeyData * newsize then Err (Elog "invalid memory alloc request size %zu")
         else Ok (mkCombo (comboHash s) (comboCids s) newsize)
       else Ok s);
  match hash !! (cmin, cmax) with
  | Some combocid => Ok (combocid, s)
  | None =>
      let combocid := usedComboCids s in
      Ok (combocid, mkCombo (Some (<[(cmin, cmax) := combocid]> hash)) (comboCids s ++ [(cmin, cmax)]) (sizeComboCids s))
  end.

Definition GetRealCmin s (combocid : Z) : result Z :=
  r ← some_or "combo command id" (comboCids s !! Z.to_nat combocid); Ok r.1.
Definition GetRealCmax s (combocid : Z) : result Z :=
  r ← some_or "combo command id" (comboCids s !! Z.to_nat combocid); Ok r.2.

(** * External API *)

Section api.
Context {A : Type}.
Abbreviation Tuple := (@HeapTupleHeaderData A).
Implicit Types (tup : Tuple).

(** The field [t_field3] is a union: [t_xvac] and the command id are the same four bytes. *)
Definition HeapTupleHeaderGetRawCommandId tup : Z := t_xvac tup.
Definition set_cid (cid infomask : Z) tup : Tuple :=
  mkHeapTuple (t_xmin tup) (t_xmax tup) cid (t_ctid tup) (t_infomask2 tup) infomask (t_values tup).
Definition HeapTupleHeaderSetCmin (cid : Z) tup : Tuple := set_cid cid (Z.ldiff (t_infomask tup) HEAP_COMBOCID) tup.
Definition HeapTupleHeaderSetCmax (cid : Z) (iscombo : bool) tup : Tuple :=
  set_cid cid (if iscombo then Z.lor (t_infomask tup) HEAP_COMBOCID else Z.ldiff (t_infomask tup) HEAP_COMBOCID) tup.

Definition HeapTupleHeaderGetCmin s tup : result Z :=
  let cid := HeapTupleHeaderGetRawCommandId tup in
  if has_flag (t_infomask tup) HEAP_COMBOCID then GetRealCmin s cid else Ok cid.
Definition HeapTupleHeaderGetCmax s tup : result Z :=
  let cid := HeapTupleHeaderGetRawCommandId tup in
  if has_flag (t_infomask tup) HEAP_COMBOCID then GetRealCmax s cid else Ok cid.

(** [*cmax], [*iscombo] and the state of the backend. *)
Definition HeapTupleHeaderAdjustCmax (TransactionIdIsCurrentTransactionId : Z → bool) tup (cmax : Z) s : result (Z * bool * ComboState) :=
  if negb (HeapTupleHeaderXminCommitted tup) && TransactionIdIsCurrentTransactionId (t_xmin tup) then
    cmin ← HeapTupleHeaderGetCmin s tup;
    r ← GetComboCommandId cmin cmax s;
    Ok (r.1, true, r.2)
  else Ok (cmax, false, s).
End api.

Definition AtEOXact_ComboCid : ComboState := no_combos.

(** * Handing the state to parallel workers *)

(** The area is an array of 32-bit words: the count, then the pairs. *)
Definition EstimateComboCIDStateSpace s : Z := 4 + sizeof_ComboCidKeyData * usedComboCids s.

Definition SerializeComboCIDState (maxsize : Z) s : result (list Z) :=
  if maxsize <? 4 + sizeof_ComboCidKeyData * usedComboCids s then Err (Elog "not enough space to serialize ComboCID state")
  else Ok (usedComboCids s :: concat (map (λ p, [p.1; p.2]) (comboCids s))).

Fixpoint restore_loop (n : nat) (i : Z) (keydata : list Z) s : result ComboState :=
  match n with
  | O => Ok s
  | S n =>
      match keydata with
      | cmin :: cmax :: keydata =>
          r ← GetComboCommandId cmin cmax s;
          let '(cid, s) := r in
          if negb (cid =? i) then Err (Elog "unexpected command ID while restoring combo CIDs")
          else restore_loop n (i + 1) keydata s
      | _ => Err (Undefined "serialized combo CIDs")
      end
  end.

Definition RestoreComboCIDState (comboCIDstate : list Z) s : result ComboState :=
  match comboCIDstate with
  | num_elements :: keydata => restore_loop (Z.to_nat num_elements) 0 keydata s
  | [] => Err (Undefined "serialized combo CIDs")
  end.

(** * Invariant *)

(** The hash table inverts the array, and the array has room for what is in it. *)
Record combo_ok s : Prop := {
  co_hash : ∀ p i, default ∅ (comboHash s) !! p = Some i ↔ 0 ≤ i ∧ comboCids s !! Z.to_nat i = Some p;
  co_null : comboHash s = None → comboCids s = [];
  co_size : comboHash s ≠ None → usedComboCids s ≤ sizeComboCids s ∧ CCID_ARRAY_SIZE ≤ sizeComboCids s ∧ sizeof_ComboCidKeyData * sizeComboCids s ≤ MaxAllocSize;
}.

(** Room for one more command id, within the largest allocation. *)
Definition MAX_COMBOS : Z := MaxAllocSize / sizeof_ComboCidKeyData / 2.

Lemma no_combos_ok : combo_ok no_combos.
Proof. constructor; [|done|done]. intros p i. cbn. by rewrite lookup_empty; split; [|intros [_ ?]]. Qed.

Lemma fresh_combo_ok : combo_ok (mkCombo (Some ∅) [] CCID_ARRAY_SIZE).
Proof.
  constructor; [|done|intros _; vm_compute; split_and!; discriminate]. intros p i. cbn. by rewrite lookup_empty; split; [|intros [_ ?]].
Qed.

(** What a request for a combo command id gives. *)
Record issued (cmin cmax : Z) s cid s' : Prop := {
  is_ok : combo_ok s';
  is_pair : 0 ≤ cid ∧ comboCids s' !! Z.to_nat cid = Some (cmin, cmax);
  is_kept : comboCids s' = comboCids s ∨ (comboCids s' = comboCids s ++ [(cmin, cmax)] ∧ cid = usedComboCids s ∧ (cmin, cmax) ∉ comboCids s);
}.

Lemma combo_slot s : combo_ok s → ∀ p, default ∅ (comboHash s) !! p = None ↔ p ∉ comboCids s.
Proof.
  intros H p. split.
  - intros Hn [i Hi]%list_elem_of_lookup_1. assert (default ∅ (comboHash s) !! p = Some (Z.of_nat i)); [|congruence].
    apply (co_hash _ H). rewrite Nat2Z.id. split; [lia|done].
  - intros Hn. destruct (_ !! p) eqn:E; [|done]. apply (co_hash _ H) in E as [_ E]. by apply list_elem_of_lookup_2 in E.
Qed.

Lemma issue_new cmin cmax s size : combo_ok s → comboHash s ≠ None → default ∅ (comboHash s) !! (cmin, cmax) = None →
  usedComboCids s < size → CCID_ARRAY_SIZE ≤ size → sizeof_ComboCidKeyData * size ≤ MaxAllocSize →
  combo_ok (mkCombo (Some (<[(cmin, cmax) := usedComboCids s]> (default ∅ (comboHash s)))) (comboCids s ++ [(cmin, cmax)]) size).
Proof.
  intros H Hh Hn H1 H2 H3. pose proof (zlen_nonneg (comboCids s)). constructor.
  - intros p i. cbn [comboHash from_option id comboCids]. unfold usedComboCids in *. rewrite lookup_insert_Some, lookup_app_Some. split.
    + intros [[<- <-]|[Hne E]]; [split; [done|right]|].
      * unfold zlen. rewrite Nat2Z.id. split; [lia|]. by rewrite Nat.sub_diag.
      * apply (co_hash _ H) in E as [Hi E]. split; [done|by left].
    + intros [Hi [E|[Hl E]]].
      * right. split; [|by apply (co_hash _ H)]. intros <-. apply combo_slot in Hn; [|done]. by apply list_elem_of_lookup_2 in E.
      * left. apply list_lookup_singleton_Some in E as [E <-]. split; [done|]. unfold zlen. lia.
  - done.
  - intros _. unfold usedComboCids, zlen in *. cbn [comboCids sizeComboCids]. rewrite length_app. cbn [length]. lia.
Qed.

(** A request succeeds while the array can be doubled. *)
Lemma combo_issued cmin cmax s : combo_ok s → usedComboCids s < MAX_COMBOS →
  ∃ cid s', GetComboCommandId cmin cmax s = Ok (cid, s') ∧ issued cmin cmax s cid s'.
Proof.
  intros H Hm. unfold GetComboCommandId.
  set (s1 := match comboHash s with None => _ | Some _ => s end).
  assert (H1 : combo_ok s1 ∧ comboHash s1 ≠ None ∧ comboCids s1 = comboCids s).
  { unfold s1. destruct (comboHash s) eqn:E; [rewrite E; done|]. split_and!; [apply fresh_combo_ok|done|by rewrite (co_null _ H E)]. }
  clearbody s1. destruct H1 as (H1 & Hh & El). destruct (co_size _ H1 Hh) as (Hs1 & Hs2 & Hs3).
  assert (Eu : usedComboCids s1 = usedComboCids s) by (unfold usedComboCids; by rewrite El).
  match goal with |- context [mbind _ ?r] => assert (∃ size, r = Ok (mkCombo (comboHash s1) (comboCids s1) size) ∧
    usedComboCids s < size ∧ CCID_ARRAY_SIZE ≤ size ∧ sizeof_ComboCidKeyData * size ≤ MaxAllocSize) as (size & -> & B1 & B2 & B3) end.
  { unfold MAX_COMBOS, MaxAllocSize, sizeof_ComboCidKeyData, CCID_ARRAY_SIZE in *.
    destruct (Z.leb_spec (sizeComboCids s1) (usedComboCids s1)) as [L|L]; [|exists (sizeComboCids s1); destruct s1; cbn in *; split_and!; first [done|lia]].
    change (0x3fffffff / 8 / 2) with 67108863 in Hm. exists (sizeComboCids s1 * 2). rewrite int32_id by (unfold is_int32, PG_INT32_MIN, PG_INT32_MAX; lia).
    destruct (Z.ltb_spec 0x3fffffff (8 * (sizeComboCids s1 * 2))); [lia|]. split_and!; [done|lia..]. }
  cbn [mbind result_bind]. destruct (default ∅ (comboHash s1) !! (cmin, cmax)) as [cid|] eqn:E.
  - exists cid. eexists. split; [done|]. pose proof (proj1 (co_hash _ H1 _ _) E) as [Hc Hp]. constructor; cbn [comboCids]; [|done|by left].
    constructor; cbn; [apply H1|done|]. intros _. unfold usedComboCids in *. cbn [comboCids]. lia.
  - do 2 eexists. split; [done|]. unfold usedComboCids. cbn [comboCids comboHash sizeComboCids]. fold (usedComboCids s1). constructor; cbn [comboCids].
    + apply issue_new; first [done|lia].
    + unfold usedComboCids, zlen. rewrite Nat2Z.id. split; [lia|]. by rewrite list_lookup_middle.
    + right. rewrite El. split_and!; [done|done|]. rewrite <- El. by apply combo_slot.
Qed.

(** Ids issued before keep their meaning. *)
Lemma issued_keeps cmin cmax s cid s' i p : issued cmin cmax s cid s' → comboCids s !! i = Some p → comboCids s' !! i = Some p.
Proof. intros [_ _ [-> | (-> & _ & _)]] Hi; [done|]. by apply lookup_app_l_Some. Qed.

(** * Reading command ids *)

Section reading.
Context {A : Type}.
Abbreviation Tuple := (@HeapTupleHeaderData A).

Lemma later_cids cmin cmax s cid s' (t : Tuple) c : issued cmin cmax s cid s' →
  (HeapTupleHeaderGetCmin s t = Ok c → HeapTupleHeaderGetCmin s' t = Ok c) ∧
  (HeapTupleHeaderGetCmax s t = Ok c → HeapTupleHeaderGetCmax s' t = Ok c).
Proof.
  intros Hi. unfold HeapTupleHeaderGetCmin, HeapTupleHeaderGetCmax, GetRealCmin, GetRealCmax. destruct (has_flag _ _); [|done].
  destruct (comboCids s !! _) as [p|] eqn:E; [|done]. rewrite (issued_keeps _ _ _ _ _ _ _ Hi E). done.
Qed.
End reading.

Lemma combo_nodup s : combo_ok s → NoDup (comboCids s).
Proof.
  intros H. apply NoDup_alt. intros i j p Hi Hj.
  assert (HS : ∀ k, comboCids s !! k = Some p → default ∅ (comboHash s) !! p = Some (Z.of_nat k)).
  { intros k Hk. apply (co_hash _ H). rewrite Nat2Z.id. split; [lia|done]. }
  apply HS in Hi, Hj. rewrite Hi in Hj. injection Hj. lia.
Qed.

Lemma restore_pairs l s : combo_ok s → NoDup (comboCids s ++ l) → usedComboCids s + zlen l ≤ MAX_COMBOS →
  ∃ s', restore_loop (length l) (usedComboCids s) (concat (map (λ p, [p.1; p.2]) l)) s = Ok s' ∧ combo_ok s' ∧ comboCids s' = comboCids s ++ l.
Proof.
  revert s. induction l as [|[cmin cmax] l IH]; intros s H Hd Hm; [exists s; by rewrite app_nil_r|].
  cbn [length restore_loop map concat app fst snd]. unfold zlen in Hm. cbn [length] in Hm.
  destruct (combo_issued cmin cmax s H) as (cid & s' & -> & [Ho Hp Hk]); [lia|]. rsimpl.
  assert (Hn : (cmin, cmax) ∉ comboCids s). { apply NoDup_app in Hd as (_ & Hd & _). intros Hin. apply (Hd _ Hin). left. }
  destruct Hk as [E|(E & -> & _)]; [rewrite E in Hp; destruct Hp as [_ Hp%list_elem_of_lookup_2]; done|]. rewrite Z.eqb_refl. cbn [negb].
  assert (Eu : usedComboCids s' = usedComboCids s + 1) by (unfold usedComboCids, zlen; rewrite E, length_app; cbn; lia).
  rewrite <- Eu. destruct (IH s' Ho) as (s2 & -> & H2 & E2); [by rewrite E, <- app_assoc|unfold zlen in *; lia|].
  exists s2. split_and!; [done|done|]. by rewrite E2, E, <- app_assoc.
Qed.

(** * Properties *)

(** C36. A row version that the transaction inserted and now deletes keeps both command ids:
    after the adjusted command id is stored in its header, the deleting command reads back,
    the inserting command is what it was, and so are the commands of all other versions;
    this holds for up to 67 million pairs, when the next doubling of the array fails. *)
Theorem deletion_keeps_cids {A} current (tup : @HeapTupleHeaderData A) cmax cmin s :
  combo_ok s → usedComboCids s < MAX_COMBOS → HeapTupleHeaderGetCmin s tup = Ok cmin →
  ∃ cid iscombo s', HeapTupleHeaderAdjustCmax current tup cmax s = Ok (cid, iscombo, s') ∧ combo_ok s' ∧
    HeapTupleHeaderGetCmax s' (HeapTupleHeaderSetCmax cid iscombo tup) = Ok cmax ∧
    (negb (HeapTupleHeaderXminCommitted tup) && current (t_xmin tup) = true →
       HeapTupleHeaderGetCmin s' (HeapTupleHeaderSetCmax cid iscombo tup) = Ok cmin) ∧
    (∀ (t : @HeapTupleHeaderData A) c, (HeapTupleHeaderGetCmin s t = Ok c → HeapTupleHeaderGetCmin s' t = Ok c) ∧
       (HeapTupleHeaderGetCmax s t = Ok c → HeapTupleHeaderGetCmax s' t = Ok c)).
Proof.
  intros H Hm Hc. unfold HeapTupleHeaderAdjustCmax. destruct (negb _ && _) eqn:E.
  - rewrite Hc. rsimpl. destruct (combo_issued cmin cmax s H Hm) as (cid & s' & -> & Hi). rsimpl.
    exists cid, true, s'. pose proof (is_pair _ _ _ _ _ Hi) as [_ Hp].
    unfold HeapTupleHeaderGetCmin at 1, HeapTupleHeaderGetCmax at 1, HeapTupleHeaderSetCmax, HeapTupleHeaderGetRawCommandId, GetRealCmin, GetRealCmax, set_cid.
    cbn [t_infomask t_xvac]. rewrite has_flag_lor, orb_true_r, Hp. split_and!; [done|apply Hi|done|done|]. intros t c. by eapply later_cids.
  - exists cmax, false, s. unfold HeapTupleHeaderGetCmax at 1, HeapTupleHeaderSetCmax, HeapTupleHeaderGetRawCommandId, set_cid.
    cbn [t_infomask t_xvac]. rewrite has_flag_ldiff_self. done.
Qed.

(** The combo command ids of a transaction reach its parallel workers: an area of the
    estimated size is large enough, and a worker that restores it resolves every combo command
    id as the leader does. *)
Theorem combos_roundtrip s maxsize : combo_ok s → usedComboCids s ≤ MAX_COMBOS → EstimateComboCIDStateSpace s ≤ maxsize →
  ∃ words s', SerializeComboCIDState maxsize s = Ok words ∧ RestoreComboCIDState words no_combos = Ok s' ∧ combo_ok s' ∧
    ∀ cid, GetRealCmin s' cid = GetRealCmin s cid ∧ GetRealCmax s' cid = GetRealCmax s cid.
Proof.
  intros H Hm He. unfold SerializeComboCIDState, EstimateComboCIDStateSpace in *.
  destruct (Z.ltb_spec maxsize (4 + sizeof_ComboCidKeyData * usedComboCids s)); [lia|].
  destruct (restore_pairs (comboCids s) no_combos no_combos_ok) as (s' & E & H' & El); [by apply combo_nodup|exact Hm|].
  eexists _, s'. split; [done|]. cbn [RestoreComboCIDState]. unfold usedComboCids at 1, zlen. rewrite Nat2Z.id. split_and!; [done|done|].
  intros cid. unfold GetRealCmin, GetRealCmax. by rewrite El.
Qed.

(** * Witnesses *)

Definition own_tuple : @HeapTupleHeaderData Z := mkHeapTuple 700 0 5 (ItemPointerSet 0 1) 0 0x0800 0.

Lemma deletion_keeps_cids_witness :
  ∃ cid iscombo s', HeapTupleHeaderAdjustCmax (λ x, x =? 700) own_tuple 9 no_combos = Ok (cid, iscombo, s') ∧ combo_ok s' ∧
    HeapTupleHeaderGetCmax s' (HeapTupleHeaderSetCmax cid iscombo own_tuple) = Ok 9 ∧
    (true = true → HeapTupleHeaderGetCmin s' (HeapTupleHeaderSetCmax cid iscombo own_tuple) = Ok 5) ∧
    (∀ (t : @HeapTupleHeaderData Z) c, (HeapTupleHeaderGetCmin no_combos t = Ok c → HeapTupleHeaderGetCmin s' t = Ok c) ∧
       (HeapTupleHeaderGetCmax no_combos t = Ok c → HeapTupleHeaderGetCmax s' t = Ok c)).
Proof. exact (deletion_keeps_cids (λ x, x =? 700) own_tuple 9 5 no_combos no_combos_ok eq_refl eq_refl). Defined.

Definition one_combo : ComboState := mkCombo (Some (<[(5, 9) := 0]> ∅)) [(5, 9)] 100.

Lemma one_combo_ok : combo_ok one_combo.
Proof. by apply (issue_new 5 9 _ 100 fresh_combo_ok). Qed.

Lemma combos_roundtrip_witness :
  ∃ words s', SerializeComboCIDState 12 one_combo = Ok words ∧ RestoreComboCIDState words no_combos = Ok s' ∧ combo_ok s' ∧
    ∀ cid, GetRealCmin s' cid = GetRealCmin one_combo cid ∧ GetRealCmax s' cid = GetRealCmax one_combo cid.
Proof. apply (combos_roundtrip one_combo 12 one_combo_ok); vm_compute; discriminate. Defined.
