(* ===== verification/Multixact.v ===== *)
(** multixact.c: MultiXactIds, which stand for several transactions that lock or update one row
    version.  An id has an entry in the offsets area that says where its members start in the
    members area; both areas are pages of words, and both kinds of number wrap around.  A
    backend keeps the MultiXactIds it has seen in a cache. *)

From S2P Require Import Prelude Xid Bufpage PageOps Clog ClogPages Combocid.

(** * Ids and statuses *)

Definition InvalidMultiXactId : Z := 0.
Definition FirstMultiXactId : Z := 1.
Definition MultiXactIdIsValid (multi : Z) : bool := negb (multi =? InvalidMultiXactId).
Definition MultiXactIdPrecedes (multi1 multi2 : Z) : bool := int32 (multi1 - multi2) <? 0.

Definition MultiXactStatusForKeyShare : Z := 0.
Definition MultiXactStatusForShare : Z := 1.
Definition MultiXactStatusForNoKeyUpdate : Z := 2.
Definition MultiXactStatusForUpdate : Z := 3.
Definition MultiXactStatusNoKeyUpdate : Z := 4.
Definition MultiXactStatusUpdate : Z := 5.
Definition MultiXactIdPrecedesOrEquals (multi1 multi2 : Z) : bool := int32 (multi1 - multi2) <=? 0.
Definition MultiXactOffsetPrecedes (offset1 offset2 : Z) : bool := int32 (offset1 - offset2) <? 0.
Definition MaxMultiXactId : Z := 0xFFFFFFFF.
Definition MaxMultiXactOffset : Z := 0xFFFFFFFF.

(** * Layout of the two areas *)

Definition sizeof_word : Z := 4.
Definition MULTIXACT_OFFSETS_PER_PAGE : Z := BLCKSZ / sizeof_word.
Definition MultiXactIdToOffsetPage (multi : Z) : Z := multi / MULTIXACT_OFFSETS_PER_PAGE.
Definition MultiXactIdToOffsetEntry (multi : Z) : Z := multi mod MULTIXACT_OFFSETS_PER_PAGE.

Definition MXACT_MEMBER_BITS_PER_XACT : Z := 8.
Definition MXACT_MEMBER_FLAGS_PER_BYTE : Z := 1.
Definition MXACT_MEMBER_XACT_BITMASK : Z := Z.shiftl 1 MXACT_MEMBER_BITS_PER_XACT - 1.
Definition MULTIXACT_FLAGBYTES_PER_GROUP : Z := 4.
Definition MULTIXACT_MEMBERS_PER_MEMBERGROUP : Z := MULTIXACT_FLAGBYTES_PER_GROUP * MXACT_MEMBER_FLAGS_PER_BYTE.
Definition MULTIXACT_MEMBERGROUP_SIZE : Z := sizeof_word * MULTIXACT_MEMBERS_PER_MEMBERGROUP + MULTIXACT_FLAGBYTES_PER_GROUP.
Definition MULTIXACT_MEMBERGROUPS_PER_PAGE : Z := BLCKSZ / MULTIXACT_MEMBERGROUP_SIZE.
Definition MULTIXACT_MEMBERS_PER_PAGE : Z := MULTIXACT_MEMBERGROUPS_PER_PAGE * MULTIXACT_MEMBERS_PER_MEMBERGROUP.
Definition MAX_MEMBERS_IN_LAST_MEMBERS_PAGE : Z := 0xFFFFFFFF mod MULTIXACT_MEMBERS_PER_PAGE + 1.

Definition MXOffsetToMemberPage (offset : Z) : Z := offset / MULTIXACT_MEMBERS_PER_PAGE.
Definition MXOffsetToFlagsOffset (offset : Z) : Z :=
  let group := offset / MULTIXACT_MEMBERS_PER_MEMBERGROUP in
  let grouponpg := group mod MULTIXACT_MEMBERGROUPS_PER_PAGE in
  grouponpg * MULTIXACT_MEMBERGROUP_SIZE.
Definition MXOffsetToFlagsBitShift (offset : Z) : Z := offset mod MULTIXACT_MEMBERS_PER_MEMBERGROUP * MXACT_MEMBER_BITS_PER_XACT.
Definition MXOffsetToMemberOffset (offset : Z) : Z :=
  MXOffsetToFlagsOffset offset + MULTIXACT_FLAGBYTES_PER_GROUP + offset mod MULTIXACT_MEMBERS_PER_MEMBERGROUP * sizeof_word.

(** * State *)

(** The shared state, without the fields that only appear in messages, and the pages of the two
    areas as lists of words. *)
Record MultiXactState : Type := mkMultiXactState {
  nextMXact : Z;
  nextOffset : Z;
  oldestMultiXactId : Z;
  oldestOffset : Z;
  oldestOffsetKnown : bool;
  multiVacLimit : Z;
  multiStopLimit : Z;
  offsetStopLimit : Z;
  offset_pages : gmap Z (list Z);
  member_pages : gmap Z (list Z);
}.
Implicit Types (s : MultiXactState) (ms : list (Z * Z)).

Definition set_next (multi offset : Z) s : MultiXactState :=
  mkMultiXactState multi offset (oldestMultiXactId s) (oldestOffset s) (oldestOffsetKnown s) (multiVacLimit s) (multiStopLimit s)
    (offsetStopLimit s) (offset_pages s) (member_pages s).
Definition set_offset_pages (pages : gmap Z (list Z)) s : MultiXactState :=
  mkMultiXactState (nextMXact s) (nextOffset s) (oldestMultiXactId s) (oldestOffset s) (oldestOffsetKnown s) (multiVacLimit s)
    (multiStopLimit s) (offsetStopLimit s) pages (member_pages s).
Definition set_member_pages (pages : gmap Z (list Z)) s : MultiXactState :=
  mkMultiXactState (nextMXact s) (nextOffset s) (oldestMultiXactId s) (oldestOffset s) (oldestOffsetKnown s) (multiVacLimit s)
    (multiStopLimit s) (offsetStopLimit s) (offset_pages s) pages.

(** Words of a page; outside it is not defined. *)
Definition get_word (pages : gmap Z (list Z)) (pageno index : Z) : result Z :=
  page ← SimpleLruReadPage pages pageno;
  some_or "word of a page" (page !! Z.to_nat index).
Definition put_word (pages : gmap Z (list Z)) (pageno index w : Z) : result (gmap Z (list Z)) :=
  page ← SimpleLruReadPage pages pageno;
  if (Z.to_nat index <? length page)%nat then Ok (<[pageno := <[Z.to_nat index := w]> page]> pages) else Err (Undefined "word of a page").

Definition zero_words : list Z := replicate (Z.to_nat (BLCKSZ / sizeof_word)) 0.
Definition ZeroMultiXactOffsetPage (pageno : Z) s : MultiXactState := set_offset_pages (<[pageno := zero_words]> (offset_pages s)) s.
Definition ZeroMultiXactMemberPage (pageno : Z) s : MultiXactState := set_member_pages (<[pageno := zero_words]> (member_pages s)) s.

(** The state of an empty cluster. *)
Definition BootStrapMultiXact s : MultiXactState := ZeroMultiXactMemberPage 0 (ZeroMultiXactOffsetPage 0 s).

(** In a counter the value after the last id may not be skipped yet. *)
Definition valid_next (multi : Z) : Z := if multi <? FirstMultiXactId then FirstMultiXactId else multi.
Definition ReadNextMultiXactId s : Z := valid_next (nextMXact s).
Definition ReadMultiXactIdRange s : Z * Z := (valid_next (oldestMultiXactId s), valid_next (nextMXact s)).

(** Outside a binary upgrade. *)
Definition MultiXactSetNextMXact (nextMulti nextMultiOffset : Z) s : MultiXactState := set_next nextMulti nextMultiOffset s.
Definition MultiXactAdvanceNextMXact (minMulti minMultiOffset : Z) s : MultiXactState :=
  set_next (if MultiXactIdPrecedes (nextMXact s) minMulti then minMulti else nextMXact s)
    (if MultiXactOffsetPrecedes (nextOffset s) minMultiOffset then minMultiOffset else nextOffset s) s.

(** * Limits *)

Definition MULTIXACT_MEMBER_SAFE_THRESHOLD : Z := MaxMultiXactOffset / 2.

(** The offset of an id, if its page exists. *)
Definition find_multixact_start (multi : Z) s : result (option Z) :=
  let pageno := MultiXactIdToOffsetPage multi in
  match offset_pages s !! pageno with
  | None => Ok None
  | Some _ => offset ← get_word (offset_pages s) pageno (MultiXactIdToOffsetEntry multi); Ok (Some offset)
  end.

(** Whether an emergency vacuum is needed, and the new limits. *)
Definition SetOffsetVacuumLimit s : result (bool * MultiXactState) :=
  start ← (if oldestMultiXactId s =? nextMXact s then Ok (Some (nextOffset s)) else find_multixact_start (oldestMultiXactId s) s);
  let segment := MULTIXACT_MEMBERS_PER_PAGE * SLRU_PAGES_PER_SEGMENT in
  let '(offset, known, stop) :=
    match start with
    | Some offset => (offset, true, uint32 (uint32 (offset - offset mod segment) - segment))
    | None => if oldestOffsetKnown s then (oldestOffset s, true, offsetStopLimit s) else (0, false, 0)
    end in
  Ok (negb known || (MULTIXACT_MEMBER_SAFE_THRESHOLD <? uint32 (nextOffset s - offset)),
      mkMultiXactState (nextMXact s) (nextOffset s) (oldestMultiXactId s) offset known (multiVacLimit s) (multiStopLimit s) stop (offset_pages s) (member_pages s)).

(** The limits of ids; the warning limit only appears in messages. *)
Definition SetMultiXactIdLimit (finishedStartup : bool) (autovacuum_multixact_freeze_max_age oldest_datminmxid : Z) s : result MultiXactState :=
  let multiWrapLimit := uint32 (oldest_datminmxid + Z.shiftr MaxMultiXactId 1) in
  let multiWrapLimit := if multiWrapLimit <? FirstMultiXactId then multiWrapLimit + FirstMultiXactId else multiWrapLimit in
  let multiStopLimit := uint32 (multiWrapLimit - 3000000) in
  let multiStopLimit := if multiStopLimit <? FirstMultiXactId then uint32 (multiStopLimit - FirstMultiXactId) else multiStopLimit in
  let multiVacLimit := uint32 (oldest_datminmxid + autovacuum_multixact_freeze_max_age) in
  let multiVacLimit := if multiVacLimit <? FirstMultiXactId then multiVacLimit + FirstMultiXactId else multiVacLimit in
  let s := mkMultiXactState (nextMXact s) (nextOffset s) oldest_datminmxid (oldestOffset s) (oldestOffsetKnown s) multiVacLimit multiStopLimit
             (offsetStopLimit s) (offset_pages s) (member_pages s) in
  if negb finishedStartup then Ok s else r ← SetOffsetVacuumLimit s; Ok r.2.

(** * Growth *)

Definition ExtendMultiXactOffset (multi : Z) s : MultiXactState :=
  if negb (MultiXactIdToOffsetEntry multi =? 0) && negb (multi =? FirstMultiXactId) then s
  else ZeroMultiXactOffsetPage (MultiXactIdToOffsetPage multi) s.

(** One round of the loop: the page, if it starts here, and the distance to the next one. *)
Definition extend_round (offset : Z) s : MultiXactState :=
  if (MXOffsetToFlagsOffset offset =? 0) && (MXOffsetToFlagsBitShift offset =? 0)
  then ZeroMultiXactMemberPage (MXOffsetToMemberPage offset) s else s.
Definition extend_difference (offset : Z) : Z :=
  if uint32 (offset + MAX_MEMBERS_IN_LAST_MEMBERS_PAGE) <? offset
  then uint32 (MaxMultiXactOffset - offset + 1)
  else MULTIXACT_MEMBERS_PER_PAGE - offset mod MULTIXACT_MEMBERS_PER_PAGE.

Fixpoint extend_loop (fuel : nat) (offset nmembers : Z) s : result MultiXactState :=
  match fuel with
  | O => Err OutOfFuel
  | S fuel =>
      if 0 <? nmembers then
        extend_loop fuel (uint32 (offset + extend_difference offset)) (int32 (nmembers - extend_difference offset)) (extend_round offset s)
      else Ok s
  end.

Definition ExtendMultiXactMember (offset nmembers : Z) s : result MultiXactState := extend_loop (Z.to_nat nmembers + 1) offset nmembers s.

(** * Assigning an id *)

Definition MultiXactOffsetWouldWrap (boundary start distance : Z) : bool :=
  let finish := uint32 (start + distance) in
  let finish := if finish <? start then uint32 (finish + 1) else finish in
  if start <? boundary then (boundary <=? finish) || (finish <? start)
  else (boundary <=? finish) && (finish <? start).

Section assign.
Context (RecoveryInProgress IsUnderPostmaster : bool).

(** The id and the offset of its members.  Signals and warnings are left out; while they are
    sent the lock is released, but only this backend acts here. *)
Definition GetNewMultiXactId (nmembers : Z) s : result (Z * Z * MultiXactState) :=
  if RecoveryInProgress then Err (Elog "cannot assign MultiXactIds during recovery")
  else
    let s := if nextMXact s <? FirstMultiXactId then set_next FirstMultiXactId (nextOffset s) s else s in
    let result := nextMXact s in
    if negb (MultiXactIdPrecedes result (multiVacLimit s)) && (IsUnderPostmaster && negb (MultiXactIdPrecedes result (multiStopLimit s)))
    then Err (Elog "database is not accepting commands that assign new MultiXactIds to avoid wraparound data loss in database %s")
    else
      let s := ExtendMultiXactOffset (uint32 (result + 1)) s in
      let next := nextOffset s in
      let '(offset, nmembers) := if next =? 0 then (1, nmembers + 1) else (next, nmembers) in
      if oldestOffsetKnown s && MultiXactOffsetWouldWrap (offsetStopLimit s) next nmembers
      then Err (Elog "multixact members limit exceeded")
      else
        s ← ExtendMultiXactMember next nmembers s;
        Ok (result, offset, set_next (uint32 (nextMXact s + 1)) (uint32 (nextOffset s + nmembers)) s).

(** * Writing and reading members *)

Definition write_member (offset : Z) (member : Z * Z) s : result MultiXactState :=
  let pageno := MXOffsetToMemberPage offset in
  let memberoff := MXOffsetToMemberOffset offset in
  let flagsoff := MXOffsetToFlagsOffset offset in
  let bshift := MXOffsetToFlagsBitShift offset in
  pages ← put_word (member_pages s) pageno (memberoff / sizeof_word) member.1;
  flagsval ← get_word pages pageno (flagsoff / sizeof_word);
  let flagsval := Z.land flagsval (Z.lnot (Z.shiftl (Z.shiftl 1 MXACT_MEMBER_BITS_PER_XACT - 1) bshift)) in
  let flagsval := Z.lor flagsval (Z.shiftl member.2 bshift) in
  pages ← put_word pages pageno (flagsoff / sizeof_word) flagsval;
  Ok (set_member_pages pages s).

Fixpoint write_members (offset : Z) ms s : result MultiXactState :=
  match ms with
  | [] => Ok s
  | m :: ms => s ← write_member offset m s; write_members (uint32 (offset + 1)) ms s
  end.

(** Outside recovery. *)
Definition RecordNewMultiXact (multi offset : Z) ms s : result MultiXactState :=
  let pageno := MultiXactIdToOffsetPage multi in
  let entryno := MultiXactIdToOffsetEntry multi in
  let next := uint32 (multi + 1) in
  let next := if next <? FirstMultiXactId then FirstMultiXactId else next in
  let next_pageno := MultiXactIdToOffsetPage next in
  let next_entryno := if next_pageno =? pageno then entryno + 1 else MultiXactIdToOffsetEntry next in
  current ← get_word (offset_pages s) pageno entryno;
  pages ← (if negb (current =? offset) then put_word (offset_pages s) pageno entryno offset else Ok (offset_pages s));
  let next_offset := uint32 (offset + zlen ms) in
  let next_offset := if next_offset =? 0 then 1 else next_offset in
  current ← get_word pages next_pageno next_entryno;
  pages ← (if negb (current =? next_offset) then put_word pages next_pageno next_entryno next_offset else Ok pages);
  write_members offset ms (set_offset_pages pages s).

(** The member at an offset; none if the slot is not used. *)
Definition read_member (offset : Z) s : result (option (Z * Z)) :=
  let pageno := MXOffsetToMemberPage offset in
  xact ← get_word (member_pages s) pageno (MXOffsetToMemberOffset offset / sizeof_word);
  if negb (TransactionIdIsValid xact) then Ok None
  else
    flags ← get_word (member_pages s) pageno (MXOffsetToFlagsOffset offset / sizeof_word);
    Ok (Some (xact, Z.land (Z.shiftr flags (MXOffsetToFlagsBitShift offset)) MXACT_MEMBER_XACT_BITMASK)).

Fixpoint read_members (length : nat) (offset : Z) s : result (list (Z * Z)) :=
  match length with
  | O => Ok []
  | S length =>
      m ← read_member offset s;
      ms ← read_members length (uint32 (offset + 1)) s;
      Ok (match m with Some m => m :: ms | None => ms end)
  end.

(** * The cache of the backend *)

Definition MAX_CACHE_ENTRIES : nat := 256.
Definition Cache : Type := list (Z * list (Z * Z)).
Implicit Types (cache : Cache).

Definition sizeof_MultiXactMember : Z := 8.

(** The comparison is a total order, so that every sort has this result. *)
Definition mxactMemberComparator (member1 member2 : Z * Z) : Z :=
  if member2.1 <? member1.1 then 1 else if member1.1 <? member2.1 then -1
  else if member2.2 <? member1.2 then 1 else if member1.2 <? member2.2 then -1 else 0.
Fixpoint insert_member (m : Z * Z) ms : list (Z * Z) :=
  match ms with
  | [] => [m]
  | m' :: ms => if 0 <? mxactMemberComparator m m' then m' :: insert_member m ms else m :: m' :: ms
  end.
Definition sort_members ms : list (Z * Z) := foldr insert_member [] ms.

(** Take an entry out of the list. *)
Fixpoint take_entry (test : Z * list (Z * Z) → bool) cache : option ((Z * list (Z * Z)) * Cache) :=
  match cache with
  | [] => None
  | e :: cache =>
      if test e then Some (e, cache)
      else match take_entry test cache with Some (e', rest) => Some (e', e :: rest) | None => None end
  end.

(** The members sorted, the id or InvalidMultiXactId, and the cache with the entry in front. *)
Definition mXactCacheGetBySet ms cache : list (Z * Z) * Z * Cache :=
  let ms := sort_members ms in
  match take_entry (λ e, (length e.2 =? length ms)%nat && bool_decide (ms = e.2)) cache with
  | Some (e, rest) => (ms, e.1, e :: rest)
  | None => (ms, InvalidMultiXactId, cache)
  end.

Definition mXactCacheGetById (multi : Z) cache : option (list (Z * Z)) * Cache :=
  match take_entry (λ e, e.1 =? multi) cache with
  | Some (e, rest) => (Some e.2, e :: rest)
  | None => (None, cache)
  end.

Definition mXactCachePut (multi : Z) ms cache : Cache :=
  let cache := (multi, sort_members ms) :: cache in
  if (MAX_CACHE_ENTRIES <? length cache)%nat then removelast cache else cache.

(** * The operations *)

(** More than one member updates. *)
Definition has_two_updaters ms : bool := (1 <? length (List.filter (λ m, MultiXactStatusForUpdate <? m.2)%Z ms))%nat.

Definition MultiXactIdCreateFromMembers ms s cache : result (Z * MultiXactState * Cache) :=
  let '(ms, multi, cache) := mXactCacheGetBySet ms cache in
  if MultiXactIdIsValid multi then Ok (multi, s, cache)
  else if has_two_updaters ms then Err (Elog "new multixact has more than one updating member: %s")
  else
    r ← GetNewMultiXactId (zlen ms) s;
    let '(multi, offset, s) := (r : Z * Z * MultiXactState) in
    s ← RecordNewMultiXact multi offset ms s;
    Ok (multi, s, mXactCachePut multi ms cache).

Definition MultiXactIdCreate (xid1 status1 xid2 status2 : Z) s cache : result (Z * MultiXactState * Cache) :=
  MultiXactIdCreateFromMembers [(xid1, status1); (xid2, status2)] s cache.
End assign.

(** [OldestVisible] is the entry of the backend, set before it is used.  The result is [None]
    for -1. *)
Definition GetMultiXactIdMembers (OldestVisible multi : Z) (from_pgupgrade isLockOnly : bool) s cache : result (option (list (Z * Z)) * Cache) :=
  if negb (MultiXactIdIsValid multi) || from_pgupgrade then Ok (None, cache)
  else
    match mXactCacheGetById multi cache with
    | (Some ms, cache) => Ok (Some ms, cache)
    | (None, cache) =>
        if isLockOnly && MultiXactIdPrecedes multi OldestVisible then Ok (None, cache)
        else if MultiXactIdPrecedes multi (oldestMultiXactId s) then Err (Elog "MultiXactId %u does no longer exist -- apparent wraparound")
        else if negb (MultiXactIdPrecedes multi (nextMXact s)) then Err (Elog "MultiXactId %u has not been created yet -- apparent wraparound")
        else
          offset ← get_word (offset_pages s) (MultiXactIdToOffsetPage multi) (MultiXactIdToOffsetEntry multi);
          let tmpMXact := uint32 (multi + 1) in
          length ← (if nextMXact s =? tmpMXact then Ok (int32 (nextOffset s - offset))
                    else
                      let tmpMXact := if tmpMXact <? FirstMultiXactId then FirstMultiXactId else tmpMXact in
                      nextMXOffset ← get_word (offset_pages s) (MultiXactIdToOffsetPage tmpMXact) (MultiXactIdToOffsetEntry tmpMXact);
                      if nextMXOffset =? 0 then Err (Elog "MultiXact %u has invalid next offset")
                      else Ok (int32 (nextMXOffset - offset)));
          ms ← read_members (Z.to_nat length) offset s;
          Ok (Some ms, mXactCachePut multi ms cache)
    end.

Definition MultiXactIdExpand (RecoveryInProgress IsUnderPostmaster : bool) (IsInProgress DidCommit : Z → bool) (OldestVisible multi xid status : Z) s cache
  : result (Z * MultiXactState * Cache) :=
  r ← GetMultiXactIdMembers OldestVisible multi false false s cache;
  match r : option (list (Z * Z)) * Cache with
  | (None, cache) => MultiXactIdCreateFromMembers RecoveryInProgress IsUnderPostmaster [(xid, status)] s cache
  | (Some ms, cache) =>
      if existsb (λ m, (m.1 =? xid) && (m.2 =? status)) ms then Ok (multi, s, cache)
      else if MaxAllocSize <? sizeof_MultiXactMember * (zlen ms + 1) then Err (Elog "invalid memory alloc request size %zu")
      else
        let newMembers := List.filter (λ m, IsInProgress m.1 || ((MultiXactStatusForUpdate <? m.2) && DidCommit m.1)) ms in
        MultiXactIdCreateFromMembers RecoveryInProgress IsUnderPostmaster (newMembers ++ [(xid, status)]) s cache
  end.
