(* ===== verification/Members.v ===== *)
(** What multixact.c guarantees: the members of every MultiXactId in use read back as they were
    given, however many ids are made afterwards, and across the wraparound of ids and of member
    offsets. *)

From S2P Require Import Prelude Xid Bufpage PageOps Clog ClogPages Combocid Multixact.

Local Ltac Zify.zify_post_hook ::= Z.to_euclidean_division_equations.

(** * Words of pages *)

Definition page_words : Z := 2048.
Definition wf_pages (pages : gmap Z (list Z)) : Prop := ∀ p l, pages !! p = Some l → zlen l = page_words.

Section words.
Context (pages : gmap Z (list Z)) (Hwf : wf_pages pages).

Lemma get_word_ok p i : is_Some (pages !! p) → 0 ≤ i < page_words → ∃ w, get_word pages p i = Ok w.
Proof.
  intros [l Hl] Hi. unfold get_word, SimpleLruReadPage. rewrite Hl. rsimpl. specialize (Hwf p l Hl). unfold zlen, page_words in *.
  destruct (lookup_lt_is_Some_2 l (Z.to_nat i)) as [w ->]; [lia|]. by exists w.
Qed.

Lemma put_word_ok p i w : is_Some (pages !! p) → 0 ≤ i < page_words →
  ∃ pages', put_word pages p i w = Ok pages' ∧ wf_pages pages' ∧ (∀ p', is_Some (pages' !! p') ↔ is_Some (pages !! p')) ∧
  (∀ p' i', 0 ≤ i' → get_word pages' p' i' = if decide (p' = p ∧ i' = i) then Ok w else get_word pages p' i').
Proof.
  intros [l Hl] Hi. unfold put_word, SimpleLruReadPage. rewrite Hl. rsimpl. pose proof (Hwf p l Hl) as Hlen. unfold zlen, page_words in *.
  destruct (Nat.ltb_spec (Z.to_nat i) (length l)); [|lia]. eexists. split; [done|]. split_and!.
  - intros p' l'. destruct (decide (p' = p)) as [->|]; [rewrite lookup_insert_eq|rewrite lookup_insert_ne by done; by apply Hwf]. intros [= <-]. unfold zlen, page_words. rewrite length_insert. lia.
  - intros p'. destruct (decide (p' = p)) as [->|]; [rewrite lookup_insert_eq, Hl|rewrite lookup_insert_ne by done; done]. split; intros _; by eexists.
  - intros p' i' Hi'. unfold get_word, SimpleLruReadPage. destruct (decide (p' = p)) as [->|Hp].
    + rewrite lookup_insert_eq, Hl. rsimpl. destruct (decide _) as [[_ ->]|Hn]; [by rewrite list_lookup_insert_eq by lia|]. rewrite list_lookup_insert_ne; [done|]. intros E. apply Hn. split; [done|lia].
    + rewrite lookup_insert_ne by done. destruct (decide _) as [[? _]|_]; [done|done].
Qed.
End words.

(** * Slots of the members area *)

Definition ring : Z := 2 ^ 32.
Definition members_page : Z := 1636.

(** The words of a slot: the id, and the byte of its status in the word of flags. *)
Definition xid_index (x : Z) : Z := 5 * (x mod members_page / 4) + 1 + x mod 4.
Definition flags_index (x : Z) : Z := 5 * (x mod members_page / 4).

Lemma slot_words x : 0 ≤ x → MXOffsetToMemberPage x = x / members_page ∧ MXOffsetToMemberOffset x / sizeof_word = xid_index x ∧
  MXOffsetToFlagsOffset x / sizeof_word = flags_index x ∧ MXOffsetToFlagsBitShift x = 8 * (x mod 4).
Proof.
  intros Hx. unfold MXOffsetToMemberOffset, MXOffsetToFlagsOffset, MXOffsetToFlagsBitShift, xid_index, flags_index, members_page.
  change MULTIXACT_MEMBERS_PER_MEMBERGROUP with 4. change MULTIXACT_MEMBERGROUPS_PER_PAGE with 409. change MULTIXACT_MEMBERGROUP_SIZE with 20.
  change MULTIXACT_FLAGBYTES_PER_GROUP with 4. change sizeof_word with 4. change MXACT_MEMBER_BITS_PER_XACT with 8.
  assert (E : (x / 4) mod 409 = x mod 1636 / 4) by lia. rewrite E. split_and!; [done|lia..].
Qed.

Lemma index_bounds x : 0 ≤ x → 0 ≤ flags_index x < page_words ∧ 0 ≤ xid_index x < page_words.
Proof. unfold flags_index, xid_index, page_words, members_page. lia. Qed.

(** Two slots share no word but that of the flags. *)
Lemma slots_apart x y : 0 ≤ x → 0 ≤ y → x / members_page = y / members_page →
  xid_index x ≠ flags_index y ∧ (xid_index x = xid_index y → x = y) ∧ (flags_index x = flags_index y → x mod 4 = y mod 4 → x = y).
Proof. unfold xid_index, flags_index, members_page. intros Hx Hy E. split_and!; lia. Qed.

(** ** The byte of a status in a word *)

Definition put_status (w b st : Z) : Z := Z.lor (Z.land w (Z.lnot (Z.shiftl (Z.ones 8) b))) (Z.shiftl st b).
Definition get_status (w b : Z) : Z := Z.land (Z.shiftr w b) (Z.ones 8).

Lemma status_bit st n : 0 ≤ st < 256 → 8 ≤ n → Z.testbit st n = false.
Proof. intros Hst Hn. apply Z.bits_above_log2; [lia|]. destruct (decide (st = 0)) as [->|]; [cbn; lia|]. apply Z.log2_lt_pow2; [lia|]. apply Z.lt_le_trans with (2 ^ 8); [lia|]. apply Z.pow_le_mono_r; lia. Qed.

Lemma get_put_status w b st : 0 ≤ b → 0 ≤ st < 256 → get_status (put_status w b st) b = st.
Proof.
  intros Hb Hst. unfold get_status, put_status. apply Z.bits_inj'. intros n Hn.
  rewrite Z.land_spec, Z.shiftr_spec, Z.lor_spec, Z.land_spec, Z.lnot_spec, !Z.shiftl_spec, !Z.testbit_ones_nonneg by lia.
  replace (n + b - b) with n by lia. destruct (Z.ltb_spec n 8); cbn [negb]; [by rewrite andb_false_r, andb_true_r|]. by rewrite andb_false_r, status_bit.
Qed.

Lemma get_put_status_other w i j st : 0 ≤ i < 4 → 0 ≤ j < 4 → i ≠ j → 0 ≤ st < 256 → get_status (put_status w (8 * i) st) (8 * j) = get_status w (8 * j).
Proof.
  intros Hi Hj Hne Hst. unfold get_status, put_status. apply Z.bits_inj'. intros n Hn.
  rewrite !Z.land_spec, !Z.shiftr_spec, Z.lor_spec, Z.land_spec, Z.lnot_spec, !Z.shiftl_spec, (Z.testbit_ones_nonneg 8 n) by lia.
  destruct (Z.ltb_spec n 8); [|by rewrite !andb_false_r]. rewrite !andb_true_r.
  destruct (Z.ltb_spec (n + 8 * j) (8 * i)).
  - rewrite !(Z.testbit_neg_r _ (n + 8 * j - 8 * i)) by lia. cbn [negb]. by rewrite andb_true_r, orb_false_r.
  - rewrite (status_bit st), Z.testbit_ones_nonneg by lia. destruct (Z.ltb_spec (n + 8 * j - 8 * i) 8); [lia|]. cbn [negb]. by rewrite andb_true_r, orb_false_r.
Qed.

(** * Writing a member *)

Implicit Types (s : MultiXactState) (ms : list (Z * Z)).

Definition member_ok (m : Z * Z) : Prop := TransactionIdIsValid m.1 = true ∧ 0 ≤ m.2 < 256.
Definition has_slot s (x : Z) : Prop := is_Some (member_pages s !! (x / members_page)).

Lemma read_member_words x s : 0 ≤ x → read_member x s =
  (xact ← get_word (member_pages s) (x / members_page) (xid_index x);
   if negb (TransactionIdIsValid xact) then Ok None
   else flags ← get_word (member_pages s) (x / members_page) (flags_index x); Ok (Some (xact, get_status flags (8 * (x mod 4))))).
Proof. intros Hx. unfold read_member. destruct (slot_words x Hx) as (-> & -> & -> & ->). done. Qed.

Lemma write_member_spec x m s : wf_pages (member_pages s) → has_slot s x → 0 ≤ x → member_ok m →
  ∃ pages, write_member x m s = Ok (set_member_pages pages s) ∧ wf_pages pages ∧ (∀ p, is_Some (pages !! p) ↔ is_Some (member_pages s !! p)) ∧
  ∀ y, 0 ≤ y → read_member y (set_member_pages pages s) = if decide (y = x) then Ok (Some m) else read_member y s.
Proof.
  intros Hwf Hs Hx [Hm1 Hm2]. destruct (index_bounds x Hx) as [Hf Hi]. unfold write_member. destruct (slot_words x Hx) as (-> & -> & -> & ->).
  destruct (put_word_ok _ Hwf (x / members_page) (xid_index x) m.1 Hs Hi) as (pages1 & -> & Hwf1 & Hp1 & Hg1). rsimpl.
  destruct (get_word_ok pages1 Hwf1 (x / members_page) (flags_index x)) as [w Hw]; [by apply Hp1|done|]. rewrite Hw. rsimpl.
  change (Z.lor _ _) with (put_status w (8 * (x mod 4)) m.2).
  destruct (put_word_ok _ Hwf1 (x / members_page) (flags_index x) (put_status w (8 * (x mod 4)) m.2)) as (pages2 & -> & Hwf2 & Hp2 & Hg2); [by apply Hp1|done|]. rsimpl.
  exists pages2. split_and!; [done|done|intros p; by rewrite Hp2|]. intros y Hy. destruct (index_bounds y Hy) as [Hfy Hiy].
  rewrite !read_member_words by done. cbn [set_member_pages member_pages]. rewrite !Hg2, !Hg1 by lia.
  destruct (decide (y = x)) as [->|Hne].
  - destruct (slots_apart x x Hx Hx eq_refl) as (Hd & _). rewrite (decide_False (P := _ ∧ xid_index x = flags_index x)) by tauto. rewrite (decide_True (P := _ ∧ xid_index x = xid_index x)) by done. rsimpl. rewrite Hm1. cbn [negb].
    rewrite decide_True by done. rsimpl. rewrite get_put_status by lia. by destruct m.
  - destruct (decide (y / members_page = x / members_page)) as [Ep|Ep]; [|by rewrite !decide_False by tauto].
    destruct (slots_apart y x Hy Hx Ep) as (Hd & Hd1 & Hd2). destruct (slots_apart x y Hx Hy (eq_sym Ep)) as (Hd' & _).
    rewrite !(decide_False (P := _ ∧ xid_index y = _)) by tauto. destruct (get_word (member_pages s) (y / members_page) (xid_index y)) as [xact|]; rsimpl; [|done].
    destruct (TransactionIdIsValid xact); cbn [negb]; [|done]. destruct (decide (flags_index y = flags_index x)) as [Ef|Ef].
    + assert (Hw' : get_word (member_pages s) (x / members_page) (flags_index x) = Ok w) by (rewrite <- Hw, Hg1, decide_False by (lia || (intros [_ E]; congruence)); done).
      rewrite decide_True by done. rewrite Ep, Ef, Hw'. rsimpl. rewrite get_put_status_other; [done|lia|lia| |done]. intros E. apply Hne, Hd2; done.
    + rewrite !decide_False by (tauto || (intros [_ E]; congruence)). done.
Qed.

(** Positions in the members area are counted without wrapping around; [x mod ring] is the slot. *)
Lemma ring_succ a d : uint32 (a mod ring + d) = (a + d) mod ring.
Proof. unfold uint32, ring. by rewrite Zplus_mod_idemp_l. Qed.
Lemma ring_range a : 0 ≤ a mod ring < ring.
Proof. unfold ring. lia. Qed.
Lemma ring_inj a b : a mod ring = b mod ring → a < b + ring → b < a + ring → a = b.
Proof. unfold ring. lia. Qed.

Lemma write_members_spec ms : ∀ a s, wf_pages (member_pages s) → (∀ i, 0 ≤ i < zlen ms → has_slot s ((a + i) mod ring)) → zlen ms ≤ ring → Forall member_ok ms →
  ∃ pages, write_members (a mod ring) ms s = Ok (set_member_pages pages s) ∧ wf_pages pages ∧ (∀ p, is_Some (pages !! p) ↔ is_Some (member_pages s !! p)) ∧
  (∀ (i : nat) m, ms !! i = Some m → read_member ((a + Z.of_nat i) mod ring) (set_member_pages pages s) = Ok (Some m)) ∧
  (∀ y, 0 ≤ y → (∀ i, 0 ≤ i < zlen ms → y ≠ (a + i) mod ring) → read_member y (set_member_pages pages s) = read_member y s).
Proof.
  unfold zlen. induction ms as [|m ms IH]; intros a s Hwf Hslots Hlen Hok; cbn [write_members length] in *.
  { exists (member_pages s). assert (E : set_member_pages (member_pages s) s = s) by (by destruct s). rewrite E. split_and!; done. }
  inversion Hok as [|?? Hm Hms]; subst. assert (Hx : has_slot s (a mod ring)) by (rewrite <- (Z.add_0_r a); apply Hslots; lia).
  destruct (write_member_spec (a mod ring) m s Hwf Hx) as (pages1 & -> & Hwf1 & Hp1 & Hr1); [apply ring_range|done|]. rsimpl. rewrite ring_succ.
  destruct (IH (a + 1) (set_member_pages pages1 s)) as (pages & -> & Hwf2 & Hp2 & Hr2 & Ho2); try done; [|lia|].
  { intros i Hi. replace (a + 1 + i) with (a + (i + 1)) by lia. apply Hp1, Hslots. lia. }
  exists pages. cbn [set_member_pages member_pages] in *. split_and!; [done|done|intros p; by rewrite Hp2| |].
  - intros [|i] m'; cbn [lookup list_lookup]; [intros [= <-]|].
    + rewrite Z.add_0_r, Ho2; [|apply ring_range|].
      * rewrite Hr1, decide_True by (done || apply ring_range). done.
      * intros i Hi E. apply ring_inj in E; unfold ring in *; lia.
    + intros Hi. replace (a + Z.of_nat (S i)) with (a + 1 + Z.of_nat i) by lia. by apply Hr2.
  - intros y Hy Hne. rewrite Ho2; [|done|].
    + rewrite Hr1, decide_False; [done| |done]. rewrite <- (Z.add_0_r a). apply Hne. lia.
    + intros i Hi. replace (a + 1 + i) with (a + (i + 1)) by lia. apply Hne. lia.
Qed.

(** * Growth of the members area *)

Lemma round_zeroes x s : 0 ≤ x → extend_round x s = if decide (x mod members_page = 0) then ZeroMultiXactMemberPage (x / members_page) s else s.
Proof.
  intros Hx. unfold extend_round, MXOffsetToFlagsOffset, MXOffsetToFlagsBitShift, MXOffsetToMemberPage, members_page.
  change MULTIXACT_MEMBERS_PER_MEMBERGROUP with 4. change MULTIXACT_MEMBERGROUPS_PER_PAGE with 409. change MULTIXACT_MEMBERGROUP_SIZE with 20.
  change MXACT_MEMBER_BITS_PER_XACT with 8. change MULTIXACT_MEMBERS_PER_PAGE with 1636.
  destruct (decide _); destruct (Z.eqb_spec ((x / 4) mod 409 * 20) 0), (Z.eqb_spec (x mod 4 * 8) 0); try done; exfalso; lia.
Qed.

(** The next page starts after [extend_difference], or the numbers wrap around. *)
Lemma difference_spec x : 0 ≤ x < ring → 0 < extend_difference x ≤ members_page ∧
  (x + extend_difference x = ring ∨ x + extend_difference x < ring ∧ (x + extend_difference x) mod members_page = 0) ∧
  (∀ d, 0 ≤ d < extend_difference x → (x + d) / members_page = x / members_page).
Proof.
  intros Hx. unfold extend_difference. change MULTIXACT_MEMBERS_PER_PAGE with 1636. change MAX_MEMBERS_IN_LAST_MEMBERS_PAGE with 1036.
  unfold ring, members_page, uint32, MaxMultiXactOffset in *. assert (Hc : ((x + 1036) mod 2 ^ 32 <? x) = (2 ^ 32 - 1036 <=? x)) by lia. rewrite Hc.
  destruct (Z.leb_spec (2 ^ 32 - 1036) x) as [H|H].
  - rewrite Z.mod_small by lia. split_and!; [lia|lia|left; lia|]. intros d Hd. lia.
  - split_and!; [lia|lia|right; lia|]. intros d Hd. lia.
Qed.

(** From here on division is treated only where [mlia] asks for it. *)
Local Ltac Zify.zify_post_hook ::= idtac.
Ltac mlia := Z.to_euclidean_division_equations; lia.

(** Pages that start among the new positions are zeroed, the others stay. *)
Definition grown (A n : Z) (pages0 pages : gmap Z (list Z)) : Prop :=
  ∀ p, pages !! p = pages0 !! p ∨ (pages !! p = Some zero_words ∧ ∃ z, A ≤ z < A + n ∧ z mod ring = p * members_page).

Lemma zero_words_len : zlen zero_words = page_words.
Proof. unfold zlen, zero_words. by rewrite length_replicate. Qed.

Lemma grown_wf A n pages0 pages : wf_pages pages0 → grown A n pages0 pages → wf_pages pages.
Proof. intros Hwf Hg p l Hl. destruct (Hg p) as [E|[E _]]; rewrite E in Hl; [by eapply Hwf|]. injection Hl as <-. apply zero_words_len. Qed.

Lemma round_grown A n s : 0 < n → ∃ pages, extend_round (A mod ring) s = set_member_pages pages s ∧ grown A n (member_pages s) pages ∧
  (∀ p, is_Some (member_pages s !! p) → is_Some (pages !! p)) ∧
  ((A mod ring mod members_page ≠ 0 → has_slot s (A mod ring)) → is_Some (pages !! (A mod ring / members_page))) ∧
  (A mod ring mod members_page = 0 → pages !! (A mod ring / members_page) = Some zero_words).
Proof.
  intros Hn. rewrite round_zeroes by (apply ring_range). destruct (decide _) as [Hz|Hz].
  - eexists. split; [done|]. split_and!.
    + intros p. destruct (decide (p = A mod ring / members_page)) as [->|]; [right|left; by rewrite lookup_insert_ne]. rewrite lookup_insert_eq. split; [done|].
      exists A. split; [lia|]. unfold members_page in *. mlia.
    + intros p Hp. destruct (decide (p = A mod ring / members_page)) as [->|]; [by rewrite lookup_insert_eq|by rewrite lookup_insert_ne].
    + intros _. by rewrite lookup_insert_eq.
    + intros _. by rewrite lookup_insert_eq.
  - exists (member_pages s). split_and!; [by destruct s|intros p; by left|done| |done]. intros H. by apply H.
Qed.

Lemma extend_members_spec fuel : ∀ A n s, Z.max n 0 < Z.of_nat fuel → - 2 ^ 31 < n < 2 ^ 31 → (0 < n → A mod ring mod members_page ≠ 0 → has_slot s (A mod ring)) →
  ∃ pages, extend_loop fuel (A mod ring) n s = Ok (set_member_pages pages s) ∧ grown A n (member_pages s) pages ∧
  (∀ p, is_Some (member_pages s !! p) → is_Some (pages !! p)) ∧ (∀ x, A ≤ x < A + n → is_Some (pages !! (x mod ring / members_page))) ∧
  (0 < n → A mod ring mod members_page = 0 → pages !! (A mod ring / members_page) = Some zero_words).
Proof.
  induction fuel as [|fuel IH]; intros A n s Hfuel Hn Hs; cbn [extend_loop].
  { lia. }
  destruct (Z.ltb_spec 0 n) as [Hpos|Hneg].
  2:{ exists (member_pages s). split_and!; [by destruct s|intros p; by left|done|lia|lia]. }
  destruct (round_grown A n s Hpos) as (pages1 & -> & G1 & K1 & X1 & Z1). pose proof (ring_range A) as HA. destruct (difference_spec _ HA) as (D1 & D2 & D3).
  set (d := extend_difference (A mod ring)) in *. rewrite ring_succ, int32_id by (unfold is_int32, PG_INT32_MIN, PG_INT32_MAX, members_page in *; lia).
  assert (Hstart : (A + d) mod ring mod members_page = 0).
  { destruct D2 as [D2|[D2 D2']]; [assert ((A + d) mod ring = 0) as -> by (clear -D2; unfold ring in *; clearbody d; mlia); done|].
    assert ((A + d) mod ring = A mod ring + d) as -> by (clear -D1 D2 HA; unfold ring in *; clearbody d; mlia). done. }
  assert (Hn' : Z.max (n - d) 0 < Z.of_nat fuel ∧ - 2 ^ 31 < n - d < 2 ^ 31) by (clear -Hfuel Hn Hpos D1; unfold members_page in D1; clearbody d; lia).
  destruct Hn' as [Hn1 Hn2]. destruct (IH (A + d) (n - d) (set_member_pages pages1 s) Hn1 Hn2) as (pages & -> & G2 & K2 & X2 & _); [by rewrite Hstart|].
  exists pages. cbn [set_member_pages member_pages] in *. split_and!; [done| |auto| |].
  - intros p. destruct (G2 p) as [->|(E & z & Hz & Ez)]; [apply G1|right]. split; [done|]. exists z. split; [lia|done].
  - intros x Hx. destruct (decide (x < A + d)); [|apply X2; lia]. assert (E : x mod ring = A mod ring + (x - A)).
    { assert (A mod ring + d ≤ ring) by (clear -D2; lia). clear -H Hx HA l. clearbody d. unfold ring in *. mlia. }
    rewrite E, D3 by lia. auto.
  - intros _ Hz. destruct (G2 (A mod ring / members_page)) as [->|[-> _]]; [by apply Z1|done].
Qed.

(** * Ids *)

(** The [j]-th id: after the last one comes FirstMultiXactId again. *)
Definition ids : Z := 2 ^ 32 - 1.
Definition mid (j : Z) : Z := 1 + j mod ids.

Lemma mid_range j : 1 ≤ mid j ≤ MaxMultiXactId.
Proof. unfold mid, ids, MaxMultiXactId. mlia. Qed.

Lemma mid_inj i j : mid i = mid j → i < j + ids → j < i + ids → i = j.
Proof. unfold mid, ids. mlia. Qed.

(** The id that follows, as the code computes it. *)
Definition next_id (multi : Z) : Z := let next := uint32 (multi + 1) in if next <? FirstMultiXactId then FirstMultiXactId else next.
Lemma next_mid j : next_id (mid j) = mid (j + 1).
Proof.
  unfold next_id, mid, ids, uint32, FirstMultiXactId. destruct (Z.ltb_spec ((1 + j mod (2 ^ 32 - 1) + 1) mod 2 ^ 32) 1); mlia.
Qed.

Definition offset_word s (multi : Z) : result Z := get_word (offset_pages s) (multi / page_words) (multi mod page_words).

Lemma offset_word_code s multi : get_word (offset_pages s) (MultiXactIdToOffsetPage multi) (MultiXactIdToOffsetEntry multi) = offset_word s multi.
Proof. done. Qed.

(** A new page of the offsets area holds no id in use. *)
Lemma new_page_unused i j : i ≤ j → j + page_words < i + ids → uint32 (mid j + 1) mod page_words = 0 → mid i / page_words ≠ uint32 (mid j + 1) / page_words.
Proof. unfold mid, ids, uint32, page_words. intros Hij Hd Hf E. mlia. Qed.

(** ** Growth of the offsets area *)

Lemma extend_offset_spec j s : wf_pages (offset_pages s) → (∃ w, offset_word s (mid j) = Ok w) →
  ∃ pages, ExtendMultiXactOffset (uint32 (mid j + 1)) s = set_offset_pages pages s ∧ wf_pages pages ∧
  is_Some (pages !! (mid j / page_words)) ∧ is_Some (pages !! (mid (j + 1) / page_words)) ∧
  (∀ i, i ≤ j → j + page_words < i + ids → get_word pages (mid i / page_words) (mid i mod page_words) = offset_word s (mid i)).
Proof.
  intros Hwf [w Hw]. assert (Hp : is_Some (offset_pages s !! (mid j / page_words))).
  { unfold offset_word, get_word, SimpleLruReadPage in Hw. destruct (offset_pages s !! _); [done|discriminate]. }
  unfold ExtendMultiXactOffset, MultiXactIdToOffsetEntry, MultiXactIdToOffsetPage. change MULTIXACT_OFFSETS_PER_PAGE with page_words.
  assert (Hne : (uint32 (mid j + 1) =? FirstMultiXactId) = false) by (pose proof (mid_range j); unfold uint32, FirstMultiXactId, MaxMultiXactId in *; mlia).
  rewrite Hne. cbn [negb]. rewrite andb_true_r. destruct (Z.eqb_spec (uint32 (mid j + 1) mod page_words) 0) as [Hz|Hz]; cbn [negb].
  - eexists. split; [done|]. assert (En : mid (j + 1) / page_words = uint32 (mid j + 1) / page_words).
    { rewrite <- next_mid. unfold next_id. destruct (Z.ltb_spec (uint32 (mid j + 1)) FirstMultiXactId); [|done]. unfold uint32, FirstMultiXactId, page_words in *. mlia. }
    split_and!.
    + intros p l. destruct (decide (p = uint32 (mid j + 1) / page_words)) as [->|]; [rewrite lookup_insert_eq; intros [= <-]; apply zero_words_len|rewrite lookup_insert_ne by done; apply Hwf].
    + destruct (decide (mid j / page_words = uint32 (mid j + 1) / page_words)) as [->|]; [by rewrite lookup_insert_eq|by rewrite lookup_insert_ne].
    + rewrite En. by rewrite lookup_insert_eq.
    + intros i Hi Hd. unfold offset_word, get_word, SimpleLruReadPage. rewrite lookup_insert_ne; [done|]. intros E. by apply (new_page_unused i j).
  - exists (offset_pages s). split_and!; [by destruct s|done|done| |done].
    assert (mid (j + 1) / page_words = mid j / page_words) as ->; [|done]. rewrite <- next_mid. unfold next_id. pose proof (mid_range j).
    unfold uint32, FirstMultiXactId, page_words, MaxMultiXactId in *. destruct (Z.ltb_spec ((mid j + 1) mod 2 ^ 32) 1); mlia.
Qed.

(** * Recording an id *)

(** Writing a word that may have its value already. *)
Lemma ensure_word pages p i w : wf_pages pages → is_Some (pages !! p) → 0 ≤ i < page_words →
  ∃ pages', (current ← get_word pages p i; if negb (current =? w) then put_word pages p i w else Ok pages) = Ok pages' ∧ wf_pages pages' ∧
  (∀ p', is_Some (pages' !! p') ↔ is_Some (pages !! p')) ∧
  (∀ p' i', 0 ≤ i' → get_word pages' p' i' = if decide (p' = p ∧ i' = i) then Ok w else get_word pages p' i').
Proof.
  intros Hwf Hp Hi. destruct (get_word_ok pages Hwf p i Hp Hi) as [c Hc]. rewrite Hc. rsimpl. destruct (Z.eqb_spec c w) as [->|]; cbn [negb].
  - exists pages. split_and!; try done. intros p' i' Hi'. destruct (decide _) as [[-> ->]|]; done.
  - by apply put_word_ok.
Qed.

(** The entry where the code writes the next offset. *)
Lemma next_entry j : let next := mid (j + 1) in
  (if next / page_words =? mid j / page_words then mid j mod page_words + 1 else next mod page_words) = next mod page_words.
Proof.
  cbv zeta. rewrite <- next_mid. unfold next_id. pose proof (mid_range j) as Hr. unfold uint32, FirstMultiXactId, page_words, MaxMultiXactId in *.
  destruct (Z.ltb_spec ((mid j + 1) mod 2 ^ 32) 1) as [H|H]; case Z.eqb_spec; intros E; try done; mlia.
Qed.

Definition wrap_offset (x : Z) : Z := if x mod ring =? 0 then 1 else x mod ring.

Lemma record_multi j a ms s : wf_pages (offset_pages s) → wf_pages (member_pages s) →
  is_Some (offset_pages s !! (mid j / page_words)) → is_Some (offset_pages s !! (mid (j + 1) / page_words)) →
  (∀ i, 0 ≤ i < zlen ms → has_slot s ((a + i) mod ring)) → zlen ms ≤ ring → Forall member_ok ms →
  ∃ opages mpages, RecordNewMultiXact (mid j) (a mod ring) ms s = Ok (set_member_pages mpages (set_offset_pages opages s)) ∧ wf_pages opages ∧ wf_pages mpages ∧
  (∀ p, is_Some (opages !! p) ↔ is_Some (offset_pages s !! p)) ∧ (∀ p, is_Some (mpages !! p) ↔ is_Some (member_pages s !! p)) ∧
  (∀ i, i < j + ids → j + 1 < i + ids → get_word opages (mid i / page_words) (mid i mod page_words) =
     if decide (i = j) then Ok (a mod ring) else if decide (i = j + 1) then Ok (wrap_offset (a + zlen ms)) else offset_word s (mid i)) ∧
  (∀ (i : nat) m, ms !! i = Some m → read_member ((a + Z.of_nat i) mod ring) (set_member_pages mpages s) = Ok (Some m)) ∧
  (∀ y, 0 ≤ y → (∀ i, 0 ≤ i < zlen ms → y ≠ (a + i) mod ring) → read_member y (set_member_pages mpages s) = read_member y s).
Proof.
  intros Hwo Hwm Hp1 Hp2 Hslots Hlen Hok. unfold RecordNewMultiXact, MultiXactIdToOffsetPage, MultiXactIdToOffsetEntry. change MULTIXACT_OFFSETS_PER_PAGE with page_words.
  fold (next_id (mid j)). rewrite next_mid, next_entry, ring_succ.
  destruct (ensure_word (offset_pages s) (mid j / page_words) (mid j mod page_words) (a mod ring)) as (pages1 & E1 & W1 & K1 & G1); [done|done|unfold page_words; mlia|].
  destruct (ensure_word pages1 (mid (j + 1) / page_words) (mid (j + 1) mod page_words) (wrap_offset (a + zlen ms))) as (pages2 & E2 & W2 & K2 & G2); [done|by apply K1|unfold page_words; mlia|].
  fold (wrap_offset (a + zlen ms)).
  assert (Hbind : ∀ {B} (k : gmap Z (list Z) → result B) (w : Z) pages p i r,
    (current ← get_word pages p i; if negb (current =? w) then put_word pages p i w else Ok pages) = Ok r →
    (current ← get_word pages p i; pages ← (if negb (current =? w) then put_word pages p i w else Ok pages); k pages) = k r).
  { intros B k w pages p i r. destruct (get_word pages p i); rsimpl; [|done]. by intros ->. }
  rewrite (Hbind _ _ _ _ _ _ _ E1), (Hbind _ _ _ _ _ _ _ E2).
  destruct (write_members_spec ms a (set_offset_pages pages2 s)) as (mpages & -> & W3 & K3 & R3 & O3); try done.
  exists pages2, mpages. split_and!; try done; [intros p; by rewrite K2, K1|].
  intros i Hi1 Hi2. rewrite G2, G1 by (unfold page_words; mlia).
  assert (Hloc : ∀ i', mid i / page_words = mid i' / page_words ∧ mid i mod page_words = mid i' mod page_words → mid i = mid i') by (intros i' [H1 H2]; unfold page_words in *; mlia).
  destruct (decide (i = j)) as [->|Hj].
  - destruct (decide _) as [E|_]; [apply Hloc, mid_inj in E; unfold ids in *; lia|]. by rewrite decide_True.
  - destruct (decide (i = j + 1)) as [->|Hj1]; [by rewrite decide_True|]. rewrite !decide_False; [done|intros E; apply Hloc, mid_inj in E; unfold ids in *; lia..].
Qed.

(** * The ids in use *)

(** Offset zero is not used as the start of members. *)
Definition adv (x : Z) : Z := if x mod ring =? 0 then x + 1 else x.

Lemma wrap_adv x : wrap_offset x = adv x mod ring ∧ adv x mod ring ≠ 0.
Proof. unfold wrap_offset, adv. destruct (Z.eqb_spec (x mod ring) 0) as [E|E]; [|done]. unfold ring in *. mlia. Qed.

(** Members may be stored up to the segment before that of the oldest ones. *)
Definition segment : Z := 52352.
Definition limit (lo : Z) : Z := lo + ring - lo mod ring mod segment - segment.

(** The position of the next members, and the ids in use from the [j0]-th on, each with the
    position of its members and the members. *)
Abbreviation History := (list (Z * list (Z * Z))).
Implicit Types (hist : History).

Record entry_ok s j0 A hist (k : nat) (a : Z) ms : Prop := {
  en_members : ms ≠ [] ∧ Forall member_ok ms ∧ zlen ms + 1 < 2 ^ 31 ∧ sort_members ms = ms;
  en_start : a mod ring ≠ 0 ∧ offset_word s (mid (j0 + Z.of_nat k)) = Ok (a mod ring);
  en_end : is_Some (hist !! S k) → offset_word s (mid (j0 + Z.of_nat k + 1)) = Ok (wrap_offset (a + zlen ms));
  en_slots : ∀ (i : nat) m, ms !! i = Some m → read_member ((a + Z.of_nat i) mod ring) s = Ok (Some m);
  en_last : hist !! S k = None → A = a + zlen ms;
  en_zero : is_Some (hist !! S k) → (a + zlen ms) mod ring = 0 → read_member 0 s = Ok None;
}.

Record holds s (j0 lo A : Z) hist : Prop := {
  h_pages : wf_pages (offset_pages s) ∧ wf_pages (member_pages s);
  h_oldest : oldestMultiXactId s = mid j0;
  h_next : 0 ≤ nextMXact s ≤ MaxMultiXactId ∧ valid_next (nextMXact s) = mid (j0 + zlen hist) ∧ (hist ≠ [] → nextMXact s = uint32 (mid (j0 + zlen hist - 1) + 1)) ∧ (hist = [] → nextMXact s = mid j0);
  h_offset : nextOffset s = A mod ring;
  h_range : ∀ k a ms, hist !! k = Some (a, ms) → lo ≤ a ∧ a + zlen ms ≤ A;
  h_entry : ∀ k a ms, hist !! k = Some (a, ms) → entry_ok s j0 A hist k a ms;
  h_here : ∃ w, offset_word s (mid (j0 + zlen hist)) = Ok w;
  h_slot : A mod ring mod members_page ≠ 0 → has_slot s (A mod ring);
  h_stop : oldestOffsetKnown s = true ∧ offsetStopLimit s = limit lo mod ring ∧ lo ≤ A < limit lo;
  h_count : zlen hist ≤ 2 ^ 31 - 2999999;
  h_ids : ∀ d, 0 ≤ d < 2 ^ 31 → MultiXactIdPrecedes (uint32 (mid j0 + d)) (multiVacLimit s) = true ∨ MultiXactIdPrecedes (uint32 (mid j0 + d)) (multiStopLimit s) = true → d < 2 ^ 31 - 2999999;
}.

(** ** Reading *)

Lemma read_members_spec ms : ∀ a s, (∀ (i : nat) m, ms !! i = Some m → read_member ((a + Z.of_nat i) mod ring) s = Ok (Some m)) →
  read_members (length ms) (a mod ring) s = Ok ms ∧
  (read_member ((a + zlen ms) mod ring) s = Ok None → read_members (S (length ms)) (a mod ring) s = Ok ms).
Proof.
  induction ms as [|m ms IH]; intros a s Hm.
  { split; [done|]. cbn [read_members]. unfold zlen. cbn [length]. rewrite Z.add_0_r. intros ->. done. }
  assert (H0 : read_member (a mod ring) s = Ok (Some m)) by (rewrite <- (Z.add_0_r a); apply (Hm 0%nat); done).
  destruct (IH (a + 1) s) as [H1 H2]. { intros i m' Hi. replace (a + 1 + Z.of_nat i) with (a + Z.of_nat (S i)) by lia. by apply Hm. }
  split.
  - cbn [length read_members]. rewrite H0. rsimpl. rewrite ring_succ, H1. done.
  - intros Hz. change (length (m :: ms)) with (S (length ms)). cbn [read_members] in H2 |- *. rewrite H0. rsimpl. rewrite ring_succ.
    rewrite H2; [done|]. replace (a + 1 + zlen ms) with (a + zlen (m :: ms)) by (unfold zlen; cbn [length]; lia). done.
Qed.

(** Distances between ids: zero is skipped at most once. *)
Lemma mid_distance j d : 0 ≤ d < 2 ^ 31 → (mid (j + d) - mid j) mod 2 ^ 32 = d ∨ (mid (j + d) - mid j) mod 2 ^ 32 = d + 1.
Proof. unfold mid, ids. intros Hd. mlia. Qed.

Lemma int32_small z : 0 ≤ z mod 2 ^ 32 < 2 ^ 31 → 0 ≤ int32 z.
Proof. unfold int32. intros H. mlia. Qed.
Lemma int32_neg z : 0 < (- z) mod 2 ^ 32 ≤ 2 ^ 31 → int32 z < 0.
Proof. unfold int32. intros H. mlia. Qed.
Lemma int32_len z n : z mod 2 ^ 32 = n → n < 2 ^ 31 → int32 z = n.
Proof. unfold int32. intros H Hn. mlia. Qed.

(** The comparison of ids is that of their numbers, within half a turn. *)
Lemma precedes_mid a b : a - b < 2 ^ 31 - 1 → b - a < 2 ^ 31 - 1 → MultiXactIdPrecedes (mid a) (mid b) = (a <? b).
Proof.
  intros H1 H2. unfold MultiXactIdPrecedes. destruct (Z.ltb_spec a b).
  - pose proof (mid_distance a (b - a) ltac:(lia)) as Hd. replace (a + (b - a)) with b in Hd by lia. apply Z.ltb_lt, int32_neg. replace (- (mid a - mid b)) with (mid b - mid a) by lia. lia.
  - pose proof (mid_distance b (a - b) ltac:(lia)) as Hd. replace (b + (a - b)) with a in Hd by lia. apply Z.ltb_ge, int32_small. lia.
Qed.

Lemma precedes_or_equals_mid a b : a - b < 2 ^ 31 - 1 → b - a < 2 ^ 31 - 1 → MultiXactIdPrecedesOrEquals (mid a) (mid b) = true → a ≤ b.
Proof.
  intros H1 H2 H. pose proof (precedes_mid b a H2 H1) as E. unfold MultiXactIdPrecedes, MultiXactIdPrecedesOrEquals in *. apply Z.leb_le in H.
  destruct (Z.ltb_spec b a) as [Hlt|]; [|lia]. apply Z.ltb_lt in E. exfalso. pose proof (mid_distance b (a - b) ltac:(lia)) as Hd. replace (b + (a - b)) with a in Hd by lia.
  destruct Hd as [Hd|Hd]; rewrite (int32_len _ _ Hd) in H; lia.
Qed.

Section reading.
Context s j0 lo A hist (Hh : holds s j0 lo A hist).

Lemma live_limits k : (k < length hist)%nat → MultiXactIdPrecedes (mid (j0 + Z.of_nat k)) (oldestMultiXactId s) = false ∧ MultiXactIdPrecedes (mid (j0 + Z.of_nat k)) (nextMXact s) = true.
Proof.
  intros Hk. pose proof (h_count s j0 lo A hist Hh) as Hc. unfold zlen in *. unfold MultiXactIdPrecedes. rewrite (h_oldest s j0 lo A hist Hh). split.
  - apply Z.ltb_ge, int32_small. destruct (mid_distance j0 (Z.of_nat k)) as [-> | ->]; lia.
  - destruct (h_next s j0 lo A hist Hh) as (_ & _ & E & _). rewrite E by (intros ->; cbn in Hk; lia). apply Z.ltb_lt, int32_neg. unfold zlen.
    assert (Hd := mid_distance (j0 + Z.of_nat k) (Z.of_nat (length hist) - 1 - Z.of_nat k) ltac:(lia)).
    replace (j0 + Z.of_nat k + (Z.of_nat (length hist) - 1 - Z.of_nat k)) with (j0 + Z.of_nat (length hist) - 1) in Hd by lia. unfold uint32.
    assert (E' : (- (mid (j0 + Z.of_nat k) - (mid (j0 + Z.of_nat (length hist) - 1) + 1) mod 2 ^ 32)) mod 2 ^ 32 =
      ((mid (j0 + Z.of_nat (length hist) - 1) - mid (j0 + Z.of_nat k)) mod 2 ^ 32 + 1) mod 2 ^ 32) by mlia.
    rewrite E', Z.mod_small by (destruct Hd as [-> | ->]; lia). destruct Hd as [-> | ->]; lia.
Qed.

(** The members of an id in use, read from the two areas. *)
Lemma read_live ov lock cache k a ms : hist !! k = Some (a, ms) → mXactCacheGetById (mid (j0 + Z.of_nat k)) cache = (None, cache) →
  (lock = true → MultiXactIdPrecedes (mid (j0 + Z.of_nat k)) ov = false) →
  GetMultiXactIdMembers ov (mid (j0 + Z.of_nat k)) false lock s cache = Ok (Some ms, mXactCachePut (mid (j0 + Z.of_nat k)) ms cache).
Proof.
  intros Hk Hc Hlock. pose proof (lookup_lt_Some _ _ _ Hk) as Hlt. destruct (live_limits k Hlt) as [L1 L2]. destruct (h_entry s j0 lo A hist Hh k a ms Hk) as [(E1 & E2 & E2' & _) [E3 E4] E5 E6 E7 E8].
  unfold GetMultiXactIdMembers. assert (MultiXactIdIsValid (mid (j0 + Z.of_nat k)) = true) as ->.
  { pose proof (mid_range (j0 + Z.of_nat k)). unfold MultiXactIdIsValid, InvalidMultiXactId. destruct (Z.eqb_spec (mid (j0 + Z.of_nat k)) 0); [lia|done]. }
  cbn [negb orb]. rewrite Hc. assert (lock && MultiXactIdPrecedes (mid (j0 + Z.of_nat k)) ov = false) as -> by (destruct lock; [auto|done]).
  rewrite L1, L2. cbn [negb]. rewrite !offset_word_code, E4. rsimpl. destruct (read_members_spec ms a s E6) as [R1 R2].
  destruct (Z.eqb_spec (nextMXact s) (uint32 (mid (j0 + Z.of_nat k) + 1))) as [En|En].
  - rsimpl. rewrite (h_offset s j0 lo A hist Hh). assert (Hlast : hist !! S k = None).
    { destruct (hist !! S k) as [e|] eqn:Hn; [|done]. apply lookup_lt_Some in Hn. exfalso. destruct (h_next s j0 lo A hist Hh) as (_ & _ & E & _).
      rewrite E in En by (intros ->; cbn in Hlt; lia). pose proof (h_count s j0 lo A hist Hh). assert (Em : mid (j0 + zlen hist - 1) = mid (j0 + Z.of_nat k)).
      { pose proof (mid_range (j0 + zlen hist - 1)). pose proof (mid_range (j0 + Z.of_nat k)). unfold uint32, MaxMultiXactId in *. mlia. }
      apply mid_inj in Em; unfold ids, zlen in *; lia. }
    rewrite (E7 Hlast). assert (int32 ((a + zlen ms) mod ring - a mod ring) = zlen ms) as ->.
    { apply int32_len; [|lia]. unfold zlen, ring in *. clear -E2'. mlia. }
    unfold zlen. rewrite Nat2Z.id, R1. done.
  - assert (Hmore : is_Some (hist !! S k)).
    { destruct (hist !! S k) as [e|] eqn:Hn; [done|]. exfalso. apply lookup_ge_None in Hn. destruct (h_next s j0 lo A hist Hh) as (_ & _ & E & _). apply En.
      rewrite E by (intros ->; cbn in Hlt; lia). do 2 f_equal. f_equal. unfold zlen. lia. }
    fold (next_id (mid (j0 + Z.of_nat k))). rewrite next_mid, (E5 Hmore). rsimpl. destruct (wrap_adv (a + zlen ms)) as [Ew Ew']. rewrite Ew.
    destruct (Z.eqb_spec (adv (a + zlen ms) mod ring) 0) as [|_]; [done|]. rsimpl.
    unfold adv. destruct (Z.eqb_spec ((a + zlen ms) mod ring) 0) as [Ez|Ez].
    + assert (int32 ((a + zlen ms + 1) mod ring - a mod ring) = zlen ms + 1) as ->.
      { apply int32_len; [unfold zlen, ring in *; clear -E2'; mlia|lia]. }
      replace (Z.to_nat (zlen ms + 1)) with (S (length ms)) by (unfold zlen; lia). rewrite R2; [done|]. rewrite Ez. by apply E8.
    + assert (int32 ((a + zlen ms) mod ring - a mod ring) = zlen ms) as ->.
      { apply int32_len; [|lia]. unfold zlen, ring in *. clear -E2'. mlia. }
      unfold zlen. rewrite Nat2Z.id, R1. done.
Qed.
End reading.

(** ** Assigning an id *)

(** What is not past the boundary is in front of it. *)
Lemma no_wrap B A d : A < B ≤ A + ring → 0 ≤ d < 2 ^ 31 → MultiXactOffsetWouldWrap (B mod ring) (A mod ring) d = false → A + d < B.
Proof.
  intros HB Hd. unfold MultiXactOffsetWouldWrap. assert (Hq : ∃ q, A = q * ring + A mod ring) by (exists (A / ring); unfold ring; mlia). destruct Hq as [q Hq].
  pose proof (ring_range A) as HA. pose proof (ring_range B) as HBr. set (S := A mod ring) in *. set (Bs := B mod ring) in *.
  assert (EB : B = q * ring + Bs ∧ S < Bs ∨ B = (q + 1) * ring + Bs ∧ Bs ≤ S).
  { subst S Bs. clearbody q || idtac. unfold ring in *. clear Hd. mlia. }
  assert (Ef : uint32 (S + d) = if decide (S + d < ring) then S + d else S + d - ring).
  { unfold uint32, ring in *. clearbody S Bs. clear -HA Hd. destruct (decide _); mlia. }
  rewrite Ef. clear Ef. assert (Eu : ∀ z, 0 ≤ z < ring → uint32 z = z) by (intros z Hz; apply Z.mod_small; unfold ring in Hz; lia).
  clearbody S Bs. destruct (decide (S + d < ring)) as [Hs|Hs].
  - destruct (Z.ltb_spec (S + d) S); [lia|]. destruct (Z.ltb_spec S Bs), (Z.leb_spec Bs (S + d)), (Z.ltb_spec (S + d) S); cbn [orb andb]; try done; intros _; unfold ring in *; lia.
  - destruct (Z.ltb_spec (S + d - ring) S); [|unfold ring in *; lia]. rewrite Eu by (unfold ring in *; lia).
    destruct (Z.ltb_spec S Bs), (Z.leb_spec Bs (S + d - ring + 1)), (Z.ltb_spec (S + d - ring + 1) S); cbn [orb andb]; try done; intros _; unfold ring in *; lia.
Qed.

(** What assigning the id leaves for recording it. *)
Record assigned s (j0 lo A n : Z) (nm a : Z) s1 : Prop := {
  as_start : a = adv A ∧ a + nm < limit lo;
  as_next : nextMXact s1 = uint32 (mid (j0 + n) + 1) ∧ nextOffset s1 = (a + nm) mod ring;
  as_same : oldestMultiXactId s1 = oldestMultiXactId s ∧ oldestOffsetKnown s1 = oldestOffsetKnown s ∧ offsetStopLimit s1 = offsetStopLimit s ∧
            multiVacLimit s1 = multiVacLimit s ∧ multiStopLimit s1 = multiStopLimit s;
  as_pages : wf_pages (offset_pages s1) ∧ wf_pages (member_pages s1);
  as_count : n < 2 ^ 31 - 2999999;
  as_offsets : is_Some (offset_pages s1 !! (mid (j0 + n) / page_words)) ∧ is_Some (offset_pages s1 !! (mid (j0 + n + 1) / page_words)) ∧
               ∀ i, j0 ≤ i ≤ j0 + n → offset_word s1 (mid i) = offset_word s (mid i);
  as_grown : grown A (a + nm - A) (member_pages s) (member_pages s1) ∧ ∀ x, A ≤ x < a + nm → has_slot s1 (x mod ring);
  as_zero : A mod ring = 0 → member_pages s1 !! 0 = Some zero_words;
}.

(** The two checks of the code. *)
Definition ids_left s (multi : Z) : bool := MultiXactIdPrecedes multi (multiVacLimit s) || MultiXactIdPrecedes multi (multiStopLimit s).

Lemma next_limit s j0 lo A hist : holds s j0 lo A hist → ids_left s (mid (j0 + zlen hist)) = true → zlen hist < 2 ^ 31 - 2999999.
Proof.
  intros Hh Hl. pose proof (h_count s j0 lo A hist Hh) as Hc. pose proof (mid_distance j0 (zlen hist) ltac:(unfold zlen in *; lia)) as Hd. pose proof (mid_range (j0 + zlen hist)) as Hr.
  assert (∃ d, zlen hist ≤ d < 2 ^ 31 ∧ mid (j0 + zlen hist) = uint32 (mid j0 + d)) as (d & Hd1 & Hd2).
  { exists ((mid (j0 + zlen hist) - mid j0) mod 2 ^ 32). split; [unfold zlen in *; destruct Hd as [-> | ->]; lia|]. unfold uint32. rewrite Zplus_mod_idemp_r.
    replace (mid j0 + (mid (j0 + zlen hist) - mid j0)) with (mid (j0 + zlen hist)) by lia. rewrite Z.mod_small; [done|]. unfold MaxMultiXactId in Hr. lia. }
  assert (d < 2 ^ 31 - 2999999); [|lia]. apply (h_ids s j0 lo A hist Hh); [unfold zlen in *; lia|]. rewrite <- Hd2. by apply orb_true_iff.
Qed.

(** The id is assigned when both checks pass. *)
Lemma get_new s j0 lo A hist nm : holds s j0 lo A hist → 0 < nm → nm + 1 < 2 ^ 31 →
  if ids_left s (mid (j0 + zlen hist)) && negb (MultiXactOffsetWouldWrap (limit lo mod ring) (A mod ring) (adv A + nm - A))
  then ∃ s1, GetNewMultiXactId false true nm s = Ok (mid (j0 + zlen hist), adv A mod ring, s1) ∧ assigned s j0 lo A (zlen hist) nm (adv A) s1
  else ∃ e, GetNewMultiXactId false true nm s = Err e.
Proof.
  intros Hh Hnm Hnm'. unfold GetNewMultiXactId. set (s0 := if nextMXact s <? FirstMultiXactId then set_next FirstMultiXactId (nextOffset s) s else s).
  destruct (h_next s j0 lo A hist Hh) as (N1 & N2 & _). destruct (h_pages s j0 lo A hist Hh) as [W1 W2]. destruct (h_stop s j0 lo A hist Hh) as (S1 & S2 & S3).
  assert (E0 : s0 = set_next (mid (j0 + zlen hist)) (nextOffset s) s) by (rewrite <- N2; unfold s0, valid_next; destruct (nextMXact s <? FirstMultiXactId); [done|by destruct s]).
  rewrite E0. cbn [set_next nextMXact multiVacLimit multiStopLimit]. clear s0 E0. pose proof (next_limit s j0 lo A hist Hh) as Hcount.
  assert (El : ∀ b c, negb b && (true && negb c) = negb (b || c)) by (by intros [] []). rewrite El. fold (ids_left s (mid (j0 + zlen hist))).
  destruct (ids_left s _); cbn [negb andb]; [|by eexists].
  destruct (extend_offset_spec (j0 + zlen hist) (set_next (mid (j0 + zlen hist)) (nextOffset s) s) W1 (h_here s j0 lo A hist Hh)) as (op & Eo & O1 & O2 & O3 & O4).
  rewrite Eo. cbn [set_offset_pages set_next nextOffset oldestOffsetKnown offsetStopLimit nextMXact]. rewrite (h_offset s j0 lo A hist Hh), S1, S2. cbn [andb].
  set (nm1 := adv A + nm - A).
  assert (Epair : (if A mod ring =? 0 then (1, nm + 1) else (A mod ring, nm)) = (adv A mod ring, nm1)).
  { unfold nm1, adv. destruct (Z.eqb_spec (A mod ring) 0) as [Ez|Ez]; f_equal; try lia. unfold ring in *. mlia. }
  rewrite Epair. destruct (MultiXactOffsetWouldWrap (limit lo mod ring) (A mod ring) nm1) eqn:Hw; cbn [negb]; [by eexists|].
  assert (Hn1 : 0 < nm1 < 2 ^ 31) by (unfold nm1, adv; destruct (_ =? 0); lia).
  apply no_wrap in Hw; [|clear -S3; unfold limit, segment, ring in *; mlia|lia].
  unfold ExtendMultiXactMember.
  destruct (extend_members_spec (Z.to_nat nm1 + 1) A nm1 (set_offset_pages op (set_next (mid (j0 + zlen hist)) (A mod ring) s))) as (mp & Em & G1 & _ & G3 & G4); [lia|lia|intros _; apply (h_slot s j0 lo A hist Hh)|].
  cbn [set_offset_pages set_next] in Em. rewrite Em. rsimpl. eexists. split; [done|].
  cbn [set_member_pages set_next nextMXact nextOffset member_pages] in *.
  constructor; cbn [set_member_pages set_offset_pages set_next nextMXact nextOffset offset_pages member_pages oldestMultiXactId oldestOffsetKnown offsetStopLimit multiVacLimit multiStopLimit]; try done.
  - split; [done|]. unfold nm1 in *. lia.
  - split; [done|]. rewrite ring_succ. f_equal. unfold nm1. lia.
  - split; [done|]. by apply (grown_wf A nm1 (member_pages s)).
  - auto.
  - split_and!; [done|done|]. intros i Hi. apply (O4 i); unfold ids, page_words, zlen in *; lia.
  - split; [done|]. intros x Hx. apply G3. unfold nm1. lia.
  - intros Hz. rewrite Hz in G4. apply G4; [lia|done].
Qed.

(** ** Recording it *)

(** Growing the area loses no member that is in use. *)
Lemma grown_read A n lo pages0 s y : grown A n pages0 (member_pages s) → A + n ≤ limit lo → lo ≤ y < A → read_member (y mod ring) s = read_member (y mod ring) (set_member_pages pages0 s).
Proof.
  intros Hg Hlim Hy. rewrite !read_member_words by apply ring_range. cbn [set_member_pages member_pages].
  assert (E : member_pages s !! (y mod ring / members_page) = pages0 !! (y mod ring / members_page)).
  { destruct (Hg (y mod ring / members_page)) as [->|(_ & z & Hz & Ez)]; [done|]. exfalso.
    assert (Hd : ∃ d, 0 ≤ d < members_page ∧ y mod ring = z mod ring + d) by (exists (y mod ring mod members_page); rewrite Ez; clear; unfold members_page; mlia).
    destruct Hd as (d & Hd & Ed). assert (E : y mod ring = (z + d) mod ring) by (rewrite <- Zplus_mod_idemp_l, <- Ed, Z.mod_mod by (unfold ring; lia); done).
    assert (limit lo ≤ lo + ring - segment) by (clear; unfold limit, ring, segment; mlia).
    apply ring_inj in E; unfold members_page, segment, ring in *; lia. }
  unfold get_word, SimpleLruReadPage. by rewrite E.
Qed.

Lemma read_zero s : member_pages s !! 0 = Some zero_words → read_member 0 s = Ok None.
Proof. intros E. rewrite read_member_words by lia. unfold get_word, SimpleLruReadPage. change (0 / members_page) with 0. by rewrite E. Qed.

Lemma grown_zero A n pages0 s : grown A n pages0 (member_pages s) → read_member 0 (set_member_pages pages0 s) = Ok None → read_member 0 s = Ok None.
Proof.
  intros Hg H. destruct (Hg 0) as [E|[E _]]; [|by apply read_zero]. rewrite read_member_words in * by lia. unfold get_word, SimpleLruReadPage in *. change (0 / members_page) with 0 in *.
  cbn [set_member_pages member_pages] in H. by rewrite E.
Qed.

Lemma adv_range A : A ≤ adv A ≤ A + 1 ∧ adv A mod ring ≠ 0.
Proof. split; [unfold adv; destruct (_ =? 0); lia|apply wrap_adv]. Qed.

(** What recording leaves of the entries before. *)
Section record.
Context s j0 lo A hist (Hh : holds s j0 lo A hist) ms s1 (Ha : assigned s j0 lo A (zlen hist) (zlen ms) (adv A) s1).
Context (opages mpages : gmap Z (list Z)) (Hok : ms ≠ [] ∧ Forall member_ok ms ∧ zlen ms + 1 < 2 ^ 31 ∧ sort_members ms = ms).
Context (HO : ∀ i, i < j0 + zlen hist + ids → j0 + zlen hist + 1 < i + ids → get_word opages (mid i / page_words) (mid i mod page_words) =
  if decide (i = j0 + zlen hist) then Ok (adv A mod ring) else if decide (i = j0 + zlen hist + 1) then Ok (wrap_offset (adv A + zlen ms)) else offset_word s1 (mid i)).
Context (HR : ∀ (i : nat) m, ms !! i = Some m → read_member ((adv A + Z.of_nat i) mod ring) (set_member_pages mpages s1) = Ok (Some m)).
Context (HR' : ∀ y, 0 ≤ y → (∀ i, 0 ≤ i < zlen ms → y ≠ (adv A + i) mod ring) → read_member y (set_member_pages mpages s1) = read_member y s1).
Let s2 := set_member_pages mpages (set_offset_pages opages s1).

Lemma lim_bound : adv A + zlen ms < limit lo ∧ limit lo ≤ lo + ring - segment.
Proof. split; [apply (as_start _ _ _ _ _ _ _ _ Ha)|]. clear. unfold limit, ring, segment. mlia. Qed.

Lemma old_member y : lo ≤ y < A → read_member (y mod ring) s2 = read_member (y mod ring) s.
Proof.
  intros Hy. destruct lim_bound as [L1 L2]. destruct (adv_range A) as [L3 _]. transitivity (read_member (y mod ring) s1).
  - apply HR'; [apply ring_range|]. intros i Hi E. apply ring_inj in E; unfold segment in *; lia.
  - rewrite (grown_read A (adv A + zlen ms - A) lo (member_pages s)); [done|apply (as_grown _ _ _ _ _ _ _ _ Ha)|lia|done].
Qed.

Lemma old_zero y : lo ≤ y ≤ A → y mod ring = 0 → read_member 0 s1 = Ok None → read_member 0 s2 = Ok None.
Proof.
  intros Hy Hz <-. destruct lim_bound as [L1 L2]. destruct (adv_range A) as [L3 L4]. apply HR'; [lia|]. intros i Hi E. rewrite <- Hz in E. apply ring_inj in E; [|unfold segment in *; lia..].
  assert (y = adv A) as -> by lia. done.
Qed.

Lemma offset_kept i : j0 ≤ i < j0 + zlen hist → offset_word s2 (mid i) = offset_word s (mid i).
Proof.
  intros Hi. pose proof (h_count _ _ _ _ _ Hh). unfold offset_word, s2. cbn [set_member_pages set_offset_pages offset_pages]. rewrite HO by (unfold ids in *; lia).
  rewrite !decide_False by lia. apply (as_offsets _ _ _ _ _ _ _ _ Ha). lia.
Qed.

Lemma offset_new : offset_word s2 (mid (j0 + zlen hist)) = Ok (adv A mod ring) ∧ offset_word s2 (mid (j0 + zlen hist + 1)) = Ok (wrap_offset (adv A + zlen ms)).
Proof.
  unfold offset_word, s2. cbn [set_member_pages set_offset_pages offset_pages]. split; rewrite HO by (unfold ids in *; lia); [by rewrite decide_True|]. rewrite decide_False by lia. by rewrite decide_True.
Qed.

Lemma old_entry k a ms' : hist !! k = Some (a, ms') → entry_ok s2 j0 (adv A + zlen ms) (hist ++ [(adv A, ms)]) k a ms'.
Proof.
  intros Hk. pose proof (lookup_lt_Some _ _ _ Hk) as Hlt. destruct (h_range _ _ _ _ _ Hh k a ms' Hk) as [R1 R2]. destruct (h_entry _ _ _ _ _ Hh k a ms' Hk) as [E1 [E2 E3] E4 E5 E6 E7].
  destruct (adv_range A) as [L3 L4]. constructor; [done| | | | |].
  - split; [done|]. rewrite offset_kept by (unfold zlen; lia). done.
  - intros _. destruct (decide (S k = length hist)) as [El|El].
    + assert (EA : A = a + zlen ms') by (apply E6, lookup_ge_None; lia). replace (j0 + Z.of_nat k + 1) with (j0 + zlen hist) by (unfold zlen; lia). destruct offset_new as [-> _].
      rewrite <- EA. f_equal. symmetry. apply wrap_adv.
    + rewrite offset_kept by (unfold zlen; lia). apply E4, lookup_lt_is_Some. lia.
  - intros i m Hi. pose proof (lookup_lt_Some _ _ _ Hi). rewrite old_member by (unfold zlen in *; lia). by apply E5.
  - rewrite lookup_ge_None, length_app. cbn [length]. lia.
  - intros _ Hz. apply (old_zero (a + zlen ms')); [unfold zlen in *; lia|done|]. destruct (decide (S k = length hist)) as [El|El].
    + assert (EA : A = a + zlen ms') by (apply E6, lookup_ge_None; lia). apply read_zero, (as_zero _ _ _ _ _ _ _ _ Ha). by rewrite EA.
    + apply (grown_zero A (adv A + zlen ms - A) (member_pages s)); [apply (as_grown _ _ _ _ _ _ _ _ Ha)|]. apply E7; [|done]. apply lookup_lt_is_Some. lia.
Qed.

Lemma new_entry : entry_ok s2 j0 (adv A + zlen ms) (hist ++ [(adv A, ms)]) (length hist) (adv A) ms.
Proof.
  destruct offset_new as [O1 O2]. constructor; [done| | |done|done|].
  - split; [apply adv_range|exact O1].
  - intros _. exact O2.
  - intros [e He]. apply lookup_lt_Some in He. rewrite length_app in He. cbn [length] in He. lia.
Qed.
End record.

(** A new id: its members are added and every other id keeps its own. *)
Lemma record_holds s j0 lo A hist ms s1 : holds s j0 lo A hist →
  ms ≠ [] → Forall member_ok ms → zlen ms + 1 < 2 ^ 31 → sort_members ms = ms → assigned s j0 lo A (zlen hist) (zlen ms) (adv A) s1 →
  ∃ s2, RecordNewMultiXact (mid (j0 + zlen hist)) (adv A mod ring) ms s1 = Ok s2 ∧ holds s2 j0 lo (adv A + zlen ms) (hist ++ [(adv A, ms)]).
Proof.
  intros Hh Hne Hok Hlen Hsort Ha. assert (Hpos : 0 < zlen ms) by (destruct ms; [done|unfold zlen; cbn [length]; lia]). pose proof Ha as Ha'.
  destruct Ha' as [[_ B1] [B2 B3] (B4 & B5 & B6 & B7 & B8) [B9 B10] B11 (B12 & B13 & B14) [B15 B16] B17]. destruct (adv_range A) as [L3 L4].
  destruct (record_multi (j0 + zlen hist) (adv A) ms s1 B9 B10 B12 B13) as (op & mp & E & W1 & W2 & K1 & K2 & HO & HR & HR'); [intros i Hi; apply B16; lia|unfold ring; lia|done|].
  eexists. split; [exact E|]. assert (Hm : ms ≠ [] ∧ Forall member_ok ms ∧ zlen ms + 1 < 2 ^ 31 ∧ sort_members ms = ms) by done.
  assert (Hz : zlen (hist ++ [(adv A, ms)]) = zlen hist + 1) by (unfold zlen; rewrite length_app; cbn [length]; lia).
  constructor; cbn [set_member_pages set_offset_pages offset_pages member_pages oldestMultiXactId nextMXact nextOffset oldestOffsetKnown offsetStopLimit multiVacLimit multiStopLimit]; rewrite ?Hz.
  - done.
  - rewrite B4. apply (h_oldest _ _ _ _ _ Hh).
  - rewrite B2. split_and!; [unfold uint32, MaxMultiXactId; mlia|unfold uint32, MaxMultiXactId; mlia| | |].
    + rewrite Z.add_assoc. apply next_mid.
    + intros _. do 3 f_equal. lia.
    + by destruct hist.
  - done.
  - intros k a ms'. rewrite lookup_app_Some. intros [Hk|[_ Hk]].
    + destruct (h_range _ _ _ _ _ Hh k a ms' Hk). lia.
    + apply list_lookup_singleton_Some in Hk as [_ [= <- <-]]. destruct (h_stop _ _ _ _ _ Hh). lia.
  - intros k a ms'. rewrite lookup_app_Some. intros [Hk|[Hk1 Hk]].
    + by apply (old_entry s j0 lo A hist Hh ms s1 Ha op mp).
    + apply list_lookup_singleton_Some in Hk as [Hk2 [= <- <-]]. assert (k = length hist) as -> by lia. by eapply new_entry.
  - eexists. rewrite Z.add_assoc. eapply offset_new, HO.
  - intros Hs. assert (Hp : (adv A + zlen ms) mod ring / members_page = (adv A + zlen ms - 1) mod ring / members_page).
    { clear -Hs. unfold members_page, ring in *. set (x := adv A + zlen ms) in *. clearbody x. mlia. }
    unfold has_slot. cbn [set_member_pages set_offset_pages member_pages]. rewrite Hp. apply K2, B16. lia.
  - rewrite B5, B6. destruct (h_stop _ _ _ _ _ Hh) as (S1 & S2 & S3). split_and!; [done|done|lia|lia].
  - lia.
  - rewrite B7, B8. apply (h_ids _ _ _ _ _ Hh).
Qed.
