(* ===== verification/Multis.v ===== *)
(** MultiXactIds as the backends use them: several backends with their own caches create, read
    and expand ids in any order, and together they behave as one table from ids to members. *)

From Stdlib Require Import Sorted.
From S2P Require Import Prelude Xid Bufpage PageOps Clog ClogPages Combocid Multixact Members.

Implicit Types (s : MultiXactState) (ms : list (Z * Z)) (cache : Cache) (hist : History).

(** * Sorting *)

Lemma insert_member_perm m ms : insert_member m ms ≡ₚ m :: ms.
Proof.
  induction ms as [|m' ms IH]; cbn [insert_member]; [done|]. destruct (0 <? _); [|done]. rewrite IH. apply Permutation_swap.
Qed.

Lemma sort_members_perm ms : sort_members ms ≡ₚ ms.
Proof. induction ms as [|m ms IH]; [done|]. unfold sort_members in *. cbn [foldr]. by rewrite insert_member_perm, IH. Qed.

Definition member_le (m m' : Z * Z) : Prop := mxactMemberComparator m m' ≤ 0.

Lemma member_le_cases m m' : member_le m m' ↔ m.1 < m'.1 ∨ m.1 = m'.1 ∧ m.2 ≤ m'.2.
Proof.
  unfold member_le, mxactMemberComparator. destruct (Z.ltb_spec m'.1 m.1), (Z.ltb_spec m.1 m'.1), (Z.ltb_spec m'.2 m.2), (Z.ltb_spec m.2 m'.2); lia.
Qed.

Lemma insert_member_sorted m ms : Sorted member_le ms → Sorted member_le (insert_member m ms).
Proof.
  induction 1 as [|m' ms Hs IH Hd]; cbn [insert_member]; [by repeat constructor|]. destruct (Z.ltb_spec 0 (mxactMemberComparator m m')) as [Hlt|Hle].
  - constructor; [done|]. assert (Hm : member_le m' m).
    { apply member_le_cases. unfold mxactMemberComparator in Hlt. destruct (Z.ltb_spec m'.1 m.1), (Z.ltb_spec m.1 m'.1), (Z.ltb_spec m'.2 m.2), (Z.ltb_spec m.2 m'.2); lia. }
    destruct Hd as [|m2 ms Hd]; cbn [insert_member]; [by constructor|]. destruct (0 <? _); by constructor.
  - constructor; [by constructor|by constructor].
Qed.

Lemma sort_members_sorted ms : Sorted member_le (sort_members ms).
Proof. induction ms as [|m ms IH]; [constructor|]. by apply insert_member_sorted. Qed.

Lemma sort_members_id ms : Sorted member_le ms → sort_members ms = ms.
Proof.
  induction 1 as [|m ms Hs IH Hd]; [done|]. unfold sort_members in *. cbn [foldr]. rewrite IH. destruct Hd as [|m' ms Hd]; cbn [insert_member]; [done|].
  unfold member_le in Hd. destruct (Z.ltb_spec 0 (mxactMemberComparator m m')); [lia|done].
Qed.

Lemma sort_sort ms : sort_members (sort_members ms) = sort_members ms.
Proof. apply sort_members_id, sort_members_sorted. Qed.

Lemma sort_props ms : ms ≠ [] → Forall member_ok ms → sort_members ms ≠ [] ∧ Forall member_ok (sort_members ms) ∧ zlen (sort_members ms) = zlen ms.
Proof.
  intros Hne Hok. pose proof (sort_members_perm ms) as Hp. split_and!.
  - intros E. rewrite E in Hp. by apply Permutation_nil_l in Hp.
  - by rewrite Hp.
  - unfold zlen. by rewrite Hp.
Qed.

(** * Caches *)

(** Every entry of a cache is an id in use with its members. *)
Definition cache_ok (j0 : Z) hist cache : Prop := ∀ multi ms, (multi, ms) ∈ cache → ∃ (k : nat) a, hist !! k = Some (a, ms) ∧ multi = mid (j0 + Z.of_nat k).

Lemma take_entry_Some test cache e rest : take_entry test cache = Some (e, rest) → test e = true ∧ cache ≡ₚ e :: rest.
Proof.
  revert e rest. induction cache as [|e0 cache IH]; intros e rest; cbn [take_entry]; [done|]. destruct (test e0) eqn:Ht; [by intros [= -> ->]|].
  destruct (take_entry test cache) as [[e' rest']|]; [|done]. intros [= -> <-]. destruct (IH e rest' eq_refl) as [H1 H2]. split; [done|]. rewrite H2. apply Permutation_swap.
Qed.

Section caches.
Context (j0 : Z) hist cache (Hc : cache_ok j0 hist cache).

Lemma cache_ok_perm cache' : cache ≡ₚ cache' → cache_ok j0 hist cache'.
Proof using Hc. intros E multi ms He. rewrite <- E in He. by apply Hc. Qed.

Lemma put_ok (k : nat) a ms : hist !! k = Some (a, ms) → sort_members ms = ms → cache_ok j0 hist (mXactCachePut (mid (j0 + Z.of_nat k)) ms cache).
Proof using Hc.
  intros Hk Hs. assert (H : cache_ok j0 hist ((mid (j0 + Z.of_nat k), sort_members ms) :: cache)).
  { intros multi ms'. rewrite elem_of_cons. intros [[= -> ->]|He]; [|by apply Hc]. exists k, a. by rewrite Hs. }
  unfold mXactCachePut. destruct (_ <? _)%nat; [|done]. intros multi ms' He. apply H.
  rewrite (app_removelast_last (l := (mid (j0 + Z.of_nat k), sort_members ms) :: cache) (0, [])) by done. apply elem_of_app. by left.
Qed.

Lemma cache_ok_grow e : cache_ok j0 (hist ++ [e]) cache.
Proof using Hc. intros multi ms He. destruct (Hc multi ms He) as (k & a & Hk & E). exists k, a. split; [|done]. by apply lookup_app_l_Some. Qed.
End caches.

Lemma get_by_id_Some multi ms cache cache' : mXactCacheGetById multi cache = (Some ms, cache') → (multi, ms) ∈ cache ∧ cache ≡ₚ cache'.
Proof.
  unfold mXactCacheGetById. destruct (take_entry _ cache) as [[[m ms'] rest]|] eqn:Ht; [|done]. intros [= <- <-]. apply take_entry_Some in Ht as [Ht Hp].
  apply Z.eqb_eq in Ht. cbn in Ht. subst m. split; [|done]. rewrite Hp. by apply elem_of_cons; left.
Qed.

Lemma get_by_id_None multi cache cache' : mXactCacheGetById multi cache = (None, cache') → cache' = cache.
Proof. unfold mXactCacheGetById. by destruct (take_entry _ cache) as [[? ?]|]; intros [=]. Qed.

Lemma get_by_set ms cache ms' multi cache' : mXactCacheGetBySet ms cache = (ms', multi, cache') →
  ms' = sort_members ms ∧ cache ≡ₚ cache' ∧ (MultiXactIdIsValid multi = true → (multi, ms') ∈ cache).
Proof.
  unfold mXactCacheGetBySet. destruct (take_entry _ cache) as [[[m ms0] rest]|] eqn:Ht; intros [= <- <- <-]; [|done]. apply take_entry_Some in Ht as [Ht Hp].
  apply andb_true_iff in Ht as [_ Ht]. apply bool_decide_eq_true in Ht. cbn in Ht. subst ms0. split_and!; [done|done|]. intros _. rewrite Hp. by apply elem_of_cons; left.
Qed.

Lemma mid_valid j : MultiXactIdIsValid (mid j) = true.
Proof. pose proof (mid_range j). unfold MultiXactIdIsValid, InvalidMultiXactId. destruct (Z.eqb_spec (mid j) 0); [lia|done]. Qed.

Section uses.
Context s (j0 lo A : Z) hist (Hh : holds s j0 lo A hist).

Lemma position_unique (k k' : nat) e e' : hist !! k = Some e → hist !! k' = Some e' → mid (j0 + Z.of_nat k) = mid (j0 + Z.of_nat k') → k = k'.
Proof using Hh.
  intros H1 H2 E. pose proof (h_count _ _ _ _ _ Hh). pose proof (lookup_lt_Some _ _ _ H1). pose proof (lookup_lt_Some _ _ _ H2). apply mid_inj in E; unfold ids, zlen in *; lia.
Qed.

(** Reading through a cache. *)
Lemma read_cached cache ov lock (k : nat) a ms : cache_ok j0 hist cache → hist !! k = Some (a, ms) →
  (lock = true → MultiXactIdPrecedes (mid (j0 + Z.of_nat k)) ov = false) →
  ∃ cache', GetMultiXactIdMembers ov (mid (j0 + Z.of_nat k)) false lock s cache = Ok (Some ms, cache') ∧ cache_ok j0 hist cache'.
Proof using Hh.
  intros Hc Hk Hl. destruct (mXactCacheGetById (mid (j0 + Z.of_nat k)) cache) as [[ms'|] cache'] eqn:Hg.
  - exists cache'. pose proof Hg as [Hi Hp]%get_by_id_Some. split; [|by eapply cache_ok_perm]. unfold GetMultiXactIdMembers. rewrite Hg, mid_valid. cbn [negb orb].
    destruct (Hc _ _ Hi) as (k' & a' & Hk' & E). rewrite (position_unique k k' _ _ Hk Hk' E), Hk' in Hk. by injection Hk as -> ->.
  - pose proof (get_by_id_None _ _ _ Hg). subst cache'. eexists. split; [by eapply read_live|]. eapply put_ok; [done|done|]. apply (h_entry _ _ _ _ _ Hh k a ms Hk).
Qed.

(** Ids that are not in use are refused. *)
Lemma between_ids j n d e multi next : 0 < multi ≤ MaxMultiXactId → 0 < n < 2 ^ 31 - 1 → next = uint32 (mid (j + n - 1) + 1) →
  (multi - mid j) mod 2 ^ 32 = d → d < 2 ^ 31 → (next - multi) mod 2 ^ 32 = e → 0 < e ≤ 2 ^ 31 → ∃ k, 0 ≤ k < n ∧ multi = mid (j + k).
Proof.
  intros Hm Hn Hnext Hd Hd' He He'. pose proof (mid_range j) as Hr. set (q := j mod ids). assert (Hq : 0 ≤ q < ids) by (unfold q, ids; mlia). unfold MaxMultiXactId in *.
  assert (Emid : ∀ i, 0 ≤ i < 2 ^ 31 → mid (j + i) = 1 + (if decide (q + i < ids) then q + i else q + i - ids)).
  { intros i Hi. unfold mid. f_equal. unfold q in *. clearbody q || idtac. unfold ids in *. clear -Hi. destruct (decide _); mlia. }
  assert (E0 : mid j = 1 + q) by done. replace (j + n - 1) with (j + (n - 1)) in Hnext by lia. rewrite Emid in Hnext by lia. rewrite E0 in *. clearbody q.
  assert (Hd2 : d = if decide (1 + q ≤ multi) then multi - (1 + q) else multi - (1 + q) + 2 ^ 32) by (clear -Hd Hm Hq; unfold ids in *; destruct (decide _); mlia).
  assert (Hnx : next = let x := 1 + (if decide (q + (n - 1) < ids) then q + (n - 1) else q + (n - 1) - ids) + 1 in if decide (x < 2 ^ 32) then x else 0).
  { rewrite Hnext. cbv zeta. clear -Hq Hn. unfold uint32, ids in *. repeat destruct (decide _); mlia. }
  assert (He2 : e = if decide (multi ≤ next) then next - multi else next - multi + 2 ^ 32).
  { assert (0 ≤ next < 2 ^ 32) by (clear -Hnx Hq Hn; unfold ids in *; cbv zeta in Hnx; repeat destruct (decide _); lia). clear -He Hm H. destruct (decide _); mlia. }
  clear Hd He Hnext. exists (if decide (1 + q ≤ multi) then d else d - 1). cbv zeta in Hnx. unfold ids in *.
  destruct (decide (1 + q ≤ multi)); rewrite Emid by lia; repeat destruct (decide _); lia.
Qed.

Lemma between_in_use multi : 0 < multi ≤ MaxMultiXactId → MultiXactIdPrecedes multi (oldestMultiXactId s) = false → MultiXactIdPrecedes multi (nextMXact s) = true →
  ∃ k : nat, (k < length hist)%nat ∧ multi = mid (j0 + Z.of_nat k).
Proof using Hh.
  intros Hm H1 H2. unfold MultiXactIdPrecedes in *. rewrite (h_oldest _ _ _ _ _ Hh) in H1. destruct (h_next _ _ _ _ _ Hh) as (_ & _ & N1 & N2).
  apply Z.ltb_ge in H1. apply Z.ltb_lt in H2. destruct (decide (hist = [])) as [Hnil|Hnil]; [rewrite N2 in H2 by done; lia|].
  pose proof (h_count _ _ _ _ _ Hh). assert (0 < zlen hist) by (destruct hist; [done|unfold zlen; cbn [length]; lia]).
  destruct (between_ids j0 (zlen hist) ((multi - mid j0) mod 2 ^ 32) ((nextMXact s - multi) mod 2 ^ 32) multi (nextMXact s)) as (k & Hk & E); auto.
  - lia.
  - clear -H1. unfold int32 in H1. mlia.
  - clear -H2. unfold int32 in H2. mlia.
  - exists (Z.to_nat k). rewrite Z2Nat.id by lia. unfold zlen in *. split; [lia|done].
Qed.

Lemma read_unused cache ov multi : cache_ok j0 hist cache → 0 < multi ≤ MaxMultiXactId → (∀ k : nat, (k < length hist)%nat → multi ≠ mid (j0 + Z.of_nat k)) →
  ∃ e, GetMultiXactIdMembers ov multi false false s cache = Err e.
Proof using Hh.
  intros Hc Hm Hn. unfold GetMultiXactIdMembers. unfold MultiXactIdIsValid, InvalidMultiXactId. destruct (Z.eqb_spec multi 0); [lia|]. cbn [negb orb andb].
  destruct (mXactCacheGetById multi cache) as [[ms|] cache'] eqn:Hg.
  - apply get_by_id_Some in Hg as [Hi _]. destruct (Hc _ _ Hi) as (k & a & Hk & E). apply lookup_lt_Some in Hk. by destruct (Hn k).
  - destruct (MultiXactIdPrecedes multi (oldestMultiXactId s)) eqn:H1; [by eexists|]. destruct (MultiXactIdPrecedes multi (nextMXact s)) eqn:H2; cbn [negb]; [|by eexists].
    destruct (between_in_use multi Hm H1 H2) as (k & Hk & E). by destruct (Hn k).
Qed.
End uses.

(** * Creating *)

Lemma two_updaters_sort ms : has_two_updaters (sort_members ms) = has_two_updaters ms.
Proof.
  unfold has_two_updaters. f_equal. generalize (sort_members_perm ms). generalize (sort_members ms) as ms'.
  induction 1 as [|m l l' _ IH|m m' l|l1 l2 l3 _ IH1 _ IH2]; cbn [List.filter]; [done|by destruct (_ <? _); cbn [length]; rewrite ?IH|by repeat destruct (_ <? _)|congruence].
Qed.

(** Members that can be given. *)
Definition set_ok ms : Prop := ms ≠ [] ∧ Forall member_ok ms ∧ zlen ms + 1 < 2 ^ 31.

Section create.
Context s (j0 lo A : Z) hist (Hh : holds s j0 lo A hist) cache (Hc : cache_ok j0 hist cache) ms (Hok : set_ok ms).

(** Whether a new id can be made. *)
Definition room : bool := ids_left s (mid (j0 + zlen hist)) && negb (MultiXactOffsetWouldWrap (limit lo mod ring) (A mod ring) (adv A + zlen ms - A)).

Lemma create_cases :
  (∃ cache' (k : nat) a, MultiXactIdCreateFromMembers false true ms s cache = Ok (mid (j0 + Z.of_nat k), s, cache') ∧ hist !! k = Some (a, sort_members ms) ∧
     (mid (j0 + Z.of_nat k), sort_members ms) ∈ cache ∧ cache_ok j0 hist cache') ∨
  (∃ cache' s', has_two_updaters ms = false ∧ room = true ∧ MultiXactIdCreateFromMembers false true ms s cache = Ok (mid (j0 + zlen hist), s', cache') ∧
     holds s' j0 lo (adv A + zlen ms) (hist ++ [(adv A, sort_members ms)]) ∧ cache_ok j0 (hist ++ [(adv A, sort_members ms)]) cache') ∨
  (has_two_updaters ms || negb room = true ∧ ∃ e, MultiXactIdCreateFromMembers false true ms s cache = Err e).
Proof using Hh Hc Hok.
  destruct Hok as (H1 & H2 & H3). destruct (sort_props ms H1 H2) as (S1 & S2 & S3). unfold MultiXactIdCreateFromMembers.
  destruct (mXactCacheGetBySet ms cache) as [[ms' multi] cache'] eqn:Hg. apply get_by_set in Hg as (-> & Hp & Hi). pose proof (cache_ok_perm j0 hist cache Hc cache' Hp) as Hc'.
  destruct (MultiXactIdIsValid multi).
  { left. destruct (Hc _ _ (Hi eq_refl)) as (k & a & Hk & ->). eauto 12. }
  right. rewrite two_updaters_sort. destruct (has_two_updaters ms); [right; eauto|]. cbn [orb].
  assert (Hpos : 0 < zlen ms) by (destruct ms; [done|unfold zlen; cbn [length]; lia]). pose proof (get_new s j0 lo A hist (zlen ms) Hh Hpos H3) as Hn. fold room in Hn. rewrite S3.
  destruct room; cbn [negb]; [left|right; destruct Hn as [e ->]; eauto]. destruct Hn as (s1 & -> & Ha). rsimpl.
  rewrite <- S3 in Ha. destruct (record_holds s j0 lo A hist (sort_members ms) s1 Hh S1 S2) as (s2 & -> & Hh2); [lia|apply sort_sort|done|]. rsimpl. rewrite S3 in Hh2.
  eexists _, s2. split_and!; [done|done|done|done|]. replace (j0 + zlen hist) with (j0 + Z.of_nat (length hist)) by done.
  eapply put_ok; [by apply cache_ok_grow| |apply sort_sort]. apply lookup_app_Some. right. split; [lia|]. by rewrite Nat.sub_diag.
Qed.
End create.

(** * Several backends *)

(** The shared state and the cache of each backend.  Each operation is one step: an id that has
    been assigned and not recorded yet is known to its creator only. *)
Record System : Type := mkSystem { shared : MultiXactState; caches : gmap nat Cache }.
Implicit Types (sys : System).
Definition cache_of sys (b : nat) : Cache := default [] (caches sys !! b).
Definition updated (b : nat) s cache sys : System := mkSystem s (<[b := cache]> (caches sys)).

Inductive action : Type :=
  | Create (b : nat) (ms : list (Z * Z))
  | Ask (b : nat) (ov multi : Z)
  | Expand (b : nat) (IsInProgress DidCommit : Z → bool) (ov multi xid status : Z)
  | EndOfTransaction (b : nat).

Inductive event : Type :=
  | Created (ms : list (Z * Z)) (multi : Z)
  | Answered (multi : Z) (answer : option (list (Z * Z)))
  | Expanded (IsInProgress DidCommit : Z → bool) (multi xid status multi' : Z)
  | Ended.

(** A question about an id that is refused has no answer; a creation that fails ends the run. *)
Definition perform (act : action) sys : result (event * System) :=
  match act with
  | Create b ms =>
      r ← MultiXactIdCreateFromMembers false true ms (shared sys) (cache_of sys b);
      let '(multi, s, cache) := (r : Z * MultiXactState * Cache) in
      Ok (Created ms multi, updated b s cache sys)
  | Ask b ov multi =>
      match GetMultiXactIdMembers ov multi false false (shared sys) (cache_of sys b) with
      | Ok (answer, cache) => Ok (Answered multi answer, updated b (shared sys) cache sys)
      | Err _ => Ok (Answered multi None, sys)
      end
  | Expand b IsInProgress DidCommit ov multi xid status =>
      r ← MultiXactIdExpand false true IsInProgress DidCommit ov multi xid status (shared sys) (cache_of sys b);
      let '(multi', s, cache) := (r : Z * MultiXactState * Cache) in
      Ok (Expanded IsInProgress DidCommit multi xid status multi', updated b s cache sys)
  | EndOfTransaction b => Ok (Ended, updated b (shared sys) [] sys)
  end.

Fixpoint run (acts : list action) sys : result (list event * System) :=
  match acts with
  | [] => Ok ([], sys)
  | act :: acts =>
      r ← perform act sys;
      let '(ev, sys) := (r : event * System) in
      r ← run acts sys;
      let '(evs, sys) := (r : list event * System) in
      Ok (ev :: evs, sys)
  end.

Definition id_ok (multi : Z) : Prop := 0 < multi ≤ MaxMultiXactId.
Definition action_ok (act : action) : Prop :=
  match act with
  | Create _ ms => set_ok ms
  | Ask _ _ multi => id_ok multi
  | Expand _ _ _ _ multi xid status => id_ok multi ∧ member_ok (xid, status)
  | EndOfTransaction _ => True
  end.

(** ** The table *)

Abbreviation Table := (gmap Z (list (Z * Z))).
Implicit Types (T : Table).

(** Who still counts: the running ones, and those that updated and committed. *)
Definition counts (IsInProgress DidCommit : Z → bool) (m : Z * Z) : Prop := IsInProgress m.1 = true ∨ MultiXactStatusForUpdate < m.2 ∧ DidCommit m.1 = true.
#[global] Instance counts_dec p c m : Decision (counts p c m).
Proof. unfold counts. apply _. Defined.

(** An id stands for one set of members for ever: a set is given to an id that is new, or to
    one that has it already. *)
Inductive table_step : Table → event → Table → Prop :=
  | table_created T ms multi : T !! multi = None ∨ T !! multi = Some (sort_members ms) → table_step T (Created ms multi) (<[multi := sort_members ms]> T)
  | table_answered T multi : table_step T (Answered multi (T !! multi)) T
  | table_member T p c multi ms xid status : T !! multi = Some ms → (xid, status) ∈ ms → table_step T (Expanded p c multi xid status multi) T
  | table_expanded T p c multi ms xid status multi' T' : T !! multi = Some ms → (xid, status) ∉ ms →
      table_step T (Created (filter (counts p c) ms ++ [(xid, status)]) multi') T' → table_step T (Expanded p c multi xid status multi') T'
  | table_ended T : table_step T Ended T.

Inductive table_run : Table → list event → Table → Prop :=
  | table_stop T : table_run T [] T
  | table_next T ev T' evs T'' : table_step T ev T' → table_run T' evs T'' → table_run T (ev :: evs) T''.
Hint Constructors table_step table_run : core.

(** The ids in use as a table. *)
Definition represents (j0 : Z) hist T : Prop := ∀ multi ms, T !! multi = Some ms ↔ ∃ (k : nat) a, hist !! k = Some (a, ms) ∧ multi = mid (j0 + Z.of_nat k).

Record system_ok (j0 lo A : Z) hist sys T : Prop := {
  so_holds : holds (shared sys) j0 lo A hist;
  so_caches : ∀ b, cache_ok j0 hist (cache_of sys b);
  so_table : represents j0 hist T;
}.

Lemma updated_cache j0 hist b s cache sys : (∀ b, cache_ok j0 hist (cache_of sys b)) → cache_ok j0 hist cache → ∀ b', cache_ok j0 hist (cache_of (updated b s cache sys) b').
Proof. intros H Hc b'. unfold cache_of, updated. cbn. destruct (decide (b' = b)) as [->|]; [by rewrite lookup_insert_eq|]. rewrite lookup_insert_ne by done. apply H. Qed.

Lemma represents_fresh j0 hist T : represents j0 hist T → zlen hist ≤ 2 ^ 31 → T !! mid (j0 + zlen hist) = None.
Proof.
  intros HT Hn. destruct (T !! _) as [ms|] eqn:E; [|done]. apply HT in E as (k & a & Hk & E). apply lookup_lt_Some in Hk. apply mid_inj in E; unfold ids, zlen in *; lia.
Qed.

Lemma represents_snoc j0 hist T a ms : represents j0 hist T → zlen hist ≤ 2 ^ 31 → represents j0 (hist ++ [(a, ms)]) (<[mid (j0 + zlen hist) := ms]> T).
Proof.
  intros HT Hn multi ms'. destruct (decide (multi = mid (j0 + zlen hist))) as [->|Hne].
  - rewrite lookup_insert_eq. split.
    + intros [= <-]. exists (length hist), a. split; [|done]. apply lookup_app_Some. right. split; [lia|]. by rewrite Nat.sub_diag.
    + intros (k & a' & Hk & E). apply lookup_app_Some in Hk as [Hk|[Hk' Hk]].
      * apply lookup_lt_Some in Hk. apply mid_inj in E; unfold ids, zlen in *; lia.
      * by apply list_lookup_singleton_Some in Hk as [_ [= <- <-]].
  - rewrite lookup_insert_ne by done. rewrite (HT multi ms'). split; intros (k & a' & Hk & E); exists k, a'.
    + split; [|done]. apply lookup_app_Some. by left.
    + apply lookup_app_Some in Hk as [Hk|[Hk' Hk]]; [done|]. apply list_lookup_singleton_Some in Hk as [Hk2 _]. destruct Hne. rewrite E. f_equal. unfold zlen. lia.
Qed.

Section simulation.
Context (j0 lo : Z).

Lemma create_refines A hist sys T b ms multi s cache cache0 : system_ok j0 lo A hist sys T → cache_ok j0 hist cache0 → set_ok ms →
  MultiXactIdCreateFromMembers false true ms (shared sys) cache0 = Ok (multi, s, cache) →
  ∃ A' hist' T', table_step T (Created ms multi) T' ∧ system_ok j0 lo A' hist' (updated b s cache sys) T'.
Proof.
  intros [Hh Hc HT] Hc0 Hok E. destruct (create_cases (shared sys) j0 lo A hist Hh cache0 Hc0 ms Hok) as [(c & k & a & E' & Hk & _ & Hc')|[(c & s' & _ & _ & E' & Hh' & Hc')|(_ & e & E')]]; rewrite E' in E; [| |done].
  - injection E as <- <- <-. assert (HTk : T !! mid (j0 + Z.of_nat k) = Some (sort_members ms)) by (apply HT; eauto).
    exists A, hist, T. split; [|constructor; [done|by apply updated_cache|done]]. rewrite <- (insert_id T _ _ HTk) at 2. constructor. by right.
  - injection E as <- <- <-. pose proof (h_count _ _ _ _ _ Hh). eexists _, _, _. split; [constructor; left; by apply (represents_fresh j0 hist); [|lia]|].
    constructor; [done| |by apply represents_snoc; [|lia]]. apply updated_cache; [|done]. intros b'. by apply cache_ok_grow.
Qed.

Lemma ask_table A hist sys T b ov multi : system_ok j0 lo A hist sys T → id_ok multi →
  match T !! multi with
  | Some ms => ∃ cache, GetMultiXactIdMembers ov multi false false (shared sys) (cache_of sys b) = Ok (Some ms, cache) ∧ cache_ok j0 hist cache
  | None => ∃ e, GetMultiXactIdMembers ov multi false false (shared sys) (cache_of sys b) = Err e
  end.
Proof.
  intros [Hh Hc HT] Hid. destruct (T !! multi) as [ms|] eqn:E.
  - apply HT in E as (k & a & Hk & ->). by apply (read_cached (shared sys) j0 lo A hist Hh _ ov false k a ms).
  - apply (read_unused (shared sys) j0 lo A hist Hh); [done|done|]. intros k Hk ->. apply lookup_lt_is_Some in Hk as [[a ms] Hk]. assert (T !! mid (j0 + Z.of_nat k) = Some ms) by (apply HT; eauto). congruence.
Qed.

Lemma kept_members (p c : Z → bool) ms : List.filter (λ m, p m.1 || ((MultiXactStatusForUpdate <? m.2) && c m.1)) ms = filter (counts p c) ms.
Proof.
  induction ms as [|m ms IH]; [done|]. cbn [List.filter]. rewrite filter_cons, IH.
  destruct (decide (counts p c m)) as [D|D]; unfold counts in D;
    destruct (p m.1), (Z.ltb_spec MultiXactStatusForUpdate m.2), (c m.1); cbn [orb andb]; try done; exfalso; intuition (done || lia).
Qed.

Lemma member_present xid status ms : existsb (λ m, (m.1 =? xid) && (m.2 =? status)) ms = true ↔ (xid, status) ∈ ms.
Proof.
  rewrite existsb_exists. split.
  - intros ([x t] & Hm & [E1%Z.eqb_eq E2%Z.eqb_eq]%andb_true_iff). cbn in *. subst. by apply list_elem_of_In.
  - intros Hm%list_elem_of_In. exists (xid, status). cbn. by rewrite !Z.eqb_refl.
Qed.

Lemma expand_refines A hist sys T b p c ov multi xid status multi' s cache : system_ok j0 lo A hist sys T → id_ok multi → member_ok (xid, status) →
  MultiXactIdExpand false true p c ov multi xid status (shared sys) (cache_of sys b) = Ok (multi', s, cache) →
  ∃ A' hist' T', table_step T (Expanded p c multi xid status multi') T' ∧ system_ok j0 lo A' hist' (updated b s cache sys) T'.
Proof.
  intros Hs Hid Hm. pose proof (ask_table A hist sys T b ov multi Hs Hid) as Ha. unfold MultiXactIdExpand. destruct (T !! multi) as [ms|] eqn:HT; [|by destruct Ha as [e ->]].
  destruct Ha as (c0 & -> & Hc0). rsimpl. destruct (existsb _ ms) eqn:Hx.
  - intros [= <- <- <-]. apply member_present in Hx. exists A, hist, T. split; [eauto|]. destruct Hs as [Hh Hc HT']. constructor; [done|by apply updated_cache|done].
  - destruct (Z.ltb_spec MaxAllocSize (sizeof_MultiXactMember * (zlen ms + 1))) as [|Hlen]; [done|]. rewrite kept_members. intros E.
    assert (Hok : set_ok (filter (counts p c) ms ++ [(xid, status)])).
    { destruct Hs as [Hh _ HT']. apply HT' in HT as (k & a & Hk & _). destruct (en_members _ _ _ _ _ _ _ (h_entry _ _ _ _ _ Hh k a ms Hk)) as (_ & Hf & _ & _). split_and!.
      - by destruct (filter (counts p c) ms).
      - apply Forall_app. split; [by apply Forall_filter|by constructor].
      - pose proof (length_filter (counts p c) ms). unfold zlen, MaxAllocSize, sizeof_MultiXactMember in *. rewrite length_app. cbn [length]. lia. }
    destruct (create_refines A hist sys T b _ _ _ _ c0 Hs Hc0 Hok E) as (A' & hist' & T' & Hstep & Hs'). exists A', hist', T'. split; [|done].
    eapply table_expanded; [done| |done]. intros Hin. apply member_present in Hin. congruence.
Qed.

Lemma perform_refines A hist sys T act ev sys' : system_ok j0 lo A hist sys T → action_ok act → perform act sys = Ok (ev, sys') →
  ∃ A' hist' T', table_step T ev T' ∧ system_ok j0 lo A' hist' sys' T'.
Proof.
  intros Hs Hok. destruct act as [b ms|b ov multi|b p c ov multi xid status|b]; cbn [perform action_ok] in *.
  - destruct (MultiXactIdCreateFromMembers _ _ _ _ _) as [[[multi s] cache]|] eqn:E; rsimpl; [|done]. intros [= <- <-]. eapply create_refines; [done| |done|done]. apply (so_caches _ _ _ _ _ _ Hs).
  - pose proof (ask_table A hist sys T b ov multi Hs Hok) as Ha. destruct (T !! multi) as [ms|] eqn:HT.
    + destruct Ha as (cache & -> & Hc). intros [= <- <-]. exists A, hist, T. split; [rewrite <- HT; constructor|]. destruct Hs as [Hh Hcs HT']. constructor; [done|by apply updated_cache|done].
    + destruct Ha as (e & ->). intros [= <- <-]. exists A, hist, T. split; [rewrite <- HT; constructor|done].
  - destruct (MultiXactIdExpand _ _ _ _ _ _ _ _ _ _) as [[[multi' s] cache]|] eqn:E; rsimpl; [|done]. intros [= <- <-]. destruct Hok. by eapply expand_refines.
  - intros [= <- <-]. exists A, hist, T. split; [constructor|]. destruct Hs as [Hh Hcs HT']. constructor; [done| |done]. apply updated_cache; [done|]. by intros ?? ?%not_elem_of_nil.
Qed.
End simulation.

(** * The oldest id moves on *)

Lemma limit_code lo : uint32 (uint32 (lo mod ring - lo mod ring mod segment) - segment) = limit lo mod ring.
Proof. unfold limit, uint32. fold ring. rewrite Zminus_mod_idemp_l. set (r := lo mod ring mod segment). clearbody r. unfold ring. mlia. Qed.

Lemma limit_mono lo lo' : lo ≤ lo' → limit lo ≤ limit lo'.
Proof.
  intros H. unfold limit. assert (lo - lo mod ring mod segment ≤ lo' - lo' mod ring mod segment); [|lia].
  assert (Hq : ∀ x, ∃ q r, x = ring * q + r ∧ 0 ≤ r < ring ∧ x mod ring = r) by (intros x; exists (x / ring), (x mod ring); unfold ring; mlia).
  destruct (Hq lo) as (q & r & -> & Hr & ->), (Hq lo') as (q' & r' & -> & Hr' & ->). unfold ring, segment in *. clear Hq. assert (q ≤ q') by mlia. destruct (decide (q = q')) as [->|]; mlia.
Qed.

(** Where the members of the ids from the [k]-th on start. *)
Definition oldest_start (A : Z) hist (k : nat) : Z := match hist !! k with Some (a, _) => a | None => A end.

(** The start of each entry follows from the one before. *)
Section advance.
Context s (j0 lo A : Z) hist (Hh : holds s j0 lo A hist).

Lemma next_start (k : nat) a ms a' ms' : hist !! k = Some (a, ms) → hist !! S k = Some (a', ms') → a' = adv (a + zlen ms).
Proof using Hh.
  intros H1 H2. pose proof (en_end _ _ _ _ _ _ _ (h_entry _ _ _ _ _ Hh k a ms H1) (ex_intro _ _ H2)) as E1. destruct (en_start _ _ _ _ _ _ _ (h_entry _ _ _ _ _ Hh (S k) a' ms' H2)) as [_ E2].
  replace (j0 + Z.of_nat (S k)) with (j0 + Z.of_nat k + 1) in E2 by lia. rewrite E1 in E2. injection E2 as E2. rewrite (proj1 (wrap_adv _)) in E2.
  destruct (h_range _ _ _ _ _ Hh k a ms H1), (h_range _ _ _ _ _ Hh (S k) a' ms' H2), (h_stop _ _ _ _ _ Hh) as (_ & _ & HA), (adv_range (a + zlen ms)) as [L1 _].
  assert (limit lo ≤ lo + ring - segment) by (clear; unfold limit, ring, segment; mlia). symmetry. apply ring_inj; [done| |]; unfold segment, zlen in *; lia.
Qed.

Lemma starts_ordered (k i : nat) a ms a' ms' : hist !! k = Some (a, ms) → hist !! (k + i)%nat = Some (a', ms') → a ≤ a'.
Proof using Hh.
  intros H1. revert a' ms'. induction i as [|i IH]; intros a' ms' H2; [rewrite Nat.add_0_r in H2; assert (a = a') by congruence; lia|].
  rewrite Nat.add_succ_r in H2. destruct (lookup_lt_is_Some_2 hist (k + i)) as [[a1 ms1] H3]; [apply lookup_lt_Some in H2; lia|].
  rewrite (next_start (k + i) a1 ms1 a' ms' H3 H2). specialize (IH a1 ms1 H3). pose proof (adv_range (a1 + zlen ms1)). unfold zlen in *. lia.
Qed.

Lemma start_first (k i : nat) a ms : hist !! (k + i)%nat = Some (a, ms) → oldest_start A hist k ≤ a.
Proof using Hh.
  intros Hi. unfold oldest_start. destruct (hist !! k) as [[a0 ms0]|] eqn:Hk0; [by eapply starts_ordered|]. apply lookup_ge_None in Hk0. apply lookup_lt_Some in Hi. lia.
Qed.

(** The ids from the [k]-th on, in a state that has kept what they need. *)
Record kept (k : nat) (st : Z) s' : Prop := {
  k_offsets : ∀ i, j0 + Z.of_nat k ≤ i < j0 + zlen hist → offset_word s' (mid i) = offset_word s (mid i);
  k_here : ∃ w, offset_word s' (mid (j0 + zlen hist)) = Ok w;
  k_members : ∀ y, st ≤ y < A → read_member (y mod ring) s' = read_member (y mod ring) s;
}.

Lemma entry_dropped s' (k i : nat) st a ms : kept k st s' → st ≤ a → hist !! (k + i)%nat = Some (a, ms) → entry_ok s' (j0 + Z.of_nat k) A (drop k hist) i a ms.
Proof using Hh.
  intros [K1 _ K2] Hst Hk. pose proof (lookup_lt_Some _ _ _ Hk) as Hlt. destruct (h_entry _ _ _ _ _ Hh (k + i) a ms Hk) as [H1 H2 H3 H4 H5 H6].
  assert (Ej : j0 + Z.of_nat k + Z.of_nat i = j0 + Z.of_nat (k + i)) by lia. destruct (h_range _ _ _ _ _ Hh _ _ _ Hk) as [R1 R2].
  constructor; rewrite ?Ej, ?lookup_drop, ?Nat.add_succ_r; [done| | | |exact H5|].
  - rewrite K1 by (unfold zlen; lia). exact H2.
  - intros Hs. pose proof Hs as [? Hs'%lookup_lt_Some]. rewrite K1 by (unfold zlen; lia). by apply H3.
  - intros j m Hj. pose proof (lookup_lt_Some _ _ _ Hj). rewrite K2 by (unfold zlen in *; lia). by apply H4.
  - intros [[a' ms'] X] Y. pose proof (next_start (k + i) a ms a' ms' Hk X) as E. destruct (h_range _ _ _ _ _ Hh _ _ _ X) as [_ R3]. unfold adv in E. rewrite Y, Z.eqb_refl in E.
    assert (0 ≤ zlen ms') by (unfold zlen; lia). rewrite <- Y, K2 by (unfold zlen in *; lia). rewrite Y. apply H6; [by eexists|done].
Qed.
End advance.

(** The limits of ids, as distances from the oldest one. *)
Definition max_freeze_age : Z := 2000000000.

Lemma id_limits age oldest d : 0 < oldest ≤ MaxMultiXactId → 0 ≤ age ≤ max_freeze_age → 0 ≤ d < 2 ^ 31 →
  let wrap := let w := uint32 (oldest + Z.shiftr MaxMultiXactId 1) in if w <? FirstMultiXactId then w + FirstMultiXactId else w in
  let stop := let w := uint32 (wrap - 3000000) in if w <? FirstMultiXactId then uint32 (w - FirstMultiXactId) else w in
  let vac := let w := uint32 (oldest + age) in if w <? FirstMultiXactId then w + FirstMultiXactId else w in
  MultiXactIdPrecedes (uint32 (oldest + d)) vac = true ∨ MultiXactIdPrecedes (uint32 (oldest + d)) stop = true → d < 2 ^ 31 - 2999999.
Proof.
  change (Z.shiftr MaxMultiXactId 1) with 2147483647. intros Ho Ha Hd. cbv zeta. unfold MultiXactIdPrecedes, MaxMultiXactId, FirstMultiXactId, max_freeze_age in *. rewrite !Z.ltb_lt.
  assert (Hneg : ∀ x y, int32 (uint32 (oldest + d) - x) < 0 → (x - (oldest + d) - y) mod 2 ^ 32 = 0 → - 2 ^ 31 < y < 2 ^ 31 → 0 < y).
  { intros x y Hi Hy Hr. clear -Hi Hy Hr. unfold int32, uint32 in Hi. mlia. }
  intros [H|H].
  - destruct (Z.ltb_spec (uint32 (oldest + age)) 1) as [Hw|Hw].
    + apply (Hneg _ (age + 1 - d)) in H; [lia| |lia]. clear. unfold uint32. mlia.
    + apply (Hneg _ (age - d)) in H; [lia| |lia]. clear. unfold uint32. mlia.
  - set (w := if uint32 (oldest + 2147483647) <? 1 then _ else _) in *. assert (Hw : w mod 2 ^ 32 = (oldest + 2147483647) mod 2 ^ 32 ∨ w mod 2 ^ 32 = (oldest + 2147483648) mod 2 ^ 32).
    { unfold w. destruct (uint32 (oldest + 2147483647) <? 1); [right|left]; unfold uint32; clear; mlia. }
    clearbody w. destruct (Z.ltb_spec (uint32 (w - 3000000)) 1) as [Hu|Hu].
    + destruct Hw as [Hw|Hw]; [apply (Hneg _ (2147483647 - 3000001 - d)) in H|apply (Hneg _ (2147483648 - 3000001 - d)) in H]; try lia; clear -Hw; unfold uint32; mlia.
    + destruct Hw as [Hw|Hw]; [apply (Hneg _ (2147483647 - 3000000 - d)) in H|apply (Hneg _ (2147483648 - 3000000 - d)) in H]; try lia; clear -Hw; unfold uint32; mlia.
Qed.

Lemma find_start_word s multi w : offset_word s multi = Ok w → find_multixact_start multi s = Ok (Some w).
Proof.
  intros Ho. unfold find_multixact_start. rewrite offset_word_code, Ho. unfold offset_word, get_word, SimpleLruReadPage in Ho.
  unfold MultiXactIdToOffsetPage. change MULTIXACT_OFFSETS_PER_PAGE with page_words. by destruct (offset_pages s !! (multi / page_words)).
Qed.

(** The state with new limits: the ids from the [k]-th on stay in use. *)
Lemma start_found s j0 lo A hist (k : nat) : holds s j0 lo A hist → (k ≤ length hist)%nat → (k = length hist → nextMXact s = mid (j0 + Z.of_nat k)) →
  (if mid (j0 + Z.of_nat k) =? nextMXact s then Ok (Some (nextOffset s)) else find_multixact_start (mid (j0 + Z.of_nat k)) s) = Ok (Some (oldest_start A hist k mod ring)).
Proof.
  intros Hh Hk Hlast. unfold oldest_start. destruct (decide (k = length hist)) as [E|E].
  - rewrite Hlast, Z.eqb_refl by done. rewrite (lookup_ge_None_2 hist k) by lia. by rewrite (h_offset _ _ _ _ _ Hh).
  - destruct (lookup_lt_is_Some_2 hist k) as [[a ms] Hkk]; [lia|]. rewrite Hkk. destruct (en_start _ _ _ _ _ _ _ (h_entry _ _ _ _ _ Hh k a ms Hkk)) as [_ Ho].
    destruct (live_limits s j0 lo A hist Hh k) as [_ Hp]; [lia|]. destruct (Z.eqb_spec (mid (j0 + Z.of_nat k)) (nextMXact s)) as [En|_].
    { rewrite En in Hp. unfold MultiXactIdPrecedes in Hp. by rewrite Z.sub_diag in Hp. }
    by apply find_start_word.
Qed.

Lemma set_limits s new st age : 0 < new ≤ MaxMultiXactId →
  (if new =? nextMXact s then Ok (Some (nextOffset s)) else find_multixact_start new s) = Ok (Some (st mod ring)) →
  ∃ s', SetMultiXactIdLimit true age new s = Ok s' ∧
  nextMXact s' = nextMXact s ∧ nextOffset s' = nextOffset s ∧ offset_pages s' = offset_pages s ∧ member_pages s' = member_pages s ∧
  oldestMultiXactId s' = new ∧ oldestOffsetKnown s' = true ∧ offsetStopLimit s' = limit st mod ring ∧
  (0 ≤ age ≤ max_freeze_age → ∀ d, 0 ≤ d < 2 ^ 31 → MultiXactIdPrecedes (uint32 (new + d)) (multiVacLimit s') = true ∨
     MultiXactIdPrecedes (uint32 (new + d)) (multiStopLimit s') = true → d < 2 ^ 31 - 2999999).
Proof.
  intros Hn Hst. unfold SetMultiXactIdLimit. cbn [negb]. unfold SetOffsetVacuumLimit at 1. cbn [oldestMultiXactId nextMXact nextOffset].
  change (find_multixact_start ?m (mkMultiXactState _ _ _ _ _ _ _ _ _ _)) with (find_multixact_start m s). rewrite Hst. rsimpl.
  change (MULTIXACT_MEMBERS_PER_PAGE * SLRU_PAGES_PER_SEGMENT) with segment. rewrite limit_code. eexists. split; [done|]. cbn.
  split_and!; try done. intros Ha d Hd. by apply (id_limits age new d).
Qed.

Lemma start_bounds s j0 lo A hist (k : nat) : holds s j0 lo A hist → lo ≤ oldest_start A hist k ≤ A ∧ A < limit (oldest_start A hist k).
Proof.
  intros Hh. destruct (h_stop _ _ _ _ _ Hh) as (_ & _ & HA). assert (H : lo ≤ oldest_start A hist k ≤ A).
  { unfold oldest_start. destruct (hist !! k) as [[a ms]|] eqn:Hk; [|lia]. destruct (h_range _ _ _ _ _ Hh k a ms Hk). unfold zlen in *. lia. }
  split; [done|]. pose proof (limit_mono lo (oldest_start A hist k)). lia.
Qed.

(** Moving the oldest id on to the [k]-th one, in a state that has kept what is needed. *)
Lemma moved_holds s j0 lo A hist (k : nat) age s1 : holds s j0 lo A hist → (k ≤ length hist)%nat → (k = length hist → nextMXact s = mid (j0 + Z.of_nat k)) →
  0 ≤ age ≤ max_freeze_age → nextMXact s1 = nextMXact s → nextOffset s1 = nextOffset s → wf_pages (offset_pages s1) ∧ wf_pages (member_pages s1) →
  kept s j0 A hist k (oldest_start A hist k) s1 → (A mod ring mod members_page ≠ 0 → has_slot s1 (A mod ring)) →
  ∃ s', SetMultiXactIdLimit true age (mid (j0 + Z.of_nat k)) s1 = Ok s' ∧ member_pages s' = member_pages s1 ∧ holds s' (j0 + Z.of_nat k) (oldest_start A hist k) A (drop k hist).
Proof.
  intros Hh Hk Hlast Ha F1 F2 Hwf Hkept Hslot. pose proof (start_found s j0 lo A hist k Hh Hk Hlast) as Hst. pose proof (mid_range (j0 + Z.of_nat k)) as Hr.
  assert (Hst1 : (if mid (j0 + Z.of_nat k) =? nextMXact s1 then Ok (Some (nextOffset s1)) else find_multixact_start (mid (j0 + Z.of_nat k)) s1) = Ok (Some (oldest_start A hist k mod ring))).
  { rewrite F1, F2. destruct (Z.eqb_spec (mid (j0 + Z.of_nat k)) (nextMXact s)) as [|Hne]; [done|]. apply find_start_word.
    destruct (decide (k = length hist)) as [E|E]; [by destruct Hne; rewrite Hlast|]. rewrite (k_offsets _ _ _ _ _ _ _ Hkept) by (unfold zlen; lia). unfold oldest_start. destruct (lookup_lt_is_Some_2 hist k) as [[a ms] Hkk]; [lia|]. rewrite Hkk. by apply (h_entry _ _ _ _ _ Hh k a ms Hkk). }
  destruct (set_limits s1 (mid (j0 + Z.of_nat k)) _ age ltac:(lia) Hst1) as (s' & E & E1 & E2 & E3 & E4 & E5 & E6 & E7 & E8). exists s'. split; [done|]. split; [done|].
  destruct (start_bounds s j0 lo A hist k Hh) as [B1 B2]. assert (Ez : j0 + Z.of_nat k + zlen (drop k hist) = j0 + zlen hist) by (unfold zlen; rewrite length_drop; lia).
  assert (Hkept' : kept s j0 A hist k (oldest_start A hist k) s').
  { destruct Hkept as [K1 K3 K2]. constructor; [intros i Hi; unfold offset_word in *; rewrite E3; by apply K1|unfold offset_word in *; by rewrite E3|]. intros y Hy. rewrite <- (K2 y Hy), !read_member_words by apply ring_range. by rewrite E4. }
  destruct (h_next _ _ _ _ _ Hh) as (N1 & N2 & N3 & N4). constructor; rewrite ?E1, ?E2, ?E3, ?E4, ?E5, ?E6, ?E7, ?Ez, ?F1, ?F2; auto.
  - split_and!; [lia|lia|done| |].
    + intros Hne. apply N3. intros ->. by rewrite drop_nil in Hne.
    + intros Hnil. apply Hlast. apply (f_equal length) in Hnil. rewrite length_drop in Hnil. cbn [length] in Hnil. lia.
  - apply (h_offset _ _ _ _ _ Hh).
  - intros i a ms. rewrite lookup_drop. intros Hi. split; [|apply (h_range _ _ _ _ _ Hh _ _ _ Hi)]. by apply (start_first s j0 lo A hist Hh k i a ms).
  - intros i a ms. rewrite lookup_drop. intros Hi. eapply entry_dropped; [done|done| |done]. by apply (start_first s j0 lo A hist Hh k i a ms).
  - apply (k_here _ _ _ _ _ _ _ Hkept').
  - unfold has_slot. rewrite E4. exact Hslot.
  - split_and!; [done|done|lia|lia].
  - pose proof (h_count _ _ _ _ _ Hh). unfold zlen in *. rewrite length_drop. lia.
Qed.

(** Space that is left is not refused: one slot more than needed is asked for. *)
Lemma enough_space B A d : A < B ≤ A + ring → 0 ≤ d < 2 ^ 31 → A + d + 1 < B → MultiXactOffsetWouldWrap (B mod ring) (A mod ring) d = false.
Proof.
  intros HB Hd Hroom. unfold MultiXactOffsetWouldWrap. assert (Hq : ∃ q, A = q * ring + A mod ring) by (exists (A / ring); unfold ring; mlia). destruct Hq as [q Hq].
  pose proof (ring_range A) as HA. pose proof (ring_range B) as HBr. set (S := A mod ring) in *. set (Bs := B mod ring) in *.
  assert (EB : B = q * ring + Bs ∧ S < Bs ∨ B = (q + 1) * ring + Bs ∧ Bs ≤ S) by (subst S Bs; clear Hd; unfold ring in *; mlia).
  assert (Eu : ∀ z, 0 ≤ z < 2 * ring → uint32 z = if decide (z < ring) then z else z - ring) by (intros z Hz; clear -Hz; unfold uint32, ring in *; destruct (decide _); mlia).
  rewrite Eu by (unfold ring in *; lia). clearbody S Bs. unfold ring in *. destruct (decide (S + d < 2 ^ 32)) as [Hs|Hs].
  - destruct (Z.ltb_spec (S + d) S); [lia|]. destruct (Z.ltb_spec S Bs), (Z.leb_spec Bs (S + d)), (Z.ltb_spec (S + d) S); cbn [orb andb]; try done; lia.
  - destruct (Z.ltb_spec (S + d - 2 ^ 32) S); [|lia]. rewrite Eu, decide_True by lia.
    destruct (Z.ltb_spec S Bs), (Z.leb_spec Bs (S + d - 2 ^ 32 + 1)), (Z.ltb_spec (S + d - 2 ^ 32 + 1) S); cbn [orb andb]; try done; lia.
Qed.

(** * Claims *)

(** However several backends interleave the creation, the expansion and the reading of
    MultiXactIds, and with whatever their caches hold, they behave as one table: an id is given
    to one set of members and keeps it, a question about an id in use is answered with exactly
    these members, in the order of their sort, a question about any other id is refused, and an
    expansion has the members that still run, the updaters that committed, and the new one; also
    when ids and member offsets wrap around. *)
Theorem members_table j0 lo A hist sys T acts evs sys' : system_ok j0 lo A hist sys T → Forall action_ok acts → run acts sys = Ok (evs, sys') →
  ∃ A' hist' T', table_run T evs T' ∧ system_ok j0 lo A' hist' sys' T'.
Proof.
  intros Hs Hok. revert A hist sys T evs Hs. induction Hok as [|act acts Ha _ IH]; intros A hist sys T evs Hs; cbn [run].
  { intros [= <- <-]. eauto. }
  destruct (perform act sys) as [[ev sys1]|] eqn:E; rsimpl; [|done]. destruct (run acts sys1) as [[evs1 sys2]|] eqn:E2; rsimpl; [|done]. intros [= <- <-].
  destruct (perform_refines j0 lo A hist sys T act ev sys1 Hs Ha E) as (A1 & hist1 & T1 & H1 & Hs1). destruct (IH A1 hist1 sys1 T1 evs1 Hs1 E2) as (A' & hist' & T' & H2 & Hs'). eauto 10.
Qed.

(** There is space for [n] members after [A], and an id. *)
Definition space s (j0 lo A : Z) hist (n : Z) : Prop := MultiXactIdPrecedes (mid (j0 + zlen hist)) (multiStopLimit s) = true ∧ A + n + 2 < limit lo.

Lemma creation_works s j0 lo A hist cache ms : holds s j0 lo A hist → cache_ok j0 hist cache → set_ok ms → has_two_updaters ms = false → space s j0 lo A hist (zlen ms) →
  ∃ multi s' cache', MultiXactIdCreateFromMembers false true ms s cache = Ok (multi, s', cache') ∧
    (multi = mid (j0 + zlen hist) ∨ s' = s ∧ ∃ (k : nat) a, hist !! k = Some (a, sort_members ms) ∧ multi = mid (j0 + Z.of_nat k)).
Proof.
  intros Hh Hc Hok Hu [Hs Hl]. destruct (h_stop _ _ _ _ _ Hh) as (_ & _ & HA). destruct (adv_range A) as [Hadv _]. pose proof Hok as (_ & _ & Hlen). assert (Hlim : A < limit lo ≤ A + ring).
  { clear -HA. unfold limit, segment, ring in *. mlia. }
  assert (Hroom : adv A + zlen ms - A < 2 ^ 31 ∧ 0 ≤ adv A + zlen ms - A) by (unfold zlen in *; lia).
  destruct (create_cases s j0 lo A hist Hh cache Hc ms Hok) as [(c & k & a & E & Hk & Hin & _)|[(c & s' & E2 & Er & E & _ & _)|(E2 & e & E)]]; rewrite E; [eauto 12|eauto 10|].
  rewrite Hu in E2. cbn [orb] in E2. apply negb_true_iff in E2. unfold room, ids_left in E2. rewrite Hs, orb_true_r, enough_space in E2; [done|done|lia|lia].
Qed.

(** C28. As long as the next id precedes the stop limit and the members end two slots before the
    segment of the oldest ones, every set with at most one updater gets an id: the loops of the
    creation end, every page they touch exists, and the id is the next one or one that has the
    same members.  A set with two updaters, or one without space, that no id in the cache has,
    is refused. *)
Theorem creation_succeeds s j0 lo A hist cache ms : holds s j0 lo A hist → cache_ok j0 hist cache → set_ok ms →
  (has_two_updaters ms = false → MultiXactIdPrecedes (mid (j0 + zlen hist)) (multiStopLimit s) = true → A + zlen ms + 2 < limit lo →
     ∃ multi s' cache', MultiXactIdCreateFromMembers false true ms s cache = Ok (multi, s', cache') ∧
       (multi = mid (j0 + zlen hist) ∨ s' = s ∧ ∃ (k : nat) a, hist !! k = Some (a, sort_members ms) ∧ multi = mid (j0 + Z.of_nat k))) ∧
  ((∀ multi, (multi, sort_members ms) ∉ cache) → has_two_updaters ms = true ∨ limit lo ≤ A + zlen ms → ∃ e, MultiXactIdCreateFromMembers false true ms s cache = Err e).
Proof.
  intros Hh Hc Hok. split; [intros Hu Hs Hl; by apply (creation_works s j0 lo A hist)|]. destruct (h_stop _ _ _ _ _ Hh) as (_ & _ & HA). destruct (adv_range A) as [Hadv _]. pose proof Hok as (_ & _ & Hlen).
  assert (Hlim : A < limit lo ≤ A + ring) by (clear -HA; unfold limit, segment, ring in *; mlia).
  assert (Hroom : adv A + zlen ms - A < 2 ^ 31 ∧ 0 ≤ adv A + zlen ms - A) by (unfold zlen in *; lia).
  destruct (create_cases s j0 lo A hist Hh cache Hc ms Hok) as [(c & k & a & E & Hk & Hin & _)|[(c & s' & E2 & Er & E & _ & _)|(E2 & e & E)]]; rewrite E.
  - intros Hn _. by destruct (Hn (mid (j0 + Z.of_nat k))).
  - intros _ [|Hl]; [congruence|]. apply andb_true_iff in Er as [_ Er]. apply negb_true_iff, no_wrap in Er; [lia|done|lia].
  - eauto.
Qed.

(** * Witnesses *)

(** The last two ids and the last three slots are left before both kinds of number wrap around. *)
Definition w_id : Z := 0xFFFFFFFE.
Definition w_slot : Z := 0xFFFFFFFD.
Definition w_base : MultiXactState :=
  mkMultiXactState w_id w_slot w_id w_slot true 0 0 0 {[ w_id / page_words := zero_words ]} {[ w_slot / members_page := zero_words ]}.
Definition from_ok {X} (d : X) (r : result X) : X := match r with Ok x => x | Err _ => d end.
Definition w_state : MultiXactState := from_ok w_base (SetMultiXactIdLimit true 400000000 w_id w_base).

Lemma w_singleton (p : Z) : wf_pages {[ p := zero_words ]}.
Proof. intros p' l. rewrite lookup_singleton_Some. intros [_ <-]. apply zero_words_len. Qed.

Lemma w_holds : holds w_state (w_id - 1) w_slot w_slot [].
Proof.
  constructor.
  - split; apply w_singleton.
  - done.
  - done.
  - done.
  - done.
  - done.
  - by exists 0.
  - intros _. by exists zero_words.
  - done.
  - done.
  - intros d Hd H. apply (id_limits 400000000 w_id d); [by vm_compute|done|done|exact H].
Qed.

Definition w_first : list (Z * Z) := [(702, MultiXactStatusUpdate); (701, MultiXactStatusForShare); (700, MultiXactStatusForKeyShare)].
Definition w_second : list (Z * Z) := [(703, MultiXactStatusForKeyShare); (704, MultiXactStatusForShare)].
Definition w_after (ms : list (Z * Z)) (s : MultiXactState) : MultiXactState :=
  (from_ok (0, s, []) (MultiXactIdCreateFromMembers false true ms s [])).1.2.

(** What a creation that is evaluated leaves. *)
Lemma w_create s j0 lo A hist ms : holds s j0 lo A hist → set_ok ms → room s j0 lo A hist ms = true → has_two_updaters ms = false →
  holds (w_after ms s) j0 lo (adv A + zlen ms) (hist ++ [(adv A, sort_members ms)]).
Proof.
  intros Hh Hok Hr Hu. assert (Hc : cache_ok j0 hist []) by (by intros ?? ?%not_elem_of_nil). unfold w_after.
  destruct (create_cases s j0 lo A hist Hh [] Hc ms Hok) as [(c & k & a & _ & _ & Hin & _)|[(c & s' & _ & _ & -> & Hh' & _)|(E & _)]]; [by apply not_elem_of_nil in Hin|done|].
  by rewrite Hr, Hu in E.
Qed.

Lemma w_sets : set_ok w_first ∧ set_ok w_second.
Proof. split; (split_and!; [done| |by vm_compute]); repeat constructor; by vm_compute. Qed.

Lemma w_holds1 : holds (w_after w_first w_state) (w_id - 1) w_slot (adv w_slot + 3) ([] ++ [(adv w_slot, sort_members w_first)]).
Proof. apply (w_create w_state (w_id - 1) w_slot w_slot [] w_first w_holds (proj1 w_sets)); by vm_compute. Qed.

Lemma w_holds2 : holds (w_after w_second (w_after w_first w_state)) (w_id - 1) w_slot (adv (adv w_slot + 3) + 2)
  (([] ++ [(adv w_slot, sort_members w_first)]) ++ [(adv (adv w_slot + 3), sort_members w_second)]).
Proof. apply (w_create _ _ _ _ _ w_second w_holds1 (proj2 w_sets)); by vm_compute. Qed.

(** Three backends.  The first id has the last three slots, the second starts at slot one and is
    the last id; the third is FirstMultiXactId again. *)
Definition w_sys : System := mkSystem w_state ∅.
Definition w_running (xid : Z) : bool := xid =? 701.
Definition w_committed (xid : Z) : bool := xid =? 702.
Definition w_acts : list action :=
  [Create 0 w_first; Create 1 w_second; Ask 2 w_id w_id; Expand 1 w_running w_committed w_id w_id 709 MultiXactStatusForShare; Ask 2 w_id 1; Ask 0 w_id w_id;
   EndOfTransaction 1; Ask 1 w_id 0xFFFFFFFF; Ask 1 w_id 2].
Definition w_events : list event := (from_ok ([], w_sys) (run w_acts w_sys)).1.
Definition w_end : System := (from_ok ([], w_sys) (run w_acts w_sys)).2.
Definition answer_of (ev : event) : option (Z * option (list (Z * Z))) := match ev with Answered multi a => Some (multi, a) | _ => None end.

Lemma w_sys_ok : system_ok (w_id - 1) w_slot w_slot [] w_sys ∅.
Proof.
  constructor; [exact w_holds| |].
  - intros b multi ms. unfold cache_of. cbn. rewrite lookup_empty. by intros ?%not_elem_of_nil.
  - intros multi ms. rewrite lookup_empty. split; [done|]. by intros (k & a & H & _).
Qed.

Lemma members_table_witness :
  omap answer_of w_events = [(w_id, Some (sort_members w_first)); (1, Some [(701, 1); (702, 5); (709, 1)]); (w_id, Some (sort_members w_first));
                             (0xFFFFFFFF, Some w_second); (2, None)] ∧
  ∃ A' hist' T', table_run ∅ w_events T' ∧ system_ok (w_id - 1) w_slot A' hist' w_end T'.
Proof.
  split; [by vm_compute|]. apply (members_table (w_id - 1) w_slot w_slot [] w_sys ∅ w_acts w_events w_end); [apply w_sys_ok| |by vm_compute].
  pose proof w_sets as [Hs1 Hs2]. repeat (constructor; [first [exact Hs1|exact Hs2|by vm_compute|split; by vm_compute]|]). constructor.
Defined.

Lemma creation_succeeds_witness :
  ∃ multi s' cache', MultiXactIdCreateFromMembers false true w_first w_state [] = Ok (multi, s', cache') ∧
    (multi = mid (w_id - 1 + 0) ∨ s' = w_state ∧ ∃ (k : nat) (a : Z), ([] : History) !! k = Some (a, sort_members w_first) ∧ multi = mid (w_id - 1 + Z.of_nat k)).
Proof.
  apply (proj1 (creation_succeeds w_state (w_id - 1) w_slot w_slot [] [] w_first w_holds ltac:(by intros ?? ?%not_elem_of_nil) (proj1 w_sets))); by vm_compute.
Defined.
