(* ===== verification/MultiHorizon.v ===== *)
(** Which MultiXactIds can still have a running member: every backend announces the oldest id it
    may be a member of and the oldest one it takes as possibly live (multixact.c).  The state
    machine [step] has backends, prepared transactions and vacuum use these announcements. *)

From S2P Require Import Prelude Xid Bufpage PageOps Clog ClogPages Combocid Multixact Members.

(** * The operations *)

(** The two arrays after the shared state: one slot per backend and, for members, one per
    prepared transaction. *)
Record Oldest : Type := mkOldest { OldestMemberMXactId : list Z; OldestVisibleMXactId : list Z }.
Implicit Types (o : Oldest).

(** The slot of [me]; it has one. *)
Definition slot (slots : list Z) (me : nat) : Z := nth me slots InvalidMultiXactId.

Definition MultiXactIdSetOldestMember (me : nat) (nextMXact : Z) o : Oldest :=
  if negb (MultiXactIdIsValid (slot (OldestMemberMXactId o) me))
  then mkOldest (<[me := valid_next nextMXact]> (OldestMemberMXactId o)) (OldestVisibleMXactId o)
  else o.

(** The loop over the slots. *)
Definition older_slot (oldestMXact thisoldest : Z) : Z :=
  if MultiXactIdIsValid thisoldest && MultiXactIdPrecedes thisoldest oldestMXact then thisoldest else oldestMXact.

Definition MultiXactIdSetOldestVisible (me : nat) (nextMXact : Z) o : Oldest :=
  if negb (MultiXactIdIsValid (slot (OldestVisibleMXactId o) me))
  then mkOldest (OldestMemberMXactId o) (<[me := foldl older_slot (valid_next nextMXact) (OldestMemberMXactId o)]> (OldestVisibleMXactId o))
  else o.

Definition GetOldestMultiXactId (nextMXact : Z) o : Z :=
  foldl older_slot (foldl older_slot (valid_next nextMXact) (OldestMemberMXactId o)) (OldestVisibleMXactId o).

(** With the cache, which is discarded. *)
Definition AtEOXact_MultiXact (me : nat) o : Oldest * Cache :=
  (mkOldest (<[me := InvalidMultiXactId]> (OldestMemberMXactId o)) (<[me := InvalidMultiXactId]> (OldestVisibleMXactId o)), []).

(** [dummy] is the slot reserved for the prepared transaction. *)
Definition PostPrepare_MultiXact (me dummy : nat) o : Oldest * Cache :=
  let myOldestMember := slot (OldestMemberMXactId o) me in
  let members :=
    if MultiXactIdIsValid myOldestMember then <[me := InvalidMultiXactId]> (<[dummy := myOldestMember]> (OldestMemberMXactId o)) else OldestMemberMXactId o in
  (mkOldest members (<[me := InvalidMultiXactId]> (OldestVisibleMXactId o)), []).

Definition multixact_twophase_recover (dummy : nat) (oldestMember : Z) o : Oldest := mkOldest (<[dummy := oldestMember]> (OldestMemberMXactId o)) (OldestVisibleMXactId o).
Definition multixact_twophase_postcommit (dummy : nat) o : Oldest := mkOldest (<[dummy := InvalidMultiXactId]> (OldestMemberMXactId o)) (OldestVisibleMXactId o).

(** * The machine *)

(** Ids are counted without the wraparound, [mid] is what the code sees.  [multis] has every
    MultiXactId made so far with its members, which are numbers of transactions; [xacts] has the
    transaction of each slot. *)
Record Protocol : Type := mkProtocol {
  base : Z;
  next : Z;
  counter : Z;
  oldest : Oldest;
  xacts : gmap nat Z;
  fresh : Z;
  multis : list (Z * list Z);
}.
Implicit Types (P : Protocol).

Definition with_oldest o P : Protocol := mkProtocol (base P) (next P) (counter P) o (xacts P) (fresh P) (multis P).
Definition begun (b : nat) P : Protocol := mkProtocol (base P) (next P) (counter P) (oldest P) (<[b := fresh P]> (xacts P)) (fresh P + 1) (multis P).
Definition created (ts : list Z) P : Protocol :=
  mkProtocol (base P) (next P + 1) (uint32 (valid_next (counter P) + 1)) (oldest P) (xacts P) (fresh P) ((next P, ts) :: multis P).
Definition ended (b : nat) P : Protocol := mkProtocol (base P) (next P) (counter P) (AtEOXact_MultiXact b (oldest P)).1 (delete b (xacts P)) (fresh P) (multis P).
Definition runs P (t : Z) : Prop := ∃ b, xacts P !! b = Some t.

Section machine.
Context (MaxBackends max_prepared : nat).

(** Whoever is a member has announced itself, or has ended.  The oldest id moves on to what
    vacuum was told at most, and ids are refused that are too far from it. *)
Inductive step : Protocol → Protocol → Prop :=
  | step_begin P b : (b < MaxBackends)%nat → xacts P !! b = None →
      step P (begun b P)
  | step_member P b : (b < MaxBackends)%nat → step P (with_oldest (MultiXactIdSetOldestMember b (counter P) (oldest P)) P)
  | step_visible P b : (b < MaxBackends)%nat → step P (with_oldest (MultiXactIdSetOldestVisible b (counter P) (oldest P)) P)
  | step_create P ts : (∀ t, t ∈ ts → t < fresh P ∧ ∀ b, xacts P !! b = Some t → MultiXactIdIsValid (slot (OldestMemberMXactId (oldest P)) b) = true) →
      next P + 1 < base P + 2 ^ 31 - 2 →
      step P (created ts P)
  | step_end P b : (b < MaxBackends)%nat → step P (ended b P)
  | step_prepare P b d t : (b < MaxBackends)%nat → (MaxBackends ≤ d < MaxBackends + max_prepared)%nat → xacts P !! b = Some t → xacts P !! d = None →
      step P (mkProtocol (base P) (next P) (counter P) (PostPrepare_MultiXact b d (oldest P)).1 (<[d := t]> (delete b (xacts P))) (fresh P) (multis P))
  | step_end_prepared P d : (MaxBackends ≤ d < MaxBackends + max_prepared)%nat →
      step P (mkProtocol (base P) (next P) (counter P) (multixact_twophase_postcommit d (oldest P)) (delete d (xacts P)) (fresh P) (multis P))
  | step_vacuum P base' : base P ≤ base' ≤ next P → MultiXactIdPrecedesOrEquals (mid base') (GetOldestMultiXactId (counter P) (oldest P)) = true →
      step P (mkProtocol base' (next P) (counter P) (oldest P) (xacts P) (fresh P) (multis P)).

(** Nothing is announced and no id made. *)
Definition initial P : Prop :=
  base P = next P ∧ 0 ≤ counter P ≤ MaxMultiXactId ∧ valid_next (counter P) = mid (next P) ∧ xacts P = ∅ ∧ multis P = [] ∧
  oldest P = mkOldest (replicate (MaxBackends + max_prepared) InvalidMultiXactId) (replicate MaxBackends InvalidMultiXactId).

Inductive reachable : Protocol → Prop :=
  | reachable_initial P : initial P → reachable P
  | reachable_step P P' : reachable P → step P P' → reachable P'.
End machine.

(** * The oldest id of the slots *)

(** A slot that is empty or has an id of the window, not before [m]. *)
Definition entry (m hi v : Z) : Prop := v = InvalidMultiXactId ∨ ∃ m', m ≤ m' ≤ hi ∧ v = mid m'.

Lemma mid_valid_id m : MultiXactIdIsValid (mid m) = true.
Proof. pose proof (mid_range m). unfold MultiXactIdIsValid, InvalidMultiXactId. destruct (Z.eqb_spec (mid m) 0); [lia|done]. Qed.

Lemma entry_weaken m m' hi hi' v : m' ≤ m → hi ≤ hi' → entry m hi v → entry m' hi' v.
Proof. intros H1 H2 [->|(x & Hx & ->)]; [by left|right; exists x; split; [lia|done]]. Qed.

(** The loops find the oldest id. *)
Lemma older_fold lo hi l : hi - lo < 2 ^ 31 - 2 → Forall (entry lo hi) l → ∀ m0, lo ≤ m0 ≤ hi → ∃ m, foldl older_slot (mid m0) l = mid m ∧ lo ≤ m ≤ m0 ∧ Forall (entry m hi) l.
Proof.
  intros Hw. induction 1 as [|v l Hv Hl IH]; intros m0 Hm; cbn [foldl]; [by exists m0; split; [|split; [lia|]]|].
  assert (∃ m1, older_slot (mid m0) v = mid m1 ∧ lo ≤ m1 ≤ m0 ∧ entry m1 hi v) as (m1 & -> & Hm1 & Hv1).
  { unfold older_slot. destruct Hv as [->|(x & Hx & ->)]; [by exists m0; split; [|split; [lia|left]]|]. rewrite mid_valid_id, precedes_mid by lia. cbn [andb].
    destruct (Z.ltb_spec x m0); [exists x|exists m0]; (split; [done|split; [lia|right; exists x; split; [lia|done]]]). }
  destruct (IH m1 ltac:(lia)) as (m & E & Hm2 & Hf). exists m. split; [done|]. split; [lia|]. constructor; [|done]. by eapply entry_weaken; [| |exact Hv1]; lia.
Qed.

(** * The invariant *)

Ltac psimpl := cbn [base next counter oldest xacts fresh multis with_oldest begun created OldestMemberMXactId OldestVisibleMXactId fst].

Section invariant.
Context (MaxBackends max_prepared : nat).

Record inv P : Prop := {
  i_length : length (OldestMemberMXactId (oldest P)) = (MaxBackends + max_prepared)%nat;
  i_range : base P ≤ next P < base P + 2 ^ 31 - 2;
  i_counter : 0 ≤ counter P ≤ MaxMultiXactId ∧ valid_next (counter P) = mid (next P);
  i_member : Forall (entry (base P) (next P)) (OldestMemberMXactId (oldest P));
  i_visible : ∀ v, v ∈ OldestVisibleMXactId (oldest P) → v = InvalidMultiXactId ∨
    ∃ m, base P ≤ m ≤ next P ∧ v = mid m ∧ Forall (entry m (next P)) (OldestMemberMXactId (oldest P));
  i_xacts : ∀ b t, xacts P !! b = Some t → t < fresh P;
  i_multis : ∀ j ts t, (j, ts) ∈ multis P → t ∈ ts → j < next P ∧ t < fresh P ∧
    ∀ b, xacts P !! b = Some t → ∃ m, m ≤ j ∧ base P ≤ m ∧ slot (OldestMemberMXactId (oldest P)) b = mid m;
}.

Lemma slot_elem l b : slot l b = InvalidMultiXactId ∨ slot l b ∈ l.
Proof. unfold slot. destruct (nth_in_or_default b l InvalidMultiXactId) as [H|H]; [right; by apply list_elem_of_In|by left]. Qed.

Lemma slot_insert l b c v : slot (<[b := v]> l) c = if decide (c = b ∧ (b < length l)%nat) then v else slot l c.
Proof.
  unfold slot. rewrite !nth_lookup. destruct (decide (c = b ∧ _)) as [[-> Hb]|Hn]; [by rewrite list_lookup_insert_eq|].
  destruct (decide (c = b)) as [->|Hne]; [|by rewrite list_lookup_insert_ne]. rewrite list_insert_ge by lia. done.
Qed.

Lemma entries_insert m hi l b v : Forall (entry m hi) l → entry m hi v → Forall (entry m hi) (<[b := v]> l).
Proof. intros H Hv. by apply Forall_insert. Qed.

Lemma window_same P a b : inv P → base P ≤ a ≤ next P → base P ≤ b ≤ next P → mid a = mid b → a = b.
Proof. intros HI Ha Hb E. pose proof (i_range _ HI). apply mid_inj in E; unfold ids; lia. Qed.

Lemma entry_bound P g v m : inv P → base P ≤ g → base P ≤ m ≤ next P → entry g (next P) v → v = mid m → g ≤ m.
Proof.
  intros HI Hg Hm [->|(x & Hx & ->)] E; [pose proof (mid_range m); unfold InvalidMultiXactId in E; lia|]. apply (window_same P) in E; [lia|done|lia|lia].
Qed.

Lemma oldest_found P : inv P → ∃ g, GetOldestMultiXactId (counter P) (oldest P) = mid g ∧ base P ≤ g ≤ next P ∧
  Forall (entry g (next P)) (OldestMemberMXactId (oldest P)) ∧ Forall (entry g (next P)) (OldestVisibleMXactId (oldest P)).
Proof.
  intros HI. pose proof (i_range _ HI) as Hr. unfold GetOldestMultiXactId. rewrite (proj2 (i_counter _ HI)).
  destruct (older_fold (base P) (next P) (OldestMemberMXactId (oldest P)) ltac:(lia) (i_member _ HI) (next P) ltac:(lia)) as (m1 & -> & Hm1 & F1).
  assert (Fv : Forall (entry (base P) (next P)) (OldestVisibleMXactId (oldest P))).
  { apply Forall_forall. intros v Hv. destruct (i_visible _ HI v Hv) as [->|(m & Hm & -> & _)]; [by left|right; eauto]. }
  destruct (older_fold (base P) (next P) (OldestVisibleMXactId (oldest P)) ltac:(lia) Fv m1 ltac:(lia)) as (g & -> & Hg & F2).
  exists g. split_and!; [done|lia|lia| |done]. eapply Forall_impl; [exact F1|]. intros v. apply entry_weaken; lia.
Qed.

Lemma visible_found P : inv P → ∃ m, foldl older_slot (valid_next (counter P)) (OldestMemberMXactId (oldest P)) = mid m ∧ base P ≤ m ≤ next P ∧
  Forall (entry m (next P)) (OldestMemberMXactId (oldest P)).
Proof.
  intros HI. pose proof (i_range _ HI) as Hr. rewrite (proj2 (i_counter _ HI)). by apply older_fold; [lia|apply (i_member _ HI)|lia].
Qed.

Lemma elem_insert (l : list Z) b v x : x ∈ <[b := v]> l → x = v ∨ x ∈ l.
Proof.
  intros Hx. apply list_elem_of_lookup in Hx as [i Hi]. destruct (decide (i = b)) as [->|Hne].
  - destruct (decide (b < length l)%nat) as [Hb|Hb]; [rewrite list_lookup_insert_eq in Hi by done; left; congruence|]. rewrite list_insert_ge in Hi by lia. right. by eapply list_elem_of_lookup_2.
  - rewrite list_lookup_insert_ne in Hi by done. right. by eapply list_elem_of_lookup_2.
Qed.

(** ** It is preserved *)

Section steps.
Context P (HI : inv P).

Lemma inv_begun b : inv (begun b P).
Proof using HI.
  destruct HI as [L R C M V X K]. constructor; psimpl; try done.
  - intros c t. rewrite lookup_insert_Some. intros [[_ <-]|[_ H]]; [lia|]. apply X in H. lia.
  - intros j ts t Hj Ht. destruct (K j ts t Hj Ht) as (K1 & K2 & K3). split_and!; [done|lia|]. intros c. rewrite lookup_insert_Some. intros [[_ <-]|[_ H]]; [lia|by apply K3].
Qed.

Lemma inv_member b : inv (with_oldest (MultiXactIdSetOldestMember b (counter P) (oldest P)) P).
Proof using HI.
  unfold MultiXactIdSetOldestMember. destruct (MultiXactIdIsValid _) eqn:Hv; cbn [negb]; [by destruct HI|]. destruct HI as [L R C M V X K]. rewrite (proj2 C). constructor; psimpl; try done.
  - by rewrite length_insert.
  - apply entries_insert; [done|]. right. exists (next P). split; [lia|done].
  - intros v Hin. destruct (V v Hin) as [->|(m & Hm & -> & F)]; [by left|right]. exists m. split_and!; [lia|lia|done|]. apply entries_insert; [done|]. right. exists (next P). split; [lia|done].
  - intros j ts t Hj Ht. destruct (K j ts t Hj Ht) as (K1 & K2 & K3). split_and!; [done|done|]. intros c Hc. destruct (K3 c Hc) as (m & Hm1 & Hm2 & E). exists m. split_and!; [done|done|].
    rewrite slot_insert. destruct (decide _) as [[-> _]|]; [|done]. rewrite E, mid_valid_id in Hv. done.
Qed.

Lemma inv_visible b : inv (with_oldest (MultiXactIdSetOldestVisible b (counter P) (oldest P)) P).
Proof using HI.
  unfold MultiXactIdSetOldestVisible. destruct (MultiXactIdIsValid _); cbn [negb]; [by destruct HI|]. destruct (visible_found P HI) as (m & -> & Hm & F). destruct HI as [L R C M V X K]. constructor; psimpl; try done.
  intros v [->|Hin]%elem_insert; [right; by exists m|by apply V].
Qed.

Lemma inv_create ts : (∀ t, t ∈ ts → t < fresh P ∧ ∀ b, xacts P !! b = Some t → MultiXactIdIsValid (slot (OldestMemberMXactId (oldest P)) b) = true) → next P + 1 < base P + 2 ^ 31 - 2 →
  inv (created ts P).
Proof using HI.
  intros Hts Hroom. destruct HI as [L R C M V X K]. constructor; psimpl; try done; [lia| | | |].
  - rewrite (proj2 C). split; [unfold uint32, MaxMultiXactId; mlia|apply next_mid].
  - eapply Forall_impl; [exact M|]. intros v. apply entry_weaken; lia.
  - intros v Hin. destruct (V v Hin) as [->|(m & Hm & -> & F)]; [by left|right]. exists m. split_and!; [lia|lia|done|]. eapply Forall_impl; [exact F|]. intros v. apply entry_weaken; lia.
  - intros j ts' t. rewrite elem_of_cons. intros [[= -> ->]|Hj] Ht.
    + destruct (Hts t Ht) as [Hf Hb]. split_and!; [lia|done|]. intros b Hx. specialize (Hb b Hx). destruct (slot_elem (OldestMemberMXactId (oldest P)) b) as [E|Hin]; [by rewrite E in Hb|].
      rewrite Forall_forall in M. destruct (M _ Hin) as [E|(m & Hm & E)]; [by rewrite E in Hb|]. exists m. split_and!; [lia|lia|done].
    + destruct (K j ts' t Hj Ht) as (K1 & K2 & K3). split_and!; [lia|done|done].
Qed.

(** A slot is cleared and its transaction is gone. *)
Lemma inv_clear b visible : (∀ v, v ∈ visible → v = InvalidMultiXactId ∨ v ∈ OldestVisibleMXactId (oldest P)) →
  inv (mkProtocol (base P) (next P) (counter P) (mkOldest (<[b := InvalidMultiXactId]> (OldestMemberMXactId (oldest P))) visible) (delete b (xacts P)) (fresh P) (multis P)).
Proof using HI.
  intros Hvis. destruct HI as [L R C M V X K]. constructor; psimpl; try done.
  - by rewrite length_insert.
  - apply entries_insert; [done|by left].
  - intros v [->|Hin]%Hvis; [by left|]. destruct (V v Hin) as [->|(m & Hm & -> & F)]; [by left|right]. exists m. split_and!; [lia|lia|done|]. apply entries_insert; [done|by left].
  - intros c t. rewrite lookup_delete_Some. intros [_ H]. by apply (X c).
  - intros j ts t Hj Ht. destruct (K j ts t Hj Ht) as (K1 & K2 & K3). split_and!; [done|done|]. intros c. rewrite lookup_delete_Some. intros [Hne Hc].
    destruct (K3 c Hc) as (m & Hm1 & Hm2 & E). exists m. split_and!; [done|done|]. rewrite slot_insert, decide_False; [done|]. intros [-> _]. done.
Qed.

Lemma slot_entry m hi l b : Forall (entry m hi) l → entry m hi (slot l b).
Proof. intros F. destruct (slot_elem l b) as [E|Hin]; [rewrite E; by left|]. rewrite Forall_forall in F. by apply F. Qed.

Lemma inv_prepare b d t : (b < MaxBackends)%nat → (MaxBackends ≤ d < MaxBackends + max_prepared)%nat → xacts P !! b = Some t →
  inv (mkProtocol (base P) (next P) (counter P) (PostPrepare_MultiXact b d (oldest P)).1 (<[d := t]> (delete b (xacts P))) (fresh P) (multis P)).
Proof using HI.
  intros Hb Hd Hx. destruct HI as [L R C M V X K]. unfold PostPrepare_MultiXact. set (my := slot (OldestMemberMXactId (oldest P)) b).
  set (members := if MultiXactIdIsValid my then _ else _).
  assert (Hent : ∀ m hi, Forall (entry m hi) (OldestMemberMXactId (oldest P)) → Forall (entry m hi) members).
  { intros m hi F. unfold members. destruct (MultiXactIdIsValid my); [|done]. apply entries_insert; [|by left]. apply entries_insert; [done|by apply slot_entry]. }
  constructor; psimpl; try done.
  - unfold members. destruct (MultiXactIdIsValid my); [by rewrite !length_insert|done].
  - by apply Hent.
  - intros v [->|Hin]%elem_insert; [by left|]. destruct (V v Hin) as [->|(m & Hm & -> & F)]; [by left|right]. exists m. split_and!; [lia|lia|done|]. by apply Hent.
  - intros c u. rewrite lookup_insert_Some, lookup_delete_Some. intros [[_ <-]|[_ [_ H]]]; by eapply X.
  - intros j ts u Hj Hu. destruct (K j ts u Hj Hu) as (K1 & K2 & K3). split_and!; [done|done|]. intros c. rewrite lookup_insert_Some, lookup_delete_Some. intros [[<- <-]|[Hc1 [Hc2 Hc]]].
    + destruct (K3 b Hx) as (m & Hm1 & Hm2 & E). exists m. split_and!; [done|done|]. unfold members, my. rewrite E, mid_valid_id. rewrite slot_insert, decide_False by lia. rewrite slot_insert, decide_True by lia. done.
    + destruct (K3 c Hc) as (m & Hm1 & Hm2 & E). exists m. split_and!; [done|done|]. unfold members. destruct (MultiXactIdIsValid my); [|done]. rewrite !slot_insert, !decide_False by (intros [? _]; congruence). done.
Qed.

Lemma inv_vacuum base' : base P ≤ base' ≤ next P → MultiXactIdPrecedesOrEquals (mid base') (GetOldestMultiXactId (counter P) (oldest P)) = true →
  inv (mkProtocol base' (next P) (counter P) (oldest P) (xacts P) (fresh P) (multis P)).
Proof using HI.
  intros Hb Hg. destruct (oldest_found P HI) as (g & E & Hgr & F1 & F2). rewrite E in Hg. pose proof (i_range _ HI) as Hr. apply precedes_or_equals_mid in Hg; [|lia|lia].
  pose proof HI as [L R C M V X K]. constructor; psimpl; try done.
  - lia.
  - eapply Forall_impl; [exact F1|]. intros v. apply entry_weaken; lia.
  - intros v Hin. destruct (V v Hin) as [->|(m & Hm & -> & F)]; [by left|right]. rewrite Forall_forall in F2. pose proof (entry_bound P g (mid m) m HI ltac:(lia) Hm (F2 _ Hin) eq_refl).
    exists m. split_and!; [lia|lia|done|done].
  - intros j ts t Hj Ht. destruct (K j ts t Hj Ht) as (K1 & K2 & K3). split_and!; [done|done|]. intros c Hc. destruct (K3 c Hc) as (m & Hm1 & Hm2 & Em).
    pose proof (entry_bound P g _ m HI ltac:(lia) ltac:(lia) (slot_entry _ _ _ c F1) Em). exists m. split_and!; [done|lia|done].
Qed.
End steps.

Lemma inv_step P P' : inv P → step MaxBackends max_prepared P P' → inv P'.
Proof.
  intros HI. destruct 1 as [P b _ _|P b _|P b _|P ts Hts Hroom|P b _|P b d t Hb Hd Hx _|P d _|P base' Hb Hg].
  - by apply inv_begun.
  - by apply inv_member.
  - by apply inv_visible.
  - by apply inv_create.
  - apply (inv_clear P HI). by intros v [->|?]%elem_insert; [left|right].
  - by apply inv_prepare.
  - apply (inv_clear P HI). intros v Hv. by right.
  - by apply inv_vacuum.
Qed.

Lemma inv_initial P : initial MaxBackends max_prepared P → inv P.
Proof.
  intros (E1 & E2 & E3 & E4 & E5 & E6). constructor; rewrite ?E4, ?E5, ?E6; cbn [OldestMemberMXactId OldestVisibleMXactId]; try done.
  - by rewrite length_replicate.
  - lia.
  - apply Forall_replicate. by left.
  - intros v Hv%elem_of_replicate_inv. by left.
  - by intros ?? ? ?%not_elem_of_nil.
Qed.

Lemma inv_reachable P : reachable MaxBackends max_prepared P → inv P.
Proof. induction 1 as [P H|P P' _ IH H]; [by apply inv_initial|by eapply inv_step]. Qed.
End invariant.

Lemma bind_Ok {X Y} (r : result X) (f : X → result Y) y : (r ≫= f) = Ok y → ∃ x, r = Ok x ∧ f x = Ok y.
Proof. destruct r as [x|e]; [by exists x|done]. Qed.

(** A member that runs has announced an id that is not later. *)
Lemma live_member n p P j ts t m v : inv n p P → (j, ts) ∈ multis P → t ∈ ts → base P ≤ j → Forall (entry m (next P)) (OldestMemberMXactId (oldest P)) →
  base P ≤ m ≤ next P → v = mid m → MultiXactIdPrecedes (mid j) v = true → ¬ runs P t.
Proof.
  intros HI Hj Ht Hbase F Hm -> Hp [b Hb]. destruct (i_multis _ _ _ HI j ts t Hj Ht) as (Hjn & _ & K). destruct (K b Hb) as (x & Hx1 & Hx2 & E). pose proof (i_range _ _ _ HI).
  rewrite precedes_mid in Hp by lia. apply Z.ltb_lt in Hp. pose proof (entry_bound n p P m _ x HI ltac:(lia) ltac:(lia) (slot_entry _ _ _ b F) E). lia.
Qed.

(** C30. In every state the backends, prepared transactions and vacuum reach: when a backend that
    has set its OldestVisibleMXactId is told by GetMultiXactIdMembers that a MultiXactId that only locks
    has no members any more, then none of its members is running; and neither is one of any
    MultiXactId before the value of GetOldestMultiXactId, which is not after any announcement. *)
Theorem gone_multis_dead n p P : reachable n p P →
  (∀ v s cache cache' j ts t, v ∈ OldestVisibleMXactId (oldest P) → MultiXactIdIsValid v = true → (j, ts) ∈ multis P → t ∈ ts → base P ≤ j →
     GetMultiXactIdMembers v (mid j) false true s cache = Ok (None, cache') → ¬ runs P t) ∧
  (∀ j ts t, (j, ts) ∈ multis P → t ∈ ts → base P ≤ j → MultiXactIdPrecedes (mid j) (GetOldestMultiXactId (counter P) (oldest P)) = true → ¬ runs P t) ∧
  (∀ v, v ∈ OldestMemberMXactId (oldest P) ++ OldestVisibleMXactId (oldest P) → MultiXactIdIsValid v = true →
     MultiXactIdPrecedes v (GetOldestMultiXactId (counter P) (oldest P)) = false).
Proof.
  intros HI%inv_reachable. destruct (oldest_found n p P HI) as (g & E & Hg & F1 & F2). pose proof (i_range _ _ _ HI) as Hr. split_and!.
  - intros v s cache cache' j ts t Hv Hval Hj Ht Hbase Hget. destruct (i_visible _ _ _ HI v Hv) as [->|(m & Hm & -> & F)]; [done|].
    assert (Hp : MultiXactIdPrecedes (mid j) (mid m) = true).
    { unfold GetMultiXactIdMembers in Hget. rewrite mid_valid_id in Hget. cbn [negb orb] in Hget. destruct (mXactCacheGetById (mid j) cache) as [[ms|] c]; [done|]. cbn [andb] in Hget.
      destruct (MultiXactIdPrecedes (mid j) (mid m)); [done|]. destruct (MultiXactIdPrecedes _ _); [done|]. destruct (negb _); [done|].
      apply bind_Ok in Hget as (w & _ & Hget). apply bind_Ok in Hget as (len & _ & Hget). by apply bind_Ok in Hget as (ms & _ & [= Hget]). }
    by apply (live_member n p P j ts t m (mid m)).
  - intros j ts t Hj Ht Hbase Hp. by apply (live_member n p P j ts t g (GetOldestMultiXactId (counter P) (oldest P))).
  - intros v Hv Hval. assert (He : entry g (next P) v) by (apply elem_of_app in Hv as [Hv|Hv]; [rewrite Forall_forall in F1; by apply F1|rewrite Forall_forall in F2; by apply F2]).
    destruct He as [->|(m & Hm & ->)]; [done|]. rewrite E, precedes_mid by lia. apply Z.ltb_ge. lia.
Qed.

(** * Witness *)

(** Two backends make the last id but one and end; two others start, and one of them asks. *)
Definition h_init : Protocol := mkProtocol (2 ^ 32 - 3) (2 ^ 32 - 3) 0xFFFFFFFE (mkOldest [0; 0; 0] [0; 0]) ∅ 1 [].
Definition h_member (b : nat) P : Protocol := with_oldest (MultiXactIdSetOldestMember b (counter P) (oldest P)) P.
Definition h_visible (b : nat) P : Protocol := with_oldest (MultiXactIdSetOldestVisible b (counter P) (oldest P)) P.
Definition h_made : Protocol := created [1; 2] (h_member 1 (h_member 0 (begun 1 (begun 0 h_init)))).
Definition h_asked : Protocol := h_visible 1 (h_member 0 (begun 1 (begun 0 (ended 1 (ended 0 h_made))))).

Lemma h_made_reachable : reachable 2 1 h_made.
Proof.
  eapply reachable_step; [|apply step_create].
  - do 2 (eapply reachable_step; [|apply step_member; lia]). do 2 (eapply reachable_step; [|apply step_begin; [lia|done]]). apply reachable_initial. split_and!; by vm_compute.
  - intros t Ht. split; [apply elem_of_cons in Ht as [->|Ht%list_elem_of_singleton]; [|subst t]; by vm_compute|]. intros b. unfold h_member, begun. psimpl.
    rewrite !lookup_insert_Some. intros [[<- _]|[_ [[<- _]|[_ H]]]]; [by vm_compute|by vm_compute|by vm_compute in H; destruct b].
  - by vm_compute.
Qed.

Lemma h_reachable : reachable 2 1 h_asked.
Proof.
  eapply reachable_step; [|apply step_visible; lia]. eapply reachable_step; [|apply step_member; lia]. do 2 (eapply reachable_step; [|apply step_begin; [lia|by vm_compute]]).
  do 2 (eapply reachable_step; [|apply step_end; lia]). apply h_made_reachable.
Qed.

Definition h_state : MultiXactState := mkMultiXactState 0xFFFFFFFF 3 0xFFFFFFFE 1 true 0 0 0 ∅ ∅.
Lemma gone_multis_dead_witness : ¬ runs h_asked 1 ∧ GetMultiXactIdMembers 0xFFFFFFFF 0xFFFFFFFE false true h_state [] = Ok (None, []) ∧
  OldestVisibleMXactId (oldest h_asked) = [0; 0xFFFFFFFF].
Proof.
  split_and!; [|by vm_compute|by vm_compute].
  apply (proj1 (gone_multis_dead 2 1 h_asked h_reachable) 0xFFFFFFFF h_state [] [] (2 ^ 32 - 3) [1; 2] 1).
  - apply elem_of_cons. right. by apply elem_of_cons; left.
  - done.
  - by apply elem_of_cons; left.
  - by apply elem_of_cons; left.
  - done.
  - by vm_compute.
Defined.
