(* ===== verification/MultiTruncate.v ===== *)
(** Truncation of the two areas of multixact.c: the segments before the oldest id in use are
    removed, and what the ids that remain need is not. *)

From S2P Require Import Prelude Xid Bufpage PageOps Clog CommitLog ClogPages Combocid Multixact Members Multis.

Implicit Types (s : MultiXactState) (pages : gmap Z (list Z)) (hist : History).

(** * The operations *)

Definition PreviousMultiXactId (multi : Z) : Z := if multi =? FirstMultiXactId then MaxMultiXactId else uint32 (multi - 1).
Definition MXOffsetToMemberSegment (offset : Z) : Z := MXOffsetToMemberPage offset / SLRU_PAGES_PER_SEGMENT.

Definition MultiXactOffsetPagePrecedes (page1 page2 : Z) : bool :=
  let multi1 := uint32 (uint32 page1 * MULTIXACT_OFFSETS_PER_PAGE) in
  let multi1 := uint32 (multi1 + (FirstMultiXactId + 1)) in
  let multi2 := uint32 (uint32 page2 * MULTIXACT_OFFSETS_PER_PAGE) in
  let multi2 := uint32 (multi2 + (FirstMultiXactId + 1)) in
  MultiXactIdPrecedes multi1 multi2 && MultiXactIdPrecedes multi1 (uint32 (multi2 + MULTIXACT_OFFSETS_PER_PAGE - 1)).

(** The file of a segment is removed, and its pages in buffers are dropped. *)
Definition SlruDeleteSegment (segno : Z) pages : gmap Z (list Z) := filter (λ e, e.1 / SLRU_PAGES_PER_SEGMENT ≠ segno) pages.

Definition maxsegment : Z := MXOffsetToMemberSegment MaxMultiXactOffset.

Fixpoint members_loop (fuel : nat) (segment endsegment : Z) pages : result (gmap Z (list Z)) :=
  if segment =? endsegment then Ok pages
  else
    match fuel with
    | O => Err OutOfFuel
    | S fuel => members_loop fuel (if segment =? maxsegment then 0 else segment + 1) endsegment (SlruDeleteSegment segment pages)
    end.

Definition PerformMembersTruncation (oldestOffset newOldestOffset : Z) s : result MultiXactState :=
  pages ← members_loop (Z.to_nat maxsegment) (MXOffsetToMemberSegment oldestOffset) (MXOffsetToMemberSegment newOldestOffset) (member_pages s);
  Ok (set_member_pages pages s).

(** [latest] is the newest page of the offsets area. *)
Definition PerformOffsetsTruncation (latest newOldestMulti : Z) s : MultiXactState :=
  set_offset_pages (SimpleLruTruncate MultiXactOffsetPagePrecedes (MultiXactIdToOffsetPage (PreviousMultiXactId newOldestMulti)) latest (offset_pages s)) s.

(** [segments] are the first pages of the segments of the offsets area, in the order of the
    directory. *)
Definition SlruScanDirCbFindEarliest (earliestExistingPage segpage : Z) : Z :=
  if (earliestExistingPage =? -1) || MultiXactOffsetPagePrecedes segpage earliestExistingPage then segpage else earliestExistingPage.
Definition find_earliest (segments : list Z) : Z := foldl SlruScanDirCbFindEarliest (-1) segments.

Definition earliest_multi (segments : list Z) : Z :=
  let earliest := uint32 (find_earliest segments * MULTIXACT_OFFSETS_PER_PAGE) in
  if earliest <? FirstMultiXactId then FirstMultiXactId else earliest.

Definition set_oldest (multi : Z) s : MultiXactState :=
  mkMultiXactState (nextMXact s) (nextOffset s) multi (oldestOffset s) (oldestOffsetKnown s) (multiVacLimit s) (multiStopLimit s)
    (offsetStopLimit s) (offset_pages s) (member_pages s).

(** Where the members of an id start, or would. *)
Definition start_of (multi : Z) s : result (option Z) := if multi =? nextMXact s then Ok (Some (nextOffset s)) else find_multixact_start multi s.

Definition TruncateMultiXact (latest : Z) (segments : list Z) (newOldestMulti : Z) s : result MultiXactState :=
  let oldestMulti := oldestMultiXactId s in
  if MultiXactIdPrecedesOrEquals newOldestMulti oldestMulti then Ok s
  else
    if MultiXactIdPrecedes oldestMulti (earliest_multi segments) then Ok s
    else
      start ← start_of oldestMulti s;
      match start : option Z with
      | None => Ok s
      | Some oldestOffset =>
          start ← start_of newOldestMulti s;
          match start : option Z with
          | None => Ok s
          | Some newOldestOffset =>
              if newOldestOffset =? 0 then Ok s
              else
                let s := set_oldest newOldestMulti s in
                s ← PerformMembersTruncation oldestOffset newOldestOffset s;
                Ok (PerformOffsetsTruncation latest newOldestMulti s)
          end
      end.

(** * Offsets *)

(** The comparison is the one of the commit log: only distances count. *)
Lemma offset_page_precedes p q : MultiXactOffsetPagePrecedes p q = page_precedes page_words p q.
Proof.
  rewrite (page_precedes_ahead page_words 1048576) by (unfold page_words; lia). unfold MultiXactOffsetPagePrecedes, MultiXactIdPrecedes. rewrite !int32_negative.
  change MULTIXACT_OFFSETS_PER_PAGE with page_words. set (f := FirstMultiXactId + 1).
  assert (E1 : (uint32 (uint32 (uint32 p * page_words) + f) - uint32 (uint32 (uint32 q * page_words) + f)) mod 2 ^ 32 = ahead page_words p q).
  { unfold ahead, page_words, uint32. clearbody f. mlia. }
  set (m1 := uint32 (uint32 (uint32 p * page_words) + f)) in *. set (m2 := uint32 (uint32 (uint32 q * page_words) + f)) in *.
  assert (E2 : (m1 - uint32 (m2 + page_words - 1)) mod 2 ^ 32 = (ahead page_words p q - (page_words - 1)) mod 2 ^ 32) by (rewrite <- E1; clearbody m1 m2; unfold uint32, page_words; mlia).
  rewrite E1, E2. destruct (ahead_multiple page_words 1048576 ltac:(unfold page_words; lia) p q) as [k Hk]. assert (0 ≤ ahead page_words p q < 2 ^ 32) by (apply Z.mod_pos_bound; lia).
  rewrite Hk in *. clear -H. unfold page_words in *. destruct (Z.leb_spec (2 ^ 31) (2048 * k)); cbn [andb].
  - rewrite Z.mod_small by lia. destruct (Z.leb_spec (2 ^ 31) (2048 * k - (2048 - 1))), (Z.leb_spec (2 ^ 31 + 2048) (2048 * k)); try done; lia.
  - destruct (Z.leb_spec (2 ^ 31 + 2048) (2048 * k)); [lia|done].
Qed.

Lemma previous_mid j : PreviousMultiXactId (mid j) = mid (j - 1).
Proof. unfold PreviousMultiXactId, mid, ids, uint32, FirstMultiXactId, MaxMultiXactId. destruct (Z.eqb_spec (1 + j mod (2 ^ 32 - 1)) 1); mlia. Qed.

(** The ids from the new oldest one on keep their page. *)
Lemma offset_page_kept latest j i s : j ≤ i < j + 2 ^ 31 - 2 →
  offset_pages (PerformOffsetsTruncation latest (mid j) s) !! (mid i / page_words) = offset_pages s !! (mid i / page_words).
Proof.
  intros Hi. unfold PerformOffsetsTruncation, SimpleLruTruncate. cbn [set_offset_pages offset_pages]. destruct (MultiXactOffsetPagePrecedes _ _); [done|].
  apply option_eq. intros l. rewrite map_lookup_filter_Some. split; [by intros [? _]|]. intros Hl. split; [done|]. cbn [fst].
  assert (E : ∀ a b, SlruMayDeleteSegment MultiXactOffsetPagePrecedes a b = SlruMayDeleteSegment (page_precedes page_words) a b) by (intros; unfold SlruMayDeleteSegment; by rewrite !offset_page_precedes).
  rewrite E. unfold MultiXactIdToOffsetPage. change MULTIXACT_OFFSETS_PER_PAGE with page_words. rewrite previous_mid. pose proof (mid_range i). pose proof (mid_range (j - 1)).
  apply (window_kept page_words 1048576); try (unfold page_words; lia). unfold pos.
  pose proof (mid_distance (j - 1) (i - (j - 1)) ltac:(lia)) as Hd. replace (j - 1 + (i - (j - 1))) with i in Hd by lia. lia.
Qed.

(** * Members *)

(** Segments counted without the wraparound: those of one turn, and the position in it. *)
Definition segs : Z := 82041.
Definition seg (x : Z) : Z := x / ring * segs + x mod ring / segment.

Lemma seg_code x : MXOffsetToMemberSegment (x mod ring) = seg x mod segs ∧ (x mod ring / members_page) / SLRU_PAGES_PER_SEGMENT = seg x mod segs.
Proof.
  assert (E : (x mod ring / members_page) / SLRU_PAGES_PER_SEGMENT = seg x mod segs).
  { change SLRU_PAGES_PER_SEGMENT with 32. unfold seg. rewrite Z.add_comm, Z_mod_plus_full. unfold segs, segment, members_page, ring. clear. rewrite Z.div_div by lia. mlia. }
  split; [exact E|done].
Qed.

Lemma seg_mono x y : x ≤ y → seg x ≤ seg y.
Proof. unfold seg, segs, segment, ring. intros H. mlia. Qed.

(** What is in front of the limit is less than a turn away. *)
Lemma seg_limit x y : y < limit x → seg y < seg x + segs.
Proof.
  intros H. assert (E : seg (limit x + segment - 1) < seg x + segs); [|pose proof (seg_mono y (limit x + segment - 1)); unfold segment in *; lia].
  unfold limit. clear. unfold seg, segs, segment, ring. mlia.
Qed.

(** The loop removes exactly the segments from [S] up to [E]. *)
Lemma members_loop_spec fuel : ∀ S E pages, S ≤ E → E < S + segs → E - S ≤ Z.of_nat fuel →
  ∃ pages', members_loop fuel (S mod segs) (E mod segs) pages = Ok pages' ∧ (∀ p l, pages' !! p = Some l → pages !! p = Some l) ∧
  (∀ p, (∀ t, S ≤ t < E → p / SLRU_PAGES_PER_SEGMENT ≠ t mod segs) → pages' !! p = pages !! p) ∧
  (∀ p t, S ≤ t < E → p / SLRU_PAGES_PER_SEGMENT = t mod segs → pages' !! p = None).
Proof.
  induction fuel as [|fuel IH]; intros S E pages HSE Hturn Hfuel; cbn [members_loop]; destruct (Z.eqb_spec (S mod segs) (E mod segs)) as [Eq|Ne].
  1,3: assert (S = E) by (clear -HSE Hturn Eq; unfold segs in *; mlia); exists pages; split_and!; [done|done|done|intros; lia].
  1: destruct Ne; f_equal; lia.
  assert (Hlt : S < E) by (destruct (decide (S = E)); [congruence|lia]). change maxsegment with (segs - 1).
  assert ((if S mod segs =? segs - 1 then 0 else S mod segs + 1) = (S + 1) mod segs) as -> by (clear; unfold segs; destruct (Z.eqb_spec (S mod 82041) (82041 - 1)); mlia).
  destruct (IH (S + 1) E (SlruDeleteSegment (S mod segs) pages)) as (pages' & -> & H1 & H2 & H3); [lia|lia|lia|]. exists pages'. unfold SlruDeleteSegment in *. split_and!.
  - done.
  - intros p l Hl. apply H1 in Hl. by apply map_lookup_filter_Some in Hl as [? _].
  - intros p Hp. rewrite H2 by (intros t Ht; apply Hp; lia). apply option_eq. intros l. rewrite map_lookup_filter_Some. split; [by intros [? _]|]. intros Hl. split; [done|]. apply Hp. lia.
  - intros p t Ht Hp. destruct (decide (t = S)) as [->|]; [|apply (H3 p t); [lia|done]].
    destruct (pages' !! p) as [l|] eqn:Hl; [|done]. apply H1, map_lookup_filter_Some in Hl as [_ Hl]. done.
Qed.

Section truncate.
Context s (j0 lo A : Z) hist (Hh : holds s j0 lo A hist) (k : nat) (Hk : (k ≤ length hist)%nat) (Hlast : k = length hist → nextMXact s = mid (j0 + Z.of_nat k)).
Let a0 := oldest_start A hist 0.
Let ak := oldest_start A hist k.

Lemma starts_range : lo ≤ a0 ∧ a0 ≤ ak ∧ ak ≤ A ∧ A < limit a0.
Proof.
  destruct (start_bounds s j0 lo A hist 0 Hh) as [B1 B2]. destruct (start_bounds s j0 lo A hist k Hh) as [B3 B4]. split_and!; try (unfold a0, ak in *; lia).
  unfold a0, ak. unfold oldest_start at 2. destruct (hist !! k) as [[a ms]|] eqn:E; [|lia]. by apply (start_first s j0 lo A hist Hh 0 k a ms).
Qed.

(** No member in use, and not the slot of the next one, is in a segment that goes. *)
Lemma live_segment y t : ak ≤ y ≤ A → seg a0 ≤ t < seg ak → (y mod ring / members_page) / SLRU_PAGES_PER_SEGMENT ≠ t mod segs.
Proof.
  intros Hy Ht. destruct starts_range as (_ & _ & _ & R). rewrite (proj2 (seg_code y)). pose proof (seg_mono ak y ltac:(lia)). pose proof (seg_limit a0 y ltac:(lia)).
  clear -H H0 Ht. unfold segs in *. mlia.
Qed.

Lemma perform_truncation latest : ∃ s1, (s ← PerformMembersTruncation (a0 mod ring) (ak mod ring) (set_oldest (mid (j0 + Z.of_nat k)) s); Ok (PerformOffsetsTruncation latest (mid (j0 + Z.of_nat k)) s)) = Ok s1 ∧
  nextMXact s1 = nextMXact s ∧ nextOffset s1 = nextOffset s ∧ (wf_pages (offset_pages s1) ∧ wf_pages (member_pages s1)) ∧ kept s j0 A hist k ak s1 ∧
  (A mod ring mod members_page ≠ 0 → has_slot s1 (A mod ring)) ∧ ∀ x, a0 ≤ x → seg x < seg ak → ¬ has_slot s1 (x mod ring).
Proof.
  destruct starts_range as (R1 & R2 & R3 & R4). pose proof (seg_mono a0 ak R2) as M1. pose proof (seg_limit a0 ak ltac:(lia)) as M2. destruct (h_pages _ _ _ _ _ Hh) as [W1 W2].
  unfold PerformMembersTruncation. rewrite !(proj1 (seg_code _)).
  destruct (members_loop_spec (Z.to_nat maxsegment) (seg a0) (seg ak) (member_pages (set_oldest (mid (j0 + Z.of_nat k)) s)) M1 M2) as (mp & -> & L1 & L2 & L3).
  { change maxsegment with 82040. unfold segs in *. lia. }
  rsimpl. eexists. split; [done|]. cbn [set_oldest member_pages] in *. unfold PerformOffsetsTruncation. cbn [set_member_pages set_offset_pages set_oldest nextMXact nextOffset offset_pages member_pages].
  assert (Hlive : ∀ y, ak ≤ y ≤ A → mp !! (y mod ring / members_page) = member_pages s !! (y mod ring / members_page)) by (intros y Hy; apply L2; intros t Ht; by apply live_segment).
  split_and!; [done|done| | | | |].
  - intros p l. unfold SimpleLruTruncate. destruct (MultiXactOffsetPagePrecedes _ _); [apply W1|]. rewrite map_lookup_filter_Some. intros [Hl _]. by apply (W1 p).
  - intros p l Hl. by apply (W2 p), L1.
  - match goal with |- kept _ _ _ _ _ _ ?s1 => assert (Hwords : ∀ i, j0 + Z.of_nat k ≤ i ≤ j0 + zlen hist → offset_word s1 (mid i) = offset_word s (mid i)) end.
    { intros i Hi. unfold offset_word, get_word, SimpleLruReadPage. cbn [set_offset_pages offset_pages]. pose proof (h_count _ _ _ _ _ Hh).
      pose proof (offset_page_kept latest (j0 + Z.of_nat k) i (set_member_pages mp (set_oldest (mid (j0 + Z.of_nat k)) s)) ltac:(lia)) as E.
      unfold PerformOffsetsTruncation in E. cbn [set_member_pages set_offset_pages set_oldest offset_pages] in E. by rewrite E. }
    constructor; [intros i Hi; apply Hwords; lia| |].
    + destruct (h_here _ _ _ _ _ Hh) as [w Hw]. exists w. rewrite <- Hw. apply Hwords. unfold zlen. lia.
    + intros y Hy. rewrite !read_member_words by apply ring_range. cbn [set_offset_pages set_member_pages member_pages]. unfold get_word, SimpleLruReadPage. by rewrite Hlive by lia.
  - intros Hs. unfold has_slot. cbn [set_offset_pages set_member_pages member_pages]. rewrite Hlive by lia. by apply (h_slot _ _ _ _ _ Hh).
  - intros x Hx Hsx [l Hl]. cbn [set_offset_pages set_member_pages member_pages] in Hl. rewrite (L3 _ (seg x)) in Hl; [done| |apply seg_code]. pose proof (seg_mono a0 x Hx). lia.
Qed.
End truncate.

(** A state that stays has kept everything. *)
Lemma kept_refl s j0 lo A hist (k : nat) st : holds s j0 lo A hist → kept s j0 A hist k st s.
Proof. intros Hh. constructor; [done|apply (h_here _ _ _ _ _ Hh)|done]. Qed.

Lemma not_before s j0 lo A hist (k : nat) : holds s j0 lo A hist → (0 < k ≤ length hist)%nat → MultiXactIdPrecedesOrEquals (mid (j0 + Z.of_nat k)) (oldestMultiXactId s) = false.
Proof.
  intros Hh Hk. pose proof (h_count _ _ _ _ _ Hh). rewrite (h_oldest _ _ _ _ _ Hh). unfold MultiXactIdPrecedesOrEquals. apply Z.leb_gt.
  destruct (mid_distance j0 (Z.of_nat k)) as [E|E]; [unfold zlen in *; lia| |]; rewrite (int32_len _ _ E); unfold zlen in *; lia.
Qed.

Lemma truncate_holds s j0 lo A hist (k : nat) age latest segments : holds s j0 lo A hist → (k ≤ length hist)%nat →
  (k = length hist → nextMXact s = mid (j0 + Z.of_nat k)) → 0 ≤ age ≤ max_freeze_age →
  ∃ s1 s2, TruncateMultiXact latest segments (mid (j0 + Z.of_nat k)) s = Ok s1 ∧ SetMultiXactIdLimit true age (mid (j0 + Z.of_nat k)) s1 = Ok s2 ∧
    holds s2 (j0 + Z.of_nat k) (oldest_start A hist k) A (drop k hist) ∧
    ((0 < k < length hist)%nat → MultiXactIdPrecedes (mid j0) (earliest_multi segments) = false →
       ∀ x, oldest_start A hist 0 ≤ x → seg x < seg (oldest_start A hist k) → ¬ has_slot s2 (x mod ring)).
Proof.
  intros Hh Hk Hlast Ha.
  assert (Hstay : ∃ s2, SetMultiXactIdLimit true age (mid (j0 + Z.of_nat k)) s = Ok s2 ∧ holds s2 (j0 + Z.of_nat k) (oldest_start A hist k) A (drop k hist)).
  { destruct (moved_holds s j0 lo A hist k age s Hh Hk Hlast Ha eq_refl eq_refl (h_pages _ _ _ _ _ Hh) (kept_refl _ _ _ _ _ _ _ Hh) (h_slot _ _ _ _ _ Hh)) as (s2 & E & _ & H). by exists s2. }
  destruct Hstay as (s2 & E2 & H2). unfold TruncateMultiXact. rewrite (h_oldest _ _ _ _ _ Hh). destruct (decide (k = 0%nat)) as [->|Hpos].
  { rewrite Z.add_0_r in *. assert (MultiXactIdPrecedesOrEquals (mid j0) (mid j0) = true) as -> by (unfold MultiXactIdPrecedesOrEquals; by rewrite Z.sub_diag).
    exists s, s2. split_and!; [done|done|done|lia]. }
  rewrite <- (h_oldest _ _ _ _ _ Hh), (not_before s j0 lo A hist k Hh), (h_oldest _ _ _ _ _ Hh) by lia.
  destruct (MultiXactIdPrecedes (mid j0) (earliest_multi segments)); [by exists s, s2|].
  unfold start_of. pose proof (start_found s j0 lo A hist 0 Hh ltac:(lia)) as F0. rewrite Z.add_0_r in F0. rewrite F0 by (intros E; lia). clear F0. rsimpl.
  rewrite (start_found s j0 lo A hist k Hh Hk Hlast). rsimpl. destruct (Z.eqb_spec (oldest_start A hist k mod ring) 0) as [Hz|Hz].
  { exists s, s2. split_and!; [done|done|done|]. intros Hlt _. destruct (lookup_lt_is_Some_2 hist k) as [[a ms] Hkk]; [lia|]. unfold oldest_start in Hz. rewrite Hkk in Hz.
    by destruct (en_start _ _ _ _ _ _ _ (h_entry _ _ _ _ _ Hh k a ms Hkk)). }
  destruct (perform_truncation s j0 lo A hist Hh k Hk Hlast latest) as (s1 & E1 & F1 & F2 & W & K & Sl & G). exists s1.
  destruct (moved_holds s j0 lo A hist k age s1 Hh Hk Hlast Ha F1 F2 W K Sl) as (s3 & E3 & M3 & H3). exists s3. split_and!; [exact E1|done|done|].
  intros _ _ x Hx Hsx [l Hl]. apply (G x Hx Hsx). exists l. by rewrite <- M3.
Qed.

(** * Claims *)

(** C29. Truncation at any id in use, or at the next one, followed by the new limits: it never
    fails, whatever the order of the directory; every id from there on keeps its members and the
    invariant holds for them, so that creation and reading go on as before; and unless it
    gives up because the files do not reach back to the old oldest id, every page of members in
    the segments between the old and the new oldest members is gone. *)
Theorem truncation_keeps_members s j0 lo A hist (k : nat) age latest segments : holds s j0 lo A hist → (k ≤ length hist)%nat →
  (k = length hist → nextMXact s = mid (j0 + Z.of_nat k)) → 0 ≤ age ≤ max_freeze_age →
  ∃ s1 s2, TruncateMultiXact latest segments (mid (j0 + Z.of_nat k)) s = Ok s1 ∧ SetMultiXactIdLimit true age (mid (j0 + Z.of_nat k)) s1 = Ok s2 ∧
    holds s2 (j0 + Z.of_nat k) (oldest_start A hist k) A (drop k hist) ∧
    ((0 < k < length hist)%nat → MultiXactIdPrecedes (mid j0) (earliest_multi segments) = false →
       ∀ x, oldest_start A hist 0 ≤ x → seg x < seg (oldest_start A hist k) → ¬ has_slot s2 (x mod ring)).
Proof. apply truncate_holds. Qed.

(** * Witness *)

(** The first of two ids goes, with the last segment of the members area; the second has its
    members on the first one. *)
Definition w_two : MultiXactState := w_after w_second (w_after w_first w_state).

Lemma truncation_keeps_members_witness :
  ∃ s1 s2, TruncateMultiXact 0 [2097120; 0] 0xFFFFFFFF w_two = Ok s1 ∧ SetMultiXactIdLimit true 400000000 0xFFFFFFFF s1 = Ok s2 ∧
    holds s2 (w_id - 1 + 1) (w_slot + 4) (w_slot + 6) [(w_slot + 4, w_second)] ∧
    ((0 < 1 < 2)%nat → MultiXactIdPrecedes w_id (earliest_multi [2097120; 0]) = false → ∀ x, w_slot ≤ x → seg x < seg (w_slot + 4) → ¬ has_slot s2 (x mod ring)).
Proof. apply (truncation_keeps_members _ _ _ _ _ 1 400000000 0 [2097120; 0] w_holds2); [cbn; lia|done|by vm_compute]. Defined.

(** The page was there, and is gone. *)
Lemma w_two_truncated : has_slot w_two w_slot ∧ MultiXactIdPrecedes w_id (earliest_multi [2097120; 0]) = false ∧
  ∃ s1, TruncateMultiXact 0 [2097120; 0] 0xFFFFFFFF w_two = Ok s1 ∧ ¬ has_slot s1 w_slot ∧ has_slot s1 1.
Proof.
  split_and!; [by eexists; vm_compute|by vm_compute|]. eexists. split; [by vm_compute|]. split; [by intros [l Hl]; vm_compute in Hl|by eexists; vm_compute].
Qed.
