(* ===== verification/MultiRestart.v ===== *)
(** Restart: what a checkpoint record keeps of the shared state of multixact.c, and how startup
    rebuilds it and clears what is past the last id in both areas. *)

From S2P Require Import Prelude Xid Bufpage PageOps Clog ClogPages Combocid Multixact Members Multis MultiTruncate.

Implicit Types (s : MultiXactState) (pages : gmap Z (list Z)) (hist : History).

(** * The operations *)

(** The next id, the next offset and the oldest id. *)
Definition MultiXactGetCheckptMulti s : Z * Z * Z := (nextMXact s, nextOffset s, oldestMultiXactId s).

(** Shared memory starts with zeroes; the pages are those on disk. *)
Definition MultiXactShmemInit (offsets members : gmap Z (list Z)) : MultiXactState := mkMultiXactState 0 0 0 0 false 0 0 0 offsets members.

(** The offset at the next id, and zeroes after it on its page. *)
Definition trim_offsets s : result MultiXactState :=
  let pageno := MultiXactIdToOffsetPage (nextMXact s) in
  let entryno := MultiXactIdToOffsetEntry (nextMXact s) in
  page ← (if entryno =? 0 then Ok zero_words else SimpleLruReadPage (offset_pages s) pageno);
  let page := <[Z.to_nat entryno := nextOffset s]> page in
  let page :=
    if negb (entryno =? 0) && negb ((entryno + 1) * sizeof_word =? BLCKSZ)
    then take (Z.to_nat (entryno + 1)) page ++ replicate (Z.to_nat (BLCKSZ / sizeof_word - (entryno + 1))) 0
    else page in
  Ok (set_offset_pages (<[pageno := page]> (offset_pages s)) s).

(** Zeroes from the next member to the end of its page. *)
Definition trim_members s : result MultiXactState :=
  let pageno := MXOffsetToMemberPage (nextOffset s) in
  if negb (MXOffsetToFlagsOffset (nextOffset s) =? 0) then
    let memberoff := MXOffsetToMemberOffset (nextOffset s) in
    page ← SimpleLruReadPage (member_pages s) pageno;
    let page := take (Z.to_nat (memberoff / sizeof_word)) page ++ replicate (Z.to_nat ((BLCKSZ - memberoff) / sizeof_word)) 0 in
    Ok (set_member_pages (<[pageno := page]> (member_pages s)) s)
  else Ok s.

Definition TrimMultiXact (autovacuum_multixact_freeze_max_age : Z) s : result MultiXactState :=
  let oldestMXact := oldestMultiXactId s in
  s ← trim_offsets s;
  s ← trim_members s;
  SetMultiXactIdLimit true autovacuum_multixact_freeze_max_age oldestMXact s.

(** A clean restart, from the checkpoint taken at shutdown (StartupXLOG). *)
Definition restart (age : Z) s : result MultiXactState :=
  let '(nextMulti, nextMultiOffset, oldestMulti) := MultiXactGetCheckptMulti s in
  let s := MultiXactShmemInit (offset_pages s) (member_pages s) in
  let s := MultiXactSetNextMXact nextMulti nextMultiOffset s in
  s ← SetMultiXactIdLimit false age oldestMulti s;
  TrimMultiXact age s.

(** * Words of a page whose end is cleared *)

Lemma trimmed_lookup (page : list Z) n m i : (n ≤ length page)%nat → (i < n)%nat → (take n page ++ replicate m 0) !! i = page !! i.
Proof. intros Hn Hi. rewrite lookup_app_l by (rewrite length_take; lia). by apply lookup_take_lt. Qed.

Lemma trimmed_length (page : list Z) n m : (n ≤ length page)%nat → length (take n page ++ replicate m 0) = (n + m)%nat.
Proof. intros Hn. rewrite length_app, length_take, length_replicate. lia. Qed.

Lemma wf_insert pages p page : wf_pages pages → zlen page = page_words → wf_pages (<[p := page]> pages).
Proof. intros Hwf Hl p' l. rewrite lookup_insert_Some. intros [[_ <-]|[_ H]]; [done|by apply (Hwf p')]. Qed.

(** ** Offsets *)

Section offsets.
Context s (j0 lo A : Z) hist (Hh : holds s j0 lo A hist).

(** The ids in use before the next one are on other pages or before it. *)
Lemma before_next i : j0 ≤ i < j0 + zlen hist →
  mid i / page_words ≠ nextMXact s / page_words ∨ nextMXact s mod page_words ≠ 0 ∧ mid i mod page_words < nextMXact s mod page_words.
Proof.
  intros Hi. pose proof (h_count _ _ _ _ _ Hh) as Hc. destruct (h_next _ _ _ _ _ Hh) as (N1 & N2 & N3 & _). assert (Hne : hist ≠ []) by (intros ->; unfold zlen in Hi; cbn in Hi; lia).
  rewrite (N3 Hne) in *. set (j := j0 + zlen hist - 1) in *. assert (Hij : i ≤ j ∧ j + page_words + 2 < i + ids) by (unfold j, ids, page_words; lia). clearbody j.
  assert (Hq : 0 ≤ j mod ids < ids ∧ mid i = 1 + (if decide (j - i ≤ j mod ids) then j mod ids - (j - i) else j mod ids - (j - i) + ids)).
  { clear -Hij. unfold mid, ids, page_words in *. destruct (decide _); mlia. }
  destruct Hq as [Hq ->]. unfold mid. set (q := j mod ids) in *. clearbody q.
  assert (Eu : uint32 (1 + q + 1) = if decide (q = ids - 1) then 0 else q + 2) by (clear -Hq; unfold uint32, ids in *; destruct (decide _); mlia).
  rewrite Eu. clear -Hij Hq. unfold ids, page_words in *. destruct (decide (q = _)), (decide (j - i ≤ q)); mlia.
Qed.

(** The next id is on the page of its counter. *)
Lemma next_page : mid (j0 + zlen hist) / page_words = nextMXact s / page_words ∧ 0 ≤ nextMXact s.
Proof.
  destruct (h_next _ _ _ _ _ Hh) as (N1 & N2 & _). split; [|lia]. rewrite <- N2. unfold valid_next, FirstMultiXactId. destruct (Z.ltb_spec (nextMXact s) 1); [|done].
  assert (nextMXact s = 0) as -> by lia. done.
Qed.

Lemma trimmed_page (page : list Z) e off : zlen page = page_words → 0 ≤ e < page_words →
  let page1 := <[Z.to_nat e := off]> page in
  let page2 := if negb (e =? 0) && negb ((e + 1) * sizeof_word =? BLCKSZ)
    then take (Z.to_nat (e + 1)) page1 ++ replicate (Z.to_nat (BLCKSZ / sizeof_word - (e + 1))) 0 else page1 in
  zlen page2 = page_words ∧ ∀ x, 0 ≤ x < e → page2 !! Z.to_nat x = page !! Z.to_nat x.
Proof.
  intros Hl He page1 page2. change (BLCKSZ / sizeof_word) with page_words in *. assert (H1 : length page1 = length page) by apply length_insert.
  assert (Hx1 : ∀ x, 0 ≤ x < e → page1 !! Z.to_nat x = page !! Z.to_nat x) by (intros x Hx; apply list_lookup_insert_ne; lia).
  unfold zlen, page_words in *. unfold page2. destruct (_ && _); [|split; [lia|done]]. split; [rewrite trimmed_length; lia|].
  intros x Hx. rewrite trimmed_lookup by lia. by apply Hx1.
Qed.

Lemma trim_offsets_spec s0 : nextMXact s0 = nextMXact s → offset_pages s0 = offset_pages s →
  ∃ pages, trim_offsets s0 = Ok (set_offset_pages pages s0) ∧ wf_pages pages ∧
  (∀ i, j0 ≤ i < j0 + zlen hist → get_word pages (mid i / page_words) (mid i mod page_words) = offset_word s (mid i)) ∧
  ∃ w, get_word pages (mid (j0 + zlen hist) / page_words) (mid (j0 + zlen hist) mod page_words) = Ok w.
Proof.
  intros E1 E3. destruct next_page as [Hp Hn]. destruct (h_pages _ _ _ _ _ Hh) as [W _]. unfold trim_offsets. rewrite E1, E3.
  unfold MultiXactIdToOffsetPage, MultiXactIdToOffsetEntry. change MULTIXACT_OFFSETS_PER_PAGE with page_words. set (p := nextMXact s / page_words) in *. set (e := nextMXact s mod page_words).
  assert (He : 0 ≤ e < page_words) by (unfold e; apply Z.mod_pos_bound; done).
  assert (∃ page, (if e =? 0 then Ok zero_words else SimpleLruReadPage (offset_pages s) p) = Ok page ∧ zlen page = page_words ∧ (e ≠ 0 → offset_pages s !! p = Some page)) as (page & -> & Hl & Hpg).
  { destruct (Z.eqb_spec e 0) as [E|E]; [exists zero_words; split_and!; [done|apply zero_words_len|done]|]. destruct (h_here _ _ _ _ _ Hh) as [w Hw].
    unfold offset_word, get_word in Hw. rewrite Hp in Hw. unfold SimpleLruReadPage in *. destruct (offset_pages s !! p) as [page|] eqn:Hpage; [|done]. exists page. split_and!; [done|by apply (W p)|done]. }
  rsimpl. destruct (trimmed_page page e (nextOffset s0) Hl He) as [T1 T2]. set (page2 := if _ && _ then _ else _) in *. eexists. split; [done|].
  assert (W2 : wf_pages (<[p := page2]> (offset_pages s))) by (by apply wf_insert). split_and!; [done| |].
  - intros i Hi. unfold offset_word, get_word, SimpleLruReadPage. destruct (before_next i Hi) as [Hne|[He0 Hlt]]; [by rewrite lookup_insert_ne|].
    destruct (decide (mid i / page_words = p)) as [->|Hne]; [|by rewrite lookup_insert_ne]. rewrite lookup_insert_eq, (Hpg He0). rsimpl. rewrite T2; [done|]. fold e in Hlt. pose proof (Z.mod_pos_bound (mid i) page_words). unfold page_words in *. lia.
  - apply get_word_ok; [done| |apply Z.mod_pos_bound; done]. rewrite Hp, lookup_insert_eq. by eexists.
Qed.
End offsets.

(** ** Members *)

Lemma index_mono x y : 0 ≤ x → 0 ≤ y → x / members_page = y / members_page → x < y → xid_index x < xid_index y ∧ flags_index x < xid_index y.
Proof. unfold xid_index, flags_index, members_page. intros Hx Hy E Hlt. mlia. Qed.

Lemma member_place r : 0 ≤ r < ring → MXOffsetToMemberOffset r = 4 * xid_index r ∧ (MXOffsetToFlagsOffset r ≠ 0 → r mod members_page ≠ 0).
Proof.
  intros Hr. unfold MXOffsetToMemberOffset, MXOffsetToFlagsOffset, xid_index, members_page. change MULTIXACT_MEMBERS_PER_MEMBERGROUP with 4. change MULTIXACT_MEMBERGROUPS_PER_PAGE with 409.
  change MULTIXACT_MEMBERGROUP_SIZE with 20. change MULTIXACT_FLAGBYTES_PER_GROUP with 4. change sizeof_word with 4. clear. assert (E : (r / 4) mod 409 = r mod 1636 / 4) by mlia. rewrite E. split; [lia|mlia].
Qed.

(** A slot in use on the page of the next member is before it. *)
Lemma same_page_before st A y : st ≤ y < A → A < limit st → y mod ring / members_page = A mod ring / members_page → y mod ring < A mod ring.
Proof.
  intros Hy HA E. assert (limit st ≤ st + ring - segment) by (clear; unfold limit, ring, segment; mlia).
  assert (Hd : y mod ring - A mod ring < members_page) by (clear -E; set (u := y mod ring) in *; set (v := A mod ring) in *; clearbody u v; unfold members_page in *; mlia).
  clear E. destruct (Z.lt_ge_cases (y mod ring) (A mod ring)) as [|Hge]; [done|exfalso]. unfold ring, members_page, segment in *. mlia.
Qed.

Lemma trim_members_spec s A st : nextOffset s = A mod ring → wf_pages (member_pages s) → A < limit st → (A mod ring mod members_page ≠ 0 → has_slot s (A mod ring)) →
  ∃ pages, trim_members s = Ok (set_member_pages pages s) ∧ wf_pages pages ∧ (∀ p, is_Some (member_pages s !! p) → is_Some (pages !! p)) ∧
  ∀ y, st ≤ y < A → read_member (y mod ring) (set_member_pages pages s) = read_member (y mod ring) s.
Proof.
  intros E W HA Hslot. unfold trim_members. rewrite E. pose proof (ring_range A) as Hr. destruct (member_place _ Hr) as [Em Ef].
  destruct (Z.eqb_spec (MXOffsetToFlagsOffset (A mod ring)) 0) as [Hz|Hz]; cbn [negb].
  { exists (member_pages s). assert (Es : set_member_pages (member_pages s) s = s) by (by destruct s). by rewrite Es. }
  destruct (Hslot (Ef Hz)) as [page Hpage]. unfold SimpleLruReadPage. change (MXOffsetToMemberPage (A mod ring)) with (A mod ring / members_page). rewrite Hpage. rsimpl. rewrite Em.
  pose proof (W _ _ Hpage) as Hl. destruct (index_bounds (A mod ring) ltac:(lia)) as [_ Hi]. set (x := xid_index (A mod ring)) in *.
  change sizeof_word with 4. change BLCKSZ with 8192. replace (4 * x / 4) with x by mlia. replace ((8192 - 4 * x) / 4) with (page_words - x) by (unfold page_words; mlia).
  unfold zlen, page_words in *. eexists. split; [done|]. split_and!.
  - apply wf_insert; [done|]. unfold zlen, page_words. rewrite trimmed_length; lia.
  - intros p Hp. destruct (decide (p = A mod ring / members_page)) as [->|]; [rewrite lookup_insert_eq; by eexists|by rewrite lookup_insert_ne].
  - intros y Hy. rewrite !read_member_words by apply ring_range. cbn [set_member_pages member_pages]. unfold get_word, SimpleLruReadPage.
    destruct (decide (y mod ring / members_page = A mod ring / members_page)) as [Ep|Ep]; [|by rewrite lookup_insert_ne].
    destruct (index_mono (y mod ring) (A mod ring)) as [I1 I2]; [apply ring_range|lia|done|by apply (same_page_before st)|]. destruct (index_bounds (y mod ring)) as [B1 B2]; [apply ring_range|]. fold x in I1, I2.
    rewrite Ep, lookup_insert_eq, Hpage. rsimpl. rewrite !trimmed_lookup by lia. done.
Qed.

Lemma restart_holds s j0 lo A hist age : holds s j0 lo A hist → 0 ≤ age ≤ max_freeze_age →
  ∃ s', restart age s = Ok s' ∧ holds s' j0 (oldest_start A hist 0) A hist.
Proof.
  intros Hh Ha. destruct (h_pages _ _ _ _ _ Hh) as [W1 W2]. unfold restart. cbn [MultiXactGetCheckptMulti MultiXactShmemInit MultiXactSetNextMXact set_next offset_pages member_pages].
  unfold SetMultiXactIdLimit at 1. cbn [negb nextMXact nextOffset oldestOffset oldestOffsetKnown offsetStopLimit offset_pages member_pages]. rsimpl.
  match goal with |- context [TrimMultiXact age ?st] => set (s0 := st) end. unfold TrimMultiXact. change (oldestMultiXactId s0) with (oldestMultiXactId s). rewrite (h_oldest _ _ _ _ _ Hh).
  destruct (trim_offsets_spec s j0 lo A hist Hh s0 eq_refl eq_refl) as (op & -> & O1 & O2 & O3). rsimpl. destruct (start_bounds s j0 lo A hist 0 Hh) as [_ B].
  destruct (trim_members_spec (set_offset_pages op s0) A (oldest_start A hist 0) (h_offset _ _ _ _ _ Hh) W2 B (h_slot _ _ _ _ _ Hh)) as (mp & -> & M1 & M2 & M3). rsimpl.
  assert (Hkept : kept s j0 A hist 0 (oldest_start A hist 0) (set_member_pages mp (set_offset_pages op s0))) by (constructor; [intros i Hi; apply O2; lia|exact O3|exact M3]).
  destruct (moved_holds s j0 lo A hist 0 age (set_member_pages mp (set_offset_pages op s0)) Hh ltac:(lia)) as (s' & E & _ & H); try done.
  - intros Hn. rewrite Z.add_0_r. apply (h_next _ _ _ _ _ Hh). by destruct hist.
  - intros Hs. apply M2. by apply (h_slot _ _ _ _ _ Hh).
  - rewrite Z.add_0_r, drop_0 in *. by exists s'.
Qed.

(** The first start of a new cluster. *)
Definition bootstrapped (age : Z) : result MultiXactState :=
  s ← SetMultiXactIdLimit false age FirstMultiXactId (MultiXactSetNextMXact FirstMultiXactId 0 (MultiXactShmemInit ∅ ∅));
  restart age (BootStrapMultiXact s).

Lemma startup_limits age multi s : ∃ vac stop, SetMultiXactIdLimit false age multi s =
  Ok (mkMultiXactState (nextMXact s) (nextOffset s) multi (oldestOffset s) (oldestOffsetKnown s) vac stop (offsetStopLimit s) (offset_pages s) (member_pages s)).
Proof. unfold SetMultiXactIdLimit. cbn [negb]. by do 2 eexists. Qed.

(** The state before its limits are computed. *)
Definition boot_state (vac stop : Z) : MultiXactState := mkMultiXactState 1 0 1 0 false vac stop 0 {[0 := zero_words]} {[0 := zero_words]}.

Lemma boot_trimmed vac stop : trim_offsets (boot_state vac stop) = Ok (boot_state vac stop) ∧ trim_members (boot_state vac stop) = Ok (boot_state vac stop).
Proof. split; vm_compute; reflexivity. Qed.

Lemma bootstrapped_trim age : ∃ vac stop, bootstrapped age = TrimMultiXact age (boot_state vac stop).
Proof.
  unfold bootstrapped. destruct (startup_limits age FirstMultiXactId (MultiXactSetNextMXact FirstMultiXactId 0 (MultiXactShmemInit ∅ ∅))) as (v & w & ->). rsimpl.
  unfold restart. cbn [MultiXactGetCheckptMulti]. match goal with |- context [SetMultiXactIdLimit false age ?m ?st] => destruct (startup_limits age m st) as (v' & w' & ->) end. rsimpl. by exists v', w'.
Qed.

Lemma bootstrapped_holds age : 0 ≤ age ≤ max_freeze_age → ∃ s, bootstrapped age = Ok s ∧ holds s 0 0 0 [].
Proof.
  intros Ha. destruct (bootstrapped_trim age) as (vac & stop & ->). destruct (boot_trimmed vac stop) as [E1 E2]. unfold TrimMultiXact. rewrite E1. rsimpl. rewrite E2. rsimpl.
  destruct (set_limits (boot_state vac stop) 1 0 age) as (s & E & F1 & F2 & F3 & F4 & F5 & F6 & F7 & F8); [by vm_compute|done|]. exists s. split; [exact E|].
  assert (W : wf_pages {[0 := zero_words]}) by (intros p l; rewrite lookup_singleton_Some; intros [_ <-]; apply zero_words_len).
  constructor; rewrite ?F1, ?F2, ?F3, ?F4, ?F5, ?F6, ?F7.
  - split; exact W.
  - by vm_compute.
  - by split_and!; vm_compute.
  - by vm_compute.
  - done.
  - done.
  - exists 0. unfold offset_word. rewrite F3. by vm_compute.
  - intros Hs. by destruct Hs.
  - by split_and!; vm_compute.
  - by vm_compute.
  - by apply F8.
Qed.

(** * Claims *)

(** A clean restart keeps every MultiXactId in use with its members: the counters come from
    the checkpoint record, the limits are computed anew from the oldest id, and clearing what is
    past the next id and the next member on their pages succeeds and destroys nothing that is in
    use.  The first start of a new cluster gives a state without ids in use. *)
Theorem restart_keeps_members s j0 lo A hist age : holds s j0 lo A hist → 0 ≤ age ≤ max_freeze_age →
  (∃ s0, bootstrapped age = Ok s0 ∧ holds s0 0 0 0 []) ∧ ∃ s', restart age s = Ok s' ∧ holds s' j0 (oldest_start A hist 0) A hist.
Proof. intros Hh Ha. split; [by apply bootstrapped_holds|by apply (restart_holds s j0 lo)]. Qed.

(** * Witness *)

Lemma restart_keeps_members_witness : ∃ s', restart 400000000 w_two = Ok s' ∧
  holds s' (w_id - 1) w_slot (w_slot + 6) [(w_slot, sort_members w_first); (w_slot + 4, w_second)].
Proof. apply (proj2 (restart_keeps_members w_two (w_id - 1) w_slot (w_slot + 6) [(w_slot, sort_members w_first); (w_slot + 4, w_second)] 400000000 w_holds2 ltac:(by vm_compute))). Defined.
