(* ===== verification/MultiLife.v ===== *)
(** The life of the MultiXactIds of a cluster: from its first start on, backends create, expand
    and read them, vacuum truncates them and the server is restarted, in any order. *)

From stdpp Require Import functions.
From S2P Require Import Prelude Xid Bufpage PageOps Clog ClogPages Combocid Multixact Members Multis MultiTruncate MultiRestart.

Implicit Types (s : MultiXactState) (hist : History) (sys : System) (T : gmap Z (list (Z * Z))).

(** * The machine *)

Inductive life_event : Type :=
  | Did (b : nat) (ev : event)
  | Truncated (multi : Z)
  | Restarted.

Definition backend_of (act : action) : nat := match act with Create b _ | Ask b _ _ | Expand b _ _ _ _ _ _ | EndOfTransaction b => b end.

(** Vacuum truncates at an id in use or at the next one, then sets the limits
    (vac_truncate_clog), whatever the backends have in their caches.  A restart ends all
    transactions. *)
Inductive life_step : System → life_event → System → Prop :=
  | life_do sys act ev sys' : action_ok act → perform act sys = Ok (ev, sys') → life_step sys (Did (backend_of act) ev) sys'
  | life_truncate sys multi age latest segments s1 s2 : id_ok multi → 0 ≤ age ≤ max_freeze_age →
      MultiXactIdPrecedes multi (oldestMultiXactId (shared sys)) = false →
      MultiXactIdPrecedes multi (nextMXact (shared sys)) = true ∨ multi = nextMXact (shared sys) →
      TruncateMultiXact latest segments multi (shared sys) = Ok s1 → SetMultiXactIdLimit true age multi s1 = Ok s2 →
      life_step sys (Truncated multi) (mkSystem s2 (caches sys))
  | life_restart sys age s' : 0 ≤ age ≤ max_freeze_age → restart age (shared sys) = Ok s' → life_step sys Restarted (mkSystem s' ∅).

Inductive life_run : System → list life_event → System → Prop :=
  | life_stop sys : life_run sys [] sys
  | life_next sys e sys' es sys'' : life_step sys e sys' → life_run sys' es sys'' → life_run sys (e :: es) sys''.

(** * What it promises *)

(** What a backend has learnt in its transaction: the ids it was told of, with their members, and
    among them the stale ones, truncated away since. *)
Record Memory : Type := mkMemory { learnt : list (Z * list (Z * Z)); stale : list (Z * list (Z * Z)) }.
Implicit Types (m : Memory) (M : nat → Memory).
Definition nothing : Memory := mkMemory [] [].
Definition learn (multi : Z) (ms : list (Z * Z)) m : Memory := mkMemory ((multi, ms) :: learnt m) (stale m).
Definition outdate (multi : Z) m : Memory := mkMemory (learnt m) (filter (λ e, MultiXactIdPrecedes e.1 multi = true) (learnt m) ++ stale m).

(** The table has these members for an id, or the backend remembers them of a stale one. *)
Definition known T m (multi : Z) (ms : list (Z * Z)) : Prop := T !! multi = Some ms ∨ (multi, ms) ∈ stale m.

(** A set is given to an id that is new, or to one the backend has learnt for it.  A question is
    refused only if the table does not have the id. *)
Inductive known_step : gmap Z (list (Z * Z)) → Memory → event → gmap Z (list (Z * Z)) → Memory → Prop :=
  | known_created T m ms multi : T !! multi = None → known_step T m (Created ms multi) (<[multi := sort_members ms]> T) (learn multi (sort_members ms) m)
  | known_recalled T m ms multi : (multi, sort_members ms) ∈ learnt m → known T m multi (sort_members ms) → known_step T m (Created ms multi) T m
  | known_answered T m multi ms : known T m multi ms → known_step T m (Answered multi (Some ms)) T (learn multi ms m)
  | known_refused T m multi : T !! multi = None → known_step T m (Answered multi None) T m
  | known_member T m p c multi ms xid status : known T m multi ms → (xid, status) ∈ ms → known_step T m (Expanded p c multi xid status multi) T (learn multi ms m)
  | known_expanded T m p c multi ms xid status multi' T' m' : known T m multi ms → (xid, status) ∉ ms →
      known_step T (learn multi ms m) (Created (filter (counts p c) ms ++ [(xid, status)]) multi') T' m' → known_step T m (Expanded p c multi xid status multi') T' m'
  | known_ended T m : known_step T m Ended T nothing.

(** The table and the memories of all backends. *)
Inductive table_life : gmap Z (list (Z * Z)) → (nat → Memory) → list life_event → gmap Z (list (Z * Z)) → (nat → Memory) → Prop :=
  | tl_stop T M : table_life T M [] T M
  | tl_did T M b ev T' m' es T'' M'' : known_step T (M b) ev T' m' → table_life T' (<[b := m']> M) es T'' M'' → table_life T M (Did b ev :: es) T'' M''
  | tl_truncated T M multi es T'' M'' : table_life (filter (λ e, MultiXactIdPrecedes e.1 multi = false) T) (outdate multi ∘ M) es T'' M'' → table_life T M (Truncated multi :: es) T'' M''
  | tl_restarted T M es T'' M'' : table_life T (λ _, nothing) es T'' M'' → table_life T M (Restarted :: es) T'' M''.

(** * Truncation *)

Section truncation.
Context (j0 lo A : Z) hist sys T (Hh : holds (shared sys) j0 lo A hist) (HT : represents j0 hist T).

(** The id is the one of a position. *)
Lemma truncation_point multi : id_ok multi → MultiXactIdPrecedes multi (oldestMultiXactId (shared sys)) = false →
  MultiXactIdPrecedes multi (nextMXact (shared sys)) = true ∨ multi = nextMXact (shared sys) →
  ∃ k : nat, (k ≤ length hist)%nat ∧ multi = mid (j0 + Z.of_nat k) ∧ (k = length hist → nextMXact (shared sys) = mid (j0 + Z.of_nat k)).
Proof using Hh.
  intros Hid H1 H2. destruct H2 as [H2|H2].
  - destruct (between_in_use _ _ _ _ _ Hh multi Hid H1 H2) as (k & Hk & E). exists k. split_and!; [lia|done|lia].
  - exists (length hist). destruct (h_next _ _ _ _ _ Hh) as (_ & N & _). rewrite <- H2 in N. unfold id_ok, valid_next, FirstMultiXactId in *.
    destruct (Z.ltb_spec multi 1); [lia|]. split_and!; [lia|exact N|]. intros _. rewrite <- H2. exact N.
Qed.

Lemma position_after (k i : nat) e : hist !! i = Some e → (k ≤ length hist)%nat → MultiXactIdPrecedes (mid (j0 + Z.of_nat i)) (mid (j0 + Z.of_nat k)) = false ↔ (k ≤ i)%nat.
Proof using Hh.
  intros Hi%lookup_lt_Some Hk. pose proof (h_count _ _ _ _ _ Hh). unfold zlen in *. rewrite precedes_mid by lia. destruct (Z.ltb_spec (j0 + Z.of_nat i) (j0 + Z.of_nat k)); split; intros; (done || lia).
Qed.

Lemma table_truncated (k : nat) : (k ≤ length hist)%nat → represents (j0 + Z.of_nat k) (drop k hist) (filter (λ e, MultiXactIdPrecedes e.1 (mid (j0 + Z.of_nat k)) = false) T).
Proof using Hh HT.
  intros Hk multi ms. rewrite map_lookup_filter_Some, (HT multi ms). cbn [fst]. split.
  - intros [(i & a & Hi & ->) Hp]. pose proof (proj1 (position_after k i _ Hi Hk) Hp). exists (i - k)%nat, a. rewrite lookup_drop. replace (k + (i - k))%nat with i by lia. split; [done|]. f_equal. lia.
  - intros (i & a & Hi & ->). rewrite lookup_drop in Hi. replace (j0 + Z.of_nat k + Z.of_nat i) with (j0 + Z.of_nat (k + i)) by lia. split; [eauto|]. apply (position_after k _ _ Hi Hk). lia.
Qed.
End truncation.

(** * Memories *)

(** What a cache has been learnt, and is in the table or stale. *)
Definition remembers T m (cache : Cache) : Prop :=
  ∀ multi ms, (multi, ms) ∈ cache → (multi, ms) ∈ learnt m ∧ known T m multi ms ∧ Forall member_ok ms.

Lemma remembers_nil T m : remembers T m [].
Proof. by intros ?? ?%not_elem_of_nil. Qed.

Lemma remembers_perm T m cache cache' : cache ≡ₚ cache' → remembers T m cache → remembers T m cache'.
Proof. intros E H multi ms. rewrite <- E. apply H. Qed.

Lemma remembers_learn T m multi ms cache : remembers T m cache → remembers T (learn multi ms m) cache.
Proof. intros H multi' ms' (H1 & H2 & H3)%H. split_and!; [by apply elem_of_cons; right|done|done]. Qed.

Lemma remembers_put T m multi ms cache : remembers T m cache → (multi, ms) ∈ learnt m → known T m multi ms → Forall member_ok ms → sort_members ms = ms →
  remembers T m (mXactCachePut multi ms cache).
Proof.
  intros H H1 H2 H3 Hs. assert (H' : remembers T m ((multi, sort_members ms) :: cache)).
  { intros multi' ms'. rewrite elem_of_cons. intros [[= -> ->]|]; [by rewrite Hs|by apply H]. }
  unfold mXactCachePut. destruct (_ <? _)%nat; [|done]. intros multi' ms' He. apply H'.
  rewrite (app_removelast_last (l := (multi, sort_members ms) :: cache) (0, [])) by done. apply elem_of_app. by left.
Qed.

Lemma remembers_insert T m multi ms cache : T !! multi = None → remembers T m cache → remembers (<[multi := ms]> T) m cache.
Proof.
  intros Hn H multi' ms' (H1 & [H2|H2] & H3)%H; split_and!; try done; [|by right]. left. rewrite lookup_insert_ne; [done|congruence].
Qed.

Lemma remembers_outdate T m multi cache : remembers T m cache → remembers (filter (λ e, MultiXactIdPrecedes e.1 multi = false) T) (outdate multi m) cache.
Proof.
  intros H multi' ms' (H1 & H2 & H3)%H. split_and!; [done| |done]. destruct H2 as [H2|H2]; [|by right; apply elem_of_app; right]. destruct (MultiXactIdPrecedes multi' multi) eqn:E.
  - right. apply elem_of_app. left. by apply list_elem_of_filter.
  - left. by apply map_lookup_filter_Some.
Qed.

(** * Operations *)

Section operations.
Context s (j0 lo A : Z) hist T (Hh : holds s j0 lo A hist) (HT : represents j0 hist T) m cache (Hm : remembers T m cache).

(** What was asked for in vain in the cache is read from the areas. *)
Lemma ask_known ov multi answer cache' : id_ok multi → GetMultiXactIdMembers ov multi false false s cache = Ok (answer, cache') →
  ∃ ms, answer = Some ms ∧ known T m multi ms ∧ Forall member_ok ms ∧ remembers T (learn multi ms m) cache'.
Proof using Hh HT Hm.
  intros Hid. destruct (mXactCacheGetById multi cache) as [[ms|] c] eqn:Hg.
  - unfold GetMultiXactIdMembers. rewrite Hg. assert (MultiXactIdIsValid multi = true) as ->.
    { unfold id_ok, MultiXactIdIsValid, InvalidMultiXactId in *. destruct (Z.eqb_spec multi 0); [lia|done]. }
    cbn [negb orb]. intros [= <- <-]. apply get_by_id_Some in Hg as [Hi Hp]. destruct (Hm _ _ Hi) as (_ & H2 & H3). exists ms. split_and!; [done|done|done|]. by eapply remembers_learn, remembers_perm.
  - pose proof (get_by_id_None _ _ _ Hg) as ->. destruct (T !! multi) as [ms|] eqn:E.
    + pose proof E as (k & a & Hk & ->)%HT. rewrite (read_live s j0 lo A hist Hh ov false cache k a ms Hk Hg) by done. intros [= <- <-]. exists ms.
      destruct (en_members _ _ _ _ _ _ _ (h_entry _ _ _ _ _ Hh k a ms Hk)) as (_ & H3 & _ & H4). split_and!; [done|by left|done|].
      apply remembers_put; [by apply remembers_learn|by apply elem_of_cons; left|by left|done|done].
    + intros E'. exfalso. assert (Hn : ∀ k : nat, (k < length hist)%nat → multi ≠ mid (j0 + Z.of_nat k)).
      { intros k Hk ->. apply lookup_lt_is_Some in Hk as [[a ms] Hk]. assert (T !! mid (j0 + Z.of_nat k) = Some ms) by (apply HT; eauto). congruence. }
      revert E'. unfold GetMultiXactIdMembers, MultiXactIdIsValid, InvalidMultiXactId. rewrite Hg. unfold id_ok in Hid. destruct (Z.eqb_spec multi 0); [lia|]. cbn [negb orb andb].
      destruct (MultiXactIdPrecedes multi (oldestMultiXactId s)) eqn:H1; [done|]. destruct (MultiXactIdPrecedes multi (nextMXact s)) eqn:H2; [|done].
      destruct (between_in_use s j0 lo A hist Hh multi Hid H1 H2) as (k & Hk & E'). by destruct (Hn k).
Qed.

Lemma ask_refused ov multi e : GetMultiXactIdMembers ov multi false false s cache = Err e → T !! multi = None.
Proof using Hh HT.
  intros E. destruct (T !! multi) as [ms|] eqn:ET; [|done]. apply HT in ET as (k & a & Hk & ->). destruct (mXactCacheGetById (mid (j0 + Z.of_nat k)) cache) as [[ms'|] c] eqn:Hg.
  - revert E. unfold GetMultiXactIdMembers. by rewrite Hg, mid_valid.
  - pose proof (get_by_id_None _ _ _ Hg) as ->. by rewrite (read_live s j0 lo A hist Hh ov false cache k a ms Hk Hg) in E.
Qed.

(** The memories of the other backends stay good. *)
Definition grows T T' : Prop := ∀ m' c', remembers T m' c' → remembers T' m' c'.

Lemma create_known ms multi s' cache' : set_ok ms → MultiXactIdCreateFromMembers false true ms s cache = Ok (multi, s', cache') →
  ∃ A' hist' T' m', known_step T m (Created ms multi) T' m' ∧ holds s' j0 lo A' hist' ∧ represents j0 hist' T' ∧ remembers T' m' cache' ∧ grows T T'.
Proof using Hh HT Hm.
  intros Hok. assert (Hc0 : cache_ok j0 hist []) by (by intros ?? ?%not_elem_of_nil). pose proof (create_cases s j0 lo A hist Hh [] Hc0 ms Hok) as Hcase.
  unfold MultiXactIdCreateFromMembers in *. destruct (mXactCacheGetBySet ms cache) as [[ms' multi'] c] eqn:Hg. apply get_by_set in Hg as (-> & Hp & Hi).
  pose proof (remembers_perm T m _ _ Hp Hm) as Hm'. destruct (MultiXactIdIsValid multi').
  { intros [= <- <- <-]. destruct (Hm _ _ (Hi eq_refl)) as (H1 & H2 & _). exists A, hist, T, m. split_and!; [by constructor|done|done|done|by intros ??]. }
  change (mXactCacheGetBySet ms []) with (sort_members ms, InvalidMultiXactId, [] : Cache) in Hcase. cbv beta iota in Hcase. change (MultiXactIdIsValid InvalidMultiXactId) with false in Hcase. cbv iota in Hcase. revert Hcase.
  destruct (has_two_updaters (sort_members ms)); [done|]. destruct (GetNewMultiXactId _ _ _ s) as [[[x o] s1]|]; rsimpl; [|done]. destruct (RecordNewMultiXact x o _ s1) as [s2|]; rsimpl; [|done]. intros Hcase [= <- <- <-].
  destruct Hcase as [(? & ? & ? & _ & _ & Hin & _)|[(c1 & s3 & _ & _ & [= -> -> _] & Hh' & _)|(_ & ? & [=])]]; [by apply not_elem_of_nil in Hin|].
  pose proof (h_count _ _ _ _ _ Hh). assert (Hf : T !! mid (j0 + zlen hist) = None) by (apply (represents_fresh j0 hist); [done|lia]). destruct Hok as (Hne & Hf2 & _).
  eexists _, _, _, _. split_and!; [by constructor|exact Hh'|by apply represents_snoc; [|lia]| |by intros ??; apply remembers_insert].
  apply remembers_put; [by apply remembers_learn, remembers_insert|by apply elem_of_cons; left|left; apply lookup_insert_eq|by apply sort_props|apply sort_sort].
Qed.
End operations.

Lemma expand_known s j0 lo A hist T m cache p c ov multi xid status multi' s' cache' : holds s j0 lo A hist → represents j0 hist T → remembers T m cache →
  id_ok multi → member_ok (xid, status) → MultiXactIdExpand false true p c ov multi xid status s cache = Ok (multi', s', cache') →
  ∃ A' hist' T' m', known_step T m (Expanded p c multi xid status multi') T' m' ∧ holds s' j0 lo A' hist' ∧ represents j0 hist' T' ∧ remembers T' m' cache' ∧ grows T T'.
Proof.
  intros Hh HT Hm Hid Hx. unfold MultiXactIdExpand. destruct (GetMultiXactIdMembers _ _ _ _ _ _) as [[answer c0]|] eqn:Eg; rsimpl; [|done].
  destruct (ask_known s j0 lo A hist T Hh HT m cache Hm ov multi answer c0 Hid Eg) as (ms & -> & Hk & Hf & Hm0). destruct (existsb _ ms) eqn:He.
  - intros [= <- <- <-]. apply member_present in He. exists A, hist, T, (learn multi ms m). split_and!; [by econstructor|done|done|done|by intros ??].
  - destruct (Z.ltb_spec MaxAllocSize (sizeof_MultiXactMember * (zlen ms + 1))) as [|Hlen]; [done|]. rewrite kept_members. intros E.
    assert (Hok : set_ok (filter (counts p c) ms ++ [(xid, status)])).
    { split_and!; [by destruct (filter (counts p c) ms)|apply Forall_app; split; [by apply Forall_filter|by constructor]|].
      pose proof (length_filter (counts p c) ms). unfold zlen, MaxAllocSize, sizeof_MultiXactMember in *. rewrite length_app. cbn [length]. lia. }
    destruct (create_known s j0 lo A hist T Hh HT _ c0 Hm0 _ _ _ _ Hok E) as (A' & hist' & T' & m' & Hstep & Hrest). exists A', hist', T', m'. split; [|done].
    eapply known_expanded; [done| |done]. intros Hin. apply member_present in Hin. congruence.
Qed.

(** * The invariant *)

(** The state represents the table, and what the caches have is remembered. *)
Record life_ok sys T M : Prop := {
  li_holds : ∃ j0 lo A hist, holds (shared sys) j0 lo A hist ∧ represents j0 hist T;
  li_caches : ∀ b, remembers T (M b) (cache_of sys b);
}.

Lemma updated_life sys T M b j0 lo A hist s cache T' m' : life_ok sys T M → holds s j0 lo A hist → represents j0 hist T' → remembers T' m' cache → grows T T' →
  life_ok (updated b s cache sys) T' (<[b := m']> M).
Proof.
  intros [_ Hc] Hh HT Hm Hg. constructor; [by exists j0, lo, A, hist|]. intros b'. unfold cache_of, updated. cbn [caches]. destruct (decide (b' = b)) as [->|Hne].
  - by rewrite lookup_insert_eq, fn_lookup_insert.
  - rewrite lookup_insert_ne, fn_lookup_insert_ne by done. apply Hg, Hc.
Qed.

Lemma perform_known sys T M act ev sys' : life_ok sys T M → action_ok act → perform act sys = Ok (ev, sys') →
  ∃ T' m', known_step T (M (backend_of act)) ev T' m' ∧ life_ok sys' T' (<[backend_of act := m']> M).
Proof.
  intros Hl Hok. pose proof Hl as [(j0 & lo & A & hist & Hh & HT) Hc]. destruct act as [b ms|b ov multi|b p c ov multi xid status|b]; cbn [perform action_ok backend_of] in *; pose proof (Hc b) as Hb.
  - destruct (MultiXactIdCreateFromMembers _ _ _ _ _) as [[[multi s] cache]|] eqn:E; rsimpl; [|done]. intros [= <- <-].
    destruct (create_known _ j0 lo A hist T Hh HT _ _ Hb _ _ _ _ Hok E) as (A' & hist' & T' & m' & H1 & H2 & H3 & H4 & H5). exists T', m'. split; [done|]. by eapply updated_life.
  - destruct (GetMultiXactIdMembers _ _ _ _ _ _) as [[answer cache]|e] eqn:E; intros [= <- <-].
    + destruct (ask_known _ j0 lo A hist T Hh HT _ _ Hb _ _ _ _ Hok E) as (ms & -> & H1 & _ & H2). eexists _, _. split; [by constructor|]. by eapply updated_life; [..|by intros ??].
    + exists T, (M b). split; [constructor; by eapply (ask_refused _ j0 lo A hist T Hh HT)|]. constructor; [by exists j0, lo, A, hist|]. intros b'. destruct (decide (b' = b)) as [->|]; [rewrite fn_lookup_insert|rewrite fn_lookup_insert_ne by done]; apply Hc.
  - destruct (MultiXactIdExpand _ _ _ _ _ _ _ _ _ _) as [[[multi' s] cache]|] eqn:E; rsimpl; [|done]. intros [= <- <-]. destruct Hok as [H0 H0'].
    destruct (expand_known _ j0 lo A hist T _ _ _ _ _ _ _ _ _ _ _ Hh HT Hb H0 H0' E) as (A' & hist' & T' & m' & H1 & H2 & H3 & H4 & H5). exists T', m'. split; [done|]. by eapply updated_life.
  - intros [= <- <-]. eexists _, _. split; [constructor|]. eapply updated_life; [done|done|done|apply remembers_nil|by intros ??].
Qed.

Lemma life_step_refines sys T M e sys' : life_ok sys T M → life_step sys e sys' →
  ∃ T' M', (∀ es T'' M'', table_life T' M' es T'' M'' → table_life T M (e :: es) T'' M'') ∧ life_ok sys' T' M'.
Proof.
  intros Hl Hstep. destruct Hstep as [sys act ev sys' Hok E|sys multi age latest segments s1 s2 Hid Ha H1 H2 E1 E2|sys age s' Ha E].
  - destruct (perform_known sys T M act ev sys' Hl Hok E) as (T' & m' & Ht & Hl'). eexists _, _. split; [|exact Hl']. intros es T'' M'' H. by eapply tl_did.
  - destruct Hl as [(j0 & lo & A & hist & Hh & HT) Hc]. destruct (truncation_point j0 lo A hist sys Hh multi Hid H1 H2) as (k & Hk & -> & Hlast).
    destruct (truncate_holds (shared sys) j0 lo A hist k age latest segments Hh Hk Hlast Ha) as (s1' & s2' & E1' & E2' & Hh' & _).
    rewrite E1 in E1'. injection E1' as <-. rewrite E2 in E2'. injection E2' as <-. eexists _, _. split; [by apply tl_truncated|]. constructor.
    + eexists _, _, _, _. split; [exact Hh'|]. by apply (table_truncated j0 lo A hist sys T).
    + intros b. apply remembers_outdate, Hc.
  - destruct Hl as [(j0 & lo & A & hist & Hh & HT) Hc]. destruct (restart_holds (shared sys) j0 lo A hist age Hh Ha) as (s1 & E1 & Hh'). rewrite E in E1. injection E1 as <-. eexists _, _. split; [by apply tl_restarted|].
    constructor; [eexists _, _, _, _; split; [exact Hh'|exact HT]|]. intros b. unfold cache_of. cbn [caches]. rewrite lookup_empty. apply remembers_nil.
Qed.

(** * Claims *)

(** C27. From the first start of a cluster on, however the backends interleave creating, expanding
    and reading MultiXactIds, and whenever vacuum truncates, whatever the caches hold, and the
    server restarts, the ids behave as one table with a memory for each backend of what it has
    learnt in its transaction.  An id is given to one set of members and keeps it until it is
    truncated away; a question about an id in the table is never refused and is answered with
    exactly its members, or, if the asking backend learnt this id before it was truncated away in
    its transaction, with the members it had then; a question about any other id is refused
    unless the backend remembers it so; an expansion has the members that still run, the updaters
    that committed, and the new one.  Ids and member offsets may wrap around any number of times. *)
Theorem multixacts_are_a_table age s es sys : 0 ≤ age ≤ max_freeze_age → bootstrapped age = Ok s → life_run (mkSystem s ∅) es sys →
  ∃ T M, table_life ∅ (λ _, nothing) es T M ∧ life_ok sys T M.
Proof.
  intros Ha E. destruct (bootstrapped_holds age Ha) as (s0 & E0 & Hh). rewrite E in E0. injection E0 as <-.
  assert (H0 : life_ok (mkSystem s ∅) ∅ (λ _, nothing)).
  { constructor.
    - eexists _, _, _, _. split; [exact Hh|]. intros multi ms. rewrite lookup_empty. split; [done|]. by intros (k & a & H & _).
    - intros b. unfold cache_of. cbn [caches]. rewrite lookup_empty. apply remembers_nil. }
  clear -H0. revert H0. generalize (λ _ : nat, nothing) as M. generalize (∅ : gmap Z (list (Z * Z))) as T. generalize (mkSystem s ∅) as sys0. intros sys0 T M H0 Hrun. revert T M H0.
  induction Hrun as [sys0|sys0 e sys' es sys'' Hstep _ IH]; intros T M H0; [exists T, M; split; [constructor|done]|].
  destruct (life_step_refines sys0 T M e sys' H0 Hstep) as (T' & M' & Ht & H1). destruct (IH T' M' H1) as (T'' & M'' & Ht' & H2). exists T'', M''. auto.
Qed.

(** * Witness *)

(** Two ids are made in a new cluster; the first is truncated away while a backend has it in its
    cache, and the server restarts. *)
Definition did (acts : list action) (evs : list event) : list life_event := zip_with (λ act ev, Did (backend_of act) ev) acts evs.

Lemma run_life acts : ∀ sys evs sys' es sys'', Forall action_ok acts → run acts sys = Ok (evs, sys') → life_run sys' es sys'' → life_run sys (did acts evs ++ es) sys''.
Proof.
  induction acts as [|act acts IH]; intros sys evs sys' es sys'' Hok; cbn [run].
  { by intros [= <- <-]. }
  inversion Hok as [|? ? H1 H2]; subst. destruct (perform act sys) as [[ev sys1]|] eqn:E1; rsimpl; [|done]. destruct (run acts sys1) as [[evs1 sys2]|] eqn:E2; rsimpl; [|done]. intros [= <- <-] Hl.
  unfold did. cbn [zip_with app]. econstructor; [by eapply life_do|]. by eapply IH.
Qed.

Definition l_age : Z := 400000000.
Definition l_state : MultiXactState := from_ok w_base (bootstrapped l_age).
Definition l_first : list action := [Create 0 w_first; Create 1 w_second; Ask 2 1 1; EndOfTransaction 0; EndOfTransaction 1].
Definition l_then : list action := [Ask 0 1 1; Ask 2 1 1; EndOfTransaction 2; Ask 2 1 1; Ask 0 1 2; Create 0 w_first; EndOfTransaction 0].
Definition l_last : list action := [Ask 1 1 3; Ask 1 1 2].
Definition ran (acts : list action) sys : list event * System := from_ok ([], sys) (run acts sys).
Definition truncated (multi : Z) sys : System :=
  mkSystem (from_ok w_base (s1 ← TruncateMultiXact 0 [0] multi (shared sys); SetMultiXactIdLimit true l_age multi s1)) (caches sys).
Definition l_sys1 : System := (ran l_first (mkSystem l_state ∅)).2.
Definition l_sys2 : System := truncated 2 l_sys1.
Definition l_sys3 : System := (ran l_then l_sys2).2.
Definition l_sys4 : System := mkSystem (from_ok w_base (restart l_age (shared l_sys3))) ∅.
Definition l_sys5 : System := (ran l_last l_sys4).2.
Definition l_events : list life_event :=
  did l_first (ran l_first (mkSystem l_state ∅)).1 ++ Truncated 2 :: did l_then (ran l_then l_sys2).1 ++ Restarted :: did l_last (ran l_last l_sys4).1 ++ [].

Lemma l_actions : Forall action_ok l_first ∧ Forall action_ok l_then ∧ Forall action_ok l_last.
Proof.
  pose proof w_sets as [S1 S2]. assert (Hid : ∀ multi, (0 <? multi) && (multi <=? 3) = true → id_ok multi) by (intros multi H; unfold id_ok, MaxMultiXactId; lia).
  unfold l_first, l_then, l_last. rewrite !Forall_cons, !Forall_nil. cbn [action_ok]. split_and!; (done || by apply Hid).
Qed.

Lemma l_run : life_run (mkSystem l_state ∅) l_events l_sys5.
Proof.
  destruct l_actions as (A1 & A2 & A3). unfold l_events. eapply (run_life l_first); [exact A1|vm_compute; reflexivity|]. econstructor.
  { eapply (life_truncate l_sys1 2 l_age 0 [0]); [by vm_compute|by vm_compute|by vm_compute|left; by vm_compute|vm_compute; reflexivity|vm_compute; reflexivity]. }
  eapply (run_life l_then); [exact A2|vm_compute; reflexivity|]. econstructor.
  { apply (life_restart l_sys3 l_age); [by vm_compute|vm_compute; reflexivity]. }
  eapply (run_life l_last); [exact A3|vm_compute; reflexivity|]. constructor.
Qed.

Definition life_answer (e : life_event) : option (nat * (Z * option (list (Z * Z)))) := match e with Did b ev => pair b <$> answer_of ev | _ => None end.

(** After the truncation backend 2 is still answered about id 1, until its transaction ends; the
    others are refused. *)
Lemma multixacts_are_a_table_witness :
  omap life_answer l_events =
    [(2%nat, (1, Some (sort_members w_first))); (0%nat, (1, None)); (2%nat, (1, Some (sort_members w_first))); (2%nat, (1, None)); (0%nat, (2, Some w_second));
     (1%nat, (3, Some (sort_members w_first))); (1%nat, (2, Some w_second))] ∧
  ∃ T M, table_life ∅ (λ _, nothing) l_events T M ∧ life_ok l_sys5 T M.
Proof. split; [by vm_compute|]. apply (multixacts_are_a_table l_age l_state l_events l_sys5); [by vm_compute|vm_compute; reflexivity|exact l_run]. Defined.
