(* ===== verification/Visibility.v ===== *)
(** heapam_visibility.c: which row versions a snapshot sees, and which are dead to everyone;
    with XidInMVCCSnapshot of snapmgr.c and the tests of MultiXactIds it uses.  A test returns
    its answer and the tuple with the hint bits it has set. *)

From S2P Require Import Prelude Xid Bufpage Itup Compact PageOps HeapPage HotChain HeapPrune Combocid.

(** * Tuple headers *)

Definition HEAP_XMAX_KEYSHR_LOCK : Z := 0x0010.
Definition HEAP_XMAX_EXCL_LOCK : Z := 0x0040.
Definition HEAP_XMAX_SHR_LOCK : Z := Z.lor HEAP_XMAX_EXCL_LOCK HEAP_XMAX_KEYSHR_LOCK.
Definition HEAP_LOCK_MASK : Z := Z.lor (Z.lor HEAP_XMAX_SHR_LOCK HEAP_XMAX_EXCL_LOCK) HEAP_XMAX_KEYSHR_LOCK.
Definition HEAP_XMAX_COMMITTED : Z := 0x0400.
Definition SpecTokenOffsetNumber : Z := 0xfffe.
Definition InvalidCommandId : Z := 0xFFFFFFFF.

Definition HEAP_XMAX_IS_LOCKED_ONLY (infomask : Z) : bool :=
  has_flag infomask HEAP_XMAX_LOCK_ONLY ||
  (Z.land infomask (Z.lor HEAP_XMAX_IS_MULTI HEAP_LOCK_MASK) =? HEAP_XMAX_EXCL_LOCK).
Definition HEAP_LOCKED_UPGRADED (infomask : Z) : bool :=
  has_flag infomask HEAP_XMAX_IS_MULTI && has_flag infomask HEAP_XMAX_LOCK_ONLY &&
  (Z.land infomask (Z.lor HEAP_XMAX_EXCL_LOCK HEAP_XMAX_KEYSHR_LOCK) =? 0).

(** * Snapshots *)

Record SnapshotData : Type := mkSnapshot {
  sn_xmin : Z;
  sn_xmax : Z;
  sn_xip : list Z;
  sn_subxip : list Z;
  suboverflowed : bool;
  takenDuringRecovery : bool;
  curcid : Z;
}.

Definition pg_lfind32 (key : Z) (base : list Z) : bool := existsb (Z.eqb key) base.

Inductive TM_Result : Type :=
  | TM_Ok | TM_Invisible | TM_SelfModified | TM_Updated | TM_Deleted | TM_BeingModified | TM_WouldBlock.
#[export] Instance TM_Result_eq_dec : EqDecision TM_Result.
Proof. solve_decision. Defined.

(** What HeapTupleSatisfiesDirty returns in the snapshot: the running inserter, the running
    deleter, and the token of a speculative insertion. *)
Record DirtyData : Type := mkDirty { dirty_xmin : Z; dirty_xmax : Z; speculativeToken : Z }.
Definition no_dirty : DirtyData := mkDirty InvalidTransactionId InvalidTransactionId 0.

(** * What the tests ask of other components

    The backend's own transaction (xact.c), the running transactions (procarray.c), the commit
    log, the parents of subtransactions, the members of MultiXactIds (multixact.c), the combo
    command ids, and for setting hint bits the log position of the commit and of the buffer. *)

Class Xacts : Type := {
  TransactionIdIsCurrentTransactionId : Z → bool;
  TransactionIdIsInProgress : Z → bool;
  DidCommit : Z → bool;
  SubTransTopmost : Z → Z;
  GetMultiXactIdMembers : Z → bool → list (Z * Z);
  combos : ComboState;
  GetCommitLSN : Z → Z;
  BufferIsPermanent : bool;
  XLogNeedsFlush : Z → bool;
  BufferGetLSNAtomic : Z;
}.

Section visibility.
Context `{X : Xacts} {A : Type}.
Abbreviation Tuple := (@HeapTupleHeaderData A).
Implicit Types (t tuple : Tuple) (snapshot : SnapshotData).

(** The lookups in the arrays of ids, after the range checks. *)
Definition XidInMVCCSnapshot (xid : Z) snapshot : bool :=
  if TransactionIdPrecedes xid (sn_xmin snapshot) then false
  else if TransactionIdFollowsOrEquals xid (sn_xmax snapshot) then true
  else if negb (takenDuringRecovery snapshot) then
    if negb (suboverflowed snapshot) then
      if pg_lfind32 xid (sn_subxip snapshot) then true else pg_lfind32 xid (sn_xip snapshot)
    else
      let xid := SubTransTopmost xid in
      if TransactionIdPrecedes xid (sn_xmin snapshot) then false else pg_lfind32 xid (sn_xip snapshot)
  else if suboverflowed snapshot then
    let xid := SubTransTopmost xid in
    if TransactionIdPrecedes xid (sn_xmin snapshot) then false else pg_lfind32 xid (sn_subxip snapshot)
  else pg_lfind32 xid (sn_subxip snapshot).

(** ** MultiXactIds *)

Definition ISUPDATE_from_mxstatus (status : Z) : bool := 3 <? status.

(** heapam.c *)
Definition MultiXactIdGetUpdateXid (xmax : Z) : Z :=
  match List.find (λ m, ISUPDATE_from_mxstatus m.2) (GetMultiXactIdMembers xmax false) with
  | Some m => m.1
  | None => InvalidTransactionId
  end.
Definition HeapTupleGetUpdateXid tuple : Z := MultiXactIdGetUpdateXid (t_xmax tuple).

(** multixact.c *)
Definition MultiXactIdIsRunning (multi : Z) (isLockOnly : bool) : bool :=
  let members := GetMultiXactIdMembers multi isLockOnly in
  existsb (λ m, TransactionIdIsCurrentTransactionId m.1) members ||
  existsb (λ m, TransactionIdIsInProgress m.1) members.

(** ** Hint bits *)

Definition set_infomask (infomask : Z) t : Tuple :=
  mkHeapTuple (t_xmin t) (t_xmax t) (t_xvac t) (t_ctid t) (t_infomask2 t) infomask (t_values t).

Definition SetHintBits t (infomask xid : Z) : Tuple :=
  if TransactionIdIsValid xid &&
     (BufferIsPermanent && XLogNeedsFlush (GetCommitLSN xid) && (BufferGetLSNAtomic <? GetCommitLSN xid))
  then t
  else set_infomask (Z.lor (t_infomask t) infomask) t.

(** Command ids, read only for transactions of this backend; an id outside the array is not
    defined. *)
Definition cid_of (r : result Z) : Z := match r with Ok cid => cid | Err _ => InvalidCommandId end.
Definition GetCmin t : Z := cid_of (HeapTupleHeaderGetCmin combos t).
Definition GetCmax t : Z := cid_of (HeapTupleHeaderGetCmax combos t).

(** ** Tuples moved by a VACUUM FULL before 9.0

    The tests treat them alike, except for what they take as running: go on with the tuple, or
    stop because its inserter does not count. *)
Definition moved_off (running : Z → bool) t : loop Tuple Tuple :=
  let xvac := HeapTupleHeaderGetXvac t in
  if TransactionIdIsCurrentTransactionId xvac then Break t
  else if negb (running xvac) then
    if DidCommit xvac then Break (SetHintBits t HEAP_XMIN_INVALID InvalidTransactionId)
    else Continue (SetHintBits t HEAP_XMIN_COMMITTED InvalidTransactionId)
  else Continue t.

Definition moved_in (running : Z → bool) t : loop Tuple Tuple :=
  let xvac := HeapTupleHeaderGetXvac t in
  if negb (TransactionIdIsCurrentTransactionId xvac) then
    if running xvac then Break t
    else if DidCommit xvac then Continue (SetHintBits t HEAP_XMIN_COMMITTED InvalidTransactionId)
    else Break (SetHintBits t HEAP_XMIN_INVALID InvalidTransactionId)
  else Continue t.

(** ** Is the tuple only locked *)

Definition HeapTupleHeaderIsOnlyLocked tuple : bool :=
  if has_flag (t_infomask tuple) HEAP_XMAX_INVALID then true
  else if has_flag (t_infomask tuple) HEAP_XMAX_LOCK_ONLY then true
  else if negb (TransactionIdIsValid (t_xmax tuple)) then true
  else if negb (has_flag (t_infomask tuple) HEAP_XMAX_IS_MULTI) then false
  else
    let xmax := HeapTupleGetUpdateXid tuple in
    if TransactionIdIsCurrentTransactionId xmax then false
    else if TransactionIdIsInProgress xmax then false
    else if DidCommit xmax then false
    else true.

(** ** SNAPSHOT_SELF *)

(** The tests of the deleter, once the inserter is known to be committed. *)
Definition self_xmax tuple : bool * Tuple :=
  if has_flag (t_infomask tuple) HEAP_XMAX_INVALID then (true, tuple)
  else if has_flag (t_infomask tuple) HEAP_XMAX_COMMITTED then
    if HEAP_XMAX_IS_LOCKED_ONLY (t_infomask tuple) then (true, tuple) else (false, tuple)
  else if has_flag (t_infomask tuple) HEAP_XMAX_IS_MULTI then
    if HEAP_XMAX_IS_LOCKED_ONLY (t_infomask tuple) then (true, tuple)
    else
      let xmax := HeapTupleGetUpdateXid tuple in
      if TransactionIdIsCurrentTransactionId xmax then (false, tuple)
      else if TransactionIdIsInProgress xmax then (true, tuple)
      else if DidCommit xmax then (false, tuple)
      else (true, tuple)
  else if TransactionIdIsCurrentTransactionId (t_xmax tuple) then
    if HEAP_XMAX_IS_LOCKED_ONLY (t_infomask tuple) then (true, tuple) else (false, tuple)
  else if TransactionIdIsInProgress (t_xmax tuple) then (true, tuple)
  else if negb (DidCommit (t_xmax tuple)) then (true, SetHintBits tuple HEAP_XMAX_INVALID InvalidTransactionId)
  else if HEAP_XMAX_IS_LOCKED_ONLY (t_infomask tuple) then (true, SetHintBits tuple HEAP_XMAX_INVALID InvalidTransactionId)
  else (false, SetHintBits tuple HEAP_XMAX_COMMITTED (t_xmax tuple)).

(** A tuple inserted by this backend's transaction. *)
Definition self_own tuple : bool * Tuple :=
  if has_flag (t_infomask tuple) HEAP_XMAX_INVALID then (true, tuple)
  else if HEAP_XMAX_IS_LOCKED_ONLY (t_infomask tuple) then (true, tuple)
  else if has_flag (t_infomask tuple) HEAP_XMAX_IS_MULTI then
    (negb (TransactionIdIsCurrentTransactionId (HeapTupleGetUpdateXid tuple)), tuple)
  else if negb (TransactionIdIsCurrentTransactionId (t_xmax tuple)) then
    (true, SetHintBits tuple HEAP_XMAX_INVALID InvalidTransactionId)
  else (false, tuple).

Definition HeapTupleSatisfiesSelf tuple : bool * Tuple :=
  if negb (HeapTupleHeaderXminCommitted tuple) then
    if HeapTupleHeaderXminInvalid tuple then (false, tuple)
    else if has_flag (t_infomask tuple) HEAP_MOVED_OFF then
      match moved_off TransactionIdIsInProgress tuple with Break tuple => (false, tuple) | Continue tuple => self_xmax tuple end
    else if has_flag (t_infomask tuple) HEAP_MOVED_IN then
      match moved_in TransactionIdIsInProgress tuple with Break tuple => (false, tuple) | Continue tuple => self_xmax tuple end
    else if TransactionIdIsCurrentTransactionId (t_xmin tuple) then self_own tuple
    else if TransactionIdIsInProgress (t_xmin tuple) then (false, tuple)
    else if DidCommit (t_xmin tuple) then self_xmax (SetHintBits tuple HEAP_XMIN_COMMITTED (t_xmin tuple))
    else (false, SetHintBits tuple HEAP_XMIN_INVALID InvalidTransactionId)
  else self_xmax tuple.

(** ** SNAPSHOT_ANY and SNAPSHOT_TOAST *)

Definition HeapTupleSatisfiesAny tuple : bool * Tuple := (true, tuple).

Definition HeapTupleSatisfiesToast tuple : bool * Tuple :=
  if negb (HeapTupleHeaderXminCommitted tuple) then
    if HeapTupleHeaderXminInvalid tuple then (false, tuple)
    else if has_flag (t_infomask tuple) HEAP_MOVED_OFF then
      match moved_off TransactionIdIsInProgress tuple with Break tuple => (false, tuple) | Continue tuple => (true, tuple) end
    else if has_flag (t_infomask tuple) HEAP_MOVED_IN then
      match moved_in TransactionIdIsInProgress tuple with Break tuple => (false, tuple) | Continue tuple => (true, tuple) end
    else if negb (TransactionIdIsValid (HeapTupleHeaderGetXmin tuple)) then (false, tuple)
    else (true, tuple)
  else (true, tuple).

(** ** SNAPSHOT_MVCC *)

(** Deleted by a command of this transaction: visible if that command came later. *)
Definition deleted_later tuple (cid : Z) : bool := cid <=? GetCmax tuple.

Definition mvcc_own tuple snapshot : bool * Tuple :=
  if curcid snapshot <=? GetCmin tuple then (false, tuple)
  else if has_flag (t_infomask tuple) HEAP_XMAX_INVALID then (true, tuple)
  else if HEAP_XMAX_IS_LOCKED_ONLY (t_infomask tuple) then (true, tuple)
  else if has_flag (t_infomask tuple) HEAP_XMAX_IS_MULTI then
    if negb (TransactionIdIsCurrentTransactionId (HeapTupleGetUpdateXid tuple)) then (true, tuple)
    else (deleted_later tuple (curcid snapshot), tuple)
  else if negb (TransactionIdIsCurrentTransactionId (t_xmax tuple)) then
    (true, SetHintBits tuple HEAP_XMAX_INVALID InvalidTransactionId)
  else (deleted_later tuple (curcid snapshot), tuple).

Definition mvcc_xmax tuple snapshot : bool * Tuple :=
  if has_flag (t_infomask tuple) HEAP_XMAX_INVALID then (true, tuple)
  else if HEAP_XMAX_IS_LOCKED_ONLY (t_infomask tuple) then (true, tuple)
  else if has_flag (t_infomask tuple) HEAP_XMAX_IS_MULTI then
    let xmax := HeapTupleGetUpdateXid tuple in
    if TransactionIdIsCurrentTransactionId xmax then (deleted_later tuple (curcid snapshot), tuple)
    else if XidInMVCCSnapshot xmax snapshot then (true, tuple)
    else if DidCommit xmax then (false, tuple)
    else (true, tuple)
  else if negb (has_flag (t_infomask tuple) HEAP_XMAX_COMMITTED) then
    if TransactionIdIsCurrentTransactionId (t_xmax tuple) then (deleted_later tuple (curcid snapshot), tuple)
    else if XidInMVCCSnapshot (t_xmax tuple) snapshot then (true, tuple)
    else if negb (DidCommit (t_xmax tuple)) then (true, SetHintBits tuple HEAP_XMAX_INVALID InvalidTransactionId)
    else (false, SetHintBits tuple HEAP_XMAX_COMMITTED (t_xmax tuple))
  else if XidInMVCCSnapshot (t_xmax tuple) snapshot then (true, tuple)
  else (false, tuple).

Definition HeapTupleSatisfiesMVCC tuple snapshot : bool * Tuple :=
  if negb (HeapTupleHeaderXminCommitted tuple) then
    if HeapTupleHeaderXminInvalid tuple then (false, tuple)
    else if has_flag (t_infomask tuple) HEAP_MOVED_OFF then
      match moved_off (λ xid, XidInMVCCSnapshot xid snapshot) tuple with
      | Break tuple => (false, tuple) | Continue tuple => mvcc_xmax tuple snapshot end
    else if has_flag (t_infomask tuple) HEAP_MOVED_IN then
      match moved_in (λ xid, XidInMVCCSnapshot xid snapshot) tuple with
      | Break tuple => (false, tuple) | Continue tuple => mvcc_xmax tuple snapshot end
    else if TransactionIdIsCurrentTransactionId (t_xmin tuple) then mvcc_own tuple snapshot
    else if XidInMVCCSnapshot (t_xmin tuple) snapshot then (false, tuple)
    else if DidCommit (t_xmin tuple) then mvcc_xmax (SetHintBits tuple HEAP_XMIN_COMMITTED (t_xmin tuple)) snapshot
    else (false, SetHintBits tuple HEAP_XMIN_INVALID InvalidTransactionId)
  else if negb (HeapTupleHeaderXminFrozen tuple) && XidInMVCCSnapshot (t_xmin tuple) snapshot then (false, tuple)
  else mvcc_xmax tuple snapshot.

(** ** For VACUUM *)

(** The status, [*dead_after] and the tuple. *)
Definition horizon_xmax tuple : HTSV_Result * Z * Tuple :=
  if has_flag (t_infomask tuple) HEAP_XMAX_INVALID then (HEAPTUPLE_LIVE, InvalidTransactionId, tuple)
  else if HEAP_XMAX_IS_LOCKED_ONLY (t_infomask tuple) then
    if negb (has_flag (t_infomask tuple) HEAP_XMAX_COMMITTED) then
      if has_flag (t_infomask tuple) HEAP_XMAX_IS_MULTI then
        if negb (HEAP_LOCKED_UPGRADED (t_infomask tuple)) && MultiXactIdIsRunning (t_xmax tuple) true
        then (HEAPTUPLE_LIVE, InvalidTransactionId, tuple)
        else (HEAPTUPLE_LIVE, InvalidTransactionId, SetHintBits tuple HEAP_XMAX_INVALID InvalidTransactionId)
      else if TransactionIdIsInProgress (t_xmax tuple) then (HEAPTUPLE_LIVE, InvalidTransactionId, tuple)
      else (HEAPTUPLE_LIVE, InvalidTransactionId, SetHintBits tuple HEAP_XMAX_INVALID InvalidTransactionId)
    else (HEAPTUPLE_LIVE, InvalidTransactionId, tuple)
  else if has_flag (t_infomask tuple) HEAP_XMAX_IS_MULTI then
    let xmax := HeapTupleGetUpdateXid tuple in
    if TransactionIdIsInProgress xmax then (HEAPTUPLE_DELETE_IN_PROGRESS, InvalidTransactionId, tuple)
    else if DidCommit xmax then (HEAPTUPLE_RECENTLY_DEAD, xmax, tuple)
    else if negb (MultiXactIdIsRunning (t_xmax tuple) false)
    then (HEAPTUPLE_LIVE, InvalidTransactionId, SetHintBits tuple HEAP_XMAX_INVALID InvalidTransactionId)
    else (HEAPTUPLE_LIVE, InvalidTransactionId, tuple)
  else if negb (has_flag (t_infomask tuple) HEAP_XMAX_COMMITTED) then
    if TransactionIdIsInProgress (t_xmax tuple) then (HEAPTUPLE_DELETE_IN_PROGRESS, InvalidTransactionId, tuple)
    else if DidCommit (t_xmax tuple)
    then (HEAPTUPLE_RECENTLY_DEAD, t_xmax tuple, SetHintBits tuple HEAP_XMAX_COMMITTED (t_xmax tuple))
    else (HEAPTUPLE_LIVE, InvalidTransactionId, SetHintBits tuple HEAP_XMAX_INVALID InvalidTransactionId)
  else (HEAPTUPLE_RECENTLY_DEAD, t_xmax tuple, tuple).

Definition horizon_own tuple : HTSV_Result :=
  if has_flag (t_infomask tuple) HEAP_XMAX_INVALID then HEAPTUPLE_INSERT_IN_PROGRESS
  else if HEAP_XMAX_IS_LOCKED_ONLY (t_infomask tuple) || HeapTupleHeaderIsOnlyLocked tuple then HEAPTUPLE_INSERT_IN_PROGRESS
  else if TransactionIdIsCurrentTransactionId (HeapTupleHeaderGetUpdateXid HeapTupleGetUpdateXid tuple) then HEAPTUPLE_DELETE_IN_PROGRESS
  else HEAPTUPLE_INSERT_IN_PROGRESS.

Definition HeapTupleSatisfiesVacuumHorizon tuple : HTSV_Result * Z * Tuple :=
  if negb (HeapTupleHeaderXminCommitted tuple) then
    if HeapTupleHeaderXminInvalid tuple then (HEAPTUPLE_DEAD, InvalidTransactionId, tuple)
    else if has_flag (t_infomask tuple) HEAP_MOVED_OFF then
      let xvac := HeapTupleHeaderGetXvac tuple in
      if TransactionIdIsCurrentTransactionId xvac then (HEAPTUPLE_DELETE_IN_PROGRESS, InvalidTransactionId, tuple)
      else if TransactionIdIsInProgress xvac then (HEAPTUPLE_DELETE_IN_PROGRESS, InvalidTransactionId, tuple)
      else if DidCommit xvac then (HEAPTUPLE_DEAD, InvalidTransactionId, SetHintBits tuple HEAP_XMIN_INVALID InvalidTransactionId)
      else horizon_xmax (SetHintBits tuple HEAP_XMIN_COMMITTED InvalidTransactionId)
    else if has_flag (t_infomask tuple) HEAP_MOVED_IN then
      let xvac := HeapTupleHeaderGetXvac tuple in
      if TransactionIdIsCurrentTransactionId xvac then (HEAPTUPLE_INSERT_IN_PROGRESS, InvalidTransactionId, tuple)
      else if TransactionIdIsInProgress xvac then (HEAPTUPLE_INSERT_IN_PROGRESS, InvalidTransactionId, tuple)
      else if DidCommit xvac then horizon_xmax (SetHintBits tuple HEAP_XMIN_COMMITTED InvalidTransactionId)
      else (HEAPTUPLE_DEAD, InvalidTransactionId, SetHintBits tuple HEAP_XMIN_INVALID InvalidTransactionId)
    else if TransactionIdIsCurrentTransactionId (t_xmin tuple) then (horizon_own tuple, InvalidTransactionId, tuple)
    else if TransactionIdIsInProgress (t_xmin tuple) then (HEAPTUPLE_INSERT_IN_PROGRESS, InvalidTransactionId, tuple)
    else if DidCommit (t_xmin tuple) then horizon_xmax (SetHintBits tuple HEAP_XMIN_COMMITTED (t_xmin tuple))
    else (HEAPTUPLE_DEAD, InvalidTransactionId, SetHintBits tuple HEAP_XMIN_INVALID InvalidTransactionId)
  else horizon_xmax tuple.

Definition HeapTupleSatisfiesVacuum tuple (OldestXmin : Z) : HTSV_Result * Tuple :=
  let '(res, dead_after, tuple) := HeapTupleSatisfiesVacuumHorizon tuple in
  (if bool_decide (res = HEAPTUPLE_RECENTLY_DEAD) && TransactionIdPrecedes dead_after OldestXmin then HEAPTUPLE_DEAD else res, tuple).

(** [removable] is GlobalVisTestIsRemovableXid on the horizon of the snapshot or of the scan. *)
Definition HeapTupleSatisfiesNonVacuumable (removable : Z → bool) tuple : bool * Tuple :=
  let '(res, dead_after, tuple) := HeapTupleSatisfiesVacuumHorizon tuple in
  let res := if bool_decide (res = HEAPTUPLE_RECENTLY_DEAD) && removable dead_after then HEAPTUPLE_DEAD else res in
  (negb (bool_decide (res = HEAPTUPLE_DEAD)), tuple).

Definition HeapTupleIsSurelyDead (removable : Z → bool) tuple : bool :=
  if negb (HeapTupleHeaderXminCommitted tuple) then HeapTupleHeaderXminInvalid tuple
  else if has_flag (t_infomask tuple) HEAP_XMAX_INVALID then false
  else if HEAP_XMAX_IS_LOCKED_ONLY (t_infomask tuple) then false
  else if has_flag (t_infomask tuple) HEAP_XMAX_IS_MULTI then false
  else if negb (has_flag (t_infomask tuple) HEAP_XMAX_COMMITTED) then false
  else removable (t_xmax tuple).

(** ** For UPDATE and DELETE

    [tid] is the item pointer of the tuple itself. *)

Definition ItemPointerEquals (p q : ItemPointerData) : bool := bool_decide (p = q).

Definition updated_or_deleted (tid : ItemPointerData) tuple : TM_Result :=
  if negb (ItemPointerEquals tid (t_ctid tuple)) then TM_Updated else TM_Deleted.

(** Modified by this transaction: after or before the command started. *)
Definition self_modified tuple (cid : Z) : TM_Result := if cid <=? GetCmax tuple then TM_SelfModified else TM_Invisible.

Definition update_own tuple (curcid : Z) : TM_Result * Tuple :=
  if curcid <=? GetCmin tuple then (TM_Invisible, tuple)
  else if has_flag (t_infomask tuple) HEAP_XMAX_INVALID then (TM_Ok, tuple)
  else if HEAP_XMAX_IS_LOCKED_ONLY (t_infomask tuple) then
    let xmax := t_xmax tuple in
    if has_flag (t_infomask tuple) HEAP_XMAX_IS_MULTI then
      if MultiXactIdIsRunning xmax true then (TM_BeingModified, tuple) else (TM_Ok, tuple)
    else if negb (TransactionIdIsInProgress xmax) then (TM_Ok, tuple)
    else (TM_BeingModified, tuple)
  else if has_flag (t_infomask tuple) HEAP_XMAX_IS_MULTI then
    if negb (TransactionIdIsCurrentTransactionId (HeapTupleGetUpdateXid tuple)) then
      if MultiXactIdIsRunning (t_xmax tuple) false then (TM_BeingModified, tuple) else (TM_Ok, tuple)
    else (self_modified tuple curcid, tuple)
  else if negb (TransactionIdIsCurrentTransactionId (t_xmax tuple)) then
    (TM_Ok, SetHintBits tuple HEAP_XMAX_INVALID InvalidTransactionId)
  else (self_modified tuple curcid, tuple).

Definition update_multi (tid : ItemPointerData) tuple (curcid : Z) : TM_Result * Tuple :=
  if HEAP_LOCKED_UPGRADED (t_infomask tuple) then (TM_Ok, tuple)
  else if HEAP_XMAX_IS_LOCKED_ONLY (t_infomask tuple) then
    if MultiXactIdIsRunning (t_xmax tuple) true then (TM_BeingModified, tuple)
    else (TM_Ok, SetHintBits tuple HEAP_XMAX_INVALID InvalidTransactionId)
  else
    let xmax := HeapTupleGetUpdateXid tuple in
    if negb (TransactionIdIsValid xmax) && MultiXactIdIsRunning (t_xmax tuple) false then (TM_BeingModified, tuple)
    else if TransactionIdIsCurrentTransactionId xmax then (self_modified tuple curcid, tuple)
    else if MultiXactIdIsRunning (t_xmax tuple) false then (TM_BeingModified, tuple)
    else if DidCommit xmax then (updated_or_deleted tid tuple, tuple)
    else if negb (MultiXactIdIsRunning (t_xmax tuple) false)
    then (TM_Ok, SetHintBits tuple HEAP_XMAX_INVALID InvalidTransactionId)
    else (TM_BeingModified, tuple).

Definition update_xmax (tid : ItemPointerData) tuple (curcid : Z) : TM_Result * Tuple :=
  if has_flag (t_infomask tuple) HEAP_XMAX_INVALID then (TM_Ok, tuple)
  else if has_flag (t_infomask tuple) HEAP_XMAX_COMMITTED then
    if HEAP_XMAX_IS_LOCKED_ONLY (t_infomask tuple) then (TM_Ok, tuple) else (updated_or_deleted tid tuple, tuple)
  else if has_flag (t_infomask tuple) HEAP_XMAX_IS_MULTI then update_multi tid tuple curcid
  else if TransactionIdIsCurrentTransactionId (t_xmax tuple) then
    if HEAP_XMAX_IS_LOCKED_ONLY (t_infomask tuple) then (TM_BeingModified, tuple) else (self_modified tuple curcid, tuple)
  else if TransactionIdIsInProgress (t_xmax tuple) then (TM_BeingModified, tuple)
  else if negb (DidCommit (t_xmax tuple)) then (TM_Ok, SetHintBits tuple HEAP_XMAX_INVALID InvalidTransactionId)
  else if HEAP_XMAX_IS_LOCKED_ONLY (t_infomask tuple) then (TM_Ok, SetHintBits tuple HEAP_XMAX_INVALID InvalidTransactionId)
  else (updated_or_deleted tid tuple, SetHintBits tuple HEAP_XMAX_COMMITTED (t_xmax tuple)).

Definition HeapTupleSatisfiesUpdate (tid : ItemPointerData) tuple (curcid : Z) : TM_Result * Tuple :=
  if negb (HeapTupleHeaderXminCommitted tuple) then
    if HeapTupleHeaderXminInvalid tuple then (TM_Invisible, tuple)
    else if has_flag (t_infomask tuple) HEAP_MOVED_OFF then
      match moved_off TransactionIdIsInProgress tuple with Break tuple => (TM_Invisible, tuple) | Continue tuple => update_xmax tid tuple curcid end
    else if has_flag (t_infomask tuple) HEAP_MOVED_IN then
      match moved_in TransactionIdIsInProgress tuple with Break tuple => (TM_Invisible, tuple) | Continue tuple => update_xmax tid tuple curcid end
    else if TransactionIdIsCurrentTransactionId (t_xmin tuple) then update_own tuple curcid
    else if TransactionIdIsInProgress (t_xmin tuple) then (TM_Invisible, tuple)
    else if DidCommit (t_xmin tuple) then update_xmax tid (SetHintBits tuple HEAP_XMIN_COMMITTED (t_xmin tuple)) curcid
    else (TM_Invisible, SetHintBits tuple HEAP_XMIN_INVALID InvalidTransactionId)
  else update_xmax tid tuple curcid.

(** ** SNAPSHOT_DIRTY *)

Definition HeapTupleHeaderIsSpeculative tuple : bool := ItemPointerGetOffsetNumber (t_ctid tuple) =? SpecTokenOffsetNumber.
Definition HeapTupleHeaderGetSpeculativeToken tuple : Z := ItemPointerGetBlockNumber (t_ctid tuple).

Definition dirty_deleter tuple : bool * DirtyData * Tuple :=
  if has_flag (t_infomask tuple) HEAP_XMAX_INVALID then (true, no_dirty, tuple)
  else if has_flag (t_infomask tuple) HEAP_XMAX_COMMITTED then
    if HEAP_XMAX_IS_LOCKED_ONLY (t_infomask tuple) then (true, no_dirty, tuple) else (false, no_dirty, tuple)
  else if has_flag (t_infomask tuple) HEAP_XMAX_IS_MULTI then
    if HEAP_XMAX_IS_LOCKED_ONLY (t_infomask tuple) then (true, no_dirty, tuple)
    else
      let xmax := HeapTupleGetUpdateXid tuple in
      if TransactionIdIsCurrentTransactionId xmax then (false, no_dirty, tuple)
      else if TransactionIdIsInProgress xmax then (true, mkDirty InvalidTransactionId xmax 0, tuple)
      else if DidCommit xmax then (false, no_dirty, tuple)
      else (true, no_dirty, tuple)
  else if TransactionIdIsCurrentTransactionId (t_xmax tuple) then
    if HEAP_XMAX_IS_LOCKED_ONLY (t_infomask tuple) then (true, no_dirty, tuple) else (false, no_dirty, tuple)
  else if TransactionIdIsInProgress (t_xmax tuple) then
    (true, (if negb (HEAP_XMAX_IS_LOCKED_ONLY (t_infomask tuple)) then mkDirty InvalidTransactionId (t_xmax tuple) 0 else no_dirty), tuple)
  else if negb (DidCommit (t_xmax tuple)) then (true, no_dirty, SetHintBits tuple HEAP_XMAX_INVALID InvalidTransactionId)
  else if HEAP_XMAX_IS_LOCKED_ONLY (t_infomask tuple) then (true, no_dirty, SetHintBits tuple HEAP_XMAX_INVALID InvalidTransactionId)
  else (false, no_dirty, SetHintBits tuple HEAP_XMAX_COMMITTED (t_xmax tuple)).

Definition HeapTupleSatisfiesDirty tuple : bool * DirtyData * Tuple :=
  if negb (HeapTupleHeaderXminCommitted tuple) then
    if HeapTupleHeaderXminInvalid tuple then (false, no_dirty, tuple)
    else if has_flag (t_infomask tuple) HEAP_MOVED_OFF then
      match moved_off TransactionIdIsInProgress tuple with Break tuple => (false, no_dirty, tuple) | Continue tuple => dirty_deleter tuple end
    else if has_flag (t_infomask tuple) HEAP_MOVED_IN then
      match moved_in TransactionIdIsInProgress tuple with Break tuple => (false, no_dirty, tuple) | Continue tuple => dirty_deleter tuple end
    else if TransactionIdIsCurrentTransactionId (t_xmin tuple) then
      let '(visible, tuple) := self_own tuple in (visible, no_dirty, tuple)
    else if TransactionIdIsInProgress (t_xmin tuple) then
      (true, mkDirty (t_xmin tuple) InvalidTransactionId
               (if HeapTupleHeaderIsSpeculative tuple then HeapTupleHeaderGetSpeculativeToken tuple else 0), tuple)
    else if DidCommit (t_xmin tuple) then dirty_deleter (SetHintBits tuple HEAP_XMIN_COMMITTED (t_xmin tuple))
    else (false, no_dirty, SetHintBits tuple HEAP_XMIN_INVALID InvalidTransactionId)
  else dirty_deleter tuple.

(** ** SNAPSHOT_HISTORIC_MVCC

    [resolve] looks up the command ids of the tuple in those decoded so far
    (ResolveCminCmaxDuringDecoding of reorderbuffer.c).  The arrays are sorted, so that the
    binary search of TransactionIdInArray finds what is in them. *)

Definition TransactionIdInArray (xid : Z) (xip : list Z) : bool := existsb (Z.eqb xid) xip.

Definition historic_xmax (resolve : Tuple → option (Z * Z)) tuple snapshot : bool :=
  if has_flag (t_infomask tuple) HEAP_XMAX_INVALID then true
  else if HEAP_XMAX_IS_LOCKED_ONLY (t_infomask tuple) then true
  else
    let xmax := if has_flag (t_infomask tuple) HEAP_XMAX_IS_MULTI then HeapTupleGetUpdateXid tuple else t_xmax tuple in
    if TransactionIdInArray xmax (sn_subxip snapshot) then
      match resolve tuple with
      | None => true
      | Some (_, cmax) => if cmax =? InvalidCommandId then true else curcid snapshot <=? cmax
      end
    else if TransactionIdPrecedes xmax (sn_xmin snapshot) then
      if has_flag (t_infomask tuple) HEAP_XMAX_COMMITTED then false else negb (DidCommit xmax)
    else if TransactionIdFollowsOrEquals xmax (sn_xmax snapshot) then true
    else if TransactionIdInArray xmax (sn_xip snapshot) then false
    else true.

Definition HeapTupleSatisfiesHistoricMVCC (resolve : Tuple → option (Z * Z)) tuple snapshot : bool * Tuple :=
  let xmin := HeapTupleHeaderGetXmin tuple in
  let visible :=
    if HeapTupleHeaderXminInvalid tuple then false
    else if TransactionIdInArray xmin (sn_subxip snapshot) then
      match resolve tuple with
      | None => false
      | Some (cmin, _) => if curcid snapshot <=? cmin then false else historic_xmax resolve tuple snapshot
      end
    else if TransactionIdPrecedes xmin (sn_xmin snapshot) then
      if negb (HeapTupleHeaderXminCommitted tuple) && negb (DidCommit xmin) then false
      else historic_xmax resolve tuple snapshot
    else if TransactionIdFollowsOrEquals xmin (sn_xmax snapshot) then false
    else if TransactionIdInArray xmin (sn_xip snapshot) then historic_xmax resolve tuple snapshot
    else false in
  (visible, tuple).
End visibility.

(** * Snapshots of every type *)

Inductive SnapshotType : Type :=
  | SNAPSHOT_MVCC | SNAPSHOT_SELF | SNAPSHOT_ANY | SNAPSHOT_TOAST | SNAPSHOT_DIRTY | SNAPSHOT_HISTORIC_MVCC | SNAPSHOT_NON_VACUUMABLE.

Definition HeapTupleSatisfiesVisibility `{Xacts} {A} (resolve : @HeapTupleHeaderData A → option (Z * Z)) (vistest : Z → bool)
    (snapshot_type : SnapshotType) (snapshot : SnapshotData) (htup : @HeapTupleHeaderData A) : bool * @HeapTupleHeaderData A :=
  match snapshot_type with
  | SNAPSHOT_MVCC => HeapTupleSatisfiesMVCC htup snapshot
  | SNAPSHOT_SELF => HeapTupleSatisfiesSelf htup
  | SNAPSHOT_ANY => HeapTupleSatisfiesAny htup
  | SNAPSHOT_TOAST => HeapTupleSatisfiesToast htup
  | SNAPSHOT_DIRTY => let '(visible, _, htup) := HeapTupleSatisfiesDirty htup in (visible, htup)
  | SNAPSHOT_HISTORIC_MVCC => HeapTupleSatisfiesHistoricMVCC resolve htup snapshot
  | SNAPSHOT_NON_VACUUMABLE => HeapTupleSatisfiesNonVacuumable vistest htup
  end.
