(* ===== verification/Mvcc.v ===== *)
(** What the tests of heapam_visibility.c compute: an MVCC snapshot sees the versions whose
    inserter it sees and whose deleter it does not see, hint bits never change an answer, and a
    version that is dead for pruning is invisible to every snapshot the horizon covers. *)

From S2P Require Import Prelude Xid Bufpage Itup Compact PageOps HeapPage HotChain HeapPrune Combocid Visibility.

(** * Flags *)

Lemma land_flags m f g : Z.land f g = 0 → (Z.land m (Z.lor f g) =? g) = negb (has_flag m f) && (Z.land m g =? g).
Proof.
  intros Hfg. unfold has_flag. rewrite negb_involutive, Z.land_lor_distr_r.
  destruct (Z.eqb_spec (Z.land m f) 0) as [->|Hf]; [by rewrite Z.lor_0_l|]. cbn [andb]. apply Z.eqb_neq. intros E. apply Hf.
  assert (E' : Z.land (Z.lor (Z.land m f) (Z.land m g)) f = Z.land g f) by (by rewrite E).
  rewrite Z.land_lor_distr_l, <- !Z.land_assoc, Z.land_diag, (Z.land_comm g f), Hfg, Z.land_0_r, Z.lor_0_r in E'. done.
Qed.

Lemma land_bit m n : 0 ≤ n → (Z.land m (2 ^ n) =? 2 ^ n) = has_flag m (2 ^ n).
Proof.
  intros Hn. unfold has_flag. assert (0 < 2 ^ n) by (apply Z.pow_pos_nonneg; lia).
  assert (Z.land m (2 ^ n) = 0 ∨ Z.land m (2 ^ n) = 2 ^ n) as [-> | ->]; [|lia..].
  destruct (Z.testbit m n) eqn:E; [right|left]; apply Z.bits_inj'; intros i Hi; rewrite Z.land_spec, Z.pow2_bits_eqb, ?Z.bits_0 by done;
    destruct (Z.eqb_spec n i) as [->|]; rewrite ?E, ?andb_false_r; done.
Qed.

Section headers.
Context {A : Type}.
Abbreviation Tuple := (@HeapTupleHeaderData A).
Implicit Types (t : Tuple).

Lemma xmin_invalid_flags t : HeapTupleHeaderXminInvalid t = negb (HeapTupleHeaderXminCommitted t) && has_flag (t_infomask t) HEAP_XMIN_INVALID.
Proof. unfold HeapTupleHeaderXminInvalid. rewrite land_flags by done. f_equal. by apply (land_bit _ 9). Qed.

Lemma xmin_frozen_flags t : HeapTupleHeaderXminFrozen t = HeapTupleHeaderXminCommitted t && has_flag (t_infomask t) HEAP_XMIN_INVALID.
Proof.
  unfold HeapTupleHeaderXminFrozen, HeapTupleHeaderXminCommitted. rewrite <- (land_bit _ 8), <- (land_bit _ 9) by done.
  change (2 ^ 8) with HEAP_XMIN_COMMITTED. change (2 ^ 9) with HEAP_XMIN_INVALID. unfold HEAP_XMIN_FROZEN. rewrite Z.land_lor_distr_r.
  assert (H1 := land_bit (t_infomask t) 8 ltac:(done)). assert (H2 := land_bit (t_infomask t) 9 ltac:(done)).
  unfold has_flag in *. change (2 ^ 8) with HEAP_XMIN_COMMITTED in *. change (2 ^ 9) with HEAP_XMIN_INVALID in *.
  destruct (Z.eqb_spec (Z.land (t_infomask t) HEAP_XMIN_COMMITTED) 0) as [E1|], (Z.eqb_spec (Z.land (t_infomask t) HEAP_XMIN_INVALID) 0) as [E2|];
    cbn [negb] in *; rewrite ?H1, ?H2; bprop; rewrite ?E1, ?E2, ?H1, ?H2; done.
Qed.

(** Hint bits are not lock bits. *)
Lemma locked_only_hint m h : has_flag h HEAP_XMAX_LOCK_ONLY = false → Z.land h (Z.lor HEAP_XMAX_IS_MULTI HEAP_LOCK_MASK) = 0 →
  HEAP_XMAX_IS_LOCKED_ONLY (Z.lor m h) = HEAP_XMAX_IS_LOCKED_ONLY m.
Proof. intros H1 H2. unfold HEAP_XMAX_IS_LOCKED_ONLY. by rewrite has_flag_lor, H1, orb_false_r, Z.land_lor_distr_l, H2, Z.lor_0_r. Qed.

(** [t] with a hint bit set. *)
Definition hinted (h : Z) t : Tuple := set_infomask (Z.lor (t_infomask t) h) t.

Lemma committed_hinted h t : HeapTupleHeaderXminCommitted (hinted h t) = HeapTupleHeaderXminCommitted t || has_flag h HEAP_XMIN_COMMITTED.
Proof. apply has_flag_lor. Qed.
Lemma flag_hinted h t f : has_flag (t_infomask (hinted h t)) f = has_flag (t_infomask t) f || has_flag h f.
Proof. apply has_flag_lor. Qed.
End headers.

Definition hint_bits : list Z := [HEAP_XMIN_COMMITTED; HEAP_XMIN_INVALID; HEAP_XMAX_COMMITTED; HEAP_XMAX_INVALID].

(** * The tests in terms of transactions *)

Section mvcc.
Context `{X : Xacts} {A : Type}.
Abbreviation Tuple := (@HeapTupleHeaderData A).
Implicit Types (t : Tuple) (S : SnapshotData).

Definition committed (x : Z) : Prop := DidCommit x = true ∧ TransactionIdIsInProgress x = false.
Definition aborted (x : Z) : Prop := DidCommit x = false ∧ TransactionIdIsInProgress x = false.

(** The backend's own transactions are in progress and not in the commit log. *)
Record own_xacts : Prop := {
  own_running : ∀ x, TransactionIdIsCurrentTransactionId x = true → TransactionIdIsInProgress x = true;
  own_uncommitted : ∀ x, TransactionIdIsCurrentTransactionId x = true → DidCommit x = false;
  invalid_done : TransactionIdIsInProgress InvalidTransactionId = false;
  invalid_uncommitted : DidCommit InvalidTransactionId = false;
  invalid_multi : ∀ b, GetMultiXactIdMembers InvalidTransactionId b = [];
}.

(** What is not running for the snapshot is not running any more. *)
Definition past S : Prop := ∀ x, TransactionIdIsCurrentTransactionId x = false → XidInMVCCSnapshot x S = false → TransactionIdIsInProgress x = false.

(** The transaction that deleted or updated the version, unless it is known to have failed. *)
Definition deleter t : option Z :=
  if has_flag (t_infomask t) HEAP_XMAX_INVALID then None
  else if HEAP_XMAX_IS_LOCKED_ONLY (t_infomask t) then None
  else Some (if has_flag (t_infomask t) HEAP_XMAX_IS_MULTI then HeapTupleGetUpdateXid t else t_xmax t).

(** The version was not moved by an old VACUUM FULL, its hint bits are true, and while its
    inserter runs nobody else deletes it. *)
Record honest t : Prop := {
  ho_moved : has_flag (t_infomask t) HEAP_MOVED_OFF = false ∧ has_flag (t_infomask t) HEAP_MOVED_IN = false;
  ho_xmin : HeapTupleHeaderXminCommitted t = true → HeapTupleHeaderXminFrozen t = false → committed (t_xmin t);
  ho_xmin_invalid : HeapTupleHeaderXminInvalid t = true → aborted (t_xmin t);
  ho_xmax : has_flag (t_infomask t) HEAP_XMAX_COMMITTED = true → ∀ d, deleter t = Some d → committed d;
  ho_own : TransactionIdIsCurrentTransactionId (t_xmin t) = true → HeapTupleHeaderXminFrozen t = false → ∀ d, deleter t = Some d →
    TransactionIdIsCurrentTransactionId d = true ∨ aborted d;
}.

(** The snapshot sees what a transaction did with command [cid]. *)
Definition sees S (x cid : Z) : bool :=
  if TransactionIdIsCurrentTransactionId x then cid <? curcid S
  else negb (XidInMVCCSnapshot x S) && DidCommit x.

Definition mvcc_visible S t : bool :=
  (HeapTupleHeaderXminFrozen t || sees S (t_xmin t) (GetCmin t)) &&
  negb (match deleter t with Some d => sees S d (GetCmax t) | None => false end).

Context (Hown : own_xacts).

Lemma aborted_unseen S x cid : aborted x → sees S x cid = false.
Proof.
  intros [H1 H2]. unfold sees. rewrite H1, andb_false_r. destruct (TransactionIdIsCurrentTransactionId x) eqn:E; [|done].
  apply (own_running Hown) in E. congruence.
Qed.

Lemma committed_seen S x cid : committed x → sees S x cid = negb (XidInMVCCSnapshot x S).
Proof.
  intros [H1 H2]. unfold sees. rewrite H1, andb_true_r. destruct (TransactionIdIsCurrentTransactionId x) eqn:E; [|done].
  apply (own_running Hown) in E. congruence.
Qed.

Lemma cmax_hinted h t : has_flag h HEAP_COMBOCID = false → GetCmax (hinted h t) = GetCmax t.
Proof. intros Hh. unfold GetCmax, HeapTupleHeaderGetCmax, HeapTupleHeaderGetRawCommandId. by rewrite flag_hinted, Hh, orb_false_r. Qed.
Lemma cmin_hinted h t : has_flag h HEAP_COMBOCID = false → GetCmin (hinted h t) = GetCmin t.
Proof. intros Hh. unfold GetCmin, HeapTupleHeaderGetCmin, HeapTupleHeaderGetRawCommandId. by rewrite flag_hinted, Hh, orb_false_r. Qed.

Lemma set_hint_cases t h x : SetHintBits t h x = t ∨ SetHintBits t h x = hinted h t.
Proof. unfold SetHintBits. destruct (_ && _); auto. Qed.

(** The deleter of a version with a new hint on its inserter. *)
Lemma deleter_hinted h t : has_flag h HEAP_XMAX_INVALID = false → has_flag h HEAP_XMAX_LOCK_ONLY = false →
  Z.land h (Z.lor HEAP_XMAX_IS_MULTI HEAP_LOCK_MASK) = 0 → has_flag h HEAP_XMAX_IS_MULTI = false → deleter (hinted h t) = deleter t.
Proof.
  intros H1 H2 H3 H4. unfold deleter. rewrite !flag_hinted, H1, H4, !orb_false_r. cbn [hinted set_infomask t_infomask]. by rewrite locked_only_hint.
Qed.

(** The second half of the test, by the deleter. *)
Lemma mvcc_xmax_spec t S : (has_flag (t_infomask t) HEAP_XMAX_COMMITTED = true → ∀ d, deleter t = Some d → committed d) →
  (mvcc_xmax t S).1 = negb (match deleter t with Some d => sees S d (GetCmax t) | None => false end).
Proof.
  intros Hc. unfold mvcc_xmax, deleter, deleted_later in *. destruct (has_flag _ HEAP_XMAX_INVALID); [done|].
  destruct (HEAP_XMAX_IS_LOCKED_ONLY _); [done|]. destruct (has_flag _ HEAP_XMAX_IS_MULTI) eqn:Em.
  - unfold sees. destruct (TransactionIdIsCurrentTransactionId _); [cbn; lia|]. destruct (XidInMVCCSnapshot _ S); [done|]. by destruct (DidCommit _).
  - destruct (has_flag _ HEAP_XMAX_COMMITTED); cbn [negb].
    + rewrite committed_seen by auto. by destruct (XidInMVCCSnapshot _ S).
    + unfold sees. destruct (TransactionIdIsCurrentTransactionId _); [cbn; lia|]. destruct (XidInMVCCSnapshot _ S); [done|]. by destruct (DidCommit _).
Qed.

Lemma mvcc_own_spec t S : TransactionIdIsCurrentTransactionId (t_xmin t) = true →
  (∀ d, deleter t = Some d → TransactionIdIsCurrentTransactionId d = true ∨ aborted d) →
  (mvcc_own t S).1 = sees S (t_xmin t) (GetCmin t) && negb (match deleter t with Some d => sees S d (GetCmax t) | None => false end).
Proof.
  intros Hcur Hd. unfold mvcc_own, deleted_later. unfold sees at 1. rewrite Hcur.
  destruct (Z.leb_spec (curcid S) (GetCmin t)) as [L|L]; [destruct (Z.ltb_spec (GetCmin t) (curcid S)); [lia|done]|].
  destruct (Z.ltb_spec (GetCmin t) (curcid S)); [|lia]. cbn [andb]. unfold deleter in *. destruct (has_flag _ HEAP_XMAX_INVALID); [done|].
  destruct (HEAP_XMAX_IS_LOCKED_ONLY _); [done|]. specialize (Hd _ eq_refl).
  assert (HS : ∀ d, TransactionIdIsCurrentTransactionId d = true ∨ aborted d → negb (sees S d (GetCmax t)) =
    if negb (TransactionIdIsCurrentTransactionId d) then true else curcid S <=? GetCmax t).
  { intros d Hd'. destruct (TransactionIdIsCurrentTransactionId d) eqn:E; cbn [negb]; [unfold sees; rewrite E; lia|].
    destruct Hd' as [|Hd']; [done|]. by rewrite aborted_unseen. }
  rewrite HS by done. destruct (has_flag _ HEAP_XMAX_IS_MULTI); by destruct (negb (TransactionIdIsCurrentTransactionId _)).
Qed.

(** The test of an MVCC snapshot is the rule. *)
Lemma mvcc_spec t S : honest t → (HeapTupleSatisfiesMVCC t S).1 = mvcc_visible S t.
Proof.
  intros [[Hm1 Hm2] H1 H2 H3 H4]. unfold HeapTupleSatisfiesMVCC, mvcc_visible. rewrite Hm1, Hm2.
  destruct (HeapTupleHeaderXminCommitted t) eqn:Ec; cbn [negb].
  - specialize (H1 eq_refl). destruct (HeapTupleHeaderXminFrozen t) eqn:Ef; cbn [negb andb orb]; [by apply mvcc_xmax_spec|].
    rewrite committed_seen by auto. destruct (XidInMVCCSnapshot _ S); cbn [negb andb]; [done|]. by apply mvcc_xmax_spec.
  - assert (Ef : HeapTupleHeaderXminFrozen t = false) by (by rewrite xmin_frozen_flags, Ec). rewrite Ef in *. cbn [orb].
    destruct (HeapTupleHeaderXminInvalid t) eqn:Ei; [by rewrite aborted_unseen by auto|].
    destruct (TransactionIdIsCurrentTransactionId (t_xmin t)) eqn:Ecur; [apply mvcc_own_spec; auto|].
    unfold sees at 1. rewrite Ecur. destruct (XidInMVCCSnapshot (t_xmin t) S); [done|]. destruct (DidCommit (t_xmin t)) eqn:Ed; [|done]. cbn [negb andb].
    destruct (set_hint_cases t HEAP_XMIN_COMMITTED (t_xmin t)) as [-> | ->]; [by apply mvcc_xmax_spec|].
    assert (E : deleter (hinted HEAP_XMIN_COMMITTED t) = deleter t) by (by apply deleter_hinted).
    rewrite mvcc_xmax_spec; rewrite E; [by rewrite cmax_hinted|]. rewrite flag_hinted. cbn [has_flag]. rewrite orb_false_r. done.
Qed.

(** * The status for VACUUM *)

Definition deleter_status t : HTSV_Result * Z :=
  match deleter t with
  | None => (HEAPTUPLE_LIVE, InvalidTransactionId)
  | Some d =>
      if TransactionIdIsInProgress d then (HEAPTUPLE_DELETE_IN_PROGRESS, InvalidTransactionId)
      else if DidCommit d then (HEAPTUPLE_RECENTLY_DEAD, d) else (HEAPTUPLE_LIVE, InvalidTransactionId)
  end.

Definition vacuum_status t : HTSV_Result * Z :=
  if HeapTupleHeaderXminFrozen t then deleter_status t
  else if TransactionIdIsInProgress (t_xmin t) then
    (if TransactionIdIsCurrentTransactionId (t_xmin t) &&
        match deleter t with Some d => TransactionIdIsCurrentTransactionId d | None => false end
     then HEAPTUPLE_DELETE_IN_PROGRESS else HEAPTUPLE_INSERT_IN_PROGRESS, InvalidTransactionId)
  else if DidCommit (t_xmin t) then deleter_status t
  else (HEAPTUPLE_DEAD, InvalidTransactionId).

Lemma not_current x : TransactionIdIsInProgress x = false → TransactionIdIsCurrentTransactionId x = false.
Proof. intros H. destruct (TransactionIdIsCurrentTransactionId x) eqn:E; [|done]. apply (own_running Hown) in E. congruence. Qed.

Lemma horizon_xmax_spec t : (has_flag (t_infomask t) HEAP_XMAX_COMMITTED = true → ∀ d, deleter t = Some d → committed d) →
  (horizon_xmax t).1 = deleter_status t.
Proof.
  intros Hc. unfold horizon_xmax, deleter_status, deleter in *. destruct (has_flag _ HEAP_XMAX_INVALID); [done|].
  destruct (HEAP_XMAX_IS_LOCKED_ONLY _); [by repeat case_match|]. destruct (has_flag _ HEAP_XMAX_IS_MULTI) eqn:Em.
  - destruct (TransactionIdIsInProgress _); [done|]. destruct (DidCommit _); [done|]. by destruct (negb _).
  - destruct (has_flag _ HEAP_XMAX_COMMITTED); cbn [negb].
    + destruct (Hc eq_refl _ eq_refl) as [-> ->]. done.
    + destruct (TransactionIdIsInProgress _); [done|]. by destruct (DidCommit _).
Qed.

Lemma horizon_own_spec t : horizon_own t =
  if match deleter t with Some d => TransactionIdIsCurrentTransactionId d | None => false end then HEAPTUPLE_DELETE_IN_PROGRESS else HEAPTUPLE_INSERT_IN_PROGRESS.
Proof.
  unfold horizon_own, deleter. destruct (has_flag _ HEAP_XMAX_INVALID) eqn:E1; [done|]. destruct (HEAP_XMAX_IS_LOCKED_ONLY _) eqn:E2; [done|]. cbn [orb].
  assert (E3 : has_flag (t_infomask t) HEAP_XMAX_LOCK_ONLY = false). { unfold HEAP_XMAX_IS_LOCKED_ONLY in E2. by apply orb_false_iff in E2 as [? _]. }
  unfold HeapTupleHeaderIsOnlyLocked, HeapTupleHeaderGetUpdateXid. rewrite E1, E3. cbn [negb andb]. rewrite andb_true_r.
  destruct (Z.eqb_spec (t_xmax t) InvalidTransactionId) as [E0|E0]; unfold TransactionIdIsValid.
  - rewrite E0. cbn [Z.eqb InvalidTransactionId negb]. destruct (has_flag _ HEAP_XMAX_IS_MULTI); [|by rewrite (not_current InvalidTransactionId (invalid_done Hown))].
    unfold HeapTupleGetUpdateXid, MultiXactIdGetUpdateXid. rewrite E0, (invalid_multi Hown). cbn [List.find].
    by rewrite (not_current InvalidTransactionId (invalid_done Hown)).
  - rewrite (proj2 (Z.eqb_neq _ _) E0). cbn [negb]. destruct (has_flag _ HEAP_XMAX_IS_MULTI); cbn [negb]; [|done].
    destruct (TransactionIdIsCurrentTransactionId _) eqn:Ec; [done|]. by repeat case_match.
Qed.

(** The work horse of the tests for VACUUM follows the rule. *)
Lemma horizon_spec t : honest t → (HeapTupleSatisfiesVacuumHorizon t).1 = vacuum_status t.
Proof.
  intros [[Hm1 Hm2] H1 H2 H3 H4]. unfold HeapTupleSatisfiesVacuumHorizon, vacuum_status. rewrite Hm1, Hm2.
  destruct (HeapTupleHeaderXminCommitted t) eqn:Ec; cbn [negb].
  - rewrite horizon_xmax_spec by done. destruct (HeapTupleHeaderXminFrozen t) eqn:Ef; [done|]. destruct (H1 eq_refl eq_refl) as [-> ->]. done.
  - assert (Ef : HeapTupleHeaderXminFrozen t = false) by (by rewrite xmin_frozen_flags, Ec). rewrite Ef in *.
    destruct (HeapTupleHeaderXminInvalid t) eqn:Ei; [by destruct (H2 eq_refl) as [-> ->]|].
    destruct (TransactionIdIsCurrentTransactionId (t_xmin t)) eqn:Ecur.
    { rewrite (own_running Hown) by done. cbn [fst andb]. by rewrite horizon_own_spec. }
    cbn [andb]. destruct (TransactionIdIsInProgress (t_xmin t)); [done|]. destruct (DidCommit (t_xmin t)) eqn:Ed; [|done].
    destruct (set_hint_cases t HEAP_XMIN_COMMITTED (t_xmin t)) as [-> | ->]; [by apply horizon_xmax_spec|].
    assert (E : deleter (hinted HEAP_XMIN_COMMITTED t) = deleter t) by (by apply deleter_hinted).
    rewrite horizon_xmax_spec; [unfold deleter_status|]; rewrite E; [done|]. rewrite flag_hinted, orb_false_r. done.
Qed.

(** * Hint bits *)

Inductive hint_step : Tuple → Tuple → Prop :=
  | hs_xmin_committed t : HeapTupleHeaderXminCommitted t = false → HeapTupleHeaderXminInvalid t = false → committed (t_xmin t) →
      hint_step t (hinted HEAP_XMIN_COMMITTED t)
  | hs_xmin_invalid t : HeapTupleHeaderXminCommitted t = false → aborted (t_xmin t) → hint_step t (hinted HEAP_XMIN_INVALID t)
  | hs_xmax_committed t d : deleter t = Some d → committed d → hint_step t (hinted HEAP_XMAX_COMMITTED t)
  | hs_xmax_invalid t : (∀ d, deleter t = Some d → aborted d) → hint_step t (hinted HEAP_XMAX_INVALID t).

(** What a hint changes of what the rules look at: nothing but a failed deleter. *)
Record same_row t t' : Prop := {
  sr_xmin : t_xmin t' = t_xmin t;
  sr_frozen : HeapTupleHeaderXminFrozen t' = HeapTupleHeaderXminFrozen t;
  sr_cmin : GetCmin t' = GetCmin t;
  sr_cmax : GetCmax t' = GetCmax t;
  sr_deleter : deleter t' = deleter t ∨ (deleter t' = None ∧ ∃ d, deleter t = Some d ∧ aborted d);
}.

Lemma hint_same_row t t' : hint_step t t' → same_row t t'.
Proof.
  destruct 1 as [t Hc Hi _|t Hc _|t d _ _|t Hd]; constructor; try (by apply cmin_hinted); try (by apply cmax_hinted);
    try (by left; apply deleter_hinted); rewrite ?xmin_frozen_flags, ?committed_hinted, ?flag_hinted; try done.
  - rewrite xmin_invalid_flags, Hc in Hi. cbn [negb andb] in Hi. by rewrite Hc, Hi.
  - by rewrite Hc.
  - by rewrite !orb_false_r.
  - by rewrite !orb_false_r.
  - assert (E : deleter (hinted HEAP_XMAX_INVALID t) = None) by (unfold deleter; by rewrite flag_hinted, orb_true_r).
    rewrite E. destruct (deleter t) as [d|]; [right|by left]. split; [done|]. exists d. auto.
Qed.

Lemma same_row_visible t t' S : same_row t t' → mvcc_visible S t' = mvcc_visible S t.
Proof.
  intros [E1 E2 E3 E4 E5]. unfold mvcc_visible. rewrite E1, E2, E3, E4. destruct E5 as [-> |(-> & d & -> & Ha)]; [done|]. by rewrite (aborted_unseen S d).
Qed.

Lemma same_row_status t t' : same_row t t' → vacuum_status t' = vacuum_status t.
Proof.
  intros [E1 E2 _ _ E5]. unfold vacuum_status, deleter_status. rewrite E1, E2. destruct E5 as [-> |(-> & d & -> & Ha1 & Ha2)]; [done|].
  by rewrite Ha1, Ha2, (not_current d Ha2).
Qed.

Lemma hint_honest t t' : hint_step t t' → honest t → honest t'.
Proof.
  intros Hs [[Hm1 Hm2] H1 H2 H3 H4]. pose proof (hint_same_row t t' Hs) as [E1 E2 _ _ E5].
  assert (Hd : ∀ d, deleter t' = Some d → deleter t = Some d) by (destruct E5 as [-> |(-> & _)]; done).
  constructor; rewrite ?E1, ?E2.
  - destruct Hs; rewrite !flag_hinted, ?Hm1, ?Hm2; done.
  - destruct Hs; rewrite committed_hinted; try done; rewrite ?orb_false_r; auto.
  - rewrite xmin_invalid_flags. destruct Hs as [t Hc Hi Hx|t Hc Hx|t d Hx Hy|t Hx]; rewrite committed_hinted, flag_hinted; rewrite ?orb_true_r, ?orb_false_r; try done; rewrite <- xmin_invalid_flags; auto.
  - intros Hc d Hd'. apply Hd in Hd'. destruct Hs as [t Hc' Hi Hx|t Hc' Hx|t d' Hx Hy|t Hx]; rewrite flag_hinted, ?orb_false_r in Hc; [by apply H3..| |by apply H3]. congruence.
  - intros Hc Hf d Hd'. apply H4; auto.
Qed.

Lemma set_hint t h x : hint_step t (hinted h t) → rtc hint_step t (SetHintBits t h x).
Proof. intros Hs. destruct (set_hint_cases t h x) as [-> | ->]; [done|by apply rtc_once]. Qed.

Lemma hint_locked t x : HEAP_XMAX_IS_LOCKED_ONLY (t_infomask t) = true → rtc hint_step t (SetHintBits t HEAP_XMAX_INVALID x).
Proof. intros Hl. apply set_hint, hs_xmax_invalid. intros d. unfold deleter. rewrite Hl. by destruct (has_flag _ _). Qed.

Lemma hint_aborted t x : has_flag (t_infomask t) HEAP_XMAX_IS_MULTI = false → aborted (t_xmax t) → rtc hint_step t (SetHintBits t HEAP_XMAX_INVALID x).
Proof. intros Hm Ha. apply set_hint, hs_xmax_invalid. intros d. unfold deleter. rewrite Hm. repeat case_match; [done..|]. by intros [= <-]. Qed.

Lemma hint_aborted_multi t x : has_flag (t_infomask t) HEAP_XMAX_IS_MULTI = true → aborted (HeapTupleGetUpdateXid t) →
  rtc hint_step t (SetHintBits t HEAP_XMAX_INVALID x).
Proof. intros Hm Ha. apply set_hint, hs_xmax_invalid. intros d. unfold deleter. rewrite Hm. repeat case_match; [done..|]. by intros [= <-]. Qed.

Lemma hint_deleted t x : has_flag (t_infomask t) HEAP_XMAX_INVALID = false → HEAP_XMAX_IS_LOCKED_ONLY (t_infomask t) = false →
  has_flag (t_infomask t) HEAP_XMAX_IS_MULTI = false → committed (t_xmax t) → rtc hint_step t (SetHintBits t HEAP_XMAX_COMMITTED x).
Proof. intros H1 H2 H3 Hc. apply set_hint, (hs_xmax_committed _ (t_xmax t)); [|done]. unfold deleter. by rewrite H1, H2, H3. Qed.

(** An updater that is not running as a member of its MultiXactId. *)
Lemma multi_done t : MultiXactIdIsRunning (t_xmax t) false = false → TransactionIdIsInProgress (HeapTupleGetUpdateXid t) = false.
Proof.
  unfold MultiXactIdIsRunning, HeapTupleGetUpdateXid, MultiXactIdGetUpdateXid. intros [_ H]%orb_false_iff.
  destruct (List.find _ _) as [m|] eqn:E; [|apply (invalid_done Hown)]. apply List.find_some in E as [Hin _].
  destruct (TransactionIdIsInProgress m.1) eqn:Em; [|done]. rewrite <- H. symmetry. apply existsb_exists. eauto.
Qed.

Ltac hints := repeat case_match; simplify_eq/=; bprop; try done;
  first [by apply hint_locked | by (apply hint_aborted; [|split; auto]) | by (apply hint_aborted_multi; [|split; auto]) | by (apply hint_deleted; try split; auto)].

(** ** The hints each test leaves *)

Lemma mvcc_xmax_hints t S : past S → rtc hint_step t (mvcc_xmax t S).2.
Proof. intros HS. unfold mvcc_xmax. assert (HP := HS (t_xmax t)). hints. Qed.

Lemma self_xmax_hints t : rtc hint_step t (self_xmax t).2.
Proof. unfold self_xmax. hints. Qed.

Lemma dirty_deleter_hints t : rtc hint_step t (dirty_deleter t).2.
Proof. unfold dirty_deleter. hints. Qed.

Lemma horizon_xmax_hints t : rtc hint_step t (horizon_xmax t).2.
Proof. unfold horizon_xmax. hints. Qed.

Lemma update_xmax_hints tid t cid : rtc hint_step t (update_xmax tid t cid).2.
Proof. unfold update_xmax, update_multi, self_modified. assert (HP := multi_done t). hints. Qed.

(** The tests of a version inserted by this backend. *)
Lemma own_hint t x : honest t → TransactionIdIsCurrentTransactionId (t_xmin t) = true → HeapTupleHeaderXminCommitted t = false →
  has_flag (t_infomask t) HEAP_XMAX_INVALID = false → HEAP_XMAX_IS_LOCKED_ONLY (t_infomask t) = false →
  has_flag (t_infomask t) HEAP_XMAX_IS_MULTI = false → TransactionIdIsCurrentTransactionId (t_xmax t) = false →
  rtc hint_step t (SetHintBits t HEAP_XMAX_INVALID x).
Proof.
  intros Ht Hc Hx H1 H2 H3 H4. apply hint_aborted; [done|].
  destruct (ho_own _ Ht Hc) with (d := t_xmax t) as [|]; [by rewrite xmin_frozen_flags, Hx| |congruence|done].
  unfold deleter. by rewrite H1, H2, H3.
Qed.

Lemma xmin_hint t x : HeapTupleHeaderXminCommitted t = false → HeapTupleHeaderXminInvalid t = false → committed (t_xmin t) →
  rtc hint_step t (SetHintBits t HEAP_XMIN_COMMITTED x).
Proof. intros. by apply set_hint, hs_xmin_committed. Qed.

Lemma xmin_dead_hint t x : HeapTupleHeaderXminCommitted t = false → aborted (t_xmin t) → rtc hint_step t (SetHintBits t HEAP_XMIN_INVALID x).
Proof. intros. by apply set_hint, hs_xmin_invalid. Qed.

Ltac own_hints := repeat case_match; simplify_eq/=; bprop; try done; by apply own_hint.

Lemma mvcc_hints t S : past S → honest t → rtc hint_step t (HeapTupleSatisfiesMVCC t S).2.
Proof.
  intros HS Ht. unfold HeapTupleSatisfiesMVCC. destruct (ho_moved _ Ht) as [-> ->].
  destruct (HeapTupleHeaderXminCommitted t) eqn:Ec; cbn [negb]; [destruct (_ && _); [done|by apply mvcc_xmax_hints]|].
  destruct (HeapTupleHeaderXminInvalid t) eqn:Ei; [done|]. destruct (TransactionIdIsCurrentTransactionId (t_xmin t)) eqn:Ecur.
  { unfold mvcc_own. own_hints. }
  destruct (XidInMVCCSnapshot (t_xmin t) S) eqn:Ex; [done|]. specialize (HS _ Ecur Ex) as Hp. destruct (DidCommit (t_xmin t)) eqn:Ed.
  - etrans; [by apply (xmin_hint t (t_xmin t))|by apply mvcc_xmax_hints].
  - by apply xmin_dead_hint.
Qed.

Section inserter.
Context {R : Type} (own : Tuple → R * Tuple) (rest : Tuple → R * Tuple) (no : Tuple → R).

(** The common shape of the tests that ask whether the inserter is running now. *)
Lemma running_hints t : honest t → HeapTupleHeaderXminCommitted t = false → HeapTupleHeaderXminInvalid t = false →
  (TransactionIdIsCurrentTransactionId (t_xmin t) = true → rtc hint_step t (own t).2) → (∀ u, rtc hint_step u (rest u).2) →
  rtc hint_step t
    (if TransactionIdIsCurrentTransactionId (t_xmin t) then own t
     else if TransactionIdIsInProgress (t_xmin t) then (no t, t)
     else if DidCommit (t_xmin t) then rest (SetHintBits t HEAP_XMIN_COMMITTED (t_xmin t))
     else (no t, SetHintBits t HEAP_XMIN_INVALID InvalidTransactionId)).2.
Proof.
  intros Ht Hc Hi Ho Hr. destruct (TransactionIdIsCurrentTransactionId (t_xmin t)) eqn:Ecur; [auto|].
  destruct (TransactionIdIsInProgress (t_xmin t)) eqn:Ep; [done|]. destruct (DidCommit (t_xmin t)) eqn:Ed.
  - etrans; [by apply (xmin_hint t (t_xmin t))|apply Hr].
  - by apply xmin_dead_hint.
Qed.
End inserter.

Lemma self_own_hints t : honest t → HeapTupleHeaderXminCommitted t = false → TransactionIdIsCurrentTransactionId (t_xmin t) = true → rtc hint_step t (self_own t).2.
Proof. intros Ht Hc Hcur. unfold self_own. own_hints. Qed.

Lemma self_hints t : honest t → rtc hint_step t (HeapTupleSatisfiesSelf t).2.
Proof.
  intros Ht. unfold HeapTupleSatisfiesSelf. destruct (ho_moved _ Ht) as [-> ->].
  destruct (HeapTupleHeaderXminCommitted t) eqn:Ec; cbn [negb]; [apply self_xmax_hints|]. destruct (HeapTupleHeaderXminInvalid t) eqn:Ei; [done|].
  apply (running_hints self_own self_xmax (λ _, false)); auto using self_own_hints, self_xmax_hints.
Qed.

Lemma horizon_hints t : honest t → rtc hint_step t (HeapTupleSatisfiesVacuumHorizon t).2.
Proof.
  intros Ht. unfold HeapTupleSatisfiesVacuumHorizon. destruct (ho_moved _ Ht) as [-> ->].
  destruct (HeapTupleHeaderXminCommitted t) eqn:Ec; cbn [negb]; [apply horizon_xmax_hints|]. destruct (HeapTupleHeaderXminInvalid t) eqn:Ei; [done|].
  destruct (TransactionIdIsCurrentTransactionId (t_xmin t)) eqn:Ecur; [done|].
  destruct (TransactionIdIsInProgress (t_xmin t)) eqn:Ep; [done|]. destruct (DidCommit (t_xmin t)) eqn:Ed.
  - etrans; [by apply (xmin_hint t (t_xmin t))|apply horizon_xmax_hints].
  - by apply xmin_dead_hint.
Qed.

Lemma update_hints tid t cid : honest t → rtc hint_step t (HeapTupleSatisfiesUpdate tid t cid).2.
Proof.
  intros Ht. unfold HeapTupleSatisfiesUpdate. destruct (ho_moved _ Ht) as [-> ->].
  destruct (HeapTupleHeaderXminCommitted t) eqn:Ec; cbn [negb]; [apply update_xmax_hints|]. destruct (HeapTupleHeaderXminInvalid t) eqn:Ei; [done|].
  apply (running_hints (λ t, update_own t cid) (λ t, update_xmax tid t cid) (λ _, TM_Invisible)); auto using update_xmax_hints.
  intros Hcur. unfold update_own. own_hints.
Qed.

Lemma dirty_hints t : honest t → rtc hint_step t (HeapTupleSatisfiesDirty t).2.
Proof.
  intros Ht. unfold HeapTupleSatisfiesDirty. destruct (ho_moved _ Ht) as [-> ->].
  destruct (HeapTupleHeaderXminCommitted t) eqn:Ec; cbn [negb]; [apply dirty_deleter_hints|]. destruct (HeapTupleHeaderXminInvalid t) eqn:Ei; [done|].
  destruct (TransactionIdIsCurrentTransactionId (t_xmin t)) eqn:Ecur.
  { pose proof (self_own_hints t Ht Ec Ecur). by destruct (self_own t). }
  destruct (TransactionIdIsInProgress (t_xmin t)) eqn:Ep; [done|]. destruct (DidCommit (t_xmin t)) eqn:Ed.
  - etrans; [by apply (xmin_hint t (t_xmin t))|apply dirty_deleter_hints].
  - by apply xmin_dead_hint.
Qed.

(** Whatever the type of the snapshot. *)
Lemma visibility_hints resolve vistest type S t : past S → honest t → rtc hint_step t (HeapTupleSatisfiesVisibility resolve vistest type S t).2.
Proof.
  intros HS Ht. destruct type; cbn [HeapTupleSatisfiesVisibility].
  - by apply mvcc_hints.
  - by apply self_hints.
  - done.
  - unfold HeapTupleSatisfiesToast. destruct (ho_moved _ Ht) as [-> ->]. by repeat case_match.
  - pose proof (dirty_hints t Ht). by destruct (HeapTupleSatisfiesDirty t) as [[? ?] ?].
  - done.
  - pose proof (horizon_hints t Ht). unfold HeapTupleSatisfiesNonVacuumable. by destruct (HeapTupleSatisfiesVacuumHorizon t) as [[? ?] ?].
Qed.

Lemma hints_kept t t' : rtc hint_step t t' → honest t → honest t' ∧
  (∀ S, mvcc_visible S t' = mvcc_visible S t) ∧ vacuum_status t' = vacuum_status t.
Proof.
  induction 1 as [t|t t1 t' Hs _ IH]; [done|]. intros Ht. destruct (IH (hint_honest _ _ Hs Ht)) as (H1 & H2 & H3).
  pose proof (hint_same_row _ _ Hs). split; [done|]. split; [intros S; by rewrite H2, (same_row_visible t)|by rewrite H3, (same_row_status t)].
Qed.
End mvcc.

(** * Properties *)

(** C31. The test of an MVCC snapshot is the rule: with true hint bits it answers yes exactly
    for the versions whose inserter the snapshot sees, or that are frozen, and whose deleter,
    if any, it does not see; a transaction of the backend itself counts from the command after
    the one that acted, any other if it committed and was not running when the snapshot was
    taken. *)
Theorem mvcc_follows_rule `{X : Xacts} {A} (t : @HeapTupleHeaderData A) S : own_xacts → honest t →
  (HeapTupleSatisfiesMVCC t S).1 =
  (HeapTupleHeaderXminFrozen t || sees S (t_xmin t) (GetCmin t)) &&
  negb (match deleter t with Some d => sees S d (GetCmax t) | None => false end).
Proof. intros. by apply mvcc_spec. Qed.

(** C32. Hint bits are only hints: whatever kind of snapshot a version is tested with, and when
    it is tested for an update, the hint bits left on it are true, and no MVCC snapshot and no
    vacuum answers differently for the version with its new hint bits. *)
Theorem hints_change_nothing `{X : Xacts} {A} resolve vistest type S tid cid (t : @HeapTupleHeaderData A) : own_xacts → past S → honest t →
  ∀ t', t' = (HeapTupleSatisfiesVisibility resolve vistest type S t).2 ∨ t' = (HeapTupleSatisfiesUpdate tid t cid).2 →
  honest t' ∧ (∀ S', (HeapTupleSatisfiesMVCC t' S').1 = (HeapTupleSatisfiesMVCC t S').1) ∧
  (HeapTupleSatisfiesVacuumHorizon t').1 = (HeapTupleSatisfiesVacuumHorizon t).1.
Proof.
  intros Hown HS Ht t' Ht'. destruct (hints_kept Hown t t') as (H1 & H2 & H3); [|done|].
  { destruct Ht' as [-> | ->]; [by apply visibility_hints|by apply update_hints]. }
  split_and!; [done|intros S'; by rewrite !mvcc_spec|by rewrite !horizon_spec].
Qed.

(** What the cheap test that uses hint bits only takes for dead is dead for the full test:
    index entries are marked as dead only for rows that vacuum may remove. *)
Theorem surely_dead_is_dead `{X : Xacts} {A} removable (t : @HeapTupleHeaderData A) : own_xacts → honest t →
  HeapTupleIsSurelyDead removable t = true → (HeapTupleSatisfiesNonVacuumable removable t).1 = false.
Proof.
  intros Hown Ht Hd. unfold HeapTupleSatisfiesNonVacuumable. pose proof (horizon_spec Hown t Ht) as E.
  destruct (HeapTupleSatisfiesVacuumHorizon t) as [[res after] u]. cbn [fst] in *. rewrite bool_decide_eq_true_2; [done|].
  unfold HeapTupleIsSurelyDead in Hd. unfold vacuum_status in E. destruct (HeapTupleHeaderXminCommitted t) eqn:Ec; cbn [negb] in Hd.
  - assert (E' : (res, after) = deleter_status t).
    { rewrite E. destruct (HeapTupleHeaderXminFrozen t) eqn:Ef; [done|]. by destruct (ho_xmin t Ht Ec Ef) as [-> ->]. }
    unfold deleter_status in E'. destruct (has_flag _ HEAP_XMAX_INVALID) eqn:E1; [done|]. destruct (HEAP_XMAX_IS_LOCKED_ONLY _) eqn:E2; [done|].
    destruct (has_flag _ HEAP_XMAX_IS_MULTI) eqn:E3; [done|]. destruct (has_flag _ HEAP_XMAX_COMMITTED) eqn:E4; [|done]. cbn [negb] in Hd.
    assert (Hdel : deleter t = Some (t_xmax t)) by (unfold deleter; by rewrite E1, E2, E3).
    rewrite Hdel in E'. destruct (ho_xmax t Ht E4 _ Hdel) as [H1 H2]. rewrite H1, H2 in E'. injection E' as -> ->.
    rewrite bool_decide_eq_true_2, Hd by done. done.
  - destruct (ho_xmin_invalid t Ht Hd) as [H1 H2]. rewrite xmin_frozen_flags, Ec, H1, H2 in E. cbn [andb] in E. injection E as -> _. done.
Qed.

(** * Witnesses *)

(** The backend runs transaction 700, 650 is running elsewhere, those below 640 have committed
    and the others have failed. *)
Definition some_xacts : Xacts := {|
  TransactionIdIsCurrentTransactionId x := x =? 700;
  TransactionIdIsInProgress x := (x =? 700) || (x =? 650);
  DidCommit x := (2 <=? x) && (x <? 640);
  SubTransTopmost x := x;
  GetMultiXactIdMembers m b := [];
  combos := no_combos;
  GetCommitLSN x := 0;
  BufferIsPermanent := true;
  XLogNeedsFlush l := false;
  BufferGetLSNAtomic := 0;
|}.
Definition some_snapshot : SnapshotData := mkSnapshot 650 701 [650] [] false false 3.

(** Inserted by 600, deleted by 610, no hint bits yet. *)
Definition old_row : @HeapTupleHeaderData Z := mkHeapTuple 600 610 0 (ItemPointerSet 0 1) 0 0 7.

(** The same with both hint bits. *)
Definition hinted_row : @HeapTupleHeaderData Z := mkHeapTuple 600 610 0 (ItemPointerSet 0 1) 0 (HEAP_XMIN_COMMITTED + HEAP_XMAX_COMMITTED) 7.

Lemma some_own : @own_xacts some_xacts.
Proof. constructor; try done; intros x; cbn; intros ->%Z.eqb_eq; done. Qed.

Lemma some_past : @past some_xacts some_snapshot.
Proof.
  intros x. cbn [TransactionIdIsCurrentTransactionId TransactionIdIsInProgress some_xacts]. intros Hc Hx. rewrite Hc. cbn [orb].
  destruct (Z.eqb_spec x 650) as [->|]; [|done]. vm_compute in Hx. discriminate Hx.
Qed.

Lemma old_row_honest : @honest some_xacts Z old_row.
Proof. constructor; try done. Qed.

Lemma mvcc_follows_rule_witness :
  (@HeapTupleSatisfiesMVCC some_xacts Z old_row some_snapshot).1 =
  (HeapTupleHeaderXminFrozen old_row || @sees some_xacts some_snapshot 600 (@GetCmin some_xacts Z old_row)) &&
  negb (match @deleter some_xacts Z old_row with Some d => @sees some_xacts some_snapshot d (@GetCmax some_xacts Z old_row) | None => false end).
Proof. exact (@mvcc_follows_rule some_xacts Z old_row some_snapshot some_own old_row_honest). Defined.

Lemma hints_change_nothing_witness :
  @honest some_xacts Z hinted_row ∧ (∀ S', (@HeapTupleSatisfiesMVCC some_xacts Z hinted_row S').1 = (@HeapTupleSatisfiesMVCC some_xacts Z old_row S').1) ∧
  (@HeapTupleSatisfiesVacuumHorizon some_xacts Z hinted_row).1 = (@HeapTupleSatisfiesVacuumHorizon some_xacts Z old_row).1.
Proof.
  apply (@hints_change_nothing some_xacts Z (λ _, None) (λ _, true) SNAPSHOT_MVCC some_snapshot (ItemPointerSet 0 1) 3 old_row some_own some_past old_row_honest).
  left. vm_compute. reflexivity.
Defined.

(** The test leaves both hint bits on the deleted row. *)
Example old_row_hinted : @HeapTupleSatisfiesMVCC some_xacts Z old_row some_snapshot = (false, hinted_row).
Proof. vm_compute. reflexivity. Qed.

Lemma hinted_row_honest : @honest some_xacts Z hinted_row.
Proof. constructor; try done. intros _ d Hd. vm_compute in Hd. injection Hd as <-. done. Qed.

Lemma surely_dead_is_dead_witness : (@HeapTupleSatisfiesNonVacuumable some_xacts Z (λ x, x <? 650) hinted_row).1 = false.
Proof. exact (@surely_dead_is_dead some_xacts Z (λ x, x <? 650) hinted_row some_own hinted_row_honest eq_refl). Defined.
