(* ===== verification/Freeze.v ===== *)
(** heapam.c: freezing of row versions, which VACUUM does before transaction ids wrap around.
    heap_prepare_freeze_tuple makes a plan for a version, heap_pre_freeze_checks verifies the
    plans of a page against the commit log and heap_freeze_prepared_tuples executes them. *)

From S2P Require Import Prelude Xid Bufpage Itup Compact PageOps HeapPage HotChain HeapPrune Combocid Multixact Visibility.

(** * Constants and records *)

Definition LockTupleKeyShare : Z := 0.
Definition LockTupleShare : Z := 1.
Definition LockTupleNoKeyExclusive : Z := 2.
Definition LockTupleExclusive : Z := 3.

(** The array is indexed by the status of a member; a status outside it is not defined. *)
Definition MultiXactStatusLock : list Z :=
  [LockTupleKeyShare; LockTupleShare; LockTupleNoKeyExclusive; LockTupleExclusive; LockTupleNoKeyExclusive; LockTupleExclusive].
Definition TUPLOCK_from_mxstatus (status : Z) : Z := nth (Z.to_nat status) MultiXactStatusLock LockTupleExclusive.

Definition HEAP_KEYS_UPDATED : Z := 0x2000.
Definition HEAP_XMAX_BITS : Z :=
  Z.lor (Z.lor (Z.lor (Z.lor HEAP_XMAX_COMMITTED HEAP_XMAX_INVALID) HEAP_XMAX_IS_MULTI) HEAP_LOCK_MASK) HEAP_XMAX_LOCK_ONLY.

Definition FRM_NOOP : Z := 0x0001.
Definition FRM_INVALIDATE_XMAX : Z := 0x0002.
Definition FRM_RETURN_IS_XID : Z := 0x0004.
Definition FRM_RETURN_IS_MULTI : Z := 0x0008.
Definition FRM_MARK_COMMITTED : Z := 0x0010.

Definition HEAP_FREEZE_CHECK_XMIN_COMMITTED : Z := 0x01.
Definition HEAP_FREEZE_CHECK_XMAX_ABORTED : Z := 0x02.
Definition XLH_FREEZE_XVAC : Z := 0x02.
Definition XLH_INVALID_XVAC : Z := 0x04.

Record VacuumCutoffs : Type := mkCutoffs {
  relfrozenxid : Z;
  relminmxid : Z;
  OldestXmin : Z;
  OldestMxact : Z;
  FreezeLimit : Z;
  MultiXactCutoff : Z;
}.

Record HeapPageFreeze : Type := mkPageFreeze {
  freeze_required : bool;
  FreezePageRelfrozenXid : Z;
  FreezePageRelminMxid : Z;
  NoFreezePageRelfrozenXid : Z;
  NoFreezePageRelminMxid : Z;
}.

Record HeapTupleFreeze : Type := mkTupleFreeze {
  frz_xmax : Z;
  frz_infomask2 : Z;
  frz_infomask : Z;
  frzflags : Z;
  checkflags : Z;
  frz_offset : Z;
}.

Definition force_freeze (pagefrz : HeapPageFreeze) : HeapPageFreeze :=
  mkPageFreeze true (FreezePageRelfrozenXid pagefrz) (FreezePageRelminMxid pagefrz)
    (NoFreezePageRelfrozenXid pagefrz) (NoFreezePageRelminMxid pagefrz).

(** The trackers move back to an older id. *)
Definition older_xid (xid tracker : Z) : Z := if TransactionIdPrecedes xid tracker then xid else tracker.
Definition older_multi (multi tracker : Z) : Z := if MultiXactIdPrecedes multi tracker then multi else tracker.

Section freeze.
Context `{X : Xacts} {A Sp : Type}.
Abbreviation Tuple := (@HeapTupleHeaderData A).
Implicit Types (t tuple : Tuple) (cutoffs : VacuumCutoffs) (frz : HeapTupleFreeze).
Implicit Types (members : list (Z * Z)).

(** The MultiXactId that MultiXactIdCreateFromMembers makes of a list of members.  Members are
    read in the state after the call: those of a MultiXactId never change. *)
Context (MultiXactIdCreateFromMembers : list (Z * Z) → Z).

(** * MultiXactIds in xmax *)

(** The first pass over the members: is one older than FreezeLimit, and the tracker. *)
Fixpoint members_first_pass (FreezeLimit : Z) members (tracker : Z) : bool * Z :=
  match members with
  | [] => (false, tracker)
  | (xid, _) :: members =>
      if TransactionIdPrecedes xid FreezeLimit then (true, tracker)
      else members_first_pass FreezeLimit members (older_xid xid tracker)
  end.

(** What the second pass has found so far. *)
Record SecondPass : Type := mkSecondPass {
  newmembers : list (Z * Z);
  has_lockers : bool;
  update_xid : Z;
  update_committed : bool;
}.

Definition second_pass_member (multi OldestXmin : Z) (s : SecondPass) (member : Z * Z) : result SecondPass :=
  let '(xid, mstatus) := member in
  let running := TransactionIdIsCurrentTransactionId xid || TransactionIdIsInProgress xid in
  if negb (ISUPDATE_from_mxstatus mstatus) then
    if running then
      if TransactionIdPrecedes xid OldestXmin
      then Err (Elog "multixact %u contains running locker XID %u from before removable cutoff %u")
      else Ok (mkSecondPass (newmembers s ++ [member]) true (update_xid s) (update_committed s))
    else Ok s
  else if TransactionIdIsValid (update_xid s) then Err (Elog "multixact %u has two or more updating members")
  else if running || DidCommit xid then
    if TransactionIdPrecedes xid OldestXmin
    then Err (Elog "multixact %u contains committed update XID %u from before removable cutoff %u")
    else Ok (mkSecondPass (newmembers s ++ [member]) (has_lockers s) xid (if running then update_committed s else true))
  else Ok s.

(** The new xmax, the flags and the state of the page. *)
Definition FreezeMultiXactId (multi t_infomask : Z) cutoffs (pagefrz : HeapPageFreeze) : result (Z * Z * HeapPageFreeze) :=
  if negb (MultiXactIdIsValid multi) || HEAP_LOCKED_UPGRADED t_infomask
  then Ok (InvalidTransactionId, FRM_INVALIDATE_XMAX, force_freeze pagefrz)
  else if MultiXactIdPrecedes multi (relminmxid cutoffs) then Err (Elog "found multixact %u from before relminmxid %u")
  else if MultiXactIdPrecedes multi (OldestMxact cutoffs) then
    if MultiXactIdIsRunning multi (HEAP_XMAX_IS_LOCKED_ONLY t_infomask)
    then Err (Elog "multixact %u from before multi freeze cutoff %u found to be still running")
    else if HEAP_XMAX_IS_LOCKED_ONLY t_infomask then Ok (InvalidTransactionId, FRM_INVALIDATE_XMAX, force_freeze pagefrz)
    else
      let update_xact := MultiXactIdGetUpdateXid multi in
      if TransactionIdPrecedes update_xact (relfrozenxid cutoffs)
      then Err (Elog "multixact %u contains update XID %u from before relfrozenxid %u")
      else if TransactionIdPrecedes update_xact (OldestXmin cutoffs) then
        if DidCommit update_xact
        then Err (Elog "multixact %u contains committed update XID %u from before removable cutoff %u")
        else Ok (InvalidTransactionId, FRM_INVALIDATE_XMAX, force_freeze pagefrz)
      else Ok (update_xact, FRM_RETURN_IS_XID, force_freeze pagefrz)
  else
    let members := GetMultiXactIdMembers multi (HEAP_XMAX_IS_LOCKED_ONLY t_infomask) in
    if (length members =? 0)%nat then Ok (InvalidTransactionId, FRM_INVALIDATE_XMAX, force_freeze pagefrz)
    else
      let '(need_replace, tracker) := members_first_pass (FreezeLimit cutoffs) members (FreezePageRelfrozenXid pagefrz) in
      let need_replace := if negb need_replace then MultiXactIdPrecedes multi (MultiXactCutoff cutoffs) else need_replace in
      if negb need_replace then
        Ok (multi, FRM_NOOP,
            mkPageFreeze (freeze_required pagefrz) tracker (older_multi multi (FreezePageRelminMxid pagefrz))
              (NoFreezePageRelfrozenXid pagefrz) (NoFreezePageRelminMxid pagefrz))
      else
        s ← fold_result (second_pass_member multi (OldestXmin cutoffs)) (mkSecondPass [] false InvalidTransactionId false) members;
        if (length (newmembers s) =? 0)%nat then Ok (InvalidTransactionId, FRM_INVALIDATE_XMAX, force_freeze pagefrz)
        else if TransactionIdIsValid (update_xid s) && negb (has_lockers s) then
          Ok (update_xid s, if update_committed s then Z.lor FRM_RETURN_IS_XID FRM_MARK_COMMITTED else FRM_RETURN_IS_XID, force_freeze pagefrz)
        else Ok (MultiXactIdCreateFromMembers (newmembers s), FRM_RETURN_IS_MULTI, force_freeze pagefrz).

(** The flag bits for a MultiXactId just created: for the strongest lock, whether a member
    updates, and whether a member changes key columns. *)
Definition GetMultiXactIdHintBits (multi : Z) : Z * Z :=
  let members := GetMultiXactIdMembers multi false in
  let strongest := foldl (λ strongest m, Z.max strongest (TUPLOCK_from_mxstatus m.2)) LockTupleKeyShare members in
  let has_update := existsb (λ m, (m.2 =? MultiXactStatusNoKeyUpdate) || (m.2 =? MultiXactStatusUpdate)) members in
  let bits2 := if existsb (λ m, (m.2 =? MultiXactStatusForUpdate) || (m.2 =? MultiXactStatusUpdate)) members then HEAP_KEYS_UPDATED else 0 in
  let bits := HEAP_XMAX_IS_MULTI in
  let bits :=
    if (strongest =? LockTupleExclusive) || (strongest =? LockTupleNoKeyExclusive) then Z.lor bits HEAP_XMAX_EXCL_LOCK
    else if strongest =? LockTupleShare then Z.lor bits HEAP_XMAX_SHR_LOCK
    else if strongest =? LockTupleKeyShare then Z.lor bits HEAP_XMAX_KEYSHR_LOCK
    else bits in
  (if has_update then bits else Z.lor bits HEAP_XMAX_LOCK_ONLY, bits2).

(** * Must a version be frozen *)

Definition heap_tuple_needs_eventual_freeze tuple : bool :=
  if TransactionIdIsNormal (HeapTupleHeaderGetXmin tuple) then true
  else if has_flag (t_infomask tuple) HEAP_XMAX_IS_MULTI && MultiXactIdIsValid (t_xmax tuple) then true
  else if negb (has_flag (t_infomask tuple) HEAP_XMAX_IS_MULTI) && TransactionIdIsNormal (t_xmax tuple) then true
  else has_flag (t_infomask tuple) HEAP_MOVED && TransactionIdIsNormal (HeapTupleHeaderGetXvac tuple).

(** The state is the answer so far and the two trackers. *)
Definition Tracked : Type := (bool * Z * Z)%type.

(** An id of the version that is not permanent. *)
Definition track_xid (FreezeLimit xid : Z) (r : Tracked) : Tracked :=
  let '(freeze, oldxid, oldmulti) := r in
  (freeze || TransactionIdPrecedes xid FreezeLimit, older_xid xid oldxid, oldmulti).

Definition should_freeze_xmin cutoffs tuple (r : Tracked) : Tracked :=
  let xid := HeapTupleHeaderGetXmin tuple in
  if TransactionIdIsNormal xid then track_xid (FreezeLimit cutoffs) xid r else r.

Definition should_freeze_xmax cutoffs tuple (r : Tracked) : Tracked :=
  let is_multi := has_flag (t_infomask tuple) HEAP_XMAX_IS_MULTI in
  let xid := if is_multi then InvalidTransactionId else t_xmax tuple in
  let multi := if is_multi then t_xmax tuple else InvalidMultiXactId in
  if TransactionIdIsNormal xid then track_xid (FreezeLimit cutoffs) xid r
  else if negb (MultiXactIdIsValid multi) then r
  else
    let '(freeze, oldxid, oldmulti) := r in
    let oldmulti := older_multi multi oldmulti in
    if HEAP_LOCKED_UPGRADED (t_infomask tuple) then (true, oldxid, oldmulti)
    else
      let freeze := freeze || MultiXactIdPrecedes multi (MultiXactCutoff cutoffs) in
      foldl (λ r m, track_xid (FreezeLimit cutoffs) m.1 r) (freeze, oldxid, oldmulti)
        (GetMultiXactIdMembers multi (HEAP_XMAX_IS_LOCKED_ONLY (t_infomask tuple))).

Definition should_freeze_xvac tuple (r : Tracked) : Tracked :=
  if has_flag (t_infomask tuple) HEAP_MOVED && TransactionIdIsNormal (HeapTupleHeaderGetXvac tuple) then
    let '(_, oldxid, oldmulti) := r in (true, older_xid (HeapTupleHeaderGetXvac tuple) oldxid, oldmulti)
  else r.

Definition heap_tuple_should_freeze tuple cutoffs (NoFreezePageRelfrozenXid NoFreezePageRelminMxid : Z) : Tracked :=
  should_freeze_xvac tuple (should_freeze_xmax cutoffs tuple
    (should_freeze_xmin cutoffs tuple (false, NoFreezePageRelfrozenXid, NoFreezePageRelminMxid))).

(** * The plan *)

(** What is done about xmin: it is frozen already, or will be. *)
Definition prepare_xmin tuple cutoffs : result (bool * bool) :=
  let xid := HeapTupleHeaderGetXmin tuple in
  if negb (TransactionIdIsNormal xid) then Ok (true, false)
  else if TransactionIdPrecedes xid (relfrozenxid cutoffs) then Err (Elog "found xmin %u from before relfrozenxid %u")
  else Ok (false, TransactionIdPrecedes xid (OldestXmin cutoffs)).

(** What is done about xmax: whether it is frozen already, will be, or is replaced, the check
    flags to add, and the fields of the plan. *)
Record XmaxPlan : Type := mkXmaxPlan {
  xmax_already_frozen : bool;
  freeze_xmax : bool;
  replace_xmax : bool;
  xmax_checks : Z;
  plan_xmax : Z;
  plan_infomask2 : Z;
  plan_infomask : Z;
}.

Definition prepare_xmax tuple cutoffs (pagefrz : HeapPageFreeze) : result (XmaxPlan * HeapPageFreeze) :=
  let xid := t_xmax tuple in
  let infomask := t_infomask tuple in
  let infomask2 := t_infomask2 tuple in
  if has_flag infomask HEAP_XMAX_IS_MULTI then
    r ← FreezeMultiXactId xid infomask cutoffs pagefrz;
    let '(newxmax, flags, pagefrz) := r in
    if has_flag flags FRM_NOOP then Ok (mkXmaxPlan false false false 0 xid infomask2 infomask, pagefrz)
    else if has_flag flags FRM_RETURN_IS_XID then
      let infomask := Z.ldiff infomask HEAP_XMAX_BITS in
      let infomask := if has_flag flags FRM_MARK_COMMITTED then Z.lor infomask HEAP_XMAX_COMMITTED else infomask in
      Ok (mkXmaxPlan false false true 0 newxmax infomask2 infomask, pagefrz)
    else if has_flag flags FRM_RETURN_IS_MULTI then
      let '(newbits, newbits2) := GetMultiXactIdHintBits newxmax in
      Ok (mkXmaxPlan false false true 0 newxmax (Z.lor (Z.ldiff infomask2 HEAP_KEYS_UPDATED) newbits2)
            (Z.lor (Z.ldiff infomask HEAP_XMAX_BITS) newbits), pagefrz)
    else Ok (mkXmaxPlan false true false 0 xid infomask2 infomask, pagefrz)
  else if TransactionIdIsNormal xid then
    if TransactionIdPrecedes xid (relfrozenxid cutoffs) then Err (Elog "found xmax %u from before relfrozenxid %u")
    else
      let freeze_xmax := TransactionIdPrecedes xid (OldestXmin cutoffs) in
      let checks := if freeze_xmax && negb (HEAP_XMAX_IS_LOCKED_ONLY infomask) then HEAP_FREEZE_CHECK_XMAX_ABORTED else 0 in
      Ok (mkXmaxPlan false freeze_xmax false checks xid infomask2 infomask, pagefrz)
  else if negb (TransactionIdIsValid xid) then Ok (mkXmaxPlan true false false 0 xid infomask2 infomask, pagefrz)
  else Err (Elog "found raw xmax %u (infomask 0x%04x) not invalid and not multi").

(** The fields of a version whose xmax is removed. *)
Definition clear_xmax (p : XmaxPlan) : XmaxPlan :=
  if freeze_xmax p then
    mkXmaxPlan (xmax_already_frozen p) true (replace_xmax p) (xmax_checks p) InvalidTransactionId
      (Z.ldiff (Z.ldiff (plan_infomask2 p) HEAP_HOT_UPDATED) HEAP_KEYS_UPDATED)
      (Z.lor (Z.ldiff (plan_infomask p) HEAP_XMAX_BITS) HEAP_XMAX_INVALID)
  else p.

(** Is the plan of use, the plan, whether the version will be frozen totally, and the state of
    the page. *)
Definition heap_prepare_freeze_tuple tuple cutoffs (pagefrz : HeapPageFreeze) : result (bool * HeapTupleFreeze * bool * HeapPageFreeze) :=
  r ← prepare_xmin tuple cutoffs;
  let '(xmin_already_frozen, freeze_xmin) := (r : bool * bool) in
  let replace_xvac := TransactionIdIsNormal (HeapTupleHeaderGetXvac tuple) in
  let pagefrz := if replace_xvac then force_freeze pagefrz else pagefrz in
  r ← prepare_xmax tuple cutoffs pagefrz;
  let '(p, pagefrz) := r in
  let frzflags := if replace_xvac then (if has_flag (t_infomask tuple) HEAP_MOVED_OFF then XLH_INVALID_XVAC else XLH_FREEZE_XVAC) else 0 in
  let p := mkXmaxPlan (xmax_already_frozen p) (freeze_xmax p) (replace_xmax p) (xmax_checks p) (plan_xmax p) (plan_infomask2 p)
             (if freeze_xmin then Z.lor (plan_infomask p) HEAP_XMIN_FROZEN else plan_infomask p) in
  let p := clear_xmax p in
  let checks := Z.lor (if freeze_xmin then HEAP_FREEZE_CHECK_XMIN_COMMITTED else 0) (xmax_checks p) in
  let frz := mkTupleFreeze (plan_xmax p) (plan_infomask2 p) (plan_infomask p) frzflags checks 0 in
  let totally_frozen := (freeze_xmin || xmin_already_frozen) && (freeze_xmax p || xmax_already_frozen p) in
  let pagefrz :=
    if negb (freeze_required pagefrz) && negb (xmin_already_frozen && xmax_already_frozen p) then
      let '(freeze, oldxid, oldmulti) :=
        heap_tuple_should_freeze tuple cutoffs (NoFreezePageRelfrozenXid pagefrz) (NoFreezePageRelminMxid pagefrz) in
      mkPageFreeze freeze (FreezePageRelfrozenXid pagefrz) (FreezePageRelminMxid pagefrz) oldxid oldmulti
    else pagefrz in
  Ok (freeze_xmin || replace_xvac || replace_xmax p || freeze_xmax p, frz, totally_frozen, pagefrz).

(** * Executing plans *)

Definition heap_execute_freeze_tuple tuple frz : Tuple :=
  let xvac := t_xvac tuple in
  let xvac := if has_flag (frzflags frz) XLH_FREEZE_XVAC then FrozenTransactionId else xvac in
  let xvac := if has_flag (frzflags frz) XLH_INVALID_XVAC then InvalidTransactionId else xvac in
  mkHeapTuple (t_xmin tuple) (frz_xmax frz) xvac (t_ctid tuple) (frz_infomask2 frz) (frz_infomask frz) (t_values tuple).

(** The checks for one version. *)
Definition pre_freeze_check (htup : Tuple) frz : result () :=
  if has_flag (checkflags frz) HEAP_FREEZE_CHECK_XMIN_COMMITTED && negb (DidCommit (t_xmin htup))
  then Err (Elog "uncommitted xmin %u needs to be frozen")
  else if has_flag (checkflags frz) HEAP_FREEZE_CHECK_XMAX_ABORTED && DidCommit (t_xmax htup)
  then Err (Elog "cannot freeze committed xmax %u")
  else Ok ().

Definition heap_pre_freeze_checks (page : Page Tuple Sp) (tuples : list HeapTupleFreeze) : result () :=
  fold_result (λ (_ : ()) frz,
    itemid ← PageGetItemId page (frz_offset frz);
    htup ← PageGetItem page itemid;
    pre_freeze_check htup frz) () tuples.

Definition set_item (page : Page Tuple Sp) (itemid : ItemIdData) (htup : Tuple) : Page Tuple Sp :=
  {| pd_flags := pd_flags page; pd_lower := pd_lower page; pd_upper := pd_upper page; pd_special := pd_special page;
     pd_pagesize_version := pd_pagesize_version page; pd_linp := pd_linp page;
     pd_mem := alter (λ v : Z * Tuple, (v.1, htup)) (lp_off itemid) (pd_mem page); pd_sp := pd_sp page |}.

Definition heap_freeze_prepared_tuples (page : Page Tuple Sp) (tuples : list HeapTupleFreeze) : result (Page Tuple Sp) :=
  fold_result (λ (page : Page Tuple Sp) frz,
    itemid ← PageGetItemId page (frz_offset frz);
    htup ← PageGetItem page itemid;
    Ok (set_item page itemid (heap_execute_freeze_tuple htup frz))) page tuples.

(** * The page in vacuum

    heap_prune_record_unchanged_lp_normal and heap_page_prune_and_freeze of pruneheap.c, with
    the option HEAP_PAGE_PRUNE_FREEZE, for the versions pruning keeps. *)

(** The plans made so far, and whether the page will be frozen as a whole. *)
Record FreezeState : Type := mkFreezeState {
  pagefrz : HeapPageFreeze;
  frozen : list HeapTupleFreeze;
  all_frozen : bool;
}.

Definition set_offset (offnum : Z) frz : HeapTupleFreeze :=
  mkTupleFreeze (frz_xmax frz) (frz_infomask2 frz) (frz_infomask frz) (frzflags frz) (checkflags frz) offnum.

Definition record_freeze cutoffs (page : Page Tuple Sp) (prstate : FreezeState) (offnum : Z) : result FreezeState :=
  itemid ← PageGetItemId page offnum;
  htup ← PageGetItem page itemid;
  r ← heap_prepare_freeze_tuple htup cutoffs (pagefrz prstate);
  let '(usable, frz, totally_frozen, pf) := (r : bool * HeapTupleFreeze * bool * HeapPageFreeze) in
  Ok (mkFreezeState pf (if usable then frozen prstate ++ [set_offset offnum frz] else frozen prstate)
        (if negb totally_frozen then false else all_frozen prstate)).

(** [opportunistic] stands for the test that all versions are visible to everyone and a
    full-page image is written anyway.  The result is the page, the new oldest ids, whether the
    page is frozen as a whole, and [nfrozen]. *)
Definition freeze_page cutoffs (opportunistic : bool) (new_relfrozen_xid new_relmin_mxid : Z) (page : Page Tuple Sp) (offs : list Z)
  : result (Page Tuple Sp * Z * Z * bool * nat) :=
  let start := mkPageFreeze false new_relfrozen_xid new_relmin_mxid new_relfrozen_xid new_relmin_mxid in
  prstate ← fold_result (record_freeze cutoffs page) (mkFreezeState start [] true) offs;
  let pf := pagefrz prstate in
  let nfrozen := length (frozen prstate) in
  let do_freeze := freeze_required pf || (opportunistic && all_frozen prstate && (0 <? nfrozen)%nat) in
  r ← (if do_freeze then
         _ ← heap_pre_freeze_checks page (frozen prstate);
         page ← heap_freeze_prepared_tuples page (frozen prstate);
         Ok (page, nfrozen, all_frozen prstate)
       else Ok (page, 0%nat, if (0 <? nfrozen)%nat then false else all_frozen prstate));
  let '(page, nfrozen, all_frozen) := (r : Page Tuple Sp * nat * bool) in
  if (0 <? nfrozen)%nat then Ok (page, FreezePageRelfrozenXid pf, FreezePageRelminMxid pf, all_frozen, nfrozen)
  else Ok (page, NoFreezePageRelfrozenXid pf, NoFreezePageRelminMxid pf, all_frozen, nfrozen).

(** * Tables that are rewritten *)

(** Freezing in place, by programs that rewrite a table. *)
Definition heap_freeze_tuple tuple (relfrozenxid relminmxid FreezeLimit MultiXactCutoff : Z) : result (bool * Tuple) :=
  let cutoffs := mkCutoffs relfrozenxid relminmxid FreezeLimit MultiXactCutoff FreezeLimit MultiXactCutoff in
  let pagefrz := mkPageFreeze true FreezeLimit MultiXactCutoff FreezeLimit MultiXactCutoff in
  r ← heap_prepare_freeze_tuple tuple cutoffs pagefrz;
  let '(do_freeze, frz, _, _) := (r : bool * HeapTupleFreeze * bool * HeapPageFreeze) in
  Ok (do_freeze, if do_freeze then heap_execute_freeze_tuple tuple frz else tuple).
End freeze.
