(* ===== verification/Freezing.v ===== *)
(** What freezing guarantees: a frozen version answers every snapshot and every vacuum as
    before, no id older than the limits is left, and the oldest ids a vacuum reports for a page
    are not newer than any id left on it. *)

From S2P Require Import Prelude Xid Bufpage Itup Compact PageOps HeapPage HotChain HeapPrune Combocid Multixact Visibility Mvcc Freeze.

(** * Flags *)

Lemma land_ldiff_disjoint w b f : Z.land f b = 0 → Z.land (Z.ldiff w b) f = Z.land w f.
Proof.
  intros H. apply Z.bits_inj'. intros n Hn. rewrite !Z.land_spec, Z.ldiff_spec. assert (E : Z.testbit (Z.land f b) n = false) by (by rewrite H, Z.bits_0).
  rewrite Z.land_spec in E. destruct (Z.testbit w n), (Z.testbit f n), (Z.testbit b n); done.
Qed.

Lemma land_ldiff_inside w b f : Z.land f b = f → Z.land (Z.ldiff w b) f = 0.
Proof.
  intros H. apply Z.bits_inj'. intros n Hn. rewrite Z.land_spec, Z.ldiff_spec, Z.bits_0. assert (E : Z.testbit (Z.land f b) n = Z.testbit f n) by (by rewrite H).
  rewrite Z.land_spec in E. destruct (Z.testbit w n), (Z.testbit f n), (Z.testbit b n); done.
Qed.

Lemma ldiff_lor_disjoint w b f : Z.land f b = 0 → Z.ldiff (Z.lor w f) b = Z.lor (Z.ldiff w b) f.
Proof.
  intros H. apply Z.bits_inj'. intros n Hn. rewrite Z.lor_spec, !Z.ldiff_spec, Z.lor_spec. assert (E : Z.testbit (Z.land f b) n = false) by (by rewrite H, Z.bits_0).
  rewrite Z.land_spec in E. destruct (Z.testbit w n), (Z.testbit f n), (Z.testbit b n); done.
Qed.

Lemma has_flag_land w w' f : Z.land w f = Z.land w' f → has_flag w f = has_flag w' f.
Proof. unfold has_flag. by intros ->. Qed.

(** The bits of xmax replaced by others: what is read of xmax is read of the new bits, and
    nothing else changes. *)
Definition replaced (m bits : Z) : Z := Z.lor (Z.ldiff m HEAP_XMAX_BITS) bits.

Lemma replaced_inside m bits f : Z.land f HEAP_XMAX_BITS = f → Z.land (replaced m bits) f = Z.land bits f.
Proof. intros H. unfold replaced. by rewrite Z.land_lor_distr_l, land_ldiff_inside. Qed.
Lemma replaced_outside m bits f : Z.land f HEAP_XMAX_BITS = 0 → Z.land bits f = 0 → Z.land (replaced m bits) f = Z.land m f.
Proof. intros H1 H2. unfold replaced. by rewrite Z.land_lor_distr_l, land_ldiff_disjoint, H2, Z.lor_0_r. Qed.
Lemma replaced_locked m bits : HEAP_XMAX_IS_LOCKED_ONLY (replaced m bits) = HEAP_XMAX_IS_LOCKED_ONLY bits.
Proof. unfold HEAP_XMAX_IS_LOCKED_ONLY. rewrite (has_flag_land (replaced m bits) bits) by (by apply replaced_inside). by rewrite replaced_inside. Qed.

(** * Transaction ids in a window *)

Lemma int32_nonneg a : 0 ≤ int32 a → a mod 2 ^ 32 < 2 ^ 31.
Proof.
  unfold int32. intros H. rewrite <- (Z.add_simpl_r a (2 ^ 31)), <- Zminus_mod_idemp_l.
  pose proof (Z.mod_pos_bound (a + 2 ^ 31) (2 ^ 32)). rewrite Z.mod_small; lia.
Qed.

(** An id that was compared with the start of the window is in it. *)
Lemma checked_window base x : is_xid base → is_xid x → TransactionIdPrecedes x base = false → in_window base x.
Proof.
  intros Hb Hx H. split; [done|]. unfold TransactionIdPrecedes, TransactionIdIsNormal, is_xid in *.
  destruct (Z.leb_spec FirstNormalTransactionId x); [|lia]. destruct (Z.leb_spec FirstNormalTransactionId base); [|lia]. cbn in H.
  apply int32_nonneg. lia.
Qed.

Definition mwindow (base multi : Z) : Prop := pos base multi < 2 ^ 31.

Lemma checked_mwindow base x : MultiXactIdPrecedes x base = false → mwindow base x.
Proof. unfold MultiXactIdPrecedes, mwindow, pos. intros H. apply int32_nonneg. lia. Qed.

Lemma mprecedes_pos base a b : mwindow base a → mwindow base b → MultiXactIdPrecedes a b = (pos base a <? pos base b).
Proof. intros Ha Hb. unfold MultiXactIdPrecedes. rewrite (int32_pos base) by done. destruct (Z.ltb_spec (pos base a) (pos base b)); lia. Qed.

Lemma older_xid_pos base x y : in_window base x → in_window base y →
  in_window base (older_xid x y) ∧ pos base (older_xid x y) = Z.min (pos base x) (pos base y).
Proof. intros Hx Hy. unfold older_xid. rewrite (precedes_pos base) by done. destruct (Z.ltb_spec (pos base x) (pos base y)); split; try done; lia. Qed.

Lemma older_multi_pos base x y : mwindow base x → mwindow base y →
  mwindow base (older_multi x y) ∧ pos base (older_multi x y) = Z.min (pos base x) (pos base y).
Proof. intros Hx Hy. unfold older_multi. rewrite (mprecedes_pos base) by done. destruct (Z.ltb_spec (pos base x) (pos base y)); split; try done; lia. Qed.

(** * What is assumed of the limits, the members of MultiXactIds and the headers *)

Section freezing.
Context `{X : Xacts} {A Sp : Type}.
Abbreviation Tuple := (@HeapTupleHeaderData A).
Implicit Types (t : Tuple) (co : VacuumCutoffs) (pf : HeapPageFreeze) (frz : HeapTupleFreeze) (ms : list (Z * Z)) (S : SnapshotData).
Context (create : list (Z * Z) → Z).

(** The limits are ordered, and at or after the oldest id of the table. *)
Record cutoffs_ok co : Prop := {
  co_base : is_xid (relfrozenxid co);
  co_oldest : in_window (relfrozenxid co) (OldestXmin co);
  co_limit : in_window (relfrozenxid co) (FreezeLimit co);
  co_order : pos (relfrozenxid co) (FreezeLimit co) ≤ pos (relfrozenxid co) (OldestXmin co);
  co_mxacts : mwindow (relminmxid co) (OldestMxact co) ∧ mwindow (relminmxid co) (MultiXactCutoff co);
  co_morder : pos (relminmxid co) (MultiXactCutoff co) ≤ pos (relminmxid co) (OldestMxact co);
}.

(** No transaction before the horizon is running. *)
Definition horizon_done co : Prop := ∀ x, in_window (relfrozenxid co) x → TransactionIdPrecedes x (OldestXmin co) = true → TransactionIdIsInProgress x = false.

Definition one_updater ms : Prop := ∀ m m', m ∈ ms → m' ∈ ms → ISUPDATE_from_mxstatus m.2 = true → ISUPDATE_from_mxstatus m'.2 = true → m = m'.

(** The members the code asks for. *)
Definition members_of t : list (Z * Z) := GetMultiXactIdMembers (t_xmax t) (HEAP_XMAX_IS_LOCKED_ONLY (t_infomask t)).

(** A MultiXactId has members from the table's window, at most one of which updates, and none
    if the header says that it only locks; if the header says that xmax is invalid the updater
    has failed. *)
Record multi_ok co t : Prop := {
  mu_members : ∀ m, m ∈ members_of t → in_window (relfrozenxid co) m.1 ∧ 0 ≤ m.2 ≤ MultiXactStatusUpdate;
  mu_updater : one_updater (members_of t);
  mu_lockers : HEAP_XMAX_IS_LOCKED_ONLY (t_infomask t) = true → ∀ m, m ∈ members_of t → ISUPDATE_from_mxstatus m.2 = false;
  mu_invalid : has_flag (t_infomask t) HEAP_XMAX_INVALID = true → HEAP_XMAX_IS_LOCKED_ONLY (t_infomask t) = false → aborted (HeapTupleGetUpdateXid t);
}.

(** A MultiXactId made of some of the members has those members, in some order, and is not
    before the limits. *)
Definition creates co t : Prop := ∀ ms, ms ≠ [] → ms `sublist_of` members_of t →
  (∀ b, GetMultiXactIdMembers (create ms) b ≡ₚ ms) ∧ MultiXactIdIsValid (create ms) = true ∧
  mwindow (relminmxid co) (create ms) ∧ pos (relminmxid co) (OldestMxact co) ≤ pos (relminmxid co) (create ms).

Record stamped co t : Prop := {
  st_xmin : 0 ≤ t_xmin t ≤ MaxTransactionId;
  st_xmax : 0 ≤ t_xmax t ≤ MaxTransactionId;
  st_multi : has_flag (t_infomask t) HEAP_XMAX_IS_MULTI = true → multi_ok co t ∧ creates co t;
}.

(** * Members *)

Lemma find_updater ms m : one_updater ms → m ∈ ms → ISUPDATE_from_mxstatus m.2 = true → List.find (λ m, ISUPDATE_from_mxstatus m.2) ms = Some m.
Proof.
  intros H1 Hm Hu. destruct (List.find _ ms) as [m'|] eqn:E.
  - apply List.find_some in E as [Hm' Hu']. f_equal. apply H1; auto. by apply list_elem_of_In.
  - apply list_elem_of_In in Hm. pose proof (List.find_none _ _ E _ Hm). cbn in *. congruence.
Qed.

(** The updater of a MultiXactId that does not only lock. *)
Lemma update_xid_cases t : HEAP_XMAX_IS_LOCKED_ONLY (t_infomask t) = false →
  (∃ m, m ∈ members_of t ∧ ISUPDATE_from_mxstatus m.2 = true ∧ HeapTupleGetUpdateXid t = m.1) ∨
  ((∀ m, m ∈ members_of t → ISUPDATE_from_mxstatus m.2 = false) ∧ HeapTupleGetUpdateXid t = InvalidTransactionId).
Proof.
  intros Hl. unfold HeapTupleGetUpdateXid, MultiXactIdGetUpdateXid, members_of. rewrite Hl. destruct (List.find _ _) as [m|] eqn:E.
  - left. apply List.find_some in E as [Hm Hu]. exists m. split_and!; try done. by apply list_elem_of_In.
  - right. split; [|done]. intros m Hm. apply list_elem_of_In in Hm. apply (List.find_none _ _ E _ Hm).
Qed.

Lemma update_xid_found co t m : multi_ok co t → m ∈ members_of t → ISUPDATE_from_mxstatus m.2 = true →
  HEAP_XMAX_IS_LOCKED_ONLY (t_infomask t) = false ∧ HeapTupleGetUpdateXid t = m.1.
Proof.
  intros Hm Hin Hu. destruct (HEAP_XMAX_IS_LOCKED_ONLY (t_infomask t)) eqn:Hl; [by rewrite (mu_lockers co t Hm Hl m) in Hu|]. split; [done|].
  pose proof (mu_updater co t Hm) as H1. unfold HeapTupleGetUpdateXid, MultiXactIdGetUpdateXid. unfold members_of in *. rewrite Hl in *. by rewrite (find_updater _ m).
Qed.

(** ** The first pass *)

Lemma first_pass_spec base limit ms tracker b tr : in_window base tracker → Forall (λ m, in_window base m.1) ms →
  members_first_pass limit ms tracker = (b, tr) →
  b = existsb (λ m, TransactionIdPrecedes m.1 limit) ms ∧
  (b = false → in_window base tr ∧ pos base tr ≤ pos base tracker ∧ Forall (λ m, pos base tr ≤ pos base m.1) ms).
Proof.
  intros Ht Hms. revert tracker Ht. induction Hms as [|[x st] ms Hx Hms IH]; intros tracker Ht; cbn [members_first_pass existsb].
  { intros [= <- <-]. split; [done|]. intros _. split_and!; [done|lia|done]. }
  cbn [fst]. destruct (TransactionIdPrecedes x limit); cbn [orb]; [by intros [= <- <-]|]. intros E.
  destruct (older_xid_pos base x tracker Hx Ht) as [Hw Hp]. destruct (IH _ Hw E) as [-> H]. split; [done|]. intros Hb.
  destruct (H Hb) as (H1 & H2 & H3). split_and!; [done|lia|]. constructor; [cbn [fst]; lia|done].
Qed.

(** ** The second pass *)

(** A member that is kept: a running one, or an updater that committed. *)
Definition kept (m : Z * Z) : bool := TransactionIdIsCurrentTransactionId m.1 || TransactionIdIsInProgress m.1 || (ISUPDATE_from_mxstatus m.2 && DidCommit m.1).

Record second_pass_ok (oldest : Z) ms (s s' : SecondPass) : Prop := {
  sp_members : newmembers s' = newmembers s ++ List.filter kept ms;
  sp_recent : Forall (λ m, TransactionIdPrecedes m.1 oldest = false) (List.filter kept ms);
  sp_lockers : has_lockers s' = has_lockers s || existsb (λ m, negb (ISUPDATE_from_mxstatus m.2)) (List.filter kept ms);
  sp_updater : (update_xid s' = update_xid s ∧ update_committed s' = update_committed s ∧ Forall (λ m, ISUPDATE_from_mxstatus m.2 = false) (List.filter kept ms)) ∨
    (∃ m, m ∈ List.filter kept ms ∧ ISUPDATE_from_mxstatus m.2 = true ∧ update_xid s' = m.1 ∧ (update_committed s = false → update_committed s' = true → committed m.1));
}.

(** A second updater is refused. *)
Lemma no_second_updater multi oldest ms s s' m : TransactionIdIsValid (update_xid s) = true →
  fold_result (second_pass_member multi oldest) s ms = Ok s' → m ∈ ms → ISUPDATE_from_mxstatus m.2 = false.
Proof.
  revert s. induction ms as [|[x st] ms IH]; intros s Hv E Hm; [by apply elem_of_nil in Hm|]. cbn [fold_result second_pass_member] in E.
  destruct (ISUPDATE_from_mxstatus st) eqn:Hu; cbn [negb] in E; [by rewrite Hv in E|].
  apply elem_of_cons in Hm as [-> |Hm]; [done|]. destruct (_ || _); [destruct (TransactionIdPrecedes _ _); [done|]|]; cbn [mbind result_bind] in E; (eapply IH; [|exact E|done]); done.
Qed.

Lemma kept_elem ms m : m ∈ List.filter kept ms → m ∈ ms ∧ kept m = true.
Proof. rewrite list_elem_of_In, filter_In, <- list_elem_of_In. done. Qed.

(** One more member in front, which is dropped or kept. *)
Lemma second_pass_drop oldest m ms s s' : kept m = false → second_pass_ok oldest ms s s' → second_pass_ok oldest (m :: ms) s s'.
Proof. intros Hk [H1 H2 H3 H4]. constructor; cbn [List.filter]; rewrite Hk; done. Qed.

Lemma second_pass_keep_locker oldest m ms s s' : kept m = true → ISUPDATE_from_mxstatus m.2 = false → TransactionIdPrecedes m.1 oldest = false →
  second_pass_ok oldest ms (mkSecondPass (newmembers s ++ [m]) true (update_xid s) (update_committed s)) s' → second_pass_ok oldest (m :: ms) s s'.
Proof.
  intros Hk Hu Hp [H1 H2 H3 H4]. cbn [newmembers has_lockers update_xid update_committed] in *. constructor; cbn [List.filter]; rewrite Hk; cbn [existsb]; rewrite ?Hu.
  - by rewrite H1, <- app_assoc.
  - by constructor.
  - rewrite H3. cbn [negb orb]. by rewrite orb_true_r.
  - destruct H4 as [(Hx1 & Hx2 & Hx3)|(m' & Hm & Hmu & Hmx & Hmc)]; [left; split_and!; [done|done|by constructor]|right; exists m'; split_and!; try done; by right].
Qed.

Lemma second_pass_keep_updater oldest m ms s s' done : kept m = true → ISUPDATE_from_mxstatus m.2 = true → TransactionIdPrecedes m.1 oldest = false →
  (∀ m', m' ∈ ms → ISUPDATE_from_mxstatus m'.2 = false) → (update_committed s = false → done = true → committed m.1) →
  second_pass_ok oldest ms (mkSecondPass (newmembers s ++ [m]) (has_lockers s) m.1 done) s' → second_pass_ok oldest (m :: ms) s s'.
Proof.
  intros Hk Hu Hp Hno Hd [H1 H2 H3 H4]. cbn [newmembers has_lockers update_xid update_committed] in *. constructor; cbn [List.filter]; rewrite Hk; cbn [existsb]; rewrite ?Hu.
  - by rewrite H1, <- app_assoc.
  - by constructor.
  - by rewrite H3.
  - right. destruct H4 as [(Hx1 & Hx2 & Hx3)|(m' & Hm & Hmu & _)].
    + exists m. split_and!; [by left|tauto|congruence|]. intros Hc Hc'. apply Hd; congruence.
    + apply kept_elem in Hm as [Hm _]. rewrite Hno in Hmu by tauto. congruence.
Qed.

Lemma second_pass_spec multi oldest ms s s' : Forall (λ m, TransactionIdIsValid m.1 = true) ms →
  fold_result (second_pass_member multi oldest) s ms = Ok s' → second_pass_ok oldest ms s s'.
Proof.
  intros Hms. revert s. induction Hms as [|[x st] ms Hx Hms IH]; intros s; cbn [fold_result].
  { intros [= <-]. constructor; cbn; rewrite ?app_nil_r, ?orb_false_r; auto. }
  cbn [second_pass_member fst snd] in *. set (run := TransactionIdIsCurrentTransactionId x || TransactionIdIsInProgress x) in *.
  assert (Hk : kept (x, st) = run || (ISUPDATE_from_mxstatus st && DidCommit x)) by done.
  destruct (ISUPDATE_from_mxstatus st) eqn:Hu; cbn [negb andb] in *; [|rewrite orb_false_r in Hk].
  - destruct (TransactionIdIsValid (update_xid s)) eqn:Hv; [done|]. destruct (run || DidCommit x) eqn:Er; rsimpl; [|intros E; apply second_pass_drop; auto].
    destruct (TransactionIdPrecedes x oldest) eqn:Hp; [done|]. rsimpl. intros E.
    apply second_pass_keep_updater with (if run then update_committed s else true); auto; [intros m' Hm'; by apply (no_second_updater multi oldest ms (mkSecondPass _ _ x _) s' m' Hx E)|].
    destruct run eqn:Erun; [congruence|]. intros _ _. unfold run in Erun. apply orb_false_iff in Erun as [_ Hi]. done.
  - destruct run; rsimpl; [|intros E; apply second_pass_drop; auto]. destruct (TransactionIdPrecedes x oldest) eqn:Hp; [done|]. rsimpl. intros E.
    apply second_pass_keep_locker; auto.
Qed.

(** * What becomes of a MultiXactId *)

(** It stays; or it has no updater worth keeping; or its updater replaces it, with or without
    the hint that it committed; or a MultiXactId of the members kept does. *)
Inductive multi_outcome co pf t : Z → Z → HeapPageFreeze → Prop :=
  | mo_noop tracker : MultiXactIdIsValid (t_xmax t) = true → HEAP_LOCKED_UPGRADED (t_infomask t) = false →
      mwindow (relminmxid co) (t_xmax t) → MultiXactIdPrecedes (t_xmax t) (MultiXactCutoff co) = false →
      members_first_pass (FreezeLimit co) (members_of t) (FreezePageRelfrozenXid pf) = (false, tracker) →
      multi_outcome co pf t (t_xmax t) FRM_NOOP
        (mkPageFreeze (freeze_required pf) tracker (older_multi (t_xmax t) (FreezePageRelminMxid pf)) (NoFreezePageRelfrozenXid pf) (NoFreezePageRelminMxid pf))
  | mo_none : (∀ d, deleter t = Some d → aborted d) → multi_outcome co pf t InvalidTransactionId FRM_INVALIDATE_XMAX (force_freeze pf)
  | mo_xid flags : HEAP_XMAX_IS_LOCKED_ONLY (t_infomask t) = false → in_window (relfrozenxid co) (HeapTupleGetUpdateXid t) →
      TransactionIdPrecedes (HeapTupleGetUpdateXid t) (OldestXmin co) = false →
      flags = FRM_RETURN_IS_XID ∨ (flags = Z.lor FRM_RETURN_IS_XID FRM_MARK_COMMITTED ∧ committed (HeapTupleGetUpdateXid t)) →
      multi_outcome co pf t (HeapTupleGetUpdateXid t) flags (force_freeze pf)
  | mo_multi ms : ms ≠ [] → ms = List.filter kept (members_of t) → Forall (λ m, TransactionIdPrecedes m.1 (OldestXmin co) = false) ms →
      multi_outcome co pf t (create ms) FRM_RETURN_IS_MULTI (force_freeze pf).

Context (Hown : own_xacts).

(** What is deleted by an updater, read from a MultiXactId. *)
Lemma deleter_multi t : has_flag (t_infomask t) HEAP_XMAX_IS_MULTI = true → ∀ d, deleter t = Some d →
  has_flag (t_infomask t) HEAP_XMAX_INVALID = false ∧ HEAP_XMAX_IS_LOCKED_ONLY (t_infomask t) = false ∧ d = HeapTupleGetUpdateXid t.
Proof.
  intros Hm d. unfold deleter. rewrite Hm. destruct (has_flag _ HEAP_XMAX_INVALID); [done|]. destruct (HEAP_XMAX_IS_LOCKED_ONLY _); [done|]. by intros [= <-].
Qed.

Lemma window_valid base x : in_window base x → TransactionIdIsValid x = true.
Proof. intros [[H _] _]. unfold TransactionIdIsValid, InvalidTransactionId, FirstNormalTransactionId in *. lia. Qed.

(** A member that is not kept did not update, or failed to. *)
Lemma dropped_aborted m : ISUPDATE_from_mxstatus m.2 = true → kept m = false → aborted m.1.
Proof. unfold kept. intros -> H. apply orb_false_iff in H as [H Hc]. apply orb_false_iff in H as [_ Hi]. done. Qed.

(** If no member that is kept updates, the deleter failed. *)
Lemma no_updater_kept t : has_flag (t_infomask t) HEAP_XMAX_IS_MULTI = true →
  (∀ m, m ∈ members_of t → kept m = true → ISUPDATE_from_mxstatus m.2 = false) → ∀ d, deleter t = Some d → aborted d.
Proof.
  intros Hm Hno d (_ & Hl & ->)%deleter_multi; [|done]. destruct (update_xid_cases t Hl) as [(m & Hin & Hu & ->)|[_ ->]].
  - apply dropped_aborted; [done|]. destruct (kept m) eqn:Hk; [|done]. rewrite (Hno m Hin Hk) in Hu. done.
  - split; [apply (invalid_uncommitted Hown)|apply (invalid_done Hown)].
Qed.

(** The branch for a MultiXactId before all that may be running. *)
Lemma old_multi_outcome co pf t : cutoffs_ok co → multi_ok co t → has_flag (t_infomask t) HEAP_XMAX_IS_MULTI = true →
  MultiXactIdIsRunning (t_xmax t) (HEAP_XMAX_IS_LOCKED_ONLY (t_infomask t)) = false →
  HEAP_XMAX_IS_LOCKED_ONLY (t_infomask t) = false → TransactionIdPrecedes (HeapTupleGetUpdateXid t) (relfrozenxid co) = false →
  (TransactionIdPrecedes (HeapTupleGetUpdateXid t) (OldestXmin co) = true → DidCommit (HeapTupleGetUpdateXid t) = false →
     multi_outcome co pf t InvalidTransactionId FRM_INVALIDATE_XMAX (force_freeze pf)) ∧
  (TransactionIdPrecedes (HeapTupleGetUpdateXid t) (OldestXmin co) = false → multi_outcome co pf t (HeapTupleGetUpdateXid t) FRM_RETURN_IS_XID (force_freeze pf)).
Proof.
  intros Hco Hmu Hm Hrun Hl Hp. split; intros Hp'.
  - intros Hc. apply mo_none. intros d (_ & _ & ->)%deleter_multi; [|done]. rewrite Hl in Hrun. split; [done|by apply multi_done].
  - apply mo_xid; auto. destruct (update_xid_cases t Hl) as [(m & Hin & Hu & E)|[_ E]]; rewrite E in *; [by apply (mu_members co t Hmu)|].
    pose proof (co_base co Hco) as [Hb _]. unfold TransactionIdPrecedes in Hp. cbn in Hp. unfold InvalidTransactionId, FirstNormalTransactionId in *. lia.
Qed.

(** The outcome of the second pass. *)
Lemma second_pass_outcome co pf t s : multi_ok co t → has_flag (t_infomask t) HEAP_XMAX_IS_MULTI = true →
  fold_result (second_pass_member (t_xmax t) (OldestXmin co)) (mkSecondPass [] false InvalidTransactionId false) (members_of t) = Ok s →
  (newmembers s = [] → multi_outcome co pf t InvalidTransactionId FRM_INVALIDATE_XMAX (force_freeze pf)) ∧
  (TransactionIdIsValid (update_xid s) && negb (has_lockers s) = true → multi_outcome co pf t (update_xid s)
     (if update_committed s then Z.lor FRM_RETURN_IS_XID FRM_MARK_COMMITTED else FRM_RETURN_IS_XID) (force_freeze pf)) ∧
  (newmembers s ≠ [] → multi_outcome co pf t (create (newmembers s)) FRM_RETURN_IS_MULTI (force_freeze pf)).
Proof.
  intros Hmu Hm E. apply second_pass_spec in E as [H1 H2 H3 H4].
  2:{ apply Forall_forall. intros m Hin. by apply (window_valid (relfrozenxid co)), (mu_members co t Hmu). }
  cbn [newmembers has_lockers update_xid update_committed app orb] in *. split_and!.
  - intros Hnil. apply mo_none, no_updater_kept; [done|]. intros m Hin Hk. rewrite H1 in Hnil. exfalso.
    assert (m ∈ List.filter kept (members_of t)) as Hm' by (by apply list_elem_of_In, filter_In; split; [apply list_elem_of_In|]).
    rewrite Hnil in Hm'. by apply elem_of_nil in Hm'.
  - intros [Hv _]%andb_true_iff. destruct H4 as [(E & _)|(m & Hin & Hu & E & Hc)]; [by rewrite E in Hv|].
    apply kept_elem in Hin as [Hin Hk]. destruct (update_xid_found co t m Hmu Hin Hu) as [Hl Em]. rewrite E, <- Em. rewrite <- Em in Hc. apply mo_xid; [done|rewrite Em; by apply (mu_members co t Hmu)| |].
    + rewrite Em. rewrite Forall_forall in H2. apply H2. apply list_elem_of_In, filter_In. split; [by apply list_elem_of_In|done].
    + destruct (update_committed s); [right; auto|by left].
  - intros Hne. apply mo_multi; [done|done|by rewrite H1].
Qed.

Lemma freeze_multi_outcome co pf t newxmax flags pf' : cutoffs_ok co → multi_ok co t → has_flag (t_infomask t) HEAP_XMAX_IS_MULTI = true →
  FreezeMultiXactId create (t_xmax t) (t_infomask t) co pf = Ok (newxmax, flags, pf') → multi_outcome co pf t newxmax flags pf'.
Proof.
  intros Hco Hmu Hm. unfold FreezeMultiXactId. fold (members_of t). change (MultiXactIdGetUpdateXid (t_xmax t)) with (HeapTupleGetUpdateXid t).
  destruct (MultiXactIdIsValid (t_xmax t)) eqn:Hv, (HEAP_LOCKED_UPGRADED (t_infomask t)) eqn:Hup; cbn [negb orb].
  1,3,4: intros [= <- <- <-]; apply mo_none; intros d Hd; destruct (deleter_multi t Hm d Hd) as (_ & Hl & ->).
  - unfold HEAP_LOCKED_UPGRADED in Hup. unfold HEAP_XMAX_IS_LOCKED_ONLY in Hl. apply orb_false_iff in Hl as [Hl _]. by rewrite Hl, andb_false_r in Hup.
  - unfold HEAP_LOCKED_UPGRADED in Hup. unfold HEAP_XMAX_IS_LOCKED_ONLY in Hl. apply orb_false_iff in Hl as [Hl _]. by rewrite Hl, andb_false_r in Hup.
  - unfold HeapTupleGetUpdateXid, MultiXactIdGetUpdateXid. unfold MultiXactIdIsValid in Hv. apply negb_false_iff, Z.eqb_eq in Hv. rewrite Hv.
    rewrite (invalid_multi Hown). split; [apply (invalid_uncommitted Hown)|apply (invalid_done Hown)].
  - destruct (MultiXactIdPrecedes (t_xmax t) (relminmxid co)) eqn:Hmin; [done|]. destruct (MultiXactIdPrecedes (t_xmax t) (OldestMxact co)) eqn:Hold.
    + destruct (MultiXactIdIsRunning _ _) eqn:Hrun; [done|]. destruct (HEAP_XMAX_IS_LOCKED_ONLY (t_infomask t)) eqn:Hl.
      * intros [= <- <- <-]. apply mo_none. intros d Hd. destruct (deleter_multi t Hm d Hd) as (_ & Hl' & _). congruence.
      * destruct (TransactionIdPrecedes _ (relfrozenxid co)) eqn:Hp; [done|].
        destruct (old_multi_outcome co pf t) as [H1 H2]; rewrite ?Hl; try done.
        destruct (TransactionIdPrecedes _ (OldestXmin co)) eqn:Hp'; [destruct (DidCommit _) eqn:Hc; [done|]|]; intros [= <- <- <-]; auto.
    + destruct (length (members_of t) =? 0)%nat eqn:Hlen.
      { intros [= <- <- <-]. apply mo_none, no_updater_kept; [done|]. apply Nat.eqb_eq, length_zero_iff_nil in Hlen. intros m Hin. rewrite Hlen in Hin. by apply elem_of_nil in Hin. }
      destruct (members_first_pass _ _ _) as [need tracker] eqn:Hfp.
      destruct (if negb need then _ else _) eqn:Hneed; cbn [negb].
      * destruct (fold_result _ _ _) as [s|] eqn:E; rsimpl; [|done]. destruct (second_pass_outcome co pf t s Hmu Hm E) as (H1 & H2 & H3).
        destruct (length (newmembers s) =? 0)%nat eqn:Hn; [apply Nat.eqb_eq, length_zero_iff_nil in Hn; intros [= <- <- <-]; auto|].
        destruct (TransactionIdIsValid (update_xid s) && _) eqn:Hu; intros [= <- <- <-]; auto. apply H3. by intros Hnil; rewrite Hnil in Hn.
      * destruct need; cbn [negb] in Hneed; [done|]. intros [= <- <- <-]. apply mo_noop; auto. by apply checked_mwindow.
Qed.

(** * The header after the plan for xmax *)

(** The version with new fields for xmax. *)
Definition with_xmax t (xmax infomask2 infomask : Z) : Tuple := mkHeapTuple (t_xmin t) xmax (t_xvac t) (t_ctid t) infomask2 infomask (t_values t).

(** The deleter is the same, or both failed. *)
Definition same_deleter t t' : Prop :=
  deleter t' = deleter t ∨ ((∀ d, deleter t = Some d → aborted d) ∧ (∀ d, deleter t' = Some d → aborted d)).

Record xmax_kept t t' : Prop := {
  xk_xmin : t_xmin t' = t_xmin t;
  xk_field3 : t_xvac t' = t_xvac t;
  xk_bits : ∀ f, Z.land f HEAP_XMAX_BITS = 0 → Z.land (t_infomask t') f = Z.land (t_infomask t) f;
  xk_deleter : same_deleter t t';
  xk_hint : has_flag (t_infomask t') HEAP_XMAX_COMMITTED = true → ∀ d, deleter t' = Some d → committed d;
}.

Section kept.
Context t t' (Hk : xmax_kept t t').

Lemma kept_flag f : Z.land f HEAP_XMAX_BITS = 0 → has_flag (t_infomask t') f = has_flag (t_infomask t) f.
Proof. intros Hf. by apply has_flag_land, (xk_bits t t' Hk). Qed.
Lemma kept_committed : HeapTupleHeaderXminCommitted t' = HeapTupleHeaderXminCommitted t.
Proof. by apply kept_flag. Qed.
Lemma kept_frozen : HeapTupleHeaderXminFrozen t' = HeapTupleHeaderXminFrozen t.
Proof. rewrite !xmin_frozen_flags, kept_committed. f_equal. by apply kept_flag. Qed.
Lemma kept_invalid : HeapTupleHeaderXminInvalid t' = HeapTupleHeaderXminInvalid t.
Proof. rewrite !xmin_invalid_flags, kept_committed. f_equal. by apply kept_flag. Qed.
Lemma kept_cids : GetCmin t' = GetCmin t ∧ GetCmax t' = GetCmax t.
Proof.
  unfold GetCmin, GetCmax, HeapTupleHeaderGetCmin, HeapTupleHeaderGetCmax, HeapTupleHeaderGetRawCommandId.
  by rewrite !kept_flag, (xk_field3 t t' Hk).
Qed.

Lemma kept_visible S : mvcc_visible S t' = mvcc_visible S t.
Proof.
  unfold mvcc_visible. destruct kept_cids as [-> ->]. rewrite kept_frozen, (xk_xmin t t' Hk). f_equal. f_equal.
  destruct (xk_deleter t t' Hk) as [-> |[H1 H2]]; [done|].
  destruct (deleter t), (deleter t'); rewrite ?(aborted_unseen Hown) by auto; done.
Qed.

Lemma kept_status : vacuum_status t' = vacuum_status t.
Proof.
  unfold vacuum_status, deleter_status. rewrite kept_frozen, (xk_xmin t t' Hk). destruct (xk_deleter t t' Hk) as [-> |[H1 H2]]; [done|].
  assert (Hn : ∀ d, aborted d → TransactionIdIsInProgress d = false ∧ DidCommit d = false ∧ TransactionIdIsCurrentTransactionId d = false).
  { intros d [Ha Hb]. split_and!; [done|done|by apply (not_current Hown)]. }
  destruct (deleter t) as [d|], (deleter t') as [d'|]; try done; try (destruct (Hn d) as (-> & -> & ->); [by auto|]); try (destruct (Hn d') as (-> & -> & ->); [by auto|]); done.
Qed.

Lemma kept_honest : honest t → honest t'.
Proof.
  intros [[Hm1 Hm2] H1 H2 H3 H4]. constructor; rewrite ?kept_committed, ?kept_frozen, ?kept_invalid, ?(xk_xmin t t' Hk); auto.
  - rewrite !kept_flag by done. done.
  - apply (xk_hint t t' Hk).
  - intros Hc Hf d Hd. destruct (xk_deleter t t' Hk) as [E|[_ Ha]]; [rewrite E in Hd; auto|right; auto].
Qed.
End kept.

(** ** The three ways xmax changes *)

Lemma xmax_removed t infomask2 : (∀ d, deleter t = Some d → aborted d) →
  xmax_kept t (with_xmax t InvalidTransactionId infomask2 (replaced (t_infomask t) HEAP_XMAX_INVALID)).
Proof.
  intros Hd. assert (E : deleter (with_xmax t InvalidTransactionId infomask2 (replaced (t_infomask t) HEAP_XMAX_INVALID)) = None).
  { unfold deleter. cbn [with_xmax t_infomask]. by rewrite (has_flag_land _ HEAP_XMAX_INVALID) by (by apply replaced_inside). }
  constructor; try done; cbn [with_xmax t_infomask].
  - intros f Hf. apply replaced_outside; [done|]. assert (E' : Z.land HEAP_XMAX_INVALID f = Z.land (Z.land f HEAP_XMAX_BITS) HEAP_XMAX_INVALID)
      by (by rewrite <- Z.land_assoc, (Z.land_comm f)). by rewrite E', Hf.
  - right. rewrite E. done.
  - rewrite E. done.
Qed.

Lemma xmax_by_updater co t infomask2 done : multi_ok co t → has_flag (t_infomask t) HEAP_XMAX_IS_MULTI = true → HEAP_XMAX_IS_LOCKED_ONLY (t_infomask t) = false →
  (done = 0 ∨ done = HEAP_XMAX_COMMITTED ∧ committed (HeapTupleGetUpdateXid t)) →
  xmax_kept t (with_xmax t (HeapTupleGetUpdateXid t) infomask2 (replaced (t_infomask t) done)).
Proof.
  intros Hmu Hm Hl Hdone. set (t' := with_xmax _ _ _ _).
  assert (E : deleter t' = Some (HeapTupleGetUpdateXid t)).
  { unfold deleter. cbn [t' with_xmax t_infomask]. rewrite replaced_locked, !(has_flag_land (replaced _ _) done) by (by apply replaced_inside). by destruct Hdone as [-> |[-> _]]. }
  constructor; try tauto; cbn [t' with_xmax t_infomask t_xmin t_xvac]; try reflexivity.
  - intros f Hf. apply replaced_outside; [tauto|]. destruct Hdone as [-> |[-> _]]; [reflexivity|].
    assert (E' : Z.land HEAP_XMAX_COMMITTED f = Z.land (Z.land f HEAP_XMAX_BITS) HEAP_XMAX_COMMITTED) by (rewrite <- Z.land_assoc; apply Z.land_comm). by rewrite E', Hf.
  - destruct (has_flag (t_infomask t) HEAP_XMAX_INVALID) eqn:Hi.
    + right. fold t'. rewrite E. split; [intros d (? & _)%deleter_multi; congruence|]. intros d [= <-]. by apply (mu_invalid co t Hmu).
    + left. fold t'. rewrite E. unfold deleter. by rewrite Hi, Hl, Hm.
  - fold t'. rewrite E. intros Hf d [= <-]. destruct Hdone as [-> |[_ Hc]]; [|tauto]. rewrite (has_flag_land _ 0) in Hf by (by apply replaced_inside). discriminate.
Qed.

Lemma tuplock_range st : 0 ≤ TUPLOCK_from_mxstatus st ≤ 3.
Proof.
  unfold TUPLOCK_from_mxstatus. destruct (nth_in_or_default (Z.to_nat st) MultiXactStatusLock LockTupleExclusive) as [H| ->]; [|done].
  revert H. generalize (nth (Z.to_nat st) MultiXactStatusLock LockTupleExclusive). intros x H. cbn in H. unfold LockTupleKeyShare, LockTupleShare, LockTupleNoKeyExclusive, LockTupleExclusive in H. lia.
Qed.

Lemma bool_filter_sublist {B} (f : B → bool) (l : list B) : List.filter f l `sublist_of` l.
Proof. induction l as [|x l IH]; [done|]. cbn [List.filter]. destruct (f x); by constructor. Qed.

(** The flag bits of a new MultiXactId. *)
Lemma multi_bits M : (∀ m, m ∈ GetMultiXactIdMembers M false → 0 ≤ m.2 ≤ MultiXactStatusUpdate) →
  let bits := (GetMultiXactIdHintBits M).1 in
  Z.land bits HEAP_XMAX_BITS = bits ∧ has_flag bits HEAP_XMAX_INVALID = false ∧ has_flag bits HEAP_XMAX_COMMITTED = false ∧
  has_flag bits HEAP_XMAX_IS_MULTI = true ∧ HEAP_LOCKED_UPGRADED bits = false ∧
  HEAP_XMAX_IS_LOCKED_ONLY bits = negb (existsb (λ m, ISUPDATE_from_mxstatus m.2) (GetMultiXactIdMembers M false)).
Proof.
  intros Hst. unfold GetMultiXactIdHintBits. set (ms := GetMultiXactIdMembers M false) in *.
  assert (Hs : ∀ s, 0 ≤ s ≤ 3 → 0 ≤ foldl (λ s m, Z.max s (TUPLOCK_from_mxstatus m.2)) s ms ≤ 3).
  { clear. induction ms as [|m ms IH]; intros s Hs; [done|]. cbn [foldl]. apply IH. pose proof (tuplock_range m.2). lia. }
  specialize (Hs LockTupleKeyShare). set (s := foldl _ _ _) in *. clearbody s.
  assert (Hu : existsb (λ m, (m.2 =? MultiXactStatusNoKeyUpdate) || (m.2 =? MultiXactStatusUpdate)) ms = existsb (λ m, ISUPDATE_from_mxstatus m.2) ms).
  { clear Hs. induction ms as [|m ms IH]; [done|]. cbn [existsb]. rewrite IH by (intros m' Hm'; apply Hst; by right). f_equal.
    assert (0 ≤ m.2 ≤ MultiXactStatusUpdate) as Hr by (apply Hst; by left). unfold MultiXactStatusNoKeyUpdate, MultiXactStatusUpdate, ISUPDATE_from_mxstatus in *. lia. }
  cbn [fst]. rewrite Hu. assert (s = 0 ∨ s = 1 ∨ s = 2 ∨ s = 3) as Hcase by (unfold LockTupleKeyShare in Hs; lia).
  destruct Hcase as [-> |[-> |[-> | ->]]], (existsb (λ m, ISUPDATE_from_mxstatus m.2) ms); vm_compute; repeat split.
Qed.

Lemma xmax_new_multi co t infomask2 : multi_ok co t → creates co t → has_flag (t_infomask t) HEAP_XMAX_IS_MULTI = true →
  let ms := List.filter kept (members_of t) in ms ≠ [] →
  xmax_kept t (with_xmax t (create ms) infomask2 (replaced (t_infomask t) (GetMultiXactIdHintBits (create ms)).1)).
Proof.
  intros Hmu Hcr Hm ms Hne. destruct (Hcr ms) as (Hread & _); [done|apply bool_filter_sublist|].
  assert (Hin : ∀ m, m ∈ GetMultiXactIdMembers (create ms) false ↔ m ∈ members_of t ∧ kept m = true).
  { intros m. rewrite (Hread false). unfold ms. by rewrite list_elem_of_In, filter_In, <- list_elem_of_In. }
  destruct (multi_bits (create ms)) as (Hb1 & Hb2 & Hb3 & Hb4 & _ & Hb5). { intros m [Hm' _]%Hin. by apply (mu_members co t Hmu). }
  set (bits := (GetMultiXactIdHintBits (create ms)).1) in *. set (t' := with_xmax _ _ _ _).
  assert (Hf : ∀ f, Z.land f HEAP_XMAX_BITS = f → has_flag (t_infomask t') f = has_flag bits f) by (intros f Hf; by apply has_flag_land, replaced_inside).
  constructor; try done.
  - intros f Hf'. apply replaced_outside; [done|]. rewrite <- Hb1, (Z.land_comm bits), (Z.land_comm _ f), Z.land_assoc, Hf'. done.
  - destruct (existsb _ (GetMultiXactIdMembers (create ms) false)) eqn:Hex.
    + apply existsb_exists in Hex as (m & Hm'%list_elem_of_In & Hu). pose proof (proj1 (Hin m) Hm') as [Hm1 Hm2].
      destruct (update_xid_found co t m Hmu Hm1 Hu) as [Hl Em].
      assert (E : deleter t' = Some m.1).
      { unfold deleter. rewrite !Hf, Hb2, Hb4 by done. cbn [t' with_xmax t_infomask]. rewrite replaced_locked, Hb5. cbn [negb]. f_equal.
        unfold HeapTupleGetUpdateXid, MultiXactIdGetUpdateXid. cbn [t_xmax]. rewrite (find_updater _ m); [done| |done|done].
        intros m1 m2 [H1 _]%Hin [H2 _]%Hin. by apply (mu_updater co t Hmu). }
      destruct (has_flag (t_infomask t) HEAP_XMAX_INVALID) eqn:Hi.
      * right. rewrite E. split; [intros d (? & _)%deleter_multi; congruence|]. intros d [= <-]. rewrite <- Em. by apply (mu_invalid co t Hmu).
      * left. rewrite E, <- Em. unfold deleter. by rewrite Hi, Hl, Hm.
    + right. split.
      * apply no_updater_kept; [done|]. intros m Hm1 Hm2. destruct (ISUPDATE_from_mxstatus m.2) eqn:Hu; [|done]. rewrite <- Hex. symmetry. apply existsb_exists.
        exists m. split; [by apply list_elem_of_In, Hin|done].
      * unfold deleter. rewrite Hf, Hb2 by done. cbn [t' with_xmax t_infomask]. rewrite replaced_locked, Hb5. done.
  - rewrite Hf, Hb3 by done. done.
Qed.

(** * The header after the whole plan *)

Definition planned t (p : XmaxPlan) : Tuple := with_xmax t (plan_xmax p) (plan_infomask2 p) (plan_infomask p).

Lemma prepare_xmax_kept co pf t p pf' : cutoffs_ok co → horizon_done co → stamped co t → honest t →
  prepare_xmax create t co pf = Ok (p, pf') → (has_flag (xmax_checks p) HEAP_FREEZE_CHECK_XMAX_ABORTED = true → DidCommit (t_xmax t) = false) →
  xmax_kept t (planned t (clear_xmax p)).
Proof.
  intros Hco Hold [Hx1 Hx2 Hmulti] Ht. assert (Hsame : xmax_kept t (with_xmax t (t_xmax t) (t_infomask2 t) (t_infomask t))).
  { destruct t. constructor; cbn; try done; [by left|apply (ho_xmax _ Ht)]. }
  unfold prepare_xmax. destruct (has_flag (t_infomask t) HEAP_XMAX_IS_MULTI) eqn:Hm.
  - destruct (Hmulti eq_refl) as [Hmu Hcr]. destruct (FreezeMultiXactId _ _ _ _ _) as [[[nx fl] pf1]|] eqn:E; rsimpl; [|done].
    apply freeze_multi_outcome in E as [tr _ _ _ _ _|Hd|fl' Hl _ _ Hfl|ms Hne -> _]; try done; cbn -[GetMultiXactIdHintBits].
    + by intros [= <- <-] _.
    + intros [= <- <-] _. by apply xmax_removed.
    + destruct Hfl as [-> |[-> Hc]]; cbn; intros [= <- <-] _; [|by apply (xmax_by_updater co); auto].
      rewrite <- (Z.lor_0_r (Z.ldiff _ _)). by apply (xmax_by_updater co); auto.
    + destruct (GetMultiXactIdHintBits _) as [b1 b2] eqn:Eb. intros [= <- <-] _. unfold planned, clear_xmax. cbn [freeze_xmax plan_xmax plan_infomask plan_infomask2].
      assert (b1 = (GetMultiXactIdHintBits (create (List.filter kept (members_of t)))).1) as -> by (by rewrite Eb). by apply (xmax_new_multi co).
  - destruct (TransactionIdIsNormal (t_xmax t)) eqn:Hn; [|destruct (negb _); [|done]; by intros [= <- <-] _].
    destruct (TransactionIdPrecedes (t_xmax t) (relfrozenxid co)) eqn:Hp; [done|].
    destruct (TransactionIdPrecedes (t_xmax t) (OldestXmin co)) eqn:Hp'; cbn [andb]; [|by intros [= <- <-] _].
    intros [= <- <-] Hc. apply xmax_removed. intros d. unfold deleter. rewrite Hm. destruct (has_flag (t_infomask t) HEAP_XMAX_INVALID); [done|].
    cbn [xmax_checks] in Hc. destruct (HEAP_XMAX_IS_LOCKED_ONLY (t_infomask t)); [done|]. intros [= <-]. split; [by apply Hc|]. apply Hold; [|done].
    apply checked_window; [apply co_base; done| |done]. unfold TransactionIdIsNormal, is_xid in *. lia.
Qed.

(** The plan for the whole version is the plan for xmax, with the inserter marked frozen. *)
Lemma prepare_inv co pf t u frz tf pf' : has_flag (t_infomask t) HEAP_MOVED = false → heap_prepare_freeze_tuple create t co pf = Ok (u, frz, tf, pf') →
  ∃ xf fx p pf1, prepare_xmin t co = Ok (xf, fx) ∧ prepare_xmax create t co pf = Ok (p, pf1) ∧
  heap_execute_freeze_tuple t frz = (if fx then hinted HEAP_XMIN_FROZEN (planned t (clear_xmax p)) else planned t (clear_xmax p)) ∧
  checkflags frz = Z.lor (if fx then HEAP_FREEZE_CHECK_XMIN_COMMITTED else 0) (xmax_checks p) ∧
  u = fx || replace_xmax p || freeze_xmax p ∧ tf = (fx || xf) && (freeze_xmax p || xmax_already_frozen p) ∧
  pf' = (if negb (freeze_required pf1) && negb (xf && xmax_already_frozen p) then
           let r := heap_tuple_should_freeze t co (NoFreezePageRelfrozenXid pf1) (NoFreezePageRelminMxid pf1) in
           mkPageFreeze r.1.1 (FreezePageRelfrozenXid pf1) (FreezePageRelminMxid pf1) r.1.2 r.2
         else pf1).
Proof.
  intros Hmv. unfold heap_prepare_freeze_tuple, HeapTupleHeaderGetXvac. rewrite Hmv. change (TransactionIdIsNormal InvalidTransactionId) with false. cbv iota.
  destruct (prepare_xmin t co) as [[xf fx]|] eqn:E1; rsimpl; [|done]. destruct (prepare_xmax _ t co pf) as [[p pf1]|] eqn:E2; rsimpl; [|done].
  intros [= <- <- <- <-]. exists xf, fx, p, pf1. split_and!; try done.
  - destruct p as [af fm rm ck x i2 i1], fx, fm; unfold heap_execute_freeze_tuple, planned, clear_xmax, hinted, set_infomask, with_xmax; cbn; try done.
    f_equal. by rewrite ldiff_lor_disjoint, <- !Z.lor_assoc, (Z.lor_comm HEAP_XMIN_FROZEN).
  - by destruct p as [af fm rm ck x i2 i1], fm.
  - by destruct p as [af fm rm ck x i2 i1], fm; cbn; rewrite ?orb_false_r.
  - by destruct p as [af fm rm ck x i2 i1], fm.
  - destruct p as [af fm rm ck x i2 i1], fm; cbn [clear_xmax xmax_already_frozen freeze_xmax]; destruct (negb _ && _); try done; by destruct (heap_tuple_should_freeze _ _ _ _) as [[??]?].
Qed.

(** Marking the inserter frozen. *)
Lemma frozen_hint t : honest t → committed (t_xmin t) →
  honest (hinted HEAP_XMIN_FROZEN t) ∧ vacuum_status (hinted HEAP_XMIN_FROZEN t) = vacuum_status t ∧
  ∀ S, XidInMVCCSnapshot (t_xmin t) S = false → mvcc_visible S (hinted HEAP_XMIN_FROZEN t) = mvcc_visible S t.
Proof.
  intros [[Hm1 Hm2] H1 H2 H3 H4] Hc. assert (Hf : HeapTupleHeaderXminFrozen (hinted HEAP_XMIN_FROZEN t) = true) by (by rewrite xmin_frozen_flags, committed_hinted, flag_hinted, !orb_true_r).
  assert (Hd : deleter (hinted HEAP_XMIN_FROZEN t) = deleter t) by (by apply deleter_hinted). split_and!.
  - constructor; rewrite ?Hd, ?Hf; try done; [by rewrite !flag_hinted, Hm1, Hm2| |by rewrite flag_hinted, orb_false_r].
    rewrite xmin_invalid_flags, committed_hinted, orb_true_r. done.
  - unfold vacuum_status, deleter_status. rewrite Hf, Hd. cbn [hinted set_infomask t_xmin]. destruct Hc as [-> ->]. by destruct (HeapTupleHeaderXminFrozen t).
  - intros S HS. unfold mvcc_visible. rewrite Hf, Hd, cmax_hinted by done. cbn [hinted set_infomask t_xmin]. rewrite !(committed_seen Hown _ (t_xmin t)), HS by done. cbn [negb orb]. by rewrite orb_true_r.
Qed.

Lemma has_flag_or w f g : has_flag w (Z.lor f g) = has_flag w f || has_flag w g.
Proof. unfold has_flag. rewrite Z.land_comm, (Z.land_comm w f), (Z.land_comm w g). apply (has_flag_lor f g w). Qed.

Lemma honest_unmoved t : honest t → has_flag (t_infomask t) HEAP_MOVED = false.
Proof. intros [[H1 H2] _ _ _ _]. unfold HEAP_MOVED. by rewrite has_flag_or, H1, H2. Qed.

(** A snapshot that the horizon covers. *)
Definition covers co S : Prop := in_window (relfrozenxid co) (sn_xmin S) ∧ pos (relfrozenxid co) (OldestXmin co) ≤ pos (relfrozenxid co) (sn_xmin S).

Lemma covered_past co S x : cutoffs_ok co → covers co S → in_window (relfrozenxid co) x → TransactionIdPrecedes x (OldestXmin co) = true → XidInMVCCSnapshot x S = false.
Proof.
  intros Hco [HS1 HS2] Hx Hp. unfold XidInMVCCSnapshot. rewrite (precedes_pos (relfrozenxid co)) in Hp by (try apply co_oldest; done).
  rewrite (precedes_pos (relfrozenxid co) x) by done. destruct (Z.ltb_spec (pos (relfrozenxid co) x) (pos (relfrozenxid co) (sn_xmin S))); [done|lia].
Qed.

(** What prepare_xmin decides. *)
Lemma prepare_xmin_spec co t xf fx : cutoffs_ok co → 0 ≤ t_xmin t ≤ MaxTransactionId → prepare_xmin t co = Ok (xf, fx) →
  xf = negb (TransactionIdIsNormal (HeapTupleHeaderGetXmin t)) ∧
  (xf = true → fx = false) ∧
  (xf = false → HeapTupleHeaderXminFrozen t = false ∧ in_window (relfrozenxid co) (t_xmin t) ∧ fx = TransactionIdPrecedes (t_xmin t) (OldestXmin co)).
Proof.
  intros Hco Hx. unfold prepare_xmin. destruct (TransactionIdIsNormal (HeapTupleHeaderGetXmin t)) eqn:Hn; cbn [negb]; [|by intros [= <- <-]].
  destruct (TransactionIdPrecedes _ (relfrozenxid co)) eqn:Hp; [done|]. intros [= <- <-]. split_and!; try done. intros _.
  unfold HeapTupleHeaderGetXmin in *. destruct (HeapTupleHeaderXminFrozen t); [done|]. split_and!; try done.
  apply checked_window; [by apply co_base| |done]. unfold TransactionIdIsNormal, is_xid in *. lia.
Qed.

(** A frozen version answers as before. *)
Lemma frozen_answers co pf t u frz tf pf' : cutoffs_ok co → horizon_done co → stamped co t → honest t →
  heap_prepare_freeze_tuple create t co pf = Ok (u, frz, tf, pf') → pre_freeze_check t frz = Ok () →
  let t' := heap_execute_freeze_tuple t frz in
  honest t' ∧ vacuum_status t' = vacuum_status t ∧ ∀ S, covers co S → mvcc_visible S t' = mvcc_visible S t.
Proof.
  intros Hco Hold Hst Ht E Hck t'. destruct (prepare_inv co pf t u frz tf pf' (honest_unmoved t Ht) E) as (xf & fx & p & pf1 & E1 & E2 & Ex & Eck & _).
  unfold pre_freeze_check in Hck. rewrite Eck, !has_flag_lor in Hck. fold t' in Ex.
  assert (Hk : xmax_kept t (planned t (clear_xmax p))).
  { apply (prepare_xmax_kept co pf t p pf1); auto. intros Hf. rewrite Hf, orb_true_r in Hck. destruct (_ && _); [done|]. by destruct (DidCommit (t_xmax t)). }
  destruct (prepare_xmin_spec co t xf fx Hco (st_xmin co t Hst) E1) as (_ & Hxf & Hfx).
  destruct fx; rewrite Ex; [|split_and!; [by apply (kept_honest t)|by apply kept_status|intros S _; by apply kept_visible]].
  assert (Hc : DidCommit (t_xmin t) = true) by (change (has_flag HEAP_FREEZE_CHECK_XMIN_COMMITTED HEAP_FREEZE_CHECK_XMIN_COMMITTED) with true in Hck; by destruct (DidCommit (t_xmin t))).
  destruct xf; [by specialize (Hxf eq_refl)|]. destruct (Hfx eq_refl) as (_ & Hw & Hp). symmetry in Hp.
  destruct (frozen_hint (planned t (clear_xmax p))) as (H1 & H2 & H3); [by apply (kept_honest t)|split; [done|by apply Hold]|].
  split_and!; [done|by rewrite H2, (kept_status t)|]. intros S HS. rewrite H3 by (by apply (covered_past co)). by apply kept_visible.
Qed.

(** * The ids left in a version *)

Definition xmax_xids t : list Z :=
  if has_flag (t_infomask t) HEAP_XMAX_IS_MULTI then
    (if MultiXactIdIsValid (t_xmax t) && negb (HEAP_LOCKED_UPGRADED (t_infomask t)) then map fst (members_of t) else [])
  else if TransactionIdIsNormal (t_xmax t) then [t_xmax t] else [].
Definition xids_of t : list Z :=
  (if TransactionIdIsNormal (HeapTupleHeaderGetXmin t) then [HeapTupleHeaderGetXmin t] else []) ++ xmax_xids t.
Definition multis_of t : list Z :=
  if has_flag (t_infomask t) HEAP_XMAX_IS_MULTI && MultiXactIdIsValid (t_xmax t) then [t_xmax t] else [].

(** Every id left is in the window and not older than the trackers [rx] and [rm]. *)
Definition xids_above co (rx : Z) (l : list Z) : Prop := Forall (λ x, in_window (relfrozenxid co) x ∧ pos (relfrozenxid co) rx ≤ pos (relfrozenxid co) x) l.
Definition multis_above co (rm : Z) (l : list Z) : Prop := Forall (λ m, mwindow (relminmxid co) m ∧ pos (relminmxid co) rm ≤ pos (relminmxid co) m) l.

(** A tracker is in the window, not newer than what vacuum keeps. *)
Definition xid_tracker co (rx : Z) : Prop := in_window (relfrozenxid co) rx ∧ pos (relfrozenxid co) rx ≤ pos (relfrozenxid co) (OldestXmin co).
Definition multi_tracker co (rm : Z) : Prop := mwindow (relminmxid co) rm ∧ pos (relminmxid co) rm ≤ pos (relminmxid co) (OldestMxact co).

Record trackers_ok co pf : Prop := {
  tk_freeze : xid_tracker co (FreezePageRelfrozenXid pf) ∧ multi_tracker co (FreezePageRelminMxid pf);
  tk_nofreeze : xid_tracker co (NoFreezePageRelfrozenXid pf) ∧ multi_tracker co (NoFreezePageRelminMxid pf);
}.

Lemma xids_above_le co rx rx' l : pos (relfrozenxid co) rx' ≤ pos (relfrozenxid co) rx → xids_above co rx l → xids_above co rx' l.
Proof. intros H Hl. eapply Forall_impl; [done|]. intros x [H1 H2]. split; [done|lia]. Qed.
Lemma multis_above_le co rm rm' l : pos (relminmxid co) rm' ≤ pos (relminmxid co) rm → multis_above co rm l → multis_above co rm' l.
Proof. intros H Hl. eapply Forall_impl; [done|]. intros x [H1 H2]. split; [done|lia]. Qed.

(** What vacuum keeps is above every tracker. *)
Lemma recent_above co rx x : cutoffs_ok co → xid_tracker co rx → in_window (relfrozenxid co) x → TransactionIdPrecedes x (OldestXmin co) = false → xids_above co rx [x].
Proof.
  intros Hco [_ Hr] Hx Hp. rewrite (precedes_pos (relfrozenxid co)) in Hp by (try apply co_oldest; done). constructor; [|constructor]. split; [done|lia].
Qed.

(** ** The plan for xmax *)

(** The state of the page after xmax: the plan leaves nothing older than the tracker. *)
Record xmax_tracked co pf t p pf1 : Prop := {
  xt_trackers : trackers_ok co pf1;
  xt_xmin : HeapTupleHeaderXminFrozen (planned t (clear_xmax p)) = HeapTupleHeaderXminFrozen t;
  xt_back : pos (relfrozenxid co) (FreezePageRelfrozenXid pf1) ≤ pos (relfrozenxid co) (FreezePageRelfrozenXid pf) ∧
            pos (relminmxid co) (FreezePageRelminMxid pf1) ≤ pos (relminmxid co) (FreezePageRelminMxid pf);
  xt_nofreeze : NoFreezePageRelfrozenXid pf1 = NoFreezePageRelfrozenXid pf ∧ NoFreezePageRelminMxid pf1 = NoFreezePageRelminMxid pf;
  xt_xids : xids_above co (FreezePageRelfrozenXid pf1) (xmax_xids (planned t (clear_xmax p)));
  xt_multis : multis_above co (FreezePageRelminMxid pf1) (multis_of (planned t (clear_xmax p)));
  xt_limits : Forall (λ x, TransactionIdPrecedes x (FreezeLimit co) = false) (xmax_xids (planned t (clear_xmax p))) ∧
              Forall (λ m, MultiXactIdPrecedes m (MultiXactCutoff co) = false) (multis_of (planned t (clear_xmax p))) ∧
              HEAP_LOCKED_UPGRADED (t_infomask (planned t (clear_xmax p))) = false;
  xt_required : freeze_required pf1 = freeze_required pf ∨ (freeze_required pf1 = true ∧ replace_xmax p || freeze_xmax p = true);
  xt_optional : freeze_required pf1 = false → (freeze_xmax p = true ∧ xmax_already_frozen p = false ∧ multis_of t = [] ∧ xids_above co (relfrozenxid co) (xmax_xids t)) ∨
                planned t (clear_xmax p) = t;
  xt_same : replace_xmax p || freeze_xmax p = false → planned t (clear_xmax p) = t;
  xt_frozen : freeze_xmax p || xmax_already_frozen p = true → xmax_xids (planned t (clear_xmax p)) = [] ∧ multis_of (planned t (clear_xmax p)) = [];
}.

Lemma replaced_frozen t x infomask2 bits : Z.land bits HEAP_XMAX_BITS = bits →
  HeapTupleHeaderXminFrozen (with_xmax t x infomask2 (replaced (t_infomask t) bits)) = HeapTupleHeaderXminFrozen t.
Proof.
  intros Hb. unfold HeapTupleHeaderXminFrozen. cbn [with_xmax t_infomask]. rewrite replaced_outside; [done|done|].
  by rewrite <- Hb, <- Z.land_assoc, Z.land_0_r.
Qed.

Lemma force_trackers co pf : trackers_ok co pf → trackers_ok co (force_freeze pf).
Proof. intros [H1 H2]. by constructor. Qed.

(** A version without xmax. *)
Lemma removed_ids t infomask2 : let t' := with_xmax t InvalidTransactionId infomask2 (replaced (t_infomask t) HEAP_XMAX_INVALID) in
  xmax_xids t' = [] ∧ multis_of t' = [] ∧ HEAP_LOCKED_UPGRADED (t_infomask t') = false.
Proof.
  intros t'. assert (Hm : has_flag (t_infomask t') HEAP_XMAX_IS_MULTI = false) by (by rewrite (has_flag_land _ HEAP_XMAX_INVALID) by (by apply replaced_inside)).
  unfold xmax_xids, multis_of, HEAP_LOCKED_UPGRADED. by rewrite Hm.
Qed.

(** A version whose updater is its xmax. *)
Lemma updater_ids t x infomask2 done base : in_window base x → done = 0 ∨ done = HEAP_XMAX_COMMITTED →
  let t' := with_xmax t x infomask2 (replaced (t_infomask t) done) in
  xmax_xids t' = [x] ∧ multis_of t' = [] ∧ HEAP_LOCKED_UPGRADED (t_infomask t') = false.
Proof.
  intros Hx Hd t'. assert (Hm : has_flag (t_infomask t') HEAP_XMAX_IS_MULTI = false) by (rewrite (has_flag_land _ done) by (by apply replaced_inside); by destruct Hd as [-> | ->]).
  unfold xmax_xids, multis_of, HEAP_LOCKED_UPGRADED. rewrite Hm. cbn [t' with_xmax t_xmax]. by rewrite (window_normal base).
Qed.

Lemma limit_order co x : cutoffs_ok co → in_window (relfrozenxid co) x → TransactionIdPrecedes x (OldestXmin co) = false → TransactionIdPrecedes x (FreezeLimit co) = false.
Proof.
  intros Hco Hx Hp. pose proof (co_order co Hco). rewrite (precedes_pos (relfrozenxid co)) in * by (try apply co_oldest; try apply co_limit; done). lia.
Qed.

Lemma tracked_removed co pf t af rm ck x1 pf1 : cutoffs_ok co → trackers_ok co pf → pf1 = force_freeze pf ∨ (pf1 = pf ∧ af = false ∧ multis_of t = [] ∧ xids_above co (relfrozenxid co) (xmax_xids t)) →
  xmax_tracked co pf t (mkXmaxPlan af true rm ck x1 (t_infomask2 t) (t_infomask t)) pf1.
Proof.
  intros Hco Hpf H1. destruct (removed_ids t (Z.ldiff (Z.ldiff (t_infomask2 t) HEAP_HOT_UPDATED) HEAP_KEYS_UPDATED)) as (E1 & E2 & E3).
  assert (Etr : FreezePageRelfrozenXid pf1 = FreezePageRelfrozenXid pf ∧ FreezePageRelminMxid pf1 = FreezePageRelminMxid pf ∧
    NoFreezePageRelfrozenXid pf1 = NoFreezePageRelfrozenXid pf ∧ NoFreezePageRelminMxid pf1 = NoFreezePageRelminMxid pf) by (destruct H1 as [-> |[-> _]]; done).
  destruct Etr as (F1 & F2 & F3 & F4). constructor; unfold planned; cbn [clear_xmax freeze_xmax replace_xmax xmax_already_frozen plan_xmax plan_infomask2 plan_infomask] in *;
    fold (replaced (t_infomask t) HEAP_XMAX_INVALID).
  - destruct H1 as [-> |[-> _]]; [by apply force_trackers|done].
  - by apply replaced_frozen.
  - rewrite F1, F2. lia.
  - done.
  - rewrite E1. constructor.
  - rewrite E2. constructor.
  - rewrite E1, E2. split_and!; [constructor|constructor|done].
  - destruct H1 as [-> |[-> _]]; [right; rewrite orb_true_r; done|by left].
  - destruct H1 as [-> |[-> H]]; [done|]. intros _. left. done.
  - rewrite orb_true_r. done.
  - done.
Qed.

Lemma tracked_updater co pf t done ck : cutoffs_ok co → trackers_ok co pf → in_window (relfrozenxid co) (HeapTupleGetUpdateXid t) →
  TransactionIdPrecedes (HeapTupleGetUpdateXid t) (OldestXmin co) = false → done = 0 ∨ done = HEAP_XMAX_COMMITTED →
  xmax_tracked co pf t (mkXmaxPlan false false true ck (HeapTupleGetUpdateXid t) (t_infomask2 t) (replaced (t_infomask t) done)) (force_freeze pf).
Proof.
  intros Hco Hpf Hw Hp Hd. destruct (updater_ids t _ (t_infomask2 t) done _ Hw Hd) as (E1 & E2 & E3).
  constructor; unfold planned; cbn [clear_xmax freeze_xmax replace_xmax xmax_already_frozen plan_xmax plan_infomask2 plan_infomask force_freeze orb
    FreezePageRelfrozenXid FreezePageRelminMxid freeze_required] in *; try tauto; try discriminate.
  - by apply force_trackers.
  - apply replaced_frozen. by destruct Hd as [-> | ->].
  - lia.
  - rewrite E1. apply recent_above; try tauto. apply Hpf.
  - rewrite E2. constructor.
  - rewrite E1, E2. split_and!; [|constructor|exact E3]. constructor; [by apply limit_order|constructor].
Qed.

(** The members of a new MultiXactId are those kept. *)
Lemma new_multi_ids co t infomask2 : multi_ok co t → creates co t →
  let ms := List.filter kept (members_of t) in ms ≠ [] →
  let t' := with_xmax t (create ms) infomask2 (replaced (t_infomask t) (GetMultiXactIdHintBits (create ms)).1) in
  xmax_xids t' ≡ₚ map fst ms ∧ multis_of t' = [create ms] ∧ HEAP_LOCKED_UPGRADED (t_infomask t') = false.
Proof.
  intros Hmu Hcr ms Hne t'. destruct (Hcr ms) as (Hread & Hv & _); [done|apply bool_filter_sublist|].
  destruct (multi_bits (create ms)) as (Hb1 & _ & _ & Hb4 & Hb6 & _).
  { intros m. rewrite (Hread false). intros [Hm _]%kept_elem. by apply (mu_members co t Hmu). }
  set (bits := (GetMultiXactIdHintBits (create ms)).1) in *.
  assert (Hm : has_flag (t_infomask t') HEAP_XMAX_IS_MULTI = true) by (by rewrite (has_flag_land _ bits) by (by apply replaced_inside)).
  assert (Hu : HEAP_LOCKED_UPGRADED (t_infomask t') = false).
  { rewrite <- Hb6. unfold HEAP_LOCKED_UPGRADED. rewrite Hm, Hb4. cbn [t' with_xmax t_infomask]. rewrite (has_flag_land (replaced _ _) bits) by (by apply replaced_inside). by rewrite replaced_inside. }
  unfold xmax_xids, multis_of. rewrite Hm, Hu. cbn [t' with_xmax t_xmax negb andb]. rewrite Hv. split_and!; [|done|done]. apply Permutation_map. apply Hread.
Qed.

Lemma tracked_multi co pf t infomask2 : cutoffs_ok co → trackers_ok co pf → multi_ok co t → creates co t →
  let ms := List.filter kept (members_of t) in ms ≠ [] → Forall (λ m, TransactionIdPrecedes m.1 (OldestXmin co) = false) ms →
  xmax_tracked co pf t (mkXmaxPlan false false true 0 (create ms) infomask2 (replaced (t_infomask t) (GetMultiXactIdHintBits (create ms)).1)) (force_freeze pf).
Proof.
  intros Hco Hpf Hmu Hcr ms Hne Hrec. destruct (new_multi_ids co t infomask2 Hmu Hcr Hne) as (E1 & E2 & E3). fold ms in E1, E2, E3.
  destruct (Hcr ms) as (Hread & _ & Hw & Hp); [done|apply bool_filter_sublist|].
  assert (Hin : Forall (λ x, in_window (relfrozenxid co) x ∧ TransactionIdPrecedes x (OldestXmin co) = false) (map fst ms)).
  { apply Forall_forall. intros x (m & -> & Hm)%list_elem_of_fmap. rewrite Forall_forall in Hrec. split; [|by apply Hrec]. apply kept_elem in Hm as [Hm _]. by apply (mu_members co t Hmu). }
  constructor; unfold planned; cbn [clear_xmax freeze_xmax replace_xmax xmax_already_frozen plan_xmax plan_infomask2 plan_infomask force_freeze orb
    FreezePageRelfrozenXid FreezePageRelminMxid freeze_required] in *; try tauto; try discriminate.
  - by apply force_trackers.
  - apply replaced_frozen, multi_bits. intros m. rewrite Hread. intros [Hm _]%kept_elem. by apply (mu_members co t Hmu).
  - lia.
  - unfold xids_above. rewrite E1. eapply Forall_impl; [done|]. intros x [H1 H2]. pose proof (recent_above co (FreezePageRelfrozenXid pf) x Hco (proj1 (tk_freeze co pf Hpf)) H1 H2) as H.
    by inversion H.
  - rewrite E2. destruct (tk_freeze co pf Hpf) as [_ [_ Hr]]. constructor; [split; [done|lia]|constructor].
  - rewrite E1, E2. split_and!; [|constructor; [|constructor]|exact E3].
    + eapply Forall_impl; [done|]. intros x [H1 H2]. by apply limit_order.
    + pose proof (co_morder co Hco). destruct (co_mxacts co Hco). rewrite (mprecedes_pos (relminmxid co)) by done. lia.
Qed.

(** Nothing changes. *)
Lemma plan_unchanged t af ck : planned t (clear_xmax (mkXmaxPlan af false false ck (t_xmax t) (t_infomask2 t) (t_infomask t))) = t.
Proof. by destruct t. Qed.

Lemma tracked_noop co pf t tracker : cutoffs_ok co → trackers_ok co pf → multi_ok co t → has_flag (t_infomask t) HEAP_XMAX_IS_MULTI = true →
  MultiXactIdIsValid (t_xmax t) = true → HEAP_LOCKED_UPGRADED (t_infomask t) = false → mwindow (relminmxid co) (t_xmax t) →
  MultiXactIdPrecedes (t_xmax t) (MultiXactCutoff co) = false →
  members_first_pass (FreezeLimit co) (members_of t) (FreezePageRelfrozenXid pf) = (false, tracker) →
  xmax_tracked co pf t (mkXmaxPlan false false false 0 (t_xmax t) (t_infomask2 t) (t_infomask t))
    (mkPageFreeze (freeze_required pf) tracker (older_multi (t_xmax t) (FreezePageRelminMxid pf)) (NoFreezePageRelfrozenXid pf) (NoFreezePageRelminMxid pf)).
Proof.
  intros Hco Hpf Hmu Hm Hv Hup Hw Hp Hfp. destruct (tk_freeze co pf Hpf) as [[Hf1 Hf2] [Hg1 Hg2]].
  assert (Hall : Forall (λ m, in_window (relfrozenxid co) m.1) (members_of t)) by (apply Forall_forall; intros m Hin; by apply (mu_members co t Hmu)).
  apply (first_pass_spec (relfrozenxid co)) in Hfp as [Hex Hfp]; [|done|done]. destruct (Hfp eq_refl) as (Ht1 & Ht2 & Ht3).
  destruct (older_multi_pos (relminmxid co) _ _ Hw Hg1) as [Ho1 Ho2].
  assert (Ex : xmax_xids t = map fst (members_of t)) by (unfold xmax_xids; by rewrite Hm, Hv, Hup).
  assert (Em : multis_of t = [t_xmax t]) by (unfold multis_of; by rewrite Hm, Hv).
  constructor; rewrite ?plan_unchanged; cbn [FreezePageRelfrozenXid FreezePageRelminMxid NoFreezePageRelfrozenXid NoFreezePageRelminMxid freeze_required replace_xmax freeze_xmax
    xmax_already_frozen clear_xmax plan_infomask orb]; try done; try (by left); try (by right).
  - constructor; [|apply Hpf]. split; split; try done; cbn; lia.
  - lia.
  - rewrite Ex. apply Forall_forall. intros x (m & -> & Hin)%list_elem_of_fmap. rewrite Forall_forall in Ht3, Hall. auto.
  - rewrite Em. constructor; [split; [done|lia]|constructor].
  - rewrite Ex, Em. split_and!; [|by repeat constructor|done]. apply Forall_forall. intros x (m & -> & Hin)%list_elem_of_fmap.
    destruct (TransactionIdPrecedes m.1 (FreezeLimit co)) eqn:E; [|done]. rewrite Hex. symmetry. apply existsb_exists. exists m. split; [by apply list_elem_of_In|done].
Qed.

Lemma prepare_xmax_tracked co pf t p pf1 : cutoffs_ok co → stamped co t → trackers_ok co pf →
  prepare_xmax create t co pf = Ok (p, pf1) → xmax_tracked co pf t p pf1.
Proof.
  intros Hco [_ Hx Hmulti] Hpf. unfold prepare_xmax. destruct (has_flag (t_infomask t) HEAP_XMAX_IS_MULTI) eqn:Hm.
  - destruct (Hmulti eq_refl) as [Hmu Hcr]. destruct (FreezeMultiXactId _ _ _ _ _) as [[[nx fl] pf2]|] eqn:E; rsimpl; [|done].
    apply freeze_multi_outcome in E as [tr Hv Hup Hw Hp Hfp|Hd|fl' Hl Hw Hp Hfl|ms Hne -> Hrec]; try done; cbn -[GetMultiXactIdHintBits].
    + intros [= <- <-]. by apply tracked_noop.
    + intros [= <- <-]. apply tracked_removed; auto.
    + destruct Hfl as [-> |[-> Hc]]; cbn; intros [= <- <-]; [|apply tracked_updater; auto].
      rewrite <- (Z.lor_0_r (Z.ldiff _ _)). apply tracked_updater; auto.
    + destruct (GetMultiXactIdHintBits _) as [b1 b2] eqn:Eb. intros [= <- <-].
      assert (b1 = (GetMultiXactIdHintBits (create (List.filter kept (members_of t)))).1) as -> by (by rewrite Eb). by apply tracked_multi.
  - assert (Em : multis_of t = []) by (unfold multis_of; by rewrite Hm).
    assert (Hup : HEAP_LOCKED_UPGRADED (t_infomask t) = false) by (unfold HEAP_LOCKED_UPGRADED; by rewrite Hm).
    assert (Hkeep : ∀ af, xids_above co (FreezePageRelfrozenXid pf) (xmax_xids t) → Forall (λ x, TransactionIdPrecedes x (FreezeLimit co) = false) (xmax_xids t) →
      (af = true → xmax_xids t = []) → xmax_tracked co pf t (mkXmaxPlan af false false 0 (t_xmax t) (t_infomask2 t) (t_infomask t)) pf).
    { intros af H1 H2 H3. constructor; rewrite ?plan_unchanged, ?Em; try done; try (by left); try (by right); try lia. cbn [freeze_xmax xmax_already_frozen orb]. auto. }
    destruct (TransactionIdIsNormal (t_xmax t)) eqn:Hn.
    + assert (Ex : xmax_xids t = [t_xmax t]) by (unfold xmax_xids; by rewrite Hm, Hn).
      destruct (TransactionIdPrecedes (t_xmax t) (relfrozenxid co)) eqn:Hp; [done|].
      assert (Hw : in_window (relfrozenxid co) (t_xmax t)) by (apply checked_window; [by apply co_base|unfold TransactionIdIsNormal, is_xid in *; lia|done]).
      destruct (TransactionIdPrecedes (t_xmax t) (OldestXmin co)) eqn:Hp'; cbn [andb]; intros [= <- <-].
      * apply tracked_removed; try done. right. split_and!; try done. rewrite Ex. constructor; [|constructor]. split; [done|]. unfold pos at 1. rewrite Z.sub_diag. cbn. apply pos_range.
      * apply Hkeep; rewrite ?Ex; try done; [by apply recent_above; try done; apply Hpf|by constructor; [apply limit_order|constructor]].
    + assert (Ex : xmax_xids t = []) by (unfold xmax_xids; by rewrite Hm, Hn).
      destruct (negb _); [|done]. intros [= <- <-]. apply Hkeep; rewrite ?Ex; try done; constructor.
Qed.

(** ** The ids of a version that is not frozen *)

Lemma track_members base limit ms f ox om : in_window base ox → Forall (λ m, in_window base m.1) ms →
  ∃ ox', foldl (λ r m, track_xid limit m.1 r) (f, ox, om) ms = (f || existsb (λ x, TransactionIdPrecedes x limit) (map fst ms), ox', om) ∧
  in_window base ox' ∧ pos base ox' ≤ pos base ox ∧ Forall (λ x, pos base ox' ≤ pos base x) (map fst ms).
Proof.
  intros Hox Hms. revert f ox Hox. induction Hms as [|[x st] ms Hx Hms IH]; intros f ox Hox; cbn [foldl map existsb].
  { exists ox. rewrite orb_false_r. split_and!; [done|done|lia|constructor]. }
  cbn [track_xid fst]. destruct (older_xid_pos base x ox Hx Hox) as [H1 H2]. destruct (IH (f || TransactionIdPrecedes x limit) _ H1) as (ox' & E & H3 & H4 & H5).
  exists ox'. rewrite E. split_and!; [by rewrite orb_assoc|done|lia|]. constructor; [cbn [fst]; lia|done].
Qed.

Record tracked_all co t (ox om : Z) (r : Tracked) : Prop := {
  ta_answer : r.1.1 = existsb (λ x, TransactionIdPrecedes x (FreezeLimit co)) (xids_of t) || existsb (λ m, MultiXactIdPrecedes m (MultiXactCutoff co)) (multis_of t);
  ta_xid : in_window (relfrozenxid co) r.1.2 ∧ pos (relfrozenxid co) r.1.2 ≤ pos (relfrozenxid co) ox ∧ xids_above co r.1.2 (xids_of t);
  ta_multi : mwindow (relminmxid co) r.2 ∧ pos (relminmxid co) r.2 ≤ pos (relminmxid co) om ∧ multis_above co r.2 (multis_of t);
}.

Lemma above_intro co rx l : Forall (in_window (relfrozenxid co)) l → Forall (λ x, pos (relfrozenxid co) rx ≤ pos (relfrozenxid co) x) l → xids_above co rx l.
Proof. unfold xids_above. rewrite !Forall_forall. auto. Qed.

Lemma should_freeze_xmax_spec co t f ox om : in_window (relfrozenxid co) ox → mwindow (relminmxid co) om →
  Forall (in_window (relfrozenxid co)) (xmax_xids t) → Forall (mwindow (relminmxid co)) (multis_of t) → multis_of t = [] ∨ HEAP_LOCKED_UPGRADED (t_infomask t) = false →
  ∃ ox' om', should_freeze_xmax co t (f, ox, om) =
    (f || existsb (λ x, TransactionIdPrecedes x (FreezeLimit co)) (xmax_xids t) || existsb (λ m, MultiXactIdPrecedes m (MultiXactCutoff co)) (multis_of t), ox', om') ∧
  in_window (relfrozenxid co) ox' ∧ pos (relfrozenxid co) ox' ≤ pos (relfrozenxid co) ox ∧ xids_above co ox' (xmax_xids t) ∧
  mwindow (relminmxid co) om' ∧ pos (relminmxid co) om' ≤ pos (relminmxid co) om ∧ multis_above co om' (multis_of t).
Proof.
  intros Hox Hom Hxs Hms Hup. unfold should_freeze_xmax. unfold xmax_xids, multis_of in *. destruct (has_flag (t_infomask t) HEAP_XMAX_IS_MULTI); cbn [andb negb] in *.
  - change (TransactionIdIsNormal InvalidTransactionId) with false. cbv iota. destruct (MultiXactIdIsValid (t_xmax t)); cbn [andb negb existsb] in *.
    2:{ exists ox, om. rewrite !orb_false_r. split_and!; try done; try lia; constructor. }
    destruct Hup as [|Hup]; [done|]. rewrite Hup in *. cbn [negb] in *. inversion Hms as [|?? Hw _]; subst. destruct (older_multi_pos _ _ _ Hw Hom) as [H1 H2].
    destruct (track_members (relfrozenxid co) (FreezeLimit co) (members_of t) (f || MultiXactIdPrecedes (t_xmax t) (MultiXactCutoff co)) ox (older_multi (t_xmax t) om)) as (ox' & E & H3 & H4 & H5).
    { done. } { apply Forall_forall. intros m Hin. rewrite Forall_forall in Hxs. apply Hxs, list_elem_of_fmap. eauto. }
    unfold members_of in E at 1. rewrite E. exists ox', (older_multi (t_xmax t) om). rewrite orb_false_r. split_and!; try done; try lia.
    + by rewrite <- !orb_assoc, (orb_comm (MultiXactIdPrecedes _ _)).
    + by apply above_intro.
    + constructor; [split; [done|lia]|constructor].
  - destruct (TransactionIdIsNormal (t_xmax t)); cbn [track_xid existsb].
    + inversion Hxs as [|?? Hw _]; subst. destruct (older_xid_pos _ _ _ Hw Hox) as [H1 H2]. exists (older_xid (t_xmax t) ox), om. rewrite !orb_false_r.
      split_and!; try done; try lia; [|constructor]. constructor; [split; [done|lia]|constructor].
    + change (MultiXactIdIsValid InvalidMultiXactId) with false. cbn [negb]. exists ox, om. rewrite !orb_false_r. split_and!; try done; try lia; constructor.
Qed.

Lemma should_freeze_spec co t ox om : has_flag (t_infomask t) HEAP_MOVED = false → in_window (relfrozenxid co) ox → mwindow (relminmxid co) om →
  Forall (in_window (relfrozenxid co)) (xids_of t) → Forall (mwindow (relminmxid co)) (multis_of t) → multis_of t = [] ∨ HEAP_LOCKED_UPGRADED (t_infomask t) = false →
  tracked_all co t ox om (heap_tuple_should_freeze t co ox om).
Proof.
  intros Hmv Hox Hom Hxs Hms Hup. unfold heap_tuple_should_freeze, should_freeze_xvac. rewrite Hmv. cbn [andb]. unfold xids_of in Hxs. apply Forall_app in Hxs as [Hx1 Hx2].
  unfold should_freeze_xmin. destruct (TransactionIdIsNormal (HeapTupleHeaderGetXmin t)) eqn:Hn.
  - inversion Hx1 as [|?? Hw _]; subst. cbn [track_xid orb]. destruct (older_xid_pos _ _ _ Hw Hox) as [H1 H2].
    destruct (should_freeze_xmax_spec co t (TransactionIdPrecedes (HeapTupleHeaderGetXmin t) (FreezeLimit co)) _ om H1 Hom Hx2 Hms Hup) as (ox' & om' & -> & H3 & H4 & H5 & H6 & H7 & H8).
    constructor; cbn [fst snd]; unfold xids_of; rewrite ?Hn; cbn [app existsb]; split_and?; try done; try lia. constructor; [split; [done|lia]|done].
  - destruct (should_freeze_xmax_spec co t false ox om Hox Hom Hx2 Hms Hup) as (ox' & om' & -> & H3 & H4 & H5 & H6 & H7 & H8).
    constructor; cbn [fst snd orb]; unfold xids_of; rewrite ?Hn; cbn [app]; split_and?; done.
Qed.

(** ** The plan for the whole version *)

(** No id of the version is before the limits. *)
Definition in_limits co t : Prop :=
  existsb (λ x, TransactionIdPrecedes x (FreezeLimit co)) (xids_of t) = false ∧ existsb (λ m, MultiXactIdPrecedes m (MultiXactCutoff co)) (multis_of t) = false ∧
  (multis_of t = [] ∨ HEAP_LOCKED_UPGRADED (t_infomask t) = false).

Lemma in_limits_intro co t : Forall (λ x, TransactionIdPrecedes x (FreezeLimit co) = false) (xids_of t) →
  Forall (λ m, MultiXactIdPrecedes m (MultiXactCutoff co) = false) (multis_of t) →
  HEAP_LOCKED_UPGRADED (t_infomask t) = false → in_limits co t.
Proof.
  assert (H : ∀ f (l : list Z), Forall (λ x, f x = false) l → existsb f l = false) by (induction 1 as [|x l Hx _ IH]; [done|]; cbn [existsb]; by rewrite Hx, IH).
  intros H1 H2 H3. split_and!; [by apply H..|by right].
Qed.

Record tuple_tracked co pf t (u : bool) frz (tf : bool) pf' : Prop := {
  tt_trackers : trackers_ok co pf';
  tt_back : pos (relfrozenxid co) (FreezePageRelfrozenXid pf') ≤ pos (relfrozenxid co) (FreezePageRelfrozenXid pf) ∧
            pos (relminmxid co) (FreezePageRelminMxid pf') ≤ pos (relminmxid co) (FreezePageRelminMxid pf) ∧
            pos (relfrozenxid co) (NoFreezePageRelfrozenXid pf') ≤ pos (relfrozenxid co) (NoFreezePageRelfrozenXid pf) ∧
            pos (relminmxid co) (NoFreezePageRelminMxid pf') ≤ pos (relminmxid co) (NoFreezePageRelminMxid pf);
  tt_frozen : xids_above co (FreezePageRelfrozenXid pf') (xids_of (heap_execute_freeze_tuple t frz)) ∧
              multis_above co (FreezePageRelminMxid pf') (multis_of (heap_execute_freeze_tuple t frz));
  tt_limits : in_limits co (heap_execute_freeze_tuple t frz);
  tt_kept : freeze_required pf' = false → xids_above co (NoFreezePageRelfrozenXid pf') (xids_of t) ∧ multis_above co (NoFreezePageRelminMxid pf') (multis_of t) ∧ in_limits co t;
  tt_required : freeze_required pf' = true → freeze_required pf = true ∨ u = true;
  tt_sticky : freeze_required pf = true → freeze_required pf' = true;
  tt_unused : u = false → heap_execute_freeze_tuple t frz = t;
  tt_total : tf = true → xids_of (heap_execute_freeze_tuple t frz) = [] ∧ multis_of (heap_execute_freeze_tuple t frz) = [];
}.

(** Marking the inserter frozen leaves the ids of xmax. *)
Lemma hinted_upgraded t : HEAP_LOCKED_UPGRADED (t_infomask (hinted HEAP_XMIN_FROZEN t)) = HEAP_LOCKED_UPGRADED (t_infomask t).
Proof. unfold HEAP_LOCKED_UPGRADED. rewrite !flag_hinted. cbn [hinted set_infomask t_infomask]. by rewrite Z.land_lor_distr_l, Z.lor_0_r, !orb_false_r. Qed.

Lemma hinted_ids t : xids_of (hinted HEAP_XMIN_FROZEN t) = xmax_xids t ∧ multis_of (hinted HEAP_XMIN_FROZEN t) = multis_of t.
Proof.
  assert (Hm : has_flag (t_infomask (hinted HEAP_XMIN_FROZEN t)) HEAP_XMAX_IS_MULTI = has_flag (t_infomask t) HEAP_XMAX_IS_MULTI) by (by rewrite flag_hinted, orb_false_r).
  pose proof (hinted_upgraded t) as Hu.
  assert (Hl : HEAP_XMAX_IS_LOCKED_ONLY (t_infomask (hinted HEAP_XMIN_FROZEN t)) = HEAP_XMAX_IS_LOCKED_ONLY (t_infomask t)) by (by apply locked_only_hint).
  unfold xids_of, HeapTupleHeaderGetXmin. rewrite xmin_frozen_flags, committed_hinted, flag_hinted, !orb_true_r. cbn [andb].
  change (TransactionIdIsNormal FrozenTransactionId) with false. cbn [app]. unfold xmax_xids, multis_of, members_of. by rewrite Hm, Hu, Hl.
Qed.

(** The ids of the version after its plan is executed. *)
Lemma executed_ids co pf t p pf1 xf fx : cutoffs_ok co → stamped co t → prepare_xmin t co = Ok (xf, fx) → xmax_tracked co pf t p pf1 →
  let t' := if fx then hinted HEAP_XMIN_FROZEN (planned t (clear_xmax p)) else planned t (clear_xmax p) in
  ∃ l, xids_of t' = l ++ xmax_xids (planned t (clear_xmax p)) ∧ multis_of t' = multis_of (planned t (clear_xmax p)) ∧
  (fx || xf = true → l = []) ∧ (l = [] ∨ l = [t_xmin t] ∧ in_window (relfrozenxid co) (t_xmin t) ∧ TransactionIdPrecedes (t_xmin t) (OldestXmin co) = false).
Proof.
  intros Hco Hst E Hx t'. destruct (prepare_xmin_spec co t xf fx Hco (st_xmin co t Hst) E) as (Hn & H1 & H2). destruct fx; cbn [orb].
  - exists []. destruct (hinted_ids (planned t (clear_xmax p))) as [E1 E2]. unfold t'. split_and!; auto.
  - exists (if TransactionIdIsNormal (HeapTupleHeaderGetXmin t) then [HeapTupleHeaderGetXmin t] else []). split_and!.
    + unfold t', xids_of. f_equal. unfold HeapTupleHeaderGetXmin. by rewrite (xt_xmin co pf t p pf1 Hx).
    + done.
    + intros ->. by destruct (TransactionIdIsNormal _).
    + destruct (TransactionIdIsNormal (HeapTupleHeaderGetXmin t)); [|by left]. right. cbn [negb] in Hn. destruct (H2 Hn) as (Hf & Hw & Hp).
      unfold HeapTupleHeaderGetXmin. rewrite Hf. auto.
Qed.

(** The ids of a version whose page need not be frozen. *)
Lemma optional_ids co pf t p pf1 xf fx : cutoffs_ok co → stamped co t → prepare_xmin t co = Ok (xf, fx) → xmax_tracked co pf t p pf1 → freeze_required pf1 = false →
  Forall (in_window (relfrozenxid co)) (xids_of t) ∧ Forall (mwindow (relminmxid co)) (multis_of t) ∧
  (multis_of t = [] ∨ HEAP_LOCKED_UPGRADED (t_infomask t) = false) ∧
  (xf = true → xmax_already_frozen p = true → xids_of t = [] ∧ multis_of t = []) ∧
  (existsb (λ x, TransactionIdPrecedes x (FreezeLimit co)) (xids_of t) || existsb (λ m, MultiXactIdPrecedes m (MultiXactCutoff co)) (multis_of t) = true →
   fx || replace_xmax p || freeze_xmax p = true).
Proof.
  intros Hco Hst E Hx Hreq. destruct (prepare_xmin_spec co t xf fx Hco (st_xmin co t Hst) E) as (Hn & H1 & H2).
  set (l := if TransactionIdIsNormal (HeapTupleHeaderGetXmin t) then [HeapTupleHeaderGetXmin t] else []). change (xids_of t) with (l ++ xmax_xids t).
  assert (Hl : l = [] ∨ l = [t_xmin t] ∧ xf = false ∧ in_window (relfrozenxid co) (t_xmin t) ∧ fx = TransactionIdPrecedes (t_xmin t) (OldestXmin co)).
  { unfold l. destruct (TransactionIdIsNormal (HeapTupleHeaderGetXmin t)); [|by left]. right. cbn [negb] in Hn. destruct (H2 Hn) as (Hf & Hw & Hp). unfold HeapTupleHeaderGetXmin. rewrite Hf. auto. }
  assert (Hxl : Forall (in_window (relfrozenxid co)) l) by (destruct Hl as [-> |(-> & _ & Hw & _)]; repeat constructor; apply Hw).
  assert (Hl' : existsb (λ x, TransactionIdPrecedes x (FreezeLimit co)) l = true → fx = true).
  { destruct Hl as [-> |(-> & _ & Hw & ->)]; [done|]. cbn [existsb]. rewrite orb_false_r. intros Hp. destruct (TransactionIdPrecedes (t_xmin t) (OldestXmin co)) eqn:Hp'; [done|].
    by rewrite (limit_order co) in Hp. }
  assert (Hnil : xf = true → l = []) by (destruct Hl as [-> |(_ & -> & _)]; done).
  rewrite existsb_app. destruct (xt_optional co pf t p pf1 Hx Hreq) as [(Hfm & Haf & Hm & Ha)|Hsame].
  - rewrite Hm. split_and!; [apply Forall_app; split; [done|]; eapply Forall_impl; [done|]; by intros x [? _]|constructor|by left| |by rewrite Hfm, orb_true_r].
    intros _ Haf'. congruence.
  - destruct (xt_limits co pf t p pf1 Hx) as (L1 & L2 & L3). pose proof (xt_xids co pf t p pf1 Hx) as X1. pose proof (xt_multis co pf t p pf1 Hx) as X2.
    pose proof (xt_frozen co pf t p pf1 Hx) as X3. rewrite Hsame in *. split_and!.
    + apply Forall_app. split; [done|]. eapply Forall_impl; [done|]. by intros x [? _].
    + eapply Forall_impl; [done|]. by intros x [? _].
    + by right.
    + intros Hxf Haf. destruct X3 as [-> ->]; [by rewrite Haf, orb_true_r|]. by rewrite (Hnil Hxf).
    + intros [[Hp|Hp]%orb_true_iff|Hp]%orb_true_iff; [by rewrite Hl'| |]; apply existsb_exists in Hp as (x & Hin%list_elem_of_In & Hp); exfalso; rewrite Forall_forall in L1, L2.
      * rewrite L1 in Hp; done.
      * rewrite L2 in Hp; done.
Qed.

Lemma prepare_tracked co pf t u frz tf pf' : cutoffs_ok co → stamped co t → trackers_ok co pf → has_flag (t_infomask t) HEAP_MOVED = false →
  heap_prepare_freeze_tuple create t co pf = Ok (u, frz, tf, pf') → tuple_tracked co pf t u frz tf pf'.
Proof.
  intros Hco Hst Hpf Hmv E. destruct (prepare_inv co pf t u frz tf pf' Hmv E) as (xf & fx & p & pf1 & E1 & E2 & Ex & _ & Eu & Etf & Epf).
  pose proof (prepare_xmax_tracked co pf t p pf1 Hco Hst Hpf E2) as Hx. pose proof Hx as [X1 _ [X2 X2'] [X3 X3'] X4 X5 (X6 & X7 & X7') X8 _ X9 X10].
  destruct (executed_ids co pf t p pf1 xf fx Hco Hst E1 Hx) as (l & L1 & L2 & L3 & L4). rewrite <- Ex in L1, L2.
  assert (Hlast : FreezePageRelfrozenXid pf' = FreezePageRelfrozenXid pf1 ∧ FreezePageRelminMxid pf' = FreezePageRelminMxid pf1) by (rewrite Epf; by destruct (negb (freeze_required pf1) && negb (xf && xmax_already_frozen p))).
  destruct Hlast as [F1 F2].
  assert (Hno : trackers_ok co pf' ∧ pos (relfrozenxid co) (NoFreezePageRelfrozenXid pf') ≤ pos (relfrozenxid co) (NoFreezePageRelfrozenXid pf1) ∧
    pos (relminmxid co) (NoFreezePageRelminMxid pf') ≤ pos (relminmxid co) (NoFreezePageRelminMxid pf1) ∧
    (freeze_required pf' = false → xids_above co (NoFreezePageRelfrozenXid pf') (xids_of t) ∧ multis_above co (NoFreezePageRelminMxid pf') (multis_of t) ∧ in_limits co t) ∧
    (freeze_required pf' = true → freeze_required pf1 = true ∨ u = true) ∧ (freeze_required pf1 = true → freeze_required pf' = true)).
  { destruct (freeze_required pf1) eqn:Hreq; cbn [negb andb] in Epf; [subst pf'; rewrite Hreq; split_and!; auto; lia|].
    destruct (optional_ids co pf t p pf1 xf fx Hco Hst E1 Hx Hreq) as (O1 & O2 & O3 & O4 & O5).
    destruct (tk_nofreeze co pf1 X1) as [[N1 N2] [N3 N4]]. destruct (xf && xmax_already_frozen p) eqn:Haf; cbn [negb] in Epf.
    - subst pf'. apply andb_true_iff in Haf as [Hxf Haf]. destruct (O4 Hxf Haf) as [H1 H2]. rewrite Hreq. split_and!; auto; try lia. intros _. unfold in_limits. rewrite H1, H2. split_and!; done || constructor; done.
    - destruct (should_freeze_spec co t _ _ Hmv N1 N3 O1 O2 O3) as [A1 (A2 & A3 & A4) (A5 & A6 & A7)]. subst pf'. cbn [freeze_required NoFreezePageRelfrozenXid NoFreezePageRelminMxid].
      split_and!; auto; try done; [constructor; [apply X1|split; split; cbn; try done; lia]| |]; rewrite A1; [intros []%orb_false_iff; done|]. intros H. right. rewrite Eu. by apply O5. }
  destruct Hno as (T1 & T2 & T3 & T4 & T5 & T6). rewrite X3 in T2. rewrite X3' in T3. constructor; try done.
  - rewrite F1, F2. lia.
  - rewrite F1, F2, L1, L2. split; [|done]. apply Forall_app. split; [|done]. destruct L4 as [-> |(-> & Hw & Hp)]; [constructor|].
    apply recent_above; try done. apply (tk_freeze co pf1 X1).
  - apply in_limits_intro; rewrite ?L1, ?L2; [|done|rewrite Ex; destruct fx; rewrite ?hinted_upgraded; done]. apply Forall_app. split; [|done]. destruct L4 as [-> |(-> & Hw & Hp)]; [constructor|]. constructor; [by apply limit_order|constructor].
  - intros [Hreq|]%T5; [|by right]. destruct X8 as [E8|[_ E8]]; [left; congruence|]. right. rewrite Eu. by rewrite <- orb_assoc, E8, orb_true_r.
  - intros Hreq. apply T6. destruct X8 as [-> |[-> _]]; done.
  - intros Hu. rewrite Hu in Eu. symmetry in Eu. rewrite <- orb_assoc in Eu. apply orb_false_iff in Eu as [-> Eu]. rewrite Ex. by apply X9.
  - intros Ht. rewrite Ht in Etf. symmetry in Etf. apply andb_true_iff in Etf as [Hl Hf]. rewrite L1, L2, (L3 Hl). destruct (X10 Hf) as [-> ->]. done.
Qed.

(** ** The whole page *)

Definition tuple_on (p : Page Tuple Sp) (off : Z) t : Prop := ∃ id, PageGetItemId p off = Ok id ∧ PageGetItem p id = Ok t.

(** The items of the offsets lie at different places. *)
Definition apart (p : Page Tuple Sp) (offs : list Z) : Prop :=
  ∀ o o' id id', o ∈ offs → PageGetItemId p o = Ok id → PageGetItemId p o' = Ok id' → lp_off id = lp_off id' → o = o'.

Lemma set_item_same (p : Page Tuple Sp) id t t0 : PageGetItem p id = Ok t0 → PageGetItem (set_item p id t) id = Ok t.
Proof.
  unfold PageGetItem, set_item. cbn [pd_mem]. rewrite lookup_alter_eq. destruct (pd_mem p !! lp_off id); [done|discriminate].
Qed.
Lemma set_item_other (p : Page Tuple Sp) id t id' : lp_off id ≠ lp_off id' → PageGetItem (set_item p id t) id' = PageGetItem p id'.
Proof. intros H. unfold PageGetItem, set_item. cbn [pd_mem]. by rewrite lookup_alter_ne. Qed.

(** What executing the plans does to each version of the page. *)
Lemma execute_page plans (p p' : Page Tuple Sp) : NoDup (map frz_offset plans) → apart p (map frz_offset plans) → heap_freeze_prepared_tuples p plans = Ok p' →
  ∀ off t, tuple_on p off t →
  (∀ frz, frz ∈ plans → frz_offset frz = off → tuple_on p' off (heap_execute_freeze_tuple t frz)) ∧
  (off ∉ map frz_offset plans → tuple_on p' off t).
Proof.
  unfold heap_freeze_prepared_tuples. revert p. induction plans as [|frz plans IH]; intros p Hnd Hap; cbn [fold_result map].
  { intros [= <-] off t Ht. split; [intros frz Hf; by apply elem_of_nil in Hf|done]. }
  cbn [map] in *. apply NoDup_cons in Hnd as [Hnew Hnd]. destruct (PageGetItemId p (frz_offset frz)) as [id|] eqn:Eid; rsimpl; [|done].
  destruct (PageGetItem p id) as [t0|] eqn:Eit; rsimpl; [|done]. set (p1 := set_item _ _ _). intros E off t (id' & Hid' & Hit').
  assert (Hap1 : apart p1 (map frz_offset plans)) by (intros o o' i i' Ho; apply (Hap o o' i i'); by right).
  specialize (IH p1 Hnd Hap1 E off). destruct (decide (off = frz_offset frz)) as [->|Hne].
  - assert (id' = id) as -> by congruence. assert (t0 = t) as -> by congruence.
    assert (Ht1 : tuple_on p1 (frz_offset frz) (heap_execute_freeze_tuple t frz)) by (exists id; split; [done|by apply (set_item_same p id _ t)]).
    destruct (IH _ Ht1) as [_ H]. split; [|intros H'; exfalso; apply H'; by left]. intros frz' [-> |Hin]%elem_of_cons Ho; [by apply H|].
    exfalso. apply Hnew. rewrite <- Ho. apply list_elem_of_fmap. eauto.
  - assert (Ht1 : tuple_on p1 off t).
    { exists id'. split; [done|]. unfold p1. rewrite set_item_other; [done|]. intros Hoff. apply Hne. symmetry. apply (Hap _ _ id id'); auto. by left. }
    destruct (IH _ Ht1) as [H1 H2]. split; [intros frz' [-> |Hin]%elem_of_cons Ho; [done|by apply H1]|]. intros Hno. apply H2. intros Hin. apply Hno. by right.
Qed.

(** ** The loop of the page *)

Definition moved_back co pf pf' : Prop :=
  pos (relfrozenxid co) (FreezePageRelfrozenXid pf') ≤ pos (relfrozenxid co) (FreezePageRelfrozenXid pf) ∧
  pos (relminmxid co) (FreezePageRelminMxid pf') ≤ pos (relminmxid co) (FreezePageRelminMxid pf) ∧
  pos (relfrozenxid co) (NoFreezePageRelfrozenXid pf') ≤ pos (relfrozenxid co) (NoFreezePageRelfrozenXid pf) ∧
  pos (relminmxid co) (NoFreezePageRelminMxid pf') ≤ pos (relminmxid co) (NoFreezePageRelminMxid pf).

(** What the loop has noted for a version: a plan, if one is of use, and trackers that account
    for it. *)
Definition noted co (p : Page Tuple Sp) (s : FreezeState) (plans : list HeapTupleFreeze) (off : Z) : Prop :=
  ∃ t pf u frz tf pf1, tuple_on p off t ∧ heap_prepare_freeze_tuple create t co pf = Ok (u, frz, tf, pf1) ∧ tuple_tracked co pf t u frz tf pf1 ∧
  (if u then set_offset off frz ∈ plans else off ∉ map frz_offset plans) ∧ moved_back co pf1 (pagefrz s) ∧
  (freeze_required (pagefrz s) = false → freeze_required pf1 = false) ∧ (all_frozen s = true → tf = true).

Record recorded co (p : Page Tuple Sp) (offs : list Z) (s0 s : FreezeState) (l : list HeapTupleFreeze) : Prop := {
  rc_trackers : trackers_ok co (pagefrz s);
  rc_back : moved_back co (pagefrz s0) (pagefrz s);
  rc_plans : frozen s = frozen s0 ++ l;
  rc_offsets : map frz_offset l `sublist_of` offs;
  rc_required : freeze_required (pagefrz s) = true → freeze_required (pagefrz s0) = true ∨ l ≠ [];
  rc_sticky : freeze_required (pagefrz s0) = true → freeze_required (pagefrz s) = true;
  rc_all : all_frozen s = true → all_frozen s0 = true;
  rc_each : ∀ off, off ∈ offs → noted co p s l off;
}.

Lemma moved_back_trans co pf1 pf2 pf3 : moved_back co pf1 pf2 → moved_back co pf2 pf3 → moved_back co pf1 pf3.
Proof. unfold moved_back. lia. Qed.

Lemma record_spec co p offs s0 s : cutoffs_ok co → NoDup offs → trackers_ok co (pagefrz s0) →
  (∀ off t, off ∈ offs → tuple_on p off t → stamped co t ∧ has_flag (t_infomask t) HEAP_MOVED = false) →
  fold_result (record_freeze create co p) s0 offs = Ok s → ∃ l, recorded co p offs s0 s l.
Proof.
  intros Hco Hnd Htk Hst. revert s0 Htk Hst. induction Hnd as [|off offs Hnew Hnd IH]; intros s0 Htk Hst; cbn [fold_result].
  { intros [= <-]. exists []. constructor; rewrite ?app_nil_r; auto; [unfold moved_back; lia|]. intros off Hin. by apply elem_of_nil in Hin. }
  destruct (record_freeze create co p s0 off) as [s1|] eqn:Er; rsimpl; [|done]. intros E. unfold record_freeze in Er.
  destruct (PageGetItemId p off) as [id|] eqn:Eid; [|done]. cbn [mbind result_bind] in Er. destruct (PageGetItem p id) as [t|] eqn:Eit; [|done]. cbn [mbind result_bind] in Er.
  destruct (heap_prepare_freeze_tuple create t co (pagefrz s0)) as [[[[u frz] tf] pf1]|] eqn:Ep; [|done]. cbn [mbind result_bind] in Er. injection Er as <-. set (s1 := mkFreezeState _ _ _) in E.
  assert (Hon : tuple_on p off t) by (by exists id). destruct (Hst off t) as [Hst1 Hst2]; [by left|done|].
  pose proof (prepare_tracked co (pagefrz s0) t u frz tf pf1 Hco Hst1 Htk Hst2 Ep) as Ht. pose proof Ht as [T1 T2 _ _ _ T5 T6 _ _].
  destruct (IH s1 T1) as (l & [R1 R2 R3 R4 R5 R6 R7 R8]); [intros o t' Ho; apply Hst; by right|done|]. cbn [s1 pagefrz frozen all_frozen] in *.
  exists ((if u then [set_offset off frz] else []) ++ l). constructor; auto.
  - by apply (moved_back_trans co _ pf1).
  - rewrite R3. destruct u; [by rewrite <- app_assoc|done].
  - rewrite map_app. destruct u; cbn [map app]; [by constructor|by constructor 3].
  - intros [H|H]%R5; [destruct (T5 H) as [| ->]; [by left|by right]|]. right. by destruct l, u.
  - intros H. apply R7 in H. by destruct tf.
  - intros o [-> |Ho]%elem_of_cons.
    + exists t, (pagefrz s0), u, frz, tf, pf1. split_and!; try done.
      * destruct u; [by left|]. intros Hin. apply Hnew. by apply (sublist_subseteq _ _ R4).
      * intros H. destruct (freeze_required pf1) eqn:Hr; [|done]. rewrite R6 in H; done.
      * intros H. apply R7 in H. by destruct tf.
    + destruct (R8 o Ho) as (t' & pf' & u' & frz' & tf' & pf2 & H1 & H2 & H3 & H4 & H5 & H6 & H7). exists t', pf', u', frz', tf', pf2. split_and!; try done.
      assert (Hne : o ≠ off) by (by intros ->). destruct u'; [apply elem_of_app; by right|]. destruct u; [|done]. cbn [map app]. by intros [->|Hin]%elem_of_cons.
Qed.

Lemma checks_each (p : Page Tuple Sp) plans off t frz : heap_pre_freeze_checks p plans = Ok () → frz ∈ plans → frz_offset frz = off → tuple_on p off t → pre_freeze_check t frz = Ok ().
Proof.
  unfold heap_pre_freeze_checks. intros E Hin <- (id & Hid & Hit). induction plans as [|frz' plans IH]; [by apply elem_of_nil in Hin|]. cbn [fold_result] in E.
  apply elem_of_cons in Hin as [<- |Hin].
  - rewrite Hid in E. cbn [mbind result_bind] in E. rewrite Hit in E. cbn [mbind result_bind] in E. by destruct (pre_freeze_check t frz) as [[]|].
  - destruct (PageGetItemId p (frz_offset frz')); [|done]. cbn [mbind result_bind] in E. destruct (PageGetItem p _); [|done]. cbn [mbind result_bind] in E.
    destruct (pre_freeze_check _ frz') as [[]|]; [|done]. by apply IH.
Qed.

(** What is known of a version after the page was frozen, or left. *)
Record left_on co (rx rm : Z) (af : bool) t t' : Prop := {
  lo_honest : honest t';
  lo_status : vacuum_status t' = vacuum_status t;
  lo_visible : ∀ S, covers co S → mvcc_visible S t' = mvcc_visible S t;
  lo_above : xids_above co rx (xids_of t') ∧ multis_above co rm (multis_of t');
  lo_limits : in_limits co t';
  lo_total : af = true → xids_of t' = [] ∧ multis_of t' = [];
}.

Lemma freeze_page_spec co opp rx0 rm0 (p p' : Page Tuple Sp) offs rx rm af n : cutoffs_ok co → horizon_done co → NoDup offs → apart p offs →
  (∀ off t, off ∈ offs → tuple_on p off t → honest t ∧ stamped co t) → xid_tracker co rx0 → multi_tracker co rm0 →
  freeze_page create co opp rx0 rm0 p offs = Ok (p', rx, rm, af, n) →
  (xid_tracker co rx ∧ pos (relfrozenxid co) rx ≤ pos (relfrozenxid co) rx0) ∧ (multi_tracker co rm ∧ pos (relminmxid co) rm ≤ pos (relminmxid co) rm0) ∧
  (∀ off t, off ∈ offs → tuple_on p off t → ∃ t', tuple_on p' off t' ∧ left_on co rx rm af t t') ∧
  (∀ off t, off ∉ offs → tuple_on p off t → tuple_on p' off t).
Proof.
  intros Hco Hold Hnd Hap Hok Hrx Hrm. unfold freeze_page. destruct (fold_result _ _ _) as [s|] eqn:E; rsimpl; [|done].
  apply record_spec in E as (l & [R1 R2 R3 R4 R5 R6 R7 R8]); [|done|done|by constructor|intros off t Ho Ht; destruct (Hok off t Ho Ht) as [H1 H2]; split; [done|by apply honest_unmoved]].
  cbn [pagefrz frozen freeze_required app FreezePageRelfrozenXid FreezePageRelminMxid NoFreezePageRelfrozenXid NoFreezePageRelminMxid] in *. rewrite R3. destruct R2 as (B1 & B2 & B3 & B4).
  destruct (tk_freeze co _ R1) as [K1 K2], (tk_nofreeze co _ R1) as [K3 K4].
  assert (Hsame : ∀ off t t', tuple_on p off t → tuple_on p off t' → t = t') by (intros off t t' (i & Hi & Hi') (j & Hj & Hj'); congruence).
  destruct (freeze_required (pagefrz s) || _) eqn:Hdo.
  - assert (Hl : l ≠ []). { destruct (freeze_required (pagefrz s)) eqn:Hr; [by destruct (R5 eq_refl)|]. cbn [orb] in Hdo. apply andb_true_iff in Hdo as [_ Hdo]. by destruct l. }
    destruct (heap_pre_freeze_checks p l) as [[]|] eqn:Hck; rsimpl; [|done]. destruct (heap_freeze_prepared_tuples p l) as [p1|] eqn:Hex; rsimpl; [|done].
    destruct (0 <? length l)%nat eqn:Hn; [|by destruct l]. intros [= <- <- <- <- <-].
    assert (Hndl : NoDup (map frz_offset l)) by (by eapply sublist_NoDup).
    assert (Hin : ∀ o, o ∈ map frz_offset l → o ∈ offs) by (intros o Ho; by apply (sublist_subseteq _ _ R4)).
    assert (Hapl : apart p (map frz_offset l)) by (intros o o' i i' Ho; apply Hap; auto).
    pose proof (execute_page l p p1 Hndl Hapl Hex) as Hx. split_and!; try done; [|intros off t Ho Ht; destruct (Hx off t Ht) as [_ H]; apply H; auto].
    intros off t Ho Ht. destruct (R8 off Ho) as (t0 & pf & u & frz & tf & pf1 & H1 & H2 & H3 & H4 & (M1 & M2 & _) & _ & H7). assert (t0 = t) as -> by eauto.
    destruct (Hok off t Ho Ht) as [Hh Hs]. exists (heap_execute_freeze_tuple t frz). destruct H3 as [_ _ [T1 T2] T3 _ _ _ T4 T5].
    destruct u.
    + destruct (Hx off t Ht) as [H _]. split; [apply (H (set_offset off frz)); done|].
      assert (Hc : pre_freeze_check t frz = Ok ()) by (by apply (checks_each p l off t (set_offset off frz))).
      destruct (frozen_answers co pf t true frz tf pf1 Hco Hold Hs Hh H2 Hc) as (A1 & A2 & A3). constructor; auto. split; [by eapply xids_above_le|by eapply multis_above_le].
    + rewrite (T4 eq_refl) in *. destruct (Hx off t Ht) as [_ H]. split; [by apply H|]. constructor; auto. split; [by eapply xids_above_le|by eapply multis_above_le].
  - rsimpl. change (0 <? 0)%nat with false. cbv iota. intros [= <- <- <- <- <-]. apply orb_false_iff in Hdo as [Hreq Hdo]. split_and!; try done.
    intros off t Ho Ht. destruct (R8 off Ho) as (t0 & pf & u & frz & tf & pf1 & H1 & H2 & H3 & H4 & (_ & _ & M3 & M4) & H6 & H7). assert (t0 = t) as -> by eauto.
    exists t. split; [done|]. destruct (Hok off t Ho Ht) as [Hh Hs]. destruct (tt_kept _ _ _ _ _ _ _ H3 (H6 Hreq)) as (T1 & T2 & T3). constructor; auto.
    + split; [by eapply xids_above_le|by eapply multis_above_le].
    + destruct (0 <? length l)%nat eqn:Hn; [done|]. intros Haf. assert (Hu : u = false) by (destruct u; [|done]; apply Nat.ltb_ge in Hn; destruct l; [by apply elem_of_nil in H4|cbn in Hn; lia]).
      pose proof (tt_total _ _ _ _ _ _ _ H3 (H7 Haf)) as H. by rewrite (tt_unused _ _ _ _ _ _ _ H3 Hu) in H.
Qed.

(** ** What the tests of freezing say of such a version *)

Lemma left_should_freeze co rx rm af t t' ox om : left_on co rx rm af t t' → in_window (relfrozenxid co) ox → mwindow (relminmxid co) om →
  (heap_tuple_should_freeze t' co ox om).1.1 = false.
Proof.
  intros [H1 _ _ [H2 H3] (H4 & H5 & H6) _] Hox Hom.
  destruct (should_freeze_spec co t' ox om) as [-> _ _]; auto; [by apply honest_unmoved| | |by rewrite H4, H5].
  - eapply Forall_impl; [done|]. by intros x [? _].
  - eapply Forall_impl; [done|]. by intros x [? _].
Qed.

Lemma left_eventually co rx rm t t' : left_on co rx rm true t t' → heap_tuple_needs_eventual_freeze t' = false.
Proof.
  intros [H1 _ _ _ _ H2]. destruct (H2 eq_refl) as [Hx Hm]. unfold heap_tuple_needs_eventual_freeze. apply honest_unmoved in H1.
  unfold xids_of, xmax_xids, multis_of in *. destruct (TransactionIdIsNormal (HeapTupleHeaderGetXmin t')); [done|]. rewrite H1.
  destruct (has_flag (t_infomask t') HEAP_XMAX_IS_MULTI), (MultiXactIdIsValid (t_xmax t')); cbn [andb negb app] in *; try done; by destruct (TransactionIdIsNormal (t_xmax t')).
Qed.

(** * Freezing succeeds on sound versions *)

(** The transaction that deletes, whatever the hint bits say. *)
Definition raw_deleter t : Z := if has_flag (t_infomask t) HEAP_XMAX_IS_MULTI then HeapTupleGetUpdateXid t else t_xmax t.

(** The ids are those of the table, only a MultiXactId with an updater is not marked as lock
    only, and pruning would keep the version. *)
Record sound co t : Prop := {
  so_xmin : TransactionIdIsNormal (HeapTupleHeaderGetXmin t) = true → in_window (relfrozenxid co) (t_xmin t);
  so_xmax : has_flag (t_infomask t) HEAP_XMAX_IS_MULTI = false → t_xmax t = InvalidTransactionId ∨ in_window (relfrozenxid co) (t_xmax t);
  so_multi : has_flag (t_infomask t) HEAP_XMAX_IS_MULTI = true → MultiXactIdIsValid (t_xmax t) = true → HEAP_LOCKED_UPGRADED (t_infomask t) = false →
    mwindow (relminmxid co) (t_xmax t) ∧
    (MultiXactIdPrecedes (t_xmax t) (OldestMxact co) = true → MultiXactIdIsRunning (t_xmax t) (HEAP_XMAX_IS_LOCKED_ONLY (t_infomask t)) = false) ∧
    (HEAP_XMAX_IS_LOCKED_ONLY (t_infomask t) = false → ∃ m, m ∈ members_of t ∧ ISUPDATE_from_mxstatus m.2 = true);
  so_invalid : has_flag (t_infomask t) HEAP_XMAX_INVALID = true → HEAP_XMAX_IS_LOCKED_ONLY (t_infomask t) = false → DidCommit (raw_deleter t) = false;
  so_running : HeapTupleHeaderXminFrozen t = false → TransactionIdIsInProgress (t_xmin t) = true → DidCommit (raw_deleter t) = false;
  so_members : has_flag (t_infomask t) HEAP_XMAX_IS_MULTI = true → NoDup (members_of t);
  so_live : (HeapTupleSatisfiesVacuum t (OldestXmin co)).1 ≠ HEAPTUPLE_DEAD;
}.

Lemma live_status co t : honest t → (HeapTupleSatisfiesVacuum t (OldestXmin co)).1 ≠ HEAPTUPLE_DEAD →
  (vacuum_status t).1 ≠ HEAPTUPLE_DEAD ∧ ∀ d, vacuum_status t = (HEAPTUPLE_RECENTLY_DEAD, d) → TransactionIdPrecedes d (OldestXmin co) = false.
Proof.
  intros Ht. rewrite <- (horizon_spec Hown t Ht). unfold HeapTupleSatisfiesVacuum. destruct (HeapTupleSatisfiesVacuumHorizon t) as [[res after] t1]. cbn [fst].
  destruct (bool_decide (res = HEAPTUPLE_RECENTLY_DEAD)) eqn:E; cbn [fst andb]; [|intros H; split; [done|]; intros d [= -> <-]; by rewrite bool_decide_eq_true_2 in E].
  apply bool_decide_eq_true in E as ->. destruct (TransactionIdPrecedes after (OldestXmin co)) eqn:Hp; [done|]. intros _. split; [done|]. by intros d [= <-].
Qed.

(** A committed deleter is not before the horizon, or the version would have been pruned. *)
Lemma live_deleter co t : honest t → horizon_done co → sound co t → HEAP_XMAX_IS_LOCKED_ONLY (t_infomask t) = false →
  in_window (relfrozenxid co) (raw_deleter t) → TransactionIdPrecedes (raw_deleter t) (OldestXmin co) = true → DidCommit (raw_deleter t) = false.
Proof.
  intros Ht Hold Hso Hl Hw Hp. destruct (DidCommit (raw_deleter t)) eqn:Hc; [exfalso|done]. destruct (live_status co t Ht (so_live co t Hso)) as [Hd Hr].
  destruct (has_flag (t_infomask t) HEAP_XMAX_INVALID) eqn:Hi; [by rewrite (so_invalid co t Hso) in Hc|].
  assert (E : deleter_status t = (HEAPTUPLE_RECENTLY_DEAD, raw_deleter t)).
  { unfold deleter_status, deleter. rewrite Hi, Hl. fold (raw_deleter t). by rewrite (Hold _ Hw Hp), Hc. }
  unfold vacuum_status in *. destruct (HeapTupleHeaderXminFrozen t) eqn:Hf; [by rewrite (Hr _ E) in Hp|].
  destruct (TransactionIdIsInProgress (t_xmin t)) eqn:Hx; [by rewrite (so_running co t Hso) in Hc|]. destruct (DidCommit (t_xmin t)); [by rewrite (Hr _ E) in Hp|done].
Qed.

Lemma live_inserter co t : honest t → horizon_done co → sound co t → HeapTupleHeaderXminFrozen t = false → in_window (relfrozenxid co) (t_xmin t) →
  TransactionIdPrecedes (t_xmin t) (OldestXmin co) = true → DidCommit (t_xmin t) = true.
Proof.
  intros Ht Hold Hso Hf Hw Hp. destruct (live_status co t Ht (so_live co t Hso)) as [Hd _]. unfold vacuum_status in Hd. rewrite Hf, (Hold _ Hw Hp) in Hd.
  by destruct (DidCommit (t_xmin t)).
Qed.

(** The second pass finds no corruption. *)
Lemma second_pass_succeeds co multi ms s : horizon_done co → (∀ m, m ∈ ms → in_window (relfrozenxid co) m.1) → one_updater ms → NoDup ms →
  (∀ m, m ∈ ms → ISUPDATE_from_mxstatus m.2 = true → TransactionIdPrecedes m.1 (OldestXmin co) = true → DidCommit m.1 = false) →
  (TransactionIdIsValid (update_xid s) = true → ∀ m, m ∈ ms → ISUPDATE_from_mxstatus m.2 = false) →
  ∃ s', fold_result (second_pass_member multi (OldestXmin co)) s ms = Ok s'.
Proof.
  intros Hold. revert s. induction ms as [|[x st] ms IH]; intros s Hw H1 Hnd Hc Hu; [by eexists|]. cbn [fold_result second_pass_member].
  apply NoDup_cons in Hnd as [Hnew Hnd]. pose proof (Hw (x, st) ltac:(by left)) as Hx. cbn [fst] in Hx.
  assert (Hrun : TransactionIdIsCurrentTransactionId x || TransactionIdIsInProgress x = true → TransactionIdPrecedes x (OldestXmin co) = false).
  { intros Hr. destruct (TransactionIdPrecedes x (OldestXmin co)) eqn:Hp; [|done]. pose proof (Hold x Hx Hp) as Hi. rewrite (not_current Hown x Hi), Hi in Hr. done. }
  assert (IH' : ∀ s, (TransactionIdIsValid (update_xid s) = true → ∀ m, m ∈ ms → ISUPDATE_from_mxstatus m.2 = false) →
    ∃ s', fold_result (second_pass_member multi (OldestXmin co)) s ms = Ok s').
  { intros s0 Hs0. apply IH; auto; [intros m Hm; apply Hw; by right|intros m m' Hm Hm'; apply H1; by right|intros m Hm; apply Hc; by right]. }
  assert (Hrest : TransactionIdIsValid (update_xid s) = true → ∀ m, m ∈ ms → ISUPDATE_from_mxstatus m.2 = false) by (intros Hv m Hm; apply Hu; [done|by right]).
  destruct (ISUPDATE_from_mxstatus st) eqn:Hst; cbn [negb].
  - destruct (TransactionIdIsValid (update_xid s)) eqn:Hv; [pose proof (Hu eq_refl (x, st) ltac:(by left)); cbn in *; congruence|].
    destruct (_ || DidCommit x) eqn:Hk; rsimpl; [|apply IH'; congruence].
    assert (TransactionIdPrecedes x (OldestXmin co) = false) as ->.
    { apply orb_true_iff in Hk as [Hk|Hk]; [auto|]. destruct (TransactionIdPrecedes x (OldestXmin co)) eqn:Hp; [|done]. pose proof (Hc (x, st) ltac:(by left) Hst Hp). cbn in *. congruence. }
    rsimpl. apply IH'. intros _ m Hm. destruct (ISUPDATE_from_mxstatus m.2) eqn:Hm'; [|done]. exfalso. apply Hnew. rewrite (H1 (x, st) m); try done; [by left|by right].
  - destruct (_ || _) eqn:Hk; rsimpl; [|by apply IH']. rewrite Hrun by done. rsimpl. by apply IH'.
Qed.

Lemma freeze_multi_succeeds co pf t : cutoffs_ok co → horizon_done co → honest t → multi_ok co t → sound co t → has_flag (t_infomask t) HEAP_XMAX_IS_MULTI = true →
  ∃ r, FreezeMultiXactId create (t_xmax t) (t_infomask t) co pf = Ok r.
Proof.
  intros Hco Hold Ht Hmu Hso Hm. unfold FreezeMultiXactId. fold (members_of t). change (MultiXactIdGetUpdateXid (t_xmax t)) with (HeapTupleGetUpdateXid t).
  destruct (MultiXactIdIsValid (t_xmax t)) eqn:Hv, (HEAP_LOCKED_UPGRADED (t_infomask t)) eqn:Hup; cbn [negb orb]; try (by eexists).
  destruct (so_multi co t Hso Hm Hv Hup) as (Hw & Hrun & Hupd).
  assert (Hraw : raw_deleter t = HeapTupleGetUpdateXid t) by (unfold raw_deleter; by rewrite Hm).
  assert (MultiXactIdPrecedes (t_xmax t) (relminmxid co) = false) as ->.
  { assert (mwindow (relminmxid co) (relminmxid co)) by (unfold mwindow, pos; by rewrite Z.sub_diag). rewrite (mprecedes_pos (relminmxid co)) by done.
    unfold pos at 2. rewrite Z.sub_diag. change (0 mod 2 ^ 32) with 0. pose proof (pos_range (relminmxid co) (t_xmax t)). lia. }
  destruct (MultiXactIdPrecedes (t_xmax t) (OldestMxact co)).
  - rewrite Hrun by done. destruct (HEAP_XMAX_IS_LOCKED_ONLY (t_infomask t)) eqn:Hl; [by eexists|].
    destruct (Hupd eq_refl) as (m & Hin & Hu). destruct (update_xid_found co t m Hmu Hin Hu) as [_ E]. pose proof (proj1 (mu_members co t Hmu m Hin)) as Hmw.
    assert (TransactionIdPrecedes (HeapTupleGetUpdateXid t) (relfrozenxid co) = false) as ->.
    { rewrite E, (precedes_pos (relfrozenxid co)); [|done|split; [by apply co_base|unfold pos; by rewrite Z.sub_diag]].
      unfold pos at 2. rewrite Z.sub_diag. change (0 mod 2 ^ 32) with 0. pose proof (pos_range (relfrozenxid co) m.1). lia. }
    destruct (TransactionIdPrecedes (HeapTupleGetUpdateXid t) (OldestXmin co)) eqn:Hp; [|by eexists].
    rewrite <- Hraw, (live_deleter co t); try done; [by eexists|by rewrite Hraw, E|by rewrite Hraw].
  - destruct (_ =? 0)%nat; [by eexists|]. destruct (members_first_pass _ _ _) as [need tracker]. destruct (if negb need then _ else _); cbn [negb]; [|by eexists].
    destruct (second_pass_succeeds co (t_xmax t) (members_of t) (mkSecondPass [] false InvalidTransactionId false)) as [s Hs]; try done.
    + intros m Hin. by apply (mu_members co t Hmu).
    + by apply (mu_updater co t Hmu).
    + by apply (so_members co t Hso).
    + intros m Hin Hu Hp. destruct (update_xid_found co t m Hmu Hin Hu) as [Hl E]. rewrite <- E, <- Hraw. apply (live_deleter co); try done; rewrite Hraw, E; [by apply (mu_members co t Hmu)|done].
    + rewrite Hs. rsimpl. repeat case_match; by eexists.
Qed.

Lemma window_not_before base x : is_xid base → in_window base x → TransactionIdPrecedes x base = false.
Proof.
  intros Hb Hx. rewrite (precedes_pos base); [|done|split; [done|unfold pos; by rewrite Z.sub_diag]].
  unfold pos at 2. rewrite Z.sub_diag. change (0 mod 2 ^ 32) with 0. pose proof (pos_range base x). lia.
Qed.

Lemma prepare_xmax_succeeds co pf t : cutoffs_ok co → horizon_done co → honest t → stamped co t → sound co t →
  ∃ p pf1, prepare_xmax create t co pf = Ok (p, pf1) ∧ (xmax_checks p = 0 ∨ xmax_checks p = HEAP_FREEZE_CHECK_XMAX_ABORTED ∧ DidCommit (t_xmax t) = false).
Proof.
  intros Hco Hold Ht Hst Hso. unfold prepare_xmax. destruct (has_flag (t_infomask t) HEAP_XMAX_IS_MULTI) eqn:Hm.
  - destruct (freeze_multi_succeeds co pf t) as [[[nx fl] pf1] ->]; try done; [by apply (st_multi co t Hst)|]. rsimpl.
    repeat case_match; do 2 eexists; (split; [reflexivity|by left]).
  - destruct (so_xmax co t Hso Hm) as [-> |Hw]; [do 2 eexists; split; [done|by left]|]. rewrite (window_normal _ _ Hw), (window_not_before _ _ (co_base co Hco) Hw).
    do 2 eexists. split; [done|]. cbn [xmax_checks]. destruct (TransactionIdPrecedes (t_xmax t) (OldestXmin co)) eqn:Hp; [|by left].
    destruct (HEAP_XMAX_IS_LOCKED_ONLY (t_infomask t)) eqn:Hl; [by left|]. right. split; [done|].
    assert (E : raw_deleter t = t_xmax t) by (unfold raw_deleter; by rewrite Hm). rewrite <- E. apply (live_deleter co); rewrite ?E; done.
Qed.

Lemma prepare_succeeds co pf t : cutoffs_ok co → horizon_done co → honest t → stamped co t → sound co t →
  ∃ u frz tf pf', heap_prepare_freeze_tuple create t co pf = Ok (u, frz, tf, pf') ∧ pre_freeze_check t frz = Ok ().
Proof.
  intros Hco Hold Ht Hst Hso. destruct (prepare_xmax_succeeds co pf t) as (p & pf1 & Ep & Hck); try done.
  assert (∃ xf fx, prepare_xmin t co = Ok (xf, fx) ∧ (fx = true → DidCommit (t_xmin t) = true)) as (xf & fx & Ex & Hx).
  { unfold prepare_xmin. destruct (TransactionIdIsNormal (HeapTupleHeaderGetXmin t)) eqn:Hn; cbn [negb]; [|by do 2 eexists]. pose proof (so_xmin co t Hso Hn) as Hw.
    assert (E : HeapTupleHeaderGetXmin t = t_xmin t ∧ HeapTupleHeaderXminFrozen t = false) by (unfold HeapTupleHeaderGetXmin in *; by destruct (HeapTupleHeaderXminFrozen t)).
    destruct E as [E Hf]. rewrite E, (window_not_before _ _ (co_base co Hco) Hw). do 2 eexists. split; [done|]. by apply live_inserter. }
  assert (∃ r, heap_prepare_freeze_tuple create t co pf = Ok r) as [[[[u frz] tf] pf'] E].
  { unfold heap_prepare_freeze_tuple, HeapTupleHeaderGetXvac. rewrite (honest_unmoved t Ht). change (TransactionIdIsNormal InvalidTransactionId) with false. cbv iota.
    rewrite Ex. rsimpl. rewrite Ep. rsimpl. by eexists. }
  exists u, frz, tf, pf'. split; [done|]. destruct (prepare_inv co pf t u frz tf pf' (honest_unmoved t Ht) E) as (xf' & fx' & p' & pf1' & E1 & E2 & _ & Eck & _).
  rewrite Ex in E1. injection E1 as <- <-. rewrite Ep in E2. injection E2 as <- <-. unfold pre_freeze_check. rewrite Eck, !has_flag_lor.
  destruct Hck as [-> |[-> ->]], fx; cbn [orb andb]; rewrite ?Hx by done; done.
Qed.

(** A plan that is made for a version and passes its checks. *)
Definition good_plan (p : Page Tuple Sp) frz : Prop := ∃ t, tuple_on p (frz_offset frz) t ∧ pre_freeze_check t frz = Ok ().

Lemma record_succeeds co (p : Page Tuple Sp) offs s0 : cutoffs_ok co → horizon_done co →
  (∀ off, off ∈ offs → ∃ t, tuple_on p off t ∧ honest t ∧ stamped co t ∧ sound co t) → Forall (good_plan p) (frozen s0) →
  ∃ s, fold_result (record_freeze create co p) s0 offs = Ok s ∧ Forall (good_plan p) (frozen s).
Proof.
  intros Hco Hold. revert s0. induction offs as [|off offs IH]; intros s0 Hoffs Hg; cbn [fold_result]; [by exists s0|].
  destruct (Hoffs off) as (t & (id & Hid & Hit) & H1 & H2 & H3); [by left|]. destruct (prepare_succeeds co (pagefrz s0) t) as (u & frz & tf & pf' & Ep & Hck); try done.
  assert (E : record_freeze create co p s0 off = Ok (mkFreezeState pf' (if u then frozen s0 ++ [set_offset off frz] else frozen s0) (if negb tf then false else all_frozen s0))).
  { unfold record_freeze. rewrite Hid. rsimpl. rewrite Hit. rsimpl. rewrite Ep. done. }
  rewrite E. rsimpl. apply IH; [intros o Ho; apply Hoffs; by right|]. cbn [frozen]. destruct u; [|done]. apply Forall_app. split; [done|]. constructor; [|constructor].
  exists t. split; [by exists id|done].
Qed.

Lemma checks_succeed (p : Page Tuple Sp) plans : Forall (good_plan p) plans → heap_pre_freeze_checks p plans = Ok ().
Proof.
  unfold heap_pre_freeze_checks. induction 1 as [|frz plans (t & (id & Hid & Hit) & Hc) _ IH]; [done|]. cbn [fold_result]. rewrite Hid. rsimpl. rewrite Hit. rsimpl. by rewrite Hc.
Qed.

Lemma execute_succeeds (p : Page Tuple Sp) plans : Forall (λ frz, ∃ t, tuple_on p (frz_offset frz) t) plans → ∃ p', heap_freeze_prepared_tuples p plans = Ok p'.
Proof.
  unfold heap_freeze_prepared_tuples. revert p. induction plans as [|frz plans IH]; intros p Hp; cbn [fold_result]; [by eexists|].
  inversion Hp as [|?? (t & id & Hid & Hit) Hp']; subst. rewrite Hid. rsimpl. rewrite Hit. rsimpl. apply IH. eapply Forall_impl; [done|].
  intros frz' (t' & id' & Hid' & Hit'). destruct (decide (lp_off id = lp_off id')) as [E|Hne].
  - eexists _, id'. split; [done|]. pose proof (set_item_same p id (heap_execute_freeze_tuple t frz) t Hit) as H. unfold PageGetItem in *. by rewrite <- E.
  - exists t', id'. split; [done|]. by rewrite set_item_other.
Qed.

Lemma freeze_page_succeeds co opp rx0 rm0 (p : Page Tuple Sp) offs : cutoffs_ok co → horizon_done co →
  (∀ off, off ∈ offs → ∃ t, tuple_on p off t ∧ honest t ∧ stamped co t ∧ sound co t) → ∃ r, freeze_page create co opp rx0 rm0 p offs = Ok r.
Proof.
  intros Hco Hold Hoffs. unfold freeze_page.
  destruct (record_succeeds co p offs (mkFreezeState (mkPageFreeze false rx0 rm0 rx0 rm0) [] true)) as (s & -> & Hg); try done. rsimpl.
  destruct (_ || _); rsimpl; [|by destruct (_ <? _)%nat; eexists]. rewrite checks_succeed by done. rsimpl.
  destruct (execute_succeeds p (frozen s)) as [p' ->]; [eapply Forall_impl; [done|]; intros frz (t & Ht & _); eauto|]. rsimpl. by destruct (_ <? _)%nat; eexists.
Qed.
End freezing.

(** * Properties *)

Section properties.
Context `{X : Xacts} {A Sp : Type} (create : list (Z * Z) → Z) (co : VacuumCutoffs) (opportunistic : bool) (rx0 rm0 : Z).
Context (p p' : Page (@HeapTupleHeaderData A) Sp) (offs : list Z) (rx rm : Z) (af : bool) (n : nat).
Context (Hown : own_xacts) (Hco : cutoffs_ok co) (Hold : horizon_done co) (Hnd : NoDup offs) (Hap : apart p offs).
Context (Hok : ∀ off t, off ∈ offs → tuple_on p off t → honest t ∧ stamped create co t).
Context (Hrx : xid_tracker co rx0) (Hrm : multi_tracker co rm0).
Context (Hfreeze : freeze_page create co opportunistic rx0 rm0 p offs = Ok (p', rx, rm, af, n)).

(** C20. Freezing is invisible: after vacuum has frozen a page, or has decided not to, every
    version that pruning kept is still on it, its hint bits are true, and every MVCC snapshot
    that the horizon covers and every later vacuum answers for it as before, whether its
    inserter was frozen, its xmax removed, replaced by the updater of a MultiXactId or by a new
    MultiXactId of the members still needed; the other items are not touched. *)
Theorem freeze_keeps_answers :
  (∀ off t, off ∈ offs → tuple_on p off t → ∃ t', tuple_on p' off t' ∧ honest t' ∧
     (∀ S, covers co S → (HeapTupleSatisfiesMVCC t' S).1 = (HeapTupleSatisfiesMVCC t S).1) ∧
     (HeapTupleSatisfiesVacuumHorizon t').1 = (HeapTupleSatisfiesVacuumHorizon t).1) ∧
  (∀ off t, off ∉ offs → tuple_on p off t → tuple_on p' off t).
Proof.
  destruct (freeze_page_spec create Hown co opportunistic rx0 rm0 p p' offs rx rm af n) as (_ & _ & H & H'); auto. split; [|done].
  intros off t Ho Ht. destruct (H off t Ho Ht) as (t' & Ht' & [L1 L2 L3 _ _ _]). destruct (Hok off t Ho Ht) as [Hh _].
  exists t'. split_and!; auto; [intros S HS; by rewrite !mvcc_spec, L3|by rewrite !horizon_spec].
Qed.

(** C21. The oldest ids that vacuum reports for a page are safe: no transaction id and no
    MultiXactId left in a version that pruning kept, members of MultiXactIds included, is
    before them, so that the table's relfrozenxid and relminmxid may advance to the oldest ones
    reported for all pages; they are never after the horizon and only move back. *)
Theorem reported_ids_safe :
  (∀ off t, off ∈ offs → tuple_on p off t → ∃ t', tuple_on p' off t' ∧
     Forall (λ x, TransactionIdPrecedes x rx = false) (xids_of t') ∧ Forall (λ m, MultiXactIdPrecedes m rm = false) (multis_of t')) ∧
  TransactionIdPrecedes rx0 rx = false ∧ MultiXactIdPrecedes rm0 rm = false ∧
  TransactionIdPrecedes (OldestXmin co) rx = false ∧ MultiXactIdPrecedes (OldestMxact co) rm = false.
Proof.
  destruct (freeze_page_spec create Hown co opportunistic rx0 rm0 p p' offs rx rm af n) as ([[T1 T2] T3] & [[M1 M2] M3] & H & _); auto.
  destruct Hrx as [R1 _], Hrm as [R2 _]. pose proof (co_oldest co Hco) as Ho. destruct (co_mxacts co Hco) as [Hm _]. split_and!.
  - intros off t Hof Ht. destruct (H off t Hof Ht) as (t' & Ht' & [_ _ _ [L1 L2] _ _]). exists t'. split_and!; [done| |].
    + eapply Forall_impl; [done|]. intros x [Hw Hp]. rewrite (precedes_pos (relfrozenxid co)) by done. lia.
    + eapply Forall_impl; [done|]. intros x [Hw Hp]. rewrite (mprecedes_pos (relminmxid co)) by done. lia.
  - rewrite (precedes_pos (relfrozenxid co)) by done. lia.
  - rewrite (mprecedes_pos (relminmxid co)) by done. lia.
  - rewrite (precedes_pos (relfrozenxid co)) by done. lia.
  - rewrite (mprecedes_pos (relminmxid co)) by done. lia.
Qed.

(** C22. Vacuum meets its limits: after it has worked on a page, no version that pruning kept
    has an id before FreezeLimit or MultiXactCutoff, so that heap_tuple_should_freeze finds
    nothing to do, and if the page is reported as all frozen no version on it will ever need
    freezing again. *)
Theorem limits_are_met : ∀ off t ox om, off ∈ offs → tuple_on p off t → in_window (relfrozenxid co) ox → mwindow (relminmxid co) om →
  ∃ t', tuple_on p' off t' ∧ (heap_tuple_should_freeze t' co ox om).1.1 = false ∧ (af = true → heap_tuple_needs_eventual_freeze t' = false).
Proof.
  destruct (freeze_page_spec create Hown co opportunistic rx0 rm0 p p' offs rx rm af n) as (_ & _ & H & _); auto.
  intros off t ox om Ho Ht Hox Hom. destruct (H off t Ho Ht) as (t' & Ht' & HL). exists t'. split_and!; [done|by eapply left_should_freeze|].
  intros ->. by eapply left_eventually.
Qed.
End properties.

(** Vacuum does not fail on a sound page: if the ids of the versions that pruning kept are
    those of the table, no transaction before the horizon is running and none of the versions is
    dead for it, then preparing the plans raises none of its errors about corrupted ids, the
    checks against the commit log pass, and the plans are executed. *)
Theorem freezing_succeeds `{X : Xacts} {A Sp : Type} (create : list (Z * Z) → Z) co opportunistic rx0 rm0 (p : Page (@HeapTupleHeaderData A) Sp) offs :
  own_xacts → cutoffs_ok co → horizon_done co →
  (∀ off, off ∈ offs → ∃ t, tuple_on p off t ∧ honest t ∧ stamped create co t ∧ sound co t) →
  ∃ p' rx rm af n, freeze_page create co opportunistic rx0 rm0 p offs = Ok (p', rx, rm, af, n).
Proof.
  intros Hown Hco Hold Hoffs. destruct (freeze_page_succeeds create Hown co opportunistic rx0 rm0 p offs Hco Hold Hoffs) as [[[[[p' rx] rm] af] n] E]. eauto 10.
Qed.

(** * Witnesses *)

(** Transactions 650 and 651 are running, the older ones have committed except 630.  MultiXactId
    30 has a finished locker, a running updater and a running locker; the ids from 40 on stand
    for the MultiXactIds made of some of its members. *)
Definition sample_members : list (Z * Z) := [(610, 1); (650, 4); (651, 0)].
Definition sample_create (ms : list (Z * Z)) : Z :=
  40 + (if bool_decide ((610, 1) ∈ ms) then 1 else 0) + (if bool_decide ((650, 4) ∈ ms) then 2 else 0) + (if bool_decide ((651, 0) ∈ ms) then 4 else 0).
Definition sample_xacts : Xacts := {|
  TransactionIdIsCurrentTransactionId x := false;
  TransactionIdIsInProgress x := (x =? 650) || (x =? 651);
  DidCommit x := (2 <=? x) && (x <? 640) && negb (x =? 630);
  SubTransTopmost x := x;
  GetMultiXactIdMembers m b :=
    if m =? 30 then sample_members
    else if m <? 40 then []
    else (if Z.testbit (m - 40) 0 then [(610, 1)] else []) ++ (if Z.testbit (m - 40) 1 then [(650, 4)] else []) ++ (if Z.testbit (m - 40) 2 then [(651, 0)] else []);
  combos := no_combos;
  GetCommitLSN x := 0;
  BufferIsPermanent := true;
  XLogNeedsFlush l := false;
  BufferGetLSNAtomic := 0;
|}.
Definition sample_cutoffs : VacuumCutoffs := mkCutoffs 500 10 650 20 620 15.

(** A version to be frozen whose deleter failed, and one locked and updated. *)
Definition sample_old : @HeapTupleHeaderData Z := mkHeapTuple 600 630 0 (ItemPointerSet 0 1) 0 HEAP_XMIN_COMMITTED 7.
Definition sample_updated : @HeapTupleHeaderData Z := mkHeapTuple 605 30 0 (ItemPointerSet 0 2) 0 (Z.lor HEAP_XMAX_IS_MULTI HEAP_XMAX_EXCL_LOCK) 8.
Definition sample_page : Page (@HeapTupleHeaderData Z) unit :=
  {| pd_flags := 0; pd_lower := 32; pd_upper := 8112; pd_special := 8192; pd_pagesize_version := 8196;
     pd_linp := [mkItemId 8152 LP_NORMAL 40; mkItemId 8112 LP_NORMAL 40]; pd_mem := {[8152 := (40, sample_old); 8112 := (40, sample_updated)]}; pd_sp := None |}.

Lemma sample_own : @own_xacts sample_xacts.
Proof. constructor; done. Qed.

Lemma sample_limits : cutoffs_ok sample_cutoffs.
Proof. constructor; vm_compute; repeat split; done. Qed.

Lemma sample_done : @horizon_done sample_xacts sample_cutoffs.
Proof.
  intros x Hx Hp. rewrite (precedes_pos 500) in Hp by (try done; apply (co_oldest sample_cutoffs sample_limits)). destruct Hx as [Hx Hw].
  cbn [TransactionIdIsInProgress sample_xacts]. destruct (Z.eqb_spec x 650) as [->|]; [by vm_compute in Hp|]. destruct (Z.eqb_spec x 651) as [->|]; [by vm_compute in Hp|done].
Qed.

Lemma sample_creates : @creates sample_xacts Z sample_create sample_cutoffs sample_updated.
Proof.
  intros ms Hne Hms. change (members_of sample_updated) with sample_members in Hms. unfold sample_members in Hms.
  assert (ms ∈ [[(610, 1); (650, 4); (651, 0)]; [(610, 1); (650, 4)]; [(610, 1); (651, 0)]; [(610, 1)]; [(650, 4); (651, 0)]; [(650, 4)]; [(651, 0)]]) as Hin.
  { repeat match goal with H : _ `sublist_of` _ |- _ => inversion H; subst; clear H end; set_solver. }
  repeat (apply elem_of_cons in Hin as [-> |Hin]; [split_and!; [intros b; vm_compute; done|done|done|by vm_compute]|]). by apply elem_of_nil in Hin.
Qed.

Lemma sample_stamped t : t ∈ [sample_old; sample_updated] → @honest sample_xacts Z t ∧ @stamped sample_xacts Z sample_create sample_cutoffs t ∧ @sound sample_xacts Z sample_cutoffs t.
Proof.
  intros [-> |[-> |Hin%elem_of_nil]%elem_of_cons]%elem_of_cons; [| |done].
  - split_and!; constructor; try done; try (by vm_compute). intros _. right. by vm_compute.
  - split_and!.
    + constructor; done.
    + constructor; [done|done|]. intros _. split; [|apply sample_creates].
      constructor; [| |done|done].
      * intros m Hm. by repeat (apply elem_of_cons in Hm as [-> |Hm]; [by vm_compute|]); apply elem_of_nil in Hm.
      * intros m m' Hm Hm'. repeat (apply elem_of_cons in Hm as [-> |Hm]; [repeat (apply elem_of_cons in Hm' as [-> |Hm']; [done|]); by apply elem_of_nil in Hm'|]). by apply elem_of_nil in Hm.
    + constructor; try done; try (by vm_compute); intros _; [|by apply (bool_decide_unpack _); vm_compute].
      intros _ _. split_and!; [done|done|]. intros _. exists (650, 4). split; [by right; left|done].
Qed.

Lemma sample_on off t : off ∈ [1; 2] → tuple_on sample_page off t → t ∈ [sample_old; sample_updated].
Proof.
  intros [-> |[-> |Hin%elem_of_nil]%elem_of_cons]%elem_of_cons (id & Hid & Hit); [| |done]; vm_compute in Hid; injection Hid as <-; vm_compute in Hit; injection Hit as <-; [by left|by right; left].
Qed.

Lemma sample_ok off t : off ∈ [1; 2] → tuple_on sample_page off t → @honest sample_xacts Z t ∧ @stamped sample_xacts Z sample_create sample_cutoffs t.
Proof. intros Ho Ht. destruct (sample_stamped t (sample_on off t Ho Ht)) as (H1 & H2 & _). done. Qed.

Lemma sample_apart : apart sample_page [1; 2].
Proof.
  intros o o' id id' Ho Hid Hid'. unfold PageGetItemId in Hid, Hid'. destruct (Z.ltb_spec o' 1); [done|].
  assert (o' = 1 ∨ o' = 2 ∨ 3 ≤ o') as [-> |[-> |H3]] by lia; [..|rewrite lookup_ge_None_2 in Hid' by (cbn; lia); done];
    apply elem_of_cons in Ho as [-> |[-> |Ho%elem_of_nil]%elem_of_cons]; try done; vm_compute in Hid, Hid'; injection Hid as <-; injection Hid' as <-; done.
Qed.

Lemma sample_nodup : NoDup [1; 2].
Proof. apply (bool_decide_unpack _). vm_compute. done. Qed.

(** Both versions are frozen: the first loses its failed deleter, the MultiXactId of the second
    is replaced by one without the finished locker. *)
Definition sample_frozen : Page (@HeapTupleHeaderData Z) unit :=
  set_item (set_item sample_page (mkItemId 8152 LP_NORMAL 40) (mkHeapTuple 600 0 0 (ItemPointerSet 0 1) 0 (Z.lor HEAP_XMIN_FROZEN HEAP_XMAX_INVALID) 7))
    (mkItemId 8112 LP_NORMAL 40) (mkHeapTuple 605 46 0 (ItemPointerSet 0 2) 0 (Z.lor (Z.lor HEAP_XMIN_FROZEN HEAP_XMAX_IS_MULTI) HEAP_XMAX_EXCL_LOCK) 8).

Example sample_freezes : @freeze_page sample_xacts Z unit sample_create sample_cutoffs false 650 20 sample_page [1; 2] = Ok (sample_frozen, 650, 20, false, 2%nat).
Proof. vm_compute. reflexivity. Qed.

Lemma sample_rx : xid_tracker sample_cutoffs 650.
Proof. by vm_compute. Qed.
Lemma sample_rm : multi_tracker sample_cutoffs 20.
Proof. by vm_compute. Qed.

Lemma freeze_keeps_answers_witness : ∃ t', tuple_on sample_frozen 2 t' ∧ @honest sample_xacts Z t' ∧
  (∀ S, covers sample_cutoffs S → (@HeapTupleSatisfiesMVCC sample_xacts Z t' S).1 = (@HeapTupleSatisfiesMVCC sample_xacts Z sample_updated S).1) ∧
  (@HeapTupleSatisfiesVacuumHorizon sample_xacts Z t').1 = (@HeapTupleSatisfiesVacuumHorizon sample_xacts Z sample_updated).1.
Proof.
  apply (proj1 (@freeze_keeps_answers sample_xacts Z unit sample_create sample_cutoffs false 650 20 sample_page sample_frozen [1; 2] 650 20 false 2%nat
    sample_own sample_limits sample_done sample_nodup sample_apart sample_ok sample_rx sample_rm sample_freezes) 2 sample_updated); [right; left|exists (mkItemId 8112 LP_NORMAL 40); split; reflexivity].
Defined.

Lemma reported_ids_safe_witness : ∃ t', tuple_on sample_frozen 2 t' ∧
  Forall (λ x, TransactionIdPrecedes x 650 = false) (@xids_of sample_xacts Z t') ∧ Forall (λ m, MultiXactIdPrecedes m 20 = false) (multis_of t').
Proof.
  apply (proj1 (@reported_ids_safe sample_xacts Z unit sample_create sample_cutoffs false 650 20 sample_page sample_frozen [1; 2] 650 20 false 2%nat
    sample_own sample_limits sample_done sample_nodup sample_apart sample_ok sample_rx sample_rm sample_freezes) 2 sample_updated); [right; left|exists (mkItemId 8112 LP_NORMAL 40); split; reflexivity].
Defined.

Lemma limits_are_met_witness : ∃ t', tuple_on sample_frozen 1 t' ∧ (@heap_tuple_should_freeze sample_xacts Z t' sample_cutoffs 650 20).1.1 = false ∧
  (false = true → heap_tuple_needs_eventual_freeze t' = false).
Proof.
  apply (@limits_are_met sample_xacts Z unit sample_create sample_cutoffs false 650 20 sample_page sample_frozen [1; 2] 650 20 false 2%nat
    sample_own sample_limits sample_done sample_nodup sample_apart sample_ok sample_rx sample_rm sample_freezes 1 sample_old 650 20);
    [left|exists (mkItemId 8152 LP_NORMAL 40); split; reflexivity|apply sample_rx|apply sample_rm].
Defined.

Lemma sample_all off : off ∈ [1; 2] → ∃ t, tuple_on sample_page off t ∧ @honest sample_xacts Z t ∧ @stamped sample_xacts Z sample_create sample_cutoffs t ∧ @sound sample_xacts Z sample_cutoffs t.
Proof.
  intros [-> |[-> |Hin%elem_of_nil]%elem_of_cons]%elem_of_cons; [exists sample_old|exists sample_updated|done].
  - split; [exists (mkItemId 8152 LP_NORMAL 40); split; reflexivity|]. apply sample_stamped. by left.
  - split; [exists (mkItemId 8112 LP_NORMAL 40); split; reflexivity|]. apply sample_stamped. by right; left.
Qed.

Lemma freezing_succeeds_witness : ∃ p' rx rm af n, @freeze_page sample_xacts Z unit sample_create sample_cutoffs false 650 20 sample_page [1; 2] = Ok (p', rx, rm, af, n).
Proof. exact (@freezing_succeeds sample_xacts Z unit sample_create sample_cutoffs false 650 20 sample_page [1; 2] sample_own sample_limits sample_done sample_all). Defined.
