(* ===== verification/RowLocks.v ===== *)
(** Row locks (heapam.c): who holds a lock on a row version is in its xmax, directly or as a
    MultiXactId, and in bits of its header.  compute_new_xmax_infomask adds a holder. *)

From S2P Require Import Prelude Xid Bufpage Itup Compact PageOps HeapPage HotChain HeapPrune Clog ClogPages Combocid Visibility Freeze Multixact Members Multis.

(** * Lock modes *)

Definition AccessShareLock : Z := 1.
Definition RowShareLock : Z := 2.
Definition ExclusiveLock : Z := 7.
Definition AccessExclusiveLock : Z := 8.

(** The heavyweight lock and the statuses of a locker and of an updater, by lock mode. *)
Definition tupleLockExtraInfo : list (Z * Z * Z) :=
  [ (AccessShareLock, MultiXactStatusForKeyShare, -1);
    (RowShareLock, MultiXactStatusForShare, -1);
    (ExclusiveLock, MultiXactStatusForNoKeyUpdate, MultiXactStatusNoKeyUpdate);
    (AccessExclusiveLock, MultiXactStatusForUpdate, MultiXactStatusUpdate) ].
Definition hwlock (mode : Z) : result Z := e ← some_or "tupleLockExtraInfo" (tupleLockExtraInfo !! Z.to_nat mode); Ok e.1.1.
Definition LOCKMODE_from_mxstatus (status : Z) : result Z := hwlock (TUPLOCK_from_mxstatus status).

Definition get_mxact_status_for_lock (mode : Z) (is_update : bool) : result Z :=
  e ← some_or "tupleLockExtraInfo" (tupleLockExtraInfo !! Z.to_nat mode);
  let retval := if is_update then e.2 else e.1.2 in
  if retval =? -1 then Err (Elog "invalid lock tuple mode %d/%s") else Ok retval.

(** Row i of the table: the modes that conflict with i. *)
Definition LOCKBIT_ON (mode : Z) : Z := Z.shiftl 1 mode.
Definition lock_bits (modes : list Z) : Z := foldr (λ mode, Z.lor (LOCKBIT_ON mode)) 0 modes.
Definition LockConflicts : list Z :=
  [ 0; lock_bits [8]; lock_bits [7; 8]; lock_bits [5; 6; 7; 8]; lock_bits [4; 5; 6; 7; 8]; lock_bits [3; 4; 6; 7; 8];
    lock_bits [3; 4; 5; 6; 7; 8]; lock_bits [2; 3; 4; 5; 6; 7; 8]; lock_bits [1; 2; 3; 4; 5; 6; 7; 8] ].
Definition DoLockModesConflict (mode1 mode2 : Z) : result bool :=
  row ← some_or "conflictTab" (LockConflicts !! Z.to_nat mode1);
  Ok (negb (Z.land row (LOCKBIT_ON mode2) =? 0)).

(** * Bits of a header *)

Definition HEAP_XMAX_IS_SHR_LOCKED (infomask : Z) : bool := Z.land infomask HEAP_LOCK_MASK =? HEAP_XMAX_SHR_LOCK.
Definition HEAP_XMAX_IS_EXCL_LOCKED (infomask : Z) : bool := Z.land infomask HEAP_LOCK_MASK =? HEAP_XMAX_EXCL_LOCK.
Definition HEAP_XMAX_IS_KEYSHR_LOCKED (infomask : Z) : bool := Z.land infomask HEAP_LOCK_MASK =? HEAP_XMAX_KEYSHR_LOCK.

Definition XLHL_XMAX_IS_MULTI : Z := 0x01.
Definition XLHL_XMAX_LOCK_ONLY : Z := 0x02.
Definition XLHL_XMAX_EXCL_LOCK : Z := 0x04.
Definition XLHL_XMAX_KEYSHR_LOCK : Z := 0x08.
Definition XLHL_KEYS_UPDATED : Z := 0x10.

(** The bits of a log record, and back. *)
Definition compute_infobits (infomask infomask2 : Z) : Z :=
  Z.lor (Z.lor (Z.lor (Z.lor
    (if has_flag infomask HEAP_XMAX_IS_MULTI then XLHL_XMAX_IS_MULTI else 0)
    (if has_flag infomask HEAP_XMAX_LOCK_ONLY then XLHL_XMAX_LOCK_ONLY else 0))
    (if has_flag infomask HEAP_XMAX_EXCL_LOCK then XLHL_XMAX_EXCL_LOCK else 0))
    (if has_flag infomask HEAP_XMAX_KEYSHR_LOCK then XLHL_XMAX_KEYSHR_LOCK else 0))
    (if has_flag infomask2 HEAP_KEYS_UPDATED then XLHL_KEYS_UPDATED else 0).

Definition set_if (b : bool) (flag bits : Z) : Z := if b then Z.lor bits flag else bits.
Definition fix_infomask_from_infobits (infobits infomask infomask2 : Z) : Z * Z :=
  let infomask := Z.ldiff infomask (Z.lor (Z.lor (Z.lor HEAP_XMAX_IS_MULTI HEAP_XMAX_LOCK_ONLY) HEAP_XMAX_KEYSHR_LOCK) HEAP_XMAX_EXCL_LOCK) in
  let infomask2 := Z.ldiff infomask2 HEAP_KEYS_UPDATED in
  let infomask := set_if (has_flag infobits XLHL_XMAX_IS_MULTI) HEAP_XMAX_IS_MULTI infomask in
  let infomask := set_if (has_flag infobits XLHL_XMAX_LOCK_ONLY) HEAP_XMAX_LOCK_ONLY infomask in
  let infomask := set_if (has_flag infobits XLHL_XMAX_EXCL_LOCK) HEAP_XMAX_EXCL_LOCK infomask in
  let infomask := set_if (has_flag infobits XLHL_XMAX_KEYSHR_LOCK) HEAP_XMAX_KEYSHR_LOCK infomask in
  (infomask, set_if (has_flag infobits XLHL_KEYS_UPDATED) HEAP_KEYS_UPDATED infomask2).

Definition xmax_infomask_changed (new_infomask old_infomask : Z) : bool :=
  let interesting := Z.lor (Z.lor HEAP_XMAX_IS_MULTI HEAP_XMAX_LOCK_ONLY) HEAP_LOCK_MASK in
  negb (Z.land new_infomask interesting =? Z.land old_infomask interesting).

(** * A new holder *)

(** The state of multixact.c and the cache of the backend. *)
Definition MX : Type := (MultiXactState * Cache)%type.

Section locks.
Context {X : Xacts}.

(** What the tests of members ask, when the members are [ms]. *)
Definition with_members (ms : list (Z * Z)) : Xacts := {|
  TransactionIdIsCurrentTransactionId := TransactionIdIsCurrentTransactionId;
  TransactionIdIsInProgress := TransactionIdIsInProgress;
  DidCommit := DidCommit;
  SubTransTopmost := SubTransTopmost;
  Visibility.GetMultiXactIdMembers := λ _ _, ms;
  combos := combos;
  GetCommitLSN := GetCommitLSN;
  BufferIsPermanent := BufferIsPermanent;
  XLogNeedsFlush := XLogNeedsFlush;
  BufferGetLSNAtomic := BufferGetLSNAtomic;
|}.

(** The members of a MultiXactId; there are none if it is reported as gone. *)
Definition read_members_of (OldestVisible multi : Z) (isLockOnly : bool) (mx : MX) : result (list (Z * Z) * MX) :=
  r ← GetMultiXactIdMembers OldestVisible multi false isLockOnly mx.1 mx.2;
  let '(ms, cache) := (r : option (list (Z * Z)) * Cache) in
  Ok (default [] ms, (mx.1, cache)).

(** No other holder: the new xmax, infomask and infomask2. *)
Definition sole_holder (add_to_xmax mode : Z) (is_update : bool) : result (Z * Z * Z) :=
  if is_update then Ok (add_to_xmax, 0, if mode =? LockTupleExclusive then HEAP_KEYS_UPDATED else 0)
  else if mode =? LockTupleKeyShare then Ok (add_to_xmax, Z.lor HEAP_XMAX_LOCK_ONLY HEAP_XMAX_KEYSHR_LOCK, 0)
  else if mode =? LockTupleShare then Ok (add_to_xmax, Z.lor HEAP_XMAX_LOCK_ONLY HEAP_XMAX_SHR_LOCK, 0)
  else if mode =? LockTupleNoKeyExclusive then Ok (add_to_xmax, Z.lor HEAP_XMAX_LOCK_ONLY HEAP_XMAX_EXCL_LOCK, 0)
  else if mode =? LockTupleExclusive then Ok (add_to_xmax, Z.lor HEAP_XMAX_LOCK_ONLY HEAP_XMAX_EXCL_LOCK, HEAP_KEYS_UPDATED)
  else Err (Elog "invalid lock mode").

(** A MultiXactId as the new xmax. *)
Definition multi_holders (r : result (Z * MultiXactState * Cache)) (OldestVisible : Z) : result (Z * Z * Z * MX) :=
  r ← r;
  let '(new_xmax, s, cache) := (r : Z * MultiXactState * Cache) in
  r ← read_members_of OldestVisible new_xmax false (s, cache);
  let '(ms, mx) := (r : list (Z * Z) * MX) in
  let '(bits, bits2) := @GetMultiXactIdHintBits (with_members ms) new_xmax in
  Ok (new_xmax, bits, bits2, mx).

(** The status of a single xid as it is in the bits; [None] if only LOCK_ONLY is set. *)
Definition xmax_status (infomask infomask2 : Z) : option Z :=
  if HEAP_XMAX_IS_LOCKED_ONLY infomask then
    if HEAP_XMAX_IS_KEYSHR_LOCKED infomask then Some MultiXactStatusForKeyShare
    else if HEAP_XMAX_IS_SHR_LOCKED infomask then Some MultiXactStatusForShare
    else if HEAP_XMAX_IS_EXCL_LOCKED infomask then
      Some (if has_flag infomask2 HEAP_KEYS_UPDATED then MultiXactStatusForUpdate else MultiXactStatusForNoKeyUpdate)
    else None
  else Some (if has_flag infomask2 HEAP_KEYS_UPDATED then MultiXactStatusUpdate else MultiXactStatusNoKeyUpdate).
Definition update_status (infomask2 : Z) : Z := if has_flag infomask2 HEAP_KEYS_UPDATED then MultiXactStatusUpdate else MultiXactStatusNoKeyUpdate.

(** Going back to the start with HEAP_XMAX_INVALID set is [sole_holder]. *)
Definition compute_new_xmax_infomask (OldestVisible xmax old_infomask old_infomask2 add_to_xmax mode : Z) (is_update : bool) (mx : MX) : result (Z * Z * Z * MX) :=
  let sole mode mx := r ← sole_holder add_to_xmax mode is_update; Ok (r, mx) in
  if has_flag old_infomask HEAP_XMAX_INVALID then sole mode mx
  else if has_flag old_infomask HEAP_XMAX_IS_MULTI then
    if HEAP_LOCKED_UPGRADED old_infomask then sole mode mx
    else
      let locked_only := HEAP_XMAX_IS_LOCKED_ONLY old_infomask in
      r ← read_members_of OldestVisible xmax locked_only mx;
      let '(ms, mx) := (r : list (Z * Z) * MX) in
      let running := @MultiXactIdIsRunning (with_members ms) xmax locked_only in
      r ← (if negb running then
             if locked_only then Ok (true, mx)
             else
               r ← read_members_of OldestVisible xmax false mx;
               let '(ms, mx) := (r : list (Z * Z) * MX) in
               Ok (negb (DidCommit (@MultiXactIdGetUpdateXid (with_members ms) xmax)), mx)
           else Ok (false, mx));
      let '(gone, mx) := (r : bool * MX) in
      if gone then sole mode mx
      else
        new_status ← get_mxact_status_for_lock mode is_update;
        multi_holders (MultiXactIdExpand false true TransactionIdIsInProgress DidCommit OldestVisible xmax add_to_xmax new_status mx.1 mx.2) OldestVisible
  else if has_flag old_infomask HEAP_XMAX_COMMITTED then
    new_status ← get_mxact_status_for_lock mode is_update;
    multi_holders (MultiXactIdCreate false true xmax (update_status old_infomask2) add_to_xmax new_status mx.1 mx.2) OldestVisible
  else if TransactionIdIsInProgress xmax then
    match xmax_status old_infomask old_infomask2 with
    | None => sole mode mx
    | Some old_status =>
        let old_mode := TUPLOCK_from_mxstatus old_status in
        if xmax =? add_to_xmax then sole (if mode <? old_mode then old_mode else mode) mx
        else
          new_status ← get_mxact_status_for_lock mode is_update;
          multi_holders (MultiXactIdCreate false true xmax old_status add_to_xmax new_status mx.1 mx.2) OldestVisible
    end
  else if negb (HEAP_XMAX_IS_LOCKED_ONLY old_infomask) && DidCommit xmax then
    new_status ← get_mxact_status_for_lock mode is_update;
    multi_holders (MultiXactIdCreate false true xmax (update_status old_infomask2) add_to_xmax new_status mx.1 mx.2) OldestVisible
  else sole mode mx.
End locks.
