(* ===== verification/RowLocking.v ===== *)
(** What adding a holder to a row version does: nobody loses a lock, and no committed update is
    forgotten, whichever way the holders are stored. *)

From S2P Require Import Prelude Xid Bufpage Itup Compact PageOps HeapPage HotChain HeapPrune Clog ClogPages Combocid Visibility Freeze Multixact Members Multis RowLocks.

Section locking.
Context {X : Xacts}.
Implicit Types (T : gmap Z (list (Z * Z))) (ms : list (Z * Z)).

(** * Who holds a version *)

(** A holder: running, or an updater that committed. *)
Abbreviation alive := (counts TransactionIdIsInProgress DidCommit).

(** The holders of a version with these fields, members being in the table [T]. *)
Definition holders T (xmax infomask infomask2 : Z) : list (Z * Z) :=
  if has_flag infomask HEAP_XMAX_INVALID then []
  else if has_flag infomask HEAP_XMAX_IS_MULTI then
    if HEAP_LOCKED_UPGRADED infomask then [] else filter alive (default [] (T !! xmax))
  else match xmax_status infomask infomask2 with
       | Some status => filter alive [(xmax, status)]
       | None => []
       end.

(** Sound fields: the bits of a MultiXactId agree with its members, and HEAP_XMAX_COMMITTED is
    only set for a single updater that has committed. *)
Record header_ok T (xmax infomask infomask2 : Z) : Prop := {
  ho_multi : has_flag infomask HEAP_XMAX_INVALID = false → has_flag infomask HEAP_XMAX_IS_MULTI = true → HEAP_LOCKED_UPGRADED infomask = false →
    id_ok xmax ∧ ∃ ms, T !! xmax = Some ms ∧ (HEAP_XMAX_IS_LOCKED_ONLY infomask = true ↔ Forall (λ m, m.2 ≤ MultiXactStatusForUpdate) ms);
  ho_xid : has_flag infomask HEAP_XMAX_INVALID = false → has_flag infomask HEAP_XMAX_IS_MULTI = false → TransactionIdIsValid xmax = true;
  ho_committed : has_flag infomask HEAP_XMAX_INVALID = false → has_flag infomask HEAP_XMAX_COMMITTED = true →
    HEAP_XMAX_IS_LOCKED_ONLY infomask = false ∧ DidCommit xmax = true;
}.

(** Sound tables: one updater at most, and only the statuses there are. *)
Definition table_ok T : Prop := map_Forall (λ _ ms, has_two_updaters ms = false ∧ Forall (λ m, 0 ≤ m.2 ≤ MultiXactStatusUpdate) ms) T.

(** ** Bits of a MultiXactId *)

Definition strength ms (start : Z) : Z := foldl (λ strongest m, Z.max strongest (TUPLOCK_from_mxstatus m.2)) start ms.

Lemma tuplock_modes status : 0 ≤ TUPLOCK_from_mxstatus status ≤ 3.
Proof. unfold TUPLOCK_from_mxstatus. destruct (Z.to_nat status) as [|[|[|[|[|[|[|n]]]]]]]; by vm_compute. Qed.

Lemma strength_range ms : ∀ start, 0 ≤ start ≤ 3 → 0 ≤ strength ms start ≤ 3.
Proof. induction ms as [|m ms IH]; intros start Hs; unfold strength in *; cbn [foldl]; [done|]. apply IH. pose proof (tuplock_modes m.2). lia. Qed.

Lemma hint_bits ms multi bits bits2 : @GetMultiXactIdHintBits (with_members ms) multi = (bits, bits2) → Forall (λ m, 0 ≤ m.2 ≤ MultiXactStatusUpdate) ms →
  has_flag bits HEAP_XMAX_INVALID = false ∧ has_flag bits HEAP_XMAX_IS_MULTI = true ∧ HEAP_LOCKED_UPGRADED bits = false ∧ has_flag bits HEAP_XMAX_COMMITTED = false ∧
  (HEAP_XMAX_IS_LOCKED_ONLY bits = true ↔ Forall (λ m, m.2 ≤ MultiXactStatusForUpdate) ms).
Proof.
  unfold GetMultiXactIdHintBits. cbn [Visibility.GetMultiXactIdMembers with_members]. fold (strength ms LockTupleKeyShare).
  pose proof (strength_range ms LockTupleKeyShare ltac:(done)) as Hs. set (st := strength ms LockTupleKeyShare) in *. clearbody st.
  set (upd := existsb _ ms). intros [= <- _] Hst.
  assert (Hu : upd = false ↔ Forall (λ m, m.2 ≤ MultiXactStatusForUpdate) ms).
  { unfold upd. clear upd Hs. unfold MultiXactStatusUpdate, MultiXactStatusForUpdate, MultiXactStatusNoKeyUpdate in *.
    induction Hst as [|m ms Hm Hms IH]; cbn [existsb]; [done|]. rewrite orb_false_iff, IH, Forall_cons. destruct (Z.eqb_spec m.2 4), (Z.eqb_spec m.2 5); cbn [orb]; split; intros [? ?]; (split; [lia||done|done]). }
  assert (Hc : st = 0 ∨ st = 1 ∨ st = 2 ∨ st = 3) by lia. clearbody upd. rewrite <- Hu.
  destruct Hc as [->|[->|[->| ->]]]; destruct upd; split_and!; try (by vm_compute); split; intros H; (done || by vm_compute in H).
Qed.

(** * The table through the calls *)

Lemma updated_updated b s c s' c' sys : updated b s' c' (updated b s c sys) = updated b s' c' sys.
Proof. unfold updated. cbn. by rewrite insert_insert_eq. Qed.

Lemma cache_of_updated b s c sys : cache_of (updated b s c sys) b = c.
Proof. unfold cache_of, updated. cbn. by rewrite lookup_insert_eq. Qed.

Section table.
Context (j0 lo : Z) (b : nat).

Lemma use_cache A hist sys T c : system_ok j0 lo A hist sys T → cache_ok j0 hist c → system_ok j0 lo A hist (updated b (shared sys) c sys) T.
Proof. intros [Hh Hc HT] Hc'. constructor; [done|by apply updated_cache|done]. Qed.

Lemma table_id A hist sys T multi ms : system_ok j0 lo A hist sys T → T !! multi = Some ms → id_ok multi.
Proof. intros [_ _ HT] H. apply HT in H as (k & a & _ & ->). pose proof (mid_range (j0 + Z.of_nat k)). unfold id_ok. lia. Qed.

Lemma read_ok A hist sys T ov multi ms r : system_ok j0 lo A hist sys T → T !! multi = Some ms →
  read_members_of ov multi false (shared sys, cache_of sys b) = Ok r → ∃ c, r = (ms, (shared sys, c)) ∧ cache_ok j0 hist c.
Proof.
  intros Hs HT. pose proof (ask_table j0 lo A hist sys T b ov multi Hs (table_id _ _ _ _ _ _ Hs HT)) as Ha. rewrite HT in Ha. destruct Ha as (c & E & Hc).
  unfold read_members_of. cbn [fst snd]. rewrite E. rsimpl. intros [= <-]. by exists c.
Qed.

(** A MultiXactId that only locks can be reported as gone. *)
Lemma read_lock_only A hist sys T ov multi ms r : system_ok j0 lo A hist sys T → T !! multi = Some ms →
  (MultiXactIdPrecedes multi ov = true → Forall (λ m, TransactionIdIsInProgress m.1 = false) ms) →
  read_members_of ov multi true (shared sys, cache_of sys b) = Ok r →
  ∃ ms1 c, r = (ms1, (shared sys, c)) ∧ cache_ok j0 hist c ∧ (ms1 = ms ∨ ms1 = [] ∧ Forall (λ m, TransactionIdIsInProgress m.1 = false) ms).
Proof.
  intros Hs HT Hgone. pose proof (ask_table j0 lo A hist sys T b ov multi Hs (table_id _ _ _ _ _ _ Hs HT)) as Ha. rewrite HT in Ha. destruct Ha as (c & E & Hc).
  unfold read_members_of, GetMultiXactIdMembers in *. cbn [fst snd]. destruct (negb (MultiXactIdIsValid multi) || false); [done|].
  destruct (mXactCacheGetById multi (cache_of sys b)) as [[ms'|] c0] eqn:Eg.
  - injection E as -> ->. rsimpl. intros [= <-]. exists ms, c. split_and!; [done|done|by left].
  - cbn [andb] in *. destruct (MultiXactIdPrecedes multi ov) eqn:Hp; [|rewrite E; rsimpl; intros [= <-]; exists ms, c; split_and!; [done|done|by left]].
    rsimpl. intros [= <-]. exists [], c0. split_and!; [done| |right; auto]. rewrite (get_by_id_None _ _ _ Eg). apply (so_caches _ _ _ _ _ _ Hs).
Qed.

Lemma read_total A hist sys T ov multi ms isLockOnly : system_ok j0 lo A hist sys T → T !! multi = Some ms → ∃ r, read_members_of ov multi isLockOnly (shared sys, cache_of sys b) = Ok r.
Proof.
  intros Hs HT. pose proof (ask_table j0 lo A hist sys T b ov multi Hs (table_id _ _ _ _ _ _ Hs HT)) as Ha. rewrite HT in Ha. destruct Ha as (c & E & Hc).
  unfold read_members_of, GetMultiXactIdMembers in *. cbn [fst snd]. destruct (negb (MultiXactIdIsValid multi) || false); [done|].
  destruct (mXactCacheGetById multi (cache_of sys b)) as [[ms'|] c0]; [rsimpl; eauto|]. cbn [andb] in E. destruct (isLockOnly && MultiXactIdPrecedes multi ov); [rsimpl; eauto|]. rewrite E. rsimpl. eauto.
Qed.

Definition statuses_ok ms : Prop := Forall (λ m, 0 ≤ m.2 ≤ MultiXactStatusUpdate) ms.

Lemma pair_ok x1 x2 st1 st2 : TransactionIdIsValid x1 = true → TransactionIdIsValid x2 = true → 0 ≤ st1 ≤ MultiXactStatusUpdate → 0 ≤ st2 ≤ MultiXactStatusUpdate →
  set_ok [(x1, st1); (x2, st2)] ∧ statuses_ok [(x1, st1); (x2, st2)].
Proof.
  unfold set_ok, statuses_ok, MultiXactStatusUpdate. intros H1 H2 H3 H4. split.
  - split; [done|]. split; [|by vm_compute]. repeat constructor; cbn; (done || lia).
  - repeat constructor; cbn; lia.
Qed.

(** What is left of a MultiXactId, and one more, is a set of members. *)
Lemma expansion_ok A hist sys T p c xmax ms add st : system_ok j0 lo A hist sys T → T !! xmax = Some ms → member_ok (add, st) → sizeof_MultiXactMember * (zlen ms + 1) ≤ MaxAllocSize →
  set_ok (filter (counts p c) ms ++ [(add, st)]).
Proof.
  intros Hs HT Hm Hlen. apply (so_table _ _ _ _ _ _ Hs) in HT as (k & a & Hk & _). destruct (en_members _ _ _ _ _ _ _ (h_entry _ _ _ _ _ (so_holds _ _ _ _ _ _ Hs) k a ms Hk)) as (_ & Hf & _ & _). split_and!.
  - by destruct (filter (counts p c) ms).
  - apply Forall_app. split; [by apply Forall_filter|by constructor].
  - pose proof (length_filter (counts p c) ms). unfold zlen, MaxAllocSize, sizeof_MultiXactMember in *. rewrite length_app. cbn [length]. lia.
Qed.

Lemma two_updaters_filter p c ms : has_two_updaters ms = false → has_two_updaters (filter (counts p c) ms) = false.
Proof.
  unfold has_two_updaters. intros H. apply Nat.ltb_ge in H. apply Nat.ltb_ge. etrans; [|exact H]. clear H. induction ms as [|m ms IH]; [done|]. rewrite filter_cons. destruct (decide _); cbn [List.filter]; destruct (_ <? _); cbn [length]; lia.
Qed.

(** What the table can gain: one id, the next one. *)
Record grown (hist : History) T (hist' : History) T' : Prop := {
  gr_sub : T ⊆ T';
  gr_count : zlen hist ≤ zlen hist' ≤ zlen hist + 1;
  gr_new : ∀ multi ms, T' !! multi = Some ms → T !! multi = Some ms ∨ multi = mid (j0 + zlen hist) ∧ zlen hist' = zlen hist + 1;
}.

Lemma grown_same hist T : grown hist T hist T.
Proof. constructor; [done|lia|by left]. Qed.

Lemma created_ok A hist sys T c0 ms multi s c : system_ok j0 lo A hist sys T → table_ok T → cache_ok j0 hist c0 → set_ok ms → statuses_ok ms →
  MultiXactIdCreateFromMembers false true ms (shared sys) c0 = Ok (multi, s, c) →
  ∃ A' hist' T', system_ok j0 lo A' hist' (updated b s c sys) T' ∧ T' !! multi = Some (sort_members ms) ∧ grown hist T hist' T' ∧ table_ok T'.
Proof.
  intros [Hh Hc HT] Ht Hc0 Hok Hst E. destruct (create_cases (shared sys) j0 lo A hist Hh c0 Hc0 ms Hok) as [(c1 & k & a & E' & Hk & _ & Hc')|[(c1 & s' & Hu & _ & E' & Hh' & Hc')|(_ & e & E')]]; rewrite E' in E; [| |done]; injection E as <- <- <-.
  - exists A, hist, T. split_and!; [constructor; [done|by apply updated_cache|done]|apply HT; eauto|apply grown_same|done].
  - pose proof (h_count _ _ _ _ _ Hh) as Hn. pose proof (represents_fresh j0 hist T HT ltac:(lia)) as Hf. eexists _, _, _. split_and!; [constructor; [done| |by apply represents_snoc; [|lia]]|by rewrite lookup_insert_eq| |].
    + apply updated_cache; [|done]. intros b'. by apply cache_ok_grow.
    + assert (El : zlen (hist ++ [(adv A, sort_members ms)]) = zlen hist + 1) by (unfold zlen; rewrite length_app; cbn [length]; lia).
      constructor; [by apply insert_subseteq|lia|]. intros multi' ms' [[<- _]|[_ H]]%lookup_insert_Some; [right; split; [done|lia]|by left].
    + apply map_Forall_insert_2; [|done]. by rewrite two_updaters_sort, sort_members_perm.
Qed.

Lemma expanded_ok A hist sys T p c ov xmax ms add st multi s cache : system_ok j0 lo A hist sys T → table_ok T → T !! xmax = Some ms → member_ok (add, st) → 0 ≤ st ≤ MultiXactStatusUpdate →
  p add = true → MultiXactIdExpand false true p c ov xmax add st (shared sys) (cache_of sys b) = Ok (multi, s, cache) →
  ∃ A' hist' T' ms', system_ok j0 lo A' hist' (updated b s cache sys) T' ∧ T' !! multi = Some ms' ∧ grown hist T hist' T' ∧ table_ok T' ∧ (∀ m, counts p c m → m ∈ ms' ↔ m ∈ ms ∨ m = (add, st)).
Proof.
  intros Hs Ht HT Hm Hst Hrun. pose proof (ask_table j0 lo A hist sys T b ov xmax Hs (table_id _ _ _ _ _ _ Hs HT)) as Ha. rewrite HT in Ha. destruct Ha as (c0 & E0 & Hc0).
  unfold MultiXactIdExpand. rewrite E0. rsimpl. destruct (existsb _ ms) eqn:Hx.
  { intros [= <- <- <-]. apply member_present in Hx. exists A, hist, T, ms. split_and!; [by apply use_cache|done|apply grown_same|done|]. intros m _. split; [by left|by intros [?| ->]]. }
  destruct (Z.ltb_spec MaxAllocSize (sizeof_MultiXactMember * (zlen ms + 1))) as [|Hlen]; [done|]. rewrite kept_members. intros E.
  destruct (Ht xmax ms HT) as [_ Hst'].
  destruct (created_ok A hist sys T c0 (filter (counts p c) ms ++ [(add, st)]) multi s cache Hs Ht Hc0) as (A' & hist' & T' & Hs' & HT' & Hsub & Ht'); [by eapply expansion_ok| |done|].
  - apply Forall_app. split; [by apply Forall_filter|by constructor].
  - exists A', hist', T', (sort_members (filter (counts p c) ms ++ [(add, st)])). split_and!; [done|done|done|done|].
    intros m Hcm. rewrite sort_members_perm, elem_of_app, list_elem_of_filter, list_elem_of_singleton. tauto.
Qed.
End table.

(** * Adding a holder *)

(** What it means that [add] has got a lock of [mode], and the others keep theirs. *)
Record added T xmax im im2 (add mode : Z) (is_update : bool) T' xmax' im' im2' : Prop := {
  ad_others : ∀ m, m ∈ holders T xmax im im2 → m.1 ≠ add → m ∈ holders T' xmax' im' im2';
  ad_only : ∀ m, m ∈ holders T' xmax' im' im2' → m ∈ holders T xmax im im2 ∨
    m.1 = add ∧ (TUPLOCK_from_mxstatus m.2 = mode ∨ ∃ st0, (add, st0) ∈ holders T xmax im im2 ∧ TUPLOCK_from_mxstatus m.2 = TUPLOCK_from_mxstatus st0);
  ad_new : ∃ st, (add, st) ∈ holders T' xmax' im' im2' ∧ mode ≤ TUPLOCK_from_mxstatus st ∧ (is_update = true → MultiXactStatusForUpdate < st);
  ad_own : ∀ st0, (add, st0) ∈ holders T xmax im im2 → ∃ st, (add, st) ∈ holders T' xmax' im' im2' ∧ TUPLOCK_from_mxstatus st0 ≤ TUPLOCK_from_mxstatus st;
}.

Lemma mode_cases mode : 0 ≤ mode ≤ 3 → mode = 0 ∨ mode = 1 ∨ mode = 2 ∨ mode = 3.
Proof. lia. Qed.

Lemma status_for_lock mode is_update st : 0 ≤ mode ≤ 3 → get_mxact_status_for_lock mode is_update = Ok st →
  TUPLOCK_from_mxstatus st = mode ∧ 0 ≤ st ≤ MultiXactStatusUpdate ∧ (is_update = true → MultiXactStatusForUpdate < st).
Proof.
  intros Hm E. destruct (mode_cases mode Hm) as [->|[->|[->| ->]]]; destruct is_update; vm_compute in E; try discriminate; injection E as <-; by vm_compute.
Qed.

Section adding.
Context (add : Z) (Hrun : TransactionIdIsInProgress add = true) (Hvalid : TransactionIdIsValid add = true).

Lemma alive_add st : alive (add, st).
Proof using Hrun. by left. Qed.

Lemma filter_alive_one m : alive m → filter alive [m] = [m].
Proof. intros H. rewrite filter_cons, decide_True by done. done. Qed.

(** The only holder. *)
Lemma sole_spec T mode is_update x im im2 : 0 ≤ mode ≤ 3 → (is_update = true → 2 ≤ mode) → sole_holder add mode is_update = Ok (x, im, im2) →
  header_ok T x im im2 ∧ ∃ st, holders T x im im2 = [(add, st)] ∧ TUPLOCK_from_mxstatus st = mode ∧ (is_update = true → MultiXactStatusForUpdate < st).
Proof using Hrun Hvalid.
  intros Hm Hu E. assert (Hf : ∀ st, filter alive [(add, st)] = [(add, st)]) by (intros st; apply filter_alive_one, alive_add).
  destruct (mode_cases mode Hm) as [->|[->|[->| ->]]]; destruct is_update; try (exfalso; specialize (Hu eq_refl); lia); cbn in E; injection E as <- <- <-;
    (split; [constructor; done|eexists; split_and!; [apply Hf|done|done]]).
Qed.

(** Nobody else holds the version. *)
Lemma sole_added T xmax im im2 mode mode' is_update x' im' im2' : 0 ≤ mode ≤ mode' → mode' ≤ 3 → (is_update = true → 2 ≤ mode) → sole_holder add mode' is_update = Ok (x', im', im2') →
  (∀ m, m ∈ holders T xmax im im2 → m.1 = add ∧ TUPLOCK_from_mxstatus m.2 ≤ mode') → (mode' = mode ∨ ∃ st0, (add, st0) ∈ holders T xmax im im2 ∧ mode' = TUPLOCK_from_mxstatus st0) →
  header_ok T x' im' im2' ∧ added T xmax im im2 add mode is_update T x' im' im2'.
Proof using Hrun Hvalid.
  intros Hm Hm' Hu E Hold Hwhich. destruct (sole_spec T mode' is_update x' im' im2' ltac:(lia) ltac:(intros H; specialize (Hu H); lia) E) as [Hh (st & Eh & Es & Hs)]. split; [done|]. constructor; rewrite ?Eh.
  - intros m Hin Hne. by destruct (Hold m Hin).
  - intros m ->%list_elem_of_singleton. right. cbn [fst snd]. by rewrite Es.
  - exists st. split_and!; [by apply list_elem_of_singleton|lia|done].
  - intros st0 Hin. exists st. split; [by apply list_elem_of_singleton|]. destruct (Hold _ Hin) as [_ H]. cbn [snd] in H. lia.
Qed.

(** The holders are the members of a new MultiXactId. *)
Lemma multi_added T xmax im im2 mode is_update st T' ms' x' bits bits2 : (∀ m, m ∈ holders T xmax im im2 → alive m) → 0 ≤ mode ≤ 3 → get_mxact_status_for_lock mode is_update = Ok st →
  id_ok x' → T' !! x' = Some ms' → table_ok T' → @GetMultiXactIdHintBits (with_members ms') x' = (bits, bits2) →
  (∀ m, alive m → m ∈ ms' ↔ m ∈ holders T xmax im im2 ∨ m = (add, st)) →
  header_ok T' x' bits bits2 ∧ added T xmax im im2 add mode is_update T' x' bits bits2.
Proof using Hrun.
  intros Hal Hmode Est Hid HT' Ht' Eb Hms. destruct (Ht' x' ms' HT') as [_ Hst]. destruct (hint_bits ms' x' bits bits2 Eb Hst) as (B1 & B2 & B3 & B4 & B5).
  destruct (status_for_lock mode is_update st Hmode Est) as (S1 & S2 & S3).
  assert (Hin : ∀ m, m ∈ holders T' x' bits bits2 ↔ m ∈ holders T xmax im im2 ∨ m = (add, st)).
  { intros m. unfold holders at 1. rewrite B1, B2, B3, HT'. cbn [default]. rewrite list_elem_of_filter. split; [intros [H1 H2]; by apply Hms|].
    intros H. assert (alive m) by (destruct H as [H| ->]; [by apply Hal|apply alive_add]). split; [done|by apply Hms]. }
  split.
  - constructor; [intros _ _ _; split; [done|by exists ms']|congruence|congruence].
  - constructor.
    + intros m H _. apply Hin. by left.
    + intros m [H| ->]%Hin; [by left|right]. split; [done|by left].
    + exists st. split_and!; [apply Hin; by right|lia|done].
    + intros st0 H. exists st0. split; [apply Hin; by left|done].
Qed.

Lemma holders_alive T xmax im im2 m : m ∈ holders T xmax im im2 → alive m.
Proof.
  unfold holders. destruct (has_flag im HEAP_XMAX_INVALID); [by intros ?%not_elem_of_nil|]. destruct (has_flag im HEAP_XMAX_IS_MULTI).
  - destruct (HEAP_LOCKED_UPGRADED im); [by intros ?%not_elem_of_nil|]. by intros [? _]%list_elem_of_filter.
  - destruct (xmax_status im im2); [by intros [? _]%list_elem_of_filter|by intros ?%not_elem_of_nil].
Qed.
End adding.

Section compute.
Context (j0 lo A : Z) (hist : History) (sys : System) (T : gmap Z (list (Z * Z))) (b : nat) (ov xmax im im2 add mode : Z) (is_update : bool).
Context (Hs : system_ok j0 lo A hist sys T) (Ht : table_ok T) (Hh : header_ok T xmax im im2).
Context (Hrun : TransactionIdIsInProgress add = true) (Hvalid : TransactionIdIsValid add = true).
Context (Hmode : 0 ≤ mode ≤ 3) (Hupd : is_update = true → 2 ≤ mode).
Context (Hgone : ∀ ms, T !! xmax = Some ms → MultiXactIdPrecedes xmax ov = true → Forall (λ m, TransactionIdIsInProgress m.1 = false) ms).

(** What is to be shown of a result. *)
Definition good (r : Z * Z * Z * MX) : Prop :=
  let '(x', im', im2', mx) := r in
  ∃ A' hist' T', system_ok j0 lo A' hist' (updated b mx.1 mx.2 sys) T' ∧ grown j0 hist T hist' T' ∧ table_ok T' ∧ header_ok T' x' im' im2' ∧ added T xmax im im2 add mode is_update T' x' im' im2'.

Lemma good_sole c mode' r : cache_ok j0 hist c → mode ≤ mode' ≤ 3 → (∀ m, m ∈ holders T xmax im im2 → m.1 = add ∧ TUPLOCK_from_mxstatus m.2 ≤ mode') →
  (mode' = mode ∨ ∃ st0, (add, st0) ∈ holders T xmax im im2 ∧ mode' = TUPLOCK_from_mxstatus st0) → (r ← sole_holder add mode' is_update; Ok (r, (shared sys, c))) = Ok r → good r.
Proof using Hs Ht Hrun Hvalid Hmode Hupd.
  intros Hc Hm Hold Hwhich. destruct (sole_holder add mode' is_update) as [[[x' im'] im2']|] eqn:E; rsimpl; [|done]. intros [= <-].
  destruct (sole_added add Hrun Hvalid T xmax im im2 mode mode' is_update x' im' im2' ltac:(lia) ltac:(lia) Hupd E Hold Hwhich) as [H1 H2]. exists A, hist, T. split_and!; [by apply use_cache|apply grown_same|done|done|done].
Qed.

Lemma good_multi A' hist' T' x' s c ms' st r : system_ok j0 lo A' hist' (updated b s c sys) T' → T' !! x' = Some ms' → grown j0 hist T hist' T' → table_ok T' →
  get_mxact_status_for_lock mode is_update = Ok st → (∀ m, alive m → m ∈ ms' ↔ m ∈ holders T xmax im im2 ∨ m = (add, st)) →
  multi_holders (Ok (x', s, c)) ov = Ok r → good r.
Proof using Hrun Hmode.
  intros Hs' HT' Hsub Ht' Est Hms. unfold multi_holders. rsimpl.
  destruct (read_members_of ov x' false (s, c)) as [rr|] eqn:Er; rsimpl; [|done].
  destruct (read_ok j0 lo b A' hist' (updated b s c sys) T' ov x' ms' rr Hs' HT') as (c' & -> & Hc'); [rewrite cache_of_updated; exact Er|].
  destruct (@GetMultiXactIdHintBits (with_members ms') x') as [bits bits2] eqn:Eb. intros [= <-]. exists A', hist', T'. cbn [fst snd].
  pose proof (use_cache j0 lo b A' hist' _ T' c' Hs' Hc') as Hs2. rewrite updated_updated in Hs2.
  destruct (multi_added add Hrun T xmax im im2 mode is_update st T' ms' x' bits bits2 (holders_alive T xmax im im2) Hmode Est (table_id _ _ _ _ _ _ _ _ Hs' HT') HT' Ht' Eb Hms) as [H1 H2].
  split_and!; done.
Qed.

(** Another single holder. *)
Lemma good_pair old_status r : 0 ≤ old_status ≤ MultiXactStatusUpdate → TransactionIdIsValid xmax = true →
  holders T xmax im im2 = [(xmax, old_status)] →
  (new_status ← get_mxact_status_for_lock mode is_update; multi_holders (MultiXactIdCreate false true xmax old_status add new_status (shared sys) (cache_of sys b)) ov) = Ok r → good r.
Proof using Hs Ht Hrun Hvalid Hmode.
  intros Hst Hv Hold. destruct (get_mxact_status_for_lock mode is_update) as [st|] eqn:Est; rsimpl; [|done]. destruct (status_for_lock mode is_update st Hmode Est) as (S1 & S2 & S3).
  unfold MultiXactIdCreate. destruct (MultiXactIdCreateFromMembers false true _ (shared sys) (cache_of sys b)) as [[[x' s] c]|] eqn:E; [|done].
  pose proof (pair_ok xmax add old_status st Hv Hvalid Hst S2) as [Hset Hstat].
  destruct (created_ok j0 lo b A hist sys T (cache_of sys b) _ x' s c Hs Ht (so_caches _ _ _ _ _ _ Hs b) Hset Hstat E) as (A' & hist' & T' & Hs' & HT' & Hsub & Ht').
  eapply (good_multi A' hist' T' x' s c); [done|done|done|done|done|]. intros m _. rewrite sort_members_perm, Hold, elem_of_cons, !list_elem_of_singleton. done.
Qed.

Lemma status_range im0 im20 st : xmax_status im0 im20 = Some st → 0 ≤ st ≤ MultiXactStatusUpdate.
Proof. unfold xmax_status. intros H. repeat case_match; simplify_eq; by vm_compute. Qed.

Lemma alive_one m : alive m → filter alive [m] = [m].
Proof. exact (filter_alive_one m). Qed.

(** Nobody holds a version whose members have all finished, unless one is an updater that committed. *)
Lemma nobody_left ms : existsb (λ m, TransactionIdIsInProgress m.1) ms = false → Forall (λ m, MultiXactStatusForUpdate < m.2 → DidCommit m.1 = false) ms → filter alive ms = [].
Proof.
  intros Hx Hf. apply elem_of_nil_inv. intros m [[H|[H1 H2]] Hin]%list_elem_of_filter.
  - apply not_true_iff_false in Hx. apply Hx, existsb_exists. exists m. split; [by apply list_elem_of_In|done].
  - rewrite Forall_forall in Hf. specialize (Hf m Hin H1). congruence.
Qed.

(** The updater that is found is the only one. *)
Lemma updater_unique ms m : has_two_updaters ms = false → m ∈ ms → MultiXactStatusForUpdate < m.2 → List.find (λ m, ISUPDATE_from_mxstatus m.2) ms = Some m.
Proof.
  unfold has_two_updaters, ISUPDATE_from_mxstatus, MultiXactStatusForUpdate. intros Hu Hin Hm. apply Nat.ltb_ge in Hu. induction ms as [|m' ms IH]; [by apply not_elem_of_nil in Hin|]. cbn [List.find List.filter] in *.
  destruct (Z.ltb_spec 3 m'.2) as [H'|H'].
  - apply elem_of_cons in Hin as [->|Hin]; [done|]. cbn [length] in Hu. destruct (List.filter _ ms) as [|x l] eqn:E; [|cbn [length] in Hu; lia].
    exfalso. assert (H : In m (List.filter (λ m, 3 <? m.2) ms)); [|by rewrite E in H]. apply filter_In. split; [by apply list_elem_of_In|by apply Z.ltb_lt].
  - apply elem_of_cons in Hin as [->|Hin]; [lia|]. by apply IH.
Qed.

Lemma good_expand c ms r : cache_ok j0 hist c → T !! xmax = Some ms → holders T xmax im im2 = filter alive ms →
  (new_status ← get_mxact_status_for_lock mode is_update;
   multi_holders (MultiXactIdExpand false true TransactionIdIsInProgress DidCommit ov xmax add new_status (shared sys) c) ov) = Ok r → good r.
Proof using Hs Ht Hrun Hvalid Hmode.
  intros Hc HT Hold. destruct (get_mxact_status_for_lock mode is_update) as [st|] eqn:Est; rsimpl; [|done]. destruct (status_for_lock mode is_update st Hmode Est) as (S1 & S2 & S3).
  destruct (MultiXactIdExpand false true _ _ ov xmax add st (shared sys) c) as [[[x' s] c']|] eqn:E; [|done].
  assert (Hm : member_ok (add, st)) by (unfold MultiXactStatusUpdate in S2; split; cbn; [done|lia]).
  pose proof (expanded_ok j0 lo b A hist (updated b (shared sys) c sys) T TransactionIdIsInProgress DidCommit ov xmax ms add st x' s c' (use_cache j0 lo b A hist sys T c Hs Hc) Ht HT Hm S2 Hrun) as He.
  rewrite cache_of_updated, updated_updated in He. destruct (He E) as (A' & hist' & T' & ms' & Hs' & HT' & Hsub & Ht' & Hms).
  apply (good_multi A' hist' T' x' s c' ms' st); [done..|]. intros m Hm'. rewrite Hold, list_elem_of_filter, Hms by done. tauto.
Qed.

(** ** A MultiXactId *)

Section multi.
Context (Hinv : has_flag im HEAP_XMAX_INVALID = false) (Hmulti : has_flag im HEAP_XMAX_IS_MULTI = true) (Hup : HEAP_LOCKED_UPGRADED im = false).
Context (ms : list (Z * Z)) (HT : T !! xmax = Some ms).

Lemma multi_holders_are : holders T xmax im im2 = filter alive ms.
Proof using Hinv Hmulti Hup HT. unfold holders. by rewrite Hinv, Hmulti, Hup, HT. Qed.

Lemma good_nobody c r : cache_ok j0 hist c → existsb (λ m, TransactionIdIsInProgress m.1) ms = false → Forall (λ m, MultiXactStatusForUpdate < m.2 → DidCommit m.1 = false) ms →
  (r ← sole_holder add mode is_update; Ok (r, (shared sys, c))) = Ok r → good r.
Proof using Hs Ht Hrun Hvalid Hmode Hupd Hinv Hmulti Hup HT.
  intros Hc Hx Hf. apply (good_sole c mode); [done|lia| |by left]. rewrite multi_holders_are, nobody_left by done. by intros m ?%not_elem_of_nil.
Qed.

Lemma not_running ms1 isLockOnly : @MultiXactIdIsRunning (with_members ms1) xmax isLockOnly = false → existsb (λ m, TransactionIdIsInProgress m.1) ms1 = false.
Proof. unfold MultiXactIdIsRunning. cbn. by intros [_ ?]%orb_false_iff. Qed.

Lemma compute_multi r : compute_new_xmax_infomask ov xmax im im2 add mode is_update (shared sys, cache_of sys b) = Ok r → good r.
Proof using All.
  unfold compute_new_xmax_infomask. rewrite Hinv, Hmulti, Hup. destruct (Ht xmax ms HT) as [Htwo _].
  destruct (ho_multi _ _ _ _ Hh Hinv Hmulti Hup) as (_ & ms0 & HT0 & Hlo). rewrite HT in HT0. injection HT0 as <-.
  destruct (HEAP_XMAX_IS_LOCKED_ONLY im) eqn:Hlocked.
  - destruct (read_members_of ov xmax true _) as [rr|] eqn:Er; rsimpl; [|done].
    destruct (read_lock_only j0 lo b A hist sys T ov xmax ms rr Hs HT (Hgone ms HT) Er) as (ms1 & c & -> & Hc & Hms1).
    destruct (@MultiXactIdIsRunning (with_members ms1) xmax true) eqn:Hr; cbn [negb]; rsimpl.
    + apply good_expand with ms; [done|done|apply multi_holders_are].
    + apply good_nobody; [done| |].
      * destruct Hms1 as [->|[_ Hf]]; [by apply not_running in Hr|]. apply not_true_iff_false. rewrite existsb_exists. intros (m & Hin%list_elem_of_In & Hm). rewrite Forall_forall in Hf. specialize (Hf m Hin). congruence.
      * apply (Forall_impl _ _ _ (proj1 Hlo eq_refl)). lia.
  - destruct (read_members_of ov xmax false _) as [rr|] eqn:Er; rsimpl; [|done].
    destruct (read_ok j0 lo b A hist sys T ov xmax ms rr Hs HT Er) as (c & -> & Hc).
    destruct (@MultiXactIdIsRunning (with_members ms) xmax false) eqn:Hr; cbn [negb]; rsimpl.
    { apply good_expand with ms; [done|done|apply multi_holders_are]. }
    destruct (read_members_of ov xmax false (shared sys, c)) as [rr|] eqn:Er2; rsimpl; [|done].
    pose proof (read_ok j0 lo b A hist _ T ov xmax ms rr (use_cache j0 lo b A hist sys T c Hs Hc) HT) as H2. rewrite cache_of_updated in H2. destruct (H2 Er2) as (c2 & -> & Hc2).
    rsimpl. destruct (DidCommit _) eqn:Hcommit; cbn [negb fst snd].
    { apply good_expand with ms; [done|done|apply multi_holders_are]. }
    apply good_nobody; [done|by apply not_running in Hr|]. apply Forall_forall. intros m Hin Hm. pose proof (updater_unique ms m Htwo Hin Hm) as Hfind.
    unfold MultiXactIdGetUpdateXid in Hcommit. cbn [Visibility.GetMultiXactIdMembers with_members] in Hcommit. by rewrite Hfind in Hcommit.
Qed.
End multi.

(** ** A single transaction *)

Lemma update_status_range infomask2 : MultiXactStatusForUpdate < update_status infomask2 ≤ MultiXactStatusUpdate.
Proof. unfold update_status. destruct (has_flag infomask2 HEAP_KEYS_UPDATED); split; by vm_compute. Qed.

Lemma single_holder : has_flag im HEAP_XMAX_INVALID = false → has_flag im HEAP_XMAX_IS_MULTI = false →
  holders T xmax im im2 = match xmax_status im im2 with Some status => filter alive [(xmax, status)] | None => [] end.
Proof. intros Hinv Hmulti. unfold holders. by rewrite Hinv, Hmulti. Qed.

Lemma updater_holds : has_flag im HEAP_XMAX_INVALID = false → has_flag im HEAP_XMAX_IS_MULTI = false → HEAP_XMAX_IS_LOCKED_ONLY im = false → DidCommit xmax = true →
  holders T xmax im im2 = [(xmax, update_status im2)].
Proof.
  intros Hinv Hmulti Hl Hd. rewrite single_holder by done. unfold xmax_status. rewrite Hl. apply alive_one. right. cbn [fst snd]. pose proof (update_status_range im2). split; [unfold update_status in *; lia|done].
Qed.

Lemma compute_single r : has_flag im HEAP_XMAX_INVALID = false → has_flag im HEAP_XMAX_IS_MULTI = false →
  compute_new_xmax_infomask ov xmax im im2 add mode is_update (shared sys, cache_of sys b) = Ok r → good r.
Proof using All.
  intros Hinv Hmulti. unfold compute_new_xmax_infomask. rewrite Hinv, Hmulti. pose proof (ho_xid _ _ _ _ Hh Hinv Hmulti) as Hv.
  pose proof (single_holder Hinv Hmulti) as Hold. pose proof (updater_holds Hinv Hmulti) as Hcommitted. pose proof (update_status_range im2) as Hus.
  destruct (has_flag im HEAP_XMAX_COMMITTED) eqn:Hcom.
  { destruct (ho_committed _ _ _ _ Hh Hinv Hcom) as [Hl Hd]. apply good_pair; [unfold MultiXactStatusForUpdate in Hus; lia|done|by apply Hcommitted]. }
  destruct (TransactionIdIsInProgress xmax) eqn:Hx.
  - destruct (xmax_status im im2) as [st|] eqn:Est.
    + rewrite alive_one in Hold by (by left). destruct (Z.eqb_spec xmax add) as [Heq|Hne].
      * set (mode' := if mode <? _ then _ else _). pose proof (tuplock_modes st). assert (Hm' : mode ≤ mode' ≤ 3 ∧ TUPLOCK_from_mxstatus st ≤ mode') by (unfold mode'; destruct (Z.ltb_spec mode (TUPLOCK_from_mxstatus st)); lia).
        apply good_sole; [apply (so_caches _ _ _ _ _ _ Hs)|lia| |].
        -- rewrite Hold. intros m ->%list_elem_of_singleton. split; [done|]. cbn [snd]. lia.
        -- unfold mode'. destruct (mode <? _); [right|by left]. exists st. split; [|done]. rewrite Hold. apply list_elem_of_singleton. by rewrite Heq.
      * apply good_pair; [by eapply status_range|done|done].
    + apply good_sole; [apply (so_caches _ _ _ _ _ _ Hs)|lia| |by left]. rewrite Hold. by intros m ?%not_elem_of_nil.
  - destruct (negb (HEAP_XMAX_IS_LOCKED_ONLY im) && DidCommit xmax) eqn:Hd.
    { apply andb_true_iff in Hd as [Hl%negb_true_iff Hd]. apply good_pair; [unfold MultiXactStatusForUpdate in Hus; lia|done|by apply Hcommitted]. }
    apply good_sole; [apply (so_caches _ _ _ _ _ _ Hs)|lia| |by left]. intros m Hin. exfalso. pose proof (holders_alive T xmax im im2 m Hin) as Hal.
    assert (Hm : m.1 = xmax ∧ (HEAP_XMAX_IS_LOCKED_ONLY im = true → m.2 ≤ MultiXactStatusForUpdate)).
    { rewrite Hold in Hin. destruct (xmax_status im im2) as [st|] eqn:Est; [|by apply not_elem_of_nil in Hin]. apply list_elem_of_filter in Hin as [_ ->%list_elem_of_singleton]. split; [done|].
      intros Hl. unfold xmax_status in Est. rewrite Hl in Est. repeat case_match; simplify_eq; by vm_compute. }
    destruct Hm as [Em Hlk]. destruct Hal as [H|[H1 H2]]; rewrite Em in *; [congruence|]. destruct (HEAP_XMAX_IS_LOCKED_ONLY im); [specialize (Hlk eq_refl); lia|]. cbn [negb andb] in Hd. congruence.
Qed.

Lemma compute_good r : compute_new_xmax_infomask ov xmax im im2 add mode is_update (shared sys, cache_of sys b) = Ok r → good r.
Proof using All.
  destruct (has_flag im HEAP_XMAX_INVALID) eqn:Hinv.
  { unfold compute_new_xmax_infomask. rewrite Hinv. apply good_sole; [apply (so_caches _ _ _ _ _ _ Hs)|lia| |by left]. unfold holders. rewrite Hinv. by intros m ?%not_elem_of_nil. }
  destruct (has_flag im HEAP_XMAX_IS_MULTI) eqn:Hmulti; [|by apply compute_single]. destruct (HEAP_LOCKED_UPGRADED im) eqn:Hup.
  { unfold compute_new_xmax_infomask. rewrite Hinv, Hmulti, Hup. apply good_sole; [apply (so_caches _ _ _ _ _ _ Hs)|lia| |by left]. unfold holders. rewrite Hinv, Hmulti, Hup. by intros m ?%not_elem_of_nil. }
  destruct (ho_multi _ _ _ _ Hh Hinv Hmulti Hup) as (_ & ms & HT & _). by apply (compute_multi Hinv Hmulti Hup ms HT).
Qed.

(** ** Success *)

(** Only one updater can hold a version. *)
Definition compatible : Prop := is_update = true → ∀ m, m ∈ holders T xmax im im2 → m.2 ≤ MultiXactStatusForUpdate.

(** Space for a MultiXactId with all the members of the old one, and one more. *)
Definition space_for_holder : Prop :=
  space (shared sys) j0 lo A hist (zlen (default [] (T !! xmax)) + 2) ∧ sizeof_MultiXactMember * (zlen (default [] (T !! xmax)) + 1) ≤ MaxAllocSize.

Lemma sole_total mode' : mode ≤ mode' ≤ 3 → ∃ r, sole_holder add mode' is_update = Ok r.
Proof using Hmode Hupd.
  intros Hm. unfold sole_holder. destruct is_update; [eauto|]. destruct (mode_cases mode' ltac:(lia)) as [->|[->|[->| ->]]]; cbn; eauto.
Qed.

Lemma status_total : ∃ st, get_mxact_status_for_lock mode is_update = Ok st ∧ (is_update = false → st ≤ MultiXactStatusForUpdate).
Proof using Hmode Hupd.
  destruct (mode_cases mode Hmode) as [->|[->|[->| ->]]]; destruct is_update; try (exfalso; specialize (Hupd eq_refl); lia); eexists; (split; [by vm_compute|intros ?; by vm_compute]).
Qed.

Lemma one_updater ms st : has_two_updaters ms = false → (is_update = false → st ≤ MultiXactStatusForUpdate) → (is_update = true → ∀ m, m ∈ ms → m.2 ≤ MultiXactStatusForUpdate) →
  has_two_updaters (ms ++ [(add, st)]) = false.
Proof using Hupd.
  unfold has_two_updaters. intros Hu Hst Hms. apply Nat.ltb_ge in Hu. apply Nat.ltb_ge. rewrite List.filter_app, length_app. cbn [List.filter]. cbn [snd]. destruct (Z.ltb_spec MultiXactStatusForUpdate st) as [H|H]; cbn [length]; [|lia].
  destruct is_update; [|specialize (Hst eq_refl); lia]. destruct (List.filter _ ms) as [|m l] eqn:E; [cbn; lia|].
  assert (Hin : In m (List.filter (λ m, MultiXactStatusForUpdate <? m.2) ms)) by (rewrite E; by left). apply filter_In in Hin as [Hin%list_elem_of_In Hm%Z.ltb_lt]. specialize (Hms eq_refl m Hin). lia.
Qed.

Lemma multi_total A' hist' T' x' s c ms' : system_ok j0 lo A' hist' (updated b s c sys) T' → T' !! x' = Some ms' → ∃ r, multi_holders (Ok (x', s, c)) ov = Ok r.
Proof using.
  intros Hs' HT'. unfold multi_holders. rsimpl. pose proof (read_total j0 lo b A' hist' (updated b s c sys) T' ov x' ms' false Hs' HT') as [[ms mx] Er]. rewrite cache_of_updated in Er.
  cbn [shared updated] in Er. rewrite Er. rsimpl. destruct (@GetMultiXactIdHintBits (with_members ms) x'). eauto.
Qed.

Lemma pair_total old_status : compatible → space_for_holder → 0 ≤ old_status ≤ MultiXactStatusUpdate → TransactionIdIsValid xmax = true → holders T xmax im im2 = [(xmax, old_status)] →
  ∃ r, (new_status ← get_mxact_status_for_lock mode is_update; multi_holders (MultiXactIdCreate false true xmax old_status add new_status (shared sys) (cache_of sys b)) ov) = Ok r.
Proof using Hs Ht Hvalid Hmode Hupd.
  intros Hcomp [[Hid Hl] _] Hst Hv Hold. destruct status_total as (st & Est & Hle). rewrite Est. rsimpl. destruct (status_for_lock mode is_update st Hmode Est) as (S1 & S2 & S3).
  pose proof (pair_ok xmax add old_status st Hv Hvalid Hst S2) as [Hset Hstat].
  destruct (creation_works (shared sys) j0 lo A hist (cache_of sys b) [(xmax, old_status); (add, st)]) as (x' & s & c & E & _); [apply Hs|apply Hs|done| | |].
  - apply (one_updater [(xmax, old_status)]); [|done|by rewrite <- Hold]. unfold has_two_updaters. cbn. by destruct (_ <? _).
  - split; [done|]. replace (zlen [(xmax, old_status); (add, st)]) with 2 by done. unfold zlen in Hl. lia.
  - unfold MultiXactIdCreate. rewrite E.
    destruct (created_ok j0 lo b A hist sys T (cache_of sys b) _ x' s c Hs Ht (so_caches _ _ _ _ _ _ Hs b) Hset Hstat E) as (A' & hist' & T' & Hs' & HT' & _).
    by apply (multi_total A' hist' T' x' s c (sort_members [(xmax, old_status); (add, st)])).
Qed.

Lemma expand_total c ms : compatible → space_for_holder → cache_ok j0 hist c → T !! xmax = Some ms → holders T xmax im im2 = filter alive ms →
  ∃ r, (new_status ← get_mxact_status_for_lock mode is_update;
   multi_holders (MultiXactIdExpand false true TransactionIdIsInProgress DidCommit ov xmax add new_status (shared sys) c) ov) = Ok r.
Proof using b Hs Ht Hrun Hvalid Hmode Hupd.
  intros Hcomp [[Hid Hl] Halloc] Hc HT Hold. rewrite HT in Hl, Halloc. change (default [] (Some ms)) with ms in Hl, Halloc. destruct status_total as (st & Est & Hle). rewrite Est. rsimpl. destruct (status_for_lock mode is_update st Hmode Est) as (S1 & S2 & S3).
  assert (Hm : member_ok (add, st)) by (unfold MultiXactStatusUpdate in S2; split; cbn; [done|lia]).
  assert (He : ∃ x' s c', MultiXactIdExpand false true TransactionIdIsInProgress DidCommit ov xmax add st (shared sys) c = Ok (x', s, c')).
  { pose proof (use_cache j0 lo b A hist sys T c Hs Hc) as Hs1. pose proof (ask_table j0 lo A hist _ T b ov xmax Hs1 (table_id _ _ _ _ _ _ _ _ Hs HT)) as Ha. rewrite HT, cache_of_updated in Ha. destruct Ha as (c0 & E0 & Hc0). cbn [shared updated] in E0.
    unfold MultiXactIdExpand. rewrite E0. rsimpl. destruct (existsb _ ms); [eauto|]. destruct (Z.ltb_spec MaxAllocSize (sizeof_MultiXactMember * (zlen ms + 1))); [lia|]. rewrite kept_members.
    destruct (creation_works (shared sys) j0 lo A hist c0 (filter alive ms ++ [(add, st)])) as (x' & s & c' & E & _); [apply Hs|done|by eapply expansion_ok| | |eauto].
    - apply one_updater; [|done|rewrite <- Hold; exact Hcomp]. apply two_updaters_filter. apply (Ht xmax ms HT).
    - split; [done|]. pose proof (length_filter alive ms). unfold zlen in *. rewrite length_app. cbn [length]. lia. }
  destruct He as (x' & s & c' & E). rewrite E.
  pose proof (expanded_ok j0 lo b A hist (updated b (shared sys) c sys) T TransactionIdIsInProgress DidCommit ov xmax ms add st x' s c' (use_cache j0 lo b A hist sys T c Hs Hc) Ht HT Hm S2 Hrun) as He.
  rewrite cache_of_updated, updated_updated in He. destruct (He E) as (A' & hist' & T' & ms' & Hs' & HT' & _). by apply (multi_total A' hist' T' x' s c' ms').
Qed.

Lemma alone_total mode' (mx : MX) : mode ≤ mode' ≤ 3 → ∃ r, (r ← sole_holder add mode' is_update; Ok (r, mx)) = Ok r.
Proof using Hmode Hupd. intros Hm. destruct (sole_total mode' Hm) as [r ->]. rsimpl. eauto. Qed.

Lemma compute_total : compatible → space_for_holder → ∃ r, compute_new_xmax_infomask ov xmax im im2 add mode is_update (shared sys, cache_of sys b) = Ok r.
Proof using All.
  intros Hcomp Hspace. unfold compute_new_xmax_infomask. pose proof (λ mx, alone_total mode mx ltac:(lia)) as Halone.
  destruct (has_flag im HEAP_XMAX_INVALID) eqn:Hinv; [apply Halone|]. destruct (has_flag im HEAP_XMAX_IS_MULTI) eqn:Hmulti.
  - destruct (HEAP_LOCKED_UPGRADED im) eqn:Hup; [apply Halone|]. destruct (ho_multi _ _ _ _ Hh Hinv Hmulti Hup) as (_ & ms & HT & _). pose proof (multi_holders_are Hinv Hmulti Hup ms HT) as Hold.
    destruct (read_total j0 lo b A hist sys T ov xmax ms (HEAP_XMAX_IS_LOCKED_ONLY im) Hs HT) as [rr Er]. rewrite Er. rsimpl.
    assert (Hrr : ∃ ms1 c, rr = (ms1, (shared sys, c)) ∧ cache_ok j0 hist c).
    { destruct (HEAP_XMAX_IS_LOCKED_ONLY im); [destruct (read_lock_only j0 lo b A hist sys T ov xmax ms rr Hs HT (Hgone ms HT) Er) as (ms1 & c & -> & Hc & _)|destruct (read_ok j0 lo b A hist sys T ov xmax ms rr Hs HT Er) as (c & -> & Hc)]; eauto. }
    destruct Hrr as (ms1 & c & -> & Hc). destruct (negb _); rsimpl; [|by apply expand_total with ms]. destruct (HEAP_XMAX_IS_LOCKED_ONLY im); rsimpl; [apply Halone|].
    pose proof (use_cache j0 lo b A hist sys T c Hs Hc) as Hs1. pose proof (read_total j0 lo b A hist _ T ov xmax ms false Hs1 HT) as [r2 Er2]. pose proof (read_ok j0 lo b A hist _ T ov xmax ms r2 Hs1 HT Er2) as (c2 & -> & Hc2).
    rewrite cache_of_updated in Er2. cbn [shared updated] in Er2. rewrite Er2. rsimpl. destruct (negb _); [apply Halone|]. by apply expand_total with ms.
  - pose proof (ho_xid _ _ _ _ Hh Hinv Hmulti) as Hv. pose proof (single_holder Hinv Hmulti) as Hold. pose proof (updater_holds Hinv Hmulti) as Hcommitted. pose proof (update_status_range im2) as Hus.
    destruct (has_flag im HEAP_XMAX_COMMITTED) eqn:Hcom.
    { destruct (ho_committed _ _ _ _ Hh Hinv Hcom) as [Hl Hd]. apply pair_total; [done|done|unfold MultiXactStatusForUpdate in Hus; lia|done|by apply Hcommitted]. }
    destruct (TransactionIdIsInProgress xmax) eqn:Hx.
    + destruct (xmax_status im im2) as [st|] eqn:Est; [|apply Halone]. rewrite alive_one in Hold by (by left). destruct (Z.eqb_spec xmax add) as [Heq|Hne].
      * apply alone_total. pose proof (tuplock_modes st). destruct (Z.ltb_spec mode (TUPLOCK_from_mxstatus st)); lia.
      * apply pair_total; [done|done|by eapply status_range|done|done].
    + destruct (negb (HEAP_XMAX_IS_LOCKED_ONLY im) && DidCommit xmax) eqn:Hd; [|apply Halone].
      apply andb_true_iff in Hd as [Hl%negb_true_iff Hd]. apply pair_total; [done|done|unfold MultiXactStatusForUpdate in Hus; lia|done|by apply Hcommitted].
Qed.
End compute.

(** * The claim *)

(** C23. A transaction that takes a lock on a row version, or updates it, takes nothing away from
    the others: every running holder of the version and every updater that committed still holds
    it, in the same mode, after the xmax and its bits have been computed anew; the transaction
    has the mode it asked for, and no weaker one than before; and nobody else is added.  The new
    fields are sound again, and all MultiXactIds keep their members.  The call succeeds if there
    is space for a MultiXactId and an update meets no other updater.  A MultiXactId that only
    locks may be reported as gone when it precedes the oldest visible one: its members have ended. *)
Theorem locks_never_lost j0 lo A hist sys T b ov xmax im im2 add mode is_update : system_ok j0 lo A hist sys T → table_ok T → header_ok T xmax im im2 →
  TransactionIdIsInProgress add = true → TransactionIdIsValid add = true → 0 ≤ mode ≤ 3 → (is_update = true → LockTupleNoKeyExclusive ≤ mode) →
  (∀ ms, T !! xmax = Some ms → MultiXactIdPrecedes xmax ov = true → Forall (λ m, TransactionIdIsInProgress m.1 = false) ms) →
  (compatible T xmax im im2 is_update → space_for_holder j0 lo A hist sys T xmax →
     ∃ r, compute_new_xmax_infomask ov xmax im im2 add mode is_update (shared sys, cache_of sys b) = Ok r) ∧
  (∀ x' im' im2' s c, compute_new_xmax_infomask ov xmax im im2 add mode is_update (shared sys, cache_of sys b) = Ok (x', im', im2', (s, c)) →
     ∃ A' hist' T', system_ok j0 lo A' hist' (updated b s c sys) T' ∧ grown j0 hist T hist' T' ∧ table_ok T' ∧ header_ok T' x' im' im2' ∧
       added T xmax im im2 add mode is_update T' x' im' im2').
Proof.
  intros Hs Ht Hh Hrun Hvalid Hmode Hupd Hgone. split; [by apply compute_total|]. intros x' im' im2' s c E.
  by apply (compute_good j0 lo A hist sys T b ov xmax im im2 add mode is_update Hs Ht Hh Hrun Hvalid Hmode Hupd Hgone) in E.
Qed.
End locking.

(** * Witness *)

(** 701 and 709 run, 650 has committed. *)
Definition lock_xacts : Xacts := {|
  TransactionIdIsCurrentTransactionId xid := xid =? 709;
  TransactionIdIsInProgress xid := (xid =? 701) || (xid =? 709);
  DidCommit xid := xid =? 650;
  SubTransTopmost xid := xid;
  Visibility.GetMultiXactIdMembers _ _ := [];
  combos := no_combos;
  GetCommitLSN _ := 0;
  BufferIsPermanent := true;
  XLogNeedsFlush _ := false;
  BufferGetLSNAtomic := 0;
|}.

(** 701 has a key share lock on the version, 709 updates it: the last MultiXactId but one, with
    the bits of an update. *)
Definition w_locked : Z := Z.lor HEAP_XMAX_LOCK_ONLY HEAP_XMAX_KEYSHR_LOCK.
Definition w_added : MX := (from_ok (0, 0, 0, (w_state, [])) (@compute_new_xmax_infomask lock_xacts w_id 701 w_locked 0 709 LockTupleNoKeyExclusive true (w_state, []))).2.

Lemma w_header : @header_ok lock_xacts ∅ 701 w_locked 0.
Proof. constructor; [intros _ H; by vm_compute in H|by vm_compute|intros _ H; by vm_compute in H]. Qed.

Lemma w_compute : @compute_new_xmax_infomask lock_xacts w_id 701 w_locked 0 709 LockTupleNoKeyExclusive true (shared w_sys, cache_of w_sys 0) =
  Ok (w_id, Z.lor HEAP_XMAX_IS_MULTI HEAP_XMAX_EXCL_LOCK, 0, (w_added.1, w_added.2)).
Proof. by vm_compute. Qed.

Lemma w_mode : 0 ≤ LockTupleNoKeyExclusive ≤ 3.
Proof. done. Qed.

Lemma w_none (ms : list (Z * Z)) : (∅ : gmap Z (list (Z * Z))) !! 701 = Some ms → MultiXactIdPrecedes 701 w_id = true → Forall (λ m, @TransactionIdIsInProgress lock_xacts m.1 = false) ms.
Proof. by rewrite lookup_empty. Qed.

Lemma locks_never_lost_witness :
  @compute_new_xmax_infomask lock_xacts w_id 701 w_locked 0 709 LockTupleNoKeyExclusive true (shared w_sys, cache_of w_sys 0) = Ok (w_id, Z.lor HEAP_XMAX_IS_MULTI HEAP_XMAX_EXCL_LOCK, 0, (w_added.1, w_added.2)) ∧
  ∃ A' hist' T', system_ok (w_id - 1) w_slot A' hist' (updated 0 w_added.1 w_added.2 w_sys) T' ∧ grown (w_id - 1) [] ∅ hist' T' ∧ table_ok T' ∧
    @header_ok lock_xacts T' w_id (Z.lor HEAP_XMAX_IS_MULTI HEAP_XMAX_EXCL_LOCK) 0 ∧
    @added lock_xacts ∅ 701 w_locked 0 709 LockTupleNoKeyExclusive true T' w_id (Z.lor HEAP_XMAX_IS_MULTI HEAP_XMAX_EXCL_LOCK) 0.
Proof.
  split; [exact w_compute|].
  exact (proj2 (@locks_never_lost lock_xacts (w_id - 1) w_slot w_slot [] w_sys ∅ 0%nat w_id 701 w_locked 0 709 LockTupleNoKeyExclusive true w_sys_ok (map_Forall_empty _)
    w_header eq_refl eq_refl w_mode (λ _, Z.le_refl _) w_none) _ _ _ _ _ w_compute).
Defined.
