(* ===== verification/ChainLock.v ===== *)
(** Conflicts between row locks, and the walk that locks the later versions of a row
    (heapam.c: DoesMultiXactIdConflict, test_lockmode_for_conflict, heap_lock_updated_tuple_rec),
    with the records of row locks and their replay. *)

From S2P Require Import Prelude Xid Bufpage Itup Compact PageOps HeapPage HotChain HeapPrune Clog ClogPages Combocid Visibility Freeze Multixact Members Multis RowLocks.

Definition XLH_LOCK_ALL_FROZEN_CLEARED : Z := 0x01.

Record xl_heap_lock : Type := mkLockRecord {
  lock_xmax : Z;
  lock_offnum : Z;
  infobits_set : Z;
  lock_flags : Z;
}.

Definition MovedPartitionsOffsetNumber : Z := 0xfffd.
Definition MovedPartitionsBlockNumber : Z := 0xFFFFFFFF.
Definition ItemPointerIndicatesMovedPartitions (pointer : ItemPointerData) : bool :=
  (ItemPointerGetOffsetNumber pointer =? MovedPartitionsOffsetNumber) && (ItemPointerGetBlockNumber pointer =? MovedPartitionsBlockNumber).

(** A place in a relation: block and offset. *)
Abbreviation Place := (Z * Z)%type.
Definition tid_place (tid : ItemPointerData) : Place := (ItemPointerGetBlockNumber tid, ItemPointerGetOffsetNumber tid).

Section chains.
Context {A : Type}.
Abbreviation Tuple := (@HeapTupleHeaderData A).
Implicit Types (t : Tuple) (tid : ItemPointerData).

(** A relation: the tuples at normal line pointers, the pages with PD_ALL_VISIBLE, the pages with
    the all-frozen bit in the visibility map, and the lock records written, each with its block. *)
Record LockRel : Type := mkLockRel {
  versions : gmap Place Tuple;
  all_visible : gset Z;
  all_frozen : gset Z;
  lock_log : list (Z * xl_heap_lock);
}.
Implicit Types rel : LockRel.

Section walk.
Context {X : Xacts} (DidAbort : Z → bool) (NeedsWAL : bool) (OldestVisible : Z).

(** * Conflicts *)

(** The loop over the members; [track] if the caller wants to know about its own transaction. *)
Fixpoint conflict_loop (track : bool) (wanted : Z) (members : list (Z * Z)) (res current : bool) : result (bool * bool) :=
  match members with
  | [] => Ok (res, current)
  | m :: members =>
      if res && (negb track || current) then Ok (res, current)
      else
        memlockmode ← LOCKMODE_from_mxstatus m.2;
        if TransactionIdIsCurrentTransactionId m.1 then conflict_loop track wanted members res (if track then true else current)
        else if res then conflict_loop track wanted members res current
        else
          c ← DoLockModesConflict memlockmode wanted;
          if negb c then conflict_loop track wanted members res current
          else if (if ISUPDATE_from_mxstatus m.2 then DidAbort m.1 else negb (TransactionIdIsInProgress m.1))
          then conflict_loop track wanted members res current
          else conflict_loop track wanted members true current
  end.

(** The answer and [*current_is_member], which is left alone unless it becomes true. *)
Definition DoesMultiXactIdConflict (multi infomask lockmode : Z) (track : bool) (mx : MX) : result (bool * bool * MX) :=
  wanted ← hwlock lockmode;
  if HEAP_LOCKED_UPGRADED infomask then Ok (false, false, mx)
  else
    r ← read_members_of OldestVisible multi (HEAP_XMAX_IS_LOCKED_ONLY infomask) mx;
    let '(members, mx) := (r : list (Z * Z) * MX) in
    r ← conflict_loop track wanted members false false;
    Ok (r, mx).

(** The result and [*needwait]. *)
Definition test_lockmode_for_conflict (status xid mode : Z) tid t : result (TM_Result * bool) :=
  wantedstatus ← get_mxact_status_for_lock mode false;
  if TransactionIdIsCurrentTransactionId xid then Ok (TM_SelfModified, false)
  else
    let conflict := held ← LOCKMODE_from_mxstatus status; wanted ← LOCKMODE_from_mxstatus wantedstatus; DoLockModesConflict held wanted in
    if TransactionIdIsInProgress xid then c ← conflict; Ok (TM_Ok, c)
    else if DidAbort xid then Ok (TM_Ok, false)
    else if DidCommit xid then
      if negb (ISUPDATE_from_mxstatus status) then Ok (TM_Ok, false)
      else c ← conflict; Ok (if (c : bool) then updated_or_deleted tid t else TM_Ok, false)
    else Ok (TM_Ok, false).

(** * The walk *)

(** What the tests of a version lead to. *)
Inductive verdict : Type := Proceed | Skip | WaitFor (xid : Z) | Fail (res : TM_Result).

Fixpoint test_members (members : list (Z * Z)) (mode : Z) tid t : result verdict :=
  match members with
  | [] => Ok Proceed
  | m :: members =>
      r ← test_lockmode_for_conflict m.2 m.1 mode tid t;
      let '(res, needwait) := (r : TM_Result * bool) in
      match res with
      | TM_SelfModified => Ok Skip
      | _ => if needwait then Ok (WaitFor m.1) else match res with TM_Ok => test_members members mode tid t | _ => Ok (Fail res) end
      end
  end.

Definition test_version (mode : Z) tid t (mx : MX) : result (verdict * MX) :=
  let old_infomask := t_infomask t in
  if has_flag old_infomask HEAP_XMAX_INVALID then Ok (Proceed, mx)
  else if has_flag old_infomask HEAP_XMAX_IS_MULTI then
    r ← read_members_of OldestVisible (t_xmax t) (HEAP_XMAX_IS_LOCKED_ONLY old_infomask) mx;
    let '(members, mx) := (r : list (Z * Z) * MX) in
    v ← test_members members mode tid t;
    Ok (v, mx)
  else match xmax_status old_infomask (t_infomask2 t) with
       | None => Err (Elog "invalid lock status in tuple")
       | Some status => v ← test_members [(t_xmax t, status)] mode tid t; Ok (v, mx)
       end.

(** The new fields are stored. *)
Definition set_xmax_bits (new_xmax new_infomask new_infomask2 : Z) t : Tuple :=
  mkHeapTuple (t_xmin t) new_xmax (t_xvac t) (t_ctid t) (Z.lor (Z.ldiff (t_infomask2 t) HEAP_KEYS_UPDATED) new_infomask2)
    (Z.lor (Z.ldiff (t_infomask t) HEAP_XMAX_BITS) new_infomask) (t_values t).

(** A version is locked; [cleared] is cleared_all_frozen, which is not reset between versions. *)
Definition lock_version (xid mode : Z) tid t (cleared : bool) rel (mx : MX) : result (Tuple * bool * LockRel * MX) :=
  r ← compute_new_xmax_infomask OldestVisible (t_xmax t) (t_infomask t) (t_infomask2 t) xid mode false mx;
  let '(new_xmax, new_infomask, new_infomask2, mx) := (r : Z * Z * Z * MX) in
  let block := ItemPointerGetBlockNumber tid in
  let '(cleared, frozen) :=
    if bool_decide (block ∈ all_visible rel) && bool_decide (block ∈ all_frozen rel) then (true, all_frozen rel ∖ {[block]}) else (cleared, all_frozen rel) in
  let t := set_xmax_bits new_xmax new_infomask new_infomask2 t in
  let log :=
    if NeedsWAL then
      lock_log rel ++ [(block, mkLockRecord new_xmax (ItemPointerGetOffsetNumber tid) (compute_infobits new_infomask new_infomask2)
                                 (if (cleared : bool) then XLH_LOCK_ALL_FROZEN_CLEARED else 0))]
    else lock_log rel in
  Ok (t, cleared, mkLockRel (<[tid_place tid := t]> (versions rel)) (all_visible rel) frozen log, mx).

(** The members of the MultiXactId of an updated version. *)
Definition updater_members t (mx : MX) : result (list (Z * Z) * MX) :=
  if negb (has_flag (t_infomask t) HEAP_XMAX_INVALID) && has_flag (t_infomask t) HEAP_XMAX_IS_MULTI && negb (has_flag (t_infomask t) HEAP_XMAX_LOCK_ONLY)
  then read_members_of OldestVisible (t_xmax t) false mx else Ok ([], mx).

(** Is this the end of the chain. *)
Definition chain_end tid t (mx : MX) : result (bool * MX) :=
  if has_flag (t_infomask t) HEAP_XMAX_INVALID || ItemPointerIndicatesMovedPartitions (t_ctid t) || ItemPointerEquals tid (t_ctid t) then Ok (true, mx)
  else
    r ← updater_members t mx;
    let '(members, mx) := (r : list (Z * Z) * MX) in
    Ok (@HeapTupleHeaderIsOnlyLocked (with_members members) A t, mx).

Definition update_xid t (mx : MX) : result (Z * MX) :=
  r ← updater_members t mx;
  let '(members, mx) := (r : list (Z * Z) * MX) in
  Ok (HeapTupleHeaderGetUpdateXid (@HeapTupleGetUpdateXid (with_members members) A) t, mx).

(** The walk ends, or it is to wait for a transaction and to start anew at a version. *)
Inductive walk_outcome : Type := Done (res : TM_Result) | Waiting (xid priorXmax : Z) (tid : ItemPointerData) (cleared : bool).

(** One fuel for each version. *)
Fixpoint heap_lock_updated_tuple_rec (fuel : nat) (priorXmax : Z) tid (xid mode : Z) (cleared : bool) rel (mx : MX) : result (walk_outcome * LockRel * MX) :=
  match fuel with
  | O => Err OutOfFuel
  | S fuel =>
      match versions rel !! tid_place tid with
      | None => Ok (Done TM_Ok, rel, mx)
      | Some t =>
          if TransactionIdIsValid priorXmax && negb (HeapTupleHeaderGetXmin t =? priorXmax) then Ok (Done TM_Ok, rel, mx)
          else if DidAbort (HeapTupleHeaderGetXmin t) then Ok (Done TM_Ok, rel, mx)
          else
            r ← test_version mode tid t mx;
            let '(v, mx) := (r : verdict * MX) in
            match v with
            | WaitFor wait => Ok (Waiting wait priorXmax tid cleared, rel, mx)
            | Fail res => Ok (Done res, rel, mx)
            | Proceed | Skip =>
                r ← match v with Proceed => lock_version xid mode tid t cleared rel mx | _ => Ok (t, cleared, rel, mx) end;
                let '(t, cleared, rel, mx) := (r : Tuple * bool * LockRel * MX) in
                r ← chain_end tid t mx;
                let '(last, mx) := (r : bool * MX) in
                if (last : bool) then Ok (Done TM_Ok, rel, mx)
                else
                  r ← update_xid t mx;
                  let '(priorXmax, mx) := (r : Z * MX) in
                  heap_lock_updated_tuple_rec fuel priorXmax (t_ctid t) xid mode cleared rel mx
            end
      end
  end.
End walk.

(** * Replay *)

Definition xlog_clear_frozen (block : Z) (rec : xl_heap_lock) rel : gset Z :=
  if has_flag (lock_flags rec) XLH_LOCK_ALL_FROZEN_CLEARED then all_frozen rel ∖ {[block]} else all_frozen rel.

Definition xlog_lock_bits (rec : xl_heap_lock) t : Z * Z :=
  fix_infomask_from_infobits (infobits_set rec) (Z.ldiff (t_infomask t) (Z.lor HEAP_XMAX_BITS HEAP_MOVED)) (Z.ldiff (t_infomask2 t) HEAP_KEYS_UPDATED).

(** The page is older than the record. *)
Definition heap_xlog_lock_updated (block : Z) (rec : xl_heap_lock) rel : result LockRel :=
  let frozen := xlog_clear_frozen block rec rel in
  match versions rel !! (block, lock_offnum rec) with
  | None => Err (Elog "invalid lp")
  | Some htup =>
      let '(infomask, infomask2) := xlog_lock_bits rec htup in
      let htup := mkHeapTuple (t_xmin htup) (lock_xmax rec) (t_xvac htup) (t_ctid htup) infomask2 infomask (t_values htup) in
      Ok (mkLockRel (<[(block, lock_offnum rec) := htup]> (versions rel)) (all_visible rel) frozen (lock_log rel))
  end.

Definition heap_xlog_lock (block : Z) (rec : xl_heap_lock) rel : result LockRel :=
  let frozen := xlog_clear_frozen block rec rel in
  match versions rel !! (block, lock_offnum rec) with
  | None => Err (Elog "invalid lp")
  | Some htup =>
      let '(infomask, infomask2) := xlog_lock_bits rec htup in
      let '(infomask2, ctid) :=
        if HEAP_XMAX_IS_LOCKED_ONLY infomask then (Z.ldiff infomask2 HEAP_HOT_UPDATED, ItemPointerSet block (lock_offnum rec)) else (infomask2, t_ctid htup) in
      let htup := HeapTupleHeaderSetCmax 0 false (mkHeapTuple (t_xmin htup) (lock_xmax rec) (t_xvac htup) ctid infomask2 infomask (t_values htup)) in
      Ok (mkLockRel (<[(block, lock_offnum rec) := htup]> (versions rel)) (all_visible rel) frozen (lock_log rel))
  end.

(** The end of heap_lock_tuple, once the new fields are known. *)
Definition store_lock (NeedsWAL : bool) tid t (new_xmax new_infomask new_infomask2 : Z) rel : Tuple * LockRel :=
  let t := set_xmax_bits new_xmax new_infomask new_infomask2 t in
  let locked_only := HEAP_XMAX_IS_LOCKED_ONLY new_infomask in
  let t := mkHeapTuple (t_xmin t) (t_xmax t) (t_xvac t) (if locked_only then tid else t_ctid t)
             (if locked_only then Z.ldiff (t_infomask2 t) HEAP_HOT_UPDATED else t_infomask2 t) (t_infomask t) (t_values t) in
  let block := ItemPointerGetBlockNumber tid in
  let cleared := bool_decide (block ∈ all_visible rel) && bool_decide (block ∈ all_frozen rel) in
  let frozen := if cleared then all_frozen rel ∖ {[block]} else all_frozen rel in
  let log :=
    if NeedsWAL then
      lock_log rel ++ [(block, mkLockRecord new_xmax (ItemPointerGetOffsetNumber tid) (compute_infobits new_infomask (t_infomask2 t))
                                 (if cleared then XLH_LOCK_ALL_FROZEN_CLEARED else 0))]
    else lock_log rel in
  (t, mkLockRel (<[tid_place tid := t]> (versions rel)) (all_visible rel) frozen log).
End chains.
Arguments LockRel : clear implicits.
