(* ===== verification/ChainLocking.v ===== *)
(** Row locks exclude each other: the conflict tests let through only what goes together with
    every holder, and the walk along the versions of a row keeps every lock and takes its own on
    each version.  Replay of its records gives the same relation. *)

From S2P Require Import Prelude Xid Bufpage Itup Compact PageOps HeapPage HotChain HeapPrune Clog ClogPages Combocid Visibility Freeze Freezing Multixact Members Multis RowLocks RowLocking ChainLock.

(** * Conflicts between statuses *)

Definition status_conflict (held wanted : Z) : result bool := h ← LOCKMODE_from_mxstatus held; w ← LOCKMODE_from_mxstatus wanted; DoLockModesConflict h w.
Definition conflicts (held wanted : Z) : bool := match status_conflict held wanted with Ok c => c | Err _ => false end.

Lemma lock_status_cases st : 0 ≤ st ≤ MultiXactStatusUpdate → st = 0 ∨ st = 1 ∨ st = 2 ∨ st = 3 ∨ st = 4 ∨ st = 5.
Proof. unfold MultiXactStatusUpdate. lia. Qed.

Lemma status_conflict_total held wanted : 0 ≤ held ≤ MultiXactStatusUpdate → 0 ≤ wanted ≤ MultiXactStatusUpdate → status_conflict held wanted = Ok (conflicts held wanted).
Proof. intros [->|[->|[->|[->|[->| ->]]]]]%lock_status_cases [->|[->|[->|[->|[->| ->]]]]]%lock_status_cases; by vm_compute. Qed.

(** The table of README.tuplock: modes 0 to 3 conflict if they add up to three. *)
Lemma conflicts_sum held wanted : 0 ≤ held ≤ MultiXactStatusUpdate → 0 ≤ wanted ≤ MultiXactStatusUpdate →
  conflicts held wanted = (3 <=? TUPLOCK_from_mxstatus held + TUPLOCK_from_mxstatus wanted).
Proof. intros [->|[->|[->|[->|[->| ->]]]]]%lock_status_cases [->|[->|[->|[->|[->| ->]]]]]%lock_status_cases; by vm_compute. Qed.

Lemma updater_conflicts held wanted : 0 ≤ held ≤ MultiXactStatusUpdate → 0 ≤ wanted ≤ MultiXactStatusUpdate → MultiXactStatusForUpdate < held → MultiXactStatusForUpdate < wanted → conflicts held wanted = true.
Proof. intros [->|[->|[->|[->|[->| ->]]]]]%lock_status_cases [->|[->|[->|[->|[->| ->]]]]]%lock_status_cases; by vm_compute. Qed.

(** The status a lock of [mode] gives. *)
Definition wanted_status (mode : Z) : Z := match get_mxact_status_for_lock mode false with Ok st => st | Err _ => 0 end.

Lemma wanted_ok mode : 0 ≤ mode ≤ 3 → get_mxact_status_for_lock mode false = Ok (wanted_status mode) ∧ 0 ≤ wanted_status mode ≤ MultiXactStatusForUpdate ∧ TUPLOCK_from_mxstatus (wanted_status mode) = mode.
Proof. intros Hmode. destruct (mode_cases mode Hmode) as [->|[->|[->| ->]]]; split_and!; by vm_compute. Qed.

(** * The bits that are stored *)

Definition LOCK_BITS : Z := Z.lor (Z.lor (Z.lor HEAP_XMAX_IS_MULTI HEAP_XMAX_LOCK_ONLY) HEAP_XMAX_EXCL_LOCK) HEAP_XMAX_KEYSHR_LOCK.
Definition bits_ok (im im2 : Z) : Prop := Z.land im LOCK_BITS = im ∧ Z.land im2 HEAP_KEYS_UPDATED = im2 ∧ HEAP_LOCKED_UPGRADED im = false.

Section bits.
Context {X : Xacts}.

Lemma hint_bits_ok ms multi bits bits2 : @GetMultiXactIdHintBits (with_members ms) multi = (bits, bits2) → bits_ok bits bits2.
Proof.
  unfold GetMultiXactIdHintBits. cbn [Visibility.GetMultiXactIdMembers with_members]. fold (strength ms LockTupleKeyShare).
  pose proof (strength_range ms LockTupleKeyShare ltac:(done)) as Hs. set (st := strength ms LockTupleKeyShare) in *. clearbody st. destruct (existsb _ ms), (existsb _ ms);
    destruct (mode_cases st Hs) as [->|[->|[->| ->]]]; intros [= <- <-]; split_and!; by vm_compute.
Qed.

Lemma sole_bits add mode is_update x im im2 : sole_holder add mode is_update = Ok (x, im, im2) → bits_ok im im2.
Proof. unfold sole_holder. intros E. repeat case_match; simplify_eq; split_and!; by vm_compute. Qed.

Lemma multi_result_bits r ov x im im2 mx : multi_holders r ov = Ok (x, im, im2, mx) → bits_ok im im2.
Proof.
  unfold multi_holders. destruct r as [[[x' s] c]|]; rsimpl; [|done]. destruct (read_members_of ov x' false (s, c)) as [[ms mx']|]; rsimpl; [|done].
  destruct (@GetMultiXactIdHintBits (with_members ms) x') as [bits bits2] eqn:E. intros [= <- <- <- <-]. by eapply hint_bits_ok.
Qed.

Definition result_bits (r : result (Z * Z * Z * MX)) : Prop := ∀ x im im2 mx, r = Ok (x, im, im2, mx) → bits_ok im im2.

Lemma result_sole add mode is_update (mx : MX) : result_bits (r ← sole_holder add mode is_update; Ok (r, mx)).
Proof. intros x im im2 mx' E. destruct (sole_holder add mode is_update) as [[[x' im'] im2']|] eqn:Es; [|done]. cbn [mbind result_bind] in E. injection E as <- <- <- <-. by eapply sole_bits. Qed.

Lemma result_multi (r : result Z) f ov : result_bits (st ← r; multi_holders (f st) ov).
Proof. intros x im im2 mx E. destruct r as [st|]; [|done]. by eapply multi_result_bits. Qed.

Lemma compute_bits ov xmax im im2 add mode is_update mx : result_bits (compute_new_xmax_infomask ov xmax im im2 add mode is_update mx).
Proof.
  unfold compute_new_xmax_infomask. destruct (has_flag im HEAP_XMAX_INVALID); [apply result_sole|]. destruct (has_flag im HEAP_XMAX_IS_MULTI).
  - destruct (HEAP_LOCKED_UPGRADED im); [apply result_sole|]. destruct (read_members_of _ _ _ _) as [[ms mx1]|]; rsimpl; [|done].
    match goal with |- result_bits (?r ≫= _) => destruct r as [[[] mx2]|] end; rsimpl; [apply result_sole|apply result_multi|done].
  - destruct (has_flag im HEAP_XMAX_COMMITTED); [apply result_multi|]. destruct (TransactionIdIsInProgress xmax).
    + destruct (xmax_status im im2); [|apply result_sole]. destruct (xmax =? add); [apply result_sole|apply result_multi].
    + destruct (_ && _); [apply result_multi|apply result_sole].
Qed.
End bits.

(** * Versions *)

Section versions.
Context {X : Xacts} {A : Type}.
Abbreviation Tuple := (@HeapTupleHeaderData A).
Abbreviation Table := (gmap Z (list (Z * Z))).
Abbreviation alive := (counts TransactionIdIsInProgress DidCommit).
Implicit Types (t : Tuple) (T : Table) (ms : list (Z * Z)) (tid : ItemPointerData).

Definition tuple_holders T t : list (Z * Z) := holders T (t_xmax t) (t_infomask t) (t_infomask2 t).
Definition tuple_ok T t : Prop := header_ok T (t_xmax t) (t_infomask t) (t_infomask2 t) ∧ HEAP_LOCKED_UPGRADED (t_infomask t) = false.

(** No two transactions have locks that conflict. *)
Definition exclusive T t : Prop := ∀ m1 m2, m1 ∈ tuple_holders T t → m2 ∈ tuple_holders T t → SubTransTopmost m1.1 ≠ SubTransTopmost m2.1 → conflicts m1.2 m2.2 = false.

(** Everything about holders depends on these bits alone. *)
Definition same_bits (im im2 im' im2' : Z) : Prop :=
  (∀ f, Z.land f HEAP_XMAX_BITS = f → Z.land im' f = Z.land im f) ∧ has_flag im2' HEAP_KEYS_UPDATED = has_flag im2 HEAP_KEYS_UPDATED.

Lemma same_bits_facts im im2 im' im2' : same_bits im im2 im' im2' →
  has_flag im' HEAP_XMAX_INVALID = has_flag im HEAP_XMAX_INVALID ∧ has_flag im' HEAP_XMAX_IS_MULTI = has_flag im HEAP_XMAX_IS_MULTI ∧
  has_flag im' HEAP_XMAX_COMMITTED = has_flag im HEAP_XMAX_COMMITTED ∧ HEAP_LOCKED_UPGRADED im' = HEAP_LOCKED_UPGRADED im ∧
  HEAP_XMAX_IS_LOCKED_ONLY im' = HEAP_XMAX_IS_LOCKED_ONLY im ∧ xmax_status im' im2' = xmax_status im im2.
Proof.
  intros [H H2]. unfold HEAP_LOCKED_UPGRADED, xmax_status, HEAP_XMAX_IS_KEYSHR_LOCKED, HEAP_XMAX_IS_SHR_LOCKED, HEAP_XMAX_IS_EXCL_LOCKED, HEAP_XMAX_IS_LOCKED_ONLY. rewrite !H2. unfold has_flag. by rewrite !H by by vm_compute.
Qed.

Lemma same_holders T x im im2 im' im2' : same_bits im im2 im' im2' → holders T x im' im2' = holders T x im im2.
Proof. intros (E1 & E2 & _ & E4 & _ & E6)%same_bits_facts. unfold holders. by rewrite E1, E2, E4, E6. Qed.

Lemma same_header T x im im2 im' im2' : same_bits im im2 im' im2' → header_ok T x im im2 → header_ok T x im' im2'.
Proof. intros (E1 & E2 & E3 & E4 & E5 & E6)%same_bits_facts [H1 H2 H3]. constructor; by rewrite ?E1, ?E2, ?E3, ?E4, ?E5. Qed.

Lemma stored_bits x im im2 t : same_bits im im2 (t_infomask (set_xmax_bits x im im2 t)) (t_infomask2 (set_xmax_bits x im im2 t)).
Proof.
  split.
  - intros f Hf. cbn. by apply replaced_inside.
  - cbn. rewrite has_flag_lor. unfold has_flag at 1. replace (Z.land (Z.ldiff (t_infomask2 t) HEAP_KEYS_UPDATED) HEAP_KEYS_UPDATED) with 0; [done|].
    apply Z.bits_inj'. intros n Hn. rewrite Z.land_spec, Z.ldiff_spec, Z.bits_0. by destruct (Z.testbit (t_infomask2 t) n), (Z.testbit HEAP_KEYS_UPDATED n).
Qed.

(** A bigger table changes nothing for sound fields. *)
Lemma holders_mono T T' t : T ⊆ T' → tuple_ok T t → tuple_holders T' t = tuple_holders T t.
Proof.
  intros Hsub [[H1 _ _] Hu]. unfold tuple_holders, holders. destruct (has_flag (t_infomask t) HEAP_XMAX_INVALID); [done|]. destruct (has_flag (t_infomask t) HEAP_XMAX_IS_MULTI); [|done].
  rewrite Hu in *. destruct (H1 eq_refl eq_refl eq_refl) as (_ & ms & HT & _). by rewrite HT, (lookup_weaken _ _ _ _ HT Hsub).
Qed.

Lemma tuple_ok_mono T T' t : T ⊆ T' → tuple_ok T t → tuple_ok T' t.
Proof.
  intros Hsub [[H1 H2 H3] Hu]. split; [|done]. constructor; [|done|done]. intros E1 E2 E3. destruct (H1 E1 E2 E3) as (Hid & ms & HT & Hl). split; [done|]. exists ms. split; [by eapply lookup_weaken|done].
Qed.

Lemma exclusive_mono T T' t : T ⊆ T' → tuple_ok T t → exclusive T t → exclusive T' t.
Proof. intros Hsub Hok He m1 m2. rewrite (holders_mono T T' t Hsub Hok). apply He. Qed.

Lemma holder_status T t m : table_ok T → m ∈ tuple_holders T t → 0 ≤ m.2 ≤ MultiXactStatusUpdate.
Proof.
  intros Ht. unfold tuple_holders, holders. destruct (has_flag _ _); [by intros ?%not_elem_of_nil|]. destruct (has_flag _ _).
  - destruct (HEAP_LOCKED_UPGRADED _); [by intros ?%not_elem_of_nil|]. destruct (T !! t_xmax t) as [ms|] eqn:HT; cbn [default from_option]; intros [_ Hin]%list_elem_of_filter; [|by apply not_elem_of_nil in Hin].
    destruct (Ht _ _ HT) as [_ Hf]. rewrite Forall_forall in Hf. by apply Hf.
  - destruct (xmax_status _ _) eqn:E; [|by intros ?%not_elem_of_nil]. intros [_ ->%list_elem_of_singleton]%list_elem_of_filter. cbn [snd]. by eapply status_range.
Qed.

(** * The tests *)

Lemma none_alive ms : Forall (λ m, m.2 ≤ MultiXactStatusForUpdate) ms → Forall (λ m, TransactionIdIsInProgress m.1 = false) ms → filter alive ms = [].
Proof.
  intros Hle Hnr. apply elem_of_nil_inv. intros m [Ha Hin]%list_elem_of_filter. rewrite Forall_forall in *. specialize (Hle m Hin). specialize (Hnr m Hin). destruct Ha as [Ha|[Ha _]]; [congruence|]. cbn beta in Hle. lia.
Qed.

(** The members as they are read; none if the MultiXactId is reported as gone. *)
Lemma read_version (ov j0 lo : Z) (b : nat) E hist sys T t ms : system_ok j0 lo E hist sys T → T !! t_xmax t = Some ms →
  (HEAP_XMAX_IS_LOCKED_ONLY (t_infomask t) = true → Forall (λ m, m.2 ≤ MultiXactStatusForUpdate) ms) →
  (MultiXactIdPrecedes (t_xmax t) ov = true → Forall (λ m, TransactionIdIsInProgress m.1 = false) ms) →
  ∃ ms1 c, read_members_of ov (t_xmax t) (HEAP_XMAX_IS_LOCKED_ONLY (t_infomask t)) (shared sys, cache_of sys b) = Ok (ms1, (shared sys, c)) ∧ cache_ok j0 hist c ∧
    (ms1 = ms ∨ ms1 = [] ∧ Forall (λ m, m.2 ≤ MultiXactStatusForUpdate) ms ∧ Forall (λ m, TransactionIdIsInProgress m.1 = false) ms).
Proof.
  intros Hs HT Hlo Hgone. destruct (read_total j0 lo b E hist sys T ov (t_xmax t) ms (HEAP_XMAX_IS_LOCKED_ONLY (t_infomask t)) Hs HT) as [rr Er]. rewrite Er. destruct (HEAP_XMAX_IS_LOCKED_ONLY (t_infomask t)).
  - destruct (read_lock_only j0 lo b E hist sys T ov (t_xmax t) ms rr Hs HT Hgone Er) as (ms1 & c & -> & Hc & Hms1). exists ms1, c. split_and!; [done|done|]. destruct Hms1 as [->|[-> Hf]]; [by left|right; auto].
  - destruct (read_ok j0 lo b E hist sys T ov (t_xmax t) ms rr Hs HT Er) as (c & -> & Hc). exists ms, c. auto.
Qed.

Section tests.
Context (DidAbort : Z → bool) (ov xid mode : Z).
Context (Hcur : ∀ x, TransactionIdIsCurrentTransactionId x = true → TransactionIdIsInProgress x = true).
Context (Habort : ∀ x, DidAbort x = true → DidCommit x = false).
Context (Hmode : 0 ≤ mode ≤ 3).

(** What the verdict says of the holders. *)
Definition verdict_ok (v : verdict) tid t (ms : list (Z * Z)) : Prop :=
  match v with
  | Proceed => ∀ m, m ∈ ms → alive m → TransactionIdIsCurrentTransactionId m.1 = false ∧ conflicts m.2 (wanted_status mode) = false
  | Skip => ∃ m, m ∈ ms ∧ TransactionIdIsCurrentTransactionId m.1 = true
  | WaitFor x => ∃ st, (x, st) ∈ ms ∧ TransactionIdIsInProgress x = true ∧ TransactionIdIsCurrentTransactionId x = false ∧ conflicts st (wanted_status mode) = true
  | Fail res => ∃ m, m ∈ ms ∧ MultiXactStatusForUpdate < m.2 ∧ DidCommit m.1 = true ∧ conflicts m.2 (wanted_status mode) = true ∧ res = updated_or_deleted tid t
  end.

Lemma test_cases m tid t : 0 ≤ m.2 ≤ MultiXactStatusUpdate → ∃ res needwait, test_lockmode_for_conflict DidAbort m.2 m.1 mode tid t = Ok (res, needwait) ∧
  ((res = TM_SelfModified ∧ TransactionIdIsCurrentTransactionId m.1 = true) ∨
   (res = TM_Ok ∧ needwait = true ∧ TransactionIdIsCurrentTransactionId m.1 = false ∧ TransactionIdIsInProgress m.1 = true ∧ conflicts m.2 (wanted_status mode) = true) ∨
   (res = TM_Ok ∧ needwait = false ∧ TransactionIdIsCurrentTransactionId m.1 = false ∧ (alive m → conflicts m.2 (wanted_status mode) = false)) ∨
   ((res = TM_Updated ∨ res = TM_Deleted) ∧ needwait = false ∧ res = updated_or_deleted tid t ∧ MultiXactStatusForUpdate < m.2 ∧ DidCommit m.1 = true ∧ conflicts m.2 (wanted_status mode) = true)).
Proof using Hmode Habort.
  intros Hst. destruct (wanted_ok mode Hmode) as (Ew & Hw & _). unfold test_lockmode_for_conflict. rewrite Ew. rsimpl. fold (status_conflict m.2 (wanted_status mode)).
  assert (Hwu : 0 ≤ (wanted_status mode) ≤ MultiXactStatusUpdate) by (unfold MultiXactStatusForUpdate, MultiXactStatusUpdate in *; lia). rewrite (status_conflict_total _ _ Hst Hwu). rsimpl.
  destruct (TransactionIdIsCurrentTransactionId m.1) eqn:Hc; [eauto 10|]. destruct (TransactionIdIsInProgress m.1) eqn:Hp.
  { eexists _, _. split; [done|]. destruct (conflicts m.2 (wanted_status mode)) eqn:Hx; [by eauto 10|]. right; right; left. auto. }
  assert (Hdead : DidCommit m.1 = false → alive m → conflicts m.2 (wanted_status mode) = false) by (intros H [H'|[_ H']]; congruence).
  destruct (DidAbort m.1) eqn:Ha. { eexists _, _. split; [done|]. right; right; left. split_and!; auto. }
  destruct (DidCommit m.1) eqn:Hd; [|eexists _, _; split; [done|]; right; right; left; split_and!; auto].
  unfold ISUPDATE_from_mxstatus. destruct (Z.ltb_spec 3 m.2) as [Hu|Hu]; cbn [negb].
  - eexists _, _. split; [done|]. destruct (conflicts m.2 (wanted_status mode)) eqn:Hx; [|by right; right; left]. right; right; right. split_and!; try done.
    unfold updated_or_deleted. destruct (negb _); auto.
  - eexists _, _. split; [done|]. right; right; left. split_and!; [done|done|done|]. intros [H|[H _]]; [congruence|]. unfold MultiXactStatusForUpdate in H. lia.
Qed.

Lemma test_members_spec tid t ms : Forall (λ m, 0 ≤ m.2 ≤ MultiXactStatusUpdate) ms → ∃ v, test_members DidAbort ms mode tid t = Ok v ∧ verdict_ok v tid t ms.
Proof using Hmode Habort.
  intros Hf. induction Hf as [|m ms Hm _ (v & Ev & Hv)]; cbn [test_members]; [exists Proceed; split; [done|]; by intros m ?%not_elem_of_nil|].
  destruct (test_cases m tid t Hm) as (res & needwait & E & Hc). rewrite E. rsimpl. destruct Hc as [[-> Hc]|[(-> & -> & Hc & Hp & Hx)|[(-> & -> & Hc & Hx)|(Hres & -> & Eres & Hu & Hd & Hx)]]].
  - exists Skip. split; [done|]. exists m. split; [left|done].
  - exists (WaitFor m.1). split; [done|]. exists m.2. split_and!; [destruct m; left|done|done|done].
  - exists v. split; [done|]. destruct v; cbn [verdict_ok] in *.
    + intros m' [->|Hin]%elem_of_cons; auto.
    + destruct Hv as (m' & ? & ?). exists m'. split; [by right|done].
    + destruct Hv as (st & ? & ?). exists st. split; [by right|done].
    + destruct Hv as (m' & ? & ?). exists m'. split; [by right|done].
  - exists (Fail res). split; [by destruct Hres as [-> | ->]|]. exists m. split_and!; [left|done..].
Qed.

(** The same of the members that count. *)
Lemma alive_verdict v tid t ms : verdict_ok v tid t ms → verdict_ok v tid t (filter alive ms).
Proof using Hcur.
  destruct v; cbn [verdict_ok].
  - intros H m [Ha Hin]%list_elem_of_filter _. by apply H.
  - intros (m & Hin & Hc). exists m. split; [|done]. apply list_elem_of_filter. split; [left; by apply Hcur|done].
  - intros (st & Hin & Hp & H). exists st. split; [|done]. apply list_elem_of_filter. split; [by left|done].
  - intros (m & Hin & Hu & Hd & H). exists m. split; [|done]. apply list_elem_of_filter. split; [by right|done].
Qed.

(** The same of all holders of a version. *)
Definition holders_verdict (v : verdict) tid t T : Prop := verdict_ok v tid t (tuple_holders T t).

Context (j0 lo : Z) (b : nat).

Lemma test_version_spec E hist sys T tid t : system_ok j0 lo E hist sys T → table_ok T → tuple_ok T t →
  (∀ ms, T !! t_xmax t = Some ms → MultiXactIdPrecedes (t_xmax t) ov = true → Forall (λ m, TransactionIdIsInProgress m.1 = false) ms) →
  (test_version DidAbort ov mode tid t (shared sys, cache_of sys b) = Err (Elog "invalid lock status in tuple") ∧ xmax_status (t_infomask t) (t_infomask2 t) = None) ∨
  ∃ v c, test_version DidAbort ov mode tid t (shared sys, cache_of sys b) = Ok (v, (shared sys, c)) ∧ cache_ok j0 hist c ∧ holders_verdict v tid t T.
Proof using Hmode Habort Hcur.
  intros Hs Ht [Hh Hup] Hgone. unfold test_version, holders_verdict, tuple_holders, holders. destruct (has_flag (t_infomask t) HEAP_XMAX_INVALID) eqn:Hinv.
  { right. eexists Proceed, _. split; [done|]. split; [apply (so_caches _ _ _ _ _ _ Hs)|]. by intros m ?%not_elem_of_nil. }
  destruct (has_flag (t_infomask t) HEAP_XMAX_IS_MULTI) eqn:Hmulti.
  - right. rewrite Hup. destruct (ho_multi _ _ _ _ Hh Hinv Hmulti Hup) as (_ & ms & HT & Hlo). rewrite HT. change (default [] (Some ms)) with ms. destruct (Ht _ _ HT) as [_ Hst].
    destruct (read_version ov j0 lo b E hist sys T t ms Hs HT (proj1 Hlo) (Hgone ms HT)) as (ms1 & c & Er & Hc & Hms1). rewrite Er. rsimpl.
    destruct (test_members_spec tid t ms1) as (v & Ev & Hv); [by destruct Hms1 as [->|[-> _]]|]. rewrite Ev. rsimpl. exists v, c. split_and!; [done|done|].
    destruct Hms1 as [->|(-> & Hle & Hnr)]; [by apply alive_verdict|]. by rewrite none_alive.
  - destruct (xmax_status (t_infomask t) (t_infomask2 t)) as [st|] eqn:Est; [right|by left]. destruct (test_members_spec tid t [(t_xmax t, st)]) as (v & Ev & Hv); [repeat constructor; by eapply status_range|].
    rewrite Ev. rsimpl. eexists v, _. split; [done|]. split; [apply (so_caches _ _ _ _ _ _ Hs)|by apply alive_verdict].
Qed.
End tests.

(** * The walk *)

(** What happens to a version: no holder is lost, and only [xid] is added. *)
Record kept_tuple (xid mode : Z) T t T' t' : Prop := {
  kt_data : t_xmin t' = t_xmin t ∧ t_xvac t' = t_xvac t ∧ t_ctid t' = t_ctid t ∧ t_values t' = t_values t;
  kt_holders : ∀ m, m ∈ tuple_holders T t → m ∈ tuple_holders T' t';
  kt_new : ∀ m, m ∈ tuple_holders T' t' → m ∈ tuple_holders T t ∨ m.1 = xid ∧ TUPLOCK_from_mxstatus m.2 = mode;
}.

Definition kept (xid mode : Z) T (rel : LockRel A) T' (rel' : LockRel A) : Prop := ∀ k,
  match versions rel !! k with
  | None => versions rel' !! k = None
  | Some t => ∃ t', versions rel' !! k = Some t' ∧ kept_tuple xid mode T t T' t'
  end.

(** Sound relations: sound fields, and locks that exclude each other. *)
Definition rel_ok T (rel : LockRel A) : Prop := map_Forall (λ _ t, tuple_ok T t ∧ exclusive T t) (versions rel).

(** The links do not lead back: each goes to a place of a lower rank, or to the version itself. *)
Definition canonical tid : Prop := ItemPointerSet (ItemPointerGetBlockNumber tid) (ItemPointerGetOffsetNumber tid) = tid.
Definition ranked (rank : Place → nat) (rel : LockRel A) : Prop :=
  map_Forall (λ k t, canonical (t_ctid t) ∧ (tid_place (t_ctid t) ≠ k → (rank (tid_place (t_ctid t)) < rank k)%nat)) (versions rel).

(** One of the holders is of the current transaction. *)
Definition ours T t : Prop := ∃ m, m ∈ tuple_holders T t ∧ TransactionIdIsCurrentTransactionId m.1 = true.

(** The members of an updated version, the end of the chain and the next transaction, by the table. *)
Definition chain_members T t : list (Z * Z) :=
  if negb (has_flag (t_infomask t) HEAP_XMAX_INVALID) && has_flag (t_infomask t) HEAP_XMAX_IS_MULTI && negb (has_flag (t_infomask t) HEAP_XMAX_LOCK_ONLY)
  then default [] (T !! t_xmax t) else [].
Definition ended T tid t : bool :=
  has_flag (t_infomask t) HEAP_XMAX_INVALID || ItemPointerIndicatesMovedPartitions (t_ctid t) || ItemPointerEquals tid (t_ctid t) ||
  @HeapTupleHeaderIsOnlyLocked (with_members (chain_members T t)) A t.
Definition updater_of T t : Z := HeapTupleHeaderGetUpdateXid (@HeapTupleGetUpdateXid (with_members (chain_members T t)) A) t.

(** Every version of the chain from [tid] on is held by the current transaction. *)
Inductive chain_locked (DidAbort : Z → bool) T (rel : LockRel A) : Z → ItemPointerData → Prop :=
  | cl_missing prior tid : versions rel !! tid_place tid = None → chain_locked DidAbort T rel prior tid
  | cl_other prior tid t : versions rel !! tid_place tid = Some t → TransactionIdIsValid prior && negb (HeapTupleHeaderGetXmin t =? prior) = true → chain_locked DidAbort T rel prior tid
  | cl_aborted prior tid t : versions rel !! tid_place tid = Some t → DidAbort (HeapTupleHeaderGetXmin t) = true → chain_locked DidAbort T rel prior tid
  | cl_last prior tid t : versions rel !! tid_place tid = Some t → ours T t → ended T tid t = true → chain_locked DidAbort T rel prior tid
  | cl_next prior tid t : versions rel !! tid_place tid = Some t → ours T t → chain_locked DidAbort T rel (updater_of T t) (t_ctid t) → chain_locked DidAbort T rel prior tid.

Lemma members_mono T T' t : T ⊆ T' → tuple_ok T t → chain_members T' t = chain_members T t.
Proof.
  intros Hsub [[H1 _ _] Hu]. unfold chain_members. destruct (has_flag (t_infomask t) HEAP_XMAX_INVALID); [done|]. destruct (has_flag (t_infomask t) HEAP_XMAX_IS_MULTI); [|done]. cbn [negb andb].
  destruct (has_flag _ _); [done|]. destruct (H1 eq_refl eq_refl Hu) as (_ & ms & HT & _). by rewrite HT, (lookup_weaken _ _ _ _ HT Hsub).
Qed.

Lemma kept_tuple_refl xid mode T T' t : T ⊆ T' → tuple_ok T t → kept_tuple xid mode T t T' t.
Proof. intros Hsub Hok. constructor; [done| |]; rewrite (holders_mono T T' t Hsub Hok); auto. Qed.

Lemma kept_tuple_trans xid mode T t T1 t1 T2 t2 : kept_tuple xid mode T t T1 t1 → kept_tuple xid mode T1 t1 T2 t2 → kept_tuple xid mode T t T2 t2.
Proof.
  intros [(? & ? & ? & ?) Hh Hn] [(? & ? & ? & ?) Hh' Hn']. constructor; [split_and!; congruence|auto|]. intros m [Hm|Hm]%Hn'; auto.
Qed.

Lemma kept_trans xid mode T rel T1 rel1 T2 rel2 : kept xid mode T rel T1 rel1 → kept xid mode T1 rel1 T2 rel2 → kept xid mode T rel T2 rel2.
Proof.
  intros H1 H2 k. specialize (H1 k). specialize (H2 k). destruct (versions rel !! k) as [t|]; [|by rewrite H1 in H2]. destruct H1 as (t1 & E1 & K1). rewrite E1 in H2. destruct H2 as (t2 & E2 & K2).
  exists t2. split; [done|by eapply kept_tuple_trans].
Qed.

Lemma canonical_place tid tid' : canonical tid → canonical tid' → tid_place tid = tid_place tid' → tid = tid'.
Proof. unfold canonical, tid_place. intros H H' [= E1 E2]. by rewrite <- H, <- H', E1, E2. Qed.

Section walk.
Context (DidAbort : Z → bool) (NeedsWAL : bool) (ov xid mode : Z).
Context (Hcur : ∀ x, TransactionIdIsCurrentTransactionId x = true → TransactionIdIsInProgress x = true).
Context (Htop : ∀ x, TransactionIdIsCurrentTransactionId x = true → SubTransTopmost x = SubTransTopmost xid).
Context (Habort : ∀ x, DidAbort x = true → DidCommit x = false).
Context (Hown : TransactionIdIsCurrentTransactionId xid = true) (Hvalid : TransactionIdIsValid xid = true) (Hmode : 0 ≤ mode ≤ 3).
Context (j0 lo : Z) (b : nat) (sys : System).

(** The state with the changes of this backend. *)
Definition state_ok (E : Z) (hist : History) T (mx : MX) : Prop := system_ok j0 lo E hist (updated b mx.1 mx.2 sys) T.

(** MultiXactIds that are reported as gone have no running members; new ids are not reported. *)
Definition gone_ok T : Prop := ∀ multi ms, T !! multi = Some ms → MultiXactIdPrecedes multi ov = true → Forall (λ m, TransactionIdIsInProgress m.1 = false) ms.
Definition fresh (hist : History) (n : Z) : Prop := ∀ k, zlen hist ≤ k < zlen hist + n → MultiXactIdPrecedes (mid (j0 + k)) ov = false.

Lemma state_pair (mx : MX) : (shared (updated b mx.1 mx.2 sys), cache_of (updated b mx.1 mx.2 sys) b) = mx.
Proof. rewrite cache_of_updated. by destruct mx. Qed.

Lemma state_cache E hist T (mx : MX) c : state_ok E hist T mx → cache_ok j0 hist c → state_ok E hist T (mx.1, c).
Proof. intros Hs Hc. unfold state_ok. cbn [fst snd]. rewrite <- (updated_updated b mx.1 mx.2). by apply (use_cache j0 lo b E hist (updated b mx.1 mx.2 sys) T c). Qed.

Lemma gone_grown hist T hist' T' : gone_ok T → fresh hist 1 → grown j0 hist T hist' T' → gone_ok T'.
Proof. intros Hg Hf [_ Hc Hn] multi ms HT Hp. destruct (Hn multi ms HT) as [H|[-> _]]; [by eapply Hg|]. rewrite Hf in Hp by lia. done. Qed.

Lemma exclusive_added T t T' t' : table_ok T → table_ok T' → exclusive T t → (∀ m, m ∈ tuple_holders T t → conflicts m.2 (wanted_status mode) = false) →
  (∀ m, m ∈ tuple_holders T' t' → m ∈ tuple_holders T t ∨ m.1 = xid ∧ TUPLOCK_from_mxstatus m.2 = mode) → exclusive T' t'.
Proof using Hmode.
  intros Ht Ht' He Hw Hn m1 m2 H1 H2 Hne. pose proof (holder_status T' t' m1 Ht' H1) as S1. pose proof (holder_status T' t' m2 Ht' H2) as S2.
  destruct (wanted_ok mode Hmode) as (_ & Sw & Ew). assert (Sw' : 0 ≤ wanted_status mode ≤ MultiXactStatusUpdate) by (unfold MultiXactStatusForUpdate, MultiXactStatusUpdate in *; lia).
  assert (Hsum : ∀ m, m ∈ tuple_holders T t → 0 ≤ m.2 ≤ MultiXactStatusUpdate → (3 <=? TUPLOCK_from_mxstatus m.2 + mode) = false) by (intros m Hm Sm; rewrite <- Ew, <- conflicts_sum; auto).
  destruct (Hn m1 H1) as [O1|[E1 M1]], (Hn m2 H2) as [O2|[E2 M2]]; [by apply He| | |congruence]; rewrite conflicts_sum by done.
  - rewrite M2. by apply Hsum.
  - rewrite M1, Z.add_comm. by apply Hsum.
Qed.

Lemma lock_version_spec E hist T tid t cleared rel (mx : MX) t' cleared' rel' mx' : state_ok E hist T mx → table_ok T → tuple_ok T t → exclusive T t → gone_ok T → fresh hist 1 →
  holders_verdict mode Proceed tid t T → lock_version NeedsWAL ov xid mode tid t cleared rel mx = Ok (t', cleared', rel', mx') →
  versions rel' = <[tid_place tid := t']> (versions rel) ∧
  ∃ E' hist' T', state_ok E' hist' T' mx' ∧ table_ok T' ∧ grown j0 hist T hist' T' ∧ gone_ok T' ∧ tuple_ok T' t' ∧ exclusive T' t' ∧ kept_tuple xid mode T t T' t' ∧ ours T' t'.
Proof using Hcur Hown Hvalid Hmode.
  intros Hs Ht [Hh Hup] He Hg Hf Hv. unfold lock_version. destruct (compute_new_xmax_infomask _ _ _ _ _ _ _ mx) as [[[[x' im'] im2'] mx1]|] eqn:Ec; rsimpl; [|done].
  pose proof (compute_bits _ _ _ _ _ _ _ _ _ _ _ _ Ec) as (_ & _ & Hup'). rewrite <- (state_pair mx) in Ec.
  pose proof (compute_good j0 lo E hist _ T b ov (t_xmax t) (t_infomask t) (t_infomask2 t) xid mode false Hs Ht Hh (Hcur xid Hown) Hvalid Hmode ltac:(done) (Hg (t_xmax t)) _ Ec) as (E' & hist' & T' & Hs' & Hgr & Ht' & Hh' & Had).
  rewrite updated_updated in Hs'. destruct (if bool_decide _ && bool_decide _ then _ else _) as [cl fr]. intros [= <- <- <- <-]. split; [done|].
  pose proof (stored_bits x' im' im2' t) as Hsb. set (t' := set_xmax_bits x' im' im2' t) in *. assert (Eh : tuple_holders T' t' = holders T' x' im' im2') by (apply (same_holders T' x' im' im2' _ _ Hsb)).
  assert (Hnc : ∀ m, m ∈ tuple_holders T t → TransactionIdIsCurrentTransactionId m.1 = false ∧ conflicts m.2 (wanted_status mode) = false).
  { intros m Hin. apply Hv; [done|]. by eapply holders_alive. }
  assert (Hnew : ∀ m, m ∈ tuple_holders T' t' → m ∈ tuple_holders T t ∨ m.1 = xid ∧ TUPLOCK_from_mxstatus m.2 = mode).
  { rewrite Eh. intros m [Hin|[E1 [E2|(st0 & Hin & _)]]]%(ad_only _ _ _ _ _ _ _ _ _ _ _ Had); [by left|by right|]. destruct (Hnc _ Hin) as [Hc _]. cbn [fst] in Hc. congruence. }
  exists E', hist', T'. split_and!; [done|done|done|by eapply gone_grown| | | |].
  - split; [by apply (same_header T' x' im' im2')|]. by destruct (same_bits_facts _ _ _ _ Hsb) as (_ & _ & _ & -> & _).
  - apply (exclusive_added T t T' t' Ht Ht' He); [|done]. intros m Hin. by apply Hnc.
  - constructor; [done| |done]. rewrite Eh. intros m Hin. apply (ad_others _ _ _ _ _ _ _ _ _ _ _ Had); [done|]. intros Heq. destruct (Hnc _ Hin) as [Hc _]. congruence.
  - destruct (ad_new _ _ _ _ _ _ _ _ _ _ _ Had) as (st & Hin & _). exists (xid, st). by rewrite Eh.
Qed.

Lemma updater_members_spec E hist T t (mx : MX) : state_ok E hist T mx → tuple_ok T t → ∃ c, updater_members ov t mx = Ok (chain_members T t, (mx.1, c)) ∧ cache_ok j0 hist c.
Proof using.
  intros Hs [[H1 _ _] Hu]. unfold updater_members, chain_members. assert (H0 : cache_ok j0 hist mx.2) by (pose proof (so_caches _ _ _ _ _ _ Hs b) as H; by rewrite cache_of_updated in H).
  destruct (has_flag (t_infomask t) HEAP_XMAX_INVALID); [exists mx.2; by destruct mx|]. destruct (has_flag (t_infomask t) HEAP_XMAX_IS_MULTI); [|exists mx.2; by destruct mx].
  cbn [negb andb]. destruct (has_flag _ _); [exists mx.2; by destruct mx|]. cbn [negb]. destruct (H1 eq_refl eq_refl Hu) as (_ & ms & HT & _). rewrite HT. change (default [] (Some ms)) with ms.
  destruct (read_total j0 lo b E hist _ T ov (t_xmax t) ms false Hs HT) as [r Er]. destruct (read_ok j0 lo b E hist _ T ov (t_xmax t) ms r Hs HT Er) as (c & -> & Hc). rewrite state_pair in Er. rewrite Er. by exists c.
Qed.

Lemma chain_end_spec E hist T tid t (mx : MX) : state_ok E hist T mx → tuple_ok T t → ∃ c, chain_end ov tid t mx = Ok (ended T tid t, (mx.1, c)) ∧ cache_ok j0 hist c.
Proof using.
  intros Hs Hok. unfold chain_end, ended. destruct (_ || _ || _).
  - exists mx.2. split; [by destruct mx|]. pose proof (so_caches _ _ _ _ _ _ Hs b) as H. by rewrite cache_of_updated in H.
  - destruct (updater_members_spec E hist T t mx Hs Hok) as (c & -> & Hc). rsimpl. by exists c.
Qed.

Lemma update_xid_spec E hist T t (mx : MX) : state_ok E hist T mx → tuple_ok T t → ∃ c, update_xid ov t mx = Ok (updater_of T t, (mx.1, c)) ∧ cache_ok j0 hist c.
Proof using. intros Hs Hok. unfold update_xid. destruct (updater_members_spec E hist T t mx Hs Hok) as (c & -> & Hc). rsimpl. by exists c. Qed.

(** A version is locked, or left alone as it is held already. *)
Record visited (E : Z) (hist : History) T (rel : LockRel A) tid t (t1 : Tuple) (rel1 : LockRel A) (mx1 : MX) (E1 : Z) (hist1 : History) T1 : Prop := {
  vi_state : state_ok E1 hist1 T1 mx1;
  vi_table : table_ok T1;
  vi_grown : grown j0 hist T hist1 T1;
  vi_gone : gone_ok T1;
  vi_rel : rel_ok T1 rel1;
  vi_kept : kept xid mode T rel T1 rel1;
  vi_versions : versions rel1 = <[tid_place tid := t1]> (versions rel);
  vi_tuple : tuple_ok T1 t1;
  vi_ours : ours T1 t1;
  vi_ctid : t_ctid t1 = t_ctid t;
}.

Lemma visit E hist T rel tid t v cleared (mx : MX) t1 cleared1 rel1 mx1 : state_ok E hist T mx → table_ok T → rel_ok T rel → gone_ok T → fresh hist 1 → versions rel !! tid_place tid = Some t →
  v = Proceed ∨ v = Skip → holders_verdict mode v tid t T → match v with Proceed => lock_version NeedsWAL ov xid mode tid t cleared rel mx | _ => Ok (t, cleared, rel, mx) end = Ok (t1, cleared1, rel1, mx1) →
  ∃ E1 hist1 T1, visited E hist T rel tid t t1 rel1 mx1 E1 hist1 T1.
Proof using Hcur Hown Hvalid Hmode.
  intros Hs Ht Hr Hg Hf Hl Hv Hh Hres. destruct (Hr _ _ Hl) as [Htu Hex]. destruct Hv as [-> | ->].
  - destruct (lock_version_spec E hist T tid t cleared rel mx t1 cleared1 rel1 mx1 Hs Ht Htu Hex Hg Hf Hh Hres) as (Ev & E1 & hist1 & T1 & Hs1 & Ht1 & Hgr & Hg1 & Htu1 & Hex1 & Hk1 & Ho1).
    pose proof (gr_sub _ _ _ _ _ Hgr) as Hsub. exists E1, hist1, T1. constructor; try done; [| |apply (kt_data _ _ _ _ _ _ Hk1)].
    + unfold rel_ok. rewrite Ev. apply map_Forall_insert_2; [done|]. intros k t0 Hk. destruct (Hr _ _ Hk). split; [by eapply tuple_ok_mono|by eapply exclusive_mono].
    + intros k. rewrite Ev. destruct (decide (k = tid_place tid)) as [->|Hne]; [rewrite Hl, lookup_insert_eq; eauto|]. rewrite lookup_insert_ne by done. destruct (versions rel !! k) as [t0|] eqn:E0; [|done].
      exists t0. split; [done|]. apply kept_tuple_refl; [done|]. apply (Hr _ _ E0).
  - injection Hres as <- <- <- <-. exists E, hist, T. constructor; try done; [apply grown_same| |by rewrite insert_id].
    + intros k. destruct (versions rel !! k) as [t0|] eqn:E0; [|done]. exists t0. split; [done|]. apply kept_tuple_refl; [done|]. apply (Hr _ _ E0).
Qed.

(** What an outcome means. *)
Definition outcome_ok (o : walk_outcome) T (rel : LockRel A) (prior : Z) tid : Prop :=
  match o with
  | Done TM_Ok => chain_locked DidAbort T rel prior tid
  | Done res => ∃ k t m, versions rel !! k = Some t ∧ m ∈ tuple_holders T t ∧ MultiXactStatusForUpdate < m.2 ∧ DidCommit m.1 = true ∧ conflicts m.2 (wanted_status mode) = true ∧ (res = TM_Updated ∨ res = TM_Deleted)
  | Waiting x _ tid' _ => ∃ t st, versions rel !! tid_place tid' = Some t ∧ (x, st) ∈ tuple_holders T t ∧ TransactionIdIsInProgress x = true ∧ TransactionIdIsCurrentTransactionId x = false ∧ conflicts st (wanted_status mode) = true
  end.

Definition walk_ok (rank : Place → nat) T rel prior tid (r : result (walk_outcome * LockRel A * MX)) : Prop :=
  match r with
  | Ok (o, rel', mx') => ∃ E' hist' T', state_ok E' hist' T' mx' ∧ table_ok T' ∧ T ⊆ T' ∧ rel_ok T' rel' ∧ kept xid mode T rel T' rel' ∧
      (∀ k, (rank (tid_place tid) < rank k)%nat → versions rel' !! k = versions rel !! k) ∧ outcome_ok o T' rel' prior tid
  | Err e => e = Elog "invalid lock status in tuple" ∨ ∃ t mx, compute_new_xmax_infomask ov (t_xmax t) (t_infomask t) (t_infomask2 t) xid mode false mx = Err e
  end.

Lemma walk_stops rank E hist T rel (mx : MX) o prior tid : state_ok E hist T mx → table_ok T → rel_ok T rel → outcome_ok o T rel prior tid → walk_ok rank T rel prior tid (Ok (o, rel, mx)).
Proof.
  intros Hs Ht Hr Ho. exists E, hist, T. split_and!; try done. intros k. destruct (versions rel !! k) as [t0|] eqn:E0; [|done]. exists t0. split; [done|]. apply kept_tuple_refl; [done|]. apply (Hr _ _ E0).
Qed.

Lemma ours_mono T T' t : T ⊆ T' → tuple_ok T t → ours T t → ours T' t.
Proof. intros Hsub Hok (m & Hin & Hc). exists m. by rewrite (holders_mono T T' t Hsub Hok). Qed.

(** The walk ends with a version. *)
Lemma walk_last rank E hist T rel tid t t1 rel1 mx1 E1 hist1 T1 prior mx2 : visited E hist T rel tid t t1 rel1 mx1 E1 hist1 T1 → state_ok E1 hist1 T1 mx2 → ended T1 tid t1 = true →
  walk_ok rank T rel prior tid (Ok (Done TM_Ok, rel1, mx2)).
Proof.
  intros [Hs Ht Hgr Hg Hr Hk Hv Htu Ho Hct] Hs2 He. exists E1, hist1, T1. split_and!; try done.
  - apply (gr_sub _ _ _ _ _ Hgr).
  - intros k Hlt. rewrite Hv, lookup_insert_ne; [done|]. intros <-. lia.
  - apply cl_last with t1; [by rewrite Hv, lookup_insert_eq|done|done].
Qed.

(** The walk goes on after a version. *)
Lemma walk_on rank E hist T rel tid t t1 rel1 mx1 E1 hist1 T1 prior r : visited E hist T rel tid t t1 rel1 mx1 E1 hist1 T1 → (rank (tid_place (t_ctid t1)) < rank (tid_place tid))%nat →
  walk_ok rank T1 rel1 (updater_of T1 t1) (t_ctid t1) r → walk_ok rank T rel prior tid r.
Proof.
  intros [Hs Ht Hgr Hg Hr Hk Hv Htu Ho Hct] Hrank. destruct r as [[[o rel'] mx']|e]; [|done]. intros (E' & hist' & T' & Hs' & Ht' & Hsub & Hr' & Hk' & Huntouched & Hout).
  exists E', hist', T'. split_and!; try done.
  - etrans; [apply (gr_sub _ _ _ _ _ Hgr)|done].
  - by eapply kept_trans.
  - intros k Hlt. rewrite Huntouched by lia. rewrite Hv, lookup_insert_ne; [done|]. intros <-. lia.
  - destruct o as [res|x prior' tid' cl]; [|done]. destruct res; try done. cbn [outcome_ok] in *. apply cl_next with t1.
    + rewrite Huntouched by done. by rewrite Hv, lookup_insert_eq.
    + by eapply ours_mono.
    + unfold updater_of. by rewrite (members_mono T1 T' t1 Hsub Htu).
Qed.

Lemma lock_version_error tid t cleared rel mx e : lock_version NeedsWAL ov xid mode tid t cleared rel mx = Err e → compute_new_xmax_infomask ov (t_xmax t) (t_infomask t) (t_infomask2 t) xid mode false mx = Err e.
Proof.
  unfold lock_version. destruct (compute_new_xmax_infomask _ _ _ _ _ _ _ mx) as [[[[x' im'] im2'] mx1]|]; rsimpl; [|by intros [= ->]]. by destruct (if bool_decide _ && bool_decide _ then _ else _) as [cl fr].
Qed.

Lemma rank_next rank rel tid t : ranked rank rel → canonical tid → versions rel !! tid_place tid = Some t → ItemPointerEquals tid (t_ctid t) = false → canonical (t_ctid t) ∧ (rank (tid_place (t_ctid t)) < rank (tid_place tid))%nat.
Proof.
  intros Hr Hc Hl Hne. destruct (Hr _ _ Hl) as [Hc' Hlt]. split; [done|]. apply Hlt. intros Heq. apply bool_decide_eq_false in Hne. apply Hne. by apply canonical_place.
Qed.

Lemma ranked_visited rank rel tid t t1 rel1 : ranked rank rel → versions rel !! tid_place tid = Some t → versions rel1 = <[tid_place tid := t1]> (versions rel) → t_ctid t1 = t_ctid t → ranked rank rel1.
Proof. intros Hr Hl Hv Hct. unfold ranked. rewrite Hv. apply map_Forall_insert_2; [rewrite Hct; by apply Hr|done]. Qed.

Lemma walk_spec rank fuel : ∀ prior tid cleared rel mx E hist T, state_ok E hist T mx → table_ok T → rel_ok T rel → gone_ok T → fresh hist (Z.of_nat fuel) → ranked rank rel → canonical tid →
  (rank (tid_place tid) < fuel)%nat → walk_ok rank T rel prior tid (heap_lock_updated_tuple_rec DidAbort NeedsWAL ov fuel prior tid xid mode cleared rel mx).
Proof using Hcur Htop Habort Hown Hvalid Hmode.
  induction fuel as [|fuel IH]; intros prior tid cleared rel mx E hist T Hs Ht Hr Hg Hf Hrk Hcan Hfuel; [lia|]. cbn [heap_lock_updated_tuple_rec].
  destruct (versions rel !! tid_place tid) as [t|] eqn:Hl; [|apply (walk_stops rank E hist); [done..|by apply cl_missing]].
  destruct (TransactionIdIsValid prior && _) eqn:Hprior; [apply (walk_stops rank E hist); [done..|by eapply cl_other]|].
  destruct (DidAbort (HeapTupleHeaderGetXmin t)) eqn:Hab; [apply (walk_stops rank E hist); [done..|by eapply cl_aborted]|].
  destruct (Hr _ _ Hl) as [Htu Hex]. pose proof (test_version_spec DidAbort ov mode Hcur Habort Hmode j0 lo b E hist _ T tid t Hs Ht Htu (Hg (t_xmax t))) as Htv. rewrite state_pair in Htv.
  destruct Htv as [[-> _]|(v & c & -> & Hc & Hv)]; rsimpl; [by left|]. cbn [shared updated]. pose proof (state_cache E hist T mx c Hs Hc) as Hs0. set (mx0 := (mx.1, c)) in *.
  assert (Hgo : v = Proceed ∨ v = Skip → walk_ok rank T rel prior tid
    (r ← match v with Proceed => lock_version NeedsWAL ov xid mode tid t cleared rel mx0 | _ => Ok (t, cleared, rel, mx0) end;
     let '(t1, cleared1, rel1, mx1) := (r : Tuple * bool * LockRel A * MX) in
     r ← chain_end ov tid t1 mx1; let '(last, mx2) := (r : bool * MX) in
     if (last : bool) then Ok (Done TM_Ok, rel1, mx2)
     else r ← update_xid ov t1 mx2; let '(priorXmax, mx3) := (r : Z * MX) in heap_lock_updated_tuple_rec DidAbort NeedsWAL ov fuel priorXmax (t_ctid t1) xid mode cleared1 rel1 mx3)).
  { intros Hgo. destruct (match v with Proceed => lock_version NeedsWAL ov xid mode tid t cleared rel mx0 | _ => Ok (t, cleared, rel, mx0) end) as [[[[t1 cleared1] rel1] mx1]|e] eqn:Hres; rsimpl.
    2: { right. exists t, mx0. destruct Hgo as [-> | ->]; [by eapply lock_version_error|done]. }
    destruct (visit E hist T rel tid t v cleared mx0 t1 cleared1 rel1 mx1 Hs0 Ht Hr Hg ltac:(intros k Hk; apply Hf; lia) Hl Hgo Hv Hres) as (E1 & hist1 & T1 & Hvis). pose proof Hvis as [Hs1 Ht1 Hgr Hg1 Hr1 Hk1 Hv1 Htu1 Ho1 Hct].
    destruct (chain_end_spec E1 hist1 T1 tid t1 mx1 Hs1 Htu1) as (c1 & -> & Hc1). rsimpl. pose proof (state_cache E1 hist1 T1 mx1 c1 Hs1 Hc1) as Hs2. destruct (ended T1 tid t1) eqn:Hend.
    { eapply walk_last; [done|done|done]. }
    destruct (update_xid_spec E1 hist1 T1 t1 (mx1.1, c1) Hs2 Htu1) as (c2 & -> & Hc2). rsimpl. pose proof (state_cache E1 hist1 T1 _ c2 Hs2 Hc2) as Hs3. cbn [fst] in Hs3 |- *.
    assert (Hne : ItemPointerEquals tid (t_ctid t) = false) by (unfold ended in Hend; rewrite Hct in Hend; destruct (ItemPointerEquals tid (t_ctid t)); [by rewrite orb_true_r in Hend|done]).
    destruct (rank_next rank rel tid t Hrk Hcan Hl Hne) as [Hcan' Hlt]. rewrite <- Hct in Hcan', Hlt. eapply walk_on; [done|done|]. pose proof (gr_count _ _ _ _ _ Hgr). apply (IH _ _ _ _ _ E1 hist1); try done; [|by eapply ranked_visited|lia].
    intros k Hk. apply Hf. lia. }
  destruct v as [| |x|res]; [by apply Hgo; left|by apply Hgo; right| |].
  - apply (walk_stops rank E hist); [done..|]. destruct Hv as (st & H). exists t, st. done.
  - apply (walk_stops rank E hist); [done..|]. destruct Hv as (m & Hin & Hu & Hd & Hx & ->). unfold updated_or_deleted. destruct (negb (ItemPointerEquals tid (t_ctid t))); exists (tid_place tid), t, m; auto 10.
Qed.
End walk.
End versions.

(** * Replay *)

Lemma land_flag x (k : Z) : 0 ≤ k → Z.land x (2 ^ k) = if has_flag x (2 ^ k) then 2 ^ k else 0.
Proof.
  intros Hk. assert (E : Z.land x (2 ^ k) = if Z.testbit x k then 2 ^ k else 0).
  { apply Z.bits_inj'. intros n Hn. rewrite Z.land_spec, Z.pow2_bits_eqb by done. destruct (Z.eqb_spec k n) as [<-|Hne].
    - destruct (Z.testbit x k); [by rewrite Z.pow2_bits_true|by rewrite Z.bits_0].
    - rewrite andb_false_r. destruct (Z.testbit x k); [by rewrite Z.pow2_bits_false|by rewrite Z.bits_0]. }
  unfold has_flag. rewrite E. destruct (Z.testbit x k); [|done]. assert (2 ^ k ≠ 0) by (apply Z.pow_nonzero; lia). by destruct (Z.eqb_spec (2 ^ k) 0).
Qed.

Lemma infobits_flags im im2 : let bits := compute_infobits im im2 in
  has_flag bits XLHL_XMAX_IS_MULTI = has_flag im HEAP_XMAX_IS_MULTI ∧ has_flag bits XLHL_XMAX_LOCK_ONLY = has_flag im HEAP_XMAX_LOCK_ONLY ∧
  has_flag bits XLHL_XMAX_EXCL_LOCK = has_flag im HEAP_XMAX_EXCL_LOCK ∧ has_flag bits XLHL_XMAX_KEYSHR_LOCK = has_flag im HEAP_XMAX_KEYSHR_LOCK ∧
  has_flag bits XLHL_KEYS_UPDATED = has_flag im2 HEAP_KEYS_UPDATED.
Proof.
  unfold compute_infobits. destruct (has_flag im HEAP_XMAX_IS_MULTI), (has_flag im HEAP_XMAX_LOCK_ONLY), (has_flag im HEAP_XMAX_EXCL_LOCK), (has_flag im HEAP_XMAX_KEYSHR_LOCK), (has_flag im2 HEAP_KEYS_UPDATED); by vm_compute.
Qed.

Lemma set_if_lor f flag bits : set_if f flag bits = Z.lor bits (if f then flag else 0).
Proof. unfold set_if. destruct f; [done|by rewrite Z.lor_0_r]. Qed.

(** The bits that are stored, from the record. *)
Lemma replayed_bits im im2 nim nim2 : bits_ok nim nim2 → Z.land im HEAP_MOVED = 0 →
  fix_infomask_from_infobits (compute_infobits nim nim2) (Z.ldiff im (Z.lor HEAP_XMAX_BITS HEAP_MOVED)) (Z.ldiff im2 HEAP_KEYS_UPDATED) =
  (Z.lor (Z.ldiff im HEAP_XMAX_BITS) nim, Z.lor (Z.ldiff im2 HEAP_KEYS_UPDATED) nim2).
Proof.
  intros (Hn & Hn2 & _) Hm. destruct (infobits_flags nim nim2) as (F1 & F2 & F3 & F4 & F5). unfold fix_infomask_from_infobits. rewrite F1, F2, F3, F4, F5, !set_if_lor.
  assert (En : nim = Z.lor (Z.lor (Z.lor (if has_flag nim HEAP_XMAX_IS_MULTI then HEAP_XMAX_IS_MULTI else 0) (if has_flag nim HEAP_XMAX_LOCK_ONLY then HEAP_XMAX_LOCK_ONLY else 0))
    (if has_flag nim HEAP_XMAX_EXCL_LOCK then HEAP_XMAX_EXCL_LOCK else 0)) (if has_flag nim HEAP_XMAX_KEYSHR_LOCK then HEAP_XMAX_KEYSHR_LOCK else 0)).
  { rewrite <- Hn at 1. unfold LOCK_BITS. rewrite !Z.land_lor_distr_r. pose proof (land_flag nim 12 ltac:(done)) as L1. pose proof (land_flag nim 7 ltac:(done)) as L2. pose proof (land_flag nim 6 ltac:(done)) as L3. pose proof (land_flag nim 4 ltac:(done)) as L4.
    change (2 ^ 12) with HEAP_XMAX_IS_MULTI in L1. change (2 ^ 7) with HEAP_XMAX_LOCK_ONLY in L2. change (2 ^ 6) with HEAP_XMAX_EXCL_LOCK in L3. change (2 ^ 4) with HEAP_XMAX_KEYSHR_LOCK in L4. by rewrite L1, L2, L3, L4. }
  assert (En2 : nim2 = if has_flag nim2 HEAP_KEYS_UPDATED then HEAP_KEYS_UPDATED else 0).
  { pose proof (land_flag nim2 13 ltac:(done)) as L. change (2 ^ 13) with HEAP_KEYS_UPDATED in L. by rewrite <- L, Hn2. }
  f_equal.
  - rewrite En at 5. rewrite !Z.lor_assoc. do 4 f_equal. apply Z.bits_inj'. intros n Hnn. rewrite !Z.ldiff_spec. apply (f_equal (λ z, Z.testbit z n)) in Hm. rewrite Z.land_spec, Z.bits_0 in Hm.
    rewrite !Z.lor_spec. unfold HEAP_XMAX_BITS, HEAP_LOCK_MASK, HEAP_XMAX_SHR_LOCK. rewrite !Z.lor_spec.
    destruct (Z.testbit im n), (Z.testbit HEAP_MOVED n), (Z.testbit HEAP_XMAX_IS_MULTI n), (Z.testbit HEAP_XMAX_LOCK_ONLY n), (Z.testbit HEAP_XMAX_KEYSHR_LOCK n), (Z.testbit HEAP_XMAX_EXCL_LOCK n), (Z.testbit HEAP_XMAX_COMMITTED n), (Z.testbit HEAP_XMAX_INVALID n); done.
  - rewrite En2 at 2. f_equal. apply Z.bits_inj'. intros n Hnn. rewrite !Z.ldiff_spec. by destruct (Z.testbit im2 n), (Z.testbit HEAP_KEYS_UPDATED n).
Qed.

Section replay.
Context {X : Xacts} {A : Type} (DidAbort : Z → bool) (ov xid mode : Z).
Implicit Types (rel : LockRel A) (log : list (Z * xl_heap_lock)).

(** The records of a walk, in order. *)
Fixpoint replay_locks log rel : result (LockRel A) :=
  match log with
  | [] => Ok rel
  | (block, rec) :: log => rel ← heap_xlog_lock_updated block rec rel; replay_locks log rel
  end.

(** The same tuples, page flags and bits of the visibility map. *)
Definition same_rel rel rel' : Prop := versions rel' = versions rel ∧ all_visible rel' = all_visible rel ∧ all_frozen rel' = all_frozen rel.

(** No version has the bits of the old VACUUM FULL, and only pages with PD_ALL_VISIBLE are all-frozen. *)
Definition replayable rel : Prop := map_Forall (λ _ t, Z.land (t_infomask t) HEAP_MOVED = 0) (versions rel) ∧ all_frozen rel ⊆ all_visible rel.

Lemma replay_app log log' rel rel1 : replay_locks log rel = Ok rel1 → replay_locks (log ++ log') rel = replay_locks log' rel1.
Proof.
  revert rel. induction log as [|[block rec] log IH]; intros rel; cbn [replay_locks app]; [by intros [= ->]|]. destruct (heap_xlog_lock_updated block rec rel); rsimpl; [apply IH|done].
Qed.

(** One version. *)
Lemma lock_version_replay tid t cleared rel mx t1 cleared1 rel1 mx1 : replayable rel → versions rel !! tid_place tid = Some t → lock_version true ov xid mode tid t cleared rel mx = Ok (t1, cleared1, rel1, mx1) →
  replayable rel1 ∧ ∃ block rec, lock_log rel1 = lock_log rel ++ [(block, rec)] ∧ ∀ rel0, same_rel rel rel0 → ∃ rel0', heap_xlog_lock_updated block rec rel0 = Ok rel0' ∧ same_rel rel1 rel0'.
Proof.
  intros [Hm Hfv] Hl. unfold lock_version. destruct (compute_new_xmax_infomask _ _ _ _ _ _ _ mx) as [[[[x' im'] im2'] mx2]|] eqn:Ec; rsimpl; [|done]. pose proof (compute_bits _ _ _ _ _ _ _ _ _ _ _ _ Ec) as Hb. clear Ec.
  set (block := ItemPointerGetBlockNumber tid). destruct (if bool_decide _ && bool_decide _ then _ else _) as [cl fr] eqn:Ef.
  assert (Hfr : fr ⊆ all_frozen rel ∧ fr = if cl then all_frozen rel ∖ {[block]} else all_frozen rel).
  { destruct (bool_decide_reflect (block ∈ all_visible rel)) as [Hv|Hv]; cbn [andb] in Ef; [destruct (bool_decide_reflect (block ∈ all_frozen rel)) as [Hz|Hz]|]; injection Ef as <- <-; (split; [set_solver|]); [done|destruct cleared; set_solver..]. }
  destruct Hfr as [Hsub Efr]. intros [= <- <- <- <-]. split.
  { split; [|cbn; set_solver]. apply map_Forall_insert_2; [|done]. cbn. rewrite Z.land_lor_distr_l. destruct Hb as (Hb & _). rewrite <- Hb, <- Z.land_assoc. change (Z.land LOCK_BITS HEAP_MOVED) with 0. rewrite Z.land_0_r, Z.lor_0_r.
    pose proof (Hm _ _ Hl) as H0. cbn beta in H0. apply Z.bits_inj'. intros n Hn. apply (f_equal (λ z, Z.testbit z n)) in H0. rewrite Z.land_spec, Z.bits_0 in *. rewrite Z.ldiff_spec. by destruct (Z.testbit (t_infomask t) n), (Z.testbit HEAP_MOVED n), (Z.testbit HEAP_XMAX_BITS n). }
  eexists _, _. split; [done|]. intros rel0 (E1 & E2 & E3). unfold heap_xlog_lock_updated, xlog_lock_bits. cbn [lock_offnum infobits_set lock_xmax]. change (block, ItemPointerGetOffsetNumber tid) with (tid_place tid).
  rewrite E1, Hl, replayed_bits; [|done|by apply (Hm _ _ Hl)]. eexists. split; [done|]. split_and!; cbn; [done|done|]. unfold xlog_clear_frozen. cbn [lock_flags]. rewrite E3, Efr. by destruct cl.
Qed.

Lemma walk_replay fuel : ∀ prior tid cleared rel mx o rel' mx', replayable rel → heap_lock_updated_tuple_rec DidAbort true ov fuel prior tid xid mode cleared rel mx = Ok (o, rel', mx') →
  ∃ log, lock_log rel' = lock_log rel ++ log ∧ ∀ rel0, same_rel rel rel0 → ∃ rel0', replay_locks log rel0 = Ok rel0' ∧ same_rel rel' rel0'.
Proof.
  induction fuel as [|fuel IH]; intros prior tid cleared rel mx o rel' mx' Hrp; [done|]. cbn [heap_lock_updated_tuple_rec].
  assert (Hstay : ∃ log, lock_log rel = lock_log rel ++ log ∧ ∀ rel0, same_rel rel rel0 → ∃ rel0', replay_locks log rel0 = Ok rel0' ∧ same_rel rel rel0') by (exists []; rewrite app_nil_r; eauto).
  destruct (versions rel !! tid_place tid) as [t|] eqn:Hl; [|by intros [= <- <- <-]]. destruct (TransactionIdIsValid prior && _); [by intros [= <- <- <-]|]. destruct (DidAbort _); [by intros [= <- <- <-]|].
  destruct (test_version _ _ _ _ _ _) as [[v mx0]|]; rsimpl; [|done].
  assert (Hgo : ∀ r : result (@HeapTupleHeaderData A * bool * LockRel A * MX), (r = Ok (t, cleared, rel, mx0) ∨ r = lock_version true ov xid mode tid t cleared rel mx0) →
    (r ← r; let '(t1, cleared1, rel1, mx1) := (r : @HeapTupleHeaderData A * bool * LockRel A * MX) in
     r ← chain_end ov tid t1 mx1; let '(last, mx2) := (r : bool * MX) in
     if (last : bool) then Ok (Done TM_Ok, rel1, mx2)
     else r ← update_xid ov t1 mx2; let '(priorXmax, mx3) := (r : Z * MX) in heap_lock_updated_tuple_rec DidAbort true ov fuel priorXmax (t_ctid t1) xid mode cleared1 rel1 mx3) = Ok (o, rel', mx') →
    ∃ log, lock_log rel' = lock_log rel ++ log ∧ ∀ rel0, same_rel rel rel0 → ∃ rel0', replay_locks log rel0 = Ok rel0' ∧ same_rel rel' rel0').
  { intros r Hr. destruct r as [[[[t1 cleared1] rel1] mx1]|]; rsimpl; [|done].
    assert (H1 : replayable rel1 ∧ ∃ log, lock_log rel1 = lock_log rel ++ log ∧ ∀ rel0, same_rel rel rel0 → ∃ rel0', replay_locks log rel0 = Ok rel0' ∧ same_rel rel1 rel0').
    { destruct Hr as [[= <- <- <- <-]|Hr]; [done|]. symmetry in Hr. destruct (lock_version_replay tid t cleared rel mx0 t1 cleared1 rel1 mx1 Hrp Hl Hr) as (Hrp1 & block & rec & El & Hre). split; [done|]. exists [(block, rec)]. split; [done|].
      intros rel0 H0. destruct (Hre rel0 H0) as (rel0' & E0 & Hsame). exists rel0'. cbn [replay_locks]. by rewrite E0. }
    destruct H1 as (Hrp1 & log1 & El1 & Hre1). destruct (chain_end _ _ _ _) as [[last mx2]|]; rsimpl; [|done]. destruct last; [intros [= <- <- <-]; eauto|]. destruct (update_xid _ _ _) as [[prior' mx3]|]; rsimpl; [|done].
    intros E. destruct (IH _ _ _ _ _ _ _ _ Hrp1 E) as (log2 & El2 & Hre2). exists (log1 ++ log2). split; [by rewrite El2, El1, app_assoc|]. intros rel0 H0. destruct (Hre1 rel0 H0) as (rel1' & E1 & Hs1). rewrite (replay_app _ _ _ _ E1). by apply Hre2. }
  destruct v; [apply Hgo; by right|apply Hgo; by left|by intros [= <- <- <-]|by intros [= <- <- <-]].
Qed.

(** ** heap_lock_tuple *)

Lemma keys_stored im2 nim2 f : Z.land HEAP_KEYS_UPDATED f = 0 → has_flag (Z.ldiff (Z.lor (Z.ldiff im2 HEAP_KEYS_UPDATED) nim2) f) HEAP_KEYS_UPDATED = has_flag nim2 HEAP_KEYS_UPDATED.
Proof.
  intros Hf. unfold has_flag. do 2 f_equal. apply Z.bits_inj'. intros n Hn. apply (f_equal (λ z, Z.testbit z n)) in Hf. rewrite Z.land_spec, Z.bits_0 in Hf. rewrite !Z.land_spec, !Z.ldiff_spec, Z.lor_spec, Z.ldiff_spec.
  by destruct (Z.testbit im2 n), (Z.testbit nim2 n), (Z.testbit HEAP_KEYS_UPDATED n), (Z.testbit f n).
Qed.

Lemma infobits_keys im im2 im2' : has_flag im2 HEAP_KEYS_UPDATED = has_flag im2' HEAP_KEYS_UPDATED → compute_infobits im im2 = compute_infobits im im2'.
Proof. unfold compute_infobits. by intros ->. Qed.

(** Its record gives the same version, but for the command id, which only the transaction itself needs. *)
Lemma store_lock_replay tid t x im im2 rel t1 rel1 : replayable rel → canonical tid → bits_ok im im2 → versions rel !! tid_place tid = Some t → store_lock true tid t x im im2 rel = (t1, rel1) →
  ∃ block rec, lock_log rel1 = lock_log rel ++ [(block, rec)] ∧ ∀ rel0, same_rel rel rel0 → ∃ rel0', heap_xlog_lock block rec rel0 = Ok rel0' ∧
    same_rel (mkLockRel (<[tid_place tid := HeapTupleHeaderSetCmax 0 false t1]> (versions rel1)) (all_visible rel1) (all_frozen rel1) (lock_log rel1)) rel0'.
Proof.
  intros [Hm Hfv] Hcan Hb Hl. unfold store_lock. set (locked := HEAP_XMAX_IS_LOCKED_ONLY im). set (block := ItemPointerGetBlockNumber tid). set (cl := bool_decide _ && bool_decide _). intros [= <- <-].
  eexists _, _. split; [done|]. intros rel0 (E1 & E2 & E3). unfold heap_xlog_lock, xlog_lock_bits. cbn [lock_offnum infobits_set lock_xmax t_infomask2]. change (block, ItemPointerGetOffsetNumber tid) with (tid_place tid). rewrite E1, Hl.
  assert (Hk : has_flag (if locked then Z.ldiff (t_infomask2 (set_xmax_bits x im im2 t)) HEAP_HOT_UPDATED else t_infomask2 (set_xmax_bits x im im2 t)) HEAP_KEYS_UPDATED = has_flag im2 HEAP_KEYS_UPDATED).
  { destruct locked; [by apply keys_stored|]. apply (stored_bits x im im2 t). }
  rewrite (infobits_keys im _ im2) by exact Hk. rewrite replayed_bits; [|done|by apply (Hm _ _ Hl)].
  pose proof (same_bits_facts _ _ _ _ (stored_bits x im im2 t)) as (_ & _ & _ & _ & Hlo & _). cbn [t_infomask set_xmax_bits] in Hlo. rewrite Hlo. fold locked. unfold canonical in Hcan. fold block in Hcan. rewrite Hcan.
  destruct locked; (eexists; split; [done|]; split_and!; cbn; [by rewrite insert_insert_eq|done|unfold xlog_clear_frozen; cbn [lock_flags]; rewrite E3; by destruct cl]).
Qed.
End replay.

(** * The conflict test of a MultiXactId *)

Section conflict.
Context {X : Xacts} (DidAbort : Z → bool).
Implicit Types ms : list (Z * Z).

(** A member another transaction has to wait for. *)
Definition blocks (mode : Z) (m : Z * Z) : bool :=
  negb (TransactionIdIsCurrentTransactionId m.1) && conflicts m.2 (wanted_status mode) &&
  (if ISUPDATE_from_mxstatus m.2 then negb (DidAbort m.1) else TransactionIdIsInProgress m.1).

Lemma mode_status mode : 0 ≤ mode ≤ 3 → ∃ wanted, hwlock mode = Ok wanted ∧ LOCKMODE_from_mxstatus (wanted_status mode) = Ok wanted.
Proof. intros Hmode. destruct (mode_cases mode Hmode) as [->|[->|[->| ->]]]; eexists; split; by vm_compute. Qed.

Lemma held_mode mode wanted st : 0 ≤ mode ≤ 3 → hwlock mode = Ok wanted → 0 ≤ st ≤ MultiXactStatusUpdate →
  ∃ held, LOCKMODE_from_mxstatus st = Ok held ∧ DoLockModesConflict held wanted = Ok (conflicts st (wanted_status mode)).
Proof.
  intros Hmode Hw Hst. destruct (mode_status mode Hmode) as (w & Ew & El). assert (w = wanted) as -> by congruence. destruct (wanted_ok mode Hmode) as (_ & Hws & _).
  assert (Hws' : 0 ≤ wanted_status mode ≤ MultiXactStatusUpdate) by (unfold MultiXactStatusForUpdate, MultiXactStatusUpdate in *; lia).
  pose proof (status_conflict_total st (wanted_status mode) Hst Hws') as Hc. unfold status_conflict in Hc. rewrite El in Hc. destruct (LOCKMODE_from_mxstatus st) as [held|]; [|done]. exists held. by cbn [mbind result_bind] in Hc.
Qed.

(** The loop leaves early, but answers both questions as if it did not. *)
Lemma conflict_loop_spec track mode wanted ms : 0 ≤ mode ≤ 3 → hwlock mode = Ok wanted → Forall (λ m, 0 ≤ m.2 ≤ MultiXactStatusUpdate) ms → ∀ res cur, (cur = true → track = true) →
  conflict_loop DidAbort track wanted ms res cur = Ok (res || existsb (blocks mode) ms, cur || track && existsb (λ m, TransactionIdIsCurrentTransactionId m.1) ms).
Proof.
  intros Hmode Hw Hf. induction Hf as [|m ms Hm _ IH]; intros res cur Hcur; cbn [conflict_loop existsb]; [by rewrite andb_false_r, !orb_false_r|].
  destruct (held_mode mode wanted m.2 Hmode Hw Hm) as (held & -> & Ec). unfold blocks at 1.
  destruct (res && (negb track || cur)) eqn:Hstop; [apply andb_true_iff in Hstop as [-> Hs]; destruct track, cur; try done; specialize (Hcur eq_refl); done|]. rsimpl.
  destruct (TransactionIdIsCurrentTransactionId m.1) eqn:Hc; cbn [negb andb orb].
  - rewrite IH by (by destruct track). by destruct track, cur.
  - destruct res; [by rewrite IH|]. rewrite Ec. rsimpl. destruct (conflicts m.2 (wanted_status mode)); cbn [negb andb orb]; [|by rewrite IH].
    destruct (ISUPDATE_from_mxstatus m.2); [destruct (DidAbort m.1)|destruct (TransactionIdIsInProgress m.1)]; cbn [negb orb]; by rewrite IH.
Qed.
End conflict.

(** * The claims *)

(** A transaction that takes locks: its ids are running and belong to one top transaction;
    nobody both aborted and committed. *)
Record locker `{X : Xacts} (DidAbort : Z → bool) (xid mode : Z) : Prop := {
  lk_running : ∀ x, TransactionIdIsCurrentTransactionId x = true → TransactionIdIsInProgress x = true;
  lk_top : ∀ x, TransactionIdIsCurrentTransactionId x = true → SubTransTopmost x = SubTransTopmost xid;
  lk_abort : ∀ x, DidAbort x = true → DidCommit x = false;
  lk_own : TransactionIdIsCurrentTransactionId xid = true;
  lk_valid : TransactionIdIsValid xid = true;
  lk_mode : 0 ≤ mode ≤ 3;
}.

Section helpers.
Context {X : Xacts} (DidAbort : Z → bool) (xid mode : Z).
Implicit Types ms : list (Z * Z).

Lemma none_current ms : locker DidAbort xid mode → Forall (λ m, TransactionIdIsInProgress m.1 = false) ms → existsb (λ m, TransactionIdIsCurrentTransactionId m.1) ms = false.
Proof.
  intros Hlk Hf. apply not_true_iff_false. rewrite existsb_exists. intros (m & Hin%list_elem_of_In & Hm). rewrite Forall_forall in Hf. specialize (Hf m Hin). apply (lk_running _ _ _ Hlk) in Hm. congruence.
Qed.

Lemma none_blocks ms : Forall (λ m, m.2 ≤ MultiXactStatusForUpdate) ms → Forall (λ m, TransactionIdIsInProgress m.1 = false) ms → existsb (blocks DidAbort mode) ms = false.
Proof.
  intros Hle Hf. apply not_true_iff_false. rewrite existsb_exists. intros (m & Hin%list_elem_of_In & Hm). rewrite Forall_forall in *. specialize (Hf m Hin). specialize (Hle m Hin). cbn beta in Hle.
  unfold blocks, ISUPDATE_from_mxstatus in Hm. unfold MultiXactStatusForUpdate in Hle. destruct (Z.ltb_spec 3 m.2); [lia|]. by rewrite Hf, andb_false_r in Hm.
Qed.

Lemma no_block ms m : locker DidAbort xid mode → (∀ x, DidAbort x = true → TransactionIdIsInProgress x = false) → existsb (blocks DidAbort mode) ms = false → m ∈ ms →
  counts TransactionIdIsInProgress DidCommit m → TransactionIdIsCurrentTransactionId m.1 = false → conflicts m.2 (wanted_status mode) = false.
Proof.
  intros Hlk Hab Hb Hin Ha Hm. apply not_true_iff_false. intros Hc. apply not_true_iff_false in Hb. apply Hb, existsb_exists. exists m. split; [by apply list_elem_of_In|]. unfold blocks. rewrite Hm, Hc. cbn [negb andb].
  unfold ISUPDATE_from_mxstatus. destruct (Z.ltb_spec 3 m.2) as [Hu|Hu].
  - apply negb_true_iff, not_true_iff_false. intros Hd. destruct Ha as [Ha|[_ Ha]]; [by rewrite (Hab _ Hd) in Ha|by rewrite (lk_abort _ _ _ Hlk _ Hd) in Ha].
  - destruct Ha as [Ha|[Ha _]]; [done|]. unfold MultiXactStatusForUpdate in Ha. lia.
Qed.
End helpers.

(** C24. Row locks exclude each other along the versions of a row.  If no two transactions hold
    conflicting locks on any version, then the walk that locks the later versions leaves it so,
    wherever it ends: no holder of any version loses its lock, and only this transaction's lock
    is added, in the mode asked for.  If the walk succeeds, the transaction holds every version
    from the first one to the end of the chain; if it is to wait, then for a running transaction
    of somebody else with a conflicting lock on the version where it will go on; if it reports
    an update or a deletion, that one has committed and conflicts.  The walk ends when the links
    do not lead back, and it fails only if a MultiXactId can not be had or a version has the bits
    of no lock at all. *)
Theorem chain_locks_exclude `{X : Xacts} {A} DidAbort NeedsWAL ov xid mode j0 lo E hist sys T b (rel : LockRel A) rank fuel prior tid cleared : locker DidAbort xid mode →
  system_ok j0 lo E hist sys T → table_ok T → rel_ok T rel → gone_ok ov T → fresh ov j0 hist (Z.of_nat fuel) → ranked rank rel → canonical tid → (rank (tid_place tid) < fuel)%nat →
  match heap_lock_updated_tuple_rec DidAbort NeedsWAL ov fuel prior tid xid mode cleared rel (shared sys, cache_of sys b) with
  | Ok (o, rel', (s, c)) => ∃ E' hist' T', system_ok j0 lo E' hist' (updated b s c sys) T' ∧ table_ok T' ∧ T ⊆ T' ∧ rel_ok T' rel' ∧ kept xid mode T rel T' rel' ∧ outcome_ok DidAbort mode o T' rel' prior tid
  | Err e => e = Elog "invalid lock status in tuple" ∨
      ∃ (t : @HeapTupleHeaderData A) mx, compute_new_xmax_infomask ov (t_xmax t) (t_infomask t) (t_infomask2 t) xid mode false mx = Err e
  end.
Proof.
  intros [H1 H2 H3 H4 H5 H6] Hs Ht Hr Hg Hf Hrk Hcan Hfuel.
  pose proof (walk_spec DidAbort NeedsWAL ov xid mode H1 H2 H3 H4 H5 H6 j0 lo b sys rank fuel prior tid cleared rel (shared sys, cache_of sys b) E hist T
    (use_cache j0 lo b E hist sys T _ Hs (so_caches _ _ _ _ _ _ Hs b)) Ht Hr Hg Hf Hrk Hcan Hfuel) as Hw.
  destruct (heap_lock_updated_tuple_rec _ _ _ _ _ _ _ _ _ _ _) as [[[o rel'] [s c]]|e]; [|done]. destruct Hw as (E' & hist' & T' & ? & ? & ? & ? & ? & _ & ?). by exists E', hist', T'.
Qed.

(** C25. The records of row locks bring the relation back.  Replaying what the walk has logged, on
    the relation it started from, gives the same tuples bit by bit, and the same bits of the
    visibility map, although later records repeat that a bit was cleared on an earlier page; and
    replaying the record of heap_lock_tuple gives the version it stored, with its command id
    reset. *)
Theorem lock_records_replayed `{X : Xacts} {A} DidAbort ov xid mode fuel prior tid cleared (rel : LockRel A) mx : replayable rel →
  (∀ o rel' mx', heap_lock_updated_tuple_rec DidAbort true ov fuel prior tid xid mode cleared rel mx = Ok (o, rel', mx') →
     ∃ log rel0, lock_log rel' = lock_log rel ++ log ∧ replay_locks log rel = Ok rel0 ∧ same_rel rel' rel0) ∧
  (∀ t x im im2 mx', canonical tid → versions rel !! tid_place tid = Some t →
     compute_new_xmax_infomask ov (t_xmax t) (t_infomask t) (t_infomask2 t) xid mode false mx = Ok (x, im, im2, mx') →
     let '(t', rel') := store_lock true tid t x im im2 rel in
     ∃ block rec rel0, lock_log rel' = lock_log rel ++ [(block, rec)] ∧ heap_xlog_lock block rec rel = Ok rel0 ∧
       versions rel0 = <[tid_place tid := HeapTupleHeaderSetCmax 0 false t']> (versions rel') ∧ all_frozen rel0 = all_frozen rel').
Proof.
  intros Hrp. split.
  - intros o rel' mx' E. destruct (walk_replay DidAbort ov xid mode fuel _ _ _ _ _ _ _ _ Hrp E) as (log & El & Hre). destruct (Hre rel ltac:(done)) as (rel0 & E0 & H0). by exists log, rel0.
  - intros t x im im2 mx' Hcan Hl Ec. destruct (store_lock true tid t x im im2 rel) as [t' rel'] eqn:Es.
    destruct (store_lock_replay tid t x im im2 rel t' rel' Hrp Hcan (compute_bits _ _ _ _ _ _ _ _ _ _ _ _ Ec) Hl Es) as (block & rec & El & Hre). destruct (Hre rel ltac:(done)) as (rel0 & E0 & (H1 & _ & H3)). by exists block, rec, rel0.
Qed.

(** C26. The conflict test of a MultiXactId answers both of its questions for the whole list of
    members, though it stops early: whether a member of another transaction, running or an
    updater that has not aborted, has a lock that conflicts, and whether the transaction itself
    is a member.  MultiXactIds that are reported as gone make no difference.  If the answer is
    no, then no holder of the version but the transaction itself has a conflicting lock. *)
Theorem conflict_test_exact `{X : Xacts} {A} DidAbort xid mode ov j0 lo E hist sys T b (t : @HeapTupleHeaderData A) track : locker DidAbort xid mode →
  (∀ x, DidAbort x = true → TransactionIdIsInProgress x = false) →
  system_ok j0 lo E hist sys T → table_ok T → tuple_ok T t → gone_ok ov T →
  has_flag (t_infomask t) HEAP_XMAX_INVALID = false → has_flag (t_infomask t) HEAP_XMAX_IS_MULTI = true →
  let ms := default [] (T !! t_xmax t) in
  ∃ c, DoesMultiXactIdConflict DidAbort ov (t_xmax t) (t_infomask t) mode track (shared sys, cache_of sys b) =
    Ok (existsb (blocks DidAbort mode) ms, track && existsb (λ m, TransactionIdIsCurrentTransactionId m.1) ms, (shared sys, c)) ∧ cache_ok j0 hist c ∧
    (existsb (blocks DidAbort mode) ms = false → ∀ m, m ∈ tuple_holders T t → TransactionIdIsCurrentTransactionId m.1 = false → conflicts m.2 (wanted_status mode) = false).
Proof.
  intros Hlk Hab Hs Ht [Hh Hup] Hg Hinv Hmulti. destruct (ho_multi _ _ _ _ Hh Hinv Hmulti Hup) as (_ & ms & HT & Hlo). destruct (Ht _ _ HT) as [_ Hst]. rewrite HT. cbn [default from_option id]. 
  destruct (mode_status mode (lk_mode _ _ _ Hlk)) as (wanted & Ew & _). unfold DoesMultiXactIdConflict. rewrite Ew. rsimpl. rewrite Hup.
  destruct (read_version ov j0 lo b E hist sys T t ms Hs HT (proj1 Hlo) (Hg _ _ HT)) as (ms1 & c & -> & Hc & Hms1). rsimpl.
  rewrite (conflict_loop_spec DidAbort track mode wanted ms1 (lk_mode _ _ _ Hlk) Ew); [|by destruct Hms1 as [->|[-> _]]|done]. rsimpl. exists c. split_and!; [|done|].
  - destruct Hms1 as [->|(-> & Hle & Hnr)]; [done|]. by rewrite (none_blocks DidAbort mode ms Hle Hnr), (none_current DidAbort xid mode ms Hlk Hnr).
  - intros Hb m Hin Hm. unfold tuple_holders, holders in Hin. rewrite Hinv, Hmulti, Hup, HT in Hin. apply list_elem_of_filter in Hin as [Ha Hin]. by apply (no_block DidAbort xid mode ms m).
Qed.

(** * Witnesses *)

(** 701 has updated the version of 650 without its key, and is running; 709 locks the key of the
    row: on the old version with a MultiXactId, on the new one alone.  The page is all-frozen. *)
Definition w_old : @HeapTupleHeaderData Z := mkHeapTuple 650 701 0 (ItemPointerSet 0 3) 0 HEAP_XMIN_COMMITTED 7.
Definition w_new : @HeapTupleHeaderData Z := mkHeapTuple 701 0 0 (ItemPointerSet 0 3) HEAP_ONLY_TUPLE HEAP_XMAX_INVALID 8.
Definition w_rel : LockRel Z := mkLockRel (<[(0, 2) := w_old]> {[(0, 3) := w_new]}) {[0]} {[0]} [].
Definition w_rank (k : Place) : nat := if bool_decide (k = (0, 2)) then 1 else 0.
Definition w_abort (x : Z) : bool := false.
Definition w_walk : result (walk_outcome * LockRel Z * MX) :=
  @heap_lock_updated_tuple_rec Z lock_xacts w_abort true w_id 2 650 (ItemPointerSet 0 2) 709 LockTupleKeyShare false w_rel (shared w_sys, cache_of w_sys 0).
Definition w_end_rel : LockRel Z := (from_ok (Done TM_Ok, w_rel, (w_state, [])) w_walk).1.2.
Definition w_end_mx : MX := (from_ok (Done TM_Ok, w_rel, (w_state, [])) w_walk).2.

Lemma w_locker : @locker lock_xacts w_abort 709 LockTupleKeyShare.
Proof.
  constructor; [|by intros x ->%Z.eqb_eq|done|done|done|by vm_compute]. intros x ->%Z.eqb_eq. done.
Qed.

Lemma w_rel_ok : @rel_ok lock_xacts Z ∅ w_rel.
Proof.
  unfold rel_ok, w_rel. cbn [versions]. apply map_Forall_insert_2; [|apply map_Forall_singleton].
  - split; [split; [|by vm_compute]; constructor; [intros _ H; by vm_compute in H|by vm_compute|intros _ H; by vm_compute in H]|].
    assert (Eh : @tuple_holders lock_xacts Z ∅ w_old = [(701, MultiXactStatusNoKeyUpdate)]) by (by vm_compute). unfold exclusive. rewrite Eh. by intros m1 m2 ->%list_elem_of_singleton ->%list_elem_of_singleton.
  - split; [split; [|by vm_compute]; constructor; intros H; by vm_compute in H|]. intros m1 m2 H. assert (Eh : @tuple_holders lock_xacts Z ∅ w_new = []) by (by vm_compute). rewrite Eh in H. by apply not_elem_of_nil in H.
Qed.

Lemma w_ranked : ranked w_rank w_rel.
Proof. unfold ranked, w_rel. cbn [versions]. apply map_Forall_insert_2; [|apply map_Forall_singleton]; (split; [done|]); [intros _; by vm_compute|by intros []]. Qed.

Lemma w_fresh : fresh w_id (w_id - 1) [] 2.
Proof. intros k Hk. assert (H : k = 0 ∨ k = 1) by (unfold zlen in Hk; cbn in Hk; lia). destruct H as [-> | ->]; by vm_compute. Qed.

Lemma w_gone : @gone_ok lock_xacts w_id ∅.
Proof. intros multi ms H. by rewrite lookup_empty in H. Qed.

Lemma w_walk_ends : w_walk = Ok (Done TM_Ok, w_end_rel, (w_end_mx.1, w_end_mx.2)).
Proof. by vm_compute. Qed.

Lemma chain_locks_exclude_witness : length (lock_log w_end_rel) = 2%nat ∧
  ∃ E' hist' T', system_ok (w_id - 1) w_slot E' hist' (updated 0 w_end_mx.1 w_end_mx.2 w_sys) T' ∧ table_ok T' ∧ ∅ ⊆ T' ∧ @rel_ok lock_xacts Z T' w_end_rel ∧
    @kept lock_xacts Z 709 LockTupleKeyShare ∅ w_rel T' w_end_rel ∧ @outcome_ok lock_xacts Z w_abort LockTupleKeyShare (Done TM_Ok) T' w_end_rel 650 (ItemPointerSet 0 2).
Proof.
  split; [by vm_compute|].
  pose proof (@chain_locks_exclude lock_xacts Z w_abort true w_id 709 LockTupleKeyShare (w_id - 1) w_slot w_slot [] w_sys ∅ 0%nat w_rel w_rank 2%nat 650 (ItemPointerSet 0 2) false
    w_locker w_sys_ok (map_Forall_empty _) w_rel_ok w_gone w_fresh w_ranked eq_refl (Nat.lt_succ_diag_r 1)) as H.
  fold w_walk in H. rewrite w_walk_ends in H. exact H.
Defined.

Lemma w_replayable : replayable w_rel.
Proof. split; [|by vm_compute]. unfold w_rel. cbn [versions]. apply map_Forall_insert_2; [by vm_compute|apply map_Forall_singleton; by vm_compute]. Qed.

Lemma lock_records_replayed_witness : ∃ log rel0, lock_log w_end_rel = [] ++ log ∧ replay_locks log w_rel = Ok rel0 ∧ same_rel w_end_rel rel0.
Proof. exact (proj1 (@lock_records_replayed lock_xacts Z w_abort w_id 709 LockTupleKeyShare 2 650 (ItemPointerSet 0 2) false w_rel (shared w_sys, cache_of w_sys 0) w_replayable) _ _ _ w_walk_ends). Defined.

(** The first MultiXactId of the witnesses of Multis.v, whose updater 702 has not ended well or
    badly yet: it keeps 709 from updating the row. *)
Definition w_multi_sys : System := mkSystem (w_after w_first w_state) ∅.
Definition w_multi_table : gmap Z (list (Z * Z)) := <[mid (w_id - 1 + zlen ([] : History)) := sort_members w_first]> ∅.
Definition w_multi_tuple : @HeapTupleHeaderData Z := mkHeapTuple 650 w_id 0 (ItemPointerSet 0 2) HEAP_KEYS_UPDATED (Z.lor HEAP_XMAX_IS_MULTI HEAP_XMAX_EXCL_LOCK) 7.

Lemma w_multi_ok : system_ok (w_id - 1) w_slot (adv w_slot + 3) ([] ++ [(adv w_slot, sort_members w_first)]) w_multi_sys w_multi_table.
Proof.
  constructor; [exact w_holds1| |].
  - intros b multi ms. unfold cache_of. cbn. rewrite lookup_empty. by intros ?%not_elem_of_nil.
  - apply represents_snoc; [|by vm_compute]. intros multi ms. rewrite lookup_empty. split; [done|]. by intros (k & a & H & _).
Qed.

Lemma w_multi_tuple_ok : @tuple_ok lock_xacts Z w_multi_table w_multi_tuple.
Proof.
  split; [|by vm_compute]. constructor; [|intros _ H; by vm_compute in H|intros _ H; by vm_compute in H]. intros _ _ _. split; [by vm_compute|]. exists (sort_members w_first). split; [by vm_compute|].
  split; [intros H; by vm_compute in H|]. intros H. exfalso. assert (Hin : (702, MultiXactStatusUpdate) ∈ sort_members w_first) by (rewrite sort_members_perm; left). rewrite Forall_forall in H. specialize (H _ Hin). by vm_compute in H.
Qed.

Lemma w_multi_gone : @gone_ok lock_xacts w_id w_multi_table.
Proof. intros multi ms H0 Hp. unfold w_multi_table in H0. apply lookup_insert_Some in H0 as [[<- _]|[_ H]]; [by vm_compute in Hp|by rewrite lookup_empty in H]. Qed.

Lemma w_multi_table_ok : table_ok w_multi_table.
Proof. apply map_Forall_insert_2; [|apply map_Forall_empty]. split; [by vm_compute|]. rewrite sort_members_perm. repeat constructor; by vm_compute. Qed.

Lemma w_updater : @locker lock_xacts w_abort 709 LockTupleNoKeyExclusive.
Proof. destruct w_locker. by constructor. Qed.

Lemma conflict_test_exact_witness : ∃ c, @DoesMultiXactIdConflict lock_xacts w_abort w_id w_id (Z.lor HEAP_XMAX_IS_MULTI HEAP_XMAX_EXCL_LOCK) LockTupleNoKeyExclusive true (shared w_multi_sys, cache_of w_multi_sys 0) =
  Ok (true, false, (shared w_multi_sys, c)) ∧ cache_ok (w_id - 1) ([] ++ [(adv w_slot, sort_members w_first)]) c.
Proof.
  destruct (@conflict_test_exact lock_xacts Z w_abort 709 LockTupleNoKeyExclusive w_id (w_id - 1) w_slot (adv w_slot + 3) ([] ++ [(adv w_slot, sort_members w_first)]) w_multi_sys w_multi_table 0%nat w_multi_tuple true
    w_updater ltac:(done) w_multi_ok w_multi_table_ok w_multi_tuple_ok w_multi_gone eq_refl eq_refl) as (c & E & Hc & _). exists c. split; [|exact Hc].
  replace (existsb _ _) with true in E by (by vm_compute). replace (true && existsb _ _) with false in E by (by vm_compute). exact E.
Defined.
