(* ===== verification/Procarray.v ===== *)
(** procarray.c and varsup.c: the transactions that are running.  Every backend has an entry
    with its transaction, a cache of its subtransactions and the oldest transaction its
    snapshots need; from the entries come snapshots, the answer whether a transaction is still
    running, and the horizons before which row versions can be removed.  The server is a primary
    one; hot standby, which keeps the ids in KnownAssignedXids, is left out. *)

From S2P Require Import Prelude Xid Bufpage Itup Compact PageOps HeapPage HotChain HeapPrune Combocid Visibility.

(** * 64-bit transaction ids *)

Definition XidFromFullTransactionId (x : Z) : Z := uint32 x.
Definition FullTransactionIdIsValid (x : Z) : bool := TransactionIdIsValid (XidFromFullTransactionId x).
Definition FullTransactionIdPrecedes (a b : Z) : bool := a <? b.
Definition FullTransactionIdFollowsOrEquals (a b : Z) : bool := b <=? a.
Definition FullTransactionIdFollows (a b : Z) : bool := b <? a.

(** The loop past the reserved ids makes at most three steps. *)
Definition FullTransactionIdAdvance (dest : Z) : Z :=
  let dest := uint64 (dest + 1) in
  if FullTransactionIdPrecedes dest FirstNormalTransactionId then dest
  else if XidFromFullTransactionId dest <? FirstNormalTransactionId
  then dest + (FirstNormalTransactionId - XidFromFullTransactionId dest) else dest.

Definition FullTransactionIdNewer (a b : Z) : Z :=
  if negb (FullTransactionIdIsValid a) then b
  else if negb (FullTransactionIdIsValid b) then a
  else if FullTransactionIdFollows a b then a else b.

Definition FullXidRelativeTo (rel xid : Z) : Z := uint64 (rel + int32 (xid - XidFromFullTransactionId rel)).

Definition TransactionIdOlder (a b : Z) : Z :=
  if negb (TransactionIdIsValid a) then b
  else if negb (TransactionIdIsValid b) then a
  else if TransactionIdPrecedes a b then a else b.

(** * The shared state *)

Definition PROC_IN_VACUUM : Z := 0x02.
Definition PROC_VACUUM_FOR_WRAPAROUND : Z := 0x08.
Definition PROC_IN_LOGICAL_DECODING : Z := 0x10.
Definition PROC_AFFECTS_ALL_HORIZONS : Z := 0x20.
Definition PROC_IN_SAFE_IC : Z := 0x04.
Definition PROC_VACUUM_STATE_MASK : Z := Z.lor (Z.lor PROC_IN_VACUUM PROC_IN_SAFE_IC) PROC_VACUUM_FOR_WRAPAROUND.
Definition PGPROC_MAX_CACHED_SUBXIDS : Z := 64.

(** The entry of a backend; the arrays of ProcGlobal mirror its fields. *)
Record PGPROC : Type := mkProc {
  p_xid : Z;
  p_xmin : Z;
  p_subxids : list Z;
  p_overflowed : bool;
  p_statusFlags : Z;
  p_databaseId : Z;
}.

Record ProcArray : Type := mkProcArray {
  procs : list PGPROC;
  nextXid : Z;
  latestCompletedXid : Z;
  xactCompletionCount : Z;
  oldestXid : Z;
  xidVacLimit : Z;
  xidStopLimit : Z;
  replication_slot_xmin : Z;
  replication_slot_catalog_xmin : Z;
}.
Implicit Types (p : PGPROC) (a : ProcArray) (me : nat).

Definition set_procs (l : list PGPROC) a : ProcArray :=
  mkProcArray l (nextXid a) (latestCompletedXid a) (xactCompletionCount a) (oldestXid a) (xidVacLimit a) (xidStopLimit a)
    (replication_slot_xmin a) (replication_slot_catalog_xmin a).
Definition set_completed (latest count : Z) a : ProcArray :=
  mkProcArray (procs a) (nextXid a) latest count (oldestXid a) (xidVacLimit a) (xidStopLimit a)
    (replication_slot_xmin a) (replication_slot_catalog_xmin a).
Definition set_next (next : Z) a : ProcArray :=
  mkProcArray (procs a) next (latestCompletedXid a) (xactCompletionCount a) (oldestXid a) (xidVacLimit a) (xidStopLimit a)
    (replication_slot_xmin a) (replication_slot_catalog_xmin a).

Definition the_proc a me : result PGPROC := some_or "entry of the backend" (procs a !! me).
Definition store me p a : ProcArray := set_procs (<[me := p]> (procs a)) a.

(** * Assigning an id *)

Definition stop_limit : error := Elog "database is not accepting commands that assign new transaction IDs to avoid wraparound data loss in database".

Section assign.
Context (IsInParallelMode IsBootstrapProcessingMode RecoveryInProgress IsUnderPostmaster : bool).

Definition assign_xid (xid : Z) p : PGPROC := mkProc xid (p_xmin p) (p_subxids p) (p_overflowed p) (p_statusFlags p) (p_databaseId p).

(** The pages of the commit log and of pg_subtrans are extended by the callees, and the
    warnings and the signal for autovacuum change nothing here.  Between the check of the limits
    and the assignment the lock is released only for these, so the step is taken as one. *)
Definition GetNewTransactionId (isSubXact : bool) me a : result (Z * ProcArray) :=
  if IsInParallelMode then Err (Elog "cannot assign TransactionIds during a parallel operation")
  else if IsBootstrapProcessingMode then
    p ← the_proc a me;
    Ok (BootstrapTransactionId, store me (assign_xid BootstrapTransactionId p) a)
  else if RecoveryInProgress then Err (Elog "cannot assign TransactionIds during recovery")
  else
    let full_xid := nextXid a in
    let xid := XidFromFullTransactionId full_xid in
    if TransactionIdFollowsOrEquals xid (xidVacLimit a) && IsUnderPostmaster && TransactionIdFollowsOrEquals xid (xidStopLimit a)
    then Err stop_limit
    else
      let a := set_next (FullTransactionIdAdvance (nextXid a)) a in
      p ← the_proc a me;
      let p :=
        if negb isSubXact then assign_xid xid p
        else if zlen (p_subxids p) <? PGPROC_MAX_CACHED_SUBXIDS
        then mkProc (p_xid p) (p_xmin p) (p_subxids p ++ [xid]) (p_overflowed p) (p_statusFlags p) (p_databaseId p)
        else mkProc (p_xid p) (p_xmin p) (p_subxids p) true (p_statusFlags p) (p_databaseId p) in
      Ok (full_xid, store me p a).
End assign.

(** * The end of transactions *)

Definition MaintainLatestCompletedXid (latestXid : Z) a : ProcArray :=
  let cur_latest := latestCompletedXid a in
  if TransactionIdPrecedes (XidFromFullTransactionId cur_latest) latestXid
  then set_completed (FullXidRelativeTo cur_latest latestXid) (xactCompletionCount a) a else a.

Definition clear_vacuum (flags : Z) : Z := if has_flag flags PROC_VACUUM_STATE_MASK then Z.ldiff flags PROC_VACUUM_STATE_MASK else flags.

Definition count_completion a : ProcArray := set_completed (latestCompletedXid a) (xactCompletionCount a + 1) a.

Definition ProcArrayEndTransactionInternal me (latestXid : Z) a : result ProcArray :=
  p ← the_proc a me;
  let p := mkProc InvalidTransactionId InvalidTransactionId [] false (clear_vacuum (p_statusFlags p)) (p_databaseId p) in
  Ok (count_completion (MaintainLatestCompletedXid latestXid (store me p a))).

(** Under the lock, by this backend or by the leader of a group. *)
Definition ProcArrayEndTransaction me (latestXid : Z) a : result ProcArray :=
  if TransactionIdIsValid latestXid then ProcArrayEndTransactionInternal me latestXid a
  else
    p ← the_proc a me;
    Ok (store me (mkProc (p_xid p) InvalidTransactionId (p_subxids p) (p_overflowed p) (clear_vacuum (p_statusFlags p)) (p_databaseId p)) a).

(** The last element that equals [x] is replaced by the last one of the array. *)
Definition remove_cached (x : Z) (l : list Z) : list Z :=
  match list_find (x =.) (reverse l) with
  | Some (i, _) =>
      let j := (length l - 1 - i)%nat in
      take (length l - 1) (<[j := default 0 (last l)]> l)
  | None => l
  end.

Definition XidCacheRemoveRunningXids me (xid : Z) (xids : list Z) (latestXid : Z) a : result ProcArray :=
  p ← the_proc a me;
  let subs := remove_cached xid (foldl (λ l x, remove_cached x l) (p_subxids p) (reverse xids)) in
  let p := mkProc (p_xid p) (p_xmin p) subs (p_overflowed p) (p_statusFlags p) (p_databaseId p) in
  Ok (count_completion (MaintainLatestCompletedXid latestXid (store me p a))).

(** * Snapshots *)

(** What the loop over the entries collects. *)
Record collected : Type := mkCollected { c_xmin : Z; c_xip : list Z; c_subxip : list Z; c_suboverflowed : bool }.

Definition snapshot_step me (xmax : Z) (c : collected) (i : nat) p : collected :=
  let xid := p_xid p in
  if xid =? InvalidTransactionId then c
  else if Nat.eqb i me then c
  else if negb (NormalTransactionIdPrecedes xid xmax) then c
  else if has_flag (p_statusFlags p) (Z.lor PROC_IN_LOGICAL_DECODING PROC_IN_VACUUM) then c
  else
    let xmin := if NormalTransactionIdPrecedes xid (c_xmin c) then xid else c_xmin c in
    let xip := c_xip c ++ [xid] in
    if negb (c_suboverflowed c) then
      if p_overflowed p then mkCollected xmin xip (c_subxip c) true
      else mkCollected xmin xip (c_subxip c ++ p_subxids p) false
    else mkCollected xmin xip (c_subxip c) true.

Fixpoint snapshot_loop me (xmax : Z) (c : collected) (i : nat) (l : list PGPROC) : collected :=
  match l with
  | [] => c
  | p :: l => snapshot_loop me xmax (snapshot_step me xmax c i p) (S i) l
  end.

(** [MyProc->xmin] is set if it is not. *)
Definition publish_xmin me (xmin : Z) a : result ProcArray :=
  p ← the_proc a me;
  Ok (if negb (TransactionIdIsValid (p_xmin p))
      then store me (mkProc (p_xid p) xmin (p_subxids p) (p_overflowed p) (p_statusFlags p) (p_databaseId p)) a else a).

(** The snapshot built from the entries, and the completion count it was built at. *)
Definition BuildSnapshot me (cid : Z) a : result (SnapshotData * Z * ProcArray) :=
  p ← the_proc a me;
  let myxid := p_xid p in
  let xmax := TransactionIdAdvance (XidFromFullTransactionId (latestCompletedXid a)) in
  let xmin := if TransactionIdIsNormal myxid && NormalTransactionIdPrecedes myxid xmax then myxid else xmax in
  let c := snapshot_loop me xmax (mkCollected xmin [] [] false) 0 (procs a) in
  a' ← publish_xmin me (c_xmin c) a;
  Ok (mkSnapshot (c_xmin c) xmax (c_xip c) (c_subxip c) (c_suboverflowed c) false cid, xactCompletionCount a, a').

(** An old snapshot is used again if no transaction has ended since it was built; [None] if it
    cannot be. *)
Definition GetSnapshotDataReuse me (cid : Z) (snapshot : SnapshotData) (snapXactCompletionCount : Z) a : result (option (SnapshotData * ProcArray)) :=
  if snapXactCompletionCount =? 0 then Ok None
  else if negb (xactCompletionCount a =? snapXactCompletionCount) then Ok None
  else
    a' ← publish_xmin me (sn_xmin snapshot) a;
    Ok (Some (mkSnapshot (sn_xmin snapshot) (sn_xmax snapshot) (sn_xip snapshot) (sn_subxip snapshot) (suboverflowed snapshot)
                (takenDuringRecovery snapshot) cid, a')).

(** snapmgr.c: when no snapshot is active, the oldest registered one counts. *)
Definition SnapshotResetXmin me (active : bool) (oldest : option SnapshotData) a : result ProcArray :=
  if active then Ok a
  else
    p ← the_proc a me;
    let set x := store me (mkProc (p_xid p) x (p_subxids p) (p_overflowed p) (p_statusFlags p) (p_databaseId p)) a in
    Ok (match oldest with
        | None => set InvalidTransactionId
        | Some s => if TransactionIdPrecedes (p_xmin p) (sn_xmin s) then set (sn_xmin s) else a
        end).

(** * Is a transaction running *)

Section running.
Context (current : Z → bool) (did_abort : Z → bool) (topmost : Z → Z).

(** The answer the scan of the entries gives, or the transactions whose children are not all
    in the caches. *)
Fixpoint progress_scan me (xid : Z) (i : nat) (l : list PGPROC) (xids : list Z) : loop (list Z) bool :=
  match l with
  | [] => Continue xids
  | p :: l =>
      let pxid := p_xid p in
      if Nat.eqb i me then progress_scan me xid (S i) l xids
      else if negb (TransactionIdIsValid pxid) then progress_scan me xid (S i) l xids
      else if pxid =? xid then Break true
      else if TransactionIdPrecedes xid pxid then progress_scan me xid (S i) l xids
      else if existsb (Z.eqb xid) (p_subxids p) then Break true
      else progress_scan me xid (S i) l (if p_overflowed p then xids ++ [pxid] else xids)
  end.

(** The answer and the backend's cache of one id that is not running. *)
Definition ProcIsInProgress me (RecentXmin cachedXidIsNotInProgress xid : Z) a : bool * Z :=
  if TransactionIdPrecedes xid RecentXmin then (false, cachedXidIsNotInProgress)
  else if cachedXidIsNotInProgress =? xid then (false, cachedXidIsNotInProgress)
  else if current xid then (true, cachedXidIsNotInProgress)
  else if TransactionIdPrecedes (XidFromFullTransactionId (latestCompletedXid a)) xid then (true, cachedXidIsNotInProgress)
  else
    match progress_scan me xid 0 (procs a) [] with
    | Break b => (b, cachedXidIsNotInProgress)
    | Continue [] => (false, xid)
    | Continue xids =>
        if did_abort xid then (false, xid)
        else
          let topxid := topmost xid in
          if negb (topxid =? xid) && pg_lfind32 topxid xids then (true, cachedXidIsNotInProgress)
          else (false, xid)
    end.
End running.

(** * Horizons *)

Record XidHorizons : Type := mkHorizons {
  h_latest_completed : Z;
  slot_xmin : Z;
  slot_catalog_xmin : Z;
  oldest_considered_running : Z;
  shared_oldest_nonremovable : Z;
  shared_oldest_nonremovable_raw : Z;
  catalog_oldest_nonremovable : Z;
  data_oldest_nonremovable : Z;
  temp_oldest_nonremovable : Z;
}.

(** The running minimum over the entries: of all, for shared tables, for tables of this
    database. *)
Definition horizon_step (MyDatabaseId : Z) (h : Z * Z * Z) p : Z * Z * Z :=
  let '(running, shared, data) := h in
  let xmin := TransactionIdOlder (p_xmin p) (p_xid p) in
  if negb (TransactionIdIsValid xmin) then (running, shared, data)
  else
    let running := TransactionIdOlder running xmin in
    if has_flag (p_statusFlags p) (Z.lor PROC_IN_VACUUM PROC_IN_LOGICAL_DECODING) then (running, shared, data)
    else
      let shared := TransactionIdOlder shared xmin in
      if (p_databaseId p =? MyDatabaseId) || (MyDatabaseId =? 0) || has_flag (p_statusFlags p) PROC_AFFECTS_ALL_HORIZONS
      then (running, shared, TransactionIdOlder data xmin)
      else (running, shared, data).

(** The horizons of a state. *)
Definition xid_horizons me (MyDatabaseId : Z) a : result XidHorizons :=
  p ← the_proc a me;
  let initial := TransactionIdAdvance (XidFromFullTransactionId (latestCompletedXid a)) in
  let temp := if TransactionIdIsValid (p_xid p) then p_xid p else initial in
  let slot := replication_slot_xmin a in
  let slot_catalog := replication_slot_catalog_xmin a in
  let '(running, shared, data) := foldl (horizon_step MyDatabaseId) (initial, initial, initial) (procs a) in
  let shared_raw := TransactionIdOlder shared slot in
  let data := TransactionIdOlder data slot in
  let shared := TransactionIdOlder shared_raw slot_catalog in
  let catalog := TransactionIdOlder data slot_catalog in
  let running := TransactionIdOlder running shared in
  let running := TransactionIdOlder running catalog in
  let running := TransactionIdOlder running data in
  Ok (mkHorizons (latestCompletedXid a) slot slot_catalog running shared shared_raw catalog data temp).

(** * The bounds a backend keeps *)

Record GlobalVisState : Type := mkVis { definitely_needed : Z; maybe_needed : Z }.

Inductive GlobalVisHorizonKind : Type := VISHORIZON_SHARED | VISHORIZON_CATALOG | VISHORIZON_DATA | VISHORIZON_TEMP.

(** One pair of bounds per kind of relation, and the oldest id of the snapshot of the last update. *)
Record GlobalVis : Type := mkGlobalVis {
  GlobalVisSharedRels : GlobalVisState;
  GlobalVisCatalogRels : GlobalVisState;
  GlobalVisDataRels : GlobalVisState;
  GlobalVisTempRels : GlobalVisState;
  ComputeXidHorizonsResultLastXmin : Z;
}.
Implicit Types (g : GlobalVis) (v : GlobalVisState).

Definition GlobalVisTestFor (kind : GlobalVisHorizonKind) g : GlobalVisState :=
  match kind with
  | VISHORIZON_SHARED => GlobalVisSharedRels g
  | VISHORIZON_CATALOG => GlobalVisCatalogRels g
  | VISHORIZON_DATA => GlobalVisDataRels g
  | VISHORIZON_TEMP => GlobalVisTempRels g
  end.

Section bounds.
Context (RecentXmin : Z).

Definition GlobalVisTestShouldUpdate g v : bool :=
  if negb (TransactionIdIsValid (ComputeXidHorizonsResultLastXmin g)) then true
  else if FullTransactionIdFollowsOrEquals (maybe_needed v) (definitely_needed v) then false
  else negb (RecentXmin =? ComputeXidHorizonsResultLastXmin g).

(** The bounds of one kind of relation with a new horizon. *)
Definition advance_bounds (h : XidHorizons) (oldest : Z) v : GlobalVisState :=
  let maybe := FullXidRelativeTo (h_latest_completed h) oldest in
  mkVis (FullTransactionIdNewer maybe (definitely_needed v)) maybe.

Definition GlobalVisUpdateApply (h : XidHorizons) g : GlobalVis :=
  let temp := FullXidRelativeTo (h_latest_completed h) (temp_oldest_nonremovable h) in
  mkGlobalVis (advance_bounds h (shared_oldest_nonremovable h) (GlobalVisSharedRels g))
    (advance_bounds h (catalog_oldest_nonremovable h) (GlobalVisCatalogRels g))
    (advance_bounds h (data_oldest_nonremovable h) (GlobalVisDataRels g))
    (mkVis temp temp) RecentXmin.

Definition ComputeXidHorizons me (MyDatabaseId : Z) a g : result (XidHorizons * GlobalVis) :=
  h ← xid_horizons me MyDatabaseId a;
  Ok (h, GlobalVisUpdateApply h g).

Definition GlobalVisUpdate me (MyDatabaseId : Z) a g : result GlobalVis :=
  r ← ComputeXidHorizons me MyDatabaseId a g;
  Ok r.2.

Definition GlobalVisTestIsRemovableFullXid me (MyDatabaseId : Z) a (kind : GlobalVisHorizonKind) g (fxid : Z) : result (bool * GlobalVis) :=
  let state := GlobalVisTestFor kind g in
  if FullTransactionIdPrecedes fxid (maybe_needed state) then Ok (true, g)
  else if FullTransactionIdFollowsOrEquals fxid (definitely_needed state) then Ok (false, g)
  else if GlobalVisTestShouldUpdate g state then
    g ← GlobalVisUpdate me MyDatabaseId a g;
    Ok (FullTransactionIdPrecedes fxid (maybe_needed (GlobalVisTestFor kind g)), g)
  else Ok (false, g).

Definition GlobalVisTestIsRemovableXid me (MyDatabaseId : Z) a (kind : GlobalVisHorizonKind) g (xid : Z) : result (bool * GlobalVis) :=
  GlobalVisTestIsRemovableFullXid me MyDatabaseId a kind g (FullXidRelativeTo (definitely_needed (GlobalVisTestFor kind g)) xid).
End bounds.

(** What a new snapshot tells of the bounds. *)
Definition maintain_bounds (myxid xmin : Z) a g : GlobalVis :=
  let latest_completed := latestCompletedXid a in
  let oldestfxid := FullXidRelativeTo latest_completed (oldestXid a) in
  let def_vis_xid_data := TransactionIdOlder xmin (replication_slot_xmin a) in
  let def_vis_xid := TransactionIdOlder (replication_slot_catalog_xmin a) def_vis_xid_data in
  let def_vis_fxid := FullXidRelativeTo latest_completed def_vis_xid in
  let def_vis_fxid_data := FullXidRelativeTo latest_completed def_vis_xid_data in
  let set needed v := mkVis (FullTransactionIdNewer needed (definitely_needed v)) (FullTransactionIdNewer (maybe_needed v) oldestfxid) in
  let temp := if TransactionIdIsNormal myxid then FullXidRelativeTo latest_completed myxid else FullTransactionIdAdvance latest_completed in
  mkGlobalVis (set def_vis_fxid (GlobalVisSharedRels g)) (set def_vis_fxid (GlobalVisCatalogRels g)) (set def_vis_fxid_data (GlobalVisDataRels g))
    (mkVis temp temp) (ComputeXidHorizonsResultLastXmin g).

(** [snapshot] is what the caller's variable holds, built at [count] ([0] if it never was).
    The result has the new [RecentXmin] as the oldest id of the snapshot. *)
Definition GetSnapshotData me (cid : Z) (snapshot : SnapshotData) (count : Z) g a : result (SnapshotData * Z * GlobalVis * ProcArray) :=
  reused ← GetSnapshotDataReuse me cid snapshot count a;
  match reused with
  | Some (snapshot, a) => Ok (snapshot, count, g, a)
  | None =>
      p ← the_proc a me;
      '(snapshot, count, a') ← BuildSnapshot me cid a;
      Ok (snapshot, count, maintain_bounds (p_xid p) (sn_xmin snapshot) a g, a')
  end.
