(* ===== verification/Running.v ===== *)
(** The running transactions as a state machine: ids are assigned to transactions and
    subtransactions, these end, snapshots are taken and released.  The invariant of the shared
    array, and what a snapshot holds of the entries it was built from. *)

From S2P Require Import Prelude Xid Bufpage Itup Compact PageOps HeapPage HotChain HeapPrune Combocid Visibility Procarray.

(** * 64-bit ids *)

Lemma full_advance x : 0 ≤ x < 2 ^ 63 → TransactionIdIsNormal (XidFromFullTransactionId x) = true →
  XidFromFullTransactionId (FullTransactionIdAdvance x) = TransactionIdAdvance (XidFromFullTransactionId x).
Proof.
  unfold XidFromFullTransactionId, FullTransactionIdAdvance, TransactionIdAdvance, FullTransactionIdPrecedes, XidFromFullTransactionId, TransactionIdIsNormal, uint32, uint64, FirstNormalTransactionId.
  intros Hx Hn. rewrite (Z.mod_small (x + 1)) by lia. rewrite (Zplus_mod_idemp_l x).
  pose proof (Z.mod_le x (2 ^ 32)). destruct (Z.ltb_spec (x + 1) 3); [lia|].
  pose proof (Z.mod_pos_bound (x + 1) (2 ^ 32)). destruct (Z.ltb_spec ((x + 1) mod 2 ^ 32) 3); [|done]. rewrite <- Zplus_mod_idemp_l, Z.mod_small; lia.
Qed.

Lemma full_relative rel xid : 0 ≤ xid < 2 ^ 32 → XidFromFullTransactionId (FullXidRelativeTo rel xid) = xid.
Proof.
  unfold XidFromFullTransactionId, FullXidRelativeTo, XidFromFullTransactionId, uint32, uint64, int32. intros Hx.
  assert (Hm : ∀ z, (z mod 2 ^ 64) mod 2 ^ 32 = z mod 2 ^ 32).
  { intros z. change (2 ^ 64) with (2 ^ 32 * 2 ^ 32). rewrite Z.rem_mul_r by lia. rewrite (Z.mul_comm (2 ^ 32)), Z_mod_plus_full. apply Z.mod_mod. lia. }
  rewrite Hm. set (d := xid - rel mod 2 ^ 32). pose proof (Z.div_mod (d + 2 ^ 31) (2 ^ 32)). pose proof (Z.div_mod rel (2 ^ 32)).
  replace (rel + ((d + 2 ^ 31) mod 2 ^ 32 - 2 ^ 31)) with (xid + (rel / 2 ^ 32 - (d + 2 ^ 31) / 2 ^ 32) * 2 ^ 32) by (unfold d in *; lia).
  by rewrite Z_mod_plus_full, Z.mod_small.
Qed.

(** * The cache of subtransactions *)

Lemma remove_cached_perm x l : x ∈ l → x :: remove_cached x l ≡ₚ l.
Proof.
  intros Hx. unfold remove_cached. destruct (list_find (x =.) (reverse l)) as [[i y]|] eqn:E.
  - apply list_find_Some in E as (Hi & <- & _). pose proof (lookup_lt_Some _ _ _ Hi) as Hlt. rewrite length_reverse in Hlt.
    rewrite reverse_lookup in Hi by done. replace (length l - S i)%nat with (length l - 1 - i)%nat in Hi by lia. set (j := (length l - 1 - i)%nat) in *. assert (Hj : (j < length l)%nat) by (unfold j; lia). clearbody j.
    destruct (exists_last (l := l)) as (k & z & ->); [by destruct l|]. rewrite last_snoc. cbn [default from_option id]. rewrite length_app in *. cbn [length] in *.
    destruct (decide (j = length k)) as [Ej|Ej].
    + rewrite Ej in *. rewrite list_lookup_middle in Hi by done. injection Hi as ->. rewrite list_insert_id by (by apply list_lookup_middle).
      rewrite take_app_le by lia. rewrite take_ge by lia. by rewrite Permutation_cons_append.
    + rewrite lookup_app_l in Hi by lia. rewrite insert_app_l by lia. rewrite take_app_le by (rewrite length_insert; lia). rewrite take_ge by (rewrite length_insert; lia).
      rewrite (insert_perm_delete k j x z Hi). rewrite (delete_Permutation k j x Hi) at 2. rewrite <- Permutation_cons_append. by rewrite Permutation_swap.
  - apply list_find_None in E. rewrite Forall_forall in E. exfalso. apply (E x); [by apply elem_of_reverse|done].
Qed.

Lemma remove_cached_absent x l : x ∉ l → remove_cached x l = l.
Proof.
  intros Hx. unfold remove_cached. destruct (list_find (x =.) (reverse l)) as [[i y]|] eqn:E; [|done].
  apply list_find_Some in E as (Hi%list_elem_of_lookup_2 & <- & _). by rewrite elem_of_reverse in Hi.
Qed.

Lemma remove_cached_spec x l : NoDup l → NoDup (remove_cached x l) ∧ ∀ y, y ∈ remove_cached x l ↔ y ∈ l ∧ y ≠ x.
Proof.
  intros Hn. destruct (decide (x ∈ l)) as [Hx|Hx].
  - pose proof (remove_cached_perm x l Hx) as Hp. rewrite <- Hp in Hn. apply NoDup_cons in Hn as [H1 H2]. split; [done|]. intros y. assert (y ∈ l ↔ y = x ∨ y ∈ remove_cached x l) as -> by (rewrite <- elem_of_cons; by rewrite Hp).
    split; [|intros [[->|?] ?]; done]. intros Hy. split; [by right|]. by intros ->.
  - rewrite remove_cached_absent by done. split; [done|]. intros y. split; [|by intros [? _]]. intros Hy. split; [done|]. by intros ->.
Qed.

Lemma remove_all_spec xs l : NoDup l → NoDup (foldl (λ l x, remove_cached x l) l xs) ∧
  ∀ y, y ∈ foldl (λ l x, remove_cached x l) l xs ↔ y ∈ l ∧ y ∉ xs.
Proof.
  revert l. induction xs as [|x xs IH]; intros l Hn; cbn [foldl]; [split; [done|intros y; rewrite elem_of_nil; tauto]|].
  destruct (remove_cached_spec x l Hn) as [H1 H2]. destruct (IH _ H1) as [H3 H4]. split; [done|]. intros y. rewrite H4, H2, not_elem_of_cons. tauto.
Qed.

(** * The state machine *)

(** The shared state, with the subtransactions of every backend that have not failed and the
    snapshots it holds. *)
Record sys : Type := mkSys { arr : ProcArray; live : list (list Z); held : list (list SnapshotData) }.
Implicit Types (s : sys) (me : nat).

Definition next_xid s : Z := XidFromFullTransactionId (nextXid (arr s)).
Definition latest s : Z := XidFromFullTransactionId (latestCompletedXid (arr s)).

(** Transaction [x] is running in backend [i]. *)
Definition runs s (i : nat) (x : Z) : Prop :=
  ∃ p l, procs (arr s) !! i = Some p ∧ live s !! i = Some l ∧ TransactionIdIsValid (p_xid p) = true ∧ (x = p_xid p ∨ x ∈ l).
Definition running s (x : Z) : Prop := ∃ i, runs s i x.

Section machine.
(** Ids are compared within a window of 2^31 from [base]. *)
Context (base : Z) (par post : bool).
Abbreviation W := (in_window base).
Abbreviation P := (pos base).

(** There is room for more ids. *)
Definition room a : Prop := 0 ≤ nextXid a < 2 ^ 63 ∧ W (XidFromFullTransactionId (nextXid a)).

Inductive step : sys → sys → Prop :=
  | step_begin s me p x a : procs (arr s) !! me = Some p → p_xid p = InvalidTransactionId →
      GetNewTransactionId par false false post false me (arr s) = Ok (x, a) → room a →
      step s (mkSys a (live s) (held s))
  | step_sub s me p l x a : procs (arr s) !! me = Some p → TransactionIdIsValid (p_xid p) = true → live s !! me = Some l →
      GetNewTransactionId par false false post true me (arr s) = Ok (x, a) → room a →
      step s (mkSys a (<[me := l ++ [XidFromFullTransactionId x]]> (live s)) (held s))
  | step_abort_sub s me p l x xs a : procs (arr s) !! me = Some p → live s !! me = Some l → (∀ y, y ∈ x :: xs → y ∈ l) →
      XidCacheRemoveRunningXids me x xs (TransactionIdLatest x xs) (arr s) = Ok a →
      step s (mkSys a (<[me := filter (λ y, y ∉ x :: xs) l]> (live s)) (held s))
  | step_end s me p l a : procs (arr s) !! me = Some p → TransactionIdIsValid (p_xid p) = true → live s !! me = Some l →
      ProcArrayEndTransaction me (TransactionIdLatest (p_xid p) l) (arr s) = Ok a →
      step s (mkSys a (<[me := []]> (live s)) (<[me := []]> (held s)))
  | step_end_readonly s me p a : procs (arr s) !! me = Some p → p_xid p = InvalidTransactionId →
      ProcArrayEndTransaction me InvalidTransactionId (arr s) = Ok a →
      step s (mkSys a (live s) (<[me := []]> (held s)))
  | step_snapshot s me cid S n a h : BuildSnapshot me cid (arr s) = Ok (S, n, a) → held s !! me = Some h →
      step s (mkSys a (live s) (<[me := S :: h]> (held s)))
  | step_release s me p h h' active o a : procs (arr s) !! me = Some p → held s !! me = Some h → (∀ S, S ∈ h' → S ∈ h) →
      (active = false → match o with None => h' = [] | Some sn => sn ∈ h' ∧ ∀ sn', sn' ∈ h' → P (sn_xmin sn) ≤ P (sn_xmin sn') end) →
      SnapshotResetXmin me active o (arr s) = Ok a →
      step s (mkSys a (live s) (<[me := h']> (held s))).

(** * Invariant *)

Record entry_ok (next : Z) (p : PGPROC) (l : list Z) : Prop := {
  en_idle : p_xid p = InvalidTransactionId → l = [] ∧ p_subxids p = [] ∧ p_overflowed p = false;
  en_xid : TransactionIdIsValid (p_xid p) = true → W (p_xid p) ∧ P (p_xid p) < P next;
  en_subs : Forall (λ x, W x ∧ P (p_xid p) < P x < P next) l;
  en_cached : ∀ x, x ∈ p_subxids p → x ∈ l;
  en_all : p_overflowed p = false → ∀ x, x ∈ l → x ∈ p_subxids p;
  en_nodup : NoDup (p_subxids p);
  en_xmin : TransactionIdIsValid (p_xmin p) = true → W (p_xmin p);
}.

Record inv s : Prop := {
  in_room : room (arr s);
  in_len : length (live s) = length (procs (arr s));
  in_entries : ∀ i p l, procs (arr s) !! i = Some p → live s !! i = Some l → entry_ok (next_xid s) p l;
  in_latest : W (latest s) ∧ P (latest s) < P (next_xid s);
  in_young : ∀ x, W x → P (latest s) < P x < P (next_xid s) → running s x;
}.

Lemma runs_entry s i x : inv s → runs s i x → W x ∧ P x < P (next_xid s).
Proof.
  intros H (p & l & Hp & Hl & Hv & Hx). destruct (in_entries s H i p l Hp Hl) as [_ E1 E2 _ _ _ _]. destruct Hx as [->|Hx]; [auto|].
  rewrite Forall_forall in E2. destruct (E2 x Hx). split; [done|lia].
Qed.

(** Storing the entry of one backend. *)
Lemma store_lookup me p a i q : procs (store me p a) !! i = Some q → (i = me ∧ q = p ∧ is_Some (procs a !! me)) ∨ (i ≠ me ∧ procs a !! i = Some q).
Proof.
  unfold store, set_procs. cbn [procs]. intros H. destruct (decide (i = me)) as [->|Hne].
  - left. apply list_lookup_insert_Some in H as [(_ & -> & Hl)|[? _]]; [|done]. split_and!; [done|done|]. by apply lookup_lt_is_Some_2.
  - right. rewrite list_lookup_insert_ne in H by done. done.
Qed.

(** The invariant after one backend changed its entry, no id was assigned and those that ended
    are counted in [latestCompletedXid]. *)
Lemma inv_update s me p l q m L a h : inv s → procs (arr s) !! me = Some p → live s !! me = Some l →
  procs a = procs (store me q (arr s)) → nextXid a = nextXid (arr s) → XidFromFullTransactionId (latestCompletedXid a) = L →
  entry_ok (next_xid s) q m → W L → P (latest s) ≤ P L < P (next_xid s) →
  (∀ x, TransactionIdIsValid (p_xid p) = true → x = p_xid p ∨ x ∈ l → P L < P x → TransactionIdIsValid (p_xid q) = true ∧ (x = p_xid q ∨ x ∈ m)) →
  inv (mkSys a (<[me := m]> (live s)) h).
Proof.
  intros [I1 I2 I3 I4 I5] Hp Hl Ea En EL He HW HL Hk. constructor; unfold next_xid, latest in *; cbn [arr live]; rewrite ?En, ?EL; [|rewrite Ea| |split; [done|lia]|].
  - unfold room. by rewrite En.
  - unfold store, set_procs. cbn [procs]. by rewrite !length_insert.
  - rewrite Ea. intros i p' l' [(-> & -> & _)|[Hne Hi]]%store_lookup Hl'.
    + rewrite list_lookup_insert_eq in Hl' by (by eapply lookup_lt_Some). by injection Hl' as <-.
    + rewrite list_lookup_insert_ne in Hl' by done. by apply (I3 i).
  - intros x Hx HP. destruct (I5 x Hx) as (i & p' & l' & Hi & Hl' & Hv & Hin); [lia|].
    exists i. unfold runs. cbn [arr live]. rewrite Ea. unfold store, set_procs. cbn [procs]. destruct (decide (i = me)) as [->|Hne].
    + rewrite Hp in Hi. rewrite Hl in Hl'. injection Hi as <-. injection Hl' as <-. exists q, m.
      rewrite !list_lookup_insert_eq by (by eapply lookup_lt_Some). destruct (Hk x Hv Hin); [lia|]. done.
    + exists p', l'. rewrite !list_lookup_insert_ne by done. done.
Qed.

(** ** The steps *)

Lemma maintained a x : W (XidFromFullTransactionId (latestCompletedXid a)) → W x →
  XidFromFullTransactionId (latestCompletedXid (MaintainLatestCompletedXid x a)) =
  if P (XidFromFullTransactionId (latestCompletedXid a)) <? P x then x else XidFromFullTransactionId (latestCompletedXid a).
Proof.
  intros Ha Hx. unfold MaintainLatestCompletedXid. rewrite (precedes_pos base) by done. destruct (_ <? _); [|done].
  cbn [set_completed latestCompletedXid]. apply full_relative. destruct Hx as [[? ?] _]. unfold FirstNormalTransactionId, MaxTransactionId in *. lia.
Qed.

Lemma maintained_procs x a : procs (count_completion (MaintainLatestCompletedXid x a)) = procs a ∧ nextXid (count_completion (MaintainLatestCompletedXid x a)) = nextXid a.
Proof. unfold count_completion, MaintainLatestCompletedXid. by destruct (TransactionIdPrecedes _ _). Qed.

(** The members of a backend's tree. *)
Lemma tree_window s i p l : inv s → procs (arr s) !! i = Some p → live s !! i = Some l → TransactionIdIsValid (p_xid p) = true →
  Forall (λ x, W x ∧ P x < P (next_xid s)) (p_xid p :: l).
Proof.
  intros H Hp Hl Hv. destruct (in_entries s H i p l Hp Hl) as [_ E1 E2 _ _ _ _]. constructor; [auto|].
  eapply Forall_impl; [done|]. cbn. intros x [? ?]. split; [done|lia].
Qed.

Lemma latest_tree s xs x : Forall (λ x, W x ∧ P x < P (next_xid s)) (x :: xs) → inv s → let y := TransactionIdLatest x xs in
  let L := if P (latest s) <? P y then y else latest s in
  W y ∧ W L ∧ P (latest s) ≤ P L < P (next_xid s) ∧ Forall (λ z, P z ≤ P L) (x :: xs).
Proof.
  intros HF H y L. inversion HF as [|? ? [Hx _] HF']; subst. destruct (latest_spec base x xs) as [Hin Hmax]; [done|by eapply Forall_impl; [done|intros ? [? _]]|].
  fold y in Hin, Hmax. rewrite Forall_forall in HF. destruct (HF y Hin) as [Hy Hyn]. destruct (in_latest s H) as [HL HLn]. unfold L.
  destruct (Z.ltb_spec (P (latest s)) (P y)); (split_and!; [done|done|lia|lia|]); eapply Forall_impl; try done; cbn; lia.
Qed.

Lemma valid_invalid x : TransactionIdIsValid x = true ↔ x ≠ InvalidTransactionId.
Proof. unfold TransactionIdIsValid. destruct (Z.eqb_spec x InvalidTransactionId); cbn; split; congruence. Qed.

Lemma inv_abort_sub s me p l x xs a : inv s → procs (arr s) !! me = Some p → live s !! me = Some l → (∀ y, y ∈ x :: xs → y ∈ l) →
  XidCacheRemoveRunningXids me x xs (TransactionIdLatest x xs) (arr s) = Ok a →
  inv (mkSys a (<[me := filter (λ y, y ∉ x :: xs) l]> (live s)) (held s)).
Proof.
  intros H Hp Hl Hxs Ha. unfold XidCacheRemoveRunningXids, the_proc in Ha. rewrite Hp in Ha. cbn [some_or mbind result_bind] in Ha.
  match type of Ha with context [store me ?q0 _] => set (q := q0) in Ha end. injection Ha as <-.
  pose proof (in_entries s H me p l Hp Hl) as [E0 E1 E2 E3 E4 E5 E6].
  assert (Hv : TransactionIdIsValid (p_xid p) = true).
  { apply valid_invalid. intros E. destruct (E0 E) as [-> _]. specialize (Hxs x ltac:(left)). by apply elem_of_nil in Hxs. }
  assert (HT : Forall (λ x, W x ∧ P x < P (next_xid s)) (x :: xs)).
  { apply Forall_forall. intros y Hy%Hxs. rewrite Forall_forall in E2. destruct (E2 y Hy). split; [done|lia]. }
  destruct (latest_tree s xs x HT H) as (Hy & HL & HLn & Hmax).
  destruct (remove_all_spec (reverse xs) (p_subxids p) E5) as [N1 R1]. destruct (remove_cached_spec x _ N1) as [N2 R2].
  assert (HR : ∀ y, y ∈ p_subxids q ↔ y ∈ p_subxids p ∧ y ∉ x :: xs).
  { intros y. cbn [q p_subxids]. rewrite R2, R1, elem_of_reverse, not_elem_of_cons. tauto. }
  eapply (inv_update s me p l q _ _ _ _ H Hp Hl); [| | | |exact HL|exact HLn|].
  - apply maintained_procs.
  - etrans; [apply maintained_procs|done].
  - cbn [count_completion set_completed latestCompletedXid]. rewrite maintained; [done|apply (in_latest s H)|done].
  - constructor; cbn [q p_xid p_xmin p_overflowed]; [|done| | | |done|done].
    + intros E. by apply valid_invalid in Hv.
    + by apply Forall_filter.
    + intros y [Hc Hn]%HR. apply list_elem_of_filter. auto.
    + intros Ho y [Hn Hc]%list_elem_of_filter. apply HR. auto.
  - intros y _ [->|Hin] HP; cbn [q p_xid]; (split; [done|]); [by left|]. right. apply list_elem_of_filter. split; [|done]. intros Hy'. rewrite Forall_forall in Hmax. specialize (Hmax y Hy'). lia.
Qed.

Lemma inv_end s me p l a h : inv s → procs (arr s) !! me = Some p → TransactionIdIsValid (p_xid p) = true → live s !! me = Some l →
  ProcArrayEndTransaction me (TransactionIdLatest (p_xid p) l) (arr s) = Ok a → inv (mkSys a (<[me := []]> (live s)) h).
Proof.
  intros H Hp Hv Hl Ha. destruct (latest_tree s l (p_xid p) (tree_window s me p l H Hp Hl Hv) H) as (Hy & HL & HLn & Hmax).
  unfold ProcArrayEndTransaction in Ha. assert (TransactionIdIsValid (TransactionIdLatest (p_xid p) l) = true) as Hvl.
  { apply valid_invalid. destruct Hy as [[? _] _]. unfold FirstNormalTransactionId, InvalidTransactionId in *. lia. }
  rewrite Hvl in Ha. unfold ProcArrayEndTransactionInternal, the_proc in Ha. rewrite Hp in Ha. cbn [some_or mbind result_bind] in Ha.
  match type of Ha with context [store me ?q0 _] => set (q := q0) in Ha end. injection Ha as <-.
  eapply (inv_update s me p l q _ _ _ _ H Hp Hl); [| | | |exact HL|exact HLn|].
  - apply maintained_procs.
  - etrans; [apply maintained_procs|done].
  - cbn [count_completion set_completed latestCompletedXid]. rewrite maintained; [done|apply (in_latest s H)|done].
  - constructor; cbn [q p_xid p_xmin p_subxids p_overflowed]; try done; constructor.
  - intros x _ Hin HP. rewrite Forall_forall in Hmax. specialize (Hmax x). rewrite elem_of_cons in Hmax. specialize (Hmax Hin). lia.
Qed.

(** Assigning an id. *)

Lemma entry_later n n' p l : P n ≤ P n' → entry_ok n p l → entry_ok n' p l.
Proof.
  intros Hn [E0 E1 E2 E3 E4 E5 E6]. constructor; try done.
  - intros Hv. destruct (E1 Hv). split; [done|lia].
  - eapply Forall_impl; [done|]. cbn. intros x [? ?]. split; [done|lia].
Qed.

Lemma assigned sub me s x a : GetNewTransactionId par false false post sub me (arr s) = Ok (x, a) → ∃ p q, x = nextXid (arr s) ∧ procs (arr s) !! me = Some p ∧
  a = store me q (set_next (FullTransactionIdAdvance (nextXid (arr s))) (arr s)) ∧ p_xmin q = p_xmin p ∧
  (p_statusFlags q = p_statusFlags p ∧ p_databaseId q = p_databaseId p) ∧
  (if sub then p_xid q = p_xid p ∧ ((p_subxids q = p_subxids p ++ [next_xid s] ∧ p_overflowed q = p_overflowed p) ∨ (p_subxids q = p_subxids p ∧ p_overflowed q = true))
   else p_xid q = next_xid s ∧ p_subxids q = p_subxids p ∧ p_overflowed q = p_overflowed p).
Proof.
  unfold GetNewTransactionId. destruct par; [done|]. destruct (_ && _); [done|]. unfold the_proc. cbn [set_next procs nextXid].
  destruct (procs (arr s) !! me) as [p|]; [|done]. cbn [some_or mbind result_bind]. intros [= <- <-]. exists p. eexists. split; [done|]. split; [done|]. split; [done|]. split; [|split].
  - destruct sub; cbn [negb]; [|done]. by destruct (_ <? _).
  - destruct sub; cbn [negb]; [|done]. by destruct (_ <? _).
  - destruct sub; cbn [negb]; [|done]. destruct (_ <? _); cbn [p_xid p_subxids p_overflowed]; auto.
Qed.

Lemma inv_assign s me sub x a p q l m h : inv s → room a → procs (arr s) !! me = Some p → live s !! me = Some l →
  a = store me q (set_next (FullTransactionIdAdvance (nextXid (arr s))) (arr s)) → TransactionIdIsValid (p_xid q) = true → x = next_xid s →
  (sub = false → p_xid p = InvalidTransactionId ∧ p_xid q = x ∧ m = l) → (sub = true → p_xid q = p_xid p ∧ m = l ++ [x]) →
  (∀ n, P x < P n → entry_ok n q m) → inv (mkSys a (<[me := m]> (live s)) h).
Proof.
  intros H Hroom Hp Hl Ea Hv -> Hb Hs He. pose proof (in_room s H) as [HN HNW]. fold (next_xid s) in HNW.
  assert (En : XidFromFullTransactionId (nextXid a) = TransactionIdAdvance (next_xid s)).
  { rewrite Ea. cbn [store set_procs set_next nextXid]. apply full_advance; [done|by apply (window_normal base)]. }
  destruct (advance_pos base _ HNW) as (A1 & A2 & A3). destruct (in_latest s H) as [HL HLn].
  assert (EL : latest (mkSys a (<[me := m]> (live s)) h) = latest s) by (unfold latest; by rewrite Ea).
  assert (Hrun : running (mkSys a (<[me := m]> (live s)) h) (next_xid s) ∧ ∀ y, running s y → running (mkSys a (<[me := m]> (live s)) h) y).
  { assert (Hme : ∀ y, y = p_xid q ∨ y ∈ m → running (mkSys a (<[me := m]> (live s)) h) y).
    { intros y Hy. exists me, q, m. cbn [arr live]. rewrite Ea. cbn [store set_procs set_next procs]. rewrite !list_lookup_insert_eq by (by eapply lookup_lt_Some). done. }
    split; [apply Hme; destruct sub; [destruct Hs as [_ ->]; [done|]; right; apply elem_of_app; right; left|destruct Hb as (_ & -> & _); [done|by left]]|].
    intros y (i & p' & l' & Hi & Hl' & Hv' & Hy). destruct (decide (i = me)) as [->|Hne].
    - rewrite Hp in Hi. rewrite Hl in Hl'. injection Hi as <-. injection Hl' as <-. apply Hme.
      destruct sub; [destruct Hs as [-> ->]; [done|]; rewrite elem_of_app; tauto|destruct Hb as (E & _); [done|]; by apply valid_invalid in Hv'].
    - exists i, p', l'. cbn [arr live]. rewrite Ea. cbn [store set_procs set_next procs]. rewrite !list_lookup_insert_ne by done. done. }
  constructor; unfold next_xid; rewrite ?EL; cbn [arr live]; [done| | |rewrite En; split; [done|lia]|].
  - rewrite Ea. cbn [store set_procs set_next procs]. rewrite !length_insert. apply (in_len s H).
  - rewrite En. intros i p' l' Hi Hl'. rewrite Ea in Hi. apply store_lookup in Hi as [(-> & -> & _)|[Hne Hi]].
    + rewrite list_lookup_insert_eq in Hl' by (by eapply lookup_lt_Some). injection Hl' as <-. apply He. lia.
    + rewrite list_lookup_insert_ne in Hl' by done. apply (entry_later (next_xid s)); [lia|]. by apply (in_entries s H i).
  - rewrite En. intros y Hy HP. destruct (Z.lt_trichotomy (P y) (P (next_xid s))) as [Hlt|[Heq|Hgt]].
    + apply Hrun, (in_young s H); [done|lia].
    + rewrite (pos_inj base y (next_xid s)); [apply (proj1 Hrun)|apply Hy|apply HNW|done].
    + specialize (A3 y (proj1 Hy) Hgt). lia.
Qed.

Lemma inv_begin s me p x a h : inv s → procs (arr s) !! me = Some p → p_xid p = InvalidTransactionId →
  GetNewTransactionId par false false post false me (arr s) = Ok (x, a) → room a → inv (mkSys a (live s) h).
Proof.
  intros H Hp Hx (p' & q & -> & Hp' & Ea & Q1 & _ & Q2 & Q3 & Q4)%assigned Hr. rewrite Hp in Hp'. injection Hp' as <-.
  destruct (lookup_lt_is_Some_2 (live s) me) as [l Hl]; [rewrite (in_len s H); by eapply lookup_lt_Some|].
  destruct (in_entries s H me p l Hp Hl) as [E0 E1 E2 E3 E4 E5 E6]. destruct (E0 Hx) as (-> & Ec & Eo). destruct (in_room s H) as [_ HN]. fold (next_xid s) in HN.
  assert (Hvq : TransactionIdIsValid (p_xid q) = true).
  { apply valid_invalid. rewrite Q2. destruct HN as [[? _] _]. unfold FirstNormalTransactionId, InvalidTransactionId in *. lia. }
  rewrite <- (list_insert_id (live s) me []) by done. apply (inv_assign s me false (next_xid s) a p q [] [] h H Hr Hp Hl Ea Hvq eq_refl); [done|done|].
  intros n Hn. constructor; rewrite ?Q1, ?Q2, ?Q3, ?Q4, ?Ec, ?Eo; try done.
  - constructor.
Qed.

Lemma inv_sub s me p l x a h : inv s → procs (arr s) !! me = Some p → TransactionIdIsValid (p_xid p) = true → live s !! me = Some l →
  GetNewTransactionId par false false post true me (arr s) = Ok (x, a) → room a → inv (mkSys a (<[me := l ++ [XidFromFullTransactionId x]]> (live s)) h).
Proof.
  intros H Hp Hv Hl (p' & q & -> & Hp' & Ea & Q1 & _ & Q2 & Q3)%assigned Hr. rewrite Hp in Hp'. injection Hp' as <-. fold (next_xid s).
  destruct (in_entries s H me p l Hp Hl) as [E0 E1 E2 E3 E4 E5 E6]. destruct (in_room s H) as [_ HN]. fold (next_xid s) in HN. destruct (E1 Hv) as [Hw Hlt].
  rewrite Forall_forall in E2. assert (Hnew : next_xid s ∉ l) by (intros Hin; destruct (E2 _ Hin); lia).
  apply (inv_assign s me true (next_xid s) a p q l (l ++ [next_xid s]) h H Hr Hp Hl Ea); [by rewrite Q2|done|done|done|].
  intros n Hn. constructor; rewrite ?Q1, ?Q2; try done.
  - intros E. by apply valid_invalid in Hv.
  - intros _. split; [done|lia].
  - apply Forall_forall. intros y [Hy|Hy%list_elem_of_singleton]%elem_of_app; [destruct (E2 y Hy); split; [done|lia]|subst y; split; [done|lia]].
  - intros y Hy. destruct Q3 as [[E _]|[E _]]; rewrite E in Hy; [|apply elem_of_app; left; auto]. apply elem_of_app in Hy as [Hy|Hy]; apply elem_of_app; auto.
  - intros Eo y Hy. destruct Q3 as [[-> Eq]|[_ Eq]]; [|congruence]. rewrite Eq in Eo. apply elem_of_app in Hy as [Hy|Hy]; apply elem_of_app; auto.
  - destruct Q3 as [[-> _]|[-> _]]; [|done]. apply NoDup_app. split_and!; [done| |apply NoDup_singleton]. intros y Hy ->%list_elem_of_singleton. auto.
Qed.

(** ** Taking a snapshot *)

(** The entries that count for a snapshot of backend [me]. *)
Definition included me (xmax : Z) (i : nat) (p : PGPROC) : Prop :=
  TransactionIdIsValid (p_xid p) = true ∧ i ≠ me ∧ P (p_xid p) < P xmax ∧
  has_flag (p_statusFlags p) (Z.lor PROC_IN_LOGICAL_DECODING PROC_IN_VACUUM) = false.

(** What has been collected from the entries [Q]. *)
Record collects (Q : nat → PGPROC → Prop) (xmin0 : Z) (c : collected) : Prop := {
  cl_window : W (c_xmin c);
  cl_first : P (c_xmin c) ≤ P xmin0;
  cl_least : ∀ i p, Q i p → P (c_xmin c) ≤ P (p_xid p);
  cl_from : c_xmin c = xmin0 ∨ ∃ i p, Q i p ∧ c_xmin c = p_xid p;
  cl_xip : ∀ x, x ∈ c_xip c ↔ ∃ i p, Q i p ∧ x = p_xid p;
  cl_sub : c_suboverflowed c = false → ∀ x, x ∈ c_subxip c ↔ ∃ i p, Q i p ∧ x ∈ p_subxids p;
  cl_over : c_suboverflowed c = false → ∀ i p, Q i p → p_overflowed p = false;
}.

Lemma collects_iff (Q Q' : nat → PGPROC → Prop) xmin0 c : (∀ i p, Q i p ↔ Q' i p) → collects Q xmin0 c → collects Q' xmin0 c.
Proof.
  intros HQ [C1 C2 C3 C4 C5 C6 C7]. constructor; [done|done| | | | |].
  - intros i p ?%HQ. by eapply C3.
  - destruct C4 as [|(i & p & ?%HQ & ?)]; eauto.
  - intros x. rewrite C5. split; intros (i & p & ?%HQ & ?); eauto.
  - intros Ho x. rewrite C6 by done. split; intros (i & p & ?%HQ & ?); eauto.
  - intros Ho i p ?%HQ. by eapply C7.
Qed.

Lemma snapshot_step_spec me xmax Q xmin0 c i p : W xmax → (TransactionIdIsValid (p_xid p) = true → W (p_xid p)) → collects Q xmin0 c →
  collects (λ j q, Q j q ∨ (j = i ∧ q = p ∧ included me xmax i p)) xmin0 (snapshot_step me xmax c i p).
Proof.
  intros Hmax Hp [C1 C2 C3 C4 C5 C6 C7]. unfold snapshot_step.
  assert (Hskip : ¬ included me xmax i p → collects (λ j q, Q j q ∨ (j = i ∧ q = p ∧ included me xmax i p)) xmin0 c).
  { intros Hn. apply (collects_iff Q); [|by constructor]. intros j q. tauto. }
  destruct (Z.eqb_spec (p_xid p) InvalidTransactionId) as [E|Hv%valid_invalid]; [apply Hskip; intros (Hv%valid_invalid & _); done|]. specialize (Hp Hv).
  destruct (Nat.eqb_spec i me); [apply Hskip; by intros (_ & ? & _)|].
  rewrite (normal_precedes_pos base), (normal_precedes_pos base) by done.
  destruct (Z.ltb_spec (P (p_xid p)) (P xmax)); cbn [negb]; [|apply Hskip; intros (_ & _ & ? & _); lia].
  destruct (has_flag _ _) eqn:Ef; [apply Hskip; intros (_ & _ & _ & ?); congruence|].
  assert (Hi : included me xmax i p) by done. set (xmin := if P (p_xid p) <? P (c_xmin c) then p_xid p else c_xmin c).
  assert (X : W xmin ∧ P xmin ≤ P (c_xmin c) ∧ P xmin ≤ P (p_xid p) ∧ (xmin = c_xmin c ∨ xmin = p_xid p)).
  { unfold xmin. destruct (Z.ltb_spec (P (p_xid p)) (P (c_xmin c))); split_and!; first [done|lia|auto]. }
  destruct X as (X1 & X2 & X3 & X4).
  assert (HC : ∀ subs o, (o = false → c_suboverflowed c = false ∧ p_overflowed p = false ∧ subs = c_subxip c ++ p_subxids p) →
    collects (λ j q, Q j q ∨ (j = i ∧ q = p ∧ included me xmax i p)) xmin0 (mkCollected xmin (c_xip c ++ [p_xid p]) subs o)).
  { intros subs o Ho. constructor; cbn [c_xmin c_xip c_subxip c_suboverflowed]; [done|lia| | | | |].
    - intros j q [HQ|(-> & -> & _)]; [|done]. specialize (C3 j q HQ). lia.
    - destruct X4 as [-> | ->]; [|right; exists i, p; auto]. destruct C4 as [|(j & q & ? & ?)]; [by left|right; eauto].
    - intros x. rewrite elem_of_app, C5, list_elem_of_singleton. split.
      + intros [(j & q & ? & ?)| ->]; eauto 10.
      + intros (j & q & [?|(-> & -> & _)] & ->); eauto.
    - intros Eo x. destruct (Ho Eo) as (H1 & H2 & ->). rewrite elem_of_app, C6 by done. split.
      + intros [(j & q & ? & ?)|?]; eauto 10.
      + intros (j & q & [?|(-> & -> & _)] & ?); eauto.
    - intros Eo j q [HQ|(-> & -> & _)]; destruct (Ho Eo) as (H1 & H2 & _); [by eapply C7|done]. }
  destruct (c_suboverflowed c); cbn [negb]; [by apply HC|]. destruct (p_overflowed p) eqn:Eo; apply HC; done.
Qed.

Lemma snapshot_loop_spec me xmax Q xmin0 c i l : W xmax → (∀ p, p ∈ l → TransactionIdIsValid (p_xid p) = true → W (p_xid p)) → collects Q xmin0 c →
  collects (λ j q, Q j q ∨ ∃ k, l !! k = Some q ∧ j = (i + k)%nat ∧ included me xmax j q) xmin0 (snapshot_loop me xmax c i l).
Proof.
  intros Hmax. revert Q c i. induction l as [|p l IH]; intros Q c i Hl Hc; cbn [snapshot_loop].
  - apply (collects_iff Q); [|done]. intros j q. split; [auto|]. by intros [|(k & ? & _)].
  - assert (Hs := snapshot_step_spec me xmax Q xmin0 c i p Hmax (Hl p ltac:(left)) Hc).
    eapply collects_iff; [|apply (IH _ _ (S i) (λ q Hq, Hl q (list_elem_of_further q p l Hq)) Hs)]. intros j q. cbn beta. split.
    + intros [[|(-> & -> & ?)]|(k & ? & -> & ?)]; [by left|right; exists 0%nat; rewrite Nat.add_0_r; done|right].
      exists (S k). split_and!; [done|lia|]. replace (i + S k)%nat with (S i + k)%nat by lia. done.
    + intros [|([|k] & Hk & -> & ?)]; [by left; left| |].
      * injection Hk as ->. left. right. by rewrite Nat.add_0_r in *.
      * right. exists k. split_and!; [done|lia|]. replace (S i + k)%nat with (i + S k)%nat by lia. done.
Qed.

Record snapshot_of s me (S : SnapshotData) : Prop := {
  so_xmax : W (sn_xmax S) ∧ P (latest s) < P (sn_xmax S) ≤ P (next_xid s);
  so_next : ∀ y, W y → P (latest s) < P y → P (sn_xmax S) ≤ P y;
  so_own : ∀ x, runs s me x → P (sn_xmin S) ≤ P x;
  so_xmin : W (sn_xmin S) ∧ P (sn_xmin S) ≤ P (sn_xmax S);
  so_collects : ∃ xmin0, (xmin0 = sn_xmax S ∨ ∃ p, procs (arr s) !! me = Some p ∧ TransactionIdIsValid (p_xid p) = true ∧ xmin0 = p_xid p) ∧
    collects (λ j q, procs (arr s) !! j = Some q ∧ included me (sn_xmax S) j q) xmin0
    (mkCollected (sn_xmin S) (sn_xip S) (sn_subxip S) (suboverflowed S));
  so_primary : takenDuringRecovery S = false;
}.

Lemma xmax_window s : inv s → let xmax := TransactionIdAdvance (latest s) in
  W xmax ∧ P (latest s) < P xmax ≤ P (next_xid s) ∧ ∀ y, W y → P (latest s) < P y → P xmax ≤ P y.
Proof.
  intros H xmax. destruct (in_latest s H) as [HL HLn]. destruct (advance_pos base _ HL) as (A1 & A2 & A3). fold xmax in A1, A2, A3.
  destruct (in_room s H) as [_ HN]. fold (next_xid s) in HN. assert (P xmax ≤ P (next_xid s)) by (apply A3; [apply HN|done]).
  split; [split; [done|destruct HN; lia]|]. split; [lia|]. intros y [Hy _]. by apply A3.
Qed.

Lemma snapshot_taken s me cid S n a : inv s → BuildSnapshot me cid (arr s) = Ok (S, n, a) →
  snapshot_of s me S ∧ n = xactCompletionCount (arr s) ∧ publish_xmin me (sn_xmin S) (arr s) = Ok a.
Proof.
  intros H E. unfold BuildSnapshot, the_proc in E. destruct (procs (arr s) !! me) as [p|] eqn:Hp; [|done]. cbn [some_or mbind result_bind] in E.
  fold (latest s) in E. set (xmax := TransactionIdAdvance (latest s)) in E. destruct (xmax_window s H) as (M1 & M2 & M3). fold xmax in M1, M2, M3.
  set (xmin0 := if TransactionIdIsNormal (p_xid p) && _ then _ else _) in E.
  destruct (lookup_lt_is_Some_2 (live s) me) as [l Hl]; [rewrite (in_len s H); by eapply lookup_lt_Some|].
  pose proof (in_entries s H me p l Hp Hl) as [E0 E1 E2 _ _ _ _].
  assert (X : W xmin0 ∧ P xmin0 ≤ P xmax ∧ (TransactionIdIsValid (p_xid p) = true → P xmin0 ≤ P (p_xid p))).
  { unfold xmin0. destruct (TransactionIdIsNormal (p_xid p)) eqn:En; cbn [andb].
    - assert (Hv : TransactionIdIsValid (p_xid p) = true) by (apply valid_invalid; intros E'; rewrite E' in En; done). destruct (E1 Hv) as [Hw _].
      rewrite (normal_precedes_pos base) by done. destruct (Z.ltb_spec (P (p_xid p)) (P xmax)); split_and!; first [done|lia|intros _; lia].
    - split_and!; [done|lia|]. intros Hv. destruct (E1 Hv) as [Hw _]. by rewrite (window_normal _ _ Hw) in En. }
  destruct X as (X1 & X2 & X3).
  set (c := snapshot_loop me xmax (mkCollected xmin0 [] [] false) 0 (procs (arr s))) in E.
  assert (HC : collects (λ j q, False ∨ ∃ k, procs (arr s) !! k = Some q ∧ j = (0 + k)%nat ∧ included me xmax j q) xmin0 c).
  { apply (snapshot_loop_spec me xmax (λ _ _, False)); [done| |].
    - intros q [i Hi]%list_elem_of_lookup_1 Hv. destruct (lookup_lt_is_Some_2 (live s) i) as [l' Hl']; [rewrite (in_len s H); by eapply lookup_lt_Some|].
      by apply (in_entries s H i q l' Hi Hl').
    - constructor; cbn; [done|lia|done|by left| |intros _|done]; (intros x; split; [by intros ?%elem_of_nil|by intros (? & ? & ? & _)]). }
  destruct (publish_xmin me (c_xmin c) (arr s)) as [a'|] eqn:Ep; [|done]. injection E as <- <- <-. cbn [sn_xmin]. split; [|done].
  constructor; cbn [sn_xmax sn_xmin sn_xip sn_subxip suboverflowed takenDuringRecovery]; try done.
  - intros x (p' & l' & Hp' & Hl' & Hv & Hx). rewrite Hp in Hp'. injection Hp' as <-. rewrite Hl in Hl'. injection Hl' as <-.
    assert (P (p_xid p) ≤ P x). { destruct Hx as [->|Hx]; [done|]. rewrite Forall_forall in E2. destruct (E2 x Hx). lia. }
    specialize (X3 Hv). pose proof (cl_first _ _ _ HC). lia.
  - pose proof (cl_first _ _ _ HC). pose proof (cl_window _ _ _ HC). split; [done|lia].
  - exists xmin0. split.
    { unfold xmin0. destruct (TransactionIdIsNormal (p_xid p)) eqn:En; cbn [andb]; [|by left]. destruct (NormalTransactionIdPrecedes _ _); [right|by left].
      exists p. split_and!; [done| |done]. apply valid_invalid. intros E'. by rewrite E' in En. }
    replace (mkCollected _ _ _ _) with c by (by destruct c). eapply collects_iff; [|exact HC]. intros j q. cbn beta. split.
    + intros [[]|(k & ? & -> & ?)]. done.
    + intros [? ?]. right. by exists j.
Qed.

(** Entries of backends that do not vacuum or decode. *)
Definition plain (p : PGPROC) : Prop := has_flag (p_statusFlags p) (Z.lor PROC_IN_LOGICAL_DECODING PROC_IN_VACUUM) = false.

(** The parents of subtransactions lead to their transaction. *)
Definition topmost_ok (topmost : Z → Z) s : Prop := ∀ i p l, procs (arr s) !! i = Some p → live s !! i = Some l → TransactionIdIsValid (p_xid p) = true →
  topmost (p_xid p) = p_xid p ∧ ∀ x, x ∈ l → topmost x = p_xid p.

Lemma lfind_elem x l : pg_lfind32 x l = true ↔ x ∈ l.
Proof.
  unfold pg_lfind32. rewrite existsb_exists. split.
  - intros (y & Hy & ->%Z.eqb_eq). by apply list_elem_of_In.
  - intros Hx. exists x. split; [by apply list_elem_of_In|by apply Z.eqb_refl].
Qed.

(** What runs in another backend when a snapshot is taken is running for the snapshot. *)
Lemma snapshot_complete `{X : Xacts} s me S i x : inv s → snapshot_of s me S → topmost_ok SubTransTopmost s →
  runs s i x → i ≠ me → (∀ p, procs (arr s) !! i = Some p → plain p) → XidInMVCCSnapshot x S = true.
Proof.
  intros H [[M1 M2] M3 _ [N1 N2] (xmin0 & _ & C) Hr] Htop (p & l & Hp & Hl & Hv & Hx) Hi Hplain.
  assert (Hrun : runs s i x) by (exists p, l; done). destruct (runs_entry s i x H Hrun) as [Hw Hn].
  pose proof (in_entries s H i p l Hp Hl) as [_ E1 E2 _ E4 _ _]. destruct (E1 Hv) as [Hwp Hnp]. destruct (Htop i p l Hp Hl Hv) as [T1 T2].
  assert (Hge : P (p_xid p) ≤ P x). { destruct Hx as [->|Hx]; [done|]. rewrite Forall_forall in E2. destruct (E2 x Hx). lia. }
  destruct C as [_ _ C3 _ C5 C6 C7]. cbn [c_xmin c_xip c_subxip c_suboverflowed] in *.
  assert (Hmin : P (sn_xmin S) ≤ P (p_xid p)).
  { destruct (Z.le_gt_cases (P (sn_xmax S)) (P (p_xid p))) as [|Hlt]; [lia|]. apply (C3 i p). split; [done|]. split_and!; [done|done|lia|by apply Hplain]. }
  unfold XidInMVCCSnapshot. rewrite (precedes_pos base) by done. destruct (Z.ltb_spec (P x) (P (sn_xmin S))); [lia|].
  rewrite (follows_or_equals_pos base) by done. destruct (Z.leb_spec (P (sn_xmax S)) (P x)) as [|Hlt]; [done|].
  assert (HQ : procs (arr s) !! i = Some p ∧ included me (sn_xmax S) i p) by (split; [done|]; split_and!; [done|done|lia|by apply Hplain]).
  assert (Hxip : p_xid p ∈ sn_xip S) by (apply C5; eauto).
  rewrite Hr. cbn [negb]. destruct (suboverflowed S) eqn:Eo; cbn [negb].
  - assert (Ht : SubTransTopmost x = p_xid p) by (destruct Hx as [->|Hx]; auto). rewrite Ht, (precedes_pos base) by done.
    destruct (Z.ltb_spec (P (p_xid p)) (P (sn_xmin S))); [lia|]. by apply lfind_elem.
  - destruct (pg_lfind32 x (sn_subxip S)) eqn:Es; [done|]. destruct Hx as [->|Hx]; [by apply lfind_elem|].
    exfalso. apply not_true_iff_false in Es. apply Es, lfind_elem, (C6 eq_refl). exists i, p. split; [done|]. apply E4; [by apply (C7 eq_refl i)|done].
Qed.

(** What is running for a snapshot ran in another backend when it was taken, was a failed part of
    such a transaction, or came later. *)
Lemma snapshot_sound `{X : Xacts} s me S x : inv s → snapshot_of s me S → W x → XidInMVCCSnapshot x S = true →
  P (latest s) < P x ∨ ∃ i p, i ≠ me ∧ procs (arr s) !! i = Some p ∧ plain p ∧ (runs s i x ∨ (suboverflowed S = true ∧ TransactionIdIsValid (p_xid p) = true ∧ p_xid p = SubTransTopmost x)).
Proof.
  intros H [[M1 M2] M3 _ [N1 N2] (xmin0 & _ & C) Hr] Hw E. destruct C as [_ _ _ _ C5 C6 _]. cbn [c_xmin c_xip c_subxip c_suboverflowed] in *.
  assert (Hent : ∀ y, y ∈ sn_xip S → ∃ i p, i ≠ me ∧ procs (arr s) !! i = Some p ∧ plain p ∧ TransactionIdIsValid (p_xid p) = true ∧ p_xid p = y ∧ runs s i y).
  { intros y (i & p & [Hp (I1 & I2 & I3 & I4)] & ->)%C5. destruct (lookup_lt_is_Some_2 (live s) i) as [l Hl]; [rewrite (in_len s H); by eapply lookup_lt_Some|].
    exists i, p. split_and!; [done|done|done|done|done|]. exists p, l. split_and!; [done|done|done|by left]. }
  unfold XidInMVCCSnapshot in E. rewrite (precedes_pos base) in E by done. destruct (Z.ltb_spec (P x) (P (sn_xmin S))); [done|].
  rewrite (follows_or_equals_pos base) in E by done. destruct (Z.leb_spec (P (sn_xmax S)) (P x)) as [|Hlt]; [left; lia|right].
  rewrite Hr in E. cbn [negb] in E. destruct (suboverflowed S) eqn:Eo; cbn [negb] in E.
  - destruct (TransactionIdPrecedes _ _); [done|]. apply lfind_elem, Hent in E as (i & p & ? & ? & ? & ? & ? & ?). eauto 10.
  - destruct (pg_lfind32 x (sn_subxip S)) eqn:Es; [|apply lfind_elem, Hent in E as (i & p & ? & ? & ? & ? & ? & ?); eauto 10].
    apply lfind_elem, (C6 eq_refl) in Es as (i & p & [Hp (I1 & I2 & I3 & I4)] & Hx). destruct (lookup_lt_is_Some_2 (live s) i) as [l Hl]; [rewrite (in_len s H); by eapply lookup_lt_Some|].
    exists i, p. split_and!; [done|done|done|]. left. exists p, l. split_and!; [done|done|done|]. right. by apply (in_entries s H i p l Hp Hl).
Qed.

(** What came later is running for a snapshot. *)
Lemma snapshot_later `{X : Xacts} s me S x : snapshot_of s me S → W x → P (latest s) < P x → XidInMVCCSnapshot x S = true.
Proof.
  intros [[M1 M2] M3 _ [N1 N2] _ _] Hw Hl. specialize (M3 x Hw Hl). unfold XidInMVCCSnapshot. rewrite (precedes_pos base) by done.
  destruct (Z.ltb_spec (P x) (P (sn_xmin S))); [lia|]. rewrite (follows_or_equals_pos base) by done. by destruct (Z.leb_spec (P (sn_xmax S)) (P x)); [|lia].
Qed.

(** When caches overflowed, so is whatever pg_subtrans leads to a running transaction. *)
Lemma snapshot_parts `{X : Xacts} s me S i p x : inv s → snapshot_of s me S → W x → suboverflowed S = true → procs (arr s) !! i = Some p → i ≠ me → plain p →
  TransactionIdIsValid (p_xid p) = true → SubTransTopmost x = p_xid p → P (SubTransTopmost x) ≤ P x → XidInMVCCSnapshot x S = true.
Proof.
  intros H [[M1 M2] M3 _ [N1 N2] (xmin0 & _ & C) Hr] Hw Eo Hp Hi Hpl Hv Ht Hle. rewrite Ht in Hle.
  destruct (lookup_lt_is_Some_2 (live s) i) as [l Hl]; [rewrite (in_len s H); by eapply lookup_lt_Some|]. destruct (in_entries s H i p l Hp Hl) as [_ E1 _ _ _ _ _]. destruct (E1 Hv) as [Hwp _].
  destruct C as [_ _ C3 _ C5 _ _]. cbn [c_xmin c_xip c_subxip c_suboverflowed] in *. unfold XidInMVCCSnapshot.
  rewrite (follows_or_equals_pos base), (precedes_pos base x) by done. destruct (Z.leb_spec (P (sn_xmax S)) (P x)) as [|Hlt]; [by destruct (Z.ltb_spec (P x) (P (sn_xmin S))); [lia|]|].
  assert (HQ : procs (arr s) !! i = Some p ∧ included me (sn_xmax S) i p) by (split; [done|]; split_and!; [done|done|lia|done]). pose proof (C3 i p HQ) as Hmin.
  destruct (Z.ltb_spec (P x) (P (sn_xmin S))); [lia|]. rewrite Hr, Eo. cbn [negb]. rewrite Ht, (precedes_pos base) by done.
  destruct (Z.ltb_spec (P (p_xid p)) (P (sn_xmin S))); [lia|]. apply lfind_elem, C5. eauto.
Qed.

(** With the parts that failed left out, a snapshot is exact. *)
Lemma snapshot_iff `{X : Xacts} s me S x : inv s → snapshot_of s me S → topmost_ok SubTransTopmost s → W x → (∀ i, runs s i (SubTransTopmost x) → runs s i x) →
  XidInMVCCSnapshot x S = true ↔ P (latest s) < P x ∨ ∃ i p, i ≠ me ∧ procs (arr s) !! i = Some p ∧ plain p ∧ runs s i x.
Proof.
  intros H HS Htop Hw Hx. split.
  - intros E. destruct (snapshot_sound s me S x H HS Hw E) as [|(i & p & ? & Hp & ? & [?|(_ & Hv & Ht)])]; [by left|eauto 10|]. right. exists i, p. split_and!; [done..|].
    apply Hx. rewrite <- Ht. destruct (lookup_lt_is_Some_2 (live s) i) as [l Hl]; [rewrite (in_len s H); by eapply lookup_lt_Some|]. exists p, l. auto.
  - intros [Hl|(i & p & Hi & Hp & Hpl & Hr)].
    + by apply (snapshot_later s me S x).
    + apply (snapshot_complete s me S i x H HS Htop Hr Hi). intros p' Hp'. rewrite Hp in Hp'. by injection Hp' as <-.
Qed.

(** Only the [xmin] of a backend changes. *)
Lemma inv_same s me p q a h : inv s → procs (arr s) !! me = Some p → procs a = procs (store me q (arr s)) → nextXid a = nextXid (arr s) →
  latestCompletedXid a = latestCompletedXid (arr s) → p_xid q = p_xid p → p_subxids q = p_subxids p → p_overflowed q = p_overflowed p →
  (TransactionIdIsValid (p_xmin q) = true → W (p_xmin q)) → inv (mkSys a (live s) h).
Proof.
  intros H Hp Ea En El Q1 Q2 Q3 Hw. destruct (lookup_lt_is_Some_2 (live s) me) as [l Hl]; [rewrite (in_len s H); by eapply lookup_lt_Some|].
  destruct (in_entries s H me p l Hp Hl) as [E0 E1 E2 E3 E4 E5 E6]. rewrite <- (list_insert_id (live s) me l) by done. destruct (in_latest s H).
  eapply (inv_update s me p l q l (latest s)); try done; try lia; [by rewrite El| |].
  - constructor; rewrite ?Q1, ?Q2, ?Q3; done.
  - intros x Hv Hx _. by rewrite Q1.
Qed.
End machine.
