(* ===== verification/Horizon.v ===== *)
(** Every run of the machine of Running.v: the oldest id a backend has published precedes its
    snapshots and whatever runs in another backend, transactions that have finished stay
    finished, and a snapshot is of the state it was taken in. *)

From S2P Require Import Prelude Xid Bufpage Itup Compact PageOps HeapPage HotChain HeapPrune Combocid Visibility Procarray Running.

Implicit Types (s : sys) (me i : nat).

Section machine.
Context (base : Z) (par post : bool).
Abbreviation W := (in_window base).
Abbreviation P := (pos base).

(** * Full ids of the window *)

(** The window starts at the 64-bit id [B]. *)
Record epoch (B : Z) s : Prop := {
  ep_range : 0 ≤ B < 2 ^ 63;
  ep_base : (B - base) mod 2 ^ 32 = 0;
  ep_latest : latestCompletedXid (arr s) = B + P (latest s);
}.

Lemma relative_window B rel x : 0 ≤ B < 2 ^ 63 → (B - base) mod 2 ^ 32 = 0 → 0 ≤ rel - B < 2 ^ 31 → W x → FullXidRelativeTo rel x = B + P x.
Proof.
  intros HB Hb Hrel [_ Hx]. unfold FullXidRelativeTo, XidFromFullTransactionId. assert (Er : P (uint32 rel) = rel - B).
  { unfold pos, uint32. rewrite Zminus_mod_idemp_l. replace (rel - base) with ((rel - B) + (B - base)) by lia.
    rewrite Z.add_mod, Hb, Z.add_0_r, Z.mod_mod, Z.mod_small; lia. }
  rewrite (int32_pos base) by lia. rewrite Er. unfold uint64. pose proof (pos_range base x). rewrite Z.mod_small; lia.
Qed.

(** * What was published *)

(** [x] precedes whatever a snapshot of backend [i] can have as running, now or later. *)
Record below s i (x : Z) : Prop := {
  be_window : W x;
  be_later : ∀ y, W y → P (latest s) < P y → P x ≤ P y;
  be_running : ∀ j q, procs (arr s) !! j = Some q → TransactionIdIsValid (p_xid q) = true → plain q ∨ j = i → P x ≤ P (p_xid q);
}.

Record xmins s : Prop := {
  xm_len : length (held s) = length (procs (arr s));
  xm_below : ∀ i p, procs (arr s) !! i = Some p → TransactionIdIsValid (p_xmin p) = true → below s i (p_xmin p);
  xm_held : ∀ i p h sn, procs (arr s) !! i = Some p → held s !! i = Some h → sn ∈ h →
    TransactionIdIsValid (p_xmin p) = true ∧ P (p_xmin p) ≤ P (sn_xmin sn) ∧ below s i (sn_xmin sn);
}.

(** One backend changes its entry. *)
Record moves s me (p q : PGPROC) s' : Prop := {
  mo_before : procs (arr s) !! me = Some p;
  mo_after : procs (arr s') = <[me := q]> (procs (arr s));
  mo_latest : P (latest s) ≤ P (latest s');
  mo_xid : TransactionIdIsValid (p_xid q) = true →
    (p_xid q = p_xid p ∧ p_statusFlags q = p_statusFlags p) ∨ (W (p_xid q) ∧ P (latest s) < P (p_xid q));
}.

Lemma moves_lookup s me p q s' j r : moves s me p q s' → procs (arr s') !! j = Some r → (j = me ∧ r = q) ∨ (j ≠ me ∧ procs (arr s) !! j = Some r).
Proof.
  intros [M1 M2 _ _]. rewrite M2. intros H. destruct (decide (j = me)) as [->|Hne].
  - rewrite list_lookup_insert_eq in H by (by eapply lookup_lt_Some). left. by injection H as <-.
  - rewrite list_lookup_insert_ne in H by done. by right.
Qed.

Lemma below_moves s me p q s' i x : moves s me p q s' → below s i x → below s' i x.
Proof.
  intros M [B1 B2 B3]. constructor; [done| |].
  - intros y Hy Hl. apply B2; [done|]. pose proof (mo_latest _ _ _ _ _ M). lia.
  - intros j r [[-> ->]|[_ Hj]]%(moves_lookup _ _ _ _ _ _ _ M) Hv Hpl; [|by apply (B3 j)].
    destruct (mo_xid _ _ _ _ _ M Hv) as [[E1 E2]|[H1 H2]]; [|by apply B2]. rewrite E1 in *. apply (B3 me p); [apply M|done|].
    unfold plain in *. by rewrite <- E2.
Qed.

Lemma xmins_moves s me p q s' : xmins s → moves s me p q s' → (TransactionIdIsValid (p_xmin q) = true → below s me (p_xmin q)) →
  length (held s') = length (held s) → (∀ i h, i ≠ me → held s' !! i = Some h → held s !! i = Some h) →
  (∀ h sn, held s' !! me = Some h → sn ∈ h → TransactionIdIsValid (p_xmin q) = true ∧ P (p_xmin q) ≤ P (sn_xmin sn) ∧ below s me (sn_xmin sn)) → xmins s'.
Proof.
  intros [X0 X1 X2] M Hq Hlen Hh Hme. constructor.
  - by rewrite Hlen, (mo_after _ _ _ _ _ M), length_insert.
  - intros i r [[-> ->]|[_ Hi]]%(moves_lookup _ _ _ _ _ _ _ M) Hv; apply (below_moves s me p q s' _ _ M); [auto|by apply X1].
  - intros i r h sn [[-> ->]|[Hne Hi]]%(moves_lookup _ _ _ _ _ _ _ M) Hl Hin.
    + destruct (Hme h sn Hl Hin) as (? & ? & ?). split_and!; [done|done|]. by apply (below_moves s me p q s' _ _ M).
    + destruct (X2 i r h sn Hi (Hh i h Hne Hl) Hin) as (? & ? & ?). split_and!; [done|done|]. by apply (below_moves s me p q s' _ _ M).
Qed.

(** The oldest id of a new snapshot. *)
Lemma taken_below s me sn : inv base s → snapshot_of base s me sn → below s me (sn_xmin sn).
Proof.
  intros H [[M1 M2] M3 M4 [N1 N2] (xmin0 & _ & C) _]. constructor; [done| |].
  - intros y Hy Hl. specialize (M3 y Hy Hl). lia.
  - intros j q Hj Hv Hpl. destruct (decide (j = me)) as [->|Hne].
    + apply M4. destruct (lookup_lt_is_Some_2 (live s) me) as [l Hl]; [rewrite (in_len _ s H); by eapply lookup_lt_Some|]. exists q, l. auto.
    + destruct Hpl as [Hpl|?]; [|done]. destruct (Z.le_gt_cases (P (sn_xmax sn)) (P (p_xid q))) as [|Hlt]; [lia|].
      apply (cl_least _ _ _ _ C j q). split; [done|]. split_and!; done.
Qed.

(** An id below everything is below the oldest of a new snapshot. *)
Lemma below_taken s me sn x : below s me x → snapshot_of base s me sn → P x ≤ P (sn_xmin sn).
Proof.
  intros [B1 B2 B3] [[M1 M2] M3 M4 [N1 N2] (xmin0 & H0 & C) _]. assert (P x ≤ P (sn_xmax sn)) by (apply B2; [done|lia]).
  destruct (cl_from _ _ _ _ C) as [E|(j & q & [Hj Hi] & E)]; cbn [c_xmin] in E; rewrite E.
  - destruct H0 as [-> |(p & Hp & Hv & ->)]; [done|]. apply (B3 me p Hp Hv). by right.
  - destruct Hi as (Hv & _ & _ & Hf). apply (B3 j q Hj Hv). by left.
Qed.
(** * What a step does *)

(** Backend [me] replaces its entry [p] by [q] and its subtransactions [l] by [m]. *)
Record effect s me (p q : PGPROC) (l m : list Z) s' : Prop := {
  ef_inv : inv base s';
  ef_moves : moves s me p q s';
  ef_live : live s !! me = Some l ∧ live s' = <[me := m]> (live s);
  ef_next : P (next_xid s) ≤ P (next_xid s');
  ef_database : p_databaseId q = p_databaseId p;
  ef_runs : TransactionIdIsValid (p_xid q) = true → ∀ x, x = p_xid q ∨ x ∈ m →
    (TransactionIdIsValid (p_xid p) = true ∧ (x = p_xid p ∨ x ∈ l)) ∨ x = next_xid s;
  ef_len : length (held s') = length (held s);
  ef_others : ∀ i h, i ≠ me → held s' !! i = Some h → held s !! i = Some h;
  ef_xmin : TransactionIdIsValid (p_xmin q) = true → below s me (p_xmin q);
  ef_held : ∀ h' sn, held s' !! me = Some h' → sn ∈ h' →
    p_statusFlags q = p_statusFlags p ∧ TransactionIdIsValid (p_xmin q) = true ∧ P (p_xmin q) ≤ P (sn_xmin sn) ∧
    ((∃ h, held s !! me = Some h ∧ sn ∈ h) ∨ snapshot_of base s me sn);
  ef_epoch : ∀ B, epoch B s → epoch B s';
  ef_count : xactCompletionCount (arr s) ≤ xactCompletionCount (arr s');
  ef_quiet : xactCompletionCount (arr s') = xactCompletionCount (arr s) → latest s' = latest s ∧
    (TransactionIdIsValid (p_xid p) = true → p_xid q = p_xid p ∧ p_statusFlags q = p_statusFlags p ∧ ∀ x, x ∈ l → x ∈ m);
}.

Lemma live_of s me p : inv base s → procs (arr s) !! me = Some p → ∃ l, live s !! me = Some l.
Proof. intros H Hp. apply lookup_lt_is_Some_2. rewrite (in_len _ s H). by eapply lookup_lt_Some. Qed.

Lemma held_elsewhere s me hs i h : i ≠ me → <[me := hs]> (held s) !! i = Some h → held s !! i = Some h.
Proof. intros Hne. by rewrite list_lookup_insert_ne. Qed.

Lemma held_here s me hs h : <[me := hs]> (held s) !! me = Some h → h = hs.
Proof. intros [(_ & -> & _)|[? _]]%list_lookup_insert_Some; done. Qed.

Lemma valid_window x : W x → TransactionIdIsValid x = true.
Proof. intros [[? _] _]. apply valid_invalid. unfold FirstNormalTransactionId, InvalidTransactionId in *. lia. Qed.

(** The snapshots and the published id stay as they are. *)
Lemma kept_held s me p q : inv base s → xmins s → procs (arr s) !! me = Some p → p_xmin q = p_xmin p → p_statusFlags q = p_statusFlags p →
  (TransactionIdIsValid (p_xmin q) = true → below s me (p_xmin q)) ∧
  ∀ h' sn, held s !! me = Some h' → sn ∈ h' →
    p_statusFlags q = p_statusFlags p ∧ TransactionIdIsValid (p_xmin q) = true ∧ P (p_xmin q) ≤ P (sn_xmin sn) ∧
    ((∃ h, held s !! me = Some h ∧ sn ∈ h) ∨ snapshot_of base s me sn).
Proof.
  intros H HX Hp Ex Ef. rewrite Ex. split; [intros Hv; by apply (xm_below s HX)|]. intros h' sn Hh Hin.
  destruct (xm_held s HX me p h' sn Hp Hh Hin) as (? & ? & ?). eauto 10.
Qed.

Lemma effect_assign (sub : bool) s me x a p q l : inv base s → xmins s → procs (arr s) !! me = Some p → live s !! me = Some l → room base a →
  a = store me q (set_next (FullTransactionIdAdvance (nextXid (arr s))) (arr s)) → p_xmin q = p_xmin p → p_statusFlags q = p_statusFlags p → p_databaseId q = p_databaseId p →
  x = next_xid s → (if sub then TransactionIdIsValid (p_xid p) = true ∧ p_xid q = p_xid p else p_xid p = InvalidTransactionId ∧ p_xid q = x) →
  let m := if sub then l ++ [x] else l in inv base (mkSys a (<[me := m]> (live s)) (held s)) → effect s me p q l m (mkSys a (<[me := m]> (live s)) (held s)).
Proof.
  intros H HX Hp Hl Hr Ea Ex Ef Ed Hx Hsub m HI. destruct (kept_held s me p q H HX Hp Ex Ef) as [K1 K2]. destruct (in_room _ s H) as [HN HNW]. fold (next_xid s) in HNW.
  destruct (in_latest _ s H) as [HL HLn]. constructor; try done; cbn [arr live held].
  - constructor; cbn [arr]; try done; [by rewrite Ea|unfold latest; rewrite Ea; cbn; lia|]. destruct sub; [left; split; [apply Hsub|done]|].
    destruct Hsub as [_ ->]. subst x. by right.
  - unfold next_xid. cbn [arr]. rewrite Ea. cbn [store set_procs set_next nextXid]. rewrite full_advance by (done || by apply (window_normal base)).
    destruct (advance_pos base _ HNW) as (_ & A & _). unfold next_xid in A. lia.
  - intros Hv y Hy. unfold m in Hy. destruct sub.
    + destruct Hsub as [Hvp E]. rewrite E in Hy. rewrite elem_of_app, list_elem_of_singleton in Hy. subst x. tauto.
    + destruct Hsub as [E0 E]. rewrite E in Hy. subst x. destruct Hy as [->|Hy]; [by right|]. destruct (in_entries _ s H me p l Hp Hl) as [I0 _ _ _ _ _ _].
      destruct (I0 E0) as [-> _]. by apply elem_of_nil in Hy.
  - intros B [? ? ?]. constructor; [done|done|]. unfold latest. by rewrite Ea.
  - rewrite Ea. cbn. lia.
  - intros _. split; [unfold latest; by rewrite Ea|]. intros Hv. destruct sub; [|destruct Hsub as [E0 _]; by apply valid_invalid in Hv].
    split_and!; [apply Hsub|done|]. intros y Hy. unfold m. apply elem_of_app. by left.
Qed.
(** The 64-bit id of the last completed transaction stays in the window. *)
Lemma completed_epoch s me q x a B l h : inv base s → W x → a = count_completion (MaintainLatestCompletedXid x (store me q (arr s))) → epoch B s → epoch B (mkSys a l h).
Proof.
  intros H Hx -> [E1 E2 E3]. constructor; [done|done|]. unfold latest. cbn [arr count_completion set_completed latestCompletedXid]. destruct (in_latest _ s H) as [[_ HL] _].
  pose proof (pos_range base (latest s)). unfold MaintainLatestCompletedXid. cbn [store set_procs latestCompletedXid set_completed]. fold (latest s).
  destruct (TransactionIdPrecedes _ _); [|done]. cbn [set_completed latestCompletedXid]. rewrite full_relative by (destruct Hx as [[? ?] _]; unfold FirstNormalTransactionId, MaxTransactionId in *; lia).
  apply relative_window; [done|done|rewrite E3; lia|done].
Qed.

(** The counters of a transaction that ends. *)
Lemma completed_counters s me q x a : inv base s → W x → a = count_completion (MaintainLatestCompletedXid x (store me q (arr s))) →
  procs a = <[me := q]> (procs (arr s)) ∧ P (latest s) ≤ P (XidFromFullTransactionId (latestCompletedXid a)) ∧
  xactCompletionCount a = xactCompletionCount (arr s) + 1 ∧ nextXid a = nextXid (arr s).
Proof.
  intros H Hx ->. destruct (maintained_procs x (store me q (arr s))) as [-> ->]. split; [done|]. cbn [count_completion set_completed latestCompletedXid xactCompletionCount].
  rewrite (maintained base) by (done || apply (in_latest _ s H)). cbn [store set_procs latestCompletedXid]. fold (latest s).
  split; [destruct (Z.ltb_spec (P (latest s)) (P x)); lia|]. split; [|done]. unfold MaintainLatestCompletedXid. by destruct (TransactionIdPrecedes _ _).
Qed.

Lemma effect_abort_sub s me p l x xs a : inv base s → xmins s → procs (arr s) !! me = Some p → live s !! me = Some l → (∀ y, y ∈ x :: xs → y ∈ l) →
  XidCacheRemoveRunningXids me x xs (TransactionIdLatest x xs) (arr s) = Ok a →
  ∃ q m, effect s me p q l m (mkSys a (<[me := filter (λ y, y ∉ x :: xs) l]> (live s)) (held s)).
Proof.
  intros H HX Hp Hl Hxs Ha. pose proof (inv_abort_sub base s me p l x xs a H Hp Hl Hxs Ha) as HI.
  unfold XidCacheRemoveRunningXids, the_proc in Ha. rewrite Hp in Ha. cbn [some_or mbind result_bind] in Ha.
  match type of Ha with context [store me ?q0 _] => set (q := q0) in Ha end. injection Ha as Ea. symmetry in Ea.
  pose proof (in_entries _ s H me p l Hp Hl) as [E0 E1 E2 _ _ _ _]. rewrite Forall_forall in E2.
  assert (Hy : W (TransactionIdLatest x xs)).
  { destruct (latest_spec base x xs) as [Hin _]; [apply E2, Hxs; left|apply Forall_forall; intros y Hy; apply E2, Hxs; by right|]. by apply E2, Hxs. }
  destruct (completed_counters s me q _ a H Hy Ea) as (C1 & C2 & C3 & C4). destruct (kept_held s me p q H HX Hp eq_refl eq_refl) as [K1 K2].
  exists q, (filter (λ y, y ∉ x :: xs) l). constructor; cbn [arr live held]; try done; try lia.
  - constructor; cbn [arr]; try done. by left.
  - unfold next_xid. cbn [arr]. rewrite C4. lia.
  - intros Hv y Hy'. left. split; [done|]. rewrite list_elem_of_filter in Hy'. tauto.
  - intros B. by eapply completed_epoch.
Qed.

Lemma effect_end s me p l a : inv base s → procs (arr s) !! me = Some p → TransactionIdIsValid (p_xid p) = true → live s !! me = Some l →
  ProcArrayEndTransaction me (TransactionIdLatest (p_xid p) l) (arr s) = Ok a → ∃ q m, effect s me p q l m (mkSys a (<[me := []]> (live s)) (<[me := []]> (held s))).
Proof.
  intros H Hp Hv Hl Ha. pose proof (inv_end base s me p l a (<[me := []]> (held s)) H Hp Hv Hl Ha) as HI.
  destruct (latest_tree base s l (p_xid p) (tree_window base s me p l H Hp Hl Hv) H) as (Hy & _ & _ & _).
  unfold ProcArrayEndTransaction in Ha. rewrite valid_window in Ha by done. unfold ProcArrayEndTransactionInternal, the_proc in Ha. rewrite Hp in Ha. cbn [some_or mbind result_bind] in Ha.
  match type of Ha with context [store me ?q0 _] => set (q := q0) in Ha end. injection Ha as Ea. symmetry in Ea.
  destruct (completed_counters s me q _ a H Hy Ea) as (C1 & C2 & C3 & C4).
  exists q, []. constructor; cbn [arr live held]; try done; try lia.
  - unfold next_xid. cbn [arr]. rewrite C4. lia.
  - by rewrite length_insert.
  - intros i h. apply held_elsewhere.
  - intros h sn ->%held_here Hin. by apply elem_of_nil in Hin.
  - intros B. by eapply completed_epoch.
Qed.

(** Steps that change the published id only. *)
Lemma effect_publish s me p q a h : inv base s → procs (arr s) !! me = Some p → procs a = <[me := q]> (procs (arr s)) → nextXid a = nextXid (arr s) →
  latestCompletedXid a = latestCompletedXid (arr s) → xactCompletionCount a = xactCompletionCount (arr s) →
  p_xid q = p_xid p → p_subxids q = p_subxids p → p_overflowed q = p_overflowed p → p_databaseId q = p_databaseId p →
  (TransactionIdIsValid (p_xid p) = true → p_statusFlags q = p_statusFlags p) → (TransactionIdIsValid (p_xmin q) = true → below s me (p_xmin q)) →
  (∀ sn, sn ∈ h → p_statusFlags q = p_statusFlags p ∧ TransactionIdIsValid (p_xmin q) = true ∧ P (p_xmin q) ≤ P (sn_xmin sn) ∧
    ((∃ h, held s !! me = Some h ∧ sn ∈ h) ∨ snapshot_of base s me sn)) →
  ∃ l m, effect s me p q l m (mkSys a (live s) (<[me := h]> (held s))).
Proof.
  intros H Hp Ea En El Ec Q1 Q2 Q3 Q4 Q5 Hx Hh. destruct (live_of s me p H Hp) as [l Hl]. exists l, l. constructor; cbn [arr live held]; try done.
  - apply (inv_same base s me p q a); try done. intros Hv. by apply Hx.
  - constructor; cbn [arr]; [done|done|unfold latest; cbn [arr]; rewrite El; lia|]. rewrite Q1. auto.
  - by rewrite list_insert_id.
  - unfold next_xid. cbn [arr]. rewrite En. lia.
  - rewrite Q1. auto.
  - by rewrite length_insert.
  - intros i h'. apply held_elsewhere.
  - intros h' sn ->%held_here. apply Hh.
  - intros B [? ? ?]. constructor; [done|done|]. unfold latest. cbn [arr]. by rewrite El.
  - lia.
  - intros _. split; [unfold latest; cbn [arr]; by rewrite El|]. auto.
Qed.
Lemma effect_same s me p h : inv base s → xmins s → procs (arr s) !! me = Some p →
  (∀ sn, sn ∈ h → (∃ h, held s !! me = Some h ∧ sn ∈ h) ∨ (TransactionIdIsValid (p_xmin p) = true ∧ snapshot_of base s me sn)) →
  ∃ q l m, effect s me p q l m (mkSys (arr s) (live s) (<[me := h]> (held s))).
Proof.
  intros H HX Hp Hh. exists p. apply effect_publish; try done; [by rewrite list_insert_id|by apply (xm_below s HX)|].
  intros sn Hin. destruct (Hh sn Hin) as [(h' & Hh' & Hin')|[Hv Hs]].
  - destruct (xm_held s HX me p h' sn Hp Hh' Hin') as (? & ? & ?). eauto 10.
  - split_and!; [done|done| |by right]. apply (below_taken s me); [by apply (xm_below s HX)|done].
Qed.

Lemma effect_snapshot s me cid sn n a h : inv base s → xmins s → BuildSnapshot me cid (arr s) = Ok (sn, n, a) → held s !! me = Some h →
  ∃ p q l m, effect s me p q l m (mkSys a (live s) (<[me := sn :: h]> (held s))).
Proof.
  intros H HX E Hh. destruct (snapshot_taken base s me cid sn n a H E) as (Hs & _ & Ep). unfold publish_xmin, the_proc in Ep.
  destruct (procs (arr s) !! me) as [p|] eqn:Hp; [|done]. cbn [some_or mbind result_bind] in Ep. exists p. pose proof (taken_below s me sn H Hs) as Hb.
  destruct (TransactionIdIsValid (p_xmin p)) eqn:Hv; cbn [negb] in Ep; injection Ep as <-.
  - apply effect_same; try done. intros sn' [->|Hin]%elem_of_cons; eauto.
  - eexists. apply effect_publish; try done. pose proof (valid_window _ (be_window _ _ _ Hb)) as Hv'.
    intros sn' [->|Hin]%elem_of_cons; cbn [p_xmin]; [split_and!; [done|done|lia|by right]|].
    destruct (xm_held s HX me p h sn' Hp Hh Hin) as (? & _). congruence.
Qed.

Lemma effect_release s me p h h' active o a : inv base s → xmins s → procs (arr s) !! me = Some p → held s !! me = Some h → (∀ sn, sn ∈ h' → sn ∈ h) →
  (active = false → match o with None => h' = [] | Some sn => sn ∈ h' ∧ ∀ sn', sn' ∈ h' → P (sn_xmin sn) ≤ P (sn_xmin sn') end) →
  SnapshotResetXmin me active o (arr s) = Ok a → ∃ q l m, effect s me p q l m (mkSys a (live s) (<[me := h']> (held s))).
Proof.
  intros H HX Hp Hh Hsub Ho E. unfold SnapshotResetXmin, the_proc in E. assert (Hold : ∃ q l m, effect s me p q l m (mkSys (arr s) (live s) (<[me := h']> (held s)))).
  { apply effect_same; try done. intros sn Hin%Hsub. eauto. }
  destruct active; [by injection E as <-|]. specialize (Ho eq_refl). rewrite Hp in E. cbn [some_or mbind result_bind] in E. destruct o as [sn|]; [destruct Ho as [Hin Hmin]|].
  - destruct (TransactionIdPrecedes _ _); injection E as <-; [|done]. destruct (xm_held s HX me p h sn Hp Hh (Hsub _ Hin)) as (_ & _ & Hb).
    eexists. apply effect_publish; try done. intros sn' Hin'. split_and!; [done|by eapply valid_window, be_window|by apply Hmin|]. left. eauto.
  - injection E as <-. subst h'. eexists. apply effect_publish; try done. intros sn Hin. by apply elem_of_nil in Hin.
Qed.

Lemma step_effect s s' : inv base s → xmins s → step base par post s s' → ∃ me p q l m, effect s me p q l m s'.
Proof.
  intros H HX Hstep. destruct Hstep as [s me p x a Hp Hx Ha Hr|s me p l x a Hp Hv Hl Ha Hr|s me p l x xs a Hp Hl Hxs Ha|s me p l a Hp Hv Hl Ha|s me p a Hp Hx Ha|s me cid sn n a h Ha Hh|s me p h h' active o a Hp Hh Hsub Ho Ha].
  - pose proof (inv_begin base par post s me p x a (held s) H Hp Hx Ha Hr) as HI. destruct (live_of s me p H Hp) as [l Hl].
    apply assigned in Ha as (p' & q & -> & Hp' & Ea & Q1 & [Q2 Q3] & Q4 & _). rewrite Hp in Hp'. injection Hp' as <-. exists me, p, q, l, l.
    assert (El : live s = <[me := l]> (live s)) by (by rewrite list_insert_id). rewrite El in HI |- *. by apply (effect_assign false s me (next_xid s) a p q l).
  - pose proof (inv_sub base par post s me p l x a (held s) H Hp Hv Hl Ha Hr) as HI.
    apply assigned in Ha as (p' & q & -> & Hp' & Ea & Q1 & [Q2 Q3] & Q4 & _). rewrite Hp in Hp'. injection Hp' as <-. exists me, p, q, l, (l ++ [next_xid s]).
    by apply (effect_assign true s me (next_xid s) a p q l).
  - destruct (effect_abort_sub s me p l x xs a) as (q & m & ?); try done. by exists me, p, q, l, m.
  - destruct (effect_end s me p l a) as (q & m & ?); try done. by exists me, p, q, l, m.
  - unfold ProcArrayEndTransaction, the_proc in Ha. rewrite Hp in Ha. cbn [TransactionIdIsValid InvalidTransactionId Z.eqb negb some_or mbind result_bind] in Ha. injection Ha as <-.
    edestruct (effect_publish s me p) as (l & m & ?); cycle -1; [by eexists me, p, _, l, m|try done..].
    + intros Hv%valid_invalid. done.
    + intros sn Hin. by apply elem_of_nil in Hin.
  - destruct (effect_snapshot s me cid sn n a h) as (p & q & l & m & ?); try done. by exists me, p, q, l, m.
  - destruct (effect_release s me p h h' active o a) as (q & l & m & ?); try done. by exists me, p, q, l, m.
Qed.
(** * Runs *)

Definition good s : Prop := inv base s ∧ xmins s.

(** The state after the server started. *)
Record initial s : Prop := {
  it_room : room base (arr s);
  it_latest : W (latest s) ∧ next_xid s = TransactionIdAdvance (latest s);
  it_procs : Forall (λ p, p_xid p = InvalidTransactionId ∧ p_xmin p = InvalidTransactionId ∧ p_subxids p = [] ∧ p_overflowed p = false) (procs (arr s));
  it_live : live s = replicate (length (procs (arr s))) [];
  it_held : held s = replicate (length (procs (arr s))) [];
}.

Lemma initial_good s : initial s → good s.
Proof.
  intros [I1 [I2 I3] I4 I5 I6]. rewrite Forall_lookup in I4. destruct (advance_pos base _ I2) as (A1 & A2 & A3). split; constructor; try done.
  - by rewrite I5, length_replicate.
  - intros i p l Hp Hl. destruct (I4 i p Hp) as (E1 & E2 & E3 & E4). rewrite I5 in Hl. apply lookup_replicate in Hl as [-> _].
    constructor; rewrite ?E1, ?E2, ?E3, ?E4; try done; constructor.
  - rewrite I3. split; [done|lia].
  - intros x Hx HP. rewrite I3 in HP. specialize (A3 x (proj1 Hx) ltac:(lia)). lia.
  - by rewrite I6, length_replicate.
  - intros i p Hp Hv. destruct (I4 i p Hp) as (_ & E & _). rewrite E in Hv. done.
  - intros i p h sn Hp Hh Hin. rewrite I6 in Hh. apply lookup_replicate in Hh as [-> _]. by apply elem_of_nil in Hin.
Qed.

Lemma effect_xmins s me p q l m s' : inv base s → xmins s → effect s me p q l m s' → xmins s'.
Proof.
  intros H HX E. apply (xmins_moves s me p q s' HX (ef_moves _ _ _ _ _ _ _ E)); [apply E|apply E|apply E|].
  intros h sn Hh Hin. destruct (ef_held _ _ _ _ _ _ _ E h sn Hh Hin) as (_ & Hv & Hle & Hs). split_and!; [done|done|].
  destruct Hs as [(h0 & Hh0 & Hin0)|Hs]; [|by apply taken_below]. by apply (xm_held s HX me p h0 sn (mo_before _ _ _ _ _ (ef_moves _ _ _ _ _ _ _ E))).
Qed.

Lemma step_good s s' : good s → step base par post s s' → good s'.
Proof.
  intros [H HX] Hs. destruct (step_effect s s' H HX Hs) as (me & p & q & l & m & E). split; [apply E|by eapply effect_xmins].
Qed.

Lemma steps_good s s' : good s → rtc (step base par post) s s' → good s'.
Proof. intros H. induction 1 as [|s1 s2 s3 H1 _ IH]; [done|]. by apply IH, (step_good s1). Qed.

Lemma steps_epoch B s s' : good s → rtc (step base par post) s s' → epoch B s → epoch B s'.
Proof.
  intros H Hs. revert H. induction Hs as [|s1 s2 s3 H1 _ IH]; [done|]. intros H HB. apply IH; [by apply (step_good s1)|].
  destruct (step_effect s1 s2 (proj1 H) (proj2 H) H1) as (me & p & q & l & m & E). by apply (ef_epoch _ _ _ _ _ _ _ E).
Qed.

(** An entry after a step. *)
Lemma effect_runs s me p q l m s' i x : effect s me p q l m s' → runs s' i x → runs s i x ∨ x = next_xid s.
Proof.
  intros E (p' & l' & Hp & Hl & Hv & Hx). destruct (ef_live _ _ _ _ _ _ _ E) as [L1 L2]. rewrite L2 in Hl.
  destruct (moves_lookup _ _ _ _ _ _ _ (ef_moves _ _ _ _ _ _ _ E) Hp) as [[-> ->]|[Hne Hi]].
  - rewrite list_lookup_insert_eq in Hl by (by eapply lookup_lt_Some). injection Hl as <-.
    destruct (ef_runs _ _ _ _ _ _ _ E Hv x Hx) as [[Hv' Hx']|]; [left|by right]. exists p, l. split_and!; [apply (ef_moves _ _ _ _ _ _ _ E)|done|done|done].
  - rewrite list_lookup_insert_ne in Hl by done. left. exists p', l'. done.
Qed.

(** What has finished stays finished. *)
Definition finished s (x : Z) : Prop := W x ∧ P x < P (next_xid s) ∧ ¬ running s x.

Lemma finished_step s s' x : good s → step base par post s s' → finished s x → finished s' x.
Proof.
  intros [H HX] Hs (Hw & Hn & Hr). destruct (step_effect s s' H HX Hs) as (me & p & q & l & m & E). split_and!; [done|pose proof (ef_next _ _ _ _ _ _ _ E); lia|].
  intros [i Hi]. destruct (effect_runs _ _ _ _ _ _ _ _ _ E Hi) as [?| ->]; [apply Hr; by exists i|lia].
Qed.

Lemma finished_steps s s' x : good s → rtc (step base par post) s s' → finished s x → finished s' x.
Proof. intros H Hs. revert H. induction Hs as [|s1 s2 s3 H1 _ IH]; [done|]. intros H Hx. apply IH; [by apply (step_good s1)|by apply (finished_step s1)]. Qed.

Lemma finished_old s x : inv base s → finished s x → P x ≤ P (latest s).
Proof. intros H (Hw & Hn & Hr). destruct (Z.le_gt_cases (P x) (P (latest s))) as [|Hgt]; [done|]. exfalso. apply Hr, (in_young base s H); [done|lia]. Qed.

(** A snapshot that is held after a step. *)
Lemma step_held s s' i p' h' sn : good s → step base par post s s' → procs (arr s') !! i = Some p' → held s' !! i = Some h' → sn ∈ h' →
  ∃ p, procs (arr s) !! i = Some p ∧ p_statusFlags p' = p_statusFlags p ∧ p_databaseId p' = p_databaseId p ∧
    ((∃ h, held s !! i = Some h ∧ sn ∈ h) ∨ snapshot_of base s i sn).
Proof.
  intros [H HX] Hs Hp Hh Hin. destruct (step_effect s s' H HX Hs) as (me & p & q & l & m & E).
  destruct (moves_lookup _ _ _ _ _ _ _ (ef_moves _ _ _ _ _ _ _ E) Hp) as [[-> ->]|[Hne Hi]].
  - destruct (ef_held _ _ _ _ _ _ _ E h' sn Hh Hin) as (? & _ & _ & ?). exists p. split_and!; [apply (ef_moves _ _ _ _ _ _ _ E)|done|apply E|done].
  - exists p'. split_and!; [done|done|done|left]. exists h'. split; [by apply (ef_others _ _ _ _ _ _ _ E)|done].
Qed.
End machine.
