(* ===== verification/Snapshots.v ===== *)
(** What the shared array tells in every state that is reached: a snapshot is exact, an old one
    that is used again answers as a new one, whether a transaction is running is answered
    exactly, and what lies before the horizon is finished for every snapshot, held or to come. *)

From S2P Require Import Prelude Xid Bufpage Itup Compact PageOps HeapPage HotChain HeapPrune Combocid Visibility Procarray Running Horizon.

Implicit Types (s : sys) (me i : nat).

Section machine.
Context (base : Z) (par post : bool).
Abbreviation W := (in_window base).
Abbreviation P := (pos base).
Abbreviation steps := (rtc (step base par post)).

(** * Runs in which no transaction ends *)

Record quiet s s' : Prop := {
  qu_latest : latest s' = latest s;
  qu_next : P (next_xid s) ≤ P (next_xid s');
  qu_entry : ∀ i p, procs (arr s) !! i = Some p → TransactionIdIsValid (p_xid p) = true →
    ∃ p', procs (arr s') !! i = Some p' ∧ p_xid p' = p_xid p ∧ p_statusFlags p' = p_statusFlags p;
  qu_runs : ∀ i x, runs s i x → runs s' i x;
  qu_old : ∀ i x, runs s' i x → P x < P (next_xid s) → runs s i x;
  qu_below : ∀ i x, below base s i x → below base s' i x;
}.

Lemma quiet_refl s : quiet s s.
Proof. constructor; try done; eauto. Qed.

Lemma quiet_trans s1 s2 s3 : quiet s1 s2 → quiet s2 s3 → quiet s1 s3.
Proof.
  intros [A1 A2 A3 A4 A5 A6] [B1 B2 B3 B4 B5 B6]. constructor; [congruence|lia| |auto| |auto].
  - intros i p Hp Hv. destruct (A3 i p Hp Hv) as (p' & Hp' & E1 & E2). destruct (B3 i p' Hp') as (p'' & Hp'' & E3 & E4); [by rewrite E1|].
    exists p''. split_and!; congruence.
  - intros i x Hx HP. apply A5; [|done]. apply B5; [done|lia].
Qed.

Lemma effect_quiet s me p q l m s' : effect base s me p q l m s' → xactCompletionCount (arr s') = xactCompletionCount (arr s) → quiet s s'.
Proof.
  intros E Hc. destruct (ef_quiet _ _ _ _ _ _ _ _ E Hc) as [Hl Hq]. destruct (ef_live _ _ _ _ _ _ _ _ E) as [L1 L2]. pose proof (ef_moves _ _ _ _ _ _ _ _ E) as M.
  assert (Hlen : (me < length (procs (arr s)))%nat) by (eapply lookup_lt_Some, M). assert ((me < length (live s))%nat) by (by eapply lookup_lt_Some).
  constructor; [done|apply E| | | |intros i x; by apply (below_moves base s me p q)].
  - intros i r Hi Hv. rewrite (mo_after _ _ _ _ _ _ M). destruct (decide (i = me)) as [->|Hne]; [|exists r; by rewrite list_lookup_insert_ne].
    rewrite (mo_before _ _ _ _ _ _ M) in Hi. injection Hi as <-. exists q. rewrite list_lookup_insert_eq by done. destruct (Hq Hv) as (? & ? & _). done.
  - intros i x (r & k & Hr & Hk & Hv & Hx). unfold runs. rewrite (mo_after _ _ _ _ _ _ M), L2. destruct (decide (i = me)) as [->|Hne]; [|exists r, k; by rewrite !list_lookup_insert_ne].
    rewrite (mo_before _ _ _ _ _ _ M) in Hr. injection Hr as <-. rewrite L1 in Hk. injection Hk as <-. destruct (Hq Hv) as (E1 & _ & E2).
    exists q, m. rewrite !list_lookup_insert_eq by done. rewrite E1. destruct Hx; auto 10.
  - intros i x Hx HP. destruct (effect_runs _ _ _ _ _ _ _ _ _ _ E Hx) as [|E']; [done|]. subst x. lia.
Qed.

Lemma steps_quiet s s' : good base s → steps s s' → xactCompletionCount (arr s) ≤ xactCompletionCount (arr s') ∧
  (xactCompletionCount (arr s') = xactCompletionCount (arr s) → quiet s s').
Proof.
  intros H Hs. revert H. induction Hs as [s|s1 s2 s3 H1 _ IH]; intros H; [split; [lia|intros _; apply quiet_refl]|].
  destruct (IH (step_good base par post s1 s2 H H1)) as [C1 C2]. destruct (step_effect base par post s1 s2 (proj1 H) (proj2 H) H1) as (me & p & q & l & m & E).
  pose proof (ef_count _ _ _ _ _ _ _ _ E). split; [lia|]. intros Hc. apply (quiet_trans s1 s2 s3); [eapply effect_quiet; [done|lia]|apply C2; lia].
Qed.

(** A snapshot of the first state and one of the last. *)
Lemma quiet_bounds s s' me sn sn' : inv base s → inv base s' → quiet s s' → snapshot_of base s me sn → snapshot_of base s' me sn' →
  sn_xmin sn' = sn_xmin sn ∧ sn_xmax sn' = sn_xmax sn.
Proof.
  intros H H' Q A B. pose proof (below_taken base s' me sn' _ (qu_below _ _ Q _ _ (taken_below base s me sn H A)) B) as Hle.
  pose proof (taken_below base s' me sn' H' B) as [_ _ B3]. destruct A as [[M1 M2] M3 _ [N1 N2] (xmin0 & H0 & C) _], B as [[M1' M2'] M3' _ [N1' N2'] _ _].
  rewrite (qu_latest _ _ Q) in *. assert (Em : P (sn_xmax sn') = P (sn_xmax sn)) by (pose proof (M3 _ M1' (proj1 M2')); pose proof (M3' _ M1 (proj1 M2)); lia).
  split; apply (pos_inj base); try apply M1; try apply M1'; try apply N1; try apply N1'; [|done].
  apply Z.le_antisymm; [|done]. destruct (cl_from _ _ _ _ C) as [E|(j & q & [Hj Hi] & E)]; cbn [c_xmin] in E; rewrite E.
  - destruct H0 as [-> |(p & Hp & Hv & ->)]; [lia|]. destruct (qu_entry _ _ Q me p Hp Hv) as (p' & Hp' & E1 & _). rewrite <- E1 in *. apply (B3 me p' Hp' Hv). by right.
  - destruct Hi as (Hv & _ & _ & Hf). destruct (qu_entry _ _ Q j q Hj Hv) as (p' & Hp' & E1 & E2). rewrite <- E1 in *. apply (B3 j p' Hp' Hv). left. unfold plain. by rewrite E2.
Qed.

Lemma quiet_others s s' me x : quiet s s' → inv base s → W x →
  (P (latest s') < P x ∨ ∃ i p, i ≠ me ∧ procs (arr s') !! i = Some p ∧ plain p ∧ runs s' i x) ↔
  (P (latest s) < P x ∨ ∃ i p, i ≠ me ∧ procs (arr s) !! i = Some p ∧ plain p ∧ runs s i x).
Proof.
  intros Q H Hw. rewrite (qu_latest _ _ Q). destruct (Z.lt_ge_cases (P (latest s)) (P x)) as [|Hle]; [split; by left|]. destruct (in_latest _ s H) as [_ Hn].
  assert (Hold : ∀ i, runs s' i x → runs s i x) by (intros i Hr; apply (qu_old _ _ Q); [done|lia]).
  split; intros [?|(i & p & Hi & Hp & Hpl & Hr)]; try lia; right.
  - pose proof (Hold i Hr) as (p0 & l0 & Hp0 & Hl0 & Hv & Hx). destruct (qu_entry _ _ Q i p0 Hp0 Hv) as (p' & Hp' & _ & E). rewrite Hp in Hp'. injection Hp' as <-.
    exists i, p0. split_and!; [done|done|unfold plain in *; by rewrite <- E|auto].
  - pose proof Hr as (p0 & l0 & Hp0 & Hl0 & Hv & Hx). rewrite Hp in Hp0. injection Hp0 as <-. destruct (qu_entry _ _ Q i p Hp Hv) as (p' & Hp' & _ & E).
    exists i, p'. split_and!; [done|done|unfold plain in *; by rewrite E|by apply (qu_runs _ _ Q)].
Qed.
(** * Is a transaction running *)

(** What the scan found, or the transactions whose children it does not know. *)
Definition scanned me (x : Z) (Q : nat → PGPROC → Prop) (r : loop (list Z) bool) : Prop :=
  match r with
  | Break b => b = true ∧ ∃ i p, Q i p ∧ i ≠ me ∧ TransactionIdIsValid (p_xid p) = true ∧ (x = p_xid p ∨ x ∈ p_subxids p)
  | Continue ys =>
      (∀ i p, Q i p → i ≠ me → TransactionIdIsValid (p_xid p) = true → x ≠ p_xid p ∧
        (P (p_xid p) ≤ P x → (x ∉ p_subxids p) ∧ (p_overflowed p = true → p_xid p ∈ ys))) ∧
      ∀ y, y ∈ ys → ∃ i p, Q i p ∧ i ≠ me ∧ TransactionIdIsValid (p_xid p) = true ∧ y = p_xid p
  end.

Lemma scanned_iff me x (Q Q' : nat → PGPROC → Prop) r : (∀ i p, Q i p ↔ Q' i p) → scanned me x Q r → scanned me x Q' r.
Proof.
  intros HQ. destruct r as [ys|b]; cbn [scanned].
  - intros [H1 H2]. split; [intros i p ?%HQ; by eapply H1|]. intros y (i & p & ?%HQ & ?)%H2. eauto.
  - intros [-> (i & p & ?%HQ & ?)]. eauto.
Qed.

Lemma progress_scan_spec me x Q i l xids : W x → (∀ p, p ∈ l → TransactionIdIsValid (p_xid p) = true → W (p_xid p)) → scanned me x Q (Continue xids) →
  scanned me x (λ j q, Q j q ∨ ∃ k, l !! k = Some q ∧ j = (i + k)%nat) (progress_scan me x i l xids).
Proof.
  intros Hx. revert Q i xids. induction l as [|p l IH]; intros Q i xids Hl HQ; cbn [progress_scan].
  { eapply scanned_iff; [|done]. intros j q. split; [auto|]. by intros [|(k & ? & _)]. }
  assert (Hnext : ∀ ys, scanned me x (λ j q, Q j q ∨ (j = i ∧ q = p)) (Continue ys) →
    scanned me x (λ j q, Q j q ∨ ∃ k, (p :: l) !! k = Some q ∧ j = (i + k)%nat) (progress_scan me x (S i) l ys)).
  { intros ys Hys. eapply scanned_iff; [|apply (IH _ (S i) ys (λ q Hq, Hl q (list_elem_of_further q p l Hq)) Hys)]. intros j q. cbn beta. split.
    - intros [[|[-> ->]]|(k & ? & ->)]; [by left|right; exists 0%nat; by rewrite Nat.add_0_r|right; exists (S k); split; [done|lia]].
    - intros [|([|k] & Hk & ->)]; [by left; left|injection Hk as ->; left; right; by rewrite Nat.add_0_r|right; exists k; split; [done|lia]]. }
  destruct HQ as [Q1 Q2].
  assert (Hskip : ∀ ys, (∀ y, y ∈ xids → y ∈ ys) → (∀ y, y ∈ ys → y ∈ xids ∨ (i ≠ me ∧ TransactionIdIsValid (p_xid p) = true ∧ y = p_xid p)) →
    (i ≠ me → TransactionIdIsValid (p_xid p) = true → x ≠ p_xid p ∧ (P (p_xid p) ≤ P x → (x ∉ p_subxids p) ∧ (p_overflowed p = true → p_xid p ∈ ys))) →
    scanned me x (λ j q, Q j q ∨ (j = i ∧ q = p)) (Continue ys)).
  { intros ys S1 S2 S3. split.
    - intros j q [HQ|[-> ->]] Hj Hv; [|auto]. destruct (Q1 j q HQ Hj Hv) as [R1 R2]. split; [done|]. intros HP. destruct (R2 HP) as [R3 R4]. auto.
    - intros y [Hy|(? & ? & ->)]%S2; [|eauto 10]. destruct (Q2 y Hy) as (j & q & ? & ?). eauto 10. }
  destruct (Nat.eqb_spec i me); [apply Hnext, Hskip; auto; done|].
  destruct (TransactionIdIsValid (p_xid p)) eqn:Hv; cbn [negb]; [|apply Hnext, Hskip; auto; done]. pose proof (Hl p ltac:(left) Hv) as Hw.
  assert (Hhere : x = p_xid p ∨ x ∈ p_subxids p → scanned me x (λ j q, Q j q ∨ ∃ k, (p :: l) !! k = Some q ∧ j = (i + k)%nat) (Break true)).
  { intros Hin. split; [done|]. exists i, p. split_and!; [|done..]. right. exists 0%nat. by rewrite Nat.add_0_r. }
  destruct (Z.eqb_spec (p_xid p) x) as [E|Hne]; [apply Hhere; by left|]. rewrite (precedes_pos base) by done.
  destruct (Z.ltb_spec (P x) (P (p_xid p))); [apply Hnext, Hskip; auto; intros _ _; split; [congruence|lia]|].
  destruct (existsb _ _) eqn:Es; [apply Hhere; right; by apply lfind_elem|]. assert (x ∉ p_subxids p) by (intros Hin%lfind_elem; unfold pg_lfind32 in Hin; congruence).
  apply Hnext, Hskip.
  - intros y Hy. destruct (p_overflowed p); [apply elem_of_app; by left|done].
  - intros y Hy. destruct (p_overflowed p); [apply elem_of_app in Hy as [Hy|Hy%list_elem_of_singleton]|]; auto.
  - intros _ _. split; [congruence|]. intros _. split; [done|]. intros ->. apply elem_of_app. right. left.
Qed.

Lemma scan_entries s me x : inv base s → W x → scanned me x (λ i p, procs (arr s) !! i = Some p) (progress_scan me x 0 (procs (arr s)) []).
Proof.
  intros H Hx. eapply scanned_iff; [|apply (progress_scan_spec me x (λ _ _, False)); [done| |]].
  - intros i p. cbn beta. split; [by intros [[]|(k & ? & ->)]|intros Hp; right; by exists i].
  - intros p [i Hp]%list_elem_of_lookup_1 Hv. destruct (live_of base s i p H Hp) as [l Hl]. by apply (in_entries base s H i p l Hp Hl).
  - split; [done|]. intros y Hy. by apply elem_of_nil in Hy.
Qed.
Lemma progress_iff current did_abort topmost s me recent cached x : good base s → topmost_ok topmost s → W x → P x < P (next_xid s) →
  (current x = true ↔ runs s me x) → (TransactionIdPrecedes x recent = true → ¬ running s x) → (cached = x → ¬ running s x) →
  (running s x → did_abort x = false) → (did_abort x = false → running s (topmost x) → running s x) →
  let '(b, c) := ProcIsInProgress current did_abort topmost me recent cached x (arr s) in (b = true ↔ running s x) ∧ (c = cached ∨ (c = x ∧ ¬ running s x)).
Proof.
  intros [H _] Htop Hw Hn Hcur Hrec Hcache Hab1 Hab2. unfold ProcIsInProgress.
  destruct (TransactionIdPrecedes x recent); [specialize (Hrec eq_refl); split; [by split|by left]|].
  destruct (Z.eqb_spec cached x) as [E|_]; [specialize (Hcache E); split; [by split|by left]|].
  destruct (current x) eqn:Ecur; [split; [|by left]; split; [intros _; exists me; by apply Hcur|done]|].
  destruct (in_latest base s H) as [HL _]. fold (latest s). rewrite (precedes_pos base) by done.
  destruct (Z.ltb_spec (P (latest s)) (P x)); [split; [|by left]; split; [intros _; apply (in_young base s H); [done|lia]|done]|].
  pose proof (scan_entries s me x H Hw) as Hs. destruct (progress_scan me x 0 (procs (arr s)) []) as [ys|b]; cbn [scanned] in Hs.
  2: { destruct Hs as [-> (i & p & Hp & Hi & Hv & Hx)]. split; [|by left]. split; [intros _|done]. destruct (live_of base s i p H Hp) as [l Hl]. exists i, p, l.
    split_and!; try done. destruct Hx; [by left|right]. by apply (in_entries base s H i p l Hp Hl). }
  destruct Hs as [S1 S2].
  assert (Hin : running s x → topmost x ∈ ys ∧ topmost x ≠ x).
  { intros (i & p & l & Hp & Hl & Hv & Hx). assert (Hi : i ≠ me). { intros ->. enough (false = true) by done. apply Hcur. by exists p, l. }
    destruct (S1 i p Hp Hi Hv) as [N1 N2]. destruct Hx as [|Hx]; [done|]. destruct (in_entries base s H i p l Hp Hl) as [_ _ E2 _ E4 _ _].
    rewrite Forall_forall in E2. destruct (E2 x Hx) as [_ HP]. destruct N2 as [N2 N3]; [lia|]. destruct (Htop i p l Hp Hl Hv) as [_ T2]. rewrite (T2 x Hx).
    split; [|congruence]. apply N3. destruct (p_overflowed p) eqn:Eo; [done|]. exfalso. by apply N2, E4. }
  assert (Hout : topmost x ∈ ys → running s (topmost x)).
  { intros (i & p & Hp & _ & Hv & E)%S2. rewrite E. destruct (live_of base s i p H Hp) as [l Hl]. exists i, p, l. auto. }
  destruct ys as [|y ys]; [assert (¬ running s x) by (intros [?%elem_of_nil _]%Hin; done); split; [by split|by right]|].
  destruct (did_abort x); [assert (¬ running s x) by (intros ?%Hab1; done); split; [by split|by right]|].
  destruct (pg_lfind32 (topmost x) (y :: ys)) eqn:Ef; [rewrite andb_true_r|rewrite andb_false_r].
  - apply lfind_elem in Ef. specialize (Hab2 eq_refl (Hout Ef)). destruct (Hin Hab2) as [_ Hne]. destruct (Z.eqb_spec (topmost x) x); [done|]. cbn [negb]. split; [by split|by left].
  - assert (¬ running s x) by (intros [Hy%lfind_elem _]%Hin; congruence). split; [by split|by right].
Qed.

(** * Horizons *)

Lemma older_spec a b : (TransactionIdIsValid a = true → W a) → (TransactionIdIsValid b = true → W b) → let c := TransactionIdOlder a b in
  (TransactionIdIsValid c = true → W c) ∧ (TransactionIdIsValid a = true ∨ TransactionIdIsValid b = true → TransactionIdIsValid c = true) ∧
  (TransactionIdIsValid a = true → P c ≤ P a) ∧ (TransactionIdIsValid b = true → P c ≤ P b).
Proof.
  intros Ha Hb. unfold TransactionIdOlder. destruct (TransactionIdIsValid a) eqn:Va; cbn [negb]; [|split_and!; [done|by intros [|]|done|lia]].
  destruct (TransactionIdIsValid b) eqn:Vb; cbn [negb]; [|split_and!; [by rewrite Va|done|lia|done]]. rewrite (precedes_pos base) by auto.
  destruct (Z.ltb_spec (P a) (P b)); split_and!; auto; lia.
Qed.

Lemma older_window a b : W a → (TransactionIdIsValid b = true → W b) → W (TransactionIdOlder a b) ∧ P (TransactionIdOlder a b) ≤ P a ∧ (TransactionIdIsValid b = true → P (TransactionIdOlder a b) ≤ P b).
Proof.
  intros Ha Hb. pose proof (valid_window base a Ha) as Va. destruct (older_spec a b) as (O1 & O2 & O3 & O4); [done..|]. auto 10.
Qed.

(** The entries that count for tables of database [db]. *)
Definition counts (db : Z) (p : PGPROC) : Prop := plain p ∧ (p_databaseId p = db ∨ db = 0).

Lemma horizon_fold db l r sh d : W d → (∀ p, p ∈ l → (TransactionIdIsValid (p_xid p) = true → W (p_xid p)) ∧ (TransactionIdIsValid (p_xmin p) = true → W (p_xmin p))) →
  let '(_, _, d') := foldl (horizon_step db) (r, sh, d) l in W d' ∧ P d' ≤ P d ∧ ∀ p, p ∈ l → counts db p →
    (TransactionIdIsValid (p_xmin p) = true → P d' ≤ P (p_xmin p)) ∧ (TransactionIdIsValid (p_xid p) = true → P d' ≤ P (p_xid p)).
Proof.
  revert r sh d. induction l as [|p l IH]; intros r sh d Hd Hl; cbn [foldl]; [split_and!; [done|lia|]; intros p Hp; by apply elem_of_nil in Hp|].
  destruct (Hl p ltac:(left)) as [Hx Hm]. destruct (older_spec (p_xmin p) (p_xid p) Hm Hx) as (O1 & O2 & O3 & O4).
  assert (Hs : ∃ r' sh' d', horizon_step db (r, sh, d) p = (r', sh', d') ∧ W d' ∧ P d' ≤ P d ∧ 
    (counts db p → (TransactionIdIsValid (p_xmin p) = true → P d' ≤ P (p_xmin p)) ∧ (TransactionIdIsValid (p_xid p) = true → P d' ≤ P (p_xid p)))).
  { unfold horizon_step. destruct (TransactionIdIsValid (TransactionIdOlder _ _)) eqn:Ev; cbn [negb].
    2: { exists r, sh, d. split_and!; [done|done|lia|]. intros _. split; intros Hv; (enough (false = true) by done); apply O2; auto. }
    destruct (has_flag _ _) eqn:Ef; [eexists _, _, d; split_and!; [done|done|lia|]; intros [Hpl _]; unfold plain in Hpl; change (Z.lor PROC_IN_LOGICAL_DECODING PROC_IN_VACUUM) with (Z.lor PROC_IN_VACUUM PROC_IN_LOGICAL_DECODING) in Hpl; congruence|].
    destruct (older_window d (TransactionIdOlder (p_xmin p) (p_xid p))) as (D1 & D2 & D3); [done|by intros _; apply O1|].
    destruct (_ || _) eqn:Eb; [eexists _, _, _; split_and!; [done|done|done|]; intros _; specialize (D3 Ev); split; intros Hv; [specialize (O3 Hv)|specialize (O4 Hv)]; lia|].
    eexists _, _, d. split_and!; [done|done|lia|]. intros [_ Hdb]. apply orb_false_iff in Eb as [[?%Z.eqb_neq ?%Z.eqb_neq]%orb_false_iff _]. by destruct Hdb. }
  destruct Hs as (r' & sh' & d' & -> & H1 & H2 & H3). specialize (IH r' sh' d' H1 (λ q Hq, Hl q (list_elem_of_further q p l Hq))).
  destruct (foldl _ _ _) as [[r1 sh1] d1]. destruct IH as (I1 & I2 & I3). split_and!; [done|lia|].
  intros q [->|Hq]%elem_of_cons Hc; [|auto]. destruct (H3 Hc) as [K1 K2]. split; intros Hv; [specialize (K1 Hv)|specialize (K2 Hv)]; lia.
Qed.

Definition slots_ok a : Prop := TransactionIdIsValid (replication_slot_xmin a) = true → W (replication_slot_xmin a).

Lemma horizon_bounds s me db h : inv base s → slots_ok (arr s) → xid_horizons me db (arr s) = Ok h →
  W (data_oldest_nonremovable h) ∧ (∀ y, W y → P (latest s) < P y → P (data_oldest_nonremovable h) ≤ P y) ∧
  ∀ i p, procs (arr s) !! i = Some p → counts db p →
    (TransactionIdIsValid (p_xmin p) = true → P (data_oldest_nonremovable h) ≤ P (p_xmin p)) ∧
    (TransactionIdIsValid (p_xid p) = true → P (data_oldest_nonremovable h) ≤ P (p_xid p)).
Proof.
  intros H Hsl E. unfold xid_horizons, the_proc in E. destruct (procs (arr s) !! me) as [p|]; [|done]. cbn [some_or mbind result_bind] in E. fold (latest s) in E.
  set (init := TransactionIdAdvance (latest s)) in E. destruct (xmax_window base s H) as (M1 & M2 & M3). fold init in M1, M2, M3.
  pose proof (horizon_fold db (procs (arr s)) init init init M1) as HF. destruct (foldl _ _ _) as [[r sh] d]. injection E as <-. cbn [data_oldest_nonremovable].
  destruct HF as (F1 & F2 & F3). { intros q [i Hi]%list_elem_of_lookup_1. destruct (live_of base s i q H Hi) as [l Hl]. destruct (in_entries base s H i q l Hi Hl) as [_ E1 _ _ _ _ E6]. split; [|done]. intros Hv. by apply E1. }
  destruct (older_window d (replication_slot_xmin (arr s)) F1 Hsl) as (D1 & D2 & _). split_and!; [done| |].
  - intros y Hy Hl. specialize (M3 y Hy Hl). lia.
  - intros i q Hi Hc. destruct (F3 q (list_elem_of_lookup_2 _ _ _ Hi) Hc) as [K1 K2]. split; intros Hv; [specialize (K1 Hv)|specialize (K2 Hv)]; lia.
Qed.
(** The backends that run [x] count for tables of database [db]. *)
Definition belongs (db : Z) s (x : Z) : Prop := ∀ i p, runs s i x → procs (arr s) !! i = Some p → counts db p.

Lemma before_horizon s me db h x : inv base s → slots_ok (arr s) → xid_horizons me db (arr s) = Ok h → W x → P x < P (data_oldest_nonremovable h) → belongs db s x → finished base s x.
Proof.
  intros H Hsl E Hw Hlt Hb. destruct (horizon_bounds s me db h H Hsl E) as (B1 & B2 & B3). destruct (xmax_window base s H) as (M1 & M2 & _).
  specialize (B2 _ M1 (proj1 M2)). split_and!; [done|lia|]. intros (i & p & l & Hp & Hl & Hv & Hx). specialize (Hb i p (ex_intro _ p (ex_intro _ l (conj Hp (conj Hl (conj Hv Hx))))) Hp).
  destruct (B3 i p Hp Hb) as [_ K]. specialize (K Hv). destruct (in_entries base s H i p l Hp Hl) as [_ _ E2 _ _ _ _].
  destruct Hx as [->|Hx]; [lia|]. rewrite Forall_forall in E2. destruct (E2 x Hx). lia.
Qed.

(** A transaction that is finished, with its topmost one, for the snapshots of a database. *)
Definition settled `{X : Xacts} (db : Z) (x : Z) s : Prop :=
  good base s ∧ finished base s x ∧ finished base s (SubTransTopmost x) ∧
  ∀ i p h sn, procs (arr s) !! i = Some p → counts db p → held s !! i = Some h → sn ∈ h → XidInMVCCSnapshot x sn = false.

Lemma settled_step `{X : Xacts} db x s s' : settled db x s → step base par post s s' → settled db x s'.
Proof.
  intros (H & F1 & F2 & Hh) Hs. split_and!; [by apply (step_good base par post s)|by apply (finished_step base par post s)|by apply (finished_step base par post s)|].
  intros i p' h' sn Hp' Hc Hh' Hin. destruct (step_held base par post s s' i p' h' sn H Hs Hp' Hh' Hin) as (p & Hp & Ef & Ed & [(h & Hl & Hin')|HS]).
  - apply (Hh i p h sn Hp); [|done|done]. unfold counts, plain in *. by rewrite <- Ef, <- Ed.
  - apply not_true_is_false. intros E. pose proof (finished_old base s x (proj1 H) F1).
    destruct (snapshot_sound base s i sn x (proj1 H) HS (proj1 F1) E) as [|(j & q & _ & Hq & _ & [Hr|(_ & Hv & Ht)])]; [lia|apply F1; by exists j|].
    apply F2. destruct (live_of base s j q (proj1 H) Hq) as [l Hl]. rewrite <- Ht. exists j, q, l. auto.
Qed.

Lemma settled_steps `{X : Xacts} db x s s' : settled db x s → steps s s' → settled db x s'.
Proof. intros H Hs. revert H. induction Hs as [|s1 s2 s3 H1 _ IH]; [done|]. intros H. by apply IH, (settled_step db x s1). Qed.

Lemma horizon_settles `{X : Xacts} s me db h x : good base s → slots_ok (arr s) → xid_horizons me db (arr s) = Ok h → W x → P x < P (data_oldest_nonremovable h) →
  W (SubTransTopmost x) → P (SubTransTopmost x) ≤ P x → belongs db s x → belongs db s (SubTransTopmost x) → settled db x s.
Proof.
  intros H Hsl E Hw Hlt Ht Htl B1 B2. split_and!; [done|by apply (before_horizon s me db h x (proj1 H))|apply (before_horizon s me db h _ (proj1 H) Hsl E Ht); [lia|done]|].
  intros i p hs sn Hp Hc Hh Hin. destruct (xm_held base s (proj2 H) i p hs sn Hp Hh Hin) as (Hv & Hle & [Hb _ _]).
  destruct (horizon_bounds s me db h (proj1 H) Hsl E) as (_ & _ & K). destruct (K i p Hp Hc) as [K1 _]. specialize (K1 Hv).
  unfold XidInMVCCSnapshot. rewrite (precedes_pos base) by done. by destruct (Z.ltb_spec (P x) (P (sn_xmin sn))); [|lia].
Qed.

(** A horizon as a 64-bit id of the window. *)
Definition full_horizon (h : XidHorizons) : Z := FullXidRelativeTo (h_latest_completed h) (data_oldest_nonremovable h).

Lemma full_horizon_window B s me db h : good base s → slots_ok (arr s) → epoch base B s → xid_horizons me db (arr s) = Ok h →
  full_horizon h = B + P (data_oldest_nonremovable h).
Proof.
  intros [H _] Hsl [E1 E2 E3] E. destruct (horizon_bounds s me db h H Hsl E) as (B1 & _ & _). assert (El : h_latest_completed h = latestCompletedXid (arr s)).
  { unfold xid_horizons, the_proc in E. destruct (procs (arr s) !! me); [|done]. cbn [some_or mbind result_bind] in E. destruct (foldl _ _ _) as [[? ?] ?]. by injection E as <-. }
  destruct (in_latest base s H) as [[_ HL] _]. pose proof (pos_range base (latest s)). apply (relative_window base); [done|done|rewrite El, E3; lia|done].
Qed.

(** The test is true of what precedes the bound that is kept or the horizon of the state. *)
Lemma removable_before B a recent me db g x g' : 0 ≤ B < 2 ^ 63 → (B - base) mod 2 ^ 32 = 0 → 0 ≤ definitely_needed (GlobalVisDataRels g) - B < 2 ^ 31 → W x →
  GlobalVisTestIsRemovableXid recent me db a VISHORIZON_DATA g x = Ok (true, g') →
  B + P x < maybe_needed (GlobalVisDataRels g) ∨ ∃ h, xid_horizons me db a = Ok h ∧ B + P x < full_horizon h.
Proof.
  intros HB Hb Hv Hw. unfold GlobalVisTestIsRemovableXid, GlobalVisTestIsRemovableFullXid. cbn [GlobalVisTestFor]. rewrite (relative_window base B) by done. unfold FullTransactionIdPrecedes.
  destruct (Z.ltb_spec (B + P x) (maybe_needed (GlobalVisDataRels g))); [by left|]. destruct (FullTransactionIdFollowsOrEquals _ _); [done|].
  destruct (GlobalVisTestShouldUpdate _ _ _); [|done]. unfold GlobalVisUpdate, ComputeXidHorizons. destruct (xid_horizons me db a) as [h|]; [|done]. cbn [mbind result_bind snd].
  intros [= E _]. right. exists h. split; [done|]. apply Z.ltb_lt in E. exact E.
Qed.
End machine.

(** * Claims *)

(** The states the server reaches after it started. *)
Definition reached base par post s : Prop := ∃ s0, initial base s0 ∧ rtc (step base par post) s0 s.

Lemma reached_good base par post s : reached base par post s → good base s.
Proof. intros (s0 & H0 & Hs). exact (steps_good base par post s0 s (initial_good base s0 H0) Hs). Qed.

(** C33. A snapshot is exact.  In every state the server reaches, a snapshot that
    [BuildSnapshot] takes of the entries has an id as running exactly if it lies past the last
    one that had completed, or if it runs, as transaction or subtransaction, in another backend
    that neither vacuums nor decodes, or if the subtransactions did not fit into the snapshot and
    pg_subtrans leads from the id to the transaction of such a backend: then the failed parts of
    a transaction count as running like the others.  Of pg_subtrans it is assumed that it leads
    from every part of a running transaction to this transaction, and to no later id. *)
Theorem snapshot_exact `{X : Xacts} base par post s me cid sn n a x :
  reached base par post s → BuildSnapshot me cid (arr s) = Ok (sn, n, a) →
  topmost_ok SubTransTopmost s → in_window base x → pos base (SubTransTopmost x) ≤ pos base x →
  XidInMVCCSnapshot x sn = true ↔
  pos base (latest s) < pos base x ∨
  ∃ i p, i ≠ me ∧ procs (arr s) !! i = Some p ∧ plain p ∧
    (runs s i x ∨ (suboverflowed sn = true ∧ TransactionIdIsValid (p_xid p) = true ∧ p_xid p = SubTransTopmost x)).
Proof.
  intros [H _]%reached_good E Htop Hw Hle. destruct (snapshot_taken base s me cid sn n a H E) as (HS & _ & _). split; [by apply (snapshot_sound base s me sn x)|].
  intros [Hl|(i & p & Hi & Hp & Hpl & [Hr|(Ho & Hv & Ht)])]; [by apply (snapshot_later base s me sn)| |by apply (snapshot_parts base s me sn i p x)].
  apply (snapshot_complete base s me sn i x H HS Htop Hr Hi). intros p' Hp'. rewrite Hp in Hp'. by injection Hp' as <-.
Qed.

(** Using a snapshot again is as good as building it.  Whenever [GetSnapshotData] is called
    with a snapshot that the backend built before, in whatever state, it returns one with the
    same bounds as a snapshot built from the entries of now, that has the same transactions as
    running, publishes the same oldest id and is valid for as long: if no transaction has ended
    since, by using the old one again. *)
Theorem snapshot_reuse `{X : Xacts} base par post s s' me cid cid' sn n a g sn' n' g' a' sn2 n2 a2 :
  reached base par post s → BuildSnapshot me cid (arr s) = Ok (sn, n, a) → rtc (step base par post) s s' →
  GetSnapshotData me cid' sn n g (arr s') = Ok (sn', n', g', a') → BuildSnapshot me cid' (arr s') = Ok (sn2, n2, a2) →
  a' = a2 ∧ n' = n2 ∧ sn_xmin sn' = sn_xmin sn2 ∧ sn_xmax sn' = sn_xmax sn2 ∧
  (topmost_ok SubTransTopmost s → topmost_ok SubTransTopmost s' → ∀ x, in_window base x →
    (∀ i, runs s i (SubTransTopmost x) → runs s i x) → (∀ i, runs s' i (SubTransTopmost x) → runs s' i x) →
    XidInMVCCSnapshot x sn' = XidInMVCCSnapshot x sn2).
Proof.
  intros HG%reached_good E Hs' Er E2. pose proof (steps_good base par post s s' HG Hs') as [H' _].
  destruct (snapshot_taken base s me cid sn n a (proj1 HG) E) as (HS & -> & _). destruct (snapshot_taken base s' me cid' sn2 n2 a2 H' E2) as (HS2 & -> & Ep).
  unfold GetSnapshotData in Er. destruct (GetSnapshotDataReuse _ _ _ _ _) as [[[sn3 a3]|]|] eqn:Eu; [| |done]; cbn [mbind result_bind] in Er.
  2: { destruct (the_proc (arr s') me) as [p|]; [|done]. cbn [mbind result_bind] in Er. rewrite E2 in Er. cbn [mbind result_bind] in Er. by injection Er as <- <- _ <-. }
  injection Er as <- <- <- <-. unfold GetSnapshotDataReuse in Eu. destruct (_ =? 0); [done|].
  destruct (Z.eqb_spec (xactCompletionCount (arr s')) (xactCompletionCount (arr s))) as [Ec|]; cbn [negb] in Eu; [|done].
  destruct (steps_quiet base par post s s' HG Hs') as [_ Q]. specialize (Q Ec). destruct (quiet_bounds base s s' me sn sn2 (proj1 HG) H' Q HS HS2) as [Em EM].
  destruct (publish_xmin me (sn_xmin sn) (arr s')) as [b|] eqn:Eb; [|done]. injection Eu as <- <-. cbn [sn_xmin sn_xmax]. rewrite Em, Eb in Ep. injection Ep as <-.
  split_and!; [done|done|done|done|]. intros T1 T2 x Hx X1 X2. apply eq_true_iff_eq.
  change (XidInMVCCSnapshot x (mkSnapshot _ _ _ _ _ _ _)) with (XidInMVCCSnapshot x sn).
  rewrite (snapshot_iff base s me sn x (proj1 HG) HS T1 Hx X1), (snapshot_iff base s' me sn2 x H' HS2 T2 Hx X2). symmetry. apply quiet_others; [done|apply HG|done].
Qed.

(** Whether a transaction is running is answered exactly.  In every state the server
    reaches, [TransactionIdIsInProgress] is true of an assigned id exactly if the transaction or
    subtransaction runs in some backend, by whichever of its shortcuts it answers: the oldest id
    of a held snapshot, the remembered id, the last completed one, the caches, or the parents
    where caches overflowed; and the id it remembers is of a finished transaction. *)
Theorem progress_exact base par post current did_abort topmost s me cached x h sn :
  reached base par post s → held s !! me = Some h → sn ∈ h →
  in_window base x → pos base x < pos base (next_xid s) → topmost_ok topmost s → (current x = true ↔ runs s me x) →
  (∀ i p, runs s i x → procs (arr s) !! i = Some p → plain p) → cached = InvalidTransactionId ∨ finished base s cached →
  (running s x → did_abort x = false) → (did_abort x = false → running s (topmost x) → running s x) →
  let '(answer, cached') := ProcIsInProgress current did_abort topmost me (sn_xmin sn) cached x (arr s) in
  (answer = true ↔ running s x) ∧ (cached' = InvalidTransactionId ∨ finished base s cached').
Proof.
  intros HG%reached_good Hh Hin Hw Hn Htop Hcur Hpl Hc Ha1 Ha2.
  assert (Hrec : TransactionIdPrecedes x (sn_xmin sn) = true → ¬ running s x).
  { intros Hlt (i & p & l & Hp & Hl & Hv & Hx). assert (Hri : runs s i x) by (by exists p, l).
    destruct HG as [H HX]. destruct (lookup_lt_is_Some_2 (procs (arr s)) me) as [q Hq]; [rewrite <- (xm_len base s HX); by eapply lookup_lt_Some|].
    destruct (xm_held base s HX me q h sn Hq Hh Hin) as (_ & _ & [B1 _ B3]). specialize (B3 i p Hp Hv (or_introl (Hpl i p Hri Hp))).
    rewrite (precedes_pos base) in Hlt by done. apply Z.ltb_lt in Hlt. destruct (in_entries base s H i p l Hp Hl) as [_ _ E2 _ _ _ _].
    destruct Hx as [->|Hx]; [lia|]. rewrite Forall_forall in E2. destruct (E2 x Hx). lia. }
  pose proof (progress_iff base current did_abort topmost s me (sn_xmin sn) cached x HG Htop Hw Hn Hcur Hrec) as HP.
  destruct (ProcIsInProgress _ _ _ _ _ _ _ _) as [b c]. destruct HP as [P1 P2]; [|done|done|].
  - intros ->. destruct Hc as [->|(_ & _ & ?)]; [|done]. by apply valid_window in Hw.
  - split; [done|]. destruct P2 as [->|[-> ?]]; [done|right]. by split_and!.
Qed.

(** The test is true only of transactions that are settled. *)
Lemma removable_settled `{X : Xacts} base par post B s1 s recent me db h1 g x g' :
  good base s1 → epoch base B s1 → slots_ok base (arr s1) → xid_horizons me db (arr s1) = Ok h1 →
  0 ≤ definitely_needed (GlobalVisDataRels g) - B < 2 ^ 31 → maybe_needed (GlobalVisDataRels g) ≤ full_horizon h1 →
  rtc (step base par post) s1 s → slots_ok base (arr s) →
  in_window base x → in_window base (SubTransTopmost x) → pos base (SubTransTopmost x) ≤ pos base x →
  belongs db s1 x → belongs db s1 (SubTransTopmost x) → belongs db s x → belongs db s (SubTransTopmost x) →
  GlobalVisTestIsRemovableXid recent me db (arr s) VISHORIZON_DATA g x = Ok (true, g') → settled base db x s.
Proof.
  intros G1 E1 L1 C1 Hv Hm S2 L2 Hw Ht Htl B1 B2 B3 B4 Hr. pose proof (steps_good base par post s1 s G1 S2) as G2.
  pose proof (steps_epoch base par post B s1 s G1 S2 E1) as E2. pose proof (full_horizon_window base B s1 me db h1 G1 L1 E1 C1) as V1.
  pose proof (ep_range _ _ _ E1) as HB. pose proof (ep_base _ _ _ E1) as Hb.
  destruct (removable_before base B (arr s) recent me db g x g' HB Hb Hv Hw Hr) as [Hlt|(h & C2 & Hlt)].
  - apply (settled_steps base par post db x s1); [apply (horizon_settles base s1 me db h1); try done; lia|done].
  - rewrite (full_horizon_window base B s me db h G2 L2 E2 C2) in Hlt. apply (horizon_settles base s me db h); try done; lia.
Qed.

(** C34. What the horizon test lets go is gone for every snapshot.  A backend keeps a lower bound
    that is no later than the horizon of some earlier state, and in a later state
    [GlobalVisTestIsRemovableXid] is true of a transaction, with the bound as it is or after
    computing new horizons; then no snapshot of a backend of the database, held then or taken at
    any time later, has the transaction as running, so that what it deleted can be removed.  Ids
    are compared in 64 bits and the horizon is the one of tables of the database; the
    transaction, if it still ran, ran in a backend of the database, and backends that vacuum or
    decode, whose snapshots this does not cover, have horizons of their own. *)
Theorem removable_safe `{X : Xacts} base par post B s0 s1 s s' recent me db h1 g x g' i p hs sn :
  initial base s0 → epoch base B s0 → rtc (step base par post) s0 s1 → slots_ok base (arr s1) → xid_horizons me db (arr s1) = Ok h1 →
  0 ≤ definitely_needed (GlobalVisDataRels g) - B < 2 ^ 31 → maybe_needed (GlobalVisDataRels g) ≤ full_horizon h1 →
  rtc (step base par post) s1 s → slots_ok base (arr s) →
  in_window base x → in_window base (SubTransTopmost x) → pos base (SubTransTopmost x) ≤ pos base x →
  belongs db s1 x → belongs db s1 (SubTransTopmost x) → belongs db s x → belongs db s (SubTransTopmost x) →
  GlobalVisTestIsRemovableXid recent me db (arr s) VISHORIZON_DATA g x = Ok (true, g') → rtc (step base par post) s s' →
  procs (arr s') !! i = Some p → counts db p → held s' !! i = Some hs → sn ∈ hs → XidInMVCCSnapshot x sn = false.
Proof.
  intros H0 HB S1 L1 C1 Hv Hm S2 L2 Hw Ht Htl B1 B2 B3 B4 Hr S3. pose proof (initial_good base s0 H0) as G0. enough (HS : settled base db x s') by (apply HS).
  apply (settled_steps base par post db x s); [|done].
  apply (removable_settled base par post B s1 s recent me db h1 g x g'); try done; [by apply (steps_good base par post s0)|by apply (steps_epoch base par post B s0)].
Qed.

(** * A run

    Transaction 100 with its subtransaction 101 runs in backend 0, 102 has ended in backend 1;
    backend 2 has taken a snapshot, and 103 has begun in backend 1. *)

Definition idle : PGPROC := mkProc 0 0 [] false 0 5.
Definition array (l : list PGPROC) (next latest count : Z) : ProcArray := mkProcArray l next latest count 3 0 0 0 0.
Definition started : sys := mkSys (array [idle; idle; idle] 100 99 1) [[]; []; []] [[]; []; []].
Definition busy : PGPROC := mkProc 100 0 [101] false 0 5.
Definition ended : sys := mkSys (array [busy; idle; idle] 103 102 2) [[101]; []; []] [[]; []; []].
Definition the_snapshot : SnapshotData := mkSnapshot 100 103 [100] [101] false false 7.
Definition watched : sys :=
  mkSys (array [busy; idle; mkProc 0 100 [] false 0 5] 103 102 2) [[101]; []; []] [[]; []; [the_snapshot]].
Definition begun : sys :=
  mkSys (array [busy; mkProc 103 0 [] false 0 5; mkProc 0 100 [] false 0 5] 104 102 2) [[101]; []; []] [[]; []; [the_snapshot]].

Definition run_xacts : Xacts := {|
  TransactionIdIsCurrentTransactionId x := false;
  TransactionIdIsInProgress x := bool_decide (x ∈ [100; 101; 103]);
  DidCommit x := x =? 102;
  SubTransTopmost x := if x =? 101 then 100 else x;
  GetMultiXactIdMembers m b := [];
  combos := no_combos;
  GetCommitLSN x := 0;
  BufferIsPermanent := true;
  XLogNeedsFlush l := false;
  BufferGetLSNAtomic := 0;
|}.

Ltac concrete := repeat split; vm_compute; first [reflexivity | discriminate | intros; discriminate].

Lemma started_initial : initial 3 started.
Proof. constructor; [concrete|concrete| |done|done]. repeat constructor. Qed.

Lemma run_ended : rtc (step 3 false false) started ended.
Proof.
  eapply rtc_l; [eapply (step_begin 3 false false started 0%nat); [done|done|vm_compute; reflexivity|concrete]|].
  eapply rtc_l; [eapply (step_sub 3 false false _ 0%nat); [done|done|done|vm_compute; reflexivity|concrete]|].
  eapply rtc_l; [eapply (step_begin 3 false false _ 1%nat); [done|done|vm_compute; reflexivity|concrete]|].
  eapply rtc_l; [eapply (step_end 3 false false _ 1%nat); [done|done|done|vm_compute; reflexivity]|].
  vm_compute. apply rtc_refl.
Qed.

Lemma run_watched : step 3 false false ended watched.
Proof. eapply (step_snapshot 3 false false ended 2%nat 7); [vm_compute; reflexivity|done]. Qed.

Lemma run_begun : step 3 false false watched begun.
Proof. eapply (step_begin 3 false false watched 1%nat); [done|done|vm_compute; reflexivity|concrete]. Qed.

Ltac entries i Hp Hl := destruct i as [|[|[|i]]]; [| | |done]; injection Hp as <-; injection Hl as <-.

Lemma run_topmost s : s = ended ∨ s = watched ∨ s = begun → topmost_ok (@SubTransTopmost run_xacts) s.
Proof.
  intros Hs i p l Hp Hl Hv. destruct Hs as [-> |[-> | ->]]; (entries i Hp Hl; try done; (split; [done|]); intros x Hx; try (by apply elem_of_nil in Hx); by apply list_elem_of_singleton in Hx as ->).
Qed.

Lemma run_parts s : s = ended ∨ s = begun → ∀ i, runs s i 100 → runs s i 101.
Proof.
  intros Hs i (p & l & Hp & Hl & Hv & Hx). destruct Hs as [-> | ->]; (entries i Hp Hl; try done; try (destruct Hx as [|Hx%elem_of_nil]; done); exists busy, [101]; split_and!; [done..|right; left]).
Qed.

Lemma run_busy s : s = watched ∨ s = begun → running s 101 ∧ ∀ i, runs s i 101 → i = 0%nat.
Proof.
  intros Hs. split; [destruct Hs as [-> | ->]; exists 0%nat, busy, [101]; (split_and!; [done..|right; left])|].
  intros i (p & l & Hp & Hl & Hv & Hx). destruct Hs as [-> | ->]; (entries i Hp Hl; try done; destruct Hx as [|Hx%elem_of_nil]; done).
Qed.

Lemma snapshot_exact_witness : @XidInMVCCSnapshot run_xacts 101 the_snapshot = true ↔
  pos 3 (latest ended) < pos 3 101 ∨
  ∃ i p, i ≠ 2%nat ∧ procs (arr ended) !! i = Some p ∧ plain p ∧
    (runs ended i 101 ∨ (suboverflowed the_snapshot = true ∧ TransactionIdIsValid (p_xid p) = true ∧ p_xid p = @SubTransTopmost run_xacts 101)).
Proof.
  eapply (@snapshot_exact run_xacts 3 false false ended 2 7 the_snapshot); [by exists started; split; [apply started_initial|apply run_ended]|vm_compute; reflexivity|by apply run_topmost; left|concrete|concrete].
Defined.

Definition old_bounds : GlobalVis := mkGlobalVis (mkVis 103 90) (mkVis 103 90) (mkVis 103 90) (mkVis 103 90) 0.

Lemma snapshot_reuse_witness : ∃ sn' n' g' a', GetSnapshotData 2 9 the_snapshot 2 old_bounds (arr begun) = Ok (sn', n', g', a') ∧ n' = 2 ∧
  (topmost_ok (@SubTransTopmost run_xacts) ended → topmost_ok (@SubTransTopmost run_xacts) begun → ∀ x, in_window 3 x →
    (∀ i, runs ended i (@SubTransTopmost run_xacts x) → runs ended i x) → (∀ i, runs begun i (@SubTransTopmost run_xacts x) → runs begun i x) →
    @XidInMVCCSnapshot run_xacts x sn' = @XidInMVCCSnapshot run_xacts x (mkSnapshot 100 103 [100] [101] false false 9)).
Proof.
  eexists _, _, _, _. split; [vm_compute; reflexivity|]. split; [done|].
  eapply (@snapshot_reuse run_xacts 3 false false ended begun 2 7 9 the_snapshot 2 _ old_bounds); [by exists started; split; [apply started_initial|apply run_ended]|vm_compute; reflexivity| |vm_compute; reflexivity|vm_compute; reflexivity].
  eapply rtc_l; [apply run_watched|]. apply rtc_once, run_begun.
Defined.

Lemma progress_exact_witness : let '(answer, cached) := ProcIsInProgress (λ _, false) (λ _, false) (@SubTransTopmost run_xacts) 2 100 0 101 (arr begun) in
  (answer = true ↔ running begun 101) ∧ (cached = InvalidTransactionId ∨ finished 3 begun cached).
Proof.
  destruct (run_busy begun) as [R1 R2]; [by right|].
  apply (progress_exact 3 false false (λ _, false) (λ _, false) (@SubTransTopmost run_xacts) begun 2 0 101 [the_snapshot] the_snapshot);
    [|done|left|concrete|concrete|apply run_topmost; auto| | |by left|done|done].
  - exists started. split; [apply started_initial|]. etrans; [apply run_ended|]. eapply rtc_l; [apply run_watched|]. apply rtc_once, run_begun.
  - split; [done|]. by intros ?%R2.
  - intros i p ->%R2 [= <-]. done.
Defined.

(** Before the horizon of the run lies 99. *)
Lemma run_old s i : s = ended ∨ s = watched → ¬ runs s i 99.
Proof.
  intros Hs (p & l & Hp & Hl & Hv & Hx). destruct Hs as [-> | ->]; (entries i Hp Hl; try done; destruct Hx as [|Hx%list_elem_of_singleton]; done).
Qed.

Lemma removable_safe_witness : @XidInMVCCSnapshot run_xacts 99 the_snapshot = false.
Proof.
  eapply (@removable_safe run_xacts 3 false false 3 started ended watched begun 100 1 5) with (g := old_bounds) (i := 2%nat) (hs := [the_snapshot]);
    [apply started_initial|concrete|apply run_ended|done|vm_compute; reflexivity|cbn; lia|vm_compute; discriminate|apply rtc_once, run_watched|done|concrete|concrete|reflexivity
    |intros i p Hr; exfalso; first [exact (run_old ended i (or_introl eq_refl) Hr)|exact (run_old watched i (or_intror eq_refl) Hr)]..|vm_compute; reflexivity|apply rtc_once, run_begun|done|split; [done|by left]|done|left].
Defined.
