(* ===== verification/HotPrune.v ===== *)
(** Pruning a heap page keeps what index scans find on it: the walk of heap_prune_chain and
    the decisions it records, the execution on the line pointers, and the composition. *)

From S2P Require Import Prelude Xid Bufpage Itup Compact PageOps HeapPage HotChain HeapPrune.

(** * The chain of a root *)

Section chain.
Context {A : Type}.
Abbreviation Tuple := (@HeapTupleHeaderData A).
Implicit Types (look : Z → @line A) (t : Tuple) (ms : list (Z * Tuple)).
Context (upd : Tuple → Z) (st : Z → Tuple → HTSV_Result).

(** Indexes refer to roots. *)
Definition is_root look (off : Z) : bool :=
  match look off with Redirect _ => true | Member t => negb (HeapTupleIsHeapOnly t) | Nothing => false end.

Definition is_dead (m : Z * Tuple) : Prop := st m.1 m.2 = HEAPTUPLE_DEAD.
Definition is_dying (m : Z * Tuple) : Prop := st m.1 m.2 = HEAPTUPLE_DEAD ∨ st m.1 m.2 = HEAPTUPLE_RECENTLY_DEAD.
#[export] Instance is_dead_dec m : Decision (is_dead m).
Proof. unfold is_dead. apply _. Defined.
#[export] Instance is_dying_dec m : Decision (is_dying m).
Proof. unfold is_dying. apply _. Defined.

(** The members heap_prune_chain looks at: up to the first that is not dead or dying. *)
Fixpoint walk ms : list (Z * Tuple) :=
  match ms with
  | [] => []
  | m :: ms => m :: if decide (is_dying m) then walk ms else []
  end.

(** [ndeadchain] after the walk, from [n] items before. *)
Fixpoint last_dead (n nd : nat) ms : nat :=
  match ms with
  | [] => nd
  | m :: ms =>
      if decide (is_dead m) then last_dead (S n) (S n) ms
      else if decide (is_dying m) then last_dead (S n) nd ms else nd
  end.

Lemma walk_prefix ms : ∃ rest, ms = walk ms ++ rest.
Proof.
  induction ms as [|m ms [rest IH]]; [by exists []|]. cbn. destruct (decide (is_dying m)); [exists rest; by rewrite IH at 1|by exists ms].
Qed.

(** The dead part of the walk and what is kept. *)
Record dead_split (n nd d : nat) (ws pre post : list (Z * Tuple)) : Prop := {
  ds_walk : ws = pre ++ post;
  ds_kept : Forall (λ m, ¬ is_dead m) post;
  ds_dying : Forall is_dying pre;
  ds_count : (pre = [] ∧ d = nd) ∨ (∃ pre' m, pre = pre' ++ [m] ∧ is_dead m ∧ d = (n + length pre)%nat);
}.

Lemma walk_split ms n nd : ∃ pre post, dead_split n nd (last_dead n nd ms) (walk ms) pre post.
Proof.
  revert n nd. induction ms as [|m ms IH]; intros n nd; [exists [], []; constructor; auto|].
  cbn [walk last_dead]. destruct (decide (is_dead m)) as [Hd|Hd].
  - rewrite decide_True by (by left). destruct (IH (S n) (S n)) as (pre & post & [Hw Hk Hy Hc]).
    exists (m :: pre), post. constructor; [by rewrite Hw|done|constructor; [by left|done]|]. right.
    destruct Hc as [[-> ->]|(pre' & m' & -> & Hm & ->)]; [exists [], m|exists (m :: pre'), m']; split_and!; try done; cbn; lia.
  - destruct (decide (is_dying m)) as [Hy'|Hy'].
    + destruct (IH (S n) nd) as (pre & post & [Hw Hk Hy Hc]). destruct Hc as [[-> ->]|(pre' & m' & -> & Hm & ->)].
      * exists [], (m :: post). constructor; [by rewrite Hw|by constructor|constructor|by left].
      * exists (m :: pre' ++ [m']), post. constructor; [by rewrite Hw|done|by constructor|]. right.
        exists (m :: pre'), m'. split_and!; [done|done|cbn; lia].
    + exists [], [m]. constructor; [done|by repeat constructor|constructor|by left].
Qed.

(** A walk that ends with a dying member is the whole chain. *)
Lemma walk_all ms pre m : walk ms = pre ++ [m] → is_dying m → walk ms = ms.
Proof.
  revert pre. induction ms as [|m' ms IH]; intros pre Hw Hm; [by destruct pre|]. cbn in *.
  destruct (decide (is_dying m')) as [Hy|Hy].
  - destruct pre as [|x pre]; cbn in Hw; simplify_eq; [by destruct ms|]. f_equal. by eapply IH.
  - destruct pre as [|x [|]]; cbn in Hw; simplify_eq. done.
Qed.

(** A root with a tuple heads its own chain. *)
Lemma root_member look r t ms : look r = Member t → HeapTupleIsHeapOnly t = false →
  hot_chain upd look r InvalidTransactionId true ms → hot_chain upd look r InvalidTransactionId false ms ∧ ∃ ms', ms = (r, t) :: ms'.
Proof.
  intros Hr Ho Hc. inversion Hc; subst; try congruence;
    match goal with H : look r = Member ?u |- _ => assert (u = t) as -> by congruence end.
  - done.
  - split; [by apply hc_last|by eexists].
  - split; [by apply hc_next|by eexists].
Qed.

Lemma member_root look r t ms : look r = Member t → HeapTupleIsHeapOnly t = false →
  hot_chain upd look r InvalidTransactionId false ms → hot_chain upd look r InvalidTransactionId true ms.
Proof.
  intros Hr Ho Hc. inversion Hc; subst; try congruence;
    match goal with H : look r = Member ?u |- _ => assert (u = t) as -> by congruence end.
  - done.
  - by apply hc_last.
  - by apply hc_next.
Qed.

Lemma root_redirect look r o xmax ms : look r = Redirect o → hot_chain upd look r xmax true ms → hot_chain upd look o xmax false ms.
Proof.
  intros Hr Hc. inversion Hc; subst; congruence.
Qed.

Lemma unrooted_chain look r ms : is_root look r = false → hot_chain upd look r InvalidTransactionId true ms → ms = [].
Proof.
  intros Hr Hc. unfold is_root in Hr. inversion Hc; subst; try done;
    match goal with H : look r = _ |- _ => rewrite H in Hr end; try done;
    match goal with H : true && HeapTupleIsHeapOnly ?t = false |- _ => cbn [andb] in H; by rewrite H in Hr end.
Qed.

Lemma chain_members look off xmax start ms : hot_chain upd look off xmax start ms → Forall (λ m, look m.1 = Member m.2) ms.
Proof. induction 1; repeat constructor; done. Qed.

(** * The lines after pruning *)

(** What a line becomes. *)
Definition becomes (l l' : @line A) : Prop := l' = l ∨ l' = Nothing ∨ ∃ o, l' = Redirect o.

(** A chain on lines some of which were removed or redirected, when its members were kept
    but for a dead one at its end. *)
Lemma kept_chain look look' off xmax ms :
  hot_chain upd look off xmax false ms → (∀ o, becomes (look o) (look' o)) →
  Forall (λ m, look' m.1 = look m.1 ∨ (look' m.1 = Nothing ∧ is_dead m ∧ HeapTupleIsHotUpdated m.2 = false)) ms →
  ∃ ms' post, hot_chain upd look' off xmax false ms' ∧ ms = ms' ++ post ∧ Forall is_dead post.
Proof.
  intros Hc Hb. remember false as start eqn:Es.
  induction Hc as [off xmax start E|off xmax o ms E _ IH|off xmax o E|off xmax t E Ho|off xmax start t E Ho Hx
    |off xmax start t E Ho Hx Hu|off xmax start t ms E Ho Hx Hu _ IH]; subst; try done; intros HF.
  - exists [], []. split_and!; [|done|constructor]. destruct (Hb off) as [H|[H|[o H]]]; rewrite ?E in H; [by apply hc_nothing..|by eapply hc_late_redirect].
  - exists [], []. split_and!; [|done|constructor]. destruct (Hb off) as [H|[H|[o' H]]]; rewrite ?E in H; [by eapply hc_late_redirect|by apply hc_nothing|by eapply hc_late_redirect].
  - exists [], []. split_and!; [|done|constructor]. destruct (Hb off) as [H|[H|[o' H]]]; rewrite ?E in H; [by eapply hc_broken|by apply hc_nothing|by eapply hc_late_redirect].
  - inversion HF as [|? ? [H|(H & Hd & _)] _]; subst; cbn in H.
    + exists [(off, t)], []. split_and!; [|done|constructor]. apply hc_last; try done. by rewrite H.
    + exists [], [(off, t)]. split_and!; [by apply hc_nothing|done|by repeat constructor].
  - inversion HF as [|? ? [H|(_ & _ & H)] HF']; subst; cbn in H; [|congruence]. destruct (IH eq_refl HF') as (ms' & post & Hc' & -> & Hp).
    exists ((off, t) :: ms'), post. split_and!; [|done|done]. apply hc_next; try done. by rewrite H.
Qed.
End chain.

(** * The walk and the records *)

(** [s'] has recorded besides [s]: the redirections [rd], the dead [dd], the unused [uu],
    and that [offs] are processed. *)
Record recorded (s s' : PruneState) (rd : list (Z * Z)) (dd uu offs : list Z) : Prop := {
  ex_mark : mark_unused_now s' = mark_unused_now s;
  ex_htsv : htsv s' = htsv s;
  ex_roots : root_items s' = root_items s;
  ex_heaponly : heaponly_items s' = heaponly_items s;
  ex_redirected : redirected s' = redirected s ++ rd;
  ex_dead : nowdead s' = nowdead s ++ dd;
  ex_unused : nowunused s' = nowunused s ++ uu;
  ex_processed : ∀ o, o ∈ processed s' ↔ o ∈ offs ∨ o ∈ processed s;
}.

Ltac solve_recorded :=
  constructor; cbn; rewrite ?app_nil_r; try done;
  intros ?; rewrite ?elem_of_union, ?elem_of_singleton, ?list_elem_of_singleton, ?elem_of_nil; tauto.

Lemma recorded_refl s : recorded s s [] [] [] [].
Proof. solve_recorded. Qed.

Lemma recorded_trans s1 s2 s3 rd rd' dd dd' uu uu' offs offs' :
  recorded s1 s2 rd dd uu offs → recorded s2 s3 rd' dd' uu' offs' →
  recorded s1 s3 (rd ++ rd') (dd ++ dd') (uu ++ uu') (offs ++ offs').
Proof.
  intros [? ? ? ? ? ? ? P1] [? ? ? ? ? ? ? P2]. constructor; rewrite ?app_assoc; try congruence.
  intros o. rewrite P2, P1, elem_of_app. tauto.
Qed.

Lemma recorded_horizon s x y : recorded s (set_horizons x y s) [] [] [] [].
Proof. solve_recorded. Qed.
Lemma recorded_prunable s xid : recorded s (heap_prune_record_prunable s xid) [] [] [] [].
Proof. unfold heap_prune_record_prunable. destruct (negb _ || _); solve_recorded. Qed.
Lemma recorded_redirect s off to n : recorded s (heap_prune_record_redirect s off to n) [(off, to)] [] [] [off].
Proof. solve_recorded. Qed.
Lemma recorded_unused s off n : recorded s (heap_prune_record_unused s off n) [] [] [off] [off].
Proof. solve_recorded. Qed.
Lemma recorded_dead_or_unused s off n :
  ∃ dd uu, recorded s (heap_prune_record_dead_or_unused s off n) [] dd uu [off] ∧ (dd, uu) = if mark_unused_now s then ([], [off]) else ([off], []).
Proof. unfold heap_prune_record_dead_or_unused. destruct (mark_unused_now s); eexists _, _; (split; [|done]); solve_recorded. Qed.
Lemma recorded_redirect_kept s off : recorded s (heap_prune_record_unchanged_lp_redirect s off) [] [] [] [off].
Proof. solve_recorded. Qed.
Lemma recorded_record_unused offs s : recorded s (record_unused offs s) [] [] offs offs.
Proof.
  unfold record_unused. revert s. induction offs as [|o offs IH]; intros s; [apply recorded_refl|].
  apply (recorded_trans _ _ _ [] [] [] [] [o] offs [o] offs (recorded_unused s o true) (IH _)).
Qed.

Section walking.
Context {A Sp : Type}.
Abbreviation Tuple := (@HeapTupleHeaderData A).
Context (upd : Tuple → Z) (committed : Z → bool).
Context (p : Page Tuple Sp) (Hp : heap_page p).
Context (st : Z → Tuple → HTSV_Result).
Abbreviation look := (line_at p).
Abbreviation maxoff := (PageGetMaxOffsetNumber p).
Abbreviation Chain := (hot_chain upd look).
Implicit Types (s : PruneState) (ms : list (Z * Tuple)).

(** The statuses are known, and the lines without tuples are done. *)
Record scanned s : Prop := {
  sc_htsv : ∀ off t, look off = Member t → htsv s !! off = Some (st off t);
  sc_nothing : ∀ off, 1 ≤ off ≤ maxoff → look off = Nothing → off ∈ processed s;
}.

Lemma scanned_recorded s s' rd dd uu offs : recorded s s' rd dd uu offs → scanned s → scanned s'.
Proof.
  intros [] [H1 H2]. constructor; [intros; rewrite ex_htsv0; auto|]. intros. rewrite ex_processed0. auto.
Qed.

Lemma unchanged_run s off t : look off = Member t → htsv s !! off = Some (st off t) → st off t ≠ HEAPTUPLE_DEAD →
  ∃ s', heap_prune_record_unchanged_lp_normal upd p s off = Ok s' ∧ recorded s s' [] [] [] [off].
Proof.
  intros Hl Hs Hd. unfold heap_prune_record_unchanged_lp_normal. pose proof (line_at_range _ _ _ Hl).
  destruct (line_at_read p off (heap_page_searchable p Hp)) as (lp & -> & HL).
  { unfold FirstOffsetNumber. destruct (Z.ltb_spec off 1), (Z.ltb_spec maxoff off); try done; lia. }
  rewrite Hl in HL. destruct HL as [_ HL]. rsimpl. rewrite HL. rsimpl. cbn [set_processed set_counts htsv]. rewrite Hs.
  destruct (st off t); try done; eexists; (split; [done|]);
    first [eapply (recorded_trans _ _ _ [] [] [] [] [] [] [off] []); [|apply recorded_prunable]|idtac]; solve_recorded.
Qed.

Lemma record_unchanged_run ms s : scanned s → Forall (λ m, look m.1 = Member m.2 ∧ ¬ is_dead st m) ms →
  ∃ s', record_unchanged upd p ms.*1 s = Ok s' ∧ recorded s s' [] [] [] ms.*1.
Proof.
  intros Hs HF. revert s Hs. induction HF as [|[off t] ms [Hl Hd] _ IH]; intros s Hs; [exists s; split; [done|apply recorded_refl]|].
  cbn [fmap list_fmap record_unchanged fst]. destruct (unchanged_run s off t Hl (sc_htsv _ Hs _ _ Hl) Hd) as (s1 & -> & H1). rsimpl.
  destruct (IH s1 (scanned_recorded _ _ _ _ _ _ H1 Hs)) as (s2 & -> & H2). exists s2. split; [done|].
  apply (recorded_trans _ _ _ [] [] [] [] [] [] [off] ms.*1 H1 H2).
Qed.

(** One round of the walk, in terms of lines. *)
Lemma chain_loop_step fuel rootlp off xmax items nd s : scanned s →
  chain_loop upd committed (S fuel) p maxoff rootlp off xmax items nd s =
  match look off with
  | Nothing => Ok (items, nd, false, s)
  | Redirect _ =>
      if bool_decide (off ∈ processed s) then Ok (items, nd, false, s)
      else if (0 <? length items)%nat then Ok (items, nd, false, s)
      else chain_loop upd committed fuel p maxoff rootlp (ItemIdGetRedirect rootlp) xmax (items ++ [off]) nd s
  | Member t =>
      if bool_decide (off ∈ processed s) then Ok (items, nd, false, s)
      else if TransactionIdIsValid xmax && negb (xmax =? HeapTupleHeaderGetXmin t) then Ok (items, nd, false, s)
      else
        let nd' := if decide (is_dead st (off, t)) then S (length items) else nd in
        let s' := if decide (is_dead st (off, t)) then advance_horizon upd committed t s else s in
        if decide (is_dying st (off, t)) then
          if HeapTupleIsHotUpdated t
          then chain_loop upd committed fuel p maxoff rootlp (ItemPointerGetOffsetNumber (t_ctid t)) (HeapTupleHeaderGetUpdateXid upd t) (items ++ [off]) nd' s'
          else Ok (items ++ [off], nd', true, s')
        else Ok (items ++ [off], nd, true, s)
  end.
Proof.
  intros Hs. cbn [chain_loop]. unfold FirstOffsetNumber.
  destruct ((off <? 1) || (maxoff <? off)) eqn:Er.
  { unfold line_at, FirstOffsetNumber. rewrite Er. destruct (off <? 1); [done|]. cbn in Er. by rewrite Er. }
  destruct (line_at_read p off (heap_page_searchable p Hp) Er) as (lp & -> & HL). destruct (off <? 1) eqn:E1; [done|]. cbn [orb] in Er. rewrite Er.
  rsimpl. destruct (look off) as [|o|t] eqn:E.
  - rewrite bool_decide_eq_true_2; [done|]. apply (sc_nothing _ Hs); [|done]. bprop. lia.
  - destruct HL as (_ & -> & _). done.
  - destruct HL as [Hn HL]. assert (Hr : ItemIdIsRedirected lp = false) by (unfold ItemIdIsNormal, ItemIdIsRedirected, LP_NORMAL, LP_REDIRECT in *; bprop; by rewrite Hn).
    rewrite Hr, HL. rsimpl. rewrite (sc_htsv _ Hs _ _ E), (Z.eqb_sym xmax), length_app, Nat.add_1_r.
    destruct (bool_decide _); [done|]. destruct (TransactionIdIsValid xmax && _); [done|]. cbv zeta.
    destruct (decide (is_dead st (off, t))) as [Hd|Hd], (decide (is_dying st (off, t))) as [Hy|Hy]; unfold is_dead, is_dying in *; cbn [fst snd] in *;
      destruct (st off t); try done; try (exfalso; intuition congruence); by destruct (HeapTupleIsHotUpdated t).
Qed.

(** The walk, from an offset where no redirection is followed. *)
Lemma chain_loop_run off xmax ms rootlp items nd s fuel :
  Chain off xmax false ms → scanned s → Forall (λ m, m.1 ∉ processed s) ms →
  (items = [] → ∀ o, look off ≠ Redirect o) → (length ms < fuel)%nat →
  ∃ jumped s', chain_loop upd committed fuel p maxoff rootlp off xmax items nd s =
    Ok (items ++ (walk st ms).*1, last_dead st (length items) nd ms, jumped, s') ∧ recorded s s' [] [] [] [] ∧ (ms = [] → jumped = false).
Proof.
  intros Hc. remember false as start eqn:Es. revert items nd s fuel.
  induction Hc as [off xmax start E|off xmax o ms E _ IH|off xmax o E|off xmax t E Ho|off xmax start t E Ho Hx
    |off xmax start t E Ho Hx Hu|off xmax start t ms E Ho Hx Hu _ IH]; subst; try done; intros items nd s fuel Hs HF Hi Hf;
    (destruct fuel as [|fuel]; [cbn in Hf; lia|]); rewrite chain_loop_step by done; rewrite E; cbn [walk last_dead fmap list_fmap]; rewrite ?app_nil_r.
  - exists false, s. split_and!; [done|apply recorded_refl|done].
  - exists false, s. split_and!; [|apply recorded_refl|done]. destruct (bool_decide _); [done|]. destruct items; [by edestruct Hi|done].
  - exists false, s. split_and!; [|apply recorded_refl|done]. by destruct (bool_decide _); rewrite ?Hx.
  - inversion HF; subst. rewrite bool_decide_eq_false_2, Hx, Hu by done. cbv zeta.
    destruct (decide (is_dead st (off, t))).
    + destruct (decide (is_dying st (off, t))) as [|Hn]; [|by destruct Hn; left]. eexists _, _. split_and!; [done|apply recorded_horizon|done].
    + destruct (decide (is_dying st (off, t))); eexists _, _; (split_and!; [done|apply recorded_refl|done]).
  - inversion HF; subst. rewrite bool_decide_eq_false_2, Hx, Hu by done. cbv zeta.
    set (s1 := if decide (is_dead st (off, t)) then _ else s). assert (Hx1 : recorded s s1 [] [] [] []) by (unfold s1; case_decide; [apply recorded_horizon|apply recorded_refl]).
    destruct (decide (is_dying st (off, t))) as [Hy|Hy].
    + edestruct (IH eq_refl (items ++ [off]) (if decide (is_dead st (off, t)) then S (length items) else nd) s1 fuel) as (j & s2 & -> & Hx2 & _).
      * by eapply scanned_recorded.
      * eapply Forall_impl; [done|]. intros m Hm. by rewrite (ex_processed _ _ _ _ _ _ Hx1), elem_of_nil; intros [].
      * by destruct items.
      * cbn in Hf. lia.
      * exists j, s2. split_and!; [|apply (recorded_trans _ _ _ [] [] [] [] [] [] [] [] Hx1 Hx2)|done].
        rewrite length_app, Nat.add_1_r, <- app_assoc. cbn. by destruct (decide (is_dead st (off, t))).
    + rewrite decide_False by (intros ?; apply Hy; by left). eexists _, _. split_and!; [done|apply recorded_refl|done].
Qed.

(** The line pointers the walk from [r] collects. *)
Definition items (r : Z) ms : list Z :=
  match look r with Redirect _ => r :: (walk st ms).*1 | _ => (walk st ms).*1 end.

(** What is recorded for the chain [ms] of [r]: nothing, that all of it goes, or that the
    dead part goes and [r] is redirected to the rest. *)
Definition effect (r : Z) ms (rd : list (Z * Z)) (dd uu : list Z) : Prop :=
  ∃ pre post, walk st ms = pre ++ post ∧ Forall (λ m, ¬ is_dead st m) post ∧ Forall (is_dying st) pre ∧
  ((pre = [] ∧ ms ≠ [] ∧ rd = [] ∧ dd = [] ∧ uu = []) ∨
   (post = [] ∧ (ms = [] ∨ ∃ pre' m, pre = pre' ++ [m] ∧ is_dead st m) ∧ rd = [] ∧ dd ++ uu = items r ms) ∨
   (∃ pre' m to t post', pre = pre' ++ [m] ∧ is_dead st m ∧ post = (to, t) :: post' ∧ rd = [(r, to)] ∧ dd = [] ∧
      r :: uu ++ post.*1 = items r ms)).

Lemma walk_kept ms pre post start off xmax : Chain off xmax start ms → walk st ms = pre ++ post → Forall (λ m, ¬ is_dead st m) post →
  Forall (λ m, look m.1 = Member m.2 ∧ ¬ is_dead st m) post.
Proof.
  intros Hc%chain_members Hw Hd. destruct (walk_prefix st ms) as [rest Hr]. rewrite Hr, Hw in Hc.
  apply Forall_app in Hc as [[_ Hc]%Forall_app _]. rewrite Forall_forall in *. intros m Hm. split; auto.
Qed.

Lemma dead_or_unused_run s r n tl :
  ∃ s' dd uu, record_unused tl (heap_prune_record_dead_or_unused s r n) = s' ∧ recorded s s' [] dd uu (r :: tl) ∧ dd ++ uu = r :: tl.
Proof.
  destruct (recorded_dead_or_unused s r n) as (dd & uu & H1 & Hdu). pose proof (recorded_record_unused tl (heap_prune_record_dead_or_unused s r n)) as H2.
  pose proof (recorded_trans _ _ _ _ _ _ _ _ _ _ _ H1 H2) as H3. cbn [app] in H3. rewrite app_nil_r in H3.
  eexists _, _, _. split; [done|]. split; [exact H3|]. destruct (mark_unused_now s); injection Hdu as -> ->; done.
Qed.

(** The decisions after the walk. *)
Lemma chain_finish r ms rootlp j s tl off xmax start :
  Chain off xmax start ms → scanned s → items r ms = r :: tl →
  items r ms = (if ItemIdIsRedirected rootlp then [r] else []) ++ (walk st ms).*1 →
  (ms = [] → ItemIdIsRedirected rootlp = true) → (ms = [] → j = false) →
  let chainitems := items r ms in
  let ndeadchain := last_dead st (if ItemIdIsRedirected rootlp then 1 else 0) 0 ms in
  ∃ s' rd dd uu,
    (if negb j && ItemIdIsRedirected rootlp && (length chainitems <? 2)%nat
     then Ok (heap_prune_record_dead_or_unused s r false)
     else if (ndeadchain =? 0)%nat then
       if ItemIdIsRedirected rootlp
       then record_unchanged upd p (drop 1 chainitems) (heap_prune_record_unchanged_lp_redirect s r)
       else record_unchanged upd p chainitems s
     else if (ndeadchain =? length chainitems)%nat then
       Ok (record_unused (drop 1 chainitems) (heap_prune_record_dead_or_unused s r (ItemIdIsNormal rootlp)))
     else
       to ← some_or "chainitems" (chainitems !! ndeadchain);
       record_unchanged upd p (drop ndeadchain chainitems)
         (record_unused (drop 1 (take ndeadchain chainitems)) (heap_prune_record_redirect s r to (ItemIdIsNormal rootlp)))) = Ok s' ∧
    recorded s s' rd dd uu chainitems ∧ effect r ms rd dd uu.
Proof.
  intros Hc Hs Hi Hi' Hne Hj. cbv zeta.
  destruct (walk_split st ms (if ItemIdIsRedirected rootlp then 1 else 0) 0) as (pre & post & [Hw Hk Hy Hcount]).
  pose proof (walk_kept _ _ _ _ _ _ Hc Hw Hk) as Hkept.
  destruct (decide (ms = [])) as [->|Hms].
  { rewrite Hj, Hne, Hi in * by done. cbn in Hi'. injection Hi' as ->. cbn.
    destruct (dead_or_unused_run s r false []) as (s' & dd & uu & <- & He & Hdu). eexists _, [], dd, uu. split; [done|]. split; [done|].
    exists [], []. split_and!; try done. right. left. rewrite Hdu, Hi. auto. }
  replace (negb j && ItemIdIsRedirected rootlp && (length (items r ms) <? 2)%nat) with false.
  2: { symmetry. destruct (ItemIdIsRedirected rootlp); rewrite ?andb_false_r; [|done]. rewrite andb_true_r, Hi'. destruct ms; [done|]. cbn. by rewrite andb_false_r. }
  destruct Hcount as [[-> Hd]|(pre' & m & Hpre & Hm & Hd)].
  - rewrite Hd. cbn [Nat.eqb app] in *. subst post.
    assert (He : effect r ms [] [] []) by (exists [], (walk st ms); split_and!; try done; by left).
    destruct (ItemIdIsRedirected rootlp); rewrite Hi'; cbn [app skipn]; rewrite ?drop_0.
    + pose proof (recorded_redirect_kept s r) as H1.
      destruct (record_unchanged_run _ _ (scanned_recorded _ _ _ _ _ _ H1 Hs) Hkept) as (s' & -> & H2). eexists _, [], [], []. split_and!; [done| |done].
      apply (recorded_trans _ _ _ [] [] [] [] [] [] [r] _ H1 H2).
    + destruct (record_unchanged_run _ _ Hs Hkept) as (s' & -> & H2). by eexists _, [], [], [].
  - rewrite Hd. set (h := if ItemIdIsRedirected rootlp then 1%nat else 0%nat) in *.
    assert (Hlen : length (items r ms) = (h + length pre + length post)%nat).
    { rewrite Hi', Hw, length_app, length_fmap, length_app. unfold h. destruct (ItemIdIsRedirected rootlp); cbn; lia. }
    assert (Hcut : take (h + length pre) (items r ms) = (if ItemIdIsRedirected rootlp then [r] else []) ++ pre.*1 ∧ drop (h + length pre) (items r ms) = post.*1).
    { rewrite Hi', Hw, fmap_app, app_assoc. split; [apply take_app_length'|apply drop_app_length'];
        rewrite length_app, length_fmap; unfold h; by destruct (ItemIdIsRedirected rootlp). }
    destruct Hcut as [Htk Hdr]. pose proof (take_drop (h + length pre) (items r ms)) as Hitems.
    rewrite Hdr in *. assert (Hpos : (1 ≤ length pre)%nat) by (rewrite Hpre, length_app; cbn; lia).
    destruct (Nat.eqb_spec (h + length pre) 0); [lia|]. rewrite Hlen. destruct post as [|[to t] post'].
    + rewrite Nat.add_0_r, Nat.eqb_refl, Hi. cbn [skipn]. rewrite drop_0.
      destruct (dead_or_unused_run s r (ItemIdIsNormal rootlp) tl) as (s' & dd & uu & -> & He & Hdu). eexists _, [], dd, uu.
      split_and!; [done|done|]. exists pre, []. split_and!; try done. right. left. rewrite Hi. eauto 8.
    + destruct (Nat.eqb_spec (h + length pre) (h + length pre + length ((to, t) :: post'))); [cbn in *; lia|].
      assert (Hto : items r ms !! (h + length pre)%nat = Some to).
      { rewrite <- (Nat.add_0_r (h + length pre)), <- lookup_drop, Hdr. done. }
      rewrite Hto. rsimpl. set (tk := drop 1 (take (h + length pre) (items r ms))).
      pose proof (recorded_redirect s r to (ItemIdIsNormal rootlp)) as H1.
      pose proof (recorded_record_unused tk (heap_prune_record_redirect s r to (ItemIdIsNormal rootlp))) as H2.
      pose proof (recorded_trans _ _ _ _ _ _ _ _ _ _ _ H1 H2) as H3.
      destruct (record_unchanged_run _ _ (scanned_recorded _ _ _ _ _ _ H3 Hs) Hkept) as (s' & -> & H4).
      pose proof (recorded_trans _ _ _ _ _ _ _ _ _ _ _ H3 H4) as H5. cbn [app] in H5. rewrite !app_nil_r in H5.
      assert (Hall : r :: tk ++ ((to, t) :: post').*1 = items r ms).
      { rewrite <- Hitems at 1. unfold tk. rewrite Hi. destruct (h + length pre)%nat; [done|]. done. }
      eexists _, _, _, _. split_and!; [done|cbn [app]; rewrite <- Hall; exact H5|]. exists pre, ((to, t) :: post'). split_and!; try done.
      right. right. exists pre', m, to, t, post'. split_and!; done.
Qed.


Lemma prune_chain_run r ms s :
  is_root look r = true → Chain r InvalidTransactionId true ms → (length ms ≤ Z.to_nat maxoff)%nat → scanned s → r ∉ processed s →
  Forall (λ m, m.1 ∉ processed s) ms →
  ∃ s' rd dd uu, heap_prune_chain upd committed p maxoff r s = Ok s' ∧ recorded s s' rd dd uu (items r ms) ∧ effect r ms rd dd uu.
Proof.
  intros Hr Hc Hlen Hs Hrp HF. unfold heap_prune_chain.
  assert (Hrange : (r <? FirstOffsetNumber) || (maxoff <? r) = false).
  { destruct (_ || _) eqn:E; [|done]. unfold is_root, line_at in Hr. by rewrite E in Hr. }
  destruct (line_at_read p r (heap_page_searchable p Hp) Hrange) as (rootlp & -> & HL). rsimpl.
  assert (Hwk : ∃ j s1, chain_loop upd committed (Z.to_nat maxoff + 2) p maxoff rootlp r InvalidTransactionId [] 0 s =
     Ok (items r ms, last_dead st (if ItemIdIsRedirected rootlp then 1 else 0) 0 ms, j, s1) ∧ recorded s s1 [] [] [] [] ∧ (ms = [] → j = false)).
  { rewrite Nat.add_succ_r. unfold items. destruct (look r) as [|o|t] eqn:E; [by unfold is_root in Hr; rewrite E in Hr| |].
    - destruct HL as (_ & Hrd & Hto). rewrite chain_loop_step, E, bool_decide_eq_false_2 by done. cbn [length Nat.ltb Nat.leb]. rewrite Hto, Hrd.
      pose proof (root_redirect upd look r o _ ms E Hc). apply (chain_loop_run o _ ms rootlp [r] 0 s); try done; lia.
    - destruct HL as [Hn _]. replace (ItemIdIsRedirected rootlp) with false by
        (unfold ItemIdIsNormal, ItemIdIsRedirected, LP_NORMAL, LP_REDIRECT in *; bprop; by rewrite Hn).
      unfold is_root in Hr. rewrite E in Hr. destruct (root_member upd look r t ms E) as [Hc' _]; [by destruct (HeapTupleIsHeapOnly t)|done|].
      apply (chain_loop_run r _ ms rootlp [] 0 s); try done; [by intros _ o; rewrite E|lia]. }
  destruct Hwk as (j & s1 & -> & H1 & Hj). rsimpl. pose proof (scanned_recorded _ _ _ _ _ _ H1 Hs) as Hs1.
  assert (Hhd : ∃ tl, items r ms = r :: tl ∧ items r ms = (if ItemIdIsRedirected rootlp then [r] else []) ++ (walk st ms).*1 ∧
                      (ms = [] → ItemIdIsRedirected rootlp = true)).
  { unfold items in *. destruct (look r) as [|o|t] eqn:E; [by unfold is_root in Hr; rewrite E in Hr| |].
    - destruct HL as (_ & Hrd & _). rewrite Hrd. by eexists.
    - destruct HL as [Hn _]. replace (ItemIdIsRedirected rootlp) with false by
        (unfold ItemIdIsNormal, ItemIdIsRedirected, LP_NORMAL, LP_REDIRECT in *; bprop; by rewrite Hn).
      unfold is_root in Hr. rewrite E in Hr. destruct (root_member upd look r t ms E) as [_ [ms' ->]]; [by destruct (HeapTupleIsHeapOnly t)|done|].
      eexists. split_and!; done. }
  destruct Hhd as (tl & Hi & Hi' & Hne).
  destruct (chain_finish r ms rootlp j s1 tl r _ _ Hc Hs1 Hi Hi' Hne Hj) as (s2 & rd & dd & uu & E & H2 & Heff).
  exists s2, rd, dd, uu. split_and!; [exact E| |done]. apply (recorded_trans _ _ _ [] rd [] dd [] uu [] _ H1 H2).
Qed.
End walking.
