(* ===== verification/PrunePage.v ===== *)
(** Pruning a whole heap page: the plan made over all chains, its execution on the line
    pointers, and that index scans find the same versions afterwards. *)

From S2P Require Import Prelude Xid Bufpage Itup Compact PageOps HeapPage HotChain HeapPrune HotPrune.

(** The line pointers a plan changes, and those it removes. *)
Definition touched (s : PruneState) : list Z := (redirected s).*1 ++ nowdead s ++ nowunused s.
Definition gone (s : PruneState) : list Z := nowdead s ++ nowunused s.

Lemma touched_recorded s s' rd dd uu offs : recorded s s' rd dd uu offs →
  touched s' ≡ₚ (rd.*1 ++ dd ++ uu) ++ touched s.
Proof.
  intros [_ _ _ _ Hr Hd Hu _]. unfold touched. rewrite Hr, Hd, Hu, fmap_app. solve_Permutation.
Qed.

Section plan.
Context {A Sp : Type}.
Abbreviation Tuple := (@HeapTupleHeaderData A).
Context (upd : Tuple → Z) (committed : Z → bool).
Context (p : Page Tuple Sp) (Hp : heap_page p).
Context (st : Z → Tuple → HTSV_Result).
Abbreviation look := (line_at p).
Abbreviation maxoff := (PageGetMaxOffsetNumber p).
Abbreviation Chain r ms := (hot_chain upd look r InvalidTransactionId true ms).
Implicit Types (s : PruneState) (ms : list (Z * Tuple)) (D L : list Z).

(** No version is in the chains of two roots. *)
Definition chains_apart : Prop :=
  ∀ r1 r2 ms1 ms2, Chain r1 ms1 → Chain r2 ms2 → r1 ≠ r2 → ∀ o, o ∈ ms1.*1 → o ∉ ms2.*1.

(** What the plan holds for the chain [ms] of [r]. *)
Definition outcome s (r : Z) ms : Prop :=
  ∃ pre post, walk st ms = pre ++ post ∧ Forall (λ m, ¬ is_dead st m) post ∧ Forall (is_dying st) pre ∧
  ((pre = [] ∧ ms ≠ [] ∧ ∀ o, o ∈ items p st r ms → o ∉ touched s) ∨
   (post = [] ∧ (ms = [] ∨ ∃ pre' m, pre = pre' ++ [m] ∧ is_dead st m) ∧ r ∈ gone s) ∨
   (∃ pre' m to t post', pre = pre' ++ [m] ∧ is_dead st m ∧ post = (to, t) :: post' ∧ (r, to) ∈ redirected s ∧
      ∀ o, o ∈ post.*1 → o ∉ touched s)).

(** A heap-only tuple that no chain needs. *)
Definition droppable (off : Z) : Prop := ∃ t, look off = Member t ∧ is_dead st (off, t) ∧ HeapTupleIsHotUpdated t = false.

(** The plan once the chains of [D] are done and the heap-only tuples [L] looked at. *)
Record plan_inv D L s : Prop := {
  pi_scanned : scanned p st s;
  pi_processed : ∀ off, off ∈ processed s → look off = Nothing ∨ (∃ r ms, r ∈ D ∧ Chain r ms ∧ off ∈ items p st r ms) ∨ off ∈ L;
  pi_range : ∀ off, off ∈ processed s → 1 ≤ off ≤ maxoff;
  pi_touched : ∀ off, off ∈ touched s → off ∈ processed s;
  pi_nodup : NoDup (touched s);
  pi_roots : ∀ f, f ∈ (redirected s).*1 → is_root look f = true;
  pi_dead : ∀ off t, off ∈ processed s → look off = Member t → off ∈ touched s ∨ ¬ is_dead st (off, t);
  pi_done : ∀ r ms, r ∈ D → Chain r ms → (∀ o, o ∈ items p st r ms → o ∈ processed s) ∧ outcome s r ms;
  pi_loose : ∀ off, off ∈ L → off ∈ processed s ∧ (off ∈ touched s → (∃ r ms, r ∈ D ∧ Chain r ms ∧ off ∈ items p st r ms) ∨ droppable off);
}.

(** What was decided stays when only new line pointers are added. *)
Lemma outcome_recorded s s' rd dd uu offs r ms :
  recorded s s' rd dd uu offs → (∀ o, o ∈ rd.*1 ++ dd ++ uu → o ∉ processed s) →
  (∀ o, o ∈ items p st r ms → o ∈ processed s) → outcome s r ms → outcome s' r ms.
Proof.
  intros He Hnew Hin (pre & post & Hw & Hk & Hy & Hcase). exists pre, post. split_and!; try done.
  assert (Hk' : ∀ o, o ∈ processed s → o ∉ touched s → o ∉ touched s').
  { intros o Ho Ht. rewrite (touched_recorded _ _ _ _ _ _ He), elem_of_app. intros [H|H]; [by eapply Hnew|done]. }
  destruct Hcase as [(-> & Hne & Ht)|[(-> & Hl & Hg)|(pre' & m & to & t & post' & -> & Hm & -> & Hrd & Ht)]].
  - left. split_and!; auto.
  - right. left. split_and!; try done. destruct He as [_ _ _ _ _ Hd Hu _]. unfold gone in *. rewrite Hd, Hu, !elem_of_app in *. tauto.
  - right. right. exists pre', m, to, t, post'. split_and!; try done.
    + rewrite (ex_redirected _ _ _ _ _ _ He), elem_of_app. by left.
    + intros o Ho. apply Hk'; [|auto]. apply Hin. unfold items. rewrite Hw.
      assert (o ∈ ((pre' ++ [m]) ++ (to, t) :: post').*1) by (rewrite fmap_app, elem_of_app; by right).
      destruct (look r); [done|by apply list_elem_of_further|done].
Qed.

(** Adding a batch of decisions about line pointers not yet processed. *)
Lemma plan_recorded D D' L L' s s' rd dd uu offs :
  plan_inv D L s → recorded s s' rd dd uu offs → (∀ o, o ∈ offs → (o ∉ processed s) ∧ 1 ≤ o ≤ maxoff) →
  NoDup (rd.*1 ++ dd ++ uu) → (∀ o, o ∈ rd.*1 ++ dd ++ uu → o ∈ offs) → (∀ f, f ∈ rd.*1 → is_root look f = true) →
  (∀ off t, off ∈ offs → look off = Member t → off ∈ rd.*1 ++ dd ++ uu ∨ ¬ is_dead st (off, t)) →
  (∀ r, r ∈ D → r ∈ D') → (∀ off, off ∈ L → off ∈ L') →
  (∀ off, off ∈ offs → (∃ r ms, r ∈ D' ∧ Chain r ms ∧ off ∈ items p st r ms) ∨ off ∈ L') →
  (∀ r ms, r ∈ D' → Chain r ms → r ∈ D ∨ ((∀ o, o ∈ items p st r ms → o ∈ processed s') ∧ outcome s' r ms)) →
  (∀ off, off ∈ L' → off ∈ L ∨ (off ∈ processed s' ∧ (off ∈ touched s' → (∃ r ms, r ∈ D' ∧ Chain r ms ∧ off ∈ items p st r ms) ∨ droppable off))) →
  plan_inv D' L' s'.
Proof.
  intros [Hsc Hpr Hrg Hto Hnd Hro Hde Hdo Hlo] He Hnewr Hnd' Hsub Hro' Hde' HD HL Hoffs HD' HL'.
  assert (Hnew : ∀ o, o ∈ offs → o ∉ processed s) by (intros o Ho; by apply Hnewr).
  pose proof (touched_recorded _ _ _ _ _ _ He) as Ht. pose proof (ex_processed _ _ _ _ _ _ He) as Hp'.
  constructor.
  - by eapply scanned_recorded.
  - intros off [Ho|Ho]%Hp'; [right; by apply Hoffs|]. destruct (Hpr off Ho) as [?|[(r & ms & Hr & ? & ?)|?]]; [by left| |by right; right; apply HL].
    right. left. exists r, ms. split_and!; auto.
  - intros off [Ho|Ho]%Hp'; [by apply Hnewr|auto].
  - intros off. rewrite Ht, Hp', elem_of_app. intros [?|?]; auto.
  - rewrite Ht. apply NoDup_app. split_and!; [done| |done]. intros o Ho Ho'. by apply (Hnew o); auto.
  - intros f. rewrite (ex_redirected _ _ _ _ _ _ He), fmap_app, elem_of_app. intros [?|?]; auto.
  - intros off t. rewrite Ht, Hp', elem_of_app. intros [Ho|Ho] Hl; [destruct (Hde' off t Ho Hl)|destruct (Hde off t Ho Hl)]; auto.
  - intros r ms Hr Hc. destruct (HD' r ms Hr Hc) as [Hd|?]; [|done]. destruct (Hdo r ms Hd Hc) as [Hi Hout]. split.
    + intros o Ho. apply Hp'. auto.
    + eapply outcome_recorded; [done| |done|done]. auto.
  - intros off Hl. destruct (HL' off Hl) as [Ho|?]; [|done]. destruct (Hlo off Ho) as [Ho' Hdrop]. split; [apply Hp'; by right|].
    rewrite Ht, elem_of_app. intros [Hbad|Hin]; [by destruct (Hnew off (Hsub off Hbad))|].
    destruct (Hdrop Hin) as [(r & ms & ? & ? & ?)|?]; [|by right]. left. exists r, ms. auto.
Qed.

(** * Roots *)

Lemma walk_in ms o : o ∈ (walk st ms).*1 → o ∈ ms.*1.
Proof. destruct (walk_prefix st ms) as [rest Hr]. rewrite Hr at 2. rewrite fmap_app, elem_of_app. by left. Qed.

Lemma chain_line r ms o : Chain r ms → o ∈ ms.*1 → ∃ t, look o = Member t.
Proof. intros Hc%chain_members ([o' t] & -> & Hm)%list_elem_of_fmap. rewrite Forall_forall in Hc. exists t. by apply (Hc (o', t)). Qed.

(** An item of a root is the root or a member of its chain; a root with a tuple is a member. *)
Lemma items_in r ms o : o ∈ items p st r ms → (o = r ∧ ∃ to, look r = Redirect to) ∨ o ∈ ms.*1.
Proof.
  unfold items. destruct (look r) as [|to|t]; intros Ho; try (right; by apply walk_in).
  apply elem_of_cons in Ho as [->|Ho]; [left; eauto|right; by apply walk_in].
Qed.

Lemma root_items_head r ms : is_root look r = true → Chain r ms → ∃ tl, items p st r ms = r :: tl.
Proof.
  intros Hr Hc. unfold items, is_root in *. destruct (look r) as [|to|t] eqn:E; [done|by eexists|].
  destruct (root_member upd look r t ms E) as [_ [ms' ->]]; [by destruct (HeapTupleIsHeapOnly t)|done|]. cbn. by eexists.
Qed.

Lemma root_range r : is_root look r = true → 1 ≤ r ≤ maxoff.
Proof.
  unfold is_root, line_at, FirstOffsetNumber. destruct (Z.ltb_spec r 1), (Z.ltb_spec maxoff r); cbn; try done.
Qed.

Lemma items_range r ms o : is_root look r = true → Chain r ms → o ∈ items p st r ms → 1 ≤ o ≤ maxoff.
Proof.
  intros Hr Hc [[-> _]|Ho]%items_in; [by apply root_range|]. destruct (chain_line r ms o Hc Ho) as [t Ht]. by eapply line_at_range.
Qed.

Lemma items_nodup r ms : Chain r ms → NoDup (items p st r ms).
Proof.
  intros Hc. destruct (hot_chain_bounds upd p r ms (heap_page_searchable p Hp) Hc) as [Hnd _].
  assert (Hw : NoDup (walk st ms).*1).
  { destruct (walk_prefix st ms) as [rest Hr]. rewrite Hr, fmap_app in Hnd. by apply NoDup_app in Hnd as [? _]. }
  unfold items. destruct (look r) as [|to|t] eqn:E; [done| |done]. apply NoDup_cons. split; [|done].
  intros Hin%walk_in. destruct (chain_line r ms r Hc Hin) as [t Ht]. congruence.
Qed.

Context (Hapart : chains_apart).

(** The items of two roots are different. *)
Lemma items_apart r1 r2 ms1 ms2 o : is_root look r1 = true → is_root look r2 = true → Chain r1 ms1 → Chain r2 ms2 → r1 ≠ r2 →
  o ∈ items p st r1 ms1 → o = r2 ∨ o ∈ ms2.*1 → False.
Proof.
  intros Hr1 Hr2 Hc1 Hc2 Hne Ho1 Ho2.
  assert (Hm : ∀ r ms t, is_root look r = true → Chain r ms → look r = Member t → r ∈ ms.*1).
  { intros r ms t Hr Hc E. unfold is_root in Hr. rewrite E in Hr.
    destruct (root_member upd look r t ms E) as [_ [ms' ->]]; [by destruct (HeapTupleIsHeapOnly t)|done|]. apply list_elem_of_here. }
  apply items_in in Ho1 as [[-> [to E]]|Ho1].
  - destruct Ho2 as [->|Ho2]; [done|]. destruct (chain_line _ _ _ Hc2 Ho2) as [t Ht]. congruence.
  - destruct (chain_line _ _ _ Hc1 Ho1) as [t Ht]. destruct Ho2 as [->|Ho2]; [|by eapply (Hapart r1 r2)].
    by eapply (Hapart r1 r2 ms1 ms2 Hc1 Hc2 Hne r2 Ho1), Hm.
Qed.

Lemma root_fresh D r s ms : plan_inv D [] s → Forall (λ r, is_root look r = true) D → is_root look r = true → Chain r ms → r ∉ D →
  ∀ o, o = r ∨ o ∈ ms.*1 → o ∉ processed s.
Proof.
  intros Hi HD Hr Hc Hrd o Ho Hop. rewrite Forall_forall in HD.
  destruct (pi_processed _ _ _ Hi o Hop) as [Hn|[(r' & ms' & Hr' & Hc' & Ho')|Hn]]; [|by eapply (items_apart r' r); eauto; intros ->|by apply elem_of_nil in Hn].
  destruct Ho as [->|Ho]; [by unfold is_root in Hr; rewrite Hn in Hr|]. destruct (chain_line r ms o Hc Ho) as [t Ht]. congruence.
Qed.

(** Recording the effect on a chain gives its outcome. *)
Lemma effect_outcome s s' r ms rd dd uu : recorded s s' rd dd uu (items p st r ms) → Chain r ms → is_root look r = true →
  effect p st r ms rd dd uu → (∀ o, o ∈ items p st r ms → o ∉ touched s) → outcome s' r ms.
Proof.
  intros He Hc Hr (pre & post & Hw & Hk & Hy & Hcase) Hnew. exists pre, post. split_and!; try done.
  destruct (root_items_head r ms Hr Hc) as [tl Htl]. pose proof (items_nodup r ms Hc) as Hnd.
  pose proof (touched_recorded _ _ _ _ _ _ He) as Ht.
  destruct Hcase as [(-> & Hne & -> & -> & ->)|[(-> & Hl & -> & Hdu)|(pre' & m & to & t & post' & -> & Hm & -> & -> & -> & Hit)]].
  - left. split_and!; [done|done|]. intros o Ho. rewrite Ht. by apply Hnew.
  - right. left. split_and!; [done|done|]. destruct He as [_ _ _ _ _ Hd Hu _]. unfold gone. rewrite Hd, Hu, !elem_of_app.
    assert (r ∈ dd ++ uu) as [?|?]%elem_of_app by (rewrite Hdu, Htl; apply list_elem_of_here); auto.
  - right. right. exists pre', m, to, t, post'. split_and!; try done.
    + rewrite (ex_redirected _ _ _ _ _ _ He), elem_of_app. right. by apply list_elem_of_singleton.
    + intros o Ho. assert (Hoi : o ∈ items p st r ms) by (rewrite <- Hit; apply list_elem_of_further, elem_of_app; by right).
      rewrite Ht. cbn [fmap list_fmap app fst]. intros [->|[Hu|Ht']%elem_of_app]%elem_of_cons; [..|by eapply Hnew];
        rewrite <- Hit in Hnd; apply NoDup_cons in Hnd as [Hn1 Hn2].
      * apply Hn1, elem_of_app. by right.
      * apply NoDup_app in Hn2 as (_ & Hn2 & _). by eapply Hn2.
Qed.

(** What is recorded is within the items, once each. *)
Lemma effect_within r ms rd dd uu : Chain r ms → is_root look r = true → effect p st r ms rd dd uu →
  NoDup (rd.*1 ++ dd ++ uu) ∧ (∀ o, o ∈ rd.*1 ++ dd ++ uu → o ∈ items p st r ms) ∧ (∀ f, f ∈ rd.*1 → f = r) ∧
  (∀ off t, off ∈ items p st r ms → look off = Member t → off ∈ rd.*1 ++ dd ++ uu ∨ ¬ is_dead st (off, t)).
Proof.
  intros Hc Hr (pre & post & Hw & Hk & Hy & Hcase). pose proof (items_nodup r ms Hc) as Hnd.
  assert (Hmem : ∀ off t, look off = Member t → off ∈ post.*1 → ¬ is_dead st (off, t)).
  { intros off t Hl ([o' t'] & -> & Hin)%list_elem_of_fmap. pose proof (chain_members upd _ _ _ _ _ Hc) as HF. rewrite Forall_forall in HF, Hk.
    cbn in Hl. assert (t' = t) as ->; [|by apply Hk]. assert (look o' = Member t'); [|congruence]. apply (HF (o', t')).
    destruct (walk_prefix st ms) as [rest ->]. rewrite Hw, !elem_of_app. auto. }
  destruct Hcase as [(-> & Hne & -> & -> & ->)|[(-> & Hl & -> & Hdu)|(pre' & m & to & t & post' & -> & Hm & -> & -> & -> & Hit)]]; cbn [fmap list_fmap app fst].
  - split_and!; [constructor|by intros ? ?%elem_of_nil|by intros ? ?%elem_of_nil|]. intros off t Ho E. right. apply Hmem; [done|].
    cbn in Hw. rewrite <- Hw. unfold items in Ho. destruct (look r) eqn:E'; [done| |done]. apply elem_of_cons in Ho as [->|?]; [congruence|done].
  - rewrite Hdu. split_and!; try done; [by intros ? ?%elem_of_nil|by left].
  - rewrite <- Hit in Hnd. rewrite app_comm_cons in Hnd, Hit. split_and!.
    + by apply NoDup_app in Hnd as [? _].
    + intros o Ho. rewrite <- Hit, elem_of_app. by left.
    + by intros f ->%list_elem_of_singleton.
    + intros off t' Ho E. rewrite <- Hit in Ho. apply elem_of_app in Ho as [?|?]; [by left|right; by apply Hmem].
Qed.

Lemma prune_root_run D r s : plan_inv D [] s → Forall (λ r, is_root look r = true) D → is_root look r = true → r ∉ D →
  ∃ s', prune_root upd committed p maxoff s r = Ok s' ∧ plan_inv (r :: D) [] s' ∧ heaponly_items s' = heaponly_items s.
Proof.
  intros Hi HD Hr Hrd. destruct (hot_chain_search upd p r (heap_page_searchable p Hp)) as (ms & Hc & Hnd & Hlen).
  pose proof (root_fresh D r s ms Hi HD Hr Hc Hrd) as Hfresh. unfold prune_root. rewrite bool_decide_eq_false_2 by auto.
  destruct (prune_chain_run upd committed p Hp st r ms s Hr Hc Hlen (pi_scanned _ _ _ Hi)) as (s' & rd & dd & uu & -> & He & Heff); [by auto| |].
  { apply Forall_forall. intros m Hm. apply Hfresh. right. by apply list_elem_of_fmap_2. }
  exists s'. split_and!; [done| |by destruct He].
  destruct (effect_within r ms rd dd uu Hc Hr Heff) as (Hn & Hsub & Hf & Hde).
  assert (Hnew : ∀ o, o ∈ items p st r ms → o ∉ processed s).
  { intros o [[-> _]|Ho]%items_in; apply Hfresh; auto. }
  eapply (plan_recorded D (r :: D) [] [] s s' rd dd uu); try done; try (by intros ? ?%elem_of_nil).
  - intros o Ho. split; [auto|]. by eapply items_range.
  - by intros f ->%Hf.
  - intros r' Hr'. by apply list_elem_of_further.
  - intros o Ho. left. exists r, ms. split_and!; [apply list_elem_of_here|done|done].
  - intros r' ms' [->|Hr']%elem_of_cons Hc'; [|by left]. right. rewrite (hot_chain_det _ _ _ _ _ _ _ Hc' Hc). split.
    + intros o Ho. apply (ex_processed _ _ _ _ _ _ He). by left.
    + eapply effect_outcome; try done. intros o Ho Ht. by eapply Hnew, (pi_touched _ _ _ Hi).
Qed.

Lemma prune_roots_run roots D s : plan_inv D [] s → Forall (λ r, is_root look r = true) D → Forall (λ r, is_root look r = true) roots →
  NoDup (roots ++ D) →
  ∃ s', fold_result (prune_root upd committed p maxoff) s roots = Ok s' ∧ plan_inv (rev roots ++ D) [] s' ∧ heaponly_items s' = heaponly_items s.
Proof.
  revert D s. induction roots as [|r roots IH]; intros D s Hi HD HR Hnd; [by exists s|]. inversion HR; subst.
  cbn [app] in Hnd. apply NoDup_cons in Hnd as [Hn Hnd]. rewrite elem_of_app in Hn. cbn [fold_result].
  destruct (prune_root_run D r s Hi HD) as (s1 & -> & Hi1 & Hq); [done|tauto|]. rsimpl.
  destruct (IH (r :: D) s1 Hi1) as (s2 & -> & Hi2 & Hq2); [by constructor|done| |].
  { rewrite <- Permutation_middle. apply NoDup_cons. rewrite elem_of_app. tauto. }
  exists s2. split_and!; [done| |congruence]. cbn [rev]. by rewrite <- app_assoc.
Qed.

(** * Heap-only tuples *)

Definition unlinked : error := Elog "dead heap-only tuple is not linked to from any HOT chain".

(** A dead heap-only tuple that was updated further, although no walk along the chains of
    [D] comes to it. *)
Definition stray_of D (off : Z) : Prop :=
  ∃ t, look off = Member t ∧ HeapTupleIsHeapOnly t = true ∧ is_dead st (off, t) ∧ HeapTupleIsHotUpdated t = true ∧
    ∀ r ms, r ∈ D → Chain r ms → off ∉ items p st r ms.

(** The same for all chains of the page. *)
Definition stray (off : Z) : Prop :=
  ∃ t, look off = Member t ∧ HeapTupleIsHeapOnly t = true ∧ is_dead st (off, t) ∧ HeapTupleIsHotUpdated t = true ∧
    ∀ r ms, Chain r ms → off ∉ items p st r ms.

Lemma stray_all D off : (∀ r, r ∈ D ↔ is_root look r = true) → stray_of D off → stray off.
Proof.
  intros HD (t & Hl & Ho & Hd & Hu & Hn). exists t. split_and!; try done. intros r ms Hc.
  destruct (is_root look r) eqn:Er; [by apply Hn; [apply HD|]|]. rewrite (unrooted_chain upd look r ms Er Hc). unfold items, is_root in *.
  by destruct (look r); [apply not_elem_of_nil| |apply not_elem_of_nil].
Qed.

Lemma member_read off t : look off = Member t → ∃ lp, PageGetItemId p off = Ok lp ∧ PageGetItem p lp = Ok t.
Proof.
  intros Hl. pose proof (line_at_range _ _ _ Hl). destruct (line_at_read p off (heap_page_searchable p Hp)) as (lp & Hlp & HL).
  { unfold FirstOffsetNumber. destruct (Z.ltb_spec off 1), (Z.ltb_spec maxoff off); try done; lia. }
  rewrite Hl in HL. exists lp. by destruct HL.
Qed.

Lemma plan_looked D L s off t : plan_inv D L s → look off = Member t → off ∈ processed s → plan_inv D (off :: L) s.
Proof.
  intros Hi Hl Ho. eapply (plan_recorded D D L (off :: L) s s [] [] []); try done; try (by intros ? ?%elem_of_nil); try (by intros ? ? ?%elem_of_nil).
  - apply recorded_refl.
  - constructor.
  - intros. by apply list_elem_of_further.
  - by left.
  - intros o [->|Ho']%elem_of_cons; [|by left]. right. split; [done|]. intros Ht.
    destruct (pi_processed _ _ _ Hi off Ho) as [Hn|[?|Hlo]]; [congruence|by left|]. by apply (pi_loose _ _ _ Hi).
Qed.

Lemma prune_heaponly_run D L s off t : plan_inv D L s → look off = Member t → HeapTupleIsHeapOnly t = true →
  (∃ s', prune_heaponly upd committed p s off = Ok s' ∧ plan_inv D (off :: L) s') ∨
  (prune_heaponly upd committed p s off = Err unlinked ∧ stray_of D off).
Proof.
  intros Hi Hl Ho. unfold prune_heaponly. destruct (bool_decide (off ∈ processed s)) eqn:Ep.
  { apply bool_decide_eq_true in Ep. left. exists s. split; [done|]. by eapply plan_looked. }
  apply bool_decide_eq_false in Ep. pose proof (sc_htsv _ _ _ (pi_scanned _ _ _ Hi) _ _ Hl) as Hh.
  destruct (decide (is_dead st (off, t))) as [Hd|Hd]; unfold is_dead in Hd; cbn [fst snd] in Hd; rewrite Hh.
  - rewrite Hd, bool_decide_eq_true_2 by done. destruct (member_read off t Hl) as (lp & -> & Hit). rsimpl. rewrite Hit. rsimpl.
    destruct (HeapTupleIsHotUpdated t) eqn:Eu.
    { right. split; [done|]. exists t. split_and!; try done. intros r ms Hr Hc Hin. by destruct (pi_done _ _ _ Hi r ms Hr Hc) as [Hall _]; destruct (Ep (Hall off Hin)). } left. eexists. split; [done|].
    pose proof (recorded_trans _ _ _ _ _ _ _ _ _ _ _ (recorded_horizon s (new_prune_xid s) (HeapTupleHeaderAdvanceConflictHorizon upd committed t (latest_xid_removed s)))
      (recorded_unused (advance_horizon upd committed t s) off true)) as He. cbn [app] in He.
    eapply (plan_recorded D D L (off :: L) s _ _ _ _ _ Hi He); cbn [fmap list_fmap app]; try done; try (by intros ? ?%elem_of_nil).
    + intros o ->%list_elem_of_singleton. split; [done|by eapply line_at_range].
    + apply NoDup_singleton.
    + intros o t' Hin _. by left.
    + intros. by apply list_elem_of_further.
    + intros o ->%list_elem_of_singleton. right. apply list_elem_of_here.
    + by left.
    + intros o [->|Ho']%elem_of_cons; [|by left]. right. split; [apply (ex_processed _ _ _ _ _ _ He); left; apply list_elem_of_here|].
      intros _. right. by exists t.
  - rewrite bool_decide_eq_false_2 by congruence. left.
    destruct (unchanged_run upd committed p Hp st s off t Hl Hh Hd) as (s' & -> & He). exists s'. split; [done|].
    eapply (plan_recorded D D L (off :: L) s s' _ _ _ _ Hi He); cbn [fmap list_fmap app]; try done; try (by intros ? ?%elem_of_nil).
    + intros o ->%list_elem_of_singleton. split; [done|by eapply line_at_range].
    + constructor.
    + intros o t' ->%list_elem_of_singleton Hl'. right. assert (t' = t) as -> by congruence. done.
    + intros. by apply list_elem_of_further.
    + intros o ->%list_elem_of_singleton. right. apply list_elem_of_here.
    + by left.
    + intros o [->|Ho']%elem_of_cons; [|by left]. right. split; [apply (ex_processed _ _ _ _ _ _ He); left; apply list_elem_of_here|].
      intros Ht. exfalso. apply Ep, (pi_touched _ _ _ Hi). by rewrite (touched_recorded _ _ _ _ _ _ He) in Ht.
Qed.

Lemma prune_heaponlys_run offs D L s : plan_inv D L s → Forall (λ off, ∃ t, look off = Member t ∧ HeapTupleIsHeapOnly t = true) offs →
  (∃ s', fold_result (prune_heaponly upd committed p) s offs = Ok s' ∧ plan_inv D (rev offs ++ L) s') ∨
  (fold_result (prune_heaponly upd committed p) s offs = Err unlinked ∧ ∃ off, stray_of D off).
Proof.
  intros Hi HF. revert L s Hi. induction HF as [|off offs (t & Hl & Ho) _ IH]; intros L s Hi; [by left; exists s|]. cbn [fold_result rev].
  destruct (prune_heaponly_run D L s off t Hi Hl Ho) as [(s1 & -> & Hi1)|[-> Hst]]; [|right; split; [done|by exists off]]. rsimpl.
  rewrite <- app_assoc. by apply IH.
Qed.
End plan.

(** * The first loop *)

Section scan.
Context {A Sp : Type}.
Abbreviation Tuple := (@HeapTupleHeaderData A).
Context (upd : Tuple → Z) (horizon : ItemPointerData → Tuple → HTSV_Result * Z) (committed removable : Z → bool).
Context (cutoffs : option Z) (blockno : Z).
Context (p : Page Tuple Sp) (Hp : heap_page p) (Hflags : Forall (λ a, 0 ≤ lp_flags a ≤ 3) (pd_linp p)).
Abbreviation look := (line_at p).
Abbreviation maxoff := (PageGetMaxOffsetNumber p).
Implicit Types (s : PruneState) (V : list Z).

(** The status of the tuple at an offset. *)
Definition status (off : Z) (t : Tuple) : HTSV_Result :=
  heap_prune_satisfies_vacuum horizon removable cutoffs (ItemPointerSet blockno off) t.

Definition heap_only_at (off : Z) : Prop := ∃ t, look off = Member t ∧ HeapTupleIsHeapOnly t = true.

Record scan_inv V s : Prop := {
  si_htsv : ∀ off t, off ∈ V → look off = Member t → htsv s !! off = Some (status off t);
  si_processed : ∀ off, off ∈ processed s ↔ off ∈ V ∧ look off = Nothing;
  si_redirected : redirected s = [];
  si_nodup : NoDup (touched s);
  si_touched : ∀ off, off ∈ touched s → off ∈ V ∧ look off = Nothing;
  si_roots_nodup : NoDup (root_items s);
  si_roots : ∀ off, off ∈ root_items s ↔ off ∈ V ∧ is_root look off = true;
  si_heaponly : ∀ off, off ∈ heaponly_items s ↔ off ∈ V ∧ heap_only_at off;
}.

Lemma elem_snoc (x y : Z) l : x ∈ l ++ [y] ↔ x ∈ l ∨ x = y.
Proof. by rewrite elem_of_app, list_elem_of_singleton. Qed.

Lemma rev_elem (x : Z) l : x ∈ rev l ↔ x ∈ l.
Proof. by rewrite <- Permutation_rev. Qed.

Lemma nodup_snoc (x : Z) l : NoDup l → x ∉ l → NoDup (l ++ [x]).
Proof. intros Hn Hx. apply NoDup_app. split_and!; [done| |apply NoDup_singleton]. by intros y Hy ->%list_elem_of_singleton. Qed.

(** A line without a tuple to look at. *)
Lemma scan_nothing V s s' off : scan_inv V s → off ∉ V → look off = Nothing →
  recorded s s' [] [] [] [off] ∨ recorded s s' [] [] [off] [off] → scan_inv (V ++ [off]) s'.
Proof.
  intros [H1 H2 H3 H4 H5 H6 H7 H8] Hv Hl He.
  assert (Hx : ∃ uu, recorded s s' [] [] uu [off] ∧ (uu = [] ∨ uu = [off])) by (destruct He; eauto).
  destruct Hx as (uu & Hx & Huu). pose proof (touched_recorded _ _ _ _ _ _ Hx) as Ht. cbn [fmap list_fmap app] in Ht.
  destruct Hx as [_ Eh Er Eo Erd _ _ Ep]. constructor.
  - intros o t [Ho| ->]%elem_snoc E; [rewrite Eh; auto|congruence].
  - intros o. rewrite Ep, H2, elem_snoc, list_elem_of_singleton. split; [intros [->|[? ?]]; auto|intros [[?| ->] ?]; auto].
  - by rewrite Erd, H3.
  - rewrite Ht. destruct Huu as [-> | ->]; [done|]. apply NoDup_cons. split; [|done]. by intros [? _]%H5.
  - intros o. rewrite Ht, elem_snoc. destruct Huu as [-> | ->]; cbn [app]; [intros [? ?]%H5; auto|]. intros [->|[? ?]%H5]%elem_of_cons; auto.
  - by rewrite Er.
  - intros o. rewrite Er, H7, elem_snoc. split; [intros [? ?]; auto|]. intros [[?| ->] Hr]; [auto|]. unfold is_root in Hr. by rewrite Hl in Hr.
  - intros o. rewrite Eo, H8, elem_snoc. split; [intros [? ?]; auto|]. intros [[?| ->] (t & Ht' & Hho)]; [split; [done|by exists t]|congruence].
Qed.

(** A line with a tuple. *)
Lemma scan_tuple V s off t roots heaponly : scan_inv V s → off ∉ V → look off = Member t → NoDup roots →
  (∀ o, o ∈ roots ↔ o ∈ root_items s ∨ (o = off ∧ HeapTupleIsHeapOnly t = false)) →
  (∀ o, o ∈ heaponly ↔ o ∈ heaponly_items s ∨ (o = off ∧ HeapTupleIsHeapOnly t = true)) →
  scan_inv (V ++ [off]) (set_queues roots heaponly (set_htsv off (status off t) s)).
Proof.
  intros [H1 H2 H3 H4 H5 H6 H7 H8] Hv HM Hnd Hroots Hheap. constructor; cbn [set_htsv set_queues htsv processed redirected root_items heaponly_items].
  - intros o t' Ho E. destruct (decide (o = off)) as [->|Hne]; [rewrite lookup_insert_eq; by replace t' with t by congruence|].
    rewrite lookup_insert_ne by done. apply elem_snoc in Ho as [?|?]; [auto|done].
  - intros o. rewrite H2, elem_snoc. split; [intros [? ?]; auto|]. intros [[?| ->] ?]; [auto|congruence].
  - done.
  - done.
  - intros o [? ?]%H5. rewrite elem_snoc. auto.
  - done.
  - intros o. rewrite Hroots, H7, elem_snoc. unfold is_root. split.
    + intros [[? ?]|[-> E]]; [auto|]. rewrite HM, E. auto.
    + intros [[?| ->] E]; [auto|]. rewrite HM in E. right. split; [done|]. by destruct (HeapTupleIsHeapOnly t).
  - intros o. rewrite Hheap, H8, elem_snoc. split.
    + intros [[? ?]|[-> E]]; [auto|]. split; [auto|by exists t].
    + intros [[?| ->] (t' & Ht' & Ho)]; [left; split; [done|by exists t']|]. right. split; [done|]. by replace t with t' by congruence.
Qed.

Lemma scan_item_run V s off : scan_inv V s → off ∉ V → 1 ≤ off ≤ maxoff →
  ∃ s', scan_item horizon removable cutoffs blockno p s off = Ok s' ∧ scan_inv (V ++ [off]) s'.
Proof.
  intros Hi Hv Hr. unfold scan_item.
  destruct (line_at_read p off (heap_page_searchable p Hp)) as (lp & Hlp & HL).
  { unfold FirstOffsetNumber. destruct (Z.ltb_spec off 1), (Z.ltb_spec maxoff off); try done; lia. }
  assert (Hfl : 0 ≤ lp_flags lp ≤ 3).
  { rewrite Forall_forall in Hflags. apply Hflags. unfold PageGetItemId in Hlp. destruct (off <? 1); [done|].
    destruct (pd_linp p !! _) eqn:E in Hlp; [|done]. injection Hlp as ->. by eapply list_elem_of_lookup_2. }
  rewrite Hlp. rsimpl. unfold ItemIdIsUsed, ItemIdIsDead, ItemIdIsRedirected, ItemIdIsNormal, LP_UNUSED, LP_DEAD, LP_NORMAL, LP_REDIRECT in *.
  destruct (Z.eqb_spec (lp_flags lp) 0) as [E0|E0]; cbn [negb].
  { eexists. split; [done|]. rewrite E0 in HL. eapply scan_nothing; [done|done| |].
    - destruct (look off); [done|by destruct HL as (_ & ? & _)|by destruct HL].
    - left. solve_recorded. }
  destruct (Z.eqb_spec (lp_flags lp) 3) as [E3|E3].
  { eexists. split; [done|]. rewrite E3 in HL. eapply scan_nothing; [done|done| |].
    - destruct (look off); [done|by destruct HL as (_ & ? & _)|by destruct HL].
    - destruct (mark_unused_now s); [right; apply recorded_unused|left; solve_recorded]. }
  destruct Hi as [H1 H2 H3 H4 H5 H6 H7 H8].
  destruct (Z.eqb_spec (lp_flags lp) 2) as [E2|E2].
  { assert (HR : ∃ to, look off = Redirect to).
    { rewrite E2 in HL. destruct (look off) as [|to|t]; [by destruct HL|by eexists|by destruct HL]. }
    destruct HR as [to HR]. eexists. split; [done|]. constructor; cbn [set_queues htsv processed redirected root_items heaponly_items]; try done.
    - intros o t [Ho| ->]%elem_snoc E; [auto|congruence].
    - intros o. rewrite H2, elem_snoc. split; [intros [? ?]; auto|]. intros [[?| ->] ?]; [auto|congruence].
    - intros o [? ?]%H5. rewrite elem_snoc. auto.
    - apply nodup_snoc; [done|]. by intros [? _]%H7.
    - intros o. rewrite !elem_snoc, H7. split; [|tauto]. intros [[? ?]| ->]; [auto|]. split; [auto|]. unfold is_root. by rewrite HR.
    - intros o. rewrite H8, elem_snoc. split; [intros [? ?]; auto|]. intros [[?| ->] (t & Ht' & Ho)]; [split; [done|by exists t]|congruence]. }
  assert (HM : ∃ t, look off = Member t ∧ PageGetItem p lp = Ok t).
  { assert (lp_flags lp = 1) as E1 by lia. rewrite E1 in HL. destruct (look off) as [|to|t]; [by destruct HL|by destruct HL|]. exists t. by destruct HL. }
  destruct HM as (t & HM & Hit). rewrite Hit. rsimpl. eexists. split; [done|].
  destruct (HeapTupleIsHeapOnly t) eqn:Eo; cbn [negb]; (eapply scan_tuple; [by constructor|done|done|..]);
    cbn [set_htsv root_items heaponly_items]; rewrite ?Eo.
  - done.
  - intros o. split; [by left|]. by intros [?|[_ ?]].
  - intros o. rewrite elem_snoc. split; [intros [?| ->]; auto|]. intros [?|[-> _]]; auto.
  - apply nodup_snoc; [done|]. by intros [? _]%H7.
  - intros o. rewrite elem_snoc. split; [intros [?| ->]; auto|]. intros [?|[-> _]]; auto.
  - intros o. split; [by left|]. by intros [?|[_ ?]].
Qed.

Lemma scan_items_run offs V s : scan_inv V s → NoDup (V ++ offs) → Forall (λ off, 1 ≤ off ≤ maxoff) offs →
  ∃ s', fold_result (scan_item horizon removable cutoffs blockno p) s offs = Ok s' ∧ scan_inv (V ++ offs) s'.
Proof.
  revert V s. induction offs as [|off offs IH]; intros V s Hi Hnd HF; [rewrite app_nil_r; by exists s|]. inversion HF; subst. cbn [fold_result].
  destruct (scan_item_run V s off Hi) as (s1 & -> & Hi1); [|done|].
  { apply NoDup_app in Hnd as (_ & Hn & _). intros Hin. apply (Hn off Hin), list_elem_of_here. }
  rsimpl. destruct (IH (V ++ [off]) s1 Hi1) as (s2 & -> & Hi2); [by rewrite <- app_assoc|done|]. exists s2. split; [done|]. by rewrite <- app_assoc in Hi2.
Qed.

Lemma offsets_down_elem n off : off ∈ offsets_down n ↔ 1 ≤ off ≤ n.
Proof.
  unfold offsets_down. rewrite list_elem_of_fmap. split.
  - intros (i & -> & Hi%elem_of_seq). lia.
  - intros Ho. exists (Z.to_nat (n - off)). split; [lia|]. apply elem_of_seq. lia.
Qed.

Lemma offsets_down_nodup n : NoDup (offsets_down n).
Proof. unfold offsets_down. apply NoDup_fmap_2; [intros x y ?; lia|apply NoDup_seq]. Qed.

(** The plan of a page: every tuple is looked at, or the page has a stray tuple. *)
Lemma prune_plan_run mark : chains_apart upd p →
  (∃ s D L, prune_plan upd horizon committed removable cutoffs mark blockno p = Ok s ∧ plan_inv upd p status D L s ∧
     (∀ r, r ∈ D ↔ is_root look r = true) ∧ (∀ off, off ∈ L ↔ heap_only_at off)) ∨
  (prune_plan upd horizon committed removable cutoffs mark blockno p = Err unlinked ∧ ∃ off, stray upd p status off).
Proof.
  intros Hap. unfold prune_plan.
  set (s0 := mkPruneState mark _ _ _ _ _ _ _ _ _ _ _ _ _ _).
  assert (H0 : scan_inv [] s0).
  { assert (Hem : ∀ (P : Z → Prop) o, o ∈ ([] : list Z) ↔ o ∈ ([] : list Z) ∧ P o) by (intros; split; [by intros ?%elem_of_nil|by intros [? _]]).
    constructor; [by intros ? ? ?%elem_of_nil| |done|apply NoDup_nil_2|by intros ? ?%elem_of_nil|apply NoDup_nil_2|exact (Hem (λ o, is_root look o = true))|exact (Hem heap_only_at)].
    intros o. split; [by intros ?%elem_of_empty|by intros [?%elem_of_nil _]]. }
  destruct (scan_items_run (offsets_down maxoff) [] s0 H0) as (s1 & -> & Hi1).
  { apply offsets_down_nodup. }
  { apply Forall_forall. intros off. apply offsets_down_elem. }
  rsimpl. cbn [app] in Hi1. destruct Hi1 as [H1 H2 H3 H4 H5 H6 H7 H8].
  assert (Hin : ∀ off t, look off = Member t → off ∈ offsets_down maxoff) by (intros off t E; apply offsets_down_elem; by eapply line_at_range).
  assert (Hrt : ∀ off, is_root look off = true → off ∈ offsets_down maxoff).
  { intros off Hr. by apply offsets_down_elem, root_range. }
  assert (Hplan : plan_inv upd p status [] [] s1).
  { constructor; try (by intros ? ? ?%elem_of_nil); try (by intros ? ?%elem_of_nil).
    - constructor; [intros; apply H1; eauto|]. intros off Hr Hl. apply H2. split; [by apply offsets_down_elem|done].
    - intros off [_ Hn]%H2. by left.
    - intros off [Ho _]%H2. by apply offsets_down_elem.
    - intros off Ht. apply H2. by apply H5.
    - done.
    - rewrite H3. by intros f ?%elem_of_nil.
    - intros off t [_ Hn]%H2 E. congruence. }
  destruct (prune_roots_run upd committed p Hp status Hap (rev (root_items s1)) [] s1 Hplan) as (s2 & -> & Hi2 & Hq).
  { constructor. }
  { apply Forall_forall. intros r Hr. rewrite rev_elem in Hr. by apply H7. }
  { rewrite app_nil_r. rewrite <- Permutation_rev. done. }
  rsimpl. rewrite rev_involutive, app_nil_r in Hi2. rewrite Hq.
  destruct (prune_heaponlys_run upd committed p Hp status (rev (heaponly_items s1)) (root_items s1) [] s2 Hi2) as [(s3 & -> & Hi3)|[-> [off Hst]]].
  { apply Forall_forall. intros off Ho. rewrite rev_elem in Ho. by apply H8. }
  - left. exists s3, (root_items s1), (rev (rev (heaponly_items s1)) ++ []). split_and!; [done|done| |].
    + intros r. rewrite H7. split; [by intros [_ ?]|auto].
    + intros off. rewrite rev_involutive, app_nil_r, H8. split; [by intros [_ ?]|]. intros (t & Ht & Ho). split; [eauto|by exists t].
  - right. split; [done|]. exists off. eapply stray_all; [|done]. intros r. rewrite H7. split; [by intros [_ ?]|auto].
Qed.
End scan.
