(* ===== verification/PruneSearch.v ===== *)
(** Executing a plan of pruning on the line pointers, and the search of HOT chains on the
    pruned page: a page keeps for every item pointer the version a snapshot sees. *)

From S2P Require Import Prelude Xid Bufpage Itup Compact PageOps HeapPage HotChain HeapPrune HotPrune PrunePage.

(** * Changing line pointers *)

Section lines.
Context {A Sp : Type}.
Abbreviation Tuple := (@HeapTupleHeaderData A).
Implicit Types (p : Page Tuple Sp) (l : list (Z * ItemIdData)).

Lemma set_lines_app p l l' : set_lines p (l ++ l') = (p1 ← set_lines p l; set_lines p1 l').
Proof. revert p. induction l as [|[off lp] l IH]; intros p; [done|]. cbn. destruct (set_line p off lp); [|done]. rsimpl. apply IH. Qed.

(** [p'] is [p] with other line pointers. *)
Record relined p p' : Prop := {
  rl_flags : pd_flags p' = pd_flags p;
  rl_lower : pd_lower p' = pd_lower p;
  rl_upper : pd_upper p' = pd_upper p;
  rl_special : pd_special p' = pd_special p;
  rl_version : pd_pagesize_version p' = pd_pagesize_version p;
  rl_length : length (pd_linp p') = length (pd_linp p);
  rl_mem : pd_mem p' = pd_mem p;
  rl_sp : pd_sp p' = pd_sp p;
}.

Lemma set_lines_run l p : Forall (λ x, 1 ≤ x.1 ≤ zlen (pd_linp p)) l → NoDup l.*1 →
  ∃ p', set_lines p l = Ok p' ∧ relined p p' ∧
    (∀ off lp, (off, lp) ∈ l → pd_linp p' !! Z.to_nat (off - 1) = Some lp) ∧
    (∀ off, 1 ≤ off → off ∉ l.*1 → pd_linp p' !! Z.to_nat (off - 1) = pd_linp p !! Z.to_nat (off - 1)).
Proof.
  intros HF Hnd. revert p HF. induction l as [|[off lp] l IH]; intros p HF.
  { exists p. split_and!; [done|by constructor|by intros ? ? ?%elem_of_nil|done]. }
  inversion HF as [|? ? Hr HF']; subst. cbn in Hr, Hnd. apply NoDup_cons in Hnd as [Hn Hnd]. cbn [set_lines]. unfold set_line, PageGetItemId.
  destruct (Z.ltb_spec off 1); [lia|]. destruct (lookup_lt_is_Some_2 (pd_linp p) (Z.to_nat (off - 1))) as [a Ha]; [unfold zlen in Hr; lia|].
  rewrite Ha. rsimpl. match goal with |- context [set_lines ?q l] => set (p1 := q) end.
  destruct (IH Hnd p1) as (p' & -> & [] & Hin & Hout).
  { unfold p1, zlen in *. cbn. by rewrite length_insert. }
  exists p'. split; [done|]. split; [constructor; try done; unfold p1 in *; cbn in *; by rewrite length_insert in rl_length0|]. split.
  - intros o x [[= -> ->]|Ho]%elem_of_cons; [|by apply Hin]. rewrite Hout by done. unfold p1. cbn. apply list_lookup_insert_eq. by eapply lookup_lt_Some.
  - intros o Ho Hno. cbn in Hno. apply not_elem_of_cons in Hno as [Hne Hno]. rewrite Hout by done. unfold p1. cbn. apply list_lookup_insert_ne. lia.
Qed.

(** The line pointers a plan sets. *)
Definition changes (rd : list (Z * Z)) (dd uu : list Z) : list (Z * ItemIdData) :=
  map (λ r, (r.1, ItemIdSetRedirect r.2)) rd ++ map (λ off, (off, ItemIdSetDead)) dd ++ map (λ off, (off, ItemIdSetUnused)) uu.

Lemma changes_fst rd dd uu : (changes rd dd uu).*1 = rd.*1 ++ dd ++ uu.
Proof.
  unfold changes. rewrite !fmap_app. f_equal; [|f_equal]; rewrite <- list_fmap_compose; [done|rewrite <- (list_fmap_id dd) at 2; done|].
  by rewrite <- (list_fmap_id uu) at 2.
Qed.

Lemma changes_elem rd dd uu off lp : (off, lp) ∈ changes rd dd uu →
  (∃ to, (off, to) ∈ rd ∧ lp = ItemIdSetRedirect to) ∨ (off ∈ dd ∧ lp = ItemIdSetDead) ∨ (off ∈ uu ∧ lp = ItemIdSetUnused).
Proof.
  unfold changes. rewrite !elem_of_app. intros [H|[H|H]]; apply list_elem_of_fmap in H as (x & [= -> ->] & Hx); [left|right; left; done|right; right; done].
  destruct x as [f to]. by exists to.
Qed.

Lemma execute_lines p only rd dd uu :
  heap_page_prune_execute p only rd dd uu =
  (p1 ← set_lines p (changes rd dd uu); if only then Ok (PageTruncateLinePointerArray p1) else PageRepairFragmentation p1).
Proof.
  unfold heap_page_prune_execute, changes. rewrite set_lines_app.
  destruct (set_lines p (map (λ r, (r.1, ItemIdSetRedirect r.2)) rd)) as [p1|]; [|done]. rsimpl. rewrite set_lines_app.
  by destruct (set_lines p1 _).
Qed.
End lines.

(** * The lines of the planned page *)

Section planned.
Context {A Sp : Type}.
Abbreviation Tuple := (@HeapTupleHeaderData A).
Context (p p1 : Page Tuple Sp) (Hp : heap_page p) (Hflags : Forall (λ a, 0 ≤ lp_flags a ≤ 3) (pd_linp p)).
Context (rd : list (Z * Z)) (dd uu : list Z) (Hnd : NoDup (rd.*1 ++ dd ++ uu)).
Context (Hrange : ∀ o, o ∈ rd.*1 ++ dd ++ uu → 1 ≤ o ≤ PageGetMaxOffsetNumber p).
Context (Hset : set_lines p (changes rd dd uu) = Ok p1).

Lemma planned_relined : relined p p1 ∧
  (∀ off lp, (off, lp) ∈ changes rd dd uu → pd_linp p1 !! Z.to_nat (off - 1) = Some lp) ∧
  (∀ off, 1 ≤ off → off ∉ rd.*1 ++ dd ++ uu → pd_linp p1 !! Z.to_nat (off - 1) = pd_linp p !! Z.to_nat (off - 1)).
Proof.
  destruct (heap_max p (hg_ok _ Hp)) as (Hm & _).
  destruct (set_lines_run (changes rd dd uu) p) as (p' & E & H1 & H2 & H3).
  - apply Forall_forall. intros x Hx. rewrite <- Hm. apply Hrange. rewrite <- changes_fst. by apply list_elem_of_fmap_2.
  - by rewrite changes_fst.
  - rewrite Hset in E. injection E as <-. by rewrite changes_fst in H3.
Qed.

(** A line pointer of the new page is new, without storage, or the old one. *)
Lemma planned_line i a : pd_linp p1 !! i = Some a →
  (ItemIdHasStorage a = false ∧ ItemIdIsNormal a = false ∧ 0 ≤ lp_flags a ≤ 3) ∨ pd_linp p !! i = Some a.
Proof.
  destruct planned_relined as (_ & Hin & Hout). intros Ha. destruct (decide (Z.of_nat i + 1 ∈ rd.*1 ++ dd ++ uu)) as [Hc|Hc].
  - left. rewrite <- changes_fst in Hc. apply list_elem_of_fmap in Hc as ([o lp] & Ho & Hc). cbn in Ho. pose proof (Hin o lp Hc) as E.
    rewrite <- Ho in E. replace (Z.to_nat (Z.of_nat i + 1 - 1)) with i in E by lia. assert (a = lp) as -> by congruence.
    by destruct (changes_elem _ _ _ _ _ Hc) as [(to & _ & ->)|[[_ ->]|[_ ->]]].
  - right. pose proof (Hout (Z.of_nat i + 1) ltac:(lia) Hc) as E. replace (Z.to_nat (Z.of_nat i + 1 - 1)) with i in E by lia. congruence.
Qed.

Lemma planned_flags : Forall (λ a, 0 ≤ lp_flags a ≤ 3) (pd_linp p1).
Proof.
  apply Forall_lookup. intros i a [(_ & _ & ?)|Ha]%planned_line; [done|]. rewrite Forall_lookup in Hflags. eauto.
Qed.

Lemma planned_ok : heap_ok p1.
Proof.
  destruct (hg_ok _ Hp) as [Hl Hf Hs Hst Hu]. destruct planned_relined as [[] _]. constructor.
  - unfold zlen. by rewrite rl_lower0, rl_length0.
  - by rewrite rl_lower0, rl_upper0, rl_special0.
  - by rewrite rl_special0.
  - rewrite rl_upper0, rl_special0, rl_mem0. constructor; [| |apply (so_cells _ _ _ _ Hst)].
    + intros i a [(E & _ & _)|Ha]%planned_line; [congruence|]. by apply (so_at _ _ _ _ Hst i).
    + intros i j a b [(E & _ & _)|Ha]%planned_line [(E' & _ & _)|Hb]%planned_line; try congruence. by apply (so_apart _ _ _ _ Hst i j).
  - apply Forall_lookup. intros i a [(E & _ & _)|Ha]%planned_line; [done|]. rewrite Forall_lookup in Hu. eauto.
Qed.

(** The lines of the new page. *)
Lemma planned_redirect off to : (off, to) ∈ rd → line_at p1 off = Redirect to.
Proof.
  intros Ho. destruct planned_relined as (_ & Hin & _). rewrite line_at_lookup by apply planned_ok.
  assert (Hr : 1 ≤ off ≤ PageGetMaxOffsetNumber p) by (apply Hrange, elem_of_app; left; by apply (list_elem_of_fmap_2 fst _ _ Ho)).
  destruct (Z.ltb_spec off 1); [lia|]. rewrite (Hin off (ItemIdSetRedirect to)); [done|].
  unfold changes. rewrite elem_of_app. left. by apply (list_elem_of_fmap_2 (λ r, (r.1, ItemIdSetRedirect r.2)) _ _ Ho).
Qed.

Lemma planned_gone off : off ∈ dd ++ uu → line_at p1 off = Nothing.
Proof.
  intros Ho. destruct planned_relined as (_ & Hin & _). rewrite line_at_lookup by apply planned_ok.
  destruct (Z.ltb_spec off 1); [done|]. apply elem_of_app in Ho as [Ho|Ho].
  - rewrite (Hin off ItemIdSetDead); [done|]. unfold changes. rewrite !elem_of_app. right. left. by apply (list_elem_of_fmap_2 (λ o, (o, ItemIdSetDead)) _ _ Ho).
  - rewrite (Hin off ItemIdSetUnused); [done|]. unfold changes. rewrite !elem_of_app. right. right. by apply (list_elem_of_fmap_2 (λ o, (o, ItemIdSetUnused)) _ _ Ho).
Qed.

Lemma planned_same off : off ∉ rd.*1 ++ dd ++ uu → line_at p1 off = line_at p off.
Proof.
  intros Ho. destruct planned_relined as ([] & _ & Hout). rewrite !line_at_lookup by (apply planned_ok || apply Hp).
  destruct (Z.ltb_spec off 1); [done|]. by rewrite Hout, rl_mem0 by (lia || done).
Qed.

Lemma planned_becomes off : becomes (line_at p off) (line_at p1 off).
Proof.
  destruct (decide (off ∈ rd.*1 ++ dd ++ uu)) as [Hc|Hc]; [|left; by apply planned_same].
  apply elem_of_app in Hc as [([f to] & -> & Hr)%list_elem_of_fmap|Hg]; right; [right; exists to; by apply planned_redirect|left; by apply planned_gone].
Qed.

Lemma planned_member off t : line_at p1 off = Member t → line_at p off = Member t ∧ off ∉ rd.*1 ++ dd ++ uu.
Proof.
  intros E. destruct (planned_becomes off) as [H|[H|[o H]]]; [|congruence..]. split; [congruence|].
  intros [([f to] & -> & Hr)%list_elem_of_fmap|Hg]%elem_of_app.
  - cbn in E. rewrite (planned_redirect _ _ Hr) in E. done.
  - by rewrite (planned_gone _ Hg) in E.
Qed.

Lemma planned_page : heap_page p1.
Proof.
  constructor; [apply planned_ok| | |].
  - apply Forall_lookup. intros i a [(_ & E & _)|Ha]%planned_line Hn; [congruence|]. pose proof (hg_normal _ Hp) as HF. rewrite Forall_lookup in HF. eauto.
  - apply Forall_lookup. intros i a [(E & _ & _)|Ha]%planned_line Hn; [done|]. pose proof (hg_redirect _ Hp) as HF. rewrite Forall_lookup in HF. eauto.
  - destruct (hg_links _ Hp) as [rank Hk]. exists rank. intros off t [E _]%planned_member. by apply Hk.
Qed.
End planned.

(** * Searching the planned page *)

(** A heap page as pruning relies on it: chains are apart, and for the snapshot [vis] dead
    tuples are invisible, and so are the dying ones before a dead one in a chain. *)
Record prunable {A Sp} (upd : @HeapTupleHeaderData A → Z) (st : Z → @HeapTupleHeaderData A → HTSV_Result)
    (vis : ItemPointerData → @HeapTupleHeaderData A → bool) (blockno : Z) (p : Page (@HeapTupleHeaderData A) Sp) : Prop := {
  pb_page : heap_page p;
  pb_flags : Forall (λ a, 0 ≤ lp_flags a ≤ 3) (pd_linp p);
  pb_lines : zlen (pd_linp p) ≤ MaxHeapTuplesPerPage;
  pb_apart : chains_apart upd p;
  pb_dead : ∀ off t, line_at p off = Member t → is_dead st (off, t) → vis (ItemPointerSet blockno off) t = false;
  pb_dying : ∀ r pre m post, hot_chain upd (line_at p) r InvalidTransactionId true (pre ++ m :: post) → is_dead st m →
    Forall (is_dying st) pre → Forall (λ m, vis (ItemPointerSet blockno m.1) m.2 = false) pre;
}.

Section search.
Context {A Sp : Type}.
Abbreviation Tuple := (@HeapTupleHeaderData A).
Context (upd : Tuple → Z) (st : Z → Tuple → HTSV_Result) (vis : ItemPointerData → Tuple → bool) (dead : Tuple → bool) (blockno : Z).
Context (p : Page Tuple Sp) (Hp : prunable upd st vis blockno p).
Context (s : PruneState) (D L : list Z) (Hplan : plan_inv upd p st D L s).
Context (HD : ∀ r, r ∈ D ↔ is_root (line_at p) r = true) (HL : ∀ off, off ∈ L ↔ heap_only_at p off).
Context (p1 : Page Tuple Sp) (Hset : set_lines p (changes (redirected s) (nowdead s) (nowunused s)) = Ok p1).
Abbreviation look := (line_at p).
Abbreviation look' := (line_at p1).
Abbreviation Chain r ms := (hot_chain upd look r InvalidTransactionId true ms).
Abbreviation Chain' r ms := (hot_chain upd look' r InvalidTransactionId true ms).
Implicit Types ms : list (Z * Tuple).

Lemma plan_in_range o : o ∈ (redirected s).*1 ++ nowdead s ++ nowunused s → 1 ≤ o ≤ PageGetMaxOffsetNumber p.
Proof. intros Ho. by apply (pi_range _ _ _ _ _ _ Hplan), (pi_touched _ _ _ _ _ _ Hplan). Qed.

Abbreviation planned lem := (lem p p1 (pb_page _ _ _ _ _ Hp) (redirected s) (nowdead s) (nowunused s) (pi_nodup _ _ _ _ _ _ Hplan) plan_in_range Hset).

(** What becomes of a member that its own chain keeps. *)
Lemma member_fate r ms m : is_root look r = true → Chain r ms → m ∈ ms → m.1 ∉ items p st r ms ∨ m.1 ∉ touched s →
  look' m.1 = look m.1 ∨ (look' m.1 = Nothing ∧ is_dead st m ∧ HeapTupleIsHotUpdated m.2 = false).
Proof.
  intros Hr Hc Hm Hor. destruct (decide (m.1 ∈ touched s)) as [Ht|Ht]; [|left; by apply (planned planned_same)].
  destruct Hor as [Hni|?]; [|done]. assert (Hl : look m.1 = Member m.2).
  { pose proof (chain_members _ _ _ _ _ _ Hc) as HF. rewrite Forall_forall in HF. by apply HF. }
  assert (Hitems : ¬ ∃ r' ms', r' ∈ D ∧ Chain r' ms' ∧ m.1 ∈ items p st r' ms').
  { intros (r' & ms' & Hr' & Hc' & Hi). destruct (decide (r' = r)) as [->|Hne].
    - by rewrite (hot_chain_det _ _ _ _ _ _ _ Hc' Hc) in Hi.
    - eapply (items_apart upd p st (pb_apart _ _ _ _ _ Hp) r' r ms' ms m.1); try done; [by apply HD|right; by apply list_elem_of_fmap_2]. }
  destruct (pi_processed _ _ _ _ _ _ Hplan _ (pi_touched _ _ _ _ _ _ Hplan _ Ht)) as [Hn|[?|Hlo]]; [congruence|done|].
  destruct (pi_loose _ _ _ _ _ _ Hplan _ Hlo) as [_ Hdrop]. destruct (Hdrop Ht) as [?|(t & Hl' & Hd & Hu)]; [done|].
  assert (t = m.2) as -> by congruence. right. split; [|by destruct m].
  apply (planned planned_gone). unfold touched in Ht. apply elem_of_app in Ht as [Hf|?]; [|done]. exfalso.
  pose proof (pi_roots _ _ _ _ _ _ Hplan _ Hf) as Hroot. apply HL in Hlo as (t & Hl'' & Ho). unfold is_root in Hroot. rewrite Hl'', Ho in Hroot. done.
Qed.

(** The chain of a root after pruning is a stretch of the chain before, and nothing the
    snapshot sees was cut off. *)
Definition stretch ms ms' : Prop :=
  ∃ pre post, ms = pre ++ ms' ++ post ∧ Forall (λ m, vis (ItemPointerSet blockno m.1) m.2 = false) pre ∧
    Forall (λ m, vis (ItemPointerSet blockno m.1) m.2 = false) post.

Lemma stretch_visible ms ms' : stretch ms ms' → first_visible vis blockno ms' = first_visible vis blockno ms.
Proof.
  intros (pre & post & -> & Hpre & Hpost). unfold first_visible.
  assert (HF : ∀ l l', Forall (λ m, vis (ItemPointerSet blockno m.1) m.2 = false) l →
    List.find (λ m : Z * Tuple, vis (ItemPointerSet blockno m.1) m.2) (l ++ l') = List.find (λ m : Z * Tuple, vis (ItemPointerSet blockno m.1) m.2) l').
  { intros l l' HF. induction HF as [|m l Hm _ IH]; [done|]. cbn. by rewrite Hm. }
  rewrite HF by done. clear -Hpost HF. induction ms' as [|m ms' IH]; cbn.
  - specialize (HF post [] Hpost). rewrite app_nil_r in HF. by rewrite HF.
  - by rewrite IH.
Qed.

Lemma dead_invisible r ms pre ms' post : Chain r ms → ms = pre ++ ms' ++ post → Forall (is_dead st) post →
  Forall (λ m, vis (ItemPointerSet blockno m.1) m.2 = false) post.
Proof.
  intros Hc%chain_members -> Hd. rewrite Forall_forall in *. intros m Hm. apply (pb_dead _ _ _ _ _ Hp).
  - apply Hc. rewrite !elem_of_app. auto.
  - by destruct m; apply (Hd _ Hm).
Qed.

Lemma dying_invisible r ms pre' m rest : Chain r ms → ms = (pre' ++ [m]) ++ rest → is_dead st m → Forall (is_dying st) (pre' ++ [m]) →
  Forall (λ m, vis (ItemPointerSet blockno m.1) m.2 = false) (pre' ++ [m]).
Proof.
  intros Hc -> Hm [Hy _]%Forall_app. apply Forall_app. rewrite <- app_assoc in Hc. split.
  - by eapply (pb_dying _ _ _ _ _ Hp).
  - constructor; [|done]. pose proof (chain_members _ _ _ _ _ _ Hc) as HF. rewrite Forall_forall in HF.
    apply (pb_dead _ _ _ _ _ Hp); [|by destruct m]. apply HF. rewrite elem_of_app. right. apply list_elem_of_here.
Qed.

(** The rest of a chain, from a member that was not touched. *)
Lemma rest_chain r ms pre rest off xmax : is_root look r = true → Chain r ms → ms = pre ++ rest →
  hot_chain upd look off xmax false rest → (∀ m, m ∈ rest → m.1 ∉ items p st r ms ∨ m.1 ∉ touched s) →
  Forall (λ m, vis (ItemPointerSet blockno m.1) m.2 = false) pre →
  ∃ ms', hot_chain upd look' off xmax false ms' ∧ stretch ms ms'.
Proof.
  intros Hr Hc Hms Hrest Hfate Hpre.
  destruct (kept_chain upd st look look' off xmax rest Hrest) as (ms' & post & Hc' & -> & Hdead).
  - apply (planned planned_becomes).
  - apply Forall_forall. intros m Hm. eapply member_fate; [done|done|rewrite Hms, elem_of_app; by right|auto].
  - exists ms'. split; [done|]. exists pre, post. split_and!; [done|done|]. by eapply dead_invisible.
Qed.

Lemma beyond_walk r ms ws rest m : Chain r ms → ms = ws ++ rest → walk st ms = ws → m ∈ rest →
  m.1 ∉ items p st r ms.
Proof.
  intros Hc Hms Hw Hm Hi. destruct (hot_chain_bounds upd p r ms (heap_page_searchable p (pb_page _ _ _ _ _ Hp)) Hc) as [Hnd _].
  assert (Hin : m.1 ∈ ws.*1).
  { unfold items in Hi. rewrite Hw in Hi. destruct (look r) as [|o|t] eqn:E; [done| |done]. apply elem_of_cons in Hi as [Hi|?]; [|done].
    pose proof (chain_members _ _ _ _ _ _ Hc) as HF. rewrite Forall_forall in HF. specialize (HF m). rewrite Hi, E in HF.
    discriminate HF. rewrite Hms, elem_of_app. by right. }
  rewrite Hms, fmap_app in Hnd. apply NoDup_app in Hnd as (_ & Hn & _). apply (Hn m.1 Hin). by apply list_elem_of_fmap_2.
Qed.

Lemma root_stretch r ms : is_root look r = true → Chain r ms → ∃ ms', Chain' r ms' ∧ stretch ms ms'.
Proof.
  intros Hr Hc. destruct (pi_done _ _ _ _ _ _ Hplan r ms (proj2 (HD r) Hr) Hc) as [_ (pre & post & Hw & Hk & Hy & Hcase)].
  destruct (walk_prefix st ms) as [rest Hms]. rewrite Hw in Hms.
  destruct Hcase as [(-> & Hne & Ht)|[(-> & Hl & Hg)|(pre' & m & to & t & post' & -> & Hm & -> & Hrd & Ht)]].
  - assert (Hfate : ∀ m, m ∈ ms → m.1 ∉ items p st r ms ∨ m.1 ∉ touched s).
    { intros m Hm. destruct (decide (m.1 ∈ items p st r ms)); [right; auto|by left]. }
    assert (Hsame : look' r = look r).
    { apply (planned planned_same). destruct (root_items_head upd p st r ms Hr Hc) as [tl Htl]. apply Ht. rewrite Htl. apply list_elem_of_here. }
    unfold is_root in Hr. destruct (look r) as [|to|t] eqn:E; [done| |].
    + destruct (rest_chain r ms [] ms to InvalidTransactionId) as (ms' & Hc' & Hst); try done; [by unfold is_root; rewrite E|by eapply root_redirect|].
      exists ms'. split; [by eapply hc_redirect|done].
    + assert (Ho : HeapTupleIsHeapOnly t = false) by (by destruct (HeapTupleIsHeapOnly t)).
      destruct (rest_chain r ms [] ms r InvalidTransactionId) as (ms' & Hc' & Hst); try done; [by unfold is_root; rewrite E, Ho|by eapply root_member|].
      exists ms'. split; [by eapply member_root|done].
  - exists []. split; [apply hc_nothing; by apply (planned planned_gone)|]. exists ms, []. split_and!; [by rewrite !app_nil_r| |done].
    destruct Hl as [->|(pre' & m & -> & Hm)]; [done|]. rewrite app_nil_r in Hw. rewrite Forall_app in Hy. destruct Hy as [Hy Hy'].
    rewrite <- (walk_all st ms pre' m Hw (Forall_inv Hy')), Hw. eapply (dying_invisible r ms pre' m []); [done| |done|by apply Forall_app].
    rewrite app_nil_r, <- Hw. symmetry. by eapply walk_all; [|exact (Forall_inv Hy')].
  - destruct (rest_chain r ms (pre' ++ [m]) (((to, t) :: post') ++ rest) to InvalidTransactionId) as (ms' & Hc' & Hst); try done.
    + by rewrite Hms, app_assoc.
    + eapply hot_chain_suffix; [exact Hc|]. rewrite Hms, <- app_assoc. done.
    + intros x [Hx|Hx]%elem_of_app; [right; apply Ht; by apply list_elem_of_fmap_2|left]. by eapply (beyond_walk r ms).
    + eapply dying_invisible; [done| |done|done]. by rewrite Hms, <- app_assoc.
    + exists ms'. split; [|done]. eapply hc_redirect; [by apply (planned planned_redirect)|done].
Qed.

(** From every offset the search sees a stretch of the chain. *)
Lemma pruned_stretch off ms : Chain off ms → ∃ ms', Chain' off ms' ∧ stretch ms ms'.
Proof.
  intros Hc. destruct (is_root look off) eqn:Er; [by apply root_stretch|]. exists [].
  assert (Hnr : ∀ o, look' off ≠ Redirect o).
  { intros o. destruct (decide (off ∈ (redirected s).*1)) as [Hin|Hin]; [by rewrite (pi_roots _ _ _ _ _ _ Hplan _ Hin) in Er|].
    destruct (decide (off ∈ nowdead s ++ nowunused s)) as [Hg|Hg]; [by rewrite (planned planned_gone _ Hg)|].
    rewrite (planned planned_same) by (rewrite elem_of_app; tauto). intros E. unfold is_root in Er. by rewrite E in Er. }
  assert (Hst : stretch [] []) by (exists [], []; done).
  unfold is_root in Er. destruct (look off) as [|o|t] eqn:E; [|done|].
  - assert (ms = []) as -> by (by inversion Hc; subst; congruence). split; [|done]. apply hc_nothing.
    destruct (planned planned_becomes off) as [H|[H|[o H]]]; [congruence|done|]. by destruct (Hnr o).
  - assert (Ho : HeapTupleIsHeapOnly t = true) by (by destruct (HeapTupleIsHeapOnly t)).
    assert (ms = []) as ->.
    { inversion Hc; subst; try congruence; match goal with H : look off = Member ?u |- _ => assert (u = t) as -> by congruence end; by rewrite Ho in *. }
    split; [|done]. destruct (planned planned_becomes off) as [H|[H|[o H]]]; [eapply hc_heap_only; [by rewrite H|done]|by apply hc_nothing|]. by destruct (Hnr o).
Qed.

(** No dead tuple is left. *)
Lemma pruned_no_dead off t : look' off = Member t → ¬ is_dead st (off, t).
Proof.
  intros [Hl Hnt]%(planned planned_member). assert (Hpr : off ∈ processed s).
  { destruct (HeapTupleIsHeapOnly t) eqn:Eo; [apply (pi_loose _ _ _ _ _ _ Hplan), HL; by exists t|].
    assert (Hr : is_root look off = true) by (unfold is_root; by rewrite Hl, Eo).
    destruct (hot_chain_search upd p off (heap_page_searchable p (pb_page _ _ _ _ _ Hp))) as (ms & Hc & _).
    destruct (pi_done _ _ _ _ _ _ Hplan off ms (proj2 (HD off) Hr) Hc) as [Hi _]. apply Hi.
    destruct (root_items_head upd p st off ms Hr Hc) as [tl ->]. apply list_elem_of_here. }
  by destruct (pi_dead _ _ _ _ _ _ Hplan off t Hpr Hl).
Qed.

Lemma planned_prunable : prunable upd st vis blockno p1.
Proof.
  assert (Hpg : heap_page p1) by apply (planned planned_page). constructor.
  - done.
  - eapply planned_flags; [apply Hp|apply Hp|apply (pi_nodup _ _ _ _ _ _ Hplan)|apply plan_in_range|exact Hset].
  - destruct (planned planned_relined) as ([] & _). unfold zlen. rewrite rl_length0. apply Hp.
  - intros r1 r2 ms1 ms2 H1 H2 Hne o.
    destruct (hot_chain_search upd p r1 (heap_page_searchable p (pb_page _ _ _ _ _ Hp))) as (m1 & Hc1 & _),
      (hot_chain_search upd p r2 (heap_page_searchable p (pb_page _ _ _ _ _ Hp))) as (m2 & Hc2 & _).
    destruct (pruned_stretch r1 m1 Hc1) as (m1' & Hc1' & pre1 & post1 & E1 & _), (pruned_stretch r2 m2 Hc2) as (m2' & Hc2' & pre2 & post2 & E2 & _).
    rewrite (hot_chain_det _ _ _ _ _ _ _ H1 Hc1'), (hot_chain_det _ _ _ _ _ _ _ H2 Hc2'). intros Ho1 Ho2.
    eapply (pb_apart _ _ _ _ _ Hp r1 r2 m1 m2 Hc1 Hc2 Hne o); subst; rewrite !fmap_app, !elem_of_app; auto.
  - intros off t [Hl _]%(planned planned_member). by apply (pb_dead _ _ _ _ _ Hp).
  - intros r pre m post Hc Hm. pose proof (chain_members _ _ _ _ _ _ Hc) as HF. rewrite Forall_forall in HF. exfalso.
    eapply (pruned_no_dead m.1 m.2); [|by destruct m]. apply HF. rewrite elem_of_app. right. apply list_elem_of_here.
Qed.
End search.

(** * The whole operation *)

Section whole.
Context {A Sp : Type}.
Abbreviation Tuple := (@HeapTupleHeaderData A).
Context (upd : Tuple → Z) (horizon : ItemPointerData → Tuple → HTSV_Result * Z) (committed removable : Z → bool).
Context (vis : ItemPointerData → Tuple → bool) (dead : Tuple → bool) (cutoffs : option Z) (blockno : Z).
Implicit Types p : Page Tuple Sp.
Abbreviation st := (status horizon removable cutoffs blockno).
Abbreviation good := (prunable upd st vis blockno).

(** A page with the same lines. *)
Lemma prunable_lines p p' : good p → heap_page p' → Forall (λ a, 0 ≤ lp_flags a ≤ 3) (pd_linp p') →
  zlen (pd_linp p') ≤ MaxHeapTuplesPerPage → (∀ o, line_at p' o = line_at p o) → good p'.
Proof.
  intros [_ _ _ Ha Hd Hy] Hp' Hf Hz He. constructor; try done.
  - intros r1 r2 ms1 ms2 H1 H2. apply Ha; by eapply (hot_chain_ext _ (line_at p')).
  - intros off t. rewrite He. apply Hd.
  - intros r pre m post Hc. eapply Hy. by eapply (hot_chain_ext _ (line_at p')).
Qed.

Lemma heap_page_clear p : heap_page p → heap_page (PageClearFull p).
Proof. intros [[] ? ? ?]. constructor; [by constructor|done..]. Qed.

Lemma good_clear p : good p → good (PageClearFull p).
Proof. intros Hp. apply (prunable_lines p); [done|by apply heap_page_clear, Hp|apply Hp|apply Hp|done]. Qed.

Lemma plan_clear p D L s : plan_inv upd p st D L s → plan_inv upd (PageClearFull p) st D L s.
Proof. intros [[] ? ? ? ? ? ? ? ?]. constructor; try assumption. by constructor. Qed.

Lemma repair_good p p' : good p → PageRepairFragmentation p = Ok p' → good p' ∧ ∀ o, line_at p' o = line_at p o.
Proof.
  intros Hp E. pose proof (pb_page _ _ _ _ _ Hp) as Hpg.
  destruct (PageRepairFragmentation_ok p (hg_ok _ Hpg) (pb_lines _ _ _ _ _ Hp)) as (p2 & E2 & Hh & Hs & _).
  rewrite E in E2. injection E2 as <-. pose proof (repair_lines p p' Hpg Hh Hs) as Hl. split; [|done].
  apply (prunable_lines p); [done|by eapply repair_heap_page| | |done].
  - apply Forall_lookup. intros i b Hb. destruct (Forall2_lookup_r _ _ _ _ _ Hs Hb) as (a & Ha & [Hfl _ _ _]). rewrite Hfl.
    rewrite used_prefix_take in Ha. apply lookup_take_Some in Ha as [Ha _]. apply list_elem_of_lookup_2 in Ha.
    apply list_elem_of_fmap in Ha as (a' & -> & Ha'). pose proof (pb_flags _ _ _ _ _ Hp) as HF. rewrite Forall_forall in HF.
    unfold clear_unused. destruct (ItemIdIsUsed a'); [auto|by vm_compute].
  - pose proof (pb_lines _ _ _ _ _ Hp). unfold zlen in *. rewrite <- (Forall2_length _ _ _ Hs), used_prefix_take, length_take.
    rewrite length_fmap. lia.
Qed.

(** The first visible version is the same when the chain is a stretch. *)
Lemma search_stretch p p' tid : good p → good p' → ItemPointerGetBlockNumber tid = blockno →
  (∀ ms, hot_chain upd (line_at p) (ItemPointerGetOffsetNumber tid) InvalidTransactionId true ms →
     ∃ ms', hot_chain upd (line_at p') (ItemPointerGetOffsetNumber tid) InvalidTransactionId true ms' ∧ stretch vis blockno ms ms') →
  ∃ found d d', heap_hot_search_buffer upd vis dead p tid true = Ok (found, d) ∧ heap_hot_search_buffer upd vis dead p' tid true = Ok (found, d').
Proof.
  intros Hp Hp' Hb Hst. destruct (heap_hot_search_ok upd vis dead p tid (heap_page_searchable p (pb_page _ _ _ _ _ Hp))) as (ms & Hc & ->).
  destruct (heap_hot_search_ok upd vis dead p' tid (heap_page_searchable p' (pb_page _ _ _ _ _ Hp'))) as (ms' & Hc' & ->).
  destruct (Hst ms Hc) as (ms2 & Hc2 & Hs). rewrite (hot_chain_det _ _ _ _ _ _ _ Hc' Hc2), Hb, (stretch_visible vis blockno ms ms2 Hs).
  eexists _, _, _. split; done.
Qed.

(** What the search finds from a pointer into the block. *)
Definition same_found p p' : Prop := ∀ tid, ItemPointerGetBlockNumber tid = blockno →
  ∃ found d d', heap_hot_search_buffer upd vis dead p tid true = Ok (found, d) ∧
    heap_hot_search_buffer upd vis dead p' tid true = Ok (found, d').

Lemma search_same p p' : good p → good p' → (∀ o, line_at p' o = line_at p o) → same_found p p'.
Proof.
  intros Hp Hp' He tid Hb. apply search_stretch; [done..|]. intros ms Hc. exists ms. split; [by eapply (hot_chain_ext _ (line_at p))|].
  exists [], []. by rewrite app_nil_r.
Qed.

Lemma plan_execute p D L s : good p → plan_inv upd p st D L s →
  (∀ r, r ∈ D ↔ is_root (line_at p) r = true) → (∀ off, off ∈ L ↔ heap_only_at p off) →
  ∃ p', heap_page_prune_execute p false (redirected s) (nowdead s) (nowunused s) = Ok p' ∧ good p' ∧ same_found p p' ∧
    ∀ off t, line_at p' off = Member t → line_at p off = Member t ∧ st off t ≠ HEAPTUPLE_DEAD.
Proof.
  intros Hp Hi HD HL. rewrite execute_lines.
  destruct (set_lines_run (changes (redirected s) (nowdead s) (nowunused s)) p) as (p1 & Hset & _).
  { destruct (heap_max p (hg_ok _ (pb_page _ _ _ _ _ Hp))) as (Hm & _). apply Forall_forall. intros x Hx. rewrite <- Hm.
    apply (plan_in_range upd st p s D L Hi). rewrite <- changes_fst. by apply list_elem_of_fmap_2. }
  { rewrite changes_fst. apply (pi_nodup _ _ _ _ _ _ Hi). }
  rewrite Hset. rsimpl. pose proof (planned_prunable upd st vis blockno p Hp s D L Hi HD HL p1 Hset) as Hp1.
  destruct (PageRepairFragmentation_ok p1 (hg_ok _ (pb_page _ _ _ _ _ Hp1)) (pb_lines _ _ _ _ _ Hp1)) as (p2 & E & _).
  destruct (repair_good p1 p2 Hp1 E) as [Hp2 Hl]. exists p2. split_and!; [done|done| |].
  - intros tid Hb. apply search_stretch; [done..|]. intros ms Hc.
    destruct (pruned_stretch upd st vis blockno p Hp s D L Hi HD HL p1 Hset _ ms Hc) as (ms' & Hc' & Hst). exists ms'. split; [|done].
    by eapply (hot_chain_ext _ (line_at p1)).
  - intros off t. rewrite Hl. intros E1. split; [|by eapply (pruned_no_dead upd st vis blockno p Hp s D L Hi HD HL p1 Hset)].
    by eapply (planned_member p p1 (pb_page _ _ _ _ _ Hp)); [apply (pi_nodup _ _ _ _ _ _ Hi)|apply (plan_in_range upd st p s D L Hi)|exact Hset|].
Qed.

(** Pruning a page: it succeeds, or reports the stray tuple. *)
Lemma prune_page_run mark (b : HeapBuffer) : good (hb_page b) →
  (∃ b' s, heap_page_prune_and_freeze upd horizon committed removable cutoffs mark blockno b = Ok (b', s) ∧ good (hb_page b') ∧
     same_found (hb_page b) (hb_page b') ∧
     ∀ off t, line_at (hb_page b') off = Member t → line_at (hb_page b) off = Member t ∧ st off t ≠ HEAPTUPLE_DEAD) ∨
  (heap_page_prune_and_freeze upd horizon committed removable cutoffs mark blockno b = Err unlinked ∧ ∃ off, stray upd (hb_page b) st off).
Proof.
  intros Hp. set (p := hb_page b) in *. unfold heap_page_prune_and_freeze. fold p.
  destruct (prune_plan_run upd horizon committed removable cutoffs blockno p (pb_page _ _ _ _ _ Hp) (pb_flags _ _ _ _ _ Hp) mark (pb_apart _ _ _ _ _ Hp))
    as [(s & D & L & -> & Hi & HD & HL)|[-> Hst]]; [|by right]. left. rsimpl.
  set (b0 := if _ || PageIsFull p then _ else b). 
  assert (Hb0 : good (hb_page b0) ∧ plan_inv upd (hb_page b0) st D L s ∧ (∀ o, line_at (hb_page b0) o = line_at p o)).
  { unfold b0. destruct (_ || PageIsFull p); cbn [hb_page]; [|done]. split_and!; [by apply good_clear|by apply plan_clear|done]. }
  destruct Hb0 as (Hp0 & Hi0 & Hl0).
  destruct (plan_execute (hb_page b0) D L s Hp0 Hi0) as (p' & Ex & Hp' & Hsf & Hnd).
  { intros r. rewrite HD. unfold is_root. by rewrite Hl0. }
  { intros off. rewrite HL. unfold heap_only_at. by setoid_rewrite Hl0. }
  destruct (nonempty (redirected s) || nonempty (nowdead s) || nonempty (nowunused s)) eqn:Edo.
  - rewrite Ex. rsimpl. eexists _, _. split; [done|]. cbn [hb_page]. split_and!; [done| |].
    + intros tid Hb. destruct (Hsf tid Hb) as (f & d & d' & E1 & E2). destruct (search_same p (hb_page b0) Hp Hp0 Hl0 tid Hb) as (f' & d1 & d2 & E3 & E4).
      assert (f' = f) as -> by congruence. eauto.
    + intros off t [? ?]%Hnd. by rewrite Hl0 in *.
  - eexists _, _. split; [done|]. split_and!; [done|by apply search_same|].
    intros off t E. split; [by rewrite Hl0 in E|].
    assert (Hid : set_lines (hb_page b0) (changes (redirected s) (nowdead s) (nowunused s)) = Ok (hb_page b0)).
    { destruct (redirected s), (nowdead s), (nowunused s); try done. }
    assert (HD0 : ∀ r, r ∈ D ↔ is_root (line_at (hb_page b0)) r = true) by (intros r; rewrite HD; unfold is_root; by rewrite Hl0).
    assert (HL0 : ∀ off, off ∈ L ↔ heap_only_at (hb_page b0) off) by (intros o; rewrite HL; unfold heap_only_at; by setoid_rewrite Hl0).
    by eapply (pruned_no_dead upd st vis blockno (hb_page b0) Hp0 s D L Hi0 HD0 HL0 _ Hid).
Qed.
End whole.

(** * Properties *)

(** Pruning a heap page for a scan or for vacuum keeps the versions index scans find: if
    the chains of the page are apart and the snapshot sees no dead tuple and no dying one
    before a dead one, then from every item pointer into the block the search returns the
    same version after pruning as before.  Only tuples of the page are kept, none of them
    dead, and the page can be pruned again.  The operation fails only with the error for a
    dead heap-only tuple that was updated further and is in no dead chain. *)
Theorem prune_keeps_search {A Sp} upd horizon committed removable vis dead cutoffs mark blockno (b : @HeapBuffer A Sp) :
  let st := status horizon removable cutoffs blockno in
  prunable upd st vis blockno (hb_page b) →
  (∃ b' s, heap_page_prune_and_freeze upd horizon committed removable cutoffs mark blockno b = Ok (b', s) ∧
     prunable upd st vis blockno (hb_page b') ∧
     (∀ tid, ItemPointerGetBlockNumber tid = blockno → ∃ found d d',
        heap_hot_search_buffer upd vis dead (hb_page b) tid true = Ok (found, d) ∧
        heap_hot_search_buffer upd vis dead (hb_page b') tid true = Ok (found, d')) ∧
     ∀ off t, line_at (hb_page b') off = Member t → line_at (hb_page b) off = Member t ∧ st off t ≠ HEAPTUPLE_DEAD) ∨
  (heap_page_prune_and_freeze upd horizon committed removable cutoffs mark blockno b = Err unlinked ∧
   ∃ off, stray upd (hb_page b) st off).
Proof. intros st Hp. by apply prune_page_run. Qed.

(** * Witness *)

Lemma lone_root {A Sp} upd (p : Page (@HeapTupleHeaderData A) Sp) r0 :
  (∀ r, r ≠ r0 → is_root (line_at p) r = false) → chains_apart upd p.
Proof.
  intros H r1 r2 ms1 ms2 H1 H2 Hne o Ho1 Ho2.
  assert (Hroot : ∀ r ms, hot_chain upd (line_at p) r InvalidTransactionId true ms → o ∈ ms.*1 → r = r0).
  { intros r ms Hc Ho. destruct (decide (r = r0)) as [|Hr]; [done|]. by rewrite (unrooted_chain upd (line_at p) r ms (H r Hr) Hc) in Ho; apply elem_of_nil in Ho. }
  by rewrite (Hroot r1 ms1 H1 Ho1), (Hroot r2 ms2 H2 Ho2) in Hne.
Qed.

Definition hot_horizon (tid : ItemPointerData) (t : @HeapTupleHeaderData Z) : HTSV_Result * Z :=
  if t_values t =? 1 then (HEAPTUPLE_RECENTLY_DEAD, t_xmax t) else (HEAPTUPLE_LIVE, 0).
Definition hot_vis (tid : ItemPointerData) (t : @HeapTupleHeaderData Z) : bool := t_values t =? 2.
Definition old_xid (xid : Z) : bool := xid <? 100.

Lemma hot_page_member off t : line_at hot_page off = Member t → (off = 2 ∧ t = old_version) ∨ (off = 3 ∧ t = new_version).
Proof.
  intros E. pose proof (line_at_range _ _ _ E) as Hr. change (PageGetMaxOffsetNumber hot_page) with 4 in Hr.
  assert (off = 1 ∨ off = 2 ∨ off = 3 ∨ off = 4) as [->|[->|[->| ->]]] by lia; vm_compute in E; try discriminate E; injection E as <-; auto.
Qed.

Lemma hot_page_root r : r ≠ 1 → is_root (line_at hot_page) r = false.
Proof.
  intros Hr. unfold is_root. destruct (line_at hot_page r) as [|o|t] eqn:E; [done| |by destruct (hot_page_member r t E) as [[-> ->]|[-> ->]]].
  unfold line_at, FirstOffsetNumber in E. change (PageGetMaxOffsetNumber hot_page) with 4 in E.
  destruct (Z.ltb_spec r 1), (Z.ltb_spec 4 r); try discriminate E.
  assert (r = 2 ∨ r = 3 ∨ r = 4) as [->|[->| ->]] by lia; vm_compute in E; discriminate E.
Qed.

Lemma hot_page_chain : hot_chain (λ _, 0) (line_at hot_page) 1 InvalidTransactionId true [(2, old_version); (3, new_version)].
Proof. apply (hc_redirect _ _ _ _ 2); [reflexivity|]. apply hc_next; try reflexivity. by apply hc_last. Qed.

Lemma hot_page_prunable : prunable (λ _, 0) (status hot_horizon old_xid None 0) hot_vis 0 hot_page.
Proof.
  constructor.
  - exact hot_page_ok.
  - repeat constructor; vm_compute; discriminate.
  - vm_compute. discriminate.
  - apply (lone_root _ _ 1), hot_page_root.
  - intros off t [[-> ->]|[-> ->]]%hot_page_member H; [reflexivity|vm_compute in H; discriminate H].
  - intros r pre m post Hc Hm _. destruct (decide (r = 1)) as [->|Hr].
    + pose proof (hot_chain_det _ _ _ _ _ _ _ Hc hot_page_chain) as E. destruct pre as [|x [|y pre]]; [constructor| |].
      * injection E as -> -> _. vm_compute in Hm. discriminate Hm.
      * apply (f_equal length) in E. cbn in E. rewrite length_app in E. cbn in E. lia.
    + pose proof (unrooted_chain _ _ r _ (hot_page_root r Hr) Hc) as E. by destruct pre.
Qed.

Lemma prune_keeps_search_witness :
  let st := status hot_horizon old_xid None 0 in
  let b := mkHeapBuffer hot_page 10 in
  (∃ b' s, heap_page_prune_and_freeze (λ _, 0) hot_horizon (λ _, true) old_xid None false 0 b = Ok (b', s) ∧
     prunable (λ _, 0) st hot_vis 0 (hb_page b') ∧
     (∀ tid, ItemPointerGetBlockNumber tid = 0 → ∃ found d d',
        heap_hot_search_buffer (λ _, 0) hot_vis (λ _, true) (hb_page b) tid true = Ok (found, d) ∧
        heap_hot_search_buffer (λ _, 0) hot_vis (λ _, true) (hb_page b') tid true = Ok (found, d')) ∧
     ∀ off t, line_at (hb_page b') off = Member t → line_at (hb_page b) off = Member t ∧ st off t ≠ HEAPTUPLE_DEAD) ∨
  (heap_page_prune_and_freeze (λ _, 0) hot_horizon (λ _, true) old_xid None false 0 b = Err unlinked ∧ ∃ off, stray (λ _, 0) (hb_page b) st off).
Proof. exact (prune_keeps_search (λ _, 0) hot_horizon (λ _, true) old_xid hot_vis (λ _, true) None false 0 (mkHeapBuffer hot_page 10) hot_page_prunable). Defined.

(** The dead version is gone, and the root leads to the live one. *)
Example hot_page_pruned :
  (r ← heap_page_prune_and_freeze (λ _, 0) hot_horizon (λ _, true) old_xid None false 0 (mkHeapBuffer hot_page 10);
   Ok (pd_linp (hb_page r.1), redirected r.2, nowunused r.2, ndeleted r.2, live_tuples r.2, latest_xid_removed r.2)) =
  Ok ([mkItemId 3 LP_REDIRECT 0; ItemIdSetUnused; mkItemId 8144 LP_NORMAL 48], [(1, 3)], [2], 1, 1, 10).
Proof. vm_compute. reflexivity. Qed.
