(* ===== verification/MvccPrune.v ===== *)
(** Pruning and MVCC: with the tests of heapam_visibility.c in place of the abstract ones, what
    pruning relies on follows from true hint bits, from the order in which transactions
    finished, and from a horizon that no snapshot in use precedes. *)

From S2P Require Import Prelude Xid Bufpage Itup Compact PageOps HeapPage HotChain HeapPrune HotPrune PrunePage PruneSearch Combocid Visibility Mvcc.

(** * Two backends *)

(** A backend [X2] that looks at the transactions no earlier than [X1]: what had committed or
    aborted for [X1] has for [X2], while what ran for [X1] may have ended.  The members of
    MultiXactIds do not change. *)
Record no_earlier (X1 X2 : Xacts) : Prop := {
  ne_committed : ∀ x, @committed X1 x → @committed X2 x;
  ne_aborted : ∀ x, @aborted X1 x → @aborted X2 x;
  ne_members : @GetMultiXactIdMembers X2 = @GetMultiXactIdMembers X1;
}.

Section prune.
Context {A Sp : Type} (X1 X2 : Xacts) (Hsh : no_earlier X1 X2) (Hown1 : @own_xacts X1) (Hown2 : @own_xacts X2).
Abbreviation Tuple := (@HeapTupleHeaderData A).
Implicit Types (t : Tuple) (p : Page Tuple Sp).

(** The backend that prunes uses [X1]; the snapshot [S] belongs to [X2]. *)
Context (S : SnapshotData) (removable : Z → bool) (cutoffs : option Z) (blockno : Z).
Abbreviation upd := (@HeapTupleGetUpdateXid X1 A).

Definition horizon_of (tid : ItemPointerData) t : HTSV_Result * Z := (@HeapTupleSatisfiesVacuumHorizon X1 A t).1.
Definition snapshot_sees (tid : ItemPointerData) t : bool := (@HeapTupleSatisfiesMVCC X2 A t S).1.
Abbreviation st := (status horizon_of removable cutoffs blockno).

(** Committed transactions that are old enough to be removed are finished for the snapshot. *)
Record covered : Prop := {
  cv_removable : ∀ d, @committed X1 d → removable d = true → @XidInMVCCSnapshot X2 d S = false;
  cv_cutoffs : ∀ c d, @committed X1 d → cutoffs = Some c → TransactionIdIsValid c = true → NormalTransactionIdPrecedes d c = true → @XidInMVCCSnapshot X2 d S = false;
  cv_normal : TransactionIdIsNormal (sn_xmin S) = true;
}.

(** If the deleter had finished for the snapshot, so had the inserter. *)
Definition causal t : Prop := ∀ d, @deleter X1 A t = Some d → @committed X1 d → HeapTupleHeaderXminFrozen t = false → @committed X1 (t_xmin t) →
  @XidInMVCCSnapshot X2 d S = false → @XidInMVCCSnapshot X2 (t_xmin t) S = false.

Context (Hcov : covered).

Lemma same_deleter t : @deleter X2 A t = @deleter X1 A t.
Proof.
  unfold deleter, HeapTupleGetUpdateXid, MultiXactIdGetUpdateXid. by rewrite (ne_members _ _ Hsh).
Qed.

(** The snapshot has the deleter as finished. *)
Definition gone t : Prop := ∃ d, @deleter X1 A t = Some d ∧ @committed X1 d ∧ @XidInMVCCSnapshot X2 d S = false.

Lemma gone_invisible t : @honest X2 A t → gone t → @HeapTupleSatisfiesMVCC X2 A t S = (false, (@HeapTupleSatisfiesMVCC X2 A t S).2).
Proof.
  intros Ht (d & Hd & Hc & Hx). apply injective_projections; [|done]. cbn [fst]. rewrite (mvcc_spec Hown2) by done. unfold mvcc_visible.
  rewrite same_deleter, Hd. rewrite (committed_seen Hown2 S d) by (by apply (ne_committed _ _ Hsh)). rewrite Hx. apply andb_false_r.
Qed.

Lemma precedes_seen d : TransactionIdPrecedes d (sn_xmin S) = true → @XidInMVCCSnapshot X2 d S = false.
Proof. intros H. unfold XidInMVCCSnapshot. by rewrite H. Qed.

(** Why a version is dead or dying. *)
Lemma status_cases off t : @honest X1 A t → st off t = HEAPTUPLE_DEAD ∨ st off t = HEAPTUPLE_RECENTLY_DEAD →
  (HeapTupleHeaderXminFrozen t = false ∧ @aborted X1 (t_xmin t)) ∨
  ((HeapTupleHeaderXminFrozen t = true ∨ @committed X1 (t_xmin t)) ∧
   ∃ d, @deleter X1 A t = Some d ∧ @committed X1 d ∧ (st off t = HEAPTUPLE_DEAD → @XidInMVCCSnapshot X2 d S = false)).
Proof.
  intros Ht Hst. unfold st, status, heap_prune_satisfies_vacuum, horizon_of in *.
  rewrite (horizon_spec Hown1) in * by done. unfold vacuum_status in *.
  assert (HD : ∀ r, (let '(res, dead_after) := @deleter_status X1 A t in
      if negb (bool_decide (res = HEAPTUPLE_RECENTLY_DEAD)) then res
      else if match cutoffs with Some c => TransactionIdIsValid c && NormalTransactionIdPrecedes dead_after c | None => false end then HEAPTUPLE_DEAD
      else if removable dead_after then HEAPTUPLE_DEAD else res) = r → r = HEAPTUPLE_DEAD ∨ r = HEAPTUPLE_RECENTLY_DEAD →
    ∃ d, @deleter X1 A t = Some d ∧ @committed X1 d ∧ (r = HEAPTUPLE_DEAD → @XidInMVCCSnapshot X2 d S = false)).
  { intros r Er Hr. unfold deleter_status in Er. destruct (@deleter X1 A t) as [d|]; [|rewrite bool_decide_eq_false_2 in Er by done; subst r; by destruct Hr].
    destruct (@TransactionIdIsInProgress X1 d) eqn:Ep; [rewrite bool_decide_eq_false_2 in Er by done; subst r; by destruct Hr|].
    destruct (@DidCommit X1 d) eqn:Ec; [|rewrite bool_decide_eq_false_2 in Er by done; subst r; by destruct Hr].
    exists d. split; [done|]. split; [done|]. intros ->. rewrite bool_decide_eq_true_2 in Er by done. cbn [negb] in Er. assert (Hc : @committed X1 d) by done.
    destruct cutoffs as [c|] eqn:Eco; [destruct (TransactionIdIsValid c && NormalTransactionIdPrecedes d c) eqn:Eb|].
    - apply andb_true_iff in Eb as [E1 E2]. exact (cv_cutoffs Hcov c d Hc Eco E1 E2).
    - destruct (removable d) eqn:Erm; [by apply (cv_removable Hcov)|done].
    - destruct (removable d) eqn:Erm; [by apply (cv_removable Hcov)|done]. }
  destruct (HeapTupleHeaderXminFrozen t); [right; split; [by left|by apply (HD _ eq_refl)]|].
  destruct (@TransactionIdIsInProgress X1 (t_xmin t)) eqn:Ep; [exfalso; destruct (_ && _); rewrite bool_decide_eq_false_2 in Hst by done; by destruct Hst|].
  destruct (@DidCommit X1 (t_xmin t)) eqn:Ed; [right; split; [by right|by apply (HD _ eq_refl)]|by left].
Qed.

Lemma dead_unseen off t tid : @honest X1 A t → @honest X2 A t → st off t = HEAPTUPLE_DEAD → snapshot_sees tid t = false.
Proof.
  intros H1 H2 Hd. unfold snapshot_sees. destruct (status_cases off t H1 (or_introl Hd)) as [[Hf Ha]|(_ & d & E & Hc & Hx)].
  - rewrite (mvcc_spec Hown2) by done. unfold mvcc_visible. rewrite Hf. by rewrite (aborted_unseen Hown2) by (by apply (ne_aborted _ _ Hsh)).
  - rewrite gone_invisible; [done|done|]. exists d. auto.
Qed.

(** * Chains *)

Lemma update_xid_deleter t d : @deleter X1 A t = Some d → HeapTupleHeaderGetUpdateXid upd t = d.
Proof.
  unfold deleter, HeapTupleHeaderGetUpdateXid. destruct (has_flag _ HEAP_XMAX_INVALID) eqn:E1; [done|].
  destruct (HEAP_XMAX_IS_LOCKED_ONLY _) eqn:E2; [done|]. unfold HEAP_XMAX_IS_LOCKED_ONLY in E2. apply orb_false_iff in E2 as [-> _].
  intros [= <-]. cbn [negb andb]. by destruct (has_flag _ HEAP_XMAX_IS_MULTI).
Qed.

Lemma committed_valid d : @committed X1 d → TransactionIdIsValid d = true.
Proof. intros [Hc _]. unfold TransactionIdIsValid. destruct (Z.eqb_spec d InvalidTransactionId) as [->|]; [|done]. rewrite (invalid_uncommitted Hown1) in Hc. done. Qed.

(** The snapshot has the inserter of the version as finished, if it committed. *)
Definition inserted t : Prop := @committed X1 (HeapTupleHeaderGetXmin t) → @XidInMVCCSnapshot X2 (HeapTupleHeaderGetXmin t) S = false.

Lemma frozen_seen : @XidInMVCCSnapshot X2 FrozenTransactionId S = false.
Proof.
  apply precedes_seen. pose proof (cv_normal Hcov) as Hn. unfold TransactionIdPrecedes. cbn [TransactionIdIsNormal FrozenTransactionId negb orb Z.leb FirstNormalTransactionId Z.compare Pos.compare Pos.compare_cont].
  unfold TransactionIdIsNormal, FirstNormalTransactionId, FrozenTransactionId in *. lia.
Qed.

Lemma gone_inserted t : causal t → gone t → inserted t.
Proof.
  intros Hc (d & Hd & Hcm & Hx). unfold inserted, HeapTupleHeaderGetXmin. destruct (HeapTupleHeaderXminFrozen t) eqn:Ef; [intros _; apply frozen_seen|].
  intros Hx'. by apply (Hc d).
Qed.

(** In a chain up to a dead version the snapshot sees none of the dying ones. *)
Lemma chain_dying look r xmax start ms : hot_chain upd look r xmax start ms →
  Forall (λ m, @honest X1 A m.2 ∧ @honest X2 A m.2 ∧ causal m.2) ms → ∀ pre m post, ms = pre ++ m :: post →
  is_dead st m → Forall (is_dying st) pre →
  Forall (λ m, snapshot_sees (ItemPointerSet blockno m.1) m.2 = false) pre ∧
  (∀ h, head ms = Some h → inserted h.2 ∧ (TransactionIdIsValid xmax = true → HeapTupleHeaderGetXmin h.2 = xmax)).
Proof.
  assert (Hlink : ∀ xmax t, TransactionIdIsValid xmax && negb (xmax =? HeapTupleHeaderGetXmin t) = false → TransactionIdIsValid xmax = true → HeapTupleHeaderGetXmin t = xmax).
  { intros y t E Hv. rewrite Hv in E. cbn [andb] in E. lia. }
  assert (Hdead : ∀ off t, @honest X1 A t → causal t → st off t = HEAPTUPLE_DEAD → inserted t).
  { intros off t H1 Hc Hd. destruct (status_cases off t H1 (or_introl Hd)) as [[Hf Ha]|(_ & d & E & Hcm & Hx)].
    - unfold inserted, HeapTupleHeaderGetXmin. rewrite Hf. intros [Hc1 _]. destruct Ha. congruence.
    - apply gone_inserted; [done|]. exists d. auto. }
  induction 1 as [|? ? ? ms _ _ IH| | | |offnum xmax start t E Ho Hx Hu|offnum xmax start t ms E Ho Hx Hu Hch IH]; intros HF pre m post Em Hm Hpre;
    try (by destruct pre).
  - destruct (IH HF pre m post Em Hm Hpre) as [H1 H2]. by split.
  - destruct pre as [|? [|? ?]]; [|done..]. injection Em as <- <-. split; [constructor|]. intros h [= <-]. split; [|by apply Hlink].
    inversion HF as [|? ? (H1 & H2 & H3) _]; subst. by apply (Hdead offnum).
  - inversion HF as [|? ? (H1 & H2 & H3) HF']; subst. destruct pre as [|x pre].
    { injection Em as <- ->. split; [constructor|]. intros h [= <-]. split; [by apply (Hdead offnum)|by apply Hlink]. }
    injection Em as <- Em. inversion Hpre as [|? ? Hx1 Hpre']; subst x. subst. destruct (IH HF' pre m post eq_refl Hm Hpre') as [Hl Hh].
    assert (Hg : (HeapTupleHeaderXminFrozen t = false ∧ @aborted X1 (t_xmin t)) ∨ gone t).
    { destruct (status_cases offnum t H1 Hx1) as [|(_ & d & Ed & Hcm & _)]; [by left|right]. exists d. split_and!; [done|done|].
      destruct (head (pre ++ m :: post)) as [h|] eqn:Eh; [|by destruct pre]. destruct (Hh h eq_refl) as [Hi Hxm].
      rewrite (update_xid_deleter t d Ed) in Hxm. specialize (Hxm (committed_valid d Hcm)). unfold inserted in Hi. rewrite Hxm in Hi. auto. }
    split.
    + constructor; [|done]. cbn [fst snd]. unfold snapshot_sees. destruct Hg as [[Hf Ha]|Hg]; [|by rewrite gone_invisible].
      rewrite (mvcc_spec Hown2) by done. unfold mvcc_visible. rewrite Hf. by rewrite (aborted_unseen Hown2) by (by apply (ne_aborted _ _ Hsh)).
    + intros h [= <-]. split; [|by apply Hlink]. cbn [snd]. destruct Hg as [[Hf Ha]|Hg]; [|by apply gone_inserted].
      unfold inserted, HeapTupleHeaderGetXmin. rewrite Hf. intros [Hc1 _]. destruct Ha. congruence.
Qed.

(** A heap page with true hint bits, whose versions were deleted after they were inserted. *)
Record mvcc_page p : Prop := {
  mp_page : heap_page p;
  mp_flags : Forall (λ a, 0 ≤ lp_flags a ≤ 3) (pd_linp p);
  mp_lines : zlen (pd_linp p) ≤ MaxHeapTuplesPerPage;
  mp_apart : chains_apart upd p;
  mp_honest : ∀ off t, line_at p off = Member t → @honest X1 A t ∧ @honest X2 A t ∧ causal t;
}.

Lemma dying_members look r xmax start ms : hot_chain upd look r xmax start ms → Forall (λ m, look m.1 = Member m.2) ms.
Proof. induction 1; by repeat constructor. Qed.

Lemma mvcc_prunable p : mvcc_page p → prunable upd st snapshot_sees blockno p.
Proof.
  intros [H1 H2 H3 H4 H5]. constructor; [done..| |].
  - intros off t E Hd. destruct (H5 off t E) as (Ha & Hb & _). by apply (dead_unseen off).
  - intros r pre m post Hc Hm Hpre. eapply chain_dying; [done| |done|done|done].
    apply dying_members in Hc. eapply Forall_impl; [done|]. intros [o t] E. by apply (H5 o).
Qed.
End prune.

Lemma same_update_xid {A} X1 X2 : no_earlier X1 X2 → @HeapTupleGetUpdateXid X2 A = @HeapTupleGetUpdateXid X1 A.
Proof. intros H. unfold HeapTupleGetUpdateXid, MultiXactIdGetUpdateXid. by rewrite (ne_members _ _ H). Qed.

(** * Properties *)

(** Pruning removes nothing a snapshot still sees: a backend prunes a page whose hint bits
    are true, by the tests of heapam_visibility.c and a horizon older than a snapshot of any
    backend, its own or another; then from every item pointer into the page the search of that
    backend finds the version it found before, and the page can be pruned again.  Pruning fails
    only with the error for a dead heap-only version that no chain leads to. *)
Theorem prune_keeps_snapshots {A Sp} X1 X2 S removable cutoffs mark blockno dead (b : @HeapBuffer A Sp) :
  no_earlier X1 X2 → @own_xacts X1 → @own_xacts X2 → covered X1 X2 S removable cutoffs → mvcc_page X1 X2 S (hb_page b) →
  (∃ b' s, heap_page_prune_and_freeze (@HeapTupleGetUpdateXid X1 A) (horizon_of X1) (@DidCommit X1) removable cutoffs mark blockno b = Ok (b', s) ∧
     mvcc_page X1 X2 S (hb_page b') ∧
     ∀ tid, ItemPointerGetBlockNumber tid = blockno → ∃ found d d',
       heap_hot_search_buffer (@HeapTupleGetUpdateXid X2 A) (snapshot_sees X2 S) dead (hb_page b) tid true = Ok (found, d) ∧
       heap_hot_search_buffer (@HeapTupleGetUpdateXid X2 A) (snapshot_sees X2 S) dead (hb_page b') tid true = Ok (found, d')) ∨
  (heap_page_prune_and_freeze (@HeapTupleGetUpdateXid X1 A) (horizon_of X1) (@DidCommit X1) removable cutoffs mark blockno b = Err unlinked ∧
   ∃ off, stray (@HeapTupleGetUpdateXid X1 A) (hb_page b) (status (horizon_of X1) removable cutoffs blockno) off).
Proof.
  intros Hsh H1 H2 Hc Hp. rewrite (same_update_xid X1 X2 Hsh). pose proof (mvcc_prunable X1 X2 Hsh H1 H2 S removable cutoffs blockno Hc (hb_page b) Hp) as Hg.
  destruct (prune_page_run (@HeapTupleGetUpdateXid X1 A) (horizon_of X1) (@DidCommit X1) removable (snapshot_sees X2 S) dead cutoffs blockno mark b Hg)
    as [(b' & s & E & [G1 G2 G3 G4 _ _] & Hf & Hk)|]; [left|by right].
  exists b', s. split_and!; [done| |done]. constructor; [done..|]. intros off t Ht. destruct (Hk off t Ht) as [Ht' _]. by apply (mp_honest _ _ _ _ Hp off).
Qed.

(** * Witness *)

Definition other_xacts : Xacts := {|
  TransactionIdIsCurrentTransactionId x := x =? 650;
  TransactionIdIsInProgress x := (x =? 700) || (x =? 650);
  DidCommit x := (2 <=? x) && (x <? 640);
  SubTransTopmost x := x;
  GetMultiXactIdMembers m b := [];
  combos := no_combos;
  GetCommitLSN x := 0;
  BufferIsPermanent := true;
  XLogNeedsFlush l := false;
  BufferGetLSNAtomic := 0;
|}.

Lemma other_own : @own_xacts other_xacts.
Proof. constructor; try done; intros x; cbn; intros ->%Z.eqb_eq; done. Qed.

Lemma hot_page_mvcc : mvcc_page other_xacts some_xacts some_snapshot hot_page.
Proof.
  destruct hot_page_prunable as [H1 H2 H3 _ _ _]. constructor; [done..| |].
  - apply (lone_root _ _ 1), hot_page_root.
  - intros off t [[-> ->]|[-> ->]]%hot_page_member; (split_and!; [constructor; done..|]); intros d Hd; vm_compute in Hd; [|done]. injection Hd as <-. done.
Qed.
