(* ===== verification/PruneHorizon.v ===== *)
(** Pruning in a running server: with the horizons of procarray.c as the test for what can be
    removed, no snapshot that is held or taken later loses a row version. *)

From S2P Require Import Prelude Xid Bufpage Itup Compact PageOps HeapPage HotChain HeapPrune HotPrune PrunePage PruneSearch Combocid Visibility Mvcc Procarray Running Horizon Snapshots MvccPrune.

(** What the commit log of the backend that prunes says of the state [s] of the server. *)
Definition log_agrees (X1 X2 : Xacts) base s : Prop := ∀ d, @committed X1 d → TransactionIdIsNormal d = true →
  in_window base d ∧ in_window base (@SubTransTopmost X2 d) ∧ pos base (@SubTransTopmost X2 d) ≤ pos base d ∧
  ¬ running s d ∧ ¬ running s (@SubTransTopmost X2 d).

Lemma idle_belongs db s x : ¬ running s x → belongs db s x.
Proof. intros Hn i p Hr. exfalso. apply Hn. by exists i. Qed.

Lemma special_seen `{X : Xacts} sn d : TransactionIdIsNormal (sn_xmin sn) = true → TransactionIdIsNormal d = false → XidInMVCCSnapshot d sn = false.
Proof.
  intros Hn Hd. unfold XidInMVCCSnapshot, TransactionIdPrecedes. rewrite Hd. cbn [negb orb]. unfold TransactionIdIsNormal in *.
  by destruct (Z.ltb_spec d (sn_xmin sn)); [|lia].
Qed.

(** The test as pruning uses it. *)
Definition removable_by (recent : Z) (me : nat) (db : Z) a g (d : Z) : bool :=
  match GlobalVisTestIsRemovableXid recent me db a VISHORIZON_DATA g d with Ok (b, _) => b | Err _ => false end.

(** The horizons of a state cover the snapshots of every later one. *)
Lemma horizons_cover X1 X2 base par post B s s' recent me db h g i p hs sn :
  good base s → epoch base B s → slots_ok base (arr s) → xid_horizons me db (arr s) = Ok h →
  0 ≤ definitely_needed (GlobalVisDataRels g) - B < 2 ^ 31 → maybe_needed (GlobalVisDataRels g) ≤ full_horizon h →
  log_agrees X1 X2 base s → rtc (step base par post) s s' → procs (arr s') !! i = Some p → counts db p → held s' !! i = Some hs → sn ∈ hs →
  covered X1 X2 sn (removable_by recent me db (arr s) g) None.
Proof.
  intros G HB Hsl Hh Hv Hm Hlog Hs Hp Hc Hl Hin. destruct (steps_good base par post s s' G Hs) as [_ HX].
  assert (Hn : TransactionIdIsNormal (sn_xmin sn) = true) by (eapply (window_normal base), be_window, (xm_held base s' HX i p hs sn); done).
  constructor; [|done|done]. intros d Hcm Hr. unfold removable_by in Hr. destruct (GlobalVisTestIsRemovableXid _ _ _ _ _ _ _) as [[[] g']|] eqn:Er; try done. destruct (TransactionIdIsNormal d) eqn:Ed; [|by apply special_seen].
  destruct (Hlog d Hcm Ed) as (W1 & W2 & Hle & N1 & N2). enough (HS : settled (X := X2) base db d s') by (destruct HS as (_ & _ & _ & HS); exact (HS i p hs sn Hp Hc Hl Hin)).
  apply (settled_steps base par post db d s); [|done].
  apply (removable_settled base par post B s s recent me db h g d g'); try done; by apply idle_belongs.
Qed.

(** C19. Pruning never takes a row version from a snapshot.  A backend computes the horizons of
    a state that the server reaches and prunes a page of a table with
    [GlobalVisTestIsRemovableXid] as its test and the rules of heapam_visibility.c.  Whatever
    snapshot a backend of the database that neither vacuums nor decodes holds then, or takes in
    any later state, after whatever transactions have ended since, from every item pointer into
    the page its search, by what it knows of the transactions, finds the version it found before,
    and the page can be pruned again.  The page is sound, its hint bits are true and its versions
    were deleted after they were inserted; the commit log of the pruning backend agrees with the
    state.  Pruning fails only with the error for a dead heap-only version that no chain leads to. *)
Theorem prune_behind_horizon {A Sp} X1 X2 base par post B s0 s s' recent me db h g i p hs sn mark blockno dead (b : @HeapBuffer A Sp) :
  no_earlier X1 X2 → @own_xacts X1 → @own_xacts X2 →
  initial base s0 → epoch base B s0 → rtc (step base par post) s0 s → slots_ok base (arr s) → xid_horizons me db (arr s) = Ok h →
  0 ≤ definitely_needed (GlobalVisDataRels g) - B < 2 ^ 31 → maybe_needed (GlobalVisDataRels g) ≤ full_horizon h → log_agrees X1 X2 base s →
  rtc (step base par post) s s' → procs (arr s') !! i = Some p → counts db p → held s' !! i = Some hs → sn ∈ hs →
  mvcc_page X1 X2 sn (hb_page b) →
  let removable := removable_by recent me db (arr s) g in
  (∃ b' r, heap_page_prune_and_freeze (@HeapTupleGetUpdateXid X1 A) (horizon_of X1) (@DidCommit X1) removable None mark blockno b = Ok (b', r) ∧
     mvcc_page X1 X2 sn (hb_page b') ∧
     ∀ tid, ItemPointerGetBlockNumber tid = blockno → ∃ found d d',
       heap_hot_search_buffer (@HeapTupleGetUpdateXid X2 A) (snapshot_sees X2 sn) dead (hb_page b) tid true = Ok (found, d) ∧
       heap_hot_search_buffer (@HeapTupleGetUpdateXid X2 A) (snapshot_sees X2 sn) dead (hb_page b') tid true = Ok (found, d')) ∨
  (heap_page_prune_and_freeze (@HeapTupleGetUpdateXid X1 A) (horizon_of X1) (@DidCommit X1) removable None mark blockno b = Err unlinked ∧
   ∃ off, stray (@HeapTupleGetUpdateXid X1 A) (hb_page b) (status (horizon_of X1) removable None blockno) off).
Proof.
  intros Hsh H1 H2 H0 HB Hs Hsl Hh Hv Hm Hlog Hs' Hp Hc Hl Hin Hpage removable. apply prune_keeps_snapshots; try done. pose proof (initial_good base s0 H0) as G0.
  apply (horizons_cover X1 X2 base par post B s s' recent me db h g i p hs sn); try done; [by apply (steps_good base par post s0)|by apply (steps_epoch base par post B s0)].
Qed.

(** * Witness

    Transaction 650 runs in backend 0 while backend 2 prunes; it commits, and backend 1 takes a
    snapshot that has it as finished. *)

Definition server : sys := mkSys (array [idle; idle; idle] 650 649 1) [[]; []; []] [[]; []; []].
Definition at_work : sys := mkSys (array [mkProc 650 0 [] false 0 5; idle; idle] 651 649 1) [[]; []; []] [[]; []; []].
Definition work_done : sys := mkSys (array [idle; idle; idle] 651 650 2) [[]; []; []] [[]; []; []].
Definition late_snapshot : SnapshotData := mkSnapshot 651 651 [] [] false false 3.
Definition looking : sys := mkSys (array [idle; mkProc 0 651 [] false 0 5; idle] 651 650 2) [[]; []; []] [[]; [late_snapshot]; []].

(** What backend 1 knows then. *)
Definition late_xacts : Xacts := {|
  TransactionIdIsCurrentTransactionId x := x =? 700;
  TransactionIdIsInProgress x := x =? 700;
  DidCommit x := (2 <=? x) && (x <? 640) || (x =? 650);
  SubTransTopmost x := x;
  GetMultiXactIdMembers m b := [];
  combos := no_combos;
  GetCommitLSN x := 0;
  BufferIsPermanent := true;
  XLogNeedsFlush l := false;
  BufferGetLSNAtomic := 0;
|}.

Lemma late_own : @own_xacts late_xacts.
Proof. constructor; try done; intros x; cbn; intros ->%Z.eqb_eq; done. Qed.

Lemma late_follows : no_earlier other_xacts late_xacts.
Proof.
  constructor; [| |done]; intros x [H1 H2]; unfold committed, aborted; cbn [DidCommit TransactionIdIsInProgress other_xacts late_xacts] in *;
    apply orb_false_iff in H2 as [H2 H3]; rewrite H1, H2, H3; done.
Qed.

Definition work_bounds : GlobalVis := mkGlobalVis (mkVis 650 90) (mkVis 650 90) (mkVis 650 90) (mkVis 650 90) 0.

Definition work_horizons : XidHorizons := mkHorizons 649 0 0 650 650 650 650 650 650.

Lemma server_initial : initial 3 server.
Proof. constructor; [concrete|concrete| |done|done]. repeat constructor. Qed.

Lemma run_at_work : rtc (step 3 false false) server at_work.
Proof. apply rtc_once. eapply (step_begin 3 false false server 0%nat); [done|done|vm_compute; reflexivity|concrete]. Qed.

Lemma run_looking : rtc (step 3 false false) at_work looking.
Proof.
  eapply (rtc_l _ _ work_done); [eapply (step_end 3 false false at_work 0%nat); [done|done|done|vm_compute; reflexivity]|].
  apply rtc_once. eapply (step_snapshot 3 false false work_done 1%nat 3); [vm_compute; reflexivity|done].
Qed.

Lemma log_at_work : log_agrees other_xacts late_xacts 3 at_work.
Proof.
  intros d [Hc _] Hn. cbn [DidCommit SubTransTopmost other_xacts late_xacts] in *. unfold TransactionIdIsNormal, FirstNormalTransactionId in Hn.
  assert (¬ running at_work d) by (intros (i & p & l & Hp & Hl & Hv & Hx); entries i Hp Hl; try done; destruct Hx as [->|Hx%elem_of_nil]; done).
  assert (in_window 3 d) by (split; [unfold is_xid, FirstNormalTransactionId, MaxTransactionId; lia|unfold pos; rewrite Z.mod_small; lia]).
  split_and!; first [done|lia].
Qed.

Lemma hot_page_late : mvcc_page other_xacts late_xacts late_snapshot hot_page.
Proof.
  destruct hot_page_mvcc as [M1 M2 M3 M4 M5]. constructor; [done..|]. intros off t Ht. destruct (M5 off t Ht) as (H1 & _ & _). split; [done|].
  apply hot_page_member in Ht as [[_ ->]|[_ ->]]; (split; [constructor; done|]); intros d Hd; vm_compute in Hd; [|done]. injection Hd as <-. done.
Qed.

Definition work_removable : Z → bool := removable_by 650 2 5 (arr at_work) work_bounds.
Definition work_buffer : @HeapBuffer Z unit := mkHeapBuffer hot_page 10.

Lemma prune_behind_horizon_witness :
  (∃ b' r, heap_page_prune_and_freeze (@HeapTupleGetUpdateXid other_xacts Z) (horizon_of other_xacts) (@DidCommit other_xacts) work_removable None false 0 work_buffer = Ok (b', r) ∧
     mvcc_page other_xacts late_xacts late_snapshot (hb_page b') ∧
     ∀ tid, ItemPointerGetBlockNumber tid = 0 → ∃ found d d',
       heap_hot_search_buffer (@HeapTupleGetUpdateXid late_xacts Z) (snapshot_sees late_xacts late_snapshot) (λ _, true) (hb_page work_buffer) tid true = Ok (found, d) ∧
       heap_hot_search_buffer (@HeapTupleGetUpdateXid late_xacts Z) (snapshot_sees late_xacts late_snapshot) (λ _, true) (hb_page b') tid true = Ok (found, d')) ∨
  (heap_page_prune_and_freeze (@HeapTupleGetUpdateXid other_xacts Z) (horizon_of other_xacts) (@DidCommit other_xacts) work_removable None false 0 work_buffer = Err unlinked ∧
   ∃ off, stray (@HeapTupleGetUpdateXid other_xacts Z) (hb_page work_buffer) (status (horizon_of other_xacts) work_removable None 0) off).
Proof.
  apply (prune_behind_horizon other_xacts late_xacts 3 false false 3 server at_work looking 650 2 5 work_horizons work_bounds 1 (mkProc 0 651 [] false 0 5) [late_snapshot] late_snapshot false 0 (λ _, true) work_buffer);
    [apply late_follows|apply other_own|apply late_own|apply server_initial|concrete|apply run_at_work|done|vm_compute; reflexivity|cbn; lia|vm_compute; discriminate|apply log_at_work|apply run_looking|done|split; [done|by left]|done|left|apply hot_page_late].
Defined.

(** The test lets the old version go. *)
Example old_version_removable : work_removable (HeapTupleHeaderGetUpdateXid (@HeapTupleGetUpdateXid other_xacts Z) old_version) = true.
Proof. vm_compute. reflexivity. Qed.
