(* ===== verification/Store.v ===== *)
(** The relation behind an index: its blocks in shared buffers, the marks and the
    log records its operations leave, and the pages of the access method
    (temporal_rtree.h, temporal_rtree_page.c, temporal_rtree_wal.c and
    rtree_meta_and_root_init of temporal_rtree_build.c).

    Operations run one at a time; buffer locks and pins have no state here.  An
    error keeps the changes made to shared buffers before it. *)

From S2P Require Import Prelude Float64 Cube Box Bufpage Itup.

(** * Special space of the access method *)

Definition TRTREE_META_MAGIC : Z := 0x54525452.
Definition TRTREE_PAGE_LEAF : Z := 0x01.
Definition TRTREE_PAGE_ROOT : Z := 0x02.
Definition TRTREE_PAGE_META : Z := 0x04.

Record RTreeMetaPageData : Type := mkMeta {
  magic : Z;
  root : Z;
  root_level : Z;
  meta_flags : Z;
}.

Record RTreePageOpaqueData : Type := mkOpaque {
  rightlink : Z;
  op_flags : Z;
  op_level : Z;
  nsn : Z;
}.

Definition sizeof_RTreeMetaPageData : Z := 12.
Definition sizeof_RTreePageOpaqueData : Z := 16.

Inductive special : Type :=
  | SpMeta (m : RTreeMetaPageData)
  | SpData (o : RTreePageOpaqueData).

Abbreviation RPage := (Page IndexTuple special).

Definition meta_of (p : RPage) : result RTreeMetaPageData :=
  match pd_sp p with
  | Some (SpMeta m) => Ok m
  | _ => Err (Undefined "special space holds no meta data")
  end.

Definition opaque_of (p : RPage) : result RTreePageOpaqueData :=
  match pd_sp p with
  | Some (SpData o) => Ok o
  | _ => Err (Undefined "special space holds no page opaque data")
  end.

Definition rtree_init_metapage (rootblk rootlevel : Z) : RPage :=
  page_set_sp (SpMeta {| magic := TRTREE_META_MAGIC; root := rootblk;
                         root_level := rootlevel; meta_flags := TRTREE_PAGE_META |})
    (PageInit BLCKSZ sizeof_RTreeMetaPageData).

Definition rtree_init_datapage (flags level : Z) : RPage :=
  page_set_sp (SpData {| rightlink := InvalidBlockNumber; op_flags := flags;
                         op_level := level; nsn := 0 |})
    (PageInit BLCKSZ sizeof_RTreePageOpaqueData).

Definition set_rightlink (r : Z) (o : RTreePageOpaqueData) : RTreePageOpaqueData :=
  {| rightlink := r; op_flags := op_flags o; op_level := op_level o; nsn := nsn o |}.
Definition set_op_flags (f : Z) (o : RTreePageOpaqueData) : RTreePageOpaqueData :=
  {| rightlink := rightlink o; op_flags := f; op_level := op_level o; nsn := nsn o |}.
Definition set_op_level (l : Z) (o : RTreePageOpaqueData) : RTreePageOpaqueData :=
  {| rightlink := rightlink o; op_flags := op_flags o; op_level := l; nsn := nsn o |}.
Definition set_nsn (n : Z) (o : RTreePageOpaqueData) : RTreePageOpaqueData :=
  {| rightlink := rightlink o; op_flags := op_flags o; op_level := op_level o; nsn := n |}.

(** * The relation *)

(** What an operation leaves for durability: a block added to the file, a buffer
    marked dirty, a log record with full page images. *)
Inductive event : Type :=
  | EvExtend
  | EvDirty (blkno : Z)
  | EvWal (images : list (Z * RPage)).

Record Rel : Type := mkRel {
  blocks : list RPage;
  needs_wal : bool;
  log : list event;
}.

Definition empty_rel (wal : bool) : Rel := {| blocks := []; needs_wal := wal; log := [] |}.

Definition nblocks (s : Rel) : Z := zlen (blocks s).

(** The block [blkno] of a file, and the file with that block replaced. *)
Definition bget (bs : list RPage) (blkno : Z) : option RPage :=
  if blkno <? 0 then None else bs !! Z.to_nat blkno.
Definition bset (bs : list RPage) (blkno : Z) (p : RPage) : list RPage :=
  <[Z.to_nat blkno := p]> bs.

Definition block (s : Rel) (blkno : Z) : option RPage := bget (blocks s) blkno.

(** * State and errors *)

Definition M (A : Type) : Type := Rel → Rel * result A.

#[export] Instance M_ret : MRet M := λ A a s, (s, Ok a).
#[export] Instance M_bind : MBind M :=
  λ A B f m s, match m s with (s', Ok a) => f a s' | (s', Err e) => (s', Err e) end.

Definition lift {A} (r : result A) : M A := λ s, (s, r).
Definition elog {A} (msg : string) : M A := λ s, (s, Err (Elog msg)).

(** [RelationGetNumberOfBlocks]. *)
Definition RelationGetNumberOfBlocks : M Z := λ s, (s, Ok (nblocks s)).

Definition RelationNeedsWAL : M bool := λ s, (s, Ok (needs_wal s)).

(** [ReadBufferExtended(..., blkno, RBM_NORMAL, ...)] and [BufferGetPage]. *)
Definition ReadBuffer (blkno : Z) : M RPage := λ s,
  match block s blkno with
  | Some p => (s, Ok p)
  | None => (s, Err (Elog "could not read block"))
  end.

(** [ReadBufferExtended(..., P_NEW, RBM_ZERO_AND_LOCK, ...)]. *)
Definition ExtendRelation : M Z := λ s,
  ({| blocks := blocks s ++ [zero_page]; needs_wal := needs_wal s; log := log s ++ [EvExtend] |},
   Ok (nblocks s)).

Definition set_block (s : Rel) (blkno : Z) (p : RPage) : Rel :=
  {| blocks := bset (blocks s) blkno p; needs_wal := needs_wal s; log := log s |}.

(** A change of the page in the shared buffer. *)
Definition WritePage (blkno : Z) (p : RPage) : M unit := λ s, (set_block s blkno p, Ok tt).

Definition add_event (s : Rel) (e : event) : Rel :=
  {| blocks := blocks s; needs_wal := needs_wal s; log := log s ++ [e] |}.

Definition MarkBufferDirty (blkno : Z) : M unit := λ s, (add_event s (EvDirty blkno), Ok tt).

(** * Write-ahead log

    [GenericXLogStart], one [GenericXLogRegisterBuffer] per block with
    [GENERIC_XLOG_FULL_IMAGE], [GenericXLogFinish]: the images replace the
    buffers (with their hole zeroed) and form one record. *)
Fixpoint log_images (s : Rel) (blks : list Z) : result (list (Z * RPage)) :=
  match blks with
  | [] => Ok []
  | b :: blks =>
      p ← some_or "registered block" (block s b);
      imgs ← log_images s blks;
      Ok ((b, zero_hole p) :: imgs)
  end.

Definition GenericXLog (blks : list Z) : M unit := λ s,
  match log_images s blks with
  | Ok imgs =>
      (add_event (foldl (λ s '(b, p), set_block s b p) s imgs) (EvWal imgs), Ok tt)
  | Err e => (s, Err e)
  end.

Definition rtree_wal_insert (blkno : Z) : M unit := GenericXLog [blkno].
Definition rtree_wal_split (left right : Z) : M unit := GenericXLog [left; right].
Definition rtree_wal_vacuum (blkno : Z) : M unit := GenericXLog [blkno].

(** * Creating an empty index *)

Definition rtree_meta_and_root_init : M unit :=
  metablk ← ExtendRelation;
  rootblk ← ExtendRelation;
  WritePage metablk (rtree_init_metapage rootblk 0);;
  WritePage rootblk (rtree_init_datapage (Z.lor TRTREE_PAGE_LEAF TRTREE_PAGE_ROOT) 0);;
  MarkBufferDirty metablk;;
  MarkBufferDirty rootblk.

Definition temporal_rtree_buildempty : M unit := rtree_meta_and_root_init.

(** * Facts on the store *)

Implicit Types (bs : list RPage) (p : RPage) (lg : list event).

Lemma bget_range bs b p : bget bs b = Some p → 0 ≤ b < zlen bs.
Proof.
  unfold bget, zlen. destruct (Z.ltb_spec b 0); [done|]. intros Hl%lookup_lt_Some. lia.
Qed.

Lemma bget_bset_eq bs b p q : bget bs b = Some q → bget (bset bs b p) b = Some p.
Proof.
  intros Hb. pose proof (bget_range _ _ _ Hb). unfold bget, bset, zlen in *.
  destruct (Z.ltb_spec b 0); [lia|]. apply list_lookup_insert_eq. lia.
Qed.

Lemma bget_bset_ne bs b b' p : 0 ≤ b → b ≠ b' → bget (bset bs b p) b' = bget bs b'.
Proof.
  intros Hb Hne. unfold bget, bset. destruct (Z.ltb_spec b' 0); [done|].
  apply list_lookup_insert_ne. lia.
Qed.

Lemma bget_bset bs b b' p :
  0 ≤ b < zlen bs → bget (bset bs b p) b' = if b' =? b then Some p else bget bs b'.
Proof.
  intros Hb. destruct (Z.eqb_spec b' b) as [->|Hne].
  - unfold bget, bset, zlen in *. destruct (Z.ltb_spec b 0); [lia|]. apply list_lookup_insert_eq. lia.
  - apply bget_bset_ne; lia.
Qed.

Lemma zlen_bset bs b p : zlen (bset bs b p) = zlen bs.
Proof. unfold zlen, bset. by rewrite length_insert. Qed.

Lemma bset_id bs b p : bget bs b = Some p → bset bs b p = bs.
Proof.
  unfold bget, bset. destruct (Z.ltb_spec b 0); [done|]. apply list_insert_id.
Qed.

Lemma bset_bset bs b p q : bset (bset bs b p) b q = bset bs b q.
Proof. apply list_insert_insert_eq. Qed.

Lemma bget_app_l bs bs' b : b < zlen bs → bget (bs ++ bs') b = bget bs b.
Proof.
  intros Hb. unfold bget, zlen in *. destruct (Z.ltb_spec b 0); [done|].
  apply lookup_app_l. lia.
Qed.

Lemma bget_app_new bs p : bget (bs ++ [p]) (zlen bs) = Some p.
Proof.
  unfold bget, zlen. destruct (Z.ltb_spec (Z.of_nat (length bs)) 0); [lia|].
  rewrite Nat2Z.id. apply list_lookup_middle. done.
Qed.

Lemma bget_app bs p b :
  bget (bs ++ [p]) b = if b =? zlen bs then Some p else bget bs b.
Proof.
  destruct (Z.eqb_spec b (zlen bs)) as [->|Hne]; [apply bget_app_new|].
  destruct (Z.ltb_spec b (zlen bs)); [by apply bget_app_l|].
  assert (∀ l, zlen l ≤ b → bget l b = None) as HN.
  { intros l Hl. destruct (bget l b) eqn:E; [|done]. apply bget_range in E. lia. }
  rewrite !HN; [done|lia|]. rewrite zlen_app. unfold zlen in *. cbn. lia.
Qed.

(** Read a block out of a file built by updates. *)
Ltac bget_simpl :=
  repeat first
    [ rewrite bget_bset by (rewrite ?zlen_bset, ?zlen_app; unfold zlen in *; cbn [length] in *; lia)
    | rewrite bget_app
    | rewrite Z.eqb_refl
    | match goal with |- context [?a =? ?b] =>
        rewrite (proj2 (Z.eqb_neq a b)) by (unfold zlen in *; lia) end ].

(** Compute the fields of a state. *)
Ltac st_simpl := unfold nblocks, add_event, set_block; cbn [blocks needs_wal log].

Section run.
Context (bs : list RPage) (w : bool) (lg : list event).

Lemma ReadBuffer_run b p :
  bget bs b = Some p → ReadBuffer b (mkRel bs w lg) = (mkRel bs w lg, Ok p).
Proof. intros Hb. unfold ReadBuffer, block. cbn. by rewrite Hb. Qed.

Lemma GenericXLog_run1 b p :
  bget bs b = Some p →
  GenericXLog [b] (mkRel bs w lg) =
  (mkRel (bset bs b (zero_hole p)) w (lg ++ [EvWal [(b, zero_hole p)]]), Ok ()).
Proof. intros Hb. unfold GenericXLog, log_images, block. cbn. by rewrite Hb. Qed.

Lemma GenericXLog_run2 b1 b2 p1 p2 :
  bget bs b1 = Some p1 → bget bs b2 = Some p2 →
  GenericXLog [b1; b2] (mkRel bs w lg) =
  (mkRel (bset (bset bs b1 (zero_hole p1)) b2 (zero_hole p2)) w
     (lg ++ [EvWal [(b1, zero_hole p1); (b2, zero_hole p2)]]), Ok ()).
Proof. intros H1 H2. unfold GenericXLog, log_images, block. cbn. rewrite H1, H2. done. Qed.

End run.

(** Run one step of the state monad. *)
Lemma bind_run {A B} (m : M A) (f : A → M B) s s' a :
  m s = (s', Ok a) → (m ≫= f) s = f a s'.
Proof. intros Hm. unfold mbind, M_bind. by rewrite Hm. Qed.

Lemma bind_ext {A B} (m1 m2 : M A) (k1 k2 : A → M B) s :
  m1 s = m2 s → (∀ a s', k1 a s' = k2 a s') → (m1 ≫= k1) s = (m2 ≫= k2) s.
Proof.
  intros Hm Hk. unfold mbind, M_bind. rewrite Hm. destruct (m2 s) as [s' [a|e]]; [apply Hk|done].
Qed.

Lemma lift_run {A} (r : result A) s a : r = Ok a → lift r s = (s, Ok a).
Proof. by intros ->. Qed.

(** * Data pages *)

(** [p] is a page of the tree with opaque data [o] that holds the tuples [its]. *)
Record dpage (p : RPage) (o : RTreePageOpaqueData) (its : list IndexTuple) : Prop := {
  dp_rep : page_rep p its;
  dp_sp : pd_sp p = Some (SpData o);
  dp_special : pd_special p = BLCKSZ - sizeof_RTreePageOpaqueData;
}.

Lemma dpage_opaque p o its : dpage p o its → opaque_of p = Ok o.
Proof. intros []. unfold opaque_of. by rewrite dp_sp0. Qed.

Lemma dpage_zero_hole p o its : dpage p o its → dpage (zero_hole p) o its.
Proof. intros []. by constructor; [apply zero_hole_rep|..]. Qed.

Lemma dpage_set_sp p o o' its : dpage p o its → dpage (page_set_sp (SpData o') p) o' its.
Proof. intros []. by constructor; [apply page_set_sp_rep|..]. Qed.

Lemma dpage_init flags level :
  dpage (rtree_init_datapage flags level) (mkOpaque InvalidBlockNumber flags level 0) [].
Proof. constructor; [|done..]. apply page_set_sp_rep, PageInit_rep. done. Qed.

Lemma dpage_free p o its :
  dpage p o its → pd_upper p - pd_lower p = 8152 - items_space its.
Proof.
  intros []. rewrite (page_rep_free p its), dp_special0 by done.
  unfold BLCKSZ, sizeof_RTreePageOpaqueData, SizeOfPageHeaderData. lia.
Qed.

(** Logging a block, when the relation is logged, keeps what its pages hold. *)
Lemma maybe_wal1 bs (w : bool) lg b p o its :
  bget bs b = Some p → dpage p o its →
  ∃ p' lg', (if w then rtree_wal_insert b else mret ()) (mkRel bs w lg) =
              (mkRel (bset bs b p') w lg', Ok ()) ∧ dpage p' o its.
Proof.
  intros Hb Hp. destruct w.
  - eexists _, _. split; [by apply GenericXLog_run1|by apply dpage_zero_hole].
  - exists p, lg. split; [|done]. by rewrite bset_id.
Qed.

Lemma maybe_wal2 bs (w : bool) lg b1 b2 p1 p2 o1 o2 its1 its2 :
  bget bs b1 = Some p1 → bget bs b2 = Some p2 → b1 ≠ b2 →
  dpage p1 o1 its1 → dpage p2 o2 its2 →
  ∃ p1' p2' lg', (if w then rtree_wal_split b1 b2 else mret ()) (mkRel bs w lg) =
              (mkRel (bset (bset bs b1 p1') b2 p2') w lg', Ok ()) ∧
              dpage p1' o1 its1 ∧ dpage p2' o2 its2.
Proof.
  intros H1 H2 Hne Hp1 Hp2. destruct w.
  - eexists _, _, _. split; [by apply GenericXLog_run2|].
    split; by apply dpage_zero_hole.
  - exists p1, p2, lg. split; [|done]. rewrite (bset_id bs b1 p1) by done.
    by rewrite bset_id.
Qed.

(** A page determines its items. *)
Lemma dpage_items_eq p o its o' its' : dpage p o its → dpage p o' its' → its' = its.
Proof.
  intros [Hp _ _] [Hp' _ _]. apply (list_eq_same_length _ _ (length its)); [done|..].
  - by rewrite <- (page_rep_length _ _ Hp), <- (page_rep_length _ _ Hp').
  - intros i x y _ Hx Hy.
    destruct (page_rep_item _ _ _ _ Hp' Hx) as (a & _ & Ha & _ & _ & Hga).
    destruct (page_rep_item _ _ _ _ Hp Hy) as (b & _ & Hb & _ & _ & Hgb). congruence.
Qed.
