(* ===== verification/Insert.v ===== *)
(** temporal_rtree_insert.c: choosing a subtree, splitting a page, inserting into the
    tree and growing a new root. *)

From S2P Require Import Prelude Float64 Cube Box Split Bufpage Itup Store.

Record RTreeInsertResult : Type := mkInsRes {
  split : bool;
  right_blkno : Z;
  left_box : RTreeTemporalBox;
  right_box : RTreeTemporalBox;
}.

(** [DBL_MAX]. *)
Definition DBL_MAX : double := S754_finite false 9007199254740991 971.

Section insert.
Context `{Platform}.

(** * Choosing the child *)

Definition choose_step (new_is_current : bool) (newbox : RTreeTemporalBox)
    (s : Z * double) (itup : IndexTuple) : Z * double :=
  let '(best_child, best_penalty) := s in
  let child_blkno := ItemPointerGetBlockNumber (t_tid itup) in
  match rtree_index_tuple_box itup with
  | None => s
  | Some child_box =>
      let child_is_current := has_flag (flags child_box) TRTREE_FLAG_UPPER_INF in
      let penalty := tr_penalty_normalized child_box newbox in
      let penalty := if Bool.eqb child_is_current new_is_current
                     then dmul penalty (dlit 8 10) else dmul penalty (dlit 12 10) in
      if dlt penalty best_penalty then (child_blkno, penalty) else s
  end.

Definition page_item (page : RPage) (offnum : Z) : result IndexTuple :=
  itemid ← PageGetItemId page offnum;
  PageGetItem page itemid.

Definition choose_subtree_insert (page : RPage) (newbox : RTreeTemporalBox) : result Z :=
  let maxoff := PageGetMaxOffsetNumber page in
  let new_is_current := has_flag (flags newbox) TRTREE_FLAG_UPPER_INF in
  s ← for_items page (λ s _ itup, Ok (choose_step new_is_current newbox s itup))
        (InvalidBlockNumber, DBL_MAX);
  if (s.1 =? InvalidBlockNumber) && (FirstOffsetNumber <=? maxoff) then
    itup ← page_item page FirstOffsetNumber;
    Ok (ItemPointerGetBlockNumber (t_tid itup))
  else Ok s.1.

(** * Page helpers *)

Definition rtree_page_tuple_box (page : RPage) (offnum : Z) : result RTreeTemporalBox :=
  itup ← page_item page offnum;
  Ok (default zero_box (rtree_index_tuple_box itup)).

(** Works on the page in the buffer: an error after the deletion leaves the page
    without the tuple. *)
Definition rtree_replace_tuple (blkno offnum : Z) (itup : IndexTuple) : M unit :=
  page ← ReadBuffer blkno;
  page ← lift (PageIndexTupleDelete page offnum);
  WritePage blkno page;;
  r ← lift (PageAddItem page itup (IndexTupleSize itup) offnum false false);
  let '(page, off) := r in
  if off =? InvalidOffsetNumber then elog "failed to replace index tuple on page"
  else WritePage blkno page.

(** The C arrays have [MaxHeapTuplesPerPage + 1] entries. *)
Definition rtree_page_collect (page : RPage) : result (list (IndexTuple * RTreeTemporalBox)) :=
  for_items page (λ items offset itup,
    if MaxHeapTuplesPerPage <? zlen items then Err (Undefined "items array overflow")
    else
      box ← rtree_page_tuple_box page offset;
      Ok (items ++ [(CopyIndexTuple itup, box)])) [].

(** The copy loops of the split; the result of [PageAddItem] is not checked. *)
Fixpoint add_items (page : RPage) (items : list IndexTuple) : result RPage :=
  match items with
  | [] => Ok page
  | it :: items =>
      r ← PageAddItem page it (IndexTupleSize it) InvalidOffsetNumber false false;
      add_items r.1 items
  end.

Definition update_opaque (f : RTreePageOpaqueData → RTreePageOpaqueData) (page : RPage)
  : result RPage :=
  o ← opaque_of page;
  Ok (page_set_sp (SpData (f o)) page).

(** * Splitting a page *)

Definition rtree_split_page (blkno : Z) (newitup : IndexTuple) (newbox : RTreeTemporalBox)
    (level flags : Z) : M RTreeInsertResult :=
  page ← ReadBuffer blkno;
  opaque ← lift (opaque_of page);
  let old_rightlink := rightlink opaque in
  let was_root := has_flag (op_flags opaque) TRTREE_PAGE_ROOT in
  let child_flags := Z.land flags (Z.lnot TRTREE_PAGE_ROOT) in
  items ← lift (rtree_page_collect page);
  (if MaxHeapTuplesPerPage <? zlen items then lift (Err (Undefined "items array overflow"))
   else mret ());;
  let items := items ++ [(newitup, newbox)] in
  let '(left_idxs, right_idxs) := tr_picksplit (map snd items) in
  rightblk ← ExtendRelation;
  leftpage ← lift (update_opaque (λ o,
      let o := set_rightlink rightblk o in
      if was_root then set_op_flags (Z.land (op_flags o) (Z.lnot TRTREE_PAGE_ROOT)) o else o)
    (rtree_init_datapage child_flags level));
  rightpage ← lift (update_opaque (set_rightlink old_rightlink)
    (rtree_init_datapage child_flags level));
  WritePage blkno leftpage;;
  WritePage rightblk rightpage;;
  leftpage ← lift (add_items leftpage (omap (λ i, (map fst items) !! i) left_idxs));
  WritePage blkno leftpage;;
  rightpage ← lift (add_items rightpage (omap (λ i, (map fst items) !! i) right_idxs));
  WritePage rightblk rightpage;;
  MarkBufferDirty blkno;;
  MarkBufferDirty rightblk;;
  w ← RelationNeedsWAL;
  (if w : bool then rtree_wal_split blkno rightblk else mret ());;
  leftpage ← ReadBuffer blkno;
  rightpage ← ReadBuffer rightblk;
  lbox ← lift (rtree_page_mbr leftpage);
  rbox ← lift (rtree_page_mbr rightpage);
  mret {| split := true; right_blkno := rightblk; left_box := lbox; right_box := rbox |}.

(** * Inserting *)

Definition no_split (box : RTreeTemporalBox) : RTreeInsertResult :=
  {| split := false; right_blkno := InvalidBlockNumber; left_box := box; right_box := zero_box |}.

Definition rtree_insert_leaf (blkno : Z) (itup : IndexTuple) (box : RTreeTemporalBox)
  : M RTreeInsertResult :=
  page ← ReadBuffer blkno;
  opaque ← lift (opaque_of page);
  if MAXALIGN (IndexTupleSize itup) + sizeof_ItemIdData <=? PageGetFreeSpace page then
    r ← lift (PageAddItem page itup (IndexTupleSize itup) InvalidOffsetNumber false false);
    let '(page, offnum) := r in
    if offnum =? InvalidOffsetNumber
    then rtree_split_page blkno itup box (op_level opaque) (op_flags opaque)
    else
      WritePage blkno page;;
      MarkBufferDirty blkno;;
      w ← RelationNeedsWAL;
      (if w : bool then rtree_wal_insert blkno else mret ());;
      page ← ReadBuffer blkno;
      lbox ← lift (rtree_page_mbr page);
      mret (no_split lbox)
  else rtree_split_page blkno itup box (op_level opaque) (op_flags opaque).

(** The first offset whose downlink is the block [childblk]. *)
Definition find_child (page : RPage) (childblk : Z) : result (option Z) :=
  r ← for_offsets page (λ (s : unit) offset childitup,
        if ItemPointerGetBlockNumber (t_tid childitup) =? childblk
        then Ok (Break offset) else Ok (Continue s))
      (offsets_from page FirstOffsetNumber) ();
  match r with Continue _ => Ok None | Break off => Ok (Some off) end.

(** The end of an insertion below a page that is not split. *)
Definition inner_finish (blkno : Z) : M RTreeInsertResult :=
  MarkBufferDirty blkno;;
  w ← RelationNeedsWAL;
  (if w : bool then rtree_wal_insert blkno else mret ());;
  page ← ReadBuffer blkno;
  lbox ← lift (rtree_page_mbr page);
  mret (no_split lbox).

(** Linking the new right sibling of a child that was split. *)
Definition link_sibling (level : nat) (blkno : Z) (righttuple : IndexTuple)
    (rbox : RTreeTemporalBox) : M RTreeInsertResult :=
  page ← ReadBuffer blkno;
  opaque ← lift (opaque_of page);
  if PageGetFreeSpace page <? MAXALIGN (IndexTupleSize righttuple) + sizeof_ItemIdData
  then rtree_split_page blkno righttuple rbox (Z.of_nat level) (op_flags opaque)
  else
    r ← lift (PageAddItem page righttuple (IndexTupleSize righttuple)
                InvalidOffsetNumber false false);
    WritePage blkno r.1;;
    inner_finish blkno.

(** What follows the recursive call: the page is read again from its buffer, the
    downlink of the child is rewritten and the child's new sibling, if any, linked. *)
Definition insert_above (level : nat) (blkno bestoff : Z) (childres : RTreeInsertResult)
  : M RTreeInsertResult :=
  page ← ReadBuffer blkno;
  childitup ← lift (page_item page bestoff);
  updated ← lift (rtree_form_tuple (left_box childres) (t_tid childitup));
  rtree_replace_tuple blkno bestoff updated;;
  if split childres then
    let right_tid := ItemPointerSet (right_blkno childres) FirstOffsetNumber in
    righttuple ← lift (rtree_form_tuple (right_box childres) right_tid);
    link_sibling level blkno righttuple (right_box childres)
  else inner_finish blkno.

(** [level] counts down to the leaves, so that the recursion is structural. *)
Fixpoint rtree_insert_page (level : nat) (blkno : Z) (itup : IndexTuple)
    (box : RTreeTemporalBox) {struct level} : M RTreeInsertResult :=
  page ← ReadBuffer blkno;
  opaque ← lift (opaque_of page);
  match level with
  | O => rtree_insert_leaf blkno itup box
  | S level' =>
    if has_flag (op_flags opaque) TRTREE_PAGE_LEAF then rtree_insert_leaf blkno itup box
    else
      childblk ← lift (choose_subtree_insert page box);
      if negb (BlockNumberIsValid childblk)
      then elog "temporal_rtree: internal page without downlinks"
      else
        bestoff ← lift (find_child page childblk);
        match bestoff with
        | None => elog "temporal_rtree: could not locate chosen child on page"
        | Some bestoff =>
            childres ← rtree_insert_page level' childblk itup box;
            insert_above level blkno bestoff childres
        end
  end.

(** * Growing the tree *)

Definition rtree_root_promote (leftblk : Z) (sp : RTreeInsertResult) (old_level : Z) : M Z :=
  ReadBuffer leftblk;;
  rootblk ← ExtendRelation;
  let left_tid := ItemPointerSet leftblk FirstOffsetNumber in
  let right_tid := ItemPointerSet (right_blkno sp) FirstOffsetNumber in
  lefttuple ← lift (rtree_form_tuple (left_box sp) left_tid);
  righttuple ← lift (rtree_form_tuple (right_box sp) right_tid);
  let rootpage := rtree_init_datapage TRTREE_PAGE_ROOT (uint16 (old_level + 1)) in
  r ← lift (PageAddItem rootpage lefttuple (IndexTupleSize lefttuple) InvalidOffsetNumber false false);
  r ← lift (PageAddItem r.1 righttuple (IndexTupleSize righttuple) InvalidOffsetNumber false false);
  WritePage rootblk r.1;;
  MarkBufferDirty rootblk;;
  leftpage ← ReadBuffer leftblk;
  leftpage ← lift (update_opaque (λ o,
      set_op_flags (Z.land (op_flags o) (Z.lnot TRTREE_PAGE_ROOT)) o) leftpage);
  WritePage leftblk leftpage;;
  MarkBufferDirty leftblk;;
  mret rootblk.

Definition set_root (rootblk level : Z) (m : RTreeMetaPageData) : RTreeMetaPageData :=
  {| magic := magic m; root := rootblk; root_level := level; meta_flags := meta_flags m |}.

Definition temporal_rtree_insert (value : option NDBOX) (ht_ctid : ItemPointerData) : M bool :=
  n ← RelationGetNumberOfBlocks;
  (if n <? 2 then temporal_rtree_buildempty else mret ());;
  itup ← lift (index_form_tuple value);
  let itup := set_tid ht_ctid itup in
  match rtree_index_tuple_box itup with
  | None => mret true
  | Some box =>
      metapage ← ReadBuffer 0;
      meta ← lift (meta_of metapage);
      if negb (magic meta =? TRTREE_META_MAGIC) then elog "temporal_rtree: missing meta page"
      else
        let rootblk := root meta in
        let rootlevel := root_level meta in
        result ← rtree_insert_page (Z.to_nat rootlevel) rootblk itup box;
        if split result then
          new_rootblk ← rtree_root_promote rootblk result rootlevel;
          metapage ← ReadBuffer 0;
          meta ← lift (meta_of metapage);
          WritePage 0 (page_set_sp (SpMeta (set_root new_rootblk (uint16 (rootlevel + 1)) meta)) metapage);;
          MarkBufferDirty 0;;
          mret true
        else mret true
  end.

End insert.
