(* ===== verification/Tree.v ===== *)
(** The tree of pages an index consists of, and that insertion keeps it: every tuple
    of the tree stays and the new one is added. *)

From S2P Require Import Prelude Float64 Cube Box Split Bufpage Itup Store Insert.

(** The leaf tuples and the blocks of a subtree. *)
Abbreviation sub := (list IndexTuple * list Z)%type.

Section tree.
Context `{Platform}.
Implicit Types (bs : list RPage) (p : RPage) (o : RTreePageOpaqueData)
  (its c : list IndexTuple) (fp : list Z) (it : IndexTuple).

Definition child (it : IndexTuple) : Z := ItemPointerGetBlockNumber (t_tid it).

(** Block [blk] is the root of a tree of height [lvl] in the file [bs]: it holds the
    leaf tuples [c], in the order of a left-to-right walk, on the blocks [fp]. *)
Fixpoint tree (lvl : nat) (bs : list RPage) (blk : Z) (c : list IndexTuple) (fp : list Z) : Prop :=
  ∃ p o its, bget bs blk = Some p ∧ dpage p o its ∧ op_level o = Z.of_nat lvl ∧
    Forall tuple_ok its ∧
    match lvl with
    | O => has_flag (op_flags o) TRTREE_PAGE_LEAF = true ∧ c = its ∧ fp = [blk]
    | S l => has_flag (op_flags o) TRTREE_PAGE_LEAF = false ∧ its ≠ [] ∧
        ∃ subs, Forall2 (λ it s, tree l bs (child it) s.1 s.2) its subs ∧
                c = concat (map fst subs) ∧ fp = blk :: concat (map snd subs)
    end.

(** A tree depends only on the blocks of its footprint. *)
Lemma tree_frame lvl bs bs' blk c fp :
  tree lvl bs blk c fp → (∀ b, b ∈ fp → bget bs' b = bget bs b) → tree lvl bs' blk c fp.
Proof.
  revert blk c fp. induction lvl as [|l IH]; intros blk c fp; cbn [tree];
    intros (p & o & its & Hb & Hp & Hl & Ht & Hm) HF.
  - destruct Hm as (? & ? & ->). exists p, o, its. rewrite HF by left. done.
  - destruct Hm as (Hlf & Hne & subs & HS & -> & ->).
    exists p, o, its. rewrite HF by left. split_and!; try done. exists subs. split_and!; try done.
    assert (HF' : ∀ b, b ∈ concat (map snd subs) → bget bs' b = bget bs b)
      by (intros; apply HF; by right).
    clear -HS IH HF'. induction HS as [|it s its subs Hs HS IH2]; constructor.
    + eapply IH; [done|]. intros b Hb. apply HF'. cbn. apply elem_of_app. by left.
    + apply IH2. intros b Hb. apply HF'. cbn. apply elem_of_app. by right.
Qed.

Lemma tree_range lvl bs blk c fp : tree lvl bs blk c fp → Forall (λ b, 0 ≤ b < zlen bs) fp.
Proof.
  revert blk c fp. induction lvl as [|l IH]; intros blk c fp; cbn [tree];
    intros (p & o & its & Hb & Hp & Hl & Ht & Hm); apply bget_range in Hb.
  - destruct Hm as (? & ? & ->). by constructor.
  - destruct Hm as (_ & _ & subs & HS & -> & ->). constructor; [done|]. clear -HS IH.
    induction HS as [|it s its subs Hs HS IH2]; cbn; [constructor|].
    apply Forall_app. split; [by eapply IH|done].
Qed.

Lemma tree_root_in lvl bs blk c fp : tree lvl bs blk c fp → blk ∈ fp.
Proof.
  destruct lvl; cbn [tree]; intros (p & o & its & Hb & Hp & Hl & Ht & Hm); destruct_and?; des;
    subst; left.
Qed.

(** No leaf below block [blk] is empty. *)
Fixpoint filled (lvl : nat) (bs : list RPage) (blk : Z) : Prop :=
  ∀ p o its, bget bs blk = Some p → dpage p o its →
    match lvl with
    | O => its ≠ []
    | S l => Forall (λ it, filled l bs (child it)) its
    end.

Lemma filled_tree lvl bs blk c fp : tree lvl bs blk c fp → filled lvl bs blk → c ≠ [].
Proof.
  revert blk c fp. induction lvl as [|l IH]; intros blk c fp (p & o & its & Hb & Hp & _ & _ & Hm) HF.
  - destruct Hm as (_ & -> & _). by apply (HF p o).
  - destruct Hm as (_ & Hne & subs & HS & -> & _). specialize (HF p o its Hb Hp). destruct HS as [|it s its subs Hs _]; [done|]. inversion HF; subst.
    cbn [map concat]. intros [E _]%app_eq_nil. by apply (IH (child it) s.1 s.2).
Qed.

(** * Uniform pages *)

Lemma items_space_uniform its : Forall tuple_ok its → items_space its = 52 * zlen its.
Proof.
  intros HF. unfold items_space. apply zsum_const. eapply Forall_impl; [exact HF|].
  intros it [Hs _]. unfold item_size, IndexTuple_size. by rewrite Hs.
Qed.

Lemma dpage_uniform_free p o its :
  dpage p o its → Forall tuple_ok its → pd_upper p - pd_lower p = 8152 - 52 * zlen its.
Proof. intros Hp HF. rewrite (dpage_free p o its), items_space_uniform by done. done. Qed.

Lemma dpage_uniform_len p o its :
  dpage p o its → Forall tuple_ok its → 52 * zlen its ≤ 8152.
Proof.
  intros Hp HF. pose proof (dpage_uniform_free _ _ _ Hp HF). pose proof (pr_fits _ _ (dp_rep _ _ _ Hp)). lia.
Qed.

Lemma dpage_added p o its it i :
  dpage p o its → tuple_ok it → Forall tuple_ok its → (i ≤ length its)%nat →
  52 * zlen its + 52 ≤ 8152 →
  dpage (added p it i) o (take i its ++ it :: drop i its).
Proof.
  intros Hp [Hs _] HF Hi Hfit. pose proof (dpage_uniform_free _ _ _ Hp HF).
  constructor; [|apply Hp|apply Hp]. apply added_rep; [apply Hp|..|done|].
  - unfold item_size, IndexTuple_size. rewrite Hs. done.
  - unfold item_size, IndexTuple_size. rewrite Hs. change (MAXALIGN TUPLE_SIZE) with 48.
    unfold sizeof_ItemIdData. lia.
Qed.

(** [PageAddItem] on a page of uniform tuples. *)
Lemma dpage_add p o its it off :
  dpage p o its → tuple_ok it → Forall tuple_ok its → 0 ≤ off ≤ zlen its + 1 →
  52 * zlen its + 52 ≤ 8152 →
  ∃ p', PageAddItem p it (IndexTupleSize it) off false false =
          Ok (p', Z.of_nat (slot_of its off) + 1) ∧
        dpage p' o (take (slot_of its off) its ++ it :: drop (slot_of its off) its).
Proof.
  intros Hp Hit HF Ho Hfit. pose proof (dpage_uniform_free _ _ _ Hp HF) as Hfree.
  exists (added p it (slot_of its off)). split; [|apply dpage_added; try done].
  - destruct Hit as [Hs _]. change (IndexTupleSize it) with (item_size it) at 1.
    rewrite (PageAddItem_rep p its); [|apply Hp|unfold item_size, IndexTuple_size; rewrite Hs; done|done].
    unfold item_size, IndexTuple_size. rewrite Hs. change (MAXALIGN TUPLE_SIZE) with 48.
    destruct (Z.ltb_spec (pd_upper p - pd_lower p) (48 + sizeof_ItemIdData)) as [Hlt|];
      [unfold sizeof_ItemIdData in Hlt; lia|done].
  - unfold slot_of, InvalidOffsetNumber, zlen in *. destruct (Z.eqb_spec off 0); lia.
Qed.

Lemma dpage_append p o its it :
  dpage p o its → tuple_ok it → Forall tuple_ok its → 52 * zlen its + 52 ≤ 8152 →
  ∃ p', PageAddItem p it (IndexTupleSize it) InvalidOffsetNumber false false =
          Ok (p', zlen its + 1) ∧ dpage p' o (its ++ [it]).
Proof.
  intros Hp Hit HF Hfit. destruct (dpage_add p o its it 0) as (p' & He & Hd); try done.
  - pose proof (zlen_nonneg its). lia.
  - change (slot_of its 0) with (length its) in *. rewrite take_ge, drop_ge in Hd by done. eauto.
Qed.

Lemma add_items_rep p o its new :
  dpage p o its → Forall tuple_ok its → Forall tuple_ok new →
  52 * (zlen its + zlen new) ≤ 8152 →
  ∃ p', add_items p new = Ok p' ∧ dpage p' o (its ++ new).
Proof.
  intros Hp HF HN. revert p its Hp HF. induction HN as [|it new Hit HN IH]; intros p its Hp HF Hfit.
  - exists p. rewrite app_nil_r. done.
  - unfold zlen in Hfit; cbn [length] in Hfit.
    destruct (dpage_append p o its it) as (p' & He & Hd); try done; [unfold zlen; lia|].
    cbn [add_items]. rewrite He. rsimpl.
    destruct (IH p' (its ++ [it])) as (p'' & He' & Hd'); [done|..].
    + apply Forall_app. by split; [|constructor].
    + rewrite zlen_app. unfold zlen in *. cbn. lia.
    + exists p''. split; [done|]. by rewrite <- app_assoc in Hd'.
Qed.

(** * Splitting a page *)

Definition box_of (it : IndexTuple) : RTreeTemporalBox :=
  default zero_box (rtree_index_tuple_box it).

Lemma page_item_rep p its i it :
  page_rep p its → its !! i = Some it → page_item p (Z.of_nat i + 1) = Ok it.
Proof.
  intros Hp Hi. destruct (page_rep_item _ _ _ _ Hp Hi) as (a & Hg & _ & _ & _ & Hit).
  unfold page_item. rewrite Hg. done.
Qed.

Lemma collect_rep p its :
  page_rep p its → zlen its ≤ MaxHeapTuplesPerPage + 1 →
  rtree_page_collect p = Ok (map (λ it, (it, box_of it)) its).
Proof.
  intros Hp Hlen. unfold rtree_page_collect. rewrite (for_items_rep p its) by done.
  assert (HG : ∀ suf pre, its = pre ++ suf →
    fold_items (λ items offset itup,
      if MaxHeapTuplesPerPage <? zlen items then Err (Undefined "items array overflow")
      else box ← rtree_page_tuple_box p offset; Ok (items ++ [(CopyIndexTuple itup, box)]))
      (zlen pre + 1) suf (map (λ it, (it, box_of it)) pre) =
    Ok (map (λ it, (it, box_of it)) its)); [|by apply (HG its [])].
  intros suf. induction suf as [|it suf IH]; intros pre Heq; cbn [fold_items].
  - by rewrite Heq, app_nil_r.
  - assert (Hl : zlen its = zlen pre + (zlen suf + 1)).
    { rewrite Heq, zlen_app. unfold zlen. cbn. lia. }
    pose proof (zlen_nonneg suf).
    replace (zlen (map _ pre)) with (zlen pre) by (unfold zlen; by rewrite length_map).
    destruct (Z.ltb_spec MaxHeapTuplesPerPage (zlen pre)); [lia|].
    assert (Hi : its !! length pre = Some it) by (rewrite Heq; by apply list_lookup_middle).
    unfold rtree_page_tuple_box, zlen. rewrite (page_item_rep p its _ it Hp Hi). rsimpl.
    specialize (IH (pre ++ [it])). rewrite map_app, zlen_app in IH. cbn [map] in IH.
    unfold zlen in IH. cbn [length] in IH. apply IH. by rewrite <- app_assoc.
Qed.

(** The bounding box of the tuples of a page. *)
Definition mbr (its : list IndexTuple) : RTreeTemporalBox :=
  (foldl mbr_step (empty_box, true) its).1.

Lemma pick_perm its (l r : list nat) :
  l ++ r ≡ₚ seq 0 (length its) →
  omap (λ i, its !! i) l ++ omap (λ i, its !! i) r ≡ₚ its.
Proof.
  intros HP. rewrite <- omap_app. rewrite (omap_perm _ _ _ HP). by rewrite omap_lookup_seq.
Qed.

Lemma omap_lookup_length its (l : list nat) :
  Forall (λ i, (i < length its)%nat) l → length (omap (λ i, its !! i) l) = length l.
Proof.
  induction 1 as [|i l Hi _ IH]; [done|]. cbn.
  destruct (lookup_lt_is_Some_2 its i Hi) as [x ->]. cbn. by rewrite IH.
Qed.

(** The two sides of a split of the tuples [its]. *)
Lemma picksplit_sides (boxes : list RTreeTemporalBox) its left_idxs right_idxs :
  length boxes = length its → (2 ≤ length its)%nat →
  tr_picksplit boxes = (left_idxs, right_idxs) →
  let l := omap (λ i, its !! i) left_idxs in
  let r := omap (λ i, its !! i) right_idxs in
  l ++ r ≡ₚ its ∧ l ≠ [] ∧ r ≠ [].
Proof.
  intros Hlen H2 He. cbv zeta. pose proof (picksplit_split boxes) as HS.
  rewrite Hlen, He in HS. destruct HS as (HP & Hl & Hr); [done|]. cbn [fst snd] in *.
  assert (HF : Forall (λ i, (i < length its)%nat) (left_idxs ++ right_idxs)).
  { rewrite HP. apply Forall_seq. lia. }
  apply Forall_app in HF as [HFl HFr]. split_and!; [by apply pick_perm|..].
  - intros Hn. apply (f_equal length) in Hn. rewrite omap_lookup_length in Hn by done.
    by destruct left_idxs.
  - intros Hn. apply (f_equal length) in Hn. rewrite omap_lookup_length in Hn by done.
    by destruct right_idxs.
Qed.

Lemma has_flag_clear_root f :
  has_flag (Z.land f (Z.lnot TRTREE_PAGE_ROOT)) TRTREE_PAGE_LEAF = has_flag f TRTREE_PAGE_LEAF.
Proof. unfold has_flag. rewrite <- Z.land_assoc. done. Qed.

Lemma update_opaque_rep p o its f :
  dpage p o its → ∃ p', update_opaque f p = Ok p' ∧ dpage p' (f o) its.
Proof.
  intros Hp. unfold update_opaque. rewrite (dpage_opaque _ _ _ Hp). rsimpl.
  eexists. split; [done|]. by eapply dpage_set_sp.
Qed.

(** What a page split leaves: the tuples of the page and the new one are divided
    over the page and one new page. *)
Record split_post bs bs' (blk : Z) (all : list IndexTuple) (level flags : Z)
    (res : RTreeInsertResult) : Prop := {
  sp_split : split res = true;
  sp_right : right_blkno res = zlen bs;
  sp_len : zlen bs' = zlen bs + 1;
  sp_frame b : b ≠ blk → b < zlen bs → bget bs' b = bget bs b;
  sp_pages : ∃ pl pr ol orr l r,
    bget bs' blk = Some pl ∧ bget bs' (zlen bs) = Some pr ∧
    dpage pl ol l ∧ dpage pr orr r ∧
    l ++ r ≡ₚ all ∧ l ≠ [] ∧ r ≠ [] ∧
    op_level ol = level ∧ op_level orr = level ∧
    has_flag (op_flags ol) TRTREE_PAGE_LEAF = has_flag flags TRTREE_PAGE_LEAF ∧
    has_flag (op_flags orr) TRTREE_PAGE_LEAF = has_flag flags TRTREE_PAGE_LEAF ∧
    left_box res = mbr l ∧ right_box res = mbr r;
}.

Lemma WritePage_run bs w lg b p :
  WritePage b p (mkRel bs w lg) = (mkRel (bset bs b p) w lg, Ok ()).
Proof. done. Qed.

(** The end of a split, once both pages are filled. *)
Lemma split_finish_run bs bs2 w lg blk pl pr ol orr l r all level flags :
  bget bs2 blk = Some pl → bget bs2 (zlen bs) = Some pr → blk < zlen bs →
  zlen bs2 = zlen bs + 1 → (∀ b, b ≠ blk → b < zlen bs → bget bs2 b = bget bs b) →
  dpage pl ol l → dpage pr orr r → l ++ r ≡ₚ all → l ≠ [] → r ≠ [] →
  op_level ol = level → op_level orr = level →
  has_flag (op_flags ol) TRTREE_PAGE_LEAF = has_flag flags TRTREE_PAGE_LEAF →
  has_flag (op_flags orr) TRTREE_PAGE_LEAF = has_flag flags TRTREE_PAGE_LEAF →
  ∃ bs' lg' res,
    ((if w : bool then rtree_wal_split blk (zlen bs) else mret ());;
     leftpage ← ReadBuffer blk;
     rightpage ← ReadBuffer (zlen bs);
     lbox ← lift (rtree_page_mbr leftpage);
     rbox ← lift (rtree_page_mbr rightpage);
     mret {| split := true; right_blkno := zlen bs; left_box := lbox; right_box := rbox |})
      (mkRel bs2 w lg) = (mkRel bs' w lg', Ok res) ∧
    split_post bs bs' blk all level flags res.
Proof.
  intros Hl Hr Hlt Hlen Hfr Dl Dr HP Hnl Hnr Ll Lr Fl Fr.
  pose proof (bget_range _ _ _ Hl).
  destruct (maybe_wal2 bs2 w lg _ _ _ _ _ _ _ _ Hl Hr ltac:(lia) Dl Dr)
    as (pl' & pr' & lg' & Hw & Dl' & Dr').
  erewrite bind_run by (exact Hw).
  set (bs3 := bset _ _ _). assert (Hl3 : bget bs3 blk = Some pl') by (subst bs3; by bget_simpl).
  assert (Hr3 : bget bs3 (zlen bs) = Some pr') by (subst bs3; by bget_simpl).
  erewrite bind_run by (by apply ReadBuffer_run). erewrite bind_run by (by apply ReadBuffer_run).
  erewrite bind_run by (apply lift_run, rtree_page_mbr_rep, Dl').
  erewrite bind_run by (apply lift_run, rtree_page_mbr_rep, Dr').
  exists bs3, lg'. eexists. split; [done|]. constructor; [done|done|..].
  - subst bs3. rewrite !zlen_bset. done.
  - intros b ??. subst bs3. bget_simpl. by apply Hfr.
  - exists pl', pr', ol, orr, l, r. split_and!; done.
Qed.

Lemma split_page_run bs w lg blk p o its newit newbox level flags :
  bget bs blk = Some p → dpage p o its → its ≠ [] → Forall tuple_ok its → tuple_ok newit →
  ∃ bs' lg' res,
    rtree_split_page blk newit newbox level flags (mkRel bs w lg) = (mkRel bs' w lg', Ok res) ∧
    split_post bs bs' blk (its ++ [newit]) level flags res.
Proof.
  intros Hb Hp Hne HF Hnew. pose proof (dpage_uniform_len _ _ _ Hp HF) as Hlen.
  pose proof (bget_range _ _ _ Hb) as Hrange.
  unfold rtree_split_page.
  erewrite bind_run by (by apply ReadBuffer_run).
  erewrite bind_run by (by apply lift_run; eapply dpage_opaque).
  erewrite bind_run by (apply lift_run, (collect_rep p its); [apply Hp|unfold MaxHeapTuplesPerPage; lia]).
  replace (zlen (map (λ it, (it, box_of it)) its)) with (zlen its) by (unfold zlen; by rewrite length_map).
  destruct (Z.ltb_spec MaxHeapTuplesPerPage (zlen its)) as [Hlt|_];
    [unfold MaxHeapTuplesPerPage in Hlt; lia|].
  erewrite bind_run by done.
  destruct (tr_picksplit _) as [left_idxs right_idxs] eqn:Hps.
  assert (Hfst : map fst (map (λ it, (it, box_of it)) its ++ [(newit, newbox)]) = its ++ [newit]).
  { rewrite map_app, map_map. cbn [map fst]. by rewrite map_id. }
  rewrite Hfst.
  apply (picksplit_sides _ (its ++ [newit])) in Hps as (HP & Hl & Hr); cycle 1.
  { rewrite length_map, !length_app, length_map. done. }
  { rewrite length_app. cbn. destruct its; [done|cbn; lia]. }
  set (l := omap _ left_idxs) in *. set (r := omap _ right_idxs) in *.
  assert (HFall : Forall tuple_ok (l ++ r)).
  { rewrite HP. apply Forall_app. by split; [|constructor]. }
  apply Forall_app in HFall as [HFl HFr].
  assert (Hlens : zlen l + zlen r = zlen its + 1).
  { apply Permutation_length in HP. rewrite !length_app in HP. unfold zlen. cbn in HP. lia. }
  assert (1 ≤ zlen l ∧ 1 ≤ zlen r) as [? ?]
    by (unfold zlen; destruct l; [done|]; destruct r; [done|]; cbn; lia).
  erewrite bind_run by done. cbn [nblocks blocks needs_wal log].
  pose proof (dpage_init (Z.land flags (Z.lnot TRTREE_PAGE_ROOT)) level) as Hinit.
  set (ip := rtree_init_datapage _ _) in *. clearbody ip.
  destruct (update_opaque_rep _ _ _ (set_rightlink (rightlink o)) Hinit) as (pr0 & Hpr0 & Dr0).
  rewrite Hpr0.
  match goal with |- context [update_opaque ?f ip] =>
    destruct (update_opaque_rep _ _ _ f Hinit) as (pl0 & Hpl0 & Dl0) end.
  erewrite bind_run by (apply lift_run, Hpl0).
  erewrite bind_run by done.
  erewrite bind_run by done. erewrite bind_run by done.
  destruct (add_items_rep pl0 _ [] l Dl0) as (pl1 & Hpl1 & Dl1);
    [constructor|done|unfold zlen in *; cbn; lia|].
  destruct (add_items_rep pr0 _ [] r Dr0) as (pr1 & Hpr1 & Dr1);
    [constructor|done|unfold zlen in *; cbn; lia|].
  erewrite bind_run by (apply lift_run, Hpl1). erewrite bind_run by done.
  erewrite bind_run by (apply lift_run, Hpr1). erewrite bind_run by done.
  erewrite bind_run by done. erewrite bind_run by done. erewrite bind_run by done.
  cbn [app] in *. st_simpl.
  eapply split_finish_run; [..|exact Dl1|exact Dr1|exact HP|done|done| | | |].
  - st_simpl; by bget_simpl.
  - st_simpl; by bget_simpl.
  - lia.
  - st_simpl. rewrite !zlen_bset, zlen_app. done.
  - intros b ??. st_simpl. bget_simpl. done.
  - by destruct (has_flag (op_flags o) _).
  - done.
  - destruct (has_flag (op_flags o) _); cbn; rewrite !has_flag_clear_root; done.
  - cbn. by rewrite has_flag_clear_root.
Qed.

(** * Inserting *)

(** Blocks of a footprint after an operation: old ones or new ones. *)
Definition fp_within bs bs' fp fp' : Prop :=
  ∀ b, b ∈ fp' → b ∈ fp ∨ zlen bs ≤ b < zlen bs'.

(** What an insertion of [itup] that splits no page does to the pages: a leaf may get the
    tuple at its end, and the downlinks of an inner page keep their children and order. *)
Definition page_grows (itup : IndexTuple) (leaf : bool) its its' : Prop :=
  if leaf then its' = its ∨ its' = its ++ [itup] else map child its' = map child its.

Definition grows (itup : IndexTuple) bs bs' : Prop :=
  zlen bs' = zlen bs ∧
  ∀ b p o its, bget bs b = Some p → dpage p o its → Forall tuple_ok its →
    ∃ p' its', bget bs' b = Some p' ∧ dpage p' o its' ∧ Forall tuple_ok its' ∧
      page_grows itup (has_flag (op_flags o) TRTREE_PAGE_LEAF) its its'.

Lemma page_grows_refl itup leaf its : page_grows itup leaf its its.
Proof. unfold page_grows. destruct leaf; [by left|done]. Qed.

(** Rewriting one page after the others grew. *)
Lemma grows_bset itup bs bs1 blk p o its p' its' :
  grows itup bs bs1 ∨ bs1 = bs → bget bs blk = Some p → dpage p o its → bget bs1 blk = Some p → dpage p' o its' →
  Forall tuple_ok its' → page_grows itup (has_flag (op_flags o) TRTREE_PAGE_LEAF) its its' →
  grows itup bs (bset bs1 blk p').
Proof.
  intros HG Hb Hp Hb1 Hp' HF Hg. pose proof (bget_range _ _ _ Hb1) as Hr.
  assert (Hlen : zlen bs1 = zlen bs) by (by destruct HG as [[HL _]| -> ]).
  split; [by rewrite zlen_bset|]. intros b q oq iq Hq Dq HFq.
  destruct (decide (b = blk)) as [->|Hne].
  - assert (q = p) as -> by congruence.
    assert (oq = o) as -> by (pose proof (dpage_opaque _ _ _ Dq); pose proof (dpage_opaque _ _ _ Hp); congruence).
    assert (iq = its) as -> by (by eapply dpage_items_eq).
    exists p', its'. split_and!; [by bget_simpl|done..].
  - destruct HG as [[_ HG]| -> ].
    + destruct (HG b q oq iq Hq Dq HFq) as (q' & iq' & ? & ? & ? & ?). exists q', iq'.
      split_and!; try done. rewrite bget_bset_ne; [done|lia|done].
    + exists q, iq. rewrite bget_bset_ne by (lia || done). split_and!; try done. apply page_grows_refl.
Qed.

(** What inserting [itup] into the tree of height [lvl] at [blk] leaves. *)
Record ins_post (lvl : nat) bs bs' (blk : Z) c fp (itup : IndexTuple)
    (res : RTreeInsertResult) : Prop := {
  ip_len : zlen bs ≤ zlen bs' ≤ zlen bs + Z.of_nat lvl + 1;
  ip_frame b : b < zlen bs → b ∉ fp → bget bs' b = bget bs b;
  ip_left : good_box (left_box res);
  ip_right : if split res then good_box (right_box res) else True;
  ip_trees : if split res then
      ∃ c1 f1 c2 f2, tree lvl bs' blk c1 f1 ∧ tree lvl bs' (right_blkno res) c2 f2 ∧
        c1 ++ c2 ≡ₚ itup :: c ∧ NoDup (f1 ++ f2) ∧ fp_within bs bs' fp (f1 ++ f2)
    else
      ∃ c' f', tree lvl bs' blk c' f' ∧ c' ≡ₚ itup :: c ∧ NoDup f' ∧ fp_within bs bs' fp f';
  ip_grow : zlen bs' = zlen bs → split res = false ∧ grows itup bs bs';
  ip_filled : lvl = O ∨ filled lvl bs blk → filled lvl bs' blk ∧ (split res = true → filled lvl bs' (right_blkno res));
}.

Lemma filled_leaf bs blk p o its : bget bs blk = Some p → dpage p o its → its ≠ [] → filled 0 bs blk.
Proof. intros Hb Hp Hne p' o' its' Hb' Hp'. assert (p' = p) as -> by congruence. assert (its' = its) as -> by (by eapply dpage_items_eq). done. Qed.

Lemma filled_inner l bs blk p o its : bget bs blk = Some p → dpage p o its → Forall (λ it, filled l bs (child it)) its → filled (S l) bs blk.
Proof. intros Hb Hp HF p' o' its' Hb' Hp'. assert (p' = p) as -> by congruence. assert (its' = its) as -> by (by eapply dpage_items_eq). done. Qed.

(** It depends only on the blocks of the tree. *)
Lemma filled_frame lvl bs bs' blk c fp :
  tree lvl bs blk c fp → (∀ b, b ∈ fp → bget bs' b = bget bs b) → filled lvl bs blk → filled lvl bs' blk.
Proof.
  revert blk c fp. induction lvl as [|l IH]; intros blk c fp (p & o & its & Hb & Hp & _ & _ & Hm) HB HF.
  - destruct Hm as (_ & _ & ->). apply (filled_leaf bs' blk p o its); [by rewrite HB by left|done|]. by apply (HF p o).
  - destruct Hm as (_ & _ & subs & HS & _ & ->). apply (filled_inner l bs' blk p o its); [by rewrite HB by left|done|]. specialize (HF p o its Hb Hp).
    assert (HB' : ∀ b, b ∈ concat (map snd subs) → bget bs' b = bget bs b) by (intros; apply HB; by right). clear -IH HS HF HB'.
    induction HS as [|it s its subs Hs HS IH2]; [constructor|]. inversion HF as [|? ? H1 H2]; subst. constructor.
    + apply (IH _ s.1 s.2 Hs); [|done]. intros b Hb. apply HB'. cbn. apply elem_of_app. by left.
    + apply IH2; [done|]. intros b Hb. apply HB'. cbn. apply elem_of_app. by right.
Qed.

Lemma split_post_good bs bs' blk all level flags res :
  split_post bs bs' blk all level flags res → Forall tuple_ok all →
  good_box (left_box res) ∧ good_box (right_box res).
Proof.
  intros [_ _ _ _ (pl & pr & ol & orr & l & r & ? & ? & ? & ? & HP & Hl & Hr & ? & ? & ? & ? & -> & ->)] HF.
  rewrite <- HP in HF. apply Forall_app in HF as [??]. split; by apply mbr_good.
Qed.

Lemma leaf_split_post bs bs' blk its itup level flags res :
  0 ≤ blk < zlen bs →
  split_post bs bs' blk (its ++ [itup]) level flags res → Forall tuple_ok (its ++ [itup]) →
  level = 0 → has_flag flags TRTREE_PAGE_LEAF = true →
  ins_post 0 bs bs' blk its [blk] itup res.
Proof.
  intros Hblk HS HF -> Hlf. pose proof (split_post_good _ _ _ _ _ _ _ HS HF) as [??].
  destruct HS as [Hs Hr Hlen Hfr (pl & pr & ol & orr & l & r & Hl & Hrr & Dl & Dr & HP & Hnl & Hnr & Ll & Lr & Fl & Fr & _)].
  rewrite <- HP in HF. apply Forall_app in HF as [HFl HFr].
  constructor; rewrite ?Hs; try done; [lia|..].
  - intros b Hb Hn. apply Hfr; [|done]. intros ->. apply Hn. left.
  - exists l, [blk], r, [zlen bs]. rewrite Hr. split_and!.
    + exists pl, ol, l. split_and!; first [done|lia|congruence].
    + exists pr, orr, r. split_and!; first [done|lia|congruence].
    + rewrite HP. by rewrite Permutation_app_comm.
    + apply NoDup_cons. split; [|apply NoDup_singleton]. rewrite list_elem_of_singleton. lia.
    + intros b [Hin|Hin]%elem_of_app; [by left|right].
      apply list_elem_of_singleton in Hin. lia.
  - lia.
  - intros _. rewrite Hr. split; [by apply (filled_leaf bs' blk pl ol l)|]. intros _. by apply (filled_leaf bs' (zlen bs) pr orr r).
Qed.

Lemma insert_leaf_run bs w lg blk p o its itup box :
  bget bs blk = Some p → dpage p o its → op_level o = 0 → Forall tuple_ok its →
  has_flag (op_flags o) TRTREE_PAGE_LEAF = true → tuple_ok itup →
  ∃ bs' lg' res,
    rtree_insert_leaf blk itup box (mkRel bs w lg) = (mkRel bs' w lg', Ok res) ∧
    ins_post 0 bs bs' blk its [blk] itup res.
Proof.
  intros Hb Hp Hlev HF Hlf Hit. pose proof (bget_range _ _ _ Hb) as Hrange.
  pose proof (dpage_uniform_free _ _ _ Hp HF) as Hfree.
  unfold rtree_insert_leaf. erewrite bind_run by (by apply ReadBuffer_run).
  erewrite bind_run by (by apply lift_run; eapply dpage_opaque).
  assert (Hsz : IndexTupleSize itup = 48) by apply Hit. rewrite !Hsz.
  change (MAXALIGN 48) with 48. unfold PageGetFreeSpace, sizeof_ItemIdData. rewrite Hfree.
  assert (HFall : Forall tuple_ok (its ++ [itup])) by (apply Forall_app; by split; [|constructor]).
  destruct (Z.leb_spec (48 + 4)
    (if 8152 - 52 * zlen its <? 4 then 0 else 8152 - 52 * zlen its - 4)) as [Hfit|Hfull].
  - destruct (dpage_append p o its itup) as (p1 & He & Dp1); try done.
    { destruct (Z.ltb_spec (8152 - 52 * zlen its) 4); lia. }
    rewrite Hsz in He. erewrite bind_run by (apply lift_run, He). cbv beta iota zeta.
    pose proof (zlen_nonneg its). destruct (Z.eqb_spec (zlen its + 1) InvalidOffsetNumber) as [E|_];
      [unfold InvalidOffsetNumber in E; lia|].
    erewrite bind_run by done. erewrite bind_run by done. erewrite bind_run by done. st_simpl.
    destruct (maybe_wal1 (bset bs blk p1) w (lg ++ [EvDirty blk]) blk p1 o (its ++ [itup]))
      as (p2 & lg' & Hw & Dp2); [by bget_simpl|done|].
    erewrite bind_run by (exact Hw). rewrite bset_bset.
    erewrite bind_run by (apply ReadBuffer_run; by bget_simpl).
    erewrite bind_run by (apply lift_run, rtree_page_mbr_rep, Dp2).
    eexists _, _, _. split; [done|]. constructor; cbn [no_split split left_box].
    + rewrite zlen_bset. lia.
    + intros b Hlt Hn. apply bget_bset_ne; [lia|]. intros ->. apply Hn. left.
    + apply mbr_good; [by destruct its|done].
    + done.
    + exists (its ++ [itup]), [blk]. split_and!.
      * exists p2, o, (its ++ [itup]). split_and!; first [done|by bget_simpl|lia].
      * by rewrite Permutation_app_comm.
      * apply NoDup_singleton.
      * intros b ?. by left.
    + intros _. split; [done|]. apply (grows_bset itup bs bs blk p o its p2 (its ++ [itup])); try done; [by right|].
      rewrite Hlf. by right.
    + intros _. split; [|done]. apply (filled_leaf _ blk p2 o (its ++ [itup])); [by bget_simpl|done|by destruct its].
  - destruct (split_page_run bs w lg blk p o its itup box (op_level o) (op_flags o))
      as (bs' & lg' & res & He & HS); try done.
    { intros ->. by vm_compute in Hfull. }
    exists bs', lg', res. split; [done|]. by eapply leaf_split_post.
Qed.

(** * Inner pages *)

Lemma choose_step_child nc newbox its s :
  let s' := foldl (choose_step nc newbox) s its in
  s'.1 = s.1 ∨ ∃ it, it ∈ its ∧ s'.1 = child it.
Proof.
  cbv zeta. revert s. induction its as [|it its IH]; intros s; [by left|]. cbn [foldl].
  destruct (IH (choose_step nc newbox s it)) as [-> | (x & ? & ->)].
  - destruct s as [b pen]. unfold choose_step. destruct (rtree_index_tuple_box it); [|by left].
    destruct (dlt _ pen); [right|by left]. exists it. split; [left|done].
  - right. exists x. split; [by right|done].
Qed.

Lemma choose_subtree_rep p its newbox :
  page_rep p its → its ≠ [] →
  ∃ it, it ∈ its ∧ choose_subtree_insert p newbox = Ok (child it).
Proof.
  intros Hp Hne. unfold choose_subtree_insert.
  rewrite (for_items_rep p its), fold_items_pure, (page_rep_max p its) by done. rsimpl.
  set (nc := has_flag _ _). destruct its as [|it0 its]; [done|].
  destruct (choose_step_child nc newbox (it0 :: its) (InvalidBlockNumber, DBL_MAX)) as [E|(it & Hin & E)];
    rewrite E; cbn [fst].
  - rewrite Z.eqb_refl. destruct (Z.leb_spec FirstOffsetNumber (zlen (it0 :: its))) as [_|Hlt];
      [|unfold FirstOffsetNumber, zlen in Hlt; cbn in Hlt; lia].
    cbn [andb]. change FirstOffsetNumber with (Z.of_nat 0 + 1).
    rewrite (page_item_rep p (it0 :: its) 0 it0) by done. exists it0. split; [left|done].
  - destruct ((child it =? InvalidBlockNumber) && _) eqn:Eb; [|by exists it].
    change FirstOffsetNumber with (Z.of_nat 0 + 1).
    rewrite (page_item_rep p (it0 :: its) 0 it0) by done. exists it0. split; [left|done].
Qed.

Lemma find_child_rep p its cb :
  page_rep p its → (∃ it, it ∈ its ∧ child it = cb) →
  ∃ i it, find_child p cb = Ok (Some (Z.of_nat i + 1)) ∧ its !! i = Some it ∧ child it = cb.
Proof.
  intros Hp (it0 & Hin & Hc). unfold find_child.
  change FirstOffsetNumber with (Z.of_nat 0 + 1). rewrite (for_offsets_rep p its _ 0) by done.
  rewrite drop_0.
  assert (HG : ∀ k, ∃ i it,
    for_list (λ (s : ()) offset childitup,
        if ItemPointerGetBlockNumber (t_tid childitup) =? cb then Ok (Break offset) else Ok (Continue s))
      (Z.of_nat k + 1) its () = Ok (Break (Z.of_nat (k + i) + 1)) ∧ its !! i = Some it ∧ child it = cb).
  { clear -Hin Hc. induction its as [|y its IH]; intros k; [by apply not_elem_of_nil in Hin|].
    cbn [for_list]. fold (child y). destruct (Z.eqb_spec (child y) cb) as [E|E].
    - exists 0%nat, y. by rewrite Nat.add_0_r.
    - rsimpl. apply elem_of_cons in Hin as [->|Hin]; [done|].
      destruct (IH Hin (S k)) as (i & z & Hz & ? & ?). exists (S i), z.
      replace (Z.of_nat k + 1 + 1) with (Z.of_nat (S k) + 1) by lia. rewrite Hz.
      split_and!; [|done|done]. do 3 f_equal. lia. }
  destruct (HG 0%nat) as (i & it & -> & ? & ?). rsimpl. by exists i, it.
Qed.

Lemma replace_tuple_run bs w lg blk p o its i it new :
  bget bs blk = Some p → dpage p o its → its !! i = Some it →
  Forall tuple_ok its → tuple_ok new →
  ∃ p', rtree_replace_tuple blk (Z.of_nat i + 1) new (mkRel bs w lg) =
          (mkRel (bset bs blk p') w lg, Ok ()) ∧ dpage p' o (<[i := new]> its).
Proof.
  intros Hb Hp Hi HF Hnew. unfold rtree_replace_tuple.
  erewrite bind_run by (by apply ReadBuffer_run).
  destruct (PageIndexTupleDelete_rep p its i it (dp_rep _ _ _ Hp) Hi) as (x & Hd & Hx & Hr).
  erewrite bind_run by (apply lift_run, Hd). erewrite bind_run by done.
  assert (Hp1 : dpage (deleted p i x) o (delete i its)) by (constructor; [done|apply Hp|apply Hp]).
  pose proof (lookup_lt_Some _ _ _ Hi) as Hlt.
  assert (Hlen : zlen its = zlen (delete i its) + 1).
  { unfold zlen. rewrite length_delete by eauto. lia. }
  assert (HFd : Forall tuple_ok (delete i its)).
  { rewrite (delete_Permutation _ _ _ Hi) in HF. by inversion HF. }
  assert (Hsl : slot_of (delete i its) (Z.of_nat i + 1) = i).
  { unfold slot_of, InvalidOffsetNumber. destruct (Z.eqb_spec (Z.of_nat i + 1) 0); lia. }
  destruct (dpage_add _ o (delete i its) new (Z.of_nat i + 1) Hp1) as (p' & He & Dp'); try done.
  { unfold zlen in *. lia. }
  { pose proof (dpage_uniform_len _ _ _ Hp HF). lia. }
  rewrite Hsl in He, Dp'. erewrite bind_run by (apply lift_run, He). cbv beta iota zeta.
  destruct (Z.eqb_spec (Z.of_nat i + 1) InvalidOffsetNumber) as [E|_];
    [unfold InvalidOffsetNumber in E; lia|].
  exists p'. split; [unfold WritePage; st_simpl; by rewrite bset_bset|].
  rewrite insert_take_drop by done. rewrite delete_take_drop in Dp'.
  rewrite take_app_le, take_take, Nat.min_id in Dp' by (rewrite length_take; lia).
  rewrite drop_app_ge in Dp' by (rewrite length_take; lia).
  rewrite length_take in Dp'. replace (i - i `min` length its)%nat with 0%nat in Dp' by lia. done.
Qed.

(** * Replacing one subtree *)

Definition sub_tree (l : nat) bs (it : IndexTuple) (s : sub) : Prop :=
  tree l bs (child it) s.1 s.2.
Definition contents (subs : list sub) : list IndexTuple := concat (map fst subs).
Definition footprint (subs : list sub) : list Z := concat (map snd subs).

Lemma sub_trees_frame l bs bs' its subs :
  Forall2 (sub_tree l bs) its subs → (∀ b, b ∈ footprint subs → bget bs' b = bget bs b) →
  Forall2 (sub_tree l bs') its subs.
Proof.
  intros HS. unfold footprint. induction HS as [|it s its subs Hs HS IH]; intros HF; constructor.
  - eapply tree_frame; [exact Hs|]. intros b Hb. apply HF. cbn. apply elem_of_app. by left.
  - apply IH. intros b Hb. apply HF. cbn. apply elem_of_app. by right.
Qed.

Lemma sub_filled_frame l bs bs' its subs :
  Forall2 (sub_tree l bs) its subs → (∀ b, b ∈ footprint subs → bget bs' b = bget bs b) →
  Forall (λ it, filled l bs (child it)) its → Forall (λ it, filled l bs' (child it)) its.
Proof.
  intros HS. unfold footprint. induction HS as [|it s its subs Hs HS IH]; intros HF Hits; [constructor|]. inversion Hits as [|? ? H1 H2]; subst. constructor.
  - eapply filled_frame; [exact Hs| |done]. intros b Hb. apply HF. cbn. apply elem_of_app. by left.
  - apply IH; [|done]. intros b Hb. apply HF. cbn. apply elem_of_app. by right.
Qed.

Lemma sub_trees_range l bs its subs :
  Forall2 (sub_tree l bs) its subs → Forall (λ b, 0 ≤ b < zlen bs) (footprint subs).
Proof.
  unfold footprint. induction 1 as [|it s its subs Hs HS IH]; [constructor|].
  cbn. apply Forall_app. split; [by eapply tree_range|done].
Qed.

(** The other subtrees when the [i]th is set aside. *)
Lemma sub_trees_frame_delete l bs bs' its subs i ci fi :
  Forall2 (sub_tree l bs) its subs → subs !! i = Some (ci, fi) →
  (∀ b, b ∈ footprint (delete i subs) → bget bs' b = bget bs b) →
  Forall2 (sub_tree l bs') (delete i its) (delete i subs).
Proof.
  intros HS Hi HF. eapply sub_trees_frame; [|exact HF].
  rewrite !delete_take_drop. apply Forall2_app; [by apply Forall2_take|by apply Forall2_drop].
Qed.

Section update.
Context (l : nat) (bs bs' : list RPage) (blk : Z) (its : list IndexTuple) (subs : list sub).
Context (i : nat) (it upd : IndexTuple) (ci : list IndexTuple) (fi : list Z).
Context (c1 : list IndexTuple) (f1 : list Z) (extra : list IndexTuple) (esubs : list sub).
Context (HS : Forall2 (sub_tree l bs) its subs) (Hit : its !! i = Some it)
  (Hsub : subs !! i = Some (ci, fi)) (HN : NoDup (blk :: footprint subs))
  (Hblk : blk < zlen bs)
  (HF : ∀ b, b < zlen bs → b ∉ fi → b ≠ blk → bget bs' b = bget bs b)
  (Hlen : zlen bs ≤ zlen bs')
  (HE : Forall2 (sub_tree l bs') (upd :: extra) ((c1, f1) :: esubs))
  (HNE : NoDup (f1 ++ footprint esubs))
  (HW : fp_within bs bs' fi (f1 ++ footprint esubs)).

Let its' := <[i := upd]> its ++ extra.
Let subs' := <[i := (c1, f1)]> subs ++ esubs.
Let rest := delete i subs.

Lemma upd_subs_perm : subs ≡ₚ ((ci, fi) :: rest).
Proof. by apply delete_Permutation. Qed.

Lemma upd_subs'_perm : subs' ≡ₚ ((c1, f1) :: esubs) ++ rest.
Proof.
  unfold subs'. rewrite (insert_perm_delete _ _ _ (c1, f1) Hsub). cbn. apply Permutation_cons; [done|].
  apply Permutation_app_comm.
Qed.

Lemma upd_fp : footprint subs ≡ₚ fi ++ footprint rest.
Proof. unfold footprint. by rewrite (concat_map_perm _ _ _ upd_subs_perm). Qed.

Lemma upd_fp' : footprint subs' ≡ₚ (f1 ++ footprint esubs) ++ footprint rest.
Proof.
  unfold footprint. rewrite (concat_map_perm _ _ _ upd_subs'_perm), concat_map_app. done.
Qed.

Lemma upd_rest b : b ∈ footprint rest → b < zlen bs ∧ (b ∉ fi) ∧ b ≠ blk.
Proof.
  intros Hb. pose proof (sub_trees_range _ _ _ _ HS) as HR. rewrite upd_fp in HR.
  apply Forall_app in HR as [_ HR]. rewrite Forall_forall in HR. specialize (HR _ Hb).
  apply NoDup_cons in HN as [Hn HN']. rewrite upd_fp in Hn, HN'. apply NoDup_app in HN' as (_ & Hd & _).
  split_and!; [lia| |].
  - intros Hfi. by apply (Hd b).
  - intros ->. apply Hn. apply elem_of_app. by right.
Qed.

Lemma upd_trees : Forall2 (sub_tree l bs') its' subs'.
Proof.
  inversion HE as [|? ? ? ? H1 H2]; subst. unfold its', subs'. apply Forall2_app; [|done].
  pose proof (lookup_lt_Some _ _ _ Hit). pose proof (lookup_lt_Some _ _ _ Hsub).
  rewrite !insert_take_drop by done.
  assert (HD : Forall2 (sub_tree l bs') (delete i its) (delete i subs)).
  { eapply sub_trees_frame_delete; [exact HS|exact Hsub|]. intros b Hb.
    apply upd_rest in Hb as (? & ? & ?). by apply HF. }
  rewrite !delete_take_drop in HD.
  apply Forall2_app_inv in HD as [HD1 HD2]; [|rewrite !length_take; apply Forall2_length in HS; lia].
  apply Forall2_app; [done|]. by constructor.
Qed.

Lemma upd_nodup : NoDup (blk :: footprint subs').
Proof.
  apply NoDup_cons. rewrite upd_fp'. pose proof HN as [Hn HN']%NoDup_cons.
  rewrite upd_fp in Hn, HN'. apply NoDup_app in HN' as (_ & Hd & HNr).
  assert (Hnew : ∀ b, b ∈ f1 ++ footprint esubs → (b ∉ footprint rest) ∧ b ≠ blk).
  { intros b Hb. destruct (HW b Hb) as [Hfi|Hge].
    - split; [by apply Hd|]. intros ->. apply Hn, elem_of_app. by left.
    - split; [|lia]. intros Hr%upd_rest. lia. }
  split.
  - intros [Hb|Hb]%elem_of_app; [by apply Hnew in Hb as [_ ?]|]. by apply upd_rest in Hb as (_ & _ & ?).
  - apply NoDup_app. split_and!; [done| |done]. intros b Hb. by apply Hnew.
Qed.

Lemma upd_within : fp_within bs bs' (blk :: footprint subs) (blk :: footprint subs').
Proof.
  intros b. rewrite !elem_of_cons, upd_fp, upd_fp', !elem_of_app, <- elem_of_app.
  intros [->|[Hb|Hb]]; [left; by left| |left; right; by right].
  destruct (HW b Hb) as [Hfi|Hge]; [left; right; by left|by right].
Qed.

Lemma upd_contents itup :
  c1 ++ contents esubs ≡ₚ itup :: ci → contents subs' ≡ₚ itup :: contents subs.
Proof.
  intros HP. unfold contents in *.
  rewrite (concat_map_perm _ _ _ upd_subs'_perm), (concat_map_perm _ _ _ upd_subs_perm).
  rewrite concat_map_app. cbn [map fst concat]. rewrite HP. done.
Qed.

End update.

(** * Inserting into an inner page *)

(** The page of an inner node with its subtrees. *)
Record inner (l : nat) bs (blk : Z) p o its (subs : list sub) : Prop := {
  in_get : bget bs blk = Some p;
  in_page : dpage p o its;
  in_level : op_level o = Z.of_nat (S l);
  in_tuples : Forall tuple_ok its;
  in_leaf : has_flag (op_flags o) TRTREE_PAGE_LEAF = false;
  in_nonempty : its ≠ [];
  in_subs : Forall2 (sub_tree l bs) its subs;
}.

Lemma inner_tree l bs blk p o its subs :
  inner l bs blk p o its subs → tree (S l) bs blk (contents subs) (blk :: footprint subs).
Proof. intros []. exists p, o, its. split_and!; try done. by exists subs. Qed.

Lemma tree_inner l bs blk c fp :
  tree (S l) bs blk c fp →
  ∃ p o its subs, inner l bs blk p o its subs ∧ c = contents subs ∧ fp = blk :: footprint subs.
Proof.
  intros (p & o & its & Hb & Hp & Hl & Ht & Hlf & Hne & subs & HS & -> & ->).
  exists p, o, its, subs. split; [by constructor|done].
Qed.

Lemma inner_finish_run bs w lg blk p o its :
  bget bs blk = Some p → dpage p o its → its ≠ [] → Forall tuple_ok its →
  ∃ p' lg', inner_finish blk (mkRel bs w lg) =
              (mkRel (bset bs blk p') w lg', Ok (no_split (mbr its))) ∧ dpage p' o its.
Proof.
  intros Hb Hp Hne HF. pose proof (bget_range _ _ _ Hb). unfold inner_finish.
  erewrite bind_run by done. erewrite bind_run by done. st_simpl.
  destruct (maybe_wal1 bs w (lg ++ [EvDirty blk]) blk p o its Hb Hp) as (p' & lg' & Hw & Hp').
  erewrite bind_run by (exact Hw).
  erewrite bind_run by (apply ReadBuffer_run; by bget_simpl).
  erewrite bind_run by (apply lift_run, rtree_page_mbr_rep, Hp').
  by exists p', lg'.
Qed.

(** An inner page whose subtrees live in [bs1] after block [blk] is rewritten. *)
Lemma inner_rewrite l bs1 blk p o its subs :
  0 ≤ blk < zlen bs1 → dpage p o its → op_level o = Z.of_nat (S l) → Forall tuple_ok its →
  has_flag (op_flags o) TRTREE_PAGE_LEAF = false → its ≠ [] →
  Forall2 (sub_tree l bs1) its subs → blk ∉ footprint subs →
  inner l (bset bs1 blk p) blk p o its subs.
Proof.
  intros Hblk Hp Hl HF Hlf Hne HS Hn. constructor; try done; [by bget_simpl|].
  eapply sub_trees_frame; [done|]. intros b Hb. apply bget_bset_ne; [lia|]. by intros ->.
Qed.

(** Dividing an inner page. *)
Lemma inner_split_post l bs bs3 bs4 blk its subs flags res c fp itup :
  0 ≤ blk < zlen bs3 → Forall tuple_ok its → Forall2 (sub_tree l bs3) its subs →
  NoDup (blk :: footprint subs) →
  split_post bs3 bs4 blk its (Z.of_nat (S l)) flags res →
  has_flag flags TRTREE_PAGE_LEAF = false →
  zlen bs ≤ zlen bs3 ≤ zlen bs + Z.of_nat l + 1 →
  (∀ b, b < zlen bs → b ∉ fp → bget bs3 b = bget bs b) → blk ∈ fp →
  fp_within bs bs3 fp (blk :: footprint subs) →
  contents subs ≡ₚ itup :: c →
  (filled (S l) bs blk → Forall (λ it, filled l bs3 (child it)) its) →
  ins_post (S l) bs bs4 blk c fp itup res.
Proof.
  intros Hrange HT HS HN HSP Hlf Hlen HF Hblk HW HC HQ.
  pose proof (split_post_good _ _ _ _ _ _ _ HSP HT) as [Gl Gr].
  destruct HSP as [Hs Hr Hl4 Hfr (pl & pr & ol & orr & lt & rt & Hgl & Hgr & Dl & Dr & HP & Hnl & Hnr
                                    & Ll & Lr & Fl & Fr & _)].
  pose proof (sub_trees_range _ _ _ _ HS) as HR. rewrite Forall_forall in HR.
  pose proof HN as [Hnb HNs]%NoDup_cons.
  assert (HS4 : Forall2 (sub_tree l bs4) its subs).
  { eapply sub_trees_frame; [done|]. intros b Hb. apply Hfr; [by intros ->|]. by apply HR. }
  destruct (Permutation_Forall2 (symmetry HP) HS4) as (subs4 & HP4 & HS4').
  apply Forall2_app_inv_l in HS4' as (s1 & s2 & HS1 & HS2 & ->).
  rewrite <- HP in HT. apply Forall_app in HT as [HTl HTr].
  assert (HFP : footprint s1 ++ footprint s2 ≡ₚ footprint subs).
  { unfold footprint. rewrite <- concat_map_app. by apply concat_map_perm. }
  assert (HFN : zlen bs3 ∉ footprint subs) by (intros Hb; apply HR in Hb; lia).
  constructor; rewrite ?Hs; try done; [lia|..].
  - intros b Hb Hn. rewrite Hfr; [by apply HF|by intros ->|lia].
  - exists (contents s1), (blk :: footprint s1), (contents s2), (zlen bs3 :: footprint s2).
    rewrite Hr. split_and!.
    + eapply (inner_tree l bs4 blk pl ol lt). constructor; try done. congruence.
    + eapply (inner_tree l bs4 (zlen bs3) pr orr rt). constructor; try done. congruence.
    + rewrite <- HC. unfold contents. rewrite <- concat_map_app. by apply concat_map_perm.
    + cbn. rewrite <- Permutation_middle, HFP. apply NoDup_cons. split; [|by apply NoDup_cons].
      rewrite elem_of_cons. intros [?|?]; [lia|done].
    + intros b. cbn. rewrite <- Permutation_middle, HFP. rewrite !elem_of_cons.
      intros [->|[->|Hb]]; [by left|right; lia|].
      destruct (HW b) as [?|?]; [by right|by left|right; lia].
  - lia.
  - intros [?|HQ'%HQ]; [done|]. apply (sub_filled_frame l bs3 bs4 its subs HS) in HQ'; [|intros b Hb; apply Hfr; [by intros ->|by apply HR]].
    rewrite <- HP in HQ'. apply Forall_app in HQ' as [HQl HQr]. rewrite Hr. split; [by apply (filled_inner l bs4 blk pl ol lt)|].
    intros _. by apply (filled_inner l bs4 (zlen bs3) pr orr rt).
Qed.

Section above.
Context (l : nat) (bs bs1 : list RPage) (w : bool) (blk : Z) (p : RPage)
  (o : RTreePageOpaqueData) (its : list IndexTuple) (subs : list sub).
Context (i : nat) (it itup : IndexTuple) (ci : list IndexTuple) (fi : list Z)
  (childres : RTreeInsertResult).
Context (Hin : inner l bs blk p o its subs) (HN : NoDup (blk :: footprint subs))
  (Hit : its !! i = Some it) (Hsub : subs !! i = Some (ci, fi))
  (HC : ins_post l bs bs1 (child it) ci fi itup childres)
  (Hmax : zlen bs1 ≤ InvalidBlockNumber).

#[local] Lemma above_blk : 0 ≤ blk < zlen bs.
Proof. eapply bget_range, Hin. Qed.

#[local] Lemma above_blk_fi : blk ∉ fi.
Proof.
  intros Hb. apply NoDup_cons in HN as [Hn _]. apply Hn.
  rewrite (upd_fp subs i ci fi Hsub), elem_of_app. by left.
Qed.

#[local] Lemma above_frame p2 b :
  b < zlen bs → b ∉ fi → b ≠ blk → bget (bset bs1 blk p2) b = bget bs b.
Proof.
  intros ???. pose proof above_blk. rewrite bget_bset_ne by lia. by apply HC.
Qed.

(** The child's tree is now [c1] on [f1], with the siblings [esubs] to its right. *)
Context (upd : IndexTuple) (c1 : list IndexTuple) (f1 : list Z)
  (extra : list IndexTuple) (esubs : list sub).
Context (Hupd : tuple_ok upd) (Hchild : child upd = child it) (Hextra : Forall tuple_ok extra).
Context (HT : Forall2 (sub_tree l bs1) (upd :: extra) ((c1, f1) :: esubs))
  (HP : c1 ++ contents esubs ≡ₚ itup :: ci) (HN1 : NoDup (f1 ++ footprint esubs))
  (HW1 : fp_within bs bs1 fi (f1 ++ footprint esubs))
  (HQ : filled l bs (child it) → Forall (λ e, filled l bs1 (child e)) (upd :: extra)).

Let its' := <[i := upd]> its ++ extra.
Let subs' := <[i := (c1, f1)]> subs ++ esubs.

#[local] Lemma above_within_bset p2 : fp_within bs (bset bs1 blk p2) fi (f1 ++ footprint esubs).
Proof. intros b Hb. rewrite zlen_bset. by apply HW1. Qed.

#[local] Lemma above_nodup p2 : NoDup (blk :: footprint subs').
Proof.
  eapply (upd_nodup l bs (bset bs1 blk p2)); eauto using in_subs, above_within_bset.
  apply above_blk.
Qed.

#[local] Lemma above_tuples : Forall tuple_ok its'.
Proof. apply Forall_app. split; [|done]. apply Forall_insert; [apply Hin|done]. Qed.

#[local] Lemma above_subs p2 : Forall2 (sub_tree l (bset bs1 blk p2)) its' subs'.
Proof.
  pose proof above_blk. pose proof (ip_len _ _ _ _ _ _ _ _ HC) as Hlen.
  eapply upd_trees; eauto using in_subs, above_frame.
  eapply sub_trees_frame; [exact HT|]. intros b Hb. apply bget_bset_ne; [lia|]. intros E.
  rewrite <- E in Hb. destruct (HW1 blk Hb); [by apply above_blk_fi|lia].
Qed.

#[local] Lemma above_filled p2 : filled (S l) bs blk → Forall (λ e, filled l (bset bs1 blk p2) (child e)) its'.
Proof.
  intros HF. specialize (HF p o its (in_get _ _ _ _ _ _ _ Hin) (in_page _ _ _ _ _ _ _ Hin)). pose proof above_blk. pose proof (ip_len _ _ _ _ _ _ _ _ HC) as Hlen.
  assert (HE : Forall (λ e, filled l (bset bs1 blk p2) (child e)) (upd :: extra)).
  { eapply sub_filled_frame; [exact HT| |apply HQ; rewrite Forall_lookup in HF; by apply (HF i)]. intros b Hb. apply bget_bset_ne; [lia|]. intros E.
    rewrite <- E in Hb. destruct (HW1 blk Hb); [by apply above_blk_fi|lia]. }
  inversion HE as [|? ? HE1 HE2]; subst. apply Forall_app. split; [|done]. apply Forall_lookup. intros j e Hj. destruct (decide (j = i)) as [->|Hne].
  { rewrite list_lookup_insert_eq in Hj by (by eapply lookup_lt_Some). by injection Hj as <-. }
  rewrite list_lookup_insert_ne in Hj by done. destruct (Forall2_lookup_l _ _ _ _ _ (in_subs _ _ _ _ _ _ _ Hin) Hj) as ([cj fj] & Hsj & HTj).
  rewrite Forall_lookup in HF. eapply filled_frame; [exact HTj| |by apply (HF j)]. intros b Hb. cbn [snd] in Hb.
  assert (Hr : b ∈ footprint (delete i subs)).
  { unfold footprint. apply list_elem_of_In, in_concat. exists fj. split; [|by apply list_elem_of_In]. apply in_map_iff. exists (cj, fj). split; [done|]. apply list_elem_of_In.
    rewrite list_elem_of_lookup. exists (if decide (j < i)%nat then j else Nat.pred j). destruct (decide (j < i)%nat); [by rewrite list_lookup_delete_lt|].
    rewrite list_lookup_delete_ge by lia. by replace (S (Nat.pred j)) with j by lia. }
  destruct (upd_rest l bs blk its subs i ci fi (in_subs _ _ _ _ _ _ _ Hin) Hsub HN b Hr) as (? & ? & ?). by apply above_frame.
Qed.

#[local] Lemma above_inner p2 : dpage p2 o its' → inner l (bset bs1 blk p2) blk p2 o its' subs'.
Proof.
  intros Hp2. pose proof above_blk. pose proof (ip_len _ _ _ _ _ _ _ _ HC) as Hlen.
  constructor; [by bget_simpl|done|apply Hin|apply above_tuples|apply Hin| |apply above_subs].
  intros Hn. apply (f_equal length) in Hn. unfold its' in Hn. rewrite length_app, length_insert in Hn.
  apply lookup_lt_Some in Hit. cbn in Hn. lia.
Qed.

#[local] Lemma above_contents : contents subs' ≡ₚ itup :: contents subs.
Proof. by eapply upd_contents. Qed.

#[local] Lemma above_outside p2 b :
  b < zlen bs → b ∉ blk :: footprint subs → bget (bset bs1 blk p2) b = bget bs b.
Proof.
  intros Hb Hn. apply not_elem_of_cons in Hn as [Hne Hn]. apply above_frame; [done| |done].
  intros Hfi. apply Hn. rewrite (upd_fp subs i ci fi Hsub), elem_of_app. by left.
Qed.

#[local] Lemma above_fp p2 :
  fp_within bs (bset bs1 blk p2) (blk :: footprint subs) (blk :: footprint subs').
Proof. eapply upd_within; [done|apply above_within_bset]. Qed.

(** The page has room for what is linked. *)
#[local] Lemma above_stays p2 :
  (split childres = false → extra = []) → dpage p2 o its' →
  ins_post (S l) bs (bset bs1 blk p2) blk (contents subs) (blk :: footprint subs) itup
    (no_split (mbr its')).
Proof.
  intros Hex Hp2. pose proof (ip_len _ _ _ _ _ _ _ _ HC) as Hlen. pose proof (above_inner _ Hp2) as HI.
  constructor; cbn [no_split split left_box].
  - rewrite zlen_bset. lia.
  - apply above_outside.
  - apply mbr_good; apply HI.
  - done.
  - exists (contents subs'), (blk :: footprint subs'). split_and!.
    + by eapply inner_tree.
    + apply above_contents.
    + by apply (above_nodup p2).
    + apply above_fp.
  - rewrite zlen_bset. intros Hz. destruct (ip_grow _ _ _ _ _ _ _ _ HC Hz) as [Hs HG]. split; [done|].
    assert (Hb1 : bget bs1 blk = Some p).
    { rewrite (ip_frame _ _ _ _ _ _ _ _ HC); [apply Hin|apply above_blk|apply above_blk_fi]. }
    apply (grows_bset itup bs bs1 blk p o its p2 its'); [by left|apply Hin|apply Hin|done|done|apply HI|].
    rewrite (in_leaf _ _ _ _ _ _ _ Hin). unfold page_grows, its'. rewrite (Hex Hs), app_nil_r.
    change (map child (<[i := upd]> its)) with (child <$> <[i := upd]> its).
    rewrite list_fmap_insert, Hchild. apply list_insert_id. by rewrite list_lookup_fmap, Hit.
  - intros [?|HF]; [done|]. split; [|done]. apply (filled_inner l _ blk p2 o its'); [apply HI|done|by apply above_filled].
Qed.

(** The page is full and is split. *)
#[local] Lemma above_splits p2 bs4 res :
  split_post (bset bs1 blk p2) bs4 blk its' (Z.of_nat (S l)) (op_flags o) res →
  ins_post (S l) bs bs4 blk (contents subs) (blk :: footprint subs) itup res.
Proof.
  intros HSP. pose proof above_blk. pose proof (ip_len _ _ _ _ _ _ _ _ HC) as Hlen.
  eapply (inner_split_post l bs (bset bs1 blk p2) bs4 blk its' subs' (op_flags o)); try done.
  - rewrite zlen_bset. lia.
  - apply above_tuples.
  - apply above_subs.
  - by apply (above_nodup p2).
  - apply Hin.
  - rewrite zlen_bset. lia.
  - apply above_outside.
  - left.
  - apply above_fp.
  - apply above_contents.
  - apply above_filled.
Qed.

End above.

(** Linking a sibling of the child, after the child's own downlink is rewritten. *)
Lemma link_sibling_run l bs bs1 w lg blk p o its subs i it itup ci fi childres p2 upd rt rbox c1 f1 c2 f2 :
  inner l bs blk p o its subs → NoDup (blk :: footprint subs) →
  its !! i = Some it → subs !! i = Some (ci, fi) →
  ins_post l bs bs1 (child it) ci fi itup childres → split childres = true →
  dpage p2 o (<[i := upd]> its) → tuple_ok upd → child upd = child it → tuple_ok rt → child rt = right_blkno childres →
  tree l bs1 (child it) c1 f1 → tree l bs1 (child rt) c2 f2 →
  c1 ++ c2 ≡ₚ itup :: ci → NoDup (f1 ++ f2) → fp_within bs bs1 fi (f1 ++ f2) →
  ∃ bs' lg' res,
    link_sibling (S l) blk rt rbox (mkRel (bset bs1 blk p2) w lg) = (mkRel bs' w lg', Ok res) ∧
    ins_post (S l) bs bs' blk (contents subs) (blk :: footprint subs) itup res.
Proof.
  intros Hin HN Hit Hsub HC Hsp Dp2 Hupd Hchild Hrt Hcr HT1 HT2 HP HN12 HW.
  pose proof (above_blk _ _ _ _ _ _ _ Hin) as Hblk. pose proof (ip_len _ _ _ _ _ _ _ _ HC) as Hlen.
  assert (HFu : Forall tuple_ok (<[i := upd]> its)) by (apply Forall_insert; [apply Hin|done]).
  assert (HT : Forall2 (sub_tree l bs1) [upd; rt] [(c1, f1); (c2, f2)])
    by (repeat constructor; unfold sub_tree; [by rewrite Hchild|done]).
  assert (HP' : c1 ++ contents [(c2, f2)] ≡ₚ itup :: ci) by (cbn; by rewrite app_nil_r).
  assert (HN1 : NoDup (f1 ++ footprint [(c2, f2)])) by (cbn; by rewrite app_nil_r).
  assert (HW1 : fp_within bs bs1 fi (f1 ++ footprint [(c2, f2)])) by (cbn; by rewrite app_nil_r).
  assert (Hex : Forall tuple_ok [rt]) by (by constructor).
  assert (HQ : filled l bs (child it) → Forall (λ e, filled l bs1 (child e)) [upd; rt]).
  { intros HF. destruct (ip_filled _ _ _ _ _ _ _ _ HC (or_intror HF)) as [H1 H2]. repeat constructor; [by rewrite Hchild|rewrite Hcr; auto]. }
  assert (Hg2 : bget (bset bs1 blk p2) blk = Some p2) by (by bget_simpl).
  unfold link_sibling. erewrite bind_run by (by apply ReadBuffer_run).
  erewrite bind_run by (apply lift_run; by eapply dpage_opaque).
  assert (Hsz : IndexTupleSize rt = 48) by apply Hrt. rewrite !Hsz. change (MAXALIGN 48) with 48.
  unfold PageGetFreeSpace, sizeof_ItemIdData. rewrite (dpage_uniform_free _ _ _ Dp2 HFu).
  destruct (Z.ltb_spec (if 8152 - 52 * zlen (<[i:=upd]> its) <? 4 then 0
                        else 8152 - 52 * zlen (<[i:=upd]> its) - 4) (48 + 4)) as [Hfull|Hfit].
  - destruct (split_page_run (bset bs1 blk p2) w lg blk p2 o (<[i:=upd]> its) rt rbox
                (Z.of_nat (S l)) (op_flags o)) as (bs4 & lg4 & res & He & HSP); try done.
    { intros Hn. rewrite Hn in Hfull. by vm_compute in Hfull. }
    exists bs4, lg4, res. split; [exact He|]. by eapply above_splits with (upd := upd) (extra := [rt]) (esubs := [(c2, f2)]).
  - destruct (dpage_append p2 o (<[i:=upd]> its) rt) as (p3 & He & Dp3); try done.
    { destruct (Z.ltb_spec (8152 - 52 * zlen (<[i:=upd]> its)) 4); lia. }
    rewrite Hsz in He. erewrite bind_run by (apply lift_run, He). erewrite bind_run by done.
    st_simpl. rewrite bset_bset.
    destruct (inner_finish_run (bset bs1 blk p3) w lg blk p3 o (<[i:=upd]> its ++ [rt]))
      as (p4 & lg4 & He4 & Dp4); [by bget_simpl|done|by destruct (<[i:=upd]> its)|by apply Forall_app|].
    rewrite bset_bset in He4. eexists _, _, _. split; [exact He4|].
    eapply (above_stays l bs bs1 blk p o its subs i it itup ci fi childres) with
      (upd := upd) (extra := [rt]) (esubs := [(c2, f2)]); first [done|intros; congruence].
Qed.

Lemma insert_above_run l bs bs1 w lg blk p o its subs i it itup ci fi childres :
  inner l bs blk p o its subs → NoDup (blk :: footprint subs) →
  its !! i = Some it → subs !! i = Some (ci, fi) →
  ins_post l bs bs1 (child it) ci fi itup childres → zlen bs1 ≤ InvalidBlockNumber →
  ∃ bs' lg' res,
    insert_above (S l) blk (Z.of_nat i + 1) childres (mkRel bs1 w lg) = (mkRel bs' w lg', Ok res) ∧
    ins_post (S l) bs bs' blk (contents subs) (blk :: footprint subs) itup res.
Proof.
  intros Hin HN Hit Hsub HC Hmax. pose proof (above_blk _ _ _ _ _ _ _ Hin) as Hblk.
  pose proof (above_blk_fi _ _ _ _ _ HN Hsub) as Hfi. pose proof (ip_len _ _ _ _ _ _ _ _ HC) as Hlen.
  assert (Hg1 : bget bs1 blk = Some p).
  { rewrite (ip_frame _ _ _ _ _ _ _ _ HC) by (done || lia). apply Hin. }
  pose proof (in_page _ _ _ _ _ _ _ Hin) as Hp. pose proof (in_tuples _ _ _ _ _ _ _ Hin) as HF.
  unfold insert_above. erewrite bind_run by (by apply ReadBuffer_run).
  erewrite bind_run by (apply lift_run; by eapply page_item_rep; [apply Hp|]).
  destruct (rtree_form_tuple_good (left_box childres) (t_tid it)) as (upd & Hfu & Htid & Hupd);
    [apply HC|].
  erewrite bind_run by (apply lift_run, Hfu).
  destruct (replace_tuple_run bs1 w lg blk p o its i it upd) as (p2 & Hrep & Dp2); try done.
  erewrite bind_run by (exact Hrep).
  assert (Hchild : child upd = child it) by (unfold child; by rewrite Htid).
  pose proof (ip_trees _ _ _ _ _ _ _ _ HC) as HTR. pose proof (ip_right _ _ _ _ _ _ _ _ HC) as HGR.
  destruct (split childres) eqn:Hsplit.
  - destruct HTR as (c1 & f1 & c2 & f2 & HT1 & HT2 & HP & HN12 & HW).
    pose proof (tree_range _ _ _ _ _ HT2) as HR2. rewrite Forall_forall in HR2.
    specialize (HR2 _ (tree_root_in _ _ _ _ _ HT2)).
    destruct (rtree_form_tuple_good (right_box childres)
                (ItemPointerSet (right_blkno childres) FirstOffsetNumber)) as (rt & Hfr & Htidr & Hrt);
      [done|].
    assert (Hcr : child rt = right_blkno childres).
    { unfold child. rewrite Htidr. apply tid_block_roundtrip. unfold InvalidBlockNumber in *. lia. }
    erewrite bind_run by (apply lift_run, Hfr). rewrite <- Hcr in HT2. by eapply link_sibling_run.
  - destruct HTR as (c1 & f1 & HT1 & HP & HN1 & HW).
    destruct (inner_finish_run (bset bs1 blk p2) w lg blk p2 o (<[i:=upd]> its))
      as (p4 & lg4 & He4 & Dp4); [by bget_simpl|done| |by apply Forall_insert|].
    { intros Hn. apply (f_equal length) in Hn. rewrite length_insert in Hn.
      apply lookup_lt_Some in Hit. cbn in Hn. lia. }
    rewrite bset_bset in He4. eexists _, _, _. split; [exact He4|].
    rewrite <- (app_nil_r (<[i:=upd]> its)) in Dp4 |- *.
    eapply (above_stays l bs bs1 blk p o its subs i it itup ci fi childres Hin HN Hit Hsub HC
              upd c1 f1 [] []); try done; cbn; rewrite ?app_nil_r; try done.
    + constructor; [|constructor]. unfold sub_tree. by rewrite Hchild.
    + intros HQ. constructor; [|constructor]. rewrite Hchild. by apply (ip_filled _ _ _ _ _ _ _ _ HC (or_intror HQ)).
Qed.

(** Inserting into a tree of uniform tuples always succeeds. *)
Lemma insert_page_run lvl : ∀ bs w lg blk c fp itup box,
  tree lvl bs blk c fp → NoDup fp → tuple_ok itup →
  zlen bs + Z.of_nat lvl + 1 ≤ InvalidBlockNumber →
  ∃ bs' lg' res,
    rtree_insert_page lvl blk itup box (mkRel bs w lg) = (mkRel bs' w lg', Ok res) ∧
    ins_post lvl bs bs' blk c fp itup res.
Proof.
  induction lvl as [|l IH]; intros bs w lg blk c fp itup box HT HN Hit Hmax.
  - destruct HT as (p & o & its & Hb & Hp & Hl & HF & Hlf & -> & ->). cbn [rtree_insert_page].
    erewrite bind_run by (by apply ReadBuffer_run).
    erewrite bind_run by (apply lift_run; by eapply dpage_opaque).
    by eapply insert_leaf_run.
  - apply tree_inner in HT as (p & o & its & subs & Hin & -> & ->). cbn [rtree_insert_page].
    pose proof (in_page _ _ _ _ _ _ _ Hin) as Hp.
    erewrite bind_run by (apply ReadBuffer_run, Hin).
    erewrite bind_run by (apply lift_run; by eapply dpage_opaque). rewrite (in_leaf _ _ _ _ _ _ _ Hin).
    destruct (choose_subtree_rep p its box) as (ic & Hic & Hch); [apply Hp|apply Hin|].
    erewrite bind_run by (apply lift_run, Hch).
    destruct (find_child_rep p its (child ic)) as (i & it & Hfc & Hi & Hcit); [apply Hp|by exists ic|].
    destruct (Forall2_lookup_l _ _ _ _ _ (in_subs _ _ _ _ _ _ _ Hin) Hi) as ([ci fi] & Hsub & HTi).
    unfold sub_tree in HTi. cbn [fst snd] in HTi.
    pose proof (tree_range _ _ _ _ _ HTi) as HR. rewrite Forall_forall in HR.
    specialize (HR _ (tree_root_in _ _ _ _ _ HTi)).
    unfold BlockNumberIsValid. rewrite <- Hcit in Hfc |- *.
    destruct (Z.eqb_spec (child it) InvalidBlockNumber) as [E|_]; [lia|]. cbn [negb].
    erewrite bind_run by (apply lift_run, Hfc).
    pose proof HN as [_ HNs]%NoDup_cons. rewrite (upd_fp subs i ci fi Hsub) in HNs.
    apply NoDup_app in HNs as (HNi & _ & _).
    destruct (IH bs w lg (child it) ci fi itup box HTi HNi Hit) as (bs1 & lg1 & res & He & HC); [lia|].
    erewrite bind_run by (exact He). eapply insert_above_run; try done.
    pose proof (ip_len _ _ _ _ _ _ _ _ HC). lia.
Qed.

End tree.
