(* ===== verification/Index.v ===== *)
(** The index as a whole: the meta page and the tree it points to.  [index_rep] is the
    invariant every operation keeps; insertion and creation are proved here. *)

From S2P Require Import Prelude Float64 Cube Box Split Bufpage Itup Store Insert Tree.

Section index.
Context `{Platform}.

(** The relation [s] is an index of height [lvl] whose leaves hold [c]. *)
Definition index_rep (s : Rel) (lvl : nat) (c : list IndexTuple) : Prop :=
  ∃ mp m fp,
    bget (blocks s) 0 = Some mp ∧ pd_sp mp = Some (SpMeta m) ∧ magic m = TRTREE_META_MAGIC ∧
    root_level m = Z.of_nat lvl ∧ tree lvl (blocks s) (root m) c fp ∧ NoDup fp ∧ (0 ∉ fp) ∧
    2 ≤ nblocks s.

(** A key the index stores in a tuple of uniform size: a two-dimensional cube that is
    not a point, whose box is good. *)
Definition good_key (cube : NDBOX) : Prop :=
  vl_size cube = CUBE_SIZE 2 ∧ good_box (rtree_cube_to_box cube).

(** The leaf tuple of a row. *)
Definition leaf_tuple (cube : NDBOX) (tid : ItemPointerData) : IndexTuple :=
  {| t_tid := tid; t_info := Z.lor INDEX_VAR_MASK TUPLE_SIZE; t_data := Some cube |}.

Lemma form_leaf_tuple cube :
  good_key cube → ∃ it, index_form_tuple (Some cube) = Ok it ∧ ∀ tid, set_tid tid it = leaf_tuple cube tid.
Proof.
  intros [Hs _]. unfold index_form_tuple. rewrite Hs. change (negb _) with false at 1. cbv iota.
  eexists. split; [done|]. done.
Qed.

Lemma leaf_tuple_ok cube tid : good_key cube → tuple_ok (leaf_tuple cube tid).
Proof.
  intros [Hs Hg]. split; [done|]. exists (rtree_cube_to_box cube). done.
Qed.

(** * Creation *)

Lemma buildempty_run w lg :
  ∃ bs' lg', temporal_rtree_buildempty (mkRel [] w lg) = (mkRel bs' w lg', Ok ()) ∧
             index_rep (mkRel bs' w lg') 0 [] ∧ zlen bs' = 2.
Proof.
  unfold temporal_rtree_buildempty, rtree_meta_and_root_init.
  do 5 (erewrite bind_run by done). unfold MarkBufferDirty. st_simpl.
  eexists _, _. split; [done|]. split; [|done].
  eexists _, _, [1]. cbn [blocks]. split_and!; [done|done|done|done| |apply NoDup_singleton| |done].
  - cbn [root]. exists (rtree_init_datapage 3 0). eexists _, [].
    split_and!; [done|apply dpage_init|done|constructor|done|done|done].
  - rewrite list_elem_of_singleton. done.
Qed.

(** * Growing the tree *)

(** Writing the page of block [src] to block [blk], with other opaque data, makes
    [blk] the root of the same tree. *)
Lemma tree_copy lvl bs src blk c fp p o its p' o' :
  tree lvl bs src c fp → bget bs src = Some p → dpage p o its → dpage p' o' its →
  op_level o' = op_level o →
  has_flag (op_flags o') TRTREE_PAGE_LEAF = has_flag (op_flags o) TRTREE_PAGE_LEAF →
  0 ≤ blk < zlen bs → blk ∉ tail fp →
  tree lvl (bset bs blk p') blk c (blk :: tail fp).
Proof.
  intros HT Hb Hp Hp' Hlo Hf Hblk Hn.
  assert (Heq : ∀ q o2 its2, bget bs src = Some q → dpage q o2 its2 → q = p ∧ o2 = o ∧ its2 = its).
  { intros q o2 its2 Hq Hd. rewrite Hb in Hq. injection Hq as <-. split; [done|]. split.
    - destruct Hp as [_ Hsp _], Hd as [_ Hsp' _]. congruence.
    - exact (dpage_items_eq _ _ _ _ _ Hp Hd). }
  destruct lvl as [|l].
  - destruct HT as (q & o2 & its2 & Hq & Hd & Hl & HF & Hlf & -> & ->).
    destruct (Heq _ _ _ Hq Hd) as (-> & -> & ->). exists p', o', its.
    split_and!; first [done|by bget_simpl|congruence].
  - apply tree_inner in HT as (q & o2 & its2 & subs & [Hq Hd Hl HF Hlf Hne HS] & -> & ->).
    destruct (Heq _ _ _ Hq Hd) as (-> & -> & ->). cbn [tail] in *.
    eapply inner_tree, (inner_rewrite l bs blk p' o' its subs); first [done|congruence].
Qed.

Lemma tree_fp lvl bs blk c fp : tree lvl bs blk c fp → fp = blk :: tail fp.
Proof.
  destruct lvl; intros (p & o & its & _ & _ & _ & _ & Hm).
  - destruct Hm as (_ & _ & ->). done.
  - destruct Hm as (_ & _ & subs & _ & _ & ->). done.
Qed.

Lemma tree_clear_root lvl bs blk c fp p o its p' o' :
  tree lvl bs blk c fp → NoDup fp → bget bs blk = Some p → dpage p o its → dpage p' o' its →
  op_level o' = op_level o →
  has_flag (op_flags o') TRTREE_PAGE_LEAF = has_flag (op_flags o) TRTREE_PAGE_LEAF →
  tree lvl (bset bs blk p') blk c fp.
Proof.
  intros HT HN Hb Hp Hp' Hl Hf. pose proof (tree_fp _ _ _ _ _ HT) as Hfp. rewrite Hfp in HN |- *.
  apply NoDup_cons in HN as [Hn _]. eapply tree_copy; try done. by eapply bget_range.
Qed.

(** A tree has at least one block per level. *)
Lemma tree_height lvl bs blk c fp : tree lvl bs blk c fp → (lvl < length fp)%nat.
Proof.
  revert blk c fp. induction lvl as [|l IH]; intros blk c fp HT.
  - rewrite (tree_fp _ _ _ _ _ HT). cbn. lia.
  - apply tree_inner in HT as (p & o & its & subs & [_ _ _ _ _ Hne HS] & _ & ->).
    destruct HS as [|it s its subs Hs _]; [done|]. apply IH in Hs. unfold footprint. cbn.
    rewrite length_app. lia.
Qed.

(** The new root: two downlinks. *)
Lemma root_promote_run lvl bs w lg blk res c1 f1 c2 f2 :
  tree lvl bs blk c1 f1 → tree lvl bs (right_blkno res) c2 f2 → NoDup (f1 ++ f2) →
  good_box (left_box res) → good_box (right_box res) →
  zlen bs + 1 ≤ InvalidBlockNumber → Z.of_nat lvl + 1 < 2 ^ 16 →
  ∃ bs' lg',
    rtree_root_promote blk res (Z.of_nat lvl) (mkRel bs w lg) = (mkRel bs' w lg', Ok (zlen bs)) ∧
    zlen bs' = zlen bs + 1 ∧ (∀ b, b < zlen bs → b ≠ blk → bget bs' b = bget bs b) ∧
    tree (S lvl) bs' (zlen bs) (c1 ++ c2) (zlen bs :: f1 ++ f2).
Proof.
  intros HT1 HT2 HN Gl Gr Hmax Hlvl.
  pose proof (tree_range _ _ _ _ _ HT1) as HR1. pose proof (tree_range _ _ _ _ _ HT2) as HR2.
  rewrite Forall_forall in HR1, HR2.
  pose proof (HR1 _ (tree_root_in _ _ _ _ _ HT1)) as Hb1. pose proof (HR2 _ (tree_root_in _ _ _ _ _ HT2)) as Hb2.
  assert (HI : InvalidBlockNumber = 4294967295) by done.
  assert (∃ p o its, bget bs blk = Some p ∧ dpage p o its) as (p & o & its & Hb & Hp).
  { destruct lvl; destruct HT1 as (p & o & its & ? & ? & _); eauto. }
  apply NoDup_app in HN as HN'. destruct HN' as (HN1 & Hd & _).
  unfold rtree_root_promote. erewrite bind_run by (by apply ReadBuffer_run).
  erewrite bind_run by done. st_simpl.
  destruct (rtree_form_tuple_good (left_box res) (ItemPointerSet blk FirstOffsetNumber))
    as (lt & Hfl & Htl & Hlt); [done|].
  destruct (rtree_form_tuple_good (right_box res) (ItemPointerSet (right_blkno res) FirstOffsetNumber))
    as (rt & Hfr & Htr & Hrt); [done|].
  erewrite bind_run by (apply lift_run, Hfl). erewrite bind_run by (apply lift_run, Hfr).
  rewrite uint16_id by lia. pose proof (dpage_init TRTREE_PAGE_ROOT (Z.of_nat lvl + 1)) as Dr0.
  set (rp := rtree_init_datapage _ _) in *. clearbody rp.
  destruct (dpage_append rp _ [] lt Dr0 Hlt) as (rp1 & He1 & Dr1); [constructor|done|].
  erewrite bind_run by (apply lift_run, He1). cbn [fst].
  destruct (dpage_append rp1 _ ([] ++ [lt]) rt Dr1 Hrt) as (rp2 & He2 & Dr2); [by constructor|done|].
  erewrite bind_run by (apply lift_run, He2). cbn [fst app] in *.
  erewrite bind_run by done. erewrite bind_run by done. st_simpl.
  erewrite bind_run by (apply ReadBuffer_run; bget_simpl; exact Hb).
  unfold update_opaque at 1. rewrite (dpage_opaque _ _ _ Hp). erewrite bind_run by done.
  erewrite bind_run by done. erewrite bind_run by done. st_simpl.
  eexists _, _. split; [done|]. rewrite !zlen_bset, zlen_app. split; [done|]. split.
  { intros b ??. bget_simpl. done. }
  set (bs2 := bset (bs ++ [zero_page]) (zlen bs) rp2). set (p' := page_set_sp _ p).
  assert (Hg2 : ∀ b, b < zlen bs → bget bs2 b = bget bs b).
  { intros b ?. subst bs2. bget_simpl. done. }
  assert (HT1' : tree lvl (bset bs2 blk p') blk c1 f1).
  { eapply (tree_clear_root lvl bs2 blk c1 f1 p o its p'
      (set_op_flags (Z.land (op_flags o) (Z.lnot TRTREE_PAGE_ROOT)) o)); [|done|by rewrite Hg2 by lia|exact Hp| |done|].
    - eapply tree_frame; [exact HT1|]. intros b ?%HR1. apply Hg2. lia.
    - by eapply dpage_set_sp.
    - apply has_flag_clear_root. }
  assert (HT2' : tree lvl (bset bs2 blk p') (right_blkno res) c2 f2).
  { eapply tree_frame; [exact HT2|]. intros b Hin. pose proof (HR2 _ Hin).
    rewrite bget_bset_ne; [apply Hg2; lia|lia|]. intros ->. apply (Hd b); [|done].
    by eapply tree_root_in. }
  assert (Hc : ∀ x b, t_tid x = ItemPointerSet b FirstOffsetNumber → 0 ≤ b < zlen bs → child x = b).
  { intros x b Hx ?. unfold child. rewrite Hx. apply tid_block_roundtrip. lia. }
  assert (HI2 : inner lvl (bset bs2 blk p') (zlen bs) rp2
                  (mkOpaque InvalidBlockNumber TRTREE_PAGE_ROOT (Z.of_nat lvl + 1) 0)
                  [lt; rt] [(c1, f1); (c2, f2)]).
  { constructor; try done.
    - subst bs2. bget_simpl. done.
    - cbn. lia.
    - apply Forall_cons; split; [done|by apply Forall_singleton].
    - repeat constructor; unfold sub_tree; cbn [fst snd].
      + by rewrite (Hc lt blk Htl Hb1).
      + by rewrite (Hc rt _ Htr Hb2). }
  apply inner_tree in HI2. unfold contents, footprint in HI2. cbn in HI2.
  by rewrite !app_nil_r in HI2.
Qed.

(** * Insertion *)

(** Room for one more insertion: blocks and levels are numbered with 32 and 16 bits. *)
Definition has_room (s : Rel) (lvl : nat) : Prop :=
  nblocks s + Z.of_nat lvl + 2 ≤ InvalidBlockNumber ∧ Z.of_nat lvl + 1 < 2 ^ 16.

(** The insertion once the meta page [m] is read. *)
Definition insert_below (m : RTreeMetaPageData) (itup : IndexTuple) (box : RTreeTemporalBox) : M bool :=
  result ← rtree_insert_page (Z.to_nat (root_level m)) (root m) itup box;
  if split result then
    new_rootblk ← rtree_root_promote (root m) result (root_level m);
    metapage ← ReadBuffer 0;
    meta ← lift (meta_of metapage);
    WritePage 0 (page_set_sp (SpMeta (set_root new_rootblk (uint16 (root_level m + 1)) meta)) metapage);;
    MarkBufferDirty 0;;
    mret true
  else mret true.

Lemma insert_tree_run bs w lg lvl mp m c fp itup box :
  bget bs 0 = Some mp → pd_sp mp = Some (SpMeta m) → tree lvl bs (root m) c fp → NoDup fp →
  0 ∉ fp → has_room (mkRel bs w lg) lvl → tuple_ok itup → root_level m = Z.of_nat lvl →
  magic m = TRTREE_META_MAGIC → 2 ≤ zlen bs →
  ∃ s' lvl' c',
    insert_below m itup box (mkRel bs w lg) = (s', Ok true) ∧
    index_rep s' lvl' c' ∧ c' ≡ₚ itup :: c ∧ needs_wal s' = w ∧
    zlen bs ≤ nblocks s' ≤ zlen bs + Z.of_nat lvl + 2 ∧ (lvl' ≤ S lvl)%nat ∧
    (nblocks s' = zlen bs → grows itup bs (blocks s') ∧ bget (blocks s') 0 = bget bs 0).
Proof.
  intros Hm Hsp HT HN H0 [Hmax Hlev] Hit Hlvl Hmg H2. unfold nblocks in Hmax; cbn [blocks] in Hmax.
  destruct (insert_page_run lvl bs w lg (root m) c fp itup box HT HN Hit) as (bs1 & lg1 & res & He & HI);
    [lia|].
  unfold insert_below. rewrite Hlvl, Nat2Z.id. erewrite bind_run by (exact He).
  destruct HI as [Hlen Hfr Gl Gr HTR HG].
  assert (Hm1 : bget bs1 0 = Some mp) by (rewrite Hfr; [done|lia|done]).
  destruct (split res) eqn:Hs.
  - destruct HTR as (c1 & f1 & c2 & f2 & HT1 & HT2 & HP & HN12 & HW).
    assert (Hn0 : 0 ∉ f1 ++ f2) by (intros [?|?]%HW; [done|lia]).
    destruct (root_promote_run lvl bs1 w lg1 (root m) res c1 f1 c2 f2 HT1 HT2 HN12 Gl Gr)
      as (bs2 & lg2 & He2 & Hlen2 & Hfr2 & HT'); [lia|lia|].
    erewrite bind_run by (exact He2).
    assert (Hm2 : bget bs2 0 = Some mp).
    { rewrite Hfr2; [done|lia|]. intros E. apply H0. rewrite E. by eapply tree_root_in. }
    pose proof (bget_range _ _ _ Hm2).
    erewrite bind_run by (by apply ReadBuffer_run).
    unfold meta_of. rewrite Hsp. erewrite bind_run by done. do 2 (erewrite bind_run by done). st_simpl.
    eexists _, (S lvl), (c1 ++ c2). split; [done|]. st_simpl. rewrite zlen_bset.
    split_and!; [|done|done|lia|lia|lia|intros ?; lia].
    eexists _, _, (zlen bs1 :: f1 ++ f2). cbn [blocks]. split_and!; [by bget_simpl|done|done| | | | |].
    + cbn. rewrite uint16_id by lia. lia.
    + cbn [set_root root]. eapply tree_frame; [exact HT'|]. intros b Hb. apply bget_bset_ne; [lia|]. intros <-.
      apply elem_of_cons in Hb as [?|?]; [lia|done].
    + apply NoDup_cons. split; [|done]. intros [Hin|Hin]%HW; [|lia].
      pose proof (tree_range _ _ _ _ _ HT) as HR. rewrite Forall_forall in HR. apply HR in Hin. lia.
    + rewrite elem_of_cons. intros [?|?]; [lia|done].
    + unfold nblocks; cbn [blocks]. rewrite zlen_bset. lia.
  - destruct HTR as (c' & f' & HT' & HP & HN' & HW).
    eexists _, lvl, c'. split; [done|]. st_simpl. split_and!; [|done|done|lia|lia|lia|].
    2: { intros Hz. destruct (HG Hz) as [_ ?]. cbn [blocks]. by rewrite Hm1, Hm. }
    exists mp, m, f'. cbn [blocks]. split_and!; try done.
    + intros [?|?]%HW; [done|lia].
    + unfold nblocks; cbn [blocks]. lia.
Qed.

Lemma insert_enter s lvl c cube tid mp m :
  index_rep s lvl c → good_key cube → bget (blocks s) 0 = Some mp → pd_sp mp = Some (SpMeta m) →
  ∃ box, temporal_rtree_insert (Some cube) tid s = insert_below m (leaf_tuple cube tid) box s.
Proof.
  intros (mp' & m' & fp & Hm & Hsp & Hmg & _ & _ & _ & _ & H2) Hk Hm' Hsp'.
  assert (mp' = mp) as -> by congruence. assert (m' = m) as -> by congruence.
  unfold temporal_rtree_insert. erewrite bind_run by done.
  destruct (Z.ltb_spec (nblocks s) 2); [lia|]. erewrite bind_run by done.
  destruct (form_leaf_tuple cube Hk) as (it & Hf & Hset). erewrite bind_run by (apply lift_run, Hf).
  rewrite Hset. destruct (leaf_tuple_ok cube tid Hk) as [_ (b & Hb & _)].
  exists b. rewrite Hb. erewrite bind_run by (destruct s; by apply ReadBuffer_run).
  assert (Hmeta : meta_of mp = Ok m) by (unfold meta_of; by rewrite Hsp).
  erewrite bind_run by (apply lift_run, Hmeta). rewrite (proj2 (Z.eqb_eq _ _) Hmg). done.
Qed.

Lemma insert_run_grows s lvl c cube tid :
  index_rep s lvl c → has_room s lvl → good_key cube →
  ∃ s' lvl' c', temporal_rtree_insert (Some cube) tid s = (s', Ok true) ∧
    index_rep s' lvl' c' ∧ c' ≡ₚ leaf_tuple cube tid :: c ∧ needs_wal s' = needs_wal s ∧
    nblocks s ≤ nblocks s' ≤ nblocks s + Z.of_nat lvl + 2 ∧ (lvl' ≤ S lvl)%nat ∧
    (nblocks s' = nblocks s →
       grows (leaf_tuple cube tid) (blocks s) (blocks s') ∧ bget (blocks s') 0 = bget (blocks s) 0).
Proof.
  intros Hi Hroom Hk. pose proof Hi as (mp & m & fp & Hm & Hsp & Hmg & Hlvl & HT & HN & H0 & H2).
  destruct (insert_enter s lvl c cube tid mp m Hi Hk Hm Hsp) as [b ->]. destruct s as [bs w lg].
  eapply insert_tree_run; try done. by apply leaf_tuple_ok.
Qed.

Lemma insert_run s lvl c cube tid :
  index_rep s lvl c → has_room s lvl → good_key cube →
  ∃ s' lvl' c', temporal_rtree_insert (Some cube) tid s = (s', Ok true) ∧
    index_rep s' lvl' c' ∧ c' ≡ₚ leaf_tuple cube tid :: c ∧ needs_wal s' = needs_wal s ∧
    nblocks s ≤ nblocks s' ≤ nblocks s + Z.of_nat lvl + 2 ∧ (lvl' ≤ S lvl)%nat.
Proof.
  intros Hi Hroom Hk. destruct (insert_run_grows s lvl c cube tid Hi Hroom Hk)
    as (s' & lvl' & c' & ? & ? & ? & ? & ? & ? & _). by exists s', lvl', c'.
Qed.

(** C6. Inserting a row into an index succeeds and adds exactly its tuple to the leaves,
    however many pages split on the way, and leaves a well-formed index: the meta page
    points to a root of the recorded level, all leaves are at level 0, no page is reached
    twice and every page's tuples lie disjointly inside it.  The key is a box in range with some
    extent, and block numbers and levels are left. *)
Theorem insert_adds_tuple s lvl c cube tid :
  index_rep s lvl c → has_room s lvl → good_key cube →
  ∃ s' lvl' c', temporal_rtree_insert (Some cube) tid s = (s', Ok true) ∧
    index_rep s' lvl' c' ∧ c' ≡ₚ leaf_tuple cube tid :: c ∧
    nblocks s ≤ nblocks s' ≤ nblocks s + Z.of_nat lvl + 2 ∧ (lvl' ≤ S lvl)%nat.
Proof.
  intros Hi Hr Hk. destruct (insert_run s lvl c cube tid Hi Hr Hk) as (s' & lvl' & c' & ? & ? & ? & _ & ? & ?).
  by exists s', lvl', c'.
Qed.

End index.

(** * A concrete index *)

Definition new_index : Rel := (temporal_rtree_buildempty (mkRel [] true [])).1.

Lemma new_index_rep : index_rep new_index 0 [] ∧ nblocks new_index = 2.
Proof. destruct (buildempty_run true []) as (bs & lg & E & Hi & Hn). unfold new_index. by rewrite E. Qed.

(** Executable test for [good_key]. *)
Definition good_keyb (c : NDBOX) : bool :=
  let b := rtree_cube_to_box c in
  (vl_size c =? CUBE_SIZE 2) && in_int32 (attr_lo b) && in_int32 (attr_hi b) &&
  ((Z.abs (lower_us b) <? 2 ^ 53) ||
   (lower_us b =? PG_INT64_MIN) && has_flag (flags b) TRTREE_FLAG_LOWER_INF) &&
  ((Z.abs (upper_us b) <? 2 ^ 53) || (upper_us b =? PG_INT64_MAX)) && negb (is_empty b) &&
  ((attr_lo b <? attr_hi b) || (lower_us b <? upper_us b)).

Lemma good_keyb_sound c : good_keyb c = true → good_key c.
Proof.
  unfold good_keyb. rewrite !andb_true_iff, !orb_true_iff, andb_true_iff, !Z.ltb_lt, !Z.eqb_eq, negb_true_iff.
  intros [[[[[[Hs A0] A1] L] U] E] X]. apply in_int32_sound in A0, A1. split; [done|].
  constructor; try done; unfold good_lower, good_upper, PG_INT64_MIN, PG_INT64_MAX in *; try lia.
  intros HL. destruct L as [?|[_ ?]]; [lia|done].
Qed.

Lemma insert_adds_tuple_witness :
  ∃ s' lvl' c',
    temporal_rtree_insert (Some (temporalbox 10 1577836800 None)) (ItemPointerSet 0 1) new_index = (s', Ok true) ∧
    index_rep s' lvl' c' ∧ c' ≡ₚ [leaf_tuple (temporalbox 10 1577836800 None) (ItemPointerSet 0 1)] ∧
    nblocks new_index ≤ nblocks s' ≤ nblocks new_index + Z.of_nat 0 + 2 ∧ (lvl' ≤ 1)%nat.
Proof.
  destruct new_index_rep as [Hi Hn].
  apply (insert_adds_tuple new_index 0 []); [exact Hi| |apply good_keyb_sound; vm_compute; reflexivity].
  split; [rewrite Hn; vm_compute; discriminate|vm_compute; reflexivity].
Defined.

(** An index of two rows. *)
Definition demo_index : Rel :=
  (temporal_rtree_insert (Some (temporalbox 20 0 (Some 100))) (ItemPointerSet 0 2)
     (temporal_rtree_insert (Some (temporalbox 10 1577836800 None)) (ItemPointerSet 0 1) new_index).1).1.

Lemma demo_index_rep :
  ∃ lvl c, index_rep demo_index lvl c ∧
    c ≡ₚ [leaf_tuple (temporalbox 20 0 (Some 100)) (ItemPointerSet 0 2);
          leaf_tuple (temporalbox 10 1577836800 None) (ItemPointerSet 0 1)] ∧
    (lvl ≤ 2)%nat ∧ nblocks demo_index ≤ 7.
Proof.
  destruct new_index_rep as [Hi Hn]. unfold demo_index.
  destruct (insert_run new_index 0 [] (temporalbox 10 1577836800 None) (ItemPointerSet 0 1) Hi)
    as (s1 & l1 & c1 & E1 & I1 & P1 & _ & N1 & L1); [|apply good_keyb_sound; by vm_compute|].
  { split; [rewrite Hn|]; by vm_compute. }
  rewrite E1. cbn [fst].
  destruct (insert_run s1 l1 c1 (temporalbox 20 0 (Some 100)) (ItemPointerSet 0 2) I1)
    as (s2 & l2 & c2 & E2 & I2 & P2 & _ & N2 & L2); [|apply good_keyb_sound; by vm_compute|].
  { unfold has_room, InvalidBlockNumber. lia. }
  rewrite E2. exists l2, c2. split_and!; [done|by rewrite P2, P1|lia|cbn [fst]; lia].
Qed.
