(* ===== verification/Search.v ===== *)
(** temporal_rtree_search.c: index scans.  A scan walks the tree with an explicit
    stack of frames and returns one matching leaf tuple per call. *)

From S2P Require Import Prelude Float64 Cube Box Bufpage Itup Store.

Definition SK_ISNULL : Z := 0x0001.

Record ScanKeyData : Type := mkKey {
  sk_flags : Z;
  sk_strategy : Z;
  sk_argument : NDBOX;
}.

Record RTreeScanFrameData : Type := mkFrame {
  blkno : Z;
  level : Z;
  next_offset : Z;
}.

(** [cur_buf] is the block of the pinned buffer, [None] for [InvalidBuffer].  The
    array [stack] has [stack_size] entries, those below [stack_top] in use. *)
Record RTreeScanOpaqueData : Type := mkScanOpaque {
  cur_buf : option Z;
  cur_offset : Z;
  cur_blkno : Z;
  first_call : bool;
  query_box : RTreeTemporalBox;
  strategy : Z;
  have_query : bool;
  stack : list RTreeScanFrameData;
  stack_size : Z;
  stack_top : Z;
}.

(** The fields of [IndexScanDesc] the access method uses; a key slot is [None] until it
    is copied in, [keyData] is [None] for a null pointer. *)
Record IndexScanDesc : Type := mkScan {
  numberOfKeys : Z;
  keyData : option (list (option ScanKeyData));
  scan_opaque : option RTreeScanOpaqueData;
  xs_heaptid : ItemPointerData;
  xs_recheck : bool;
}.

Definition zero_frame : RTreeScanFrameData := mkFrame 0 0 0.

Section setters.
Implicit Types o : RTreeScanOpaqueData.
Definition set_cur (buf : option Z) (blk : Z) o : RTreeScanOpaqueData :=
  {| cur_buf := buf; cur_offset := cur_offset o; cur_blkno := blk; first_call := first_call o;
     query_box := query_box o; strategy := strategy o; have_query := have_query o;
     stack := stack o; stack_size := stack_size o; stack_top := stack_top o |}.
Definition set_cur_offset (off : Z) o : RTreeScanOpaqueData :=
  {| cur_buf := cur_buf o; cur_offset := off; cur_blkno := cur_blkno o; first_call := first_call o;
     query_box := query_box o; strategy := strategy o; have_query := have_query o;
     stack := stack o; stack_size := stack_size o; stack_top := stack_top o |}.
Definition set_first_call (b : bool) o : RTreeScanOpaqueData :=
  {| cur_buf := cur_buf o; cur_offset := cur_offset o; cur_blkno := cur_blkno o; first_call := b;
     query_box := query_box o; strategy := strategy o; have_query := have_query o;
     stack := stack o; stack_size := stack_size o; stack_top := stack_top o |}.
Definition set_query (q : RTreeTemporalBox) (st : Z) (h : bool) o : RTreeScanOpaqueData :=
  {| cur_buf := cur_buf o; cur_offset := cur_offset o; cur_blkno := cur_blkno o;
     first_call := first_call o; query_box := q; strategy := st; have_query := h;
     stack := stack o; stack_size := stack_size o; stack_top := stack_top o |}.
Definition set_stack (st : list RTreeScanFrameData) (size top : Z) o : RTreeScanOpaqueData :=
  {| cur_buf := cur_buf o; cur_offset := cur_offset o; cur_blkno := cur_blkno o;
     first_call := first_call o; query_box := query_box o; strategy := strategy o;
     have_query := have_query o; stack := st; stack_size := size; stack_top := top |}.
Definition set_scan_opaque (o : option RTreeScanOpaqueData) (s : IndexScanDesc) : IndexScanDesc :=
  {| numberOfKeys := numberOfKeys s; keyData := keyData s; scan_opaque := o;
     xs_heaptid := xs_heaptid s; xs_recheck := xs_recheck s |}.
Definition set_result (tid : ItemPointerData) (recheck : bool) (s : IndexScanDesc) : IndexScanDesc :=
  {| numberOfKeys := numberOfKeys s; keyData := keyData s; scan_opaque := scan_opaque s;
     xs_heaptid := tid; xs_recheck := recheck |}.
End setters.

Section search.
Context `{Platform}.
Implicit Types (rel : Rel) (scan : IndexScanDesc) (opaque : RTreeScanOpaqueData).

(** * The query *)

Definition rtree_read_meta rel : result RTreeMetaPageData :=
  match block rel 0 with
  | Some page => meta_of page
  | None => Err (Elog "could not read block")
  end.

(** The first key that is not null and has a strategy of the operator class. *)
Fixpoint parse_keys (keys : list (option ScanKeyData)) (n : nat)
  : result (option (RTreeTemporalBox * Z)) :=
  match n with
  | O => Ok None
  | S n =>
      match keys with
      | [] => Err (Undefined "scan key out of range")
      | None :: _ => Err (Undefined "scan key not initialised")
      | Some key :: keys =>
          if has_flag (sk_flags key) SK_ISNULL then parse_keys keys n
          else if (sk_strategy key <? TRTREE_STRATEGY_OVERLAP) ||
                  (TRTREE_STRATEGY_CONTAINED <? sk_strategy key) then parse_keys keys n
          else Ok (Some (rtree_cube_to_box (sk_argument key), sk_strategy key))
      end
  end.

Definition rtree_parse_query scan : result (option (RTreeTemporalBox * Z)) :=
  parse_keys (default [] (keyData scan)) (Z.to_nat (numberOfKeys scan)).

Definition rtree_ensure_query scan opaque : result (RTreeScanOpaqueData * bool) :=
  if have_query opaque then Ok (opaque, true)
  else
    r ← rtree_parse_query scan;
    match r with
    | None => Ok (opaque, false)
    | Some (q, st) => Ok (set_query q st true opaque, true)
    end.

(** * Buffers and the stack *)

Definition rtree_release_current_page opaque : RTreeScanOpaqueData :=
  match cur_buf opaque with
  | Some _ => set_cur None InvalidBlockNumber opaque
  | None => opaque
  end.

Definition rtree_stack_reset opaque : RTreeScanOpaqueData :=
  set_stack (stack opaque) (stack_size opaque) 0 opaque.

Definition rtree_stack_push (blk lvl off : Z) opaque : RTreeScanOpaqueData :=
  let '(st, size) :=
    if stack_size opaque <=? stack_top opaque then
      let new_size := Z.max (stack_size opaque * 2) 16 in
      (stack opaque ++ replicate (Z.to_nat (new_size - stack_size opaque)) zero_frame, new_size)
    else (stack opaque, stack_size opaque) in
  set_stack (<[Z.to_nat (stack_top opaque) := mkFrame blk lvl off]> st) size
    (stack_top opaque + 1) opaque.

Definition rtree_initialize_scan rel scan opaque : result (RTreeScanOpaqueData * bool) :=
  r ← rtree_ensure_query scan opaque;
  let '(opaque, ok) := r in
  if negb ok then Ok (opaque, false)
  else
    meta ← rtree_read_meta rel;
    if negb (magic meta =? TRTREE_META_MAGIC) then Ok (opaque, false)
    else
      let opaque := set_first_call false (rtree_release_current_page (rtree_stack_reset opaque)) in
      if root meta =? InvalidBlockNumber then Ok (opaque, false)
      else Ok (rtree_stack_push (root meta) (root_level meta) FirstOffsetNumber opaque, true).

(** * The traversal *)

(** How the loop over a page ends early. *)
Inductive stop : Type :=
  | Found (offset : Z) (tid : ItemPointerData)
  | Descend (offset : Z) (childblk : Z).

Definition scan_step (lvl : Z) (q : RTreeTemporalBox) (st : Z) (s : unit) (offset : Z)
    (itup : IndexTuple) : result (loop unit stop) :=
  match rtree_index_tuple_box itup with
  | None => Ok (Continue s)
  | Some box =>
      if lvl =? 0 then
        if rtree_box_matches_strategy box q st then Ok (Break (Found offset (t_tid itup)))
        else Ok (Continue s)
      else Ok (Break (Descend offset (ItemPointerGetBlockNumber (t_tid itup))))
  end.

Definition set_next_offset (off : Z) opaque : RTreeScanOpaqueData :=
  let i := Z.to_nat (stack_top opaque - 1) in
  set_stack (alter (λ f, mkFrame (blkno f) (level f) (uint16 off)) i (stack opaque))
    (stack_size opaque) (stack_top opaque) opaque.

(** Reading and locking the page of the top frame, unless it is the current one. *)
Definition pin_frame rel (frame : RTreeScanFrameData) opaque : result RTreeScanOpaqueData :=
  if match cur_buf opaque with None => true | Some _ => negb (cur_blkno opaque =? blkno frame) end
  then
    let opaque := rtree_release_current_page opaque in
    match block rel (blkno frame) with
    | None => Err (Elog "could not read block")
    | Some _ => Ok (set_cur (Some (blkno frame)) (blkno frame) opaque)
    end
  else Ok opaque.

(** The while loop of [rtree_scan_next], at most [fuel] times round. *)
Fixpoint rtree_scan_next (fuel : nat) rel scan opaque : result (IndexScanDesc * RTreeScanOpaqueData * bool) :=
  match fuel with
  | O => Err OutOfFuel
  | S fuel =>
      if stack_top opaque <=? 0 then Ok (scan, opaque, false)
      else
        frame ← some_or "scan frame" (stack opaque !! Z.to_nat (stack_top opaque - 1));
        opaque ← pin_frame rel frame opaque;
        page ← some_or "pinned buffer" (b ← cur_buf opaque; block rel b);
        r ← for_offsets page (scan_step (level frame) (query_box opaque) (strategy opaque))
              (offsets_from page (next_offset frame)) ();
        match r with
        | Break (Found offset tid) =>
            Ok (set_result tid false scan,
                set_cur_offset offset (set_next_offset (offset + 1) opaque), true)
        | Break (Descend offset childblk) =>
            let opaque := set_next_offset (offset + 1) opaque in
            let opaque := rtree_release_current_page opaque in
            let opaque := rtree_stack_push childblk (uint16 (level frame - 1)) FirstOffsetNumber opaque in
            rtree_scan_next fuel rel scan opaque
        | Continue _ =>
            let opaque := rtree_release_current_page opaque in
            rtree_scan_next fuel rel scan
              (set_stack (stack opaque) (stack_size opaque) (stack_top opaque - 1) opaque)
        end
  end.

(** Each frame is pushed once and popped once per visited block, and one more round
    returns. *)
Definition scan_fuel rel : nat := 2 * length (blocks rel) + 2.

(** * The access method's entry points *)

(** [RelationGetIndexScan]: room for the keys, not yet filled. *)
Definition RelationGetIndexScan (nkeys : Z) : IndexScanDesc :=
  {| numberOfKeys := nkeys;
     keyData := if 0 <? nkeys then Some (replicate (Z.to_nat nkeys) None) else None;
     scan_opaque := None;
     xs_heaptid := ItemPointerSet InvalidBlockNumber InvalidOffsetNumber;
     xs_recheck := false |}.

Definition temporal_rtree_beginscan (nkeys : Z) : IndexScanDesc :=
  set_scan_opaque
    (Some {| cur_buf := None; cur_offset := InvalidOffsetNumber; cur_blkno := InvalidBlockNumber;
             first_call := true; query_box := zero_box; strategy := 0; have_query := false;
             stack := replicate 16 zero_frame; stack_size := 16; stack_top := 0 |})
    (RelationGetIndexScan nkeys).

Definition ForwardScanDirection : Z := 1.

Definition temporal_rtree_gettuple rel scan (dir : Z) : result (IndexScanDesc * bool) :=
  match scan_opaque scan with
  | None => Ok (scan, false)
  | Some opaque =>
      if negb (dir =? ForwardScanDirection) then Ok (scan, false)
      else
        r ← (if first_call opaque then rtree_initialize_scan rel scan opaque else Ok (opaque, true));
        let '(opaque, ok) := r in
        if negb ok then Ok (set_scan_opaque (Some opaque) scan, false)
        else
          r ← rtree_scan_next (scan_fuel rel) rel scan opaque;
          let '(scan, opaque, found) := r in
          Ok (set_scan_opaque (Some opaque) scan, found)
  end.

(** [key] is [None] for a null pointer. *)
Definition temporal_rtree_rescan scan (key : option (list ScanKeyData)) (nkeys : Z)
  : result IndexScanDesc :=
  match scan_opaque scan with
  | None => Ok scan
  | Some opaque =>
      scan ←
        match key with
        | Some ks =>
            if 0 <? nkeys then
              match keyData scan with
              | None => Err (Elog "temporal_rtree: scan keyData is NULL")
              | Some old =>
                  if (length ks <? Z.to_nat nkeys)%nat || (length old <? Z.to_nat nkeys)%nat
                  then Err (Undefined "scan key out of range")
                  else Ok {| numberOfKeys := nkeys;
                             keyData := Some (map Some (take (Z.to_nat nkeys) ks) ++ drop (Z.to_nat nkeys) old);
                             scan_opaque := scan_opaque scan;
                             xs_heaptid := xs_heaptid scan; xs_recheck := xs_recheck scan |}
              end
            else Ok scan
        | None => Ok scan
        end;
      let opaque := rtree_stack_reset (rtree_release_current_page opaque) in
      let opaque := set_first_call true opaque in
      let opaque := set_query (query_box opaque) (strategy opaque) false opaque in
      let opaque := set_cur (cur_buf opaque) InvalidBlockNumber (set_cur_offset InvalidOffsetNumber opaque) in
      Ok (set_scan_opaque (Some opaque) scan)
  end.

Definition temporal_rtree_endscan scan : IndexScanDesc :=
  match scan_opaque scan with
  | None => scan
  | Some opaque => set_scan_opaque None scan
  end.

End search.
