(* ===== verification/Scan.v ===== *)
(** Correctness of index scans: the sequence of calls of [temporal_rtree_gettuple]
    returns exactly the matching leaf tuples of the tree, each once, in the order
    of the leaves, and then ends. *)

From S2P Require Import Prelude Float64 Cube Box Split Bufpage Itup Store Insert Tree Index Search.

Section scan.
Context `{Platform}.
Context (rel : Rel) (q : RTreeTemporalBox) (st : Z).
Implicit Types (scan : IndexScanDesc) (opaque : RTreeScanOpaqueData) (it : IndexTuple)
  (its R : list IndexTuple) (f : RTreeScanFrameData) (fs : list RTreeScanFrameData) (K : nat).

(** The leaf test. *)
Definition hit it : Prop := rtree_box_matches_strategy (box_of it) q st = true.
#[local] Instance hit_dec it : Decision (hit it).
Proof. unfold hit. apply _. Defined.

Definition hits its : list IndexTuple := filter hit its.

(** * The loop over one page *)

Lemma scan_step_leaf it off :
  tuple_ok it →
  scan_step 0 q st () off it =
  if decide (hit it) then Ok (Break (Found off (t_tid it))) else Ok (Continue ()).
Proof.
  intros (_ & b & Hb & _). unfold scan_step. rewrite Hb. change (0 =? 0) with true. cbv iota.
  assert (Hbox : box_of it = b) by (unfold box_of; by rewrite Hb). rewrite <- Hbox.
  destruct (decide (hit it)) as [Hh|Hh]; unfold hit in Hh; [by rewrite Hh|].
  by rewrite (not_true_is_false _ Hh).
Qed.

Lemma leaf_loop its off :
  Forall tuple_ok its →
  (hits its = [] ∧ for_list (scan_step 0 q st) off its () = Ok (Continue ())) ∨
  ∃ j it, its !! j = Some it ∧
    for_list (scan_step 0 q st) off its () = Ok (Break (Found (off + Z.of_nat j) (t_tid it))) ∧
    hits its = it :: hits (drop (S j) its).
Proof.
  intros HF. revert off. induction HF as [|it its Hit _ IH]; intros off; [by left|].
  cbn [for_list]. rewrite scan_step_leaf by done. unfold hits. rewrite filter_cons.
  destruct (decide (hit it)) as [Hh|Hh]; rsimpl.
  - right. exists 0%nat, it. rewrite Z.add_0_r. done.
  - destruct (IH (off + 1)) as [[H1 H2]|(j & x & H1 & H2 & H3)]; [by left|].
    right. exists (S j), x. split_and!; [done| |done]. rewrite H2. do 3 f_equal. lia.
Qed.

Lemma inner_loop its off lvl :
  Forall tuple_ok its → lvl ≠ 0 →
  for_list (scan_step lvl q st) off its () =
  match its with [] => Ok (Continue ()) | it :: _ => Ok (Break (Descend off (child it))) end.
Proof.
  intros HF Hl. destruct HF as [|it its (_ & b & Hb & _) _]; [done|].
  assert (Hs : scan_step lvl q st () off it = Ok (Break (Descend off (child it)))).
  { unfold scan_step. rewrite Hb. by rewrite (proj2 (Z.eqb_neq _ _) Hl). }
  cbn [for_list]. by rewrite Hs.
Qed.

(** * Frames *)

(** The frame [f] still has the tuples [r] to return, in at most [k] rounds. *)
Definition frame_ok f (r : list IndexTuple) (k : nat) : Prop :=
  ∃ lvl n, level f = Z.of_nat lvl ∧ Z.of_nat lvl < 2 ^ 16 ∧ next_offset f = Z.of_nat n + 1 ∧
    match lvl with
    | O => ∃ c, tree 0 (blocks rel) (blkno f) c [blkno f] ∧ r = hits (drop n c) ∧ k = 1%nat
    | S l => ∃ p o its subs, inner l (blocks rel) (blkno f) p o its subs ∧
        r = hits (contents (drop n subs)) ∧ k = (1 + 2 * length (footprint (drop n subs)))%nat
    end.

Inductive frames_ok : list RTreeScanFrameData → list IndexTuple → nat → Prop :=
  | frames_nil : frames_ok [] [] 0
  | frames_cons f fs r R k K :
      frame_ok f r k → frames_ok fs R K → frames_ok (f :: fs) (r ++ R) (k + K).

(** The stack array holds the frames [fs], the topmost first. *)
Definition stack_ok opaque fs : Prop :=
  stack_top opaque = zlen fs ∧ zlen (stack opaque) = stack_size opaque ∧
  zlen fs ≤ stack_size opaque ∧ take (length fs) (stack opaque) = reverse fs.

Definition cur_ok opaque : Prop :=
  match cur_buf opaque with None => True | Some b => cur_blkno opaque = b end.

(** The scan still has to return [R], in at most [K] rounds. *)
Definition scan_inv opaque R K : Prop :=
  first_call opaque = false ∧ query_box opaque = q ∧ strategy opaque = st ∧ cur_ok opaque ∧
  ∃ fs, stack_ok opaque fs ∧ frames_ok fs R K.

Lemma stack_top_frame opaque f fs :
  stack_ok opaque (f :: fs) →
  (stack_top opaque <=? 0) = false ∧ stack opaque !! Z.to_nat (stack_top opaque - 1) = Some f.
Proof.
  intros (Ht & Hs & Hle & Htk). unfold zlen in *. cbn [length] in *. split; [apply Z.leb_gt; lia|].
  replace (Z.to_nat (stack_top opaque - 1)) with (length fs) by lia.
  rewrite <- (lookup_take_lt (stack opaque) (S (length fs))) by lia. rewrite Htk, reverse_cons.
  rewrite lookup_app_r by (by rewrite length_reverse). by rewrite length_reverse, Nat.sub_diag.
Qed.

Lemma stack_pop opaque f fs :
  stack_ok opaque (f :: fs) →
  stack_ok (set_stack (stack opaque) (stack_size opaque) (stack_top opaque - 1) opaque) fs.
Proof.
  intros (Ht & Hs & Hle & Htk). unfold stack_ok, zlen in *. cbn [set_stack stack_top stack stack_size length] in *.
  split_and!; try lia. apply (f_equal (take (length fs))) in Htk. rewrite take_take in Htk.
  rewrite Nat.min_l in Htk by lia. rewrite Htk, reverse_cons. by rewrite take_app_length'; [|rewrite length_reverse].
Qed.

Lemma stack_push opaque fs blk lvl off :
  stack_ok opaque fs → stack_ok (rtree_stack_push blk lvl off opaque) (mkFrame blk lvl off :: fs).
Proof.
  intros (Ht & Hs & Hle & Htk). unfold rtree_stack_push.
  destruct (if stack_size opaque <=? stack_top opaque then _ else _) as [stk size] eqn:E.
  assert (Hst : zlen stk = size ∧ zlen fs < size ∧ take (length fs) stk = reverse fs).
  { destruct (Z.leb_spec (stack_size opaque) (stack_top opaque)); injection E as <- <-; [|split_and!; [done|lia|done]].
    unfold zlen in *. rewrite length_app, length_replicate. split_and!; [lia|lia|].
    rewrite take_app_le; [done|lia]. }
  clear E. destruct Hst as (Hl & Hlt & Htk'). unfold stack_ok, zlen in *.
  cbn [set_stack stack_top stack stack_size length]. rewrite length_insert. split_and!; [lia|done|lia|].
  replace (Z.to_nat (stack_top opaque)) with (length fs) by lia.
  rewrite (take_S_r _ _ (mkFrame blk lvl off)) by (apply list_lookup_insert_eq; lia).
  by rewrite take_insert_ge, Htk', reverse_cons by lia.
Qed.

Lemma push_first_call blk lvl off opaque :
  first_call (rtree_stack_push blk lvl off opaque) = first_call opaque.
Proof. unfold rtree_stack_push. by bool_cases. Qed.
Lemma push_query blk lvl off opaque :
  query_box (rtree_stack_push blk lvl off opaque) = query_box opaque.
Proof. unfold rtree_stack_push. by bool_cases. Qed.
Lemma push_strategy blk lvl off opaque :
  strategy (rtree_stack_push blk lvl off opaque) = strategy opaque.
Proof. unfold rtree_stack_push. by bool_cases. Qed.
Lemma push_cur blk lvl off opaque :
  cur_ok (rtree_stack_push blk lvl off opaque) ↔ cur_ok opaque.
Proof. unfold rtree_stack_push. by bool_cases. Qed.

Lemma stack_next opaque f fs off :
  stack_ok opaque (f :: fs) → 0 ≤ off < 2 ^ 16 →
  stack_ok (set_next_offset off opaque) (mkFrame (blkno f) (level f) off :: fs).
Proof.
  intros Hok Hoff. pose proof (stack_top_frame _ _ _ Hok) as [_ Hf].
  destruct Hok as (Ht & Hs & Hle & Htk). unfold stack_ok, set_next_offset, zlen in *.
  cbn [set_stack stack_top stack stack_size length] in *.
  replace (Z.to_nat (stack_top opaque - 1)) with (length fs) in * by lia.
  rewrite length_alter. split_and!; try done. rewrite uint16_id by done.
  rewrite (take_S_r _ _ (mkFrame (blkno f) (level f) off)) by (rewrite list_lookup_alter_eq, Hf; done).
  rewrite reverse_cons in Htk |- *. f_equal. rewrite take_alter_ge by lia.
  apply (f_equal (take (length fs))) in Htk. rewrite take_take, Nat.min_l in Htk by lia.
  rewrite Htk. by rewrite take_app_length'; [|rewrite length_reverse].
Qed.

(** * One call of [rtree_scan_next] *)

Lemma frame_page f r k :
  frame_ok f r k → ∃ p o its, bget (blocks rel) (blkno f) = Some p ∧ dpage p o its ∧ Forall tuple_ok its.
Proof.
  intros (lvl & n & _ & _ & _ & Hm). destruct lvl as [|l].
  - destruct Hm as (c & HT & _). destruct HT as (p & o & its & ? & ? & _ & ? & _). by exists p, o, its.
  - destruct Hm as (p & o & its & subs & [] & _). by exists p, o, its.
Qed.

Lemma pin_frame_run f opaque p :
  cur_ok opaque → bget (blocks rel) (blkno f) = Some p →
  ∃ opaque', pin_frame rel f opaque = Ok opaque' ∧ cur_buf opaque' = Some (blkno f) ∧ cur_ok opaque' ∧
    (∀ fs, stack_ok opaque fs → stack_ok opaque' fs) ∧
    first_call opaque' = first_call opaque ∧ query_box opaque' = query_box opaque ∧
    strategy opaque' = strategy opaque.
Proof.
  intros Hc Hb. unfold pin_frame, block. rewrite Hb. unfold cur_ok in Hc.
  destruct (cur_buf opaque) as [b|] eqn:Eb.
  - destruct (Z.eqb_spec (cur_blkno opaque) (blkno f)) as [E|E]; cbn [negb].
    + exists opaque. split_and!; try done; [congruence|]. unfold cur_ok. by rewrite Eb.
    + eexists. split; [done|]. unfold rtree_release_current_page. rewrite Eb. split_and!; done.
  - eexists. split; [done|]. unfold rtree_release_current_page. rewrite Eb. split_and!; done.
Qed.

Lemma release_ok opaque :
  cur_ok (rtree_release_current_page opaque) ∧
  (∀ fs, stack_ok opaque fs → stack_ok (rtree_release_current_page opaque) fs) ∧
  first_call (rtree_release_current_page opaque) = first_call opaque ∧
  query_box (rtree_release_current_page opaque) = query_box opaque ∧
  strategy (rtree_release_current_page opaque) = strategy opaque.
Proof.
  unfold rtree_release_current_page. destruct (cur_buf opaque) eqn:E; split_and!; try done.
  unfold cur_ok. by rewrite E.
Qed.

(** The frame that starts on the whole tree below a block. *)
Lemma tree_frame_ok l blk c fp :
  tree l (blocks rel) blk c fp → Z.of_nat l < 2 ^ 16 →
  frame_ok (mkFrame blk (Z.of_nat l) 1) (hits c) (2 * length fp - 1).
Proof.
  intros HT Hl. exists l, 0%nat. cbn [level next_offset blkno]. split_and!; [done|done|done|].
  destruct l as [|l].
  - pose proof HT as (p & o & its & _ & _ & _ & _ & _ & -> & ->). exists its. by rewrite drop_0.
  - apply tree_inner in HT as (p & o & its & subs & HI & -> & ->).
    exists p, o, its, subs. rewrite drop_0. split_and!; [done|done|]. cbn [length]. lia.
Qed.

(** What one round on the top frame does. *)
Definition next_frame f (off : Z) : RTreeScanFrameData := mkFrame (blkno f) (level f) off.

Lemma frame_round f r k p o its :
  frame_ok f r k → bget (blocks rel) (blkno f) = Some p → dpage p o its →
  let run := for_offsets p (scan_step (level f) q st) (offsets_from p (next_offset f)) () in
  (run = Ok (Continue ()) ∧ r = []) ∨
  (∃ off it r', run = Ok (Break (Found off (t_tid it))) ∧ r = it :: r' ∧ 0 < off < 2 ^ 16 - 1 ∧
     frame_ok (next_frame f (off + 1)) r' k) ∨
  (∃ off blk lvl r1 k1 r2 k2, run = Ok (Break (Descend off blk)) ∧ r = r1 ++ r2 ∧
     uint16 (level f - 1) = lvl ∧ 0 < off < 2 ^ 16 - 1 ∧
     frame_ok (mkFrame blk lvl 1) r1 k1 ∧ frame_ok (next_frame f (off + 1)) r2 k2 ∧ (k1 + k2 < k)%nat).
Proof.
  intros (lvl & n & Hlv & Hlb & Hno & Hm) Hb Hp. cbv zeta. rewrite Hno.
  pose proof (page_rep_bounds _ _ (dp_rep _ _ _ Hp)) as (_ & _ & Hlen).
  rewrite (for_offsets_rep p its) by apply Hp. rewrite Hlv. destruct lvl as [|l].
  - destruct Hm as (c & HT & -> & ->).
    pose proof HT as (p' & o' & its' & Hb' & Hp' & _ & HF & _ & -> & _).
    rewrite Hb in Hb'. injection Hb' as <-.
    assert (its' = its) as -> by (by eapply dpage_items_eq).
    destruct (leaf_loop (drop n its) (Z.of_nat n + 1)) as [[E1 E2]|(j & it & Hj & E & Eh)].
    + by apply Forall_drop.
    + left. done.
    + right; left. exists (Z.of_nat n + 1 + Z.of_nat j), it, (hits (drop (S (n + j)) its)).
      rewrite lookup_drop in Hj. pose proof (lookup_lt_Some _ _ _ Hj). unfold zlen in Hlen.
      rewrite drop_drop in Eh. replace (n + S j)%nat with (S (n + j)) in Eh by lia.
      split_and!; [done|done|lia|lia|].
      exists 0%nat, (S (n + j)). cbn [level next_offset next_frame]. split_and!; [done|done|lia|].
      by exists its.
  - destruct Hm as (p' & o' & its' & subs & HI & -> & ->). pose proof HI as [Hb' Hp' _ HF _ _ HS].
    rewrite Hb in Hb'. injection Hb' as <-.
    assert (its' = its) as -> by (by eapply dpage_items_eq).
    rewrite inner_loop by (by apply Forall_drop || lia).
    destruct (drop n its) as [|it rest] eqn:Ed.
    + left. split; [done|]. assert (drop n subs = []) as ->; [|done]. apply nil_length_inv.
      apply (f_equal length) in Ed. rewrite length_drop in Ed. cbn in Ed.
      rewrite length_drop, <- (Forall2_length _ _ _ HS). lia.
    + right; right.
      assert (Hi : its !! n = Some it) by (by rewrite <- (Nat.add_0_r n), <- lookup_drop, Ed).
      destruct (Forall2_lookup_l _ _ _ _ _ HS Hi) as ([ci fi] & Hsub & HTi).
      unfold sub_tree in HTi. cbn [fst snd] in HTi. rewrite (drop_S _ _ _ Hsub).
      pose proof (lookup_lt_Some _ _ _ Hi). unfold zlen in Hlen.
      exists (Z.of_nat n + 1), (child it), (Z.of_nat l), (hits ci), (2 * length fi - 1)%nat,
        (hits (contents (drop (S n) subs))), (1 + 2 * length (footprint (drop (S n) subs)))%nat.
      split_and!; [done| |rewrite uint16_id by lia; lia|lia|lia|by apply tree_frame_ok; [|lia]| |].
      * unfold contents, hits. cbn [map concat fst]. by rewrite filter_app.
      * exists (S l), (S n). cbn [level next_offset next_frame]. split_and!; [done|done|lia|].
        by exists p, o', its, subs.
      * unfold footprint. cbn [map concat snd]. rewrite length_app.
        assert (0 < length fi)%nat; [|lia]. apply tree_root_in in HTi. destruct fi; [|cbn; lia].
        by apply not_elem_of_nil in HTi.
Qed.

Lemma frame_cost f r k : frame_ok f r k → (0 < k)%nat.
Proof.
  intros (lvl & n & _ & _ & _ & Hm). destruct lvl as [|l].
  - destruct Hm as (c & _ & _ & ->). lia.
  - destruct Hm as (p & o & its & subs & _ & _ & ->). lia.
Qed.

Lemma frames_top f fs R K :
  frames_ok (f :: fs) R K →
  ∃ r k R' K', frame_ok f r k ∧ frames_ok fs R' K' ∧ R = r ++ R' ∧ K = (k + K')%nat.
Proof. inversion 1; subst. eauto 10. Qed.

Lemma scan_next_run fuel scan opaque R K :
  scan_inv opaque R K → (K < fuel)%nat →
  ∃ opaque',
    rtree_scan_next fuel rel scan opaque =
      Ok (match R with [] => scan | it :: _ => set_result (t_tid it) false scan end, opaque',
          match R with [] => false | _ => true end) ∧
    ∃ K', scan_inv opaque' (tail R) K' ∧ (K' ≤ K)%nat.
Proof.
  revert opaque R K. induction fuel as [|fuel IH]; intros opaque R K Hinv HK; [lia|].
  pose proof Hinv as (Hfc & Hq & Hst & Hcur & fs & Hstk & Hfr).
  cbn [rtree_scan_next]. destruct fs as [|f fs].
  - inversion Hfr; subst. destruct Hstk as (Ht & _). rewrite Ht. cbn.
    exists opaque. split; [done|]. by exists 0%nat.
  - destruct (stack_top_frame _ _ _ Hstk) as [-> ->]. rsimpl.
    apply frames_top in Hfr as (r & k & R' & K' & Hf & Hfr & -> & ->).
    destruct (frame_page _ _ _ Hf) as (p & o & its & Hb & Hp & HF). pose proof (frame_cost _ _ _ Hf).
    destruct (pin_frame_run f opaque p Hcur Hb) as (o1 & -> & Hcb & Hcur1 & Hst1 & Hfc1 & Hq1 & Hs1).
    rsimpl. rewrite Hcb. cbn [mbind option_bind]. unfold block. rewrite Hb. rsimpl.
    rewrite Hq1, Hs1, Hq, Hst. specialize (Hst1 _ Hstk).
    destruct (frame_round _ _ _ _ _ _ Hf Hb Hp) as
      [[E ->]|[(off & it & r' & E & -> & Hoff & Hf')|(off & blk & lvl & r1 & k1 & r2 & k2 & E & -> & Hl & Hoff & Hf1 & Hf2 & Hk)]];
      cbv zeta in E; rewrite E; rsimpl.
    + destruct (release_ok o1) as (Hc2 & Hst2 & Hfc2 & Hq2 & Hs2).
      set (o2 := rtree_release_current_page o1) in *. cbn [app].
      destruct (IH (set_stack (stack o2) (stack_size o2) (stack_top o2 - 1) o2) R' K') as (o3 & -> & Hk3).
      * split_and!; [cbn; congruence..|done|]. exists fs. split; [|done]. by eapply stack_pop, Hst2.
      * lia.
      * exists o3. split; [done|]. destruct Hk3 as (K3 & ? & ?). exists K3. split; [done|lia].
    + eexists. split; [done|]. exists (k + K')%nat. split; [|lia]. cbn [tail app].
      split_and!; [cbn; congruence..|done|]. exists (next_frame f (off + 1) :: fs).
      split; [|by constructor]. by apply stack_next; [|lia].
    + pose proof (stack_next _ _ _ (off + 1) Hst1 ltac:(lia)) as Hst2.
      set (o2 := set_next_offset (off + 1) o1) in *.
      destruct (release_ok o2) as (Hc3 & Hst3 & Hfc3 & Hq3 & Hs3). specialize (Hst3 _ Hst2).
      change (first_call o2) with (first_call o1) in Hfc3.
      change (query_box o2) with (query_box o1) in Hq3. change (strategy o2) with (strategy o1) in Hs3.
      set (o3 := rtree_release_current_page o2) in *. rewrite Hl.
      pose proof (stack_push _ _ blk lvl FirstOffsetNumber Hst3) as Hst4.
      destruct (IH (rtree_stack_push blk lvl FirstOffsetNumber o3) ((r1 ++ r2) ++ R') (k1 + (k2 + K'))%nat)
        as (o5 & He & Hk5).
      * rewrite <- app_assoc.
        split_and!; [rewrite ?push_first_call, ?push_query, ?push_strategy, ?push_cur; try done; congruence..|].
        exists (mkFrame blk lvl 1 :: next_frame f (off + 1) :: fs). split; [done|].
        constructor; [done|]. by constructor.
      * lia.
      * exists o5. split; [done|]. destruct Hk5 as (K5 & ? & ?). exists K5. split; [done|lia].
Qed.

End scan.

(** * Whole scans *)

Section whole.
Context `{Platform}.

(** A key the access method can use. *)
Definition usable (key : ScanKeyData) : bool :=
  negb (has_flag (sk_flags key) SK_ISNULL) &&
  (TRTREE_STRATEGY_OVERLAP <=? sk_strategy key) && (sk_strategy key <=? TRTREE_STRATEGY_CONTAINED).

Lemma parse_keys_usable ks :
  parse_keys (map Some ks) (length ks) =
  Ok ((λ k, (rtree_cube_to_box (sk_argument k), sk_strategy k)) <$> List.find usable ks).
Proof.
  induction ks as [|k ks IH]; [done|]. cbn [map length parse_keys List.find]. unfold usable at 1.
  destruct (has_flag (sk_flags k) SK_ISNULL); cbn [negb andb]; [exact IH|].
  rewrite !Z.leb_antisym.
  destruct (sk_strategy k <? TRTREE_STRATEGY_OVERLAP), (TRTREE_STRATEGY_CONTAINED <? sk_strategy k);
    cbn [negb andb orb]; [exact IH..|done].
Qed.

(** Calling [temporal_rtree_gettuple] until it reports the end: the heap pointers
    returned, each with its recheck flag, and the scan afterwards. *)
Fixpoint fetch_all (n : nat) (rel : Rel) (scan : IndexScanDesc)
  : result (list (ItemPointerData * bool) * IndexScanDesc) :=
  match n with
  | O => Err OutOfFuel
  | S n =>
      '(scan, found) ← temporal_rtree_gettuple rel scan ForwardScanDirection;
      if found : bool then
        '(rest, end_scan) ← fetch_all n rel scan;
        Ok ((xs_heaptid scan, xs_recheck scan) :: rest, end_scan)
      else Ok ([], scan)
  end.

(** [temporal_rtree_beginscan], [temporal_rtree_rescan] and all the calls of
    [temporal_rtree_gettuple]. *)
Definition run_scan (n : nat) (rel : Rel) (ks : list ScanKeyData)
  : result (list (ItemPointerData * bool) * IndexScanDesc) :=
  scan ← temporal_rtree_rescan (temporal_rtree_beginscan (zlen ks)) (Some ks) (zlen ks);
  fetch_all n rel scan.

(** The scan [scan] is ready to return [R]: at its first call it initialises itself. *)
Definition ready (rel : Rel) (q : RTreeTemporalBox) (st : Z) (scan : IndexScanDesc)
    (R : list IndexTuple) (K : nat) : Prop :=
  ∃ opaque opaque', scan_opaque scan = Some opaque ∧
    (if first_call opaque then rtree_initialize_scan rel scan opaque else Ok (opaque, true)) =
      Ok (opaque', true) ∧
    scan_inv rel q st opaque' R K ∧ (K < scan_fuel rel)%nat.

(** What a scan keeps for being restarted with [n] keys. *)
Definition reusable (n : nat) (scan : IndexScanDesc) : Prop :=
  ∃ opaque old, scan_opaque scan = Some opaque ∧ zlen (stack opaque) = stack_size opaque ∧ 0 ≤ stack_size opaque ∧
    keyData scan = Some old ∧ length old = n.

Lemma gettuple_keeps rel q st scan R K n :
  ready rel q st scan R K → reusable n scan →
  ∃ scan' K',
    temporal_rtree_gettuple rel scan ForwardScanDirection =
      Ok (scan', match R with [] => false | _ => true end) ∧
    (∀ it R', R = it :: R' → xs_heaptid scan' = t_tid it ∧ xs_recheck scan' = false) ∧
    ready rel q st scan' (tail R) K' ∧ reusable n scan'.
Proof.
  intros (o & o1 & Hs & Hinit & Hinv & HK) (o0 & old & Hs0 & _ & _ & Hold & Hn). unfold temporal_rtree_gettuple. rewrite Hs.
  change (negb (ForwardScanDirection =? ForwardScanDirection)) with false. cbv iota.
  rewrite Hinit. rsimpl.
  destruct (scan_next_run rel q st (scan_fuel rel) scan o1 R K Hinv HK) as (o2 & -> & K' & Hinv' & Hle).
  rsimpl. eexists _, K'. split; [done|]. split; [intros it R' ->; done|]. split.
  - exists o2, o2. split_and!; [done| |done|lia]. by pose proof Hinv' as (-> & _).
  - destruct Hinv' as (_ & _ & _ & _ & fs & (_ & Hsz & Hle' & _) & _). exists o2, old. split_and!; [done|done|unfold zlen in *; lia| |done].
    by destruct R.
Qed.

Lemma gettuple_next rel q st scan R K :
  ready rel q st scan R K →
  ∃ scan' K',
    temporal_rtree_gettuple rel scan ForwardScanDirection =
      Ok (scan', match R with [] => false | _ => true end) ∧
    (∀ it R', R = it :: R' → xs_heaptid scan' = t_tid it ∧ xs_recheck scan' = false) ∧
    ready rel q st scan' (tail R) K'.
Proof.
  intros (o & o1 & Hs & Hinit & Hinv & HK). unfold temporal_rtree_gettuple. rewrite Hs.
  change (negb (ForwardScanDirection =? ForwardScanDirection)) with false. cbv iota.
  rewrite Hinit. rsimpl.
  destruct (scan_next_run rel q st (scan_fuel rel) scan o1 R K Hinv HK) as (o2 & -> & K' & Hinv' & Hle).
  rsimpl. eexists _, K'. split; [done|]. split; [intros it R' ->; done|].
  exists o2, o2. split_and!; [done| |done|lia]. by pose proof Hinv' as (-> & _).
Qed.

Lemma fetch_all_run rel q st n scan R K :
  ready rel q st scan R K → (length R < n)%nat →
  ∃ scan' K', fetch_all n rel scan = Ok (map (λ it, (t_tid it, false)) R, scan') ∧
              ready rel q st scan' [] K'.
Proof.
  revert scan R K. induction n as [|n IH]; intros scan R K Hr Hn; [lia|].
  cbn [fetch_all].
  destruct (gettuple_next rel q st scan R K Hr) as (scan1 & K1 & -> & Hres & Hr1).
  rsimpl. destruct R as [|it R].
  - by exists scan1, K1.
  - destruct (Hres it R eq_refl) as [-> ->]. cbn [tail] in Hr1.
    destruct (IH scan1 R K1 Hr1) as (scan2 & K2 & -> & Hend); [cbn in Hn; lia|].
    rsimpl. by exists scan2, K2.
Qed.

Lemma find_usable_strategy ks key :
  List.find usable ks = Some key → 1 ≤ sk_strategy key ≤ 3.
Proof.
  intros [_ Hu]%find_some. unfold usable in Hu. bprop. split; assumption.
Qed.

Lemma beginscan_reusable n : (0 < n)%nat → reusable n (temporal_rtree_beginscan (Z.of_nat n)).
Proof.
  intros Hn. unfold temporal_rtree_beginscan, RelationGetIndexScan. rewrite (proj2 (Z.ltb_lt _ _)) by lia.
  eexists _, _. split_and!; [done|done|done|done|]. by rewrite length_replicate, Nat2Z.id.
Qed.

(** The scan [temporal_rtree_rescan] leaves for the keys [ks]. *)
Lemma rescan_reuse scan0 ks :
  ks ≠ [] → reusable (length ks) scan0 →
  ∃ scan opaque, temporal_rtree_rescan scan0 (Some ks) (zlen ks) = Ok scan ∧
    scan_opaque scan = Some opaque ∧ first_call opaque = true ∧ have_query opaque = false ∧
    cur_buf opaque = None ∧ zlen (stack opaque) = stack_size opaque ∧ 0 ≤ stack_size opaque ∧
    rtree_parse_query scan =
      Ok ((λ k, (rtree_cube_to_box (sk_argument k), sk_strategy k)) <$> List.find usable ks) ∧ reusable (length ks) scan.
Proof.
  intros Hne (o & old & Ho & Hsz & Hsz0 & Hold & Hlen). assert (Hk0 : 0 < zlen ks) by (destruct ks; [done|unfold zlen; cbn; lia]).
  unfold temporal_rtree_rescan. rewrite Ho, (proj2 (Z.ltb_lt _ _) Hk0), Hold.
  unfold zlen in *. rewrite Nat2Z.id, Hlen, Nat.ltb_irrefl. cbn [orb].
  rewrite take_ge, drop_ge, app_nil_r by lia. rsimpl.
  assert (Hrel : ∀ o', cur_buf (rtree_release_current_page o') = None ∧ stack (rtree_release_current_page o') = stack o' ∧
                       stack_size (rtree_release_current_page o') = stack_size o').
  { intros o'. unfold rtree_release_current_page. destruct (cur_buf o') eqn:E; [done|]. by rewrite E. }
  destruct (Hrel o) as (Hc & Hs1 & Hs2).
  eexists _, _. split; [done|]. cbn [set_scan_opaque scan_opaque]. split; [done|].
  cbn. rewrite ?Hc, ?Hs1, ?Hs2. split_and!; try done.
  - unfold rtree_parse_query. cbn [keyData numberOfKeys set_scan_opaque default]. rewrite Nat2Z.id. apply parse_keys_usable.
  - eexists _, _. split; [done|]. cbn. rewrite ?Hs1, ?Hs2. split_and!; try done. by rewrite length_map.
Qed.

Lemma rescan_run ks :
  ks ≠ [] →
  ∃ scan opaque, temporal_rtree_rescan (temporal_rtree_beginscan (zlen ks)) (Some ks) (zlen ks) = Ok scan ∧
    scan_opaque scan = Some opaque ∧ first_call opaque = true ∧ have_query opaque = false ∧
    cur_buf opaque = None ∧ zlen (stack opaque) = stack_size opaque ∧ 0 ≤ stack_size opaque ∧
    rtree_parse_query scan =
      Ok ((λ k, (rtree_cube_to_box (sk_argument k), sk_strategy k)) <$> List.find usable ks).
Proof.
  intros Hne. destruct (rescan_reuse (temporal_rtree_beginscan (zlen ks)) ks Hne) as (scan & o & H1 & H2 & H3 & H4 & H5 & H6 & H7 & H8 & _).
  - apply beginscan_reusable. destruct ks; [done|cbn; lia].
  - exists scan, o. split_and!; done.
Qed.

Lemma initialize_run rel lvl c scan opaque q st :
  index_rep rel lvl c → Z.of_nat lvl < 2 ^ 16 → nblocks rel ≤ InvalidBlockNumber →
  have_query opaque = false → cur_buf opaque = None →
  zlen (stack opaque) = stack_size opaque → 0 ≤ stack_size opaque →
  rtree_parse_query scan = Ok (Some (q, st)) →
  ∃ opaque' K, rtree_initialize_scan rel scan opaque = Ok (opaque', true) ∧
    scan_inv rel q st opaque' (hits q st c) K ∧ (K < scan_fuel rel)%nat.
Proof.
  intros (mp & m & fp & Hm & Hsp & Hmg & Hlvl & HT & HN & H0 & H2) Hlev Hmax Hhq Hcb Hsz Hsz0 Hpq.
  unfold rtree_initialize_scan, rtree_ensure_query. rewrite Hhq, Hpq. rsimpl.
  unfold rtree_read_meta, block. rewrite Hm. unfold meta_of. rewrite Hsp. rsimpl.
  rewrite (proj2 (Z.eqb_eq _ _) Hmg). cbn [negb].
  pose proof (tree_range _ _ _ _ _ HT) as HR. rewrite Forall_forall in HR.
  pose proof (HR _ (tree_root_in _ _ _ _ _ HT)) as Hroot. unfold nblocks in Hmax.
  destruct (Z.eqb_spec (root m) InvalidBlockNumber); [lia|].
  unfold rtree_release_current_page. cbn [rtree_stack_reset set_stack set_query cur_buf]. rewrite Hcb.
  set (o1 := set_first_call false _). eexists _, (2 * length fp - 1 + 0)%nat. split; [done|]. split.
  - split_and!; [by rewrite ?push_first_call, ?push_query, ?push_strategy..| |].
    + rewrite push_cur. unfold cur_ok. cbn. by rewrite Hcb.
    + exists [mkFrame (root m) (root_level m) FirstOffsetNumber]. split.
      * apply stack_push. unfold stack_ok, o1. cbn. split_and!; done.
      * rewrite <- (app_nil_r (hits q st c)). constructor; [|constructor].
        rewrite Hlvl. by eapply tree_frame_ok.
  - assert (length fp ≤ length (blocks rel))%nat; [|unfold scan_fuel; lia].
    by apply NoDup_range_length.
Qed.

(** The matching tuples of a query: the leaf test of the key against the tuple. *)
Definition matches (key : ScanKeyData) (it : IndexTuple) : Prop :=
  hit (rtree_cube_to_box (sk_argument key)) (sk_strategy key) it.
#[export] Instance matches_dec key it : Decision (matches key it).
Proof. unfold matches, hit. apply _. Defined.

(** A scan of an index, started or restarted, is ready to return the matches. *)
Lemma rescan_ready rel lvl c scan0 ks key :
  index_rep rel lvl c → Z.of_nat lvl < 2 ^ 16 → nblocks rel ≤ InvalidBlockNumber →
  List.find usable ks = Some key → reusable (length ks) scan0 →
  ∃ scan K, temporal_rtree_rescan scan0 (Some ks) (zlen ks) = Ok scan ∧ reusable (length ks) scan ∧
    ready rel (rtree_cube_to_box (sk_argument key)) (sk_strategy key) scan (filter (matches key) c) K.
Proof.
  intros Hrep Hlev Hmax Hfind Hreuse.
  destruct (rescan_reuse scan0 ks) as (scan & o & E & Hs & Hfc & Hhq & Hcb & Hsz & Hsz0 & Hpq & Hr); [by destruct ks|done|].
  rewrite Hfind in Hpq. cbn [fmap option_fmap option_map] in Hpq.
  destruct (initialize_run rel lvl c scan o _ _ Hrep Hlev Hmax Hhq Hcb Hsz Hsz0 Hpq)
    as (o' & K & Hinit & Hinv & HK).
  exists scan, K. split_and!; [done|done|]. exists o, o'. rewrite Hfc. split_and!; done.
Qed.

(** A scan of an index runs to its end. *)
Lemma run_scan_run rel lvl c ks key n :
  index_rep rel lvl c → Z.of_nat lvl < 2 ^ 16 → nblocks rel ≤ InvalidBlockNumber →
  List.find usable ks = Some key → (length c < n)%nat →
  ∃ scan, run_scan n rel ks = Ok (map (λ it, (t_tid it, false)) (filter (matches key) c), scan) ∧
    ∃ scan', temporal_rtree_gettuple rel scan ForwardScanDirection = Ok (scan', false).
Proof.
  intros Hrep Hlev Hmax Hfind Hn. unfold run_scan.
  destruct (rescan_ready rel lvl c (temporal_rtree_beginscan (zlen ks)) ks key) as (scan & K & -> & _ & Hr); try done.
  { apply beginscan_reusable. destruct ks; [done|cbn; lia]. }
  rsimpl. destruct (fetch_all_run _ _ _ n scan _ K Hr) as (scan2 & K2 & -> & Hr2).
  { eapply Nat.le_lt_trans; [apply length_filter|done]. }
  exists scan2. split; [done|].
  destruct (gettuple_next _ _ _ _ _ _ Hr2) as (scan3 & K3 & -> & _). by exists scan3.
Qed.

(** C7. A scan of the index with a usable key returns the heap pointer of every leaf
    tuple that passes the leaf test, once each, in leaf order, and nothing else; it ends
    after them and stays at its end.  It never runs out of rounds and never reads outside a
    page or the stack array. *)
Theorem scan_returns_matches rel lvl c ks key n :
  index_rep rel lvl c → Z.of_nat lvl < 2 ^ 16 → nblocks rel ≤ InvalidBlockNumber →
  List.find usable ks = Some key → (length c < n)%nat →
  ∃ scan, run_scan n rel ks = Ok (map (λ it, (t_tid it, false)) (filter (matches key) c), scan) ∧
    ∃ scan', temporal_rtree_gettuple rel scan ForwardScanDirection = Ok (scan', false).
Proof. apply run_scan_run. Qed.

(** Only the first usable key decides the result although the scan never asks for a
    recheck: a second key changes nothing. *)
Theorem scan_ignores_other_keys rel lvl c key key' ks n :
  index_rep rel lvl c → Z.of_nat lvl < 2 ^ 16 → nblocks rel ≤ InvalidBlockNumber →
  usable key = true → (length c < n)%nat →
  ∃ scan scan' out, run_scan n rel (key :: key' :: ks) = Ok (out, scan) ∧
    run_scan n rel [key] = Ok (out, scan') ∧ Forall (λ r, r.2 = false) out.
Proof.
  intros Hrep Hlev Hmax Hu Hn.
  destruct (run_scan_run rel lvl c (key :: key' :: ks) key n) as (s1 & E1 & _); try done;
    [cbn; by rewrite Hu|].
  destruct (run_scan_run rel lvl c [key] key n) as (s2 & E2 & _); try done; [cbn; by rewrite Hu|].
  exists s1, s2. eexists. split_and!; [exact E1|exact E2|]. apply Forall_map, Forall_true. done.
Qed.

(** A scan without a usable key (no key at all, or only null tests) returns no row,
    although the access method declares optional keys and null searches. *)
Theorem scan_without_key_is_empty rel ks n :
  List.find usable ks = None →
  ∃ scan, run_scan (S n) rel ks = Ok ([], scan).
Proof.
  intros Hfind. destruct (decide (ks = [])) as [->|Hne]; [by eexists|]. unfold run_scan.
  destruct (rescan_run ks Hne) as (scan & o & -> & Hs & Hfc & Hhq & _ & _ & _ & Hpq). rsimpl.
  rewrite Hfind in Hpq. cbn [fetch_all]. unfold temporal_rtree_gettuple. rewrite Hs, Hfc.
  change (negb (ForwardScanDirection =? ForwardScanDirection)) with false. cbv iota.
  unfold rtree_initialize_scan, rtree_ensure_query. rewrite Hhq, Hpq. rsimpl. by eexists.
Qed.

End whole.

(** * Witnesses *)

Definition demo_key : ScanKeyData := mkKey 0 TRTREE_STRATEGY_OVERLAP (temporalbox 10 1600000000 (Some 1600086400)).
Definition demo_key' : ScanKeyData := mkKey 0 TRTREE_STRATEGY_OVERLAP (temporalbox 30 0 (Some 1)).
Definition null_key : ScanKeyData := mkKey SK_ISNULL TRTREE_STRATEGY_OVERLAP (temporalbox 30 0 (Some 1)).

Lemma scan_returns_matches_witness :
  ∃ scan, run_scan 3 demo_index [demo_key] = Ok ([(ItemPointerSet 0 1, false)], scan).
Proof.
  destruct demo_index_rep as (lvl & c & Hi & Hc & Hl & Hn).
  destruct (scan_returns_matches demo_index lvl c [demo_key] demo_key 3 Hi) as (scan & He & _).
  - lia.
  - unfold InvalidBlockNumber. lia.
  - vm_compute. reflexivity.
  - rewrite (Permutation_length Hc). cbn. lia.
  - exists scan. rewrite He. f_equal. f_equal.
    assert (Hf : filter (matches demo_key) c ≡ₚ filter (matches demo_key)
      [leaf_tuple (temporalbox 20 0 (Some 100)) (ItemPointerSet 0 2);
       leaf_tuple (temporalbox 10 1577836800 None) (ItemPointerSet 0 1)]) by (by rewrite Hc).
    replace (filter (matches demo_key) [_; _])
      with [leaf_tuple (temporalbox 10 1577836800 None) (ItemPointerSet 0 1)] in Hf
      by (vm_compute; reflexivity).
    apply Permutation_singleton_r in Hf. rewrite Hf. reflexivity.
Defined.

Lemma scan_ignores_other_keys_witness :
  ∃ scan scan' out, run_scan 3 demo_index [demo_key; demo_key'] = Ok (out, scan) ∧
    run_scan 3 demo_index [demo_key] = Ok (out, scan') ∧ Forall (λ r, r.2 = false) out.
Proof.
  destruct demo_index_rep as (lvl & c & Hi & Hc & Hl & Hn).
  apply (scan_ignores_other_keys demo_index lvl c demo_key demo_key' [] 3 Hi).
  - lia.
  - unfold InvalidBlockNumber. lia.
  - vm_compute. reflexivity.
  - rewrite (Permutation_length Hc). cbn. lia.
Defined.

Lemma scan_without_key_is_empty_witness :
  ∃ scan, run_scan 1 demo_index [null_key] = Ok ([], scan).
Proof. apply (scan_without_key_is_empty demo_index [null_key] 0). vm_compute. reflexivity. Defined.
