(* ===== verification/Interleave.v ===== *)
(** Scans that run while rows are inserted.

    Between two calls of [temporal_rtree_gettuple] other sessions may insert rows: the
    scan keeps a lock on the leaf it stands on and nothing else, and remembers block
    numbers and offsets.  Insertions that split no page are harmless: the scan returns
    every row it had left exactly once, and perhaps the new ones.  An insertion that
    splits a leaf the scan has already left makes it return rows a second time. *)

From S2P Require Import Prelude Float64 Cube Box Split Bufpage Itup Store Insert Tree Index Search Scan.

(** * Lists with new elements mixed in *)

(** [l'] is [l] with elements of [Q] added anywhere. *)
Inductive extends {A} (Q : A → Prop) : list A → list A → Prop :=
  | ext_nil : extends Q [] []
  | ext_keep x l l' : extends Q l l' → extends Q (x :: l) (x :: l')
  | ext_add x l l' : Q x → extends Q l l' → extends Q l (x :: l').

Section extends.
Context {A : Type}.
Implicit Types (Q : A → Prop) (l : list A).

Lemma extends_refl Q l : extends Q l l.
Proof. induction l; by constructor. Qed.

Lemma extends_app Q l1 l1' l2 l2' :
  extends Q l1 l1' → extends Q l2 l2' → extends Q (l1 ++ l2) (l1' ++ l2').
Proof. induction 1; intros; cbn; [done|constructor; auto..]. Qed.

Lemma extends_mono Q Q' l l' : (∀ x, Q x → Q' x) → extends Q l l' → extends Q' l l'.
Proof. intros HQ. induction 1; constructor; auto. Qed.

Lemma extends_trans Q l1 l2 l3 : extends Q l1 l2 → extends Q l2 l3 → extends Q l1 l3.
Proof.
  intros H12 H23. revert l1 H12. induction H23 as [|x l l' _ IH|x l l' Hx _ IH]; intros l1 H12.
  - done.
  - inversion H12; subst; constructor; auto.
  - constructor; auto.
Qed.

Lemma extends_filter Q (P : A → Prop) `{∀ x, Decision (P x)} l l' :
  extends Q l l' → extends Q (filter P l) (filter P l').
Proof.
  induction 1 as [|x l l' _ IH|x l l' Hx _ IH]; [constructor|..]; rewrite !filter_cons; destruct (decide (P x));
    by repeat constructor.
Qed.

Lemma extends_add_end Q l x : Q x → extends Q l (l ++ [x]).
Proof. intros Hx. induction l; cbn; repeat constructor; done. Qed.

(** Nothing is lost, and what is added satisfies [Q]. *)
Lemma extends_sublist Q l l' : extends Q l l' → l `sublist_of` l'.
Proof. induction 1; by constructor. Qed.

Lemma extends_elem Q l l' x : extends Q l l' → x ∈ l' → x ∈ l ∨ Q x.
Proof.
  induction 1 as [|y l l' _ IH|y l l' Hy _ IH]; [by left|..]; intros [->|Hx]%elem_of_cons.
  - left. by left.
  - destruct (IH Hx); [left; by right|by right].
  - by right.
  - auto.
Qed.

Lemma extends_nil Q l : extends Q l [] → l = [].
Proof. by inversion 1. Qed.

End extends.

Lemma extends_map {A B} (f : A → B) (Q : A → Prop) (Q' : B → Prop) l l' :
  (∀ x, Q x → Q' (f x)) → extends Q l l' → extends Q' (map f l) (map f l').
Proof. intros HQ. induction 1; constructor; auto. Qed.

(** * Growing trees *)

Section grow.
Context `{Platform}.
Implicit Types (bs : list RPage) (itup : IndexTuple).

Lemma grows_tree itup bs bs' lvl blk c fp :
  tree lvl bs blk c fp → grows itup bs bs' →
  ∃ c', tree lvl bs' blk c' fp ∧ extends (eq itup) c c'.
Proof.
  intros HT [_ HG]. revert blk c fp HT. induction lvl as [|l IH]; intros blk c fp; cbn [tree];
    intros (p & o & its & Hb & Hp & Hl & Ht & Hm); destruct (HG _ _ _ _ Hb Hp Ht) as (p' & its' & Hb' & Hp' & Ht' & Hg).
  - destruct Hm as (Hlf & -> & ->). rewrite Hlf in Hg. exists its'. split.
    + by exists p', o, its'.
    + destruct Hg as [-> | ->]; [apply extends_refl|by apply extends_add_end].
  - destruct Hm as (Hlf & Hne & subs & HS & -> & ->). rewrite Hlf in Hg. cbn in Hg.
    assert (HS' : ∃ subs', Forall2 (λ it s, tree l bs' (child it) s.1 s.2) its' subs' ∧
              map snd subs' = map snd subs ∧ extends (eq itup) (concat (map fst subs)) (concat (map fst subs'))).
    { clear Hne Hp Hp' Ht Ht'. revert its' Hg. induction HS as [|it [ci fi] its subs Hs _ IHS]; intros [|it' its'] Hg; try discriminate.
      - exists []. split_and!; [done|done|constructor].
      - injection Hg as Hc Hg. destruct (IH _ _ _ Hs) as (ci' & Hc' & Hx). destruct (IHS its') as (subs' & ? & ? & ?); [done|].
        exists ((ci', fi) :: subs'). cbn. split_and!; [constructor; cbn; [by rewrite Hc|done]|congruence|by apply extends_app]. }
    destruct HS' as (subs' & HS' & Hsn & Hx). exists (concat (map fst subs')). split; [|done].
    exists p', o, its'. split_and!; try done.
    + intros ->. by destruct its.
    + exists subs'. by rewrite Hsn.
Qed.

Lemma grows_subs itup bs bs' l its its' subs :
  Forall2 (sub_tree l bs) its subs → grows itup bs bs' → map child its' = map child its →
  ∃ subs', Forall2 (sub_tree l bs') its' subs' ∧
    Forall2 (λ s s', s.2 = s'.2 ∧ extends (eq itup) s.1 s'.1) subs subs'.
Proof.
  intros HS HG. revert its'. induction HS as [|it [ci fi] its subs Hs _ IH]; intros [|it' its'] Hm; try discriminate.
  - by exists [].
  - injection Hm as Hc Hm. destruct (grows_tree _ _ _ _ _ _ _ Hs HG) as (ci' & Hc' & Hx). destruct (IH its') as (subs' & ? & ?); [done|].
    exists ((ci', fi) :: subs'). split; constructor; [|done|done|done]. unfold sub_tree. cbn in *. by rewrite Hc.
Qed.

Lemma grown_contents itup subs subs' :
  Forall2 (λ s s' : sub, s.2 = s'.2 ∧ extends (eq itup) s.1 s'.1) subs subs' →
  footprint subs' = footprint subs ∧ extends (eq itup) (contents subs) (contents subs').
Proof.
  unfold footprint, contents. induction 1 as [|s s' subs subs' [Hf Hx] _ [IH1 IH2]]; [split; [done|constructor]|].
  cbn. split; [congruence|by apply extends_app].
Qed.

(** * Scans over a growing tree *)

Context (rel rel' : Rel) (q : RTreeTemporalBox) (st : Z) (itup : IndexTuple).
Context (HG : grows itup (blocks rel) (blocks rel')).

Lemma frame_grows f r k :
  frame_ok rel q st f r k → ∃ r', frame_ok rel' q st f r' k ∧ extends (eq itup) r r'.
Proof.
  intros (lvl & n & Hl & Hb & Hn & Hm). destruct lvl as [|l].
  - destruct Hm as (c & HT & -> & ->).
    pose proof HT as (p & o & its & Hg & Hp & Hlv & Ht & Hlf & -> & _).
    destruct (proj2 HG _ _ _ _ Hg Hp Ht) as (p' & its' & Hg' & Hp' & Ht' & Hx). rewrite Hlf in Hx.
    exists (hits q st (drop n its')). split.
    + exists 0%nat, n. split_and!; try done. exists its'. split_and!; try done. by exists p', o, its'.
    + apply extends_filter. destruct Hx as [-> | ->]; [apply extends_refl|].
      destruct (decide (n ≤ length its)%nat).
      * rewrite drop_app_le by done. by apply extends_add_end.
      * rewrite !drop_ge by (rewrite ?length_app; cbn; lia). constructor.
  - destruct Hm as (p & o & its & subs & HI & -> & ->). pose proof HI as [Hg Hp Hlv Ht Hlf Hne HS].
    destruct (proj2 HG _ _ _ _ Hg Hp Ht) as (p' & its' & Hg' & Hp' & Ht' & Hx). rewrite Hlf in Hx. cbn in Hx.
    destruct (grows_subs _ _ _ _ _ its' _ HS HG Hx) as (subs' & HS' & Hss).
    destruct (grown_contents _ _ _ (Forall2_drop _ _ _ n Hss)) as [Hfp Hc].
    exists (hits q st (contents (drop n subs'))). split; [|by apply extends_filter].
    exists (S l), n. split_and!; try done. exists p', o, its', subs'. split_and!; [|done|by rewrite Hfp].
    constructor; try done. intros ->. by destruct its.
Qed.

Lemma frames_grow fs R K :
  frames_ok rel q st fs R K → ∃ R', frames_ok rel' q st fs R' K ∧ extends (eq itup) R R'.
Proof.
  induction 1 as [|f fs r R k K Hf _ (R' & HR & HX)]; [exists []; split; constructor|].
  destruct (frame_grows f r k Hf) as (r' & Hf' & Hx). exists (r' ++ R'). split; [by constructor|by apply extends_app].
Qed.

Lemma scan_fuel_grows : scan_fuel rel' = scan_fuel rel.
Proof. unfold scan_fuel. destruct HG as [Hl _]. unfold zlen in Hl. apply Nat2Z.inj in Hl. by rewrite Hl. Qed.

(** The first call reads the meta page only. *)
Lemma initialize_same scan opaque :
  bget (blocks rel') 0 = bget (blocks rel) 0 →
  rtree_initialize_scan rel' scan opaque = rtree_initialize_scan rel scan opaque.
Proof. intros Hm. unfold rtree_initialize_scan, rtree_read_meta, block. by rewrite Hm. Qed.

Lemma ready_grows scan R K :
  bget (blocks rel') 0 = bget (blocks rel) 0 → ready rel q st scan R K →
  ∃ R', ready rel' q st scan R' K ∧ extends (eq itup) R R'.
Proof.
  intros Hm (o & o' & Hs & Hi & (Hfc & Hq & Hst & Hcur & fs & Hstk & Hfr) & HK).
  destruct (frames_grow fs R K Hfr) as (R' & Hfr' & Hx). exists R'. split; [|done].
  exists o, o'. rewrite initialize_same, scan_fuel_grows by done.
  split_and!; [done|done| |done]. unfold scan_inv. split_and!; [done..|]. by exists fs.
Qed.

End grow.

(** * Sessions *)

Inductive action : Type :=
  | Fetch
  | Add (cube : NDBOX) (tid : ItemPointerData).

Definition added_tuple (a : action) : option IndexTuple :=
  match a with Fetch => None | Add cube tid => Some (leaf_tuple cube tid) end.

Section sessions.
Context `{Platform}.

(** The calls of the scan and the insertions in the order they happen, then the calls
    that finish the scan: the heap pointers returned and the index at the end. *)
Fixpoint run_actions (n : nat) (acts : list action) (rel : Rel) (scan : IndexScanDesc)
  : result (list ItemPointerData * Rel) :=
  match acts with
  | [] => '(out, _) ← fetch_all n rel scan; Ok (map fst out, rel)
  | Fetch :: acts =>
      '(scan, found) ← temporal_rtree_gettuple rel scan ForwardScanDirection;
      '(out, rel) ← run_actions n acts rel scan;
      Ok (if found : bool then xs_heaptid scan :: out else out, rel)
  | Add cube tid :: acts =>
      match temporal_rtree_insert (Some cube) tid rel with
      | (rel, Ok _) => run_actions n acts rel scan
      | (_, Err e) => Err e
      end
  end.

(** A scan with the keys [ks] during which [acts] happen. *)
Definition run_session (n : nat) (ks : list ScanKeyData) (acts : list action) (rel : Rel)
  : result (list ItemPointerData * Rel) :=
  scan ← temporal_rtree_rescan (temporal_rtree_beginscan (zlen ks)) (Some ks) (zlen ks);
  run_actions n acts rel scan.

Definition good_action (a : action) : Prop :=
  match a with Fetch => True | Add cube _ => good_key cube end.

Definition adds (acts : list action) : list IndexTuple := omap added_tuple acts.

(** The index after the insertions, which do not depend on the scan. *)
Definition after_action (rel : Rel) (a : action) : Rel :=
  match a with Fetch => rel | Add cube tid => (temporal_rtree_insert (Some cube) tid rel).1 end.
Definition after (acts : list action) (rel : Rel) : Rel := foldl after_action rel acts.

(** No insertion splits a page: the file keeps its size. *)
Fixpoint splits_nothing (acts : list action) (rel : Rel) : bool :=
  match acts with
  | [] => true
  | a :: acts => (nblocks (after_action rel a) =? nblocks rel) && splits_nothing acts (after_action rel a)
  end.

Lemma index_rep_level rel rel' lvl lvl' c c' :
  index_rep rel lvl c → index_rep rel' lvl' c' → bget (blocks rel') 0 = bget (blocks rel) 0 → lvl' = lvl.
Proof.
  intros (mp & m & fp & Hm & Hsp & _ & Hl & _) (mp' & m' & fp' & Hm' & Hsp' & _ & Hl' & _) E.
  rewrite E, Hm in Hm'. injection Hm' as <-. rewrite Hsp in Hsp'. injection Hsp' as <-. lia.
Qed.

Lemma run_actions_run acts : ∀ rel lvl c q st scan R K,
  index_rep rel lvl c → has_room rel lvl → Forall good_action acts → splits_nothing acts rel = true →
  ready rel q st scan R K →
  ∃ N out, (∀ n, (N ≤ n)%nat → run_actions n acts rel scan = Ok (map t_tid out, after acts rel)) ∧
    extends (λ it, it ∈ adds acts) R out.
Proof.
  induction acts as [|[|cube tid] acts IH]; intros rel lvl c q st scan R K Hi Hr Hg Hs Hrd.
  - exists (S (length R)), R. split; [|apply extends_refl]. intros n Hn. cbn [run_actions].
    destruct (fetch_all_run rel q st n scan R K Hrd) as (scan' & K' & -> & _); [lia|]. rsimpl.
    by rewrite map_map.
  - apply Forall_cons in Hg as [_ Hg]. cbn [splits_nothing after_action] in Hs. bprop.
    destruct (gettuple_next rel q st scan R K Hrd) as (scan' & K' & Hgt & Htid & Hrd').
    destruct (IH rel lvl c q st scan' (tail R) K') as (N & out & Hrun & Hx); try done.
    exists N, (match R with [] => out | it :: _ => it :: out end). split.
    + intros n Hn. cbn [run_actions]. rewrite Hgt. rsimpl. rewrite Hrun by done. rsimpl.
      destruct R as [|it R]; [done|]. by destruct (Htid it R eq_refl) as [-> _].
    + destruct R as [|it R]; [done|]. by constructor.
  - apply Forall_cons in Hg as [Hk Hg]. cbn [splits_nothing after_action] in Hs. bprop.
    destruct (insert_run_grows rel lvl c cube tid Hi Hr Hk) as (rel1 & lvl1 & c1 & He & Hi1 & _ & _ & _ & _ & Hgr).
    rewrite He in *. cbn [fst] in *. destruct Hgr as [HG Hm]; [done|].
    assert (lvl1 = lvl) as -> by (by eapply index_rep_level).
    destruct (ready_grows rel rel1 q st _ HG scan R K Hm Hrd) as (R1 & Hrd1 & Hx1).
    destruct (IH rel1 lvl c1 q st scan R1 K) as (N & out & Hrun & Hx); try done.
    { unfold has_room in *. lia. }
    exists N, out. split.
    + intros n Hn. cbn [run_actions]. rewrite He, Hrun by done. unfold after. cbn [foldl after_action]. by rewrite He.
    + unfold adds. cbn. eapply extends_trans; [|eapply extends_mono; [|exact Hx]].
      * eapply extends_mono; [|exact Hx1]. intros x <-. by left.
      * intros x Hx'. by right.
Qed.

(** C8. A scan is not disturbed by insertions that split no page: whatever rows with good keys are
    inserted between its calls, it returns every row that matched when it started exactly
    once and in the order of the leaves, and besides those only rows inserted meanwhile; all
    calls and insertions succeed. *)
Theorem scan_tolerates_inserts rel lvl c ks key acts :
  index_rep rel lvl c → has_room rel lvl → List.find usable ks = Some key →
  Forall good_action acts → splits_nothing acts rel = true →
  ∃ N out, (∀ n, (N ≤ n)%nat → run_session n ks acts rel = Ok (map t_tid out, after acts rel)) ∧
    extends (λ it, it ∈ adds acts) (filter (matches key) c) out.
Proof.
  intros Hi Hr Hf Hg Hs.
  destruct (rescan_run ks) as (scan & o & Hscan & Hso & Hfc & Hhq & Hcb & Hsz & Hsz0 & Hpq); [by destruct ks|].
  rewrite Hf in Hpq. cbn [fmap option_fmap option_map] in Hpq.
  destruct (initialize_run rel lvl c scan o _ _ Hi ltac:(unfold has_room in Hr; lia) ltac:(unfold has_room in Hr; lia) Hhq Hcb Hsz Hsz0 Hpq)
    as (o' & K & Hinit & Hinv & HK).
  assert (Hrd : ready rel (rtree_cube_to_box (sk_argument key)) (sk_strategy key) scan (filter (matches key) c) K).
  { exists o, o'. rewrite Hfc. split_and!; done. }
  destruct (run_actions_run acts rel lvl c _ _ scan _ K Hi Hr Hg Hs Hrd) as (N & out & Hrun & Hx).
  exists N, out. split; [|done]. intros n Hn. unfold run_session. rewrite Hscan. rsimpl. by apply Hrun.
Qed.
End sessions.

(** * Example *)

Definition demo_actions : list action :=
  [Fetch; Add (temporalbox 10 1600000000 (Some 1600000100)) (ItemPointerSet 0 3); Fetch].

Lemma scan_tolerates_inserts_witness :
  ∃ lvl c, index_rep demo_index lvl c ∧
  ∃ N out, (∀ n, (N ≤ n)%nat →
      run_session n [demo_key] demo_actions demo_index = Ok (map t_tid out, after demo_actions demo_index)) ∧
    extends (λ it, it ∈ adds demo_actions) (filter (matches demo_key) c) out.
Proof.
  destruct demo_index_rep as (lvl & c & Hi & _ & Hl & Hn). exists lvl, c. split; [exact Hi|].
  apply (scan_tolerates_inserts demo_index lvl c [demo_key] demo_key demo_actions Hi).
  - unfold has_room, InvalidBlockNumber. lia.
  - reflexivity.
  - apply Forall_cons_2; [exact I|]. apply Forall_cons_2; [apply good_keyb_sound; vm_compute; reflexivity|].
    apply Forall_cons_2; [exact I|apply Forall_nil_2].
  - vm_compute. reflexivity.
Defined.
