(* ===== verification/Vacuum.v ===== *)
(** temporal_rtree_vacuum.c: removing dead tuples, dropping empty subtrees and lowering
    the root. *)

From S2P Require Import Prelude Float64 Cube Box Bufpage Itup Store.

(** The counters; the tuple counts are doubles in C, which count exactly. *)
Record IndexBulkDeleteResult : Type := mkStats {
  num_pages : Z;
  estimated_count : bool;
  num_index_tuples : Z;
  tuples_removed : Z;
  pages_newly_deleted : Z;
  pages_deleted : Z;
  pages_free : Z;
}.

Definition zero_stats : IndexBulkDeleteResult := mkStats 0 false 0 0 0 0 0.

Definition count_removed (s : IndexBulkDeleteResult) : IndexBulkDeleteResult :=
  mkStats (num_pages s) (estimated_count s) (num_index_tuples s) (tuples_removed s + 1)
    (pages_newly_deleted s) (pages_deleted s) (pages_free s).
Definition count_tuple (s : IndexBulkDeleteResult) : IndexBulkDeleteResult :=
  mkStats (num_pages s) (estimated_count s) (num_index_tuples s + 1) (tuples_removed s)
    (pages_newly_deleted s) (pages_deleted s) (pages_free s).
Definition count_deleted (s : IndexBulkDeleteResult) : IndexBulkDeleteResult :=
  mkStats (num_pages s) (estimated_count s) (num_index_tuples s) (tuples_removed s)
    (pages_newly_deleted s + 1) (pages_deleted s + 1) (pages_free s).

(** [for] loops whose body works on the relation. *)
Fixpoint for_each {A B} (f : A → B → M A) (l : list B) (a : A) : M A :=
  match l with
  | [] => mret a
  | b :: l => a ← f a b; for_each f l a
  end.

Section vacuum.
Context `{Platform}.

(** [callback(tid, callback_state)]; [None] is a null callback. *)
Context (callback : option (ItemPointerData → bool)).

Definition dead (itup : IndexTuple) : bool :=
  match callback with None => false | Some cb => cb (t_tid itup) end.

Abbreviation kept := (list (IndexTuple * RTreeTemporalBox)).

(** The C arrays have [MaxHeapTuplesPerPage] entries. *)
Definition push_kept (items : kept) (it : IndexTuple) (box : RTreeTemporalBox) : result kept :=
  if MaxHeapTuplesPerPage <=? zlen items then Err (Undefined "tuples array overflow")
  else Ok (items ++ [(it, box)]).

(** The loop over a leaf page. *)
Definition vacuum_leaf_step (s : IndexBulkDeleteResult * kept) (offset : Z) (itup : IndexTuple)
  : result (IndexBulkDeleteResult * kept) :=
  let '(stats, items) := s in
  if dead itup then Ok (count_removed stats, items)
  else
    match rtree_index_tuple_box itup with
    | None => Ok (stats, items)
    | Some box =>
        items ← push_kept items (CopyIndexTuple itup) box;
        Ok (count_tuple stats, items)
    end.

(** [rtree_add_tuple_copy], on the page in its buffer. *)
Definition rtree_add_tuple_copy (blkno : Z) (itup : IndexTuple) : M unit :=
  page ← ReadBuffer blkno;
  r ← lift (PageAddItem page itup (IndexTupleSize itup) InvalidOffsetNumber false false);
  WritePage blkno r.1;;
  if r.2 =? InvalidOffsetNumber then elog "failed to rebuild index page during vacuum"
  else mret ().

(** Rebuilding the page from the tuples kept: whether it is now empty, the counters and
    its new bounding box (unset for an empty page). *)
Definition vacuum_rebuild (blkno : Z) (opaque : RTreePageOpaqueData)
    (stats : IndexBulkDeleteResult) (items : kept)
  : M (bool * IndexBulkDeleteResult * RTreeTemporalBox) :=
  WritePage blkno
    (page_set_sp (SpData {| rightlink := rightlink opaque; op_flags := op_flags opaque;
                            op_level := op_level opaque; nsn := nsn opaque |})
       (rtree_init_datapage (op_flags opaque) (op_level opaque)));;
  aggregate ← for_each (λ aggregate '(it, box),
      rtree_add_tuple_copy blkno it;;
      mret (if is_empty aggregate then box else tr_union aggregate box)) items empty_box;
  let '(page_empty, stats) :=
    match items with [] => (true, count_deleted stats) | _ => (false, stats) end in
  MarkBufferDirty blkno;;
  w ← RelationNeedsWAL;
  (if w : bool then rtree_wal_vacuum blkno else mret ());;
  mret (page_empty, stats, aggregate).

(** The body of the loop over an inner page, given the recursive call. *)
Definition vacuum_child
    (vacuum_page : Z → IndexBulkDeleteResult → M (bool * IndexBulkDeleteResult * RTreeTemporalBox))
    (s : IndexBulkDeleteResult * kept) (itup : IndexTuple) : M (IndexBulkDeleteResult * kept) :=
  let '(stats, items) := s in
  let childblk := ItemPointerGetBlockNumber (t_tid itup) in
  '(child_empty, stats, child_box) ← vacuum_page childblk stats;
  if child_empty : bool then mret (stats, items)
  else
    let child_tid := ItemPointerSet childblk FirstOffsetNumber in
    it ← lift (rtree_form_tuple child_box child_tid);
    items ← lift (push_kept items it child_box);
    mret (count_tuple stats, items).

(** [fuel] bounds the depth of the recursion, which the source bounds by the height of
    the tree. *)
Fixpoint rtree_vacuum_page (fuel : nat) (blkno : Z) (stats : IndexBulkDeleteResult) {struct fuel}
  : M (bool * IndexBulkDeleteResult * RTreeTemporalBox) :=
  match fuel with
  | O => lift (Err OutOfFuel)
  | S fuel =>
      page ← ReadBuffer blkno;
      opaque ← lift (opaque_of page);
      if has_flag (op_flags opaque) TRTREE_PAGE_LEAF then
        '(stats, items) ← lift (for_items page vacuum_leaf_step (stats, []));
        vacuum_rebuild blkno opaque stats items
      else
        '(stats, items) ← for_each (λ s offset,
            itemid ← lift (PageGetItemId page offset);
            if negb (ItemIdIsUsed itemid) then mret s
            else
              itup ← lift (PageGetItem page itemid);
              vacuum_child (rtree_vacuum_page fuel) s itup)
          (offsets_from page FirstOffsetNumber) (stats, []);
        vacuum_rebuild blkno opaque stats items
  end.

(** * Lowering the root *)

Definition set_root_level (l : Z) (m : RTreeMetaPageData) : RTreeMetaPageData :=
  {| magic := magic m; root := root m; root_level := l; meta_flags := meta_flags m |}.

Definition rtree_vacuum_shrink_root (rootblk lvl : Z) : M bool :=
  if negb (BlockNumberIsValid rootblk) then mret false
  else
    metapage ← ReadBuffer 0;
    meta ← lift (meta_of metapage);
    if negb (magic meta =? TRTREE_META_MAGIC) || negb (root meta =? rootblk) then mret false
    else
      rootpage ← ReadBuffer rootblk;
      rootopaque ← lift (opaque_of rootpage);
      if has_flag (op_flags rootopaque) TRTREE_PAGE_LEAF || (lvl =? 0) then mret false
      else if PageGetMaxOffsetNumber rootpage =? 0 then
        WritePage rootblk (rtree_init_datapage (Z.lor TRTREE_PAGE_LEAF TRTREE_PAGE_ROOT) 0);;
        WritePage 0 (page_set_sp (SpMeta (set_root_level 0 meta)) metapage);;
        mret true
      else if PageGetMaxOffsetNumber rootpage =? 1 then
        itemid ← lift (PageGetItemId rootpage FirstOffsetNumber);
        childitup ← lift (PageGetItem rootpage itemid);
        let childblk := ItemPointerGetBlockNumber (t_tid childitup) in
        childpage ← ReadBuffer childblk;
        childopaque ← lift (opaque_of childpage);
        let rootopaque :=
          set_op_level (op_level childopaque)
            (set_op_flags (Z.lor (op_flags childopaque) TRTREE_PAGE_ROOT) childopaque) in
        WritePage rootblk (page_set_sp (SpData rootopaque) childpage);;
        WritePage 0 (page_set_sp (SpMeta (set_root_level (op_level childopaque) meta)) metapage);;
        MarkBufferDirty rootblk;;
        MarkBufferDirty 0;;
        w ← RelationNeedsWAL;
        (if w : bool then GenericXLog [rootblk; 0] else mret ());;
        mret true
      else mret false.

(** * Entry points *)

(** [stats] is [None] for a null pointer.  The recursion cannot be deeper than the
    number of blocks. *)
Definition temporal_rtree_bulkdelete (stats : option IndexBulkDeleteResult)
  : M IndexBulkDeleteResult :=
  n ← RelationGetNumberOfBlocks;
  let s := default zero_stats stats in
  let s := {| num_pages := n; estimated_count := false; num_index_tuples := 0;
              tuples_removed := tuples_removed s; pages_newly_deleted := pages_newly_deleted s;
              pages_deleted := 0; pages_free := 0 |} in
  if n <? 2 then mret s
  else
    metapage ← ReadBuffer 0;
    meta ← lift (meta_of metapage);
    if negb (magic meta =? TRTREE_META_MAGIC) then mret s
    else
      if BlockNumberIsValid (root meta) then
        '(_, s, _) ← rtree_vacuum_page (Z.to_nat n) (root meta) s;
        rtree_vacuum_shrink_root (root meta) (root_level meta);;
        mret s
      else mret s.

End vacuum.

(** The fields of [IndexVacuumInfo] the code reads. *)
Record IndexVacuumInfo : Type := mkVacInfo {
  analyze_only : bool;
  info_estimated_count : bool;
  num_heap_tuples : Z;
}.

Definition temporal_rtree_vacuumcleanup `{Platform} (info : IndexVacuumInfo)
    (stats : option IndexBulkDeleteResult) : M (option IndexBulkDeleteResult) :=
  if analyze_only info then mret stats
  else
    s ← match stats with
        | Some s => mret s
        | None =>
            s ← temporal_rtree_bulkdelete None (Some zero_stats);
            mret {| num_pages := num_pages s; estimated_count := true;
                    num_index_tuples := num_index_tuples s; tuples_removed := tuples_removed s;
                    pages_newly_deleted := pages_newly_deleted s; pages_deleted := pages_deleted s;
                    pages_free := pages_free s |}
        end;
    n ← RelationGetNumberOfBlocks;
    let tuples :=
      if negb (info_estimated_count info) && (num_heap_tuples info <? num_index_tuples s)
      then num_heap_tuples info else num_index_tuples s in
    mret (Some {| num_pages := n; estimated_count := estimated_count s;
                  num_index_tuples := tuples; tuples_removed := tuples_removed s;
                  pages_newly_deleted := pages_newly_deleted s; pages_deleted := pages_deleted s;
                  pages_free := pages_free s |}).
