(* ===== verification/Prune.v ===== *)
(** Correctness of vacuum: exactly the dead tuples leave the index, the others keep their
    order, and the tree stays sound although empty pages are dropped and the root may be
    lowered. *)

From S2P Require Import Prelude Float64 Cube Box Split Bufpage Itup Store Insert Tree Index Vacuum.

Section prune.
Context `{Platform} (callback : option (ItemPointerData → bool)).
Implicit Types (bs : list RPage) (it : IndexTuple) (its c : list IndexTuple) (fp : list Z)
  (stats : IndexBulkDeleteResult).

Definition alive it : Prop := dead callback it = false.
#[export] Instance alive_dec it : Decision (alive it).
Proof. unfold alive. apply _. Defined.

Definition survivors c : list IndexTuple := filter alive c.

(** * The leaf loop *)

Definition with_boxes its : list (IndexTuple * RTreeTemporalBox) := map (λ it, (it, box_of it)) its.

(** [stats] after [removed] dead tuples and [counted] kept ones. *)
Definition add_counts (removed counted : Z) stats : IndexBulkDeleteResult :=
  mkStats (num_pages stats) (estimated_count stats) (num_index_tuples stats + counted)
    (tuples_removed stats + removed) (pages_newly_deleted stats) (pages_deleted stats) (pages_free stats).

Lemma push_kept_run items it box :
  zlen items < MaxHeapTuplesPerPage → push_kept items it box = Ok (items ++ [(it, box)]).
Proof. intros Hl. unfold push_kept. destruct (Z.leb_spec MaxHeapTuplesPerPage (zlen items)); [lia|done]. Qed.

Lemma leaf_fold its off stats items :
  Forall tuple_ok its → zlen items + zlen its ≤ MaxHeapTuplesPerPage →
  fold_items (vacuum_leaf_step callback) off its (stats, items) =
  Ok (add_counts (zlen its - zlen (survivors its)) (zlen (survivors its)) stats,
      items ++ with_boxes (survivors its)).
Proof.
  intros HF. revert off stats items. induction HF as [|it its (_ & b & Hb & _) _ IH]; intros off stats items Hl.
  - cbn. unfold add_counts. rewrite !Z.add_0_r, app_nil_r. by destruct stats.
  - assert (Hlen : zlen (it :: its) = zlen its + 1) by (unfold zlen; cbn; lia). rewrite Hlen in *.
    cbn [fold_items vacuum_leaf_step]. unfold survivors. rewrite filter_cons. fold (survivors its).
    destruct (decide (alive it)) as [Ha|Ha].
    + unfold alive in Ha. rewrite Ha, Hb. rewrite push_kept_run by (pose proof (zlen_nonneg its); lia).
      rsimpl. rewrite IH.
      * assert (Hls : zlen (it :: survivors its) = zlen (survivors its) + 1) by (unfold zlen; cbn; lia).
        rewrite Hls. f_equal. f_equal.
        -- unfold add_counts, count_tuple; cbn. f_equal; lia.
        -- unfold with_boxes. cbn [map]. rewrite <- app_assoc. cbn. unfold box_of, CopyIndexTuple. by rewrite Hb.
      * rewrite zlen_app. unfold zlen at 2. cbn [length]. lia.
    + unfold alive in Ha. rewrite (not_false_is_true _ Ha). rsimpl. rewrite IH by lia.
      f_equal. f_equal. unfold add_counts, count_removed; cbn. f_equal; lia.
Qed.

(** * Rebuilding a page *)

Definition agg_step (a : RTreeTemporalBox) (b : RTreeTemporalBox) : RTreeTemporalBox :=
  if is_empty a then b else tr_union a b.

Lemma agg_good boxes a :
  Forall good_box boxes → good_box a → good_box (foldl agg_step a boxes).
Proof.
  intros HF. revert a. induction HF as [|b boxes Hb _ IH]; intros a Ha; [done|]. cbn [foldl]. apply IH.
  unfold agg_step. rewrite (gb_nonempty _ Ha). by apply good_union.
Qed.

Lemma rebuild_add bs w lg blk p o its items a :
  0 ≤ blk < zlen bs → dpage p o its → Forall tuple_ok its → Forall tuple_ok (map fst items) →
  52 * (zlen its + zlen items) ≤ 8152 →
  ∃ p', for_each (λ aggregate '(it, box),
      rtree_add_tuple_copy blk it;;
      mret (if is_empty aggregate then box else tr_union aggregate box)) items a (mkRel (bset bs blk p) w lg) =
    (mkRel (bset bs blk p') w lg, Ok (foldl agg_step a (map snd items))) ∧
    dpage p' o (its ++ map fst items).
Proof.
  intros Hblk. revert p its a. induction items as [|[it box] items IH]; intros p its a Hp HF HI Hfit.
  - exists p. cbn [map]. by rewrite app_nil_r.
  - cbn [map] in HI. apply Forall_cons in HI as [Hit HI].
    assert (Hlen : zlen ((it, box) :: items) = zlen items + 1) by (unfold zlen; cbn; lia).
    pose proof (zlen_nonneg items). rewrite Hlen in Hfit.
    destruct (dpage_append p o its it Hp Hit HF) as (p1 & He & Dp1); [lia|].
    cbn [for_each].
    assert (Hadd : rtree_add_tuple_copy blk it (mkRel (bset bs blk p) w lg) = (mkRel (bset bs blk p1) w lg, Ok ())).
    { unfold rtree_add_tuple_copy. erewrite bind_run by (apply ReadBuffer_run; by bget_simpl).
      erewrite bind_run by (apply lift_run, He). cbn [fst snd]. erewrite bind_run by done. st_simpl.
      rewrite bset_bset. pose proof (zlen_nonneg its).
      destruct (Z.eqb_spec (zlen its + 1) InvalidOffsetNumber) as [E|_]; [unfold InvalidOffsetNumber in E; lia|done]. }
    erewrite bind_run by (erewrite bind_run by (exact Hadd); done).
    destruct (IH p1 (its ++ [it]) (agg_step a box) Dp1) as (p2 & He2 & Dp2); [..|exists p2].
    + apply Forall_app. split; [done|by constructor].
    + done.
    + rewrite zlen_app. unfold zlen in *. cbn [length]. lia.
    + split; [exact He2|]. by rewrite <- app_assoc in Dp2.
Qed.

Lemma rebuild_run bs w lg blk p0 o stats items :
  bget bs blk = Some p0 → Forall tuple_ok (map fst items) → 52 * zlen items ≤ 8152 →
  ∃ p' lg', vacuum_rebuild blk o stats items (mkRel bs w lg) =
    (mkRel (bset bs blk p') w lg',
     Ok (match items with [] => true | _ => false end,
         match items with [] => count_deleted stats | _ => stats end,
         foldl agg_step empty_box (map snd items))) ∧
    dpage p' o (map fst items).
Proof.
  intros Hb HI Hfit. pose proof (bget_range _ _ _ Hb) as Hr. unfold vacuum_rebuild.
  erewrite bind_run by done. st_simpl.
  pose proof (dpage_set_sp _ _ o _ (dpage_init (op_flags o) (op_level o))) as D0.
  assert (Ho : {| rightlink := rightlink o; op_flags := op_flags o; op_level := op_level o; nsn := nsn o |} = o)
    by (by destruct o).
  rewrite Ho.
  destruct (rebuild_add bs w lg blk _ o [] items empty_box Hr D0) as (p1 & He & Dp1);
    [constructor|done|unfold zlen in *; cbn; lia|].
  erewrite bind_run by (exact He).
  destruct (maybe_wal1 (bset bs blk p1) w (lg ++ [EvDirty blk]) blk p1 o (map fst items))
    as (p2 & lg' & Hw & Dp2); [by bget_simpl|exact Dp1|].
  exists p2, lg'. split; [|done]. rewrite bset_bset in Hw.
  destruct items as [|[it box] items]; (erewrite bind_run by done); (erewrite bind_run by done); st_simpl;
    (erewrite bind_run by (exact Hw)); done.
Qed.

(** * One subtree *)

Definition vac_result := (bool * IndexBulkDeleteResult * RTreeTemporalBox)%type.

(** What vacuuming the tree of height [lvl] at [blk] leaves. *)
Record vac_post (lvl : nat) bs bs' (blk : Z) c fp stats (r : vac_result) : Prop := {
  vp_len : zlen bs' = zlen bs;
  vp_frame b : b ∉ fp → bget bs' b = bget bs b;
  vp_empty : r.1.1 = true → survivors c = [] ∧
    ∃ p o, bget bs' blk = Some p ∧ dpage p o [] ∧ op_level o = Z.of_nat lvl ∧
           has_flag (op_flags o) TRTREE_PAGE_LEAF = (lvl =? 0)%nat;
  vp_tree : r.1.1 = false → good_box r.2 ∧ survivors c ≠ [] ∧
    ∃ fp', tree lvl bs' blk (survivors c) fp' ∧ NoDup fp' ∧ fp' ⊆ fp;
  vp_removed : tuples_removed r.1.2 = tuples_removed stats + (zlen c - zlen (survivors c));
}.

Lemma survivors_app c1 c2 : survivors (c1 ++ c2) = survivors c1 ++ survivors c2.
Proof. apply filter_app. Qed.

(** The loop over the downlinks of an inner page. *)
Record children_post (l : nat) bs bs' (subs : list sub) stats stats'
    (new : list (IndexTuple * RTreeTemporalBox)) (n : Z) : Prop := {
  cp_len : zlen bs' = zlen bs;
  cp_frame b : b ∉ footprint subs → bget bs' b = bget bs b;
  cp_tuples : Forall tuple_ok (map fst new);
  cp_boxes : Forall good_box (map snd new);
  cp_count : zlen new ≤ n;
  cp_subs : ∃ subs', Forall2 (sub_tree l bs') (map fst new) subs' ∧
      contents subs' = survivors (contents subs) ∧
      NoDup (footprint subs') ∧ footprint subs' ⊆ footprint subs;
  cp_empty : new = [] → survivors (contents subs) = [];
  cp_nonempty : new ≠ [] → survivors (contents subs) ≠ [];
  cp_removed : tuples_removed stats' =
      tuples_removed stats + (zlen (contents subs) - zlen (survivors (contents subs)));
}.

Section children.
Context (l : nat) (w : bool)
  (vacuum_page : Z → IndexBulkDeleteResult → M (bool * IndexBulkDeleteResult * RTreeTemporalBox)).
Context (Hvac : ∀ bs lg blk c fp stats, tree l bs blk c fp → NoDup fp → zlen bs ≤ InvalidBlockNumber →
  ∃ bs' lg' r, vacuum_page blk stats (mkRel bs w lg) = (mkRel bs' w lg', Ok r) ∧
               vac_post l bs bs' blk c fp stats r).

(** One child: its downlink is written again unless its subtree is empty now. *)
Lemma child_run bs lg it c fp stats items :
  tree l bs (child it) c fp → NoDup fp → zlen bs ≤ InvalidBlockNumber →
  zlen items < MaxHeapTuplesPerPage →
  ∃ bs' lg' stats' new,
    vacuum_child vacuum_page (stats, items) it (mkRel bs w lg) =
      (mkRel bs' w lg', Ok (stats', items ++ new)) ∧
    children_post l bs bs' [(c, fp)] stats stats' new 1.
Proof.
  intros HT HN Hmax Hfit.
  destruct (Hvac bs lg (child it) c fp stats HT HN Hmax) as (bs1 & lg1 & [[e st1] bx] & He & HP).
  cbn [vacuum_child]. fold (child it). erewrite bind_run by (exact He).
  assert (HC1 : contents [(c, fp)] = c) by (unfold contents; cbn; by rewrite app_nil_r).
  assert (HF1 : footprint [(c, fp)] = fp) by (unfold footprint; cbn; by rewrite app_nil_r).
  destruct HP as [Hlen Hfr Hem Htr Hrem]. cbn [fst snd] in *. destruct e.
  - destruct (Hem eq_refl) as [Hs _]. exists bs1, lg1, st1, []. rewrite app_nil_r. split; [done|].
    constructor; rewrite ?HC1, ?HF1; try done; [by constructor..|].
    exists []. split_and!; [constructor|by rewrite Hs|constructor|apply list_subseteq_nil].
  - destruct (Htr eq_refl) as (Hg & Hne & fp' & HT' & HN' & Hsub).
    destruct (rtree_form_tuple_good bx (ItemPointerSet (child it) FirstOffsetNumber) Hg)
      as (upd & Hf & Htid & Hok).
    assert (Hcu : child upd = child it).
    { unfold child at 1. rewrite Htid. apply tid_block_roundtrip.
      pose proof (tree_range _ _ _ _ _ HT) as HR. rewrite Forall_forall in HR.
      specialize (HR _ (tree_root_in _ _ _ _ _ HT)). unfold InvalidBlockNumber in *. lia. }
    erewrite bind_run by (apply lift_run, Hf).
    erewrite bind_run by (apply lift_run, push_kept_run, Hfit).
    exists bs1, lg1, (count_tuple st1), [(upd, bx)]. split; [done|].
    constructor; rewrite ?HC1, ?HF1; cbn [map fst snd]; try done; [by apply Forall_singleton..|].
    exists [(survivors c, fp')]. unfold contents, footprint. cbn. rewrite !app_nil_r.
    split_and!; try done. constructor; [|constructor]. unfold sub_tree. by rewrite Hcu.
Qed.

(** Two consecutive parts of the loop. *)
Lemma children_post_app bs bs1 bs2 subs1 subs2 st st1 st2 new1 new2 n1 n2 :
  children_post l bs bs1 subs1 st st1 new1 n1 →
  children_post l bs1 bs2 subs2 st1 st2 new2 n2 →
  (∀ b, b ∈ footprint subs1 → b ∉ footprint subs2) →
  children_post l bs bs2 (subs1 ++ subs2) st st2 (new1 ++ new2) (n1 + n2).
Proof.
  intros [L1 F1 T1 B1 C1 (s1 & S1 & E1 & N1 & Q1) Em1 Ne1 R1]
         [L2 F2 T2 B2 C2 (s2 & S2 & E2 & N2 & Q2) Em2 Ne2 R2] Hd.
  assert (HC : contents (subs1 ++ subs2) = contents subs1 ++ contents subs2) by apply concat_map_app.
  assert (HF : footprint (subs1 ++ subs2) = footprint subs1 ++ footprint subs2) by apply concat_map_app.
  assert (HC' : contents (s1 ++ s2) = contents s1 ++ contents s2) by apply concat_map_app.
  assert (HF' : footprint (s1 ++ s2) = footprint s1 ++ footprint s2) by apply concat_map_app.
  constructor; rewrite ?HC, ?HF, ?survivors_app, ?map_app, ?zlen_app; try lia.
  - intros b Hb. apply not_elem_of_app in Hb as [Hb1 Hb2]. rewrite F2 by done. by apply F1.
  - by apply Forall_app.
  - by apply Forall_app.
  - exists (s1 ++ s2). rewrite HC', HF', E1, E2. split_and!; [|done|..].
    + apply Forall2_app; [|done]. eapply sub_trees_frame; [exact S1|]. intros b Hb%Q1. apply F2. by apply Hd.
    + apply NoDup_app. split_and!; [done| |done]. intros b Hb1%Q1 Hb2%Q2. by apply (Hd b).
    + intros b. rewrite !elem_of_app. intros [?%Q1|?%Q2]; auto.
  - intros [-> ->]%app_nil. by rewrite Em1, Em2.
  - intros Hne [E E']%app_nil. destruct new1; [|by apply Ne1]. by apply Ne2.
Qed.

Lemma children_run its subs bs lg stats items :
  Forall2 (sub_tree l bs) its subs → NoDup (footprint subs) → zlen bs ≤ InvalidBlockNumber →
  zlen items + zlen its ≤ MaxHeapTuplesPerPage →
  ∃ bs' lg' stats' new,
    for_each (vacuum_child vacuum_page) its (stats, items) (mkRel bs w lg) =
      (mkRel bs' w lg', Ok (stats', items ++ new)) ∧
    children_post l bs bs' subs stats stats' new (zlen its).
Proof.
  revert subs bs lg stats items.
  induction its as [|it its IH]; intros subs bs lg stats items HS HN Hmax Hfit.
  - apply Forall2_nil_inv_l in HS as ->. exists bs, lg, stats, []. split; [by rewrite app_nil_r|].
    constructor; try done; [by constructor..| |cbn; lia]. exists []. split_and!; try done; constructor.
  - apply Forall2_cons_inv_l in HS as ([c fp] & subs1 & HT & HS & ->).
    unfold sub_tree in HT. cbn [fst snd] in HT.
    change (footprint ((c, fp) :: subs1)) with (fp ++ footprint subs1) in HN.
    apply NoDup_app in HN as (HN1 & Hd & HN2).
    assert (Hlen : zlen (it :: its) = 1 + zlen its) by (unfold zlen; cbn; lia). rewrite Hlen in Hfit |- *.
    pose proof (zlen_nonneg its) as Hnn.
    destruct (child_run bs lg it c fp stats items HT HN1 Hmax) as (bs1 & lg1 & st1 & new1 & He & HP1); [lia|].
    assert (HF1 : footprint [(c, fp)] = fp) by (unfold footprint; cbn; by rewrite app_nil_r).
    pose proof (cp_frame _ _ _ _ _ _ _ _ HP1) as Hfr. rewrite HF1 in Hfr.
    destruct (IH subs1 bs1 lg1 st1 (items ++ new1)) as (bs2 & lg2 & st2 & new2 & He2 & HP2); [..|done| | |].
    + eapply sub_trees_frame; [exact HS|]. intros b Hb. apply Hfr. intros Hb'. by apply (Hd b).
    + by rewrite (cp_len _ _ _ _ _ _ _ _ HP1).
    + pose proof (cp_count _ _ _ _ _ _ _ _ HP1). rewrite zlen_app. lia.
    + exists bs2, lg2, st2, (new1 ++ new2). cbn [for_each]. erewrite bind_run by (exact He).
      rewrite app_assoc. split; [done|].
      apply (children_post_app bs bs1 bs2 [(c, fp)] subs1 stats st1 st2); [done|done|].
      rewrite HF1. done.
Qed.

End children.

(** The loop over the offsets of a page visits its items. *)
Lemma for_each_items {A} (p : RPage) its (g : A → IndexTuple → M A) a s :
  page_rep p its →
  for_each (λ a offset,
      itemid ← lift (PageGetItemId p offset);
      if negb (ItemIdIsUsed itemid) then mret a
      else itup ← lift (PageGetItem p itemid); g a itup)
    (offsets_from p FirstOffsetNumber) a s = for_each g its a s.
Proof.
  intros Hp. unfold offsets_from, FirstOffsetNumber. rewrite (page_rep_max _ _ Hp).
  assert (HG : ∀ k a s, for_each (λ a offset,
      itemid ← lift (PageGetItemId p offset);
      if negb (ItemIdIsUsed itemid) then mret a
      else itup ← lift (PageGetItem p itemid); g a itup)
    (seqZ (Z.of_nat k + 1) (zlen (drop k its))) a s = for_each g (drop k its) a s).
  2: { specialize (HG 0%nat a s). rewrite drop_0 in HG. rewrite <- HG. f_equal. f_equal. lia. }
  intros k. remember (drop k its) as l eqn:Hl. revert k Hl.
  induction l as [|it l IH]; intros k Hl b t.
  { by rewrite seqZ_nil by (unfold zlen; cbn; lia). }
  assert (Hi : its !! k = Some it) by (by rewrite <- (Nat.add_0_r k), <- lookup_drop, <- Hl).
  rewrite (drop_S its it k Hi) in Hl. injection Hl as Hl.
  assert (Hz : zlen (it :: l) = Z.succ (zlen l)) by (unfold zlen; cbn; lia).
  rewrite Hz, seqZ_cons, Z.pred_succ by (pose proof (zlen_nonneg l); lia). cbn [for_each].
  destruct (page_rep_item _ _ _ _ Hp Hi) as (x & Hg & _ & _ & Hu & Hit).
  apply bind_ext.
  - erewrite bind_run by (apply lift_run, Hg). rewrite Hu. cbn [negb].
    by erewrite bind_run by (apply lift_run, Hit).
  - intros b' t'. replace (Z.succ (Z.of_nat k + 1)) with (Z.of_nat (S k) + 1) by lia. by apply IH.
Qed.

Lemma vacuum_leaf_run bs w lg blk p o its stats :
  bget bs blk = Some p → dpage p o its → op_level o = 0 → Forall tuple_ok its →
  has_flag (op_flags o) TRTREE_PAGE_LEAF = true →
  ∃ bs' lg' r,
    ('(stats, items) ← lift (for_items p (vacuum_leaf_step callback) (stats, []));
     vacuum_rebuild blk o stats items) (mkRel bs w lg) = (mkRel bs' w lg', Ok r) ∧
    vac_post 0 bs bs' blk its [blk] stats r.
Proof.
  intros Hb Hp Hl HF Hlf. pose proof (dpage_uniform_len _ _ _ Hp HF) as Hlen.
  pose proof (bget_range _ _ _ Hb) as Hr.
  assert (HFs : Forall tuple_ok (survivors its)) by (by apply Forall_filter).
  assert (Hfst : map fst (with_boxes (survivors its)) = survivors its).
  { unfold with_boxes. rewrite map_map. cbn [fst]. apply map_id. }
  assert (Hle : zlen (survivors its) ≤ zlen its).
  { unfold zlen, survivors. pose proof (length_filter alive its). lia. }
  erewrite bind_run by (apply lift_run; rewrite (for_items_rep p its) by apply Hp;
    apply leaf_fold; [done|unfold MaxHeapTuplesPerPage, zlen in *; cbn; lia]).
  cbv beta iota. cbn [app].
  destruct (rebuild_run bs w lg blk p o
              (add_counts (zlen its - zlen (survivors its)) (zlen (survivors its)) stats)
              (with_boxes (survivors its))) as (p' & lg' & He & Dp'); [done|by rewrite Hfst| |].
  { unfold with_boxes, zlen in *. rewrite length_map. lia. }
  rewrite Hfst in Dp'. eexists _, lg', _. split; [exact He|].
  assert (Hg : bget (bset bs blk p') blk = Some p') by (by bget_simpl).
  assert (Hfr : ∀ b, b ∉ [blk] → bget (bset bs blk p') b = bget bs b).
  { intros b Hn. apply bget_bset_ne; [lia|]. intros ->. apply Hn. left. }
  destruct (survivors its) as [|it0 rest] eqn:Es; cbn [with_boxes map].
  - constructor; cbn [fst snd]; rewrite ?zlen_bset, ?Es; try done.
    intros _. split; [done|]. exists p', o. by split_and!.
  - constructor; cbn [fst snd]; rewrite ?zlen_bset, ?Es; try done.
    intros _. split_and!; [|done|].
    + cbn [foldl map snd]. apply agg_good.
      * apply Forall_cons in HFs as [_ HFs]. rewrite map_map. apply Forall_map.
        eapply Forall_impl; [exact HFs|]. intros it (_ & b & Hb' & Hg'). cbn. unfold box_of. by rewrite Hb'.
      * apply Forall_cons in HFs as [(_ & b & Hb' & Hg') _]. unfold agg_step, box_of. cbn. by rewrite Hb'.
    + exists [blk]. split_and!; [|apply NoDup_singleton|done].
      exists p', o, (it0 :: rest). split_and!; first [done|lia].
Qed.

Lemma vacuum_inner_run l bs w lg blk p o its subs stats vacuum_page :
  (∀ bs lg blk c fp stats, tree l bs blk c fp → NoDup fp → zlen bs ≤ InvalidBlockNumber →
     ∃ bs' lg' r, vacuum_page blk stats (mkRel bs w lg) = (mkRel bs' w lg', Ok r) ∧
                  vac_post l bs bs' blk c fp stats r) →
  inner l bs blk p o its subs → NoDup (blk :: footprint subs) → zlen bs ≤ InvalidBlockNumber →
  ∃ bs' lg' r,
    ('(stats, items) ← for_each (vacuum_child vacuum_page) its (stats, []);
     vacuum_rebuild blk o stats items) (mkRel bs w lg) = (mkRel bs' w lg', Ok r) ∧
    vac_post (S l) bs bs' blk (contents subs) (blk :: footprint subs) stats r.
Proof.
  intros Hvac [Hb Hp Hl HF Hlf Hne HS] HN Hmax.
  pose proof (dpage_uniform_len _ _ _ Hp HF) as Hlen. pose proof (bget_range _ _ _ Hb) as Hr.
  apply NoDup_cons in HN as [Hnb HN].
  destruct (children_run l w vacuum_page Hvac its subs bs lg stats [] HS HN Hmax)
    as (bs1 & lg1 & st1 & new & He & [L1 F1 T1 B1 C1 (subs' & S1 & E1 & N1 & Q1) Em Ne R1]).
  { unfold MaxHeapTuplesPerPage, zlen in *. cbn. lia. }
  erewrite bind_run by (exact He). cbv beta iota. cbn [app].
  assert (Hb1 : bget bs1 blk = Some p) by (by rewrite F1).
  destruct (rebuild_run bs1 w lg1 blk p o st1 new Hb1 T1) as (p' & lg' & He' & Dp'); [lia|].
  eexists _, lg', _. split; [exact He'|].
  assert (Hg : bget (bset bs1 blk p') blk = Some p') by (by bget_simpl).
  assert (Hfr : ∀ b, b ∉ blk :: footprint subs → bget (bset bs1 blk p') b = bget bs b).
  { intros b Hn. apply not_elem_of_cons in Hn as [Hn1 Hn2]. rewrite bget_bset_ne by (lia || congruence). by apply F1. }
  destruct new as [|[it0 b0] rest].
  - constructor; cbn [fst snd]; rewrite ?zlen_bset; try done.
    intros _. split; [by apply Em|]. exists p', o. by split_and!.
  - constructor; cbn [fst snd]; rewrite ?zlen_bset; try done.
    intros _. split_and!.
    + cbn [foldl map snd]. apply Forall_cons in B1 as [Hb0 B1]. apply agg_good; [done|]. done.
    + by apply Ne.
    + exists (blk :: footprint subs'). rewrite <- E1.
      assert (Hnb' : blk ∉ footprint subs') by (intros ?%Q1; done). split_and!.
      * eapply inner_tree, inner_rewrite; try done. by rewrite L1.
      * by apply NoDup_cons.
      * intros b. rewrite !elem_of_cons. intros [->|?%Q1]; auto.
Qed.

(** Vacuuming a sound tree always succeeds. *)
Lemma vacuum_page_run lvl : ∀ fuel bs w lg blk c fp stats,
  tree lvl bs blk c fp → NoDup fp → zlen bs ≤ InvalidBlockNumber → (lvl < fuel)%nat →
  ∃ bs' lg' r, rtree_vacuum_page callback fuel blk stats (mkRel bs w lg) = (mkRel bs' w lg', Ok r) ∧
               vac_post lvl bs bs' blk c fp stats r.
Proof.
  induction lvl as [|l IH]; intros fuel bs w lg blk c fp stats HT HN Hmax Hfuel;
    (destruct fuel as [|fuel]; [lia|]); cbn [rtree_vacuum_page].
  - destruct HT as (p & o & its & Hb & Hp & Hl & HF & Hlf & -> & ->).
    erewrite bind_run by (by apply ReadBuffer_run).
    erewrite bind_run by (apply lift_run; by eapply dpage_opaque). rewrite Hlf.
    by apply vacuum_leaf_run.
  - apply tree_inner in HT as (p & o & its & subs & HI & -> & ->). pose proof HI as [Hb Hp Hl HF Hlf Hne HS].
    erewrite bind_run by (by apply ReadBuffer_run).
    erewrite bind_run by (apply lift_run; by eapply dpage_opaque). rewrite Hlf.
    destruct (vacuum_inner_run l bs w lg blk p o its subs stats (rtree_vacuum_page callback fuel))
      as (bs' & lg' & r & He & HP); try done.
    { intros. apply IH; try done. lia. }
    exists bs', lg', r. split; [|done]. rewrite <- He. apply bind_ext; [|done].
    apply for_each_items, Hp.
Qed.

(** * Lowering the root *)

(** The meta page of a relation. *)
Definition meta_at bs (m : RTreeMetaPageData) : Prop :=
  ∃ mp, bget bs 0 = Some mp ∧ pd_sp mp = Some (SpMeta m) ∧ magic m = TRTREE_META_MAGIC.

Lemma index_rep_intro bs w lg lvl c m fp :
  meta_at bs m → root_level m = Z.of_nat lvl → tree lvl bs (root m) c fp → NoDup fp → 0 ∉ fp →
  index_rep (mkRel bs w lg) lvl c.
Proof.
  intros (mp & Hm & Hsp & Hmg) Hl HT HN H0. exists mp, m, fp. cbn [blocks]. split_and!; try done.
  unfold nblocks; cbn [blocks]. pose proof (tree_range _ _ _ _ _ HT) as HR. rewrite Forall_forall in HR.
  pose proof (tree_root_in _ _ _ _ _ HT) as Hin. pose proof (HR _ Hin).
  assert (root m ≠ 0) by (intros E; by rewrite E in Hin). lia.
Qed.

Lemma meta_frame bs bs' m : meta_at bs m → bget bs' 0 = bget bs 0 → meta_at bs' m.
Proof. intros (mp & ? & ? & ?) E. exists mp. by rewrite E. Qed.

(** The prefix of [rtree_vacuum_shrink_root]: it finds the root it was called for. *)
Lemma shrink_root_enter bs w lg m p o its lvl :
  meta_at bs m → root m ≠ 0 → zlen bs ≤ InvalidBlockNumber →
  bget bs (root m) = Some p → dpage p o its →
  ∃ mp, bget bs 0 = Some mp ∧ pd_sp mp = Some (SpMeta m) ∧
  rtree_vacuum_shrink_root (root m) lvl (mkRel bs w lg) =
  (if has_flag (op_flags o) TRTREE_PAGE_LEAF || (lvl =? 0) then mret false
   else if zlen its =? 0 then
     WritePage (root m) (rtree_init_datapage (Z.lor TRTREE_PAGE_LEAF TRTREE_PAGE_ROOT) 0);;
     WritePage 0 (page_set_sp (SpMeta (set_root_level 0 m)) mp);;
     mret true
   else if zlen its =? 1 then
     itemid ← lift (PageGetItemId p FirstOffsetNumber);
     childitup ← lift (PageGetItem p itemid);
     let childblk := ItemPointerGetBlockNumber (t_tid childitup) in
     childpage ← ReadBuffer childblk;
     childopaque ← lift (opaque_of childpage);
     let rootopaque :=
       set_op_level (op_level childopaque)
         (set_op_flags (Z.lor (op_flags childopaque) TRTREE_PAGE_ROOT) childopaque) in
     WritePage (root m) (page_set_sp (SpData rootopaque) childpage);;
     WritePage 0 (page_set_sp (SpMeta (set_root_level (op_level childopaque) m)) mp);;
     MarkBufferDirty (root m);;
     MarkBufferDirty 0;;
     w ← RelationNeedsWAL;
     (if w : bool then GenericXLog [root m; 0] else mret ());;
     mret true
   else mret false) (mkRel bs w lg).
Proof.
  intros (mp & Hm & Hsp & Hmg) Hr0 Hmax Hb Hp. exists mp. split_and!; [done|done|].
  pose proof (bget_range _ _ _ Hb). unfold rtree_vacuum_shrink_root, BlockNumberIsValid.
  destruct (Z.eqb_spec (root m) InvalidBlockNumber) as [E|_]; [lia|]. cbn [negb].
  erewrite bind_run by (by apply ReadBuffer_run).
  erewrite bind_run by (apply lift_run; unfold meta_of; by rewrite Hsp).
  rewrite (proj2 (Z.eqb_eq _ _) Hmg), Z.eqb_refl. cbn [negb orb].
  erewrite bind_run by (by apply ReadBuffer_run).
  erewrite bind_run by (apply lift_run; by eapply dpage_opaque).
  by rewrite (page_rep_max p its) by apply Hp.
Qed.

(** An empty inner root becomes an empty leaf. *)
Lemma shrink_empty_run bs w lg m p o l :
  meta_at bs m → root m ≠ 0 → zlen bs ≤ InvalidBlockNumber →
  bget bs (root m) = Some p → dpage p o [] → has_flag (op_flags o) TRTREE_PAGE_LEAF = false →
  ∃ s', rtree_vacuum_shrink_root (root m) (Z.of_nat (S l)) (mkRel bs w lg) = (s', Ok true) ∧
        index_rep s' 0 [] ∧ needs_wal s' = w ∧ nblocks s' = zlen bs.
Proof.
  intros Hm Hr0 Hmax Hb Hp Hlf.
  destruct (shrink_root_enter bs w lg m p o [] (Z.of_nat (S l)) Hm Hr0 Hmax Hb Hp) as (mp & Hg0 & Hsp & ->).
  rewrite Hlf. destruct (Z.eqb_spec (Z.of_nat (S l)) 0); [lia|]. cbn [orb]. change (zlen [] =? 0) with true.
  cbv iota. pose proof (bget_range _ _ _ Hb). pose proof (bget_range _ _ _ Hg0).
  do 2 (erewrite bind_run by done). st_simpl. eexists. split; [done|]. split_and!; [|done|].
  - destruct Hm as (_ & _ & _ & Hmg).
    eapply (index_rep_intro _ _ _ _ _ (set_root_level 0 m) [root m]); [|done| |apply NoDup_singleton|].
    + eexists. split; [by bget_simpl|]. done.
    + cbn [set_root_level root].
      exists (rtree_init_datapage (Z.lor TRTREE_PAGE_LEAF TRTREE_PAGE_ROOT) 0). eexists _, [].
      split_and!; [by bget_simpl|apply dpage_init|done..].
    + rewrite list_elem_of_singleton. congruence.
  - unfold nblocks; cbn [blocks]. by rewrite !zlen_bset.
Qed.

(** Logging the root and the meta page keeps what they hold. *)
Lemma maybe_wal_root bs (w : bool) lg b p o its mp m :
  bget bs b = Some p → b ≠ 0 → dpage p o its → bget bs 0 = Some mp → pd_sp mp = Some (SpMeta m) →
  ∃ p' mp' lg', (if w then GenericXLog [b; 0] else mret ()) (mkRel bs w lg) =
              (mkRel (bset (bset bs b p') 0 mp') w lg', Ok ()) ∧
              dpage p' o its ∧ pd_sp mp' = Some (SpMeta m).
Proof.
  intros Hb Hn Hp Hm Hsp. pose proof (bget_range _ _ _ Hb). destruct w.
  - eexists _, _, _. split; [by apply GenericXLog_run2|]. split; [by apply dpage_zero_hole|done].
  - exists p, mp, lg. split; [|done]. rewrite (bset_id bs b p) by done. by rewrite bset_id.
Qed.

(** A root with one child takes the child's place. *)
Lemma shrink_single_run bs w lg m p o it l c fp subs :
  meta_at bs m → 0 ∉ fp → zlen bs ≤ InvalidBlockNumber → NoDup fp →
  inner l bs (root m) p o [it] subs → c = contents subs → fp = root m :: footprint subs →
  ∃ s', rtree_vacuum_shrink_root (root m) (Z.of_nat (S l)) (mkRel bs w lg) = (s', Ok true) ∧
        index_rep s' l c ∧ needs_wal s' = w ∧ nblocks s' = zlen bs.
Proof.
  intros Hm H0 Hmax HN [Hb Hp Hl HF Hlf Hne HS] -> ->.
  apply Forall2_cons_inv_l in HS as ([c fc] & subs1 & HT & HS & ->). apply Forall2_nil_inv_l in HS as ->.
  unfold sub_tree in HT. cbn [fst snd] in HT. unfold contents, footprint in *. cbn [map concat fst snd] in *.
  rewrite app_nil_r in *. apply not_elem_of_cons in H0 as [Hr0 H0]. apply NoDup_cons in HN as [Hrn HN].
  destruct (shrink_root_enter bs w lg m p o [it] (Z.of_nat (S l)) Hm ltac:(done) Hmax Hb Hp) as (mp & Hg0 & Hsp & ->).
  rewrite Hlf. destruct (Z.eqb_spec (Z.of_nat (S l)) 0); [lia|]. cbn [orb].
  change (zlen [it] =? 0) with false. change (zlen [it] =? 1) with true. cbv iota.
  pose proof (bget_range _ _ _ Hb). pose proof (bget_range _ _ _ Hg0).
  destruct (page_rep_item p [it] 0 it (dp_rep _ _ _ Hp) eq_refl) as (x & Hx & _ & _ & _ & Hit).
  erewrite bind_run by (apply lift_run, Hx). erewrite bind_run by (apply lift_run, Hit).
  cbv zeta. fold (child it).
  assert (∃ pc oc itc, bget bs (child it) = Some pc ∧ dpage pc oc itc ∧ op_level oc = Z.of_nat l)
    as (pc & oc & itc & Hbc & Hpc & Hlc).
  { destruct l; destruct HT as (pc & oc & itc & ? & ? & ? & _); by exists pc, oc, itc. }
  erewrite bind_run by (by apply ReadBuffer_run).
  erewrite bind_run by (apply lift_run; by eapply dpage_opaque).
  do 5 (erewrite bind_run by done). st_simpl.
  set (o' := set_op_level _ _). pose proof (dpage_set_sp _ _ o' _ Hpc) as Hp'.
  set (p' := page_set_sp (SpData o') pc) in *. set (mp' := page_set_sp _ mp).
  assert (Hleaf : has_flag (op_flags o') TRTREE_PAGE_LEAF = has_flag (op_flags oc) TRTREE_PAGE_LEAF).
  { subst o'. cbn [set_op_level set_op_flags op_flags]. rewrite has_flag_lor.
    change (has_flag TRTREE_PAGE_ROOT TRTREE_PAGE_LEAF) with false. apply orb_false_r. }
  destruct (maybe_wal_root (bset (bset bs (root m) p') 0 mp') w ((lg ++ [EvDirty (root m)]) ++ [EvDirty 0])
    (root m) p' o' itc mp' (set_root_level (op_level oc) m)) as (p2 & mp2 & lg2 & Hw & Dp2 & Hsp2);
    [by bget_simpl|done|done|by bget_simpl|done|].
  erewrite bind_run by (exact Hw). eexists. split; [done|]. split_and!; [|done|].
  - pose proof (tree_fp _ _ _ _ _ HT) as Hfp. rewrite Hfp in Hrn, HN, H0.
    apply not_elem_of_cons in Hrn as [Hrc Hrn], H0 as [Hc0 H0]. apply NoDup_cons in HN as [_ HN].
    destruct Hm as (_ & _ & _ & Hmg).
    eapply (index_rep_intro _ _ _ _ _ (set_root_level (op_level oc) m) (root m :: tail fc)); [|done| | |].
    + exists mp2. split; [by bget_simpl|]. done.
    + cbn [set_root_level root].
      pose proof (tree_copy l bs (child it) (root m) c fc pc oc itc p2 o' HT Hbc Hpc Dp2 eq_refl Hleaf
                    ltac:(lia) Hrn) as HT'.
      eapply tree_frame; [exact HT'|]. intros b Hb'.
      assert (b ≠ 0) by (intros ->; apply elem_of_cons in Hb' as [?|?]; congruence).
      rewrite !bget_bset by (rewrite ?zlen_bset; lia).
      destruct (Z.eqb_spec b 0); [done|]. by destruct (b =? root m).
    + by apply NoDup_cons.
    + rewrite elem_of_cons. intros [?|?]; [congruence|done].
  - unfold nblocks; cbn [blocks]. by rewrite !zlen_bset.
Qed.

(** Lowering the root, whatever vacuum left. *)
Lemma shrink_run lvl bs w lg m c fp stats bs1 r :
  meta_at bs m → 0 ∉ fp → zlen bs ≤ InvalidBlockNumber → NoDup fp → root m ∈ fp →
  root_level m = Z.of_nat lvl →
  vac_post lvl bs bs1 (root m) c fp stats r →
  ∃ s' lvl' b, rtree_vacuum_shrink_root (root m) (Z.of_nat lvl) (mkRel bs1 w lg) = (s', Ok b) ∧
    index_rep s' lvl' (survivors c) ∧ needs_wal s' = w ∧ nblocks s' = zlen bs ∧ (lvl' ≤ lvl)%nat.
Proof.
  intros Hm H0 Hmax HN Hrin Hlvl [Hlen Hfr Hem Htr _].
  assert (Hr0 : root m ≠ 0) by (intros E; by rewrite E in Hrin).
  assert (Hm1 : meta_at bs1 m) by (eapply meta_frame; [exact Hm|by apply Hfr]).
  destruct (r.1.1) eqn:He.
  - destruct (Hem eq_refl) as (-> & p & o & Hb & Hp & Hl & Hlf). destruct lvl as [|l].
    + destruct (shrink_root_enter bs1 w lg m p o [] (Z.of_nat 0) Hm1 Hr0 ltac:(lia) Hb Hp) as (mp & _ & _ & ->).
      rewrite Hlf. cbn [orb Nat.eqb]. eexists _, 0%nat, _. split; [done|]. split_and!; [|done|by rewrite <- Hlen|lia].
      eapply (index_rep_intro _ _ _ _ _ m [root m]); try done; [|apply NoDup_singleton|].
      * exists p, o, []. by split_and!.
      * rewrite list_elem_of_singleton. congruence.
    + destruct (shrink_empty_run bs1 w lg m p o l Hm1 Hr0 ltac:(lia) Hb Hp Hlf) as (s' & Hs & HI & Hw & Hn).
      exists s', 0%nat, true. split_and!; try done; lia.
  - destruct (Htr eq_refl) as (_ & Hne & fp' & HT & HN' & Hsub).
    assert (H0' : 0 ∉ fp') by (intros ?%Hsub; done).
    destruct lvl as [|l].
    + pose proof HT as (p & o & its & Hb & Hp & Hl & HF & Hlf & _ & _).
      destruct (shrink_root_enter bs1 w lg m p o _ (Z.of_nat 0) Hm1 Hr0 ltac:(lia) Hb Hp) as (mp & _ & _ & ->).
      rewrite Hlf. cbn [orb]. eexists _, 0%nat, _. split; [done|].
      split_and!; [|done|by rewrite <- Hlen|lia]. by eapply (index_rep_intro _ _ _ _ _ m fp').
    + pose proof HT as HT0. apply tree_inner in HT0 as (p & o & its & subs & HI & Hc & Hfp).
      destruct its as [|it [|it2 its]]; [by destruct HI| |].
      * destruct (shrink_single_run bs1 w lg m p o it l (survivors c) fp' subs) as (s' & Hs & HI' & Hw & Hn);
          try done; [lia|]. exists s', l, true. split_and!; try done; lia.
      * destruct (shrink_root_enter bs1 w lg m p o (it :: it2 :: its) (Z.of_nat (S l)) Hm1 Hr0 ltac:(lia))
          as (mp & _ & _ & ->); [apply HI|apply HI|].
        rewrite (in_leaf _ _ _ _ _ _ _ HI). destruct (Z.eqb_spec (Z.of_nat (S l)) 0); [lia|]. cbn [orb].
        destruct (Z.eqb_spec (zlen (it :: it2 :: its)) 0) as [E|_]; [unfold zlen in E; cbn in E; lia|].
        destruct (Z.eqb_spec (zlen (it :: it2 :: its)) 1) as [E|_]; [unfold zlen in E; cbn in E; lia|].
        eexists _, (S l), _. split; [done|]. split_and!; [|done|by rewrite <- Hlen|lia].
        by eapply index_rep_intro.
Qed.

Lemma bulkdelete_run s lvl c (stats : option IndexBulkDeleteResult) :
  index_rep s lvl c → nblocks s ≤ InvalidBlockNumber →
  ∃ s' stats' lvl', temporal_rtree_bulkdelete callback stats s = (s', Ok stats') ∧
    index_rep s' lvl' (survivors c) ∧ needs_wal s' = needs_wal s ∧ nblocks s' = nblocks s ∧
    (lvl' ≤ lvl)%nat ∧
    tuples_removed stats' = tuples_removed (default zero_stats stats) + (zlen c - zlen (survivors c)).
Proof.
  intros (mp & m & fp & Hm & Hsp & Hmg & Hlvl & HT & HN & H0 & H2) Hmax.
  destruct s as [bs w lg]. unfold nblocks in *. cbn [blocks needs_wal] in *.
  pose proof (tree_range _ _ _ _ _ HT) as HR. rewrite Forall_forall in HR.
  pose proof (tree_root_in _ _ _ _ _ HT) as Hrin. pose proof (HR _ Hrin).
  unfold temporal_rtree_bulkdelete. erewrite bind_run by done. st_simpl.
  destruct (Z.ltb_spec (zlen bs) 2); [lia|].
  erewrite bind_run by (by apply ReadBuffer_run).
  erewrite bind_run by (apply lift_run; unfold meta_of; by rewrite Hsp).
  rewrite (proj2 (Z.eqb_eq _ _) Hmg). cbn [negb]. unfold BlockNumberIsValid.
  destruct (Z.eqb_spec (root m) InvalidBlockNumber) as [E|_]; [lia|]. cbn [negb].
  pose proof (tree_height _ _ _ _ _ HT).
  assert (length fp ≤ length bs)%nat by (by apply NoDup_range_length).
  set (st0 := mkStats _ _ _ _ _ _ _).
  destruct (vacuum_page_run lvl (Z.to_nat (zlen bs)) bs w lg (root m) c fp st0 HT HN Hmax)
    as (bs1 & lg1 & r & He & HP); [unfold zlen; lia|].
  erewrite bind_run by (exact He).
  destruct (shrink_run lvl bs w lg1 m c fp st0 bs1 r) as (s' & lvl' & b & Hs & HI & Hw & Hn & Hle); try done.
  { by exists mp. }
  destruct r as [[e st1] bx]. rewrite Hlvl. erewrite bind_run by (exact Hs).
  exists s', st1, lvl'. split_and!; try done. pose proof (vp_removed _ _ _ _ _ _ _ _ HP) as Hrem. exact Hrem.
Qed.

(** C9. Vacuum with a callback removes exactly the tuples the callback condemns: it ends
    without an error, the leaves hold the other tuples in their former order, the tree is
    well-formed again (empty pages dropped, the root possibly lowered), no block is added,
    and [tuples_removed] grows by the number of tuples removed. *)
Theorem bulkdelete_removes_dead s lvl c (stats : option IndexBulkDeleteResult) :
  index_rep s lvl c → nblocks s ≤ InvalidBlockNumber →
  ∃ s' stats' lvl', temporal_rtree_bulkdelete callback stats s = (s', Ok stats') ∧
    index_rep s' lvl' (survivors c) ∧ nblocks s' = nblocks s ∧ (lvl' ≤ lvl)%nat ∧
    tuples_removed stats' = tuples_removed (default zero_stats stats) + (zlen c - zlen (survivors c)).
Proof.
  intros Hi Hn. destruct (bulkdelete_run s lvl c stats Hi Hn) as (s' & st & lvl' & ? & ? & _ & ? & ? & ?).
  by exists s', st, lvl'.
Qed.

End prune.

(** Without a callback nothing is dead. *)
Lemma survivors_no_callback c : survivors None c = c.
Proof. apply filter_all, Forall_true. done. Qed.

(** Cleanup after an index scan that deleted nothing (no counters handed over) rebuilds
    every page and keeps every tuple, in order; it reports the number of blocks and marks
    the count as an estimate, capped by the heap's count when that is exact. *)
Theorem vacuumcleanup_keeps_all `{Platform} s lvl c info :
  index_rep s lvl c → nblocks s ≤ InvalidBlockNumber → analyze_only info = false →
  ∃ s' stats' lvl', temporal_rtree_vacuumcleanup info None s = (s', Ok (Some stats')) ∧
    index_rep s' lvl' c ∧ (lvl' ≤ lvl)%nat ∧ num_pages stats' = nblocks s ∧
    estimated_count stats' = true ∧ tuples_removed stats' = 0 ∧
    (info_estimated_count info = false → num_index_tuples stats' ≤ num_heap_tuples info).
Proof.
  intros Hi Hn Ha. destruct (bulkdelete_run None s lvl c (Some zero_stats) Hi Hn)
    as (s' & st & lvl' & He & Hi' & _ & Hb & Hl & Hr).
  rewrite survivors_no_callback in Hi', Hr.
  unfold temporal_rtree_vacuumcleanup. rewrite Ha. erewrite bind_run by (erewrite bind_run by (exact He); done).
  erewrite bind_run by done. eexists s', _, lvl'. split; [done|].
  cbn [num_pages estimated_count tuples_removed num_index_tuples default zero_stats] in *.
  split_and!; try first [done|exact Hb|(rewrite Hr; cbn; lia)]. intros ->. cbn [negb andb]. destruct (Z.ltb_spec (num_heap_tuples info) (num_index_tuples st)); lia.
Qed.

(** * Witnesses *)

Lemma bulkdelete_removes_dead_witness :
  ∃ c, c ≡ₚ [leaf_tuple (temporalbox 20 0 (Some 100)) (ItemPointerSet 0 2);
            leaf_tuple (temporalbox 10 1577836800 None) (ItemPointerSet 0 1)] ∧
  let cb := Some (λ tid, ip_posid tid =? 2) in
  ∃ s' stats' lvl', temporal_rtree_bulkdelete cb None demo_index = (s', Ok stats') ∧
    index_rep s' lvl' (survivors cb c) ∧ tuples_removed stats' = 1.
Proof.
  destruct demo_index_rep as (lvl & c & Hi & Hc & Hl & Hn). exists c. split; [done|]. intros cb.
  destruct (bulkdelete_removes_dead cb demo_index lvl c None Hi) as (s' & st & lvl' & He & Hi' & _ & _ & Hr).
  - unfold InvalidBlockNumber. lia.
  - exists s', st, lvl'. split_and!; [done|done|]. rewrite Hr.
    assert (Hs : survivors cb c ≡ₚ survivors cb [leaf_tuple (temporalbox 20 0 (Some 100)) (ItemPointerSet 0 2);
            leaf_tuple (temporalbox 10 1577836800 None) (ItemPointerSet 0 1)]) by (unfold survivors; by rewrite Hc).
    apply Permutation_length in Hc, Hs. unfold zlen. rewrite Hc, Hs. done.
Defined.

Lemma vacuumcleanup_keeps_all_witness :
  ∃ c s' stats' lvl', temporal_rtree_vacuumcleanup (mkVacInfo false false 1) None demo_index = (s', Ok (Some stats')) ∧
    index_rep demo_index 0 c ∧ index_rep s' lvl' c ∧ num_index_tuples stats' ≤ 1.
Proof.
  destruct demo_index_rep as (lvl & c & Hi & _ & _ & Hn). exists c.
  destruct (vacuumcleanup_keeps_all demo_index lvl c (mkVacInfo false false 1) Hi) as (s' & st & lvl' & He & Hi' & _ & _ & _ & _ & Hh).
  - unfold InvalidBlockNumber. lia.
  - done.
  - exists s', st, lvl'. split_and!; [done| |done|by apply Hh].
    assert (lvl = 0)%nat as ->; [|done].
    destruct Hi as (mp & m & fp & Hm & Hsp & _ & Hlv & _). revert Hm. vm_compute.
    intros [= <-]. vm_compute in Hsp. injection Hsp as <-. cbn in Hlv. lia.
Defined.
