(* ===== verification/Am.v ===== *)
(** The contract of an index access method, as the executor and the build of an index
    rely on it: the index holds a bag of rows, insertion adds one, bulk deletion removes
    those the callback condemns, and a scan returns the rows that pass the test of its
    key.  The clients below (histories of operations, index builds) are proved against the
    contract; temporal_rtree implements it. *)

From S2P Require Import Prelude Float64 Cube Box Split Bufpage Itup Store Insert Tree Index Search Scan Vacuum Prune.

Record Row : Type := mkRow { row_key : NDBOX; row_tid : ItemPointerData }.

(** A state-passing operation that may fail. *)
Abbreviation eff S A := (S → S * result A).

(** The entry points of an access method. *)
Class IndexAM (S : Type) : Type := {
  am_buildempty : eff S unit;
  am_insert : option NDBOX → ItemPointerData → eff S bool;
  am_bulkdelete : option (ItemPointerData → bool) → option IndexBulkDeleteResult →
                  eff S IndexBulkDeleteResult;
  am_scan : nat → S → list ScanKeyData → result (list (ItemPointerData * bool) * IndexScanDesc);
}.

(** The rows a bulk deletion leaves. *)
Definition row_dead (cb : option (ItemPointerData → bool)) (r : Row) : bool :=
  match cb with None => false | Some cb => cb (row_tid r) end.
Definition live_rows (cb : option (ItemPointerData → bool)) (rows : list Row) : list Row :=
  filter (λ r, row_dead cb r = false) rows.

(** What the entry points promise.  [am_holds s n rows]: the index [s] holds the bag
    [rows] and has room for [n] more insertions of keys that satisfy [key_ok];
    [am_test] is the leaf test of a scan key. *)
Class IndexAMSpec (S : Type) {AM : IndexAM S} : Type := {
  key_ok : NDBOX → Prop;
  am_test : ScanKeyData → NDBOX → bool;
  am_new : S;
  am_capacity : nat;
  am_holds : S → nat → list Row → Prop;
  am_holds_perm s n : Proper ((≡ₚ) ==> iff) (am_holds s n);
  am_holds_le s n n' rows : (n' ≤ n)%nat → am_holds s n rows → am_holds s n' rows;
  am_buildempty_ok : ∃ s, am_buildempty am_new = (s, Ok ()) ∧ am_holds s am_capacity [];
  am_insert_ok s n rows key tid : am_holds s (1 + n) rows → key_ok key →
    ∃ s', am_insert (Some key) tid s = (s', Ok true) ∧ am_holds s' n (mkRow key tid :: rows);
  am_insert_null s n rows tid : am_holds s n rows → am_insert None tid s = (s, Ok true);
  am_bulkdelete_ok s n rows cb stats : am_holds s n rows →
    ∃ s' stats', am_bulkdelete cb stats s = (s', Ok stats') ∧ am_holds s' n (live_rows cb rows) ∧
      tuples_removed stats' =
        tuples_removed (default zero_stats stats) + (zlen rows - zlen (live_rows cb rows));
  am_scan_ok s n rows ks key m : am_holds s n rows → List.find usable ks = Some key →
    (length rows < m)%nat →
    ∃ out scan, am_scan m s ks = Ok (out, scan) ∧
      out ≡ₚ map (λ r, (row_tid r, false)) (filter (λ r, am_test key (row_key r) = true) rows);
}.
#[export] Existing Instance am_holds_perm.

(** * Histories *)

Inductive op : Type :=
  | OpInsert (key : option NDBOX) (tid : ItemPointerData)
  | OpBulkDelete (cb : option (ItemPointerData → bool)) (stats : option IndexBulkDeleteResult).

(** The abstract effect of an operation on the bag of rows. *)
Definition spec_op (rows : list Row) (o : op) : list Row :=
  match o with
  | OpInsert (Some key) tid => mkRow key tid :: rows
  | OpInsert None _ => rows
  | OpBulkDelete cb _ => live_rows cb rows
  end.

Definition is_insert (o : op) : bool :=
  match o with OpInsert _ _ => true | OpBulkDelete _ _ => false end.
Definition insertions (ops : list op) : nat := length (filter is_insert ops).

Section client.
Context {S} {AM : IndexAM S} {Spec : IndexAMSpec S}.

Definition run_op (s : S) (o : op) : S * result unit :=
  match o with
  | OpInsert key tid => let '(s, r) := am_insert key tid s in (s, b ← r; Ok ())
  | OpBulkDelete cb stats => let '(s, r) := am_bulkdelete cb stats s in (s, b ← r; Ok ())
  end.

(** A history stops at its first error. *)
Fixpoint run_ops (s : S) (ops : list op) : S * result unit :=
  match ops with
  | [] => (s, Ok ())
  | o :: ops =>
      match run_op s o with
      | (s, Ok _) => run_ops s ops
      | (s, Err e) => (s, Err e)
      end
  end.

Definition op_ok (o : op) : Prop :=
  match o with OpInsert (Some key) _ => key_ok key | _ => True end.

Lemma run_op_ok s n rows o :
  am_holds s (length (filter is_insert [o]) + n) rows → op_ok o →
  ∃ s', run_op s o = (s', Ok ()) ∧ am_holds s' n (spec_op rows o).
Proof.
  intros Hs Hok. destruct o as [[key|] tid|cb stats]; cbn [run_op spec_op].
  - destruct (am_insert_ok s n rows key tid Hs Hok) as (s' & -> & Hs'). by exists s'.
  - rewrite (am_insert_null s (1 + n) rows tid Hs). exists s. split; [done|]. eapply am_holds_le; [|done]. lia.
  - destruct (am_bulkdelete_ok s n rows cb stats Hs) as (s' & st & -> & Hs' & _). by exists s'.
Qed.

(** Simulation: every history runs without error and ends in an index that holds the
    rows the abstract history leaves. *)
Lemma run_ops_ok ops s n rows :
  am_holds s (insertions ops + n) rows → Forall op_ok ops →
  ∃ s', run_ops s ops = (s', Ok ()) ∧ am_holds s' n (foldl spec_op rows ops).
Proof.
  intros Hs HF. revert s rows Hs. induction HF as [|o ops Ho _ IH]; intros s rows Hs; [by exists s|].
  assert (Hn : (insertions (o :: ops) + n = length (filter is_insert [o]) + (insertions ops + n))%nat).
  { unfold insertions. rewrite !filter_cons, filter_nil. destruct (decide (is_insert o)); cbn; lia. }
  rewrite Hn in Hs. destruct (run_op_ok s _ rows o Hs Ho) as (s1 & E & Hs1).
  cbn [run_ops foldl]. rewrite E. by apply IH.
Qed.

End client.
