(* ===== verification/Refine.v ===== *)
(** temporal_rtree implements the access-method contract of Am.v, and what follows for
    whole histories of operations: creation, insertions, vacuums, then a scan. *)

From S2P Require Import Prelude Float64 Cube Box Split Bufpage Itup Store Insert Tree Index Search Scan Vacuum Prune Am.

Section refine.
Context `{Platform}.

#[export] Instance temporal_rtree_am : IndexAM Rel := {
  am_buildempty := temporal_rtree_buildempty;
  am_insert := temporal_rtree_insert;
  am_bulkdelete := temporal_rtree_bulkdelete;
  am_scan := run_scan;
}.

Definition row_tuple (r : Row) : IndexTuple := leaf_tuple (row_key r) (row_tid r).

(** The index holds [rows], and [n] more insertions cannot exhaust the block numbers or
    the levels, however they split. *)
Definition holds (s : Rel) (n : nat) (rows : list Row) : Prop :=
  ∃ lvl c, index_rep s lvl c ∧ c ≡ₚ map row_tuple rows ∧
    nblocks s + Z.of_nat n * (Z.of_nat lvl + Z.of_nat n + 2) ≤ InvalidBlockNumber ∧
    Z.of_nat lvl + Z.of_nat n < 2 ^ 16.

#[export] Instance holds_perm s n : Proper ((≡ₚ) ==> iff) (holds s n).
Proof.
  assert (∀ r1 r2, r1 ≡ₚ r2 → holds s n r1 → holds s n r2).
  { intros r1 r2 E (lvl & c & Hi & Hc & Hn). exists lvl, c. split_and!; try apply Hn; [done|].
    by rewrite Hc, E. }
  intros r1 r2 E. split; eauto using Permutation_sym.
Qed.

Lemma holds_le s n n' rows : (n' ≤ n)%nat → holds s n rows → holds s n' rows.
Proof. intros Hle (lvl & c & Hi & Hc & Hn & Hl). exists lvl, c. split_and!; try done; [nia|lia]. Qed.

(** 65534 insertions fit, even if every one of them split every level. *)
Definition new_capacity : nat := Z.to_nat 65534.

Lemma holds_new : ∃ s, temporal_rtree_buildempty (mkRel [] true []) = (s, Ok ()) ∧ holds s new_capacity [].
Proof.
  destruct (buildempty_run true []) as (bs & lg & He & Hrep & Hlen). eexists. split; [exact He|].
  exists 0%nat, []. split; [done|]. unfold nblocks, new_capacity; cbn [blocks].
  rewrite Hlen, Z2Nat.id by lia. split_and!; done.
Qed.

Lemma holds_insert s n rows key tid :
  holds s (1 + n) rows → good_key key →
  ∃ s', temporal_rtree_insert (Some key) tid s = (s', Ok true) ∧ holds s' n (mkRow key tid :: rows).
Proof.
  intros (lvl & c & Hi & Hc & Hn & Hl) Hk.
  destruct (insert_run s lvl c key tid Hi) as (s' & lvl' & c' & He & Hi' & Hc' & _ & Hb & Hl'); [|done|].
  - split; nia.
  - exists s'. split; [done|]. exists lvl', c'. split_and!; [done|by rewrite Hc', Hc|nia|lia].
Qed.

Lemma insert_null_run s lvl c tid :
  index_rep s lvl c → temporal_rtree_insert None tid s = (s, Ok true).
Proof.
  intros (mp & m & fp & _ & _ & _ & _ & _ & _ & _ & H2). unfold temporal_rtree_insert.
  erewrite bind_run by done. destruct (Z.ltb_spec (nblocks s) 2); [lia|].
  erewrite bind_run by done. erewrite bind_run by (apply lift_run; reflexivity). done.
Qed.

Lemma survivors_rows cb rows : survivors cb (map row_tuple rows) = map row_tuple (live_rows cb rows).
Proof.
  unfold survivors, live_rows. induction rows as [|r rows IH]; [done|].
  cbn [map]. rewrite !filter_cons. unfold alive at 1, dead, row_dead at 1.
  destruct cb as [cb|]; cbn [row_tuple leaf_tuple t_tid]; by repeat case_decide; cbn [map]; rewrite ?IH.
Qed.

Lemma holds_bulkdelete s n rows cb stats :
  holds s n rows →
  ∃ s' stats', temporal_rtree_bulkdelete cb stats s = (s', Ok stats') ∧ holds s' n (live_rows cb rows) ∧
    tuples_removed stats' =
      tuples_removed (default zero_stats stats) + (zlen rows - zlen (live_rows cb rows)).
Proof.
  intros (lvl & c & Hi & Hc & Hn & Hl).
  destruct (bulkdelete_run cb s lvl c stats Hi) as (s' & st & lvl' & He & Hi' & _ & Hb & Hl' & Hst); [nia|].
  assert (Hs : survivors cb c ≡ₚ map row_tuple (live_rows cb rows)).
  { rewrite <- survivors_rows. unfold survivors. by rewrite Hc. }
  exists s', st. split_and!; [done| |].
  - exists lvl', (survivors cb c). split_and!; [done|done|nia|lia].
  - rewrite Hst. pose proof (Permutation_length Hc) as L1. pose proof (Permutation_length Hs) as L2.
    rewrite length_map in L1, L2. unfold zlen. lia.
Qed.

(** The leaf test of a scan key. *)
Definition key_test (key : ScanKeyData) (t : NDBOX) : bool := am_match (sk_strategy key) t (sk_argument key).

Lemma matches_rows key rows :
  filter (matches key) (map row_tuple rows) = map row_tuple (filter (λ r, key_test key (row_key r) = true) rows).
Proof.
  induction rows as [|r rows IH]; [done|]. cbn [map]. rewrite !filter_cons.
  assert (matches key (row_tuple r) ↔ key_test key (row_key r) = true) by done.
  repeat case_decide; cbn [map]; rewrite ?IH; tauto || done.
Qed.

Lemma holds_scan s n rows ks key m :
  holds s n rows → List.find usable ks = Some key → (length rows < m)%nat →
  ∃ out scan, run_scan m s ks = Ok (out, scan) ∧
    out ≡ₚ map (λ r, (row_tid r, false)) (filter (λ r, key_test key (row_key r) = true) rows).
Proof.
  intros (lvl & c & Hi & Hc & Hn & Hl) Hf Hm.
  destruct (run_scan_run s lvl c ks key m) as (scan & He & _); try done; [lia|nia| |].
  - rewrite (Permutation_length Hc), length_map. done.
  - eexists _, scan. split; [exact He|]. rewrite Hc, matches_rows, map_map. done.
Qed.

#[export] Instance temporal_rtree_spec : IndexAMSpec Rel := {
  key_ok := good_key;
  am_test := key_test;
  am_new := mkRel [] true [];
  am_capacity := new_capacity;
  am_holds := holds;
  am_holds_le := holds_le;
  am_buildempty_ok := holds_new;
  am_insert_ok := holds_insert;
  am_insert_null s n rows tid '(ex_intro _ lvl (ex_intro _ c (conj Hi _))) := insert_null_run s lvl c tid Hi;
  am_bulkdelete_ok := holds_bulkdelete;
  am_scan_ok := holds_scan;
}.

(** * Answers to SQL queries *)

(** A key the whole path from SQL to the leaf test treats exactly: two-dimensional, with
    normalised corners at integers below 2^53 (a time bound may be infinite), not a point. *)
Definition sql_key (c : NDBOX) : Prop :=
  key_cube c ∧ exact_cube c ∧ vl_size c = CUBE_SIZE 2 ∧
  (sval (LL_COORD c 0) < sval (UR_COORD c 0) ∨ sval (LL_COORD c 1) < sval (UR_COORD c 1)).

Lemma exact_bound s d :
  time_coord s d → exact_coord d →
  Z.abs (clamp64 (rnd (sval d))) < 2 ^ 53 ∨ clamp64 (rnd (sval d)) = if s then PG_INT64_MIN else PG_INT64_MAX.
Proof.
  intros (_ & [->|[Hf _]]) (_ & He).
  - right. destruct s; vm_compute; done.
  - left. destruct He as [Hi|(z & Hz & ->)]; [by destruct d|]. by rewrite rnd_scaled, clamp64_small.
Qed.

Lemma clamp64_int32 z : is_int32 z → clamp64 z = z.
Proof. unfold is_int32, clamp64, PG_INT32_MIN, PG_INT32_MAX, PG_INT64_MIN, PG_INT64_MAX. lia. Qed.

Lemma sql_key_good c : sql_key c → good_key c.
Proof.
  intros (Hk & (E0 & E1 & E2 & E3) & Hs & Hx). split; [done|].
  pose proof (key_cube_box c Hk) as (Al & Ah & Lo & Up & _ & Hne & Hlf & _).
  destruct Hk as (_ & _ & _ & _ & (_ & _ & R0) & (_ & _ & R1) & T0 & T1).
  constructor; rewrite ?Al, ?Ah, ?Lo, ?Up; try done.
  - by apply exact_bound in T0.
  - apply exact_bound in T1; [|done]. unfold good_upper. tauto.
  - intros HL. rewrite Hlf, Lo. by apply Z.eqb_eq.
  - destruct Hx as [Hx|Hx]; apply exact_coord_lt in Hx; try done; [left|right; left; done].
    by rewrite !clamp64_int32 in Hx.
Qed.

Definition sql_op_ok (o : op) : Prop :=
  match o with OpInsert (Some key) _ => sql_key key | _ => True end.

Lemma history_keys ops rows :
  Forall sql_op_ok ops → Forall (λ r, sql_key (row_key r)) rows →
  Forall (λ r, sql_key (row_key r)) (foldl spec_op rows ops).
Proof.
  intros HF. revert rows. induction HF as [|o ops Ho _ IH]; intros rows Hr; [done|]. cbn [foldl]. apply IH.
  destruct o as [[k|] tid|cb st]; cbn; [by constructor|done|]. by apply Forall_filter.
Qed.

(** The rows of [rows] that the SQL operator of the key selects. *)
Definition sql_answer (key : ScanKeyData) (rows : list Row) : list Row :=
  filter (λ r, sql_operator (sk_strategy key) (row_key r) (sk_argument key) = true) rows.

Lemma usable_strategy key : usable key = true → 1 ≤ sk_strategy key ≤ 3.
Proof. intros Hu. apply (find_usable_strategy [key]). cbn. by rewrite Hu. Qed.

(** C1. An index created by [temporal_rtree_buildempty] and changed by any history of
    insertions (at most 65534, null keys included) and vacuums answers a scan exactly as
    SQL does: every operation succeeds, and the scan returns, without a recheck, the heap
    pointers of the rows inserted and not since removed that satisfy the operator of its
    key, each once.  Keys and query are two-dimensional, with ordered corners and integral
    coordinates below 2^53, the attribute in the int32 range; a period may be open on either
    side; keys have some extent. *)
Theorem index_answers_sql ops key m :
  Forall sql_op_ok ops → (insertions ops ≤ new_capacity)%nat →
  usable key = true → key_cube (sk_argument key) → exact_cube (sk_argument key) →
  (length (foldl spec_op [] ops) < m)%nat →
  ∃ s0 s out scan,
    temporal_rtree_buildempty (mkRel [] true []) = (s0, Ok ()) ∧
    run_ops s0 ops = (s, Ok ()) ∧
    run_scan m s [key] = Ok (out, scan) ∧
    out ≡ₚ map (λ r, (row_tid r, false)) (sql_answer key (foldl spec_op [] ops)).
Proof.
  intros Hops Hcap Hu Hq Hqe Hm. destruct am_buildempty_ok as (s0 & E0 & H0).
  destruct (run_ops_ok ops s0 0 []) as (s & Es & Hs).
  - eapply am_holds_le; [|exact H0]. rewrite Nat.add_0_r. exact Hcap.
  - eapply Forall_impl; [exact Hops|]. intros [[k|] tid|cb st]; try done. apply sql_key_good.
  - destruct (am_scan_ok s 0 _ [key] key m Hs) as (out & scan & Eo & Ho); [cbn; by rewrite Hu|done|].
    exists s0, s, out, scan. split_and!; [exact E0|exact Es|exact Eo|]. rewrite Ho. apply Permutation_map.
    pose proof (history_keys ops [] Hops (Forall_nil_2 _)) as HK.
    apply reflexive_eq, filter_ext_Forall.
    eapply Forall_impl; [exact HK|]. intros r (Hk & Hke & _). cbn [am_test temporal_rtree_spec key_test].
    unfold key_test. rewrite match_exact; try done. by apply usable_strategy.
Qed.

Definition key_op_ok (o : op) : Prop :=
  match o with OpInsert (Some key) _ => good_key key ∧ key_cube key | _ => True end.

Lemma history_key_cubes ops rows :
  Forall key_op_ok ops → Forall (λ r, key_cube (row_key r)) rows →
  Forall (λ r, key_cube (row_key r)) (foldl spec_op rows ops).
Proof.
  intros HF. revert rows. induction HF as [|o ops Ho _ IH]; intros rows Hr; [done|]. cbn [foldl]. apply IH.
  destruct o as [[k|] tid|cb st]; cbn; [constructor; [apply Ho|done]|done|]. by apply Forall_filter.
Qed.

(** C5. With keys that need not be integral (a row may then be returned wrongly) no row
    is ever missed: after any history of at most 65534 insertions, every row that is still in the
    index and satisfies the SQL operator of the scan key is among those the scan returns.  Keys
    are two-dimensional with ordered corners, in range, and have some extent after rounding
    ([good_key]); the query is two-dimensional with ordered corners. *)
Theorem index_never_misses ops key m r :
  Forall key_op_ok ops → (insertions ops ≤ new_capacity)%nat →
  usable key = true → key_cube (sk_argument key) →
  (length (foldl spec_op [] ops) < m)%nat →
  r ∈ foldl spec_op [] ops → sql_operator (sk_strategy key) (row_key r) (sk_argument key) = true →
  ∃ s0 s out scan,
    temporal_rtree_buildempty (mkRel [] true []) = (s0, Ok ()) ∧ run_ops s0 ops = (s, Ok ()) ∧
    run_scan m s [key] = Ok (out, scan) ∧ (row_tid r, false) ∈ out.
Proof.
  intros Hops Hcap Hu Hq Hm Hr Hsql. destruct am_buildempty_ok as (s0 & E0 & H0).
  destruct (run_ops_ok ops s0 0 []) as (s & Es & Hs).
  - eapply am_holds_le; [|exact H0]. rewrite Nat.add_0_r. exact Hcap.
  - eapply Forall_impl; [exact Hops|]. intros [[k|] tid|cb st]; try done. by intros [? _].
  - destruct (am_scan_ok s 0 _ [key] key m Hs) as (out & scan & Eo & Ho); [cbn; by rewrite Hu|done|].
    exists s0, s, out, scan. split_and!; [exact E0|exact Es|exact Eo|]. rewrite Ho.
    apply list_elem_of_fmap. exists r. split; [done|]. apply list_elem_of_filter. split; [|done].
    pose proof (history_key_cubes ops [] Hops (Forall_nil_2 _)) as HK. rewrite Forall_forall in HK.
    by apply match_complete; [apply usable_strategy|apply HK|..].
Qed.

End refine.

(** * Witnesses *)

(** Two rows and a null key are inserted and one row is vacuumed away. *)
Definition demo_ops : list op :=
  [OpInsert (Some (temporalbox 10 1577836800 None)) (ItemPointerSet 0 1);
   OpInsert None (ItemPointerSet 0 2);
   OpInsert (Some (temporalbox 10 1577836800 (Some 1600000001))) (ItemPointerSet 0 3);
   OpBulkDelete (Some (λ tid, ip_posid tid =? 3)) None].

(** Executable test for [sql_key], on whole seconds. *)
Lemma temporalbox_sql_key attr t1 t2 :
  key_cubeb (temporalbox attr t1 t2) = true → Z.abs attr < 2 ^ 53 → Z.abs t1 < 2 ^ 53 →
  match t2 with Some t2 => Z.abs t2 < 2 ^ 53 | None => True end →
  x (temporalbox attr t1 t2) = [i2d attr; i2d t1; i2d attr; match t2 with Some t2 => i2d t2 | None => dinf end] →
  vl_size (temporalbox attr t1 t2) = CUBE_SIZE 2 → IS_POINT (temporalbox attr t1 t2) = false →
  DIM (temporalbox attr t1 t2) = 2 →
  sval (i2d t1) < sval (match t2 with Some t2 => i2d t2 | None => dinf end) →
  sql_key (temporalbox attr t1 t2).
Proof.
  intros Hk Ha H1 H2 Hx Hs Hp Hd Hlt. revert Hk Hx Hs Hp Hd. generalize (temporalbox attr t1 t2). intros c Hk Hx Hs Hp Hd.
  unfold sql_key, exact_cube, LL_COORD, UR_COORD, coord, dimn. rewrite Hp, Hx, Hd.
  change (Z.to_nat 2) with 2%nat. cbn [Nat.add lookup list_lookup default].
  split_and!; [by apply key_cubeb_sound|by apply exact_i2d..| |done|by right].
  destruct t2; [by apply exact_i2d|apply (exact_inf false)].
Qed.

Lemma demo_ops_ok : Forall sql_op_ok demo_ops.
Proof.
  unfold demo_ops. rewrite !Forall_cons, Forall_nil. cbn [sql_op_ok].
  refine (conj _ (conj I (conj _ (conj I I)))); apply temporalbox_sql_key; vm_compute; easy.
Qed.

Lemma index_answers_sql_witness :
  ∃ s0 s out scan,
    temporal_rtree_buildempty (mkRel [] true []) = (s0, Ok ()) ∧
    run_ops s0 demo_ops = (s, Ok ()) ∧
    run_scan 2 s [demo_key] = Ok (out, scan) ∧ out ≡ₚ [(ItemPointerSet 0 1, false)].
Proof.
  destruct (index_answers_sql demo_ops demo_key 2) as (s0 & s & out & scan & E0 & E1 & E2 & HP).
  - exact demo_ops_ok.
  - apply Nat.leb_le. vm_compute. reflexivity.
  - reflexivity.
  - apply key_cubeb_sound. vm_compute. reflexivity.
  - split_and!; [apply exact_i2d; reflexivity..].
  - apply Nat.ltb_lt. vm_compute. reflexivity.
  - exists s0, s, out, scan. split_and!; [exact E0|exact E1|exact E2|exact HP].
Defined.

Lemma index_never_misses_witness :
  ∃ s0 s out scan,
    temporal_rtree_buildempty (mkRel [] true []) = (s0, Ok ()) ∧ run_ops s0 demo_ops = (s, Ok ()) ∧
    run_scan 2 s [demo_key] = Ok (out, scan) ∧ (ItemPointerSet 0 1, false) ∈ out.
Proof.
  apply (index_never_misses demo_ops demo_key 2 (mkRow (temporalbox 10 1577836800 None) (ItemPointerSet 0 1))).
  - unfold demo_ops. rewrite !Forall_cons, Forall_nil. cbn [key_op_ok].
    refine (conj (conj _ _) (conj I (conj (conj _ _) (conj I I))));
      (apply good_keyb_sound || apply key_cubeb_sound); vm_compute; reflexivity.
  - apply Nat.leb_le. vm_compute. reflexivity.
  - reflexivity.
  - apply key_cubeb_sound. vm_compute. reflexivity.
  - apply Nat.ltb_lt. vm_compute. reflexivity.
  - apply (list_elem_of_lookup_2 _ 0). vm_compute. reflexivity.
  - vm_compute. reflexivity.
Defined.
