(* ===== verification/Build.v ===== *)
(** temporal_rtree_build.c: building an index over the rows of a table.

    [table_index_build_scan] belongs to the table's access method: it is represented by
    the rows it hands to the callback, in order, and the count it returns. *)

From S2P Require Import Prelude Float64 Cube Box Split Bufpage Itup Store Insert Tree Index Search Scan Vacuum Prune Am Refine.

(** What the callback receives for one row; [None] is a null key. *)
Record HeapRow : Type := mkHeapRow {
  heap_tid : ItemPointerData;
  heap_value : option NDBOX;
  tupleIsAlive : bool;
}.

Record RTreeBuildState : Type := mkBuildState { indexTuples : Z }.

Record IndexBuildResult : Type := mkBuildResult { heap_tuples : Z; index_tuples : Z }.

Section build.
Context `{Platform}.

Definition rtree_build_callback (state : RTreeBuildState) (row : HeapRow) : M RTreeBuildState :=
  inserted ← temporal_rtree_insert (heap_value row) (heap_tid row);
  mret (if inserted : bool then mkBuildState (indexTuples state + 1) else state).

Definition temporal_rtree_build (rows : list HeapRow) (reltuples : Z) : M IndexBuildResult :=
  rtree_meta_and_root_init;;
  state ← for_each rtree_build_callback rows (mkBuildState 0);
  mret {| heap_tuples := reltuples; index_tuples := indexTuples state |}.

(** The rows of the table with a key. *)
Definition keyed (row : HeapRow) : option Row :=
  match heap_value row with None => None | Some key => Some (mkRow key (heap_tid row)) end.
Definition keyed_rows (rows : list HeapRow) : list Row := omap keyed rows.

Definition heap_row_ok (row : HeapRow) : Prop :=
  match heap_value row with None => True | Some key => good_key key end.

Lemma callbacks_run rows s n held k :
  am_holds s (length rows + n) held → Forall heap_row_ok rows →
  ∃ s', for_each rtree_build_callback rows (mkBuildState k) s = (s', Ok (mkBuildState (k + zlen rows))) ∧
        am_holds s' n (reverse (keyed_rows rows) ++ held).
Proof.
  intros Hs HF. revert s held k Hs. induction HF as [|row rows Hrow _ IH]; intros s held k Hs.
  - exists s. cbn. by rewrite Z.add_0_r.
  - assert (Hz : zlen (row :: rows) = 1 + zlen rows) by (unfold zlen; cbn; lia).
    assert (∃ s1, rtree_build_callback (mkBuildState k) row s = (s1, Ok (mkBuildState (k + 1))) ∧
                  am_holds s1 (length rows + n) (reverse (keyed_rows [row]) ++ held)) as (s1 & E1 & H1).
    { unfold rtree_build_callback, heap_row_ok, keyed_rows, keyed in *. cbn [omap list_omap].
      destruct (heap_value row) as [key|].
      - destruct (am_insert_ok s (length rows + n) held key (heap_tid row) Hs Hrow) as (s1 & E1 & H1).
        exists s1. erewrite bind_run by (exact E1). done.
      - pose proof (am_insert_null s _ held (heap_tid row) Hs) as E1.
        exists s. erewrite bind_run by (exact E1). split; [done|].
        eapply am_holds_le; [|exact Hs]. cbn. lia. }
    destruct (IH s1 _ (k + 1) H1) as (s2 & E2 & H2). exists s2. cbn [for_each].
    erewrite bind_run by (exact E1). rewrite E2. split; [by rewrite Hz, Z.add_assoc|]. clear -H2.
    revert H2. unfold keyed_rows. cbn [omap list_omap]. destruct (keyed row); [|done].
    by rewrite (reverse_cons (omap keyed rows)), <- app_assoc.
Qed.

Lemma build_run rows reltuples :
  Forall heap_row_ok rows → (length rows ≤ new_capacity)%nat →
  ∃ s, temporal_rtree_build rows reltuples (mkRel [] true []) =
         (s, Ok {| heap_tuples := reltuples; index_tuples := zlen rows |}) ∧
       am_holds s (new_capacity - length rows) (keyed_rows rows).
Proof.
  intros HF Hcap. destruct am_buildempty_ok as (s0 & E0 & H0).
  destruct (callbacks_run rows s0 (new_capacity - length rows) [] 0) as (s & E & Hs); [|done|].
  - replace (length rows + (new_capacity - length rows))%nat with new_capacity by lia. exact H0.
  - exists s. split.
    + unfold temporal_rtree_build. erewrite bind_run by (exact E0). erewrite bind_run by (exact E). done.
    + rewrite app_nil_r in Hs. by rewrite reverse_Permutation in Hs.
Qed.

Lemma keyed_rows_length rows : (length (keyed_rows rows) ≤ length rows)%nat.
Proof.
  unfold keyed_rows. induction rows as [|r rows IH]; [done|]. cbn [omap list_omap length].
  destruct (keyed r); cbn [length]; lia.
Qed.

Lemma keyed_rows_Forall (P : NDBOX → Prop) rows :
  Forall (λ r, match heap_value r with None => True | Some k => P k end) rows →
  Forall (λ r, P (row_key r)) (keyed_rows rows).
Proof.
  induction 1 as [|r rows Hr _ IH]; [constructor|]. unfold keyed_rows, keyed in *. cbn [omap list_omap].
  destruct (heap_value r); [by constructor|done].
Qed.

(** C10. Building an index over a table of up to 65534 rows, with keys that are null or boxes in
    range with some extent, succeeds and leaves an index
    that holds exactly the rows with a key.  The count it reports for the index is the
    number of rows of the table: rows with a null key are counted although they are not
    indexed. *)
Theorem build_indexes_table rows reltuples :
  Forall heap_row_ok rows → (length rows ≤ new_capacity)%nat →
  ∃ s, temporal_rtree_build rows reltuples (mkRel [] true []) =
         (s, Ok {| heap_tuples := reltuples; index_tuples := zlen rows |}) ∧
       am_holds s (new_capacity - length rows) (keyed_rows rows).
Proof. apply build_run. Qed.

End build.

Lemma build_indexes_table_witness :
  let rows := [mkHeapRow (ItemPointerSet 0 1) (Some (temporalbox 10 1577836800 None)) true;
               mkHeapRow (ItemPointerSet 0 2) None true] in
  ∃ s, temporal_rtree_build rows 2 (mkRel [] true []) =
         (s, Ok {| heap_tuples := 2; index_tuples := 2 |}) ∧
       am_holds s (new_capacity - 2) [mkRow (temporalbox 10 1577836800 None) (ItemPointerSet 0 1)].
Proof.
  intros rows. apply (build_indexes_table rows 2).
  - unfold rows. rewrite !Forall_cons, Forall_nil. cbn [heap_row_ok heap_value].
    refine (conj _ (conj I I)). apply good_keyb_sound. vm_compute. reflexivity.
  - apply Nat.leb_le. vm_compute. reflexivity.
Defined.
