(* ===== verification/GenericXLog.v ===== *)
(** generic_xlog.c with what it uses of xloginsert.c, xlogutils.c and xlogreader.c:
    page deltas, the record built from them, and its replay.

    Here a page is its [BLCKSZ] bytes, and the header fields are read from and
    written to them (little endian, as on the platforms with 16-bit fields in that
    order).  A buffer is identified with the block it holds, so that the pool of
    shared buffers and the pages found at recovery are both maps from buffers to
    pages.  [delta] holds the first [deltaLen] bytes of the array of that name.
    Page images are logged uncompressed ([wal_compression = off], the default). *)

From S2P Require Import Prelude Bufpage.

(** * Bytes *)

Abbreviation bytes := (list Z).

Definition byte_at (p : bytes) (i : Z) : Z := default 0 (p !! Z.to_nat i).

(** [length] bytes from [off]. *)
Definition slice (p : bytes) (off length : Z) : bytes :=
  take (Z.to_nat length) (drop (Z.to_nat off) p).

(** [memcpy(page + off, data, n)]; outside the page it has no meaning. *)
Definition memcpy (p : bytes) (off : Z) (data : bytes) : result bytes :=
  if (off <? 0) || (zlen p <? off + zlen data) then Err (Undefined "memcpy out of range")
  else Ok (take (Z.to_nat off) p ++ data ++ drop (Z.to_nat (off + zlen data)) p).

(** [memset(page + off, 0, n)]. *)
Definition memzero (p : bytes) (off n : Z) : result bytes :=
  if n <? 0 then Err (Undefined "memset with a negative length")
  else memcpy p off (replicate (Z.to_nat n) 0).

Definition get16 (p : bytes) (off : Z) : Z := byte_at p off + 256 * byte_at p (off + 1).
Definition put16 (z : Z) : bytes := [z mod 256; z / 256 mod 256].
Definition get32 (p : bytes) (off : Z) : Z := get16 p off + 2 ^ 16 * get16 p (off + 2).
Definition put32 (z : Z) : bytes := put16 (z mod 2 ^ 16) ++ put16 (z / 2 ^ 16 mod 2 ^ 16).

(** The fields of [PageHeaderData] at their offsets. *)
Definition pd_lower_at (p : bytes) : Z := get16 p 12.
Definition pd_upper_at (p : bytes) : Z := get16 p 14.
Definition PageGetLSN (p : bytes) : Z := Z.lor (Z.shiftl (get32 p 0) 32) (get32 p 4).
Definition PageSetLSN (p : bytes) (lsn : Z) : result bytes :=
  p ← memcpy p 0 (put32 (uint32 (Z.shiftr lsn 32))); memcpy p 4 (put32 (uint32 lsn)).
Definition bytes_new (p : bytes) : bool := pd_upper_at p =? 0.

(** * Deltas *)

Definition FRAGMENT_HEADER_SIZE : Z := 4.
Definition MATCH_THRESHOLD : Z := FRAGMENT_HEADER_SIZE.
Definition MAX_DELTA_SIZE : Z := BLCKSZ + 2 * FRAGMENT_HEADER_SIZE.

Definition writeFragment (delta : bytes) (offset length : Z) (data : bytes) : result bytes :=
  let offset := uint16 offset in
  let length := uint16 length in
  if MAX_DELTA_SIZE <? zlen delta + 2 + 2 + length then Err (Undefined "delta array overrun")
  else if zlen data <? length then Err (Undefined "read past the page")
  else Ok (delta ++ put16 offset ++ put16 length ++ slice data 0 length).

Section delta.
Context (curpage targetpage : bytes).

Definition differs (i : Z) : bool := negb (byte_at curpage i =? byte_at targetpage i).

(** The tight loops: the first index from [i] on where the bytes stop to differ
    ([d = true]) or to match ([d = false]), or [loopEnd]. *)
Fixpoint extend (d : bool) (fuel : nat) (i loopEnd : Z) : Z :=
  match fuel with
  | O => i
  | S fuel => if (i <? loopEnd) && eqb (differs i) d then extend d fuel (i + 1) loopEnd else i
  end.

Definition extend_to (d : bool) (i loopEnd : Z) : Z := extend d (Z.to_nat (loopEnd - i)) i loopEnd.

(** The main loop, returning [fragmentBegin], [fragmentEnd] and the delta. *)
Fixpoint region_loop (fuel : nat) (loopEnd i fragmentBegin fragmentEnd : Z) (delta : bytes) :
    result (Z * Z * bytes) :=
  match fuel with
  | O => Err OutOfFuel
  | S fuel =>
    if i <? loopEnd then
      let '(i, fragmentBegin, fragmentEnd) :=
        if differs i then
          (extend_to true (i + 1) loopEnd, if fragmentBegin <? 0 then i else fragmentBegin, -1)
        else (i, fragmentBegin, fragmentEnd) in
      if loopEnd <=? i then Ok (fragmentBegin, fragmentEnd, delta)
      else
        let fragmentEnd := i in
        let i := extend_to false (i + 1) loopEnd in
        if (0 <=? fragmentBegin) && (MATCH_THRESHOLD <? i - fragmentEnd) then
          delta ← writeFragment delta fragmentBegin (fragmentEnd - fragmentBegin)
                    (drop (Z.to_nat fragmentBegin) targetpage);
          region_loop fuel loopEnd i (-1) (-1) delta
        else region_loop fuel loopEnd i fragmentBegin fragmentEnd delta
    else Ok (fragmentBegin, fragmentEnd, delta)
  end.

Definition computeRegionDelta (delta : bytes) (targetStart targetEnd validStart validEnd : Z) :
    result bytes :=
  let '(fragmentBegin, targetStart) :=
    if targetStart <? validStart then (targetStart, validStart) else (-1, targetStart) in
  let loopEnd := Z.min targetEnd validEnd in
  '(fragmentBegin, fragmentEnd, delta) ←
    region_loop (S (Z.to_nat (loopEnd - targetStart))) loopEnd targetStart fragmentBegin (-1) delta;
  let '(fragmentBegin, fragmentEnd) :=
    if loopEnd <? targetEnd then
      (if fragmentBegin <? 0 then loopEnd else fragmentBegin, targetEnd)
    else (fragmentBegin, fragmentEnd) in
  if 0 <=? fragmentBegin then
    let fragmentEnd := if fragmentEnd <? 0 then targetEnd else fragmentEnd in
    writeFragment delta fragmentBegin (fragmentEnd - fragmentBegin)
      (drop (Z.to_nat fragmentBegin) targetpage)
  else Ok delta.

Definition computeDelta : result bytes :=
  delta ← computeRegionDelta [] 0 (pd_lower_at targetpage) 0 (pd_lower_at curpage);
  computeRegionDelta delta (pd_upper_at targetpage) BLCKSZ (pd_upper_at curpage) BLCKSZ.

End delta.

(** [applyPageRedo]: every turn consumes a fragment header, so the length of the
    delta bounds the number of turns. *)
Fixpoint apply_fragments (fuel : nat) (page delta : bytes) : result bytes :=
  match delta with
  | [] => Ok page
  | _ =>
    match fuel with
    | O => Err OutOfFuel
    | S fuel =>
      let offset := get16 delta 0 in
      let length := get16 delta 2 in
      if zlen delta <? 4 + length then Err (Undefined "read past the delta")
      else
        page ← memcpy page offset (slice delta 4 length);
        apply_fragments fuel page (drop (Z.to_nat (4 + length)) delta)
    end
  end.

Definition applyPageRedo (page delta : bytes) : result bytes :=
  apply_fragments (length delta) page delta.

(** * Building a record *)

Definition MAX_GENERIC_XLOG_PAGES : nat := 4.
Definition InvalidBuffer : Z := 0.
Definition GENERIC_XLOG_FULL_IMAGE : Z := 0x0001.

(** The delta is computed and handed on in [GenericXLogFinish] only. *)
Record PageData : Type := mkPageData { buffer : Z; page_flags : Z; image : bytes }.

Record GenericXLogState : Type := mkXLogState { pages : list PageData; isLogged : bool }.

Abbreviation pool := (gmap Z bytes).

Definition GenericXLogStart (relation_needs_wal : bool) : GenericXLogState :=
  {| pages := replicate MAX_GENERIC_XLOG_PAGES
                {| buffer := InvalidBuffer; page_flags := 0; image := [] |};
     isLogged := relation_needs_wal |}.

(** [BufferGetPage] of a pinned buffer. *)
Definition BufferGetPage (m : pool) (b : Z) : result bytes := some_or "invalid buffer" (m !! b).

(** The search for an entry: the slots after it and its number. *)
Fixpoint register_slot (m : pool) (b flags : Z) (slots : list PageData) :
    result (nat * list PageData) :=
  match slots with
  | [] => Err (Elog "maximum number 4 of generic xlog buffers is exceeded")
  | page :: slots =>
    if buffer page =? InvalidBuffer then
      p ← BufferGetPage m b;
      Ok (0%nat, {| buffer := b; page_flags := flags; image := p |} :: slots)
    else if buffer page =? b then Ok (0%nat, page :: slots)
    else '(n, slots) ← register_slot m b flags slots; Ok (S n, page :: slots)
  end.

(** Returns the slot whose image the caller may modify. *)
Definition GenericXLogRegisterBuffer (m : pool) (state : GenericXLogState) (b flags : Z) :
    result (nat * GenericXLogState) :=
  '(n, slots) ← register_slot m b flags (pages state);
  Ok (n, {| pages := slots; isLogged := isLogged state |}).

(** The caller's changes to the image it was handed. *)
Definition modify_image (n : nat) (f : bytes → bytes) (state : GenericXLogState) : GenericXLogState :=
  {| pages := alter (λ pd, {| buffer := buffer pd; page_flags := page_flags pd; image := f (image pd) |})
                n (pages state);
     isLogged := isLogged state |}.

(** * xloginsert.c *)

Definition REGBUF_FORCE_IMAGE : Z := 0x01.
Definition REGBUF_NO_IMAGE : Z := 0x02.
Definition REGBUF_STANDARD : Z := 0x08.
Definition REGBUF_KEEP_DATA : Z := 0x10.
Definition UINT16_MAX : Z := 65535.

(** A [registered_buffer]: the block, the flags and the bytes of its data chain. *)
Record registered_buffer : Type := mkRegBuf { rb_buffer : Z; rb_flags : Z; rb_data : bytes }.

Definition XLogRegisterBuffer (b flags : Z) : registered_buffer :=
  {| rb_buffer := b; rb_flags := flags; rb_data := [] |}.

Definition XLogRegisterBufData (r : registered_buffer) (data : bytes) : result registered_buffer :=
  if UINT16_MAX <? zlen (rb_data r) + zlen data then Err (Elog "too much WAL data")
  else Ok {| rb_buffer := rb_buffer r; rb_flags := rb_flags r; rb_data := rb_data r ++ data |}.

(** A block reference of a record, as the reader decodes it. *)
Record DecodedBkpBlock : Type := mkBkpBlock {
  bk_buffer : Z;
  has_image : bool;
  apply_image : bool;
  hole_offset : Z;
  hole_length : Z;
  bkp_image : bytes;
  has_data : bool;
  bk_data : bytes;
}.

Section insert.
(** The redo pointer, [full_page_writes] and [wal_consistency_checking] at the
    time of the insertion, and the end of the record in the log. *)
Context (RedoRecPtr : Z) (doPageWrites check_consistency : bool) (lsn : Z).

Definition needs_backup (page : bytes) (flags : Z) : bool :=
  if has_flag flags REGBUF_FORCE_IMAGE then true
  else if has_flag flags REGBUF_NO_IMAGE then false
  else if negb doPageWrites then false
  else PageGetLSN page <=? RedoRecPtr.

Definition hole_of (page : bytes) (flags : Z) : Z * Z :=
  if has_flag flags REGBUF_STANDARD then
    let lower := pd_lower_at page in
    let upper := pd_upper_at page in
    if (SizeOfPageHeaderData <=? lower) && (lower <? upper) && (upper <=? BLCKSZ)
    then (lower, upper - lower) else (0, 0)
  else (0, 0).

(** The bytes of the page image, without the hole. *)
Definition image_data (page : bytes) (hole_offset hole_length : Z) : bytes :=
  if hole_length =? 0 then page
  else slice page 0 hole_offset ++
       slice page (hole_offset + hole_length) (BLCKSZ - (hole_offset + hole_length)).

(** The part of [XLogRecordAssemble] for one registered block. *)
Definition assemble_block (m : pool) (r : registered_buffer) : result DecodedBkpBlock :=
  page ← BufferGetPage m (rb_buffer r);
  let backup := needs_backup page (rb_flags r) in
  let needs_data := if zlen (rb_data r) =? 0 then false
                    else if has_flag (rb_flags r) REGBUF_KEEP_DATA then true else negb backup in
  let include_image := backup || check_consistency in
  let '(off, len) := hole_of page (rb_flags r) in
  Ok {| bk_buffer := rb_buffer r; has_image := include_image;
        apply_image := include_image && backup;
        hole_offset := if include_image then off else 0;
        hole_length := if include_image then len else 0;
        bkp_image := if include_image then image_data page off len else [];
        has_data := needs_data;
        bk_data := if needs_data then rb_data r else [] |}.

Definition XLogRecordAssemble (m : pool) (rs : list registered_buffer) :
    result (list DecodedBkpBlock) :=
  foldr (λ r acc, blk ← assemble_block m r; blks ← acc; Ok (blk :: blks)) (Ok []) rs.

(** * GenericXLogFinish *)

(** Copying the image to the buffer with the hole zeroed. *)
Definition write_image (page img : bytes) : result bytes :=
  let lower := pd_lower_at img in
  let upper := pd_upper_at img in
  page ← memcpy page 0 (slice img 0 lower);
  page ← memzero page lower (upper - lower);
  memcpy page upper (slice img upper (BLCKSZ - upper)).

Fixpoint finish_pages (m : pool) (slots : list PageData) : result (pool * list registered_buffer) :=
  match slots with
  | [] => Ok (m, [])
  | pd :: slots =>
    if buffer pd =? InvalidBuffer then finish_pages m slots
    else
      page ← BufferGetPage m (buffer pd);
      let full := has_flag (page_flags pd) GENERIC_XLOG_FULL_IMAGE in
      delta ← (if full then Ok [] else computeDelta page (image pd));
      page ← write_image page (image pd);
      r ← (if full
           then Ok (XLogRegisterBuffer (buffer pd) (Z.lor REGBUF_FORCE_IMAGE REGBUF_STANDARD))
           else XLogRegisterBufData (XLogRegisterBuffer (buffer pd) REGBUF_STANDARD) delta);
      '(m, rs) ← finish_pages (<[buffer pd := page]> m) slots;
      Ok (m, r :: rs)
  end.

Fixpoint set_lsns (m : pool) (slots : list PageData) : result pool :=
  match slots with
  | [] => Ok m
  | pd :: slots =>
    if buffer pd =? InvalidBuffer then set_lsns m slots
    else
      page ← BufferGetPage m (buffer pd);
      page ← PageSetLSN page lsn;
      set_lsns (<[buffer pd := page]> m) slots
  end.

(** The unlogged branch: the images as they are. *)
Definition copy_images (m : pool) (slots : list PageData) : pool :=
  foldl (λ m pd, if buffer pd =? InvalidBuffer then m else <[buffer pd := image pd]> m) m slots.

(** The buffers after it, and the record unless the relation is unlogged. *)
Definition GenericXLogFinish (m : pool) (state : GenericXLogState) :
    result (pool * option (list DecodedBkpBlock)) :=
  if isLogged state then
    '(m, rs) ← finish_pages m (pages state);
    record ← XLogRecordAssemble m rs;
    m ← set_lsns m (pages state);
    Ok (m, Some record)
  else Ok (copy_images m (pages state), None).

(** * Replay *)

Inductive XLogRedoAction : Type := BLK_NEEDS_REDO | BLK_DONE | BLK_RESTORED | BLK_NOTFOUND.

Definition RestoreBlockImage (blk : DecodedBkpBlock) (page : bytes) : result bytes :=
  if negb (has_image blk) then Err (Elog "could not restore image with invalid state")
  else
    let ptr := bkp_image blk in
    if hole_length blk =? 0 then memcpy page 0 (slice ptr 0 BLCKSZ)
    else
      page ← memcpy page 0 (slice ptr 0 (hole_offset blk));
      page ← memzero page (hole_offset blk) (hole_length blk);
      memcpy page (hole_offset blk + hole_length blk)
        (slice ptr (hole_offset blk) (BLCKSZ - (hole_offset blk + hole_length blk))).

(** [RBM_ZERO_AND_LOCK] hands out a zeroed page whether the block exists or not;
    [RBM_NORMAL] finds no block that is missing or new. *)
Definition XLogReadBufferForRedo (m : pool) (blk : DecodedBkpBlock) : result (pool * XLogRedoAction) :=
  if apply_image blk then
    page ← RestoreBlockImage blk (replicate (Z.to_nat BLCKSZ) 0);
    page ← (if bytes_new page then Ok page else PageSetLSN page lsn);
    Ok (<[bk_buffer blk := page]> m, BLK_RESTORED)
  else
    match m !! bk_buffer blk with
    | None => Ok (m, BLK_NOTFOUND)
    | Some page =>
      if bytes_new page then Ok (m, BLK_NOTFOUND)
      else if lsn <=? PageGetLSN page then Ok (m, BLK_DONE) else Ok (m, BLK_NEEDS_REDO)
    end.

Definition redo_block (m : pool) (blk : DecodedBkpBlock) : result pool :=
  '(m, action) ← XLogReadBufferForRedo m blk;
  match action with
  | BLK_NEEDS_REDO =>
    page ← BufferGetPage m (bk_buffer blk);
    page ← applyPageRedo page (bk_data blk);
    page ← memzero page (pd_lower_at page) (pd_upper_at page - pd_lower_at page);
    page ← PageSetLSN page lsn;
    Ok (<[bk_buffer blk := page]> m)
  | _ => Ok m
  end.

Definition generic_redo (m : pool) (record : list DecodedBkpBlock) : result pool :=
  foldl (λ acc blk, m ← acc; redo_block m blk) (Ok m) record.

End insert.

(** * Bytes: lemmas *)

Lemma memcpy_ok p off data :
  0 ≤ off → off + zlen data ≤ zlen p → ∃ q, memcpy p off data = Ok q ∧ zlen q = zlen p ∧
    ∀ i, 0 ≤ i → byte_at q i = if (off <=? i) && (i <? off + zlen data) then byte_at data (i - off)
                               else byte_at p i.
Proof.
  intros H0 Hl. unfold memcpy. destruct (Z.ltb_spec off 0); [lia|].
  destruct (Z.ltb_spec (zlen p) (off + zlen data)); [lia|]. cbn [orb].
  eexists. split; [done|]. unfold zlen in *. split.
  - rewrite !length_app, length_take, length_drop. lia.
  - intros i Hi. unfold byte_at. destruct (Z.leb_spec off i); cbn [andb].
    + rewrite lookup_app_r by (rewrite length_take; lia). rewrite length_take, Nat.min_l by lia.
      destruct (Z.ltb_spec i (off + Z.of_nat (length data))).
      * rewrite lookup_app_l by lia. do 2 f_equal. lia.
      * rewrite lookup_app_r, lookup_drop by lia. do 2 f_equal. lia.
    + rewrite lookup_app_l by (rewrite length_take; lia). rewrite lookup_take.
      destruct (decide _); [done|lia].
Qed.

Lemma bytes_ext p q :
  zlen p = zlen q → (∀ i, 0 ≤ i < zlen p → byte_at p i = byte_at q i) → p = q.
Proof.
  unfold zlen, byte_at. intros Hl H. apply (list_eq_same_length _ _ (length q)); [done|lia|].
  intros i x y Hi Hx Hy. specialize (H (Z.of_nat i)). rewrite Nat2Z.id, Hx, Hy in H. apply H. lia.
Qed.

Lemma zlen_slice p o l : 0 ≤ o → 0 ≤ l → o + l ≤ zlen p → zlen (slice p o l) = l.
Proof. unfold zlen, slice. intros. rewrite length_take, length_drop. lia. Qed.

Lemma byte_at_slice p o l i : 0 ≤ o → 0 ≤ i < l → byte_at (slice p o l) i = byte_at p (o + i).
Proof.
  unfold byte_at, slice. intros. rewrite lookup_take. destruct (decide _); [|lia].
  rewrite lookup_drop. do 2 f_equal. lia.
Qed.

Lemma byte_at_app_l p q i : 0 ≤ i < zlen p → byte_at (p ++ q) i = byte_at p i.
Proof. unfold byte_at, zlen. intros. rewrite lookup_app_l by lia. done. Qed.

Lemma byte_at_app_r p q i : zlen p ≤ i → byte_at (p ++ q) i = byte_at q (i - zlen p).
Proof. unfold byte_at, zlen. intros. rewrite lookup_app_r by lia. do 2 f_equal. lia. Qed.

Lemma byte_at_zeros n i : byte_at (replicate n 0) i = 0.
Proof.
  unfold byte_at. destruct (replicate n 0 !! Z.to_nat i) eqn:E; [|done].
  by apply lookup_replicate in E as [-> _].
Qed.

Lemma get16_two a b l : get16 (a :: b :: l) 0 = a + 256 * b.
Proof. done. Qed.

Lemma put16_value z : 0 ≤ z < 2 ^ 16 → z mod 256 + 256 * (z / 256 mod 256) = z.
Proof.
  intros Hz. rewrite (Z.mod_small (z / 256)).
  - pose proof (Z.div_mod z 256). lia.
  - split; [apply Z.div_pos; lia|]. apply Z.div_lt_upper_bound; lia.
Qed.

Lemma get16_put16 z rest : 0 ≤ z < 2 ^ 16 → get16 (put16 z ++ rest) 0 = z.
Proof. intros Hz. unfold put16. cbn [app]. rewrite get16_two. by apply put16_value. Qed.

Lemma zlen_put16 z : zlen (put16 z) = 2.
Proof. done. Qed.

(** * Fragments

    A delta written by [writeFragment] is the encoding of a list of page regions
    with the bytes the target page has there. *)

Section fragments.
Context (t : bytes) (Ht : zlen t = BLCKSZ).
Implicit Types (fr : Z * Z) (frs : list (Z * Z)).

Definition encode_fragment (fr : Z * Z) : bytes :=
  put16 fr.1 ++ put16 fr.2 ++ slice t fr.1 fr.2.
Definition encode (frs : list (Z * Z)) : bytes := concat (map encode_fragment frs).

Definition fragment_in (lo hi : Z) (fr : Z * Z) : Prop := lo ≤ fr.1 ∧ 0 ≤ fr.2 ∧ fr.1 + fr.2 ≤ hi.
Definition covered (frs : list (Z * Z)) (i : Z) : bool :=
  existsb (λ fr, (fr.1 <=? i) && (i <? fr.1 + fr.2)) frs.
Definition delta_size (frs : list (Z * Z)) : Z := zsum (λ fr, FRAGMENT_HEADER_SIZE + fr.2) frs.

Lemma encode_app frs1 frs2 : encode (frs1 ++ frs2) = encode frs1 ++ encode frs2.
Proof. unfold encode. by rewrite map_app, concat_app. Qed.

Lemma covered_app frs1 frs2 i : covered (frs1 ++ frs2) i = covered frs1 i || covered frs2 i.
Proof. apply existsb_app. Qed.

Lemma zlen_encode frs lo hi :
  0 ≤ lo → hi ≤ BLCKSZ → Forall (fragment_in lo hi) frs → zlen (encode frs) = delta_size frs.
Proof.
  intros Hlo Hhi. induction 1 as [|fr frs (?&?&?) _ IH]; [done|].
  change (encode (fr :: frs)) with (encode_fragment fr ++ encode frs).
  rewrite zlen_app, IH. unfold encode_fragment. rewrite !zlen_app, zlen_slice by lia.
  unfold delta_size. rewrite zsum_cons. unfold FRAGMENT_HEADER_SIZE. rewrite !zlen_put16. lia.
Qed.

Lemma writeFragment_ok delta o l :
  0 ≤ o → 0 ≤ l → o + l ≤ BLCKSZ → zlen delta + 4 + l ≤ MAX_DELTA_SIZE →
  writeFragment delta o l (drop (Z.to_nat o) t) = Ok (delta ++ encode [(o, l)]).
Proof.
  intros Ho Hl Hol Hs. unfold writeFragment, BLCKSZ in *. rewrite !uint16_id by lia.
  destruct (Z.ltb_spec MAX_DELTA_SIZE (zlen delta + 2 + 2 + l)); [lia|].
  destruct (Z.ltb_spec (zlen (drop (Z.to_nat o) t)) l) as [Hx|_].
  - unfold zlen in Hx, Ht. rewrite length_drop in Hx. lia.
  - unfold encode, encode_fragment, slice. cbn [map concat]. by rewrite app_nil_r.
Qed.

(** Applying a delta writes the target's bytes in the covered regions. *)
Lemma apply_encode frs fuel p :
  zlen p = BLCKSZ → Forall (fragment_in 0 BLCKSZ) frs → (length frs ≤ fuel)%nat →
  ∃ q, apply_fragments fuel p (encode frs) = Ok q ∧ zlen q = BLCKSZ ∧
    ∀ i, 0 ≤ i → byte_at q i = if covered frs i then byte_at t i else byte_at p i.
Proof.
  intros Hp HF. revert fuel p Hp. induction HF as [|[o l] frs (Ho & Hl & Hol) HF IH]; intros fuel p Hp Hf.
  { exists p. split; [by destruct fuel|done]. }
  destruct fuel as [|fuel]; [cbn in Hf; lia|]. cbn [fst snd] in *.
  assert (Henc : encode ((o, l) :: frs) = put16 o ++ put16 l ++ slice t o l ++ encode frs).
  { unfold encode. cbn [map concat]. unfold encode_fragment. cbn [fst snd]. by rewrite <- !app_assoc. }
  assert (HB : BLCKSZ = 8192) by done.
  assert (Hsl : zlen (slice t o l) = l) by (apply zlen_slice; lia).
  assert (Hd0 : get16 (encode ((o, l) :: frs)) 0 = o) by (rewrite Henc; apply get16_put16; lia).
  assert (Hd2 : get16 (encode ((o, l) :: frs)) 2 = l).
  { rewrite Henc. change (get16 (put16 l ++ slice t o l ++ encode frs) 0 = l). apply get16_put16. lia. }
  assert (Hdl : slice (encode ((o, l) :: frs)) 4 l = slice t o l).
  { rewrite Henc. unfold slice at 1.
    change (drop (Z.to_nat 4) _) with (slice t o l ++ encode frs).
    rewrite take_app_le, take_ge; [done| |]; unfold zlen in Hsl; lia. }
  assert (Hdr : drop (Z.to_nat (4 + l)) (encode ((o, l) :: frs)) = encode frs).
  { rewrite Henc. rewrite !app_assoc. rewrite drop_app_length'; [done|].
    rewrite !length_app. unfold zlen in Hsl. cbn [put16 length]. lia. }
  assert (Hlen : zlen (encode ((o, l) :: frs)) = 4 + l + zlen (encode frs)).
  { rewrite Henc, !zlen_app, Hsl, !zlen_put16. lia. }
  destruct (memcpy_ok p o (slice t o l)) as (q1 & Hq1 & Hl1 & Hb1); [lia|lia|].
  destruct (IH fuel q1) as (q & Hq & Hlq & Hbq); [lia|cbn in Hf; lia|].
  exists q. split; [|split; [done|]].
  - pose proof (zlen_nonneg (encode frs)). revert Hd0 Hd2 Hdl Hdr Hlen. generalize (encode ((o, l) :: frs)).
    intros d Hd0 Hd2 Hdl Hdr Hlen. destruct d as [|b d]; [change (zlen []) with 0 in Hlen; lia|]. cbn [apply_fragments].
    rewrite Hd0, Hd2. destruct (Z.ltb_spec (zlen (b :: d)) (4 + l)); [lia|]. rewrite Hdl, Hq1. rsimpl. by rewrite Hdr.
  - intros i Hi. rewrite Hbq, Hb1 by done. cbn [covered existsb fst snd]. fold (covered frs i). rewrite Hsl.
    destruct (covered frs i); [by rewrite orb_true_r|]. rewrite orb_false_r.
    destruct (_ && _) eqn:E; [|done]. bprop. rewrite byte_at_slice by lia. f_equal. lia.
Qed.

End fragments.

(** * The delta of a region *)

Section region.
Context (cur t : bytes) (Ht : zlen t = BLCKSZ).
Context (ts v le : Z) (Hts : 0 ≤ ts ≤ le) (Hv : ts ≤ v) (Hle : le ≤ BLCKSZ).

Lemma extend_spec d i e (j := extend_to cur t d i e) :
  i ≤ e → i ≤ j ≤ e ∧ (∀ k, i ≤ k < j → differs cur t k = d) ∧ (j < e → differs cur t j = negb d).
Proof.
  subst j. unfold extend_to. remember (Z.to_nat (e - i)) as n eqn:Hn. revert i Hn.
  induction n as [|n IH]; intros i Hn Hi; cbn [extend].
  { split; [lia|]. split; intros; lia. }
  destruct (Z.ltb_spec i e); [|lia]. cbn [andb]. destruct (eqb (differs cur t i) d) eqn:Ed.
  - destruct (IH (i + 1)) as (Hr & Hk & Hj); [lia|lia|]. split; [lia|]. split; [|done].
    intros k Hk'. destruct (decide (k = i)) as [->|]; [by apply eqb_prop|]. apply Hk. lia.
  - split; [lia|]. split; [intros; lia|]. intros _. by destruct (differs cur t i), d.
Qed.

(** A byte the delta need not or does write. *)
Definition settled (frs : list (Z * Z)) (k : Z) : Prop :=
  covered frs k = true ∨ (v ≤ k < le ∧ differs cur t k = false).

Lemma settled_app frs frs' k : settled frs k → settled (frs ++ frs') k.
Proof. intros [H|H]; [left|by right]. by rewrite covered_app, H. Qed.

(** The open fragment, if any, starts at [fb]; everything before it is settled. *)
Record region_inv (i fb fe : Z) (frs : list (Z * Z)) : Prop := {
  ri_i : v ≤ i;
  ri_fb : fb = -1 ∧ i ≤ le ∨ ts ≤ fb ≤ i ∧ fb ≤ le;
  ri_done : ∀ k, ts ≤ k < (if fb <? 0 then i else fb) → settled frs k;
  ri_size : delta_size frs ≤ (if fb <? 0 then i else fb) - ts;
  ri_in : Forall (fragment_in ts le) frs;
  ri_fe : fe = -1 ∨ fb = -1 ∨ fb ≤ fe ≤ Z.min i le ∧ ∀ k, fe ≤ k < i → k < le ∧ v ≤ k ∧ differs cur t k = false;
}.

(** Closing the open fragment [fb, fe). *)
Lemma region_close frs delta fb fe :
  ts ≤ fb ≤ fe → fe ≤ BLCKSZ → delta_size frs ≤ fb - ts →
  zlen delta + BLCKSZ - ts + 4 ≤ MAX_DELTA_SIZE →
  Forall (fragment_in ts BLCKSZ) frs →
  writeFragment (delta ++ encode t frs) fb (fe - fb) (drop (Z.to_nat fb) t)
    = Ok (delta ++ encode t (frs ++ [(fb, fe - fb)])).
Proof.
  intros Hb He Hs Hd HF. rewrite (writeFragment_ok t Ht); [|lia..|].
  - by rewrite encode_app, app_assoc.
  - rewrite zlen_app, (zlen_encode t Ht frs ts BLCKSZ) by (done || lia). lia.
Qed.

Lemma fragment_in_mono frs : Forall (fragment_in ts le) frs → Forall (fragment_in ts BLCKSZ) frs.
Proof. intros HF. eapply Forall_impl; [exact HF|]. intros fr (?&?&?). unfold fragment_in. lia. Qed.

(** A run of differing bytes joins the open fragment, or opens one. *)
Lemma inv_differ i fb fe frs :
  region_inv i fb fe frs → i < le →
  region_inv (extend_to cur t true (i + 1) le) (if fb <? 0 then i else fb) (-1) frs.
Proof.
  intros [H1 H2 H3 H4 H5 H6] Hi. destruct (extend_spec true (i + 1) le) as (Hr & _); [lia|].
  destruct (Z.ltb_spec fb 0).
  - destruct (Z.ltb_spec i 0); [lia|]. split; auto; try lia. destruct (Z.ltb_spec i 0); [lia|done].
    destruct (Z.ltb_spec i 0); [lia|done].
  - split; auto; try lia; destruct (Z.ltb_spec fb 0); first [lia|done].
Qed.

(** A run of matching bytes that leaves the fragment open. *)
Lemma inv_match i fb fe frs :
  region_inv i fb fe frs → i < le → differs cur t i = false →
  region_inv (extend_to cur t false (i + 1) le) fb i frs.
Proof.
  intros [H1 H2 H3 H4 H5 H6] Hi Hd. destruct (extend_spec false (i + 1) le) as (Hr & Hk & _); [lia|].
  assert (Hm : ∀ k, i ≤ k < extend_to cur t false (i + 1) le → k < le ∧ v ≤ k ∧ differs cur t k = false).
  { intros k ?. destruct (decide (k = i)) as [->|]; [done|]. split_and!; [lia|lia|]. apply Hk. lia. }
  split; auto; try lia.
  - destruct (Z.ltb_spec fb 0); [|done]. intros k ?. destruct (decide (k < i)); [apply H3; lia|].
    right. destruct (Hm k) as (?&?&?); [lia|]. done.
  - destruct (Z.ltb_spec fb 0); lia.
  - destruct H2 as [[]|[]]; [by right; left|]. right. right. split; [lia|done].
Qed.

(** A run of matching bytes long enough to close it. *)
Lemma inv_close i fb fe frs :
  region_inv i fb fe frs → i < le → differs cur t i = false → 0 ≤ fb →
  MATCH_THRESHOLD < extend_to cur t false (i + 1) le - i →
  region_inv (extend_to cur t false (i + 1) le) (-1) (-1) (frs ++ [(fb, i - fb)]).
Proof.
  intros Hinv Hi Hd Hfb Hm. pose proof (inv_match _ _ _ _ Hinv Hi Hd) as [_ _ _ _ _ Hfe].
  destruct Hinv as [H1 H2 H3 H4 H5 H6]. destruct (extend_spec false (i + 1) le) as (Hr & Hk & _); [lia|].
  destruct (Z.ltb_spec fb 0); [lia|].
  split; try lia; cbn [Z.ltb Z.compare].
  - intros k ?. destruct (decide (k < fb)); [apply settled_app, H3; lia|]. destruct (decide (k < i)).
    + left. rewrite covered_app. cbn. lia.
    + right. destruct Hfe as [?|[?|[_ Hfe]]]; [lia|lia|]. destruct (Hfe k) as (?&?&?); [lia|done].
  - unfold delta_size. rewrite zsum_app. cbn. fold (delta_size frs). unfold MATCH_THRESHOLD, FRAGMENT_HEADER_SIZE in *. lia.
  - apply Forall_app. split; [done|]. constructor; [|done]. unfold fragment_in. cbn. lia.
Qed.

Lemma region_loop_ok fuel i fb fe frs delta :
  region_inv i fb fe frs → zlen delta + BLCKSZ - ts + 4 ≤ MAX_DELTA_SIZE →
  (Z.to_nat (le - i) < fuel)%nat →
  ∃ i' fb' fe' frs', region_inv i' fb' fe' frs' ∧ le ≤ i' ∧
    region_loop cur t fuel le i fb fe (delta ++ encode t frs) = Ok (fb', fe', delta ++ encode t frs').
Proof.
  intros Hinv Hd. revert i fb fe frs Hinv. induction fuel as [|fuel IH]; intros i fb fe frs Hinv Hf; [lia|].
  cbn [region_loop]. destruct (Z.ltb_spec i le); [|by exists i, fb, fe, frs].
  assert (Hstep : ∃ i1 fb1 fe1, region_inv i1 fb1 fe1 frs ∧ i ≤ i1 ∧ (i1 < le → differs cur t i1 = false) ∧
    (if differs cur t i then (extend_to cur t true (i + 1) le, if fb <? 0 then i else fb, -1) else (i, fb, fe))
    = (i1, fb1, fe1)).
  { destruct (differs cur t i) eqn:Ed.
    - destruct (extend_spec true (i + 1) le) as (Hr & _ & Hj); [lia|]. eexists _, _, _.
      split; [by apply (inv_differ i fb fe)|]. split; [lia|]. done.
    - exists i, fb, fe. split; [done|]. split; [lia|done]. }
  destruct Hstep as (i1 & fb1 & fe1 & Hinv1 & Hi1 & Hd1 & ->). clear Hinv.
  destruct (Z.leb_spec le i1); [by exists i1, fb1, fe1, frs|].
  specialize (Hd1 ltac:(lia)). destruct (extend_spec false (i1 + 1) le) as (Hr & _); [lia|].
  destruct (_ && _) eqn:E; bprop.
  - rewrite region_close; [| |lia| |done|].
    + rsimpl. apply IH; [by apply (inv_close _ _ fe1)|lia].
    + destruct Hinv1 as [? [] _ _ _ _]; lia.
    + pose proof (ri_size _ _ _ _ Hinv1) as Hs. destruct (Z.ltb_spec fb1 0); lia.
    + eapply fragment_in_mono, ri_in, Hinv1.
  - apply IH; [by apply (inv_match _ _ fe1)|lia].
Qed.

(** What the delta of a region has to be. *)
Definition region_delta (te : Z) (frs : list (Z * Z)) : Prop :=
  Forall (fragment_in ts te) frs ∧ delta_size frs ≤ te - ts + FRAGMENT_HEADER_SIZE ∧
  ∀ k, ts ≤ k < te → settled frs k.

Lemma region_delta_close frs fb fe te :
  ts ≤ fb ≤ fe → le ≤ te → fe ≤ te → Forall (fragment_in ts le) frs → delta_size frs ≤ fb - ts →
  (∀ k, ts ≤ k < fb → settled frs k) →
  (∀ k, fe ≤ k < te → v ≤ k < le ∧ differs cur t k = false) →
  region_delta te (frs ++ [(fb, fe - fb)]).
Proof.
  intros Hb Hle' He HF Hs Hk1 Hk2. split_and!.
  - apply Forall_app. split; [|constructor; [|done]; unfold fragment_in; cbn; lia].
    eapply Forall_impl; [exact HF|]. intros fr (?&?&?). unfold fragment_in. lia.
  - unfold delta_size. rewrite zsum_app. cbn. fold (delta_size frs). unfold FRAGMENT_HEADER_SIZE. lia.
  - intros k ?. destruct (decide (k < fb)); [apply settled_app, Hk1; lia|]. destruct (decide (k < fe)).
    + left. rewrite covered_app. cbn. lia.
    + right. apply Hk2. lia.
Qed.

(** The final fragment. *)
Lemma region_finish i fb fe frs delta te :
  region_inv i fb fe frs → le ≤ i → le ≤ te ≤ BLCKSZ → zlen delta + BLCKSZ - ts + 4 ≤ MAX_DELTA_SIZE →
  ∃ frs', region_delta te frs' ∧
    (let '(fb, fe) := if le <? te then (if fb <? 0 then le else fb, te) else (fb, fe) in
     if 0 <=? fb then
       let fe := if fe <? 0 then te else fe in
       writeFragment (delta ++ encode t frs) fb (fe - fb) (drop (Z.to_nat fb) t)
     else Ok (delta ++ encode t frs)) = Ok (delta ++ encode t frs').
Proof.
  intros Hinv Hi Hte Hd. pose proof (fragment_in_mono _ (ri_in _ _ _ _ Hinv)) as HF.
  destruct Hinv as [H1 H2 H3 H4 H5 H6]. destruct (Z.ltb_spec le te) as [Hlt|Hge].
  - set (fb2 := if fb <? 0 then le else fb). assert (Hfb2 : ts ≤ fb2 ≤ te) by (unfold fb2; destruct (Z.ltb_spec fb 0); lia).
    destruct (Z.leb_spec 0 fb2); [|lia]. destruct (Z.ltb_spec te 0); [lia|].
    assert (Hs : delta_size frs ≤ fb2 - ts) by (unfold fb2; destruct (Z.ltb_spec fb 0); lia).
    eexists. split; [|apply region_close; first [done|lia]].
    apply region_delta_close; try done; try lia.
    intros k ?. apply H3. unfold fb2 in *. destruct (Z.ltb_spec fb 0); lia.
  - destruct (Z.leb_spec 0 fb).
    + destruct (Z.ltb_spec fb 0); [lia|]. set (fe2 := if fe <? 0 then te else fe).
      assert (Hfe2 : ts ≤ fb ≤ fe2 ∧ fe2 ≤ te ∧ ∀ k, fe2 ≤ k < te → v ≤ k < le ∧ differs cur t k = false).
      { unfold fe2. destruct (Z.ltb_spec fe 0); [split_and!; [lia|lia|lia|intros; lia]|].
        destruct H6 as [?|[?|[Hfe Hk]]]; [lia|lia|].
        split_and!; [lia|lia|lia|]. intros k ?. destruct (Hk k) as (?&?&?); [lia|]. done. }
      destruct Hfe2 as (?&?&?). eexists. split; [|apply region_close; first [done|lia]].
      apply region_delta_close; try done; lia.
    + destruct (Z.ltb_spec fb 0); [|lia]. exists frs. split; [|done]. split_and!.
      * eapply Forall_impl; [exact H5|]. intros fr (?&?&?). unfold fragment_in. lia.
      * unfold FRAGMENT_HEADER_SIZE. lia.
      * intros k ?. apply H3. lia.
Qed.
End region.

Lemma computeRegionDelta_ok cur t delta ts te vs ve :
  zlen t = BLCKSZ → 0 ≤ ts ≤ te → te ≤ BLCKSZ → ts ≤ ve →
  zlen delta + BLCKSZ - ts + 4 ≤ MAX_DELTA_SIZE →
  ∃ frs, computeRegionDelta cur t delta ts te vs ve = Ok (delta ++ encode t frs) ∧
    region_delta cur t ts (Z.max ts vs) (Z.min te ve) te frs.
Proof.
  intros Ht Hts Hte Hve Hd. unfold computeRegionDelta. set (le := Z.min te ve). set (v := Z.max ts vs).
  assert (Hinit : ∃ fb, (if ts <? vs then (ts, vs) else (-1, ts)) = (fb, v) ∧ region_inv cur t ts v le v fb (-1) []).
  { unfold v, le, delta_size. destruct (Z.ltb_spec ts vs); [exists ts|exists (-1)];
      (split; [f_equal; lia|]; split; try lia; try (by constructor); cbn -[Z.sub]; try destruct (Z.ltb_spec ts 0); intros; lia). }
  destruct Hinit as (fb & -> & Hinv).
  destruct (region_loop_ok cur t Ht ts v le ltac:(lia) ltac:(lia) ltac:(lia) (S (Z.to_nat (le - v))) _ _ _ _ delta Hinv)
    as (i' & fb' & fe' & frs' & Hinv' & Hi' & Hloop); [done|lia|].
  change (encode t []) with (@nil Z) in Hloop. rewrite app_nil_r in Hloop. rewrite Hloop. rsimpl. edestruct (region_finish cur t Ht ts v le ltac:(lia) ltac:(lia)) as (frs & Hfr & ->);
    [exact Hinv'|done| |exact Hd|]; [lia|]. by exists frs.
Qed.

(** Replaying the delta on the old page gives the target outside its hole. *)
Lemma computeDelta_ok cur t :
  zlen cur = BLCKSZ → zlen t = BLCKSZ →
  0 ≤ pd_lower_at t ≤ pd_upper_at t → pd_upper_at t ≤ BLCKSZ → 0 ≤ pd_lower_at cur →
  ∃ delta q, computeDelta cur t = Ok delta ∧ zlen delta ≤ MAX_DELTA_SIZE ∧
    applyPageRedo cur delta = Ok q ∧ zlen q = BLCKSZ ∧
    ∀ i, 0 ≤ i < pd_lower_at t ∨ pd_upper_at t ≤ i < BLCKSZ → byte_at q i = byte_at t i.
Proof.
  intros Hc Ht Hlu Hu Hl. unfold computeDelta. set (lo := pd_lower_at t) in *. set (up := pd_upper_at t) in *.
  assert (HB : MAX_DELTA_SIZE = BLCKSZ + 8) by done.
  destruct (computeRegionDelta_ok cur t [] 0 lo 0 (pd_lower_at cur)) as (f1 & -> & F1 & S1 & C1);
    [done|lia|lia|done|change (zlen []) with 0; lia|]. rsimpl. cbn [app].
  assert (L1 : zlen (encode t f1) ≤ lo + 4)
    by (rewrite (zlen_encode t Ht f1 0 lo) by (done || lia); unfold FRAGMENT_HEADER_SIZE in S1; lia).
  destruct (computeRegionDelta_ok cur t (encode t f1) up BLCKSZ (pd_upper_at cur) BLCKSZ)
    as (f2 & -> & F2 & S2 & C2); [done|lia|lia|lia|lia|].
  rewrite <- encode_app. 
  assert (HF : Forall (fragment_in 0 BLCKSZ) (f1 ++ f2)).
  { apply Forall_app. split; (eapply Forall_impl; [eassumption|]; intros fr (?&?&?); unfold fragment_in; lia). }
  destruct (apply_encode t Ht (f1 ++ f2) (length (encode t (f1 ++ f2))) cur Hc HF) as (q & Hq & Hlq & Hbq).
  { clear. induction (f1 ++ f2) as [|fr frs IH]; [done|]. unfold encode in *. cbn [map concat].
    rewrite length_app. unfold encode_fragment at 1. cbn [put16 app length]. lia. }
  eexists _, q. split; [done|]. split; [|split; [exact Hq|split; [done|]]].
  - rewrite (zlen_encode t Ht _ 0 BLCKSZ) by (done || lia). unfold delta_size. rewrite zsum_app.
    fold (delta_size f1) (delta_size f2). unfold FRAGMENT_HEADER_SIZE in *. lia.
  - intros i Hi. rewrite Hbq by lia. rewrite covered_app.
    destruct (covered f1 i) eqn:E1; [done|]. destruct (covered f2 i) eqn:E2; [done|]. cbn.
    assert (Hs : differs cur t i = false)
      by (destruct Hi as [Hi|Hi]; [destruct (C1 i) as [?|[_ ?]]|destruct (C2 i) as [?|[_ ?]]]; first [lia|congruence|done]).
    unfold differs in Hs. by apply negb_false_iff, Z.eqb_eq in Hs.
Qed.

(** * Pages *)

Record is_page (p : bytes) : Prop := {
  ip_len : zlen p = BLCKSZ;
  ip_bytes : Forall (λ b, 0 ≤ b < 256) p;
}.

(** An image with a standard header. *)
Record image_ok (img : bytes) : Prop := {
  io_page : is_page img;
  io_lower : SizeOfPageHeaderData ≤ pd_lower_at img ≤ pd_upper_at img;
  io_upper : pd_upper_at img ≤ BLCKSZ;
}.

(** The image with zeroes between [pd_lower] and [pd_upper]. *)
Definition zero_hole (img : bytes) : bytes :=
  slice img 0 (pd_lower_at img) ++
  replicate (Z.to_nat (pd_upper_at img - pd_lower_at img)) 0 ++
  slice img (pd_upper_at img) (BLCKSZ - pd_upper_at img).

Definition with_lsn (lsn : Z) (p : bytes) : bytes :=
  put32 (uint32 (Z.shiftr lsn 32)) ++ put32 (uint32 lsn) ++ drop 8 p.

Lemma byte_at_range p i : is_page p → 0 ≤ byte_at p i < 256.
Proof.
  intros [_ HF]. unfold byte_at. destruct (p !! Z.to_nat i) eqn:E; [|cbn; lia].
  by eapply Forall_lookup_1 in HF.
Qed.

Lemma get16_range p off : is_page p → 0 ≤ get16 p off < 2 ^ 16.
Proof.
  intros Hp. unfold get16. pose proof (byte_at_range p off Hp). pose proof (byte_at_range p (off + 1) Hp). lia.
Qed.

Lemma zero_hole_spec img :
  image_ok img → zlen (zero_hole img) = BLCKSZ ∧
  ∀ i, 0 ≤ i < BLCKSZ → byte_at (zero_hole img) i =
    if (pd_lower_at img <=? i) && (i <? pd_upper_at img) then 0 else byte_at img i.
Proof.
  intros [[Hl _] Hlo Hup]. unfold zero_hole. unfold SizeOfPageHeaderData in *.
  set (lo := pd_lower_at img) in *. set (up := pd_upper_at img) in *.
  assert (L1 : zlen (slice img 0 lo) = lo) by (apply zlen_slice; lia).
  assert (L2 : zlen (replicate (Z.to_nat (up - lo)) 0) = up - lo) by (unfold zlen; rewrite length_replicate; lia).
  assert (L3 : zlen (slice img up (BLCKSZ - up)) = BLCKSZ - up) by (apply zlen_slice; lia).
  split; [rewrite !zlen_app, L1, L2, L3; lia|]. intros i Hi. destruct (Z.leb_spec lo i).
  - rewrite byte_at_app_r, L1 by lia. destruct (Z.ltb_spec i up); cbn [andb].
    + rewrite byte_at_app_l by lia. apply byte_at_zeros.
    + rewrite byte_at_app_r, L2 by lia. rewrite byte_at_slice by lia. f_equal. lia.
  - rewrite byte_at_app_l by lia. by rewrite byte_at_slice by lia.
Qed.

(** The header of the result is the header of the image. *)
Lemma get16_agree p q off :
  0 ≤ off → off + 2 ≤ SizeOfPageHeaderData → (∀ i, 0 ≤ i < SizeOfPageHeaderData → byte_at p i = byte_at q i) →
  get16 p off = get16 q off.
Proof. intros H1 H2 H. unfold get16. by rewrite !H by lia. Qed.

Lemma zero_hole_header img i :
  image_ok img → 0 ≤ i < SizeOfPageHeaderData → byte_at (zero_hole img) i = byte_at img i.
Proof.
  intros Hio Hi. destruct (zero_hole_spec img Hio) as [_ Hz]. destruct Hio as [_ ? ?].
  rewrite Hz by (unfold SizeOfPageHeaderData, BLCKSZ in *; lia). by destruct (Z.leb_spec (pd_lower_at img) i); [lia|].
Qed.

Lemma zero_hole_lower img : image_ok img → pd_lower_at (zero_hole img) = pd_lower_at img.
Proof. intros Hio. apply get16_agree; [done..|]. intros i Hi. by apply zero_hole_header. Qed.
Lemma zero_hole_upper img : image_ok img → pd_upper_at (zero_hole img) = pd_upper_at img.
Proof. intros Hio. apply get16_agree; [done..|]. intros i Hi. by apply zero_hole_header. Qed.

Lemma memzero_ok p off n :
  0 ≤ off → 0 ≤ n → off + n ≤ zlen p → ∃ q, memzero p off n = Ok q ∧ zlen q = zlen p ∧
    ∀ i, 0 ≤ i → byte_at q i = if (off <=? i) && (i <? off + n) then 0 else byte_at p i.
Proof.
  intros Ho Hn Hl. unfold memzero. destruct (Z.ltb_spec n 0); [lia|].
  assert (Hr : zlen (replicate (Z.to_nat n) 0) = n) by (unfold zlen; rewrite length_replicate; lia).
  destruct (memcpy_ok p off (replicate (Z.to_nat n) 0)) as (q & Hq & Hlq & Hb); [done|lia|].
  exists q. split; [done|]. split; [done|]. intros i Hi. by rewrite Hb, Hr, byte_at_zeros by done.
Qed.

(** Zeroing the hole of a page that agrees with the image outside it. *)
Lemma memzero_hole q img :
  image_ok img → zlen q = BLCKSZ →
  (∀ i, 0 ≤ i < pd_lower_at img ∨ pd_upper_at img ≤ i < BLCKSZ → byte_at q i = byte_at img i) →
  memzero q (pd_lower_at q) (pd_upper_at q - pd_lower_at q) = Ok (zero_hole img).
Proof.
  intros Hio Hlq Hb. destruct (zero_hole_spec img Hio) as [Hlz Hz]. destruct Hio as [_ Hlo Hup].
  assert (Hh : ∀ i, 0 ≤ i < SizeOfPageHeaderData → byte_at q i = byte_at img i) by (intros; apply Hb; lia).
  assert (Hs : SizeOfPageHeaderData = 24) by done.
  assert (E1 : pd_lower_at q = pd_lower_at img) by (by apply get16_agree).
  assert (E2 : pd_upper_at q = pd_upper_at img) by (by apply get16_agree).
  rewrite E1, E2.
  destruct (memzero_ok q (pd_lower_at img) (pd_upper_at img - pd_lower_at img)) as (r & -> & Hlr & Hbr); [lia..|].
  f_equal. apply bytes_ext; [lia|]. intros i Hi. rewrite Hbr, Hz by lia.
  replace (pd_lower_at img + (pd_upper_at img - pd_lower_at img)) with (pd_upper_at img) by lia.
  destruct (_ && _) eqn:E; [done|]. apply Hb. apply andb_false_iff in E as [E|E]; bprop; lia.
Qed.

Lemma write_image_ok page img :
  zlen page = BLCKSZ → image_ok img → write_image page img = Ok (zero_hole img).
Proof.
  intros Hl Hio. destruct (zero_hole_spec img Hio) as [Hlz Hz]. destruct Hio as [[Hli _] Hlo Hup].
  unfold write_image. unfold SizeOfPageHeaderData in Hlo.
  set (lo := pd_lower_at img) in *. set (up := pd_upper_at img) in *.
  assert (L1 : zlen (slice img 0 lo) = lo) by (apply zlen_slice; lia).
  assert (L3 : zlen (slice img up (BLCKSZ - up)) = BLCKSZ - up) by (apply zlen_slice; lia).
  destruct (memcpy_ok page 0 (slice img 0 lo)) as (p1 & -> & Hl1 & Hb1); [lia..|]. rsimpl.
  destruct (memzero_ok p1 lo (up - lo)) as (p2 & -> & Hl2 & Hb2); [lia..|]. rsimpl.
  destruct (memcpy_ok p2 up (slice img up (BLCKSZ - up))) as (p3 & -> & Hl3 & Hb3); [lia..|].
  f_equal. apply bytes_ext; [lia|]. intros i Hi. rewrite Hb3, Hb2, Hb1, Hz, L1, L3 by lia.
  destruct (Z.leb_spec up i), (Z.ltb_spec i (up + (BLCKSZ - up))), (Z.leb_spec lo i),
    (Z.ltb_spec i (lo + (up - lo))), (Z.leb_spec 0 i), (Z.ltb_spec i (0 + lo)), (Z.ltb_spec i up); try lia;
    cbn [andb]; try done; rewrite byte_at_slice by lia; f_equal; lia.
Qed.

(** ** The LSN *)

Lemma zlen_put32 z : zlen (put32 z) = 4.
Proof. done. Qed.

Lemma PageSetLSN_ok p lsn : zlen p = BLCKSZ → PageSetLSN p lsn = Ok (with_lsn lsn p).
Proof.
  intros Hl. unfold PageSetLSN, with_lsn. assert (HB : BLCKSZ = 8192) by done.
  generalize (put32 (uint32 (Z.shiftr lsn 32))) (put32 (uint32 lsn)) (zlen_put32 (uint32 (Z.shiftr lsn 32)))
    (zlen_put32 (uint32 lsn)). intros a b Ha Hb.
  unfold memcpy. rewrite Ha. destruct (Z.ltb_spec (zlen p) (0 + 4)); [lia|]. cbn [orb Z.ltb Z.compare]. rsimpl.
  set (q := take (Z.to_nat 0) p ++ a ++ drop (Z.to_nat (0 + 4)) p).
  assert (Hq : q = a ++ drop 4 p) by done. rewrite Hb.
  assert (Hlq : zlen q = zlen p).
  { rewrite Hq, zlen_app, Ha. unfold zlen in *. rewrite length_drop. lia. }
  rewrite Hlq. destruct (Z.ltb_spec (zlen p) (4 + 4)); [lia|]. f_equal. rewrite Hq.
  assert (La : length a = 4%nat) by (unfold zlen in Ha; lia).
  change (Z.to_nat 4) with 4%nat. change (Z.to_nat (4 + 4)) with (4 + 4)%nat.
  rewrite (take_app_length' a) by done. f_equal. f_equal.
  rewrite <- drop_drop, (drop_app_length' a) by done. by rewrite drop_drop.
Qed.

Lemma zlen_with_lsn lsn p : zlen p = BLCKSZ → zlen (with_lsn lsn p) = BLCKSZ.
Proof.
  intros Hl. unfold with_lsn. rewrite !zlen_app, !zlen_put32. unfold zlen, BLCKSZ in *. rewrite length_drop. lia.
Qed.

Lemma get32_put32 z rest : 0 ≤ z < 2 ^ 32 → get32 (put32 z ++ rest) 0 = z.
Proof.
  intros Hz. unfold put32.
  change (get32 (_ ++ rest) 0) with
    (get16 (put16 (z mod 2 ^ 16)) 0 + 2 ^ 16 * get16 (put16 (z / 2 ^ 16 mod 2 ^ 16)) 0).
  pose proof (Z.mod_pos_bound z (2 ^ 16)). pose proof (Z.mod_pos_bound (z / 2 ^ 16) (2 ^ 16)).
  rewrite <- (app_nil_r (put16 (z mod _))), <- (app_nil_r (put16 (z / _ mod _))), !get16_put16 by lia.
  rewrite (Z.mod_small (z / 2 ^ 16)).
  - pose proof (Z.div_mod z (2 ^ 16)). lia.
  - split; [apply Z.div_pos; lia|]. apply Z.div_lt_upper_bound; lia.
Qed.

Lemma PageGetLSN_with lsn p : 0 ≤ lsn < 2 ^ 64 → PageGetLSN (with_lsn lsn p) = lsn.
Proof.
  intros Hlsn. unfold PageGetLSN, with_lsn.
  assert (Hu : ∀ z, 0 ≤ uint32 z < 2 ^ 32) by (intros z; apply Z.mod_pos_bound; lia).
  rewrite get32_put32 by apply Hu.
  replace (get32 _ 4) with (get32 (put32 (uint32 lsn) ++ drop 8 p) 0) by done.
  rewrite get32_put32 by apply Hu. unfold uint32.
  rewrite <- Z.land_ones, <- Z.land_ones by lia. apply Z.bits_inj'. intros n Hn.
  rewrite Z.lor_spec, Z.shiftl_spec, !Z.land_spec by lia.
  destruct (Z.ltb_spec n 32).
  - rewrite (Z.testbit_neg_r _ (n - 32)) by lia. rewrite (Z.testbit_ones_nonneg 32 n) by lia.
    destruct (Z.ltb_spec n 32); [|lia]. by rewrite andb_true_r.
  - rewrite Z.shiftr_spec, !Z.testbit_ones_nonneg by lia. replace (n - 32 + 32) with n by lia.
    destruct (Z.ltb_spec n 32); [lia|]. rewrite andb_false_r, orb_false_r.
    destruct (Z.ltb_spec (n - 32) 32); [by rewrite andb_true_r|]. rewrite andb_false_r. symmetry.
    apply (Z.bits_above_log2 lsn n); [lia|]. destruct (decide (lsn = 0)) as [->|]; [cbn; lia|].
    apply Z.log2_lt_pow2; [lia|]. eapply Z.lt_le_trans; [apply Hlsn|]. apply Z.pow_le_mono_r; lia.
Qed.

(** ** Full page images *)

Lemma byte_forall p : zlen p = BLCKSZ → (∀ i, 0 ≤ i < BLCKSZ → 0 ≤ byte_at p i < 256) → is_page p.
Proof.
  intros Hl Hb. split; [done|]. apply Forall_lookup_2. intros i x Hx. specialize (Hb (Z.of_nat i)).
  unfold byte_at in Hb. rewrite Nat2Z.id, Hx in Hb. apply Hb. apply lookup_lt_Some in Hx. unfold zlen in Hl. lia.
Qed.

Lemma zero_hole_ok img : image_ok img → image_ok (zero_hole img).
Proof.
  intros Hio. destruct (zero_hole_spec img Hio) as [Hlz Hz].
  split; rewrite ?zero_hole_lower, ?zero_hole_upper by done; [|apply Hio..].
  apply byte_forall; [done|]. intros i Hi. rewrite Hz by done. destruct (_ && _); [lia|].
  apply byte_at_range, Hio.
Qed.

Lemma zero_hole_idem img : image_ok img → zero_hole (zero_hole img) = zero_hole img.
Proof.
  intros Hio. destruct (zero_hole_spec img Hio) as [Hlz Hz].
  destruct (zero_hole_spec _ (zero_hole_ok _ Hio)) as [Hlz' Hz']. apply bytes_ext; [lia|].
  intros i Hi. rewrite Hz', zero_hole_lower, zero_hole_upper, !Hz by (done || lia). by destruct (_ && _).
Qed.

Lemma is_new_image img : image_ok img → bytes_new (zero_hole img) = false.
Proof.
  intros Hio. unfold bytes_new. rewrite zero_hole_upper by done. destruct Hio as [_ ? _].
  unfold SizeOfPageHeaderData in *. lia.
Qed.

Lemma slice_app_l p q n : 0 ≤ n → zlen p = n → slice (p ++ q) 0 n = p.
Proof.
  intros Hn Hp. unfold slice. change (drop (Z.to_nat 0) (p ++ q)) with (p ++ q).
  rewrite take_app_length'; [done|]. unfold zlen in Hp. lia.
Qed.

Lemma slice_app_r p q n k : 0 ≤ n → zlen p = n → zlen q = k → slice (p ++ q) n k = q.
Proof.
  intros Hn Hp Hq. unfold slice, zlen in *. rewrite drop_app_length' by lia. rewrite take_ge; [done|lia].
Qed.

Lemma slice_all p : zlen p = BLCKSZ → slice p 0 BLCKSZ = p.
Proof. intros Hl. unfold slice. change (drop (Z.to_nat 0) p) with p. apply take_ge. unfold zlen in Hl. lia. Qed.

(** Restoring the logged image of a page whose hole is zero gives the page. *)
Lemma restore_ok p blk :
  image_ok p → zero_hole p = p → has_image blk = true →
  (hole_offset blk, hole_length blk) =
    (if pd_lower_at p <? pd_upper_at p then (pd_lower_at p, pd_upper_at p - pd_lower_at p) else (0, 0)) →
  bkp_image blk = (if hole_length blk =? 0 then p
    else slice p 0 (hole_offset blk) ++
         slice p (hole_offset blk + hole_length blk) (BLCKSZ - (hole_offset blk + hole_length blk))) →
  RestoreBlockImage blk (replicate (Z.to_nat BLCKSZ) 0) = Ok p.
Proof.
  intros Hio Hz Hi Hh Hb. unfold RestoreBlockImage. rewrite Hi, Hb. cbn [negb].
  set (zeros := replicate (Z.to_nat BLCKSZ) 0).
  assert (Hzl : zlen zeros = BLCKSZ) by done. clearbody zeros.
  pose proof (io_lower _ Hio) as Hlo. pose proof (io_upper _ Hio) as Hup. pose proof (ip_len _ (io_page _ Hio)) as Hl.
  unfold SizeOfPageHeaderData in Hlo.
  destruct (Z.ltb_spec (pd_lower_at p) (pd_upper_at p)) as [Hlt|]; injection Hh as -> ->.
  - destruct (Z.eqb_spec (pd_upper_at p - pd_lower_at p) 0); [lia|].
    replace (pd_lower_at p + (pd_upper_at p - pd_lower_at p)) with (pd_upper_at p) by lia.
    assert (L1 : zlen (slice p 0 (pd_lower_at p)) = pd_lower_at p) by (apply zlen_slice; lia).
    rewrite slice_app_l, slice_app_r by (try apply zlen_slice; lia).
    change (write_image zeros p = Ok p). rewrite write_image_ok by done. by rewrite Hz.
  - cbn [Z.eqb]. rewrite slice_all by done.
    destruct (memcpy_ok zeros 0 p) as (q & -> & Hlq & Hbq); [lia|lia|]. f_equal. apply bytes_ext; [lia|].
    intros i Hi'. rewrite Hbq by lia. destruct (Z.leb_spec 0 i), (Z.ltb_spec i (0 + zlen p)); try lia.
    cbn [andb]. f_equal. lia.
Qed.

(** * Replaying a record *)

(** A slot in use. *)
Definition used (pd : PageData) : Prop := buffer pd ≠ InvalidBuffer.
#[export] Instance used_dec pd : Decision (used pd).
Proof. unfold used. apply _. Defined.

Definition used_slots (state : GenericXLogState) : list PageData := filter used (pages state).
Definition registered_buffers (state : GenericXLogState) : list Z := map buffer (used_slots state).

(** The buffers with one page per slot replaced. *)
Definition install (f : PageData → bytes) (m : pool) (slots : list PageData) : pool :=
  foldl (λ m pd, <[buffer pd := f pd]> m) m slots.

Lemma install_cons f m pd slots : install f m (pd :: slots) = install f (<[buffer pd := f pd]> m) slots.
Proof. done. Qed.

Lemma install_notin f slots m b : b ∉ map buffer slots → install f m slots !! b = m !! b.
Proof.
  revert m. induction slots as [|pd slots IH]; intros m Hb; [done|]. rewrite install_cons. cbn [map] in Hb.
  apply not_elem_of_cons in Hb as [Hne Hb]. rewrite IH by done. by rewrite lookup_insert_ne.
Qed.

Lemma install_in f slots m pd :
  NoDup (map buffer slots) → pd ∈ slots → install f m slots !! buffer pd = Some (f pd).
Proof.
  revert m. induction slots as [|pd' slots IH]; intros m Hnd Hin; [by apply elem_of_nil in Hin|].
  rewrite install_cons. apply NoDup_cons in Hnd as [Hni Hnd]. apply elem_of_cons in Hin as [->|Hin]; [|by apply IH].
  rewrite install_notin by done. by rewrite lookup_insert_eq.
Qed.

Lemma install_install f g slots m : NoDup (map buffer slots) → install f (install g m slots) slots = install f m slots.
Proof.
  intros Hnd. apply map_eq. intros b. destruct (decide (b ∈ map buffer slots)) as [Hin|Hni].
  - apply list_elem_of_fmap in Hin as (pd & -> & Hin). by rewrite !install_in.
  - by rewrite !install_notin.
Qed.

Section redo.
Context (RedoRecPtr : Z) (doPageWrites check_consistency : bool) (lsn : Z) (Hlsn : 0 ≤ lsn < 2 ^ 64).

Definition is_full (pd : PageData) : bool := has_flag (page_flags pd) GENERIC_XLOG_FULL_IMAGE.

(** The page a slot leaves in its buffer. *)
Definition final_page (pd : PageData) : bytes := with_lsn lsn (zero_hole (image pd)).

(** What [GenericXLogFinish] relies on for a slot in use: a standard image, and a
    locked buffer whose page was last changed before this record. *)
Record slot_ready (m : pool) (pd : PageData) : Prop := {
  sr_image : image_ok (image pd);
  sr_page : ∃ page, m !! buffer pd = Some page ∧ is_page page ∧ PageGetLSN page < lsn ∧
                    (is_full pd = false → bytes_new page = false);
}.

Lemma slot_ready_insert m pd b page : b ≠ buffer pd → slot_ready m pd → slot_ready (<[b := page]> m) pd.
Proof. intros Hb [H1 (p & Hp & ?)]. split; [done|]. exists p. by rewrite lookup_insert_ne. Qed.

(** A registration that carries the change of its slot. *)
Definition reg_ok (m : pool) (pd : PageData) (r : registered_buffer) : Prop :=
  rb_buffer r = buffer pd ∧
  if is_full pd then rb_flags r = Z.lor REGBUF_FORCE_IMAGE REGBUF_STANDARD ∧ rb_data r = []
  else rb_flags r = REGBUF_STANDARD ∧
       ∃ page, m !! buffer pd = Some page ∧ computeDelta page (image pd) = Ok (rb_data r).

Lemma finish_slot m pd page :
  image_ok (image pd) → m !! buffer pd = Some page → is_page page →
  ∃ r, reg_ok m pd r ∧
    (delta ← (if is_full pd then Ok [] else computeDelta page (image pd));
     p ← write_image page (image pd);
     r ← (if is_full pd
          then Ok (XLogRegisterBuffer (buffer pd) (Z.lor REGBUF_FORCE_IMAGE REGBUF_STANDARD))
          else XLogRegisterBufData (XLogRegisterBuffer (buffer pd) REGBUF_STANDARD) delta);
     Ok (p, r)) = Ok (zero_hole (image pd), r).
Proof.
  intros Hio Hm Hp. assert (Hl : zlen page = BLCKSZ) by apply Hp. unfold reg_ok. destruct (is_full pd) eqn:Ef.
  - rsimpl. rewrite write_image_ok by done. eexists. by split; [|done].
  - destruct (computeDelta_ok page (image pd)) as (delta & q & Hd & Hs & _).
    + done.
    + apply Hio.
    + pose proof (io_lower _ Hio). unfold SizeOfPageHeaderData in *. lia.
    + apply Hio.
    + apply get16_range, Hp.
    + rewrite Hd. rsimpl. rewrite write_image_ok by done. rsimpl. unfold XLogRegisterBufData, XLogRegisterBuffer.
      cbn [rb_data rb_buffer rb_flags]. change (zlen []) with 0. unfold MAX_DELTA_SIZE, BLCKSZ, FRAGMENT_HEADER_SIZE, UINT16_MAX in *.
      destruct (Z.ltb_spec 65535 (0 + zlen delta)); [lia|]. rsimpl. eexists. split; [|done].
      cbn. split; [done|]. split; [done|]. by exists page.
Qed.

Lemma reg_ok_insert m pd r b page : b ≠ buffer pd → reg_ok (<[b := page]> m) pd r → reg_ok m pd r.
Proof. unfold reg_ok. intros Hb. rewrite lookup_insert_ne by done. done. Qed.

Lemma finish_pages_ok slots m :
  NoDup (map buffer (filter used slots)) → Forall (slot_ready m) (filter used slots) →
  ∃ rs, finish_pages m slots = Ok (install (λ pd, zero_hole (image pd)) m (filter used slots), rs) ∧
    Forall2 (reg_ok m) (filter used slots) rs.
Proof.
  revert m. induction slots as [|pd slots IH]; intros m Hnd Hr; [by exists []|].
  cbn [finish_pages]. rewrite filter_cons in *. destruct (Z.eqb_spec (buffer pd) InvalidBuffer) as [E|E].
  - destruct (decide (used pd)) as [Hu|_]; [by destruct Hu|]. by apply IH.
  - destruct (decide (used pd)) as [_|Hu]; [|by destruct Hu]. cbn [map] in Hnd. apply NoDup_cons in Hnd as [Hni Hnd].
    apply Forall_cons in Hr as [[Hio (page & Hm & Hp & _)] Hr].
    destruct (finish_slot m pd page Hio Hm Hp) as (r & Hreg & Hf).
    destruct (IH (<[buffer pd := zero_hole (image pd)]> m)) as (rs & Hrs & HF); [done| |].
    { apply Forall_forall. intros pd' Hin. apply slot_ready_insert; [|by eapply Forall_forall in Hr].
      intros Heq. apply Hni. rewrite Heq. by apply list_elem_of_fmap_2. }
    exists (r :: rs). split.
    + unfold BufferGetPage. rewrite Hm. fold (is_full pd). revert Hf. rsimpl.
      destruct (if is_full pd then Ok [] else computeDelta page (image pd)) as [delta|]; [|done]. rsimpl.
      destruct (write_image page (image pd)) as [p|]; [|done]. rsimpl.
      destruct (if is_full pd then _ else _) as [r'|]; [|done]. rsimpl. intros [= -> ->]. by rewrite Hrs.
    + constructor; [done|]. clear -HF Hni. induction HF as [|pd' r' l rs' Hpr _ IHF]; constructor.
      * eapply reg_ok_insert; [|done]. intros Heq. apply Hni. rewrite Heq. by left.
      * apply IHF. intros Hin. apply Hni. by right.
Qed.

Lemma set_lsns_ok slots m :
  NoDup (map buffer (filter used slots)) →
  Forall (λ pd, image_ok (image pd) ∧ m !! buffer pd = Some (zero_hole (image pd))) (filter used slots) →
  set_lsns lsn m slots = Ok (install final_page m (filter used slots)).
Proof.
  revert m. induction slots as [|pd slots IH]; intros m Hnd Hr; [done|].
  cbn [set_lsns]. rewrite filter_cons in *. destruct (Z.eqb_spec (buffer pd) InvalidBuffer) as [E|E].
  - destruct (decide (used pd)) as [Hu|_]; [by destruct Hu|]. by apply IH.
  - destruct (decide (used pd)) as [_|Hu]; [|by destruct Hu]. cbn [map] in Hnd. apply NoDup_cons in Hnd as [Hni Hnd].
    apply Forall_cons in Hr as [[Hio Hm] Hr]. unfold BufferGetPage. rewrite Hm. rsimpl.
    rewrite PageSetLSN_ok by apply (zero_hole_spec _ Hio). rsimpl. rewrite IH; [done|done|].
    apply Forall_forall. intros pd' Hin. eapply Forall_forall in Hr as [? ?]; [|done]. split; [done|].
    rewrite lookup_insert_ne; [done|]. intros Heq. apply Hni. rewrite Heq. by apply list_elem_of_fmap_2.
Qed.

Lemma final_not_new pd : image_ok (image pd) → bytes_new (final_page pd) = false.
Proof.
  intros Hio. rewrite <- (is_new_image (image pd) Hio). unfold bytes_new, final_page. f_equal.
  unfold pd_upper_at, get16, with_lsn, byte_at. do 2 f_equal; [|f_equal].
  - change (Z.to_nat 14) with (8 + 6)%nat. change ((?a ++ ?b ++ drop 8 ?p) !! (8 + 6)%nat) with (drop 8 p !! 6%nat).
    by rewrite lookup_drop.
  - change (Z.to_nat (14 + 1)) with (8 + 7)%nat. change ((?a ++ ?b ++ drop 8 ?p) !! (8 + 7)%nat) with (drop 8 p !! 7%nat).
    by rewrite lookup_drop.
Qed.

(** A block of the record brings its page to the state [GenericXLogFinish] left:
    from the logged image whatever the page was, or from the delta if the page is
    the old one, and it leaves the new one alone. *)
Definition redoes (m : pool) (pd : PageData) (blk : DecodedBkpBlock) : Prop :=
  bk_buffer blk = buffer pd ∧ (is_full pd = true → apply_image blk = true) ∧
  ∀ disk : pool,
    apply_image blk = true ∨ disk !! buffer pd = m !! buffer pd ∨ disk !! buffer pd = Some (final_page pd) →
    redo_block lsn disk blk = Ok (<[buffer pd := final_page pd]> disk).

Lemma assemble_backup m m1 pd r :
  image_ok (image pd) → reg_ok m pd r → m1 !! buffer pd = Some (zero_hole (image pd)) →
  needs_backup RedoRecPtr doPageWrites (zero_hole (image pd)) (rb_flags r) = true →
  ∃ blk, assemble_block RedoRecPtr doPageWrites check_consistency m1 r = Ok blk ∧ redoes m pd blk.
Proof.
  intros Hio [Hb Hreg] Hm1 Hnb. unfold assemble_block, BufferGetPage. rewrite Hb, Hm1. rsimpl. rewrite Hnb. cbn [orb andb].
  set (p := zero_hole (image pd)) in *.
  assert (Hp : image_ok p) by by apply zero_hole_ok.
  assert (Hh : hole_of p (rb_flags r) = if pd_lower_at p <? pd_upper_at p
                 then (pd_lower_at p, pd_upper_at p - pd_lower_at p) else (0, 0)).
  { unfold hole_of. replace (has_flag (rb_flags r) REGBUF_STANDARD) with true by (destruct (is_full pd); destruct Hreg as [-> _]; done).
    destruct Hp as [_ [? _] ?]. destruct (Z.leb_spec SizeOfPageHeaderData (pd_lower_at p)); [|lia].
    destruct (Z.leb_spec (pd_upper_at p) BLCKSZ); [|lia]. by rewrite andb_true_r. }
  destruct (hole_of p (rb_flags r)) as [off len]. eexists. split; [done|].
  split; [done|]. split; [done|]. intros disk _. unfold redo_block, XLogReadBufferForRedo. cbn [apply_image bk_buffer].
  rewrite (restore_ok p) by (try done; by apply zero_hole_idem). rsimpl.
  unfold p. rewrite is_new_image by done. rewrite PageSetLSN_ok by apply (zero_hole_spec _ Hio). done.
Qed.

Lemma assemble_delta m m1 pd r :
  slot_ready m pd → reg_ok m pd r → m1 !! buffer pd = Some (zero_hole (image pd)) →
  needs_backup RedoRecPtr doPageWrites (zero_hole (image pd)) (rb_flags r) = false →
  ∃ blk, assemble_block RedoRecPtr doPageWrites check_consistency m1 r = Ok blk ∧ redoes m pd blk.
Proof.
  intros [Hio (page & Hm & Hp & Hold & Hnew)] [Hb Hreg] Hm1 Hnb.
  destruct (is_full pd) eqn:Ef.
  { destruct Hreg as [Hfl _]. rewrite Hfl in Hnb. discriminate. }
  destruct Hreg as (Hfl & page' & Hm' & Hd). rewrite Hm in Hm'. injection Hm' as <-.
  unfold assemble_block, BufferGetPage. rewrite Hb, Hm1. rsimpl. rewrite Hnb, Hfl.
  destruct (hole_of _ _) as [off len]. cbn [orb andb]. eexists. split; [done|].
  split; [done|]. cbn [apply_image]. rewrite Ef, andb_false_r. split; [done|].
  intros disk [?|Hdisk]; [done|]. unfold redo_block, XLogReadBufferForRedo. cbn [apply_image bk_buffer].
  replace (bk_data _) with (rb_data r); cycle 1.
  { cbn [bk_data]. change (has_flag REGBUF_STANDARD REGBUF_KEEP_DATA) with false.
    destruct (Z.eqb_spec (zlen (rb_data r)) 0) as [E|]; [|done]. by destruct (rb_data r). }
  destruct Hdisk as [Hdisk|Hdisk]; rewrite Hdisk.
  - rewrite Hm, Hnew by done. destruct (Z.leb_spec lsn (PageGetLSN page)); [lia|]. rsimpl. unfold BufferGetPage.
    rewrite Hdisk, Hm. rsimpl.
    destruct (computeDelta_ok page (image pd)) as (delta & q & Hd' & _ & Hq & Hlq & Hbq).
    + apply Hp.
    + apply Hio.
    + pose proof (io_lower _ Hio). unfold SizeOfPageHeaderData in *. lia.
    + apply Hio.
    + apply get16_range, Hp.
    + rewrite Hd in Hd'. injection Hd' as <-. rewrite Hq. rsimpl. rewrite (memzero_hole q (image pd)) by done. rsimpl.
      by rewrite PageSetLSN_ok by apply (zero_hole_spec _ Hio).
  - rewrite final_not_new by done. unfold final_page at 1. rewrite PageGetLSN_with by done.
    destruct (Z.leb_spec lsn lsn); [|lia]. rsimpl. by rewrite insert_id.
Qed.

Lemma assemble_ok m m1 slots rs :
  Forall (slot_ready m) slots → (∀ pd, pd ∈ slots → m1 !! buffer pd = Some (zero_hole (image pd))) →
  Forall2 (reg_ok m) slots rs →
  ∃ record, XLogRecordAssemble RedoRecPtr doPageWrites check_consistency m1 rs = Ok record ∧
    Forall2 (redoes m) slots record.
Proof.
  intros Hr Hm1 HF. induction HF as [|pd r slots rs Hpr _ IH]; [by exists []|].
  apply Forall_cons in Hr as [Hpd Hr]. destruct IH as (record & HA & HF'); [done|intros; apply Hm1; by right|].
  assert (Hblk : ∃ blk, assemble_block RedoRecPtr doPageWrites check_consistency m1 r = Ok blk ∧ redoes m pd blk).
  { specialize (Hm1 pd ltac:(by left)).
    destruct (needs_backup RedoRecPtr doPageWrites (zero_hole (image pd)) (rb_flags r)) eqn:E.
    - by eapply assemble_backup; [apply Hpd| | |].
    - by eapply assemble_delta. }
  destruct Hblk as (blk & Hb & Hred). exists (blk :: record). split; [|by constructor].
  cbn [XLogRecordAssemble foldr]. rewrite Hb. rsimpl.
  change (foldr _ (Ok []) rs) with (XLogRecordAssemble RedoRecPtr doPageWrites check_consistency m1 rs). by rewrite HA.
Qed.

Lemma generic_redo_ok m slots record disk :
  Forall2 (redoes m) slots record → NoDup (map buffer slots) →
  Forall2 (λ pd blk, apply_image blk = true ∨ disk !! buffer pd = m !! buffer pd ∨
                     disk !! buffer pd = Some (final_page pd)) slots record →
  generic_redo lsn disk record = Ok (install final_page disk slots).
Proof.
  intros HF. revert disk. induction HF as [|pd blk slots record (_ & _ & Hred) _ IH]; intros disk Hnd Hd; [done|].
  apply Forall2_cons in Hd as [Hpd Hd]. cbn [map] in Hnd. apply NoDup_cons in Hnd as [Hni Hnd].
  unfold generic_redo. cbn [foldl]. rsimpl. rewrite (Hred disk Hpd). rewrite install_cons. apply IH; [done|].
  clear -Hd Hni. induction Hd as [|pd' blk' slots record H _ IHd]; constructor.
  - rewrite !lookup_insert_ne; [done|]. intros Heq. apply Hni. rewrite Heq. by left.
  - apply IHd. intros Hin. apply Hni. by right.
Qed.
End redo.

(** * Records under construction *)

(** The states a caller builds: registered buffers are valid, and images are
    changed at will. *)
Inductive built (m : pool) (logged : bool) : GenericXLogState → Prop :=
  | built_start : built m logged (GenericXLogStart logged)
  | built_register state b flags n state' :
      built m logged state → b ≠ InvalidBuffer →
      GenericXLogRegisterBuffer m state b flags = Ok (n, state') → built m logged state'
  | built_modify state n f : built m logged state → built m logged (modify_image n f state).

(** Used slots come first and hold different buffers. *)
Definition slots_wf (slots : list PageData) : Prop :=
  ∃ us vs, slots = us ++ vs ∧ Forall used us ∧ Forall (λ pd, ¬ used pd) vs ∧ NoDup (map buffer us).

Lemma slots_wf_filter slots : slots_wf slots → NoDup (map buffer (filter used slots)).
Proof.
  intros (us & vs & -> & Hu & Hv & Hnd). rewrite filter_app, (filter_all _ us), (filter_none _ vs), app_nil_r by done. done.
Qed.

Lemma register_slot_spec m b flags us vs :
  b ≠ InvalidBuffer → Forall used us → Forall (λ pd, ¬ used pd) vs →
  match register_slot m b flags (us ++ vs) with
  | Ok (n, slots) =>
    (slots = us ++ vs) ∧ (∃ pd, us !! n = Some pd ∧ buffer pd = b) ∨
    (b ∉ map buffer us) ∧ n = length us ∧ ∃ page v vs', m !! b = Some page ∧ vs = v :: vs' ∧
      slots = (us ++ mkPageData b flags page :: vs')
  | Err _ => (b ∉ map buffer us) ∧ (vs = [] ∨ m !! b = None)
  end.
Proof.
  intros Hb Hu Hv. induction Hu as [|pd us Hpd Hu IH]; cbn [app register_slot].
  - destruct vs as [|v vs]; cbn [register_slot]; [split; [apply not_elem_of_nil|by left]|].
    apply Forall_cons in Hv as [Hv _]. destruct (Z.eqb_spec (buffer v) InvalidBuffer) as [|E]; [|by destruct Hv].
    unfold BufferGetPage. destruct (m !! b) as [page|] eqn:Hm; rsimpl.
    + right. split; [apply not_elem_of_nil|]. split; [done|]. by exists page, v, vs.
    + split; [apply not_elem_of_nil|by right].
  - destruct (Z.eqb_spec (buffer pd) InvalidBuffer) as [|_]; [done|]. destruct (Z.eqb_spec (buffer pd) b) as [E|E].
    + left. split; [done|]. by exists pd.
    + destruct (register_slot m b flags (us ++ vs)) as [[n slots]|e]; rsimpl.
      * destruct IH as [(-> & pd' & ? & ?)|(Hni & -> & page & v & vs' & ? & ? & ->)]; [left; by eauto|right].
        split; [by apply not_elem_of_cons|]. split; [done|]. by exists page, v, vs'.
      * destruct IH as [Hni ?]. split; [by apply not_elem_of_cons|done].
Qed.

Lemma built_wf m logged state : built m logged state → slots_wf (pages state) ∧ isLogged state = logged.
Proof.
  induction 1 as [|state b flags n state' _ [(us & vs & Hs & Hu & Hv & Hnd) IHl] Hb Hr|state n0 f _ [(us & vs & Hs & Hu & Hv & Hnd) IHl]].
  - split; [|done]. exists [], (pages (GenericXLogStart logged)). split; [done|]. split; [by constructor|].
    split; [|by constructor]. apply Forall_replicate. by intros [].
  - unfold GenericXLogRegisterBuffer in Hr. rewrite Hs in Hr. pose proof (register_slot_spec m b flags us vs Hb Hu Hv) as Hspec.
    destruct (register_slot m b flags (us ++ vs)) as [[n' slots]|]; [|done]. injection Hr as <- <-. split; [|done]. cbn [pages].
    destruct Hspec as [[-> _]|(Hni & _ & page & v & vs' & _ & -> & ->)]; [by exists us, vs|].
    exists (us ++ [mkPageData b flags page]), vs'. rewrite <- app_assoc. split; [done|]. apply Forall_cons in Hv as [_ Hv].
    split; [apply Forall_app; by repeat constructor|]. split; [done|].
    rewrite map_app. apply NoDup_app. split; [done|]. split; [|apply NoDup_singleton].
    intros b' Hin. cbn. intros ->%list_elem_of_singleton. done.
  - split; [|done]. cbn [pages modify_image]. set (g := λ pd, mkPageData (buffer pd) (page_flags pd) (f (image pd))).
    assert (Hg : ∀ l i, map buffer (alter g i l) = map buffer l).
    { intros l. induction l as [|x l IH]; intros [|i]; cbn; try done. by rewrite <- (IH i). }
    assert (HF : ∀ (P : Z → Prop) l i, Forall (λ pd, P (buffer pd)) l → Forall (λ pd, P (buffer pd)) (alter g i l)).
    { intros P l i HP. apply (Forall_map buffer P). rewrite Hg. by apply (Forall_map buffer P). }
    rewrite Hs. destruct (decide (n0 < length us)%nat).
    + exists (alter g n0 us), vs. rewrite alter_app_l by done. split_and!; [done| |done|by rewrite Hg].
      by apply (HF (λ b, b ≠ InvalidBuffer)).
    + exists us, (alter g (n0 - length us)%nat vs). rewrite alter_app_r_alt by lia. split_and!; [done|done| |done].
      by apply (HF (λ b, ¬ (b ≠ InvalidBuffer))).
Qed.

(** * Claims *)

(** The delta [computeDelta] writes fits in its array ([MAX_DELTA_SIZE] bytes, the
    worst case the comment of the file names), and applying it to the old page gives the
    target page below [pd_lower] and above [pd_upper]: the check of [WAL_DEBUG] never
    fails.  The old page may be any page, its header included. *)
Theorem delta_roundtrip (cur target : bytes) :
  is_page cur → image_ok target →
  ∃ delta page, computeDelta cur target = Ok delta ∧ zlen delta ≤ MAX_DELTA_SIZE ∧
    applyPageRedo cur delta = Ok page ∧ zlen page = BLCKSZ ∧
    slice page 0 (pd_lower_at target) = slice target 0 (pd_lower_at target) ∧
    slice page (pd_upper_at target) (BLCKSZ - pd_upper_at target)
    = slice target (pd_upper_at target) (BLCKSZ - pd_upper_at target).
Proof.
  intros Hc Hio. assert (Hl : zlen target = BLCKSZ) by apply Hio. pose proof (io_upper _ Hio) as Hup.
  assert (Hlo : 0 ≤ pd_lower_at target ≤ pd_upper_at target)
    by (pose proof (io_lower _ Hio); unfold SizeOfPageHeaderData in *; lia).
  destruct (computeDelta_ok cur target) as (delta & q & ? & ? & ? & Hlq & Hb);
    [apply Hc|done|done|done|apply get16_range, Hc|].
  exists delta, q. split_and!; [done..| |].
  - apply bytes_ext; rewrite !zlen_slice by lia; [done|]. intros i Hi. rewrite !byte_at_slice by lia. apply Hb. lia.
  - apply bytes_ext; rewrite !zlen_slice by lia; [done|]. intros i Hi. rewrite !byte_at_slice by lia. apply Hb. lia.
Qed.

(** C13. Replay repeats [GenericXLogFinish].  For a record built by
    [GenericXLogStart], [GenericXLogRegisterBuffer] and changes to the images, whose
    images have standard headers and whose buffers were last changed before it, the
    function succeeds, leaves in every registered buffer its image with a zeroed hole
    and the new LSN, and changes no other buffer.  If after a crash every block of the
    record has a full image in it or is on disk as it was before or as it is after,
    [generic_redo] brings the registered blocks to the state the buffers had, whatever
    combination of them had been written, and touches no other block; so it may run
    again. *)
Theorem redo_replays_finish (RedoRecPtr lsn : Z) (doPageWrites check : bool) (m : pool) (state : GenericXLogState) :
  built m true state → 0 ≤ lsn < 2 ^ 64 → Forall (slot_ready lsn m) (used_slots state) →
  ∃ m' record,
    GenericXLogFinish RedoRecPtr doPageWrites check lsn m state = Ok (m', Some record) ∧
    (∀ pd, pd ∈ used_slots state → m' !! buffer pd = Some (final_page lsn pd)) ∧
    (∀ b, b ∉ registered_buffers state → m' !! b = m !! b) ∧
    ∀ disk : pool,
      Forall (λ blk, apply_image blk = true ∨ disk !! bk_buffer blk = m !! bk_buffer blk ∨
                     disk !! bk_buffer blk = m' !! bk_buffer blk) record →
      ∃ disk', generic_redo lsn disk record = Ok disk' ∧
        ∀ b, disk' !! b = if decide (b ∈ registered_buffers state) then m' !! b else disk !! b.
Proof.
  intros Hb Hlsn Hr. destruct (built_wf _ _ _ Hb) as [Hnd%slots_wf_filter Hlog]. fold (used_slots state) in Hnd.
  destruct (finish_pages_ok lsn (pages state) m Hnd Hr) as (rs & Hf & Hrs). fold (used_slots state) in Hf, Hrs.
  set (m1 := install _ m _) in Hf.
  assert (Hm1 : ∀ pd, pd ∈ used_slots state → m1 !! buffer pd = Some (zero_hole (image pd)))
    by (intros pd Hpd; by apply (install_in (λ pd, zero_hole (image pd)))).
  destruct (assemble_ok RedoRecPtr doPageWrites check lsn Hlsn m m1 _ rs Hr Hm1 Hrs) as (record & Ha & Hrec).
  exists (install (final_page lsn) m (used_slots state)), record. unfold GenericXLogFinish. rewrite Hlog, Hf. rsimpl.
  rewrite Ha. rsimpl. rewrite set_lsns_ok; [|done|]; cycle 1.
  { apply Forall_forall. intros pd Hpd. split; [|by apply Hm1]. by eapply Forall_forall in Hr as [? _]. }
  rsimpl. fold (used_slots state). unfold m1. rewrite install_install by done. split; [done|].
  split; [intros; by apply install_in|]. split; [intros; by apply install_notin|].
  intros disk Hd. exists (install (final_page lsn) disk (used_slots state)). split.
  - eapply generic_redo_ok; [done|done|]. apply Forall2_same_length_lookup_2; [by eapply Forall2_length|].
    intros i pd blk Hpd Hblk. eapply Forall2_lookup_lr in Hrec as (Hbk & _); [|done|done].
    eapply Forall_lookup_1 in Hd; [|done]. rewrite Hbk in Hd.
    by rewrite install_in in Hd by (done || by eapply list_elem_of_lookup_2).
  - intros b. destruct (decide (b ∈ registered_buffers state)) as [Hin|Hni]; [|by apply install_notin].
    apply list_elem_of_fmap in Hin as (pd & -> & Hin). by rewrite !install_in.
Qed.

(** * Examples *)

(** A page with the given LSN and hole, [v] in its first line pointer. *)
Definition demo_page_bytes (lsn lower upper v : Z) : bytes :=
  put32 (uint32 (Z.shiftr lsn 32)) ++ put32 (uint32 lsn) ++ put16 0 ++ put16 0 ++ put16 lower ++ put16 upper ++
  put16 8176 ++ put16 8196 ++ put32 0 ++ put32 v ++ replicate (Z.to_nat 8164) 0.

Definition demo_pool : pool :=
  {[ 1 := demo_page_bytes 5 24 8176 0; 2 := demo_page_bytes 7 24 8176 0 ]}.

(** Block 1 logged by delta with an item added, block 2 by image. *)
Definition demo_state : GenericXLogState :=
  {| pages := [mkPageData 1 0 (demo_page_bytes 5 28 8128 17);
               mkPageData 2 GENERIC_XLOG_FULL_IMAGE (demo_page_bytes 7 24 8176 0);
               mkPageData 0 0 []; mkPageData 0 0 []];
     isLogged := true |}.

Lemma demo_built : built demo_pool true demo_state.
Proof.
  set (st0 := GenericXLogStart true).
  set (st1 := {| pages := mkPageData 1 0 (demo_page_bytes 5 24 8176 0) :: drop 1 (pages st0); isLogged := true |}).
  set (st2 := {| pages := mkPageData 1 0 (demo_page_bytes 5 24 8176 0) ::
      mkPageData 2 GENERIC_XLOG_FULL_IMAGE (demo_page_bytes 7 24 8176 0) :: drop 2 (pages st0); isLogged := true |}).
  assert (H1 : built demo_pool true st1) by (apply (built_register _ _ st0 1 0 0%nat); [constructor|done|done]).
  assert (H2 : built demo_pool true st2).
  { apply (built_register _ _ st1 2 GENERIC_XLOG_FULL_IMAGE 1%nat); [exact H1|done|done]. }
  change demo_state with (modify_image 0 (λ _, demo_page_bytes 5 28 8128 17) st2). by apply built_modify.
Qed.

Lemma is_page_dec p : bool_decide (length p = Z.to_nat BLCKSZ ∧ Forall (λ b, 0 ≤ b < 256) p) = true → is_page p.
Proof. intros [Hl HF]%bool_decide_eq_true. split; [|done]. unfold zlen. rewrite Hl. done. Qed.

Lemma demo_image_ok lsn lower upper v :
  is_page (demo_page_bytes lsn lower upper v) → 24 ≤ lower ≤ upper → upper ≤ 8192 →
  image_ok (demo_page_bytes lsn lower upper v).
Proof.
  intros Hp Hlo Hup.
  assert (El : pd_lower_at (demo_page_bytes lsn lower upper v) = lower).
  { change (pd_lower_at _) with (lower mod 256 + 256 * (lower / 256 mod 256)). apply put16_value. lia. }
  assert (Eu : pd_upper_at (demo_page_bytes lsn lower upper v) = upper).
  { change (pd_upper_at _) with (upper mod 256 + 256 * (upper / 256 mod 256)). apply put16_value. lia. }
  split; [done|..]; rewrite ?El, ?Eu; unfold SizeOfPageHeaderData, BLCKSZ; lia.
Qed.

Lemma delta_roundtrip_witness :
  ∃ delta page,
    computeDelta (demo_page_bytes 5 24 8176 0) (demo_page_bytes 5 28 8128 17) = Ok delta ∧ zlen delta ≤ MAX_DELTA_SIZE ∧
    applyPageRedo (demo_page_bytes 5 24 8176 0) delta = Ok page ∧ zlen page = BLCKSZ ∧
    slice page 0 28 = slice (demo_page_bytes 5 28 8128 17) 0 28 ∧
    slice page 8128 64 = slice (demo_page_bytes 5 28 8128 17) 8128 64.
Proof.
  apply (delta_roundtrip (demo_page_bytes 5 24 8176 0) (demo_page_bytes 5 28 8128 17)).
  - apply is_page_dec. vm_compute. reflexivity.
  - apply demo_image_ok; [apply is_page_dec; vm_compute; reflexivity|lia|lia].
Defined.

Lemma demo_ready : Forall (slot_ready 100 demo_pool) (used_slots demo_state).
Proof.
  assert (HP : ∀ l lo up v, bool_decide (length (demo_page_bytes l lo up v) = Z.to_nat BLCKSZ ∧
    Forall (λ b, 0 ≤ b < 256) (demo_page_bytes l lo up v)) = true → is_page (demo_page_bytes l lo up v))
    by (intros; by apply is_page_dec).
  constructor; [|constructor; [|constructor]].
  - split; [apply demo_image_ok; [apply HP; vm_compute; reflexivity|lia|lia]|].
    exists (demo_page_bytes 5 24 8176 0). split; [done|]. split; [apply HP; vm_compute; reflexivity|].
    split; [apply Z.ltb_lt; vm_compute; reflexivity|]. intros _. vm_compute. reflexivity.
  - split; [apply demo_image_ok; [apply HP; vm_compute; reflexivity|lia|lia]|].
    exists (demo_page_bytes 7 24 8176 0). split; [done|]. split; [apply HP; vm_compute; reflexivity|].
    split; [apply Z.ltb_lt; vm_compute; reflexivity|]. intros _. vm_compute. reflexivity.
Qed.

Lemma redo_replays_finish_witness :
  ∃ m' record,
    GenericXLogFinish 0 true false 100 demo_pool demo_state = Ok (m', Some record) ∧
    (∀ pd, pd ∈ used_slots demo_state → m' !! buffer pd = Some (final_page 100 pd)) ∧
    (∀ b, b ∉ registered_buffers demo_state → m' !! b = demo_pool !! b) ∧
    ∀ disk : pool,
      Forall (λ blk, apply_image blk = true ∨ disk !! bk_buffer blk = demo_pool !! bk_buffer blk ∨
                     disk !! bk_buffer blk = m' !! bk_buffer blk) record →
      ∃ disk', generic_redo 100 disk record = Ok disk' ∧
        ∀ b, disk' !! b = if decide (b ∈ registered_buffers demo_state) then m' !! b else disk !! b.
Proof.
  apply (redo_replays_finish 0 100 true false demo_pool demo_state demo_built); [split; [lia|reflexivity]|exact demo_ready].
Defined.
