(* ===== verification/Checksum.v ===== *)
(** checksum_impl.h and bufpage.c: the checksum of a page, storing it before a page is
    written, and the check of a page that was read.  Pages are their bytes, as in
    GenericXLog.v. *)

From S2P Require Import Prelude Bufpage GenericXLog.

(** * pg_checksum_page *)

Definition N_SUMS : nat := 32.
Definition FNV_PRIME : Z := 16777619.

Definition checksumBaseOffsets : list Z :=
  [0x5B1F36E9; 0xB8525960; 0x02AB50AA; 0x1DE66D2A;
   0x79FF467A; 0x9BB9F8A3; 0x217E7CD2; 0x83E13D2C;
   0xF8D4474F; 0xE39EB970; 0x42C6AE16; 0x993216FA;
   0x7B093B5D; 0x98DAFF3C; 0xF718902A; 0x0B1C9CDB;
   0xE58F764B; 0x187636BC; 0x5D7B3BB1; 0xE73DE7DE;
   0x92BEC979; 0xCCA6C0B2; 0x304A0979; 0x85AA43D4;
   0x783125BB; 0x6CA8EAA2; 0xE407EAC6; 0x4B5CFC3E;
   0x9FBF8C76; 0x15CA20BE; 0xF2CA9FD3; 0x959BD756].

(** One round; the product and the sum wrap at 32 bits. *)
Definition CHECKSUM_COMP (checksum value : Z) : Z :=
  let tmp := Z.lxor checksum value in
  Z.lxor (uint32 (tmp * FNV_PRIME)) (Z.shiftr tmp 17).

(** The page as an array of [uint32]. *)
Fixpoint words (p : bytes) : list Z :=
  match p with
  | a :: b :: c :: d :: p => (a + 256 * (b + 256 * (c + 256 * d))) :: words p
  | _ => []
  end.

(** The main loop: row [i] of [data] is [N_SUMS] words. *)
Fixpoint sum_rows (n : nat) (data : list Z) (sums : list Z) : list Z :=
  match n with
  | O => sums
  | S n => sum_rows n (drop N_SUMS data) (zip_with CHECKSUM_COMP sums (take N_SUMS data))
  end.

Definition pg_checksum_block (page : bytes) : Z :=
  let sums := sum_rows (Z.to_nat (BLCKSZ / (4 * Z.of_nat N_SUMS))) (words page) checksumBaseOffsets in
  let sums := Nat.iter 2 (map (λ s, CHECKSUM_COMP s 0)) sums in
  foldl Z.lxor 0 sums.

(** [pd_checksum], the 16 bits at offset 8. *)
Definition pd_checksum_at (p : bytes) : Z := get16 p 8.
Definition set_pd_checksum (p : bytes) (c : Z) : result bytes := memcpy p 8 (put16 c).

Definition pg_checksum_page (page : bytes) (blkno : Z) : result Z :=
  cpage ← set_pd_checksum page 0;
  let checksum := pg_checksum_block cpage in
  let checksum := Z.lxor checksum blkno in
  Ok (uint16 (checksum mod 65535 + 1)).

(** * Writing and verifying *)

Section settings.
(** [DataChecksumsEnabled()] and [ignore_checksum_failure]. *)
Context (DataChecksumsEnabled ignore_checksum_failure : bool).

Definition PageSetChecksumInplace (page : bytes) (blkno : Z) : result bytes :=
  if bytes_new page || negb DataChecksumsEnabled then Ok page
  else
    checksum ← pg_checksum_page page blkno;
    set_pd_checksum page checksum.

(** The block to write; the page itself stays as it is. *)
Definition PageSetChecksumCopy (page : bytes) (blkno : Z) : result bytes :=
  if bytes_new page || negb DataChecksumsEnabled then Ok page
  else
    let pageCopy := slice page 0 BLCKSZ in
    checksum ← pg_checksum_page pageCopy blkno;
    set_pd_checksum pageCopy checksum.

Definition PD_VALID_FLAG_BITS : Z := 0x0007.
Definition PIV_LOG_WARNING : Z := 1.
Definition PIV_REPORT_STAT : Z := 2.

Definition pd_flags_at (p : bytes) : Z := get16 p 10.
Definition pd_special_at (p : bytes) : Z := get16 p 16.

Inductive notice : Type :=
  | verification_failed (calculated expected : Z)
  | checksum_failure_reported.

Definition header_sane (p : bytes) : bool :=
  (Z.land (pd_flags_at p) (Z.lnot PD_VALID_FLAG_BITS) =? 0) &&
  (pd_lower_at p <=? pd_upper_at p) && (pd_upper_at p <=? pd_special_at p) &&
  (pd_special_at p <=? BLCKSZ) && (pd_special_at p =? MAXALIGN (pd_special_at p)).

Definition all_zeroes (p : bytes) : bool := forallb (Z.eqb 0) p.

Definition PageIsVerifiedExtended (page : bytes) (blkno flags : Z) : result (bool * list notice) :=
  '(checksum_failure, sane, checksum) ←
    (if negb (bytes_new page) then
       '(failure, checksum) ←
         (if DataChecksumsEnabled then
            checksum ← pg_checksum_page page blkno;
            Ok (negb (checksum =? pd_checksum_at page), checksum)
          else Ok (false, 0));
       Ok (failure, header_sane page, checksum)
     else Ok (false, false, 0));
  if sane && negb checksum_failure then Ok (true, [])
  else if all_zeroes page then Ok (true, [])
  else if checksum_failure then
    let notices :=
      (if has_flag flags PIV_LOG_WARNING then [verification_failed checksum (pd_checksum_at page)] else []) ++
      (if has_flag flags PIV_REPORT_STAT then [checksum_failure_reported] else []) in
    Ok (sane && ignore_checksum_failure, notices)
  else Ok (false, []).

End settings.

(** * The stored checksum *)

(** The page with another checksum. *)
Lemma set_checksum_ok p c : zlen p = BLCKSZ → 0 ≤ c < 2 ^ 16 →
  ∃ q, set_pd_checksum p c = Ok q ∧ zlen q = BLCKSZ ∧ pd_checksum_at q = c ∧
    (∀ i, 0 ≤ i → i ≠ 8 → i ≠ 9 → byte_at q i = byte_at p i).
Proof.
  intros Hl Hc. unfold set_pd_checksum. rewrite <- Hl.
  destruct (memcpy_ok p 8 (put16 c)) as (q & Hq & Hlq & Hb); [lia|rewrite zlen_put16, Hl; unfold BLCKSZ; lia|].
  rewrite zlen_put16 in Hb. exists q. split_and!; [done|done| |].
  - unfold pd_checksum_at, get16. rewrite !Hb by lia. cbn. by apply put16_value.
  - intros i H0 H8 H9. rewrite Hb by done. destruct (Z.leb_spec 8 i), (Z.ltb_spec i (8 + 2)); cbn [andb]; try done; lia.
Qed.

(** Storing a checksum twice is storing the second. *)
Lemma set_checksum_twice p q c d : zlen p = BLCKSZ → set_pd_checksum p c = Ok q → set_pd_checksum q d = set_pd_checksum p d.
Proof.
  intros Hl Hq. unfold set_pd_checksum in *.
  destruct (memcpy_ok p 8 (put16 c)) as (q' & Hq' & Hlq & Hb); [lia|rewrite zlen_put16, Hl; unfold BLCKSZ; lia|].
  rewrite Hq in Hq'. injection Hq' as <-. rewrite zlen_put16 in Hb.
  destruct (memcpy_ok p 8 (put16 d)) as (p1 & -> & Hl1 & Hb1); [lia|rewrite zlen_put16, Hl; unfold BLCKSZ; lia|].
  destruct (memcpy_ok q 8 (put16 d)) as (q1 & -> & Hl2 & Hb2); [lia|rewrite zlen_put16, Hlq, Hl; unfold BLCKSZ; lia|].
  rewrite zlen_put16 in *. f_equal. apply bytes_ext; [lia|]. intros i Hi. rewrite Hb1, Hb2 by lia.
  destruct (Z.leb_spec 8 i) as [H8|H8], (Z.ltb_spec i (8 + 2)) as [H9|H9]; cbn [andb]; try done; rewrite Hb by lia.
  - by destruct (Z.leb_spec 8 i), (Z.ltb_spec i (8 + 2)); cbn [andb]; try lia.
  - by destruct (Z.leb_spec 8 i), (Z.ltb_spec i (8 + 2)); cbn [andb]; try lia.
  - by destruct (Z.leb_spec 8 i), (Z.ltb_spec i (8 + 2)); cbn [andb]; try lia.
Qed.

Lemma pg_checksum_page_stored p q c blkno :
  zlen p = BLCKSZ → set_pd_checksum p c = Ok q → pg_checksum_page q blkno = pg_checksum_page p blkno.
Proof. intros Hl Hq. unfold pg_checksum_page. by rewrite (set_checksum_twice p q c 0 Hl Hq). Qed.

(** The checksum without the block number. *)
Lemma pg_checksum_page_value p : zlen p = BLCKSZ →
  ∃ s, ∀ blkno, pg_checksum_page p blkno = Ok (Z.lxor s blkno mod 65535 + 1).
Proof.
  intros Hl. destruct (set_checksum_ok p 0 Hl) as (q & Hq & _); [lia|]. exists (pg_checksum_block q). intros blkno.
  unfold pg_checksum_page. rewrite Hq. rsimpl. f_equal. apply uint16_id.
  pose proof (Z.mod_pos_bound (Z.lxor (pg_checksum_block q) blkno) 65535). lia.
Qed.

(** Block numbers of the same 65536 blocks are told apart, but for complements. *)
Lemma lxor_mod_inj s b b' :
  Z.shiftr b 16 = Z.shiftr b' 16 → Z.lxor b b' ≠ 65535 →
  Z.lxor s b mod 65535 = Z.lxor s b' mod 65535 → b = b'.
Proof.
  intros Hhi Hne Hm. set (x := Z.lxor s b) in *. set (y := Z.lxor s b') in *.
  assert (Hxy : Z.lxor x y = Z.lxor b b').
  { unfold x, y. rewrite (Z.lxor_comm s b), Z.lxor_assoc, <- (Z.lxor_assoc s s b'), Z.lxor_nilpotent. done. }
  assert (Hs : x / 65536 = y / 65536) by (change 65536 with (2 ^ 16); rewrite <- !Z.shiftr_div_pow2 by lia; unfold x, y; by rewrite !Z.shiftr_lxor, Hhi).
  assert (Hcase : ∀ u v, u / 65536 = v / 65536 → u = v + 65535 → Z.lxor u v = 65535).
  { intros u v Hd ->. pose proof (Z.div_mod v 65536 ltac:(lia)). pose proof (Z.div_mod (v + 65535) 65536 ltac:(lia)).
    pose proof (Z.mod_pos_bound v 65536 ltac:(lia)). pose proof (Z.mod_pos_bound (v + 65535) 65536 ltac:(lia)).
    assert (Hv : Z.land v 65535 = 0) by (change 65535 with (Z.ones 16); rewrite Z.land_ones by lia; change (2 ^ 16) with 65536; lia).
    rewrite Z.add_nocarry_lxor by done. rewrite (Z.lxor_comm v), Z.lxor_assoc, Z.lxor_nilpotent. apply Z.lxor_0_r. }
  assert (x = y) as E.
  { pose proof (Z.div_mod x 65535 ltac:(lia)). pose proof (Z.div_mod y 65535 ltac:(lia)). pose proof (Z.div_mod x 65536 ltac:(lia)). pose proof (Z.div_mod y 65536 ltac:(lia)).
    pose proof (Z.mod_pos_bound x 65536 ltac:(lia)). pose proof (Z.mod_pos_bound y 65536 ltac:(lia)).
    destruct (decide (x = y + 65535)) as [E|]; [by apply Hcase in E; congruence|].
    destruct (decide (y = x + 65535)) as [E|]; [apply Hcase in E; [rewrite Z.lxor_comm in E; congruence|done]|]. lia. }
  rewrite E, Z.lxor_nilpotent in Hxy. symmetry in Hxy. by apply Z.lxor_eq in Hxy.
Qed.

(** The header fields of a page with another checksum. *)
Lemma other_checksum_header p q : (∀ i, 0 ≤ i → i ≠ 8 → i ≠ 9 → byte_at q i = byte_at p i) →
  bytes_new q = bytes_new p ∧ header_sane q = header_sane p.
Proof.
  intros H. assert (Hg : ∀ o, 10 ≤ o → get16 q o = get16 p o) by (intros; unfold get16; by rewrite !H by lia).
  unfold bytes_new, header_sane, pd_flags_at, pd_lower_at, pd_upper_at, pd_special_at. by rewrite !Hg by lia.
Qed.

Lemma not_new_not_zero p : bytes_new p = false → all_zeroes p = false.
Proof.
  intros Hn. apply not_true_iff_false. intros Hz. unfold all_zeroes in Hz. rewrite forallb_forall in Hz.
  assert (Hb : ∀ i, byte_at p i = 0).
  { intros i. unfold byte_at. destruct (p !! Z.to_nat i) as [b|] eqn:E; [|done]. cbn. symmetry. apply Z.eqb_eq, Hz, list_elem_of_In.
    by eapply list_elem_of_lookup_2. }
  unfold bytes_new, pd_upper_at, get16 in Hn. by rewrite !Hb in Hn.
Qed.

(** * Theorems *)

(** C38. The checksum of a page is a non-zero 16-bit number that does not depend on the
    checksum the page holds. *)
Theorem checksum_type p q c blkno :
  zlen p = BLCKSZ → set_pd_checksum p c = Ok q →
  ∃ sum, pg_checksum_page p blkno = Ok sum ∧ pg_checksum_page q blkno = Ok sum ∧ 1 ≤ sum < 2 ^ 16.
Proof.
  intros Hl Hq. destruct (pg_checksum_page_value p Hl) as [s Hs]. eexists. rewrite (pg_checksum_page_stored p q c _ Hl Hq), Hs.
  pose proof (Z.mod_pos_bound (Z.lxor s blkno) 65535). split_and!; [done|done|lia|lia].
Qed.

(** With data checksums on, a page with a sane header that is written with
    [PageSetChecksumCopy] or [PageSetChecksumInplace] passes [PageIsVerifiedExtended] at its
    block and differs only in the checksum; at another block of the same 65,536 blocks it
    is refused, unless the two block numbers differ in exactly the low 16 bits. *)
Theorem checksum_roundtrip p blkno other flags :
  zlen p = BLCKSZ → bytes_new p = false → header_sane p = true →
  Z.shiftr blkno 16 = Z.shiftr other 16 → blkno ≠ other → Z.lxor blkno other ≠ 65535 →
  ∃ q, PageSetChecksumInplace true p blkno = Ok q ∧ PageSetChecksumCopy true p blkno = Ok q ∧
    (∀ i, 0 ≤ i → i ≠ 8 → i ≠ 9 → byte_at q i = byte_at p i) ∧
    (∀ ignore, PageIsVerifiedExtended true ignore q blkno flags = Ok (true, [])) ∧
    ∃ notices, PageIsVerifiedExtended true false q other flags = Ok (false, notices).
Proof.
  intros Hl Hn Hh Hhi Hb Hc. destruct (pg_checksum_page_value p Hl) as [s Hs].
  pose proof (Z.mod_pos_bound (Z.lxor s blkno) 65535 ltac:(lia)) as Hm.
  destruct (set_checksum_ok p (Z.lxor s blkno mod 65535 + 1) Hl) as (q & Hq & Hlq & Hck & Hby); [lia|]. exists q.
  destruct (other_checksum_header p q Hby) as [Hnq Hhq]. rewrite Hn in Hnq. rewrite Hh in Hhq.
  assert (Hsq : ∀ b, pg_checksum_page q b = Ok (Z.lxor s b mod 65535 + 1)) by (intros b; by rewrite (pg_checksum_page_stored p q _ _ Hl Hq)).
  unfold PageSetChecksumInplace, PageSetChecksumCopy, PageIsVerifiedExtended. rewrite (slice_all p Hl), Hn, Hs, Hnq, !Hsq, Hhq, Hck. rsimpl.
  split_and!; [done|done|done| |].
  - intros ignore. by rewrite Z.eqb_refl.
  - destruct (Z.eqb_spec (Z.lxor s other mod 65535 + 1) (Z.lxor s blkno mod 65535 + 1)) as [E|E].
    + exfalso. apply Hb, (lxor_mod_inj s); [done|done|lia].
    + cbn [negb andb]. rewrite (not_new_not_zero q Hnq). eauto.
Qed.

(** A page of zeroes is accepted with any settings; a page that is neither zero nor
    has a sane header is refused with any settings. *)
Theorem verify_header enabled ignore p blkno flags :
  zlen p = BLCKSZ →
  (all_zeroes p = true → PageIsVerifiedExtended enabled ignore p blkno flags = Ok (true, [])) ∧
  (all_zeroes p = false → bytes_new p || negb (header_sane p) = true →
   ∃ notices, PageIsVerifiedExtended enabled ignore p blkno flags = Ok (false, notices)).
Proof.
  intros Hl. destruct (pg_checksum_page_value p Hl) as [s Hs]. unfold PageIsVerifiedExtended. split.
  - intros Hz. destruct (bytes_new p) eqn:E; [by rewrite Hz|]. by rewrite (not_new_not_zero p E) in Hz.
  - intros Hz Hbad. rewrite Hs, Hz. destruct (bytes_new p); cbn [negb orb] in *; [by eexists|].
    apply negb_true_iff in Hbad. rewrite Hbad. destruct enabled; rsimpl; [|by eexists]. by destruct (Z.eqb _ _); eexists.
Qed.

(** ** Witnesses *)

(** A page with special space and one written byte. *)
Definition sane_bytes : bytes :=
  put32 0 ++ put32 77 ++ put16 0 ++ put16 0 ++ put16 28 ++ put16 8152 ++ put16 8176 ++ put16 8196 ++ put32 0 ++
  replicate (80 * 100) 0 ++ replicate 168 7.

Lemma checksum_type_witness :
  ∃ sum, pg_checksum_page sane_bytes 3 = Ok sum ∧
    pg_checksum_page (take 8 sane_bytes ++ [5; 1] ++ drop 10 sane_bytes) 3 = Ok sum ∧ 1 ≤ sum < 2 ^ 16.
Proof. apply (checksum_type sane_bytes _ (5 + 256) 3); vm_compute; reflexivity. Defined.

Lemma checksum_roundtrip_witness :
  ∃ q, PageSetChecksumInplace true sane_bytes 3 = Ok q ∧ PageSetChecksumCopy true sane_bytes 3 = Ok q ∧
    (∀ i, 0 ≤ i → i ≠ 8 → i ≠ 9 → byte_at q i = byte_at sane_bytes i) ∧
    (∀ ignore, PageIsVerifiedExtended true ignore q 3 3 = Ok (true, [])) ∧
    ∃ notices, PageIsVerifiedExtended true false q 4 3 = Ok (false, notices).
Proof. apply (checksum_roundtrip sane_bytes 3 4 3); vm_compute; first [reflexivity|discriminate]. Defined.

Lemma verify_header_witness :
  PageIsVerifiedExtended true false (replicate (Z.to_nat BLCKSZ) 0) 3 3 = Ok (true, []) ∧
  ∃ notices, PageIsVerifiedExtended false true (replicate (Z.to_nat BLCKSZ) 1) 3 3 = Ok (false, notices).
Proof.
  split.
  - apply (verify_header true false (replicate (Z.to_nat BLCKSZ) 0) 3 3); vm_compute; reflexivity.
  - apply (verify_header false true (replicate (Z.to_nat BLCKSZ) 1) 3 3); vm_compute; reflexivity.
Defined.
