(* ===== verification/Recovery.v ===== *)
(** Crash safety: what replaying the write-ahead log rebuilds.

    The crash model: every page of the file was on disk when the operation started
    (a checkpoint), the file grew by zeroed blocks as the relation was extended, no dirty
    buffer was written, and replay restores the page images of the records in order,
    extending the file where an image lies beyond its end (what generic_redo does with
    them is proved on bytes in GenericXLog). *)

From S2P Require Import Prelude Float64 Cube Box Split Bufpage Itup Store Insert Tree Index Vacuum Prune.

(** * Replay *)

Definition restore (disk : list RPage) (img : Z * RPage) : list RPage :=
  let '(b, p) := img in
  if b <? zlen disk then bset disk b p
  else disk ++ replicate (Z.to_nat (b - zlen disk)) zero_page ++ [p].

Definition replay (disk : list RPage) (e : event) : list RPage :=
  match e with
  | EvExtend => disk ++ [zero_page]
  | EvDirty _ => disk
  | EvWal images => foldl restore disk images
  end.

Definition recover (disk : list RPage) (evs : list event) : list RPage := foldl replay disk evs.

Lemma recover_app disk e1 e2 : recover disk (e1 ++ e2) = recover (recover disk e1) e2.
Proof. apply foldl_app. Qed.

(** * Pages not yet logged

    [agree B d bs]: the disk [d] and the buffers [bs] differ at most in the blocks [B]. *)

Definition agree (B : list Z) (d bs : list RPage) : Prop :=
  zlen d = zlen bs ∧ ∀ b, b ∉ B → bget d b = bget bs b.

Lemma agree_nil d bs : agree [] d bs → d = bs.
Proof.
  intros [Hl Hb]. apply (list_eq_same_length _ _ (length bs)); [done|unfold zlen in Hl; lia|].
  intros i x y _ Hx Hy. specialize (Hb (Z.of_nat i) (not_elem_of_nil _)).
  unfold bget in Hb. rewrite Nat2Z.id in Hb. destruct (Z.ltb_spec (Z.of_nat i) 0); [lia|]. congruence.
Qed.

Lemma agree_refl B bs : agree B bs bs.
Proof. done. Qed.

Lemma agree_mono B B' d bs : B ⊆ B' → agree B d bs → agree B' d bs.
Proof. intros HB [Hl Hb]. split; [done|]. intros b Hn. apply Hb. auto. Qed.

Lemma agree_write B d bs b p : 0 ≤ b → agree B d bs → agree (b :: B) d (bset bs b p).
Proof.
  intros H0 [Hl Hb]. split; [by rewrite zlen_bset|]. intros b' [Hne Hn]%not_elem_of_cons.
  by rewrite (Hb b' Hn), bget_bset_ne.
Qed.

Lemma agree_write_both B d bs b p :
  0 ≤ b < zlen bs → agree B d bs → agree (filter (λ b', b' ≠ b) B) (bset d b p) (bset bs b p).
Proof.
  intros Hr [Hl Hb]. split; [by rewrite !zlen_bset|]. intros b' Hn.
  rewrite !bget_bset by lia. destruct (Z.eqb_spec b' b); [done|]. apply Hb. intros Hin. apply Hn.
  by apply list_elem_of_filter.
Qed.

Lemma agree_extend B d bs : agree B d bs → agree B (d ++ [zero_page]) (bs ++ [zero_page]).
Proof.
  intros [Hl Hb]. split; [by rewrite !zlen_app, Hl|]. intros b Hn. specialize (Hb b Hn). revert Hl Hb.
  unfold bget, zlen. destruct (Z.ltb_spec b 0); [done|]. intros Hl Hb.
  destruct (decide (Z.to_nat b < length d)%nat).
  - rewrite !lookup_app_l by lia. done.
  - rewrite !lookup_app_r by lia. f_equal. lia.
Qed.

(** * Commands that log what they write

    [logs B C m]: on a logged relation, if the disk agrees with the buffers except on
    [B] before [m] and [m] succeeds, then after replaying the events of [m] it agrees
    except on [C]. *)

Definition logs {A} (B : list Z) (C : A → list Z) (m : M A) : Prop :=
  ∀ s s' a, needs_wal s = true → m s = (s', Ok a) →
    needs_wal s' = true ∧ ∃ evs, log s' = log s ++ evs ∧
      ∀ d, agree B d (blocks s) → agree (C a) (recover d evs) (blocks s').

Abbreviation durable m := (logs [] (λ _, []) m).

Section rules.
Context {A : Type}.
Implicit Types (B : list Z) (C : A → list Z) (m : M A).

Lemma logs_ret B (a : A) : logs B (λ _, B) (mret a).
Proof. intros s s' a' Hw [= <- <-]. split; [done|]. exists []. by rewrite app_nil_r. Qed.

Lemma logs_lift B (r : result A) : logs B (λ _, B) (lift r).
Proof. intros s s' a' Hw [= <- ?]. split; [done|]. exists []. by rewrite app_nil_r. Qed.

Lemma logs_elog B C msg : logs B C (elog msg).
Proof. intros s s' a Hw. discriminate. Qed.

Lemma logs_bind {A'} B (D : A' → list Z) C (m : M A') (f : A' → M A) :
  logs B D m → (∀ a, logs (D a) C (f a)) → logs B C (m ≫= f).
Proof.
  intros Hm Hf s s' a Hw. unfold mbind, M_bind. destruct (m s) as [s1 [a1|e]] eqn:E1; [|discriminate].
  intros E2. destruct (Hm s s1 a1 Hw E1) as (Hw1 & e1 & L1 & A1).
  destruct (Hf a1 s1 s' a Hw1 E2) as (Hw2 & e2 & L2 & A2).
  split; [done|]. exists (e1 ++ e2). rewrite L2, L1, app_assoc. split; [done|].
  intros d Hd. rewrite recover_app. auto.
Qed.

Lemma logs_weaken B B' C C' m : logs B C m → B' ⊆ B → (∀ a, C a ⊆ C' a) → logs B' C' m.
Proof.
  intros Hm HB HC s s' a Hw E. destruct (Hm s s' a Hw E) as (? & evs & ? & HA). split; [done|].
  exists evs. split; [done|]. intros d Hd. eapply agree_mono; [apply HC|]. apply HA. by eapply agree_mono.
Qed.

Lemma logs_pre {A'} B C (r : result A') (f : A' → M A) :
  (∀ a, r = Ok a → logs B C (f a)) → logs B C (lift r ≫= f).
Proof. intros Hf. destruct r as [a|e]; [by apply Hf|]. intros s s' a Hw. discriminate. Qed.

Lemma logs_read B C b (f : RPage → M A) :
  (∀ p, 0 ≤ b → logs B C (f p)) → logs B C (ReadBuffer b ≫= f).
Proof.
  intros Hf s s' a Hw. unfold ReadBuffer, block, mbind, M_bind at 1.
  destruct (bget (blocks s) b) as [p|] eqn:Hb; [|discriminate]. apply bget_range in Hb. apply Hf; [lia|done].
Qed.

Lemma logs_needs_wal B C (f : bool → M A) : logs B C (f true) → logs B C (RelationNeedsWAL ≫= f).
Proof. intros Hf s s' a Hw. unfold RelationNeedsWAL, mbind, M_bind. rewrite Hw. by apply Hf. Qed.

Lemma logs_nblocks B C (f : Z → M A) : (∀ n, logs B C (f n)) → logs B C (RelationGetNumberOfBlocks ≫= f).
Proof. intros Hf s s' a Hw. by apply Hf. Qed.

Lemma logs_extend B C (f : Z → M A) : (∀ b, 0 ≤ b → logs B C (f b)) → logs B C (ExtendRelation ≫= f).
Proof.
  intros Hf s s' a Hw E. unfold ExtendRelation, mbind, M_bind in E.
  destruct (Hf (nblocks s) (zlen_nonneg _)
    (mkRel (blocks s ++ [zero_page]) (needs_wal s) (log s ++ [EvExtend])) s' a Hw E) as (? & evs & L & HA). split; [done|].
  exists (EvExtend :: evs). split; [by rewrite L; cbn [log]; rewrite <- app_assoc|].
  intros d Hd. apply (HA (d ++ [zero_page])). by apply agree_extend.
Qed.

Lemma logs_write B C b p (f : unit → M A) :
  0 ≤ b → logs (b :: B) C (f ()) → logs B C (WritePage b p ≫= f).
Proof.
  intros H0 Hf s s' a Hw E. destruct (Hf (set_block s b p) s' a Hw E) as (? & evs & L & HA).
  split; [done|]. exists evs. split; [done|]. intros d Hd. apply HA. by apply agree_write.
Qed.

Lemma logs_write_last B b p : 0 ≤ b → logs B (λ _, b :: B) (WritePage b p).
Proof.
  intros H0 s s' a Hw [= <-]. split; [done|]. exists []. rewrite app_nil_r. split; [done|].
  intros d Hd. by apply agree_write.
Qed.

Lemma logs_dirty B C b (f : unit → M A) : logs B C (f ()) → logs B C (MarkBufferDirty b ≫= f).
Proof.
  intros Hf s s' a Hw E. destruct (Hf (add_event s (EvDirty b)) s' a Hw E) as (? & evs & L & HA).
  split; [done|]. exists (EvDirty b :: evs). split; [by rewrite L; cbn; rewrite <- app_assoc|].
  intros d Hd. by apply HA.
Qed.

End rules.

(** Writing the record of some blocks makes the disk agree on them. *)
Lemma logs_images s blks imgs :
  log_images s blks = Ok imgs → map fst imgs = blks ∧ Forall (λ b, 0 ≤ b < nblocks s) blks.
Proof.
  revert imgs. induction blks as [|b blks IH]; intros imgs; cbn [log_images]; [by intros [= <-]|].
  destruct (block s b) as [p|] eqn:Hb; cbn; [|discriminate].
  destruct (log_images s blks) as [imgs'|e] eqn:E; cbn; [|discriminate]. intros [= <-].
  destruct (IH _ eq_refl) as [Hm HF]. cbn. rewrite Hm. split; [done|]. constructor; [|done].
  by eapply bget_range.
Qed.

Lemma restore_agree imgs : ∀ B d s,
  Forall (λ b, 0 ≤ b < nblocks s) (map fst imgs) → agree B d (blocks s) →
  agree (filter (λ b, b ∉ map fst imgs) B) (foldl restore d imgs)
    (blocks (foldl (λ s '(b, p), set_block s b p) s imgs)).
Proof.
  induction imgs as [|[b p] imgs IH]; intros B d s HF Hd; cbn [foldl map].
  - eapply agree_mono; [|exact Hd]. intros b Hb. apply list_elem_of_filter. split; [by apply not_elem_of_nil|done].
  - apply Forall_cons in HF as [Hr HF]. unfold restore at 2. rewrite (proj1 Hd).
    unfold nblocks in Hr. cbn [fst] in Hr. destruct (Z.ltb_spec b (zlen (blocks s))); [|lia].
    eapply agree_mono; [|apply (IH (filter (λ b', b' ≠ b) B) (bset d b p) (set_block s b p))].
    + intros b'. rewrite !list_elem_of_filter, elem_of_cons. cbn. tauto.
    + unfold nblocks, set_block; cbn [blocks]. by rewrite zlen_bset.
    + by apply agree_write_both.
Qed.

Lemma foldl_set_block_rel imgs s :
  needs_wal (foldl (λ s '(b, p), set_block s b p) s imgs) = needs_wal s ∧
  log (foldl (λ s '(b, p), set_block s b p) s imgs) = log s.
Proof. revert s. induction imgs as [|[b p] imgs IH]; intros s; [done|]. cbn [foldl]. by rewrite !(proj1 (IH _)), !(proj2 (IH _)). Qed.

Lemma logs_record B blks : logs B (λ _, filter (λ b, b ∉ blks) B) (GenericXLog blks).
Proof.
  intros s s' [] Hw. unfold GenericXLog. destruct (log_images s blks) as [imgs|e] eqn:E; [|discriminate].
  intros [= <-]. destruct (logs_images _ _ _ E) as [Hm HF]. destruct (foldl_set_block_rel imgs s) as [Hn Hl].
  cbn [add_event needs_wal log blocks]. rewrite Hn, Hl. split; [done|]. exists [EvWal imgs]. split; [done|].
  intros d Hd. cbn [recover foldl replay]. rewrite <- Hm in HF |- *. by apply restore_agree.
Qed.

Lemma logs_flush {A} B (C : A → list Z) blks (f : unit → M A) :
  B ⊆ blks → logs [] C (f ()) → logs B C (GenericXLog blks ≫= f).
Proof.
  intros HB Hf. eapply logs_bind; [apply logs_record|]. intros []. eapply logs_weaken; [exact Hf| |done].
  intros b. rewrite list_elem_of_filter. intros [Hn Hin]. by apply HB in Hin.
Qed.

Lemma logs_ret_bind {A A'} B (C : A → list Z) (a : A') (f : A' → M A) :
  logs B C (f a) → logs B C (mret a ≫= f).
Proof. done. Qed.

Lemma logs_done {A} (a : A) : durable (mret a : M A).
Proof. apply logs_ret. Qed.

Create HintDb logs discriminated.
#[export] Hint Resolve logs_done logs_elog : logs.

(** Inclusions between short lists of blocks. *)
Ltac block_subset :=
  let b := fresh "b" in intros b;
  repeat match goal with HB : _ ⊆ _ |- _ => generalize (HB b); clear HB end;
  rewrite ?elem_of_cons, ?elem_of_nil; tauto.

(** One step of a command: reads, writes, records and branches. *)
Ltac logs_step :=
  match goal with
  | |- logs _ _ (lift _ ≫= _) => apply logs_pre; intros ? _
  | |- logs _ _ (ReadBuffer _ ≫= _) => apply logs_read; intros ? ?
  | |- logs _ _ (RelationNeedsWAL ≫= _) => apply logs_needs_wal; cbv iota
  | |- logs _ _ (RelationGetNumberOfBlocks ≫= _) => apply logs_nblocks; intros ?
  | |- logs _ _ (ExtendRelation ≫= _) => apply logs_extend; intros ? ?
  | |- logs _ _ (WritePage _ _ ≫= _) => apply logs_write; [done|]
  | |- logs _ _ (MarkBufferDirty _ ≫= _) => apply logs_dirty
  | |- logs _ _ (rtree_wal_insert _ ≫= _) => apply logs_flush; [block_subset|]
  | |- logs _ _ (rtree_wal_split _ _ ≫= _) => apply logs_flush; [block_subset|]
  | |- logs _ _ (rtree_wal_vacuum _ ≫= _) => apply logs_flush; [block_subset|]
  | |- logs _ _ (GenericXLog _ ≫= _) => apply logs_flush; [block_subset|]
  | |- logs _ _ (mret _ ≫= _) => apply logs_ret_bind
  | |- logs _ _ ((if ?b then _ else _) ≫= _) => destruct b
  | |- logs _ _ (if ?b then _ else _) => destruct b
  | |- logs _ _ (match ?p with (_, _) => _ end) => destruct p
  | |- logs _ _ (let _ := _ in _) => cbv zeta
  end.
Ltac logs_run := repeat logs_step; auto with logs.

Section operations.
Context `{Platform}.

Lemma split_page_durable blkno itup box level flags B :
  B ⊆ [blkno] → logs B (λ _, []) (rtree_split_page blkno itup box level flags).
Proof. intros HB. unfold rtree_split_page. logs_run. Qed.

Lemma insert_leaf_durable blkno itup box : durable (rtree_insert_leaf blkno itup box).
Proof. unfold rtree_insert_leaf. logs_run; apply split_page_durable; block_subset. Qed.

Lemma inner_finish_durable blkno B : B ⊆ [blkno] → logs B (λ _, []) (inner_finish blkno).
Proof. intros HB. unfold inner_finish. logs_run. Qed.

Lemma insert_above_durable level blkno bestoff res : durable (insert_above level blkno bestoff res).
Proof.
  unfold insert_above, rtree_replace_tuple. repeat logs_step.
  apply (logs_bind _ (λ _, [blkno])).
  - repeat logs_step; auto with logs. eapply logs_weaken with (C := λ _, [blkno; blkno]); [|reflexivity|intros _; block_subset].
    by apply logs_write_last.
  - intros []. unfold link_sibling. repeat logs_step;
      first [apply split_page_durable|apply inner_finish_durable]; block_subset.
Qed.

Lemma insert_page_durable level : ∀ blkno itup box, durable (rtree_insert_page level blkno itup box).
Proof.
  induction level as [|l IH]; intros blkno itup box; cbn [rtree_insert_page].
  - logs_run. apply insert_leaf_durable.
  - logs_run; [apply insert_leaf_durable|]. destruct a1 as [off|]; [|auto with logs].
    apply (logs_bind _ (λ _, [])); [apply IH|]. intros res. apply insert_above_durable.
Qed.

Lemma for_each_logs {A X} B (f : A → X → M A) l a :
  (∀ a x, logs B (λ _, B) (f a x)) → logs B (λ _, B) (for_each f l a).
Proof.
  intros Hf. revert a. induction l as [|x l IH]; intros a; cbn [for_each]; [apply logs_ret|].
  eapply logs_bind; [apply Hf|]. intros a'. apply IH.
Qed.

Lemma vacuum_rebuild_durable blkno opaque stats items :
  0 ≤ blkno → durable (vacuum_rebuild blkno opaque stats items).
Proof.
  intros H0. unfold vacuum_rebuild. logs_step.
  apply (logs_bind _ (λ _, [blkno])).
  - apply for_each_logs. intros a [it box]. apply (logs_bind _ (λ _, [blkno])); [|intros; apply logs_ret].
    unfold rtree_add_tuple_copy. repeat logs_step; [apply logs_elog|].
    eapply logs_weaken; [apply logs_ret|reflexivity|intros ?; block_subset].
  - intros box. destruct items; logs_run.
Qed.

Lemma vacuum_page_durable cb fuel : ∀ blkno stats, durable (rtree_vacuum_page cb fuel blkno stats).
Proof.
  induction fuel as [|fuel IH]; intros blkno stats; cbn [rtree_vacuum_page]; [apply logs_lift|].
  repeat logs_step; [by apply vacuum_rebuild_durable|].
  apply (logs_bind _ (λ _, [])); [|intros [st items]; by apply vacuum_rebuild_durable].
  apply for_each_logs. intros [st items] off. repeat logs_step; [auto with logs|].
  unfold vacuum_child. apply (logs_bind _ (λ _, [])); [apply IH|]. intros [[e st'] bx]. logs_run.
Qed.

End operations.

(** * Operations of the access method *)

(** The events of an operation that took [s] to [s']. *)
Definition new_events (s s' : Rel) : list event := drop (length (log s)) (log s').

(** The file after a crash at [s'], if it was complete on disk at [s]. *)
Definition crash (s s' : Rel) : Rel := mkRel (recover (blocks s) (new_events s s')) (needs_wal s') [].

Lemma durable_crash {A} (m : M A) s s' a :
  durable m → needs_wal s = true → m s = (s', Ok a) → blocks (crash s s') = blocks s'.
Proof.
  intros Hm Hw E. destruct (Hm s s' a Hw E) as (_ & evs & L & HA). unfold crash, new_events. cbn [blocks].
  rewrite L, drop_app_length. apply agree_nil, HA. done.
Qed.

(** Inverting a successful command. *)
Lemma bind_inv {A B} (m : M A) (f : A → M B) s s' b :
  (m ≫= f) s = (s', Ok b) → ∃ s1 a, m s = (s1, Ok a) ∧ f a s1 = (s', Ok b).
Proof.
  unfold mbind, M_bind. destruct (m s) as [s1 [a|e]] eqn:E; [|discriminate]. intros Hf. by exists s1, a.
Qed.

Lemma lift_inv {A} (r : result A) s s' a : lift r s = (s', Ok a) → s' = s ∧ r = Ok a.
Proof. by intros [= <- ->]. Qed.

Lemma read_inv b s s' p : ReadBuffer b s = (s', Ok p) → s' = s ∧ bget (blocks s) b = Some p.
Proof. unfold ReadBuffer, block. destruct (bget (blocks s) b); by intros [= <- <-]. Qed.

Ltac inv_step H :=
  let X := fresh "X" in
  apply bind_inv in H as (? & ? & X & H);
  first [apply lift_inv in X as [-> X] | apply read_inv in X as [-> X] | injection X as <- <- | injection X as <-].

Section crash.
Context `{Platform}.

(** A new root leaves only the growth of the file and dirty marks behind. *)
Lemma root_promote_log blk res lvl s s' r :
  rtree_root_promote blk res lvl s = (s', Ok r) →
  log s' = log s ++ [EvExtend; EvDirty r; EvDirty blk] ∧ r = nblocks s ∧ needs_wal s' = needs_wal s.
Proof.
  unfold rtree_root_promote. intros E. repeat inv_step E.
  injection E as <- <-. simplify_eq. cbn. by rewrite <- !app_assoc.
Qed.

Lemma root_promote_meta blk res lvl s s' r mp :
  rtree_root_promote blk res lvl s = (s', Ok r) → bget (blocks s) 0 = Some mp → blk ≠ 0 →
  bget (blocks s') 0 = Some mp.
Proof.
  unfold rtree_root_promote. intros E Hm Hne. repeat inv_step E. injection E as <- <-. simplify_eq.
  pose proof (bget_range _ _ _ Hm). match goal with X : bget (blocks s) blk = _ |- _ => apply bget_range in X end.
  cbn [add_event set_block blocks]. unfold nblocks.
  rewrite !bget_bset by (rewrite ?zlen_bset, ?zlen_app; unfold zlen in *; cbn; lia).
  destruct (Z.eqb_spec 0 blk); [congruence|]. destruct (Z.eqb_spec 0 (zlen (blocks s))); [lia|].
  unfold bget. cbn. unfold bget in Hm. cbn in Hm. by apply lookup_app_l_Some.
Qed.

(** The two ways an insertion ends: below the root, or with a new root and a new meta
    page. *)
Lemma insert_cases s lvl c cube tid mp m :
  index_rep s lvl c → has_room s lvl → good_key cube →
  bget (blocks s) 0 = Some mp → pd_sp mp = Some (SpMeta m) →
  ∃ s' s1 box res fp, temporal_rtree_insert (Some cube) tid s = (s', Ok true) ∧
    rtree_insert_page lvl (root m) (leaf_tuple cube tid) box s = (s1, Ok res) ∧
    ins_post lvl (blocks s) (blocks s1) (root m) c fp (leaf_tuple cube tid) res ∧
    (0 ∉ fp) ∧ 0 ≤ root m < zlen (blocks s) ∧
    if split res then
      log s' = log s1 ++ [EvExtend; EvDirty (nblocks s1); EvDirty (root m); EvDirty 0] ∧
      bget (blocks s') 0 = Some (page_set_sp (SpMeta (set_root (nblocks s1) (uint16 (root_level m + 1)) m)) mp)
    else s' = s1.
Proof.
  intros Hi Hroom Hk Hm Hsp.
  destruct (insert_run s lvl c cube tid Hi Hroom Hk) as (s' & lvl' & c' & He & _).
  destruct (insert_enter s lvl c cube tid mp m Hi Hk Hm Hsp) as [box Hb].
  pose proof Hi as (mp' & m' & fp & Hm' & Hsp' & _ & Hlvl & HT & HN & H0 & _).
  assert (mp' = mp) as -> by congruence. assert (m' = m) as -> by congruence.
  destruct Hroom as [Hmax _]. unfold nblocks in Hmax.
  assert (Hrs : s = mkRel (blocks s) (needs_wal s) (log s)) by (by destruct s).
  destruct (insert_page_run lvl (blocks s) (needs_wal s) (log s) (root m) c fp (leaf_tuple cube tid) box HT HN)
    as (bs1 & lg1 & res & Hp & HI); [by apply leaf_tuple_ok|lia|].
  pose proof (tree_range _ _ _ _ _ HT) as HR. rewrite Forall_forall in HR.
  pose proof (HR _ (tree_root_in _ _ _ _ _ HT)) as Hroot.
  rewrite <- Hrs in Hp. exists s', (mkRel bs1 (needs_wal s) lg1), box, res, fp. split_and!; try done; try lia.
  rewrite He in Hb. unfold insert_below in Hb. rewrite Hlvl, Nat2Z.id in Hb. symmetry in Hb.
  erewrite bind_run in Hb by (exact Hp). destruct (split res); [|by injection Hb].
  apply bind_inv in Hb as (s2 & r & Hpr & Hb).
  assert (Hm2 : bget (blocks s2) 0 = Some mp).
  { destruct HI as [Hlen Hfr Gl Gr HTR]. apply (root_promote_meta _ _ _ _ _ _ _ Hpr).
    - rewrite <- Hm. cbn [blocks]. apply Hfr; [lia|done].
    - intros E. apply H0. rewrite <- E. by eapply tree_root_in. }
  apply root_promote_log in Hpr as (Hlg & -> & _). apply bind_inv in Hb as (? & mp2 & Hr & Hb).
  apply read_inv in Hr as [-> Hr]. apply bind_inv in Hb as (? & m2 & Hl & Hb). apply lift_inv in Hl as [-> Hl].
  assert (mp2 = mp) as -> by congruence. unfold meta_of in Hl. rewrite Hsp in Hl. injection Hl as <-.
  repeat inv_step Hb. injection Hb as <-.
  cbn [add_event set_block log blocks]. rewrite Hlg, <- app_assoc. split; [done|].
  rewrite Hlvl. by eapply bget_bset_eq.
Qed.

(** C11. On a logged relation an insertion of a good key that does not grow a new root survives a
    crash: every page it changed, split pages and rewritten downlinks included, is in its
    log records, and replaying them rebuilds the file exactly. *)
Theorem insert_durable s lvl c cube tid :
  index_rep s lvl c → has_room s lvl → good_key cube → needs_wal s = true →
  ∃ s', temporal_rtree_insert (Some cube) tid s = (s', Ok true) ∧
    (bget (blocks s') 0 = bget (blocks s) 0 → blocks (crash s s') = blocks s').
Proof.
  intros Hi Hroom Hk Hw. pose proof Hi as (mp & m & _ & Hm & Hsp & _).
  destruct (insert_cases s lvl c cube tid mp m Hi Hroom Hk Hm Hsp)
    as (s' & s1 & box & res & fp & He & Hp & HI & H0 & Hr & Hres).
  exists s'. split; [done|]. intros Hsame. destruct (split res).
  - destruct Hres as [_ Hm']. rewrite Hm', Hm in Hsame. injection Hsame as Hpg.
    apply (f_equal pd_sp) in Hpg. cbn in Hpg. rewrite Hsp in Hpg. injection Hpg as Hpg.
    apply (f_equal root) in Hpg. cbn in Hpg. destruct HI as [Hlen _ _ _ _]. unfold nblocks in Hpg. lia.
  - subst s'. eapply durable_crash; [apply insert_page_durable|done|exact Hp].
Qed.

(** The root is a leaf, or no leaf is empty. *)
Definition leaves_filled s (lvl : nat) : Prop :=
  lvl = O ∨ ∃ mp m, bget (blocks s) 0 = Some mp ∧ pd_sp mp = Some (SpMeta m) ∧ filled lvl (blocks s) (root m).

(** C14. An insertion that grows a new root does not survive a crash: the new root and the
    meta page are not logged.  On a logged index whose root is a leaf, or none of whose leaves is
    empty, the recovered file is a well-formed index of the old height that holds only the left
    half [c1] of the split root; the tuples [c2] of the right half, at least one, which the index
    held before the crash, cannot be reached any more. *)
Theorem root_split_lost s lvl c cube tid s' :
  index_rep s lvl c → has_room s lvl → good_key cube → needs_wal s = true → leaves_filled s lvl →
  temporal_rtree_insert (Some cube) tid s = (s', Ok true) →
  bget (blocks s') 0 ≠ bget (blocks s) 0 →
  (∃ lvl' c', index_rep s' lvl' c' ∧ c' ≡ₚ leaf_tuple cube tid :: c) ∧
  ∃ c1 c2, c1 ++ c2 ≡ₚ leaf_tuple cube tid :: c ∧ c2 ≠ [] ∧ index_rep (crash s s') lvl c1.
Proof.
  intros Hi Hroom Hk Hw Hfill He Hne. pose proof Hi as (mp & m & _ & Hm & Hsp & Hmg & Hlvl & _ & _ & _ & H2).
  split.
  { destruct (insert_run s lvl c cube tid Hi Hroom Hk) as (s2 & lvl' & c' & He' & Hi' & Hc' & _).
    assert (s2 = s') as -> by congruence. by exists lvl', c'. }
  destruct (insert_cases s lvl c cube tid mp m Hi Hroom Hk Hm Hsp)
    as (s2 & s1 & box & res & fp & He' & Hp & HI & H0 & Hr & Hres).
  assert (s2 = s') as -> by congruence. destruct HI as [Hlen Hfr _ _ HTR _ HQ].
  assert (Hm1 : bget (blocks s1) 0 = Some mp) by (rewrite Hfr; [done|lia|done]).
  destruct (split res); [|by subst; rewrite Hm1, Hm in Hne].
  destruct Hres as [Hlg _], HTR as (c1 & f1 & c2 & f2 & HT1 & HT2 & HP & HN & HW).
  assert (Hf : lvl = O ∨ filled lvl (blocks s) (root m)).
  { destruct Hfill as [|(mp' & m' & Hm' & Hsp' & HF)]; [by left|right]. by simplify_eq. }
  exists c1, c2. split; [done|]. split; [eapply filled_tree; [exact HT2|by apply HQ]|].
  assert (Hc : blocks (crash s s') = blocks s1 ++ [zero_page]).
  { destruct (insert_page_durable lvl (root m) (leaf_tuple cube tid) box s s1 res Hw Hp) as (_ & evs & L & HA).
    unfold crash, new_events. cbn [blocks]. rewrite Hlg, L, <- app_assoc, drop_app_length, recover_app.
    rewrite (agree_nil _ _ (HA _ (agree_refl _ _))). done. }
  exists mp, m, f1. rewrite Hc. apply NoDup_app in HN as (HN1 & _ & _).
  assert (Hext : ∀ b, b < zlen (blocks s1) → bget (blocks s1 ++ [zero_page]) b = bget (blocks s1) b).
  { intros b Hb. unfold bget, zlen in *. destruct (Z.ltb_spec b 0); [done|]. apply lookup_app_l. lia. }
  split_and!; try done.
  - rewrite Hext by lia. done.
  - eapply tree_frame; [exact HT1|]. intros b Hb. apply Hext.
    pose proof (tree_range _ _ _ _ _ HT1) as HR. rewrite Forall_forall in HR. apply HR in Hb. lia.
  - intros Hin. destruct (HW 0) as [?|?]; [apply elem_of_app; by left|done|lia].
  - unfold nblocks in *. rewrite Hc, zlen_app. unfold zlen in *. cbn. lia.
Qed.

(** * Vacuum *)

Lemma bulkdelete_enter cb stats s lvl c :
  index_rep s lvl c → nblocks s ≤ InvalidBlockNumber →
  ∃ mp m fp st0 s1 r,
    bget (blocks s) 0 = Some mp ∧ pd_sp mp = Some (SpMeta m) ∧ magic m = TRTREE_META_MAGIC ∧
    root_level m = Z.of_nat lvl ∧ root m ≠ 0 ∧ (0 ∉ fp) ∧ 2 ≤ nblocks s ∧
    rtree_vacuum_page cb (Z.to_nat (nblocks s)) (root m) st0 s = (s1, Ok r) ∧
    needs_wal s1 = needs_wal s ∧ vac_post cb lvl (blocks s) (blocks s1) (root m) c fp st0 r ∧
    temporal_rtree_bulkdelete cb stats s = (rtree_vacuum_shrink_root (root m) (root_level m);; mret r.1.2) s1.
Proof.
  intros (mp & m & fp & Hm & Hsp & Hmg & Hlvl & HT & HN & H0 & H2) Hmax.
  pose proof (tree_range _ _ _ _ _ HT) as HR. rewrite Forall_forall in HR.
  pose proof (tree_root_in _ _ _ _ _ HT) as Hrin. pose proof (HR _ Hrin).
  pose proof (tree_height _ _ _ _ _ HT).
  assert (length fp ≤ length (blocks s))%nat by (by apply NoDup_range_length).
  set (st0 := mkStats (nblocks s) false 0 (tuples_removed (default zero_stats stats))
                (pages_newly_deleted (default zero_stats stats)) 0 0).
  assert (Hrs : s = mkRel (blocks s) (needs_wal s) (log s)) by (by destruct s).
  destruct (vacuum_page_run cb lvl (Z.to_nat (nblocks s)) (blocks s) (needs_wal s) (log s) (root m) c fp st0 HT HN)
    as (bs1 & lg1 & r & He & HP); [done|unfold nblocks, zlen; lia|].
  rewrite <- Hrs in He. exists mp, m, fp, st0, (mkRel bs1 (needs_wal s) lg1), r.
  split_and!; try done; [intros E; by rewrite E in Hrin|].
  unfold temporal_rtree_bulkdelete. erewrite bind_run by done.
  destruct (Z.ltb_spec (nblocks s) 2); [lia|].
  erewrite bind_run by (unfold ReadBuffer, block; rewrite Hm; reflexivity).
  erewrite bind_run by (apply lift_run; unfold meta_of; by rewrite Hsp).
  rewrite (proj2 (Z.eqb_eq _ _) Hmg). cbn [negb]. unfold BlockNumberIsValid. unfold nblocks in Hmax.
  destruct (Z.eqb_spec (root m) InvalidBlockNumber) as [E|_]; [lia|]. cbn [negb].
  fold st0. erewrite bind_run by (exact He). by destruct r as [[e st1] bx].
Qed.

(** Lowering the root is logged, unless vacuum emptied an inner root. *)
Lemma shrink_logged s m p o its lvl s' b :
  meta_at (blocks s) m → root m ≠ 0 → nblocks s ≤ InvalidBlockNumber →
  bget (blocks s) (root m) = Some p → dpage p o its →
  has_flag (op_flags o) TRTREE_PAGE_LEAF = true ∨ its ≠ [] → needs_wal s = true →
  rtree_vacuum_shrink_root (root m) lvl s = (s', Ok b) →
  ∃ evs, log s' = log s ++ evs ∧ recover (blocks s) evs = blocks s'.
Proof.
  intros Hm Hr0 Hmax Hb Hp Hne Hw. pose proof (bget_range _ _ _ Hb) as Hrange. destruct s as [bs w lg].
  destruct (shrink_root_enter bs w lg m p o its lvl Hm Hr0 Hmax Hb Hp) as (mp & _ & _ & ->). cbn [blocks log] in *.
  assert (Hd : ∀ m' : M bool, durable m' → m' (mkRel bs w lg) = (s', Ok b) →
                 ∃ evs, log s' = lg ++ evs ∧ recover bs evs = blocks s').
  { intros m' Hm' E. destruct (Hm' _ _ _ Hw E) as (_ & evs & L & HA). exists evs. split; [done|].
    apply agree_nil, HA, agree_refl. }
  destruct (has_flag (op_flags o) TRTREE_PAGE_LEAF); cbn [orb]; [apply Hd, logs_done|].
  destruct (lvl =? 0); [apply Hd, logs_done|].
  destruct (Z.eqb_spec (zlen its) 0) as [E|_].
  - destruct Hne as [?|Hne]; [done|]. destruct its; [done|unfold zlen in E; cbn in E; lia].
  - destruct (zlen its =? 1); apply Hd; [|apply logs_done]. assert (0 ≤ root m) by lia. logs_run.
Qed.

(** C12. On a logged relation vacuum survives a crash whenever some tuple is left (or the
    index is a single leaf): replaying its records rebuilds the file exactly, the lowered
    root included. *)
Theorem bulkdelete_durable cb stats s lvl c :
  index_rep s lvl c → nblocks s ≤ InvalidBlockNumber → needs_wal s = true →
  lvl = 0%nat ∨ survivors cb c ≠ [] →
  ∃ s' stats', temporal_rtree_bulkdelete cb stats s = (s', Ok stats') ∧ blocks (crash s s') = blocks s'.
Proof.
  intros Hi Hmax Hw Hcase. destruct (bulkdelete_run cb s lvl c stats Hi Hmax) as (s' & st & lvl' & He & _).
  exists s', st. split; [done|].
  destruct (bulkdelete_enter cb stats s lvl c Hi Hmax)
    as (mp & m & fp & st0 & s1 & r & Hm & Hsp & Hmg & Hlvl & Hr0 & H0 & H2 & Hv & Hw1 & HP & Hbd).
  rewrite He in Hbd. symmetry in Hbd. apply bind_inv in Hbd as (s2 & b & Hsh & Hbd). injection Hbd as <- <-.
  destruct (vacuum_page_durable cb _ (root m) st0 s s1 r Hw Hv) as (_ & e1 & L1 & A1).
  assert (∃ p o its, bget (blocks s1) (root m) = Some p ∧ dpage p o its ∧
            (has_flag (op_flags o) TRTREE_PAGE_LEAF = true ∨ its ≠ [])) as (p & o & its & Hb & Hp & Hne).
  { destruct HP as [_ _ Hem Htr _]. destruct (r.1.1).
    - destruct (Hem eq_refl) as (Hs & p & o & ? & ? & _ & Hlf). destruct Hcase as [->|?]; [|done].
      exists p, o, []. split_and!; [done..|by left].
    - destruct (Htr eq_refl) as (_ & _ & fp' & HT & _). destruct lvl as [|l].
      + destruct HT as (p & o & its & ? & ? & _ & _ & ? & _). exists p, o, its. split_and!; [done..|by left].
      + apply tree_inner in HT as (p & o & its & subs & HI & _). exists p, o, its.
        split_and!; [apply HI..|right; apply HI]. }
  destruct (shrink_logged s1 m p o its (root_level m) s2 b) as (e2 & L2 & A2); try done.
  - exists mp. split_and!; [|done..]. rewrite <- Hm. by apply (vp_frame _ _ _ _ _ _ _ _ _ HP).
  - unfold nblocks. rewrite (vp_len _ _ _ _ _ _ _ _ _ HP). done.
  - by rewrite Hw1.
  - unfold crash, new_events. cbn [blocks]. rewrite L2, L1, <- app_assoc, drop_app_length, recover_app.
    by rewrite (agree_nil _ _ (A1 _ (agree_refl _ _))).
Qed.

(** C15. Vacuum that removes every tuple of an index with inner pages does not survive a
    crash: resetting the root to an empty leaf is neither logged nor marked dirty.  The
    recovered root is an inner page without downlinks, and every later insertion fails. *)
Theorem emptied_index_broken cb stats s l c key tid :
  index_rep s (S l) c → nblocks s ≤ InvalidBlockNumber → needs_wal s = true →
  survivors cb c = [] → good_key key →
  ∃ s' stats', temporal_rtree_bulkdelete cb stats s = (s', Ok stats') ∧
    (∃ lvl', index_rep s' lvl' []) ∧
    (temporal_rtree_insert (Some key) tid (crash s s')).2 =
      Err (Elog "temporal_rtree: internal page without downlinks").
Proof.
  intros Hi Hmax Hw Hs Hk. destruct (bulkdelete_run cb s (S l) c stats Hi Hmax) as (s' & st & lvl' & He & Hi' & _).
  exists s', st. split; [done|]. rewrite Hs in Hi'. split; [by exists lvl'|].
  destruct (bulkdelete_enter cb stats s (S l) c Hi Hmax)
    as (mp & m & fp & st0 & s1 & r & Hm & Hsp & Hmg & Hlvl & Hr0 & H0 & H2 & Hv & Hw1 & HP & Hbd).
  rewrite He in Hbd. symmetry in Hbd. apply bind_inv in Hbd as (s2 & b & Hsh & Hbd). injection Hbd as <- <-.
  destruct (vacuum_page_durable cb _ (root m) st0 s s1 r Hw Hv) as (_ & e1 & L1 & A1).
  assert (Hm1 : bget (blocks s1) 0 = Some mp) by (rewrite <- Hm; by apply (vp_frame _ _ _ _ _ _ _ _ _ HP)).
  assert (∃ p o, bget (blocks s1) (root m) = Some p ∧ dpage p o [] ∧ has_flag (op_flags o) TRTREE_PAGE_LEAF = false)
    as (p & o & Hb & Hp & Hlf).
  { destruct HP as [_ _ Hem Htr _]. destruct (r.1.1).
    - destruct (Hem eq_refl) as (_ & p & o & ? & ? & _ & ?). by exists p, o.
    - destruct (Htr eq_refl) as (_ & Hne & _). by rewrite Hs in Hne. }
  pose proof (vp_len _ _ _ _ _ _ _ _ _ HP) as Hlen.
  assert (Hlog : log s2 = log s1).
  { destruct s1 as [bs1 w1 lg1]. cbn [blocks] in *.
    destruct (shrink_root_enter bs1 w1 lg1 m p o [] (root_level m)) as (mp' & _ & _ & E); try done.
    - by exists mp.
    - rewrite Hlen. done.
    - rewrite E, Hlf, Hlvl in Hsh. destruct (Z.eqb_spec (Z.of_nat (S l)) 0); [lia|]. by injection Hsh as <- _. }
  assert (Hc : blocks (crash s s2) = blocks s1).
  { unfold crash, new_events. cbn [blocks]. rewrite Hlog, L1, drop_app_length.
    apply agree_nil, A1, agree_refl. }
  assert (Hn : nblocks (crash s s2) = nblocks s) by (unfold nblocks; by rewrite Hc).
  unfold temporal_rtree_insert. erewrite bind_run by done. rewrite Hn.
  destruct (Z.ltb_spec (nblocks s) 2); [lia|]. erewrite bind_run by done.
  destruct (form_leaf_tuple key Hk) as (it & Hf & Hset). erewrite bind_run by (apply lift_run, Hf).
  rewrite Hset. destruct (leaf_tuple_ok key tid Hk) as [_ (bx & Hbx & _)]. rewrite Hbx.
  erewrite bind_run by (unfold ReadBuffer, block; rewrite Hc, Hm1; reflexivity).
  erewrite bind_run by (apply lift_run; unfold meta_of; by rewrite Hsp).
  rewrite (proj2 (Z.eqb_eq _ _) Hmg). cbn [negb]. rewrite Hlvl, Nat2Z.id. cbn [rtree_insert_page].
  assert (Hcs : choose_subtree_insert p bx = Ok InvalidBlockNumber).
  { unfold choose_subtree_insert. rewrite (for_items_rep p []) by apply Hp. cbn [fold_items]. rsimpl. cbn [fst].
    by rewrite (page_rep_max p []) by apply Hp. }
  unfold mbind, M_bind. unfold ReadBuffer, block. rewrite Hc, Hb. unfold lift.
  rewrite (dpage_opaque _ _ _ Hp), Hlf, Hcs. done.
Qed.

End crash.

(** * Witnesses *)

Definition demo_cube : NDBOX := temporalbox 10 1577836800 None.
Definition demo_tuple : IndexTuple := leaf_tuple demo_cube (ItemPointerSet 0 1).

Lemma demo_cube_good : good_key demo_cube.
Proof. apply good_keyb_sound. by vm_compute. Qed.

(** A root leaf with as many tuples as fit. *)
Lemma full_leaf n :
  (n ≤ 156)%nat → ∃ p o, dpage p o (replicate n demo_tuple) ∧ op_level o = 0 ∧
                   has_flag (op_flags o) TRTREE_PAGE_LEAF = true.
Proof.
  induction n as [|n IH]; intros Hn.
  - exists (rtree_init_datapage 3 0), (mkOpaque InvalidBlockNumber 3 0 0). split; [apply dpage_init|done].
  - destruct IH as (p & o & Hp & Ho); [lia|].
    destruct (dpage_append p o _ demo_tuple Hp) as (p' & _ & Hp').
    + apply leaf_tuple_ok, demo_cube_good.
    + apply Forall_replicate, leaf_tuple_ok, demo_cube_good.
    + unfold zlen. rewrite length_replicate. lia.
    + exists p', o. rewrite replicate_S_end. done.
Qed.

Lemma full_index :
  ∃ s, index_rep s 0 (replicate 156 demo_tuple) ∧ nblocks s = 2 ∧ needs_wal s = true.
Proof.
  destruct (full_leaf 156) as (p & o & Hp & Hl & Hlf); [lia|].
  exists (mkRel [rtree_init_metapage 1 0; p] true []). split; [|done].
  eexists _, _, [1]. cbn [blocks].
  split_and!; [done|done|done|done| |apply NoDup_singleton|rewrite list_elem_of_singleton; done|done].
  exists p, o, (replicate 156 demo_tuple). split_and!; try done.
  apply Forall_replicate, leaf_tuple_ok, demo_cube_good.
Qed.

(** One more tuple grows a root. *)
Lemma full_index_grows s :
  index_rep s 0 (replicate 156 demo_tuple) → nblocks s = 2 → needs_wal s = true →
  ∃ s' c', temporal_rtree_insert (Some demo_cube) (ItemPointerSet 0 1) s = (s', Ok true) ∧
    bget (blocks s') 0 ≠ bget (blocks s) 0 ∧ index_rep s' 1 c' ∧ nblocks s' ≤ 4 ∧ needs_wal s' = true.
Proof.
  intros Hi Hn Hw.
  destruct (insert_run s 0 _ demo_cube (ItemPointerSet 0 1) Hi) as (s' & lvl' & c' & He & Hi' & Hc & Hw' & Hb & Hl).
  { unfold has_room. rewrite Hn. by vm_compute. }
  { apply demo_cube_good. }
  assert (lvl' ≠ 0%nat) as Hne.
  { intros ->. destruct Hi' as (_ & m & fp & _ & _ & _ & _ & (p & o & its & _ & Hp & _ & HF & _ & -> & _) & _).
    pose proof (dpage_uniform_len _ _ _ Hp HF) as Hlen. apply Permutation_length in Hc.
    cbn [length] in Hc. rewrite length_replicate in Hc. unfold zlen in Hlen. lia. }
  exists s', c'. assert (lvl' = 1%nat) as -> by lia. split_and!; [done| |done|lia|congruence].
  intros E. destruct Hi as (mp & m & _ & Hm & Hsp & _ & Hlv & _), Hi' as (mp' & m' & _ & Hm' & Hsp' & _ & Hlv' & _).
  assert (mp' = mp) by congruence. subst. assert (m' = m) by congruence. subst. lia.
Qed.

Lemma insert_durable_witness :
  ∃ s', temporal_rtree_insert (Some demo_cube) (ItemPointerSet 0 1) new_index = (s', Ok true) ∧
        blocks (crash new_index s') = blocks s'.
Proof.
  destruct new_index_rep as [Hi Hn].
  destruct (insert_durable new_index 0 [] demo_cube (ItemPointerSet 0 1) Hi) as (s' & He & Hd).
  - split; [rewrite Hn; vm_compute; discriminate|vm_compute; reflexivity].
  - exact demo_cube_good.
  - vm_compute. reflexivity.
  - exists s'. split; [exact He|]. apply Hd.
    replace s' with (temporal_rtree_insert (Some demo_cube) (ItemPointerSet 0 1) new_index).1 by (rewrite He; reflexivity).
    vm_compute. reflexivity.
Defined.

Lemma root_split_lost_witness :
  ∃ s s' c1 c2, temporal_rtree_insert (Some demo_cube) (ItemPointerSet 0 1) s = (s', Ok true) ∧
    (∃ lvl' c', index_rep s' lvl' c' ∧ length c' = 157%nat) ∧
    index_rep (crash s s') 0 c1 ∧ c1 ++ c2 ≡ₚ replicate 157 demo_tuple ∧ c2 ≠ [].
Proof.
  destruct full_index as (s & Hi & Hn & Hw). destruct (full_index_grows s Hi Hn Hw) as (s' & c' & He & Hne & _).
  destruct (root_split_lost s 0 (replicate 156 demo_tuple) demo_cube (ItemPointerSet 0 1) s' Hi)
    as ((lvl' & c'' & Hi' & Hc') & c1 & c2 & Hc & Hc2 & Hcr).
  - unfold has_room. rewrite Hn. split; vm_compute; [discriminate|reflexivity].
  - exact demo_cube_good.
  - exact Hw.
  - left. reflexivity.
  - exact He.
  - exact Hne.
  - exists s, s', c1, c2. split_and!; [exact He| |exact Hcr|exact Hc|exact Hc2].
    exists lvl', c''. split; [exact Hi'|]. apply Permutation_length in Hc'. rewrite Hc'. reflexivity.
Defined.

Lemma bulkdelete_durable_witness :
  ∃ s' stats', temporal_rtree_bulkdelete (Some (λ tid, ip_posid tid =? 3)) None new_index = (s', Ok stats') ∧
    blocks (crash new_index s') = blocks s'.
Proof.
  destruct new_index_rep as [Hi Hn].
  apply (bulkdelete_durable (Some (λ tid, ip_posid tid =? 3)) None new_index 0 [] Hi).
  - rewrite Hn. vm_compute. discriminate.
  - vm_compute. reflexivity.
  - left. reflexivity.
Defined.

Lemma emptied_index_broken_witness :
  ∃ s s' stats', temporal_rtree_bulkdelete (Some (λ _, true)) None s = (s', Ok stats') ∧
    (∃ lvl', index_rep s' lvl' []) ∧
    (temporal_rtree_insert (Some demo_cube) (ItemPointerSet 0 1) (crash s s')).2 =
      Err (Elog "temporal_rtree: internal page without downlinks").
Proof.
  destruct full_index as (s0 & Hi & Hn & Hw).
  destruct (full_index_grows s0 Hi Hn Hw) as (s & c & He & Hne & Hi1 & Hn1 & Hw1). exists s.
  apply (emptied_index_broken (Some (λ _, true)) None s 0 c demo_cube (ItemPointerSet 0 1) Hi1).
  - unfold InvalidBlockNumber. lia.
  - exact Hw1.
  - apply filter_none, Forall_true. discriminate.
  - exact demo_cube_good.
Defined.
