(* ===== verification/Defects.v ===== *)
(** Behaviour outside the preconditions of the correctness theorems: keys of different
    sizes (a point takes 32 bytes in a tuple, a box 48), and creation before a crash. *)

From S2P Require Import Prelude Float64 Cube Box Split Bufpage Itup Store Insert Tree Index Search Scan Interleave Vacuum Prune Recovery.

(** A tuple with a point key, and one with a box key. *)
Definition point_key : NDBOX := point_cube 2 [i2d 10; i2d 1000].
Definition box_key : NDBOX := temporalbox 10 1000 (Some 2000).

Definition tuple_for (key : NDBOX) (tid : ItemPointerData) : IndexTuple :=
  match index_form_tuple (Some key) with
  | Ok it => set_tid tid it
  | Err _ => mkItup tid 0 None
  end.

Definition tuples_for (key : NDBOX) (first n : nat) : list IndexTuple :=
  map (λ i, tuple_for key (ItemPointerSet 0 (Z.of_nat i))) (seq first n).

Definition page_of (flags level : Z) (items : list IndexTuple) : RPage :=
  match add_items (rtree_init_datapage flags level) items with Ok p => p | Err _ => zero_page end.

(** An index whose root leaf is full of 222 points and three boxes. *)
Definition mixed_index : Rel :=
  mkRel [rtree_init_metapage 1 0;
         page_of (Z.lor TRTREE_PAGE_LEAF TRTREE_PAGE_ROOT) 0 (tuples_for point_key 1 222 ++ tuples_for box_key 301 3)]
    true [].

Definition scan_tids (s : Rel) (key : ScanKeyData) : list Z :=
  match run_scan 300 s [key] with Ok (out, _) => map (λ r, ip_posid r.1) out | Err _ => [] end.

(** A page split can lose the row being inserted when tuples have different sizes:
    [tr_picksplit] balances boxes, not bytes, and the split ignores that [PageAddItem] found
    no room.  Here the insertion of row 400 reports success, all 225 rows of the full leaf
    are still found by a scan that selects every row, and row 400 is not. *)
Theorem split_loses_row :
  let key := mkKey 0 TRTREE_STRATEGY_OVERLAP box_key in
  let '(s, r) := temporal_rtree_insert (Some box_key) (ItemPointerSet 0 400) mixed_index in
  r = Ok true ∧ length (scan_tids mixed_index key) = 225%nat ∧ length (scan_tids s key) = 225%nat ∧
  sql_operator TRTREE_STRATEGY_OVERLAP box_key box_key = true ∧ existsb (Z.eqb 400) (scan_tids s key) = false.
Proof. vm_compute. split_and!; reflexivity. Qed.

(** An inner page that is exactly full: 225 downlinks with a point key, one with a box. *)
Definition full_inner : Rel :=
  mkRel [rtree_init_metapage 1 1; page_of TRTREE_PAGE_ROOT 1 (tuples_for point_key 1 225 ++ tuples_for box_key 301 1)]
    true [].

(** Rewriting a downlink whose box grew can fail on a full page, and the error leaves
    the page in the shared buffer without the downlink: [rtree_replace_tuple] deletes the
    old tuple before it finds that the larger one does not fit. *)
Theorem replace_loses_downlink :
  let '(s, r) := rtree_replace_tuple 1 1 (tuple_for box_key (ItemPointerSet 0 1)) full_inner in
  r = Err (Elog "failed to replace index tuple on page") ∧
  (PageGetMaxOffsetNumber <$> block full_inner 1) = Some 226 ∧
  (PageGetMaxOffsetNumber <$> block s 1) = Some 225.
Proof. vm_compute. split_and!; reflexivity. Qed.

(** A new index is not logged at all: after a crash both its blocks are zero. *)
Lemma new_index_not_logged : blocks (crash (mkRel [] true []) new_index) = [zero_page; zero_page].
Proof. vm_compute. reflexivity. Qed.

(** * A scan that overlaps a page split *)

(** Open-ended rows of one employee, and one of another. *)
Definition open_row (i : nat) : NDBOX := temporalbox 10 (1000 + Z.of_nat i) None.
Definition far_row : NDBOX := temporalbox 900000 1000 None.

Definition left_leaf : list IndexTuple :=
  map (λ i, leaf_tuple (open_row i) (ItemPointerSet 0 (Z.of_nat i))) (seq 1 156).
Definition right_leaf : list IndexTuple := [leaf_tuple far_row (ItemPointerSet 0 200)].
Definition downlink (its : list IndexTuple) (blk : Z) : IndexTuple :=
  match rtree_form_tuple (mbr its) (ItemPointerSet blk FirstOffsetNumber) with
  | Ok it => it
  | Err _ => mkItup (ItemPointerSet blk FirstOffsetNumber) 0 None
  end.

(** An index of two leaves; here the left one is full. *)
Definition two_leaves (l r : list IndexTuple) : Rel :=
  mkRel [rtree_init_metapage 3 1; page_of TRTREE_PAGE_LEAF 0 l; page_of TRTREE_PAGE_LEAF 0 r;
         page_of TRTREE_PAGE_ROOT 1 [downlink l 1; downlink r 2]] true [].
Definition crowded_index : Rel := two_leaves left_leaf right_leaf.

Definition every_row : ScanKeyData :=
  mkKey 0 TRTREE_STRATEGY_OVERLAP (box_cube 2 [i2d 0; i2d 0; i2d 1000000; i2d 1000000000]).
Definition split_while_scanning : list action :=
  repeat Fetch 157 ++ [Add (open_row 157) (ItemPointerSet 0 157)].
Definition times (x : Z) (l : list Z) : nat := length (filter (λ y, y = x) l).

Lemma page_of_rep flags level its :
  Forall tuple_ok its → 52 * zlen its ≤ 8152 →
  dpage (page_of flags level its) (mkOpaque InvalidBlockNumber flags level 0) its.
Proof.
  intros HF Hfit. unfold page_of.
  destruct (add_items_rep _ _ [] its (dpage_init flags level)) as (p & -> & Hp); [constructor|done|exact Hfit|done].
Qed.

Lemma left_leaf_ok : Forall tuple_ok left_leaf.
Proof.
  apply List.Forall_forall. intros it (i & <- & Hi)%in_map_iff. apply leaf_tuple_ok, good_keyb_sound.
  assert (HA : forallb (λ i, good_keyb (open_row i)) (seq 1 156) = true) by (vm_compute; reflexivity).
  by apply (proj1 (forallb_forall _ _) HA).
Qed.

Lemma right_leaf_ok : Forall tuple_ok right_leaf.
Proof. constructor; [|constructor]. apply leaf_tuple_ok, good_keyb_sound. vm_compute. reflexivity. Qed.

Lemma downlink_ok its blk :
  its ≠ [] → Forall tuple_ok its → tuple_ok (downlink its blk) ∧ t_tid (downlink its blk) = ItemPointerSet blk FirstOffsetNumber.
Proof.
  intros Hne HF. unfold downlink.
  destruct (rtree_form_tuple_good (mbr its) (ItemPointerSet blk FirstOffsetNumber)) as (it & -> & ? & ?);
    [by apply mbr_good|done].
Qed.

(** It is a sound index. *)
Lemma two_leaves_rep l r :
  l ≠ [] → r ≠ [] → Forall tuple_ok l → Forall tuple_ok r → 52 * zlen l ≤ 8152 → 52 * zlen r ≤ 8152 →
  index_rep (two_leaves l r) 1 (l ++ r).
Proof.
  intros Hl Hr HFl HFr Hsl Hsr. destruct (downlink_ok l 1 Hl HFl) as [D1 T1]. destruct (downlink_ok r 2 Hr HFr) as [D2 T2].
  assert (HD : Forall tuple_ok [downlink l 1; downlink r 2]) by (repeat apply Forall_cons_2; [done|done|apply Forall_nil_2]).
  eexists _, _, [3; 1; 2]. split; [reflexivity|]. split; [reflexivity|]. split; [reflexivity|]. split; [reflexivity|].
  split; [|split; [by apply (bool_decide_unpack _)|split; [by apply (bool_decide_unpack _)|done]]].
  eexists _, _, [downlink l 1; downlink r 2]. split; [reflexivity|].
  split; [by apply page_of_rep|]. split; [reflexivity|]. split; [done|].
  split; [reflexivity|]. split; [done|]. exists [(l, [1]); (r, [2])].
  split; [|split; [cbn [map concat fst]; by rewrite app_nil_r|reflexivity]].
  constructor; [|constructor; [|constructor]]; cbn [fst snd]; unfold child; rewrite ?T1, ?T2.
  - eexists _, _, l. split; [reflexivity|]. split; [by apply page_of_rep|]. split_and!; [reflexivity|done|reflexivity..].
  - eexists _, _, r. split; [reflexivity|]. split; [by apply page_of_rep|]. split_and!; [reflexivity|done|reflexivity..].
Qed.

Lemma crowded_rep : index_rep crowded_index 1 (left_leaf ++ right_leaf).
Proof.
  apply two_leaves_rep; [discriminate|discriminate|exact left_leaf_ok|exact right_leaf_ok|vm_compute; discriminate..].
Qed.

(** A scan can return a row twice when another session inserts meanwhile.  In a sound
    index of two leaves the scan reads the full left leaf and stands, with its lock, on the
    right one; an insertion then splits the left leaf without touching the right one, and
    the new leaf, linked at the end of the root, is visited as well: of the 157 rows, row 100
    and 77 others are returned twice.  The scan does not use the right links and sequence
    numbers the pages carry for this purpose. *)
Theorem scan_returns_rows_twice :
  (∃ c, index_rep crowded_index 1 c ∧ length c = 157%nat) ∧
  bget (blocks (after split_while_scanning crowded_index)) 2 = bget (blocks crowded_index) 2 ∧
  match run_session 400 [every_row] split_while_scanning crowded_index with
  | Ok (out, _) => length out = 235%nat ∧ times 100 (map ip_posid out) = 2%nat
  | Err _ => False
  end.
Proof.
  split; [exists (left_leaf ++ right_leaf); split; [apply crowded_rep|done]|]. vm_compute. split_and!; reflexivity.
Qed.
