(* ===== verification/Hooks.v ===== *)
(** temporal_rtree_hooks.c: the planner, executor and path-list hooks, their counters and
    their installation.

    The system catalogs, the standard planner and executor and hooks installed by other
    modules are parameters. *)

From stdpp Require Import strings.
From S2P Require Import Prelude Float64.
#[local] Open Scope Z_scope.
#[local] Set Warnings "-register-all".

Abbreviation Oid := Z.
Definition InvalidOid : Oid := 0.

(** * What the hooks look at *)

Inductive BoolExprType : Type := AND_EXPR | OR_EXPR | NOT_EXPR.

(** Expression trees: the node types the hooks test, and the children
    [expression_tree_walker] visits in the others. *)
Inductive Node : Type :=
  | Null
  | FuncExpr (funcid : Oid) (args : list Node)
  | OpExpr (opno : Oid) (args : list Node)
  | BoolExpr (boolop : BoolExprType) (args : list Node)
  | NodeList (cells : list Node)
  | OtherNode (children : list Node).

(** The children of a node, as [expression_tree_walker] visits them. *)
Definition children (n : Node) : list Node :=
  match n with
  | Null => []
  | FuncExpr _ l | OpExpr _ l | BoolExpr _ l | NodeList l | OtherNode l => l
  end.

(** Lookups in the system caches; [None] is an invalid tuple. *)
Record Catalog : Type := mkCatalog {
  RelationGetIndexList : Oid → list Oid;
  relam : Oid → option Oid;
  amname : Oid → option string;
  proname : Oid → option string;
  oprname : Oid → option string;
}.

Inductive RTEKind : Type := RTE_RELATION | RTE_OTHER.
Record RangeTblEntry : Type := mkRte { rtekind : RTEKind; rte_relid : Oid }.

Inductive CmdType : Type := CMD_SELECT | CMD_INSERT | CMD_UPDATE | CMD_DELETE | CMD_OTHER.
#[export] Instance CmdType_eq_dec : EqDecision CmdType.
Proof. solve_decision. Defined.

(** [jointree] is [None] for a null pointer, its [quals] may be [Null]. *)
Record Query : Type := mkQuery {
  commandType : CmdType;
  targetList : list Node;
  jointree : option Node;
  rtable : list RangeTblEntry;
}.

(** [indexoid] is [None] for a path that is not an [IndexPath]. *)
Record Path : Type := mkPath { indexoid : option Oid; startup_cost : double; total_cost : double }.

Record RelOptInfo : Type := mkRelOpt { baserestrictinfo : list Node; pathlist : list Path }.

Record QueryDesc : Type := mkQueryDesc {
  operation : CmdType;
  plannedstmt : option (list RangeTblEntry);
}.

(** * The state of the module *)

(** A hook variable: null, this module's function, or another module's. *)
Inductive hook : Type := NoHook | Trtree | Other (n : nat).

Inductive message : Type :=
  | PlannerHit (has_temporalbox has_rtree_idx : bool)
  | ExecutorHit (cmdname : string)
  | BiasApplied
  | Unloaded.

Record HookStats : Type := mkHookStats {
  planner_hits : Z;
  planner_rtree_eligible_hits : Z;
  executor_dml_hits : Z;
  executor_target_with_rtree_hits : Z;
  path_bias_applied : Z;
}.

Record Gucs : Type := mkGucs {
  enable_hook_debug : bool;
  force_rtree_paths : bool;
  log_dml : bool;
}.

Record HookVars : Type := mkHookVars {
  planner_hook : hook;
  ExecutorStart_hook : hook;
  set_rel_pathlist_hook : hook;
  prev_planner_hook : hook;
  prev_ExecutorStart_hook : hook;
  prev_set_rel_pathlist_hook : hook;
}.

(** [uint64] counters. *)
Definition incr (n : Z) : Z := (n + 1) mod 2 ^ 64.
Definition zero_hook_stats : HookStats := mkHookStats 0 0 0 0 0.

Section hooks.
Context (cat : Catalog).

(** * Detection *)

Definition trtree_index (indexOid : Oid) : bool :=
  match relam cat indexOid with
  | None => false
  | Some amOid =>
      if amOid =? InvalidOid then false
      else match amname cat amOid with
           | None => false
           | Some name => String.eqb name "temporal_rtree"
           end
  end.

Fixpoint any_rtree (indexOids : list Oid) : bool :=
  match indexOids with
  | [] => false
  | indexOid :: rest => if trtree_index indexOid then true else any_rtree rest
  end.

Definition trtree_has_temporal_rtree_index (relationOid : Oid) : bool :=
  any_rtree (RelationGetIndexList cat relationOid).

Fixpoint first_rtree (indexOids : list Oid) : Oid :=
  match indexOids with
  | [] => InvalidOid
  | indexOid :: rest => if trtree_index indexOid then indexOid else first_rtree rest
  end.

Definition trtree_get_rtree_index_oid (relationOid : Oid) : Oid :=
  first_rtree (RelationGetIndexList cat relationOid).

Definition is_temporalbox (funcid : Oid) : bool :=
  match proname cat funcid with None => false | Some name => String.eqb name "temporalbox" end.

Fixpoint trtree_contains_temporalbox (node : Node) : bool :=
  match node with
  | Null => false
  | FuncExpr funcid args =>
      if is_temporalbox funcid then true else existsb trtree_contains_temporalbox args
  | OpExpr _ l | BoolExpr _ l | NodeList l | OtherNode l => existsb trtree_contains_temporalbox l
  end.

Definition trtree_is_compatible_operator (opoid : Oid) : bool :=
  match oprname cat opoid with
  | None => false
  | Some opname => String.eqb opname "&&" || String.eqb opname "@>" || String.eqb opname "<@"
  end.

Fixpoint trtree_clause_is_temporal_rtree_compatible (clause : Node) : bool :=
  match clause with
  | OpExpr opno args =>
      match args with
      | [leftarg; rightarg] =>
          if trtree_contains_temporalbox leftarg && trtree_is_compatible_operator opno then true
          else trtree_contains_temporalbox rightarg && trtree_is_compatible_operator opno
      | _ => false
      end
  | BoolExpr AND_EXPR args => existsb trtree_clause_is_temporal_rtree_compatible args
  | _ => false
  end.

Definition trtree_has_compatible_clauses (rel : RelOptInfo) : bool :=
  existsb trtree_clause_is_temporal_rtree_compatible (baserestrictinfo rel).

(** * The hooks *)

Section planner.
Context {W PlannedStmt : Type}.
(** The planner called next: the hook saved by [_PG_init], or the standard one. *)
Context (call_planner : hook → Query → W → W * PlannedStmt) (standard_planner : Query → W → W * PlannedStmt).

Fixpoint any_indexed_rel (rtes : list RangeTblEntry) : bool :=
  match rtes with
  | [] => false
  | rte :: rest =>
      match rtekind rte with
      | RTE_RELATION =>
          if negb (rte_relid rte =? InvalidOid) && trtree_has_temporal_rtree_index (rte_relid rte)
          then true else any_indexed_rel rest
      | RTE_OTHER => any_indexed_rel rest
      end
  end.

Definition query_has_temporalbox (parse : Query) : bool :=
  let has := match targetList parse with
             | [] => false
             | tl => trtree_contains_temporalbox (NodeList tl)
             end in
  if has then true
  else match jointree parse with
       | None => false
       | Some quals => trtree_contains_temporalbox quals
       end.

Definition trtree_planner_hook (g : Gucs) (v : HookVars) (st : HookStats) (log : list message)
    (parse : Query) (w : W) : HookStats * list message * (W * PlannedStmt) :=
  let has_temporalbox := query_has_temporalbox parse in
  let has_rtree_indexed_rel := any_indexed_rel (rtable parse) in
  let st :=
    if has_temporalbox || has_rtree_indexed_rel then
      mkHookStats (incr (planner_hits st))
        (if has_temporalbox && has_rtree_indexed_rel then incr (planner_rtree_eligible_hits st)
         else planner_rtree_eligible_hits st)
        (executor_dml_hits st) (executor_target_with_rtree_hits st) (path_bias_applied st)
    else st in
  let log :=
    if enable_hook_debug g && (has_temporalbox || has_rtree_indexed_rel)
    then log ++ [PlannerHit has_temporalbox has_rtree_indexed_rel] else log in
  (st, log,
   match prev_planner_hook v with
   | NoHook => standard_planner parse w
   | h => call_planner h parse w
   end).

End planner.

Section executor.
Context {W : Type}.
Context (call_start : hook → QueryDesc → W → W) (standard_ExecutorStart : QueryDesc → W → W).

(** The loop over the range table. *)
Definition executor_step (op : CmdType) (s : HookStats * bool) (rte : RangeTblEntry) : HookStats * bool :=
  let '(st, has_rtree_idx) := s in
  match rtekind rte with
  | RTE_RELATION =>
      if negb (rte_relid rte =? InvalidOid) && negb (bool_decide (op = CMD_SELECT)) then
        let rtree := trtree_has_temporal_rtree_index (rte_relid rte) in
        (mkHookStats (planner_hits st) (planner_rtree_eligible_hits st) (incr (executor_dml_hits st))
           (if rtree then incr (executor_target_with_rtree_hits st) else executor_target_with_rtree_hits st)
           (path_bias_applied st),
         if rtree then true else has_rtree_idx)
      else s
  | RTE_OTHER => s
  end.

Definition cmdname (op : CmdType) : string :=
  match op with
  | CMD_SELECT => "SELECT"
  | CMD_INSERT => "INSERT"
  | CMD_UPDATE => "UPDATE"
  | CMD_DELETE => "DELETE"
  | CMD_OTHER => "OTHER"
  end.

Definition trtree_executor_start_hook (g : Gucs) (v : HookVars) (st : HookStats) (log : list message)
    (queryDesc : QueryDesc) (w : W) : HookStats * list message * W :=
  let '(st, has_rtree_idx) :=
    match plannedstmt queryDesc with
    | None => (st, false)
    | Some rtes => foldl (executor_step (operation queryDesc)) (st, false) rtes
    end in
  let log :=
    if enable_hook_debug g && log_dml g && has_rtree_idx
    then log ++ [ExecutorHit (cmdname (operation queryDesc))] else log in
  (st, log,
   match prev_ExecutorStart_hook v with
   | NoHook => standard_ExecutorStart queryDesc w
   | h => call_start h queryDesc w
   end).

End executor.

Definition COST_BIAS_FACTOR : double := dlit 5 100.

(** The loop over the paths: the paths changed in place, the counters, the log. *)
Definition bias_step (g : Gucs) (rtree_index_oid : Oid)
    (s : list Path * HookStats * list message) (path : Path) : list Path * HookStats * list message :=
  let '(paths, st, log) := s in
  match indexoid path with
  | None => (paths ++ [path], st, log)
  | Some oid =>
      if oid =? rtree_index_oid then
        (paths ++ [mkPath (Some oid) (dmul (startup_cost path) COST_BIAS_FACTOR)
                     (dmul (total_cost path) COST_BIAS_FACTOR)],
         mkHookStats (planner_hits st) (planner_rtree_eligible_hits st) (executor_dml_hits st)
           (executor_target_with_rtree_hits st) (incr (path_bias_applied st)),
         if enable_hook_debug g then log ++ [BiasApplied] else log)
      else (paths ++ [path], st, log)
  end.

Section pathlist.
Context {W : Type}.
Context (call_pathlist : hook → RelOptInfo → W → W * RelOptInfo).

Definition trtree_set_rel_pathlist_hook (g : Gucs) (v : HookVars) (st : HookStats) (log : list message)
    (command : CmdType) (rel : RelOptInfo) (rte : RangeTblEntry) (w : W)
  : HookStats * list message * (W * RelOptInfo) :=
  let '(w, rel) :=
    match prev_set_rel_pathlist_hook v with
    | NoHook => (w, rel)
    | h => call_pathlist h rel w
    end in
  let same := (st, log, (w, rel)) in
  if negb (force_rtree_paths g) then same
  else if negb (bool_decide (command = CMD_SELECT)) && negb (bool_decide (command = CMD_UPDATE)) &&
          negb (bool_decide (command = CMD_DELETE)) then same
  else
    match rtekind rte with
    | RTE_OTHER => same
    | RTE_RELATION =>
        if rte_relid rte =? InvalidOid then same
        else
          let rtree_index_oid := trtree_get_rtree_index_oid (rte_relid rte) in
          if rtree_index_oid =? InvalidOid then same
          else if negb (trtree_has_compatible_clauses rel) then same
          else
            let '(paths, st, log) := foldl (bias_step g rtree_index_oid) ([], st, log) (pathlist rel) in
            (st, log, (w, mkRelOpt (baserestrictinfo rel) paths))
    end.

End pathlist.
End hooks.

(** * SQL functions *)

(** [Int64GetDatum((int64) counter)]. *)
Definition temporal_rtree_hook_stats (st : HookStats) : list Z :=
  [int64 (planner_hits st); int64 (planner_rtree_eligible_hits st); int64 (executor_dml_hits st);
   int64 (executor_target_with_rtree_hits st); int64 (path_bias_applied st)].

Definition temporal_rtree_hook_reset (st : HookStats) : HookStats := zero_hook_stats.

(** * Loading and unloading *)

Definition _PG_init (v : HookVars) : Gucs * HookVars :=
  (mkGucs false false false,
   {| planner_hook := Trtree;
      ExecutorStart_hook := Trtree;
      set_rel_pathlist_hook := Trtree;
      prev_planner_hook := planner_hook v;
      prev_ExecutorStart_hook := ExecutorStart_hook v;
      prev_set_rel_pathlist_hook := set_rel_pathlist_hook v |}).

Definition _PG_fini (v : HookVars) (log : list message) : HookVars * list message :=
  ({| planner_hook := prev_planner_hook v;
      ExecutorStart_hook := prev_ExecutorStart_hook v;
      set_rel_pathlist_hook := prev_set_rel_pathlist_hook v;
      prev_planner_hook := prev_planner_hook v;
      prev_ExecutorStart_hook := prev_ExecutorStart_hook v;
      prev_set_rel_pathlist_hook := prev_set_rel_pathlist_hook v |},
   log ++ [Unloaded]).

(** * Which clauses count

    [mentions cat n]: somewhere in the tree [n] a function called temporalbox is applied.
    [rtree_clause cat n]: [n] is, possibly inside conjunctions, a binary operator [&&],
    [@>] or [<@] one of whose arguments mentions temporalbox. *)

Inductive mentions (cat : Catalog) : Node → Prop :=
  | mentions_here f args : proname cat f = Some "temporalbox" → mentions cat (FuncExpr f args)
  | mentions_below n c : In c (children n) → mentions cat c → mentions cat n.

Inductive rtree_clause (cat : Catalog) : Node → Prop :=
  | rc_op op name l r :
      oprname cat op = Some name → In name ["&&"; "@>"; "<@"] → mentions cat l ∨ mentions cat r →
      rtree_clause cat (OpExpr op [l; r])
  | rc_and c args : In c args → rtree_clause cat c → rtree_clause cat (BoolExpr AND_EXPR args).

(** Induction on expression trees, through the lists of children. *)
Lemma Node_children_ind (P : Node → Prop) :
  (∀ n, (∀ c, In c (children n) → P c) → P n) → ∀ n, P n.
Proof.
  intros HP. fix IH 1. intros n. apply HP.
  assert (HL : ∀ l : list Node, (∀ c, In c l → P c) → ∀ c, In c l → P c) by auto.
  destruct n as [|f l|o l|b l|l|l]; cbn [children];
    [intros c []|..]; (induction l as [|c l IHl]; intros c' Hin; [destruct Hin|]);
    (destruct Hin as [<-|Hin]; [apply IH|by apply IHl]).
Qed.

Section clauses.
Context (cat : Catalog).

Lemma contains_mentions n : trtree_contains_temporalbox cat n = true ↔ mentions cat n.
Proof.
  induction n as [n IH] using Node_children_ind.
  assert (HE : existsb (trtree_contains_temporalbox cat) (children n) = true ↔
               ∃ c, In c (children n) ∧ mentions cat c).
  { rewrite existsb_exists. split; intros (c & Hin & Hc); exists c; (split; [done|by apply IH]). }
  assert (HB : (∃ c, In c (children n) ∧ mentions cat c) → mentions cat n).
  { intros (c & ? & ?). by eapply mentions_below. }
  split.
  - destruct n as [|f l|o l|b l|l|l]; cbn [trtree_contains_temporalbox]; [done| |by intros ?%HE%HB..].
    unfold is_temporalbox. destruct (proname cat f) as [name|] eqn:Hn; [|by intros ?%HE%HB].
    destruct (String.eqb_spec name "temporalbox") as [->|_]; [|by intros ?%HE%HB].
    intros _. by apply mentions_here.
  - intros Hm. inversion Hm as [f args Hf|n' c Hin Hc]; subst.
    + cbn. unfold is_temporalbox. by rewrite Hf.
    + assert (HX := proj2 HE (ex_intro _ c (conj Hin Hc))).
      destruct n as [|f l|o l|b l|l|l]; cbn [trtree_contains_temporalbox]; try exact HX.
      cbn [children] in HX. rewrite HX. by destruct (is_temporalbox cat f).
Qed.

Lemma compatible_operator op :
  trtree_is_compatible_operator cat op = true ↔ ∃ name, oprname cat op = Some name ∧ In name ["&&"; "@>"; "<@"].
Proof.
  unfold trtree_is_compatible_operator. destruct (oprname cat op) as [name|].
  - rewrite !orb_true_iff, !String.eqb_eq. split.
    + intros Hn. exists name. split; [done|]. cbn. intuition.
    + intros (n & [= <-] & Hn). cbn in Hn. intuition.
  - split; [done|]. by intros (n & ? & _).
Qed.

(** A restriction clause is taken for an index clause exactly when it is, possibly
    nested in conjunctions only, a binary [&&], [@>] or [<@] with temporalbox somewhere in
    one of its arguments; disjunctions and negations never qualify. *)
Theorem clause_compatible_spec n :
  trtree_clause_is_temporal_rtree_compatible cat n = true ↔ rtree_clause cat n.
Proof.
  induction n as [n IH] using Node_children_ind. split.
  - destruct n as [|f l|o l|[] l|l|l]; cbn [trtree_clause_is_temporal_rtree_compatible]; try done.
    + destruct l as [|a [|b [|? ?]]]; try done.
      destruct (trtree_is_compatible_operator cat o) eqn:Ho; rewrite ?andb_true_r, ?andb_false_r; [|done].
      apply compatible_operator in Ho as (name & Ho & Hn).
      destruct (trtree_contains_temporalbox cat a) eqn:Ha.
      * intros _. eapply rc_op; eauto. left. by apply contains_mentions.
      * intros Hb. eapply rc_op; eauto. right. by apply contains_mentions.
    + rewrite existsb_exists. intros (c & Hin & Hc). eapply rc_and; [exact Hin|]. by apply IH.
  - intros Hc. inversion Hc as [op name l r Ho Hn Hm|c args Hin Hc']; subst.
    + cbn. assert (Hop : trtree_is_compatible_operator cat op = true) by (apply compatible_operator; eauto).
      rewrite Hop, !andb_true_r. destruct Hm as [Hm|Hm]; apply contains_mentions in Hm; rewrite Hm; [done|].
      by destruct (trtree_contains_temporalbox cat l).
    + cbn. apply existsb_exists. exists c. split; [done|]. by apply IH.
Qed.

End clauses.

(** * The cost bias *)

Section bias.
Context (cat : Catalog).

Definition is_rtree_path (oid : Oid) (p : Path) : bool :=
  match indexoid p with None => false | Some o => o =? oid end.

(** What forcing does to one path: the costs are multiplied by the double 0.05. *)
Definition biased (oid : Oid) (p : Path) : Path :=
  if is_rtree_path oid p
  then mkPath (indexoid p) (dmul (startup_cost p) (dlit 5 100)) (dmul (total_cost p) (dlit 5 100))
  else p.

(** The index has an access method called temporal_rtree in the catalogs. *)
Definition rtree_index (oid : Oid) : Prop := ∃ am, relam cat oid = Some am ∧ am ≠ InvalidOid ∧ amname cat am = Some "temporal_rtree".

(** The first such index of a relation. *)
Definition rtree_index_of (relid oid : Oid) : Prop :=
  ∃ before after, RelationGetIndexList cat relid = before ++ oid :: after ∧ rtree_index oid ∧ Forall (λ i, ¬ rtree_index i) before.

Lemma trtree_index_spec oid : trtree_index cat oid = true ↔ rtree_index oid.
Proof.
  unfold trtree_index, rtree_index. destruct (relam cat oid) as [am|]; [|by split; [|intros (? & [=] & _)]]. destruct (Z.eqb_spec am InvalidOid) as [->|Hne].
  - split; [done|]. by intros (? & [= <-] & ? & _).
  - destruct (amname cat am) as [name|] eqn:Hn.
    + rewrite String.eqb_eq. split; [intros ->; eauto|]. intros (? & [= <-] & _ & E). congruence.
    + split; [done|]. intros (? & [= <-] & _ & E). congruence.
Qed.

(** The loop finds the first one. *)
Lemma index_oid_spec relid oid : oid ≠ InvalidOid → trtree_get_rtree_index_oid cat relid = oid ↔ rtree_index_of relid oid.
Proof.
  intros Hne. unfold trtree_get_rtree_index_oid, rtree_index_of. generalize (RelationGetIndexList cat relid) as l. intros l. split.
  - induction l as [|i l IH]; cbn [first_rtree]; [congruence|]. destruct (trtree_index cat i) eqn:Hi.
    + intros <-. exists [], l. split_and!; [done|by apply trtree_index_spec|constructor].
    + intros (before & after & -> & Ho & Hb)%IH. exists (i :: before), after. split_and!; [done|done|]. constructor; [|done]. intros Hx%trtree_index_spec. congruence.
  - intros (before & after & -> & Ho & Hb). induction Hb as [|i before Hi _ IH]; cbn [app first_rtree]; [apply trtree_index_spec in Ho; by rewrite Ho|].
    destruct (trtree_index cat i) eqn:E; [by apply trtree_index_spec in E|exact IH].
Qed.

Lemma compatible_clauses rel : trtree_has_compatible_clauses cat rel = true ↔ Exists (rtree_clause cat) (baserestrictinfo rel).
Proof.
  unfold trtree_has_compatible_clauses. rewrite existsb_exists, List.Exists_exists. split; intros (c & Hin & Hc); exists c; (split; [done|]); by apply clause_compatible_spec.
Qed.

Definition add_biases (n : Z) (st : HookStats) : HookStats :=
  mkHookStats (planner_hits st) (planner_rtree_eligible_hits st) (executor_dml_hits st)
    (executor_target_with_rtree_hits st) ((path_bias_applied st + n) mod 2 ^ 64).

Definition rtree_paths (oid : Oid) (paths : list Path) : Z := zlen (List.filter (is_rtree_path oid) paths).

Lemma bias_step_eq g oid acc st log p :
  bias_step g oid (acc, st, log) p =
  (acc ++ [biased oid p], if is_rtree_path oid p then add_biases 1 st else st,
   if is_rtree_path oid p then if enable_hook_debug g then log ++ [BiasApplied] else log else log).
Proof.
  unfold bias_step, biased, is_rtree_path. destruct (indexoid p) as [o|]; [|done]. by destruct (o =? oid).
Qed.

(** One message for each path changed, when debugging is on. *)
Definition bias_messages (g : Gucs) (n : Z) : list message := if enable_hook_debug g then replicate (Z.to_nat n) BiasApplied else [].

Lemma bias_fold g oid paths : ∀ acc st log, 0 ≤ path_bias_applied st < 2 ^ 64 →
  foldl (bias_step g oid) (acc, st, log) paths =
    (acc ++ map (biased oid) paths, add_biases (rtree_paths oid paths) st, log ++ bias_messages g (rtree_paths oid paths)).
Proof.
  induction paths as [|p paths IH]; intros acc st log Hst; cbn [foldl map].
  - unfold add_biases, rtree_paths, bias_messages. cbn. rewrite Z.add_0_r, Z.mod_small by done. destruct (enable_hook_debug g); rewrite !app_nil_r; by destruct st.
  - rewrite bias_step_eq. unfold rtree_paths. cbn [List.filter]. destruct (is_rtree_path oid p).
    + rewrite IH by (cbn; by apply Z.mod_pos_bound). rewrite <- app_assoc. unfold add_biases, bias_messages, rtree_paths, zlen. cbn [planner_hits
        planner_rtree_eligible_hits executor_dml_hits executor_target_with_rtree_hits path_bias_applied length].
      rewrite Zplus_mod_idemp_l. rewrite !Nat2Z.id. f_equal; [do 3 f_equal; lia|]. destruct (enable_hook_debug g); [by rewrite <- app_assoc|done].
    + rewrite IH by done. by rewrite <- app_assoc.
Qed.

(** C39. The path-list hook works on what the previous hook left.  When forcing is on, for
    SELECT, UPDATE and DELETE on a relation that has an index whose access method is called
    temporal_rtree in the catalogs and a restriction that is, possibly inside conjunctions, a
    binary [&&], [@>] or [<@] with temporalbox somewhere in an argument, exactly the paths of the
    first such index have both costs multiplied by 0.05; every other path, the order of the
    paths and the restrictions are kept, the counter grows by the number of paths changed
    modulo 2^64, and with debugging on each is logged.  In every other case nothing changes. *)
Theorem path_bias_spec {W} (call : hook → RelOptInfo → W → W * RelOptInfo) g v st log cmd rel rte w :
  0 ≤ path_bias_applied st < 2 ^ 64 →
  let '(w1, rel1) := match prev_set_rel_pathlist_hook v with NoHook => (w, rel) | h => call h rel w end in
  let applies oid := force_rtree_paths g = true ∧ cmd ∈ [CMD_SELECT; CMD_UPDATE; CMD_DELETE] ∧
                     rtekind rte = RTE_RELATION ∧ rte_relid rte ≠ InvalidOid ∧ oid ≠ InvalidOid ∧
                     rtree_index_of (rte_relid rte) oid ∧ Exists (rtree_clause cat) (baserestrictinfo rel1) in
  (∀ oid, applies oid →
     trtree_set_rel_pathlist_hook cat call g v st log cmd rel rte w =
     (add_biases (rtree_paths oid (pathlist rel1)) st, log ++ bias_messages g (rtree_paths oid (pathlist rel1)),
      (w1, mkRelOpt (baserestrictinfo rel1) (map (biased oid) (pathlist rel1))))) ∧
  ((∀ oid, ¬ applies oid) → trtree_set_rel_pathlist_hook cat call g v st log cmd rel rte w = (st, log, (w1, rel1))).
Proof.
  intros Hst. unfold trtree_set_rel_pathlist_hook.
  destruct (match prev_set_rel_pathlist_hook v with NoHook => _ | _ => _ end) as [w1 rel1] eqn:Hp.
  split.
  - intros oid (-> & Hc & -> & Hr & Ho & Hi%index_oid_spec & ->%compatible_clauses); [|done]. cbn [negb].
    assert (Hcmd : negb (bool_decide (cmd = CMD_SELECT)) && negb (bool_decide (cmd = CMD_UPDATE)) &&
                   negb (bool_decide (cmd = CMD_DELETE)) = false).
    { rewrite !elem_of_cons, elem_of_nil in Hc. destruct Hc as [->|[->|[->|[]]]]; done. }
    rewrite Hcmd, Hi. apply Z.eqb_neq in Hr, Ho. by rewrite Hr, Ho, bias_fold.
  - intros Hna. destruct (force_rtree_paths g); [cbn [negb]|done].
    destruct (negb (bool_decide (cmd = CMD_SELECT)) && _ && _) eqn:Hcmd; [done|].
    destruct (rtekind rte); [|done]. destruct (Z.eqb_spec (rte_relid rte) InvalidOid); [done|].
    destruct (Z.eqb_spec (trtree_get_rtree_index_oid cat (rte_relid rte)) InvalidOid) as [|Ho]; [done|].
    destruct (trtree_has_compatible_clauses cat rel1) eqn:Hc; [|done]. exfalso. apply (Hna (trtree_get_rtree_index_oid cat (rte_relid rte))).
    split_and!; try done; [|by apply index_oid_spec|by apply compatible_clauses].
    rewrite !andb_false_iff, !negb_false_iff, !bool_decide_eq_true in Hcmd.
    rewrite !elem_of_cons. destruct Hcmd as [[?|?]|?]; auto.
Qed.

End bias.

(** A B-tree index, two temporal_rtree indexes, and a clause inside a conjunction. *)
Lemma path_bias_spec_witness :
  let cat := mkCatalog (λ _, [6; 7; 8]) (λ i, Some (if i =? 6 then 403 else 5)) (λ a, Some (if a =? 5 then "temporal_rtree" else "btree"))
               (λ _, Some "temporalbox") (λ _, Some "@>") in
  let rel := mkRelOpt [OtherNode []; BoolExpr AND_EXPR [OtherNode []; OpExpr 1 [OtherNode []; FuncExpr 2 []]]]
               [mkPath None (i2d 1) (i2d 10); mkPath (Some 7) (i2d 20) (i2d 40); mkPath (Some 8) (i2d 20) (i2d 40); mkPath (Some 6) (i2d 2) (i2d 4)] in
  trtree_set_rel_pathlist_hook cat (λ _ r w, (w, r)) (mkGucs true true false)
      (mkHookVars Trtree Trtree Trtree NoHook NoHook NoHook) zero_hook_stats [] CMD_SELECT rel (mkRte RTE_RELATION 3) () =
    (mkHookStats 0 0 0 0 1, [BiasApplied],
     ((), mkRelOpt (baserestrictinfo rel) [mkPath None (i2d 1) (i2d 10);
            mkPath (Some 7) (dmul (i2d 20) (dlit 5 100)) (dmul (i2d 40) (dlit 5 100));
            mkPath (Some 8) (i2d 20) (i2d 40); mkPath (Some 6) (i2d 2) (i2d 4)])).
Proof.
  intros cat rel.
  destruct (path_bias_spec cat (λ _ r w, (w, r)) (mkGucs true true false)
      (mkHookVars Trtree Trtree Trtree NoHook NoHook NoHook) zero_hook_stats [] CMD_SELECT rel (mkRte RTE_RELATION 3) ())
    as [Ha _].
  - split; vm_compute; [discriminate|reflexivity].
  - apply (Ha 7). split_and!; try reflexivity; try discriminate; [left| |].
    + exists [6], [8]. split_and!; [reflexivity|by exists 5|]. constructor; [|constructor]. by intros (? & [= <-] & _ & [=]).
    + apply Exists_cons_tl, Exists_cons_hd. eapply rc_and; [right; left; reflexivity|]. eapply rc_op; [reflexivity|right; left; reflexivity|]. right. by apply mentions_here.
Defined.

(** * Loading the module *)

Section loading.
Context (cat : Catalog) {W PlannedStmt : Type}.
Context (call_planner : hook → Query → W → W * PlannedStmt) (standard_planner : Query → W → W * PlannedStmt).
Context (call_start : hook → QueryDesc → W → W) (standard_ExecutorStart : QueryDesc → W → W).
Context (call_pathlist : hook → RelOptInfo → W → W * RelOptInfo).

(** How the server calls the hooks. *)
Definition planner (g : Gucs) (v : HookVars) (st : HookStats) (log : list message) (parse : Query) (w : W) :=
  match planner_hook v with
  | NoHook => (st, log, standard_planner parse w)
  | Trtree => trtree_planner_hook cat call_planner standard_planner g v st log parse w
  | h => (st, log, call_planner h parse w)
  end.

Definition ExecutorStart (g : Gucs) (v : HookVars) (st : HookStats) (log : list message) (qd : QueryDesc) (w : W) :=
  match ExecutorStart_hook v with
  | NoHook => (st, log, standard_ExecutorStart qd w)
  | Trtree => trtree_executor_start_hook cat call_start standard_ExecutorStart g v st log qd w
  | h => (st, log, call_start h qd w)
  end.

Definition set_rel_pathlist (g : Gucs) (v : HookVars) (st : HookStats) (log : list message)
    (cmd : CmdType) (rel : RelOptInfo) (rte : RangeTblEntry) (w : W) :=
  match set_rel_pathlist_hook v with
  | NoHook => (st, log, (w, rel))
  | Trtree => trtree_set_rel_pathlist_hook cat call_pathlist g v st log cmd rel rte w
  | h => (st, log, call_pathlist h rel w)
  end.

(** Loading the module with its default settings changes no plan, no execution and no
    path, and logs nothing, whatever hooks other modules had installed; unloading it puts
    their hooks back. *)
Theorem loading_is_transparent g v st log parse qd cmd rel rte w :
  planner_hook v ≠ Trtree → ExecutorStart_hook v ≠ Trtree → set_rel_pathlist_hook v ≠ Trtree →
  let '(g1, v1) := _PG_init v in
  let '(v2, _) := _PG_fini v1 log in
  (planner g1 v1 st log parse w).2 = (planner g v st log parse w).2 ∧
  (planner g1 v1 st log parse w).1.2 = log ∧
  (ExecutorStart g1 v1 st log qd w).2 = (ExecutorStart g v st log qd w).2 ∧
  (ExecutorStart g1 v1 st log qd w).1.2 = log ∧
  set_rel_pathlist g1 v1 st log cmd rel rte w = set_rel_pathlist g v st log cmd rel rte w ∧
  planner_hook v2 = planner_hook v ∧ ExecutorStart_hook v2 = ExecutorStart_hook v ∧
  set_rel_pathlist_hook v2 = set_rel_pathlist_hook v.
Proof.
  intros Hp He Hs. cbn [_PG_init _PG_fini]. unfold planner, ExecutorStart, set_rel_pathlist.
  cbn [planner_hook ExecutorStart_hook set_rel_pathlist_hook].
  unfold trtree_planner_hook, trtree_executor_start_hook, trtree_set_rel_pathlist_hook.
  cbn [prev_planner_hook prev_ExecutorStart_hook prev_set_rel_pathlist_hook enable_hook_debug log_dml
       force_rtree_paths andb negb].
  split_and!; try done.
  - by destruct (planner_hook v).
  - destruct (match plannedstmt qd with None => _ | Some _ => _ end). by destruct (ExecutorStart_hook v).
  - by destruct (match plannedstmt qd with None => _ | Some _ => _ end).
  - destruct (set_rel_pathlist_hook v); try done; by destruct (call_pathlist _ rel w).
Qed.

(** * The counters *)

Inductive hook_event : Type :=
  | EvPlan (parse : Query)
  | EvStart (qd : QueryDesc)
  | EvPaths (cmd : CmdType) (rel : RelOptInfo) (rte : RangeTblEntry)
  | EvReset.

Definition hook_step (g : Gucs) (v : HookVars) (w : W) (st : HookStats) (e : hook_event) : HookStats :=
  match e with
  | EvPlan parse => (trtree_planner_hook cat call_planner standard_planner g v st [] parse w).1.1
  | EvStart qd => (trtree_executor_start_hook cat call_start standard_ExecutorStart g v st [] qd w).1.1
  | EvPaths cmd rel rte => (trtree_set_rel_pathlist_hook cat call_pathlist g v st [] cmd rel rte w).1.1
  | EvReset => temporal_rtree_hook_reset st
  end.

(** The counters are ordered, and bounded by [n]. *)
Definition ordered_stats (n : Z) (st : HookStats) : Prop :=
  0 ≤ planner_rtree_eligible_hits st ≤ planner_hits st ∧ planner_hits st ≤ n ∧
  0 ≤ executor_target_with_rtree_hits st ≤ executor_dml_hits st ∧ executor_dml_hits st ≤ n.

(** How far one event can count: one planning, one per range table entry. *)
Definition event_weight (e : hook_event) : Z :=
  match e with
  | EvPlan _ => 1
  | EvStart qd => match plannedstmt qd with None => 0 | Some rtes => zlen rtes end
  | EvPaths _ _ _ | EvReset => 0
  end.

Lemma incr_small n : 0 ≤ n → n + 1 < 2 ^ 64 → incr n = n + 1.
Proof. intros. unfold incr. apply Z.mod_small. lia. Qed.

Lemma executor_fold op rtes : ∀ n st b,
  ordered_stats n st → n + zlen rtes < 2 ^ 64 →
  ordered_stats (n + zlen rtes) (foldl (executor_step cat op) (st, b) rtes).1.
Proof.
  induction rtes as [|rte rtes IH]; intros n st b Hst Hn.
  - cbn. by rewrite Z.add_0_r.
  - assert (Hz : zlen (rte :: rtes) = 1 + zlen rtes) by (unfold zlen; cbn; lia).
    pose proof (zlen_nonneg rtes). rewrite Hz in *. cbn [foldl].
    destruct (executor_step cat op (st, b) rte) as [st1 b1] eqn:E.
    replace (n + (1 + zlen rtes)) with (n + 1 + zlen rtes) by lia. apply IH; [|lia].
    revert E. unfold executor_step, ordered_stats in *.
    destruct (rtekind rte); [destruct (_ && _)|]; intros [= <- _]; cbn;
      rewrite ?incr_small by lia; try lia.
    destruct (trtree_has_temporal_rtree_index cat (rte_relid rte)); rewrite ?incr_small; lia.
Qed.

Lemma paths_keep_order g v w st cmd rel rte n :
  ordered_stats n st → ordered_stats n (hook_step g v w st (EvPaths cmd rel rte)).
Proof.
  intros Hst. cbn [hook_step]. unfold trtree_set_rel_pathlist_hook.
  destruct (match prev_set_rel_pathlist_hook v with NoHook => _ | _ => _ end) as [w1 rel1].
  destruct (negb (force_rtree_paths g)); [done|]. destruct (_ && _ && _); [done|].
  destruct (rtekind rte); [|done]. destruct (rte_relid rte =? InvalidOid); [done|].
  destruct (trtree_get_rtree_index_oid cat (rte_relid rte) =? InvalidOid); [done|].
  destruct (negb (trtree_has_compatible_clauses cat rel1)); [done|].
  assert (HF : ∀ paths acc st1 log, ordered_stats n st1 →
    ordered_stats n (foldl (bias_step g (trtree_get_rtree_index_oid cat (rte_relid rte))) (acc, st1, log) paths).1.2).
  { induction paths as [|p paths IH]; intros acc st1 log H1; [done|]. cbn [foldl]. rewrite bias_step_eq.
    apply IH. by destruct (is_rtree_path _ p). }
  specialize (HF (pathlist rel1) [] st [] Hst). destruct (foldl _ _ _) as [[??]?]. done.
Qed.

(** Whatever is planned, executed and reset, the counters stay consistent: a query
    counted as eligible was counted as a hit, a statement on an indexed table was counted as
    a data change, and no counter exceeds the events seen, as long as those fit 64 bits. *)
Theorem hook_counters_consistent g v w evs :
  zsum event_weight evs < 2 ^ 64 →
  ordered_stats (zsum event_weight evs) (foldl (hook_step g v w) zero_hook_stats evs).
Proof.
  assert (HG : ∀ evs n st, ordered_stats n st → 0 ≤ n → n + zsum event_weight evs < 2 ^ 64 →
     ordered_stats (n + zsum event_weight evs) (foldl (hook_step g v w) st evs)).
  { clear evs. induction evs as [|e evs IH]; intros n st Hst Hn0 Hn; [cbn; by rewrite Z.add_0_r|].
    rewrite zsum_cons in *. assert (0 ≤ event_weight e) by (destruct e as [|[? [?|]]| |]; cbn; try lia; apply zlen_nonneg).
    assert (0 ≤ zsum event_weight evs).
    { apply zsum_nonneg. intros [|[? [?|]]| |]; cbn; try lia; apply zlen_nonneg. }
    cbn [foldl]. replace (n + (event_weight e + zsum event_weight evs))
      with (n + event_weight e + zsum event_weight evs) by lia. apply IH; [|lia..].
    destruct e as [parse|[op [rtes|]]|cmd rel rte|]; cbn [event_weight plannedstmt] in *.
    - cbn [hook_step]. unfold trtree_planner_hook, ordered_stats in *.
      destruct (query_has_temporalbox cat parse), (any_indexed_rel cat (rtable parse)); cbn;
        rewrite ?incr_small by lia; lia.
    - cbn [hook_step]. unfold trtree_executor_start_hook. cbn [plannedstmt operation].
      pose proof (executor_fold op rtes n st false Hst) as HE.
      destruct (foldl _ _ rtes) as [st1 b1]. apply HE. lia.
    - by rewrite Z.add_0_r.
    - rewrite Z.add_0_r. by apply paths_keep_order.
    - unfold ordered_stats. cbn. lia. }
  intros Hn. apply (HG evs 0 zero_hook_stats); [|lia|done]. unfold ordered_stats. cbn. lia.
Qed.

End loading.

Lemma loading_is_transparent_witness :
  let cat := mkCatalog (λ _, []) (λ _, None) (λ _, None) (λ _, None) (λ _, None) in
  let v := mkHookVars (Other 1) NoHook NoHook NoHook NoHook NoHook in
  let call (h : hook) (q : Query) (w : nat) := (S w, match h with Other n => n | _ => O end) in
  let '(g1, v1) := _PG_init v in
  (planner cat call (λ q w, (w, 0%nat)) g1 v1 zero_hook_stats [] (mkQuery CMD_SELECT [] None []) 5%nat).2 = (6%nat, 1%nat).
Proof.
  intros cat v call.
  destruct (loading_is_transparent cat call (λ q w, (w, 0%nat)) (λ _ _ w, w) (λ _ w, w) (λ _ r w, (w, r))
    (mkGucs false false false) v zero_hook_stats [] (mkQuery CMD_SELECT [] None []) (mkQueryDesc CMD_SELECT None)
    CMD_SELECT (mkRelOpt [] []) (mkRte RTE_OTHER 0) 5%nat) as [Hp _]; [discriminate..|].
  exact Hp.
Defined.

Lemma hook_counters_consistent_witness :
  let cat := mkCatalog (λ _, [7]) (λ _, Some 5) (λ _, Some "temporal_rtree") (λ _, Some "temporalbox") (λ _, Some "&&") in
  let evs := [EvPlan (mkQuery CMD_SELECT [FuncExpr 2 []] None [mkRte RTE_RELATION 3]);
              EvStart (mkQueryDesc CMD_INSERT (Some [mkRte RTE_RELATION 3; mkRte RTE_RELATION 4]))] in
  ordered_stats 3 (foldl (hook_step cat (λ _ _ w, (w, ())) (λ _ w, (w, ())) (λ _ _ w, w) (λ _ w, w) (λ _ r w, (w, r))
     (mkGucs false false false) (mkHookVars Trtree Trtree Trtree NoHook NoHook NoHook) ()) zero_hook_stats evs).
Proof.
  intros cat evs.
  apply (hook_counters_consistent cat (λ _ _ w, (w, ())) (λ _ w, (w, ())) (λ _ _ w, w) (λ _ w, w) (λ _ r w, (w, r))
    (mkGucs false false false) (mkHookVars Trtree Trtree Trtree NoHook NoHook NoHook) () evs).
  vm_compute. reflexivity.
Defined.
