(* ===== verification/Cost.v ===== *)
(** temporal_rtree_cost.c: the cost estimate of an index scan.

    Selectivity, the page costs of the tablespace, the cost of evaluating the operands,
    the cost settings and the cache model of repeated scans come from the optimizer and
    are parameters. *)

From S2P Require Import Prelude Float64.

(** What the optimizer supplies. *)
Record CostInput : Type := mkCostInput {
  selectivity_in : double;          (** [clauselist_selectivity] *)
  index_tuples_in : double;         (** [index->tuples] *)
  index_pages_in : Z;               (** [index->pages], a [BlockNumber] *)
  random_page_cost : double;        (** of the tablespace *)
  qual_arg_cost : double;           (** [index_other_operands_eval_cost] *)
  cpu_operator_cost : double;
  cpu_index_tuple_cost : double;
  nquals : Z;
  loop_count : double;
}.

Record CostEstimate : Type := mkCostEstimate {
  indexStartupCost : double;
  indexTotalCost : double;
  indexSelectivity : double;
  indexCorrelation : double;
  indexPages : double;
}.

Section cost.
(** [index_pages_fetched(tuples_fetched, pages, index_pages, root)]. *)
Context (index_pages_fetched : double → Z → double → double).

(** The rows fetched. *)
Definition num_index_tuples (tuples selectivity : double) : double :=
  let numIndexTuples := drint (dmul tuples selectivity) in
  let numIndexTuples := if dlt numIndexTuples d1 then d1 else numIndexTuples in
  if dgt numIndexTuples tuples then tuples else numIndexTuples.

(** The pages fetched. *)
Definition num_index_pages (pages : Z) (tuples numIndexTuples : double) : double :=
  let p := i2d pages in
  let numIndexPages :=
    if dgt p d1 && dgt tuples d1 then dceil (ddiv (dmul numIndexTuples p) tuples) else d1 in
  dmax d1 (dmin numIndexPages (dmax p d1)).

Definition temporal_rtree_costestimate (i : CostInput) : CostEstimate :=
  let selectivity := dmax d0 (dmin (selectivity_in i) d1) in
  let tuples := dmax (index_tuples_in i) d1 in
  let numIndexTuples := num_index_tuples tuples selectivity in
  let numIndexPages := num_index_pages (index_pages_in i) tuples numIndexTuples in
  let qual_op_cost := dmul (cpu_operator_cost i) (i2d (nquals i)) in
  let page_cost := dmul numIndexPages (random_page_cost i) in
  let page_cost :=
    if dgt (loop_count i) d1 && dgt numIndexPages d1 then
      let pages_fetched := index_pages_fetched (dmul numIndexPages (loop_count i)) (index_pages_in i)
                             (i2d (index_pages_in i)) in
      ddiv (dmul pages_fetched (random_page_cost i)) (loop_count i)
    else page_cost in
  {| indexStartupCost := qual_arg_cost i;
     indexTotalCost := dadd (dadd (qual_arg_cost i) page_cost)
                         (dmul numIndexTuples (dadd (cpu_index_tuple_cost i) qual_op_cost));
     indexSelectivity := selectivity;
     indexCorrelation := d0;
     indexPages := numIndexPages |}.

End cost.

(** * Order of doubles that need not be normalised *)

Definition is_nan (x : double) : bool := match x with S754_nan => true | _ => false end.

Lemma SFcompare_swap x y : SFcompare y x = CompOpp <$> SFcompare x y.
Proof.
  destruct x as [[]|[]| |[] m e], y as [[]|[]| |[] m' e']; try reflexivity; cbn;
    rewrite (Z.compare_antisym e e'); destruct (Z.compare e e'); cbn; try reflexivity;
    rewrite (Pos.compare_cont_antisym m m' Eq); cbn; by destruct (Pos.compare_cont Eq m m').
Qed.

Lemma SFcompare_not_nan x y : is_nan x = false → is_nan y = false → SFcompare x y ≠ None.
Proof.
  destruct x as [[]|[]| |[] m e], y as [[]|[]| |[] m' e']; try done; cbn; destruct (Z.compare e e'); done.
Qed.

(** Among numbers, not smaller is at most. *)
Lemma dle_not_lt x y : is_nan x = false → is_nan y = false → dlt x y = false → dle y x = true.
Proof.
  intros Hx Hy. pose proof (SFcompare_not_nan x y Hx Hy) as Hc. unfold dlt, dle, SFltb, SFleb.
  rewrite (SFcompare_swap x y). destruct (SFcompare x y) as [[]|]; done.
Qed.

Lemma dlt_dle x y : dlt x y = true → dle x y = true.
Proof. unfold dlt, dle, SFltb, SFleb. by destruct (SFcompare x y) as [[]|]. Qed.

Lemma dlt_not_nan x y : dlt x y = true → is_nan x = false ∧ is_nan y = false.
Proof. by destruct x as [[]|[]| |[] m e], y as [[]|[]| |[] m' e']. Qed.

Lemma dgt_dlt x y : dgt x y = dlt y x.
Proof. done. Qed.

Lemma dle_refl x : is_nan x = false → dle x x = true.
Proof.
  intros Hx. apply dle_not_lt; [done..|]. unfold dlt, SFltb. pose proof (SFcompare_swap x x) as Hs.
  by destruct (SFcompare x x) as [[]|].
Qed.

Lemma dmax_ge_r x y : is_nan y = false → dle y (dmax x y) = true.
Proof. intros Hy. unfold dmax; rewrite dgt_dlt. destruct (dlt y x) eqn:E; [by apply dlt_dle|by apply dle_refl]. Qed.

Lemma dmin_le_r x y : is_nan y = false → dle (dmin x y) y = true.
Proof. intros Hy. unfold dmin. destruct (dlt x y) eqn:E; [by apply dlt_dle|by apply dle_refl]. Qed.

Lemma dmax_not_nan x y : is_nan y = false → is_nan (dmax x y) = false.
Proof. intros Hy. unfold dmax; rewrite dgt_dlt. destruct (dlt y x) eqn:E; [by apply dlt_not_nan in E as [? ?]|done]. Qed.

Lemma dmin_not_nan x y : is_nan y = false → is_nan (dmin x y) = false.
Proof. intros Hy. unfold dmin. destruct (dlt x y) eqn:E; [by apply dlt_not_nan in E as [? ?]|done]. Qed.

(** [Max(lo, Min(x, hi))] lies between its bounds, whatever [x] is. *)
Lemma clamp_bounds lo x hi :
  is_nan lo = false → is_nan hi = false → dle lo hi = true →
  dle lo (dmax lo (dmin x hi)) = true ∧ dle (dmax lo (dmin x hi)) hi = true ∧
  is_nan (dmax lo (dmin x hi)) = false.
Proof.
  intros Hl Hh Hle. pose proof (dmin_not_nan x hi Hh) as Hn. unfold dmax; rewrite dgt_dlt.
  destruct (dlt (dmin x hi) lo) eqn:E.
  - split_and!; [by apply dle_refl|done..].
  - split_and!; [by apply dle_not_lt|by apply dmin_le_r|done].
Qed.

(** * Rounding never makes a NaN *)

Lemma shr_1_nonneg r : 0 ≤ shr_m r → 0 ≤ shr_m (shr_1 r).
Proof. destruct r as [[|[p|p|]|[p|p|]] ? ?]; cbn; try lia; done. Qed.

Lemma iter_pos_inv {A} (P : A → Prop) (f : A → A) (n : positive) (a : A) :
  (∀ a, P a → P (f a)) → P a → P (iter_pos f n a).
Proof. intros Hf. revert a. induction n as [n IH|n IH|]; intros a Ha; cbn; auto. Qed.

Lemma shr_fexp_nonneg m e l : 0 ≤ m → 0 ≤ shr_m (shr_fexp 53 1024 m e l).1.
Proof.
  intros Hm. unfold shr_fexp, shr.
  assert (H0 : 0 ≤ shr_m (shr_record_of_loc m l)) by (by destruct l as [|[]]).
  destruct (_ - _); [done| |done]. apply (iter_pos_inv (λ r, 0 ≤ shr_m r)); [|done]. apply shr_1_nonneg.
Qed.

Lemma round_aux_not_nan s m e l : 0 ≤ m → is_nan (binary_round_aux 53 1024 s m e l) = false.
Proof.
  intros Hm. unfold binary_round_aux.
  pose proof (shr_fexp_nonneg m e l Hm) as H1. destruct (shr_fexp 53 1024 m e l) as [r1 e1]. cbn [fst] in H1.
  set (m2 := round_nearest_even (shr_m r1) (loc_of_shr_record r1)).
  assert (Hm2 : 0 ≤ m2).
  { unfold m2, round_nearest_even. destruct (loc_of_shr_record r1) as [|[]]; try lia. destruct (Z.even (shr_m r1)); lia. }
  pose proof (shr_fexp_nonneg m2 e1 loc_Exact Hm2) as H2. destruct (shr_fexp 53 1024 m2 e1 loc_Exact) as [r2 e2].
  cbn [fst] in H2. destruct (shr_m r2); [done| |lia]. by destruct (e2 <=? _).
Qed.

Lemma round_not_nan s m e : is_nan (binary_round 53 1024 s m e) = false.
Proof. unfold binary_round. destruct (shl_align _ _ _). apply round_aux_not_nan. lia. Qed.

Lemma i2d_not_nan z : is_nan (i2d z) = false.
Proof. unfold i2d, binary_normalize. destruct z; [done|apply round_not_nan..]. Qed.

Lemma drint_not_nan x : is_nan x = false → is_nan (drint x) = false.
Proof.
  destruct x as [s|s| |s m e]; try done. intros _. cbn [drint]. destruct (0 <=? e); [done|]. cbv zeta.
  destruct (_ =? 0); [done|]. apply i2d_not_nan.
Qed.

Lemma dmul_not_nan x y :
  is_nan x = false → is_nan y = false → isinf x = false → isinf y = false → is_nan (dmul x y) = false.
Proof.
  destruct x as [s|s| |s m e], y as [s'|s'| |s' m' e']; try done. intros _ _ _ _. apply round_aux_not_nan. lia.
Qed.

Lemma clamp_finite x : isinf (dmax d0 (dmin x d1)) = false.
Proof.
  destruct (clamp_bounds d0 x d1) as (Hl & Hh & Hn); [done|done|reflexivity|].
  destruct (dmax d0 (dmin x d1)) as [|[]| |]; try done.
Qed.

(** C40. The estimate is always within sensible bounds, even if the statistics handed to
    it are not numbers: the selectivity is between 0 and 1, and the pages fetched between
    one and the pages of the index; for a finite tuple count the rows fetched are between
    one and all rows.  The start-up cost is that of the operands. *)
Theorem cost_bounds fetched i :
  let c := temporal_rtree_costestimate fetched i in
  let tuples := dmax (index_tuples_in i) d1 in
  let n := num_index_tuples tuples (indexSelectivity c) in
  dle d0 (indexSelectivity c) = true ∧ dle (indexSelectivity c) d1 = true ∧
  dle d1 (indexPages c) = true ∧ dle (indexPages c) (dmax (i2d (index_pages_in i)) d1) = true ∧
  (isinf (index_tuples_in i) = false → dle d1 n = true ∧ dle n tuples = true) ∧
  indexStartupCost c = qual_arg_cost i.
Proof.
  cbn [temporal_rtree_costestimate indexSelectivity indexPages indexStartupCost].
  destruct (clamp_bounds d0 (selectivity_in i) d1) as (Hl & Hh & Hn); [done|done|reflexivity|].
  set (sel := dmax d0 (dmin (selectivity_in i) d1)) in *.
  set (tuples := dmax (index_tuples_in i) d1).
  assert (Hp : dle d1 (dmax (i2d (index_pages_in i)) d1) = true) by (by apply dmax_ge_r).
  assert (Hpn : is_nan (dmax (i2d (index_pages_in i)) d1) = false) by (by apply dmax_not_nan).
  split_and!; [done|done| | | |done].
  - unfold num_index_pages. by apply clamp_bounds.
  - unfold num_index_pages. by apply clamp_bounds.
  - intros Hinf. assert (Ht : is_nan tuples = false) by (by apply dmax_not_nan).
    assert (Ht1 : dle d1 tuples = true) by (by apply dmax_ge_r).
    assert (Hti : isinf tuples = false) by (unfold tuples, dmax; by destruct (dgt _ _)).
    assert (Hm : is_nan (drint (dmul tuples sel)) = false).
    { apply drint_not_nan, dmul_not_nan; try done. apply clamp_finite. }
    unfold num_index_tuples. set (r := drint (dmul tuples sel)) in *.
    destruct (dlt r d1) eqn:E1; rewrite dgt_dlt.
    + destruct (dlt tuples d1) eqn:E2; [by split; [|by apply dle_refl]|].
      split; [by apply dle_refl|]. done.
    + destruct (dlt tuples r) eqn:E2; [by split; [|by apply dle_refl]|].
      split; by apply dle_not_lt.
Qed.
