(* ===== verification/Handler.v ===== *)
(** temporal_rtree_handler.c: the routine table through which the server reaches the
    access method, with the modelled entry points in its slots. *)

From S2P Require Import Prelude Float64 Cube Box Split Bufpage Itup Store Insert Tree Index Search Scan Vacuum Prune Am Refine Build Cost.

(** The fields the handler sets; those it leaves are zero or null. *)
Record IndexAmRoutine : Type := mkRoutine {
  amstrategies : Z;
  amsupport : Z;
  amcanmulticol : bool;
  amoptionalkey : bool;
  amsearchnulls : bool;
  amcanparallel : bool;
  amcanbuildparallel : bool;
  ampredlocks : bool;
  ambuild : list HeapRow → Z → M IndexBuildResult;
  ambuildempty : M unit;
  aminsert : option NDBOX → ItemPointerData → M bool;
  ambulkdelete : option (ItemPointerData → bool) → option IndexBulkDeleteResult → M IndexBulkDeleteResult;
  amvacuumcleanup : IndexVacuumInfo → option IndexBulkDeleteResult → M (option IndexBulkDeleteResult);
  amcostestimate : (double → Z → double → double) → CostInput → CostEstimate;
  ambeginscan : Z → IndexScanDesc;
  amrescan : IndexScanDesc → option (list ScanKeyData) → Z → result IndexScanDesc;
  amgettuple : Rel → IndexScanDesc → Z → result (IndexScanDesc * bool);
  amgetbitmap : option unit;
  amendscan : IndexScanDesc → IndexScanDesc;
}.

Definition temporal_rtree_handler `{Platform} : IndexAmRoutine := {|
  amstrategies := 3;
  amsupport := 0;
  amcanmulticol := true;
  amoptionalkey := true;
  amsearchnulls := true;
  amcanparallel := false;
  amcanbuildparallel := false;
  ampredlocks := false;
  ambuild := temporal_rtree_build;
  ambuildempty := temporal_rtree_buildempty;
  aminsert := temporal_rtree_insert;
  ambulkdelete := temporal_rtree_bulkdelete;
  amvacuumcleanup := temporal_rtree_vacuumcleanup;
  amcostestimate := temporal_rtree_costestimate;
  ambeginscan := temporal_rtree_beginscan;
  amrescan := temporal_rtree_rescan;
  amgettuple := temporal_rtree_gettuple;
  amgetbitmap := None;
  amendscan := temporal_rtree_endscan;
|}.

(** C2. The table answers queries: an index built by [ambuild] over a table and then
    scanned with [ambeginscan], [amrescan] and [amgettuple] until the end returns exactly
    the rows the SQL operator of the key selects; every strategy number the table announces
    is one the scan accepts.  The table has at most 65534 rows; keys are null or, like the query,
    two-dimensional with ordered corners and integral coordinates below 2^53 or open time
    bounds, and have some extent. *)
Theorem routine_answers_sql `{Platform} rows reltuples key n :
  let am := temporal_rtree_handler in
  Forall (λ r, match heap_value r with None => True | Some k => sql_key k end) rows →
  (length rows ≤ new_capacity)%nat → has_flag (sk_flags key) SK_ISNULL = false →
  1 ≤ sk_strategy key ≤ amstrategies am → key_cube (sk_argument key) → exact_cube (sk_argument key) →
  (length rows < n)%nat →
  ∃ s scan out end_scan,
    ambuild am rows reltuples (mkRel [] true []) = (s, Ok (mkBuildResult reltuples (zlen rows))) ∧
    amrescan am (ambeginscan am 1) (Some [key]) 1 = Ok scan ∧
    fetch_all n s scan = Ok (out, end_scan) ∧
    out ≡ₚ map (λ r, (row_tid r, false)) (sql_answer key (keyed_rows rows)).
Proof.
  intros am HF Hcap Hnn Hst Hq Hqe Hn.
  assert (Hu : usable key = true).
  { unfold usable. rewrite Hnn. apply andb_true_iff. split; apply Z.leb_le; apply Hst. }
  destruct (build_run rows reltuples) as (s & Eb & Hs); [|done|].
  { eapply Forall_impl; [exact HF|]. intros r. unfold heap_row_ok. destruct (heap_value r); [apply sql_key_good|done]. }
  pose proof (keyed_rows_length rows) as Hlen.
  destruct (am_scan_ok s _ _ [key] key n Hs) as (out & e & Eo & Ho); [cbn; by rewrite Hu|lia|].
  unfold am_scan, temporal_rtree_am, run_scan in Eo. change (zlen [key]) with 1 in Eo.
  destruct (temporal_rtree_rescan (temporal_rtree_beginscan 1) (Some [key]) 1) as [scan|] eqn:Er; [|done].
  exists s, scan, out, e. split_and!; [exact Eb|exact Er|exact Eo|]. rewrite Ho. apply Permutation_map, reflexive_eq.
  apply filter_ext_Forall. eapply Forall_impl; [by apply (keyed_rows_Forall sql_key)|].
  intros r (Hk & Hke & _). cbn [am_test temporal_rtree_spec]. unfold key_test. by rewrite match_exact.
Qed.

Lemma routine_answers_sql_witness :
  let am := temporal_rtree_handler in
  let rows := [mkHeapRow (ItemPointerSet 0 1) (Some (temporalbox 10 1577836800 None)) true;
               mkHeapRow (ItemPointerSet 0 2) None true] in
  ∃ s scan out end_scan,
    ambuild am rows 2 (mkRel [] true []) = (s, Ok (mkBuildResult 2 2)) ∧
    amrescan am (ambeginscan am 1) (Some [demo_key]) 1 = Ok scan ∧
    fetch_all 3 s scan = Ok (out, end_scan) ∧ out ≡ₚ [(ItemPointerSet 0 1, false)].
Proof.
  intros am rows. apply (routine_answers_sql rows 2 demo_key 3).
  - unfold rows. rewrite !Forall_cons, Forall_nil. cbn [heap_value].
    refine (conj _ (conj I I)). apply temporalbox_sql_key; vm_compute; easy.
  - apply Nat.leb_le. vm_compute. reflexivity.
  - reflexivity.
  - split; vm_compute; discriminate.
  - apply key_cubeb_sound. vm_compute. reflexivity.
  - split_and!; [apply exact_i2d; reflexivity..].
  - apply Nat.ltb_lt. vm_compute. reflexivity.
Defined.
