(* ===== verification/Executor.v ===== *)
(** How the server runs an index scan: the generic index access layer (indexam.c), the fetch
    of row versions from the heap with pruning on the way (heapam_handler.c), and the index
    scan node of the executor (nodeIndexscan.c, execScan.c).  Ordering operators
    (IndexNextWithReorder) are left out, as the access method has none, and so are parallel
    scans and the rechecks of EvalPlanQual. *)

From S2P Require Import Prelude Xid Float64 Cube Box Split Bufpage Itup Compact PageOps HeapPage HotChain HeapPrune HotPrune PrunePage PruneSearch Store Insert Tree Index Search Scan Vacuum Prune Am Refine Build Cost Handler.

(** * State *)

(** The scan descriptor beyond the access method's part: [xs_cbuf] of [xs_heapfetch] is the
    block of the pinned heap buffer. *)
Record ScanDesc : Type := mkScanDesc {
  am_desc : IndexScanDesc;
  xs_cbuf : option Z;
  kill_prior_tuple : bool;
  xs_heap_continue : bool;
  xactStartedInRecovery : bool;
}.

Definition set_am_desc (d : IndexScanDesc) (sd : ScanDesc) : ScanDesc :=
  mkScanDesc d (xs_cbuf sd) (kill_prior_tuple sd) (xs_heap_continue sd) (xactStartedInRecovery sd).
Definition set_fetch (buf : option Z) (kill continue : bool) (sd : ScanDesc) : ScanDesc :=
  mkScanDesc (am_desc sd) buf kill continue (xactStartedInRecovery sd).
Definition set_heaptid (tid : ItemPointerData) (sd : ScanDesc) : ScanDesc :=
  set_am_desc (set_result tid (xs_recheck (am_desc sd)) (am_desc sd)) sd.

Definition ScanDirectionCombine (a b : Z) : Z := a * b.

Section executor.
Context {A Sp : Type}.
Abbreviation Tuple := (@HeapTupleHeaderData A).
Abbreviation Heap := (list (@HeapBuffer A Sp)).
(** A slot with a row version and where it is; an empty slot is [None]. *)
Abbreviation Slot := (option (ItemPointerData * Tuple)).
Context (upd : Tuple → Z) (horizon : ItemPointerData → Tuple → HTSV_Result * Z) (committed removable : Z → bool).
(** The snapshot. *)
Context (IsMVCCSnapshot : bool) (vis : ItemPointerData → Tuple → bool) (dead : Tuple → bool).
(** What pruning depends on, for each block, and whether the transaction may mark index
    entries dead. *)
Context (RecoveryInProgress : bool) (TransactionStartedDuringRecovery : bool) (cleanup_lock : Z → bool) (minfree : Z).
(** The access method. *)
Context (am : IndexAmRoutine) (index : Rel).
Implicit Types (heap : Heap) (sd : ScanDesc).

(** * The heap *)

Definition prune_block (blk : Z) (b : @HeapBuffer A Sp) : result (@HeapBuffer A Sp) :=
  heap_page_prune_opt upd horizon committed removable RecoveryInProgress (cleanup_lock blk) minfree blk b.

(** The heap, [xs_cbuf], [*tid], the slot filled, [*call_again] and [*all_dead]. *)
Definition heapam_index_fetch_tuple heap (cbuf : option Z) (tid : ItemPointerData) (call_again : bool)
  : result (Heap * option Z * ItemPointerData * Slot * bool * bool) :=
  let blk := ItemPointerGetBlockNumber tid in
  r ← (if negb call_again then
         match heap !! Z.to_nat blk with
         | None => Err (Elog "could not read block")
         | Some b =>
             if bool_decide (cbuf = Some blk) then Ok (heap, cbuf)
             else b' ← prune_block blk b; Ok (<[Z.to_nat blk := b']> heap, Some blk)
         end
       else Ok (heap, cbuf));
  let '(heap, cbuf) := r in
  buf ← some_or "heap buffer" cbuf;
  b ← some_or "heap buffer" (heap !! Z.to_nat buf);
  r ← heap_hot_search_buffer upd vis dead (hb_page b) tid (negb call_again);
  let '(found, all_dead) := r in
  match found with
  | Some (tid', t) => Ok (heap, cbuf, tid', Some (tid', t), negb IsMVCCSnapshot, all_dead)
  | None => Ok (heap, cbuf, tid, None, false, all_dead)
  end.

(** * The index access layer *)

Definition index_beginscan (nkeys : Z) : ScanDesc := mkScanDesc (ambeginscan am nkeys) None false false TransactionStartedDuringRecovery.

Definition index_rescan sd (keys : option (list ScanKeyData)) (nkeys : Z) : result ScanDesc :=
  let sd := set_fetch None false false sd in
  d ← amrescan am (am_desc sd) keys nkeys;
  Ok (set_am_desc d sd).

(** The descriptor, and whether there is a pointer in its [xs_heaptid]. *)
Definition index_getnext_tid sd (direction : Z) : result (ScanDesc * bool) :=
  r ← amgettuple am index (am_desc sd) direction;
  let '(d, found) := r in
  let sd := set_fetch (xs_cbuf sd) false false (set_am_desc d sd) in
  if negb found then Ok (set_fetch None (kill_prior_tuple sd) (xs_heap_continue sd) sd, false) else Ok (sd, true).

Definition index_fetch_heap heap sd : result (Heap * ScanDesc * Slot) :=
  r ← heapam_index_fetch_tuple heap (xs_cbuf sd) (xs_heaptid (am_desc sd)) (xs_heap_continue sd);
  let '(heap, cbuf, tid, slot, again, all_dead) := r in
  let sd := set_fetch cbuf (kill_prior_tuple sd) again (set_heaptid tid sd) in
  Ok (heap, if negb (xactStartedInRecovery sd) then set_fetch cbuf all_dead again sd else sd, slot).

Fixpoint index_getnext_slot (fuel : nat) heap sd (direction : Z) : result (Heap * ScanDesc * Slot) :=
  match fuel with
  | O => Err OutOfFuel
  | S fuel =>
      r ← (if negb (xs_heap_continue sd) then index_getnext_tid sd direction else Ok (sd, true));
      let '(sd, more) := r in
      if negb more then Ok (heap, sd, None)
      else
        r ← index_fetch_heap heap sd;
        let '(heap, sd, slot) := r in
        match slot with
        | Some v => Ok (heap, sd, Some v)
        | None => index_getnext_slot fuel heap sd direction
        end
  end.

(** * The index scan node *)

(** [iss_RuntimeKeys] are the keys computed at run time, by number, with their values, null
    ones as [None]; [qual] and [ps_ProjInfo] are null as [None]. *)
Record IndexScanState : Type := mkIndexScanState {
  iss_ScanDesc : option ScanDesc;
  iss_ScanKeys : list ScanKeyData;
  iss_RuntimeKeys : list (nat * option NDBOX);
  iss_RuntimeKeysReady : bool;
  iss_ReachedEnd : bool;
  es_direction : Z;
  indexorderdir : Z;
  indexqualorig : ItemPointerData * Tuple → bool;
  qual : option (ItemPointerData * Tuple → bool);
  ps_ProjInfo : option (ItemPointerData * Tuple → ItemPointerData * Tuple);
}.
Implicit Types node : IndexScanState.

Definition set_scan (sd : option ScanDesc) node : IndexScanState :=
  mkIndexScanState sd (iss_ScanKeys node) (iss_RuntimeKeys node) (iss_RuntimeKeysReady node) (iss_ReachedEnd node)
    (es_direction node) (indexorderdir node) (indexqualorig node) (qual node) (ps_ProjInfo node).
Definition set_keys (ks : list ScanKeyData) (ready : bool) node : IndexScanState :=
  mkIndexScanState (iss_ScanDesc node) ks (iss_RuntimeKeys node) ready (iss_ReachedEnd node)
    (es_direction node) (indexorderdir node) (indexqualorig node) (qual node) (ps_ProjInfo node).
Definition set_end (b : bool) node : IndexScanState :=
  mkIndexScanState (iss_ScanDesc node) (iss_ScanKeys node) (iss_RuntimeKeys node) (iss_RuntimeKeysReady node) b
    (es_direction node) (indexorderdir node) (indexqualorig node) (qual node) (ps_ProjInfo node).

Fixpoint index_next_loop (fuel : nat) heap node sd (direction : Z) : result (Heap * IndexScanState * Slot) :=
  match fuel with
  | O => Err OutOfFuel
  | S fuel' =>
      r ← index_getnext_slot fuel heap sd direction;
      let '(heap, sd, slot) := r in
      match slot with
      | None => Ok (heap, set_end true (set_scan (Some sd) node), None)
      | Some v =>
          if xs_recheck (am_desc sd) && negb (indexqualorig node v) then index_next_loop fuel' heap node sd direction
          else Ok (heap, set_scan (Some sd) node, Some v)
      end
  end.

Definition IndexNext (fuel : nat) heap node : result (Heap * IndexScanState * Slot) :=
  let direction := ScanDirectionCombine (es_direction node) (indexorderdir node) in
  sd ← match iss_ScanDesc node with
       | Some sd => Ok sd
       | None =>
           let sd := index_beginscan (zlen (iss_ScanKeys node)) in
           if negb (nonempty (iss_RuntimeKeys node)) || iss_RuntimeKeysReady node
           then index_rescan sd (Some (iss_ScanKeys node)) (zlen (iss_ScanKeys node))
           else Ok sd
       end;
  index_next_loop fuel heap node sd direction.

(** Outside of EvalPlanQual the fetch is the access method's. *)
Fixpoint ExecScan (fuel : nat) heap node : result (Heap * IndexScanState * Slot) :=
  match fuel with
  | O => Err OutOfFuel
  | S fuel' =>
      r ← IndexNext fuel heap node;
      let '(heap, node, slot) := r in
      match qual node, ps_ProjInfo node with
      | None, None => Ok (heap, node, slot)
      | _, _ =>
          match slot with
          | None => Ok (heap, node, None)
          | Some v =>
              if match qual node with None => true | Some q => q v end
              then Ok (heap, node, Some (match ps_ProjInfo node with Some f => f v | None => v end))
              else ExecScan fuel' heap node
          end
      end
  end.

(** A null value keeps the old argument, which is not read then. *)
Definition eval_runtime_key (ks : list ScanKeyData) (k : nat * option NDBOX) : list ScanKeyData :=
  alter (λ key, match k.2 with
                | None => mkKey (Z.lor (sk_flags key) SK_ISNULL) (sk_strategy key) (sk_argument key)
                | Some v => mkKey (Z.ldiff (sk_flags key) SK_ISNULL) (sk_strategy key) v
                end) k.1 ks.
Definition ExecIndexEvalRuntimeKeys (ks : list ScanKeyData) (rks : list (nat * option NDBOX)) : list ScanKeyData :=
  foldl eval_runtime_key ks rks.

Definition ExecReScanIndexScan node : result IndexScanState :=
  let ks := if nonempty (iss_RuntimeKeys node) then ExecIndexEvalRuntimeKeys (iss_ScanKeys node) (iss_RuntimeKeys node)
            else iss_ScanKeys node in
  let node := set_keys ks true node in
  sd ← match iss_ScanDesc node with
       | None => Ok None
       | Some sd => sd ← index_rescan sd (Some ks) (zlen ks); Ok (Some sd)
       end;
  Ok (set_end false (set_scan sd node)).

Definition ExecIndexScan (fuel : nat) heap node : result (Heap * IndexScanState * Slot) :=
  node ← (if nonempty (iss_RuntimeKeys node) && negb (iss_RuntimeKeysReady node) then ExecReScanIndexScan node else Ok node);
  ExecScan fuel heap node.

(** Calling the node until it returns no row. *)
Fixpoint run_node (n fuel : nat) heap node : result (Heap * IndexScanState * list (ItemPointerData * Tuple)) :=
  match n with
  | O => Err OutOfFuel
  | S n =>
      r ← ExecIndexScan fuel heap node;
      let '(heap, node, slot) := r in
      match slot with
      | None => Ok (heap, node, [])
      | Some v =>
          r ← run_node n fuel heap node;
          let '(heap, node, rest) := r in
          Ok (heap, node, v :: rest)
      end
  end.
End executor.
