(* ===== verification/IndexScan.v ===== *)
(** An index scan node returns the visible versions of the matching rows: the heap fetch on
    a heap that is pruned on the way, the loops of the index access layer and of the node,
    and rescans. *)

From S2P Require Import Prelude Xid Float64 Cube Box Split Bufpage Itup Compact PageOps HeapPage HotChain HeapPrune HotPrune PrunePage PruneSearch Store Insert Tree Index Search Scan Vacuum Prune Am Refine Build Cost Handler Executor.

(** * The heap *)

Section heap.
Context {A Sp : Type}.
Abbreviation Tuple := (@HeapTupleHeaderData A).
Abbreviation Heap := (list (@HeapBuffer A Sp)).
Context (upd : Tuple → Z) (horizon : ItemPointerData → Tuple → HTSV_Result * Z) (committed removable : Z → bool).
Context (vis : ItemPointerData → Tuple → bool) (dead : Tuple → bool).
Context (recovery : bool) (cleanup_lock : Z → bool) (minfree : Z).
Implicit Types (heap : Heap) (b : @HeapBuffer A Sp) (tid : ItemPointerData).
Abbreviation st blk := (status horizon removable None blk).

(** A page that can be pruned without error. *)
Definition sound_page (blk : Z) b : Prop :=
  prunable upd (st blk) vis blk (hb_page b) ∧ ∀ off, ¬ stray upd (hb_page b) (st blk) off.

(** The version of the row at [tid] that the snapshot sees. *)
Definition version heap tid : option (ItemPointerData * Tuple) :=
  match heap !! Z.to_nat (ItemPointerGetBlockNumber tid) with
  | Some b => match heap_hot_search_buffer upd vis dead (hb_page b) tid true with Ok (found, _) => found | Err _ => None end
  | None => None
  end.

Definition valid_tid heap tid : Prop := 0 ≤ ItemPointerGetBlockNumber tid < zlen heap.

(** [heap] is [heap0] after pruning some pages. *)
Definition heap_like heap0 heap : Prop :=
  length heap = length heap0 ∧
  ∀ i b0 b, heap0 !! i = Some b0 → heap !! i = Some b →
    sound_page (Z.of_nat i) b ∧ same_found upd vis dead (Z.of_nat i) (hb_page b0) (hb_page b).

Lemma sound_searchable blk b : sound_page blk b → searchable (hb_page b).
Proof. intros [Hp _]. apply heap_page_searchable, Hp. Qed.

Lemma same_found_trans blk (p1 p2 p3 : Page Tuple Sp) :
  same_found upd vis dead blk p1 p2 → same_found upd vis dead blk p2 p3 → same_found upd vis dead blk p1 p3.
Proof.
  intros H1 H2 tid Hb. destruct (H1 tid Hb) as (f & d1 & d2 & E1 & E2), (H2 tid Hb) as (f' & d3 & d4 & E3 & E4).
  assert (f' = f) as -> by congruence. eauto.
Qed.

Lemma same_found_refl blk b : sound_page blk b → same_found upd vis dead blk (hb_page b) (hb_page b).
Proof.
  intros Hp tid _. destruct (heap_hot_search_ok upd vis dead (hb_page b) tid (sound_searchable blk b Hp)) as (ms & _ & ->). eauto.
Qed.

Lemma heap_like_refl heap : (∀ i b, heap !! i = Some b → sound_page (Z.of_nat i) b) → heap_like heap heap.
Proof.
  intros H. split; [done|]. intros i b0 b E0 E. assert (b0 = b) as -> by congruence. split; [by apply H|]. by eapply same_found_refl, H.
Qed.

Lemma prune_block_run blk b : sound_page blk b →
  ∃ b', prune_block upd horizon committed removable recovery cleanup_lock minfree blk b = Ok b' ∧ sound_page blk b' ∧
    same_found upd vis dead blk (hb_page b) (hb_page b').
Proof.
  intros Hb. pose proof (same_found_refl blk b Hb) as Hrefl. unfold prune_block, heap_page_prune_opt.
  destruct recovery; [by exists b|]. destruct (negb (TransactionIdIsValid _)); [by exists b|]. destruct (negb (removable _)); [by exists b|].
  cbv zeta. destruct (PageIsFull _ || _); [|by exists b]. destruct (negb (cleanup_lock blk)); [by exists b|].
  destruct (prune_page_run upd horizon committed removable vis dead None blk false b (proj1 Hb)) as [(b' & s & -> & Hp & Hsf & Hnd)|[_ [off Hoff]]].
  - rsimpl. exists b'. split_and!; [done| |done]. split; [done|]. intros off (t & Hl & _ & Hd & _). by destruct (Hnd off t Hl).
  - by destruct (proj2 Hb off).
Qed.

Lemma heap_like_insert heap0 heap i b0 b : heap_like heap0 heap → heap0 !! i = Some b0 → sound_page (Z.of_nat i) b →
  same_found upd vis dead (Z.of_nat i) (hb_page b0) (hb_page b) → heap_like heap0 (<[i := b]> heap).
Proof.
  intros [Hlen H] E0 Hb Hsf. split; [by rewrite length_insert|]. intros j c0 c Ec0 Ec.
  apply list_lookup_insert_Some in Ec as [(-> & -> & _)|[_ Ec]]; [|by apply (H j)]. assert (c0 = b0) as -> by congruence. done.
Qed.

Lemma heap_like_version heap0 heap tid : heap_like heap0 heap → valid_tid heap0 tid → version heap tid = version heap0 tid.
Proof.
  intros [Hlen Hh] Hv. unfold version, valid_tid, zlen in *. set (blk := ItemPointerGetBlockNumber tid) in *.
  destruct (lookup_lt_is_Some_2 heap0 (Z.to_nat blk)) as [b0 E0]; [lia|]. destruct (lookup_lt_is_Some_2 heap (Z.to_nat blk)) as [b E]; [lia|].
  rewrite E0, E. destruct (Hh _ _ _ E0 E) as [_ Hsf]. rewrite Z2Nat.id in Hsf by lia. by destruct (Hsf tid eq_refl) as (f & d & d' & -> & ->).
Qed.

(** Fetching a version of the first call for a pointer. *)
Lemma fetch_run heap0 heap cbuf tid : heap_like heap0 heap → valid_tid heap0 tid →
  ∃ heap' tid' d, heapam_index_fetch_tuple upd horizon committed removable true vis dead recovery cleanup_lock minfree heap cbuf tid false =
    Ok (heap', Some (ItemPointerGetBlockNumber tid), tid', version heap0 tid, false, d) ∧ heap_like heap0 heap'.
Proof.
  intros Hh Hv. unfold valid_tid, zlen in Hv. unfold heapam_index_fetch_tuple, version. set (blk := ItemPointerGetBlockNumber tid) in *.
  destruct (lookup_lt_is_Some_2 heap0 (Z.to_nat blk)) as [b0 E0]; [lia|]. pose proof (proj1 Hh) as Hlen.
  destruct (lookup_lt_is_Some_2 heap (Z.to_nat blk)) as [b E]; [lia|]. rewrite E0, E. cbn [negb].
  destruct (proj2 Hh _ _ _ E0 E) as [Hb Hsf]. rewrite Z2Nat.id in Hb, Hsf by lia.
  assert (Hbuf : ∃ heap' b', (if bool_decide (cbuf = Some blk) then Ok (heap, cbuf)
      else b' ← prune_block upd horizon committed removable recovery cleanup_lock minfree blk b; Ok (<[Z.to_nat blk := b']> heap, Some blk)) =
      Ok (heap', Some blk) ∧ heap' !! Z.to_nat blk = Some b' ∧ heap_like heap0 heap' ∧ same_found upd vis dead blk (hb_page b0) (hb_page b')).
  { case_bool_decide as Ec; [rewrite Ec; by exists heap, b|]. destruct (prune_block_run blk b Hb) as (b' & -> & Hb' & Hsf'). rsimpl.
    exists (<[Z.to_nat blk := b']> heap), b'. pose proof (same_found_trans _ _ _ _ Hsf Hsf') as Hsf2.
    split_and!; [done|apply list_lookup_insert_eq; lia| |done]. eapply heap_like_insert; [done|done|..]; by rewrite Z2Nat.id by lia. }
  destruct Hbuf as (heap' & b' & -> & E' & Hh' & Hsf'). rsimpl. rewrite E'. rsimpl.
  destruct (Hsf' tid eq_refl) as (f & d & d' & -> & ->). rsimpl. destruct f as [[tid' t]|]; eexists _, _, _; done.
Qed.
End heap.

(** * The loops *)

Section scan.
Context `{Platform} {A Sp : Type}.
Abbreviation Tuple := (@HeapTupleHeaderData A).
Abbreviation Heap := (list (@HeapBuffer A Sp)).
Context (upd : Tuple → Z) (horizon : ItemPointerData → Tuple → HTSV_Result * Z) (committed removable : Z → bool).
Context (vis : ItemPointerData → Tuple → bool) (dead : Tuple → bool).
Context (recovery started : bool) (cleanup_lock : Z → bool) (minfree : Z).
Context (index : Rel) (heap0 : Heap).
Implicit Types (heap : Heap) (sd : ScanDesc) (R : list IndexTuple) (q : RTreeTemporalBox).
Abbreviation am := temporal_rtree_handler.
Abbreviation like := (heap_like upd horizon removable vis dead heap0).
Abbreviation getnext_tid := (index_getnext_tid am index).
Abbreviation fetch_heap := (index_fetch_heap upd horizon committed removable true vis dead recovery cleanup_lock minfree).
Abbreviation getnext_slot := (index_getnext_slot upd horizon committed removable true vis dead recovery cleanup_lock minfree am index).
Abbreviation next_loop := (index_next_loop upd horizon committed removable true vis dead recovery cleanup_lock minfree am index).
Abbreviation Next := (IndexNext upd horizon committed removable true vis dead recovery started cleanup_lock minfree am index).
Abbreviation Scan := (ExecScan upd horizon committed removable true vis dead recovery started cleanup_lock minfree am index).
Abbreviation run := (run_node upd horizon committed removable true vis dead recovery started cleanup_lock minfree am index).

(** The visible versions of the rows of some index tuples. *)
Abbreviation seen it := (version upd vis dead heap0 (t_tid it)).
Definition versions R : list (ItemPointerData * Tuple) := omap (λ it, seen it) R.
Abbreviation valid R := (Forall (λ it, valid_tid heap0 (t_tid it)) R).

(** The scan has the index tuples [R] to go; [n] is its number of keys. *)
Definition pending (n : nat) q (stg : Z) sd R : Prop :=
  xs_heap_continue sd = false ∧ reusable n (am_desc sd) ∧ ∃ K, ready index q stg (am_desc sd) R K.

Lemma ready_set_result q stg scan tid rc R K : ready index q stg scan R K → ready index q stg (set_result tid rc scan) R K.
Proof. intros H0. exact H0. Qed.

Lemma getnext_tid_run n q stg sd R : pending n q stg sd R →
  ∃ sd', getnext_tid sd ForwardScanDirection = Ok (sd', nonempty R) ∧ pending n q stg sd' (tail R) ∧
    ∀ it R', R = it :: R' → xs_heaptid (am_desc sd') = t_tid it ∧ xs_recheck (am_desc sd') = false.
Proof.
  intros (Hc & Hr & K & Hready). unfold index_getnext_tid. cbn [amgettuple temporal_rtree_handler].
  destruct (gettuple_keeps _ _ _ _ _ _ n Hready Hr) as (d & K' & -> & Hres & Hr' & Hre). rsimpl.
  destruct R as [|it R]; cbn [negb nonempty tail]; eexists; (split; [done|]).
  - split; [by split_and!; [..|exists K']|done].
  - split; [by split_and!; [..|exists K']|]. intros it' R' [= -> ->]. by apply (Hres it' R').
Qed.

Lemma fetch_heap_run n q stg heap sd R tid : like heap → pending n q stg sd R → xs_heaptid (am_desc sd) = tid → valid_tid heap0 tid →
  ∃ heap' sd', fetch_heap heap sd = Ok (heap', sd', version upd vis dead heap0 tid) ∧ like heap' ∧ pending n q stg sd' R ∧
    xs_recheck (am_desc sd') = xs_recheck (am_desc sd).
Proof.
  intros Hh (Hc & Hr & K & Hready) Ht Hv. unfold index_fetch_heap. rewrite Hc, Ht.
  destruct (fetch_run upd horizon committed removable vis dead recovery cleanup_lock minfree heap0 heap (xs_cbuf sd) tid Hh Hv) as (heap' & tid' & d & -> & Hh').
  rsimpl. eexists _, _. split; [done|]. split; [done|]. destruct (negb _); (split; [split_and!; [done|exact Hr|by exists K; apply ready_set_result]|done]).
Qed.

Lemma getnext_slot_run n q stg R : ∀ fuel heap sd, like heap → pending n q stg sd R → valid R → (length R < fuel)%nat →
  ∃ heap' sd' slot R1 R2, getnext_slot fuel heap sd ForwardScanDirection = Ok (heap', sd', slot) ∧ like heap' ∧ pending n q stg sd' R2 ∧
    R = R1 ++ R2 ∧ versions R = match slot with Some v => v :: versions R2 | None => [] end ∧
    match slot with Some _ => R1 ≠ [] ∧ xs_recheck (am_desc sd') = false | None => R2 = [] end.
Proof.
  induction R as [|it R IH]; intros fuel heap sd Hh Hp Hv Hf; (destruct fuel as [|fuel]; [lia|]); cbn [index_getnext_slot];
    pose proof Hp as (Hc & _); rewrite Hc; cbn [negb]; destruct (getnext_tid_run n q stg sd _ Hp) as (sd1 & -> & Hp1 & Hit); rsimpl; cbn [nonempty negb tail] in *.
  - exists heap, sd1, None, [], []. split_and!; done.
  - inversion Hv; subst. destruct (Hit it R eq_refl) as [Ht Hre].
    destruct (fetch_heap_run n q stg heap sd1 R (t_tid it) Hh Hp1 Ht) as (heap2 & sd2 & -> & Hh2 & Hp2 & Hre2); [done|]. rsimpl.
    unfold versions. cbn [omap list_omap]. destruct (seen it) as [v|] eqn:Es.
    + exists heap2, sd2, (Some v), [it], R. split_and!; try done. congruence.
    + destruct (IH fuel heap2 sd2 Hh2 Hp2) as (heap3 & sd3 & slot & R1 & R2 & -> & Hh3 & Hp3 & -> & Hvs & Hs); [done|cbn in Hf; lia|].
      exists heap3, sd3, slot, (it :: R1), R2. split_and!; try done. by destruct slot; [destruct Hs|].
Qed.

(** * The node *)

Implicit Types (node : @IndexScanState A).
Definition begun (ks : list ScanKeyData) : result ScanDesc := index_rescan am (index_beginscan started am (zlen ks)) (Some ks) (zlen ks).

(** The node has the index tuples [R] to go, and returns the rest without computing keys. *)
Definition node_pending q (stg : Z) node R : Prop :=
  ScanDirectionCombine (es_direction node) (indexorderdir node) = ForwardScanDirection ∧
  nonempty (iss_RuntimeKeys node) && negb (iss_RuntimeKeysReady node) = false ∧
  ∃ sd, pending (length (iss_ScanKeys node)) q stg sd R ∧
    match iss_ScanDesc node with Some sd' => sd' = sd | None => begun (iss_ScanKeys node) = Ok sd end.

(** The rows the node makes of versions. *)
Definition rows_of node (vs : list (ItemPointerData * Tuple)) : list (ItemPointerData * Tuple) :=
  let passed := match qual node with None => vs | Some f => filter (λ v, f v = true) vs end in
  match ps_ProjInfo node with None => passed | Some f => map f passed end.

(** The parts of a node its run does not change. *)
Definition same_plan node node' : Prop := ∃ (osd : option ScanDesc) b, node' = set_end b (set_scan osd node).

Lemma same_plan_trans node1 node2 node3 : same_plan node1 node2 → same_plan node2 node3 → same_plan node1 node3.
Proof. intros (sd & b & ->) (sd' & b' & ->). by exists sd', b'. Qed.

Lemma same_plan_rows node node' vs : same_plan node node' → rows_of node' vs = rows_of node vs.
Proof. by intros (sd & b & ->). Qed.

Lemma next_run q stg node R fuel heap : like heap → node_pending q stg node R → valid R → (length R < fuel)%nat →
  ∃ heap' node' slot R1 R2, Next fuel heap node = Ok (heap', node', slot) ∧ like heap' ∧ node_pending q stg node' R2 ∧ same_plan node node' ∧
    R = R1 ++ R2 ∧ versions R = match slot with Some v => v :: versions R2 | None => [] end ∧
    match slot with Some _ => R1 ≠ [] | None => R2 = [] end.
Proof.
  intros Hh (Hd & Hk & sd & Hp & Hsd) Hv Hf. unfold IndexNext. rewrite Hd.
  assert (Hsd' : match iss_ScanDesc node with
       | Some sd => Ok sd
       | None => if negb (nonempty (iss_RuntimeKeys node)) || iss_RuntimeKeysReady node then begun (iss_ScanKeys node)
                 else Ok (index_beginscan started am (zlen (iss_ScanKeys node)))
       end = Ok sd).
  { destruct (iss_ScanDesc node); [by rewrite Hsd|]. by destruct (nonempty _), (iss_RuntimeKeysReady node). }
  unfold begun in Hsd'. cbv zeta. rewrite Hsd'. rsimpl. destruct fuel as [|fuel]; [lia|]. cbn [index_next_loop].
  destruct (getnext_slot_run _ q stg R (S fuel) heap sd Hh Hp Hv Hf) as (heap' & sd' & slot & R1 & R2 & -> & Hh' & Hp' & HR & Hvs & Hs). rsimpl.
  destruct slot as [v|].
  - destruct Hs as [Hne ->]. cbn [andb]. eexists _, _, _, R1, R2. split; [done|]. split_and!; try done; [|by exists (Some sd'), (iss_ReachedEnd node)].
    split_and!; [done|done|]. by exists sd'.
  - eexists _, _, _, R1, R2. split; [done|]. split_and!; try done; [|by exists (Some sd'), true].
    split_and!; [done|done|]. by exists sd'.
Qed.

Lemma scan_run q stg fuel : ∀ node R heap, like heap → node_pending q stg node R → valid R → (length R < fuel)%nat →
  ∃ heap' node' slot R1 R2, Scan fuel heap node = Ok (heap', node', slot) ∧ like heap' ∧ node_pending q stg node' R2 ∧ same_plan node node' ∧
    R = R1 ++ R2 ∧ rows_of node (versions R) = match slot with Some v => v :: rows_of node (versions R2) | None => [] end ∧
    match slot with Some _ => R1 ≠ [] | None => R2 = [] end.
Proof.
  induction fuel as [|fuel IH]; intros node R heap Hh Hp Hv Hf; [lia|]. cbn [ExecScan].
  destruct (next_run q stg node R (S fuel) heap Hh Hp Hv Hf) as (heap1 & node1 & slot & R1 & R2 & -> & Hh1 & Hp1 & Hsp & -> & Hvs & Hs). rsimpl.
  rewrite Hvs. assert (Hq : qual node1 = qual node ∧ ps_ProjInfo node1 = ps_ProjInfo node) by (by destruct Hsp as (sd & b & ->)).
  destruct Hq as [-> ->].
  destruct slot as [v|].
  2: { subst R2. assert (E : rows_of node [] = []) by (unfold rows_of; by destruct (qual node), (ps_ProjInfo node)).
       rewrite E. eexists heap1, node1, None, R1, []. split; [by destruct (qual node), (ps_ProjInfo node)|]. by rewrite app_nil_r. }
  apply Forall_app in Hv as [_ Hv]. rewrite length_app in Hf.
  destruct (match qual node with None => true | Some f => f v end) eqn:Eq.
  - assert (E : rows_of node (v :: versions R2) = match ps_ProjInfo node with Some f => f v | None => v end :: rows_of node (versions R2)).
    { unfold rows_of. destruct (qual node) as [f|]; [rewrite filter_cons_True by done|]; by destruct (ps_ProjInfo node). }
    rewrite E. exists heap1, node1, (Some (match ps_ProjInfo node with Some f => f v | None => v end)), R1, R2.
    split; [destruct (qual node), (ps_ProjInfo node); by rewrite ?Eq|]. by split_and!.
  - destruct (qual node) as [f|] eqn:Ef; [|done].
    assert (E : rows_of node (v :: versions R2) = rows_of node (versions R2)) by (unfold rows_of; rewrite Ef, filter_cons_False by congruence; done).
    destruct (IH node1 R2 heap1 Hh1 Hp1 Hv) as (heap2 & node2 & slot2 & R3 & R4 & E2 & Hh2 & Hp2 & Hsp2 & -> & Hrows & Hs2).
    { destruct R1; [done|cbn in Hf; lia]. }
    rewrite E, <- (same_plan_rows node node1 _ Hsp), Hrows. exists heap2, node2, slot2, (R1 ++ R3), R4.
    split; [exact E2|]. rewrite app_assoc. split_and!; try done; [by eapply same_plan_trans|by destruct slot2; [rewrite (same_plan_rows node node1 _ Hsp)|]|].
    destruct slot2; [|done]. by destruct R1.
Qed.

(** Called until its end, the node returns the rows of all that was to go. *)
Lemma node_run q stg n : ∀ node R heap fuel, like heap → node_pending q stg node R → valid R → (length R < fuel)%nat → (length R < n)%nat →
  ∃ heap' node', run n fuel heap node = Ok (heap', node', rows_of node (versions R)) ∧ like heap' ∧ node_pending q stg node' [] ∧ same_plan node node'.
Proof.
  induction n as [|n IH]; intros node R heap fuel Hh Hp Hv Hf Hn; [lia|]. cbn [run_node]. unfold ExecIndexScan.
  pose proof Hp as (_ & Hk & _). rewrite Hk. rsimpl.
  destruct (scan_run q stg fuel node R heap Hh Hp Hv Hf) as (heap1 & node1 & slot & R1 & R2 & -> & Hh1 & Hp1 & Hsp & -> & Hrows & Hs). rsimpl.
  rewrite Hrows. destruct slot as [v|]; [|subst R2; by exists heap1, node1].
  rewrite length_app in Hf, Hn. apply Forall_app in Hv as [_ Hv].
  destruct (IH node1 R2 heap1 fuel Hh1 Hp1 Hv) as (heap2 & node2 & -> & Hh2 & Hp2 & Hsp2); [lia|destruct R1; [done|cbn in Hn; lia]|]. rsimpl.
  exists heap2, node2. rewrite (same_plan_rows node node1 _ Hsp). split_and!; try done. by eapply same_plan_trans.
Qed.

(** * Starting and restarting *)

Lemma start_pending n ks key rows : holds index n rows → List.find usable ks = Some key →
  ∃ sd R, begun ks = Ok sd ∧ pending (length ks) (rtree_cube_to_box (sk_argument key)) (sk_strategy key) sd R ∧
    R ≡ₚ map row_tuple (filter (λ r, key_test key (row_key r) = true) rows).
Proof.
  intros (lvl & c & Hi & Hc & Hn & Hl) Hf. assert (Hne : (0 < length ks)%nat) by (destruct ks; [done|cbn; lia]).
  destruct (rescan_ready index lvl c (temporal_rtree_beginscan (zlen ks)) ks key) as (scan & K & E & Hr & Hready); try done; [lia|nia|by apply beginscan_reusable|].
  unfold begun, index_rescan. cbn [set_fetch am_desc index_beginscan amrescan ambeginscan temporal_rtree_handler]. rewrite E. rsimpl.
  eexists _, (filter (matches key) c). split; [done|]. split; [split_and!; [done|done|by exists K]|]. by rewrite Hc, matches_rows.
Qed.

Lemma restart_pending n rows q stg sd R ks key : holds index n rows → pending (length ks) q stg sd R → List.find usable ks = Some key →
  ∃ sd' R', index_rescan am sd (Some ks) (zlen ks) = Ok sd' ∧
    pending (length ks) (rtree_cube_to_box (sk_argument key)) (sk_strategy key) sd' R' ∧
    R' ≡ₚ map row_tuple (filter (λ r, key_test key (row_key r) = true) rows).
Proof.
  intros (lvl & c & Hi & Hc & Hn & Hl) (_ & Hr & _) Hf.
  destruct (rescan_ready index lvl c (am_desc sd) ks key) as (scan & K & E & Hr' & Hready); try done; [lia|nia|].
  unfold index_rescan. cbn [set_fetch am_desc amrescan temporal_rtree_handler]. rewrite E. rsimpl.
  eexists _, (filter (matches key) c). split; [done|]. split; [split_and!; [done|done|by exists K]|]. by rewrite Hc, matches_rows.
Qed.

(** The visible versions of rows. *)
Definition row_versions (rows : list Row) : list (ItemPointerData * Tuple) := omap (λ r, version upd vis dead heap0 (row_tid r)) rows.

Lemma versions_rows R rows : R ≡ₚ map row_tuple rows → versions R ≡ₚ row_versions rows.
Proof.
  intros HR. unfold versions, row_versions. rewrite HR. clear HR. apply reflexive_eq. induction rows as [|r rows IH]; [done|]. cbn. by rewrite IH.
Qed.

#[export] Instance rows_of_perm node : Proper ((≡ₚ) ==> (≡ₚ)) (rows_of node).
Proof. intros v1 v2 E. unfold rows_of. destruct (qual node), (ps_ProjInfo node); rewrite E; done. Qed.

Lemma valid_rows rows R : Forall (λ r, valid_tid heap0 (row_tid r)) rows → ∀ P `{!∀ r, Decision (P r)}, R ≡ₚ map row_tuple (filter P rows) → valid R.
Proof.
  intros HF P HP ->. apply Forall_fmap. eapply Forall_impl; [by apply Forall_filter|]. done.
Qed.

(** A node to be started, or restarted, answers its keys. *)
Lemma answer_run q stg node R rows key fuel m heap : like heap → node_pending q stg node R →
  R ≡ₚ map row_tuple (filter (λ r, key_test key (row_key r) = true) rows) → Forall (λ r, valid_tid heap0 (row_tid r)) rows →
  Forall (λ r, sql_key (row_key r)) rows → usable key = true → key_cube (sk_argument key) → exact_cube (sk_argument key) →
  (length rows < fuel)%nat → (length rows < m)%nat →
  ∃ out heap' node', run m fuel heap node = Ok (heap', node', out) ∧ like heap' ∧ node_pending q stg node' [] ∧
    out ≡ₚ rows_of node (row_versions (sql_answer key rows)).
Proof.
  intros Hh Hp HR Hv Hk Hu Hq Hqe Hf Hm.
  assert (Hlen : (length R ≤ length rows)%nat) by (rewrite (Permutation_length HR), length_map; apply length_filter).
  destruct (node_run q stg m node R heap fuel Hh Hp) as (heap' & node' & E & Hh' & Hp' & _); [by eapply valid_rows|lia|lia|].
  exists (rows_of node (versions R)), heap', node'. split_and!; try done. apply rows_of_perm.
  assert (HE : filter (λ r, key_test key (row_key r) = true) rows = sql_answer key rows).
  { apply filter_ext_Forall. eapply Forall_impl; [exact Hk|]. intros r (Hk1 & Hk2 & _). unfold key_test. rewrite match_exact; try done. by apply usable_strategy. }
  rewrite HE in HR. by apply versions_rows.
Qed.
End scan.

(** * Properties *)

Lemma runtime_keys_length rks ks : length (ExecIndexEvalRuntimeKeys ks rks) = length ks.
Proof.
  unfold ExecIndexEvalRuntimeKeys. revert ks. induction rks as [|k rks IH]; intros ks; [done|]. cbn [foldl]. rewrite IH. apply length_alter.
Qed.

(** C3. An index scan node answers a query: over an index built on a table of at most 65534 rows
    and a heap whose pages are sound, a forward node with one key and no run-time keys, run to
    its end, returns for exactly the rows the SQL operator
    of its key selects the version its snapshot sees, if any, tested by the filter and
    projected, however the scan prunes pages on its way; the heap afterwards has for every
    item pointer the same visible version.  Keys of rows and query are exact: two-dimensional
    with ordered corners and integral coordinates below 2^53 or open time bounds; keys of rows
    have some extent. *)
Theorem index_scan_answers_sql `{Platform} {A Sp} upd horizon committed removable vis dead recovery started cleanup_lock minfree
    (heap0 : list (@HeapBuffer A Sp)) hrows reltuples key node fuel m :
  let am := temporal_rtree_handler in
  Forall (λ r, match heap_value r with None => True | Some k => sql_key k end) hrows → (length hrows ≤ new_capacity)%nat →
  (∀ i b, heap0 !! i = Some b → sound_page upd horizon removable vis (Z.of_nat i) b) →
  Forall (λ r, valid_tid heap0 (heap_tid r)) hrows →
  has_flag (sk_flags key) SK_ISNULL = false → 1 ≤ sk_strategy key ≤ amstrategies am →
  key_cube (sk_argument key) → exact_cube (sk_argument key) →
  iss_ScanDesc node = None → iss_ScanKeys node = [key] → iss_RuntimeKeys node = [] →
  ScanDirectionCombine (es_direction node) (indexorderdir node) = ForwardScanDirection →
  (length hrows < fuel)%nat → (length hrows < m)%nat →
  ∃ index out heap' node',
    ambuild am hrows reltuples (mkRel [] true []) = (index, Ok (mkBuildResult reltuples (zlen hrows))) ∧
    run_node upd horizon committed removable true vis dead recovery started cleanup_lock minfree am index m fuel heap0 node = Ok (heap', node', out) ∧
    out ≡ₚ rows_of node (row_versions upd vis dead heap0 (sql_answer key (keyed_rows hrows))) ∧
    ∀ tid, valid_tid heap0 tid → version upd vis dead heap' tid = version upd vis dead heap0 tid.
Proof.
  intros am HF Hcap Hsound Hvalid Hnn Hst Hq Hqe Hsd Hks Hrk Hdir Hf Hm.
  assert (Hu : usable key = true) by (unfold usable; rewrite Hnn; apply andb_true_iff; split; apply Z.leb_le; apply Hst).
  destruct (build_run hrows reltuples) as (index & Eb & Hs); [|done|].
  { eapply Forall_impl; [exact HF|]. intros r. unfold heap_row_ok. destruct (heap_value r); [apply sql_key_good|done]. }
  pose proof (keyed_rows_length hrows) as Hlen.
  destruct (start_pending started index _ [key] key _ Hs) as (sd & R & Ebeg & Hp & HR); [cbn; by rewrite Hu|].
  assert (Hv : Forall (λ r, valid_tid heap0 (row_tid r)) (keyed_rows hrows)).
  { unfold keyed_rows. clear -Hvalid. induction Hvalid as [|r hrows Hr _ IH]; [constructor|]. cbn. unfold keyed at 1. destruct (heap_value r); [by constructor|done]. }
  assert (Hnode : node_pending started index (rtree_cube_to_box (sk_argument key)) (sk_strategy key) node R).
  { split_and!; [done|by rewrite Hrk|]. exists sd. by rewrite Hks, Hsd. }
  pose proof (heap_like_refl upd horizon removable vis dead heap0 Hsound) as Hlike.
  destruct (answer_run upd horizon committed removable vis dead recovery started cleanup_lock minfree index heap0 _ _ node R (keyed_rows hrows) key fuel m heap0
    Hlike Hnode HR Hv) as (out & heap' & node' & E & Hh & _ & Ho); try done; [by apply (keyed_rows_Forall sql_key)|lia|lia|].
  exists index, out, heap', node'. split_and!; [exact Eb|exact E|exact Ho|]. intros tid Hvt. by apply (heap_like_version upd horizon removable vis dead).
Qed.

(** C4. A rescan restarts a forward node wherever it is: with the values of its run-time keys
    computed anew it returns exactly the visible versions of the rows its first usable key
    selects, as a nested loop join relies on for each outer row.  Keys of rows and query are
    exact, as in the first scan. *)
Theorem rescan_answers_new_keys `{Platform} {A Sp} upd horizon committed removable vis dead recovery started cleanup_lock minfree
    index (heap0 heap : list (@HeapBuffer A Sp)) n rows node q stg R key fuel m :
  let am := temporal_rtree_handler in
  let ks := if nonempty (iss_RuntimeKeys node) then ExecIndexEvalRuntimeKeys (iss_ScanKeys node) (iss_RuntimeKeys node) else iss_ScanKeys node in
  holds index n rows → heap_like upd horizon removable vis dead heap0 heap → Forall (λ r, valid_tid heap0 (row_tid r)) rows →
  Forall (λ r, sql_key (row_key r)) rows → node_pending started index q stg node R →
  List.find usable ks = Some key → key_cube (sk_argument key) → exact_cube (sk_argument key) →
  (length rows < fuel)%nat → (length rows < m)%nat →
  ∃ node1 out heap' node', ExecReScanIndexScan am node = Ok node1 ∧
    run_node upd horizon committed removable true vis dead recovery started cleanup_lock minfree am index m fuel heap node1 = Ok (heap', node', out) ∧
    out ≡ₚ rows_of node (row_versions upd vis dead heap0 (sql_answer key rows)) ∧
    heap_like upd horizon removable vis dead heap0 heap'.
Proof.
  intros am ks Hs Hh Hv Hk (Hdir & _ & sd & Hp & Hsd) Hfind Hq Hqe Hf Hm. subst am.
  assert (Hlen : length ks = length (iss_ScanKeys node)) by (unfold ks; destruct (nonempty _); [apply runtime_keys_length|done]).
  rewrite <- Hlen in Hp. assert (Hu : usable key = true) by (by apply List.find_some in Hfind as [_ ?]).
  assert (HN : ∃ node1 R', ExecReScanIndexScan temporal_rtree_handler node = Ok node1 ∧ rows_of node1 = rows_of node ∧
     node_pending started index (rtree_cube_to_box (sk_argument key)) (sk_strategy key) node1 R' ∧
     R' ≡ₚ map row_tuple (filter (λ r, key_test key (row_key r) = true) rows)).
  { unfold ExecReScanIndexScan. fold ks. cbv zeta. cbn [set_keys iss_ScanDesc iss_RuntimeKeys iss_ScanKeys]. destruct (iss_ScanDesc node) as [sd0|].
    - subst sd0. destruct (restart_pending index n rows q stg sd R ks key Hs Hp Hfind) as (sd' & R' & E & Hp' & HR). rewrite E. rsimpl.
      eexists _, R'. split_and!; try done. split_and!; [done|cbn; by rewrite andb_false_r|]. exists sd'. split; [exact Hp'|done].
    - destruct (start_pending started index n ks key rows Hs Hfind) as (sd' & R' & E & Hp' & HR). rsimpl.
      eexists _, R'. split_and!; try done. split_and!; [done|cbn; by rewrite andb_false_r|]. exists sd'. split; [exact Hp'|exact E]. }
  destruct HN as (node1 & R' & E & Hro & Hp' & HR).
  destruct (answer_run upd horizon committed removable vis dead recovery started cleanup_lock minfree index heap0 _ _ node1 R' rows key fuel m heap Hh Hp' HR)
    as (out & heap' & node' & Er & Hh' & _ & Ho); try done.
  exists node1, out, heap', node'. rewrite Hro in Ho. split_and!; done.
Qed.

(** * Witnesses *)

(** A heap of one page, with the chain of HotChain.v, and nodes that scan for [demo_key]. *)
Definition hot_heap : list (@HeapBuffer Z unit) := [mkHeapBuffer hot_page 10].
Definition hot_node (sd : option ScanDesc) (rks : list (nat * option NDBOX)) : @IndexScanState Z :=
  mkIndexScanState sd [demo_key] rks true false 1 1 (λ _, true) None None.

Lemma hot_page_no_stray off : ¬ stray (λ _, 0) hot_page (status hot_horizon old_xid None 0) off.
Proof.
  intros (t & Hl & _ & Hd & _ & Hn). destruct (hot_page_member off t Hl) as [[-> ->]|[-> ->]].
  - apply (Hn 1 _ hot_page_chain). apply (list_elem_of_lookup_2 _ 1). vm_compute. reflexivity.
  - vm_compute in Hd. discriminate Hd.
Qed.

Lemma hot_heap_sound i b : hot_heap !! i = Some b → sound_page (λ _, 0) hot_horizon old_xid hot_vis (Z.of_nat i) b.
Proof.
  destruct i as [|i]; [|done]. intros [= <-]. split; [exact hot_page_prunable|exact hot_page_no_stray].
Qed.

Lemma index_scan_answers_sql_witness :
  let am := temporal_rtree_handler in
  let hrows := [mkHeapRow (ItemPointerSet 0 1) (Some (temporalbox 10 1577836800 None)) true] in
  ∃ index out heap' node',
    ambuild am hrows 1 (mkRel [] true []) = (index, Ok (mkBuildResult 1 1)) ∧
    run_node (λ _, 0) hot_horizon (λ _, true) old_xid true hot_vis (λ _, true) false false (λ _, true) 8192 am index 2 2 hot_heap (hot_node None []) = Ok (heap', node', out) ∧
    out ≡ₚ [(ItemPointerSet 0 3, new_version)] ∧
    ∀ tid, valid_tid hot_heap tid → version (λ _, 0) hot_vis (λ _, true) heap' tid = version (λ _, 0) hot_vis (λ _, true) hot_heap tid.
Proof.
  intros am hrows. apply (index_scan_answers_sql (λ _, 0) hot_horizon (λ _, true) old_xid hot_vis (λ _, true) false false (λ _, true) 8192
    hot_heap hrows 1 demo_key (hot_node None []) 2 2).
  - unfold hrows. rewrite !Forall_cons, Forall_nil. cbn [heap_value]. split; [|done]. apply temporalbox_sql_key; vm_compute; easy.
  - apply Nat.leb_le. vm_compute. reflexivity.
  - exact hot_heap_sound.
  - unfold hrows. rewrite !Forall_cons, Forall_nil. split; [|done]. vm_compute. split; [discriminate|reflexivity].
  - reflexivity.
  - split; vm_compute; discriminate.
  - apply key_cubeb_sound. vm_compute. reflexivity.
  - split_and!; [apply exact_i2d; reflexivity..].
  - reflexivity.
  - reflexivity.
  - reflexivity.
  - reflexivity.
  - apply Nat.ltb_lt. vm_compute. reflexivity.
  - apply Nat.ltb_lt. vm_compute. reflexivity.
Defined.

Lemma rescan_answers_new_keys_witness :
  let am := temporal_rtree_handler in
  let rks := [(0%nat, Some (temporalbox 10 1577836800 (Some 1577836900)))] in
  ∃ index sd node1 out heap' node', ExecReScanIndexScan am (hot_node (Some sd) rks) = Ok node1 ∧
    run_node (λ _, 0) hot_horizon (λ _, true) old_xid true hot_vis (λ _, true) false false (λ _, true) 8192 am index 2 2 hot_heap node1 = Ok (heap', node', out) ∧
    out ≡ₚ [(ItemPointerSet 0 3, new_version)] ∧
    heap_like (λ _, 0) hot_horizon old_xid hot_vis (λ _, true) hot_heap heap'.
Proof.
  intros am rks. set (hrows := [mkHeapRow (ItemPointerSet 0 1) (Some (temporalbox 10 1577836800 None)) true]).
  assert (Hk : sql_key (temporalbox 10 1577836800 None)) by (apply temporalbox_sql_key; vm_compute; easy).
  destruct (build_run hrows 1) as (index & _ & Hs).
  { unfold hrows. rewrite !Forall_cons, Forall_nil. cbn. split; [by apply sql_key_good|done]. }
  { apply Nat.leb_le. vm_compute. reflexivity. }
  destruct (start_pending false index _ [demo_key] demo_key _ Hs) as (sd & R & _ & Hp & _); [vm_compute; reflexivity|].
  exists index, sd.
  apply (rescan_answers_new_keys (λ _, 0) hot_horizon (λ _, true) old_xid hot_vis (λ _, true) false false (λ _, true) 8192 index hot_heap hot_heap _
    (keyed_rows hrows) (hot_node (Some sd) rks) (rtree_cube_to_box (sk_argument demo_key)) (sk_strategy demo_key) R
    (mkKey 0 TRTREE_STRATEGY_OVERLAP (temporalbox 10 1577836800 (Some 1577836900))) 2 2 Hs).
  - apply heap_like_refl, hot_heap_sound.
  - unfold hrows. cbn [keyed_rows omap list_omap keyed heap_value]. rewrite !Forall_cons, Forall_nil. split; [|done]. vm_compute. split; [discriminate|reflexivity].
  - unfold hrows. cbn [keyed_rows omap list_omap keyed heap_value]. rewrite !Forall_cons, Forall_nil. split; [exact Hk|done].
  - split_and!; [done|done|]. by exists sd.
  - vm_compute. reflexivity.
  - apply key_cubeb_sound. vm_compute. reflexivity.
  - split_and!; [apply exact_i2d; reflexivity..].
  - apply Nat.ltb_lt. vm_compute. reflexivity.
  - apply Nat.ltb_lt. vm_compute. reflexivity.
Defined.
